(* ===== verification/_CoqProject ===== *)
-Q . S2P
Prelude.v
Bytes.v
Jsonl.v
Crypto.v
Merkle.v
Money.v
Entry.v
AuditTrail.v
FourEyes.v
SqlGuard.v
WalRecord.v
Wal.v
Recovery.v
WalRotate.v
Replication.v
ReplSafety.v
Tx.v
TxLog.v
Page.v
EntryDb.v
Sql.v
Store.v
StoreFrame.v
StoreLog.v
StoreBooks.v
StoreInv.v
StoreReverse.v
StoreSafety.v
StoreHistory.v
StoreAudit.v
StoreHold.v
StoreSnapshot.v
StoreReplay.v
StoreReopen.v
StoreLive.v
SqlExec.v
SqlSafety.v
SqlPlan.v
SqlFront.v
UserAuth.v
UserSafety.v
Server.v
ServerSafety.v
PgCodec.v
PgWire.v
PgSafety.v
Index.v
License.v
Compliance.v
Hsm.v
Secrets.v
Fs.v
Backup.v
BackupSafety.v
BackupRoundtrip.v
Keys.v
KeyRotate.v
SqlText.v
McpText.v
McpTools.v
McpSafety.v
McpNet.v
McpReports.v
McpServer.v
McpServerSafety.v
AuditPackage.v
AuditPackageSafety.v
Import.v
ImportSafety.v
DirLock.v
Alerts.v
Instances.v
OpsInstances.v
StoreWitness.v
OpsWitness.v
CoreWitness.v
ServerWitness.v
ExtWitness.v
BackupWitness.v
McpWitness.v
