(* ===== verification/Prelude.v ===== *)
(** * VectorLedger: a verification development (root file)

    VectorLedger is a double-entry ledger database: journal entries are hashed,
    chained and signed, written through a write-ahead log into encrypted pages
    and a SQLite index, queried through a small SQL dialect, served over a native
    line protocol, over the PostgreSQL protocol and to language-model agents
    (MCP), replicated to followers, backed up into archives, and surrounded by an
    audit log, a four-eyes approval queue, an external key daemon and secrets
    providers.  This library models the Rust crates under [src/crates] as
    executable definitions and proves what makes them correct.

    ** The parts and the files that model them

    - This file: [Result], the state-and-error monad [M] over a [World] (clock,
      random numbers and, for every I/O call, whether it fails), its frame rules
      ([preserves]), triples, totality, runs without failures ([calm],
      [succeeds]), ordered maps, and the judgements [reaches], [gives] and
      [never].  [Bytes]: machine integers, little-endian encodings,
      self-delimiting encodings, the bincode interface [Codec].  [Jsonl]: UTF-8,
      lines, the interfaces [Json] and [Hex].
    - vledger-crypto: [Crypto] (hash.rs, chains), [Merkle] (merkle.rs), [Keys]
      (kdf.rs); the envelope of encrypt.rs is in [Page].
    - vledger-wal: [WalRecord] (record.rs, encrypt.rs, reader.rs), [Wal]
      (segment.rs, writer.rs), [Recovery] (recovery.rs), [WalRotate]
      (key_rotation.rs).
    - vledger-transaction: [Tx] (tx.rs, mvcc.rs, manager.rs), [TxLog].
    - vledger-pages: [Page] (header.rs, page.rs, store.rs).
    - vledger-ledger: [Money] (amount.rs, currency.rs, account.rs), [Entry]
      (entry.rs), [EntryDb] (entry_db.rs), [Store] (store.rs), [DirLock]
      (lockfile.rs); the proofs about the store are split by topic:
      [StoreFrame], [StoreLog], [StoreBooks], [StoreInv], [StoreReverse],
      [StoreSafety], [StoreHistory], [StoreAudit], [StoreHold],
      [StoreSnapshot], [StoreReplay], [StoreReopen], [StoreLive].
    - vledger-audit: [AuditTrail].  vledger-foureyes: [FourEyes].
    - vledger-index: [Index] (btree.rs, hash_index.rs).
    - vledger-sql: [SqlGuard] (parser.rs), [Sql] (result.rs, plans,
      optimizer.rs), [SqlPlan] (planner.rs), [SqlExec] (executor.rs), with
      [SqlSafety] and [SqlFront].
    - vledger-replication: [Replication], [ReplSafety].
    - vledger-server: [UserAuth], [UserSafety] (auth.rs), [Server],
      [ServerSafety] (handler.rs, protocol.rs), [Alerts] (alert.rs).
    - vledger-pgwire: [PgCodec] (codec.rs, messages.rs), [PgWire], [PgSafety]
      (server.rs).
    - vledger-license: [License].  vledger-compliance: [Compliance].
    - vledger-hsm: [Hsm] (client.rs, protocol.rs, remote.rs, pkcs11.rs).
      vledger-secrets: [Secrets] (provider.rs).
    - vledger-mcp: [SqlText] (the SQL fragment the tools write), [McpText]
      (values and texts), [McpTools] (tools.rs), [McpNet] (network.rs),
      [McpServer] (lib.rs, counter.rs); the proofs are in [McpSafety],
      [McpReports] and [McpServerSafety].
    - vledger (the command-line program): [Fs], a file system with symbolic
      links, and [Backup] (backup.rs) with [BackupSafety] and
      [BackupRoundtrip]; [KeyRotate] (key_rotation.rs); [AuditPackage]
      (audit_package.rs) with [AuditPackageSafety]; [Import] (the import command
      of main.rs) with [ImportSafety].
    - [Instances], [OpsInstances]: executable instances of the external functions
      and a concrete ledger; [StoreWitness], [OpsWitness], [CoreWitness],
      [ServerWitness], [ExtWitness], [BackupWitness], [McpWitness]: the theorems
      applied at concrete inputs, with the instances only they need.

    ** How the code is translated

    A method that takes [&mut self] and returns a [Result] is a computation in
    [M S E]: it threads the state [S] of its component, and an [Err] keeps the
    state reached so far, so partial effects of a failed call are visible.  Every
    call of the operating system is an [io] step that may fail in any environment;
    a failed write may leave a prefix of the data.  A component that calls
    another one runs it on a field of its own state ([zoom]).  Where calls of
    several processes or threads interleave (the lock of the data directory,
    audit appends), the calls are steps of a relation.  Integers stay within the
    width of the source type by explicit wrapping, saturation or checks.  Code
    outside the repository is a class with its documented laws: BLAKE3
    ([Blake3], [Blake3Keyed]), Ed25519, AES-GCM, HKDF, CRC-32 and bincode
    ([WalExt], [PageExt], [LedgerCodecs]), serde_json and hex, Argon2
    ([AuthExt]), the SQL parser ([ServerExt]; for the tools [SqlReads], which
    says only how it reads the statements they write), the iteration order of
    hash maps ([LedgerExt]), tar and the names of files ([BackupExt], [FsExt]),
    the key daemon's transports ([HsmExt]), the HTTP services of secrets
    ([SecretsExt]), the connection and the counter file of the MCP server
    ([NetExt], [CounterExt]), the texts of packages ([PackageExt]), CSV and
    dates ([ImportExt]), the alert configuration ([AlertExt]).  No law says that
    hashes do not collide: theorems about tampering return the two strings that
    collide.

    ** What the theorems show

    - Entries and the ledger: canonical bytes and hash chains determine the
      entries up to a collision; in every environment posting is atomic and
      writes exactly one row to the log, the books and (unless SQLite fails) the
      index.  For runs without I/O failures ([reachable], [steps]): posting is
      idempotent under its key and keeps the trial balance; history is
      append-only; reversal mirrors; holds freeze (the bulk import, which does
      not look at them, apart); snapshots are stable; the checks of the store
      report exactly what they claim or the deviation is stated; reopening
      restores the books; admissible entries are accepted.  One open lock file at
      a time holds the data directory while nobody deletes it.
    - Log and transactions: append, read back, torn writes, crash atomicity and
      durability of commit, recovery against a specification of the committed
      transactions, key rotation safe at every failure and equal to the old log.
    - Merkle proofs complete and sound; pages read back as written.
    - Audit log under every interleaving of appends; the approval queue refines
      an abstract machine and keeps submitter and approver apart.
    - SQL: SELECT never writes, the proofs attached to a scan verify, grouping,
      balances and postings are exact, limits of the query scanner.
    - Users and servers: tokens carry current rights, revocation is final,
      lockout, and only an authorised session changes the ledger, on both
      protocols; what is sent on the PostgreSQL protocol is read back; which
      alerts are posted.
    - Replication: in-step replicas receive exactly the shipped records; the
      handshake and the divergence check are exact.
    - Backups: the walk ends on every file system and archives nothing outside
      the data directory; an archive of a tree without links restores to the
      same files; a successful restore has verified every file of the archive's
      manifest; what the checks miss.
    - Keys: derivation contexts differ; a rotation of the keys of the daemon
      reports what it did; a sealed key and the loss of an answer.
    - MCP: a tool writes only with the rights of its session, the posting tool is
      one posting with the values of its arguments whatever characters they
      hold, the reading tools in network mode leave the server's ledger alone,
      query limits hold per month; the reports that cannot see what they report
      on.
    - Audit packages: a generated package and every entry proof verify; exactly
      which full packages pass; an entry proof is not tied to its entry, and the
      last entry can be repeated.
    - Import: each imported row is one balanced entry on the chain, the counters
      are exact, and keys are only known as of the start of the run, so a file
      imported twice is booked twice.

    ** Fuel and bounds

    Recursion is structural wherever the code's loop is over data.  The loops
    with fuel are: [drain] (a segment reader takes at least four bytes per
    record, fuel is the length of the file plus one), the Merkle layers (each
    halves, fuel is the number of leaves), [scan_sql] and the trimming functions
    (one byte at least per round, fuel is the length), [read_line_loop] (two
    rounds reach the end of the stream), [lossy_loop] and [parse_params] (one
    byte per round), the walk over a directory (each level makes the path longer,
    fuel is one more than the longest path the system accepts; the error for
    missing fuel is proved not to occur).  The theorems are about the functions
    with that fuel; where [None] stands for missing fuel a theorem shows that it
    does not occur.

    ** Not modelled

    TLS, sockets, accept and reconnect loops and their rate limiters, thread
    pools and background flushers, metrics, the event-stream transport of the
    MCP server, the wrappers around Argon2, the other commands of main.rs and the
    self test (argument parsing, console output and calls of the modelled
    operations), and the Kani harnesses: they are I/O, presentation or calls to
    services whose behaviour is not in the repository.  Concurrency is modelled
    where the code relies on it (audit appends, the lock of the data directory);
    elsewhere a lock makes each call one step.  Unicode case mapping is
    restricted to ASCII, except on the PostgreSQL listener.  Further work: the remaining commands of main.rs
    (migration of the index, retention and rules files), the rate limiters of the
    listeners. *)

From stdpp Require Import base gmap list strings option fin_maps sorting.
From Stdlib Require Import ZArith Lia Strings.Byte.

#[global] Open Scope Z_scope.

Declare Scope vledger_scope.
Delimit Scope vledger_scope with vl.

(** ** Results

    Rust's [Result<A, E>], with the error type first so that [Result E] is a
    monad. *)

Inductive Result (E A : Type) : Type :=
  | Ok (a : A)
  | Err (e : E).
Arguments Ok {E A} _.
Arguments Err {E A} _.

#[global] Instance Result_ret E : MRet (Result E) := fun A a => Ok a.
#[global] Instance Result_bind E : MBind (Result E) :=
  fun A B f r => match r with Ok a => f a | Err e => Err e end.
#[global] Instance Result_fmap E : FMap (Result E) :=
  fun A B f r => match r with Ok a => Ok (f a) | Err e => Err e end.

(** [r.map_err(f)] *)
Definition res_map_err {E F A} (f : E → F) (r : Result E A) : Result F A :=
  match r with Ok a => Ok a | Err e => Err (f e) end.

(** [r.ok()] *)
Definition res_ok {E A} (r : Result E A) : option A :=
  match r with Ok a => Some a | Err _ => None end.

(** [r.unwrap_or(d)] *)
Definition res_unwrap_or {E A} (d : A) (r : Result E A) : A :=
  match r with Ok a => a | Err _ => d end.

(** [o.ok_or(e)] *)
Definition ok_or {E A} (o : option A) (e : E) : Result E A :=
  match o with Some a => Ok a | None => Err e end.

Definition is_ok {E A} (r : Result E A) : bool :=
  match r with Ok _ => true | Err _ => false end.

Lemma Ok_inj {E A} (a b : A) : Ok (E:=E) a = Ok b → a = b.
Proof. by intros [= ->]. Qed.

Lemma res_bind_Ok {E A B} (r : Result E A) (f : A → Result E B) b :
  r ≫= f = Ok b ↔ ∃ a, r = Ok a ∧ f a = Ok b.
Proof. destruct r; cbn; naive_solver. Qed.

(** ** The environment

    What the code obtains from outside the process: the wall clock
    ([Utc::now], [SystemTime::now]), the random generator ([Uuid::new_v4],
    AEAD nonces) and the outcome of each I/O call.  Each is a stream of
    future answers; an exhausted stream answers with its default (time 0,
    value 0, no failure).  Every theorem quantifies over the environment. *)

Record World := mkWorld {
  w_clock : list Z;     (* successive answers of the clock, in nanoseconds *)
  w_rng   : list Z;     (* successive random values *)
  w_io    : list bool   (* successive I/O outcomes: [true] is a failure *)
}.

Definition quiet : World := mkWorld [] [] [].

(** ** The state-and-error monad

    A computation over a component state [S] reads and updates the world and
    the state and returns a [Result]; like a Rust method taking [&mut self],
    it keeps the updates made before an error is returned. *)

Definition M (S E A : Type) : Type := World * S → Result E A * (World * S).

#[global] Instance M_ret S E : MRet (M S E) := fun A a σ => (Ok a, σ).
#[global] Instance M_bind S E : MBind (M S E) := fun A B f m σ =>
  match m σ with
  | (Ok a, σ') => f a σ'
  | (Err e, σ') => (Err e, σ')
  end.

Section ops.
Context {S E : Type}.

Definition throw {A} (e : E) : M S E A := fun σ => (Err e, σ).
Definition liftR {A} (r : Result E A) : M S E A := fun σ => (r, σ).
Definition gets {A} (f : S → A) : M S E A := fun σ => (Ok (f σ.2), σ).
Definition modify (f : S → S) : M S E unit := fun σ => (Ok tt, (σ.1, f σ.2)).

(** The result of [m] as a value: the caller inspects or discards an error
    ([if let Err(e) = ...], [.unwrap_or(..)], [let _ = ...]). *)
Definition attempt {F A} (m : M S F A) : M S E (Result F A) :=
  fun σ => let '(r, σ') := m σ in (Ok r, σ').

Definition map_err {F A} (g : F → E) (m : M S F A) : M S E A :=
  fun σ => let '(r, σ') := m σ in (res_map_err g r, σ').

(** One clock reading, one random draw, one I/O call. *)
Definition now : M S E Z := fun '(w, s) =>
  (Ok (default 0 (head (w_clock w))),
   (mkWorld (tail (w_clock w)) (w_rng w) (w_io w), s)).
Definition rand : M S E Z := fun '(w, s) =>
  (Ok (default 0 (head (w_rng w))),
   (mkWorld (w_clock w) (tail (w_rng w)) (w_io w), s)).
Definition io (e : E) : M S E unit := fun '(w, s) =>
  (if default false (head (w_io w)) then Err e else Ok tt,
   (mkWorld (w_clock w) (w_rng w) (tail (w_io w)), s)).

(** [for x in xs { f(x)?; }] *)
Fixpoint forM {A} (f : A → M S E unit) (xs : list A) : M S E unit :=
  match xs with
  | [] => mret tt
  | x :: xs => f x ≫= fun _ => forM f xs
  end.
End ops.

(** Run a method of a field: [self.field.method(..)]. *)
Definition zoom {S T E A} (get : T → S) (set : S → T → T) (m : M S E A) : M T E A :=
  fun '(w, t) => let '(r, (w', s')) := m (w, get t) in (r, (w', set s' t)).

(** *** Reasoning about computations *)

Lemma mbind_inv {S E A B} (m : M S E A) (f : A → M S E B) σ r σ' :
  (m ≫= f) σ = (r, σ') →
  (∃ a σ1, m σ = (Ok a, σ1) ∧ f a σ1 = (r, σ')) ∨
  (∃ e, m σ = (Err e, σ') ∧ r = Err e).
Proof.
  unfold mbind, M_bind. destruct (m σ) as [[a|e] σ1]; intros H; [left|right]; eauto.
  simplify_eq. eauto.
Qed.

Lemma mbind_Ok_inv {S E A B} (m : M S E A) (f : A → M S E B) σ b σ' :
  (m ≫= f) σ = (Ok b, σ') →
  ∃ a σ1, m σ = (Ok a, σ1) ∧ f a σ1 = (Ok b, σ').
Proof. intros [?|(?&?&?)]%mbind_inv; [done|simplify_eq]. Qed.

Lemma mbind_eq {S E A B} (m : M S E A) (f : A → M S E B) σ a σ' :
  m σ = (Ok a, σ') → (m ≫= f) σ = f a σ'.
Proof. unfold mbind, M_bind. by intros ->. Qed.

Lemma mbind_err {S E A B} (m : M S E A) (f : A → M S E B) σ e σ' :
  m σ = (Err e, σ') → (m ≫= f) σ = (Err e, σ').
Proof. unfold mbind, M_bind. by intros ->. Qed.

Lemma forM_app {S E A} (f : A → M S E unit) xs ys σ : forM f (xs ++ ys) σ = (forM f xs ≫= λ _, forM f ys) σ.
Proof.
  revert σ. induction xs as [|x xs IH]; intros σ; [done|]. cbn [forM app]. unfold mbind, M_bind in *.
  destruct (f x σ) as [[u|e] σ1]; [apply IH|done].
Qed.

(** Without failures pending, an I/O call does nothing. *)
Lemma io_quiet {S E} (e : E) W (s : S) : w_io W = [] → io e (W, s) = (Ok tt, (W, s)).
Proof. unfold io. destruct W; cbn. by intros ->. Qed.

(** [minv]: invert one successful monadic equation in the context. *)
Ltac minv_step :=
  match goal with
  | H : (_ ≫= _) _ = (Ok _, _) |- _ =>
      apply mbind_Ok_inv in H; destruct H as (?&?&?&H)
  | H : mret _ _ = (_, _) |- _ => unfold mret, M_ret in H; simplify_eq/=
  | H : throw _ _ = (_, _) |- _ => unfold throw in H; simplify_eq/=
  | H : gets _ _ = (_, _) |- _ => unfold gets in H; simplify_eq/=
  | H : modify _ _ = (_, _) |- _ => unfold modify in H; simplify_eq/=
  | H : liftR _ _ = (_, _) |- _ => unfold liftR in H; simplify_eq/=
  end.
Ltac minv := repeat first [ minv_step | progress (simplify_eq/=) ].

(** *** Frame reasoning: a computation preserves a property of its state on
    every path, normal or error, in every environment. *)

Definition preserves {S E A} (P : S → Prop) (m : M S E A) : Prop :=
  ∀ w s, P s → P ((m (w, s)).2.2).

Section preserves.
Context {S E : Type} (P : S → Prop).

Lemma preserves_ret {A} (a : A) : preserves (E:=E) P (mret a).
Proof. by intros w s. Qed.
Lemma preserves_throw {A} (e : E) : preserves (A:=A) P (throw e).
Proof. by intros w s. Qed.
Lemma preserves_liftR {A} (r : Result E A) : preserves P (liftR r).
Proof. by intros w s. Qed.
Lemma preserves_gets {A} (f : S → A) : preserves (E:=E) P (gets f).
Proof. by intros w s. Qed.
Lemma preserves_modify (f : S → S) : (∀ s, P s → P (f s)) → preserves (E:=E) P (modify f).
Proof. intros Hf w s. apply Hf. Qed.
Lemma preserves_now : preserves (E:=E) P now.
Proof. by intros w s. Qed.
Lemma preserves_rand : preserves (E:=E) P rand.
Proof. by intros w s. Qed.
Lemma preserves_io (e : E) : preserves P (io e).
Proof. by intros w s. Qed.

Lemma preserves_bind {A B} (m : M S E A) (f : A → M S E B) :
  preserves P m → (∀ a, preserves P (f a)) → preserves P (m ≫= f).
Proof.
  intros Hm Hf w s Hs. specialize (Hm w s Hs).
  unfold mbind, M_bind. destruct (m (w, s)) as [[a|e] [w' s']]; [|done]. by apply Hf.
Qed.

Lemma preserves_attempt {F A} (m : M S F A) :
  preserves P m → preserves P (attempt (E:=E) m).
Proof.
  intros Hm w s Hs. specialize (Hm w s Hs). unfold attempt. by destruct (m (w, s)).
Qed.

Lemma preserves_map_err {F A} (g : F → E) (m : M S F A) :
  preserves P m → preserves P (map_err g m).
Proof.
  intros Hm w s Hs. specialize (Hm w s Hs). unfold map_err. by destruct (m (w, s)).
Qed.

Lemma preserves_forM {A} (f : A → M S E unit) xs :
  (∀ x, preserves P (f x)) → preserves P (forM f xs).
Proof.
  intros Hf. induction xs; cbn; [apply preserves_ret|].
  apply preserves_bind; auto.
Qed.

(** A step on a field preserves what its code preserves of the field. *)
Lemma preserves_zoom_field {T F A} (get : T → S) (set : S → T → T) (m : M S F A) :
  (∀ s t, get (set s t) = s) → (∀ w s, P s → P ((m (w, s)).2.2)) → preserves (λ t, P (get t)) (zoom get set m).
Proof.
  intros Hgs Hm w t Ht. specialize (Hm w (get t) Ht). unfold zoom.
  destruct (m (w, get t)) as [r [w' s']]. cbn. by rewrite Hgs.
Qed.

(** A step on a field preserves what does not depend on the field. *)
Lemma preserves_zoom {T F A} (Q : T → Prop) (get : T → S) (set : S → T → T) (m : M S F A) :
  (∀ s t, Q t → Q (set s t)) → preserves Q (zoom get set m).
Proof.
  intros Hset w t Ht. unfold zoom. destruct (m (w, get t)) as [r [w' s']]. by apply Hset.
Qed.
End preserves.

Create HintDb preserves.
#[export] Hint Resolve preserves_ret preserves_throw preserves_liftR preserves_gets
  preserves_now preserves_rand preserves_io preserves_attempt preserves_map_err
  preserves_forM : preserves.
#[export] Hint Extern 1 (preserves _ (_ ≫= _)) => apply preserves_bind : preserves.

(** [solve_preserves]: a computation built from steps that preserve [P]; an
    update of the state is left to the caller. *)
Ltac solve_preserves :=
  repeat match goal with
  | |- preserves _ (_ ≫= _) => apply preserves_bind; [|intros]
  | |- preserves _ (forM _ _) => apply preserves_forM; intros
  | |- preserves _ (match ?x with _ => _ end) => destruct x
  end; eauto with preserves.

(** *** Triples: from [P], the computation returns in [Q] or fails in [R]. *)

Definition triple {S E A} (P : S → Prop) (m : M S E A) (Q : A → S → Prop) (R : S → Prop) : Prop :=
  ∀ w s, P s → match m (w, s) with (Ok a, (_, s')) => Q a s' | (Err _, (_, s')) => R s' end.

Section triple.
Context {S E : Type}.

Lemma triple_bind {A B} P (m : M S E A) (f : A → M S E B) Q Q' R :
  triple P m Q R → (∀ a, triple (Q a) (f a) Q' R) → triple P (m ≫= f) Q' R.
Proof.
  intros Hm Hf w s Hs. specialize (Hm w s Hs). unfold mbind, M_bind.
  destruct (m (w, s)) as [[a|e] [w' s']]; [by apply Hf|done].
Qed.
Lemma triple_weaken {A} (P P' : S → Prop) (m : M S E A) (Q Q' : A → S → Prop) (R R' : S → Prop) :
  triple P' m Q' R' → (∀ s, P s → P' s) → (∀ a s, Q' a s → Q a s) → (∀ s, R' s → R s) → triple P m Q R.
Proof.
  intros Hm HP HQ HR w s Hs. specialize (Hm w s (HP s Hs)). destruct (m (w, s)) as [[a|e] [w' s']]; auto.
Qed.
Lemma triple_ret {A} (a : A) (Q : A → S → Prop) R : triple (E:=E) (Q a) (mret a) Q R.
Proof. by intros w s. Qed.
Lemma triple_throw {A} (e : E) (Q : A → S → Prop) (R : S → Prop) : triple R (throw e) Q R.
Proof. by intros w s. Qed.
Lemma triple_gets {A} (f : S → A) P R : triple (E:=E) P (gets f) (λ a s, P s ∧ a = f s) R.
Proof. by intros w s. Qed.
Lemma triple_modify (f : S → S) (Q : S → Prop) R : triple (E:=E) (λ s, Q (f s)) (modify f) (λ _, Q) R.
Proof. by intros w s. Qed.
Lemma triple_preserves {A} (P : S → Prop) (m : M S E A) : triple P m (λ _, P) P ↔ preserves P m.
Proof.
  split; intros Hm w s Hs; specialize (Hm w s Hs); by destruct (m (w, s)) as [[a|e] [w' s']].
Qed.
(** A step that keeps the state. *)
Lemma triple_keep {A} (m : M S E A) (P R : S → Prop) :
  (∀ s0, preserves (λ s, s = s0) m) → (∀ s, P s → R s) → triple P m (λ _, P) R.
Proof.
  intros Hm HR w s Hs. specialize (Hm s w s eq_refl). destruct (m (w, s)) as [[a|e] [w' s']]; cbn in Hm; subst; auto.
Qed.
End triple.

(** *** Computations that never fail *)

Definition total {S E A} (m : M S E A) : Prop := ∀ σ, ∃ a σ', m σ = (Ok a, σ').

Section total.
Context {S E : Type}.

Lemma total_bind {A B} (m : M S E A) (f : A → M S E B) : total m → (∀ a, total (f a)) → total (m ≫= f).
Proof. intros Hm Hf σ. destruct (Hm σ) as (a & σ' & Ha). rewrite (mbind_eq _ _ _ _ _ Ha). apply Hf. Qed.
Lemma total_ret {A} (a : A) : total (S:=S) (E:=E) (mret a).
Proof. intros σ. by eexists _, _. Qed.
Lemma total_gets {A} (f : S → A) : total (E:=E) (gets f).
Proof. intros σ. by eexists _, _. Qed.
Lemma total_modify (f : S → S) : total (E:=E) (modify f).
Proof. intros σ. by eexists _, _. Qed.
Lemma total_now : total (S:=S) (E:=E) now.
Proof. intros [W s]. by eexists _, _. Qed.
Lemma total_rand : total (S:=S) (E:=E) rand.
Proof. intros [W s]. by eexists _, _. Qed.
Lemma total_attempt {F A} (m : M S F A) : total (attempt (E:=E) m).
Proof. intros σ. unfold attempt. destruct (m σ) as [r σ']. by eexists _, _. Qed.
Lemma total_zoom {T A} (get : T → S) (set : S → T → T) (m : M S E A) : total m → total (zoom get set m).
Proof. intros Hm [W t]. destruct (Hm (W, get t)) as (a & [W' s'] & Ha). unfold zoom. rewrite Ha. by eexists _, _. Qed.
End total.

Create HintDb total.
#[export] Hint Resolve total_ret total_gets total_modify total_now total_rand total_attempt total_zoom : total.
Ltac solve_total :=
  repeat match goal with
  | |- total (_ ≫= _) => apply total_bind; [|intros]
  | |- total (match ?x with _ => _ end) => destruct x
  end; eauto with total.

(** *** Environments without failures: once no failure is pending, none is. *)

Definition calm {S E A} (m : M S E A) : Prop :=
  ∀ W s, w_io W = [] → w_io (m (W, s)).2.1 = [].

Section calm.
Context {S E : Type}.

Lemma calm_ret {A} (a : A) : calm (S:=S) (E:=E) (mret a).
Proof. by intros W s. Qed.
Lemma calm_throw {A} (e : E) : calm (S:=S) (A:=A) (throw e).
Proof. by intros W s. Qed.
Lemma calm_liftR {A} (r : Result E A) : calm (S:=S) (liftR r).
Proof. by intros W s. Qed.
Lemma calm_gets {A} (f : S → A) : calm (E:=E) (gets f).
Proof. by intros W s. Qed.
Lemma calm_modify (f : S → S) : calm (E:=E) (modify f).
Proof. by intros W s. Qed.
Lemma calm_now : calm (S:=S) (E:=E) now.
Proof. by intros W s. Qed.
Lemma calm_rand : calm (S:=S) (E:=E) rand.
Proof. by intros W s. Qed.
Lemma calm_io (e : E) : calm (S:=S) (io e).
Proof. intros W s Hio. cbn. by rewrite Hio. Qed.
Lemma calm_bind {A B} (m : M S E A) (f : A → M S E B) : calm m → (∀ a, calm (f a)) → calm (m ≫= f).
Proof.
  intros Hm Hf W s Hio. specialize (Hm W s Hio). unfold mbind, M_bind.
  destruct (m (W, s)) as [[a|e] [W' s']]; [by apply Hf|done].
Qed.
Lemma calm_attempt {F A} (m : M S F A) : calm m → calm (attempt (E:=E) m).
Proof. intros Hm W s Hio. specialize (Hm W s Hio). unfold attempt. by destruct (m (W, s)). Qed.
Lemma calm_map_err {F A} (g : F → E) (m : M S F A) : calm m → calm (map_err g m).
Proof. intros Hm W s Hio. specialize (Hm W s Hio). unfold map_err. by destruct (m (W, s)). Qed.
Lemma calm_zoom {T A} (get : T → S) (set : S → T → T) (m : M S E A) : calm m → calm (zoom get set m).
Proof.
  intros Hm W t Hio. specialize (Hm W (get t) Hio). unfold zoom. by destruct (m (W, get t)) as [? [? ?]].
Qed.
Lemma calm_forM {A} (f : A → M S E unit) xs : (∀ x, calm (f x)) → calm (forM f xs).
Proof. intros Hf. induction xs; cbn; [apply calm_ret|]. apply calm_bind; auto. Qed.

(** Run-based form. *)
Lemma calm_run {A} (m : M S E A) W s r W' s' :
  calm m → m (W, s) = (r, (W', s')) → w_io W = [] → w_io W' = [].
Proof. intros Hm Hr Hio. specialize (Hm W s Hio). by rewrite Hr in Hm. Qed.
End calm.

Create HintDb calm.
#[export] Hint Resolve calm_ret calm_throw calm_liftR calm_gets calm_modify calm_now calm_rand calm_io
  calm_attempt calm_map_err calm_zoom calm_forM : calm.

(** [solve_calm]: the code of a computation built from calm parts. *)
Ltac solve_calm :=
  repeat match goal with
  | |- calm (_ ≫= _) => apply calm_bind; [|intros]
  | |- calm (forM _ _) => apply calm_forM; intros
  | |- calm (match ?x with _ => _ end) => destruct x
  end; eauto with calm.

(** *** Computations that return, in an environment without failures *)

Definition succeeds {S E A} (m : M S E A) (W : World) (s : S) : Prop :=
  ∃ a W' s', m (W, s) = (Ok a, (W', s')) ∧ w_io W' = [].

Lemma succeeds_bind {S E A B} (m : M S E A) (f : A → M S E B) W s :
  succeeds m W s → (∀ a W' s', m (W, s) = (Ok a, (W', s')) → w_io W' = [] → succeeds (f a) W' s') → succeeds (m ≫= f) W s.
Proof.
  intros (a & W' & s' & Hm & Hio) Hf. destruct (Hf a W' s' Hm Hio) as (b & W2 & s2 & Hb & Hio2).
  exists b, W2, s2. split; [|done]. by rewrite (mbind_eq _ _ _ _ _ Hm).
Qed.

Lemma succeeds_ret {S E A} (a : A) W s : w_io W = [] → succeeds (S:=S) (E:=E) (mret a) W s.
Proof. intros Hio. by exists a, W, s. Qed.
Lemma succeeds_liftR {S E A} (a : A) r W s : w_io W = [] → r = Ok a → succeeds (S:=S) (E:=E) (liftR r) W s.
Proof. intros Hio ->. by exists a, W, s. Qed.
Lemma succeeds_io {S E} (e : E) W (s : S) : w_io W = [] → succeeds (io e) W s.
Proof. intros Hio. exists tt, W, s. by rewrite io_quiet. Qed.
Lemma succeeds_modify {S E} (f : S → S) W s : w_io W = [] → succeeds (E:=E) (modify f) W s.
Proof. intros Hio. by exists tt, W, (f s). Qed.
Lemma succeeds_gets {S E A} (f : S → A) W s : w_io W = [] → succeeds (E:=E) (gets f) W s.
Proof. intros Hio. by exists (f s), W, s. Qed.
Lemma succeeds_now {S E} W (s : S) : w_io W = [] → succeeds (E:=E) now W s.
Proof. intros Hio. by eexists _, _, s. Qed.
Lemma succeeds_rand {S E} W (s : S) : w_io W = [] → succeeds (E:=E) rand W s.
Proof. intros Hio. by eexists _, _, s. Qed.
Lemma succeeds_attempt {S E F A} (m : M S F A) W s : succeeds m W s → succeeds (E:=E) (attempt m) W s.
Proof. intros (a & W' & s' & Hm & Hio). exists (Ok a), W', s'. unfold attempt. by rewrite Hm. Qed.
Lemma succeeds_zoom {S T E F A} (get : T → S) (set : S → T → T) (g : E → F) (m : M S E A) W t :
  succeeds m W (get t) → succeeds (map_err g (zoom get set m)) W t.
Proof.
  intros (a & W' & s' & Hm & Hio). exists a, W', (set s' t). split; [|done]. unfold map_err, zoom. by rewrite Hm.
Qed.

Create HintDb succeeds discriminated.
#[export] Hint Resolve succeeds_ret succeeds_io succeeds_modify succeeds_gets succeeds_now succeeds_rand succeeds_attempt : succeeds.

(** Run the computation up to the next step that is not immediate. *)
Ltac step_ok :=
  apply succeeds_bind; [by auto with succeeds|let a := fresh "a" in intros a ? ? ? ?].

(** ** Lists *)

Lemma filter_all {A} (P : A → Prop) `{∀ x, Decision (P x)} l :
  Forall P l → filter P l = l.
Proof.
  induction 1 as [|x l Hx _ IH]; [done|]. rewrite filter_cons_True by done. by rewrite IH.
Qed.

Lemma filter_none {A} (P : A → Prop) `{∀ x, Decision (P x)} l :
  Forall (λ x, ¬ P x) l → filter P l = [].
Proof. induction 1 as [|x l Hx _ IH]; [done|]. by rewrite filter_cons_False. Qed.

(** ** Ordered maps

    A finite map with integer keys, read in key order. *)

Definition sorted_keys {A} (m : gmap Z A) : list Z := merge_sort Z.le (elements (dom m)).

Section ordered.
Context {A : Type}.
Implicit Types m : gmap Z A.

Lemma sorted_keys_dom {B} m (m' : gmap Z B) : dom m = dom m' → sorted_keys m = sorted_keys m'.
Proof. unfold sorted_keys. by intros ->. Qed.

Lemma elem_of_sorted_keys m i : i ∈ sorted_keys m ↔ is_Some (m !! i).
Proof. unfold sorted_keys. rewrite merge_sort_Permutation, elem_of_elements. apply elem_of_dom. Qed.

Lemma sorted_keys_sorted m : StronglySorted Z.le (sorted_keys m).
Proof. apply StronglySorted_merge_sort; apply _. Qed.

Lemma sorted_keys_NoDup m : NoDup (sorted_keys m).
Proof. unfold sorted_keys. rewrite merge_sort_Permutation. apply NoDup_elements. Qed.

(** A key above all others comes last. *)
Lemma sorted_keys_snoc m n c :
  (∀ i, i ∈ sorted_keys m → i < n) → sorted_keys (<[n := c]> m) = sorted_keys m ++ [n].
Proof.
  intros Hlt. apply (StronglySorted_unique Z.le).
  - apply sorted_keys_sorted.
  - apply StronglySorted_app_2; [|apply sorted_keys_sorted|repeat constructor].
    intros x y Hx ->%list_elem_of_singleton. specialize (Hlt x Hx). lia.
  - unfold sorted_keys. rewrite !merge_sort_Permutation, dom_insert_L.
    rewrite elements_union_singleton; [by rewrite Permutation_app_comm|].
    intros Hn. assert (n ∈ sorted_keys m) as Hx by (by apply elem_of_sorted_keys, elem_of_dom).
    specialize (Hlt n Hx). lia.
Qed.

(** The values in key order. *)
Definition sorted_values m : list A := omap (λ k, m !! k) (sorted_keys m).

Lemma sorted_values_snoc m n c :
  (∀ i, i ∈ sorted_keys m → i < n) → sorted_values (<[n := c]> m) = sorted_values m ++ [c].
Proof.
  intros Hlt. unfold sorted_values. rewrite sorted_keys_snoc, omap_app by done. cbn.
  rewrite lookup_insert_eq. f_equal. apply list_omap_ext, Forall_Forall2_diag, Forall_forall.
  intros k Hk. rewrite lookup_insert_ne; [done|]. specialize (Hlt k Hk). lia.
Qed.

Lemma elem_of_sorted_values m v : v ∈ sorted_values m ↔ ∃ k, m !! k = Some v.
Proof.
  unfold sorted_values. rewrite list_elem_of_omap. setoid_rewrite elem_of_sorted_keys. naive_solver.
Qed.
End ordered.

(** * More ways to reason about runs

    Three judgements about computations in [M]: [reaches] (without failures the
    run returns and its outcome satisfies a postcondition), [gives] (in every
    environment an invariant of the state is kept and results satisfy a
    property) and [never] (a given error does not occur). *)

(** ** Runs that end well

    [reaches m s Q]: in every environment without failures [m] returns a value
    and reaches a state with [Q]. *)

Definition reaches {S E A} (m : M S E A) (s : S) (Q : A → S → Prop) : Prop :=
  ∀ W, w_io W = [] → ∃ a W' s', m (W, s) = (Ok a, (W', s')) ∧ w_io W' = [] ∧ Q a s'.

Section reaches.
Context {S E : Type}.

Lemma reaches_bind {A B} (m : M S E A) (f : A → M S E B) s Q :
  reaches m s (λ a s', reaches (f a) s' Q) → reaches (m ≫= f) s Q.
Proof.
  intros Hm W HW. destruct (Hm W HW) as (a & W' & s' & He & HW' & Hf).
  destruct (Hf W' HW') as (b & W2 & s2 & Hb & HW2 & HQ). exists b, W2, s2. by rewrite (mbind_eq _ _ _ _ _ He).
Qed.
Lemma reaches_mono {A} (m : M S E A) s (Q Q' : A → S → Prop) :
  reaches m s Q → (∀ a s', Q a s' → Q' a s') → reaches m s Q'.
Proof. intros Hm HQ W HW. destruct (Hm W HW) as (a & W' & s' & He & HW' & H). exists a, W', s'. eauto. Qed.
Lemma reaches_ret {A} (a : A) s (Q : A → S → Prop) : Q a s → reaches (E:=E) (mret a) s Q.
Proof. intros HQ W HW. by exists a, W, s. Qed.
Lemma reaches_io (e : E) s (Q : unit → S → Prop) : Q tt s → reaches (io e) s Q.
Proof. intros HQ W HW. exists tt, W, s. by rewrite io_quiet. Qed.
Lemma reaches_gets {A} (f : S → A) s (Q : A → S → Prop) : Q (f s) s → reaches (E:=E) (gets f) s Q.
Proof. intros HQ W HW. by exists (f s), W, s. Qed.
Lemma reaches_modify (f : S → S) s (Q : unit → S → Prop) : Q tt (f s) → reaches (E:=E) (modify f) s Q.
Proof. intros HQ W HW. by exists tt, W, (f s). Qed.
Lemma reaches_rand s (Q : Z → S → Prop) : (∀ r, Q r s) → reaches (E:=E) rand s Q.
Proof. intros HQ W HW. by eexists _, _, s. Qed.
Lemma reaches_now s (Q : Z → S → Prop) : (∀ r, Q r s) → reaches (E:=E) now s Q.
Proof. intros HQ W HW. by eexists _, _, s. Qed.
Lemma reaches_liftR {A} (r : Result E A) a s (Q : A → S → Prop) : r = Ok a → Q a s → reaches (liftR r) s Q.
Proof. intros -> HQ W HW. by exists a, W, s. Qed.
Lemma reaches_attempt {F A} (m : M S F A) s (Q : Result F A → S → Prop) :
  reaches m s (λ a, Q (Ok a)) → reaches (E:=E) (attempt m) s Q.
Proof.
  intros Hm W HW. destruct (Hm W HW) as (a & W' & s' & He & HW' & H). exists (Ok a), W', s'.
  split; [|done]. unfold attempt. by rewrite He.
Qed.
End reaches.

(** ** Computations that do not fail with a given error *)

Definition never {S E A} (x : E) (m : M S E A) : Prop := ∀ σ σ', m σ ≠ (Err x, σ').

Section never.
Context {S E : Type} (x : E).

Lemma never_bind {A B} (m : M S E A) (f : A → M S E B) : never x m → (∀ a, never x (f a)) → never x (m ≫= f).
Proof. intros Hm Hf σ σ' [(a & σ1 & _ & Hb)|(e & He & [= <-])]%mbind_inv; [by eapply Hf|by eapply Hm]. Qed.
Lemma never_ret {A} (a : A) : never (S:=S) x (mret a).
Proof. by intros σ σ'. Qed.
Lemma never_gets {A} (f : S → A) : never x (gets f).
Proof. by intros σ σ'. Qed.
Lemma never_throw {A} (e : E) : e ≠ x → never (S:=S) (A:=A) x (throw e).
Proof. by intros He σ σ' [= ? ?]. Qed.
Lemma never_io (e : E) : e ≠ x → never (S:=S) x (io e).
Proof. intros He [w s] σ'. unfold io. case_match; [by intros [= ? ?]|done]. Qed.
Lemma never_attempt {F A} (m : M S F A) : never x (attempt m).
Proof. intros σ σ'. unfold attempt. by destruct (m σ). Qed.
Lemma never_liftR {A} (r : Result E A) : r ≠ Err x → never (S:=S) x (liftR r).
Proof. intros Hr σ σ' [= ->]. done. Qed.
Lemma never_modify (f : S → S) : never x (modify f).
Proof. by intros σ σ'. Qed.
Lemma never_now : never (S:=S) x now.
Proof. by intros [W s] σ'. Qed.
Lemma never_rand : never (S:=S) x rand.
Proof. by intros [W s] σ'. Qed.
Lemma never_map_err {F A} (g : F → E) (m : M S F A) : (∀ e, g e = x → never e m) → never x (map_err g m).
Proof. intros Hm σ σ'. unfold map_err. destruct (m σ) as [[b|e] σ1] eqn:Hr; [done|]. intros [= Hg ->]. by eapply (Hm e). Qed.
Lemma never_zoom {T A} (get : T → S) (set : S → T → T) (m : M S E A) : never x m → never x (zoom get set m).
Proof. intros Hm [W t] [W' t']. unfold zoom. destruct (m (W, get t)) as [r [W1 s1]] eqn:Hr. intros [= -> _ _]. by eapply Hm. Qed.
End never.

Create HintDb never.
#[export] Hint Resolve never_ret never_gets never_modify never_now never_rand never_attempt : never.

(** ** Results under an invariant of the state *)

Definition gives {S E A} (I : S → Prop) (m : M S E A) (Φ : A → Prop) : Prop :=
  ∀ w s, I s → I (m (w, s)).2.2 ∧ ∀ a, (m (w, s)).1 = Ok a → Φ a.

Section gives.
Context {S E : Type} (I : S → Prop).

Lemma gives_bind {A B} (m : M S E A) (f : A → M S E B) Φ Ψ :
  gives I m Φ → (∀ a, Φ a → gives I (f a) Ψ) → gives I (m ≫= f) Ψ.
Proof.
  intros Hm Hf w s Hs. destruct (Hm w s Hs) as [HI HΦ]. unfold mbind, M_bind.
  destruct (m (w, s)) as [[a|e] [w' s']]; cbn in *; [|by split].
  apply Hf; [by apply HΦ|done].
Qed.
Lemma gives_mono {A} (m : M S E A) (Φ Ψ : A → Prop) : gives I m Φ → (∀ a, Φ a → Ψ a) → gives I m Ψ.
Proof. intros Hm HΦ w s Hs. destruct (Hm w s Hs). split; eauto. Qed.
Lemma gives_ret {A} (a : A) (Φ : A → Prop) : Φ a → gives (E:=E) I (mret a) Φ.
Proof. intros Ha w s Hs. split; [done|]. by intros ? [= <-]. Qed.
Lemma gives_throw {A} (e : E) (Φ : A → Prop) : gives I (throw e) Φ.
Proof. by intros w s Hs. Qed.
Lemma gives_io (e : E) : gives I (io e) (λ _, True).
Proof. by intros w s Hs. Qed.
Lemma gives_rand : gives (E:=E) I rand (λ _, True).
Proof. by intros w s Hs. Qed.
Lemma gives_now : gives (E:=E) I now (λ _, True).
Proof. by intros w s Hs. Qed.
Lemma gives_gets {A} (f : S → A) : gives (E:=E) I (gets f) (λ a, ∃ s, I s ∧ a = f s).
Proof. intros w s Hs. split; [done|]. intros a [= <-]. by exists s. Qed.
Lemma gives_modify (f : S → S) : (∀ s, I s → I (f s)) → gives (E:=E) I (modify f) (λ _, True).
Proof. intros Hf w s Hs. split; [by apply Hf|done]. Qed.
Lemma gives_liftR {A} (r : Result E A) : gives I (liftR r) (λ a, r = Ok a).
Proof. by intros w s Hs. Qed.
Lemma gives_attempt {F A} (m : M S F A) Φ :
  gives I m Φ → gives (E:=E) I (attempt m) (λ r, match r with Ok a => Φ a | Err _ => True end).
Proof.
  intros Hm w s Hs. destruct (Hm w s Hs) as [HI HΦ]. unfold attempt.
  destruct (m (w, s)) as [r [w' s']]; cbn in *. split; [done|]. intros r' [= <-]. destruct r; eauto.
Qed.
End gives.

(** ** Single steps *)

Lemma io_state {S E} (e : E) (σ : World * S) r σ' : io e σ = (r, σ') → σ'.2 = σ.2.
Proof. destruct σ. unfold io. intros [= _ <-]. done. Qed.

Lemma liftR_Ok {S E A} (r : Result E A) (σ : World * S) a σ' : liftR r σ = (Ok a, σ') → r = Ok a ∧ σ' = σ.
Proof. unfold liftR. by intros [= -> <-]. Qed.

Lemma attempt_Ok {S E F A} (m : M S F A) (σ : World * S) r σ' :
  attempt (E:=E) m σ = (Ok r, σ') → m σ = (r, σ').
Proof. unfold attempt. destruct (m σ). by intros [= -> <-]. Qed.
