(* ===== verification/Bytes.v ===== *)
(** * Bytes, machine integers and encodings

    Bytes are [Byte.byte]; a [u8] buffer is a [list byte].  A [w]-bit integer
    is a [Z] kept in range by the operations that wrap it.  The file defines
    little-endian conversion ([to_le_bytes], [from_le_bytes]), the casts the
    code uses, the notion of a self-delimiting encoding used to prove that
    hashed byte strings determine the record they were built from, and the
    interface of the serializer (bincode) the program calls. *)

From stdpp Require Import base gmap list strings option fin_maps countable.
From Stdlib Require Import ZArith Lia Strings.Byte.
From S2P Require Import Prelude.

Notation byte := Byte.byte.
Notation bytes := (list Byte.byte).

#[global] Instance byte_eq_dec : EqDecision byte := Byte.byte_eq_dec.
#[global] Program Instance byte_countable : Countable byte :=
  inj_countable Byte.to_N Byte.of_N Byte.of_to_N.

(** ** Machine integers *)

Definition u16_ok (z : Z) : Prop := 0 ≤ z < 2 ^ 16.
Definition u32_ok (z : Z) : Prop := 0 ≤ z < 2 ^ 32.
Definition u64_ok (z : Z) : Prop := 0 ≤ z < 2 ^ 64.
Definition i64_ok (z : Z) : Prop := - 2 ^ 63 ≤ z < 2 ^ 63.
Definition i128_ok (z : Z) : Prop := - 2 ^ 127 ≤ z < 2 ^ 127.
Definition uuid_ok (z : Z) : Prop := 0 ≤ z < 2 ^ 128.

Definition U64_MAX : Z := 2 ^ 64 - 1.
Definition I64_MIN : Z := - 2 ^ 63.
Definition I64_MAX : Z := 2 ^ 63 - 1.

(** [x as u16], [x as u32], [x as u64]: truncation. *)
Definition as_u16 (z : Z) : Z := z mod 2 ^ 16.
Definition as_u32 (z : Z) : Z := z mod 2 ^ 32.
Definition as_u64 (z : Z) : Z := z mod 2 ^ 64.

(** [x as i64]: reinterpretation of the low 64 bits as two's complement. *)
Definition as_i64 (z : Z) : Z :=
  let u := z mod 2 ^ 64 in if u <? 2 ^ 63 then u else u - 2 ^ 64.

(** [a + b] on [u64] in a release build (no overflow checks). *)
Definition wadd_u64 (a b : Z) : Z := as_u64 (a + b).

(** [u64::saturating_sub] *)
Definition sat_sub (a b : Z) : Z := Z.max 0 (a - b).

Lemma as_i64_small z : 0 ≤ z < 2 ^ 63 → as_i64 z = z.
Proof.
  intros H. unfold as_i64. rewrite Z.mod_small by lia.
  destruct (Z.ltb_spec z (2 ^ 63)); lia.
Qed.

Lemma as_i64_range z : i64_ok (as_i64 z).
Proof.
  unfold as_i64, i64_ok. pose proof (Z.mod_pos_bound z (2 ^ 64)).
  destruct (Z.ltb_spec (z mod 2 ^ 64) (2 ^ 63)); lia.
Qed.

Lemma as_u64_small z : u64_ok z → as_u64 z = z.
Proof. unfold u64_ok, as_u64. intros. by rewrite Z.mod_small. Qed.

Lemma wadd_u64_small a : 0 ≤ a < 2 ^ 64 - 1 → wadd_u64 a 1 = a + 1.
Proof. intros. apply as_u64_small. unfold u64_ok. lia. Qed.

(** ** Bytes and little-endian strings *)

Definition byte_of_Z (z : Z) : byte :=
  default Byte.x00 (Byte.of_N (Z.to_N (z mod 256))).
Definition Z_of_byte (b : byte) : Z := Z.of_N (Byte.to_N b).

Lemma Z_of_byte_range b : 0 ≤ Z_of_byte b < 256.
Proof. unfold Z_of_byte. pose proof (Byte.to_N_bounded b). lia. Qed.

Lemma Z_of_byte_of_Z z : Z_of_byte (byte_of_Z z) = z mod 256.
Proof.
  unfold Z_of_byte, byte_of_Z. pose proof (Z.mod_pos_bound z 256).
  destruct (Byte.of_N (Z.to_N (z mod 256))) as [b|] eqn:Hb; cbn.
  - apply Byte.to_of_N in Hb. rewrite Hb. lia.
  - apply Byte.of_N_None_iff in Hb. lia.
Qed.

Lemma byte_of_Z_of_byte b : byte_of_Z (Z_of_byte b) = b.
Proof.
  unfold byte_of_Z. rewrite Z.mod_small by apply Z_of_byte_range.
  unfold Z_of_byte. by rewrite N2Z.id, Byte.of_to_N.
Qed.

Lemma byte_of_Z_mod z : byte_of_Z (z mod 256) = byte_of_Z z.
Proof. unfold byte_of_Z. by rewrite Z.mod_mod. Qed.

(** The [n] low-order bytes of [z], least significant first. *)
Fixpoint le_bytes (n : nat) (z : Z) : bytes :=
  match n with
  | O => []
  | S n => byte_of_Z z :: le_bytes n (z / 256)
  end.

Fixpoint le_val (bs : bytes) : Z :=
  match bs with
  | [] => 0
  | b :: bs => Z_of_byte b + 256 * le_val bs
  end.

Lemma le_bytes_length n z : length (le_bytes n z) = n.
Proof. revert z; induction n; cbn; auto. Qed.

Lemma le_val_range bs : 0 ≤ le_val bs < 256 ^ Z.of_nat (length bs).
Proof.
  induction bs as [|b bs IH]; [done|].
  cbn [le_val length]. rewrite Nat2Z.inj_succ, Z.pow_succ_r by lia.
  pose proof (Z_of_byte_range b). lia.
Qed.

Lemma le_val_bytes n z : le_val (le_bytes n z) = z mod 256 ^ Z.of_nat n.
Proof.
  revert z. induction n as [|n IH]; intros z; [by rewrite Z.mod_1_r|].
  cbn [le_bytes le_val]. rewrite IH, Z_of_byte_of_Z, Nat2Z.inj_succ, Z.pow_succ_r by lia.
  rewrite Z.rem_mul_r by lia. lia.
Qed.

Lemma le_bytes_val n bs : length bs = n → le_bytes n (le_val bs) = bs.
Proof.
  revert n. induction bs as [|b bs IH]; intros n <-; [done|].
  cbn [le_val length le_bytes]. pose proof (Z_of_byte_range b).
  rewrite (Z.add_comm (Z_of_byte b)), (Z.mul_comm 256), Z.div_add_l, (Z.div_small (Z_of_byte b)) by lia.
  rewrite Z.add_0_r, IH by done. f_equal.
  rewrite <- byte_of_Z_mod, Z.add_comm, Z_mod_plus_full, Z.mod_small by lia.
  apply byte_of_Z_of_byte.
Qed.

(** [n]-byte encodings determine the integer modulo [256 ^ n]. *)
Lemma le_bytes_inj_mod n a b :
  le_bytes n a = le_bytes n b → a mod 256 ^ Z.of_nat n = b mod 256 ^ Z.of_nat n.
Proof. intros H. by rewrite <- !le_val_bytes, H. Qed.

Lemma le_bytes_inj n a b :
  0 ≤ a < 256 ^ Z.of_nat n → 0 ≤ b < 256 ^ Z.of_nat n → le_bytes n a = le_bytes n b → a = b.
Proof. intros ?? H%le_bytes_inj_mod. by rewrite !Z.mod_small in H. Qed.

Lemma le_bytes_inj_signed n a b :
  - (256 ^ Z.of_nat n) ≤ 2 * a < 256 ^ Z.of_nat n →
  - (256 ^ Z.of_nat n) ≤ 2 * b < 256 ^ Z.of_nat n →
  le_bytes n a = le_bytes n b → a = b.
Proof.
  intros Ha Hb H%le_bytes_inj_mod. set (m := 256 ^ Z.of_nat n) in *.
  assert (0 < m) by (apply Z.pow_pos_nonneg; lia).
  assert (Hd : (a - b) mod m = 0).
  { rewrite Zminus_mod, H, Z.sub_diag. apply Z.mod_0_l. lia. }
  apply Z.mod_divide in Hd as [k Hk]; [|lia].
  assert (k = 0) by nia. nia.
Qed.

#[global] Arguments le_bytes : simpl never.
#[global] Arguments le_val : simpl never.

(** [to_le_bytes] at each width. *)
Definition le16 : Z → bytes := le_bytes 2.
Definition le32 : Z → bytes := le_bytes 4.
Definition le64 : Z → bytes := le_bytes 8.

(** [Uuid::as_bytes]: the 16 bytes of the identifier, most significant first. *)
Definition uuid_bytes (u : Z) : bytes := rev (le_bytes 16 u).

(** [str::as_bytes] *)
Definition str_bytes (s : string) : bytes := String.list_byte_of_string s.

Lemma str_bytes_inj s t : str_bytes s = str_bytes t → s = t.
Proof.
  intros H. apply (f_equal String.string_of_list_byte) in H.
  unfold str_bytes in H. by rewrite !String.string_of_list_byte_of_string in H.
Qed.
Lemma str_bytes_app s t : str_bytes (s +:+ t) = str_bytes s ++ str_bytes t.
Proof. induction s as [|c s IH]; [done|]. exact (f_equal (cons _) IH). Qed.
Lemma str_bytes_of bs : str_bytes (String.string_of_list_byte bs) = bs.
Proof. apply String.list_byte_of_string_of_list_byte. Qed.

(** Splitting a string in two ways. *)
Lemma app_split {A} (a b p q : list A) :
  a ++ b = p ++ q → (length a ≤ length p)%nat → ∃ p', p = a ++ p' ∧ b = p' ++ q.
Proof.
  intros [(k & -> & ->)|(k & -> & ->)]%app_eq_inv Hl; [|eauto].
  rewrite length_app in Hl. destruct k; [|cbn in Hl; lia]. exists []. by rewrite !app_nil_r.
Qed.

(** ** Self-delimiting encodings

    [self_delim P enc]: on values satisfying [P], an encoding followed by
    anything determines both the value and what follows. *)

Definition self_delim {A} (P : A → Prop) (enc : A → bytes) : Prop :=
  ∀ a b r s, P a → P b → enc a ++ r = enc b ++ s → a = b ∧ r = s.

Lemma self_delim_inj {A} (P : A → Prop) enc a b :
  self_delim P enc → P a → P b → enc a = enc b → a = b.
Proof. intros H Ha Hb He. eapply (H a b [] []); auto. by rewrite He. Qed.

(** Fixed-width encodings. *)
Lemma self_delim_fixed {A} (P : A → Prop) (enc : A → bytes) n :
  (∀ a, P a → length (enc a) = n) →
  (∀ a b, P a → P b → enc a = enc b → a = b) →
  self_delim P enc.
Proof.
  intros Hlen Hinj a b r s Ha Hb He.
  apply app_inj_1 in He as [He ?]; [|by rewrite !Hlen]. auto.
Qed.

Lemma self_delim_le n : self_delim (λ z, 0 ≤ z < 256 ^ Z.of_nat n) (le_bytes n).
Proof.
  apply self_delim_fixed with n; intros; [apply le_bytes_length|]. by apply le_bytes_inj with n.
Qed.

Lemma self_delim_le64s : self_delim i64_ok le64.
Proof.
  apply self_delim_fixed with 8%nat; [by intros; apply le_bytes_length|].
  unfold i64_ok. intros a b Ha Hb. apply le_bytes_inj_signed; cbn; lia.
Qed.

Lemma self_delim_uuid : self_delim uuid_ok uuid_bytes.
Proof.
  apply self_delim_fixed with 16%nat.
  - intros. unfold uuid_bytes. by rewrite length_rev, le_bytes_length.
  - unfold uuid_bytes, uuid_ok. intros a b Ha Hb H.
    apply (f_equal (@rev byte)) in H. rewrite !rev_involutive in H.
    apply le_bytes_inj in H; auto; cbn; lia.
Qed.

Lemma self_delim_byte {A} (P : A → Prop) (f : A → byte) :
  (∀ a b, P a → P b → f a = f b → a = b) → self_delim P (λ a, [f a]).
Proof.
  intros Hf. apply self_delim_fixed with 1%nat; [done|]. intros a b Ha Hb [= H]. auto.
Qed.

(** Sequences of elements, the count being known. *)
Lemma self_delim_concat {A} (P : A → Prop) (enc : A → bytes) l1 l2 r s :
  self_delim P enc → Forall P l1 → Forall P l2 → length l1 = length l2 →
  concat (map enc l1) ++ r = concat (map enc l2) ++ s → l1 = l2 ∧ r = s.
Proof.
  intros H H1 H2 Hl. revert l2 H2 Hl. induction H1 as [|a l1 Ha H1 IH];
    intros [|b l2] H2 Hl He; inversion Hl; inversion H2; subst; [done|].
  cbn in He. rewrite <- !app_assoc in He. apply H in He as [-> He]; auto.
  apply IH in He as [-> ->]; auto.
Qed.

(** ** The serializer

    [bincode::serde::encode_to_vec] and [decode_from_slice] for a type [A]
    under a fixed configuration.  Encoding reports an error as [None];
    decoding reads a prefix of the slice and ignores what follows it, as the
    program does when it drops the consumed length. *)

Class Codec (A : Type) := {
  enc : A → option bytes;
  dec : bytes → option A;
  dec_enc : ∀ a bs rest, enc a = Some bs → dec (bs ++ rest) = Some a
}.

Lemma dec_enc' `{Codec A} (a : A) bs : enc a = Some bs → dec bs = Some a.
Proof. intros Ha. rewrite <- (app_nil_r bs). by apply dec_enc. Qed.
