(* ===== verification/Jsonl.v ===== *)
(** * Text files of JSON lines

    The audit log and the approval queue keep their records in text files,
    one JSON document per line.  The file models what the standard library
    gives them: UTF-8 validation, [str::trim], [BufRead::lines] and
    [writeln!] on a file opened for appending.  [serde_json] and [hex] are
    parameters ([Json], [Hex]) with their documented laws: what was written
    is read back, and a serialized structure is one line of text. *)

From stdpp Require Import base gmap list strings option fin_maps.
From Stdlib Require Import ZArith Lia Strings.Byte.
From S2P Require Import Prelude Bytes.

(** ** UTF-8 *)

Definition is_cont (b : byte) : bool := (128 <=? Z_of_byte b) && (Z_of_byte b <=? 191).
Definition in_range (lo hi : Z) (b : byte) : bool := (lo <=? Z_of_byte b) && (Z_of_byte b <=? hi).

(** The low six bits of a continuation byte. *)
Definition low6 (b : byte) : Z := Z.land (Z_of_byte b) 63.

(** [str::from_utf8]: the code points of a well-formed string (no overlong
    forms, no surrogates, nothing above U+10FFFF). *)
Fixpoint utf8_decode (bs : bytes) : option (list Z) :=
  match bs with
  | [] => Some []
  | b0 :: r0 =>
      let c := Z_of_byte b0 in
      if c <=? 127 then cons c <$> utf8_decode r0
      else if (194 <=? c) && (c <=? 223) then
        match r0 with
        | b1 :: r1 =>
            if is_cont b1 then cons (Z.land c 31 * 64 + low6 b1) <$> utf8_decode r1 else None
        | _ => None
        end
      else if (224 <=? c) && (c <=? 239) then
        match r0 with
        | b1 :: b2 :: r2 =>
            if in_range (if c =? 224 then 160 else 128) (if c =? 237 then 159 else 191) b1 && is_cont b2
            then cons (Z.land c 15 * 4096 + low6 b1 * 64 + low6 b2) <$> utf8_decode r2 else None
        | _ => None
        end
      else if (240 <=? c) && (c <=? 244) then
        match r0 with
        | b1 :: b2 :: b3 :: r3 =>
            if in_range (if c =? 240 then 144 else 128) (if c =? 244 then 143 else 191) b1 && is_cont b2 && is_cont b3
            then cons (Z.land c 7 * 262144 + low6 b1 * 4096 + low6 b2 * 64 + low6 b3) <$> utf8_decode r3
            else None
        | _ => None
        end
      else None
  end.

Definition utf8_valid (bs : bytes) : bool := bool_decide (is_Some (utf8_decode bs)).

(** [char::is_whitespace] (Unicode White_Space). *)
Definition is_whitespace (c : Z) : bool :=
  ((9 <=? c) && (c <=? 13)) || (c =? 32) || (c =? 133) || (c =? 160) || (c =? 5760) ||
  ((8192 <=? c) && (c <=? 8202)) || (c =? 8232) || (c =? 8233) || (c =? 8239) || (c =? 8287) || (c =? 12288).

(** [line.trim().is_empty()] on a valid string. *)
Definition blank (bs : bytes) : bool :=
  match utf8_decode bs with Some cs => forallb is_whitespace cs | None => false end.

(** ** Lines *)

Definition nl : byte := Byte.x0a.
Definition cr : byte := Byte.x0d.

(** The lines of a file, each with its terminator (the last may lack one). *)
Fixpoint raw_lines (bs : bytes) : list bytes :=
  match bs with
  | [] => []
  | b :: bs =>
      if bool_decide (b = nl) then [b] :: raw_lines bs
      else match raw_lines bs with
           | [] => [[b]]
           | l :: ls => (b :: l) :: ls
           end
  end.

(** What [Lines::next] removes from a line it read: a line feed, and then a
    carriage return before it. *)
Definition pop_last (b : byte) (l : bytes) : option bytes :=
  match rev l with
  | c :: r => if bool_decide (c = b) then Some (rev r) else None
  | [] => None
  end.
Definition strip_eol (l : bytes) : bytes :=
  match pop_last nl l with
  | Some l' => default l' (pop_last cr l')
  | None => l
  end.

(** The contents of a file of terminated lines. *)
Definition unlines (ls : list bytes) : bytes := concat (map (λ l, l ++ [nl]) ls).

Lemma unlines_app ls ls' : unlines (ls ++ ls') = unlines ls ++ unlines ls'.
Proof. unfold unlines. by rewrite map_app, concat_app. Qed.

Lemma unlines_snoc ls l : unlines (ls ++ [l]) = unlines ls ++ l ++ [nl].
Proof. rewrite unlines_app. unfold unlines; cbn. by rewrite app_nil_r. Qed.

Lemma raw_lines_line l rest : nl ∉ l → raw_lines (l ++ nl :: rest) = (l ++ [nl]) :: raw_lines rest.
Proof.
  induction l as [|b l IH]; intros Hl; cbn.
  - by rewrite bool_decide_true.
  - apply not_elem_of_cons in Hl as [Hb Hl]. rewrite bool_decide_false by done. by rewrite IH.
Qed.

(** Reading a file of terminated lines gives back the lines. *)
Lemma raw_lines_unlines ls : Forall (λ l, nl ∉ l) ls → raw_lines (unlines ls) = map (λ l, l ++ [nl]) ls.
Proof.
  induction 1 as [|l ls Hl _ IH]; [done|]. unfold unlines in *. cbn.
  rewrite <- app_assoc. cbn. rewrite raw_lines_line by done. by rewrite IH.
Qed.

Lemma pop_last_snoc b l : pop_last b (l ++ [b]) = Some l.
Proof. unfold pop_last. rewrite rev_app_distr. cbn. rewrite bool_decide_true by done. by rewrite rev_involutive. Qed.

Lemma strip_eol_line l : cr ∉ l → strip_eol (l ++ [nl]) = l.
Proof.
  intros Hl. unfold strip_eol. rewrite pop_last_snoc. unfold pop_last.
  destruct (rev l) as [|c r] eqn:Hr; [done|].
  rewrite bool_decide_false; [done|]. intros ->. apply Hl.
  rewrite <- (rev_involutive l), Hr. cbn. set_solver.
Qed.

(** ** JSON and hexadecimal *)

(** One line of text: valid UTF-8, no control characters, not blank. *)
Definition text_line (l : bytes) : Prop :=
  utf8_valid l = true ∧ Forall (λ b, 32 ≤ Z_of_byte b) l ∧ blank l = false.

Class Json (A : Type) := {
  to_json : A → option bytes;
  from_json : bytes → option A;
  json_roundtrip : ∀ a l, to_json a = Some l → from_json l = Some a;
  json_line : ∀ a l, to_json a = Some l → text_line l
}.

Class Hex := {
  hex_enc : bytes → bytes;
  hex_dec : bytes → option bytes;
  hex_roundtrip : ∀ bs, hex_dec (hex_enc bs) = Some bs;
  hex_enc_length : ∀ bs, length (hex_enc bs) = (2 * length bs)%nat;
  hex_enc_digits : ∀ bs, Forall (λ c, 48 ≤ Z_of_byte c ≤ 102) (hex_enc bs);
  hex_dec_length : ∀ s bs, hex_dec s = Some bs → length s = (2 * length bs)%nat
}.

Lemma hex_enc_inj `{Hex} a b : hex_enc a = hex_enc b → a = b.
Proof. intros He. pose proof (hex_roundtrip a) as Ha. rewrite He, hex_roundtrip in Ha. congruence. Qed.

Lemma text_line_sep l : text_line l → nl ∉ l ∧ cr ∉ l.
Proof.
  intros (_&Hl&_). rewrite Forall_forall in Hl.
  split; intros Hin%Hl; revert Hin; by vm_compute.
Qed.

(** A line feed does not change whether a string is valid UTF-8. *)
Lemma utf8_ascii_snoc l b : Z_of_byte b ≤ 127 → utf8_valid l = true → utf8_valid (l ++ [b]) = true.
Proof.
  intros Hb. unfold utf8_valid. rewrite !bool_decide_eq_true.
  remember (length l) as n eqn:Hn. assert (Hle : (length l ≤ n)%nat) by lia. clear Hn.
  revert l Hle. induction n as [|n IH]; intros l Hle; destruct l as [|b0 r0]; cbn in Hle; try lia.
  1,2: intros _; cbn; destruct (Z.leb_spec (Z_of_byte b) 127); [by eexists|lia].
  assert (Hgo : ∀ c l', (length l' < S n)%nat → is_Some (cons c <$> utf8_decode l') → ∀ c', is_Some (cons c' <$> utf8_decode (l' ++ [b]))).
  { intros c l' Hl' [x Hx] c'. apply fmap_Some in Hx as (y&Hy&_).
    destruct (IH l') as [z Hz]; [lia|by eexists|]. rewrite Hz. by eexists. }
  cbn [utf8_decode app].
  repeat case_match; simplify_eq/=; try (by intros [? [=]]); intros Hs;
    try (eapply Hgo; [|exact Hs]; cbn; lia); try congruence.
Qed.

(** ** Reading

    [for line in reader.lines() { let line = line?; ... }]: an I/O outcome per
    line, then the UTF-8 check of the line that was read. *)
Section files.
Context {S E : Type} (io_err : E).

Definition next_line (raw : bytes) : M S E bytes :=
  _ ← io io_err;
  if utf8_valid raw then mret (strip_eol raw) else throw io_err.

(** Fold over the non-blank lines. *)
Fixpoint for_lines {A} (f : A → bytes → M S E A) (a : A) (raws : list bytes) : M S E A :=
  match raws with
  | [] => mret a
  | raw :: raws =>
      line ← next_line raw;
      if blank line then for_lines f a raws
      else a' ← f a line; for_lines f a' raws
  end.

(** The same fold in a [Result], for a file whose lines are read without an
    I/O error. *)
Fixpoint fold_lines {A} (f : A → bytes → Result E A) (a : A) (ls : list bytes) : Result E A :=
  match ls with
  | [] => Ok a
  | l :: ls => match f a l with Ok a' => fold_lines f a' ls | Err e => Err e end
  end.

(** A line of text is read as it was written. *)
Lemma next_line_text l W s : text_line l → w_io W = [] → next_line (l ++ [nl]) (W, s) = (Ok l, (W, s)).
Proof.
  intros Hl Hio. destruct (text_line_sep l Hl) as [_ Hcr]. destruct Hl as (Hutf&_&_).
  unfold next_line. erewrite mbind_eq by (by apply io_quiet).
  rewrite utf8_ascii_snoc, strip_eol_line by (vm_compute; done || done). done.
Qed.

Lemma for_lines_unlines {A} (f : A → bytes → Result E A) ls a W s :
  Forall text_line ls → w_io W = [] →
  for_lines (λ a l, liftR (f a l)) a (raw_lines (unlines ls)) (W, s) = (fold_lines f a ls, (W, s)).
Proof.
  intros Hls Hio. rewrite raw_lines_unlines.
  2:{ eapply Forall_impl; [exact Hls|]. intros l Hl. apply (text_line_sep l Hl). }
  revert a. induction Hls as [|l ls Hl _ IH]; intros a; [done|].
  cbn [map for_lines fold_lines]. erewrite mbind_eq by (by apply next_line_text).
  destruct Hl as (_&_&->). destruct (f a l) as [a'|e]; [apply IH|done].
Qed.
End files.

(** ** Writing

    [writeln!(file, "{line}")] on a file opened for appending: on a failure
    any prefix of the line and its terminator may be in the file. *)
Definition append_line {S E} (io_err : E) (app : bytes → S → S) (line : bytes) : M S E unit :=
  r ← attempt (E:=E) (io io_err);
  match r with
  | Ok _ => modify (app (line ++ [nl]))
  | Err e =>
      n ← rand;
      _ ← modify (app (take (Z.to_nat (n mod (Z.of_nat (length line) + 2))) (line ++ [nl])));
      throw e
  end.

Lemma append_line_quiet {S E} (e : E) (app : bytes → S → S) line W s :
  w_io W = [] → append_line e app line (W, s) = (Ok tt, (W, app (line ++ [nl]) s)).
Proof.
  intros Hio. unfold append_line, attempt. erewrite mbind_eq; [|by rewrite io_quiet]. done.
Qed.

(** ** Files of records *)

Section records.
Context {A : Type} `{Json A}.

(** A file of JSON lines holding the records. *)
Definition file_of (f : bytes) (rs : list A) : Prop :=
  ∃ ls, Forall2 (λ r l, to_json r = Some l) rs ls ∧ f = unlines ls.

Lemma file_of_nil : file_of [] [].
Proof. by exists []. Qed.

Lemma file_of_snoc f rs r l : file_of f rs → to_json r = Some l → file_of (f ++ l ++ [nl]) (rs ++ [r]).
Proof.
  intros (ls&Hls&->) Hl. exists (ls ++ [l]). rewrite unlines_snoc.
  split; [|done]. apply Forall2_app; auto.
Qed.

Lemma file_of_text (rs : list A) ls : Forall2 (λ r l, to_json r = Some l) rs ls → Forall text_line ls.
Proof. induction 1 as [|r l rs ls Hl _ IH]; constructor; [exact (json_line r l Hl)|done]. Qed.

(** Reading such a file folds over its records. *)
Lemma file_of_fold {S E B} (e : E) (f : B → bytes → Result E B) (g : B → A → Result E B) file rs b W (s : S) :
  (∀ b r l, from_json l = Some r → f b l = g b r) →
  file_of file rs → w_io W = [] →
  for_lines e (λ b l, liftR (f b l)) b (raw_lines file) (W, s) =
  (foldl (λ res r, res ≫= λ b, g b r) (Ok b) rs, (W, s)).
Proof.
  intros Hfg (ls&Hls&->) Hio. rewrite for_lines_unlines; [|by eapply file_of_text|done]. f_equal.
  revert b. induction Hls as [|r l rs ls Hl _ IH]; intros b; [done|]. cbn.
  rewrite (Hfg b r l) by (by apply json_roundtrip). destruct (g b r) as [b'|e']; [apply IH|].
  clear. by induction rs.
Qed.
End records.
