(* ===== verification/Crypto.v ===== *)
(** * vledger-crypto: hash chains and Merkle trees

    Models [crates/vledger-crypto/src/hash.rs] and [merkle.rs].  BLAKE3 is a
    parameter ([Blake3]): a function from byte strings to 32 bytes.  No
    injectivity is assumed (it would be false); the security theorems
    conclude with the collision an attacker would have to exhibit, both of
    whose members are byte strings the code really hashes. *)

From stdpp Require Import base gmap list strings option fin_maps.
From Stdlib Require Import ZArith Lia.
From S2P Require Import Prelude Bytes.

(** [blake3::hash]; the incremental [Hasher] hashes the concatenation of its
    updates. *)
Class Blake3 := {
  blake3 : bytes → bytes;
  blake3_length : ∀ m, length (blake3 m) = 32%nat
}.

(** BLAKE3 in keyed mode ([Hasher::new_keyed]). *)
Class Blake3Keyed := {
  blake3_keyed : bytes → bytes → bytes;
  blake3_keyed_length : ∀ k m, length (blake3_keyed k m) = 32%nat
}.

Definition Hash := bytes.
Definition hash_ok (h : Hash) : Prop := length h = 32%nat.

Definition ZERO_HASH : Hash := replicate 32 Byte.x00.

Lemma zero_hash_ok : hash_ok ZERO_HASH.
Proof. done. Qed.

Inductive CryptoError :=
  | InvalidKey
  | HashChainBroken (sequence : Z) (expected actual : Hash)
  | MerkleProofInvalid.

(** Two distinct hashed strings with the same digest, each taken from a list
    of strings that were hashed. *)
Definition collision `{Blake3} (xs ys : list bytes) : Prop :=
  ∃ x y, x ∈ xs ∧ y ∈ ys ∧ x ≠ y ∧ blake3 x = blake3 y.

(** A hashed string whose digest is the all-zero genesis value. *)
Definition zero_preimage `{Blake3} (xs : list bytes) : Prop :=
  ∃ x, x ∈ xs ∧ blake3 x = ZERO_HASH.

Lemma collision_mono `{Blake3} xs ys xs' ys' :
  xs ⊆ xs' → ys ⊆ ys' → collision xs ys → collision xs' ys'.
Proof. intros Hx Hy (x&y&?&?&?). exists x, y. auto. Qed.

Lemma zero_preimage_mono `{Blake3} xs xs' : xs ⊆ xs' → zero_preimage xs → zero_preimage xs'.
Proof. intros Hx (x&?&?). exists x. auto. Qed.

Section hash.
Context `{Blake3}.

Definition hash_bytes (data : bytes) : Hash := blake3 data.

Definition node_input (l r : Hash) : bytes := [Byte.x01] ++ l ++ r.
Definition leaf_input (data : bytes) : bytes := [Byte.x00] ++ data.

Definition hash_node (left right : Hash) : Hash := blake3 (node_input left right).
Definition hash_leaf (data : bytes) : Hash := blake3 (leaf_input data).

(** ** Hash chains *)

Record ChainEntry := mkChainEntry {
  ce_sequence : Z;
  ce_prev_hash : Hash;
  ce_content_hash : Hash;
  ce_chain_hash : Hash
}.

(** The string hashed by [compute_chain_hash]. *)
Definition chain_input (sequence : Z) (prev content : Hash) : bytes :=
  le64 sequence ++ prev ++ content.

Definition compute_chain_hash (sequence : Z) (prev content : Hash) : Hash :=
  blake3 (chain_input sequence prev content).

Definition ChainEntry_new (sequence : Z) (prev : Hash) (content : bytes) : ChainEntry :=
  let content_hash := hash_bytes content in
  mkChainEntry sequence prev content_hash (compute_chain_hash sequence prev content_hash).

Definition ChainEntry_verify (e : ChainEntry) : bool :=
  bool_decide
    (compute_chain_hash (ce_sequence e) (ce_prev_hash e) (ce_content_hash e) = ce_chain_hash e).

Fixpoint verify_chain_from (prev : Hash) (entries : list ChainEntry) : Result CryptoError unit :=
  match entries with
  | [] => Ok tt
  | e :: entries =>
      if negb (ChainEntry_verify e) then
        Err (HashChainBroken (ce_sequence e) prev (ce_chain_hash e))
      else if negb (bool_decide (ce_prev_hash e = prev)) then
        Err (HashChainBroken (ce_sequence e) prev (ce_prev_hash e))
      else verify_chain_from (ce_chain_hash e) entries
  end.

Definition verify_chain (entries : list ChainEntry) : Result CryptoError unit :=
  verify_chain_from ZERO_HASH entries.

(** The chain as a function of its links [(sequence, content_hash)]: the
    successive chain hashes, the tip, and the strings that were hashed. *)
Definition link := (Z * Hash)%type.
Definition link_ok (l : link) : Prop := u64_ok l.1 ∧ hash_ok l.2.

Fixpoint chain_tip_of (prev : Hash) (ls : list link) : Hash :=
  match ls with
  | [] => prev
  | (s, c) :: ls => chain_tip_of (compute_chain_hash s prev c) ls
  end.

Fixpoint chain_inputs (prev : Hash) (ls : list link) : list bytes :=
  match ls with
  | [] => []
  | (s, c) :: ls => chain_input s prev c :: chain_inputs (compute_chain_hash s prev c) ls
  end.

Lemma chain_tip_snoc prev ls s c :
  chain_tip_of prev (ls ++ [(s, c)]) = compute_chain_hash s (chain_tip_of prev ls) c.
Proof. revert prev; induction ls as [|[] ? IH]; intros; cbn; auto. Qed.

Lemma chain_inputs_app prev l1 l2 :
  chain_inputs prev (l1 ++ l2) = chain_inputs prev l1 ++ chain_inputs (chain_tip_of prev l1) l2.
Proof. revert prev; induction l1 as [|[] ? IH]; intros; cbn; [done|]. by rewrite IH. Qed.

Lemma chain_tip_ok prev ls : hash_ok prev → hash_ok (chain_tip_of prev ls).
Proof.
  revert prev; induction ls as [|[] ? IH]; intros; cbn; [done|]. apply IH, blake3_length.
Qed.

Lemma chain_input_inj s1 p1 c1 s2 p2 c2 :
  u64_ok s1 → u64_ok s2 → hash_ok p1 → hash_ok p2 →
  chain_input s1 p1 c1 = chain_input s2 p2 c2 → s1 = s2 ∧ p1 = p2 ∧ c1 = c2.
Proof.
  unfold chain_input, hash_ok. intros ???? He.
  apply (self_delim_le 8) in He as [-> He]; [|done|done].
  apply app_inj_1 in He as [-> ->]; [done|congruence].
Qed.

(** Two histories with the same tip are the same history, unless two of the
    strings hashed along them collide or one hashes to the genesis value.
    The lengths need not agree: truncation is covered too. *)
Lemma chain_tip_determines l1 l2 :
  Forall link_ok l1 → Forall link_ok l2 →
  chain_tip_of ZERO_HASH l1 = chain_tip_of ZERO_HASH l2 →
  l1 = l2 ∨ collision (chain_inputs ZERO_HASH l1) (chain_inputs ZERO_HASH l2)
  ∨ zero_preimage (chain_inputs ZERO_HASH l1 ++ chain_inputs ZERO_HASH l2).
Proof.
  revert l2. induction l1 as [|[s1 c1] l1 IH] using rev_ind; intros l2 H1 H2 He.
  - destruct l2 as [|[s2 c2] l2 _] using rev_ind; [by left|]. right; right.
    rewrite chain_tip_snoc in He. exists (chain_input s2 (chain_tip_of ZERO_HASH l2) c2).
    rewrite chain_inputs_app; cbn. split; [set_solver|]. exact (eq_sym He).
  - destruct l2 as [|[s2 c2] l2 _] using rev_ind.
    { right; right. rewrite chain_tip_snoc in He.
      exists (chain_input s1 (chain_tip_of ZERO_HASH l1) c1).
      rewrite chain_inputs_app; cbn. split; [set_solver|]. exact He. }
    apply Forall_app in H1 as [H1 [[Hs1 Hc1] _]%Forall_cons].
    apply Forall_app in H2 as [H2 [[Hs2 Hc2] _]%Forall_cons]. cbn in *.
    rewrite !chain_tip_snoc in He. rewrite !chain_inputs_app; cbn.
    destruct (decide (chain_input s1 (chain_tip_of ZERO_HASH l1) c1 =
                      chain_input s2 (chain_tip_of ZERO_HASH l2) c2)) as [Hi|Hi].
    + apply chain_input_inj in Hi as (-> & Ht & ->); auto using chain_tip_ok, zero_hash_ok.
      destruct (IH l2 H1 H2 Ht) as [->|[(x&y&Hx&Hy&?)|(x&Hx&?)]]; [by left|right; left|right; right].
      * exists x, y. set_solver.
      * exists x. set_solver.
    + right; left. eexists _, _. split_and!; [| |exact Hi|exact He]; set_solver.
Qed.

(** The same for any rolling hash that starts from the zero digest: equal
    digests come from equal items, unless two hashed strings collide or one
    has the zero digest. *)
Section rolling.
Context {A : Type} (input : A → Hash → bytes) (ok : A → Prop).
Hypothesis input_inj : ∀ a h b g, ok a → ok b → hash_ok h → hash_ok g → input a h = input b g → a = b ∧ h = g.

Definition rolling (l : list A) : Hash := foldl (λ h a, blake3 (input a h)) ZERO_HASH l.
Definition rolling_inputs (l : list A) : list bytes := snd (foldl (λ '(h, xs) a, (blake3 (input a h), xs ++ [input a h])) (ZERO_HASH, []) l).

Lemma rolling_inputs_pair l :
  foldl (λ '(h, xs) a, (blake3 (input a h), xs ++ [input a h])) (ZERO_HASH, []) l = (rolling l, rolling_inputs l).
Proof.
  unfold rolling_inputs, rolling. induction l as [|a l IH] using rev_ind; [done|]. rewrite !foldl_app, IH. done.
Qed.
Lemma rolling_snoc l a : rolling (l ++ [a]) = blake3 (input a (rolling l)).
Proof. unfold rolling. by rewrite foldl_app. Qed.
Lemma rolling_inputs_snoc l a : rolling_inputs (l ++ [a]) = rolling_inputs l ++ [input a (rolling l)].
Proof. unfold rolling_inputs at 1. rewrite foldl_app, rolling_inputs_pair. done. Qed.
Lemma rolling_ok l : hash_ok (rolling l).
Proof. destruct l as [|a l _] using rev_ind; [done|]. rewrite rolling_snoc. apply blake3_length. Qed.

Lemma rolling_determines l1 : ∀ l2, Forall ok l1 → Forall ok l2 → rolling l1 = rolling l2 →
  l1 = l2 ∨ collision (rolling_inputs l1) (rolling_inputs l2) ∨ zero_preimage (rolling_inputs l1 ++ rolling_inputs l2).
Proof.
  induction l1 as [|a l1 IH] using rev_ind; intros l2 Ho1 Ho2 He; destruct l2 as [|b l2 _] using rev_ind; [by left|..].
  1,2: right; right; rewrite rolling_snoc in He; rewrite rolling_inputs_snoc; eexists; split; [apply elem_of_app|by first [exact He|symmetry; exact He]]; set_solver.
  apply Forall_app in Ho1 as [Ho1 [Ha _]%Forall_cons], Ho2 as [Ho2 [Hb _]%Forall_cons].
  rewrite !rolling_snoc in He. rewrite !rolling_inputs_snoc.
  destruct (decide (input a (rolling l1) = input b (rolling l2))) as [Hi|Hi].
  - apply input_inj in Hi as [-> Hr]; [|done|done|apply rolling_ok..].
    destruct (IH l2 Ho1 Ho2 Hr) as [->|[(x&y&Hx&Hy&?)|(x&Hx&?)]]; [by left|right; left|right; right].
    + exists x, y. set_solver.
    + exists x. set_solver.
  - right; left. eexists _, _. split_and!; [| |exact Hi|exact He]; set_solver.
Qed.
End rolling.

(** [verify_chain] accepts exactly the lists of entries that follow from
    their links. *)
Definition link_of (e : ChainEntry) : link := (ce_sequence e, ce_content_hash e).

Fixpoint entries_of (prev : Hash) (ls : list link) : list ChainEntry :=
  match ls with
  | [] => []
  | (s, c) :: ls =>
      let h := compute_chain_hash s prev c in mkChainEntry s prev c h :: entries_of h ls
  end.

Lemma verify_chain_from_spec prev es :
  verify_chain_from prev es = Ok tt ↔ es = entries_of prev (map link_of es).
Proof.
  revert prev. induction es as [|[s p c h] es IH]; intros prev; cbn; [done|].
  unfold ChainEntry_verify; cbn.
  case_bool_decide as Hh; cbn; [|split; [done|]].
  - case_bool_decide as Hp; cbn; [|split; [done|congruence]].
    subst. rewrite IH. split; [by intros <-|congruence].
  - intros ?. simplify_eq.
Qed.
End hash.
Arguments ChainEntry : clear implicits.
