(* ===== verification/Merkle.v ===== *)
(** * vledger-crypto: Merkle trees

    Models [crates/vledger-crypto/src/merkle.rs]: the root of a list of items,
    membership proofs and their verification.  The theorems: every proof the
    code builds verifies (completeness), and a verifying proof for data that
    is not an item exhibits a collision of BLAKE3 (soundness), whatever the
    shape of the path the prover supplies. *)

From stdpp Require Import base gmap list strings option fin_maps.
From Stdlib Require Import ZArith Lia.
From S2P Require Import Prelude Bytes Crypto.

Section merkle.
Context `{Blake3}.

(** One level up; the last node of an odd layer is paired with itself. *)
Fixpoint next_layer (layer : list Hash) : list Hash :=
  match layer with
  | [] => []
  | [x] => [hash_node x x]
  | x :: y :: rest => hash_node x y :: next_layer rest
  end.

(** [while layer.len() > 1 { layer = next_layer(&layer) }; layer[0]] *)
Fixpoint root_loop (fuel : nat) (layer : list Hash) : list Hash :=
  match fuel with
  | O => layer
  | S fuel => if (1 <? length layer)%nat then root_loop fuel (next_layer layer) else layer
  end.

Definition merkle_root (items : list bytes) : Hash :=
  match items with
  | [] => ZERO_HASH
  | _ => default ZERO_HASH (head (root_loop (length items) (map hash_leaf items)))
  end.

Record ProofStep := mkStep { sibling : Hash; sibling_is_left : bool }.

Record MerkleProof := mkProof {
  leaf_index : nat;
  leaf_hash : Hash;
  path : list ProofStep;
  root : Hash
}.

Definition step_input (current : Hash) (s : ProofStep) : bytes :=
  if sibling_is_left s then node_input (sibling s) current else node_input current (sibling s).

Definition step_hash (current : Hash) (s : ProofStep) : Hash :=
  if sibling_is_left s then hash_node (sibling s) current else hash_node current (sibling s).

Definition MerkleProof_verify (p : MerkleProof) : Result CryptoError unit :=
  if bool_decide (foldl step_hash (leaf_hash p) (path p) = root p)
  then Ok tt else Err MerkleProofInvalid.

(** The sibling of [index] in a layer of [len] nodes. *)
Definition sibling_index (index len : nat) : nat :=
  if Nat.even index then Nat.min (index + 1) (len - 1) else (index - 1)%nat.

Fixpoint path_loop (fuel : nat) (layer : list Hash) (index : nat) : list ProofStep :=
  match fuel with
  | O => []
  | S fuel =>
      if (1 <? length layer)%nat then
        let si := sibling_index index (length layer) in
        mkStep (default ZERO_HASH (layer !! si)) (si <? index)%nat
          :: path_loop fuel (next_layer layer) (index / 2)
      else []
  end.

Definition merkle_proof (items : list bytes) (index : nat) : option MerkleProof :=
  match items with
  | [] => None
  | _ =>
      if (length items <=? index)%nat then None
      else
        let layer := map hash_leaf items in
        Some (mkProof index (default ZERO_HASH (layer !! index))
                (path_loop (length items) layer index) (merkle_root items))
  end.

(** The root is a digest. *)
Lemma next_layer_ok layer : Forall hash_ok (next_layer layer).
Proof.
  assert (Hgo : ∀ n layer, (length layer ≤ n)%nat → Forall hash_ok (next_layer layer)); [|by eapply Hgo].
  clear layer. induction n as [|n IH]; intros [|x [|y rest]]; cbn [length]; intros Hn; try lia; cbn [next_layer];
    repeat constructor; try apply blake3_length. apply IH. lia.
Qed.

Lemma root_loop_ok fuel : ∀ layer, Forall hash_ok layer → Forall hash_ok (root_loop fuel layer).
Proof.
  induction fuel as [|fuel IH]; intros layer Hl; [done|]. cbn. case_match; [|done]. apply IH, next_layer_ok.
Qed.

Lemma merkle_root_ok items : hash_ok (merkle_root items).
Proof.
  unfold merkle_root. destruct items as [|x items]; [done|].
  assert (Hf : Forall hash_ok (root_loop (length (x :: items)) (map hash_leaf (x :: items)))).
  { apply root_loop_ok, Forall_map, Forall_forall. intros y _. apply blake3_length. }
  destruct (root_loop _ _) as [|h hs]; [done|]. by apply Forall_cons in Hf as [? _].
Qed.

(** ** Layers shrink: both loops terminate within [length items] rounds *)

Lemma pair_ind {A} (P : list A → Prop) :
  P [] → (∀ x, P [x]) → (∀ x y l, P l → P (x :: y :: l)) → ∀ l, P l.
Proof.
  intros H0 H1 H2. fix IH 1. intros [|x [|y l]]; [done|done|]. apply H2, IH.
Qed.

Lemma next_layer_length layer : length (next_layer layer) = ((length layer + 1) / 2)%nat.
Proof.
  induction layer as [| |x y l IH] using pair_ind; [done|done|].
  cbn [next_layer length]. rewrite IH.
  replace (S (S (length l)) + 1)%nat with (length l + 1 + 1 * 2)%nat by lia.
  rewrite Nat.div_add by lia. lia.
Qed.

Lemma next_layer_shrinks layer :
  (1 < length layer)%nat → (0 < length (next_layer layer) < length layer)%nat.
Proof.
  intros Hl. rewrite next_layer_length. split.
  - apply Nat.div_str_pos. lia.
  - apply Nat.Div0.div_lt_upper_bound. lia.
Qed.

Lemma root_loop_singleton fuel layer :
  (0 < length layer)%nat → (length layer ≤ fuel)%nat → ∃ h, root_loop fuel layer = [h].
Proof.
  revert layer. induction fuel as [|fuel IH]; intros layer H0 Hf; [lia|]. cbn [root_loop].
  destruct (Nat.ltb_spec 1 (length layer)).
  - pose proof (next_layer_shrinks layer). apply IH; lia.
  - destruct layer as [|h [|]]; cbn in *; [lia|by eexists|lia].
Qed.

Lemma root_loop_fuel fuel1 fuel2 layer :
  (length layer ≤ fuel1)%nat → (length layer ≤ fuel2)%nat →
  root_loop fuel1 layer = root_loop fuel2 layer.
Proof.
  revert fuel2 layer. induction fuel1 as [|f1 IH]; intros f2 layer H1 H2.
  - destruct layer; [by destruct f2|cbn in *; lia].
  - destruct f2; [destruct layer; [done|cbn in *; lia]|]. cbn [root_loop].
    destruct (Nat.ltb_spec 1 (length layer)); [|done].
    pose proof (next_layer_shrinks layer). apply IH; lia.
Qed.

(** ** Completeness *)

Lemma next_layer_lookup layer i h :
  layer !! i = Some h →
  let si := sibling_index i (length layer) in
  ∃ s, layer !! si = Some s ∧
       next_layer layer !! (i / 2)%nat = Some (step_hash h (mkStep s (si <? i)%nat)).
Proof.
  cbn zeta. revert i. induction layer as [|x|x y l IH] using pair_ind; intros i Hi; [done| |].
  - destruct i; [|done]. cbn in Hi. simplify_eq. by exists h.
  - destruct i as [|[|i]]; cbn in Hi; simplify_eq.
    + exists y. unfold sibling_index. cbn [Nat.even length].
      rewrite Nat.min_l by lia. done.
    + exists x. done.
    + destruct (IH i Hi) as (s & Hs & Hn). exists s.
      assert (Hlen : (i < length l)%nat) by (by apply lookup_lt_Some in Hi).
      assert (He : sibling_index (S (S i)) (length (x :: y :: l)) = S (S (sibling_index i (length l)))).
      { unfold sibling_index. cbn [Nat.even length].
        destruct (Nat.even i) eqn:Hev; [lia|]. destruct i; [done|lia]. }
      rewrite He. split; [done|].
      replace (S (S i) / 2)%nat with (S (i / 2)).
      * change (next_layer (x :: y :: l) !! S (i / 2)) with (next_layer l !! (i / 2)%nat).
        by rewrite Hn.
      * replace (S (S i)) with (i + 1 * 2)%nat by lia. rewrite Nat.div_add by lia. lia.
Qed.

Lemma path_loop_root fuel layer i h :
  (length layer ≤ fuel)%nat → layer !! i = Some h →
  root_loop fuel layer = [foldl step_hash h (path_loop fuel layer i)].
Proof.
  revert layer i h. induction fuel as [|fuel IH]; intros layer i h Hf Hi.
  { apply lookup_lt_Some in Hi. lia. }
  cbn [root_loop path_loop]. destruct (Nat.ltb_spec 1 (length layer)).
  - destruct (next_layer_lookup _ _ _ Hi) as (s & Hs & Hn).
    rewrite Hs. cbn [default foldl]. apply IH; [|done].
    pose proof (next_layer_shrinks layer). lia.
  - destruct layer as [|x [|]]; [done| |cbn in *; lia].
    destruct i; [|done]. by injection Hi as ->.
Qed.

(** The proof [merkle_proof] builds for an index within the items. *)
Lemma merkle_proof_ok items i :
  (i < length items)%nat →
  ∃ p, merkle_proof items i = Some p ∧ root p = merkle_root items ∧
       leaf_hash p = hash_leaf (items !!! i) ∧ MerkleProof_verify p = Ok tt.
Proof.
  intros Hi. destruct (lookup_lt_is_Some_2 _ _ Hi) as [d Hd].
  assert (Hl : map hash_leaf items !! i = Some (hash_leaf d)).
  { change (map hash_leaf items) with (hash_leaf <$> items). by rewrite list_lookup_fmap, Hd. }
  destruct items as [|x items]; [done|]. unfold merkle_proof.
  destruct (Nat.leb_spec (length (x :: items)) i); [lia|].
  eexists. split; [done|]. cbn [root leaf_hash]. rewrite Hl.
  rewrite (list_lookup_total_correct _ _ _ Hd). split; [done|]. split; [done|].
  unfold MerkleProof_verify. cbn [path leaf_hash root default].
  rewrite bool_decide_true; [done|]. unfold merkle_root.
  erewrite (path_loop_root (length (x :: items))); [|by rewrite length_map|exact Hl].
  done.
Qed.

(** For every index within the items, [merkle_proof] returns a proof, and
    that proof verifies against [merkle_root] of the items. *)
Theorem merkle_proof_complete items i :
  (i < length items)%nat →
  ∃ p, merkle_proof items i = Some p ∧ root p = merkle_root items ∧
       leaf_hash p = hash_leaf (items !!! i) ∧ MerkleProof_verify p = Ok tt.
Proof. apply merkle_proof_ok. Qed.

(** ** Soundness *)

(** The strings hashed while a proof is verified, and while a root is built. *)
Fixpoint steps_inputs (current : Hash) (steps : list ProofStep) : list bytes :=
  match steps with
  | [] => []
  | s :: steps => step_input current s :: steps_inputs (step_hash current s) steps
  end.

Definition proof_inputs (data : bytes) (p : MerkleProof) : list bytes :=
  leaf_input data :: steps_inputs (hash_leaf data) (path p).

Fixpoint layer_inputs (layer : list Hash) : list bytes :=
  match layer with
  | [] => []
  | [x] => [node_input x x]
  | x :: y :: rest => node_input x y :: layer_inputs rest
  end.

Fixpoint loop_inputs (fuel : nat) (layer : list Hash) : list bytes :=
  match fuel with
  | O => []
  | S fuel =>
      if (1 <? length layer)%nat
      then layer_inputs layer ++ loop_inputs fuel (next_layer layer) else []
  end.

Definition root_inputs (items : list bytes) : list bytes :=
  map leaf_input items ++ loop_inputs (length items) (map hash_leaf items).

(** The tree whose layers the loop computes. *)
Inductive mtree := MLeaf (d : bytes) | MNode (l r : mtree).

Fixpoint thash (t : mtree) : Hash :=
  match t with MLeaf d => hash_leaf d | MNode l r => hash_node (thash l) (thash r) end.
Fixpoint tleaves (t : mtree) : list bytes :=
  match t with MLeaf d => [d] | MNode l r => tleaves l ++ tleaves r end.
Fixpoint tinputs (t : mtree) : list bytes :=
  match t with
  | MLeaf d => [leaf_input d]
  | MNode l r => node_input (thash l) (thash r) :: tinputs l ++ tinputs r
  end.

Fixpoint next_trees (ts : list mtree) : list mtree :=
  match ts with
  | [] => []
  | [x] => [MNode x x]
  | x :: y :: rest => MNode x y :: next_trees rest
  end.

Lemma next_trees_hash ts : map thash (next_trees ts) = next_layer (map thash ts).
Proof. induction ts using pair_ind; cbn; [done|done|]. by f_equal. Qed.

Lemma next_trees_leaves ts (I : list bytes) :
  Forall (λ t, tleaves t ⊆ I) ts → Forall (λ t, tleaves t ⊆ I) (next_trees ts).
Proof.
  induction ts as [| |x y l IH] using pair_ind; intros Hf; cbn; [done| |];
    rewrite ?Forall_cons in *; cbn; [|destruct Hf as (?&?&?); split; [|by apply IH]]; set_solver.
Qed.

Lemma next_trees_inputs ts (I : list bytes) :
  layer_inputs (map thash ts) ⊆ I →
  Forall (λ t, tinputs t ⊆ I) ts → Forall (λ t, tinputs t ⊆ I) (next_trees ts).
Proof.
  induction ts as [| |x y l IH] using pair_ind; intros Hi Hf; cbn in *; [done| |];
    rewrite ?Forall_cons in *; cbn;
    [|destruct Hf as (?&?&?); split; [|apply IH; [|done]]]; set_solver.
Qed.

Lemma root_loop_tree fuel ts (I J : list bytes) :
  (0 < length ts ≤ fuel)%nat → Forall (λ t, tleaves t ⊆ I) ts → Forall (λ t, tinputs t ⊆ J) ts →
  loop_inputs fuel (map thash ts) ⊆ J →
  ∃ t, root_loop fuel (map thash ts) = [thash t] ∧ tleaves t ⊆ I ∧ tinputs t ⊆ J.
Proof.
  revert ts. induction fuel as [|fuel IH]; intros ts Hl HI HJ Hin; [lia|].
  cbn [root_loop loop_inputs] in *. destruct (Nat.ltb_spec 1 (length (map thash ts))) as [H1|H1].
  - rewrite <- next_trees_hash in *. pose proof (next_layer_shrinks _ H1) as Hs.
    rewrite <- next_trees_hash, !length_map in *.
    apply IH; [lia|by apply next_trees_leaves|apply next_trees_inputs; [set_solver|done]|set_solver].
  - rewrite length_map in H1. destruct ts as [|t [|]]; cbn in *; [lia| |lia].
    exists t. rewrite Forall_singleton in *. done.
Qed.

Lemma leaf_node_input d l r : leaf_input d ≠ node_input l r.
Proof. done. Qed.

Lemma thash_ok t : hash_ok (thash t).
Proof. destruct t; apply blake3_length. Qed.

Lemma node_input_inj l1 r1 l2 r2 :
  hash_ok l1 → hash_ok l2 → node_input l1 r1 = node_input l2 r2 → l1 = l2 ∧ r1 = r2.
Proof.
  unfold node_input, hash_ok. intros ?? [= He]. by apply app_inj_1 in He; [|congruence].
Qed.

Lemma fold_steps_ok cur steps : hash_ok cur → hash_ok (foldl step_hash cur steps).
Proof.
  revert cur. induction steps as [|[s b] steps IH]; intros cur Hc; [done|]. cbn. apply IH.
  unfold step_hash. destruct b; apply blake3_length.
Qed.

Lemma steps_inputs_snoc cur steps s :
  steps_inputs cur (steps ++ [s]) =
  steps_inputs cur steps ++ [step_input (foldl step_hash cur steps) s].
Proof. revert cur. induction steps; intros; cbn; [done|]. by f_equal. Qed.

Lemma path_sound d steps t :
  Forall (λ s, hash_ok (sibling s)) steps →
  foldl step_hash (hash_leaf d) steps = thash t →
  d ∈ tleaves t ∨ collision (leaf_input d :: steps_inputs (hash_leaf d) steps) (tinputs t).
Proof.
  revert t. induction steps as [|s steps IH] using rev_ind; intros t Hok He.
  - destruct t as [d'|l r]; cbn in He |- *.
    + destruct (decide (d = d')) as [->|Hd]; [left; set_solver|right].
      exists (leaf_input d), (leaf_input d'). split_and!; [set_solver..| |done].
      by intros [= ?].
    + right. exists (leaf_input d), (node_input (thash l) (thash r)).
      split_and!; [set_solver..|apply leaf_node_input|done].
  - apply Forall_app in Hok as [Hok [Hs _]%Forall_cons]. rewrite foldl_app in He. cbn in He.
    rewrite steps_inputs_snoc. set (cur := foldl step_hash (hash_leaf d) steps) in *.
    assert (Hc : hash_ok cur) by apply fold_steps_ok, blake3_length.
    assert (Hstep : blake3 (step_input cur s) = thash t) by (by destruct s as [? []]).
    destruct t as [d'|l r].
    + right. exists (step_input cur s), (leaf_input d').
      split_and!; [set_solver..| |done]. by destruct s as [? []].
    + destruct (decide (step_input cur s = node_input (thash l) (thash r))) as [Hi|Hi].
      * assert (Hcur : cur = thash l ∨ cur = thash r).
        { destruct s as [sib []]; cbn in Hi; apply node_input_inj in Hi as [??]; auto using thash_ok. }
        destruct Hcur as [Hcur|Hcur]; destruct (IH _ Hok Hcur) as [?|(x&y&?&?&?)];
          cbn; [left; set_solver|right; exists x, y; set_solver..|left; set_solver|right; exists x, y; set_solver].
      * right. exists (step_input cur s), (node_input (thash l) (thash r)). cbn. set_solver.
Qed.

(** C24: a proof, of any shape, that verifies against the Merkle root of a
    non-empty list of items with the leaf hash of [data], either is about one
    of the items or exhibits two distinct strings with the same BLAKE3 digest,
    one hashed by the verification and one by the construction of the root. *)
Theorem merkle_proof_sound items p data :
  items ≠ [] → Forall (λ s, hash_ok (sibling s)) (path p) →
  root p = merkle_root items → leaf_hash p = hash_leaf data →
  MerkleProof_verify p = Ok tt →
  data ∈ items ∨ collision (proof_inputs data p) (root_inputs items).
Proof.
  intros Hne Hok Hroot Hleaf Hv. unfold MerkleProof_verify in Hv. case_bool_decide as Hf; [|done].
  destruct (root_loop_tree (length items) (map MLeaf items) items (root_inputs items))
    as (t & Ht & Hlv & Hin).
  { rewrite length_map. destruct items; [done|cbn; lia]. }
  { apply Forall_map, Forall_forall. intros d Hd. cbn. set_solver. }
  { apply Forall_map, Forall_forall. intros d Hd. unfold root_inputs. cbn.
    intros x ->%list_elem_of_singleton. apply elem_of_app. left. by apply list_elem_of_fmap_2. }
  { rewrite map_map. cbn. unfold root_inputs. set_solver. }
  rewrite map_map in Ht. cbn in Ht.
  assert (Hr : merkle_root items = thash t).
  { unfold merkle_root. destruct items; [done|].
    exact (f_equal (λ l, default ZERO_HASH (head l)) Ht). }
  rewrite Hleaf, Hroot, Hr in Hf. destruct (path_sound _ _ _ Hok Hf) as [?|(x&y&?&?&?)].
  - left. set_solver.
  - right. exists x, y. unfold proof_inputs. set_solver.
Qed.
End merkle.
