(* ===== verification/Money.v ===== *)
(** * vledger-ledger: amounts, currencies and the chart of accounts

    Models [crates/vledger-ledger/src/amount.rs], [currency.rs] and
    [account.rs], and the minor-unit bound [post_entry] computes from a
    currency's precision.  Amounts are [i64] minor units; where the Rust code
    panics ([expect]) the model returns [None]. *)

From stdpp Require Import base gmap list strings option fin_maps.
From Stdlib Require Import ZArith Lia Strings.Ascii.
From S2P Require Import Prelude Bytes.

(** ** Amounts *)

(** [struct Amount(i64)] *)
Record Amount := MkAmount { amount_i64 : Z }.

#[global] Instance Amount_eq_dec : EqDecision Amount.
Proof. solve_decision. Defined.

Definition amount_ok (a : Amount) : Prop := i64_ok (amount_i64 a).

(** [Amount::as_i128] *)
Definition amount_i128 (a : Amount) : Z := amount_i64 a.

Definition Amount_new (minor_units : Z) : option Amount :=
  if minor_units =? 0 then None else Some (MkAmount minor_units).

Definition Amount_zero : Amount := MkAmount 0.

(** [i64::abs] in a release build: the absolute value of [i64::MIN] wraps. *)
Definition i64_abs (z : Z) : Z := if z =? I64_MIN then I64_MIN else Z.abs z.

Definition Amount_abs (a : Amount) : Amount := MkAmount (i64_abs (amount_i64 a)).

Definition Amount_is_positive (a : Amount) : bool := 0 <? amount_i64 a.
Definition Amount_is_negative (a : Amount) : bool := amount_i64 a <? 0.

(** [i64::checked_add] and friends: [None] when the result leaves the range. *)
Definition checked_i64 (z : Z) : option Z :=
  if (I64_MIN <=? z) && (z <=? I64_MAX) then Some z else None.

Definition Amount_checked_add (a b : Amount) : option Amount :=
  MkAmount <$> checked_i64 (amount_i64 a + amount_i64 b).
Definition Amount_checked_sub (a b : Amount) : option Amount :=
  MkAmount <$> checked_i64 (amount_i64 a - amount_i64 b).

(** The operators: [None] is the panic of [expect]. *)
Definition Amount_neg (a : Amount) : option Amount := MkAmount <$> checked_i64 (- amount_i64 a).
Definition Amount_add (a b : Amount) : option Amount := Amount_checked_add a b.
Definition Amount_sub (a b : Amount) : option Amount := Amount_checked_sub a b.

Lemma checked_i64_spec z r : checked_i64 z = Some r ↔ r = z ∧ i64_ok z.
Proof.
  unfold checked_i64, i64_ok, I64_MIN, I64_MAX.
  destruct (Z.leb_spec (- 2 ^ 63) z), (Z.leb_spec z (2 ^ 63 - 1)); cbn; split;
    intros Hx; simplify_eq; try lia; try (split; [done|lia]); destruct Hx; subst; try done; lia.
Qed.

Lemma Amount_new_spec z a : Amount_new z = Some a ↔ z ≠ 0 ∧ a = MkAmount z.
Proof.
  unfold Amount_new. destruct (Z.eqb_spec z 0); naive_solver.
Qed.

(** ** Currencies *)

(** [str::to_uppercase], on ASCII letters; other bytes are left alone (codes
    are ISO 4217 or ticker symbols). *)
Definition ascii_upper (c : ascii) : ascii :=
  let n := Ascii.N_of_ascii c in
  if ((97 <=? n) && (n <=? 122))%N then Ascii.ascii_of_N (n - 32) else c.

Fixpoint to_uppercase (s : string) : string :=
  match s with
  | EmptyString => EmptyString
  | String c s => String (ascii_upper c) (to_uppercase s)
  end.

Lemma ascii_upper_idem c : ascii_upper (ascii_upper c) = ascii_upper c.
Proof. by destruct c as [[] [] [] [] [] [] [] []]. Qed.

Lemma to_uppercase_idem s : to_uppercase (to_uppercase s) = to_uppercase s.
Proof. induction s; cbn; [done|]. by rewrite ascii_upper_idem, IHs. Qed.

Record Currency := mkCurrency {
  cur_code : string;
  cur_precision : Z;
  cur_name : string;
  cur_is_crypto : bool
}.

Definition Currency_new (code : string) (precision : Z) (name : string) (is_crypto : bool) :=
  mkCurrency (to_uppercase code) precision name is_crypto.

Definition usd := Currency_new "USD" 2 "US Dollar" false.
Definition eur := Currency_new "EUR" 2 "Euro" false.
Definition gbp := Currency_new "GBP" 2 "British Pound" false.
Definition btc := Currency_new "BTC" 8 "Bitcoin" true.
Definition eth := Currency_new "ETH" 18 "Ethereum" true.
Definition usdc := Currency_new "USDC" 6 "USD Coin" true.
Definition jpy := Currency_new "JPY" 0 "Japanese Yen" false.

(** [CurrencyRegistry { currencies : HashMap<String, Currency> }] *)
Definition register (c : Currency) (r : gmap string Currency) : gmap string Currency :=
  <[cur_code c := c]> r.

Definition CurrencyRegistry_new : gmap string Currency :=
  foldl (λ r c, register c r) ∅ [usd; eur; gbp; btc; eth; usdc; jpy].

Definition registry_get (r : gmap string Currency) (code : string) : option Currency :=
  r !! to_uppercase code.

Definition registry_precision (r : gmap string Currency) (code : string) : option Z :=
  cur_precision <$> registry_get r code.

(** Registering a currency built by [Currency::new] makes it found under its
    code in any letter case. *)
Lemma register_get r code precision name crypto code' :
  to_uppercase code' = to_uppercase code →
  registry_get (register (Currency_new code precision name crypto) r) code' =
  Some (Currency_new code precision name crypto).
Proof. intros Hc. unfold registry_get, register; cbn. rewrite Hc. apply lookup_insert_eq. Qed.

(** *** The minor-unit bound of [post_entry] *)

(** [10_i64.saturating_pow(e)] and [i64::saturating_mul] on non-negatives. *)
Definition sat_pow10 (e : Z) : Z := Z.min I64_MAX (10 ^ e).
Definition sat_mul (a b : Z) : Z := Z.min I64_MAX (a * b).

Definition max_minor (precision : Z) : Z :=
  let max_exp := Z.max 0 (18 - precision) in
  sat_mul (sat_pow10 max_exp) (sat_pow10 precision).

(** [line.amount.as_i64().abs() > max_minor] *)
Definition exceeds_precision (precision : Z) (a : Amount) : bool :=
  max_minor precision <? i64_abs (amount_i64 a).

(** The bound does not depend on the precision, as long as it is at most 18. *)
Lemma max_minor_18 p : 0 ≤ p ≤ 18 → max_minor p = 10 ^ 18.
Proof.
  intros Hp. unfold max_minor, sat_mul, sat_pow10, I64_MAX.
  rewrite Z.max_r by lia.
  assert (10 ^ (18 - p) ≤ 10 ^ 18) by (apply Z.pow_le_mono_r; lia).
  assert (10 ^ p ≤ 10 ^ 18) by (apply Z.pow_le_mono_r; lia).
  rewrite !(Z.min_r (2 ^ 63 - 1) (10 ^ _)) by lia.
  rewrite <- Z.pow_add_r by lia. by replace (18 - p + p) with 18 by lia.
Qed.

(** ** Accounts *)

Inductive AccountType :=
  | Asset | Liability | Equity | Income | Expense | Contra | Suspense.

#[global] Instance AccountType_eq_dec : EqDecision AccountType.
Proof. solve_decision. Defined.

Definition normal_balance_sign (t : AccountType) : Z :=
  match t with
  | Asset | Expense => 1
  | Liability | Equity | Income => -1
  | Contra => -1
  | Suspense => 1
  end.

(** [matches!(acct.account_type, AccountType::Asset | AccountType::Expense)] *)
Definition is_debit_normal (t : AccountType) : bool :=
  match t with Asset | Expense => true | _ => false end.

Inductive AccountStatus := Active | Closed | Frozen.

#[global] Instance AccountStatus_eq_dec : EqDecision AccountStatus.
Proof. solve_decision. Defined.

Record Account := mkAccount {
  acc_id : Z;
  acc_code : string;
  acc_name : string;
  account_type : AccountType;
  currency_code : string;
  acc_status : AccountStatus;
  require_non_negative_balance : bool;
  exposure_limit : option Z;
  require_four_eyes : bool;
  parent_id : option Z;
  created_at : Z;
  acc_domain : string;
  legal_hold : bool
}.

(** [Account::new], given the generated identifier and the clock reading. *)
Definition Account_new (id now : Z) (code name : string) (ty : AccountType)
    (currency domain : string) : Account :=
  mkAccount id code name ty (to_uppercase currency) Active true None false None now domain false.

Definition is_active (a : Account) : bool := bool_decide (acc_status a = Active).

Definition set_status (st : AccountStatus) (a : Account) : Account :=
  mkAccount (acc_id a) (acc_code a) (acc_name a) (account_type a) (currency_code a) st
    (require_non_negative_balance a) (exposure_limit a) (require_four_eyes a) (parent_id a)
    (created_at a) (acc_domain a) (legal_hold a).

Definition set_hold (h : bool) (a : Account) : Account :=
  mkAccount (acc_id a) (acc_code a) (acc_name a) (account_type a) (currency_code a) (acc_status a)
    (require_non_negative_balance a) (exposure_limit a) (require_four_eyes a) (parent_id a)
    (created_at a) (acc_domain a) h.

(** The sign under which a debit enters the balance of an account: the one
    the running cache uses, and the one the chart of accounts declares.  They
    agree except on suspense accounts. *)
Definition cache_sign (t : AccountType) : Z := if is_debit_normal t then 1 else -1.

Lemma cache_sign_normal t : t ≠ Suspense → cache_sign t = normal_balance_sign t.
Proof. by destruct t. Qed.
