(* ===== verification/Entry.v ===== *)
(** * vledger-ledger: journal entries

    Models [crates/vledger-ledger/src/entry.rs]: the entry and its lines,
    structural validation, the canonical byte string that is hashed, the hash
    chain link, and the builder.  The main results: the canonical bytes
    determine every hashed field of a well-formed entry, an entry finalized by
    the code verifies, and a ledger that verifies is determined by its tip up
    to a BLAKE3 collision. *)

From stdpp Require Import base gmap list strings option fin_maps.
From Stdlib Require Import ZArith Lia.
From S2P Require Import Prelude Bytes Crypto Money.

Inductive DrCr := Debit | Credit.

#[global] Instance DrCr_eq_dec : EqDecision DrCr.
Proof. solve_decision. Defined.

Inductive EntryStatus :=
  | Posted | Reversed | Reversal | PendingApproval | Rejected | Pending | Settled | Failed.

#[global] Instance EntryStatus_eq_dec : EqDecision EntryStatus.
Proof. solve_decision. Defined.

(** [status as u8], [dr_cr as u8]: the discriminants, in declaration order. *)
Definition status_u8 (s : EntryStatus) : byte :=
  match s with
  | Posted => Byte.x00 | Reversed => Byte.x01 | Reversal => Byte.x02
  | PendingApproval => Byte.x03 | Rejected => Byte.x04 | Pending => Byte.x05
  | Settled => Byte.x06 | Failed => Byte.x07
  end.

Definition drcr_u8 (d : DrCr) : byte := match d with Debit => Byte.x00 | Credit => Byte.x01 end.

Record JournalLine := mkLine {
  ln_id : Z;
  ln_account_id : Z;
  ln_currency_code : string;
  ln_amount : Amount;
  ln_dr_cr : DrCr;
  ln_memo : option string
}.

#[global] Instance JournalLine_eq_dec : EqDecision JournalLine.
Proof. solve_decision. Defined.

(** Positive for credits, negative for debits. *)
Definition signed_amount (l : JournalLine) : Z :=
  match ln_dr_cr l with
  | Credit => amount_i128 (ln_amount l)
  | Debit => - amount_i128 (ln_amount l)
  end.

Record JournalEntry := mkEntry {
  e_id : Z;
  e_sequence : Z;
  e_status : EntryStatus;
  e_description : string;
  e_lines : list JournalLine;
  e_effective_at : Z;
  e_posted_at : Z;
  e_external_ref : option string;
  e_idempotency_key : option string;
  e_reverses_entry_id : option Z;
  e_reversed_by_entry_id : option Z;
  e_domain : string;
  e_content_hash : Hash;
  e_prev_hash : Hash;
  e_chain_hash : Hash;
  e_approved_by : option string;
  e_metadata : option string
}.

#[global] Instance JournalEntry_eq_dec : EqDecision JournalEntry.
Proof. solve_decision. Defined.

(** Field updates. *)
Definition set_hashes (content prev chain : Hash) (e : JournalEntry) : JournalEntry :=
  mkEntry (e_id e) (e_sequence e) (e_status e) (e_description e) (e_lines e) (e_effective_at e)
    (e_posted_at e) (e_external_ref e) (e_idempotency_key e) (e_reverses_entry_id e)
    (e_reversed_by_entry_id e) (e_domain e) content prev chain (e_approved_by e) (e_metadata e).

Definition set_posting (sequence posted_at : Z) (e : JournalEntry) : JournalEntry :=
  mkEntry (e_id e) sequence (e_status e) (e_description e) (e_lines e) (e_effective_at e)
    posted_at (e_external_ref e) (e_idempotency_key e) (e_reverses_entry_id e)
    (e_reversed_by_entry_id e) (e_domain e) (e_content_hash e) (e_prev_hash e) (e_chain_hash e)
    (e_approved_by e) (e_metadata e).

(** ** Errors *)

Inductive LedgerError :=
  | TransactionErr
  | WalErr
  | PageErr
  | UnbalancedEntry (debits credits : Z)
  | TooFewLines (n : nat)
  | ZeroAmount
  | InsufficientFunds (account_id balance debit : Z)
  | AccountNotFound (id : Z)
  | AccountClosed (id : Z)
  | CurrencyMismatch (account_currency entry_currency : string)
  | IdempotencyConflict (key : string)
  | EntryNotFound (id : Z)
  | CannotReverse (id : Z) (status : EntryStatus)
  | AlreadyReversed (id by_id : Z)
  | ExposureLimitExceeded (account_id limit attempted : Z)
  | FourEyesRequired
  | AccountUnderLegalHold (id : Z)
  | PrecisionViolation (currency : string) (precision amount max_minor_units : Z)
  | Serialization (msg : string)
  | LedgerIo.

(** ** Validation *)

(** The accumulation loop of [validate]: total debits and total credits. *)
Definition add_line (acc : Z * Z) (l : JournalLine) : Z * Z :=
  let amt := amount_i128 (ln_amount l) in
  match ln_dr_cr l with
  | Debit => (acc.1 + amt, acc.2)
  | Credit => (acc.1, acc.2 + amt)
  end.

Definition totals (ls : list JournalLine) : Z * Z := foldl add_line (0, 0) ls.

Definition validate (e : JournalEntry) : Result LedgerError unit :=
  if (length (e_lines e) <? 2)%nat then Err (TooFewLines (length (e_lines e)))
  else
    let '(total_debits, total_credits) := totals (e_lines e) in
    if negb (total_debits =? total_credits) then Err (UnbalancedEntry total_debits total_credits)
    else Ok tt.

(** Declarative totals. *)
Fixpoint sumZ (f : JournalLine → Z) (ls : list JournalLine) : Z :=
  match ls with [] => 0 | l :: ls => f l + sumZ f ls end.

Definition debit_of (l : JournalLine) : Z :=
  match ln_dr_cr l with Debit => amount_i128 (ln_amount l) | Credit => 0 end.
Definition credit_of (l : JournalLine) : Z :=
  match ln_dr_cr l with Credit => amount_i128 (ln_amount l) | Debit => 0 end.

Lemma sumZ_app f l1 l2 : sumZ f (l1 ++ l2) = sumZ f l1 + sumZ f l2.
Proof. induction l1; cbn; lia. Qed.

Lemma sumZ_ext f g ls : (∀ l, l ∈ ls → f l = g l) → sumZ f ls = sumZ g ls.
Proof.
  induction ls as [|l ls IH]; intros Hfg; cbn; [done|].
  rewrite IH by (intros; apply Hfg; by right). rewrite Hfg by left. done.
Qed.

Lemma totals_from ls d c :
  foldl add_line (d, c) ls = (d + sumZ debit_of ls, c + sumZ credit_of ls).
Proof.
  revert d c. induction ls as [|l ls IH]; intros d c; cbn; [by rewrite !Z.add_0_r|].
  unfold add_line, debit_of, credit_of; cbn.
  destruct (ln_dr_cr l); cbn; rewrite IH; unfold debit_of, credit_of; f_equal; lia.
Qed.

Lemma totals_sum ls : totals ls = (sumZ debit_of ls, sumZ credit_of ls).
Proof. unfold totals. by rewrite totals_from. Qed.

Definition balanced (ls : list JournalLine) : Prop := sumZ debit_of ls = sumZ credit_of ls.

Lemma validate_Ok e : validate e = Ok tt ↔ (2 ≤ length (e_lines e))%nat ∧ balanced (e_lines e).
Proof.
  unfold validate, balanced. rewrite totals_sum.
  destruct (Nat.ltb_spec (length (e_lines e)) 2); [split; [done|intros []; lia]|].
  destruct (Z.eqb_spec (sumZ debit_of (e_lines e)) (sumZ credit_of (e_lines e))); cbn; naive_solver.
Qed.

(** A net-debit view of the lines: [Σ debits − Σ credits]. *)
Definition net_debit_of (l : JournalLine) : Z :=
  match ln_dr_cr l with Debit => amount_i128 (ln_amount l) | Credit => - amount_i128 (ln_amount l) end.

Lemma sumZ_net_debit ls : sumZ net_debit_of ls = sumZ debit_of ls - sumZ credit_of ls.
Proof.
  induction ls as [|l ls IH]; cbn; [done|]. rewrite IH.
  unfold net_debit_of, debit_of, credit_of. destruct (ln_dr_cr l); lia.
Qed.

(** Sums of [i64] amounts stay well inside [i128]: the accumulators of
    [validate] cannot overflow for any vector that fits in memory. *)
Lemma sumZ_bound f ls :
  (∀ l, l ∈ ls → - 2 ^ 63 ≤ f l ≤ 2 ^ 63) →
  - (2 ^ 63 * Z.of_nat (length ls)) ≤ sumZ f ls ≤ 2 ^ 63 * Z.of_nat (length ls).
Proof.
  induction ls as [|l ls IH]; intros Hb; cbn [sumZ length]; [lia|].
  pose proof (Hb l ltac:(left)). specialize (IH (λ x Hx, Hb x ltac:(by right))).
  lia.
Qed.

(** ** The builder

    It draws the identifiers and reads the clock. *)

Record JournalEntryBuilder := mkBuilder {
  b_description : string;
  b_lines : list JournalLine;
  b_effective_at : Z;
  b_external_ref : option string;
  b_idempotency_key : option string;
  b_domain : string;
  b_reverses_entry_id : option Z;
  b_metadata : option string
}.

Section builder.
Context {S E : Type}.

Definition Builder_new (description domain : string) : M S E JournalEntryBuilder :=
  t ← now; mret (mkBuilder description [] t None None domain None None).

Definition add_builder_line (d : DrCr) (account_id : Z) (amount : Amount) (currency : string)
    (b : JournalEntryBuilder) : M S E JournalEntryBuilder :=
  id ← rand;
  mret (mkBuilder (b_description b) (b_lines b ++ [mkLine id account_id (to_uppercase currency) amount d None])
    (b_effective_at b) (b_external_ref b) (b_idempotency_key b) (b_domain b) (b_reverses_entry_id b) (b_metadata b)).
Definition debit := add_builder_line Debit.
Definition credit := add_builder_line Credit.

Definition effective_at (t : Z) (b : JournalEntryBuilder) : JournalEntryBuilder :=
  mkBuilder (b_description b) (b_lines b) t (b_external_ref b) (b_idempotency_key b) (b_domain b)
    (b_reverses_entry_id b) (b_metadata b).
Definition external_ref (r : string) (b : JournalEntryBuilder) : JournalEntryBuilder :=
  mkBuilder (b_description b) (b_lines b) (b_effective_at b) (Some r) (b_idempotency_key b) (b_domain b)
    (b_reverses_entry_id b) (b_metadata b).
Definition idempotency_key (k : string) (b : JournalEntryBuilder) : JournalEntryBuilder :=
  mkBuilder (b_description b) (b_lines b) (b_effective_at b) (b_external_ref b) (Some k) (b_domain b)
    (b_reverses_entry_id b) (b_metadata b).
Definition metadata (json : string) (b : JournalEntryBuilder) : JournalEntryBuilder :=
  mkBuilder (b_description b) (b_lines b) (b_effective_at b) (b_external_ref b) (b_idempotency_key b) (b_domain b)
    (b_reverses_entry_id b) (Some json).
Definition reverses (entry_id : Z) (b : JournalEntryBuilder) : JournalEntryBuilder :=
  mkBuilder (b_description b) (b_lines b) (b_effective_at b) (b_external_ref b) (b_idempotency_key b) (b_domain b)
    (Some entry_id) (b_metadata b).

Definition build (b : JournalEntryBuilder) : M S E JournalEntry :=
  id ← rand;
  t ← now;
  mret (mkEntry id 0 (if bool_decide (is_Some (b_reverses_entry_id b)) then Reversal else Posted)
    (b_description b) (b_lines b) (b_effective_at b) t (b_external_ref b) (b_idempotency_key b)
    (b_reverses_entry_id b) None (b_domain b) ZERO_HASH ZERO_HASH ZERO_HASH None (b_metadata b)).

(** A built entry has no hashes yet, which is what posting relies on. *)
Lemma build_unhashed b W s : ∃ e W', build b (W, s) = (Ok e, (W', s)) ∧ e_content_hash e = ZERO_HASH ∧ e_lines e = b_lines b.
Proof. by eexists _, _. Qed.
End builder.

(** ** Canonical bytes *)

(** [write_bytes]: a 4-byte length, then the data. *)
Definition write_bytes (data : bytes) : bytes := le32 (as_u32 (Z.of_nat (length data))) ++ data.

(** [write_opt_bytes]: absence is the length [0xFFFF_FFFF]. *)
Definition write_opt_bytes (data : option bytes) : bytes :=
  match data with
  | Some d => write_bytes d
  | None => le32 (2 ^ 32 - 1)
  end.

(** [dt.timestamp_nanos_opt().unwrap_or(0).to_le_bytes()]: nanoseconds since
    the epoch when they fit an [i64], 0 otherwise. *)
Definition timestamp_bytes (t : Z) : bytes :=
  le64 (if (I64_MIN <=? t) && (t <=? I64_MAX) then t else 0).

(** A related entry's identifier: 16 bytes and a presence flag. *)
Definition write_opt_uuid (u : option Z) : bytes :=
  match u with
  | Some id => uuid_bytes id ++ [Byte.x01]
  | None => replicate 16 Byte.x00 ++ [Byte.x00]
  end.

Definition line_bytes (l : JournalLine) : bytes :=
  uuid_bytes (ln_id l) ++ uuid_bytes (ln_account_id l) ++ le64 (amount_i64 (ln_amount l)) ++
  [drcr_u8 (ln_dr_cr l)] ++ write_bytes (str_bytes (ln_currency_code l)) ++
  write_opt_bytes (str_bytes <$> ln_memo l).

Definition canonical_bytes (e : JournalEntry) : bytes :=
  [Byte.x01] ++
  uuid_bytes (e_id e) ++ le64 (e_sequence e) ++ [status_u8 (e_status e)] ++
  timestamp_bytes (e_effective_at e) ++ timestamp_bytes (e_posted_at e) ++
  write_bytes (str_bytes (e_description e)) ++ write_bytes (str_bytes (e_domain e)) ++
  write_opt_bytes (str_bytes <$> e_external_ref e) ++
  write_opt_bytes (str_bytes <$> e_idempotency_key e) ++
  write_opt_uuid (e_reverses_entry_id e) ++ write_opt_uuid (e_reversed_by_entry_id e) ++
  write_opt_bytes (str_bytes <$> e_approved_by e) ++ write_opt_bytes (str_bytes <$> e_metadata e) ++
  le32 (as_u32 (Z.of_nat (length (e_lines e)))) ++ concat (map line_bytes (e_lines e)).

#[global] Arguments canonical_bytes : simpl never.
#[global] Arguments line_bytes : simpl never.

(** *** Well-formedness: the values the Rust types and the length prefixes
    can represent.  Decidable, so that witnesses evaluate it. *)

Definition str_ok (s : string) : bool := Z.of_nat (length (str_bytes s)) <? 2 ^ 32 - 1.
Definition opt_str_ok (s : option string) : bool := default true (str_ok <$> s).
Definition uuid_okb (u : Z) : bool := (0 <=? u) && (u <? 2 ^ 128).
Definition i64_okb (z : Z) : bool := (I64_MIN <=? z) && (z <=? I64_MAX).
Definition u64_okb (z : Z) : bool := (0 <=? z) && (z <? 2 ^ 64).

Definition line_wf (l : JournalLine) : bool :=
  uuid_okb (ln_id l) && uuid_okb (ln_account_id l) && i64_okb (amount_i64 (ln_amount l)) &&
  str_ok (ln_currency_code l) && opt_str_ok (ln_memo l).

Definition entry_wf (e : JournalEntry) : bool :=
  uuid_okb (e_id e) && u64_okb (e_sequence e) && i64_okb (e_effective_at e) &&
  i64_okb (e_posted_at e) && str_ok (e_description e) && str_ok (e_domain e) &&
  opt_str_ok (e_external_ref e) && opt_str_ok (e_idempotency_key e) &&
  default true (uuid_okb <$> e_reverses_entry_id e) &&
  default true (uuid_okb <$> e_reversed_by_entry_id e) &&
  opt_str_ok (e_approved_by e) && opt_str_ok (e_metadata e) &&
  (Z.of_nat (length (e_lines e)) <? 2 ^ 32) && forallb line_wf (e_lines e).

Lemma i64_okb_ok z : i64_okb z = true → i64_ok z.
Proof. unfold i64_okb, i64_ok, I64_MIN, I64_MAX. rewrite andb_true_iff, !Z.leb_le. lia. Qed.
Lemma u64_okb_ok z : u64_okb z = true → u64_ok z.
Proof. unfold u64_okb, u64_ok. rewrite andb_true_iff, Z.leb_le, Z.ltb_lt. done. Qed.
Lemma uuid_okb_ok z : uuid_okb z = true → uuid_ok z.
Proof. unfold uuid_okb, uuid_ok. rewrite andb_true_iff, Z.leb_le, Z.ltb_lt. done. Qed.

(** *** Each field is self-delimiting *)

Lemma as_u32_len (d : bytes) : Z.of_nat (length d) < 2 ^ 32 → as_u32 (Z.of_nat (length d)) = Z.of_nat (length d).
Proof. intros. unfold as_u32. rewrite Z.mod_small by lia. done. Qed.

Lemma self_delim_write_bytes : self_delim (λ d, Z.of_nat (length d) < 2 ^ 32) write_bytes.
Proof.
  intros a b r s Ha Hb He. unfold write_bytes in He. rewrite <- !app_assoc in He.
  rewrite !as_u32_len in He by done.
  apply (self_delim_le 4) in He as [Hl He]; [|cbn; lia..].
  apply app_inj_1 in He; [done|lia].
Qed.

Lemma self_delim_str : self_delim (λ s, str_ok s = true) (λ s, write_bytes (str_bytes s)).
Proof.
  unfold str_ok. intros a b r s Ha Hb He. rewrite Z.ltb_lt in Ha, Hb.
  apply self_delim_write_bytes in He as [He ->]; [|lia..]. by apply str_bytes_inj in He.
Qed.

Lemma write_opt_bytes_sentinel d r s :
  Z.of_nat (length d) < 2 ^ 32 - 1 → write_bytes d ++ r ≠ le32 (2 ^ 32 - 1) ++ s.
Proof.
  unfold write_bytes. intros Hd He. rewrite as_u32_len, <- app_assoc in He by lia.
  apply (self_delim_le 4) in He as [Hl _]; cbn in *; lia.
Qed.

Lemma self_delim_opt_str :
  self_delim (λ s, opt_str_ok s = true) (λ s, write_opt_bytes (str_bytes <$> s)).
Proof.
  intros [a|] [b|] r s Ha Hb He; cbn in *.
  - by apply self_delim_str in He as [-> ->].
  - exfalso. unfold str_ok in Ha. rewrite Z.ltb_lt in Ha.
    exact (write_opt_bytes_sentinel _ _ _ Ha He).
  - exfalso. unfold str_ok in Hb. rewrite Z.ltb_lt in Hb.
    exact (write_opt_bytes_sentinel _ _ _ Hb (eq_sym He)).
  - by injection He as ->.
Qed.

Lemma self_delim_timestamp : self_delim (λ t, i64_okb t = true) timestamp_bytes.
Proof.
  intros a b r s Ha Hb. unfold timestamp_bytes.
  fold (i64_okb a) (i64_okb b). rewrite Ha, Hb. apply self_delim_le64s; by apply i64_okb_ok.
Qed.

Lemma self_delim_opt_uuid :
  self_delim (λ u, default true (uuid_okb <$> u) = true) write_opt_uuid.
Proof.
  assert (H17 : ∀ (x y : bytes) (b c : byte) (r s : bytes), length x = 16%nat → length y = 16%nat →
    (x ++ [b]) ++ r = (y ++ [c]) ++ s → x = y ∧ b = c ∧ r = s).
  { intros x y b c r s Hx Hy He. rewrite <- !app_assoc in He.
    apply app_inj_1 in He as [-> He]; [|congruence]. by simplify_eq/=. }
  assert (Hlen : ∀ u, length (uuid_bytes u) = 16%nat).
  { intros. unfold uuid_bytes. by rewrite length_rev, le_bytes_length. }
  intros [a|] [b|] r s Ha Hb He; cbn in Ha, Hb; unfold write_opt_uuid in He;
    apply H17 in He as (He & Hf & ->); rewrite ?Hlen, ?length_replicate; try done.
  split; [|done]. f_equal. apply (self_delim_inj _ _ _ _ self_delim_uuid); auto using uuid_okb_ok.
Qed.

Lemma status_u8_inj s t : status_u8 s = status_u8 t → s = t.
Proof. by destruct s, t. Qed.
Lemma drcr_u8_inj s t : drcr_u8 s = drcr_u8 t → s = t.
Proof. by destruct s, t. Qed.

Lemma self_delim_status : self_delim (λ _, True) (λ s, [status_u8 s]).
Proof. apply self_delim_byte. eauto using status_u8_inj. Qed.
Lemma self_delim_drcr : self_delim (λ _, True) (λ d, [drcr_u8 d]).
Proof. apply self_delim_byte. eauto using drcr_u8_inj. Qed.

(** [peel L]: the byte strings in [H] start with encodings covered by [L];
    equate the values and drop the encodings. *)
Ltac peel L :=
  match goal with
  | H : _ ++ _ = _ ++ _ |- _ =>
      apply L in H as [? H];
      [|solve [done | by apply uuid_okb_ok | by apply i64_okb_ok | by apply u64_okb_ok]..]
  end.

Lemma self_delim_line : self_delim (λ l, line_wf l = true) line_bytes.
Proof.
  intros [i1 a1 c1 [m1] d1 o1] [i2 a2 c2 [m2] d2 o2] r s H1 H2 He.
  unfold line_wf in H1, H2; cbn in H1, H2. rewrite !andb_true_iff in H1, H2.
  destruct_and!. unfold line_bytes in He; cbn [ln_id ln_account_id ln_amount amount_i64 ln_dr_cr
    ln_currency_code ln_memo] in He.
  repeat rewrite <- app_assoc in He.
  peel self_delim_uuid. peel self_delim_uuid. peel self_delim_le64s.
  peel self_delim_drcr.
  apply self_delim_str in He as [-> He]; [|done..].
  apply self_delim_opt_str in He as [-> ->]; [|done..]. by subst.
Qed.

(** The entry with its hashes erased: what the canonical bytes cover. *)
Definition hashed_part (e : JournalEntry) : JournalEntry :=
  set_hashes ZERO_HASH ZERO_HASH ZERO_HASH e.

Lemma canonical_bytes_inj_wf e1 e2 :
  entry_wf e1 = true → entry_wf e2 = true →
  canonical_bytes e1 = canonical_bytes e2 → hashed_part e1 = hashed_part e2.
Proof.
  intros H1 H2 He. destruct e1, e2. unfold entry_wf in H1, H2; cbn in H1, H2.
  rewrite !andb_true_iff in H1, H2. destruct_and!.
  rewrite !Z.ltb_lt in *. rewrite !forallb_forall in *.
  unfold canonical_bytes in He; cbn -[app le_bytes le64 le32] in He.
  apply app_inv_head in He.
  peel self_delim_uuid. peel (self_delim_le 8). peel self_delim_status.
  peel self_delim_timestamp. peel self_delim_timestamp.
  peel self_delim_str. peel self_delim_str.
  peel self_delim_opt_str. peel self_delim_opt_str.
  peel self_delim_opt_uuid. peel self_delim_opt_uuid.
  peel self_delim_opt_str. peel self_delim_opt_str.
  unfold as_u32 in He. rewrite !Z.mod_small in He by lia.
  apply (self_delim_le 4) in He as [Hl He]; [|cbn; lia..].
  rewrite <- (app_nil_r (concat (map line_bytes e_lines0))) in He.
  rewrite <- (app_nil_r (concat (map line_bytes e_lines1))) in He.
  apply (self_delim_concat _ _ _ _ _ _ self_delim_line) in He as [-> _];
    [|apply Forall_forall; intros ? ?%list_elem_of_In; auto..|lia].
  by subst.
Qed.

(** ** Hashes *)

Section hashes.
Context `{Blake3}.

Definition precompute_content_hash (e : JournalEntry) : JournalEntry :=
  set_hashes (hash_bytes (canonical_bytes e)) (e_prev_hash e) (e_chain_hash e) e.

Definition finalize_chain_hash (prev : Hash) (e : JournalEntry) : JournalEntry :=
  let content := if bool_decide (e_content_hash e = ZERO_HASH)
                 then hash_bytes (canonical_bytes e) else e_content_hash e in
  set_hashes content prev (compute_chain_hash (e_sequence e) prev content) e.

Definition finalize_hashes (prev : Hash) (e : JournalEntry) : JournalEntry :=
  finalize_chain_hash prev (precompute_content_hash e).

Definition verify_hashes (e : JournalEntry) : bool :=
  if negb (bool_decide (hash_bytes (canonical_bytes e) = e_content_hash e)) then false
  else bool_decide
    (compute_chain_hash (e_sequence e) (e_prev_hash e) (e_content_hash e) = e_chain_hash e).

(** The canonical bytes ignore the hash fields. *)
Lemma canonical_bytes_set_hashes c p h e : canonical_bytes (set_hashes c p h e) = canonical_bytes e.
Proof. done. Qed.

Lemma verify_hashes_spec e :
  verify_hashes e = true ↔
  e_content_hash e = hash_bytes (canonical_bytes e) ∧
  e_chain_hash e = compute_chain_hash (e_sequence e) (e_prev_hash e) (e_content_hash e).
Proof.
  unfold verify_hashes. repeat case_bool_decide; cbn; naive_solver.
Qed.

(** Finalizing an entry whose content hash is unset makes it verify. *)
Lemma finalize_chain_hash_verifies prev e :
  e_content_hash e = ZERO_HASH → verify_hashes (finalize_chain_hash prev e) = true.
Proof.
  intros Hz. apply verify_hashes_spec. unfold finalize_chain_hash.
  rewrite bool_decide_true by done. done.
Qed.

Lemma finalize_hashes_verifies prev e : verify_hashes (finalize_hashes prev e) = true.
Proof.
  apply verify_hashes_spec. unfold finalize_hashes, finalize_chain_hash; cbn.
  case_bool_decide; done.
Qed.

(** An entry whose content hash was set before the sequence number and the
    posting time were assigned keeps that stale value. *)
Lemma finalize_chain_hash_stale prev e :
  e_content_hash e ≠ ZERO_HASH →
  e_content_hash (finalize_chain_hash prev e) = e_content_hash e.
Proof. intros. unfold finalize_chain_hash; cbn. by rewrite bool_decide_false. Qed.

(** The sequence number is hashed. *)
Lemma canonical_bytes_sequence e1 e2 :
  e_id e1 = e_id e2 → u64_ok (e_sequence e1) → u64_ok (e_sequence e2) →
  canonical_bytes e1 = canonical_bytes e2 → e_sequence e1 = e_sequence e2.
Proof.
  intros Hid H1 H2 He. unfold canonical_bytes in He. rewrite Hid in He. apply app_inv_head, app_inv_head in He.
  by apply (self_delim_le 8) in He as [? _].
Qed.

(** ** Chains of entries *)

(** The loop of [verify_chain_integrity] and [verify_chain_range]: [None] when
    every entry passes, otherwise the first failing sequence number and
    whether the failure is its own hash ([true]) or the link. *)
Fixpoint verify_entries (prev : Hash) (es : list JournalEntry) : option (Z * bool) :=
  match es with
  | [] => None
  | e :: es =>
      if negb (verify_hashes e) then Some (e_sequence e, true)
      else if negb (bool_decide (e_prev_hash e = prev)) then Some (e_sequence e, false)
      else verify_entries (e_chain_hash e) es
  end.

(** The hash-chain tip after a list of entries. *)
Definition tip (prev : Hash) (es : list JournalEntry) : Hash :=
  foldl (λ _ e, e_chain_hash e) prev es.

Lemma verify_entries_app prev es1 es2 :
  verify_entries prev (es1 ++ es2) =
  match verify_entries prev es1 with
  | Some b => Some b
  | None => verify_entries (tip prev es1) es2
  end.
Proof.
  revert prev. induction es1 as [|e es1 IH]; intros prev; cbn; [done|].
  destruct (verify_hashes e); cbn; [|done]. case_bool_decide; cbn; [|done]. apply IH.
Qed.

Lemma tip_snoc prev es e : tip prev (es ++ [e]) = e_chain_hash e.
Proof. unfold tip. by rewrite foldl_app. Qed.

(** Appending an entry finalized on the current tip keeps the chain valid. *)
Lemma verify_entries_snoc es e :
  verify_entries ZERO_HASH es = None →
  verify_hashes e = true → e_prev_hash e = tip ZERO_HASH es →
  verify_entries ZERO_HASH (es ++ [e]) = None.
Proof.
  intros Hes He Hp. rewrite verify_entries_app, Hes. cbn. rewrite He, bool_decide_true by done. done.
Qed.

(** The links a verified ledger follows. *)
Definition entry_link (e : JournalEntry) : link := (e_sequence e, e_content_hash e).

Lemma verify_entries_links prev es :
  verify_entries prev es = None → tip prev es = chain_tip_of prev (map entry_link es).
Proof.
  revert prev. induction es as [|e es IH]; intros prev; cbn; [done|].
  destruct (verify_hashes e) eqn:Hv; cbn; [|done]. case_bool_decide as Hp; cbn; [|done].
  intros Hes. apply verify_hashes_spec in Hv as [_ Hc]. rewrite <- Hp, <- Hc. by apply IH.
Qed.

Lemma verify_entries_content prev es :
  verify_entries prev es = None →
  Forall (λ e, e_content_hash e = hash_bytes (canonical_bytes e)) es.
Proof.
  revert prev. induction es as [|e es IH]; intros prev; cbn; [done|].
  destruct (verify_hashes e) eqn:Hv; cbn; [|done]. case_bool_decide; cbn; [|done].
  intros Hes. apply verify_hashes_spec in Hv as [? _]. eauto.
Qed.

(** Every string hashed when a ledger is verified. *)
Definition ledger_inputs (es : list JournalEntry) : list bytes :=
  map canonical_bytes es ++ chain_inputs ZERO_HASH (map entry_link es).

Lemma contents_determine es1 es2 :
  Forall (λ e, entry_wf e = true) es1 → Forall (λ e, entry_wf e = true) es2 →
  Forall (λ e, e_content_hash e = hash_bytes (canonical_bytes e)) es1 →
  Forall (λ e, e_content_hash e = hash_bytes (canonical_bytes e)) es2 →
  map entry_link es1 = map entry_link es2 →
  map hashed_part es1 = map hashed_part es2 ∨
  collision (map canonical_bytes es1) (map canonical_bytes es2).
Proof.
  intros W1. revert es2. induction W1 as [|e1 es1 Hw1 W1 IH]; intros [|e2 es2] W2 C1 C2 Hl;
    cbn in *; try discriminate; [by left|]. injection Hl as Hs Hc Hl.
  apply Forall_cons in W2 as [Hw2 W2], C1 as [Hc1 C1], C2 as [Hc2 C2].
  destruct (decide (canonical_bytes e1 = canonical_bytes e2)) as [Hb|Hb].
  - rewrite (canonical_bytes_inj_wf _ _ Hw1 Hw2 Hb).
    destruct (IH es2) as [->|Hx]; auto. right.
    revert Hx. apply collision_mono; cbn; by apply list_subseteq_cons.
  - right. exists (canonical_bytes e1), (canonical_bytes e2).
    split_and!; [set_solver..|done|]. unfold hash_bytes in *. by rewrite <- Hc1, <- Hc2.
Qed.

(** C6: tamper evidence.  Two ledgers of well-formed entries that both verify
    from the genesis value and end in the same chain tip contain the same
    entries, field by field (the hash fields apart, which follow), unless two
    distinct strings hashed during the two verifications have the same BLAKE3
    digest, or one of them has the all-zero digest. *)
Theorem ledger_tamper_evident es1 es2 :
  Forall (λ e, entry_wf e = true) es1 → Forall (λ e, entry_wf e = true) es2 →
  verify_entries ZERO_HASH es1 = None → verify_entries ZERO_HASH es2 = None →
  tip ZERO_HASH es1 = tip ZERO_HASH es2 →
  map hashed_part es1 = map hashed_part es2 ∨
  collision (ledger_inputs es1) (ledger_inputs es2) ∨
  zero_preimage (ledger_inputs es1 ++ ledger_inputs es2).
Proof.
  intros W1 W2 V1 V2 Ht. rewrite !verify_entries_links in Ht by done.
  assert (Hok : ∀ es, Forall (λ e, entry_wf e = true) es → verify_entries ZERO_HASH es = None →
                  Forall link_ok (map entry_link es)).
  { intros es W V. apply verify_entries_content in V. apply Forall_map.
    rewrite Forall_forall in *. intros e He. specialize (W e He). specialize (V e He).
    unfold entry_wf in W. rewrite !andb_true_iff in W. destruct_and!.
    split; cbn; [by apply u64_okb_ok|]. rewrite V. apply blake3_length. }
  destruct (chain_tip_determines _ _ (Hok _ W1 V1) (Hok _ W2 V2) Ht) as [Hl|[Hx|Hx]].
  - destruct (contents_determine es1 es2) as [?|Hx];
      eauto using verify_entries_content.
    right; left. revert Hx. apply collision_mono; unfold ledger_inputs; set_solver.
  - right; left. revert Hx. apply collision_mono; unfold ledger_inputs; set_solver.
  - right; right. revert Hx. apply zero_preimage_mono; unfold ledger_inputs; set_solver.
Qed.
End hashes.
