(* ===== verification/AuditTrail.v ===== *)
(** * vledger-audit: the append-only audit log

    Models [crates/vledger-audit/src/event.rs], [log.rs] and [export.rs].  The
    log is a text file with one JSON event per line; each event carries a
    digest of its own content and a chain digest over its sequence number, the
    previous chain digest and the content digest, all in hexadecimal.

    [append] reserves a sequence number before it takes the lock that orders
    the writes, so concurrent calls interleave: [reserve] and [write_event]
    are its two atomic halves and [audit_step] runs them in any order, with
    restarts in between. *)

From stdpp Require Import base gmap list strings option fin_maps relations.
From Stdlib Require Import ZArith Lia Strings.Byte.
From S2P Require Import Prelude Bytes Jsonl Crypto Entry.

(** ** Events *)

Inductive AuditEventKind :=
  | QueryExecuted (sql caller_id : string) (rows_affected duration_ms : Z)
  | EntryPosted (entry_id entry_sequence : Z) (domain : string) (amount_sum : Z) (caller_id : string)
  | AccountCreated (account_id : Z) (account_code domain caller_id : string)
  | AccountClosed (account_id : Z) (caller_id : string)
  | KeyRotated (key_id caller_id : string)
  | ReplicationEvent (lsn : Z) (direction peer : string)
  | AuthEvent (caller_id : string) (success : bool) (peer_addr : string)
  | FourEyesSubmitted (approval_id entry_id : Z) (submitter domain : string)
  | FourEyesApproved (approval_id : Z) (approver : string)
  | FourEyesRejected (approval_id : Z) (approver reason : string)
  | BackupCreated (path : string) (size_bytes : Z) (caller_id : string)
  | KeyRotationStarted (key_ids : list string) (caller_id : string)
  | ServerStarted (bind_addr version : string).

#[global] Instance AuditEventKind_eq_dec : EqDecision AuditEventKind.
Proof. solve_decision. Defined.

(** The short name used in the CSV export. *)
Definition kind_name (k : AuditEventKind) : string :=
  match k with
  | QueryExecuted _ _ _ _ => "query_executed"
  | EntryPosted _ _ _ _ _ => "entry_posted"
  | AccountCreated _ _ _ _ => "account_created"
  | AccountClosed _ _ => "account_closed"
  | KeyRotated _ _ => "key_rotated"
  | ReplicationEvent _ _ _ => "replication_event"
  | AuthEvent _ _ _ => "auth_event"
  | FourEyesSubmitted _ _ _ _ => "four_eyes_submitted"
  | FourEyesApproved _ _ => "four_eyes_approved"
  | FourEyesRejected _ _ _ => "four_eyes_rejected"
  | BackupCreated _ _ _ => "backup_created"
  | KeyRotationStarted _ _ => "key_rotation_started"
  | ServerStarted _ _ => "server_started"
  end.

Record AuditEvent := mkAuditEvent {
  ae_sequence : Z;
  ae_ts : Z;                    (* nanoseconds since the epoch *)
  ae_event : AuditEventKind;
  ae_content_hash : bytes;      (* hexadecimal text *)
  ae_chain_hash : bytes;
  ae_prev_hash : bytes
}.

(** The event type through [serde_json]: the whole event (with the types of
    its integer fields), and the event kind alone, with the text of the error
    when it cannot be serialized. *)
Class AuditExt := {
  event_json :: Json AuditEvent;
  event_json_typed : ∀ l ev, from_json l = Some ev → u64_ok (ae_sequence ev);
  kind_json :: Json AuditEventKind;
  kind_json_error : AuditEventKind → bytes
}.

(** 64 zero digits. *)
Definition AUDIT_ZERO_HASH : bytes := replicate 64 Byte.x30.

Inductive ChainReason :=
  | HashMismatch                               (* "content_hash or chain_hash mismatch" *)
  | PrevMismatch (expected got : bytes).       (* "prev_hash mismatch: ..." *)

Inductive AuditError :=
  | AuditIo
  | AuditSerialisation
  | ChainBroken (sequence : Z) (reason : ChainReason)
  | AuditPanic.                                (* a slice out of bounds *)

Section audit.
Context `{Blake3} `{Hex} `{AuditExt}.

(** The object standing for a kind that cannot be serialized: its one field,
    [serialization_error], holds the text of the error. *)
Definition serialization_error (e : bytes) : bytes :=
  let q := Byte.x22 in
  [Byte.x7b; q] ++ str_bytes "serialization_error" ++ [q; Byte.x3a; q] ++ e ++ [q; Byte.x7d].

Definition kind_text (k : AuditEventKind) : bytes :=
  match to_json k with
  | Some j => j
  | None => serialization_error (kind_json_error k)
  end.

Definition canonical_bytes (ev : AuditEvent) : bytes :=
  le64 (ae_sequence ev) ++ timestamp_bytes (ae_ts ev) ++ kind_text (ae_event ev).

Definition content_digest (ev : AuditEvent) : bytes := hex_enc (blake3 (canonical_bytes ev)).

(** The string hashed for the chain. *)
Definition audit_chain_input (sequence : Z) (prev content : bytes) : bytes :=
  le64 sequence ++ prev ++ content.

Definition chain_digest (sequence : Z) (prev content : bytes) : bytes :=
  hex_enc (blake3 (audit_chain_input sequence prev content)).

Definition finalise (prev_chain_hash : bytes) (ev : AuditEvent) : AuditEvent :=
  let content_hex := content_digest ev in
  mkAuditEvent (ae_sequence ev) (ae_ts ev) (ae_event ev) content_hex
    (chain_digest (ae_sequence ev) prev_chain_hash content_hex) prev_chain_hash.

Definition event_verify (ev : AuditEvent) : bool :=
  let expected_content := content_digest ev in
  if negb (bool_decide (expected_content = ae_content_hash ev)) then false
  else bool_decide (chain_digest (ae_sequence ev) (ae_prev_hash ev) expected_content = ae_chain_hash ev).

(** ** The log *)

Record AuditLog := mkAuditLog {
  al_file : bytes;          (* the file at [log_path], opened for appending *)
  al_next_seq : Z;
  al_last_chain : bytes
}.

Definition al_set_seq n l := mkAuditLog (al_file l) n (al_last_chain l).
Definition al_set_chain c l := mkAuditLog (al_file l) (al_next_seq l) c.
Definition al_append bs l := mkAuditLog (al_file l ++ bs) (al_next_seq l) (al_last_chain l).

Notation AM := (M AuditLog AuditError).

(** [next_seq.fetch_add(1)]: atomic, before the lock is taken. *)
Definition reserve : AM Z :=
  seq ← gets al_next_seq;
  _ ← modify (al_set_seq (wadd_u64 seq 1));
  mret seq.

(** The rest of [append], under the lock of [last_chain]. *)
Definition write_event (seq : Z) (kind : AuditEventKind) : AM AuditEvent :=
  ts ← now;
  last ← gets al_last_chain;
  let event := finalise last (mkAuditEvent seq ts kind [] [] []) in
  line ← liftR (ok_or (to_json event) AuditSerialisation);
  _ ← append_line AuditIo al_append line;
  _ ← io AuditIo;   (* flush *)
  _ ← io AuditIo;   (* sync_all *)
  _ ← modify (al_set_chain (ae_chain_hash event));
  mret event.

Definition append (kind : AuditEventKind) : AM AuditEvent :=
  seq ← reserve; write_event seq kind.

(** One line of [verify_chain]: the digests of the event, then the link to
    the previous one. *)
Definition verify_line (acc : bytes * Z) (line : bytes) : Result AuditError (bytes * Z) :=
  match from_json (A:=AuditEvent) line with
  | None => Err AuditSerialisation
  | Some event =>
      if negb (event_verify event) then Err (ChainBroken (ae_sequence event) HashMismatch)
      else if negb (bool_decide (ae_prev_hash event = acc.1)) then
        Err (ChainBroken (ae_sequence event) (PrevMismatch acc.1 (ae_prev_hash event)))
      else Ok (ae_chain_hash event, wadd_u64 acc.2 1)
  end.

Definition verify_chain : AM Z :=
  _ ← io AuditIo;
  f ← gets al_file;
  r ← for_lines AuditIo (λ a l, liftR (verify_line a l)) (AUDIT_ZERO_HASH, 0) (raw_lines f);
  mret r.2.

(** One line of [scan_tail]: malformed lines are skipped. *)
Definition scan_line (acc : Z * bytes) (line : bytes) : Result AuditError (Z * bytes) :=
  match from_json (A:=AuditEvent) line with
  | Some ev => Ok (ae_sequence ev, ae_chain_hash ev)
  | None => Ok acc
  end.

(** [scan_tail] on the file that may be at the path. *)
Definition scan_tail : M (option bytes) AuditError (Z * bytes) :=
  f ← gets id;
  match f with
  | None => mret (1, AUDIT_ZERO_HASH)
  | Some f =>
      _ ← io AuditIo;
      r ← for_lines AuditIo (λ a l, liftR (scan_line a l)) (0, AUDIT_ZERO_HASH) (raw_lines f);
      mret (wadd_u64 r.1 1, r.2)
  end.

(** [AuditLog::open]; the file is created when absent. *)
Definition AuditLog_open : M (option bytes) AuditError AuditLog :=
  _ ← io AuditIo;   (* create_dir_all *)
  tail ← scan_tail;
  _ ← io AuditIo;
  _ ← modify (λ f, Some (default [] f));
  f ← gets (default []);
  mret (mkAuditLog f tail.1 tail.2).

(** ** Export *)

Record TimeRange := mkTimeRange { tr_from : Z; tr_to : Z }.

(** From the epoch to chrono's last instant ([DateTime::<Utc>::MAX_UTC]). *)
Definition TimeRange_all (max_utc : Z) : TimeRange := mkTimeRange 0 max_utc.
Definition range_contains (r : TimeRange) (ts : Z) : bool := (tr_from r <=? ts) && (ts <=? tr_to r).

(** [scan_events]: the state is the writer's buffer. *)
Definition scan_event (range : TimeRange) (cb : AuditEvent → M bytes AuditError unit) (count : Z) (line : bytes)
  : M bytes AuditError Z :=
  match from_json (A:=AuditEvent) line with
  | None => throw AuditSerialisation
  | Some ev =>
      if range_contains range (ae_ts ev) then _ ← cb ev; mret (wadd_u64 count 1) else mret count
  end.

Definition scan_events (log : option bytes) (range : TimeRange) (cb : AuditEvent → M bytes AuditError unit)
  : M bytes AuditError Z :=
  match log with
  | None => mret 0
  | Some f => _ ← io AuditIo; for_lines AuditIo (scan_event range cb) 0 (raw_lines f)
  end.

Definition out (bs out : bytes) : bytes := out ++ bs.

Definition export_json (log : option bytes) (range : TimeRange) : M bytes AuditError Z :=
  scan_events log range (λ ev,
    line ← liftR (ok_or (to_json ev) AuditSerialisation);
    append_line AuditIo out line).

(** Every quote of the details field is doubled. *)
Fixpoint csv_escape (bs : bytes) : bytes :=
  match bs with
  | [] => []
  | b :: bs => if bool_decide (b = Byte.x22) then b :: b :: csv_escape bs else b :: csv_escape bs
  end.

(** [&h[..16]]: a panic when the text is shorter or the cut is inside a
    character. *)
Definition slice16 (h : bytes) : Result AuditError bytes :=
  if (16 <=? length h)%nat && utf8_valid (take 16 h) then Ok (take 16 h) else Err AuditPanic.
End audit.

(** [ts.to_rfc3339()] of chrono and decimal rendering come with the row. *)
Section csv.
Context `{Blake3} `{Hex} `{AuditExt} (to_rfc3339 dec_text : Z → bytes).

Definition comma : byte := Byte.x2c.

Definition csv_row (ev : AuditEvent) : M bytes AuditError unit :=
  details ← liftR (ok_or (to_json (ae_event ev)) AuditSerialisation);
  c ← liftR (slice16 (ae_content_hash ev));
  h ← liftR (slice16 (ae_chain_hash ev));
  append_line AuditIo out
    (dec_text (ae_sequence ev) ++ [comma] ++ to_rfc3339 (ae_ts ev) ++ [comma] ++
     str_bytes (kind_name (ae_event ev)) ++ [comma] ++ c ++ [comma] ++ h ++ [comma] ++
     [Byte.x22] ++ csv_escape details ++ [Byte.x22]).

Definition export_csv (log : option bytes) (range : TimeRange) : M bytes AuditError Z :=
  _ ← append_line AuditIo out (str_bytes "sequence,ts,kind,content_hash,chain_hash,details");
  scan_events log range csv_row.
End csv.

(** ** What a log holds *)

Section log_theory.
Context `{Blake3} `{Hex} `{AuditExt}.

(** Events that verify, each linked to the one before it. *)
Fixpoint chained (prev : bytes) (evs : list AuditEvent) (tip : bytes) : Prop :=
  match evs with
  | [] => prev = tip
  | ev :: evs => event_verify ev = true ∧ ae_prev_hash ev = prev ∧ chained (ae_chain_hash ev) evs tip
  end.

Record log_repr (l : AuditLog) (evs : list AuditEvent) : Prop := {
  lr_file : file_of (al_file l) evs;
  lr_chain : chained AUDIT_ZERO_HASH evs (al_last_chain l)
}.

Lemma chained_snoc prev evs tip ev :
  chained prev evs tip → event_verify ev = true → ae_prev_hash ev = tip →
  chained prev (evs ++ [ev]) (ae_chain_hash ev).
Proof.
  revert prev. induction evs as [|e evs IH]; intros prev; cbn.
  - by intros ->.
  - intros (?&?&?) ??. auto.
Qed.

Lemma chained_split prev evs ev tip :
  chained prev (evs ++ [ev]) tip →
  chained prev evs (ae_prev_hash ev) ∧ event_verify ev = true ∧ ae_chain_hash ev = tip.
Proof.
  revert prev. induction evs as [|e evs IH]; intros prev; cbn.
  - by intros (?&->&?).
  - intros (?&?&Hc). apply IH in Hc as (?&?&?). auto.
Qed.

Lemma finalise_verify prev ev : event_verify (finalise prev ev) = true.
Proof. unfold event_verify, finalise, content_digest, canonical_bytes. cbn. by rewrite !bool_decide_true. Qed.

Definition verify_event (acc : bytes * Z) (event : AuditEvent) : Result AuditError (bytes * Z) :=
  if negb (event_verify event) then Err (ChainBroken (ae_sequence event) HashMismatch)
  else if negb (bool_decide (ae_prev_hash event = acc.1)) then
    Err (ChainBroken (ae_sequence event) (PrevMismatch acc.1 (ae_prev_hash event)))
  else Ok (ae_chain_hash event, wadd_u64 acc.2 1).

Lemma verify_event_Ok acc ev acc' :
  verify_event acc ev = Ok acc' ↔
  event_verify ev = true ∧ ae_prev_hash ev = acc.1 ∧ acc' = (ae_chain_hash ev, wadd_u64 acc.2 1).
Proof.
  unfold verify_event. destruct (event_verify ev); cbn; [|naive_solver].
  case_bool_decide; cbn; naive_solver.
Qed.

Lemma wadd_count n k : wadd_u64 (as_u64 n) k = as_u64 (n + k).
Proof. unfold wadd_u64, as_u64. by rewrite Zplus_mod_idemp_l. Qed.

(** Verification accepts a list of events exactly when it is chained. *)
Lemma verify_events_iff evs prev n tip k :
  foldl (λ r ev, r ≫= λ a, verify_event a ev) (Ok (prev, as_u64 n)) evs = Ok (tip, k) ↔
  chained prev evs tip ∧ k = as_u64 (n + Z.of_nat (length evs)).
Proof.
  revert prev n. induction evs as [|ev evs IH]; intros prev n; cbn [foldl chained length].
  - rewrite Z.add_0_r. split; [by intros [= -> <-]|by intros [-> ->]].
  - change (Ok (prev, as_u64 n) ≫= (λ a, verify_event a ev)) with (verify_event (prev, as_u64 n) ev).
    destruct (verify_event (prev, as_u64 n) ev) as [[c m]|e] eqn:Hv.
    + apply verify_event_Ok in Hv as (Hv&Hp&[= -> ->]). cbn in *. rewrite wadd_count, IH.
      replace (n + 1 + Z.of_nat (length evs)) with (n + Z.of_nat (S (length evs))) by lia. naive_solver.
    + split; [|intros [(Hv'&Hp&_) _]].
      * intros Hf. exfalso. revert Hf. clear. by induction evs.
      * assert (verify_event (prev, as_u64 n) ev = Ok (ae_chain_hash ev, wadd_u64 (as_u64 n) 1)) by (by apply verify_event_Ok).
        congruence.
Qed.

Lemma verify_chain_file l evs W :
  file_of (al_file l) evs → w_io W = [] →
  verify_chain (W, l) =
  (snd <$> foldl (λ r ev, r ≫= λ a, verify_event a ev) (Ok (AUDIT_ZERO_HASH, 0)) evs, (W, l)).
Proof.
  intros Hf Hio. unfold verify_chain. erewrite mbind_eq by (by apply io_quiet).
  erewrite mbind_eq by done. unfold mbind, M_bind. cbn [snd].
  rewrite (file_of_fold _ verify_line verify_event _ evs); [|by intros a ev l' Hl; unfold verify_line; rewrite Hl|done..].
  by destruct (foldl _ _ _).
Qed.

(** The chain of a well-formed log verifies, and the result counts its
    events. *)
Lemma log_repr_verifies l evs W :
  log_repr l evs → w_io W = [] → verify_chain (W, l) = (Ok (as_u64 (Z.of_nat (length evs))), (W, l)).
Proof.
  intros [Hf Hc] Hio. rewrite (verify_chain_file l evs) by done.
  assert (Hv : foldl (λ r ev, r ≫= λ a, verify_event a ev) (Ok (AUDIT_ZERO_HASH, as_u64 0)) evs
    = Ok (al_last_chain l, as_u64 (0 + Z.of_nat (length evs)))) by (by apply verify_events_iff).
  change (as_u64 0) with 0 in Hv. by rewrite Hv.
Qed.

(** ** Operations on a well-formed log *)

Lemma reserve_repr W l seq W' l' evs :
  reserve (W, l) = (Ok seq, (W', l')) → log_repr l evs →
  log_repr l' evs ∧ seq = al_next_seq l ∧ al_next_seq l' = wadd_u64 seq 1 ∧ W' = W.
Proof. intros Hr [Hf Hc]. unfold reserve in Hr. minv. by repeat split. Qed.

(** The event a write builds. *)
Definition built (W : World) (l : AuditLog) (seq : Z) (k : AuditEventKind) : AuditEvent :=
  finalise (al_last_chain l) (mkAuditEvent seq (default 0 (head (w_clock W))) k [] [] []).

Definition ticked (W : World) : World := mkWorld (tail (w_clock W)) (w_rng W) (w_io W).

(** A write without I/O failures. *)
Lemma write_event_quiet W l seq k :
  w_io W = [] →
  write_event seq k (W, l) =
  match to_json (built W l seq k) with
  | Some line => (Ok (built W l seq k),
      (ticked W, mkAuditLog (al_file l ++ line ++ [nl]) (al_next_seq l) (ae_chain_hash (built W l seq k))))
  | None => (Err AuditSerialisation, (ticked W, l))
  end.
Proof.
  intros Hio. unfold write_event. erewrite mbind_eq by done. erewrite mbind_eq by done.
  change (finalise _ _) with (built W l seq k). destruct (to_json (built W l seq k)) as [line|]; [|done].
  erewrite mbind_eq by done. erewrite mbind_eq by (by apply append_line_quiet).
  by do 2 (erewrite mbind_eq by (by apply io_quiet)).
Qed.

(** Without I/O failures a write adds its event to the chain, or leaves the
    log as it is when the event cannot be serialized. *)
Lemma write_event_repr W l seq k r W' l' evs :
  write_event seq k (W, l) = (r, (W', l')) → w_io W = [] → log_repr l evs →
  (∃ ev, r = Ok ev ∧ log_repr l' (evs ++ [ev]) ∧ ae_sequence ev = seq ∧ ae_event ev = k ∧ al_next_seq l' = al_next_seq l) ∨
  (r = Err AuditSerialisation ∧ l' = l).
Proof.
  intros Hr Hio [Hf Hc]. rewrite write_event_quiet in Hr by done.
  destruct (to_json (built W l seq k)) as [line|] eqn:Hj; [left|right; by simplify_eq].
  simplify_eq. exists (built W l seq k). split; [done|]. split; [|done]. split; cbn [al_file al_last_chain].
  - by apply file_of_snoc.
  - eapply chained_snoc; [exact Hc|apply finalise_verify|done].
Qed.

(** The tail of a well-formed file is its last event. *)
Definition scan_event_acc (acc : Z * bytes) (ev : AuditEvent) : Result AuditError (Z * bytes) :=
  Ok (ae_sequence ev, ae_chain_hash ev).

Lemma scan_events_tip evs n prev tip :
  chained prev evs tip →
  ∃ m, foldl (λ r ev, r ≫= λ a, scan_event_acc a ev) (Ok (n, prev)) evs = Ok (m, tip)
    ∧ m = default n (ae_sequence <$> last evs).
Proof.
  revert n prev. induction evs as [|ev evs IH]; intros n prev; cbn [chained].
  - intros ->. by exists n.
  - intros (_&_&Hc). destruct (IH (ae_sequence ev) _ Hc) as (m&Hm&->).
    eexists. split; [exact Hm|]. destruct evs as [|e evs]; [done|]. rewrite last_cons_cons.
    destruct (last (e :: evs)) as [x|] eqn:Hx; [done|]. by apply last_None in Hx.
Qed.

(** Opening a file restores the tip of its chain and the sequence number
    after its last event. *)
Lemma open_repr W l evs :
  log_repr l evs → w_io W = [] →
  ∃ l', AuditLog_open (W, Some (al_file l)) = (Ok l', (W, Some (al_file l))) ∧
    log_repr l' evs ∧ al_last_chain l' = al_last_chain l ∧
    al_next_seq l' = wadd_u64 (default 0 (ae_sequence <$> last evs)) 1.
Proof.
  intros [Hf Hc] Hio. destruct (scan_events_tip evs 0 _ _ Hc) as (m&Hm&->).
  set (m := default 0 _) in *.
  exists (mkAuditLog (al_file l) (wadd_u64 m 1) (al_last_chain l)).
  split; [|by repeat split].
  unfold AuditLog_open. erewrite mbind_eq by (by apply io_quiet).
  erewrite mbind_eq.
  2:{ unfold scan_tail. erewrite mbind_eq by done. cbn [snd id]. erewrite mbind_eq by (by apply io_quiet).
      unfold mbind, M_bind.
      rewrite (file_of_fold _ scan_line scan_event_acc _ evs); [by rewrite Hm| |done..].
      intros a ev l' Hl. unfold scan_line. by rewrite Hl. }
  erewrite mbind_eq by (by apply io_quiet). done.
Qed.

Lemma open_fresh W :
  w_io W = [] →
  AuditLog_open (W, None) = (Ok (mkAuditLog [] 1 AUDIT_ZERO_HASH), (W, Some [])).
Proof.
  intros Hio. unfold AuditLog_open. erewrite mbind_eq by (by apply io_quiet).
  erewrite mbind_eq by done. by erewrite mbind_eq by (by apply io_quiet).
Qed.

(** ** Interleaved appends and restarts *)

(** The log, the sequence numbers reserved but not yet written, and the
    events the writes returned, in the order of the writes. *)
Record audit_cfg := mkCfg { cf_log : AuditLog; cf_reserved : list Z; cf_events : list AuditEvent }.

Inductive audit_step : audit_cfg → audit_cfg → Prop :=
  | step_reserve W W' l l' rs evs seq :
      reserve (W, l) = (Ok seq, (W', l')) →
      audit_step (mkCfg l rs evs) (mkCfg l' (seq :: rs) evs)
  | step_write W W' l l' rs rs' evs seq k r :
      w_io W = [] → rs ≡ₚ seq :: rs' → write_event seq k (W, l) = (r, (W', l')) →
      audit_step (mkCfg l rs evs) (mkCfg l' rs' (evs ++ match r with Ok ev => [ev] | Err _ => [] end))
  | step_restart W W' l l' f rs evs :
      w_io W = [] → AuditLog_open (W, Some (al_file l)) = (Ok l', (W', f)) →
      audit_step (mkCfg l rs evs) (mkCfg l' [] evs).

Definition fresh_log : AuditLog := mkAuditLog [] 1 AUDIT_ZERO_HASH.

Lemma fresh_log_repr : log_repr fresh_log [].
Proof. split; [by exists []|done]. Qed.

Lemma audit_step_repr c c' :
  audit_step c c' → log_repr (cf_log c) (cf_events c) → log_repr (cf_log c') (cf_events c').
Proof.
  intros Hst Hr. destruct Hst as [W W' l l' rs evs seq Hs|W W' l l' rs rs' evs seq k r Hio _ Hs|W W' l l' f rs evs Hio Hs]; cbn in *.
  - by eapply reserve_repr in Hs as [? _].
  - destruct (write_event_repr _ _ _ _ _ _ _ _ Hs Hio Hr) as [(ev&->&?&_)|[-> ->]]; [done|].
    by rewrite app_nil_r.
  - destruct (open_repr W l evs Hr Hio) as (l2&Ho&Hr2&_). congruence.
Qed.

Lemma audit_reachable_repr c :
  rtc audit_step (mkCfg fresh_log [] []) c → log_repr (cf_log c) (cf_events c).
Proof.
  intros Hs. remember (mkCfg fresh_log [] []) as c0 eqn:Hc0.
  assert (log_repr (cf_log c0) (cf_events c0)) as Hr by (subst; apply fresh_log_repr).
  clear Hc0. induction Hs; eauto using audit_step_repr.
Qed.

(** C15: However concurrent appends and restarts interleave, as long as no write
    or sync fails or is torn, the log on disk verifies: [verify_chain] accepts it
    and counts exactly the events the appends returned, in the order they were
    written.  (A failing sync after a write can break the chain, see
    [sync_failure_breaks_chain].) *)
Theorem audit_interleavings_verify c W :
  rtc audit_step (mkCfg fresh_log [] []) c → w_io W = [] →
  verify_chain (W, cf_log c) = (Ok (as_u64 (Z.of_nat (length (cf_events c)))), (W, cf_log c)) ∧
  file_of (al_file (cf_log c)) (cf_events c).
Proof.
  intros Hs%audit_reachable_repr Hio. split; [by apply log_repr_verifies|by destruct Hs].
Qed.
End log_theory.

(** ** Tampering *)

Section tamper.
Context `{Blake3} `{Hex} `{AuditExt}.

(** The events in a file, when every line that is not blank is one. *)
Fixpoint parse_lines (raws : list bytes) : option (list AuditEvent) :=
  match raws with
  | [] => Some []
  | raw :: raws =>
      if utf8_valid raw then
        if blank (strip_eol raw) then parse_lines raws
        else ev ← from_json (strip_eol raw); evs ← parse_lines raws; Some (ev :: evs)
      else None
  end.

Lemma verify_lines_inv {S} raws W (s : S) prev n tip k W' s' :
  for_lines AuditIo (λ a l, liftR (verify_line a l)) (prev, as_u64 n) raws (W, s) = (Ok (tip, k), (W', s')) →
  ∃ evs, parse_lines raws = Some evs ∧ chained prev evs tip ∧ k = as_u64 (n + Z.of_nat (length evs)).
Proof.
  revert W prev n. induction raws as [|raw raws IH]; intros W prev n; cbn [for_lines parse_lines].
  { intros [= <- <- <- <-]. exists []. by rewrite Z.add_0_r. }
  intros (line&[W1 s1]&Hl&Hr)%mbind_Ok_inv.
  unfold next_line in Hl. apply mbind_Ok_inv in Hl as ([]&[W2 s2]&Hio&Hl).
  destruct (utf8_valid raw); [|done]. unfold mret, M_ret in Hl. simplify_eq.
  assert (s1 = s) as -> by (unfold io in Hio; by destruct (default _ _); simplify_eq).
  destruct (blank (strip_eol raw)); [by eapply IH|].
  apply mbind_Ok_inv in Hr as ([c m]&[W2 s2]&Hv&Hr). unfold liftR in Hv. injection Hv as Hv <- <-.
  unfold verify_line in Hv. destruct (from_json (strip_eol raw)) as [ev|]; [|done].
  change (verify_event (prev, as_u64 n) ev = Ok (c, m)) in Hv.
  apply verify_event_Ok in Hv as (Hv&Hp&[= -> ->]). cbn in Hr. rewrite wadd_count in Hr.
  destruct (IH _ _ _ Hr) as (evs&->&Hc&->). exists (ev :: evs). split; [done|]. split; [done|].
  cbn [length]. f_equal. lia.
Qed.

(** A log that verification accepts is a chain of events. *)
Lemma verify_chain_inv W l n σ :
  verify_chain (W, l) = (Ok n, σ) →
  ∃ evs tip, parse_lines (raw_lines (al_file l)) = Some evs ∧ chained AUDIT_ZERO_HASH evs tip
    ∧ n = as_u64 (Z.of_nat (length evs)).
Proof.
  unfold verify_chain. intros ([]&[W1 l1]&Hio&Hr)%mbind_Ok_inv.
  assert (l1 = l) as -> by (unfold io in Hio; by destruct (default _ _); simplify_eq).
  apply mbind_Ok_inv in Hr as (f&σ1&[= <- <-]&Hr).
  apply mbind_Ok_inv in Hr as ([tip k]&[W2 l2]&Hv&[= <- <-]).
  change 0 with (as_u64 0) in Hv. apply verify_lines_inv in Hv as (evs&?&?&->). eauto.
Qed.

(** The strings hashed for an event. *)
Definition event_inputs (ev : AuditEvent) : list bytes :=
  [canonical_bytes ev; audit_chain_input (ae_sequence ev) (ae_prev_hash ev) (content_digest ev)].
Definition audit_inputs (evs : list AuditEvent) : list bytes := concat (map event_inputs evs).

Definition audit_zero_preimage (xs : list bytes) : Prop :=
  ∃ x, x ∈ xs ∧ hex_enc (blake3 x) = AUDIT_ZERO_HASH.

Lemma audit_inputs_snoc evs ev : audit_inputs (evs ++ [ev]) = audit_inputs evs ++ event_inputs ev.
Proof. unfold audit_inputs. by rewrite map_app, concat_app. Qed.

Lemma event_verify_digests ev :
  event_verify ev = true →
  ae_chain_hash ev = chain_digest (ae_sequence ev) (ae_prev_hash ev) (content_digest ev).
Proof. unfold event_verify. case_bool_decide; cbn; [|done]. by intros ->%bool_decide_eq_true. Qed.

Lemma digest_length x : length (hex_enc (blake3 x)) = 64%nat.
Proof. by rewrite hex_enc_length, blake3_length. Qed.

Lemma chained_tip_length evs prev tip :
  length prev = 64%nat → chained prev evs tip → length tip = 64%nat.
Proof.
  revert prev. induction evs as [|ev evs IH]; intros prev Hp; cbn; [by intros <-|].
  intros (Hv&_&Hc). eapply IH; [|exact Hc]. rewrite (event_verify_digests ev Hv). apply digest_length.
Qed.

Lemma parse_lines_typed raws evs : parse_lines raws = Some evs → Forall (λ ev, u64_ok (ae_sequence ev)) evs.
Proof.
  revert evs. induction raws as [|raw raws IH]; intros evs; cbn; [by intros [= <-]|].
  destruct (utf8_valid raw); [|done]. destruct (blank _); [apply IH|].
  intros (ev&Hev&Hr)%bind_Some. apply bind_Some in Hr as (evs'&Hevs&[= <-]).
  constructor; [by eapply event_json_typed|by apply IH].
Qed.

(** Two chained histories with the same tip have the same contents, or two of
    the strings hashed for them collide, or one has the genesis digest. *)
Lemma chained_determines evs1 evs2 tip :
  Forall (λ ev, u64_ok (ae_sequence ev)) evs1 → Forall (λ ev, u64_ok (ae_sequence ev)) evs2 →
  chained AUDIT_ZERO_HASH evs1 tip → chained AUDIT_ZERO_HASH evs2 tip →
  map canonical_bytes evs1 = map canonical_bytes evs2
  ∨ collision (audit_inputs evs1) (audit_inputs evs2)
  ∨ audit_zero_preimage (audit_inputs evs1 ++ audit_inputs evs2).
Proof.
  assert (Hzero : ∀ evs ev, chained AUDIT_ZERO_HASH (evs ++ [ev]) AUDIT_ZERO_HASH →
    audit_zero_preimage (audit_inputs (evs ++ [ev]))).
  { intros evs ev (_&Hv%event_verify_digests&Hz)%chained_split. rewrite Hv in Hz.
    eexists. split; [|exact Hz]. rewrite audit_inputs_snoc. set_solver. }
  assert (Hmono : ∀ xs ys, xs ⊆ ys → audit_zero_preimage xs → audit_zero_preimage ys).
  { intros xs ys Hs (x&?&?). exists x. auto. }
  revert evs2 tip. induction evs1 as [|e1 evs1 IH] using rev_ind; intros evs2 tip Ht1 Ht2 H1' H2'.
  - destruct evs2 as [|e2 evs2 _] using rev_ind; [by left|]. right; right.
    cbn in H1'. subst. eapply Hmono; [|by apply Hzero]. set_solver.
  - destruct evs2 as [|e2 evs2 _] using rev_ind.
    { right; right. cbn in H2'. subst. eapply Hmono; [|by apply Hzero]. set_solver. }
    apply Forall_app in Ht1 as [Ht1 [Hs1 _]%Forall_cons].
    apply Forall_app in Ht2 as [Ht2 [Hs2 _]%Forall_cons].
    apply chained_split in H1' as (Hc1&Hv1%event_verify_digests&He1).
    apply chained_split in H2' as (Hc2&Hv2%event_verify_digests&He2).
    rewrite Hv1 in He1. rewrite Hv2, <- He1 in He2. apply hex_enc_inj in He2.
    rewrite !map_app, !audit_inputs_snoc. cbn [map].
    destruct (decide (audit_chain_input (ae_sequence e1) (ae_prev_hash e1) (content_digest e1) =
                      audit_chain_input (ae_sequence e2) (ae_prev_hash e2) (content_digest e2))) as [Hi|Hi]; cycle 1.
    { right; left. eexists _, _. split_and!; [| |exact Hi|by symmetry]; set_solver. }
    apply (self_delim_le 8) in Hi as [Hs Hi]; [|done|done].
    apply app_inj_1 in Hi as [Hp Hd].
    2:{ rewrite (chained_tip_length _ AUDIT_ZERO_HASH _ eq_refl Hc1). by rewrite (chained_tip_length _ AUDIT_ZERO_HASH _ eq_refl Hc2). }
    rewrite <- Hp in Hc2.
    destruct (IH evs2 _ Ht1 Ht2 Hc1 Hc2) as [Hm|[(x&y&Hx&Hy&?)|Hz]].
    + apply hex_enc_inj in Hd. destruct (decide (canonical_bytes e1 = canonical_bytes e2)) as [Hb|Hb].
      * left. by rewrite Hm, Hb.
      * right; left. exists (canonical_bytes e1), (canonical_bytes e2). split_and!; [set_solver..|done|done].
    + right; left. exists x, y. set_solver.
    + right; right. eapply Hmono; [|exact Hz]. set_solver.
Qed.

(** The audit log is tamper-evident: two files that [verify_chain] accepts
    and whose last events have the same chain digest record the same events
    (sequence number, time and JSON of the kind), unless two distinct strings
    hashed for them have the same BLAKE3 digest or one has the all-zero
    digest. *)
Theorem audit_tamper_evident W1 l1 n1 σ1 W2 l2 n2 σ2 evs1 evs2 tip :
  verify_chain (W1, l1) = (Ok n1, σ1) → verify_chain (W2, l2) = (Ok n2, σ2) →
  parse_lines (raw_lines (al_file l1)) = Some evs1 → parse_lines (raw_lines (al_file l2)) = Some evs2 →
  default AUDIT_ZERO_HASH (ae_chain_hash <$> last evs1) = tip →
  default AUDIT_ZERO_HASH (ae_chain_hash <$> last evs2) = tip →
  map canonical_bytes evs1 = map canonical_bytes evs2
  ∨ collision (audit_inputs evs1) (audit_inputs evs2)
  ∨ audit_zero_preimage (audit_inputs evs1 ++ audit_inputs evs2).
Proof.
  intros (e1&t1&Hp1&Hc1&_)%verify_chain_inv (e2&t2&Hp2&Hc2&_)%verify_chain_inv He1 He2 Ht1 Ht2.
  assert (e1 = evs1) as -> by congruence. assert (e2 = evs2) as -> by congruence. subst tip.
  assert (Htip : ∀ evs t, chained AUDIT_ZERO_HASH evs t → default AUDIT_ZERO_HASH (ae_chain_hash <$> last evs) = t).
  { intros evs t. destruct evs as [|e evs _] using rev_ind; [done|].
    intros (_&_&Hc)%chained_split. by rewrite last_snoc. }
  rewrite (Htip _ _ Hc1), (Htip _ _ Hc2) in Ht2. subst t2.
  eapply chained_determines; eauto using parse_lines_typed.
Qed.

(** A link repeated: verification stops at the second event. *)
Lemma verify_repeated_link evs tip ev1 ev2 n :
  chained AUDIT_ZERO_HASH evs tip → event_verify ev1 = true → event_verify ev2 = true →
  ae_prev_hash ev1 = tip → ae_prev_hash ev2 = tip → ae_chain_hash ev1 ≠ tip →
  foldl (λ r ev, r ≫= λ a, verify_event a ev) (Ok (AUDIT_ZERO_HASH, as_u64 n)) (evs ++ [ev1; ev2]) =
  Err (ChainBroken (ae_sequence ev2) (PrevMismatch (ae_chain_hash ev1) tip)).
Proof.
  intros Hc Hv1 Hv2 Hp1 Hp2 Hne. rewrite foldl_app.
  rewrite (proj2 (verify_events_iff evs AUDIT_ZERO_HASH n tip _) (conj Hc eq_refl)). cbn [foldl].
  unfold mbind, Result_bind.
  rewrite (proj2 (verify_event_Ok (tip, _) ev1 _) (conj Hv1 (conj Hp1 eq_refl))).
  unfold verify_event. rewrite Hv2. cbn. rewrite Hp2. by rewrite bool_decide_false by congruence.
Qed.

(** An append that writes its line and then fails to sync. *)
Lemma append_sync_failure ck rg l k σ :
  append k (mkWorld ck rg [false; false; true], l) = (Err AuditIo, σ) →
  ∃ line, to_json (built (mkWorld ck rg []) l (al_next_seq l) k) = Some line ∧
    σ = (mkWorld (tail ck) rg [], mkAuditLog (al_file l ++ line ++ [nl]) (wadd_u64 (al_next_seq l) 1) (al_last_chain l)).
Proof.
  intros Ha. unfold append in Ha. erewrite mbind_eq in Ha by done.
  unfold write_event in Ha. do 2 (erewrite mbind_eq in Ha by done).
  change (finalise _ _) with (built (mkWorld ck rg []) l (al_next_seq l) k) in Ha.
  destruct (to_json (built _ _ _ _)) as [line|]; [|by erewrite mbind_err in Ha by done].
  erewrite mbind_eq in Ha by done. erewrite mbind_eq in Ha by done. erewrite mbind_eq in Ha by done.
  erewrite mbind_err in Ha by done. injection Ha as <-. by exists line.
Qed.

(** An append whose event reached the file but whose [sync_all] failed
    leaves the event in the file without advancing the chain in memory: the
    next append repeats the link, and from then on [verify_chain] rejects the
    log (unless the digest of the first event is the one it was computed
    from). *)
Theorem sync_failure_breaks_chain ck rg l evs k1 k2 ev2 W1 l1 W2 l2 :
  log_repr l evs →
  append k1 (mkWorld ck rg [false; false; true], l) = (Err AuditIo, (W1, l1)) →
  append k2 (W1, l1) = (Ok ev2, (W2, l2)) →
  let ev1 := built (mkWorld ck rg []) l (al_next_seq l) k1 in
  ae_chain_hash ev1 = al_last_chain l ∨
  verify_chain (W2, l2) =
    (Err (ChainBroken (ae_sequence ev2) (PrevMismatch (ae_chain_hash ev1) (al_last_chain l))), (W2, l2)).
Proof.
  intros [Hf Hc] (line&Hj&[= -> ->])%append_sync_failure Ha2 ev1.
  unfold append in Ha2. erewrite mbind_eq in Ha2 by done.
  rewrite write_event_quiet in Ha2 by done. set (ev := built _ _ _ k2) in Ha2.
  destruct (to_json ev) as [line2|] eqn:Hj2; [|done]. injection Ha2 as <- <- <-.
  destruct (decide (ae_chain_hash ev1 = al_last_chain l)) as [?|Hne]; [by left|right].
  rewrite (verify_chain_file _ ((evs ++ [ev1]) ++ [ev])); [|by eauto using file_of_snoc|done].
  rewrite <- app_assoc. cbn [app].
  assert (Hv := verify_repeated_link evs _ ev1 ev 0 Hc (finalise_verify _ _) (finalise_verify _ _) eq_refl eq_refl Hne).
  change (as_u64 0) with 0 in Hv. by rewrite Hv.
Qed.
End tamper.

(** ** Exports *)

Section export.
Context `{Blake3} `{Hex} `{AuditExt}.

(** Exporting a log over a range that holds all its events copies the file. *)
Lemma export_json_complete f evs range W buf :
  file_of f evs → Forall (λ ev, range_contains range (ae_ts ev) = true) evs → w_io W = [] →
  export_json (Some f) range (W, buf) = (Ok (as_u64 (Z.of_nat (length evs))), (W, buf ++ f)).
Proof.
  intros (ls&Hls&->) Hin Hio. unfold export_json, scan_events.
  erewrite mbind_eq by (by apply io_quiet). assert (Ht := file_of_text _ _ Hls).
  rewrite raw_lines_unlines.
  2:{ eapply Forall_impl; [exact Ht|]. intros l Hl. apply (text_line_sep l Hl). }
  change 0 with (as_u64 0) at 1. rewrite <- (Z.add_0_l (Z.of_nat (length evs))).
  generalize 0 as n. revert buf. induction Hls as [|ev l evs ls Hl Hls IH]; intros buf n; cbn [map for_lines length].
  { by rewrite app_nil_r, Z.add_0_r. }
  apply Forall_cons in Ht as [Hl' Ht], Hin as [Hev Hin].
  erewrite mbind_eq by (by apply next_line_text). destruct Hl' as (_&_&->).
  erewrite mbind_eq.
  2:{ unfold scan_event. rewrite (json_roundtrip ev l Hl), Hev.
      erewrite mbind_eq; [done|]. erewrite mbind_eq; [|by rewrite Hl].
      by apply append_line_quiet. }
  rewrite wadd_count, (IH Hin Ht). unfold out, unlines. cbn. rewrite <- !app_assoc. do 3 f_equal. lia.
Qed.
End export.
