(* ===== verification/FourEyes.v ===== *)
(** * vledger-foureyes: the four-eyes approval queue

    Models [crates/vledger-foureyes/src/record.rs] and [queue.rs].  The queue
    keeps three files of JSON lines (pending, approved and rejected requests)
    and an in-memory index of the pending ones.  Posting to the ledger is the
    caller's function ([post_fn]), a parameter over an abstract ledger state.
    The temporary file of the atomic rewrite is never read, so only the
    rename that publishes it is modelled; file modes are left out.

    The abstract specification ([spec_exec]) is a map from request to status
    and the ledger; the queue implements it ([exec_simulates]). *)

From stdpp Require Import base gmap list strings option fin_maps relations.
From Stdlib Require Import ZArith Lia Strings.Byte.
From S2P Require Import Prelude Bytes Jsonl Crypto AuditTrail.

(** ** Records *)

Inductive ApprovalStatus := APending | AApproved | ARejected.

#[global] Instance ApprovalStatus_eq_dec : EqDecision ApprovalStatus.
Proof. solve_decision. Defined.

Record ApprovalRecord := mkApprovalRecord {
  ar_id : Z;
  ar_status : ApprovalStatus;
  ar_submitter_id : string;
  ar_approver_id : option string;
  ar_reject_reason : option string;
  ar_submitted_at : Z;
  ar_decided_at : option Z;
  ar_entry_payload_hex : bytes;
  ar_description : string;
  ar_domain : string
}.

Inductive FourEyesError :=
  | FeIo
  | NotFound (id : Z)
  | NotPending (id : Z) (status : string)
  | SelfApproval (who : string)
  | PostFailed (msg : string)
  | FeSerialisation.

(** [serde_json] on records: plain fields, always serializable. *)
Class FourEyesExt := {
  approval_json :: Json ApprovalRecord;
  approval_json_total : ∀ r : ApprovalRecord, is_Some (to_json r)
}.

(** ** The queue *)

Record QueueDir := mkQueueDir {
  qd_pending : option bytes;     (* pending.jsonl *)
  qd_approved : option bytes;    (* approved.jsonl *)
  qd_rejected : option bytes     (* rejected.jsonl *)
}.

Inductive file_kind := KPending | KApproved | KRejected.

Definition file_get (k : file_kind) (d : QueueDir) : option bytes :=
  match k with KPending => qd_pending d | KApproved => qd_approved d | KRejected => qd_rejected d end.
Definition file_set (k : file_kind) (f : option bytes) (d : QueueDir) : QueueDir :=
  match k with
  | KPending => mkQueueDir f (qd_approved d) (qd_rejected d)
  | KApproved => mkQueueDir (qd_pending d) f (qd_rejected d)
  | KRejected => mkQueueDir (qd_pending d) (qd_approved d) f
  end.

Record FourEyesQueue := mkQueue {
  q_dir : QueueDir;
  q_pending : gmap Z ApprovalRecord;
  q_audit : option AuditLog
}.

Definition q_set_dir d q := mkQueue d (q_pending q) (q_audit q).
Definition q_set_pending p q := mkQueue (q_dir q) p (q_audit q).
Definition q_set_audit a q := mkQueue (q_dir q) (q_pending q) a.

Notation QM := (M FourEyesQueue FourEyesError).

Section queue.
Context `{Blake3} `{Hex} `{AuditExt} `{FourEyesExt}.

(** [persist_pending] and [persist_decided]: append the record to its file. *)
Definition q_touch (k : file_kind) : QM unit :=
  modify (λ q, q_set_dir (file_set k (Some (default [] (file_get k (q_dir q)))) (q_dir q)) q).
Definition q_append (k : file_kind) (bs : bytes) (q : FourEyesQueue) : FourEyesQueue :=
  q_set_dir (file_set k (Some (default [] (file_get k (q_dir q)) ++ bs)) (q_dir q)) q.

Definition persist (k : file_kind) (record : ApprovalRecord) : QM unit :=
  ex ← gets (λ q, bool_decide (is_Some (file_get k (q_dir q))));
  _ ← (if (ex : bool) then mret tt else _ ← io FeIo; q_touch k);
  _ ← io FeIo;
  _ ← q_touch k;
  line ← liftR (ok_or (to_json record) FeSerialisation);
  _ ← append_line FeIo (q_append k) line;
  io FeIo.

(** One line of [remove_pending]; what cannot be parsed is kept. *)
Definition keep_line (id : Z) (kept : list bytes) (line : bytes) : Result FourEyesError (list bytes) :=
  match from_json (A:=ApprovalRecord) line with
  | Some r => Ok (if bool_decide (ar_id r = id) then kept else kept ++ [line])
  | None => Ok (kept ++ [line])
  end.

Definition remove_pending (id : Z) : QM unit :=
  f ← gets (λ q, qd_pending (q_dir q));
  match f with
  | None => mret tt
  | Some f =>
      _ ← io FeIo;
      kept ← for_lines FeIo (λ a l, liftR (keep_line id a l)) [] (raw_lines f);
      _ ← io FeIo;                          (* create the temporary file *)
      _ ← io FeIo;                          (* open it *)
      _ ← forM (λ _, io FeIo) kept;         (* write the lines *)
      _ ← io FeIo;                          (* sync_all *)
      _ ← io FeIo;                          (* rename *)
      modify (λ q, q_set_dir (file_set KPending (Some (unlines kept)) (q_dir q)) q)
  end.

Definition get_pending (id : Z) : QM ApprovalRecord :=
  p ← gets q_pending; liftR (ok_or (p !! id) (NotFound id)).

(** [find_in_decided]: the first record with the identifier. *)
Fixpoint find_lines (id : Z) (raws : list bytes) : QM (option ApprovalRecord) :=
  match raws with
  | [] => mret None
  | raw :: raws =>
      line ← next_line FeIo raw;
      if blank line then find_lines id raws
      else match from_json (A:=ApprovalRecord) line with
           | Some r => if bool_decide (ar_id r = id) then mret (Some r) else find_lines id raws
           | None => find_lines id raws
           end
  end.

Definition find_in_decided (k : file_kind) (id : Z) : QM (option ApprovalRecord) :=
  f ← gets (λ q, file_get k (q_dir q));
  match f with
  | None => mret None
  | Some f => _ ← io FeIo; find_lines id (raw_lines f)
  end.

(** [let _ = log.append(..)]: the outcome is ignored. *)
Definition audit (k : AuditEventKind) : QM unit := fun '(w, q) =>
  match q_audit q with
  | None => (Ok tt, (w, q))
  | Some log => let '(_, (w', log')) := append k (w, log) in (Ok tt, (w', q_set_audit (Some log') q))
  end.

(** ** Public operations *)

Definition submit (entry_bytes : bytes) (description domain submitter_id : string) : QM ApprovalRecord :=
  id ← rand;
  submitted ← now;
  let record := mkApprovalRecord id APending submitter_id None None submitted None
    (hex_enc entry_bytes) description domain in
  _ ← persist KPending record;
  _ ← modify (λ q, q_set_pending (<[id := record]> (q_pending q)) q);
  _ ← audit (FourEyesSubmitted id id submitter_id domain);
  mret record.

(** The last part of [approve] and [reject]: record the decision, take the
    request off the pending file and the index. *)
Definition decide_record (k : file_kind) (record : ApprovalRecord) (ev : AuditEventKind) : QM ApprovalRecord :=
  _ ← persist k record;
  _ ← remove_pending (ar_id record);
  _ ← modify (λ q, q_set_pending (delete (ar_id record) (q_pending q)) q);
  _ ← audit ev;
  mret record.

Definition decided (s : ApprovalStatus) (approver : string) (reason : option string) (at_ : Z) (r : ApprovalRecord) : ApprovalRecord :=
  mkApprovalRecord (ar_id r) s (ar_submitter_id r) (Some approver) reason (ar_submitted_at r)
    (Some at_) (ar_entry_payload_hex r) (ar_description r) (ar_domain r).

Definition reject (approval_id : Z) (approver_id reason : string) : QM ApprovalRecord :=
  record ← get_pending approval_id;
  if bool_decide (ar_submitter_id record = approver_id) then throw (SelfApproval approver_id)
  else
    t ← now;
    decide_record KRejected (decided ARejected approver_id (Some reason) t record)
      (FourEyesRejected approval_id approver_id reason).

Definition list_pending (q : FourEyesQueue) : list ApprovalRecord := (map_to_list (q_pending q)).*2.
Definition queue_get (id : Z) (q : FourEyesQueue) : option ApprovalRecord := q_pending q !! id.

(** One line of [load_pending]. *)
Definition load_line (m : gmap Z ApprovalRecord) (line : bytes) : Result FourEyesError (gmap Z ApprovalRecord) :=
  match from_json (A:=ApprovalRecord) line with
  | Some r => Ok (<[ar_id r := r]> m)
  | None => Ok m
  end.

Definition load_pending : M QueueDir FourEyesError (gmap Z ApprovalRecord) :=
  f ← gets qd_pending;
  match f with
  | None => mret ∅
  | Some f => _ ← io FeIo; for_lines FeIo (λ a l, liftR (load_line a l)) ∅ (raw_lines f)
  end.

(** [open] and [open_with_audit] *)
Definition queue_open (audit_log : option AuditLog) : M QueueDir FourEyesError FourEyesQueue :=
  _ ← io FeIo;     (* create_dir_all *)
  pending ← load_pending;
  d ← gets id;
  mret (mkQueue d pending audit_log).

(** *** Approval, with the caller's posting function *)
Section approve.
Context {L : Type} (post_fn : bytes → L → Result string unit * L).

Definition on_queue {A} (m : QM A) : M (FourEyesQueue * L) FourEyesError A :=
  zoom fst (λ q s, (q, s.2)) m.

Definition run_post (bs : bytes) : M (FourEyesQueue * L) FourEyesError unit := fun '(w, (q, l)) =>
  let '(r, l') := post_fn bs l in (res_map_err PostFailed r, (w, (q, l'))).

Definition approve (approval_id : Z) (approver_id : string) : M (FourEyesQueue * L) FourEyesError ApprovalRecord :=
  already ← on_queue (find_in_decided KApproved approval_id);
  match already with
  | Some r => mret r
  | None =>
      record ← on_queue (get_pending approval_id);
      if bool_decide (ar_submitter_id record = approver_id) then throw (SelfApproval approver_id)
      else
        entry_bytes ← liftR (ok_or (hex_dec (ar_entry_payload_hex record)) FeSerialisation);
        _ ← run_post entry_bytes;
        on_queue (t ← now;
          decide_record KApproved (decided AApproved approver_id (ar_reject_reason record) t record)
            (FourEyesApproved approval_id approver_id))
  end.
End approve.
End queue.

(** ** The abstract specification *)

Record Approval := mkApproval {
  ap_status : ApprovalStatus;
  ap_submitter : string;
  ap_approver : option string;
  ap_payload : bytes
}.

Inductive FeOp :=
  | Submit (entry : bytes) (description domain submitter : string)
  | Approve (id : Z) (approver : string)
  | Reject (id : Z) (approver reason : string)
  | Restart.

(** The identifier [submit] would draw. *)
Definition drawn_id (W : World) : Z := default 0 (head (w_rng W)).

Section spec.
Context {L : Type} (post_fn : bytes → L → Result string unit * L).
Implicit Types (m : gmap Z Approval) (l : L).

Definition spec_decide (s : ApprovalStatus) (id : Z) (who : string) (a : Approval) m : gmap Z Approval :=
  <[id := mkApproval s (ap_submitter a) (Some who) (ap_payload a)]> m.

(** A request is decided once, by somebody else than its submitter; its entry
    is posted exactly when it is approved. *)
Definition spec_exec (op : FeOp) (new_id : Z) (σ : gmap Z Approval * L) : Result FourEyesError unit * (gmap Z Approval * L) :=
  let '(m, l) := σ in
  match op with
  | Submit bs _ _ sub => (Ok tt, (<[new_id := mkApproval APending sub None bs]> m, l))
  | Approve id who =>
      match m !! id with
      | Some a =>
          match ap_status a with
          | AApproved => (Ok tt, (m, l))
          | ARejected => (Err (NotFound id), (m, l))
          | APending =>
              if bool_decide (ap_submitter a = who) then (Err (SelfApproval who), (m, l))
              else match post_fn (ap_payload a) l with
                   | (Ok _, l') => (Ok tt, (spec_decide AApproved id who a m, l'))
                   | (Err e, l') => (Err (PostFailed e), (m, l'))
                   end
          end
      | None => (Err (NotFound id), (m, l))
      end
  | Reject id who _ =>
      match m !! id with
      | Some a =>
          if bool_decide (ap_status a = APending) then
            if bool_decide (ap_submitter a = who) then (Err (SelfApproval who), (m, l))
            else (Ok tt, (spec_decide ARejected id who a m, l))
          else (Err (NotFound id), (m, l))
      | None => (Err (NotFound id), (m, l))
      end
  | Restart => (Ok tt, (m, l))
  end.
End spec.

Section theory.
Context `{Blake3} `{Hex} `{AuditExt} `{FourEyesExt}.

(** One call of the queue's interface, or a restart that reads it back. *)
Definition restart : QM unit := fun '(w, q) =>
  match queue_open (q_audit q) (w, q_dir q) with
  | (Ok q', (w', _)) => (Ok tt, (w', q'))
  | (Err e, (w', d)) => (Err e, (w', q_set_dir d q))
  end.

Definition exec {L} (post_fn : bytes → L → Result string unit * L) (op : FeOp) : M (FourEyesQueue * L) FourEyesError unit :=
  match op with
  | Submit bs desc dom sub => _ ← on_queue (submit bs desc dom sub); mret tt
  | Approve id who => _ ← approve post_fn id who; mret tt
  | Reject id who why => _ ← on_queue (reject id who why); mret tt
  | Restart => on_queue restart
  end.

(** *** What the files hold *)

Definition records_in (f : option bytes) : list ApprovalRecord :=
  match f with
  | None => []
  | Some f => omap (λ raw, if utf8_valid raw && negb (blank (strip_eol raw)) then from_json (strip_eol raw) else None)
      (raw_lines f)
  end.

Definition well_formed (f : option bytes) : Prop :=
  match f with None => True | Some f => file_of f (records_in (Some f)) end.

Definition pending_of (q : FourEyesQueue) := records_in (qd_pending (q_dir q)).
Definition approved_of (q : FourEyesQueue) := records_in (qd_approved (q_dir q)).
Definition rejected_of (q : FourEyesQueue) := records_in (qd_rejected (q_dir q)).
Definition records_of (q : FourEyesQueue) := pending_of q ++ approved_of q ++ rejected_of q.

Lemma records_in_file f rs : file_of f rs → records_in (Some f) = rs.
Proof.
  intros (ls&Hls&->). cbn. assert (Ht := file_of_text _ _ Hls). rewrite raw_lines_unlines.
  2:{ eapply Forall_impl; [exact Ht|]. intros l Hl. apply (text_line_sep l Hl). }
  induction Hls as [|r l rs ls Hl Hls IH]; [done|]. apply Forall_cons in Ht as [Hl' Ht]. cbn.
  destruct (text_line_sep l Hl') as [_ Hcr]. destruct Hl' as (Hu&_&Hb).
  rewrite utf8_ascii_snoc, strip_eol_line, Hb by (vm_compute; done || done). cbn.
  rewrite (json_roundtrip r l Hl). by rewrite IH.
Qed.

Lemma well_formed_file f rs : file_of f rs → well_formed (Some f).
Proof. intros Hf. unfold well_formed. by rewrite (records_in_file f rs Hf). Qed.

Lemma well_formed_default f : well_formed f → file_of (default [] f) (records_in f).
Proof. destruct f; [done|]. intros _. apply file_of_nil. Qed.

(** *** The parts of an operation, without I/O failures *)

Lemma file_set_set k f g d : file_set k f (file_set k g d) = file_set k f d.
Proof. by destruct k. Qed.
Lemma file_get_set k f d : file_get k (file_set k f d) = f.
Proof. by destruct k. Qed.

Lemma persist_quiet k r W q :
  w_io W = [] → well_formed (file_get k (q_dir q)) →
  ∃ f, persist k r (W, q) = (Ok tt, (W, q_set_dir (file_set k (Some f) (q_dir q)) q)) ∧
    file_of f (records_in (file_get k (q_dir q)) ++ [r]).
Proof.
  intros Hio Hf%well_formed_default. destruct (approval_json_total r) as [line Hl].
  exists (default [] (file_get k (q_dir q)) ++ line ++ [nl]). split; [|by apply file_of_snoc].
  unfold persist. erewrite mbind_eq by done.
  assert (Hopen : ∀ q0 : FourEyesQueue,
    (_ ← io FeIo; _ ← q_touch k; line ← liftR (ok_or (to_json r) FeSerialisation);
     _ ← append_line FeIo (q_append k) line; io FeIo) (W, q0) =
    (Ok tt, (W, q_set_dir (file_set k (Some (default [] (file_get k (q_dir q0)) ++ line ++ [nl])) (q_dir q0)) q0))).
  { intros q0. erewrite mbind_eq by (by apply io_quiet). erewrite mbind_eq by done.
    erewrite mbind_eq; [|by rewrite Hl]. erewrite mbind_eq by (by apply append_line_quiet).
    rewrite io_quiet by done. unfold q_append. cbn [fst snd q_dir q_set_dir q_pending q_audit].
    by rewrite file_get_set, file_set_set. }
  case_bool_decide as Hex.
  - erewrite mbind_eq by done. apply Hopen.
  - erewrite mbind_eq; [|erewrite mbind_eq by (by apply io_quiet); done].
    cbn [fst snd]. rewrite Hopen. cbn [q_dir q_set_dir q_pending q_audit].
    by rewrite file_get_set, file_set_set.
Qed.

Lemma keep_fold id rs ls acc :
  Forall2 (λ (r : ApprovalRecord) l, to_json r = Some l) rs ls →
  ∃ ls', fold_lines (keep_line id) acc ls = Ok (acc ++ ls') ∧
    Forall2 (λ (r : ApprovalRecord) l, to_json r = Some l) (filter (λ r, ar_id r ≠ id) rs) ls'.
Proof.
  intros Hls. revert acc. induction Hls as [|r l rs ls Hl Hls IH]; intros acc; cbn [fold_lines].
  { exists []. by rewrite app_nil_r. }
  unfold keep_line at 1. rewrite (json_roundtrip r l Hl). case_bool_decide as Hid.
  - destruct (IH acc) as (ls'&->&?). exists ls'. by rewrite filter_cons_False by (by intros []).
  - destruct (IH (acc ++ [l])) as (ls'&->&?). exists (l :: ls'). rewrite <- app_assoc. split; [done|].
    rewrite filter_cons_True by done. by constructor.
Qed.

Lemma forM_io_quiet {A S E} (e : E) (xs : list A) W (s : S) : w_io W = [] → forM (λ _, io e) xs (W, s) = (Ok tt, (W, s)).
Proof. intros Hio. induction xs; [done|]. cbn [forM]. erewrite mbind_eq by (by apply io_quiet). done. Qed.

Lemma remove_pending_quiet id W q :
  w_io W = [] → well_formed (qd_pending (q_dir q)) →
  ∃ f, remove_pending id (W, q) = (Ok tt, (W, q_set_dir (file_set KPending f (q_dir q)) q)) ∧
    well_formed f ∧ records_in f = filter (λ r, ar_id r ≠ id) (pending_of q).
Proof.
  intros Hio Hf. unfold remove_pending, pending_of. erewrite mbind_eq by done. cbn [snd].
  destruct q as [[pf af rf] pm au]. cbn [q_dir qd_pending] in *.
  destruct pf as [f|]; [|by exists None].
  destruct Hf as (ls&Hls&Hf). destruct (keep_fold id _ _ [] Hls) as (ls'&Hk&Hls').
  assert (Hf' : file_of (unlines ls') (filter (λ r, ar_id r ≠ id) (records_in (Some f)))) by (by exists ls').
  exists (Some (unlines ls')). split; [|by split; [eapply well_formed_file|apply records_in_file]].
  erewrite mbind_eq by (by apply io_quiet).
  erewrite mbind_eq.
  2:{ rewrite Hf. rewrite (for_lines_unlines FeIo (keep_line id)); [by rewrite Hk|by eapply file_of_text|done]. }
  do 2 (erewrite mbind_eq by (by apply io_quiet)).
  erewrite mbind_eq by (by apply forM_io_quiet).
  by do 2 (erewrite mbind_eq by (by apply io_quiet)).
Qed.

Lemma find_in_decided_quiet k id W q :
  w_io W = [] → well_formed (file_get k (q_dir q)) →
  find_in_decided k id (W, q) =
  (Ok (head (filter (λ r, ar_id r = id) (records_in (file_get k (q_dir q))))), (W, q)).
Proof.
  intros Hio Hf. unfold find_in_decided. erewrite mbind_eq by done. cbn [snd].
  destruct (file_get k (q_dir q)) as [f|]; [|done]. erewrite mbind_eq by (by apply io_quiet).
  destruct Hf as (ls&Hls&Hf). revert Hls. generalize (records_in (Some f)) as rs. intros rs Hls. rewrite Hf.
  assert (Ht := file_of_text _ _ Hls). rewrite raw_lines_unlines.
  2:{ eapply Forall_impl; [exact Ht|]. intros l Hl. apply (text_line_sep l Hl). }
  clear Hf f. induction Hls as [|r l rs ls Hl Hls IH]; [done|]. apply Forall_cons in Ht as [Hl' Ht].
  cbn [map find_lines]. erewrite mbind_eq by (by apply next_line_text). destruct Hl' as (_&_&->).
  rewrite (json_roundtrip r l Hl). case_bool_decide as Hid.
  - by rewrite filter_cons_True.
  - rewrite filter_cons_False by done. by apply IH.
Qed.

Lemma audit_quiet k W q :
  w_io W = [] → ∃ W' a, audit k (W, q) = (Ok tt, (W', q_set_audit a q)) ∧ w_io W' = [].
Proof.
  intros Hio. unfold audit. destruct (q_audit q) as [log|] eqn:Ha.
  - unfold append. erewrite mbind_eq by done. rewrite write_event_quiet by done.
    destruct (to_json _); eexists _, _; by split.
  - exists W, None. split; [|done]. unfold q_set_audit. rewrite <- Ha. by destruct q.
Qed.

(** *** The invariant and the abstraction *)

Record queue_ok (q : FourEyesQueue) : Prop := {
  qo_files : ∀ k, well_formed (file_get k (q_dir q));
  qo_index : ∀ id r, q_pending q !! id = Some r ↔ r ∈ pending_of q ∧ ar_id r = id;
  qo_ids : NoDup (map ar_id (records_of q));
  qo_pending : Forall (λ r, ar_status r = APending ∧ is_Some (hex_dec (ar_entry_payload_hex r))) (pending_of q);
  qo_approved : Forall (λ r, ar_status r = AApproved) (approved_of q);
  qo_rejected : Forall (λ r, ar_status r = ARejected) (rejected_of q)
}.

Definition payload_of (r : ApprovalRecord) : bytes := default [] (hex_dec (ar_entry_payload_hex r)).
Definition abs_of (r : ApprovalRecord) : Approval :=
  mkApproval (ar_status r) (ar_submitter_id r) (ar_approver_id r) (payload_of r).

Definition represents (q : FourEyesQueue) (m : gmap Z Approval) : Prop :=
  ∀ id a, m !! id = Some a ↔ ∃ r, r ∈ records_of q ∧ ar_id r = id ∧ abs_of r = a.

Lemma same_id_same (rs : list ApprovalRecord) r r' :
  NoDup (map ar_id rs) → r ∈ rs → r' ∈ rs → ar_id r = ar_id r' → r = r'.
Proof.
  induction rs as [|x rs IH]; [set_solver|]. cbn. intros [Hx Hn]%NoDup_cons.
  rewrite !elem_of_cons. intros [->|Hr] [->|Hr'] He; auto.
  - exfalso. apply Hx. rewrite He. by apply list_elem_of_fmap_2.
  - exfalso. apply Hx. rewrite <- He. by apply list_elem_of_fmap_2.
Qed.

(** A new request. *)
Lemma submitted_ok q q' r :
  queue_ok q → ar_id r ∉ map ar_id (records_of q) → ar_status r = APending → is_Some (hex_dec (ar_entry_payload_hex r)) →
  (∀ k, well_formed (file_get k (q_dir q'))) → pending_of q' = pending_of q ++ [r] →
  approved_of q' = approved_of q → rejected_of q' = rejected_of q →
  q_pending q' = <[ar_id r := r]> (q_pending q) → queue_ok q'.
Proof.
  intros [Hf Hi Hn Hp Ha Hr] Hid Hst Hpay Hf' Ep Ea Er Eq. unfold records_of in *. split; try done.
  - intros id x. rewrite Eq, Ep, elem_of_app, list_elem_of_singleton.
    destruct (decide (ar_id r = id)) as [<-|Hne].
    + rewrite lookup_insert_eq. split; [intros [= <-]; auto|].
      intros [[Hx| ->] Hxid]; [|done]. exfalso. apply Hid. rewrite <- Hxid.
      apply list_elem_of_fmap_2. set_solver.
    + rewrite lookup_insert_ne, Hi by done. naive_solver.
  - unfold records_of. rewrite Ep, Ea, Er. rewrite <- app_assoc. cbn.
    rewrite <- (Permutation_middle (pending_of q)). cbn. by apply NoDup_cons.
  - rewrite Ep. apply Forall_app; auto.
  - by rewrite Ea.
  - by rewrite Er.
Qed.

(** A pending request [r0] decided as [r]. *)
Definition decides (k : file_kind) (q q' : FourEyesQueue) (r : ApprovalRecord) : Prop :=
  (∀ k, well_formed (file_get k (q_dir q'))) ∧
  pending_of q' = filter (λ x, ar_id x ≠ ar_id r) (pending_of q) ∧
  q_pending q' = delete (ar_id r) (q_pending q) ∧
  match k with
  | KPending => False
  | KApproved => approved_of q' = approved_of q ++ [r] ∧ rejected_of q' = rejected_of q
  | KRejected => approved_of q' = approved_of q ∧ rejected_of q' = rejected_of q ++ [r]
  end.

Lemma decides_records k q q' r0 r :
  decides k q q' r → NoDup (map ar_id (records_of q)) → r0 ∈ pending_of q → ar_id r0 = ar_id r →
  records_of q ≡ₚ r0 :: filter (λ x, ar_id x ≠ ar_id r) (pending_of q) ++ approved_of q ++ rejected_of q ∧
  records_of q' ≡ₚ r :: filter (λ x, ar_id x ≠ ar_id r) (pending_of q) ++ approved_of q ++ rejected_of q.
Proof.
  intros (_&Ep&_&Ek) Hn Hr0 Hid. unfold records_of in *. split.
  - destruct (elem_of_Permutation (pending_of q) r0) as [Hex _]. destruct (Hex Hr0) as [ps Hps].
    rewrite Hps. rewrite filter_cons_False by (by intros []).
    assert (Hn' : NoDup (map ar_id (r0 :: ps))).
    { rewrite <- Hps. rewrite map_app in Hn. by apply NoDup_app in Hn as [? _]. }
    rewrite filter_all; [done|]. apply Forall_forall. intros x Hx He. cbn in Hn'.
    apply NoDup_cons in Hn' as [Hnin _]. apply Hnin. rewrite Hid, <- He. by apply list_elem_of_fmap_2.
  - rewrite Ep. destruct k; [done|..]; destruct Ek as [-> ->]; solve_Permutation.
Qed.

Lemma decides_ok k s q q' r0 r :
  queue_ok q → decides k q q' r → r0 ∈ pending_of q → ar_id r0 = ar_id r →
  ar_status r = s → s = match k with KRejected => ARejected | _ => AApproved end → queue_ok q'.
Proof.
  intros [Hf Hi Hn Hp Ha Hr] Hd Hr0 Hid Hst Hs.
  destruct (decides_records _ _ _ _ _ Hd Hn Hr0 Hid) as [P1 P2]. destruct Hd as (Hf'&Ep&Eq&Ek).
  split; [done|..].
  - intros id x. rewrite Eq, Ep, list_elem_of_filter. destruct (decide (ar_id r = id)) as [<-|Hne].
    + rewrite lookup_delete_eq. naive_solver.
    + rewrite lookup_delete_ne, Hi by done. naive_solver.
  - rewrite P2. rewrite P1 in Hn. cbn in *. by rewrite Hid in Hn.
  - rewrite Ep. apply Forall_forall. intros x [_ Hx]%list_elem_of_filter. rewrite Forall_forall in Hp. auto.
  - destruct k; [done|..]; destruct Ek as [-> _]; [|done]. apply Forall_app; split; [done|].
    constructor; [congruence|done].
  - destruct k; [done|..]; destruct Ek as [_ ->]; [done|]. apply Forall_app; split; [done|].
    constructor; [congruence|done].
Qed.

Lemma represents_insert q q' m rest r :
  represents q m → NoDup (map ar_id (records_of q')) →
  records_of q' ≡ₚ r :: rest → (∀ x, x ∈ records_of q → ar_id x ≠ ar_id r → x ∈ rest) → rest ⊆ records_of q →
  represents q' (<[ar_id r := abs_of r]> m).
Proof.
  intros Hm Hn Hp Hold Hnew id a. destruct (decide (ar_id r = id)) as [<-|Hne].
  - rewrite lookup_insert_eq. split.
    + intros [= <-]. exists r. split_and!; [|done..]. rewrite Hp. set_solver.
    + intros (x&Hx&Hxid&<-). f_equal. f_equal. symmetry. eapply same_id_same; [exact Hn|done| |done].
      rewrite Hp. set_solver.
  - rewrite lookup_insert_ne, (Hm id a) by done. split; intros (x&Hx&<-&<-); exists x; (split; [|done]).
    + rewrite Hp, elem_of_cons. right. by apply Hold.
    + rewrite Hp in Hx. apply elem_of_cons in Hx as [->|Hx]; [done|by apply Hnew].
Qed.

(** *** Each operation follows the specification *)

Lemma decide_record_quiet k r ev W q :
  w_io W = [] → queue_ok q → k ≠ KPending →
  ∃ W' q', decide_record k r ev (W, q) = (Ok r, (W', q')) ∧ w_io W' = [] ∧ decides k q q' r.
Proof.
  intros Hio [Hf _ _ _ _ _] Hk. unfold decide_record.
  destruct (persist_quiet k r W q Hio (Hf k)) as (f&Hp&Hff). erewrite mbind_eq by exact Hp.
  set (q1 := q_set_dir _ q).
  assert (Hp1 : qd_pending (q_dir q1) = qd_pending (q_dir q)) by (by destruct k).
  destruct (remove_pending_quiet (ar_id r) W q1 Hio) as (pf&Hrm&Hpf&Hrec); [rewrite Hp1; apply (Hf KPending)|].
  erewrite mbind_eq by exact Hrm. erewrite mbind_eq by done. cbn [fst snd].
  edestruct (audit_quiet ev W) as (W'&a&Ha&Hio'); [done|]. erewrite mbind_eq by exact Ha.
  eexists W', _. split; [done|]. split; [done|].
  unfold decides, pending_of, approved_of, rejected_of in *. rewrite Hp1 in Hrec.
  assert (Hkf : well_formed (Some f)) by (by eapply well_formed_file). apply records_in_file in Hff.
  split_and!.
  - pose proof (Hf KApproved); pose proof (Hf KRejected).
    destruct q as [[? ? ?] ? ?]; destruct k; cbn in *; [done|..]; by intros [].
  - destruct q as [[? ? ?] ? ?]; by destruct k.
  - destruct q as [[? ? ?] ? ?]; by destruct k.
  - destruct q as [[? ? ?] ? ?]; destruct k; cbn in *; [done|..]; by rewrite Hff.
Qed.

Section simulation.
Context {L : Type} (post_fn : bytes → L → Result string unit * L).

Lemma on_queue_eq {A} (m : QM A) W q (l : L) r W' q' :
  m (W, q) = (r, (W', q')) → on_queue m (W, (q, l)) = (r, (W', (q', l))).
Proof. unfold on_queue, zoom. cbn. by intros ->. Qed.

(** A decision changes the abstract map at the request only. *)
Lemma decides_represents k q q' m r0 r who s :
  queue_ok q → represents q m → decides k q q' r → r0 ∈ pending_of q → queue_ok q' →
  (∃ reason t, r = decided s who reason t r0) →
  represents q' (spec_decide s (ar_id r0) who (abs_of r0) m).
Proof.
  intros Hok Hm Hd Hr0 Hok' (reason&t&->). unfold spec_decide.
  change (mkApproval _ _ _ _) with (abs_of (decided s who reason t r0)).
  change (ar_id r0) with (ar_id (decided s who reason t r0)).
  destruct (decides_records _ _ _ r0 _ Hd (qo_ids _ Hok) Hr0 eq_refl) as [P1 P2].
  eapply represents_insert; [done|apply Hok'|exact P2|..].
  - intros x Hx Hne. rewrite P1 in Hx. apply elem_of_cons in Hx as [->|Hx]; [done|exact Hx].
  - intros x Hx. rewrite P1. set_solver.
Qed.

Lemma exec_submit bs desc dom sub W q l m r W' q' l' :
  w_io W = [] → queue_ok q → represents q m → m !! drawn_id W = None →
  exec post_fn (Submit bs desc dom sub) (W, (q, l)) = (r, (W', (q', l'))) →
  r = Ok tt ∧ l' = l ∧ w_io W' = [] ∧ queue_ok q' ∧ approved_of q' = approved_of q ∧
  represents q' (<[drawn_id W := mkApproval APending sub None bs]> m).
Proof.
  intros Hio Hok Hm Hfr He. unfold exec in He.
  set (rec := mkApprovalRecord (drawn_id W) APending sub None None (default 0 (head (w_clock W))) None (hex_enc bs) desc dom).
  set (W1 := mkWorld (tail (w_clock W)) (tail (w_rng W)) (w_io W)).
  destruct (persist_quiet KPending rec W1 q Hio (qo_files q Hok KPending)) as (f&Hp&Hff).
  edestruct (audit_quiet (FourEyesSubmitted (drawn_id W) (drawn_id W) sub dom) W1) as (W2&a&Ha&Hio2); [done|].
  erewrite mbind_eq in He.
  2:{ apply on_queue_eq. unfold submit. erewrite mbind_eq by done. erewrite mbind_eq by done.
      change (mkApprovalRecord _ _ _ _ _ _ _ _ _ _) with rec. erewrite mbind_eq by exact Hp.
      erewrite mbind_eq by done. cbn [fst snd]. erewrite mbind_eq by exact Ha. done. }
  unfold mret, M_ret in He. simplify_eq. set (q1 := q_set_audit _ _).
  assert (Hid : ar_id rec ∉ map ar_id (records_of q)).
  { intros (x&Hx&Hin)%list_elem_of_fmap. apply not_elem_of_dom in Hfr. apply Hfr, elem_of_dom.
    exists (abs_of x). apply Hm. eauto. }
  assert (Ep : pending_of q1 = pending_of q ++ [rec]).
  { apply records_in_file in Hff. exact Hff. }
  assert (Hok1 : queue_ok q1).
  { apply (submitted_ok q q1 rec); try done; [cbn; by rewrite hex_roundtrip|].
    intros []; [by eapply well_formed_file|apply (qo_files q Hok KApproved)|apply (qo_files q Hok KRejected)]. }
  split_and!; try done.
  assert (Habs : mkApproval APending sub None bs = abs_of rec).
  { unfold abs_of, payload_of. cbn. by rewrite hex_roundtrip. }
  rewrite Habs. change (drawn_id W) with (ar_id rec).
  eapply (represents_insert q q1 m (records_of q) rec); [done|apply Hok1| |auto|done].
  unfold records_of. rewrite Ep. change (approved_of q1) with (approved_of q). change (rejected_of q1) with (rejected_of q).
  rewrite <- app_assoc. symmetry. apply Permutation_middle.
Qed.

Lemma represents_at q m r : represents q m → r ∈ records_of q → m !! ar_id r = Some (abs_of r).
Proof. intros Hm Hr. apply Hm. eauto. Qed.

(** A request that is neither pending nor approved was rejected or never
    existed. *)
Lemma represents_other q m id :
  queue_ok q → represents q m → q_pending q !! id = None → (∀ r, r ∈ approved_of q → ar_id r ≠ id) →
  match m !! id with Some a => ap_status a = ARejected | None => True end.
Proof.
  intros Hok Hm Hp Ha. destruct (m !! id) as [a|] eqn:Hid; [|done].
  apply Hm in Hid as (r&Hr&Hrid&<-). unfold records_of in Hr. rewrite !elem_of_app in Hr.
  destruct Hr as [Hr|[Hr|Hr]].
  - assert (q_pending q !! id = Some r) by (by apply Hok). congruence.
  - by destruct (Ha r Hr).
  - pose proof (qo_rejected q Hok) as Hrj. rewrite Forall_forall in Hrj. by apply Hrj.
Qed.

Lemma pending_facts q r id : queue_ok q → q_pending q !! id = Some r →
  r ∈ pending_of q ∧ ar_id r = id ∧ ar_status r = APending ∧ is_Some (hex_dec (ar_entry_payload_hex r)).
Proof.
  intros Hok [Hr Hid]%(qo_index q Hok). pose proof (qo_pending q Hok) as Hp. rewrite Forall_forall in Hp.
  destruct (Hp r Hr). auto.
Qed.

Lemma exec_reject id who why W q l m r W' q' l' :
  w_io W = [] → queue_ok q → represents q m →
  exec post_fn (Reject id who why) (W, (q, l)) = (r, (W', (q', l'))) →
  l' = l ∧ w_io W' = [] ∧ queue_ok q' ∧ approved_of q' = approved_of q ∧
  ∃ m', spec_exec post_fn (Reject id who why) (drawn_id W) (m, l) = (r, (m', l')) ∧ represents q' m'.
Proof.
  intros Hio Hok Hm He. unfold exec in He. cbn [spec_exec].
  destruct (q_pending q !! id) as [r0|] eqn:Hp; cycle 1.
  { erewrite mbind_err in He.
    2:{ apply on_queue_eq. unfold reject. erewrite mbind_err; [done|]. unfold get_pending.
        erewrite mbind_eq by done. cbn [snd]. by rewrite Hp. }
    injection He as <- <- <- <-. split_and!; try done. exists m. split; [|done].
    destruct (m !! id) as [a|] eqn:Hid; [|done]. rewrite bool_decide_false; [done|].
    apply Hm in Hid as (x&Hx&Hxid&<-). cbn. intros Hst. unfold records_of in Hx. rewrite !elem_of_app in Hx.
    destruct Hx as [Hx|[Hx|Hx]].
    - assert (q_pending q !! id = Some x) by (by apply Hok). congruence.
    - pose proof (qo_approved q Hok) as Ha. rewrite Forall_forall in Ha. apply Ha in Hx. congruence.
    - pose proof (qo_rejected q Hok) as Ha. rewrite Forall_forall in Ha. apply Ha in Hx. congruence. }
  destruct (pending_facts q r0 id Hok Hp) as (Hr0&<-&Hst&_).
  assert (Hr0' : r0 ∈ records_of q) by (unfold records_of; set_solver).
  rewrite (represents_at q m r0 Hm Hr0'). cbn [ap_status abs_of ap_submitter].
  rewrite (bool_decide_true (ar_status r0 = APending)) by done.
  assert (Hget : get_pending (ar_id r0) (W, q) = (Ok r0, (W, q))).
  { unfold get_pending. erewrite mbind_eq by done. cbn [snd]. by rewrite Hp. }
  destruct (decide (ar_submitter_id r0 = who)) as [Hs|Hs].
  - rewrite (bool_decide_true _ Hs). erewrite mbind_err in He.
    2:{ apply on_queue_eq. unfold reject. erewrite mbind_eq by exact Hget. by rewrite (bool_decide_true _ Hs). }
    injection He as <- <- <- <-. eauto 10.
  - rewrite (bool_decide_false _ Hs).
    set (t := default 0 (head (w_clock W))). set (rec := decided ARejected who (Some why) t r0).
    destruct (decide_record_quiet KRejected rec (FourEyesRejected (ar_id r0) who why) (mkWorld (tail (w_clock W)) (w_rng W) (w_io W)) q)
      as (W1&q1&Hd&Hio1&Hdec); [done..|].
    erewrite mbind_eq in He.
    2:{ apply on_queue_eq. unfold reject. erewrite mbind_eq by exact Hget. rewrite (bool_decide_false _ Hs).
        erewrite mbind_eq by done. exact Hd. }
    injection He as <- <- <- <-.
    assert (Hok1 : queue_ok q1) by (eapply (decides_ok KRejected ARejected q q1 r0 rec); done).
    split_and!; [done|done|done|by destruct Hdec as (_&_&_&Hk&_)|].
    eexists. split; [done|]. apply (decides_represents KRejected q q1 m r0 rec); try done. by exists (Some why), t.
Qed.

(** An approval: the ledger is posted to exactly when the specification
    says, and an approved request enters the approved file. *)
Lemma exec_approve id who W q l m r W' q' l' :
  w_io W = [] → queue_ok q → represents q m →
  exec post_fn (Approve id who) (W, (q, l)) = (r, (W', (q', l'))) →
  w_io W' = [] ∧ queue_ok q' ∧
  (∃ m', spec_exec post_fn (Approve id who) (drawn_id W) (m, l) = (r, (m', l')) ∧ represents q' m') ∧
  ((approved_of q' = approved_of q ∧ (l' = l ∨ ∃ bs e, post_fn bs l = (Err e, l'))) ∨
   ∃ rec, approved_of q' = approved_of q ++ [rec] ∧ post_fn (payload_of rec) l = (Ok tt, l') ∧
     ar_approver_id rec = Some who ∧ ar_submitter_id rec ≠ who).
Proof.
  intros Hio Hok Hm He. unfold exec, approve in He. cbn [spec_exec].
  pose proof (find_in_decided_quiet KApproved id W q Hio (qo_files q Hok KApproved)) as Hfind.
  change (records_in _) with (approved_of q) in Hfind.
  destruct (head (filter (λ r, ar_id r = id) (approved_of q))) as [r0|] eqn:Hh.
  { erewrite mbind_eq in He by (erewrite mbind_eq by (by apply on_queue_eq); done).
    injection He as <- <- <- <-.
    assert (Hin : r0 ∈ filter (λ r, ar_id r = id) (approved_of q)).
    { destruct (filter _ (approved_of q)); [done|]. cbn in Hh. simplify_eq. set_solver. }
    apply list_elem_of_filter in Hin as [<- Hin]. split_and!; [done|done| |by left; auto].
    exists m. rewrite (represents_at q m r0 Hm) by (unfold records_of; set_solver). cbn.
    pose proof (qo_approved q Hok) as Ha. rewrite Forall_forall in Ha. by rewrite (Ha r0 Hin). }
  assert (Hna : ∀ r, r ∈ approved_of q → ar_id r ≠ id).
  { intros x Hx Hid. assert (x ∈ filter (λ r, ar_id r = id) (approved_of q)) as Hx' by (by apply list_elem_of_filter).
    destruct (filter _ (approved_of q)); [set_solver|done]. }
  destruct (q_pending q !! id) as [r0|] eqn:Hp; cycle 1.
  { assert (Hget : get_pending id (W, q) = (Err (NotFound id), (W, q))).
    { unfold get_pending. erewrite mbind_eq by done. cbn [snd]. by rewrite Hp. }
    erewrite mbind_err in He.
    2:{ erewrite mbind_eq by (apply on_queue_eq; exact Hfind). cbv beta iota. erewrite mbind_err by (by apply on_queue_eq). done. }
    injection He as <- <- <- <-. split_and!; [done|done| |by left; auto]. exists m. split; [|done].
    pose proof (represents_other q m id Hok Hm Hp Hna) as Hoth. destruct (m !! id) as [a|]; [by rewrite Hoth|done]. }
  destruct (pending_facts q r0 id Hok Hp) as (Hr0&<-&Hst&[bs Hbs]).
  assert (Hr0' : r0 ∈ records_of q) by (unfold records_of; set_solver).
  rewrite (represents_at q m r0 Hm Hr0'). cbn [ap_status abs_of ap_submitter ap_payload]. rewrite Hst.
  assert (Hget : get_pending (ar_id r0) (W, q) = (Ok r0, (W, q))).
  { unfold get_pending. erewrite mbind_eq by done. cbn [snd]. by rewrite Hp. }
  assert (Hpay : payload_of r0 = bs) by (unfold payload_of; by rewrite Hbs).
  destruct (decide (ar_submitter_id r0 = who)) as [Hs|Hs].
  { rewrite (bool_decide_true _ Hs). erewrite mbind_err in He.
    2:{ erewrite mbind_eq by (apply on_queue_eq; exact Hfind). cbv beta iota. erewrite mbind_eq by (by apply on_queue_eq).
        by rewrite (bool_decide_true _ Hs). }
    injection He as <- <- <- <-. split_and!; eauto. }
  rewrite (bool_decide_false _ Hs), Hpay.
  destruct (post_fn bs l) as [[[]|e] l1] eqn:Hpost; cycle 1.
  { erewrite mbind_err in He.
    2:{ erewrite mbind_eq by (apply on_queue_eq; exact Hfind). cbv beta iota. erewrite mbind_eq by (by apply on_queue_eq).
        rewrite (bool_decide_false _ Hs). erewrite mbind_eq by (by rewrite Hbs).
        erewrite mbind_err; [done|]. unfold run_post. by rewrite Hpost. }
    injection He as <- <- <- <-. split_and!; eauto 10. }
  set (t := default 0 (head (w_clock W))). set (rec := decided AApproved who (ar_reject_reason r0) t r0).
  destruct (decide_record_quiet KApproved rec (FourEyesApproved (ar_id r0) who) (mkWorld (tail (w_clock W)) (w_rng W) (w_io W)) q)
    as (W1&q1&Hd&Hio1&Hdec); [done..|].
  erewrite mbind_eq in He.
  2:{ erewrite mbind_eq by (apply on_queue_eq; exact Hfind). cbv beta iota. erewrite mbind_eq by (by apply on_queue_eq).
      rewrite (bool_decide_false _ Hs). erewrite mbind_eq by (by rewrite Hbs).
      erewrite mbind_eq; [|unfold run_post; by rewrite Hpost].
      apply on_queue_eq. erewrite mbind_eq by done. exact Hd. }
  injection He as <- <- <- <-.
  assert (Hok1 : queue_ok q1) by (eapply (decides_ok KApproved AApproved q q1 r0 rec); done).
  split_and!; [done|done|..].
  - eexists. split; [done|]. apply (decides_represents KApproved q q1 m r0 rec); try done. by exists (ar_reject_reason r0), t.
  - right. exists rec. split_and!; [by destruct Hdec as (_&_&_&Hk&_)| |done..].
    change (payload_of rec) with (payload_of r0). by rewrite Hpay.
Qed.

(** Reading the pending file back rebuilds the index. *)
Lemma load_fold (rs : list ApprovalRecord) (m : gmap Z ApprovalRecord) :
  foldl (λ res r, res ≫= λ m, Ok (<[ar_id r := r]> m)) (Ok (E:=FourEyesError) m) rs =
  Ok (foldl (λ m r, <[ar_id r := r]> m) m rs).
Proof. revert m. induction rs as [|r rs IH]; intros m; [done|]. apply IH. Qed.

Lemma load_index (rs : list ApprovalRecord) m id r :
  NoDup (map ar_id rs) → (∀ x, x ∈ rs → m !! ar_id x = None) →
  foldl (λ (m : gmap Z ApprovalRecord) r, <[ar_id r := r]> m) m rs !! id = Some r ↔
  m !! id = Some r ∨ (r ∈ rs ∧ ar_id r = id).
Proof.
  revert m. induction rs as [|x rs IH]; intros m; cbn; [set_solver|].
  intros [Hx Hn]%NoDup_cons Hm. rewrite IH; [|done|].
  - destruct (decide (ar_id x = id)) as [<-|Hne].
    + rewrite lookup_insert_eq. specialize (Hm x ltac:(set_solver)). rewrite Hm. set_unfold.
      split; [intros [[= <-]|[? He]]; auto|]. intros [[=]|[[->|?] He]]; auto.
    + rewrite lookup_insert_ne by done. set_unfold. naive_solver.
  - intros y Hy. rewrite lookup_insert_ne; [apply Hm; set_solver|].
    intros He. apply Hx. rewrite He. by apply list_elem_of_fmap_2.
Qed.

Lemma exec_restart W q l r W' q' l' :
  w_io W = [] → queue_ok q → exec post_fn Restart (W, (q, l)) = (r, (W', (q', l'))) →
  r = Ok tt ∧ l' = l ∧ W' = W ∧ q_dir q' = q_dir q ∧ queue_ok q'.
Proof.
  intros Hio Hok He. unfold exec in He.
  assert (Hl : load_pending (W, q_dir q) =
    (Ok (foldl (λ m r, <[ar_id r := r]> m) ∅ (pending_of q)), (W, q_dir q))).
  { unfold load_pending, pending_of. erewrite mbind_eq by done. cbn [snd].
    pose proof (qo_files q Hok KPending) as Hf. cbn in Hf.
    destruct (qd_pending (q_dir q)) as [f|]; [|done]. erewrite mbind_eq by (by apply io_quiet).
    rewrite (file_of_fold _ load_line (λ m r, Ok (<[ar_id r := r]> m)) f (records_in (Some f))); [|by intros m x line Hx; unfold load_line; rewrite Hx|done..].
    by rewrite load_fold. }
  erewrite on_queue_eq in He.
  2:{ unfold restart, queue_open. erewrite mbind_eq by (by apply io_quiet).
      erewrite mbind_eq by exact Hl. done. }
  injection He as <- <- <- <-. split_and!; try done.
  destruct Hok as [Hf Hi Hn Hp Ha Hr]. split; try done. intros id x. cbn [q_pending].
  rewrite load_index; [|by unfold records_of in Hn; rewrite map_app in Hn; apply NoDup_app in Hn as [? _]|done].
  rewrite lookup_empty. naive_solver.
Qed.

(** C13: The queue implements its specification: in an environment without
    I/O failures, every call (submit, approve, reject, and a restart that
    reads the files back) returns what the abstract machine returns, changes
    the ledger as it does, and leaves files that represent its state. *)
Theorem exec_simulates op W q l m r W' q' l' :
  w_io W = [] → queue_ok q → represents q m →
  match op with Submit _ _ _ _ => m !! drawn_id W = None | _ => True end →
  exec post_fn op (W, (q, l)) = (r, (W', (q', l'))) →
  w_io W' = [] ∧ queue_ok q' ∧
  ∃ m', spec_exec post_fn op (drawn_id W) (m, l) = (r, (m', l')) ∧ represents q' m'.
Proof.
  intros Hio Hok Hm Hfr He. destruct op as [bs desc dom sub|id who|id who why|].
  - destruct (exec_submit bs desc dom sub W q l m r W' q' l') as (->&->&?&?&_&?); eauto.
  - destruct (exec_approve id who W q l m r W' q' l') as (?&?&?&_); eauto.
  - destruct (exec_reject id who why W q l m r W' q' l') as (_&?&?&_&?); eauto.
  - destruct (exec_restart W q l r W' q' l') as (->&->&->&Hd&?); [done..|].
    split_and!; [done..|]. exists m. split; [done|]. unfold represents, records_of, pending_of, approved_of, rejected_of in *.
    by rewrite Hd.
Qed.
End simulation.

(** *** Runs of the queue *)

(** A ledger that records the entries it accepts. *)
Definition post_log (accept : bytes → bool) (bs : bytes) (posted : list bytes) : Result string unit * list bytes :=
  if accept bs then (Ok tt, posted ++ [bs]) else (Err "rejected"%string, posted).

(** One operation on the queue and the recording ledger, without I/O
    failures; identifiers are drawn fresh. *)
Inductive fe_step (accept : bytes → bool) : FourEyesQueue * list bytes → FourEyesQueue * list bytes → Prop :=
  | fe_step_op op W W' q q' l l' r :
      w_io W = [] →
      match op with Submit _ _ _ _ => drawn_id W ∉ map ar_id (records_of q) | _ => True end →
      exec (post_log accept) op (W, (q, l)) = (r, (W', (q', l'))) →
      fe_step accept (q, l) (q', l').

Definition empty_queue : FourEyesQueue := mkQueue (mkQueueDir None None None) ∅ None.

(** What has been posted is what has been approved, by somebody else. *)
Definition segregated (q : FourEyesQueue) (posted : list bytes) : Prop :=
  posted = map payload_of (approved_of q) ∧
  Forall (λ r, ∃ who, ar_approver_id r = Some who ∧ ar_submitter_id r ≠ who) (approved_of q).

Definition abs_map (q : FourEyesQueue) : gmap Z Approval :=
  list_to_map (map (λ r, (ar_id r, abs_of r)) (records_of q)).

Lemma abs_map_represents q : NoDup (map ar_id (records_of q)) → represents q (abs_map q).
Proof.
  intros Hn id a. unfold abs_map. rewrite <- elem_of_list_to_map.
  - split; [intros (r&[= -> ->]&Hr)%list_elem_of_fmap; eauto|].
    intros (r&Hr&<-&<-). apply list_elem_of_fmap. eauto.
  - by rewrite <- list_fmap_compose.
Qed.

Lemma fe_step_segregated accept q l q' l' :
  fe_step accept (q, l) (q', l') → queue_ok q → segregated q l → queue_ok q' ∧ segregated q' l'.
Proof.
  intros Hst Hok [Hl Ha]. inversion Hst as [op W W' ? ? ? ? r Hio Hfr He]; subst.
  pose proof (abs_map_represents q (qo_ids q Hok)) as Hm. unfold segregated.
  destruct op as [bs desc dom sub|id who|id who why|].
  - destruct (exec_submit (post_log accept) bs desc dom sub W q (map payload_of (approved_of q)) (abs_map q) r W' q' l')
      as (_&->&_&?&->&_); try done.
    destruct (abs_map q !! drawn_id W) eqn:Hid; [|done]. apply Hm in Hid as (x&Hx&Hxid&_).
    destruct Hfr. rewrite <- Hxid. by apply list_elem_of_fmap_2.
  - destruct (exec_approve (post_log accept) id who W q _ (abs_map q) r W' q' l' Hio Hok Hm He)
      as (_&?&_&[[-> Hl']|(rec&->&Hpost&Hwho&Hne)]).
    + split; [done|]. split; [|done]. destruct Hl' as [->|(bs&e&Hpost)]; [done|].
      unfold post_log in Hpost. destruct (accept bs); by simplify_eq.
    + split; [done|]. unfold post_log in Hpost. destruct (accept (payload_of rec)); [|done]. simplify_eq.
      rewrite map_app. split; [done|]. apply Forall_app. split; [done|]. constructor; eauto.
  - destruct (exec_reject (post_log accept) id who why W q _ (abs_map q) r W' q' l' Hio Hok Hm He) as (->&_&?&Hap&_).
    by rewrite Hap.
  - destruct (exec_restart (post_log accept) W q _ r W' q' l' Hio Hok He) as (_&->&_&Hd&?).
    unfold approved_of in *. by rewrite Hd.
Qed.

Lemma fe_run_segregated accept σ σ' :
  rtc (fe_step accept) σ σ' → queue_ok σ.1 ∧ segregated σ.1 σ.2 → queue_ok σ'.1 ∧ segregated σ'.1 σ'.2.
Proof.
  induction 1 as [|[q l] [q' l'] σ' Hst _ IH]; [done|]. intros [? ?]. apply IH. by eapply fe_step_segregated.
Qed.

Lemma empty_queue_ok : queue_ok empty_queue.
Proof. split; try done; [by intros []|set_solver|constructor]. Qed.

(** C14: Segregation of duties: starting from an empty queue, after any run of
    submissions, approvals, rejections and restarts without I/O failures, the
    entries posted to the ledger are exactly the payloads of the approved
    requests, each posted once and in the order of approval; every approved
    request was approved by somebody other than its submitter; and no request
    is both approved and pending or rejected. *)
Theorem four_eyes_segregation accept q posted :
  rtc (fe_step accept) (empty_queue, []) (q, posted) →
  posted = map payload_of (approved_of q) ∧
  Forall (λ r, ∃ who, ar_approver_id r = Some who ∧ ar_submitter_id r ≠ who) (approved_of q) ∧
  NoDup (map ar_id (records_of q)).
Proof.
  intros Hs.
  assert (Hinv : queue_ok q ∧ segregated q posted).
  { apply (fe_run_segregated _ _ _ Hs). split; [apply empty_queue_ok|by split]. }
  destruct Hinv as [Hok [Hp Ha]]. split_and!; [done|done|apply Hok].
Qed.

(** An approval that posts and then cannot create [approved.jsonl]. *)
Lemma approve_persist_failure accept W q l r who :
  queue_ok q → q_pending q !! ar_id r = Some r → qd_approved (q_dir q) = None →
  ar_submitter_id r ≠ who → accept (payload_of r) = true → w_io W = [true] →
  ∃ W', approve (post_log accept) (ar_id r) who (W, (q, l)) = (Err FeIo, (W', (q, l ++ [payload_of r]))) ∧ w_io W' = [].
Proof.
  intros Hok Hp Hap Hne Hacc Hio. destruct (pending_facts q r _ Hok Hp) as (_&_&_&[bs Hbs]).
  assert (Hpay : payload_of r = bs) by (unfold payload_of; by rewrite Hbs).
  exists (mkWorld (tail (w_clock W)) (w_rng W) []). split; [|done].
  unfold approve. erewrite mbind_eq.
  2:{ apply on_queue_eq. unfold find_in_decided. erewrite mbind_eq by done. cbn [snd file_get]. by rewrite Hap. }
  cbv beta iota. erewrite mbind_eq.
  2:{ apply on_queue_eq. unfold get_pending. erewrite mbind_eq by done. cbn [snd]. by rewrite Hp. }
  rewrite bool_decide_false by done. erewrite mbind_eq by (by rewrite Hbs).
  rewrite Hpay in *. erewrite mbind_eq; [|unfold run_post, post_log; by rewrite Hacc].
  apply on_queue_eq. erewrite mbind_eq by done. unfold decide_record.
  erewrite mbind_err; [done|]. unfold persist. erewrite mbind_eq by done. cbn [snd fst file_get].
  rewrite bool_decide_false by (rewrite Hap; by intros [? [=]]).
  erewrite mbind_err; [done|]. erewrite mbind_err; [done|]. unfold io. by rewrite Hio.
Qed.

(** The idempotency guard does not cover the window between posting and
    recording the approval: when [approved.jsonl] cannot be written after the
    entry was posted, the request stays pending and a second approval posts
    the same entry again. *)
Theorem approve_failure_posts_twice accept W q l r who W2 :
  queue_ok q → q_pending q !! ar_id r = Some r → qd_approved (q_dir q) = None →
  ar_submitter_id r ≠ who → accept (payload_of r) = true → w_io W = [true] → w_io W2 = [] →
  ∃ W1 r2 W3 q3,
    exec (post_log accept) (Approve (ar_id r) who) (W, (q, l)) = (Err FeIo, (W1, (q, l ++ [payload_of r]))) ∧
    exec (post_log accept) (Approve (ar_id r) who) (W2, (q, l ++ [payload_of r])) =
      (r2, (W3, (q3, l ++ [payload_of r] ++ [payload_of r]))) ∧ r2 = Ok tt.
Proof.
  intros Hok Hp Hap Hne Hacc Hio Hio2.
  destruct (approve_persist_failure accept W q l r who) as (W1&He&_); [done..|].
  exists W1. destruct (exec (post_log accept) (Approve (ar_id r) who) (W2, (q, l ++ [payload_of r])))
    as [r2 [W3 [q3 l3]]] eqn:He2.
  exists r2, W3, q3. split; [unfold exec; by erewrite mbind_err by exact He|].
  destruct (exec_approve (post_log accept) _ who W2 q _ (abs_map q) r2 W3 q3 l3 Hio2 Hok (abs_map_represents q (qo_ids q Hok)) He2)
    as (_&_&(m'&Hs&_)&_).
  destruct (pending_facts q r _ Hok Hp) as (Hr&_&Hst&_).
  unfold spec_exec in Hs. rewrite (represents_at q (abs_map q) r) in Hs.
  2:{ apply abs_map_represents, Hok. }
  2:{ unfold records_of. set_solver. }
  cbn [abs_of ap_status ap_submitter ap_payload] in Hs. rewrite Hst, bool_decide_false in Hs by done.
  unfold post_log in Hs. rewrite Hacc in Hs. simplify_eq. by rewrite <- app_assoc.
Qed.
End theory.
