(* ===== verification/SqlGuard.v ===== *)
(** * vledger-sql: the guards in front of the SQL parser

    Models [crates/vledger-sql/src/parser.rs].  The recursive-descent parser
    (sqlparser) is a parameter; what the file verifies is the scanner that
    bounds what reaches it.  The scanner's index loops are recursions on the
    rest of the text ([bytes[i..]]); the outer loop, which the inner ones
    advance, takes fuel, and [scan_fuel] shows that the length of the text is
    enough.  The reference is a small automaton ([visible]) that reads the
    text byte by byte and keeps the parentheses outside quotes and comments. *)

From stdpp Require Import base gmap list strings option.
From Stdlib Require Import ZArith Lia Strings.Byte.
From S2P Require Import Prelude Bytes Jsonl.

Definition MAX_SQL_BYTES : nat := 65536.
Definition MAX_NESTING_DEPTH : nat := 20.

Inductive ParseError :=
  | ParseErr (msg : bytes)
  | QueryTooLong (len limit : nat)
  | NestingTooDeep (depth limit : nat)
  | EmptyInput
  | TooManyStatements (n : nat).

Definition squote : byte := Byte.x27.
Definition dquote : byte := Byte.x22.
Definition dash : byte := Byte.x2d.
Definition slash : byte := Byte.x2f.
Definition star : byte := Byte.x2a.
Definition lparen : byte := Byte.x28.
Definition rparen : byte := Byte.x29.
Definition semicolon : byte := Byte.x3b.

(** ** The scanner *)

(** After the opening quote: up to the closing one; a doubled quote is part
    of the text. *)
Fixpoint skip_quoted (q : byte) (rest : bytes) : bytes :=
  match rest with
  | [] => []
  | b :: r =>
      if bool_decide (b = q) then
        match r with
        | b' :: r' => if bool_decide (b' = q) then skip_quoted q r' else r
        | [] => r
        end
      else skip_quoted q r
  end.

(** After the two dashes: past the line feed. *)
Fixpoint skip_line (rest : bytes) : bytes :=
  match rest with
  | [] => []
  | b :: r => if bool_decide (b = nl) then r else skip_line r
  end.

(** After the opening of a block comment; the loop runs while two bytes are
    left. *)
Fixpoint skip_block (rest : bytes) : bytes :=
  match rest with
  | b :: r =>
      match r with
      | b' :: r' => if bool_decide (b = star) && bool_decide (b' = slash) then r' else skip_block r
      | [] => rest
      end
  | [] => rest
  end.

(** The main loop; [None] is exhausted fuel. *)
Fixpoint scan_sql (fuel depth max_depth : nat) (rest : bytes) : option (Result ParseError unit) :=
  match fuel with
  | O => None
  | S fuel =>
      match rest with
      | [] => Some (Ok tt)
      | b :: r =>
          if bool_decide (b = squote) then scan_sql fuel depth max_depth (skip_quoted squote r)
          else if bool_decide (b = dquote) then scan_sql fuel depth max_depth (skip_quoted dquote r)
          else if bool_decide (b = dash) && bool_decide (head r = Some dash) then
            scan_sql fuel depth max_depth (skip_line (tail r))
          else if bool_decide (b = slash) && bool_decide (head r = Some star) then
            scan_sql fuel depth max_depth (skip_block (tail r))
          else if bool_decide (b = lparen) then
            let depth := S depth in
            let max_depth := if (max_depth <? depth)%nat then depth else max_depth in
            if (MAX_NESTING_DEPTH <? max_depth)%nat then Some (Err (NestingTooDeep max_depth MAX_NESTING_DEPTH))
            else scan_sql fuel depth max_depth r
          else if bool_decide (b = rparen) then scan_sql fuel (Nat.pred depth) max_depth r
          else scan_sql fuel depth max_depth r
      end
  end.

Definition check_query_limits (sql : bytes) : option (Result ParseError unit) :=
  if (MAX_SQL_BYTES <? length sql)%nat then Some (Err (QueryTooLong (length sql) MAX_SQL_BYTES))
  else scan_sql (S (length sql)) 0 0 sql.

(** ** Trimming *)

(** The number of bytes of a whitespace character at the head of a text. *)
Definition ws_len (bs : bytes) : nat :=
  match bs with
  | b0 :: r =>
      if is_whitespace (Z_of_byte b0) && (Z_of_byte b0 <=? 127) then 1%nat
      else match r with
      | b1 :: r1 =>
          if match utf8_decode [b0; b1] with Some [c] => is_whitespace c | _ => false end then 2%nat
          else match r1 with
          | b2 :: _ => if match utf8_decode [b0; b1; b2] with Some [c] => is_whitespace c | _ => false end then 3%nat else 0%nat
          | [] => 0%nat
          end
      | [] => 0%nat
      end
  | [] => 0%nat
  end.

(** The same at the end of a text, on the reversed text. *)
Definition ws_len_rev (sb : bytes) : nat :=
  match sb with
  | b0 :: r =>
      if is_whitespace (Z_of_byte b0) && (Z_of_byte b0 <=? 127) then 1%nat
      else match r with
      | b1 :: r1 =>
          if match utf8_decode [b1; b0] with Some [c] => is_whitespace c | _ => false end then 2%nat
          else match r1 with
          | b2 :: _ => if match utf8_decode [b2; b1; b0] with Some [c] => is_whitespace c | _ => false end then 3%nat else 0%nat
          | [] => 0%nat
          end
      | [] => 0%nat
      end
  | [] => 0%nat
  end.

Fixpoint trim_with (len : bytes → nat) (fuel : nat) (bs : bytes) : bytes :=
  match fuel with
  | O => bs
  | S fuel => match len bs with O => bs | n => trim_with len fuel (drop n bs) end
  end.

(** [str::trim] *)
Definition trim (bs : bytes) : bytes :=
  let s := trim_with ws_len (length bs) bs in
  rev (trim_with ws_len_rev (length s) (rev s)).

(** [trim_end_matches(';')] *)
Definition semi_len (sb : bytes) : nat := if bool_decide (head sb = Some semicolon) then 1%nat else 0%nat.
Definition trim_end_semicolons (bs : bytes) : bytes := rev (trim_with semi_len (length bs) (rev bs)).

(** ** The entry points, over the parser *)

Section parse.
Context {Statement : Type} (parse_sql : bytes → Result bytes (list Statement)).

Definition parse (sql : bytes) : option (Result ParseError (list Statement)) :=
  r ← check_query_limits sql;
  Some (_ ← r; res_map_err ParseErr (parse_sql sql)).

Definition parse_one (sql : bytes) : option (Result ParseError Statement) :=
  let sql := trim (trim_end_semicolons (trim sql)) in
  r ← check_query_limits sql;
  Some (_ ← r;
    stmts ← res_map_err ParseErr (parse_sql sql);
    match stmts with
    | [] => Err EmptyInput
    | [s] => Ok s
    | _ => Err (TooManyStatements (length stmts))
    end).
End parse.

(** ** The reference: an automaton over the bytes *)

Inductive mode :=
  | Code
  | Dashed                       (* a dash of the code was read *)
  | Slashed                      (* a slash of the code was read *)
  | Quoted (q : byte)
  | Closing (q : byte)           (* a quote inside a quoted text *)
  | LineComment
  | BlockComment (prev : option byte).

Definition paren (b : byte) : bytes := if bool_decide (b = lparen) || bool_decide (b = rparen) then [b] else [].

Definition code_step (b : byte) : bytes * mode :=
  if bool_decide (b = squote) then ([], Quoted squote)
  else if bool_decide (b = dquote) then ([], Quoted dquote)
  else if bool_decide (b = dash) then ([], Dashed)
  else if bool_decide (b = slash) then ([], Slashed)
  else (paren b, Code).

Definition mode_step (m : mode) (b : byte) : bytes * mode :=
  match m with
  | Code => code_step b
  | Dashed => if bool_decide (b = dash) then ([], LineComment) else code_step b
  | Slashed => if bool_decide (b = star) then ([], BlockComment None) else code_step b
  | Quoted q => if bool_decide (b = q) then ([], Closing q) else ([], Quoted q)
  | Closing q => if bool_decide (b = q) then ([], Quoted q) else code_step b
  | LineComment => if bool_decide (b = nl) then ([], Code) else ([], LineComment)
  | BlockComment p =>
      if bool_decide (p = Some star) && bool_decide (b = slash) then ([], Code) else ([], BlockComment (Some b))
  end.

(** The parentheses outside quotes and comments.  The last byte of a block
    comment that is not closed counts as code, as in the scanner. *)
Fixpoint visible (m : mode) (bs : bytes) : bytes :=
  match bs with
  | [] => match m with BlockComment (Some c) => paren c | _ => [] end
  | b :: bs => let '(out, m') := mode_step m b in out ++ visible m' bs
  end.

(** The depth after a sequence of parentheses; unbalanced closing ones are
    ignored. *)
Definition depth_step (d : nat) (b : byte) : nat := if bool_decide (b = lparen) then S d else Nat.pred d.
Definition depth_after (d : nat) (ps : bytes) : nat := foldl depth_step d ps.

(** No prefix nests deeper than [n]. *)
Definition nesting_le (n d : nat) (ps : bytes) : Prop := ∀ i, (depth_after d (take i ps) ≤ n)%nat.

(** ** The scanner agrees with the automaton *)

Lemma visible_code_cons b bs : visible Code (b :: bs) = (code_step b).1 ++ visible (code_step b).2 bs.
Proof. cbn. by destruct (code_step b). Qed.

Lemma visible_quoted q bs : visible (Quoted q) bs = visible Code (skip_quoted q bs).
Proof.
  induction bs as [bs IH] using (induction_ltof1 _ length). unfold ltof in IH.
  destruct bs as [|b r]; [done|]. cbn [visible mode_step skip_quoted].
  case_bool_decide as Hb; cbn; [|apply IH; cbn; lia].
  destruct r as [|b' r']; [done|]. cbn [visible mode_step].
  case_bool_decide as Hb'; cbn; [apply IH; cbn; lia|]. by destruct (code_step b').
Qed.

Lemma visible_line bs : visible LineComment bs = visible Code (skip_line bs).
Proof. induction bs as [|b r IH]; [done|]. cbn. by case_bool_decide. Qed.

Lemma visible_single c : visible Code [c] = paren c.
Proof.
  unfold visible, mode_step, code_step, paren.
  repeat case_bool_decide; subst; cbn; try done; by destruct (bool_decide _).
Qed.

Lemma visible_block c bs : visible (BlockComment (Some c)) bs = visible Code (skip_block (c :: bs)).
Proof.
  revert c. induction bs as [|b r IH]; intros c; [symmetry; apply visible_single|].
  cbn [visible mode_step skip_block]. rewrite (bool_decide_ext (Some c = Some star) (c = star)) by naive_solver.
  destruct (bool_decide (c = star) && bool_decide (b = slash)); cbn [app]; [done|]. by rewrite IH.
Qed.

Lemma skip_quoted_length q bs : (length (skip_quoted q bs) ≤ length bs)%nat.
Proof.
  induction bs as [bs IH] using (induction_ltof1 _ length). unfold ltof in IH.
  destruct bs as [|b r]; [done|]. cbn [skip_quoted]. repeat case_match; cbn; try lia.
  - etrans; [apply IH; cbn; lia|]. cbn. lia.
  - etrans; [apply IH; cbn; lia|]. lia.
Qed.
Lemma skip_line_length bs : (length (skip_line bs) ≤ length bs)%nat.
Proof. induction bs as [|b r IH]; cbn; [done|]. case_bool_decide; lia. Qed.
Lemma skip_block_length bs : (length (skip_block bs) ≤ length bs)%nat.
Proof.
  induction bs as [|b r IH]; [done|]. cbn [skip_block]. destruct r as [|b' r']; [done|].
  destruct (_ && _); cbn in *; lia.
Qed.


(** What the scanner does with the parentheses it meets. *)
Fixpoint check_parens (depth max_depth : nat) (ps : bytes) : Result ParseError unit :=
  match ps with
  | [] => Ok tt
  | b :: ps =>
      if bool_decide (b = lparen) then
        let depth := S depth in
        let max_depth := if (max_depth <? depth)%nat then depth else max_depth in
        if (MAX_NESTING_DEPTH <? max_depth)%nat then Err (NestingTooDeep max_depth MAX_NESTING_DEPTH)
        else check_parens depth max_depth ps
      else check_parens (Nat.pred depth) max_depth ps
  end.

(** After a dash or a slash that opens no comment, the code goes on. *)
Lemma visible_dashed r : head r ≠ Some dash → visible Dashed r = visible Code r.
Proof. destruct r as [|b r]; [done|]. cbn. intros Hb. by rewrite bool_decide_false by congruence. Qed.
Lemma visible_slashed r : head r ≠ Some star → visible Slashed r = visible Code r.
Proof. destruct r as [|b r]; [done|]. cbn. intros Hb. by rewrite bool_decide_false by congruence. Qed.

Lemma visible_block_open r : visible (BlockComment None) r = visible Code (skip_block r).
Proof. destruct r as [|b r]; [done|]. cbn [visible mode_step]. rewrite bool_decide_false by done. apply visible_block. Qed.

(** The fuel is enough, and the scanner sees what the automaton keeps. *)
Lemma scan_sql_spec fuel depth mx rest :
  (length rest < fuel)%nat → scan_sql fuel depth mx rest = Some (check_parens depth mx (visible Code rest)).
Proof.
  revert depth mx rest. induction fuel as [|fuel IH]; intros depth mx rest Hf; [lia|].
  destruct rest as [|b r]; [done|]. cbn [scan_sql]. rewrite visible_code_cons. unfold code_step. cbn in Hf.
  case_bool_decide as H1; [subst; cbn; rewrite visible_quoted; apply IH; pose proof (skip_quoted_length squote r); lia|].
  case_bool_decide as H2; [subst; cbn; rewrite visible_quoted; apply IH; pose proof (skip_quoted_length dquote r); lia|].
  case_bool_decide as H3; cbn [andb].
  { subst b. case_bool_decide as Hh.
    - destruct r as [|b' r]; [done|]. cbn in Hh. simplify_eq. cbn [fst snd app tail visible mode_step].
      rewrite bool_decide_true by done. cbn [app]. rewrite visible_line. apply IH.
      pose proof (skip_line_length r). cbn in Hf. lia.
    - cbn [fst snd app]. rewrite visible_dashed by done. apply IH. lia. }
  case_bool_decide as H4; cbn [andb].
  { subst b. case_bool_decide as Hh.
    - destruct r as [|b' r]; [done|]. cbn in Hh. simplify_eq. cbn [fst snd app tail visible mode_step].
      rewrite bool_decide_true by done. cbn [app]. rewrite visible_block_open. apply IH.
      pose proof (skip_block_length r). cbn in Hf. lia.
    - cbn [fst snd app]. rewrite visible_slashed by done. apply IH. lia. }
  cbn [fst snd]. unfold paren. case_bool_decide as H5.
  - subst b. cbn [orb app check_parens]. rewrite bool_decide_true by done.
    destruct (_ <? _)%nat; [done|]. apply IH. lia.
  - case_bool_decide as H6; cbn [orb app check_parens]; [|apply IH; lia].
    rewrite bool_decide_false by congruence. apply IH. lia.
Qed.

Lemma check_parens_ok d mx ps :
  (d ≤ mx)%nat → (mx ≤ MAX_NESTING_DEPTH)%nat →
  check_parens d mx ps = Ok tt ↔ nesting_le MAX_NESTING_DEPTH d ps.
Proof.
  revert d mx. induction ps as [|b ps IH]; intros d mx Hd Hmx; cbn [check_parens].
  { split; [|done]. intros _ i. by rewrite take_nil; cbn; lia. }
  assert (Hcons : nesting_le MAX_NESTING_DEPTH d (b :: ps) ↔ nesting_le MAX_NESTING_DEPTH (depth_step d b) ps).
  { split; [intros Hn i; apply (Hn (S i))|]. intros Hn [|i]; [cbn; lia|apply (Hn i)]. }
  rewrite Hcons. unfold depth_step. case_bool_decide as Hb; [|apply IH; lia].
  destruct (Nat.ltb_spec mx (S d)).
  - destruct (Nat.ltb_spec MAX_NESTING_DEPTH (S d)) as [Hlt|Hle]; [|apply IH; lia].
    split; [done|]. intros Hn. specialize (Hn 0%nat). unfold depth_after in Hn. rewrite take_0 in Hn. cbn [foldl] in Hn. lia.
  - destruct (Nat.ltb_spec MAX_NESTING_DEPTH mx) as [Hlt|Hle]; [lia|apply IH; lia].
Qed.

Lemma check_parens_err d mx ps e :
  (d ≤ mx)%nat → (mx ≤ MAX_NESTING_DEPTH)%nat → check_parens d mx ps = Err e →
  e = NestingTooDeep (S MAX_NESTING_DEPTH) MAX_NESTING_DEPTH.
Proof.
  revert d mx. induction ps as [|b ps IH]; intros d mx Hd Hmx; cbn [check_parens]; [done|].
  case_bool_decide as Hb; [|apply IH; lia].
  destruct (Nat.ltb_spec mx (S d)).
  - destruct (Nat.ltb_spec MAX_NESTING_DEPTH (S d)) as [Hlt|Hle]; [|apply IH; lia].
    intros [= <-]. f_equal. lia.
  - destruct (Nat.ltb_spec MAX_NESTING_DEPTH mx) as [Hlt|Hle]; [lia|apply IH; lia].
Qed.

(** What the guards let through. *)
Definition sql_bounded (sql : bytes) : Prop :=
  (length sql ≤ MAX_SQL_BYTES)%nat ∧ nesting_le MAX_NESTING_DEPTH 0 (visible Code sql).

Lemma check_query_limits_spec sql :
  ∃ r, check_query_limits sql = Some r ∧ (r = Ok tt ↔ sql_bounded sql) ∧
    ∀ e, r = Err e →
      (e = QueryTooLong (length sql) MAX_SQL_BYTES ∧ (MAX_SQL_BYTES < length sql)%nat) ∨
      (e = NestingTooDeep (S MAX_NESTING_DEPTH) MAX_NESTING_DEPTH ∧ (length sql ≤ MAX_SQL_BYTES)%nat).
Proof.
  unfold check_query_limits, sql_bounded. destruct (Nat.ltb_spec MAX_SQL_BYTES (length sql)) as [Hl|Hl].
  { eexists. split; [done|]. split; [|naive_solver]. split; [done|]. intros [? _]. lia. }
  rewrite scan_sql_spec by lia. eexists. split; [done|]. split.
  - rewrite check_parens_ok by (unfold MAX_NESTING_DEPTH; lia). naive_solver.
  - intros e He. right. split; [|done]. eapply check_parens_err; [| |exact He]; unfold MAX_NESTING_DEPTH; lia.
Qed.

(** C18: The scanner always terminates with an answer, and accepts a text
    exactly when it has at most 64 KiB and no prefix of the parentheses
    outside quotes and comments nests deeper than 20 levels; otherwise it
    reports the length, or the depth 21 at which it stopped. *)
Theorem query_limits_exact sql :
  ∃ r, check_query_limits sql = Some r ∧ (r = Ok tt ↔ sql_bounded sql) ∧
    ∀ e, r = Err e →
      (e = QueryTooLong (length sql) MAX_SQL_BYTES ∧ (MAX_SQL_BYTES < length sql)%nat) ∨
      (e = NestingTooDeep (S MAX_NESTING_DEPTH) MAX_NESTING_DEPTH ∧ (length sql ≤ MAX_SQL_BYTES)%nat).
Proof. apply check_query_limits_spec. Qed.

(** The parser runs only on texts within the bounds: replacing it by one that
    differs on other texts changes nothing. *)
Lemma parse_one_guarded {Statement} (p p' : bytes → Result bytes (list Statement)) sql :
  (∀ s, sql_bounded s → p s = p' s) → parse_one p sql = parse_one p' sql ∧ is_Some (parse_one p sql).
Proof.
  intros Hp. unfold parse_one. destruct (check_query_limits_spec (trim (trim_end_semicolons (trim sql)))) as (r&->&Hr&_).
  cbn. split; [|by eexists]. destruct r as [[]|e]; cbn; [|done]. by rewrite Hp by (by apply Hr).
Qed.

(** ** Text without space around it *)

Definition printable (b : byte) : Prop := 33 ≤ Z_of_byte b ≤ 127.

Lemma printable_not_space b : printable b → is_whitespace (Z_of_byte b) = false.
Proof. unfold printable. destruct b; cbn; try done; lia. Qed.
Lemma decode_printable b l : printable b → utf8_decode (b :: l) = cons (Z_of_byte b) <$> utf8_decode l.
Proof. unfold printable. intros Hb. cbn. destruct (Z.leb_spec (Z_of_byte b) 127); [done|lia]. Qed.

Lemma ws_len_printable l : Forall printable l → ws_len l = 0%nat.
Proof.
  destruct l as [|b0 [|b1 [|b2 l]]]; intros Hl; try done; repeat (apply list.Forall_cons in Hl as [? Hl]); unfold ws_len;
    rewrite printable_not_space by done; cbn [andb]; rewrite ?decode_printable by done; done.
Qed.
Lemma ws_len_rev_printable l : Forall printable l → ws_len_rev l = 0%nat.
Proof.
  destruct l as [|b0 [|b1 [|b2 l]]]; intros Hl; try done; repeat (apply list.Forall_cons in Hl as [? Hl]); unfold ws_len_rev;
    rewrite printable_not_space by done; cbn [andb]; rewrite ?decode_printable by done; done.
Qed.
Lemma trim_with_0 len fuel bs : len bs = 0%nat → trim_with len fuel bs = bs.
Proof. destruct fuel; cbn; [done|]. by intros ->. Qed.

Lemma trim_with_S len n fuel bs : len bs = S n → trim_with len (S fuel) bs = trim_with len fuel (drop (S n) bs).
Proof. cbn [trim_with]. by intros ->. Qed.

Lemma ws_len_line b l : printable b → Forall printable l → ws_len (b :: l ++ [nl]) = 0%nat.
Proof.
  intros Hb Hl. unfold ws_len. rewrite printable_not_space by done. cbn [andb]. destruct l as [|b1 l]; cbn [app].
  { by rewrite decode_printable by done. }
  apply list.Forall_cons in Hl as [Hb1 Hl].
  destruct l as [|b2 l]; cbn [app]; [by rewrite !decode_printable by done|].
  apply list.Forall_cons in Hl as [Hb2 _]. by rewrite !decode_printable by done.
Qed.

Lemma trim_line b l : printable b → Forall printable l → trim ((b :: l) ++ [nl]) = b :: l.
Proof.
  intros Hb Hl. unfold trim. rewrite (trim_with_0 ws_len) by (by apply ws_len_line).
  rewrite length_app, Nat.add_comm, rev_app_distr. cbn [length Nat.add rev app].
  rewrite (trim_with_S _ 0) by done. cbn [drop]. rewrite drop_0.
  rewrite (trim_with_0 ws_len_rev).
  - by rewrite (rev_app_distr (rev l) [b]), rev_involutive.
  - apply ws_len_rev_printable. apply Forall_app. split; [by apply Forall_rev|by constructor].
Qed.

Lemma trim_printable l : Forall printable l → trim l = l.
Proof.
  intros Hl. unfold trim. rewrite (trim_with_0 ws_len) by (by apply ws_len_printable).
  rewrite (trim_with_0 ws_len_rev) by (by apply ws_len_rev_printable, Forall_rev). apply rev_involutive.
Qed.
Lemma trim_with_length len fuel bs : (length (trim_with len fuel bs) ≤ length bs)%nat.
Proof.
  revert bs. induction fuel as [|fuel IH]; intros bs; cbn; [lia|]. destruct (len bs) as [|n] eqn:Hn; [lia|].
  etrans; [apply IH|]. rewrite length_drop. lia.
Qed.
Lemma trim_length bs : (length (trim bs) ≤ length bs)%nat.
Proof. unfold trim. rewrite length_rev. etrans; [apply trim_with_length|]. rewrite length_rev. apply trim_with_length. Qed.
Lemma printable_utf8 l : Forall printable l → utf8_valid l = true.
Proof.
  intros Hl. unfold utf8_valid. apply bool_decide_true. induction Hl as [|b l Hb _ [x IH]]; [by eexists|].
  rewrite decode_printable by done. rewrite IH. by eexists.
Qed.
Lemma printable_not_eol l : Forall printable l → nl ∉ l ∧ cr ∉ l.
Proof.
  intros Hl. rewrite list.Forall_forall in Hl. split; intros Hin%Hl; revert Hin; vm_compute; by intros [].
Qed.
