(* ===== verification/WalRecord.v ===== *)
(** * vledger-wal: records, record encryption and the segment reader

    Models [crates/vledger-wal/src/record.rs], [encrypt.rs] and [reader.rs]:
    the on-disk format of a write-ahead-log record, its optional AES-256-GCM
    envelope, and the reader that scans a segment and stops at the first torn
    or corrupt record.  The serializer, CRC-32, HKDF and AES-GCM are the
    parameters of [WalExt]. *)

From stdpp Require Import base gmap list strings option fin_maps pretty.
From Stdlib Require Import ZArith Lia.
From S2P Require Import Prelude Bytes Crypto.

(** ** Records *)

Inductive RecordType := RBegin | RData | RCommit | RRollback | RCheckpoint | RSchema | RSegmentHeader.

(** [record_type as u8] *)
Definition record_type_u8 (t : RecordType) : Z :=
  match t with
  | RBegin => 1 | RData => 2 | RCommit => 3 | RRollback => 4
  | RCheckpoint => 5 | RSchema => 6 | RSegmentHeader => 7
  end.

Record RecordHeader := mkHeader {
  h_magic : Z;
  h_version : Z;
  h_record_type : Z;
  h_tx_id : Z;
  h_sequence : Z;
  h_timestamp_ns : Z;
  h_payload_len : Z
}.

Definition HEADER_SIZE : nat := 34.

Record WalRecord := mkRecord {
  r_header : RecordHeader;
  r_payload : bytes;
  r_crc32 : Z
}.

Definition on_disk_size (r : WalRecord) : nat := HEADER_SIZE + length (r_payload r) + 4.

Record BeginPayload := mkBegin { bp_description : option string }.

Inductive MutationKind := Insert | Update | Delete.

#[global] Instance MutationKind_eq_dec : EqDecision MutationKind.
Proof. solve_decision. Defined.

Record DataPayload := mkData {
  dp_table_id : Z;
  dp_page_id : Z;
  dp_slot_id : Z;
  dp_mutation : MutationKind;
  dp_row_data : bytes;
  dp_row_hash : Hash;
  dp_prev_hash : option Hash
}.

Record CommitPayload := mkCommit {
  cp_record_count : Z;
  cp_tx_hash : Hash;
  cp_signature : bytes;
  cp_signer_pubkey : bytes
}.

Record CheckpointPayload := mkCheckpoint {
  ck_last_committed_sequence : Z;
  ck_page_merkle_root : Hash;
  ck_root_signature : bytes;
  ck_signer_pubkey : bytes
}.

Inductive WalError :=
  | WalIo
  | ChecksumMismatch (expected actual : Z)
  | BadMagic
  | UnsupportedVersion (v : Z)
  | TruncatedRecord (offset : Z) (needed available : nat)
  | UnknownRecordType (b : Z)
  | WalSerialization
  | SegmentFull (max_bytes : Z)
  | SegmentSealed
  | RecoveryFailed
  | TransactionNotFound (tx : Z)
  | Encryption
  | Decryption
  | SignatureInvalid (sequence : Z)
  | HeaderSizePanic.

Definition RecordType_try_from (v : Z) : Result WalError RecordType :=
  if v =? 1 then Ok RBegin else if v =? 2 then Ok RData else if v =? 3 then Ok RCommit
  else if v =? 4 then Ok RRollback else if v =? 5 then Ok RCheckpoint else if v =? 6 then Ok RSchema
  else if v =? 7 then Ok RSegmentHeader else Err (UnknownRecordType v).

Lemma record_type_roundtrip t : RecordType_try_from (record_type_u8 t) = Ok t.
Proof. by destruct t. Qed.

Definition WAL_MAGIC : Z := 0x56474442.
Definition ENCRYPTED_MAGIC : Z := 0x45574C52.
Definition WAL_VERSION : Z := 1.
Definition DEFAULT_SEGMENT_SIZE : Z := 64 * 1024 * 1024.
Definition MAX_RECORD_PAYLOAD : Z := 64 * 1024 * 1024.
Definition ENC_HEADER_SIZE : nat := 20.

Definition header_ok (h : RecordHeader) : Prop :=
  0 ≤ h_magic h < 2 ^ 32 ∧ 0 ≤ h_version h < 256 ∧ 0 ≤ h_record_type h < 256 ∧
  u64_ok (h_tx_id h) ∧ u64_ok (h_sequence h) ∧ i64_ok (h_timestamp_ns h) ∧ u32_ok (h_payload_len h).

(** The fields in order, fixed width, little endian: 34 bytes. *)
Definition header_fields (h : RecordHeader) : bytes :=
  le32 (h_magic h) ++ le_bytes 1 (h_version h) ++ le_bytes 1 (h_record_type h) ++
  le64 (h_tx_id h) ++ le64 (h_sequence h) ++ le64 (h_timestamp_ns h) ++ le32 (h_payload_len h).

Lemma header_fields_length h : length (header_fields h) = HEADER_SIZE.
Proof. unfold header_fields. rewrite !length_app. unfold le32, le64. by rewrite !le_bytes_length. Qed.

(** ** What the WAL calls *)

Class WalExt := {
  (* bincode with fixed-width little-endian integers *)
  header_codec :: Codec RecordHeader;
  begin_codec :: Codec BeginPayload;
  data_codec :: Codec DataPayload;
  commit_codec :: Codec CommitPayload;
  checkpoint_codec :: Codec CheckpointPayload;
  (* a struct is the concatenation of its fields *)
  header_layout : ∀ h, header_ok h → enc h = Some (header_fields h);
  (* crc32fast *)
  crc32 : bytes → Z;
  crc32_range : ∀ m, u32_ok (crc32 m);
  (* hkdf / sha2: key material, context *)
  hkdf_expand : bytes → bytes → option bytes;
  (* aes-gcm: key, nonce, associated data, message *)
  aead_encrypt : bytes → bytes → bytes → bytes → option bytes;
  aead_decrypt : bytes → bytes → bytes → bytes → option bytes;
  aead_correct : ∀ k n a m c, aead_encrypt k n a m = Some c → aead_decrypt k n a c = Some m;
  (* the ciphertext carries a 16-byte tag *)
  aead_length : ∀ k n a m c, aead_encrypt k n a m = Some c → length c = (length m + 16)%nat
}.

Section records.
Context `{WalExt}.

Definition compute_crc (header_bytes payload : bytes) : Z := crc32 (header_bytes ++ payload).

(** ** Record encryption *)

Definition encrypt_record (key nonce record_bytes : bytes) (segment_index : Z)
    : Result WalError bytes :=
  match aead_encrypt key nonce (le64 segment_index) record_bytes with
  | None => Err Encryption
  | Some ct => Ok (le32 ENCRYPTED_MAGIC ++ nonce ++ le32 (as_u32 (Z.of_nat (length ct))) ++ ct)
  end.

Definition decrypt_record (key blob : bytes) (segment_index : Z) : Result WalError bytes :=
  if (length blob <? ENC_HEADER_SIZE)%nat then Err Encryption
  else if negb (le_val (take 4 blob) =? ENCRYPTED_MAGIC) then Err Encryption
  else
    let nonce := take 12 (drop 4 blob) in
    let ct_len := Z.to_nat (le_val (take 4 (drop 16 blob))) in
    if (length blob <? ENC_HEADER_SIZE + ct_len)%nat then Err Encryption
    else
      match aead_decrypt key nonce (le64 segment_index) (take ct_len (drop 20 blob)) with
      | Some m => Ok m
      | None => Err Decryption
      end.

Definition is_encrypted (bs : bytes) : bool :=
  (4 <=? length bs)%nat && (le_val (take 4 bs) =? ENCRYPTED_MAGIC).

Definition segment_context (segment_index : Z) : string :=
  "vgdb/wal/segment/" +:+ pretty (Z.to_N segment_index).

Definition derive_segment_key (master_key : bytes) (segment_index : Z) : Result WalError bytes :=
  ok_or (hkdf_expand master_key (str_bytes (segment_context segment_index))) Encryption.

(** ** Reading a segment *)

Record SegmentReader := mkReader {
  sr_rest : bytes;          (* unread part of the file *)
  sr_byte_offset : Z;
  sr_last_sequence : Z;
  sr_done : bool;
  sr_segment_index : Z;
  sr_master_key : option bytes
}.

Definition SegmentReader_open (content : bytes) (idx : Z) (key : option bytes) : SegmentReader :=
  mkReader content 0 0 false idx key.

(** [read_exact_vec]: exactly [n] bytes, or the end of the file. *)
Definition read_exact (n : nat) (bs : bytes) : option (bytes * bytes) :=
  if (length bs <? n)%nat then None else Some (take n bs, drop n bs).

Definition eof (n : nat) : WalError := TruncatedRecord 0 n 0.

Definition stop (rd : SegmentReader) (rest : bytes) : SegmentReader :=
  mkReader rest (sr_byte_offset rd) (sr_last_sequence rd) true (sr_segment_index rd) (sr_master_key rd).

Definition advance (rd : SegmentReader) (rest : bytes) (size seq : Z) : SegmentReader :=
  mkReader rest (sr_byte_offset rd + size) seq (sr_done rd) (sr_segment_index rd) (sr_master_key rd).

Definition ReadItem := option (Result WalError WalRecord).

(** A decrypted record: header, payload, CRC; the offset has been advanced
    past the encrypted blob. *)
Definition parse_plaintext_record (rd : SegmentReader) (plaintext rest : bytes)
    : ReadItem * SegmentReader :=
  let fail e := (Some (Err e), stop rd rest) in
  if (length plaintext <? HEADER_SIZE + 4)%nat
  then fail (TruncatedRecord (sr_byte_offset rd) (HEADER_SIZE + 4) (length plaintext))
  else
    let header_bytes := take HEADER_SIZE plaintext in
    let crc_start := (length plaintext - 4)%nat in
    let payload := take (crc_start - HEADER_SIZE) (drop HEADER_SIZE plaintext) in
    let stored_crc := le_val (drop crc_start plaintext) in
    match dec header_bytes with
    | None => fail WalSerialization
    | Some header =>
        if negb (h_magic header =? WAL_MAGIC) then (None, stop rd rest)
        else if negb (h_version header =? WAL_VERSION) then fail (UnsupportedVersion (h_version header))
        else
          let computed := compute_crc header_bytes payload in
          if negb (computed =? stored_crc) then fail (ChecksumMismatch stored_crc computed)
          else (Some (Ok (mkRecord header payload stored_crc)),
                advance rd rest 0 (h_sequence header))
    end.

(** The encrypted branch of [next_record]; [magic_bytes] have been read. *)
Definition next_encrypted (rd : SegmentReader) (magic_bytes bs1 : bytes) : ReadItem * SegmentReader :=
  let fail e rest := (Some (Err e), stop rd rest) in
  match read_exact 16 bs1 with
  | None => fail (eof 16) []
  | Some (rest_header, bs2) =>
      let ct_len := le_val (drop 12 rest_header) in
      if MAX_RECORD_PAYLOAD <? ct_len
      then fail (TruncatedRecord (sr_byte_offset rd) (Z.to_nat ct_len) 0) bs2
      else
        match read_exact (Z.to_nat ct_len) bs2 with
        | None => fail (eof (Z.to_nat ct_len)) []
        | Some (ciphertext, bs3) =>
            let blob := magic_bytes ++ rest_header ++ ciphertext in
            match sr_master_key rd with
            | None => fail Decryption bs3
            | Some master_key =>
                match derive_segment_key master_key (sr_segment_index rd) with
                | Err e => fail e bs3
                | Ok seg_key =>
                    match decrypt_record seg_key blob (sr_segment_index rd) with
                    | Err e => fail e bs3
                    | Ok plaintext =>
                        parse_plaintext_record
                          (advance rd bs3 (Z.of_nat (length blob)) (sr_last_sequence rd)) plaintext bs3
                    end
                end
            end
        end
  end.

(** The plaintext branch. *)
Definition next_plaintext (rd : SegmentReader) (magic_bytes bs1 : bytes) : ReadItem * SegmentReader :=
  let fail e rest := (Some (Err e), stop rd rest) in
  match read_exact (HEADER_SIZE - 4) bs1 with
  | None => fail (eof (HEADER_SIZE - 4)) []
  | Some (remaining_header, bs2) =>
      let header_bytes := magic_bytes ++ remaining_header in
      match dec header_bytes with
      | None => fail WalSerialization bs2
      | Some header =>
          if negb (h_version header =? WAL_VERSION)
          then fail (UnsupportedVersion (h_version header)) bs2
          else if MAX_RECORD_PAYLOAD <? h_payload_len header
          then fail (TruncatedRecord (sr_byte_offset rd) (Z.to_nat (h_payload_len header)) 0) bs2
          else
            match read_exact (Z.to_nat (h_payload_len header)) bs2 with
            | None => fail (eof (Z.to_nat (h_payload_len header))) []
            | Some (payload, bs3) =>
                match read_exact 4 bs3 with
                | None => fail (eof 4) []
                | Some (crc_bytes, bs4) =>
                    let stored_crc := le_val crc_bytes in
                    let computed := compute_crc header_bytes payload in
                    if negb (computed =? stored_crc)
                    then fail (ChecksumMismatch stored_crc computed) bs4
                    else (Some (Ok (mkRecord header payload stored_crc)),
                          advance rd bs4 (Z.of_nat (HEADER_SIZE + length payload + 4))
                            (h_sequence header))
                end
            end
      end
  end.

Definition next_record (rd : SegmentReader) : ReadItem * SegmentReader :=
  if sr_done rd then (None, rd)
  else
    match read_exact 4 (sr_rest rd) with
    | None => (None, stop rd [])
    | Some (magic_bytes, bs1) =>
        let magic := le_val magic_bytes in
        if magic =? ENCRYPTED_MAGIC then next_encrypted rd magic_bytes bs1
        else if negb (magic =? WAL_MAGIC) then (None, stop rd bs1)
        else next_plaintext rd magic_bytes bs1
    end.

(** All items a segment yields: the iteration ends with [None].  Every record
    takes at least four bytes, so [length content] rounds are enough. *)
Fixpoint drain (fuel : nat) (rd : SegmentReader) : list (Result WalError WalRecord) :=
  match fuel with
  | O => []
  | S fuel =>
      match next_record rd with
      | (None, _) => []
      | (Some item, rd') => item :: drain fuel rd'
      end
  end.

Definition segment_items (key : option bytes) (idx : Z) (content : bytes)
    : list (Result WalError WalRecord) :=
  drain (S (length content)) (SegmentReader_open content idx key).

(** ** Round trips *)

Definition encode_record (r : WalRecord) : bytes :=
  header_fields (r_header r) ++ r_payload r ++ le32 (r_crc32 r).

(** A record as the writer builds it. *)
Definition record_ok (r : WalRecord) : Prop :=
  header_ok (r_header r) ∧ h_magic (r_header r) = WAL_MAGIC ∧ h_version (r_header r) = WAL_VERSION ∧
  h_payload_len (r_header r) = Z.of_nat (length (r_payload r)) ∧
  Z.of_nat (length (r_payload r)) ≤ MAX_RECORD_PAYLOAD ∧
  r_crc32 r = compute_crc (header_fields (r_header r)) (r_payload r).

Lemma dec_header_fields h : header_ok h → dec (header_fields h) = Some h.
Proof. intros Hh. by apply dec_enc', header_layout. Qed.

Lemma header_magic_bytes h :
  header_ok h → ∃ rest, header_fields h = le32 (h_magic h) ++ rest ∧ length rest = 30%nat.
Proof.
  intros Hh. eexists. split; [unfold header_fields; reflexivity|].
  rewrite !length_app. unfold le64, le32. by rewrite !le_bytes_length.
Qed.

Lemma read_exact_app n a b : length a = n → read_exact n (a ++ b) = Some (a, b).
Proof.
  intros <-. unfold read_exact. rewrite length_app.
  destruct (Nat.ltb_spec (length a + length b) (length a)); [lia|].
  by rewrite take_app_length, drop_app_length.
Qed.

Lemma read_exact_short n a : (length a < n)%nat → read_exact n a = None.
Proof. intros. unfold read_exact. by destruct (Nat.ltb_spec (length a) n); [|lia]. Qed.

Lemma le_val_le32 z : u32_ok z → le_val (le32 z) = z.
Proof. intros Hz. unfold le32. rewrite le_val_bytes. apply Z.mod_small. exact Hz. Qed.

Lemma record_crc_ok r : record_ok r → u32_ok (r_crc32 r).
Proof. intros (_&_&_&_&_&->). apply crc32_range. Qed.

Lemma next_record_plain rd r rest :
  sr_done rd = false → record_ok r → sr_rest rd = encode_record r ++ rest →
  next_record rd = (Some (Ok r), advance rd rest (Z.of_nat (on_disk_size r)) (h_sequence (r_header r))).
Proof.
  intros Hd Hr Hrest. pose proof (record_crc_ok r Hr) as Hcrc.
  destruct Hr as (Hh & Hm & Hv & Hl & Hmax & Hc).
  destruct (header_magic_bytes _ Hh) as (hrest & Hf & Hlen).
  unfold next_record. rewrite Hd, Hrest. unfold encode_record. rewrite Hf, <- !app_assoc.
  rewrite read_exact_app by apply le_bytes_length.
  rewrite le_val_le32 by (destruct Hh; done). rewrite Hm.
  change (WAL_MAGIC =? ENCRYPTED_MAGIC) with false. change (WAL_MAGIC =? WAL_MAGIC) with true.
  cbn [negb]. unfold next_plaintext. rewrite read_exact_app by done.
  rewrite <- Hm, <- Hf, dec_header_fields by done. rewrite Hv, Z.eqb_refl. cbn [negb].
  rewrite Hl. destruct (Z.ltb_spec MAX_RECORD_PAYLOAD (Z.of_nat (length (r_payload r)))); [lia|].
  rewrite Nat2Z.id, read_exact_app by done.
  rewrite read_exact_app by apply le_bytes_length.
  rewrite le_val_le32, Hc, Z.eqb_refl by done. cbn [negb]. destruct r; cbn in *. by subst.
Qed.

(** The tail of a plaintext record cut anywhere: no record is produced. *)
Definition torn (e : WalError) : Prop :=
  match e with TruncatedRecord _ _ _ => True | _ => False end.

Lemma next_record_torn rd r p q :
  sr_done rd = false → record_ok r → encode_record r = p ++ q → q ≠ [] → sr_rest rd = p →
  ∃ rd', sr_done rd' = true ∧
    (next_record rd = (None, rd') ∨ ∃ e, torn e ∧ next_record rd = (Some (Err e), rd')).
Proof.
  intros Hd (Hh & Hm & Hv & Hl & Hmax & Hc) He Hq Hrest.
  destruct (header_magic_bytes _ Hh) as (hrest & Hf & Hlen).
  assert (Hlq : (0 < length q)%nat) by (destruct q; cbn; [done|lia]).
  assert (Htot : (length p + length q = 34 + length (r_payload r) + 4)%nat).
  { rewrite <- length_app, <- He. unfold encode_record. rewrite !length_app, header_fields_length.
    unfold le32. rewrite le_bytes_length. unfold HEADER_SIZE. lia. }
  unfold next_record. rewrite Hd, Hrest.
  destruct (decide (length p < 4)%nat) as [H4|H4].
  { rewrite read_exact_short by done. eexists. split; [|by left]. done. }
  unfold encode_record in He. rewrite Hf, <- !app_assoc in He.
  apply app_split in He as (p1 & -> & He1); [|unfold le32; rewrite le_bytes_length; lia].
  rewrite read_exact_app by apply le_bytes_length.
  rewrite le_val_le32 by (destruct Hh; done). rewrite Hm.
  change (WAL_MAGIC =? ENCRYPTED_MAGIC) with false. change (WAL_MAGIC =? WAL_MAGIC) with true.
  cbn [negb]. unfold next_plaintext. rewrite length_app in *.
  change (length (le32 (h_magic (r_header r)))) with 4%nat in *.
  destruct (decide (length p1 < 30)%nat) as [H30|H30].
  { rewrite read_exact_short by done. eexists. split; [|right; eexists; split; [|reflexivity]]; done. }
  apply app_split in He1 as (p2 & -> & He2); [|lia].
  rewrite read_exact_app by done.
  rewrite <- Hm, <- Hf, dec_header_fields by done. rewrite Hv, Z.eqb_refl. cbn [negb].
  rewrite Hl. destruct (Z.ltb_spec MAX_RECORD_PAYLOAD (Z.of_nat (length (r_payload r)))); [lia|].
  rewrite Nat2Z.id. destruct (decide (length p2 < length (r_payload r))%nat) as [Hpl|Hpl].
  { rewrite read_exact_short by done. eexists. split; [|right; eexists; split; [|reflexivity]]; done. }
  apply app_split in He2 as (p3 & -> & He3); [|lia].
  assert (H3 : (length p3 < 4)%nat) by (rewrite !length_app in *; lia).
  rewrite read_exact_app by done. rewrite (read_exact_short 4) by done.
  eexists. split; [|right; eexists; split; [|reflexivity]]; done.
Qed.

(** A decrypted blob that holds exactly one encoded record parses to it. *)
Lemma parse_plaintext_ok rd r rest :
  record_ok r →
  parse_plaintext_record rd (encode_record r) rest =
  (Some (Ok r), advance rd rest 0 (h_sequence (r_header r))).
Proof.
  intros Hr. pose proof (record_crc_ok r Hr) as Hcrc. destruct Hr as (Hh & Hm & Hv & _ & _ & Hc).
  assert (Hlen : length (encode_record r) = (HEADER_SIZE + (length (r_payload r) + 4))%nat).
  { unfold encode_record. rewrite !length_app, header_fields_length.
    unfold le32. by rewrite le_bytes_length. }
  unfold parse_plaintext_record. rewrite Hlen.
  destruct (Nat.ltb_spec (HEADER_SIZE + (length (r_payload r) + 4)) (HEADER_SIZE + 4)); [lia|].
  replace (HEADER_SIZE + (length (r_payload r) + 4) - 4)%nat
    with (HEADER_SIZE + length (r_payload r))%nat by lia.
  unfold encode_record. rewrite <- drop_drop.
  rewrite take_app_length', !drop_app_length' by (by rewrite ?header_fields_length).
  replace (HEADER_SIZE + length (r_payload r) - HEADER_SIZE)%nat with (length (r_payload r)) by lia.
  rewrite take_app_length, dec_header_fields by done. rewrite Hm, Hv. cbn [negb Z.eqb].
  rewrite !Z.eqb_refl. cbn [negb]. rewrite le_val_le32, Hc, Z.eqb_refl by done.
  cbn [negb]. destruct r; cbn in *. by subst.
Qed.

Lemma decrypt_encrypt key nonce m idx blob :
  length nonce = 12%nat → encrypt_record key nonce m idx = Ok blob →
  Z.of_nat (length blob) < 2 ^ 32 → decrypt_record key blob idx = Ok m.
Proof.
  unfold encrypt_record. intros Hn He Hlen.
  destruct (aead_encrypt key nonce (le64 idx) m) as [ct|] eqn:Ha; [|done]. apply Ok_inj in He. subst blob.
  rewrite !length_app in Hlen. unfold decrypt_record.
  assert (Hl : length (le32 ENCRYPTED_MAGIC ++ nonce ++ le32 (as_u32 (Z.of_nat (length ct))) ++ ct) =
               (20 + length ct)%nat).
  { rewrite !length_app, Hn. unfold le32. by rewrite !le_bytes_length. }
  rewrite Hl. change ENC_HEADER_SIZE with 20%nat.
  destruct (Nat.ltb_spec (20 + length ct) 20); [lia|].
  rewrite take_app_length', le_val_le32 by done.
  rewrite Z.eqb_refl; cbn [negb].
  change 20%nat with (4 + (12 + 4))%nat. change 16%nat with (4 + 12)%nat.
  rewrite <- !drop_drop. rewrite !drop_app_length' by (done || congruence).
  rewrite !take_app_length' by (done || congruence).
  unfold as_u32. rewrite Z.mod_small by lia.
  rewrite le_val_le32, Nat2Z.id by (unfold u32_ok; lia).
  destruct (Nat.ltb_spec (4 + (12 + 4) + length ct) (4 + (12 + 4) + length ct)); [lia|].
  rewrite firstn_all. by rewrite (aead_correct _ _ _ _ _ Ha).
Qed.

Lemma next_record_enc rd r rest master_key seg_key nonce blob :
  sr_done rd = false → record_ok r → sr_rest rd = blob ++ rest →
  sr_master_key rd = Some master_key → derive_segment_key master_key (sr_segment_index rd) = Ok seg_key →
  length nonce = 12%nat → encrypt_record seg_key nonce (encode_record r) (sr_segment_index rd) = Ok blob →
  Z.of_nat (length blob) ≤ MAX_RECORD_PAYLOAD + 20 →
  next_record rd = (Some (Ok r), advance rd rest (Z.of_nat (length blob)) (h_sequence (r_header r))).
Proof.
  intros Hd Hr Hrest Hk Hsk Hn He Hlen.
  assert (Hdec := decrypt_encrypt _ _ _ _ _ Hn He ltac:(unfold MAX_RECORD_PAYLOAD in Hlen; lia)).
  unfold encrypt_record in He.
  destruct (aead_encrypt seg_key nonce _ _) as [ct|] eqn:Ha; [|done]. apply Ok_inj in He as Hb.
  assert (Hct : Z.of_nat (length ct) ≤ MAX_RECORD_PAYLOAD).
  { rewrite <- Hb, !length_app in Hlen. unfold le32 in Hlen. rewrite !le_bytes_length in Hlen. lia. }
  assert (Hu : as_u32 (Z.of_nat (length ct)) = Z.of_nat (length ct)).
  { unfold as_u32. apply Z.mod_small. unfold MAX_RECORD_PAYLOAD in Hct. lia. }
  unfold next_record. rewrite Hd, Hrest, <- Hb, <- !app_assoc.
  rewrite read_exact_app by apply le_bytes_length. rewrite le_val_le32, Z.eqb_refl by done.
  unfold next_encrypted. rewrite (app_assoc nonce).
  rewrite (read_exact_app 16) by (rewrite length_app, Hn; reflexivity).
  rewrite drop_app_length', Hu, le_val_le32
    by (done || (unfold u32_ok; unfold MAX_RECORD_PAYLOAD in Hct; lia)).
  destruct (Z.ltb_spec MAX_RECORD_PAYLOAD (Z.of_nat (length ct))); [lia|].
  rewrite Nat2Z.id, read_exact_app by done. rewrite Hk, Hsk, <- app_assoc.
  rewrite Hu in Hb. rewrite Hb, Hdec, parse_plaintext_ok by done.
  unfold advance; cbn. by rewrite Z.add_0_r.
Qed.

(** The bytes one record occupies in segment [idx], written in the clear or
    under the segment key derived from the reader's master key. *)
Inductive stored (key : option bytes) (idx : Z) (r : WalRecord) : bytes → Prop :=
  | stored_plain : stored key idx r (encode_record r)
  | stored_enc master_key seg_key nonce blob :
      key = Some master_key → derive_segment_key master_key idx = Ok seg_key →
      length nonce = 12%nat → encrypt_record seg_key nonce (encode_record r) idx = Ok blob →
      Z.of_nat (length blob) ≤ MAX_RECORD_PAYLOAD + 20 → stored key idx r blob.

Lemma stored_length key idx r c : stored key idx r c → (4 ≤ length c)%nat.
Proof.
  destruct 1 as [|??? blob ??? He ?].
  - unfold encode_record. rewrite length_app, header_fields_length. unfold HEADER_SIZE. lia.
  - unfold encrypt_record in He. destruct (aead_encrypt _ _ _ _); [|done]. apply Ok_inj in He. subst blob.
    rewrite length_app. unfold le32. rewrite le_bytes_length. lia.
Qed.

Lemma next_record_stored rd r c rest :
  sr_done rd = false → record_ok r → stored (sr_master_key rd) (sr_segment_index rd) r c →
  sr_rest rd = c ++ rest →
  ∃ rd', next_record rd = (Some (Ok r), rd') ∧ sr_done rd' = false ∧ sr_rest rd' = rest ∧
         sr_master_key rd' = sr_master_key rd ∧ sr_segment_index rd' = sr_segment_index rd.
Proof.
  intros Hd Hr Hs Hrest. destruct Hs.
  - eexists. split; [by apply next_record_plain|]. done.
  - eexists. split; [by eapply next_record_enc|]. done.
Qed.

Lemma drain_stored rd rs cs tail fuel :
  sr_done rd = false → Forall record_ok rs →
  Forall2 (stored (sr_master_key rd) (sr_segment_index rd)) rs cs →
  sr_rest rd = concat cs ++ tail → (length rs ≤ fuel)%nat →
  ∃ rd', drain fuel rd = map Ok rs ++ drain (fuel - length rs) rd' ∧
         sr_done rd' = false ∧ sr_rest rd' = tail ∧
         sr_master_key rd' = sr_master_key rd ∧ sr_segment_index rd' = sr_segment_index rd.
Proof.
  intros Hd Hok Hst. revert rd fuel Hd Hst. revert cs.
  induction Hok as [|r rs Hr Hok IH]; intros cs rd fuel Hd Hst Hrest Hf.
  { inversion Hst; subst. exists rd. by rewrite Nat.sub_0_r. }
  inversion Hst as [|? c ? cs' Hc Hst']; subst. cbn in Hrest. rewrite <- app_assoc in Hrest.
  destruct (next_record_stored rd r c _ Hd Hr Hc Hrest) as (rd1 & Hn & Hd1 & Hr1 & Hk1 & Hi1).
  destruct fuel as [|fuel]; [cbn in Hf; lia|]. cbn [drain length]. rewrite Hn.
  destruct (IH cs' rd1 fuel) as (rd' & Hdr & ?&?&?&?); [done|by rewrite Hk1, Hi1|done|cbn in Hf; lia|].
  exists rd'. rewrite Hdr. split_and!; [done|congruence..].
Qed.

Lemma drain_done fuel rd : sr_done rd = true → drain fuel rd = [].
Proof. intros Hd. destruct fuel; cbn; [done|]. unfold next_record. by rewrite Hd. Qed.

Lemma stored_count key idx rs cs :
  Forall2 (stored key idx) rs cs → (4 * length rs ≤ length (concat cs))%nat.
Proof.
  induction 1 as [|r c rs cs Hs _ IH]; cbn [length concat]; [lia|].
  rewrite length_app. apply stored_length in Hs. lia.
Qed.

(** C23: reading a segment file returns exactly the records written to it, in
    order and without error, whether each was written in the clear or under
    the segment key (a segment may mix both), and whatever their sequence
    numbers are: the reader does not compare them.  If the file ends in a torn
    plaintext record, cut at any byte, the complete records are still
    returned, followed by nothing or by one truncation error. *)
Theorem segment_items_roundtrip key idx rs cs r p q :
  Forall record_ok rs → Forall2 (stored key idx) rs cs →
  segment_items key idx (concat cs) = map Ok rs ∧
  (record_ok r → encode_record r = p ++ q → q ≠ [] →
   segment_items key idx (concat cs ++ p) = map Ok rs ∨
   ∃ e, torn e ∧ segment_items key idx (concat cs ++ p) = map Ok rs ++ [Err e]).
Proof.
  intros Hok Hst. pose proof (stored_count _ _ _ _ Hst) as Hcnt. split.
  - unfold segment_items.
    destruct (drain_stored (SegmentReader_open (concat cs) idx key) rs cs [] (S (length (concat cs))))
      as (rd' & -> & Hd & Hr & _); [done..|by rewrite app_nil_r|lia|].
    destruct (S (length (concat cs)) - length rs)%nat; cbn [drain]; [by rewrite app_nil_r|].
    unfold next_record. rewrite Hd, Hr. cbn. by rewrite app_nil_r.
  - intros Hr He Hq. unfold segment_items.
    destruct (drain_stored (SegmentReader_open (concat cs ++ p) idx key) rs cs p
                (S (length (concat cs ++ p)))) as (rd' & -> & Hd & Hrest & _);
      [done..|rewrite length_app; lia|].
    destruct (S (length (concat cs ++ p)) - length rs)%nat as [|fuel] eqn:Hfu;
      [rewrite length_app in Hfu; lia|].
    destruct (next_record_torn rd' r p q Hd Hr He Hq Hrest) as (rd2 & Hd2 & [Hn|(e & Ht & Hn)]);
      cbn [drain]; rewrite Hn.
    + left. by rewrite app_nil_r.
    + right. exists e. by rewrite drain_done.
Qed.

(** ** Termination *)

Lemma read_exact_length n bs x rest : read_exact n bs = Some (x, rest) → length bs = (n + length rest)%nat.
Proof. unfold read_exact. destruct (Nat.ltb_spec (length bs) n); [done|]. intros [= <- <-]. rewrite length_drop. lia. Qed.

(** A call that returns an item either returns an error and stops the reader, or
    a record for which at least four bytes were taken. *)
Definition makes_progress (rd : SegmentReader) (out : ReadItem * SegmentReader) : Prop :=
  match out with
  | (None, _) => True
  | (Some (Err _), rd') => sr_done rd' = true
  | (Some (Ok _), rd') => (4 + length (sr_rest rd') ≤ length (sr_rest rd))%nat
  end.

Lemma progress_plaintext_record rd rd0 pt rest :
  (4 + length rest ≤ length (sr_rest rd))%nat → makes_progress rd (parse_plaintext_record rd0 pt rest).
Proof. intros Hl. unfold parse_plaintext_record. repeat (case_match; try done). Qed.
Lemma progress_encrypted rd magic bs1 :
  length (sr_rest rd) = (4 + length bs1)%nat → makes_progress rd (next_encrypted rd magic bs1).
Proof.
  intros Hl. unfold next_encrypted. destruct (read_exact 16 bs1) as [[h bs2]|] eqn:H1; [|done]. apply read_exact_length in H1.
  destruct (MAX_RECORD_PAYLOAD <? _); [done|]. destruct (read_exact _ bs2) as [[ct bs3]|] eqn:H2; [|done]. apply read_exact_length in H2.
  destruct (sr_master_key rd); [|done]. destruct (derive_segment_key _ _); [|done]. destruct (decrypt_record _ _ _); [|done].
  apply progress_plaintext_record. lia.
Qed.
Lemma progress_plaintext rd magic bs1 :
  length (sr_rest rd) = (4 + length bs1)%nat → makes_progress rd (next_plaintext rd magic bs1).
Proof.
  intros Hl. unfold next_plaintext. destruct (read_exact _ bs1) as [[h bs2]|] eqn:H1; [|done]. apply read_exact_length in H1.
  destruct (dec _) as [hd|]; [|done]. destruct (negb _); [done|]. destruct (MAX_RECORD_PAYLOAD <? _); [done|].
  destruct (read_exact _ bs2) as [[pl bs3]|] eqn:H2; [|done]. apply read_exact_length in H2.
  destruct (read_exact 4 bs3) as [[cb bs4]|] eqn:H3; [|done]. apply read_exact_length in H3.
  destruct (negb _); [done|]. cbn. lia.
Qed.
Lemma next_record_progress rd : makes_progress rd (next_record rd).
Proof.
  unfold next_record. destruct (sr_done rd); [done|]. destruct (read_exact 4 (sr_rest rd)) as [[m bs1]|] eqn:H1; [|done].
  apply read_exact_length in H1. destruct (_ =? ENCRYPTED_MAGIC); [by apply progress_encrypted|].
  destruct (negb _); [done|by apply progress_plaintext].
Qed.

(** The iteration [while let Some(item) = reader.next_record()]: it yields the
    items and then ends. *)
Inductive reads : SegmentReader → list (Result WalError WalRecord) → Prop :=
  | Reads_end rd rd' : next_record rd = (None, rd') → reads rd []
  | Reads_item rd item rd' items : next_record rd = (Some item, rd') → reads rd' items → reads rd (item :: items).

(** Records, then at most one error. *)
Definition error_last (items : list (Result WalError WalRecord)) : Prop :=
  ∃ rs, items = map Ok rs ∨ ∃ e, items = map Ok rs ++ [Err e].

Lemma drain_reads n : ∀ rd, (length (sr_rest rd) < n)%nat →
  reads rd (drain n rd) ∧ (4 * length (drain n rd) ≤ length (sr_rest rd) + 4)%nat ∧ error_last (drain n rd).
Proof.
  induction n as [|n IH]; intros rd Hn; [lia|]. cbn [drain]. pose proof (next_record_progress rd) as Hp.
  destruct (next_record rd) as [[[r|e]|] rd'] eqn:Hr; cbn in Hp.
  - destruct (IH rd' ltac:(lia)) as (Hd & Hl & rs & He). split_and!.
    + by econstructor.
    + cbn [length]. lia.
    + exists (r :: rs). destruct He as [->|[e ->]]; [by left|right; by exists e].
  - rewrite drain_done by done. split_and!.
    + econstructor; [done|]. apply (Reads_end _ rd'). unfold next_record. by rewrite Hp.
    + cbn. lia.
    + exists []. right. by exists e.
  - split_and!; [by econstructor|cbn; lia|]. exists []. by left.
Qed.

(** Reading a segment ends, on any bytes, under any key: the iteration over
    the reader yields finitely many items and then ends; they are records
    followed by at most one error, and there are at most one more than a quarter
    of the file's bytes, so no file makes recovery loop. *)
Theorem reader_terminates key idx content :
  let items := segment_items key idx content in
  reads (SegmentReader_open content idx key) items ∧ error_last items ∧ (4 * length items ≤ length content + 4)%nat.
Proof.
  unfold segment_items. destruct (drain_reads (S (length content)) (SegmentReader_open content idx key)) as (Hr & Hl & He); [cbn; lia|].
  done.
Qed.
End records.
