(* ===== verification/Wal.v ===== *)
(** * vledger-wal: the writer and the multi-segment reader

    Models [crates/vledger-wal/src/segment.rs], [writer.rs] and the
    cross-segment part of [reader.rs].  The WAL directory is a finite map from
    segment index to file contents (the file name is a bijective rendering of
    the index).  A failing [write_all] may leave any prefix of its data in the
    file; the prefix length is drawn from the environment. *)

From stdpp Require Import base gmap list strings option fin_maps sorting.
From Stdlib Require Import ZArith Lia.
From S2P Require Import Prelude Bytes Crypto WalRecord.

(** ** Signatures (ed25519-dalek, behind [DbSigningKey]) *)

Class Ed25519 := {
  SigningKey : Type;
  ed_sign : SigningKey → bytes → bytes;
  ed_public : SigningKey → bytes;
  ed_key_valid : bytes → bool;               (* [VerifyingKey::from_bytes] succeeds *)
  ed_verify : bytes → bytes → bytes → bool;  (* public key, message, signature *)
  ed_correct : ∀ sk m, ed_verify (ed_public sk) m (ed_sign sk m) = true;
  ed_public_valid : ∀ sk, ed_key_valid (ed_public sk) = true;
  ed_sign_length : ∀ sk m, length (ed_sign sk m) = 64%nat;
  ed_public_length : ∀ sk, length (ed_public sk) = 32%nat
}.

(** ** Segments *)

Record Segment := mkSegment {
  seg_index : Z;
  seg_sealed : bool;
  seg_write_offset : Z;
  seg_max_size : Z
}.

Definition Segment_create (index max_size : Z) : Segment := mkSegment index false 0 max_size.

Definition Segment_open (content : bytes) (index max_size : Z) (sealed : bool) : Segment :=
  mkSegment index sealed (Z.of_nat (length content)) max_size.

Definition has_space (s : Segment) (needed : nat) : bool :=
  negb (seg_sealed s) && (seg_write_offset s + Z.of_nat needed <=? seg_max_size s).

(** [list_segments]: the indices present, ascending. *)
Definition list_segments (dir : gmap Z bytes) : list Z := sorted_keys dir.

(** ** The writer *)

(** The modes of a release build; [NoSync] exists only under a development
    feature. *)
Inductive WalSyncMode := PerRecord | GroupCommit.

#[global] Instance WalSyncMode_eq_dec : EqDecision WalSyncMode.
Proof. solve_decision. Defined.

Record WalWriter := mkWriter {
  ww_dir : gmap Z bytes;
  ww_active : Segment;
  ww_sequence : Z;
  ww_segment_max_size : Z;
  ww_next_segment_index : Z;
  ww_sync_mode : WalSyncMode;
  ww_dirty : option bool;           (* [flush_state]: present in group-commit mode *)
  ww_encryption_key : option bytes
}.

Definition ww_set_dir d w := mkWriter d (ww_active w) (ww_sequence w) (ww_segment_max_size w)
  (ww_next_segment_index w) (ww_sync_mode w) (ww_dirty w) (ww_encryption_key w).
Definition ww_set_active s w := mkWriter (ww_dir w) s (ww_sequence w) (ww_segment_max_size w)
  (ww_next_segment_index w) (ww_sync_mode w) (ww_dirty w) (ww_encryption_key w).
Definition ww_set_sequence n w := mkWriter (ww_dir w) (ww_active w) n (ww_segment_max_size w)
  (ww_next_segment_index w) (ww_sync_mode w) (ww_dirty w) (ww_encryption_key w).
Definition ww_set_next n w := mkWriter (ww_dir w) (ww_active w) (ww_sequence w)
  (ww_segment_max_size w) n (ww_sync_mode w) (ww_dirty w) (ww_encryption_key w).
Definition ww_set_dirty b w := mkWriter (ww_dir w) (ww_active w) (ww_sequence w)
  (ww_segment_max_size w) (ww_next_segment_index w) (ww_sync_mode w) b (ww_encryption_key w).

Definition seg_set_sealed b s := mkSegment (seg_index s) b (seg_write_offset s) (seg_max_size s).
Definition seg_add_offset n s :=
  mkSegment (seg_index s) (seg_sealed s) (seg_write_offset s + Z.of_nat n) (seg_max_size s).

Notation WM := (M WalWriter WalError).

Section writer.
Context `{Ed25519} `{WalExt}.


(** Append bytes to the file of the active segment. *)
Definition append_file (data : bytes) (w : WalWriter) : WalWriter :=
  let i := seg_index (ww_active w) in
  ww_set_dir (<[i := default [] (ww_dir w !! i) ++ data]> (ww_dir w)) w.

(** [file.write_all(data)]: on failure a prefix of the data may be in the
    file. *)
Definition write_all (data : bytes) : WM unit :=
  r ← attempt (io WalIo);
  match r with
  | Ok _ => modify (append_file data)
  | Err e =>
      n ← rand;
      _ ← modify (append_file (take (Z.to_nat (n mod (Z.of_nat (length data) + 1))) data));
      throw e
  end.

(** [file.sync_all()] *)
Definition sync_all : WM unit := io WalIo.

(** Seal the active segment and create the next one; [create_new] fails when
    the file exists. *)
Definition roll_segment : WM unit :=
  _ ← sync_all;
  _ ← modify (λ w, ww_set_active (seg_set_sealed true (ww_active w)) w);
  idx ← gets ww_next_segment_index;
  _ ← io WalIo;
  exists_ ← gets (λ w, bool_decide (is_Some (ww_dir w !! idx)));
  if exists_ : bool then throw WalIo
  else
    modify (λ w, ww_set_next (wadd_u64 idx 1)
      (ww_set_active (Segment_create idx (ww_segment_max_size w))
        (ww_set_dir (<[idx := []]> (ww_dir w)) w))).

Definition add_offset (n : nat) : WM unit :=
  modify (λ w, ww_set_active (seg_add_offset n (ww_active w)) w).

Definition ensure_space (needed : nat) : WM unit :=
  sp ← gets (λ w, has_space (ww_active w) needed);
  if sp : bool then mret tt else roll_segment.

(** A 12-byte nonce from the random generator. *)
Definition gen_nonce : WM bytes := r ← rand; mret (le_bytes 12 r).

Definition seal_blob (master_key plaintext : bytes) : WM bytes :=
  idx ← gets (λ w, seg_index (ww_active w));
  seg_key ← liftR (derive_segment_key master_key idx);
  nonce ← gen_nonce;
  liftR (encrypt_record seg_key nonce plaintext idx).

(** The encrypted branch of [append]. *)
Definition append_encrypted (master_key plaintext : bytes) : WM unit :=
  blob ← seal_blob master_key plaintext;
  sp ← gets (λ w, has_space (ww_active w) (length blob));
  if sp : bool then
    _ ← write_all blob; add_offset (length blob)
  else
    _ ← roll_segment;
    blob2 ← seal_blob master_key plaintext;
    _ ← write_all blob2; add_offset (length blob2).

(** The plaintext branch. *)
Definition append_plain (header_bytes payload : bytes) (crc : Z) : WM unit :=
  let record_size := (length header_bytes + length payload + 4)%nat in
  _ ← ensure_space record_size;
  _ ← write_all header_bytes;
  _ ← write_all payload;
  _ ← write_all (le32 crc);
  add_offset record_size.

(** The sync step after the write. *)
Definition after_write : WM unit :=
  mode ← gets ww_sync_mode;
  match mode with
  | PerRecord => sync_all
  | GroupCommit => modify (λ w, ww_set_dirty (match ww_dirty w with Some _ => Some true | None => None end) w)
  end.

Definition append (tx_id : Z) (record_type : RecordType) (payload : bytes) : WM WalRecord :=
  old ← gets ww_sequence;
  _ ← modify (λ w, ww_set_sequence (wadd_u64 old 1) w);
  let seq := wadd_u64 old 1 in
  ts ← now;
  let header := mkHeader WAL_MAGIC WAL_VERSION (record_type_u8 record_type) tx_id seq
                  (as_i64 ts) (as_u32 (Z.of_nat (length payload))) in
  header_bytes ← liftR (ok_or (enc header) WalSerialization);
  if negb (length header_bytes =? HEADER_SIZE)%nat then throw HeaderSizePanic
  else
    let crc := compute_crc header_bytes payload in
    key ← gets ww_encryption_key;
    _ ← match key with
        | Some master_key => append_encrypted master_key (header_bytes ++ payload ++ le32 crc)
        | None => append_plain header_bytes payload crc
        end;
    _ ← after_write;
    mret (mkRecord header payload crc).

(** [append_record]: serialize the payload, then append. *)
Definition append_record {P} `{Codec P} (tx_id : Z) (record_type : RecordType) (payload : P) : WM WalRecord :=
  bs ← liftR (ok_or (enc payload) WalSerialization);
  append tx_id record_type bs.

(** [sync]: fsync the active segment, in group-commit mode only when dirty. *)
Definition sync : WM unit :=
  d ← gets ww_dirty;
  match d with
  | Some true => _ ← sync_all; modify (ww_set_dirty (Some false))
  | Some false => mret tt
  | None => sync_all
  end.

Definition checkpoint : WM Z :=
  seq ← gets ww_sequence;
  _ ← sync;
  mret seq.

Definition checkpoint_with_merkle_root (page_merkle_root : Hash) (signing_key : option SigningKey) : WM Z :=
  seq ← gets ww_sequence;
  _ ← sync;
  let '(root_signature, signer_pubkey) :=
    match signing_key with
    | Some sk => (ed_sign sk (page_merkle_root ++ le64 seq), ed_public sk)
    | None => ([], [])
    end in
  _ ← append_record 0 RCheckpoint (mkCheckpoint seq page_merkle_root root_signature signer_pubkey);
  mret seq.

(** ** Reading across segments *)

(** The items of the segments with index at least [start], in order. *)
Definition wal_items (dir : gmap Z bytes) (key : option bytes) (start : Z)
    : list (Result WalError WalRecord) :=
  flat_map (λ idx, segment_items key idx (default [] (dir !! idx)))
    (filter (λ i, start <= i) (list_segments dir)).

(** The errors that end a scan quietly. *)
Definition ends_scan (e : WalError) : bool :=
  match e with
  | ChecksumMismatch _ _ | TruncatedRecord _ _ _ | BadMagic | Decryption => true
  | _ => false
  end.

(** The loop of [scan_last_sequence] and [scan_last_sequence_in_segment]. *)
Fixpoint scan_last (last : Z) (items : list (Result WalError WalRecord)) : Result WalError Z :=
  match items with
  | [] => Ok last
  | Ok r :: items => scan_last (Z.max last (h_sequence (r_header r))) items
  | Err e :: _ => if ends_scan e then Ok last else Err e
  end.

Definition scan_last_sequence (dir : gmap Z bytes) (key : option bytes) : Result WalError Z :=
  scan_last 0 (wal_items dir key 0).

Definition scan_last_sequence_in_segment (content : bytes) (idx : Z) (key : option bytes)
    : Result WalError Z :=
  scan_last 0 (segment_items key idx content).

(** [WalWriter::open_with_options] on the directory found at startup. *)
Definition open_with_options (dir : gmap Z bytes) (max_size : Z) (mode : WalSyncMode)
    (key : option bytes) : WalWriter :=
  let dirty := if decide (mode = GroupCommit) then Some false else None in
  match last (list_segments dir) with
  | None => mkWriter (<[0 := []]> dir) (Segment_create 0 max_size) 0 max_size 1 mode dirty key
  | Some last_idx =>
      let content := default [] (dir !! last_idx) in
      let last_seq := res_unwrap_or 0 (scan_last_sequence_in_segment content last_idx key) in
      mkWriter dir (Segment_open content last_idx max_size false) last_seq max_size
        (wadd_u64 last_idx 1) mode dirty key
  end.

(** ** What the directory holds *)

(** A segment as a list of records with the bytes each occupies. *)
Definition seg := (Z * list (WalRecord * bytes))%type.
Definition seg_content (s : seg) : bytes := concat (map snd s.2).
Definition seg_records (s : seg) : list WalRecord := map fst s.2.
Definition seg_ok (key : option bytes) (s : seg) : Prop :=
  Forall (λ rc, record_ok rc.1 ∧ stored key s.1 rc.1 rc.2) s.2.

Definition dir_repr (key : option bytes) (dir : gmap Z bytes) (ss : list seg) : Prop :=
  list_segments dir = map fst ss ∧
  Forall (λ s, dir !! s.1 = Some (seg_content s)) ss ∧ Forall (seg_ok key) ss.

Lemma list_segments_dom d1 d2 : dom d1 = dom d2 → list_segments d1 = list_segments d2.
Proof. apply sorted_keys_dom. Qed.
Lemma list_segments_snoc dir n c :
  (∀ i, i ∈ list_segments dir → i < n) → list_segments (<[n := c]> dir) = list_segments dir ++ [n].
Proof. apply sorted_keys_snoc. Qed.
Lemma list_segments_sorted dir : StronglySorted Z.le (list_segments dir).
Proof. apply sorted_keys_sorted. Qed.
Lemma list_segments_NoDup dir : NoDup (list_segments dir).
Proof. apply sorted_keys_NoDup. Qed.

Lemma seg_ok_split key s :
  seg_ok key s → Forall record_ok (seg_records s) ∧ Forall2 (stored key s.1) (seg_records s) (map snd s.2).
Proof.
  unfold seg_ok, seg_records. destruct s as [i rcs]; cbn.
  induction 1 as [|[r c] rcs [??] _ [??]]; cbn; auto using Forall2_nil, Forall2_cons.
Qed.

Lemma segment_items_seg key s : seg_ok key s → segment_items key s.1 (seg_content s) = map Ok (seg_records s).
Proof.
  intros [Hok Hst]%seg_ok_split. unfold seg_content.
  destruct (drain_stored (SegmentReader_open (concat (map snd s.2)) s.1 key) (seg_records s)
    (map snd s.2) [] (S (length (concat (map snd s.2))))) as (rd' & Hdr & Hd & Hr & _);
    [done..|by rewrite app_nil_r|pose proof (stored_count _ _ _ _ Hst); lia|].
  unfold segment_items. rewrite Hdr.
  destruct (S _ - _)%nat; cbn [drain]; [by rewrite app_nil_r|].
  unfold next_record. rewrite Hd, Hr. cbn. by rewrite app_nil_r.
Qed.

Lemma wal_items_repr key dir ss start :
  dir_repr key dir ss →
  wal_items dir key start = map Ok (flat_map seg_records (filter (λ s : seg, start ≤ s.1) ss)).
Proof.
  intros (Hl & Hc & Hok). unfold wal_items. rewrite Hl. clear Hl.
  induction ss as [|s ss IH]; [done|].
  apply Forall_cons in Hc as [Hs Hc], Hok as [Hk Hok].
  change (map fst (s :: ss)) with (s.1 :: map fst ss). rewrite !filter_cons.
  case_decide; [|by apply IH]. cbn [flat_map]. rewrite map_app, <- IH, Hs by done.
  f_equal. by apply segment_items_seg.
Qed.

(** ** The writer's invariant and the effect of [append] *)

(** The files hold exactly the records [rs]; the active segment is the last
    one and the next index is free; an index is a [u64]. *)
Definition wal_inv (w : WalWriter) (rs : list WalRecord) : Prop :=
  ∃ ss rcs, let s := (seg_index (ww_active w), rcs) in
    dir_repr (ww_encryption_key w) (ww_dir w) (ss ++ [s]) ∧
    rs = flat_map seg_records (ss ++ [s]) ∧
    ww_next_segment_index w = seg_index (ww_active w) + 1 ∧
    Forall (λ s : seg, 0 ≤ s.1) (ss ++ [s]).

(** A log opened on an empty directory holds no records. *)
Lemma open_empty_wal size mode key : wal_inv (open_with_options ∅ size mode key) [].
Proof.
  exists [], []. split_and!; [|done..|by repeat constructor]. split_and!; [done|by repeat constructor..].
Qed.

Lemma wal_inv_pos w rs i : wal_inv w rs → i ∈ list_segments (ww_dir w) → 0 ≤ i.
Proof.
  intros (ss & rcs & (-> & _) & _ & _ & Hpos) (s & -> & Hs)%list_elem_of_fmap.
  rewrite Forall_forall in Hpos. by apply Hpos.
Qed.

Lemma wal_inv_items w rs :
  wal_inv w rs → wal_items (ww_dir w) (ww_encryption_key w) 0 = map Ok rs.
Proof.
  intros (ss & rcs & Hr & -> & _ & Hpos). rewrite (wal_items_repr _ _ _ _ Hr). do 2 f_equal.
  by apply filter_all.
Qed.

Lemma dir_repr_append key dir ss i rcs r c :
  dir_repr key dir (ss ++ [(i, rcs)]) → record_ok r → stored key i r c →
  dir_repr key (<[i := default [] (dir !! i) ++ c]> dir) (ss ++ [(i, rcs ++ [(r, c)])]).
Proof.
  intros (Hl & Hc & Hok) Hr Hs.
  apply Forall_app in Hc as [Hc [Hi _]%Forall_cons]. apply Forall_app in Hok as [Hok [Hk _]%Forall_cons].
  cbn in Hi. split_and!.
  - rewrite (list_segments_dom _ dir).
    + rewrite Hl, !map_app. done.
    + apply dom_insert_lookup_L. by eexists.
  - apply Forall_app. split.
    + pose proof (list_segments_NoDup dir) as Hnd. rewrite Hl, map_app in Hnd.
      apply NoDup_app in Hnd as (_ & Hnd & _).
      rewrite Forall_forall in *. intros s Hs'. rewrite lookup_insert_ne; [auto|].
      intros ->. eapply Hnd; [by apply list_elem_of_fmap_2|]. by left.
    + apply Forall_singleton. cbn. rewrite lookup_insert_eq, Hi. cbn. f_equal.
      unfold seg_content; cbn. rewrite map_app, concat_app. cbn. by rewrite app_nil_r.
  - apply Forall_app. split; [done|]. apply Forall_singleton. unfold seg_ok in *; cbn in *.
    apply Forall_app. split; [done|]. by apply Forall_singleton.
Qed.

Lemma dir_repr_roll key dir ss s n :
  dir_repr key dir (ss ++ [s]) → n = s.1 + 1 → dir_repr key (<[n := []]> dir) ((ss ++ [s]) ++ [(n, [])]).
Proof.
  intros (Hl & Hc & Hok) ->.
  assert (Hlt : ∀ i, i ∈ list_segments dir → i < s.1 + 1).
  { intros i Hi. pose proof (list_segments_sorted dir) as Hs. rewrite Hl, map_app in Hs, Hi.
    apply elem_of_app in Hi as [Hi| ->%list_elem_of_singleton]; [|lia].
    eapply StronglySorted_app_1_elem_of in Hs; [|exact Hi|by left]. lia. }
  split_and!.
  - rewrite list_segments_snoc, Hl by done. by rewrite (map_app _ (ss ++ [s])).
  - apply Forall_app. split; [|apply Forall_singleton; by rewrite lookup_insert_eq].
    rewrite Forall_forall in *. intros s' Hs'. rewrite lookup_insert_ne; [auto|].
    intros Heq. assert (s'.1 < s.1 + 1); [|lia]. apply Hlt. rewrite Hl. by apply list_elem_of_fmap_2.
  - apply Forall_app. split; [done|]. apply Forall_singleton. constructor.
Qed.

Lemma io_Ok {S E} (e : E) w (s : S) u σ : io e (w, s) = (Ok u, σ) → σ.2 = s.
Proof. unfold io. intros Hio. by simplify_eq/=. Qed.

Lemma write_all_Ok d W w u W' w' :
  write_all d (W, w) = (Ok u, (W', w')) → w' = append_file d w.
Proof.
  unfold write_all. intros Hw. minv. unfold attempt, io in H1.
  destruct (default false (head (w_io W))); simplify_eq/=; by minv.
Qed.

Lemma append_file_app a b w : append_file b (append_file a w) = append_file (a ++ b) w.
Proof.
  unfold append_file, ww_set_dir; cbn. by rewrite lookup_insert_eq, insert_insert_eq, app_assoc.
Qed.

Lemma append_file_inv w rs r c :
  wal_inv w rs → record_ok r → stored (ww_encryption_key w) (seg_index (ww_active w)) r c →
  wal_inv (append_file c w) (rs ++ [r]).
Proof.
  intros (ss & rcs & Hr & -> & Hn & Hpos) Hok Hst. exists ss, (rcs ++ [(r, c)]). split_and!; [|cbn|done|].
  - by apply dir_repr_append.
  - rewrite !flat_map_app. cbn. unfold seg_records; cbn. rewrite !app_nil_r, map_app. by rewrite app_assoc.
  - apply Forall_app in Hpos as [? [? _]%Forall_cons]. apply Forall_app. split; [done|by repeat constructor].
Qed.

(** The invariant does not look at the offset, the seal or the dirty flag. *)
Lemma wal_inv_ext w w' rs :
  ww_dir w' = ww_dir w → ww_encryption_key w' = ww_encryption_key w →
  seg_index (ww_active w') = seg_index (ww_active w) →
  ww_next_segment_index w' = ww_next_segment_index w → wal_inv w rs → wal_inv w' rs.
Proof. unfold wal_inv. by intros -> -> -> ->. Qed.

(** What a write leaves alone. *)
Definition same_config (w w' : WalWriter) : Prop :=
  ww_encryption_key w' = ww_encryption_key w ∧ ww_sequence w' = ww_sequence w ∧
  ww_sync_mode w' = ww_sync_mode w.

(** The result of adding [r]. *)
Definition appended (w w' : WalWriter) (rs : list WalRecord) (r : WalRecord) : Prop :=
  wal_inv w' (rs ++ [r]) ∧ same_config w w' ∧
  ww_next_segment_index w ≤ ww_next_segment_index w' ≤ ww_next_segment_index w + 1.

Lemma roll_segment_Ok W w rs u W' w' :
  wal_inv w rs → 0 ≤ ww_next_segment_index w < 2 ^ 64 - 1 →
  roll_segment (W, w) = (Ok u, (W', w')) →
  wal_inv w' rs ∧ same_config w w' ∧
  ww_next_segment_index w' = ww_next_segment_index w + 1.
Proof.
  intros (ss & rcs & Hr & -> & Hn & Hpos) Hb Hroll. unfold roll_segment, sync_all in Hroll. minv.
  repeat match goal with Hx : io _ _ = _ |- _ => apply io_Ok in Hx as Hx'; cbn in Hx'; revert Hx end.
  intros. destruct (bool_decide _) eqn:Hex; minv.
  repeat match goal with Hx : _ = ww_next_segment_index _ |- _ => clear Hx | p : World * WalWriter |- _ => destruct p end.
  cbn in *; simplify_eq/=. split_and!; [|done|by rewrite wadd_u64_small by lia].
  exists (ss ++ [(seg_index (ww_active w), rcs)]), []. cbn. split_and!.
  - by apply dir_repr_roll.
  - rewrite (flat_map_app _ (ss ++ _)). cbn. by rewrite app_nil_r.
  - rewrite wadd_u64_small by lia. done.
  - apply Forall_app. split; [done|]. apply Forall_singleton. cbn. lia.
Qed.

Lemma ensure_space_Ok n W w rs u W' w' :
  wal_inv w rs → 0 ≤ ww_next_segment_index w < 2 ^ 64 - 1 →
  ensure_space n (W, w) = (Ok u, (W', w')) →
  wal_inv w' rs ∧ same_config w w' ∧
  ww_next_segment_index w ≤ ww_next_segment_index w' ≤ ww_next_segment_index w + 1.
Proof.
  intros Hi Hb He. unfold ensure_space in He. minv.
  destruct (has_space (ww_active w) n); [minv; split_and!; [done..|lia|lia]|].
  eapply roll_segment_Ok in He as (? & ? & ->); [|done..]. split_and!; [done..|lia|lia].
Qed.

Lemma append_plain_Ok hb payload r W w rs u W' w' :
  wal_inv w rs → 0 ≤ ww_next_segment_index w < 2 ^ 64 - 1 → record_ok r →
  encode_record r = hb ++ payload ++ le32 (r_crc32 r) →
  append_plain hb payload (r_crc32 r) (W, w) = (Ok u, (W', w')) → appended w w' rs r.
Proof.
  intros Hi Hb Hr He Ha. unfold append_plain, add_offset in Ha. minv.
  repeat match goal with p : World * WalWriter |- _ => destruct p end. cbn in *.
  match goal with Hx : ensure_space _ _ = _ |- _ =>
    eapply ensure_space_Ok in Hx as (Hi1 & Hk & Hn); [|done..] end.
  repeat match goal with Hx : write_all _ _ = _ |- _ => apply write_all_Ok in Hx end. subst.
  rewrite !append_file_app, <- He. split_and!; [|exact Hk|apply Hn|apply Hn].
  eapply wal_inv_ext, append_file_inv; [..|exact Hi1|exact Hr|]; [done..|constructor].
Qed.

Lemma seal_blob_Ok mk pt W w blob W' w' :
  seal_blob mk pt (W, w) = (Ok blob, (W', w')) →
  w' = w ∧ ∃ sk nonce, derive_segment_key mk (seg_index (ww_active w)) = Ok sk ∧
    length nonce = 12%nat ∧ encrypt_record sk nonce pt (seg_index (ww_active w)) = Ok blob.
Proof.
  unfold seal_blob, gen_nonce, liftR, rand. intros Hs. minv.
  repeat match goal with p : World * WalWriter |- _ => destruct p end. cbn in *. simplify_eq/=.
  split; [done|]. eexists _, _. split_and!; [done| |done]. apply le_bytes_length.
Qed.

Lemma encrypt_record_length sk nonce pt idx blob :
  length nonce = 12%nat → encrypt_record sk nonce pt idx = Ok blob →
  length blob = (36 + length pt)%nat.
Proof.
  unfold encrypt_record. intros Hn He. destruct (aead_encrypt _ _ _ _) as [ct|] eqn:Ha; [|done].
  apply Ok_inj in He. subst blob. rewrite !length_app, Hn, (aead_length _ _ _ _ _ Ha).
  unfold le32. rewrite !le_bytes_length. lia.
Qed.

Lemma seal_blob_stored mk r W w blob W' w' :
  ww_encryption_key w = Some mk → Z.of_nat (length (r_payload r)) ≤ MAX_RECORD_PAYLOAD - 54 →
  seal_blob mk (encode_record r) (W, w) = (Ok blob, (W', w')) →
  w' = w ∧ stored (ww_encryption_key w) (seg_index (ww_active w)) r blob.
Proof.
  intros Hk Hm (-> & sk & nonce & Hd & Hn & He)%seal_blob_Ok. split; [done|].
  eapply stored_enc; [done..|]. rewrite (encrypt_record_length _ _ _ _ _ Hn He).
  unfold encode_record. rewrite !length_app, header_fields_length.
  unfold HEADER_SIZE, le32. rewrite le_bytes_length. lia.
Qed.

Lemma append_encrypted_Ok mk r W w rs u W' w' :
  wal_inv w rs → 0 ≤ ww_next_segment_index w < 2 ^ 64 - 1 → record_ok r →
  ww_encryption_key w = Some mk → Z.of_nat (length (r_payload r)) ≤ MAX_RECORD_PAYLOAD - 54 →
  append_encrypted mk (encode_record r) (W, w) = (Ok u, (W', w')) → appended w w' rs r.
Proof.
  intros Hi Hb Hr Hk Hm Ha. unfold append_encrypted, add_offset in Ha. minv.
  repeat match goal with p : World * WalWriter |- _ => destruct p end. cbn in *.
  match goal with Hx : seal_blob _ _ (W, w) = _ |- _ =>
    eapply seal_blob_stored in Hx as [-> Hst]; [|done..] end.
  destruct (has_space _ _); minv;
    repeat match goal with p : World * WalWriter |- _ => destruct p end; cbn in *.
  - match goal with Hx : write_all _ _ = _ |- _ => apply write_all_Ok in Hx as -> end.
    split_and!; [|done..|cbn; lia|cbn; lia]. by eapply wal_inv_ext, append_file_inv.
  - match goal with Hx : roll_segment _ = _ |- _ =>
      eapply roll_segment_Ok in Hx as (Hi1 & Hc & Hn); [|done..] end.
    match goal with Hx : seal_blob _ _ _ = _ |- _ =>
      eapply seal_blob_stored in Hx as [-> Hst2]; [|by destruct Hc as [-> _]|done] end.
    match goal with Hx : write_all _ _ = _ |- _ => apply write_all_Ok in Hx as -> end.
    split_and!; [|exact Hc|cbn; lia|cbn; lia]. by eapply wal_inv_ext, append_file_inv.
Qed.

Lemma after_write_Ok W w rs u W' w' :
  wal_inv w rs → after_write (W, w) = (Ok u, (W', w')) →
  wal_inv w' rs ∧ same_config w w' ∧ ww_next_segment_index w' = ww_next_segment_index w.
Proof.
  intros Hi Ha. unfold after_write, sync_all in Ha. minv_step. minv_step.
  destruct (ww_sync_mode w); [|minv; split; [by eapply wal_inv_ext|done]].
  apply io_Ok in Ha. cbn in Ha. by subst.
Qed.

(** The effect of a successful [append]. *)
Lemma append_Ok tx_id ty payload W w rs r W' w' :
  wal_inv w rs → u64_ok tx_id → 0 ≤ ww_next_segment_index w < 2 ^ 64 - 1 →
  Z.of_nat (length payload) ≤ MAX_RECORD_PAYLOAD - 54 →
  append tx_id ty payload (W, w) = (Ok r, (W', w')) →
  appended (ww_set_sequence (wadd_u64 (ww_sequence w) 1) w) w' rs r ∧ record_ok r ∧ r_payload r = payload ∧
  h_tx_id (r_header r) = tx_id ∧ h_record_type (r_header r) = record_type_u8 ty ∧
  h_sequence (r_header r) = wadd_u64 (ww_sequence w) 1.
Proof.
  intros Hi Htx Hb Hm Ha. unfold append, liftR in Ha. minv.
  repeat match goal with p : World * WalWriter |- _ => destruct p end. cbn in *.
  unfold now in *. simplify_eq/=.
  set (h := mkHeader _ _ _ _ _ _ _) in *.
  assert (Hlen : as_u32 (Z.of_nat (length payload)) = Z.of_nat (length payload)).
  { apply Z.mod_small. unfold MAX_RECORD_PAYLOAD in Hm. lia. }
  assert (Hh : header_ok h).
  { unfold header_ok; cbn. split_and!; try done; try (by destruct ty).
    all: first [apply as_i64_range | apply Z.mod_pos_bound; lia]. }
  assert (Hhb : enc h = Some (header_fields h)) by (by apply header_layout).
  rewrite Hhb in H4. apply Ok_inj in H4. subst x5.
  rewrite header_fields_length in Ha. change (negb (HEADER_SIZE =? HEADER_SIZE)%nat) with false in Ha.
  cbv iota in Ha. minv.
  repeat match goal with p : World * WalWriter |- _ => destruct p end. cbn in *.
  set (r := mkRecord h payload (compute_crc (header_fields h) payload)).
  assert (Hr : record_ok r).
  { unfold record_ok, r; cbn. split_and!; try done. lia. }
  split; [|done].
  match goal with Hx : after_write _ = _ |- _ => rename Hx into Haw end.
  match goal with Hx : match ww_encryption_key w with _ => _ end _ = _ |- _ => rename Hx into Hwr end.
  assert (Hi0 : wal_inv (ww_set_sequence (wadd_u64 (ww_sequence w) 1) w) rs) by (by eapply wal_inv_ext).
  enough (appended (ww_set_sequence (wadd_u64 (ww_sequence w) 1) w) w1 rs r) as (Hi1 & Hc1 & Hn1).
  { eapply after_write_Ok in Haw as (Hi2 & Hc2 & Hn2); [|exact Hi1].
    unfold appended, same_config in *. rewrite Hn2. intuition congruence. }
  destruct (ww_encryption_key w) as [mk|] eqn:Hk.
  - by eapply (append_encrypted_Ok mk r).
  - by eapply (append_plain_Ok (header_fields h) payload r).
Qed.

(** A successful [append] adds exactly one record at the end of what the
    WAL directory holds, in every sync mode, encrypted or not, and whether or
    not it rolled to a new segment; the record carries the transaction id,
    type and payload given and the next sequence number. *)
Theorem append_appends tx_id ty payload W w rs r W' w' :
  wal_inv w rs → u64_ok tx_id → 0 ≤ ww_next_segment_index w < 2 ^ 64 - 1 →
  Z.of_nat (length payload) ≤ MAX_RECORD_PAYLOAD - 54 →
  append tx_id ty payload (W, w) = (Ok r, (W', w')) →
  wal_inv w' (rs ++ [r]) ∧ record_ok r ∧ r_payload r = payload ∧
  h_tx_id (r_header r) = tx_id ∧ h_record_type (r_header r) = record_type_u8 ty ∧
  h_sequence (r_header r) = wadd_u64 (ww_sequence w) 1.
Proof.
  intros Hi Htx Hb Hm Ha. destruct (append_Ok _ _ _ _ _ _ _ _ _ Hi Htx Hb Hm Ha) as ((?&_)&?). done.
Qed.
End writer.
