(* ===== verification/Recovery.v ===== *)
(** * vledger-wal: crash recovery

    Models [crates/vledger-wal/src/recovery.rs]: the scan that rebuilds the
    committed transactions from the log, in its batch form
    ([recover_with_options]) and its streaming form ([recover_streaming]), and
    the verification of a commit record against the data records it covers.

    The specification is [committed_spec]: for each commit record, the data
    records of its transaction since that transaction last ended.  Both scans
    are proved to compute it. *)

From stdpp Require Import base gmap list strings option fin_maps sorting.
From Stdlib Require Import ZArith Lia.
From S2P Require Import Prelude Bytes Crypto WalRecord Wal.

Record CommittedTransaction := mkCommitted {
  ct_tx_id : Z;
  ct_commit_record : WalRecord;
  ct_data_payloads : list DataPayload;
  ct_data_records : list WalRecord
}.

Record RecoveryResult := mkRecovery {
  rr_committed : list CommittedTransaction;
  rr_discarded_tx_count : nat;
  rr_last_sequence : Z;
  rr_torn_write_detected : bool
}.

(** [entry(k).or_default()] and [entry(k).or_default().push(x)] *)
Definition or_default {A} (k : Z) (m : gmap Z (list A)) : gmap Z (list A) :=
  <[k := default [] (m !! k)]> m.
Definition push_at {A} (k : Z) (x : A) (m : gmap Z (list A)) : gmap Z (list A) :=
  <[k := default [] (m !! k) ++ [x]]> m.

(** [sort_by_key(|tx| tx.commit_record.header.sequence)], a stable sort. *)
Definition tx_seq (tx : CommittedTransaction) : Z := h_sequence (r_header (ct_commit_record tx)).
Fixpoint insert_by_seq (tx : CommittedTransaction) (l : list CommittedTransaction) :=
  match l with
  | [] => [tx]
  | y :: l' => if tx_seq tx <=? tx_seq y then tx :: l else y :: insert_by_seq tx l'
  end.
Definition sort_by_seq (l : list CommittedTransaction) : list CommittedTransaction :=
  foldr insert_by_seq [] l.

Section recovery.
Context `{Blake3} `{Ed25519} `{WalExt}.

(** ** Decoding *)

Definition decode_data_payload_from_bytes (bs : bytes) : Result WalError DataPayload :=
  ok_or (dec bs) WalSerialization.

Definition decode_data_payload (r : WalRecord) : Result WalError DataPayload :=
  decode_data_payload_from_bytes (r_payload r).

Definition decode_table_id_only (bs : bytes) : option Z :=
  if (length bs <? 4)%nat then None else Some (le_val (take 4 bs)).

Definition decode_commit_payload (r : WalRecord) : Result WalError CommitPayload :=
  ok_or (dec (r_payload r)) WalSerialization.

(** The payloads of the records that decode ([filter_map(.. .ok())]). *)
Definition payloads_of (rs : list WalRecord) : list DataPayload :=
  omap (λ r, res_ok (decode_data_payload r)) rs.

(** ** Commit verification *)

(** [tx_hash || record_count] *)
Definition commit_msg (tx_hash : Hash) (record_count : Z) : bytes := tx_hash ++ le32 record_count.

Definition verify_commit_signature (commit_record : WalRecord) : Result WalError unit :=
  payload ← decode_commit_payload commit_record;
  let bad := Err (SignatureInvalid (h_sequence (r_header commit_record))) in
  if bool_decide (cp_signer_pubkey payload = []) || bool_decide (cp_signer_pubkey payload = replicate 32 Byte.x00)
  then Ok tt
  else if negb (length (cp_signature payload) =? 64)%nat || negb (length (cp_signer_pubkey payload) =? 32)%nat
  then Ok tt
  else if negb (ed_key_valid (cp_signer_pubkey payload)) then bad
  else if ed_verify (cp_signer_pubkey payload)
            (commit_msg (cp_tx_hash payload) (cp_record_count payload)) (cp_signature payload)
  then Ok tt else bad.

(** The row hashes fed to the hasher, in order; a record that does not decode
    is an error. *)
Fixpoint row_hashes (rs : list WalRecord) : Result WalError bytes :=
  match rs with
  | [] => Ok []
  | r :: rs =>
      match decode_data_payload r with
      | Ok dp => tl ← row_hashes rs; Ok (dp_row_hash dp ++ tl)
      | Err _ => Err WalSerialization
      end
  end.

Definition verify_commit_full (commit_record : WalRecord) (data_records : list WalRecord)
    : Result WalError unit :=
  payload ← decode_commit_payload commit_record;
  let bad := Err (SignatureInvalid (h_sequence (r_header commit_record))) in
  if negb (cp_record_count payload =? as_u32 (Z.of_nat (length data_records))) then bad
  else
    hs ← row_hashes data_records;
    if negb (bool_decide (blake3 hs = cp_tx_hash payload)) then bad
    else verify_commit_signature commit_record.

(** ** The batch scan *)

Record Scan := mkScan {
  sc_pending : gmap Z (list WalRecord);
  sc_committed : list CommittedTransaction;
  sc_last_sequence : Z
}.

Definition scan_record (verify : bool) (r : WalRecord) (st : Scan) : Result WalError Scan :=
  let h := r_header r in
  let last := Z.max (sc_last_sequence st) (h_sequence h) in
  let tx_id := h_tx_id h in
  let pending := sc_pending st in
  ty ← RecordType_try_from (h_record_type h);
  match ty with
  | RBegin => Ok (mkScan (or_default tx_id pending) (sc_committed st) last)
  | RData => Ok (mkScan (push_at tx_id r pending) (sc_committed st) last)
  | RCommit =>
      let data_records := default [] (pending !! tx_id) in
      _ ← (if verify then verify_commit_full r data_records else Ok tt);
      Ok (mkScan (delete tx_id pending)
        (sc_committed st ++ [mkCommitted tx_id r (payloads_of data_records) data_records]) last)
  | RRollback => Ok (mkScan (delete tx_id pending) (sc_committed st) last)
  | _ => Ok (mkScan pending (sc_committed st) last)
  end.

(** The loop over the reader's items; the flag is [torn_write_detected]. *)
Fixpoint scan_items (verify : bool) (items : list (Result WalError WalRecord)) (st : Scan)
    : Result WalError (Scan * bool) :=
  match items with
  | [] => Ok (st, false)
  | Err e :: _ => if ends_scan e then Ok (st, true) else Err e
  | Ok r :: items => st' ← scan_record verify r st; scan_items verify items st'
  end.

Definition scan0 : Scan := mkScan ∅ [] 0.

Definition recover_with_options (dir : gmap Z bytes) (master_key : option bytes) (verify : bool)
    : Result WalError RecoveryResult :=
  '(st, torn) ← scan_items verify (wal_items dir master_key 0) scan0;
  Ok (mkRecovery (sort_by_seq (sc_committed st)) (size (sc_pending st)) (sc_last_sequence st) torn).

Definition recover (dir : gmap Z bytes) := recover_with_options dir None false.
Definition recover_verified (dir : gmap Z bytes) (master_key : option bytes) :=
  recover_with_options dir master_key true.

(** ** The streaming scan *)

Record Stream := mkStream {
  st_payloads : gmap Z (list DataPayload);
  st_raw : gmap Z (list WalRecord);
  st_last_sequence : Z
}.

Definition stream0 : Stream := mkStream ∅ ∅ 0.

(** The payload kept for a row whose data the caller does not need. *)
Definition sentinel (table_id : option Z) : DataPayload :=
  mkData (default 0 table_id) 0 0 Insert [] ZERO_HASH None.

(** What a data record adds to [pending_payloads]. *)
Definition payload_of (skip_table : option Z) (r : WalRecord) : option DataPayload :=
  let table_id := decode_table_id_only (r_payload r) in
  if match skip_table with Some s => bool_decide (table_id = Some s) | None => false end
  then Some (sentinel table_id)
  else res_ok (decode_data_payload r).

Section streaming.
Context {S E : Type} (from_wal : WalError → E) (on_commit : CommittedTransaction → M S E unit).

Definition stream_commit (verify : bool) (r : WalRecord) (st : Stream) : M S E Stream :=
  let tx_id := h_tx_id (r_header r) in
  let last := Z.max (st_last_sequence st) (h_sequence (r_header r)) in
  if verify then
    let raw := default [] (st_raw st !! tx_id) in
    _ ← liftR (res_map_err from_wal (verify_commit_full r raw));
    _ ← on_commit (mkCommitted tx_id r (payloads_of raw) raw);
    mret (mkStream (st_payloads st) (delete tx_id (st_raw st)) last)
  else
    _ ← on_commit (mkCommitted tx_id r (default [] (st_payloads st !! tx_id)) []);
    mret (mkStream (delete tx_id (st_payloads st)) (st_raw st) last).

Definition stream_record (verify : bool) (skip_table : option Z) (r : WalRecord) (st : Stream)
    : M S E Stream :=
  let h := r_header r in
  let last := Z.max (st_last_sequence st) (h_sequence h) in
  let tx_id := h_tx_id h in
  ty ← liftR (res_map_err from_wal (RecordType_try_from (h_record_type h)));
  match ty with
  | RBegin =>
      mret (if verify then mkStream (st_payloads st) (or_default tx_id (st_raw st)) last
            else mkStream (or_default tx_id (st_payloads st)) (st_raw st) last)
  | RData =>
      mret (if verify then mkStream (st_payloads st) (push_at tx_id r (st_raw st)) last
            else
              match payload_of skip_table r with
              | Some p => mkStream (push_at tx_id p (st_payloads st)) (st_raw st) last
              | None => mkStream (st_payloads st) (st_raw st) last
              end)
  | RCommit => stream_commit verify r st
  | RRollback =>
      mret (mkStream (delete tx_id (st_payloads st)) (delete tx_id (st_raw st)) last)
  | _ => mret (mkStream (st_payloads st) (st_raw st) last)
  end.

Fixpoint stream_items (verify : bool) (skip_table : option Z)
    (items : list (Result WalError WalRecord)) (st : Stream) : M S E (Stream * bool) :=
  match items with
  | [] => mret (st, false)
  | Err e :: _ => if ends_scan e then mret (st, true) else throw (from_wal e)
  | Ok r :: items =>
      st' ← stream_record verify skip_table r st;
      stream_items verify skip_table items st'
  end.

Definition recover_streaming (dir : gmap Z bytes) (master_key : option bytes) (verify : bool)
    (skip_table : option Z) (start_segment : Z) : M S E RecoveryResult :=
  '(st, torn) ← stream_items verify skip_table (wal_items dir master_key start_segment) stream0;
  mret (mkRecovery [] (size (st_payloads st) + size (st_raw st)) (st_last_sequence st) torn).
End streaming.

(** ** Specification *)

Definition rec_is (ty : RecordType) (r : WalRecord) : bool :=
  h_record_type (r_header r) =? record_type_u8 ty.

(** [r] belongs to transaction [t] and ends it. *)
Definition ends_tx (t : Z) (r : WalRecord) : bool :=
  (h_tx_id (r_header r) =? t) && (rec_is RCommit r || rec_is RRollback r).

Definition data_of_tx (t : Z) (r : WalRecord) : bool := (h_tx_id (r_header r) =? t) && rec_is RData r.
Definition opens_tx (t : Z) (r : WalRecord) : bool :=
  (h_tx_id (r_header r) =? t) && (rec_is RBegin r || rec_is RData r).

(** The part of a log after the last record that ended [t]. *)
Fixpoint since_end_rev (t : Z) (rev_log : list WalRecord) : list WalRecord :=
  match rev_log with
  | [] => []
  | r :: l => if ends_tx t r then [] else since_end_rev t l ++ [r]
  end.
Definition since_end (t : Z) (log : list WalRecord) : list WalRecord := since_end_rev t (reverse log).

(** The data records of the open transaction [t]. *)
Definition data_of (t : Z) (log : list WalRecord) : list WalRecord :=
  filter (λ r, data_of_tx t r) (since_end t log).
Definition is_open (t : Z) (log : list WalRecord) : bool :=
  existsb (opens_tx t) (since_end t log).

(** The transactions committed by [log], given the records before it. *)
Fixpoint committed_after (before log : list WalRecord) : list CommittedTransaction :=
  match log with
  | [] => []
  | r :: log =>
      let rest := committed_after (before ++ [r]) log in
      if rec_is RCommit r then
        let t := h_tx_id (r_header r) in
        let ds := data_of t before in
        mkCommitted t r (payloads_of ds) ds :: rest
      else rest
  end.
Definition committed_spec (log : list WalRecord) : list CommittedTransaction := committed_after [] log.

(** Every record has a known type. *)
Definition typed (r : WalRecord) : Prop := ∃ ty, h_record_type (r_header r) = record_type_u8 ty.

(** The transactions left open at the end of the log. *)
Definition open_txs (log : list WalRecord) : gset Z :=
  filter (λ t, is_open t log) (list_to_set (map (λ r, h_tx_id (r_header r)) log)).

Definition max_sequence (log : list WalRecord) : Z :=
  foldl (λ m r, Z.max m (h_sequence (r_header r))) 0 log.

(** ** The scans compute the specification *)

Lemma since_end_snoc t log r :
  since_end t (log ++ [r]) = if ends_tx t r then [] else since_end t log ++ [r].
Proof. unfold since_end. by rewrite reverse_snoc. Qed.

Lemma data_of_snoc t log r :
  data_of t (log ++ [r]) =
  if ends_tx t r then [] else data_of t log ++ (if data_of_tx t r then [r] else []).
Proof.
  unfold data_of. rewrite since_end_snoc. destruct (ends_tx t r); [done|].
  rewrite filter_app. f_equal. rewrite filter_cons, filter_nil.
  by destruct (data_of_tx t r).
Qed.

Lemma is_open_snoc t log r :
  is_open t (log ++ [r]) = if ends_tx t r then false else is_open t log || opens_tx t r.
Proof.
  unfold is_open. rewrite since_end_snoc. destruct (ends_tx t r); [done|].
  rewrite existsb_app. cbn. by rewrite orb_false_r.
Qed.

Lemma not_open_data t log : is_open t log = false → data_of t log = [].
Proof.
  induction log as [|r log IH] using rev_ind; [done|].
  rewrite is_open_snoc, data_of_snoc. destruct (ends_tx t r); [done|].
  intros [Ho Hr]%orb_false_iff. rewrite IH by done.
  unfold opens_tx, data_of_tx in *. destruct (_ =? t), (rec_is RBegin r), (rec_is RData r); done.
Qed.

Lemma committed_after_snoc before log r :
  committed_after before (log ++ [r]) =
  committed_after before log ++ committed_after (before ++ log) [r].
Proof.
  revert before. induction log as [|x log IH]; intros before; cbn; [by rewrite app_nil_r|].
  rewrite IH, <- app_assoc. cbn. by destruct (rec_is RCommit x).
Qed.

Lemma max_sequence_snoc log r :
  max_sequence (log ++ [r]) = Z.max (max_sequence log) (h_sequence (r_header r)).
Proof. unfold max_sequence. by rewrite foldl_app. Qed.

(** What the batch scan knows after reading [log]. *)
Definition scan_repr (log : list WalRecord) (st : Scan) : Prop :=
  (∀ t, sc_pending st !! t = if is_open t log then Some (data_of t log) else None) ∧
  sc_committed st = committed_spec log ∧ sc_last_sequence st = max_sequence log.

Lemma scan_repr_default log st t :
  scan_repr log st → default [] (sc_pending st !! t) = data_of t log.
Proof.
  intros (Hp & _). rewrite Hp. destruct (is_open t log) eqn:Ho; [done|].
  by rewrite not_open_data.
Qed.

Lemma scan_record_repr log r st :
  typed r → scan_repr log st →
  ∃ st', scan_record false r st = Ok st' ∧ scan_repr (log ++ [r]) st'.
Proof.
  intros Hty Hr. pose proof (λ t, scan_repr_default log st t Hr) as Hd.
  destruct Hr as (Hp & Hc & Hl). unfold scan_record.
  destruct Hty as [ty Hty]. rewrite Hty, record_type_roundtrip. cbn [mbind Result_bind].
  destruct ty; (eexists; split; [reflexivity|]); split_and!; cbn [sc_pending sc_committed sc_last_sequence].
  all: try (by rewrite max_sequence_snoc, Hl).
  all: try (unfold committed_spec in *; rewrite committed_after_snoc; cbn;
            unfold rec_is; rewrite Hty; cbn; rewrite ?app_nil_r, ?Hd; by rewrite Hc).
  all: intros t; rewrite is_open_snoc, data_of_snoc;
    unfold ends_tx, opens_tx, data_of_tx, rec_is, or_default, push_at; rewrite Hty; cbn;
    rewrite ?andb_false_r, ?andb_true_r, ?orb_false_r, ?app_nil_r, ?Hd; try apply Hp.
  all: destruct (Z.eqb_spec (h_tx_id (r_header r)) t) as [->|Hne];
    rewrite ?lookup_insert_eq, ?lookup_delete_eq, ?lookup_insert_ne, ?lookup_delete_ne, ?orb_true_r,
      ?orb_false_r, ?app_nil_r by done; try done; apply Hp.
Qed.

Lemma scan_items_repr log rs st tl :
  Forall typed rs → scan_repr log st →
  ∃ st', scan_items false (map Ok rs ++ tl) st = scan_items false tl st' ∧ scan_repr (log ++ rs) st'.
Proof.
  intros Hty. revert log st. induction Hty as [|r rs Hr _ IH]; intros log st Hs; cbn.
  { exists st. by rewrite app_nil_r. }
  destruct (scan_record_repr log r st Hr Hs) as (st1 & -> & Hs1). cbn.
  destruct (IH _ _ Hs1) as (st' & -> & Hs2). exists st'. by rewrite <- app_assoc in Hs2.
Qed.

(** How the reader's items end: cleanly, or at a torn or corrupt record. *)
Definition scan_end (tl : list (Result WalError WalRecord)) (torn : bool) : Prop :=
  match tl with
  | [] => torn = false
  | Err e :: _ => ends_scan e = true ∧ torn = true
  | Ok _ :: _ => False
  end.

Lemma scan_repr0 : scan_repr [] scan0.
Proof. by split_and!. Qed.

Lemma open_txs_size log st : scan_repr log st → size (sc_pending st) = size (open_txs log).
Proof.
  intros (Hp & _). rewrite <- size_dom. f_equal. apply set_eq. intros t.
  unfold open_txs. rewrite elem_of_dom, elem_of_filter, elem_of_list_to_set, Hp.
  destruct (is_open t log) eqn:Ho; [|split; [by intros [? ?]|by intros [? ?]]].
  split; [intros _; split; [done|]|by eexists].
  unfold is_open, since_end in Ho. apply existsb_exists in Ho as (r & Hin & Hr).
  apply list_elem_of_fmap. exists r. unfold opens_tx in Hr. apply andb_true_iff in Hr as [Hr _].
  split; [lia|]. apply list_elem_of_In in Hin. clear -Hin. apply elem_of_reverse.
  induction (reverse log) as [|x l IH]; cbn in Hin; [by apply elem_of_nil in Hin|].
  destruct (ends_tx t x); [by apply elem_of_nil in Hin|].
  apply elem_of_app in Hin as [Hin|Hin%list_elem_of_singleton]; [right; auto|subst; left].
Qed.

(** C9: recovery without signature checks returns, for every commit record
    before the end of the log or the first torn record, the transaction with
    exactly the data records logged since that transaction last ended, sorted
    by commit sequence; it counts the transactions left open, and reports the
    highest sequence read and whether the scan stopped at a torn record. *)
Theorem recover_computes_committed dir key rs tl torn :
  wal_items dir key 0 = map Ok rs ++ tl → Forall typed rs → scan_end tl torn →
  recover_with_options dir key false =
    Ok (mkRecovery (sort_by_seq (committed_spec rs)) (size (open_txs rs)) (max_sequence rs) torn).
Proof.
  intros Hi Hty Hend. unfold recover_with_options. rewrite Hi.
  destruct (scan_items_repr [] rs scan0 tl Hty scan_repr0) as (st & -> & Hr).
  cbn [app] in Hr. rewrite <- (open_txs_size _ _ Hr). destruct Hr as (_ & <- & <-).
  destruct tl as [|[?|e] tl]; cbn in Hend; [by subst|done|].
  destruct Hend as [He ->]. cbn. by rewrite He.
Qed.

(** *** The streaming scan *)

Section streaming_spec.
Context {S E : Type} (from_wal : WalError → E) (on_commit : CommittedTransaction → M S E unit).
Context (verify : bool) (skip_table : option Z).

(** What the callback is given for a committed transaction. *)
Definition present (ct : CommittedTransaction) : CommittedTransaction :=
  if verify then ct
  else mkCommitted (ct_tx_id ct) (ct_commit_record ct)
         (omap (payload_of skip_table) (ct_data_records ct)) [].

(** The work done for one committed transaction. *)
Definition handle (ct : CommittedTransaction) : M S E unit :=
  _ ← liftR (if verify then res_map_err from_wal
                 (verify_commit_full (ct_commit_record ct) (ct_data_records ct)) else Ok tt);
  on_commit (present ct).

Definition stream_repr (log : list WalRecord) (st : Stream) : Prop :=
  (∀ t, if verify then default [] (st_raw st !! t) = data_of t log
        else default [] (st_payloads st !! t) = omap (payload_of skip_table) (data_of t log)) ∧
  st_last_sequence st = max_sequence log.

Lemma default_push_at {A} k (x : A) m t :
  default [] (push_at k x m !! t) = default [] (m !! t) ++ (if k =? t then [x] else []).
Proof.
  unfold push_at. destruct (Z.eqb_spec k t) as [->|Hne].
  - by rewrite lookup_insert_eq.
  - by rewrite lookup_insert_ne, app_nil_r.
Qed.

Lemma default_or_default {A} k (m : gmap Z (list A)) t :
  default [] (or_default k m !! t) = default [] (m !! t).
Proof.
  unfold or_default. destruct (decide (k = t)) as [->|Hne].
  - by rewrite lookup_insert_eq.
  - by rewrite lookup_insert_ne.
Qed.

Lemma default_delete {A} k (m : gmap Z (list A)) t :
  default [] (delete k m !! t) = if k =? t then [] else default [] (m !! t).
Proof.
  destruct (Z.eqb_spec k t) as [->|Hne].
  - by rewrite lookup_delete_eq.
  - by rewrite lookup_delete_ne.
Qed.

(** A record that is not a commit calls nothing. *)
Lemma stream_record_quiet log r st σ :
  typed r → rec_is RCommit r = false → stream_repr log st →
  ∃ st', stream_record from_wal on_commit verify skip_table r st σ = (Ok st', σ) ∧
    stream_repr (log ++ [r]) st'.
Proof.
  intros [ty Hty] Hnc (Hp & Hl). unfold stream_record. rewrite Hty, record_type_roundtrip.
  unfold rec_is in Hnc. rewrite Hty in Hnc.
  destruct ty; try done; (eexists; split; [reflexivity|]); (split; [|rewrite max_sequence_snoc, <- Hl;
    try destruct verify; try destruct (payload_of _ _); reflexivity]).
  all: intros t; specialize (Hp t); rewrite data_of_snoc;
    unfold ends_tx, data_of_tx, rec_is; rewrite Hty; cbn [record_type_u8 Z.eqb Pos.eqb orb];
    rewrite ?andb_false_r, ?andb_true_r, ?app_nil_r.
  all: destruct verify; cbn [st_raw st_payloads].
  all: try (destruct (payload_of skip_table r) as [p|] eqn:Hpl; cbn [st_raw st_payloads]).
  all: rewrite ?default_or_default, ?default_push_at, ?default_delete, ?Hp; try done.
  all: destruct (_ =? t); cbn; rewrite ?app_nil_r; try done.
  all: rewrite omap_app; cbn; by rewrite Hpl, ?app_nil_r.
Qed.

(** A commit record verifies and calls back once. *)
Lemma stream_record_commit log r st σ :
  rec_is RCommit r = true → stream_repr log st →
  let t := h_tx_id (r_header r) in let ds := data_of t log in
  ∃ st', stream_record from_wal on_commit verify skip_table r st σ =
    (handle (mkCommitted t r (payloads_of ds) ds) ≫= λ _, mret st') σ ∧
    stream_repr (log ++ [r]) st'.
Proof.
  intros Hc (Hp & Hl) t ds. unfold rec_is in Hc. apply Z.eqb_eq in Hc.
  assert (Hd : ∀ t', data_of t' (log ++ [r]) = if t =? t' then [] else data_of t' log).
  { intros t'. rewrite data_of_snoc. unfold ends_tx, data_of_tx, rec_is. rewrite Hc. fold t.
    cbn. rewrite ?andb_true_r, ?andb_false_r, ?app_nil_r. done. }
  unfold stream_repr, stream_record, stream_commit, handle, present. rewrite Hc, record_type_roundtrip. fold t.
  pose proof (Hp t) as Ht. destruct verify; rewrite Ht.
  - exists (mkStream (st_payloads st) (delete t (st_raw st)) (Z.max (st_last_sequence st) (h_sequence (r_header r)))).
    split; [|split; [|by rewrite max_sequence_snoc, <- Hl]].
    + unfold mbind, M_bind, liftR. cbn. fold ds. by destruct (verify_commit_full r ds).
    + intros t'. cbn. rewrite default_delete, Hd, Hp. done.
  - exists (mkStream (delete t (st_payloads st)) (st_raw st) (Z.max (st_last_sequence st) (h_sequence (r_header r)))).
    split; [reflexivity|split; [|by rewrite max_sequence_snoc, <- Hl]].
    intros t'. cbn. rewrite default_delete, Hd, Hp. by destruct (t =? t').
Qed.

Lemma stream_items_repr rs : ∀ log st σ tl,
  Forall typed rs → stream_repr log st →
  ∃ st', stream_repr (log ++ rs) st' ∧
    stream_items from_wal on_commit verify skip_table (map Ok rs ++ tl) st σ =
    (forM handle (committed_after log rs) ≫= λ _,
      stream_items from_wal on_commit verify skip_table tl st') σ.
Proof.
  induction rs as [|r rs IH]; intros log st σ tl Hty Hs.
  { exists st. by rewrite app_nil_r. }
  apply Forall_cons in Hty as [Hr Hty]. cbn [map app stream_items committed_after].
  destruct (rec_is RCommit r) eqn:Hc.
  - destruct (stream_record_commit log r st σ Hc Hs) as (st1 & He & Hs1).
    unfold mbind at 1, M_bind at 1. rewrite He. cbn [forM].
    unfold mbind, M_bind. destruct (handle _ σ) as [[[]|e] σ1]; cbn.
    + destruct (IH _ _ σ1 tl Hty Hs1) as (st' & Hs' & Heq). exists st'.
      rewrite <- app_assoc in Hs'. split; [done|]. by rewrite Heq.
    + destruct (IH _ _ σ1 tl Hty Hs1) as (st' & Hs' & _). exists st'.
      by rewrite <- app_assoc in Hs'.
  - destruct (stream_record_quiet log r st σ Hr Hc Hs) as (st1 & He & Hs1).
    unfold mbind at 1, M_bind at 1. rewrite He.
    destruct (IH _ _ σ tl Hty Hs1) as (st' & Hs' & Heq). exists st'.
    by rewrite <- app_assoc in Hs'.
Qed.

Lemma recover_streaming_Ok dir key start rs tl torn σ :
  wal_items dir key start = map Ok rs ++ tl → Forall typed rs → scan_end tl torn →
  ∃ n, recover_streaming from_wal on_commit dir key verify skip_table start σ =
    (forM handle (committed_spec rs) ≫= λ _, mret (mkRecovery [] n (max_sequence rs) torn)) σ.
Proof.
  intros Hi Hty Hend.
  assert (Hs0 : stream_repr [] stream0) by (split; [by intros t; destruct verify|done]).
  destruct (stream_items_repr rs [] stream0 σ tl Hty Hs0) as (st & (_ & Hm) & He).
  cbn [app] in Hm. exists (size (st_payloads st) + size (st_raw st))%nat. rewrite <- Hm.
  unfold recover_streaming. rewrite Hi. unfold mbind at 1, M_bind at 1. rewrite He.
  unfold committed_spec. unfold mbind, M_bind.
  destruct (forM handle _ σ) as [[[]|e] σ1]; [|done].
  destruct tl as [|[?|e] tl]; cbn in Hend; [by subst|done|].
  destruct Hend as [Hes ->]. cbn. by rewrite Hes.
Qed.

(** Streaming recovery runs the callback once for each transaction the
    specification says is committed, in log order, after verifying its commit
    record when verification is on, and stops at the first error; it never
    calls back for an uncommitted or rolled-back transaction. *)
Theorem recover_streaming_spec dir key start rs tl torn σ :
  wal_items dir key start = map Ok rs ++ tl → Forall typed rs → scan_end tl torn →
  ∃ n, recover_streaming from_wal on_commit dir key verify skip_table start σ =
    (forM handle (committed_spec rs) ≫= λ _, mret (mkRecovery [] n (max_sequence rs) torn)) σ.
Proof. apply recover_streaming_Ok. Qed.
End streaming_spec.

(** *** Verification *)

(** A verified commit record covers exactly the data records before it: their
    number and the hash of their row hashes are those in the record. *)
Lemma verify_commit_full_Ok r ds :
  verify_commit_full r ds = Ok tt →
  ∃ p dps, decode_commit_payload r = Ok p ∧ cp_record_count p = as_u32 (Z.of_nat (length ds)) ∧
    mapM (λ d, res_ok (decode_data_payload d)) ds = Some dps ∧
    cp_tx_hash p = blake3 (concat (map dp_row_hash dps)).
Proof.
  unfold verify_commit_full. destruct (decode_commit_payload r) as [p|]; [|done]. cbn.
  destruct (Z.eqb_spec (cp_record_count p) (as_u32 (Z.of_nat (length ds)))) as [Hn|]; [|done]. cbn.
  destruct (row_hashes ds) as [hs|] eqn:Hh; [|done]. cbn. case_bool_decide as Hb; [|done].
  intros _. assert (∃ dps, mapM (λ d, res_ok (decode_data_payload d)) ds = Some dps ∧
    hs = concat (map dp_row_hash dps)) as (dps & ? & ->).
  { clear -Hh. revert hs Hh. induction ds as [|d ds IH]; intros hs Hh; cbn in Hh.
    - apply Ok_inj in Hh. subst. by exists [].
    - destruct (decode_data_payload d) as [dp|] eqn:Hd; [|done]. cbn in Hh.
      destruct (row_hashes ds) as [tl|]; [|done]. apply Ok_inj in Hh. subst.
      destruct (IH _ eq_refl) as (dps & He & ->). exists (dp :: dps). cbn. by rewrite Hd, He. }
  by exists p, dps.
Qed.

Lemma sort_by_seq_sorted l : StronglySorted (λ a b, tx_seq a ≤ tx_seq b) l → sort_by_seq l = l.
Proof.
  unfold sort_by_seq. induction 1 as [|x l Hs IH Hx]; [done|]. cbn. rewrite IH.
  destruct l as [|y l]; [done|]. cbn. apply Forall_cons in Hx as [Hx _].
  by destruct (Z.leb_spec (tx_seq x) (tx_seq y)); [|lia].
Qed.

(** Verified recovery is recovery restricted to logs whose commits verify. *)
Lemma scan_record_verified r st st' :
  scan_record true r st = Ok st' → scan_record false r st = Ok st'.
Proof.
  unfold scan_record. destruct (RecordType_try_from _) as [ty|]; [|done]. cbn.
  destruct ty; try done. by destruct (verify_commit_full _ _).
Qed.

Lemma scan_items_verified items st r :
  scan_items true items st = Ok r → scan_items false items st = Ok r.
Proof.
  revert st. induction items as [|[x|e] items IH]; intros st; cbn; try done.
  destruct (scan_record true x st) as [st1|] eqn:Hx; [|done]. cbn.
  rewrite (scan_record_verified _ _ _ Hx). apply IH.
Qed.

Lemma scan_items_commits_verified items st st' torn :
  scan_items true items st = Ok (st', torn) →
  Forall (λ ct, verify_commit_full (ct_commit_record ct) (ct_data_records ct) = Ok tt) (sc_committed st) →
  Forall (λ ct, verify_commit_full (ct_commit_record ct) (ct_data_records ct) = Ok tt) (sc_committed st').
Proof.
  revert st. induction items as [|[x|e] items IH]; intros st; cbn.
  - intros Hi Hf. apply Ok_inj in Hi. by simplify_eq.
  - destruct (scan_record true x st) as [st1|] eqn:Hx; [|done]. cbn. intros Hi Hf. eapply IH; [done|].
    unfold scan_record in Hx. destruct (RecordType_try_from _) as [[]|]; cbn in Hx; try done;
      try (apply Ok_inj in Hx; by subst).
    destruct (verify_commit_full x _) as [[]|] eqn:Hv; [|done]. apply Ok_inj in Hx. subst. cbn.
    apply Forall_app. split; [done|]. by apply Forall_singleton.
  - destruct (ends_scan e); [|done]. intros Hi Hf. apply Ok_inj in Hi. by simplify_eq.
Qed.

Lemma insert_by_seq_Permutation x l : insert_by_seq x l ≡ₚ x :: l.
Proof.
  induction l as [|y l IH]; [done|]. cbn. case_match; [done|]. by rewrite IH, Permutation_swap.
Qed.
Lemma sort_by_seq_Permutation l : sort_by_seq l ≡ₚ l.
Proof. unfold sort_by_seq. induction l; [done|]. cbn. rewrite insert_by_seq_Permutation. by f_equiv. Qed.

(** What verified recovery returns is what unverified recovery returns,
    and each transaction in it has a commit record whose count and hash are
    those of the data records recovered with it: replacing, dropping or adding
    a data record of a committed transaction is a hard error or a BLAKE3
    collision on the concatenated row hashes. *)
Theorem recover_verified_sound dir key res ct :
  recover_verified dir key = Ok res → ct ∈ rr_committed res →
  recover_with_options dir key false = Ok res ∧
  ∃ p dps, decode_commit_payload (ct_commit_record ct) = Ok p ∧
    cp_record_count p = as_u32 (Z.of_nat (length (ct_data_records ct))) ∧
    mapM (λ d, res_ok (decode_data_payload d)) (ct_data_records ct) = Some dps ∧
    cp_tx_hash p = blake3 (concat (map dp_row_hash dps)).
Proof.
  unfold recover_verified, recover_with_options.
  destruct (scan_items true _ scan0) as [[st torn]|] eqn:Hs; [|done]. intros Hres Hct.
  cbn in Hres. apply Ok_inj in Hres. subst res. rewrite (scan_items_verified _ _ _ Hs). split; [done|].
  apply verify_commit_full_Ok. cbn in Hct. rewrite sort_by_seq_Permutation in Hct.
  pose proof (scan_items_commits_verified _ _ _ _ Hs (Forall_nil_2 _)) as Hv.
  rewrite Forall_forall in Hv. by apply Hv.
Qed.
End recovery.
