(* ===== verification/WalRotate.v ===== *)
(** * vledger-wal: rotation of the encryption key

    Models [crates/vledger-wal/src/key_rotation.rs]: every segment is read
    under the old master key, its records are sealed again under the new one
    into a temporary file, and the file is renamed over the segment.  The
    theorems: in any environment, with an I/O failure or a crash at any call,
    each segment holds its records under the old or under the new key; without
    failures the rotation succeeds and the log read under the new key is the
    log read before under the old one; the skipped active segment and a wrong
    old key behave differently from what the documentation suggests. *)

From stdpp Require Import base gmap list strings option fin_maps.
From Stdlib Require Import ZArith Lia.
From S2P Require Import Prelude Bytes Crypto WalRecord Wal Recovery.

(** The segment files and the temporary files next to them. *)
Record RotDir := mkRotDir {
  rd_files : gmap Z bytes;
  rd_tmp : gmap Z bytes
}.

Record KeyRotationResult := mkRotation {
  kr_segments_rotated : Z;
  kr_segments_encrypted : Z;
  kr_segments_skipped : Z
}.

Notation KM := (M RotDir WalError).

Definition set_tmp (idx : Z) (bs : bytes) (s : RotDir) : RotDir := mkRotDir (rd_files s) (<[idx := bs]> (rd_tmp s)).
Definition append_tmp (idx : Z) (bs : bytes) (s : RotDir) : RotDir :=
  set_tmp idx (default [] (rd_tmp s !! idx) ++ bs) s.
(** [fs::rename(&tmp_path, seg_path)] *)
Definition rename_tmp (idx : Z) (s : RotDir) : RotDir :=
  mkRotDir (<[idx := default [] (rd_tmp s !! idx)]> (rd_files s)) (delete idx (rd_tmp s)).

(** The errors at which the reading loop stops. *)
Definition stops_reading (e : WalError) : bool :=
  match e with ChecksumMismatch _ _ | TruncatedRecord _ _ _ | BadMagic | Decryption => true | _ => false end.

Section rotate.
Context `{WalExt}.

Definition plaintext_of (r : WalRecord) : Result WalError bytes :=
  header_bytes ← ok_or (enc (r_header r)) WalSerialization;
  Ok (header_bytes ++ r_payload r ++ le32 (r_crc32 r)).

(** The reading loop: the plaintexts of the records up to the first error. *)
Fixpoint read_plaintexts (items : list (Result WalError WalRecord)) : Result WalError (list bytes) :=
  match items with
  | [] => Ok []
  | Err e :: _ => if stops_reading e then Ok [] else Err e
  | Ok r :: items => p ← plaintext_of r; ps ← read_plaintexts items; Ok (p :: ps)
  end.

Definition first_is_plaintext (first : bytes) : bool :=
  (4 <=? length first)%nat && negb (le_val (take 4 first) =? ENCRYPTED_MAGIC).

(** [tmp.write_all]: on failure a prefix may be in the file. *)
Definition write_tmp (idx : Z) (data : bytes) : KM unit :=
  w ← attempt (io WalIo);
  match w with
  | Ok _ => modify (append_tmp idx data)
  | Err e =>
      n ← rand;
      _ ← modify (append_tmp idx (take (Z.to_nat (n mod (Z.of_nat (length data) + 1))) data));
      throw e
  end.

Fixpoint write_sealed (idx : Z) (seg_key : bytes) (ps : list bytes) : KM unit :=
  match ps with
  | [] => mret tt
  | p :: ps =>
      r ← rand;
      blob ← liftR (encrypt_record seg_key (le_bytes 12 r) p idx);
      _ ← write_tmp idx blob;
      write_sealed idx seg_key ps
  end.

Definition reencrypt_segment (idx : Z) (old_master_key : option bytes) (new_master_key : bytes) : KM bool :=
  new_seg_key ← liftR (derive_segment_key new_master_key idx);
  _ ← io WalIo;
  f ← gets (λ s, rd_files s !! idx);
  content ← liftR (ok_or f WalIo);
  records ← liftR (read_plaintexts (segment_items old_master_key idx content));
  r ← attempt (io WalIo);
  let was_plaintext := first_is_plaintext (match r with Ok _ => content | Err _ => [] end) in
  match records with
  | [] => mret was_plaintext
  | _ =>
      _ ← io WalIo;
      _ ← modify (set_tmp idx []);
      _ ← write_sealed idx new_seg_key records;
      _ ← io WalIo;
      _ ← io WalIo;
      _ ← io WalIo;
      _ ← modify (rename_tmp idx);
      mret was_plaintext
  end.

(** The loop over the segments, with the two counters. *)
Fixpoint rotate_loop (old_master_key : option bytes) (new_master_key : bytes) (segments : list Z) (rotated encrypted : Z)
    : KM (Z * Z) :=
  match segments with
  | [] => mret (rotated, encrypted)
  | idx :: segments =>
      was_plaintext ← reencrypt_segment idx old_master_key new_master_key;
      if was_plaintext : bool then rotate_loop old_master_key new_master_key segments rotated (encrypted + 1)
      else rotate_loop old_master_key new_master_key segments (rotated + 1) encrypted
  end.

Definition rotate_wal_key (old_master_key : option bytes) (new_master_key : bytes) (skip_active : bool) : KM KeyRotationResult :=
  _ ← io WalIo;
  segments ← gets (λ s, list_segments (rd_files s));
  match segments with
  | [] => mret (mkRotation 0 0 0)
  | _ =>
      let todo := if skip_active then removelast segments else segments in
      let skipped := if skip_active then 1 else 0 in
      '(rotated, encrypted) ← rotate_loop old_master_key new_master_key todo 0 0;
      mret (mkRotation rotated encrypted skipped)
  end.

(** ** What a segment holds *)

(** The bytes of a record sealed for a segment under a master key. *)
Definition sealed (mk : bytes) (idx : Z) (r : WalRecord) (c : bytes) : Prop :=
  ∃ sk nonce, derive_segment_key mk idx = Ok sk ∧ length nonce = 12%nat ∧
    encrypt_record sk nonce (encode_record r) idx = Ok c.

(** A record whose sealed form the reader accepts. *)
Definition seal_fits (r : WalRecord) : Prop := Z.of_nat (length (r_payload r)) ≤ MAX_RECORD_PAYLOAD - 54.

Lemma sealed_stored mk idx r c : seal_fits r → sealed mk idx r c → stored (Some mk) idx r c.
Proof.
  intros Hf (sk & nonce & Hd & Hn & He). eapply stored_enc; [done..|]. rewrite (encrypt_record_length _ _ _ _ _ Hn He).
  unfold encode_record. rewrite !length_app, header_fields_length. unfold HEADER_SIZE, le32, seal_fits in *.
  rewrite le_bytes_length. lia.
Qed.

Lemma plaintext_of_ok r : record_ok r → plaintext_of r = Ok (encode_record r).
Proof. intros (Hh & _). unfold plaintext_of, encode_record. by rewrite (header_layout _ Hh). Qed.

Lemma read_plaintexts_ok rs tl : Forall record_ok rs → (∀ e tl', tl = Err e :: tl' → stops_reading e = true) →
  (∀ r tl', tl ≠ Ok r :: tl') → read_plaintexts (map Ok rs ++ tl) = Ok (map encode_record rs).
Proof.
  intros Hok Htl Hno. induction Hok as [|r rs Hr _ IH]; cbn.
  - destruct tl as [|[r|e] tl]; [done|by destruct (Hno r tl)|]. cbn. by rewrite (Htl e tl eq_refl).
  - rewrite plaintext_of_ok by done. cbn. by rewrite IH.
Qed.

(** ** The temporary file *)

Definition files_are (d : gmap Z bytes) (s : RotDir) : Prop := rd_files s = d.

Lemma write_tmp_keeps d idx data : preserves (files_are d) (write_tmp idx data).
Proof. unfold write_tmp. solve_preserves; apply preserves_modify; by intros s. Qed.
Hint Resolve write_tmp_keeps : preserves.
Lemma write_sealed_keeps d idx k ps : preserves (files_are d) (write_sealed idx k ps).
Proof. induction ps as [|p ps IH]; cbn [write_sealed]; solve_preserves. Qed.

Lemma write_tmp_Ok idx data W s u W' s' :
  write_tmp idx data (W, s) = (Ok u, (W', s')) → s' = append_tmp idx data s.
Proof.
  unfold write_tmp. intros (r & [W1 s1] & Ha & Hw)%mbind_Ok_inv. unfold attempt, io in Ha.
  destruct (default false (head (w_io W))); simplify_eq/=; by minv.
Qed.

(** A successful run leaves the sealed records, in order, in the file. *)
Lemma write_sealed_Ok mk idx k rs : ∀ W s u W' s', derive_segment_key mk idx = Ok k →
  write_sealed idx k (map encode_record rs) (W, s) = (Ok u, (W', s')) →
  ∃ cs, Forall2 (sealed mk idx) rs cs ∧ s' = mkRotDir (rd_files s) (rd_tmp s') ∧
    default [] (rd_tmp s' !! idx) = default [] (rd_tmp s !! idx) ++ concat cs.
Proof.
  induction rs as [|r rs IH]; intros W s u W' s' Hk Hw; cbn [map write_sealed] in Hw.
  { minv. exists []. rewrite app_nil_r. split_and!; [constructor|by destruct s'|done]. }
  unfold rand in Hw. apply mbind_Ok_inv in Hw as (n & [W1 s1] & Hn & Hw). simplify_eq/=.
  apply mbind_Ok_inv in Hw as (blob & [W2 s2] & Hb & Hw). unfold liftR in Hb. simplify_eq/=.
  apply mbind_Ok_inv in Hw as (u1 & [W3 s3] & Ht & Hw). apply write_tmp_Ok in Ht as ->.
  apply IH in Hw as (cs & Hcs & Hf & Hc); [|done]. exists (blob :: cs). split_and!.
  - constructor; [|done]. eexists _, _. split_and!; [done| |done]. apply le_bytes_length.
  - exact Hf.
  - rewrite Hc. cbn. rewrite lookup_insert_eq. cbn. by rewrite app_assoc.
Qed.

(** ** One segment *)

(** The file of segment [idx] holds the records [rs] as they were, or sealed
    under the new key. *)
Definition resealed (mk : bytes) (idx : Z) (rs : list WalRecord) (d : gmap Z bytes) : Prop :=
  ∃ cs, Forall2 (sealed mk idx) rs cs ∧ d !! idx = Some (concat cs).

Definition only_changes (idx : Z) (d d' : gmap Z bytes) : Prop := ∀ i, i ≠ idx → d' !! i = d !! i.

(** A failed call has not touched the segments. *)
Lemma reencrypt_segment_Err d idx old mk :
  triple (files_are d) (reencrypt_segment idx old mk) (λ _ _, True) (files_are d).
Proof.
  unfold reencrypt_segment. do 6 (eapply triple_bind; [apply triple_preserves; solve_preserves|intros ?]).
  case_match; [by intros ??|].
  eapply triple_bind; [apply triple_preserves, preserves_io|intros ?].
  eapply triple_bind; [apply triple_preserves, preserves_modify; by intros ?|intros ?].
  eapply triple_bind; [apply triple_preserves, write_sealed_keeps|intros ?].
  do 3 (eapply triple_bind; [apply triple_preserves, preserves_io|intros ?]).
  by intros ? ? _.
Qed.

(** On every path the segment is as it was or its records are sealed under the
    new key; on success the latter. *)
Lemma reencrypt_segment_spec idx old mk content rs tl d :
  d !! idx = Some content → segment_items old idx content = map Ok rs ++ tl → Forall record_ok rs →
  (∀ e tl', tl = Err e :: tl' → stops_reading e = true) → (∀ r tl', tl ≠ Ok r :: tl') → rs ≠ [] →
  triple (files_are d) (reencrypt_segment idx old mk)
    (λ _ s, resealed mk idx rs (rd_files s) ∧ only_changes idx d (rd_files s) ∧ dom (rd_files s) = dom d) (files_are d).
Proof.
  intros Hd Hi Hok Htl Hno Hne W s Hs. destruct (reencrypt_segment idx old mk (W, s)) as [[b|e] [W' s']] eqn:Hr.
  - unfold reencrypt_segment in Hr.
    apply mbind_Ok_inv in Hr as (k & [W1 s1] & Hk & Hr). unfold liftR in Hk. simplify_eq/=.
    apply mbind_Ok_inv in Hr as (u1 & [W2 s2] & Ho & Hr). apply io_Ok in Ho; cbn in Ho; subst s2.
    apply mbind_Ok_inv in Hr as (f & [W3 s3] & Hf & Hr). unfold gets in Hf. simplify_eq/=.
    rewrite Hs, Hd in Hr. cbn [ok_or] in Hr. apply mbind_Ok_inv in Hr as (c & [W4 s4] & Hc & Hr). unfold liftR in Hc. simplify_eq/=.
    rewrite Hi, read_plaintexts_ok in Hr by done. apply mbind_Ok_inv in Hr as (ps & [W5 s5] & Hp & Hr). unfold liftR in Hp. simplify_eq/=.
    apply mbind_Ok_inv in Hr as (r & [W6 s6] & Ha & Hr).
    assert (s6 = s5) as -> by (unfold attempt, io in Ha; cbn in Ha; by simplify_eq).
    destruct (map encode_record rs) as [|p ps] eqn:Hps; [by destruct rs|]. rewrite <- Hps in Hr. clear Hps p ps.
    apply mbind_Ok_inv in Hr as (u2 & [W7 s7] & Hx & Hr). apply io_Ok in Hx; cbn in Hx; subst s7.
    apply mbind_Ok_inv in Hr as (u3 & [W8 s8] & Hx & Hr). unfold modify in Hx. simplify_eq/=.
    apply mbind_Ok_inv in Hr as (u4 & [W9 s9] & Hx & Hr). apply (write_sealed_Ok mk) in Hx as (cs & Hcs & Hf & Hc); [|done].
    do 3 (apply mbind_Ok_inv in Hr as (? & [? ?] & Hx & Hr); apply io_Ok in Hx; cbn in Hx; subst).
    apply mbind_Ok_inv in Hr as (? & [? ?] & Hx & Hr). unfold modify in Hx. minv.
    rewrite Hf in *. cbn [rd_files rd_tmp set_tmp] in *. rewrite Hc, lookup_insert_eq. cbn [default from_option id app].
    unfold files_are in Hs. split_and!.
    + exists cs. split; [done|]. by rewrite lookup_insert_eq.
    + intros i Hneq. rewrite lookup_insert_ne by done. by rewrite Hs.
    + rewrite Hs, dom_insert_L. assert (idx ∈ dom d) by (apply elem_of_dom; by rewrite Hd). set_solver.
  - pose proof (reencrypt_segment_Err d idx old mk W s Hs) as Hk. by rewrite Hr in Hk.
Qed.

(** Nothing to read: the segment stays as it is. *)
Lemma reencrypt_segment_nothing idx old mk content tl d :
  d !! idx = Some content → segment_items old idx content = tl → read_plaintexts tl = Ok [] →
  preserves (files_are d) (reencrypt_segment idx old mk).
Proof.
  intros Hd Hi Hp. apply triple_preserves. unfold reencrypt_segment.
  do 2 (eapply triple_bind; [apply triple_preserves; solve_preserves|intros ?]).
  eapply triple_bind; [apply triple_gets|intros f]. intros W s [Hs ->]. rewrite Hs, Hd. cbn [ok_or].
  rewrite (mbind_eq _ _ _ content (W, s)) by done. rewrite Hi, Hp. rewrite (mbind_eq _ _ _ [] (W, s)) by done.
  unfold mbind, M_bind, attempt, io. cbn. done.
Qed.

(** ** All segments *)

(** Where the segments are after [done_] of them were rewritten. *)
Definition rotated_dir (mk : bytes) (d : gmap Z bytes) (done_ todo : list seg) (d' : gmap Z bytes) : Prop :=
  dom d' = dom d ∧ Forall (λ s, resealed mk s.1 (seg_records s) d') done_ ∧ Forall (λ s, d' !! s.1 = Some (seg_content s)) todo.

Lemma resealed_other mk idx rs i d d' : only_changes idx d d' → i ≠ idx → resealed mk i rs d → resealed mk i rs d'.
Proof. intros Ho Hne (cs & Hcs & Hd). exists cs. by rewrite (Ho i Hne). Qed.

Lemma rotated_dir_next mk d done_ s todo d1 d2 :
  rotated_dir mk d done_ (s :: todo) d1 → NoDup (map fst (done_ ++ s :: todo)) →
  resealed mk s.1 (seg_records s) d2 → only_changes s.1 d1 d2 → dom d2 = dom d1 → rotated_dir mk d (done_ ++ [s]) todo d2.
Proof.
  intros (Hdom & Hdone & Htodo) Hnd Hr Ho Hd. apply Forall_cons in Htodo as [_ Htodo].
  rewrite map_app in Hnd. cbn in Hnd. apply NoDup_app in Hnd as (_ & Hdis & Hnd). apply NoDup_cons in Hnd as [Hni _].
  split_and!; [congruence| |].
  - apply Forall_app. split; [|by repeat constructor]. rewrite Forall_forall in Hdone |- *. intros x Hx.
    eapply resealed_other; [exact Ho| |by apply Hdone]. intros Heq. apply (Hdis x.1); [by apply list_elem_of_fmap_2|]. rewrite Heq. by left.
  - rewrite Forall_forall in Htodo |- *. intros x Hx. rewrite Ho; [by apply Htodo|].
    intros Heq. apply Hni. rewrite <- Heq. by apply list_elem_of_fmap_2.
Qed.

Lemma reencrypt_seg s old mk d :
  seg_ok old s → d !! s.1 = Some (seg_content s) →
  triple (files_are d) (reencrypt_segment s.1 old mk)
    (λ _ x, resealed mk s.1 (seg_records s) (rd_files x) ∧ only_changes s.1 d (rd_files x) ∧ dom (rd_files x) = dom d) (files_are d).
Proof.
  intros Hok Hd. pose proof (segment_items_seg _ _ Hok) as Hi. apply seg_ok_split in Hok as [Hrec Hst].
  destruct (seg_records s) as [|r rs] eqn:Hr.
  - eapply triple_weaken; [apply triple_preserves, (reencrypt_segment_nothing _ _ _ _ [] _ Hd Hi eq_refl)|done| |done].
    intros b x ->. split_and!; [|by intros i _|done]. exists []. split; [constructor|]. rewrite Hd.
    apply Forall2_nil_inv_l in Hst. unfold seg_content. by rewrite Hst.
  - apply (reencrypt_segment_spec _ _ _ (seg_content s) _ []); [done|by rewrite Hi, app_nil_r|done..].
Qed.

(** The loop, on every path. *)
Lemma rotate_loop_spec old mk d todo : ∀ done_ rest n m,
  NoDup (map fst (done_ ++ todo ++ rest)) → Forall (seg_ok old) todo →
  triple (λ x, rotated_dir mk d done_ (todo ++ rest) (rd_files x)) (rotate_loop old mk (map fst todo) n m)
    (λ _ x, rotated_dir mk d (done_ ++ todo) rest (rd_files x))
    (λ x, ∃ k, rotated_dir mk d (done_ ++ take k todo) (drop k todo ++ rest) (rd_files x)).
Proof.
  induction todo as [|s todo IH]; intros done_ rest n m Hnd Hok; cbn [map rotate_loop].
  { intros W x Hx. cbn. by rewrite app_nil_r. }
  apply Forall_cons in Hok as [Hs Hok]. intros W x Hx.
  assert (Hd : rd_files x !! s.1 = Some (seg_content s)) by (destruct Hx as (_ & _ & [Hh _]%Forall_cons); done).
  pose proof (reencrypt_seg s old mk (rd_files x) Hs Hd W x eq_refl) as Hr. unfold mbind, M_bind.
  destruct (reencrypt_segment s.1 old mk (W, x)) as [[b|e] [W1 x1]]; cbn in Hr.
  - destruct Hr as (Hres & Ho & Hdom).
    assert (Hx1 : rotated_dir mk d (done_ ++ [s]) (todo ++ rest) (rd_files x1)) by (by eapply rotated_dir_next).
    assert (Hnd1 : NoDup (map fst ((done_ ++ [s]) ++ todo ++ rest))) by (by rewrite <- app_assoc).
    assert (Ht : ∀ n m, match rotate_loop old mk (map fst todo) n m (W1, x1) with
      | (Ok _, (_, x')) => rotated_dir mk d (done_ ++ s :: todo) rest (rd_files x')
      | (Err _, (_, x')) => ∃ k, rotated_dir mk d (done_ ++ take k (s :: todo)) (drop k (s :: todo) ++ rest) (rd_files x') end).
    { intros n' m'. pose proof (IH (done_ ++ [s]) rest n' m' Hnd1 Hok W1 x1 Hx1) as Hi.
      destruct (rotate_loop old mk (map fst todo) n' m' (W1, x1)) as [[c|e] [W2 x2]]; [by rewrite <- app_assoc in Hi|].
      destruct Hi as [k Hk]. exists (S k). by rewrite <- app_assoc in Hk. }
    destruct b; apply Ht.
  - exists 0%nat. rewrite take_0, drop_0, app_nil_r, Hr. done.
Qed.

(** Every segment the loop gets through is counted once. *)
Lemma rotate_loop_counts old mk segs : ∀ n m,
  triple (λ _, True) (rotate_loop old mk segs n m) (λ ab _, ab.1 + ab.2 = n + m + Z.of_nat (length segs)) (λ _, True).
Proof.
  induction segs as [|i segs IH]; intros n m W x _; cbn [rotate_loop length]; [cbn; lia|].
  unfold mbind, M_bind. destruct (reencrypt_segment i old mk (W, x)) as [[b|e] [W1 x1]]; [|done].
  assert (Hs : ∀ n' m', n' + m' = n + m + 1 → match rotate_loop old mk segs n' m' (W1, x1) with
    | (Ok ab, _) => ab.1 + ab.2 = n + m + Z.of_nat (S (length segs)) | (Err _, _) => True end).
  { intros n' m' Hnm. pose proof (IH n' m' W1 x1 I) as Hi. destruct (rotate_loop old mk segs n' m' (W1, x1)) as [[ab|e] [W2 x2]]; [lia|done]. }
  destruct b.
  - pose proof (Hs n (m + 1) ltac:(lia)) as Ha. by destruct (rotate_loop old mk segs n (m + 1) (W1, x1)) as [[ab|e] [W2 x2]].
  - pose proof (Hs (n + 1) m ltac:(lia)) as Ha. by destruct (rotate_loop old mk segs (n + 1) m (W1, x1)) as [[ab|e] [W2 x2]].
Qed.

Lemma rotate_start old mk skip ss W d tmp r W' s' :
  dir_repr old d ss → rotate_wal_key old mk skip (W, mkRotDir d tmp) = (r, (W', s')) →
  let todo := if skip : bool then removelast ss else ss in
  (∃ e, r = Err e ∧ s' = mkRotDir d tmp) ∨ (ss = [] ∧ r = Ok (mkRotation 0 0 0) ∧ s' = mkRotDir d tmp) ∨
  ∃ W1, match rotate_loop old mk (map fst todo) 0 0 (W1, mkRotDir d tmp) with
        | (Ok (a, b), (_, x)) => s' = x ∧ r = Ok (mkRotation a b (if skip then 1 else 0))
        | (Err e, (_, x)) => s' = x ∧ r = Err e end.
Proof.
  intros (Hl & _ & _) Hr todo. unfold rotate_wal_key in Hr. unfold mbind at 1, M_bind at 1 in Hr. unfold io in Hr at 1.
  destruct (default false (head (w_io W))); [left; simplify_eq; eauto|]. right.
  set (W1 := mkWorld _ _ _) in Hr. rewrite (mbind_eq _ _ _ (list_segments d) (W1, mkRotDir d tmp)) in Hr by done. rewrite Hl in Hr.
  destruct (map fst ss) as [|i l] eqn:Hm; [left; destruct ss; [|done]; unfold mret, M_ret in Hr; by simplify_eq|].
  right. exists W1. rewrite <- Hm in Hr. assert (Ht : (if skip then removelast (map fst ss) else map fst ss) = map fst todo).
  { unfold todo. destruct skip; [|done]. clear. induction ss as [|s [|s' ss] IH]; [done..|]. cbn [map removelast] in *. by rewrite IH. }
  rewrite Ht in Hr. unfold mbind, M_bind in Hr.
  destruct (rotate_loop old mk (map fst todo) 0 0 (W1, mkRotDir d tmp)) as [[[a b]|e] [W2 x]]; unfold mret, M_ret in Hr; by simplify_eq.
Qed.

Lemma removelast_take {A} (l : list A) : removelast l = take (pred (length l)) l.
Proof. induction l as [|a [|b l] IH]; [done..|]. cbn [removelast length pred take] in *. by rewrite IH. Qed.

(** C35: Key rotation is safe at every point: take a directory whose segments
    read back under the old key; in any environment, whatever call of the
    rotation fails, some first segments hold exactly their records sealed under
    the new key and the others are byte for byte as before; no segment is lost
    and none is in between.  When the rotation returns [Ok] it has rewritten all
    segments, or all but the last when the active one is skipped, and the
    counters add up to that number. *)
Theorem rotation_crash_safe old mk skip ss W d tmp r W' s' :
  dir_repr old d ss → rotate_wal_key old mk skip (W, mkRotDir d tmp) = (r, (W', s')) →
  ∃ k, list_segments (rd_files s') = list_segments d ∧
  Forall (λ s, resealed mk s.1 (seg_records s) (rd_files s')) (take k ss) ∧
  Forall (λ s, rd_files s' !! s.1 = Some (seg_content s)) (drop k ss) ∧
  (∀ res, r = Ok res → k = (if skip then pred (length ss) else length ss) ∧
     kr_segments_rotated res + kr_segments_encrypted res = Z.of_nat k).
Proof.
  unfold seg in *. intros Hrep Hr. pose proof Hrep as (Hl & Hc & Hok). apply (rotate_start old mk skip ss) in Hr; [|done].
  assert (Hnd : NoDup (map fst ss)) by (rewrite <- Hl; apply list_segments_NoDup).
  destruct Hr as [(e & -> & ->)|[(-> & -> & ->)|(W1 & Hr)]].
  - exists 0%nat. split_and!; [done|rewrite take_0; constructor|by rewrite drop_0|done].
  - exists 0%nat. split_and!; [done|constructor..|]. intros res [= <-]. by destruct skip.
  - set (k0 := if skip then pred (length ss) else length ss).
    assert (Ht : (if skip then removelast ss else ss) = take k0 ss).
    { unfold k0. destruct skip; [apply removelast_take|by rewrite firstn_all]. }
    unfold seg in *. rewrite Ht in Hr. assert (Hsplit : take k0 ss ++ drop k0 ss = ss) by apply take_drop.
    pose proof (rotate_loop_spec old mk d (take k0 ss) [] (drop k0 ss) 0 0) as Hspec. unfold seg in Hspec. cbn [app] in Hspec. rewrite Hsplit in Hspec.
    specialize (Hspec Hnd (Forall_take _ _ _ Hok) W1 (mkRotDir d tmp)). cbn [rd_files] in Hspec.
    pose proof (rotate_loop_counts old mk (map fst (take k0 ss)) 0 0 W1 (mkRotDir d tmp) I) as Hcnt.
    rewrite length_map, length_take in Hcnt.
    assert (Hk0 : (k0 ≤ length ss)%nat) by (unfold k0; destruct skip; lia).
    destruct (rotate_loop old mk _ 0 0 (W1, mkRotDir d tmp)) as [[[a b]|e] [W2 x]]; destruct Hr as [-> ->].
    + exists k0. destruct Hspec as (Hdom & Hd1 & Hd2); [split_and!; [done|constructor|done]|].
      split_and!; [by apply list_segments_dom|done..|]. intros res [= <-]. cbn in *. split; [done|lia].
    + destruct Hspec as (k & Hdom & Hd1 & Hd2); [split_and!; [done|constructor|done]|]. exists (k `min` k0)%nat.
      split_and!; [by apply list_segments_dom| | |done].
      * rewrite take_take in Hd1. done.
      * replace (drop (k `min` k0) ss) with (drop k (take k0 ss) ++ drop k0 ss); [done|].
        rewrite <- Hsplit at 3. destruct (decide (k ≤ k0)%nat).
        -- rewrite Nat.min_l, drop_app_le by (rewrite ?length_take; lia). done.
        -- rewrite Nat.min_r by lia. rewrite (drop_ge (take k0 ss)) by (rewrite length_take; lia).
           rewrite drop_app_length' by (rewrite length_take; lia). done.
Qed.

(** ** Reading the log after the rotation *)

Lemma resealed_items mk idx rs d :
  Forall record_ok rs → Forall seal_fits rs → resealed mk idx rs d → segment_items (Some mk) idx (default [] (d !! idx)) = map Ok rs.
Proof.
  intros Hok Hf (cs & Hcs & ->). cbn [default from_option id].
  assert (Hz : seg_ok (Some mk) (idx, zip rs cs) ∧ map snd (zip rs cs) = cs ∧ map fst (zip rs cs) = rs).
  { unfold seg_ok. cbn [fst snd]. clear d. revert Hok Hf. induction Hcs as [|r c rs cs Hc _ IH]; intros Hok Hf; [by repeat constructor|].
    apply Forall_cons in Hok as [Hr Hok], Hf as [Hfr Hf]. destruct (IH Hok Hf) as (H1' & H2' & H3'). cbn. rewrite H2', H3'.
    split_and!; [|done..]. constructor; [|done]. split; [done|]. by apply sealed_stored. }
  destruct Hz as (Hz & Hsnd & Hfst). pose proof (segment_items_seg _ _ Hz) as Hi. unfold seg_content, seg_records in Hi.
  cbn [fst snd] in Hi. by rewrite Hsnd, Hfst in Hi.
Qed.

(** The segments in the state the loop leaves them, read under the new key. *)
Lemma rotated_items old mk d ss done_ todo d' :
  dir_repr old d ss → ss = done_ ++ todo → Forall (λ s, Forall seal_fits (seg_records s)) done_ →
  Forall (λ s : seg, 0 ≤ s.1) ss → rotated_dir mk d done_ todo d' →
  wal_items d' (Some mk) 0 = map Ok (flat_map seg_records done_) ++ flat_map (λ s, segment_items (Some mk) s.1 (seg_content s)) todo.
Proof.
  intros (Hl & _ & Hok) -> Hfit Hpos (Hdom & Hdone & Htodo). unfold wal_items.
  rewrite (list_segments_dom d' d Hdom), Hl, filter_all by (apply Forall_map; exact Hpos).
  apply Forall_app in Hok as [Hok _]. clear Hl Hpos Hdom. rewrite map_app, flat_map_app. f_equal.
  - induction done_ as [|s ss IH]; [done|]. apply Forall_cons in Hok as [Hs Hok], Hfit as [Hf Hfit], Hdone as [Hd Hdone].
    cbn [map flat_map]. rewrite (resealed_items mk s.1 (seg_records s)) by (try done; by apply seg_ok_split in Hs as []).
    by rewrite IH, map_app.
  - induction todo as [|s ss IH]; [done|]. apply Forall_cons in Htodo as [Hd Htodo]. cbn [map flat_map]. rewrite Hd, IH by done. done.
Qed.

(** ** Without failures *)

(** Sealing works for the new key: the derivation and the cipher return. *)
Definition can_seal (mk : bytes) (segs : list Z) : Prop :=
  Forall (λ i, is_ok (derive_segment_key mk i) = true) segs ∧ ∀ k n a m, is_Some (aead_encrypt k n a m).

Lemma write_sealed_succeeds idx k ps : ∀ W s, w_io W = [] → (∀ k n a m, is_Some (aead_encrypt k n a m)) → succeeds (write_sealed idx k ps) W s.
Proof.
  induction ps as [|p ps IH]; intros W s Hio Ha; cbn [write_sealed]; [by apply succeeds_ret|].
  step_ok. apply succeeds_bind.
  { unfold encrypt_record. destruct (Ha k (le_bytes 12 a) (le64 idx) p) as [ct ->]. by eapply succeeds_liftR. }
  intros blob W2 s2 _ Hio2. apply succeeds_bind; [|intros; by apply IH].
  unfold write_tmp. apply succeeds_bind; [by apply succeeds_attempt, succeeds_io|].
  intros r W3 s3 Hr Hio3. unfold attempt, io in Hr. rewrite Hio2 in Hr. cbn in Hr. simplify_eq. by apply succeeds_modify.
Qed.

Lemma reencrypt_segment_succeeds s old mk W x :
  w_io W = [] → seg_ok old s → rd_files x !! s.1 = Some (seg_content s) → can_seal mk [s.1] →
  succeeds (reencrypt_segment s.1 old mk) W x.
Proof.
  intros Hio Hok Hd [Hk Ha]. apply Forall_cons in Hk as [Hk _]. unfold reencrypt_segment.
  destruct (derive_segment_key mk s.1) as [k|] eqn:Hkey; [|done]. apply succeeds_bind; [by eapply succeeds_liftR|].
  intros k' W1 x1 Hk1 Hio1. unfold liftR in Hk1. simplify_eq. apply succeeds_bind; [by apply succeeds_io|].
  intros u W2 x2 Hu Hio2. apply io_Ok in Hu; cbn in Hu; subst x2. apply succeeds_bind; [by apply succeeds_gets|].
  intros f W3 x3 Hf Hio3. unfold gets in Hf. simplify_eq. rewrite Hd. apply succeeds_bind; [by eapply succeeds_liftR|].
  intros c W4 x4 Hc Hio4. unfold liftR in Hc. cbn [ok_or] in Hc. simplify_eq.
  rewrite (segment_items_seg _ _ Hok). apply seg_ok_split in Hok as [Hrec _].
  rewrite <- (app_nil_r (map Ok _)), read_plaintexts_ok by done. apply succeeds_bind; [by eapply succeeds_liftR|].
  intros ps W5 x5 _ Hio5. apply succeeds_bind; [by apply succeeds_attempt, succeeds_io|]. intros r W6 x6 _ Hio6. cbv zeta.
  destruct ps as [|p ps]; [by apply succeeds_ret|]. do 2 step_ok. apply succeeds_bind; [by apply write_sealed_succeeds|].
  intros ? ? ? _ ?. do 4 step_ok. by apply succeeds_ret.
Qed.

Lemma rotate_loop_succeeds old mk d todo : ∀ done_ rest n m W x, w_io W = [] →
  NoDup (map fst (done_ ++ todo ++ rest)) → Forall (seg_ok old) todo → can_seal mk (map fst todo) →
  rotated_dir mk d done_ (todo ++ rest) (rd_files x) → succeeds (rotate_loop old mk (map fst todo) n m) W x.
Proof.
  induction todo as [|s todo IH]; intros done_ rest n m W x Hio Hnd Hok [Hk Ha] Hx; cbn [map rotate_loop]; [by apply succeeds_ret|].
  cbn [map] in Hk. apply Forall_cons in Hok as [Hs Hok], Hk as [Hk1 Hk].
  assert (Hd : rd_files x !! s.1 = Some (seg_content s)) by (destruct Hx as (_ & _ & [Hh _]%Forall_cons); done).
  apply succeeds_bind.
  { apply reencrypt_segment_succeeds; [done..|]. split; [|done]. constructor; [done|constructor]. }
  intros b W1 x1 Hr Hio1.
  pose proof (reencrypt_seg s old mk (rd_files x) Hs Hd W x eq_refl) as Hsp. rewrite Hr in Hsp. destruct Hsp as (Hres & Ho & Hdom).
  assert (Hx1 : rotated_dir mk d (done_ ++ [s]) (todo ++ rest) (rd_files x1)) by (by eapply rotated_dir_next).
  destruct b; (apply (IH (done_ ++ [s]) rest); [done|rewrite <- app_assoc; exact Hnd|done|by split|done]).
Qed.

Lemma rotate_wal_key_succeeds old mk ss W d tmp :
  dir_repr old d ss → can_seal mk (map fst ss) → w_io W = [] →
  ∃ res W' s', rotate_wal_key old mk false (W, mkRotDir d tmp) = (Ok res, (W', s')) ∧ rotated_dir mk d ss [] (rd_files s').
Proof.
  intros Hrep Hseal Hio. pose proof Hrep as (Hl & Hc & Hok).
  assert (Hnd : NoDup (map fst ss)) by (rewrite <- Hl; apply list_segments_NoDup).
  assert (Hs : succeeds (rotate_wal_key old mk false) W (mkRotDir d tmp)).
  { unfold rotate_wal_key. step_ok. match goal with Hu : io _ _ = _ |- _ => apply io_Ok in Hu; cbn in Hu; subst end.
    apply succeeds_bind; [by apply succeeds_gets|]. intros segs W2 x2 Hg Hio2. unfold gets in Hg. simplify_eq/=. rewrite Hl.
    destruct (map fst ss) as [|i l] eqn:Hm; [by apply succeeds_ret|]. rewrite <- Hm in *. cbv zeta iota.
    apply succeeds_bind; [|intros [??] ???; by apply succeeds_ret].
    apply (rotate_loop_succeeds old mk d ss [] []); rewrite ?app_nil_r; try done. }
  destruct Hs as (res & W' & s' & Hr & _). exists res, W', s'. split; [done|].
  apply (rotate_start old mk false ss) in Hr; [|done].
  destruct Hr as [(e & ? & _)|[(-> & _ & ->)|(W1 & Hr)]]; [done|by split_and!; [|apply Forall_nil_2..]|].
  pose proof (rotate_loop_spec old mk d ss [] [] 0 0) as Hspec. cbn [app] in Hspec. rewrite app_nil_r in Hspec.
  specialize (Hspec Hnd Hok W1 (mkRotDir d tmp)). destruct (rotate_loop old mk _ 0 0 (W1, mkRotDir d tmp)) as [[[a b]|e] [W2 x]]; [|by destruct Hr].
  destruct Hr as [-> _]. apply Hspec. split_and!; [done|constructor|done].
Qed.

(** ** What the rotation leaves behind *)

(** A wrong old key is reported as success: when nothing in the log can be
    decrypted under the given old key, rotation without failures returns [Ok],
    counts every segment as rotated or encrypted, and leaves every file as it
    was, readable under neither the given old key nor the new one. *)
Theorem rotation_with_wrong_key old mk skip W d tmp res W' s' :
  rotate_wal_key old mk skip (W, mkRotDir d tmp) = (Ok res, (W', s')) →
  (∀ idx content, d !! idx = Some content → ∃ tl, segment_items old idx content = Err Decryption :: tl) →
  rd_files s' = d ∧
  kr_segments_rotated res + kr_segments_encrypted res + kr_segments_skipped res = Z.of_nat (length (list_segments d)).
Proof.
  intros Hr Hbad. unfold rotate_wal_key in Hr. apply mbind_Ok_inv in Hr as (u & [W1 x] & Hio & Hr).
  apply io_Ok in Hio; cbn in Hio; subst x. rewrite (mbind_eq _ _ _ (list_segments d) (W1, mkRotDir d tmp)) in Hr by done.
  assert (Hloop : ∀ segs n m, (∀ i, i ∈ segs → is_Some (d !! i)) → preserves (files_are d) (rotate_loop old mk segs n m)).
  { induction segs as [|i segs IH]; intros n m Hin; cbn [rotate_loop]; [apply preserves_ret|]. apply preserves_bind.
    - destruct (Hin i ltac:(by left)) as [c Hc]. destruct (Hbad i c Hc) as [tl Hi].
      by apply (reencrypt_segment_nothing i old mk c (Err Decryption :: tl) d Hc Hi).
    - intros [|]; apply IH; intros j Hj; apply Hin; by right. }
  assert (Hsegs : ∀ i, i ∈ list_segments d → is_Some (d !! i)) by (intros i; apply elem_of_sorted_keys).
  destruct (list_segments d) as [|i l] eqn:Hl; [unfold mret, M_ret in Hr; by simplify_eq|]. rewrite <- Hl in *. cbv zeta in Hr.
  apply mbind_Ok_inv in Hr as ([a b] & [W2 x] & Hr & Hx). unfold mret, M_ret in Hx. simplify_eq/=.
  set (todo := if skip then removelast (list_segments d) else list_segments d) in *.
  assert (Hlen : Z.of_nat (length todo) + (if skip then 1 else 0) = Z.of_nat (length (list_segments d))).
  { unfold todo. destruct skip; [|lia]. rewrite removelast_take, length_take, Hl. cbn [length pred]. lia. }
  assert (Htodo : ∀ i, i ∈ todo → is_Some (d !! i)).
  { intros j Hj. apply Hsegs. unfold todo in Hj. destruct skip; [|done]. rewrite removelast_take in Hj. by apply (subseteq_take _ _ j Hj). }
  pose proof (Hloop todo 0 0 Htodo W1 (mkRotDir d tmp) eq_refl) as Hk. rewrite Hr in Hk. split; [done|].
  pose proof (rotate_loop_counts old mk todo 0 0 W1 (mkRotDir d tmp) I) as Hc. rewrite Hr in Hc. cbn in Hc. lia.
Qed.

(** The skipped active segment is lost to a reader with the new key: after a
    rotation that skips the active segment, as recommended, reading the log
    under the new key returns the records of the other segments and then, when
    the active segment starts with a record sealed under the old key that does
    not decrypt under the new one, a decryption error in the place of all its
    records. *)
Theorem rotation_loses_active old mk ss s W d tmp res W' s' :
  dir_repr old d (ss ++ [s]) → Forall (λ s : seg, 0 ≤ s.1) (ss ++ [s]) → Forall (λ s, Forall seal_fits (seg_records s)) ss →
  rotate_wal_key old mk true (W, mkRotDir d tmp) = (Ok res, (W', s')) →
  segment_items (Some mk) s.1 (seg_content s) = [Err Decryption] →
  wal_items (rd_files s') (Some mk) 0 = map Ok (flat_map seg_records ss) ++ [Err Decryption] ∧
  wal_items d old 0 = map Ok (flat_map seg_records ss ++ seg_records s).
Proof.
  intros Hrep Hpos Hfit Hr Hbad. split.
  2: { rewrite (wal_items_repr old d _ 0 Hrep), filter_all by done. f_equal. rewrite flat_map_app. cbn. by rewrite app_nil_r. }
  pose proof Hrep as (Hl & Hc & Hok). assert (Hnd : NoDup (map fst (ss ++ [s]))) by (rewrite <- Hl; apply list_segments_NoDup).
  apply (rotate_start old mk true (ss ++ [s])) in Hr; [|done]. cbn zeta in Hr. rewrite removelast_last in Hr.
  destruct Hr as [(e & ? & _)|[(Hnil & _)|(W1 & Hr)]]; [done|by destruct ss|].
  pose proof (rotate_loop_spec old mk d ss [] [s] 0 0 Hnd) as Hspec. apply Forall_app in Hok as [Hok _].
  specialize (Hspec Hok W1 (mkRotDir d tmp)). destruct (rotate_loop old mk _ 0 0 (W1, mkRotDir d tmp)) as [[[a b]|e] [W2 x]]; [|by destruct Hr].
  destruct Hr as [-> _]. rewrite (rotated_items old mk d (ss ++ [s]) ss [s]); [|done..|].
  - cbn [flat_map]. by rewrite Hbad.
  - apply Hspec. split_and!; [done|apply Forall_nil_2|done].
Qed.
End rotate.

Section recovery.
Context `{Blake3} `{Ed25519} `{!WalExt}.

(** Key rotation preserves the log: without I/O failures, when the new key
    can seal and every record fits the reader's limit once sealed, rotating all
    segments returns [Ok], and the log read under the new key is, item for
    item, the log read before under the old key, so recovery returns the same
    transactions. *)
Theorem rotation_preserves_log old mk ss W d tmp :
  dir_repr old d ss → Forall (λ s : seg, 0 ≤ s.1) ss → Forall (λ s, Forall seal_fits (seg_records s)) ss →
  can_seal mk (map fst ss) → w_io W = [] →
  ∃ res W' s', rotate_wal_key old mk false (W, mkRotDir d tmp) = (Ok res, (W', s')) ∧
    wal_items (rd_files s') (Some mk) 0 = wal_items d old 0 ∧
    ∀ verify, recover_with_options (rd_files s') (Some mk) verify = recover_with_options d old verify.
Proof.
  intros Hrep Hpos Hfit Hseal Hio. destruct (rotate_wal_key_succeeds old mk ss W d tmp) as (res & W' & s' & Hr & Hd'); [done..|].
  exists res, W', s'. split; [done|].
  assert (Hi : wal_items (rd_files s') (Some mk) 0 = wal_items d old 0).
  { rewrite (rotated_items old mk d ss ss []) by (done || by rewrite app_nil_r). cbn [flat_map]. rewrite app_nil_r.
    rewrite (wal_items_repr old d ss 0 Hrep). by rewrite filter_all. }
  split; [done|]. intros verify. unfold recover_with_options. by rewrite Hi.
Qed.
End recovery.
