(* ===== verification/Replication.v ===== *)
(** * vledger-replication: shipping the log to replicas

    Models [crates/vledger-replication/src]: the messages, the handshake, the
    primary's [ship] and [heartbeat] over its list of connections, the
    replica's receive loop and its WAL directory, and the comparison of chain
    hashes ([divergence.rs]).  A connection is anything that answers a line:
    [ship] is written over a type of peers with an exchange function, which the
    theorems instantiate with the replica of this file behind a reliable link.
    TLS, sockets and timers are below this interface: a peer's answer says
    whether the write failed, the wait for the acknowledgement timed out, the
    read failed, the peer closed, or which line came back. *)

From stdpp Require Import base gmap list strings option fin_maps.
From Stdlib Require Import ZArith Lia Strings.Byte.
From S2P Require Import Prelude Bytes Jsonl Crypto SqlGuard WalRecord Wal Recovery.

(** ** Messages *)

(** The errors without their texts, and [RPanic] for a slice out of range. *)
Inductive ReplicationError :=
  | RIo
  | RSerialisation
  | RAckTimeout (lsn : Z)
  | RAckMismatch (expected got : Z)
  | RStreamEnded
  | RConnectionRefused
  | RInvalidRecord
  | RLedger
  | RAuthFailed
  | RSecretError
  | RTls
  | RPanic.

Record WalRecordMsg := mkWalRecordMsg {
  wm_lsn : Z;
  wm_segment : Z;
  wm_record_hex : bytes;
  wm_record_hash_hex : bytes
}.

Inductive ReplicationMessage :=
  | MWalRecord (m : WalRecordMsg)
  | MHeartbeat (last_lsn : Z) (ts : Z).

Inductive AckMessage :=
  | Ack (lsn : Z)
  | HeartbeatAck (last_lsn : Z)
  | AckError (lsn : option Z) (message : string).

Record AuthChallenge := mkChallenge { ch_nonce : bytes }.
Record AuthResponse := mkResponse { rs_mac : bytes }.
Record AuthResult := mkAuthResult { ar_ok : bool; ar_error : option string }.

(** The messages through [serde_json]: plain structures serialize, to a text
    without space around it. *)
Class ReplExt := {
  repl_json :: Json ReplicationMessage;
  ack_json :: Json AckMessage;
  challenge_json :: Json AuthChallenge;
  response_json :: Json AuthResponse;
  repl_tight : ∀ (m : ReplicationMessage) l, to_json m = Some l → trim (l ++ [nl]) = l;
  ack_tight : ∀ (m : AckMessage) l, to_json m = Some l → trim (l ++ [nl]) = l;
  challenge_tight : ∀ (m : AuthChallenge) l, to_json m = Some l → trim (l ++ [nl]) = l;
  response_tight : ∀ (m : AuthResponse) l, to_json m = Some l → trim (l ++ [nl]) = l;
  repl_total : ∀ m : ReplicationMessage, is_Some (to_json m);
  ack_total : ∀ m : AckMessage, is_Some (to_json m);
  challenge_total : ∀ m : AuthChallenge, is_Some (to_json m);
  response_total : ∀ m : AuthResponse, is_Some (to_json m)
}.

(** [encode_replication], [encode_ack], [encode_handshake]: the text and a
    line feed. *)
Definition encode_line {A} `{Json A} (a : A) : option bytes := (λ l, l ++ [nl]) <$> to_json a.
(** [decode_replication], [decode_ack]: parse the trimmed line. *)
Definition decode_line {A} `{Json A} (line : bytes) : option A := from_json (trim line).

(** ** The primary *)

(** How a peer answers a line. *)
Inductive Answer :=
  | WriteFailed
  | TimedOut
  | ReadFailed
  | PeerClosed
  | Line (l : bytes).

Record WalShipper (C : Type) := mkShipper {
  sh_replicas : list C;
  sh_next_lsn : Z
}.
Arguments mkShipper {C} _ _.
Arguments sh_replicas {C} _.
Arguments sh_next_lsn {C} _.

(** [Vec::swap_remove] *)
Definition swap_remove {A} (i : nat) (l : list A) : list A :=
  match last l with
  | Some x => if (i =? pred (length l))%nat then take (pred (length l)) l else <[i := x]> (take (pred (length l)) l)
  | None => l
  end.

(** [for i in dead.into_iter().rev() { replicas.swap_remove(i); }] *)
Definition remove_dead {A} (dead : list nat) (l : list A) : list A := foldr swap_remove l dead.

Section primary.
Context `{Blake3} `{Hex} `{ReplExt}.
Context {C : Type} (exchange : bytes → C → Answer * C) (send_only : bytes → C → bool * C).

(** The loop of [ship] over the connections: the connections after it, the
    dead ones, and the error when it returned early. *)
Fixpoint ship_conns (lsn : Z) (wire : bytes) (i : nat) (conns : list C)
    : list C * list nat * option ReplicationError :=
  match conns with
  | [] => ([], [], None)
  | c :: rest =>
      let '(a, c') := exchange wire c in
      let continue (is_dead : bool) :=
        let '(rest', dead, e) := ship_conns lsn wire (S i) rest in
        (c' :: rest', (if is_dead then [i] else []) ++ dead, e) in
      match a with
      | WriteFailed => continue true
      | TimedOut => (c' :: rest, [i], Some (RAckTimeout lsn))
      | ReadFailed => continue true
      | PeerClosed => (c' :: rest, [i], Some RStreamEnded)
      | Line l =>
          match decode_line l with
          | None => continue false
          | Some (Ack n) => if n =? lsn then continue false else (c' :: rest, [], Some (RAckMismatch lsn n))
          | Some (AckError _ _) => continue true
          | Some (HeartbeatAck _) => continue false
          end
      end
  end.

Definition record_msg (lsn segment : Z) (record_bytes : bytes) : ReplicationMessage :=
  MWalRecord (mkWalRecordMsg lsn segment (hex_enc record_bytes) (hex_enc (blake3 record_bytes))).

(** [ship]: the connections found dead are removed only when the loop runs to
    its end. *)
Definition ship (record_bytes : bytes) (segment : Z) (s : WalShipper C) : Result ReplicationError Z * WalShipper C :=
  let lsn := sh_next_lsn s in
  let s := mkShipper (sh_replicas s) (wadd_u64 lsn 1) in
  match encode_line (record_msg lsn segment record_bytes) with
  | None => (Err RSerialisation, s)
  | Some wire =>
      let '(conns, dead, e) := ship_conns lsn wire 0 (sh_replicas s) in
      match e with
      | Some e => (Err e, mkShipper conns (sh_next_lsn s))
      | None => (Ok lsn, mkShipper (remove_dead dead conns) (sh_next_lsn s))
      end
  end.

(** The loop of [heartbeat]: a line to every connection, no answer read. *)
Fixpoint heartbeat_conns (wire : bytes) (i : nat) (conns : list C) : list C * list nat :=
  match conns with
  | [] => ([], [])
  | c :: rest =>
      let '(ok, c') := send_only wire c in
      let '(rest', dead) := heartbeat_conns wire (S i) rest in
      (c' :: rest', (if ok : bool then [] else [i]) ++ dead)
  end.

Definition heartbeat (ts : Z) (s : WalShipper C) : WalShipper C :=
  match encode_line (MHeartbeat (Z.max 0 (sh_next_lsn s - 1)) ts) with
  | None => s
  | Some wire =>
      let '(conns, dead) := heartbeat_conns wire 0 (sh_replicas s) in
      mkShipper (remove_dead dead conns) (sh_next_lsn s)
  end.
End primary.

(** ** The replica *)

(** The WAL directory, the last LSN, and what was written to the primary. *)
Record Replica := mkReplica {
  rp_dir : gmap Z bytes;
  rp_last_lsn : Z;
  rp_out : list bytes
}.
Definition rp_set_dir d r := mkReplica d (rp_last_lsn r) (rp_out r).
Definition rp_set_lsn n r := mkReplica (rp_dir r) n (rp_out r).
Definition rp_push l r := mkReplica (rp_dir r) (rp_last_lsn r) (rp_out r ++ [l]).

Notation RM := (M Replica ReplicationError).

Definition append_segment (segment : Z) (data : bytes) (r : Replica) : Replica :=
  rp_set_dir (<[segment := default [] (rp_dir r !! segment) ++ data]> (rp_dir r)) r.

(** [ReplicaApplier::apply]: create the directory, open for appending, write
    (a failed write may leave a prefix), flush and sync. *)
Definition apply (record_bytes : bytes) (segment : Z) : RM unit :=
  _ ← io RIo;
  _ ← io RIo;
  _ ← modify (append_segment segment []);
  w ← attempt (io RIo);
  match w with
  | Err e =>
      n ← rand;
      _ ← modify (append_segment segment (take (Z.to_nat (n mod (Z.of_nat (length record_bytes) + 1))) record_bytes));
      throw e
  | Ok _ =>
      _ ← modify (append_segment segment record_bytes);
      _ ← io RIo;
      io RIo
  end.

Section replica.
Context `{Blake3} `{Hex} `{ReplExt}.

Definition send_line (l : bytes) : RM unit := _ ← io RIo; modify (rp_push l).

(** One round of the receive loop of [connect_and_stream]; an error ends the
    connection. *)
Definition receive_line (line : bytes) : RM unit :=
  msg ← liftR (ok_or (decode_line line) RSerialisation);
  match msg with
  | MWalRecord rec =>
      record_bytes ← liftR (ok_or (hex_dec (wm_record_hex rec)) RInvalidRecord);
      if negb (bool_decide (hex_enc (blake3 record_bytes) = wm_record_hash_hex rec)) then
        _ ← match encode_line (AckError (Some (wm_lsn rec)) "hash mismatch on received WAL record") with
            | Some wire => _ ← attempt (F:=ReplicationError) (send_line wire); mret tt
            | None => mret tt
            end;
        throw RInvalidRecord
      else
        _ ← apply record_bytes (wm_segment rec);
        _ ← modify (rp_set_lsn (wm_lsn rec));
        wire ← liftR (ok_or (encode_line (Ack (wm_lsn rec))) RSerialisation);
        _ ← send_line wire;
        io RIo
  | MHeartbeat _ _ =>
      last_lsn ← gets rp_last_lsn;
      wire ← liftR (ok_or (encode_line (HeartbeatAck last_lsn)) RSerialisation);
      _ ← attempt (F:=ReplicationError) (send_line wire);
      _ ← attempt (F:=ReplicationError) (io RIo);
      mret tt
  end.

(** [replay_wal] *)
Definition replay_wal `{Ed25519} `{!WalExt} (r : Replica) : Result ReplicationError RecoveryResult :=
  res_map_err (λ _, RLedger) (recover (rp_dir r)).
End replica.

(** ** The handshake *)

Section handshake.
Context `{Blake3Keyed} `{Hex} `{ReplExt}.

Definition compute_mac (secret nonce : bytes) : bytes := blake3_keyed secret nonce.
Definition mac_eq (a b : bytes) : bool := bool_decide (a = b).

(** The replica: answer a challenge line. *)
Definition answer_challenge (secret line : bytes) : Result ReplicationError bytes :=
  challenge ← ok_or (decode_line line) RAuthFailed;
  nonce ← ok_or (hex_dec (ch_nonce challenge)) RAuthFailed;
  ok_or (encode_line (mkResponse (hex_enc (compute_mac secret nonce)))) RSerialisation.

(** The primary: check the answer to the challenge with nonce [nonce]. *)
Definition check_response (secret nonce line : bytes) : Result ReplicationError unit :=
  response ← ok_or (decode_line line) RAuthFailed;
  replica_mac ← ok_or (hex_dec (rs_mac response)) RAuthFailed;
  if negb (length replica_mac =? 32)%nat then Err RAuthFailed
  else if negb (mac_eq (compute_mac secret nonce) replica_mac) then Err RAuthFailed
  else Ok tt.

(** [authenticate_replica_tls]: the primary draws a nonce; [respond] is the
    peer, from the challenge line to the line it sends back, if any. *)
Definition authenticate_replica (secret : bytes) (respond : bytes → option bytes) : M unit ReplicationError unit :=
  r ← rand;
  let nonce := le_bytes 32 r in
  wire ← liftR (ok_or (encode_line (mkChallenge (hex_enc nonce))) RSerialisation);
  _ ← io RAuthFailed;
  line ← liftR (ok_or (respond wire) RAuthFailed);
  _ ← liftR (check_response secret nonce line);
  io RAuthFailed.
End handshake.

(** ** Divergence *)

Record DivergenceCheckpoint := mkDivCheckpoint {
  dc_lsn : Z;
  dc_chain_hash_hex : bytes;
  dc_ledger_sequence : Z;
  dc_ledger_chain_tip_hex : bytes
}.

Record DivergenceReport := mkDivReport {
  dr_lsn : Z;
  dr_local_chain_hash_hex : bytes;
  dr_local_ledger_chain_tip_hex : bytes;
  dr_diverged : bool;
  dr_reasons : list (Z * bytes * bytes)     (* the parts of the reason text *)
}.

Section divergence.
Context `{Blake3} `{!WalExt} `{Hex}.

Definition divergence_input (r : WalRecord) (chain : Hash) : bytes :=
  chain ++ le64 (h_sequence (r_header r)) ++ le64 (h_tx_id (r_header r)) ++
  le_bytes 1 (h_record_type (r_header r)) ++ r_payload r.

(** The loop of [compute_wal_chain_hash]. *)
Fixpoint wal_chain (target_lsn : Z) (chain : Hash) (items : list (Result WalError WalRecord)) : Hash :=
  match items with
  | Ok r :: items =>
      if target_lsn <? h_sequence (r_header r) then chain
      else wal_chain target_lsn (blake3 (divergence_input r chain)) items
  | Err _ :: _ | [] => chain
  end.

(** The directory may be unreadable ([None]). *)
Definition compute_wal_chain_hash (dir : option (gmap Z bytes)) (target_lsn : Z) : Result ReplicationError Hash :=
  d ← ok_or dir RLedger;
  Ok (wal_chain target_lsn ZERO_HASH (wal_items d None 0)).

Definition build_checkpoint (dir : option (gmap Z bytes)) (current_lsn ledger_sequence : Z) (ledger_tip : Hash)
    : Result ReplicationError DivergenceCheckpoint :=
  chain ← compute_wal_chain_hash dir current_lsn;
  Ok (mkDivCheckpoint current_lsn (hex_enc chain) ledger_sequence (hex_enc ledger_tip)).

(** [hex::decode] to exactly 32 bytes. *)
Definition hex32 (t : bytes) : option bytes :=
  bs ← hex_dec t; if (length bs =? 32)%nat then Some bs else None.

(** [&text[..16]] *)
Definition first16 (t : bytes) : Result ReplicationError bytes :=
  if (16 <=? length t)%nat && utf8_valid (take 16 t) then Ok (take 16 t) else Err RPanic.

Definition verify_checkpoint (dir : option (gmap Z bytes)) (cp : DivergenceCheckpoint) (local_tip : Hash)
    : Result ReplicationError DivergenceReport :=
  match compute_wal_chain_hash dir (dc_lsn cp) with
  | Err _ => Ok (mkDivReport (dc_lsn cp) (hex_enc ZERO_HASH) (hex_enc local_tip) true [])
  | Ok local_hash =>
      match hex32 (dc_chain_hash_hex cp) with
      | None => Ok (mkDivReport (dc_lsn cp) (hex_enc local_hash) (hex_enc local_tip) true [])
      | Some primary_hash =>
          let wal_diverged := negb (bool_decide (local_hash = primary_hash)) in
          let primary_tip := default ZERO_HASH (hex32 (dc_ledger_chain_tip_hex cp)) in
          let ledger_diverged := negb (bool_decide (local_tip = primary_tip)) in
          r1 ← (if wal_diverged then
                  p ← first16 (dc_chain_hash_hex cp); l ← first16 (hex_enc local_hash); Ok [(dc_lsn cp, p, l)]
                else Ok []);
          r2 ← (if ledger_diverged then
                  p ← first16 (dc_ledger_chain_tip_hex cp); l ← first16 (hex_enc local_tip);
                  Ok [(dc_ledger_sequence cp, p, l)]
                else Ok []);
          Ok (mkDivReport (dc_lsn cp) (hex_enc local_hash) (hex_enc local_tip) (wal_diverged || ledger_diverged) (r1 ++ r2))
      end
  end.
End divergence.

(** ** The shared secret *)

Section secret.
Context `{Hex}.

(** The secret file, when it exists. *)
Notation XM := (M (option bytes) ReplicationError).

Definition load_secret : XM bytes :=
  f ← gets id;
  text ← liftR (ok_or f RSecretError);
  _ ← io RSecretError;
  if utf8_valid text then
    bs ← liftR (ok_or (hex_dec (trim text)) RSecretError);
    if (length bs =? 32)%nat then mret bs else throw RSecretError
  else throw RSecretError.

Definition generate_and_save : XM bytes :=
  r ← rand;
  let secret := le_bytes 32 r in
  w ← attempt (io RSecretError);
  match w with
  | Err e =>
      n ← rand;
      let text := hex_enc secret in
      _ ← modify (λ _, Some (take (Z.to_nat (n mod (Z.of_nat (length text) + 1))) text));
      throw e
  | Ok _ =>
      _ ← modify (λ _, Some (hex_enc secret));
      _ ← io RSecretError;
      mret secret
  end.

Definition load_or_generate : XM bytes :=
  f ← gets id;
  match f with Some _ => load_secret | None => generate_and_save end.
End secret.
