(* ===== verification/ReplSafety.v ===== *)
(** * vledger-replication: what reaches the replicas

    The primary and its replicas together: over reliable links every record is
    appended to every replica in order; a heartbeat leaves its acknowledgement
    unread, which shifts the ones that follow; what the server ships are rows of
    the entry table, which recovery does not read.  The handshake accepts
    exactly the keyed digest of its nonce, and equal chain hashes mean equal
    records. *)

From stdpp Require Import base gmap list strings option fin_maps.
From Stdlib Require Import ZArith Lia Strings.Byte.
From S2P Require Import Prelude Bytes Jsonl Crypto SqlGuard WalRecord Wal Recovery Replication.

(** ** A link to a replica *)

(** A replica behind a connection that loses nothing; [lk_world] is the
    replica's environment. *)
Record Link := mkLink {
  lk_world : World;
  lk_replica : Replica;
  lk_open : bool
}.

Section safety.
Context `{Blake3} `{Hex} `{ReplExt}.

(** The replica reads a line; an error ends its loop. *)
Definition deliver (line : bytes) (l : Link) : Link :=
  if lk_open l then
    let '(r, (W, rp)) := receive_line line (lk_world l, lk_replica l) in mkLink W rp (is_ok r)
  else l.

Definition link_send (line : bytes) (l : Link) : bool * Link := (lk_open l, deliver line l).

(** Write a line, then read the first line not read yet. *)
Definition link_exchange (line : bytes) (l : Link) : Answer * Link :=
  if negb (lk_open l) then (WriteFailed, l)
  else
    let l := deliver line l in
    let rp := lk_replica l in
    match rp_out rp with
    | x :: out => (Line x, mkLink (lk_world l) (mkReplica (rp_dir rp) (rp_last_lsn rp) out) (lk_open l))
    | [] => (if lk_open l then TimedOut else PeerClosed, l)
    end.

(** The lines [out] were sent by the replica and not read yet. *)
Definition waiting (out : list bytes) (l : Link) : Prop :=
  lk_open l = true ∧ w_io (lk_world l) = [] ∧ rp_out (lk_replica l) = out.
Definition in_sync : Link → Prop := waiting [].

(** The line of a message. *)
Definition line_of {A} `{Json A} (a : A) : bytes := default [] (to_json a) ++ [nl].

Lemma encode_line_of {A} `{Json A} (a : A) : is_Some (to_json a) → encode_line a = Some (line_of a).
Proof. intros [l Hl]. unfold encode_line, line_of. by rewrite Hl. Qed.

Lemma decode_repl (m : ReplicationMessage) : decode_line (line_of m) = Some m.
Proof.
  destruct (repl_total m) as [l Hl]. unfold decode_line, line_of. rewrite Hl. cbn [default from_option id]. rewrite (repl_tight _ _ Hl).
  by apply json_roundtrip.
Qed.
Lemma decode_ack (m : AckMessage) : decode_line (line_of m) = Some m.
Proof.
  destruct (ack_total m) as [l Hl]. unfold decode_line, line_of. rewrite Hl. cbn [default from_option id]. rewrite (ack_tight _ _ Hl).
  by apply json_roundtrip.
Qed.

Lemma append_segment_nil seg d r : append_segment seg d (append_segment seg [] r) = append_segment seg d r.
Proof.
  unfold append_segment, rp_set_dir. cbn. f_equal. by rewrite lookup_insert_eq, insert_insert_eq; cbn; rewrite app_nil_r.
Qed.

Lemma apply_quiet bs seg W r : w_io W = [] → apply bs seg (W, r) = (Ok tt, (W, append_segment seg bs r)).
Proof.
  intros Hio. unfold apply. rewrite !(mbind_eq _ _ _ tt (W, r)) by (by apply io_quiet).
  rewrite (mbind_eq _ _ _ tt (W, append_segment seg [] r)) by done.
  rewrite (mbind_eq _ _ _ (Ok tt) (W, append_segment seg [] r)) by (unfold attempt; by rewrite io_quiet).
  rewrite (mbind_eq _ _ _ tt (W, append_segment seg bs r)) by (unfold modify; cbn [fst snd]; by rewrite append_segment_nil).
  rewrite (mbind_eq _ _ _ tt (W, append_segment seg bs r)) by (by apply io_quiet). by apply io_quiet.
Qed.

Lemma send_line_quiet l W r : w_io W = [] → send_line l (W, r) = (Ok tt, (W, rp_push l r)).
Proof. intros Hio. unfold send_line. by rewrite (mbind_eq _ _ _ tt (W, r)) by (by apply io_quiet). Qed.

(** The replica after a record. *)
Definition applied (lsn seg : Z) (bs : bytes) (r : Replica) : Replica :=
  rp_push (line_of (Ack lsn)) (rp_set_lsn lsn (append_segment seg bs r)).

Lemma receive_record lsn seg bs W r :
  w_io W = [] → receive_line (line_of (record_msg lsn seg bs)) (W, r) = (Ok tt, (W, applied lsn seg bs r)).
Proof.
  intros Hio. unfold receive_line. rewrite decode_repl. rewrite (mbind_eq _ _ _ (record_msg lsn seg bs) (W, r)) by done.
  cbn [record_msg wm_record_hex wm_record_hash_hex wm_lsn wm_segment]. rewrite hex_roundtrip. rewrite (mbind_eq _ _ _ bs (W, r)) by done.
  rewrite bool_decide_true by done. cbn [negb]. rewrite (mbind_eq _ _ _ _ _ (apply_quiet bs seg W r Hio)).
  rewrite (mbind_eq _ _ _ tt (W, rp_set_lsn lsn (append_segment seg bs r))) by done.
  rewrite (encode_line_of (Ack lsn)) by apply ack_total.
  rewrite (mbind_eq _ _ _ (line_of (Ack lsn)) (W, rp_set_lsn lsn (append_segment seg bs r))) by done.
  rewrite (mbind_eq _ _ _ _ _ (send_line_quiet _ _ _ Hio)). by apply io_quiet.
Qed.

Lemma receive_heartbeat n ts W r :
  w_io W = [] → receive_line (line_of (MHeartbeat n ts)) (W, r) = (Ok tt, (W, rp_push (line_of (HeartbeatAck (rp_last_lsn r))) r)).
Proof.
  intros Hio. unfold receive_line. rewrite decode_repl. rewrite (mbind_eq _ _ _ (MHeartbeat n ts) (W, r)) by done.
  rewrite (mbind_eq _ _ _ (rp_last_lsn r) (W, r)) by done. rewrite (encode_line_of (HeartbeatAck (rp_last_lsn r))) by apply ack_total.
  rewrite (mbind_eq _ _ _ (line_of (HeartbeatAck (rp_last_lsn r))) (W, r)) by done.
  rewrite (mbind_eq _ _ _ (Ok tt) (W, rp_push (line_of (HeartbeatAck (rp_last_lsn r))) r)) by (unfold attempt; by rewrite send_line_quiet).
  by rewrite (mbind_eq _ _ _ (Ok tt) (W, rp_push (line_of (HeartbeatAck (rp_last_lsn r))) r)) by (unfold attempt; by rewrite io_quiet).
Qed.

(** ** Shipping *)

(** The link after a record, with the lines [out] still to be read. *)
Definition received (lsn seg : Z) (bs : bytes) (out : list bytes) (l : Link) : Link :=
  mkLink (lk_world l) (mkReplica (rp_dir (append_segment seg bs (lk_replica l))) lsn out) true.

Lemma exchange_record lsn seg bs out l x q :
  waiting out l → out ++ [line_of (Ack lsn)] = x :: q →
  link_exchange (line_of (record_msg lsn seg bs)) l = (Line x, received lsn seg bs q l).
Proof.
  intros (Ho & Hio & Hout) Hq. unfold link_exchange, deliver. rewrite Ho. cbn [negb]. rewrite receive_record by done.
  cbn [lk_replica lk_world lk_open is_ok rp_out applied rp_push rp_set_lsn append_segment rp_set_dir]. by rewrite Hout, Hq.
Qed.

Lemma received_in_sync lsn seg bs l : w_io (lk_world l) = [] → in_sync (received lsn seg bs [] l).
Proof. by intros. Qed.

Lemma ship_conns_in_sync lsn seg bs ls : ∀ i, Forall in_sync ls →
  ship_conns link_exchange lsn (line_of (record_msg lsn seg bs)) i ls = (map (received lsn seg bs []) ls, [], None).
Proof.
  induction ls as [|l ls IH]; intros i Hls; [done|]. apply Forall_cons in Hls as [Hl Hls]. cbn [ship_conns map].
  rewrite (exchange_record lsn seg bs [] l (line_of (Ack lsn)) []) by done. cbn [ship_conns].
  rewrite decode_ack, Z.eqb_refl, IH by done. done.
Qed.

Lemma ship_in_sync bs seg s : Forall in_sync (sh_replicas s) →
  ship link_exchange bs seg s =
    (Ok (sh_next_lsn s), mkShipper (map (received (sh_next_lsn s) seg bs []) (sh_replicas s)) (wadd_u64 (sh_next_lsn s) 1)).
Proof.
  intros Hs. unfold ship. rewrite (encode_line_of (record_msg _ _ _)) by apply repl_total. cbn [sh_replicas sh_next_lsn].
  by rewrite ship_conns_in_sync.
Qed.

(** A sequence of records. *)
Fixpoint ship_all (recs : list (bytes * Z)) (s : WalShipper Link) : list (Result ReplicationError Z) * WalShipper Link :=
  match recs with
  | [] => ([], s)
  | (bs, seg) :: recs => let '(r, s) := ship link_exchange bs seg s in let '(rs, s) := ship_all recs s in (r :: rs, s)
  end.

(** The directory the records describe. *)
Definition segments_of (recs : list (bytes * Z)) (d : gmap Z bytes) : gmap Z bytes :=
  foldl (λ d '(bs, seg), <[seg := default [] (d !! seg) ++ bs]> d) d recs.

(** Shipping a sequence of records to replicas that are in step. *)
Lemma ship_all_in_sync recs : ∀ s, Forall in_sync (sh_replicas s) → 0 ≤ sh_next_lsn s →
  sh_next_lsn s + Z.of_nat (length recs) < 2 ^ 64 →
  let '(rs, s') := ship_all recs s in
  rs = map (λ i, Ok (sh_next_lsn s + Z.of_nat i)) (seq 0 (length recs)) ∧
  Forall2 (λ l l', in_sync l' ∧ rp_dir (lk_replica l') = segments_of recs (rp_dir (lk_replica l)))
    (sh_replicas s) (sh_replicas s') ∧
  sh_next_lsn s' = sh_next_lsn s + Z.of_nat (length recs).
Proof.
  induction recs as [|[bs seg] recs IH]; intros s Hs Hpos Hmax; cbn [ship_all].
  { split_and!; [done| |cbn; lia]. apply Forall_Forall2_diag. eapply Forall_impl; [exact Hs|done]. }
  rewrite ship_in_sync by done.
  specialize (IH (mkShipper (map (received (sh_next_lsn s) seg bs []) (sh_replicas s)) (wadd_u64 (sh_next_lsn s) 1))).
  destruct (ship_all recs _) as [rs s']. cbn [sh_replicas sh_next_lsn length] in *.
  rewrite wadd_u64_small in IH by lia. destruct IH as (Hrs & Hd & Hn); [|lia|lia|].
  { apply Forall_map. eapply Forall_impl; [exact Hs|]. intros l (_ & Hio & _). by apply received_in_sync. }
  split_and!; [|by apply Forall2_fmap_l in Hd|lia].
  cbn [seq map]. f_equal; [f_equal; lia|]. rewrite Hrs, <- (fmap_S_seq 0). rewrite map_map. apply map_ext. intros i. f_equal. lia.
Qed.

(** C36: Over connections without failures replication is exact: shipping any
    sequence of records to replicas that are in step returns [Ok] with
    consecutive LSNs, and afterwards the WAL directory of every replica holds
    what it held before followed by exactly those records, in order, each in
    its segment; every acknowledgement has been read. *)
Theorem ship_replicates recs s :
  Forall in_sync (sh_replicas s) → 0 ≤ sh_next_lsn s → sh_next_lsn s + Z.of_nat (length recs) < 2 ^ 64 →
  (ship_all recs s).1 = map (λ i, Ok (sh_next_lsn s + Z.of_nat i)) (seq 0 (length recs)) ∧
  Forall2 (λ l l', in_sync l' ∧ rp_dir (lk_replica l') = segments_of recs (rp_dir (lk_replica l)))
    (sh_replicas s) (sh_replicas (ship_all recs s).2).
Proof.
  intros Hs Hpos Hmax. pose proof (ship_all_in_sync recs s Hs Hpos Hmax) as Hr.
  destruct (ship_all recs s) as [rs s']. by destruct Hr as (? & ? & _).
Qed.

(** ** The unread acknowledgement *)

Lemma exchange_hb n ts l : in_sync l →
  link_send (line_of (MHeartbeat n ts)) l =
    (true, mkLink (lk_world l) (rp_push (line_of (HeartbeatAck (rp_last_lsn (lk_replica l)))) (lk_replica l)) true).
Proof.
  intros (Ho & Hio & Hout). unfold link_send, deliver. rewrite Ho, receive_heartbeat by done. done.
Qed.

Lemma heartbeat_in_sync ts s : Forall in_sync (sh_replicas s) →
  heartbeat link_send ts s = mkShipper (map (λ l, mkLink (lk_world l)
    (rp_push (line_of (HeartbeatAck (rp_last_lsn (lk_replica l)))) (lk_replica l)) true) (sh_replicas s)) (sh_next_lsn s).
Proof.
  intros Hs. unfold heartbeat. rewrite (encode_line_of (MHeartbeat _ _)) by apply repl_total.
  generalize (Z.max 0 (sh_next_lsn s - 1)). intros n. set (m := MHeartbeat _ _). enough (Hc : ∀ ls i, Forall in_sync ls → heartbeat_conns link_send (line_of m) i ls =
    (map (λ l, mkLink (lk_world l) (rp_push (line_of (HeartbeatAck (rp_last_lsn (lk_replica l)))) (lk_replica l)) true) ls, [])) by (by rewrite Hc).
  induction ls as [|l ls IH]; intros i Hls; [done|]. apply Forall_cons in Hls as [Hl Hls].
  cbn [heartbeat_conns map]. unfold m. rewrite exchange_hb by done. fold m. by rewrite IH.
Qed.

(** Links that each have one line waiting that [ship] accepts. *)
Lemma ship_conns_late lsn seg bs (wait : Link → AckMessage) ls : ∀ i,
  Forall (λ l, waiting [line_of (wait l)] l ∧ match wait l with HeartbeatAck _ => True | _ => False end) ls →
  ship_conns link_exchange lsn (line_of (record_msg lsn seg bs)) i ls =
    (map (received lsn seg bs [line_of (Ack lsn)]) ls, [], None).
Proof.
  induction ls as [|l ls IH]; intros i Hls; [done|]. apply Forall_cons in Hls as [[Hl Hw] Hls]. cbn [ship_conns map].
  rewrite (exchange_record lsn seg bs [line_of (wait l)] l (line_of (wait l)) [line_of (Ack lsn)]) by done.
  rewrite decode_ack. destruct (wait l); [done| |done]. by rewrite IH.
Qed.

(** A heartbeat puts the acknowledgements out of step: [heartbeat] does not
    read the answers, so the next [ship] takes the waiting heartbeat answer for
    the acknowledgement of its record, and the one after that reads the
    acknowledgement of the record before and fails with [AckMismatch], with
    every replica in order and no failure anywhere; the replicas behind the
    first do not get the record. *)
Theorem heartbeat_shifts_acks ts b1 seg1 b2 seg2 l ls n :
  Forall in_sync (l :: ls) → 0 ≤ n < 2 ^ 64 - 1 →
  let s1 := heartbeat link_send ts (mkShipper (l :: ls) n) in
  let '(r2, s2) := ship link_exchange b1 seg1 s1 in
  let '(r3, s3) := ship link_exchange b2 seg2 s2 in
  r2 = Ok n ∧ r3 = Err (RAckMismatch (n + 1) n) ∧
  map (λ l, rp_dir (lk_replica l)) (tail (sh_replicas s3)) = map (λ l, segments_of [(b1, seg1)] (rp_dir (lk_replica l))) ls.
Proof.
  intros Hs Hn. cbv zeta. rewrite heartbeat_in_sync by done. unfold ship at 1.
  rewrite (encode_line_of (record_msg _ _ _)) by apply repl_total. cbn [sh_replicas sh_next_lsn].
  set (hb := λ l, mkLink _ _ _).
  rewrite (ship_conns_late n seg1 b1 (λ l, HeartbeatAck (rp_last_lsn (lk_replica l)))).
  2: { apply Forall_map. eapply Forall_impl; [exact Hs|]. intros l' (Ho & Hio & Hout). split; [|done]. split_and!; [done|done|].
       unfold hb. cbn. by rewrite Hout. }
  cbn [remove_dead foldr]. unfold ship. rewrite (encode_line_of (record_msg _ _ _)) by apply repl_total. cbn [sh_replicas sh_next_lsn map ship_conns].
  rewrite wadd_u64_small by lia. apply Forall_cons in Hs as [(Ho & Hio & Hout) Hs].
  rewrite (exchange_record (n + 1) seg2 b2 [line_of (Ack n)] (received n seg1 b1 [line_of (Ack n)] (hb l)) (line_of (Ack n)) [line_of (Ack (n + 1))]) by done.
  rewrite decode_ack. destruct (Z.eqb_spec n (n + 1)); [lia|]. cbn [sh_replicas tail]. split_and!; [done|done|].
  rewrite !map_map. apply map_ext. intros l'. done.
Qed.
End safety.

(** ** What the replica can recover *)

Section recoverable.
Context `{Blake3} `{Ed25519} `{Hex} `{ReplExt} `{!WalExt}.

(** The bytes do not start like a record of the log. *)
Definition not_a_record (bs : bytes) : Prop :=
  (4 ≤ length bs)%nat ∧ le_val (take 4 bs) ≠ WAL_MAGIC ∧ le_val (take 4 bs) ≠ ENCRYPTED_MAGIC.

Lemma not_a_record_app bs tail : not_a_record bs → not_a_record (bs ++ tail).
Proof. intros (Hl & Hm & He). split; [rewrite length_app; lia|]. by rewrite take_app_le by lia. Qed.

Lemma no_items key idx content : not_a_record content → segment_items key idx content = [].
Proof.
  intros (Hl & Hm & He). unfold segment_items, SegmentReader_open. cbn [drain]. unfold next_record. cbn [sr_done sr_rest].
  unfold read_exact. destruct (Nat.ltb_spec (length content) 4); [lia|].
  by rewrite (proj2 (Z.eqb_neq _ _) He), (proj2 (Z.eqb_neq _ _) Hm).
Qed.

Lemma segments_of_rows recs : ∀ d, Forall (λ r, not_a_record r.1) recs → map_Forall (λ _, not_a_record) d →
  map_Forall (λ _, not_a_record) (segments_of recs d).
Proof.
  induction recs as [|[bs seg] recs IH]; intros d Hr Hd; cbn; [done|]. apply Forall_cons in Hr as [Hb Hr].
  apply IH; [done|]. apply map_Forall_insert_2; [|done]. destruct (d !! seg) as [c|] eqn:Hc; cbn; [|done].
  by apply not_a_record_app, (Hd _ _ Hc).
Qed.

Lemma no_wal_items d : map_Forall (λ _, not_a_record) d → wal_items d None 0 = [].
Proof.
  intros Hd. unfold wal_items.
  assert (Hin : ∀ i, i ∈ filter (λ i, 0 <= i) (list_segments d) → i ∈ list_segments d) by (intros i; by rewrite list_elem_of_filter; intros []).
  revert Hin. induction (filter (λ i, 0 <= i) (list_segments d)) as [|i l IH]; intros Hin; cbn [flat_map]; [done|].
  rewrite IH by (intros j Hj; apply Hin; by right). rewrite app_nil_r.
  assert (Hi : i ∈ list_segments d) by (apply Hin; by left). apply elem_of_sorted_keys in Hi as [c Hc]. rewrite Hc. cbn.
  by apply no_items, (Hd _ _ Hc).
Qed.

(** What the server ships cannot be replayed: shipping, over connections
    without failures, any sequence of byte strings that do not start with one
    of the two record markers (such as the rows of the entry table that the
    server hands to [ship]) leaves every replica that started with an empty
    directory with a log in which recovery finds no record at all. *)
Theorem shipped_rows_not_recovered recs s :
  Forall (λ l, in_sync l ∧ rp_dir (lk_replica l) = ∅) (sh_replicas s) → 0 ≤ sh_next_lsn s →
  sh_next_lsn s + Z.of_nat (length recs) < 2 ^ 64 → Forall (λ r, not_a_record r.1) recs →
  Forall (λ l, rp_dir (lk_replica l) = segments_of recs ∅ ∧ replay_wal (lk_replica l) = Ok (mkRecovery [] 0 0 false))
    (sh_replicas (ship_all recs s).2).
Proof.
  intros Hs Hpos Hmax Hrows. pose proof (ship_all_in_sync recs s) as Hr. destruct (ship_all recs s) as [rs s'].
  destruct Hr as (_ & Hd & _); [eapply Forall_impl; [exact Hs|by intros ? []]|done|done|]. cbn [snd].
  clear Hpos Hmax. revert Hs Hd. generalize (sh_replicas s) (sh_replicas s'). intros ls0 ls0' Hs Hd.
  induction Hd as [|l l' ls ls' [_ Hl] _ IH]; [constructor|]. apply Forall_cons in Hs as [[_ He] Hs]. rewrite He in Hl.
  constructor; [|by apply IH]. split; [done|]. unfold replay_wal, recover, recover_with_options.
  rewrite Hl, no_wal_items; [done|]. apply segments_of_rows; [done|apply map_Forall_empty].
Qed.
End recoverable.

(** ** The handshake *)

Section handshake.
Context `{Blake3Keyed} `{Hex} `{ReplExt}.

Lemma decode_challenge (m : AuthChallenge) l : to_json m = Some l → decode_line (l ++ [nl]) = Some m.
Proof. intros Hl. unfold decode_line. rewrite (challenge_tight _ _ Hl). by apply json_roundtrip. Qed.
Lemma decode_response (m : AuthResponse) l : to_json m = Some l → decode_line (l ++ [nl]) = Some m.
Proof. intros Hl. unfold decode_line. rewrite (response_tight _ _ Hl). by apply json_roundtrip. Qed.

(** The replica with its own secret. *)
Definition replica_with (secret : bytes) : bytes → option bytes := λ line, res_ok (answer_challenge secret line).

(** The handshake accepts a peer exactly when its answer carries the digest
    of the fresh nonce keyed with the primary's secret; a replica that follows
    the protocol is accepted exactly when its secret gives the same digest, in
    particular when it has the same secret. *)
Theorem handshake_exact secret (respond : bytes → option bytes) W u :
  w_io W = [] →
  let nonce := le_bytes 32 (default 0 (head (w_rng W))) in
  (is_ok (authenticate_replica secret respond (W, u)).1 = true ↔
   ∃ challenge line response, encode_line (mkChallenge (hex_enc nonce)) = Some challenge ∧ respond challenge = Some line ∧
     decode_line line = Some response ∧ hex_dec (rs_mac response) = Some (compute_mac secret nonce)) ∧
  (∀ secret', respond = replica_with secret' →
   is_ok (authenticate_replica secret respond (W, u)).1 = true ↔ compute_mac secret' nonce = compute_mac secret nonce).
Proof.
  intros Hio nonce. destruct (challenge_total (mkChallenge (hex_enc nonce))) as [ch Hch].
  assert (Hwire : encode_line (mkChallenge (hex_enc nonce)) = Some (ch ++ [nl])) by (unfold encode_line; by rewrite Hch).
  assert (Hrun : is_ok (authenticate_replica secret respond (W, u)).1 =
    is_ok (line ← ok_or (respond (ch ++ [nl])) RAuthFailed; check_response secret nonce line)).
  { unfold authenticate_replica. set (W1 := mkWorld (w_clock W) (tail (w_rng W)) (w_io W)).
    rewrite (mbind_eq _ _ _ (default 0 (head (w_rng W))) (W1, u)) by done. fold nonce. cbv zeta. rewrite Hwire.
    rewrite (mbind_eq _ _ _ (ch ++ [nl]) (W1, u)) by done. rewrite (mbind_eq _ _ _ tt (W1, u)) by (by apply io_quiet).
    destruct (respond (ch ++ [nl])) as [line|]; [|done]. rewrite (mbind_eq _ _ _ line (W1, u)) by done. cbn [ok_or mbind Result_bind].
    destruct (check_response secret nonce line) as [[]|e]; [|done]. rewrite (mbind_eq _ _ _ tt (W1, u)) by done. by rewrite io_quiet. }
  assert (Hcheck : ∀ line, is_ok (check_response secret nonce line) = true ↔
    ∃ response, decode_line line = Some response ∧ hex_dec (rs_mac response) = Some (compute_mac secret nonce)).
  { intros line. unfold check_response. destruct (decode_line line) as [r|]; cbn [ok_or mbind Result_bind]; [|naive_solver].
    destruct (hex_dec (rs_mac r)) as [mac|] eqn:Hm; cbn [ok_or mbind Result_bind]; [|naive_solver].
    destruct (length mac =? 32)%nat eqn:Hlen; cbn [negb].
    - unfold mac_eq. case_bool_decide as Heq; cbn; [subst; naive_solver|]. split; [done|]. intros (r' & [= <-] & Hr). congruence.
    - split; [done|]. intros (r' & [= <-] & Hr). rewrite Hm in Hr. simplify_eq. unfold compute_mac in Hlen. by rewrite blake3_keyed_length in Hlen. }
  rewrite Hrun. split.
  - split.
    + destruct (respond (ch ++ [nl])) as [line|] eqn:Hresp; cbn [ok_or mbind Result_bind]; [|done].
      rewrite Hcheck. intros (r & Hr & Hm). exists (ch ++ [nl]), line, r. done.
    + intros (c & line & r & Hc & Hresp & Hr & Hm). rewrite Hwire in Hc. simplify_eq. rewrite Hresp. cbn [ok_or mbind Result_bind].
      apply Hcheck. eauto.
  - intros secret' ->. unfold replica_with, answer_challenge. rewrite (decode_challenge _ _ Hch). cbn [ok_or mbind Result_bind ch_nonce].
    rewrite hex_roundtrip. cbn [ok_or mbind Result_bind]. destruct (response_total (mkResponse (hex_enc (compute_mac secret' nonce)))) as [rl Hrl].
    unfold encode_line. rewrite Hrl. cbn [ok_or mbind Result_bind fmap option_fmap option_map res_ok].
    rewrite Hcheck. rewrite (decode_response _ _ Hrl). split.
    + intros (r & [= <-] & Hm). cbn in Hm. rewrite hex_roundtrip in Hm. by simplify_eq.
    + intros Heq. eexists. split; [done|]. cbn. by rewrite hex_roundtrip, Heq.
Qed.
End handshake.

(** ** Divergence *)

Section divergence.
Context `{Blake3} `{!WalExt} `{Hex}.

(** What the chain hash covers of a record. *)
Definition view : Type := Z * Z * Z * bytes.
Definition view_of (r : WalRecord) : view :=
  (h_sequence (r_header r), h_tx_id (r_header r), h_record_type (r_header r), r_payload r).
Definition view_ok (v : view) : Prop := let '(s, t, k, _) := v in u64_ok s ∧ u64_ok t ∧ 0 ≤ k < 256.
Definition view_input (v : view) (chain : Hash) : bytes :=
  let '(s, t, k, p) := v in chain ++ le64 s ++ le64 t ++ le_bytes 1 k ++ p.

Lemma view_input_inj a h b g :
  view_ok a → view_ok b → hash_ok h → hash_ok g → view_input a h = view_input b g → a = b ∧ h = g.
Proof.
  destruct a as [[[s t] k] p], b as [[[s' t'] k'] p']. intros (Hs & Ht & Hk) (Hs' & Ht' & Hk') Hh Hg He. unfold view_input, le64 in He.
  apply app_inj_1 in He as [-> He]; [|by rewrite Hh, Hg]. apply app_inj_1 in He as [H1' He]; [|by rewrite !le_bytes_length].
  apply app_inj_1 in He as [H2' He]; [|by rewrite !le_bytes_length]. apply app_inj_1 in He as [H3' ->]; [|by rewrite !le_bytes_length].
  apply le_bytes_inj in H1'; [|exact Hs|exact Hs']. apply le_bytes_inj in H2'; [|exact Ht|exact Ht']. apply le_bytes_inj in H3'; [|exact Hk|exact Hk'].
  by subst.
Qed.

(** The records up to an LSN. *)
Fixpoint until (lsn : Z) (rs : list WalRecord) : list WalRecord :=
  match rs with
  | r :: rs => if lsn <? h_sequence (r_header r) then [] else r :: until lsn rs
  | [] => []
  end.

Lemma wal_chain_rolling lsn rs : wal_chain lsn ZERO_HASH (map Ok rs) = rolling view_input (map view_of (until lsn rs)).
Proof.
  unfold rolling. generalize ZERO_HASH. induction rs as [|r rs IH]; intros h; cbn [map wal_chain until]; [done|].
  case_match; [done|]. cbn [map foldl]. apply IH.
Qed.

Lemma until_ok lsn rs : Forall record_ok rs → Forall view_ok (map view_of (until lsn rs)).
Proof.
  induction 1 as [|r rs Hr _ IH]; cbn; [constructor|]. case_match; constructor; [|done].
  destruct Hr as ((_ & _ & Hk & Ht & Hs & _) & _). unfold view_ok, view_of. split_and!; try done; apply Hk.
Qed.

Lemma hex32_enc h : hash_ok h → hex32 (hex_enc h) = Some h.
Proof. intros Hh. unfold hex32. rewrite hex_roundtrip. cbn. by rewrite Hh. Qed.

(** The divergence check is exact: for a primary and a replica whose logs
    read back as the records [rs1] and [rs2], checking the primary's checkpoint
    at [lsn] on the replica either reports no divergence, and then the ledger
    tips are equal and the records up to [lsn] agree in sequence number,
    transaction, type and payload (or two hashed strings collide, or one has
    the all-zero digest); or it reports divergence, and then the tips or those
    records differ. *)
Theorem divergence_exact d1 d2 rs1 rs2 lsn seq tip1 tip2 cp report :
  wal_items d1 None 0 = map Ok rs1 → wal_items d2 None 0 = map Ok rs2 → Forall record_ok rs1 → Forall record_ok rs2 →
  hash_ok tip1 → build_checkpoint (Some d1) lsn seq tip1 = Ok cp → verify_checkpoint (Some d2) cp tip2 = Ok report →
  let v1 := map view_of (until lsn rs1) in let v2 := map view_of (until lsn rs2) in
  if dr_diverged report then tip2 ≠ tip1 ∨ v1 ≠ v2
  else tip2 = tip1 ∧ (v1 = v2 ∨ collision (rolling_inputs view_input v1) (rolling_inputs view_input v2) ∨
                      zero_preimage (rolling_inputs view_input v1 ++ rolling_inputs view_input v2)).
Proof.
  intros Hi1 Hi2 Ho1 Ho2 Ht Hb Hv. cbv zeta. unfold build_checkpoint, compute_wal_chain_hash in Hb.
  cbn [ok_or mbind Result_bind] in Hb. rewrite Hi1, wal_chain_rolling in Hb. apply Ok_inj in Hb as <-.
  unfold verify_checkpoint, compute_wal_chain_hash in Hv.
  cbn [ok_or mbind Result_bind dc_lsn dc_chain_hash_hex dc_ledger_chain_tip_hex dc_ledger_sequence] in Hv.
  rewrite Hi2, wal_chain_rolling in Hv. rewrite hex32_enc in Hv by apply rolling_ok.
  rewrite (hex32_enc tip1 Ht) in Hv. cbn [default from_option id] in Hv.
  apply res_bind_Ok in Hv as (r1 & _ & Hv). apply res_bind_Ok in Hv as (r2 & _ & [= <-]). cbn [dr_diverged].
  destruct (bool_decide_reflect (rolling view_input (map view_of (until lsn rs2)) = rolling view_input (map view_of (until lsn rs1)))) as [Hr|Hr]; cbn [negb orb].
  - destruct (bool_decide_reflect (tip2 = tip1)) as [Htip|Htip]; cbn [negb]; [|by left]. split; [done|].
    apply (rolling_determines view_input view_ok); [apply view_input_inj|by apply until_ok..|done].
  - right. intros Heq. by rewrite Heq in Hr.
Qed.
End divergence.
