(* ===== verification/Tx.v ===== *)
(** * vledger-transaction: transactions, MVCC visibility and the manager

    Models [crates/vledger-transaction/src/tx.rs], [mvcc.rs] and [manager.rs].
    The manager owns the WAL writer; its operations are computations over
    [TransactionManager].  The theorems relate what [commit] writes to what
    recovery ([Recovery]) reads back. *)

From stdpp Require Import base gmap list strings option fin_maps sorting.
From Stdlib Require Import ZArith Lia.
From S2P Require Import Prelude Bytes Crypto WalRecord Wal Recovery.

(** ** Errors and data *)

Inductive TxError :=
  | TxWal (e : WalError)
  | TxPage
  | TxNotFound (tx_id : Z)
  | AlreadyCommitted (tx_id : Z)
  | AlreadyRolledBack (tx_id : Z)
  | SerializationConflict (tx_id : Z)
  | Deadlock (tx_id : Z)
  | ConstraintViolation
  | FinancialInvariant
  | IdempotencyKeyConflict (key : string)
  | AppendOnlyViolation
  | TxIo.

Inductive TxState := Active | Committed | RolledBack.

#[global] Instance TxState_eq_dec : EqDecision TxState.
Proof. solve_decision. Defined.

Record PendingMutation := mkMutation {
  pm_table_id : Z;
  pm_page_id : Z;
  pm_slot_id : Z;
  pm_kind : MutationKind;
  pm_row_data : bytes;
  pm_row_hash : Hash;
  pm_prev_hash : option Hash
}.

Record Transaction := mkTx {
  tx_tx_id : Z;
  tx_snapshot : Z;
  tx_state : TxState;
  tx_started_at : Z;
  tx_description : option string;
  tx_mutations : list PendingMutation;
  tx_hashed : bytes;                   (* what the incremental hasher has been fed *)
  tx_idempotency_key : option string
}.

Definition tx_set_state s t := mkTx (tx_tx_id t) (tx_snapshot t) s (tx_started_at t)
  (tx_description t) (tx_mutations t) (tx_hashed t) (tx_idempotency_key t).
Definition tx_set_mutations ms h t := mkTx (tx_tx_id t) (tx_snapshot t) (tx_state t) (tx_started_at t)
  (tx_description t) ms h (tx_idempotency_key t).
Definition tx_set_key k t := mkTx (tx_tx_id t) (tx_snapshot t) (tx_state t) (tx_started_at t)
  (tx_description t) (tx_mutations t) (tx_hashed t) k.

(** ** The transaction state machine *)

Definition Transaction_new (tx_id snapshot now : Z) (description : option string) : Transaction :=
  mkTx tx_id snapshot Active now description [] [] None.

Definition ensure_active (t : Transaction) : Result TxError unit :=
  match tx_state t with
  | Active => Ok tt
  | Committed => Err (AlreadyCommitted (tx_tx_id t))
  | RolledBack => Err (AlreadyRolledBack (tx_tx_id t))
  end.

Definition Transaction_add_mutation (m : PendingMutation) (t : Transaction) : Result TxError Transaction :=
  _ ← ensure_active t;
  Ok (tx_set_mutations (tx_mutations t ++ [m]) (tx_hashed t ++ pm_row_hash m) t).

Definition Transaction_set_idempotency_key (key : string) (t : Transaction) : Result TxError Transaction :=
  _ ← ensure_active t; Ok (tx_set_key (Some key) t).

Definition tx_hash `{Blake3} (t : Transaction) : Hash := blake3 (tx_hashed t).

Definition mark_committed (t : Transaction) : Result TxError Transaction :=
  _ ← ensure_active t; Ok (tx_set_state Committed t).

Definition mark_rolled_back (t : Transaction) : Result TxError Transaction :=
  _ ← ensure_active t; Ok (tx_set_mutations [] (tx_hashed t) (tx_set_state RolledBack t)).

Definition mutation_count (t : Transaction) : nat := length (tx_mutations t).

(** ** MVCC visibility *)

Record RowVersion := mkVersion {
  rv_tx_id_created : Z;
  rv_tx_id_deleted : Z;
  rv_row_sequence : Z;
  rv_data : bytes;
  rv_data_hash : Hash;
  rv_prev_hash : Hash
}.

Inductive Visibility := Visible | TooNew | Deleted.

#[global] Instance Visibility_eq_dec : EqDecision Visibility.
Proof. solve_decision. Defined.

Definition is_visible (v : RowVersion) (snapshot_tx_id : Z) : Visibility :=
  if snapshot_tx_id <=? rv_tx_id_created v then TooNew
  else if negb (rv_tx_id_deleted v =? 0) && (rv_tx_id_deleted v <? snapshot_tx_id) then Deleted
  else Visible.

Definition latest_visible (versions : list RowVersion) (snapshot_tx_id : Z) : option RowVersion :=
  find (λ v, bool_decide (is_visible v snapshot_tx_id = Visible)) (reverse versions).

(** ** The transaction manager *)

Section manager.
Context `{Blake3} `{Ed25519} `{WalExt}.

Record TransactionManager := mkManager {
  tm_wal : WalWriter;
  tm_next_tx_id : Z;
  tm_active : gmap Z Transaction;
  tm_committed_keys : gset string;
  tm_last_committed : Z;
  tm_signing_key : option SigningKey
}.

Definition tm_set_wal w m := mkManager w (tm_next_tx_id m) (tm_active m) (tm_committed_keys m)
  (tm_last_committed m) (tm_signing_key m).
Definition tm_set_next n m := mkManager (tm_wal m) n (tm_active m) (tm_committed_keys m)
  (tm_last_committed m) (tm_signing_key m).
Definition tm_set_active a m := mkManager (tm_wal m) (tm_next_tx_id m) a (tm_committed_keys m)
  (tm_last_committed m) (tm_signing_key m).
Definition tm_set_keys k m := mkManager (tm_wal m) (tm_next_tx_id m) (tm_active m) k
  (tm_last_committed m) (tm_signing_key m).
Definition tm_set_last l m := mkManager (tm_wal m) (tm_next_tx_id m) (tm_active m) (tm_committed_keys m)
  l (tm_signing_key m).

Notation TM := (M TransactionManager TxError).

(** A WAL operation of the manager, its error converted. *)
Definition wal_op {A} (m : WM A) : TM A := map_err TxWal (zoom tm_wal tm_set_wal m).

(** [open_with_signing_and_mode] on the WAL directory found at startup. *)
Definition note_commit (ct : CommittedTransaction) : M Z TxError unit :=
  modify (λ last, if last <? ct_tx_id ct then ct_tx_id ct else last).

Definition open_with_signing_and_mode (dir : gmap Z bytes) (signing_key : option SigningKey)
    (mode : WalSyncMode) (W : World) : Result TxError TransactionManager :=
  let wal := open_with_options dir DEFAULT_SEGMENT_SIZE mode None in
  match recover_streaming TxWal note_commit (ww_dir wal) None false None 0 (W, 0) with
  | (Ok _, (_, last)) => Ok (mkManager wal (wadd_u64 last 1) ∅ ∅ last signing_key)
  | (Err e, _) => Err e
  end.

Definition begin (description : option string) : TM Z :=
  tx_id ← gets tm_next_tx_id;
  _ ← modify (tm_set_next (wadd_u64 tx_id 1));
  snapshot ← gets (λ m, wadd_u64 (tm_last_committed m) 1);
  _ ← wal_op (append_record tx_id RBegin (mkBegin description));
  t ← now;
  _ ← modify (λ m, tm_set_active (<[tx_id := Transaction_new tx_id snapshot t description]> (tm_active m)) m);
  mret tx_id.

(** Replace transaction [tx_id] by the result of [f]. *)
Definition with_tx (tx_id : Z) (f : Transaction → Result TxError Transaction) : TM unit :=
  active ← gets tm_active;
  tx ← liftR (ok_or (active !! tx_id) (TxNotFound tx_id));
  tx' ← liftR (f tx);
  modify (λ m, tm_set_active (<[tx_id := tx']> (tm_active m)) m).

Definition add_mutation (tx_id table_id page_id slot_id : Z) (kind : MutationKind) (row_data : bytes)
    (prev_hash : option Hash) : TM unit :=
  let m := mkMutation table_id page_id slot_id kind row_data (hash_bytes row_data) prev_hash in
  with_tx tx_id (Transaction_add_mutation m).

Definition set_idempotency_key (tx_id : Z) (key : string) : TM unit :=
  keys ← gets tm_committed_keys;
  if bool_decide (key ∈ keys) then throw (IdempotencyKeyConflict key)
  else with_tx tx_id (Transaction_set_idempotency_key key).

(** The payload of a mutation's data record. *)
Definition data_payload (m : PendingMutation) : DataPayload :=
  mkData (pm_table_id m) (pm_page_id m) (pm_slot_id m) (pm_kind m) (pm_row_data m)
    (pm_row_hash m) (pm_prev_hash m).

(** The signature and public key embedded in a commit record. *)
Definition commit_signature (sk : option SigningKey) (hash : Hash) (count : Z) : bytes * bytes :=
  match sk with
  | Some sk => (ed_sign sk (commit_msg hash count), ed_public sk)
  | None => ([], [])
  end.

Definition commit_payload (sk : option SigningKey) (tx : Transaction) : CommitPayload :=
  let count := as_u32 (Z.of_nat (mutation_count tx)) in
  let '(sig, pk) := commit_signature sk (tx_hash tx) count in
  mkCommit count (tx_hash tx) sig pk.

(** Step 5 of [commit] and the registration of the idempotency key. *)
Definition finish_commit (tx_id : Z) (tx : Transaction) : TM unit :=
  active ← gets tm_active;
  _ ← match active !! tx_id with
      | Some t =>
          _ ← modify (λ m, tm_set_active (delete tx_id (tm_active m)) m);
          _ ← liftR (mark_committed t);
          modify (λ m, if tm_last_committed m <? tx_id then tm_set_last tx_id m else m)
      | None => mret tt
      end;
  match tx_idempotency_key tx with
  | Some key => modify (λ m, tm_set_keys ({[key]} ∪ tm_committed_keys m) m)
  | None => mret tt
  end.

Definition commit (tx_id : Z) : TM unit :=
  active ← gets tm_active;
  tx ← liftR (ok_or (active !! tx_id) (TxNotFound tx_id));
  keys ← gets tm_committed_keys;
  if match tx_idempotency_key tx with Some key => bool_decide (key ∈ keys) | None => false end
  then modify (λ m, tm_set_active (delete tx_id (tm_active m)) m)
  else
    sk ← gets tm_signing_key;
    let payload := commit_payload sk tx in
    _ ← forM (λ m, _ ← wal_op (append_record tx_id RData (data_payload m)); mret tt) (tx_mutations tx);
    _ ← wal_op (append_record tx_id RCommit payload);
    finish_commit tx_id tx.

Definition rollback (tx_id : Z) : TM unit :=
  _ ← with_tx tx_id mark_rolled_back;
  _ ← wal_op (append tx_id RRollback []);
  modify (λ m, tm_set_active (delete tx_id (tm_active m)) m).

Definition tm_checkpoint : TM Z := wal_op checkpoint.
Definition checkpoint_signed (page_merkle_root : Hash) : TM Z :=
  sk ← gets tm_signing_key;
  wal_op (checkpoint_with_merkle_root page_merkle_root sk).

Definition precompute_commit_signature (m : TransactionManager) (tx_id : Z) : option (bytes * bytes) :=
  tx ← tm_active m !! tx_id;
  sk ← tm_signing_key m;
  let msg := commit_msg (tx_hash tx) (as_u32 (Z.of_nat (mutation_count tx))) in
  Some (ed_sign sk msg, ed_public sk).

Definition sign_bytes (m : TransactionManager) (message : bytes) : option (bytes * bytes) :=
  sk ← tm_signing_key m; Some (ed_sign sk message, ed_public sk).

(** ** The manager's invariant *)

(** A transaction held by the manager is filed under its id, its running hash
    is over the row hashes of its mutations, each of which is the hash of its
    row; it is never [Committed] (a committed transaction leaves the map), and
    a rolled-back one has no mutations. *)
Definition tx_ok (t : Z) (tx : Transaction) : Prop :=
  tx_tx_id tx = t ∧
  (tx_state tx = Active → tx_hashed tx = concat (map pm_row_hash (tx_mutations tx))) ∧
  Forall (λ m, pm_row_hash m = hash_bytes (pm_row_data m)) (tx_mutations tx) ∧
  tx_state tx ≠ Committed ∧ (tx_state tx = RolledBack → tx_mutations tx = []).

Definition tm_inv (m : TransactionManager) : Prop := map_Forall tx_ok (tm_active m).

Lemma tm_inv_insert m t tx : tm_inv m → tx_ok t tx → tm_inv (tm_set_active (<[t := tx]> (tm_active m)) m).
Proof. intros. by apply map_Forall_insert_2. Qed.

Lemma tm_inv_delete m t : tm_inv m → tm_inv (tm_set_active (delete t (tm_active m)) m).
Proof. intros. by apply map_Forall_delete. Qed.

Lemma wal_op_preserves {A} (o : WM A) : preserves tm_inv (wal_op o).
Proof. unfold wal_op. apply preserves_map_err, preserves_zoom. by intros s m. Qed.

Lemma with_tx_preserves t f :
  (∀ tx tx', tx_ok t tx → f tx = Ok tx' → tx_ok t tx') → preserves tm_inv (with_tx t f).
Proof.
  intros Hf W m Hm. unfold with_tx, mbind, M_bind, gets, liftR, modify. cbn.
  destruct (tm_active m !! t) as [tx|] eqn:Ht; [|done]. cbn.
  destruct (f tx) as [tx'|] eqn:Hx; [|done]. apply tm_inv_insert; [done|].
  eapply Hf; [|done]. by apply (Hm t tx).
Qed.

Lemma ensure_active_Ok tx u : ensure_active tx = Ok u → tx_state tx = Active.
Proof. unfold ensure_active. by destruct (tx_state tx). Qed.

Lemma Transaction_add_mutation_ok t m tx tx' :
  pm_row_hash m = hash_bytes (pm_row_data m) → tx_ok t tx →
  Transaction_add_mutation m tx = Ok tx' → tx_ok t tx'.
Proof.
  intros Hm (Hid & Hh & Hf & Hc & Hr) Ha. unfold Transaction_add_mutation in Ha.
  apply res_bind_Ok in Ha as (u & Hs%ensure_active_Ok & Ha). apply Ok_inj in Ha. subst tx'.
  unfold tx_ok; cbn. rewrite map_app, concat_app, Forall_app, Forall_singleton, Hh, Hs by done. cbn.
  by rewrite app_nil_r.
Qed.

#[local] Hint Resolve wal_op_preserves : preserves.

Lemma begin_preserves d : preserves tm_inv (begin d).
Proof.
  unfold begin. repeat (apply preserves_bind; [|intros]); auto with preserves;
    apply preserves_modify; intros m Hm; try done. apply tm_inv_insert; [done|].
  unfold tx_ok; cbn. by split_and!.
Qed.

Lemma add_mutation_preserves t tb pg sl k row prev : preserves tm_inv (add_mutation t tb pg sl k row prev).
Proof. apply with_tx_preserves. intros tx tx' Hok Ha. eapply Transaction_add_mutation_ok; [|exact Hok|exact Ha]. done. Qed.

Lemma set_idempotency_key_preserves t key : preserves tm_inv (set_idempotency_key t key).
Proof.
  unfold set_idempotency_key. apply preserves_bind; [auto with preserves|intros ks].
  case_bool_decide; [auto with preserves|]. apply with_tx_preserves.
  intros tx tx' Hok Ha. apply res_bind_Ok in Ha as (_ & _ & Ha). apply Ok_inj in Ha. by subst tx'.
Qed.

Lemma commit_preserves t : preserves tm_inv (commit t).
Proof.
  unfold commit, finish_commit. repeat (apply preserves_bind; [|intros]); auto with preserves.
  repeat case_match; repeat (apply preserves_bind; [|intros]); auto with preserves;
    repeat case_match; repeat (apply preserves_bind; [|intros]); auto with preserves;
    try (apply preserves_modify; intros m Hm; try case_match; try done; by apply tm_inv_delete).
Qed.

Lemma rollback_preserves t : preserves tm_inv (rollback t).
Proof.
  unfold rollback. apply preserves_bind; [|intros _; apply preserves_bind; [auto with preserves|intros _]].
  - apply with_tx_preserves. intros tx tx' Hok Ha. apply res_bind_Ok in Ha as (_ & _ & Ha).
    apply Ok_inj in Ha. subst tx'. destruct Hok as (Hid & _). unfold tx_ok; cbn. split_and!; done.
  - apply preserves_modify. intros m Hm. by apply tm_inv_delete.
Qed.

(** The operations of the manager, and a run of them. *)
Inductive TxOp :=
  | OpBegin (description : option string)
  | OpAdd (tx_id table_id page_id slot_id : Z) (kind : MutationKind) (row : bytes) (prev : option Hash)
  | OpKey (tx_id : Z) (key : string)
  | OpCommit (tx_id : Z)
  | OpRollback (tx_id : Z)
  | OpCheckpoint
  | OpCheckpointSigned (root : Hash).

Definition run_op (o : TxOp) : TM unit :=
  match o with
  | OpBegin d => _ ← begin d; mret tt
  | OpAdd t tb pg sl k row prev => add_mutation t tb pg sl k row prev
  | OpKey t key => set_idempotency_key t key
  | OpCommit t => commit t
  | OpRollback t => rollback t
  | OpCheckpoint => _ ← tm_checkpoint; mret tt
  | OpCheckpointSigned root => _ ← checkpoint_signed root; mret tt
  end.

(** Every operation, whatever its outcome; the caller goes on after an error. *)
Fixpoint run_ops (os : list TxOp) : TM unit :=
  match os with
  | [] => mret tt
  | o :: os => _ ← attempt (F:=TxError) (run_op o); run_ops os
  end.

Lemma run_op_preserves o : preserves tm_inv (run_op o).
Proof.
  destruct o; cbn; eauto using add_mutation_preserves, set_idempotency_key_preserves,
    commit_preserves, rollback_preserves; (apply preserves_bind; [|auto with preserves]).
  - apply begin_preserves.
  - apply wal_op_preserves.
  - apply preserves_bind; auto with preserves.
Qed.

Lemma run_ops_preserves os : preserves tm_inv (run_ops os).
Proof.
  induction os; cbn; [auto with preserves|]. apply preserves_bind; [|done].
  apply preserves_attempt, run_op_preserves.
Qed.

(** A manager opened on any WAL and driven by any sequence of operations,
    some of which may fail at any I/O call, only ever holds transactions that
    are not yet committed, filed under their own id, whose running hash covers
    exactly their mutations. *)
Theorem manager_invariant dir sk mode W m os W' :
  open_with_signing_and_mode dir sk mode W = Ok m → tm_inv ((run_ops os (W', m)).2.2).
Proof.
  intros Ho. apply run_ops_preserves. unfold open_with_signing_and_mode in Ho.
  destruct (recover_streaming _ _ _ _ _ _ _ _) as [[?|?] [??]]; [|done].
  apply Ok_inj in Ho. subst m. apply map_Forall_empty.
Qed.

(** ** Commit and recovery *)

(** The payload, when it serializes, fits in a record. *)
Definition fits {P} `{Codec P} (p : P) : Prop :=
  ∀ bs, enc p = Some bs → Z.of_nat (length bs) ≤ MAX_RECORD_PAYLOAD - 54.

(** A record of transaction [t] holding payload [p]. *)
Definition record_of {P} `{Codec P} (t : Z) (ty : RecordType) (p : P) (r : WalRecord) : Prop :=
  record_ok r ∧ h_tx_id (r_header r) = t ∧ h_record_type (r_header r) = record_type_u8 ty ∧
  dec (r_payload r) = Some p.

(** Room for [n] more segments. *)
Definition room (n : nat) (w : WalWriter) : Prop :=
  0 ≤ ww_next_segment_index w ∧ ww_next_segment_index w + Z.of_nat n < 2 ^ 64.

Lemma wal_op_Ok {A} (o : WM A) W m a W' m' :
  wal_op o (W, m) = (Ok a, (W', m')) →
  ∃ w', o (W, tm_wal m) = (Ok a, (W', w')) ∧ m' = tm_set_wal w' m.
Proof.
  unfold wal_op, map_err, zoom. destruct (o (W, tm_wal m)) as [[b|e] [W1 w1]]; intros Ho; [|done].
  simplify_eq/=. eauto.
Qed.

Lemma append_record_Ok {P} `{Codec P} (t : Z) ty (p : P) W m rs r W' m' n :
  wal_inv (tm_wal m) rs → u64_ok t → room (S n) (tm_wal m) → fits p →
  wal_op (append_record t ty p) (W, m) = (Ok r, (W', m')) →
  wal_inv (tm_wal m') (rs ++ [r]) ∧ room n (tm_wal m') ∧ record_of t ty p r ∧
  m' = tm_set_wal (tm_wal m') m ∧ ww_encryption_key (tm_wal m') = ww_encryption_key (tm_wal m).
Proof.
  intros Hi Ht [Hn0 Hn] Hf (w' & Ha & ->)%wal_op_Ok. unfold append_record in Ha. minv.
  destruct (enc p) as [bs|] eqn:He; simplify_eq/=.
  eapply append_Ok in Ha as ((Hi' & (Hk' & _) & Hn') & Hr & Hp & Htx & Hty & _); [|done..|lia|by apply Hf].
  cbn in Hn'. unfold record_of, room. rewrite Hp, (dec_enc' _ _ He). cbn. split_and!; try done; lia.
Qed.

(** The data records of a list of mutations. *)
Lemma append_mutations_Ok t ms : ∀ W m rs u W' m' n,
  wal_inv (tm_wal m) rs → u64_ok t → room (length ms + n) (tm_wal m) → Forall (fits ∘ data_payload) ms →
  forM (λ pm, _ ← wal_op (append_record t RData (data_payload pm)); mret tt) ms (W, m) = (Ok u, (W', m')) →
  ∃ ds, wal_inv (tm_wal m') (rs ++ ds) ∧ room n (tm_wal m') ∧ m' = tm_set_wal (tm_wal m') m ∧
    ww_encryption_key (tm_wal m') = ww_encryption_key (tm_wal m) ∧
    Forall2 (λ pm r, record_of t RData (data_payload pm) r) ms ds.
Proof.
  induction ms as [|pm ms IH]; intros W m rs u W' m' n Hi Ht Hn Hf Ha; cbn in Ha.
  { minv. exists []. rewrite app_nil_r. split_and!; [done..|by destruct m'|done|constructor]. }
  apply Forall_cons in Hf as [Hfp Hf]. minv.
  repeat match goal with p : World * TransactionManager |- _ => destruct p end.
  match goal with Hx : wal_op _ _ = _ |- _ =>
    eapply append_record_Ok in Hx as (Hi1 & Hn1 & Hr1 & Hm1 & Hk1); [|done..] end.
  eapply IH in Ha as (ds & Hi2 & Hn2 & Hm2 & Hk2 & Hds); [|done..].
  exists (x1 :: ds). rewrite <- app_assoc in Hi2. split_and!; [done..| |by rewrite Hk2|by constructor].
  rewrite Hm2, Hm1. done.
Qed.

(** Recovery of a log that ends with the data records and the commit record
    of a transaction. *)
Lemma data_of_data t log ds :
  Forall (λ r, h_tx_id (r_header r) = t ∧ h_record_type (r_header r) = record_type_u8 RData) ds →
  data_of t (log ++ ds) = data_of t log ++ ds.
Proof.
  induction ds as [|d ds IH] using rev_ind; intros Hd; [by rewrite !app_nil_r|].
  apply Forall_app in Hd as [Hds [[Ht Hty] _]%Forall_cons].
  rewrite app_assoc, data_of_snoc, IH by done.
  unfold ends_tx, data_of_tx, rec_is. rewrite Ht, Hty, Z.eqb_refl. cbn. by rewrite app_assoc.
Qed.

Lemma committed_spec_data log ds :
  Forall (λ r, h_record_type (r_header r) = record_type_u8 RData) ds →
  committed_spec (log ++ ds) = committed_spec log.
Proof.
  unfold committed_spec. induction ds as [|d ds IH] using rev_ind; intros Hd; [by rewrite app_nil_r|].
  apply Forall_app in Hd as [Hds [Hty _]%Forall_cons].
  rewrite app_assoc, committed_after_snoc, IH by done. cbn. unfold rec_is. rewrite Hty. cbn.
  by rewrite app_nil_r.
Qed.

Lemma committed_spec_commit t log c :
  h_tx_id (r_header c) = t → h_record_type (r_header c) = record_type_u8 RCommit →
  committed_spec (log ++ [c]) =
  committed_spec log ++ [mkCommitted t c (payloads_of (data_of t log)) (data_of t log)].
Proof.
  intros Ht Hty. unfold committed_spec. rewrite committed_after_snoc. cbn. unfold rec_is.
  rewrite Hty, Ht. done.
Qed.

Lemma payloads_of_records t ms ds :
  Forall2 (λ pm r, record_of t RData (data_payload pm) r) ms ds →
  payloads_of ds = map data_payload ms ∧ row_hashes ds = Ok (concat (map pm_row_hash ms)).
Proof.
  induction 1 as [|pm r ms ds (_ & _ & _ & Hd) _ [IH1 IH2]]; [done|].
  assert (Hdec : decode_data_payload r = Ok (data_payload pm)).
  { unfold decode_data_payload, decode_data_payload_from_bytes. by rewrite Hd. }
  split.
  - change (payloads_of (r :: ds)) with (from_option (λ p, p :: payloads_of ds) (payloads_of ds)
      (res_ok (decode_data_payload r))). rewrite Hdec, IH1. done.
  - cbn. rewrite Hdec. cbn. by rewrite IH2.
Qed.

(** The commit record written for a transaction verifies against its data
    records, signed or not. *)
Lemma commit_payload_verifies sk t tx ds c :
  tx_hashed tx = concat (map pm_row_hash (tx_mutations tx)) →
  Forall2 (λ pm r, record_of t RData (data_payload pm) r) (tx_mutations tx) ds →
  record_of t RCommit (commit_payload sk tx) c → verify_commit_full c ds = Ok tt.
Proof.
  intros Hh Hds (_ & _ & _ & Hc). apply payloads_of_records in Hds as Hrow.
  apply Forall2_length in Hds. destruct Hrow as [_ Hrow].
  unfold verify_commit_full, decode_commit_payload. rewrite Hc. cbn [ok_or mbind Result_bind].
  assert (Hcp : cp_record_count (commit_payload sk tx) = as_u32 (Z.of_nat (length ds)) ∧
                cp_tx_hash (commit_payload sk tx) = tx_hash tx).
  { unfold commit_payload, mutation_count. rewrite Hds. by destruct sk. }
  destruct Hcp as [-> ->]. rewrite Z.eqb_refl, Hrow. cbn.
  unfold tx_hash. rewrite Hh, bool_decide_true by done. cbn.
  unfold verify_commit_signature, decode_commit_payload. rewrite Hc. cbn [ok_or mbind Result_bind].
  destruct sk as [sk|]; [|done]. cbn. case_match; [done|].
  rewrite ed_sign_length, ed_public_length. cbn. rewrite ed_public_valid. cbn.
  by rewrite ed_correct.
Qed.

Lemma finish_commit_Ok t tx W m u W' m' :
  tm_active m !! t = Some tx → finish_commit t tx (W, m) = (Ok u, (W', m')) →
  tm_wal m' = tm_wal m ∧ tm_active m' = delete t (tm_active m) ∧
  tm_last_committed m' = Z.max (tm_last_committed m) t ∧
  tm_committed_keys m' = match tx_idempotency_key tx with
                         | Some k => {[k]} ∪ tm_committed_keys m | None => tm_committed_keys m end ∧
  tm_next_tx_id m' = tm_next_tx_id m ∧ tm_signing_key m' = tm_signing_key m.
Proof.
  intros Ht Hf. unfold finish_commit in Hf. rewrite (mbind_eq _ _ _ (tm_active m) (W, m)) in Hf by done; cbv beta in Hf.
  rewrite Ht in Hf. minv.
  destruct (tx_idempotency_key tx); minv; destruct (Z.ltb_spec (tm_last_committed m) t);
    split_and!; cbn; try done; lia.
Qed.

(** The effect of a successful [commit]. *)
Lemma commit_Ok t W m rs u W' m' tx :
  tm_inv m → wal_inv (tm_wal m) rs → tm_active m !! t = Some tx → tx_state tx = Active →
  (∀ key, tx_idempotency_key tx = Some key → key ∉ tm_committed_keys m) →
  data_of t rs = [] → u64_ok t → room (S (mutation_count tx)) (tm_wal m) →
  Forall (fits ∘ data_payload) (tx_mutations tx) → fits (commit_payload (tm_signing_key m) tx) →
  commit t (W, m) = (Ok u, (W', m')) →
  ∃ ds c, wal_inv (tm_wal m') (rs ++ ds ++ [c]) ∧
    committed_spec (rs ++ ds ++ [c]) =
      committed_spec rs ++ [mkCommitted t c (map data_payload (tx_mutations tx)) ds] ∧
    verify_commit_full c ds = Ok tt ∧ tm_active m' = delete t (tm_active m) ∧
    (∀ key, tx_idempotency_key tx = Some key → key ∈ tm_committed_keys m') ∧
    Forall (λ r, h_tx_id (r_header r) = t ∧ typed r) (ds ++ [c]) ∧
    tm_next_tx_id m' = tm_next_tx_id m ∧ tm_signing_key m' = tm_signing_key m ∧
    ww_encryption_key (tm_wal m') = ww_encryption_key (tm_wal m).
Proof.
  intros Hinv Hi Ht Hact Hkey Hfresh Hu Hroom Hfit Hfitc Hc.
  unfold commit in Hc. rewrite (mbind_eq _ _ _ (tm_active m) (W, m)) in Hc by done; cbv beta in Hc.
  rewrite (mbind_eq _ _ _ tx (W, m)) in Hc by (by rewrite Ht); cbv beta in Hc.
  rewrite (mbind_eq _ _ _ (tm_committed_keys m) (W, m)) in Hc by done; cbv beta in Hc.
  replace (match tx_idempotency_key tx with Some _ => _ | None => _ end) with false in Hc.
  2: { destruct (tx_idempotency_key tx) as [k|]; [|done]. by rewrite bool_decide_false by auto. }
  cbv iota in Hc. do 3 (apply mbind_Ok_inv in Hc as (?&?&?&Hc)). minv_step. repeat match goal with p : World * TransactionManager |- _ => destruct p end. cbn [snd] in *.
  match goal with Hx : forM _ _ _ = _ |- _ =>
    eapply (append_mutations_Ok _ _ _ _ _ _ _ _ 1) in Hx as (ds & Hi1 & Hr1 & Hm1 & Hk1 & Hds); [|done..| |done];
    [|unfold mutation_count in Hroom; by rewrite Nat.add_comm] end.
  match goal with Hx : wal_op _ _ = _ |- _ =>
    eapply append_record_Ok in Hx as (Hi2 & _ & Hrc & Hm2 & Hk2); [|done..] end.
  eapply (finish_commit_Ok t tx) in Hc as (Hw & Ha & _ & Hk & Hn & Hs); [|by rewrite Hm2, Hm1].
  rewrite Hm2, Hm1 in Ha, Hk, Hn, Hs. cbn in Ha, Hk, Hn, Hs. eexists ds, _. rewrite app_assoc, Hw, Hk2, Hk1. split; [exact Hi2|].
  assert (Hdt : Forall (λ r, h_tx_id (r_header r) = t ∧ h_record_type (r_header r) = record_type_u8 RData) ds).
  { clear -Hds. induction Hds as [|?? ?? (_ & ? & ? & _)]; auto. }
  split_and!; [| |done|intros k Hk'; rewrite Hk, Hk'; set_solver| |done..].
  - rewrite (committed_spec_commit t) by apply Hrc. rewrite committed_spec_data, data_of_data, Hfresh by
      (done || (eapply Forall_impl; [exact Hdt|by intros ? []])).
    cbn [app]. by destruct (payloads_of_records _ _ _ Hds) as [-> _].
  - eapply commit_payload_verifies; [|exact Hds|exact Hrc]. by apply (Hinv t tx Ht).
  - destruct Hrc as (_ & ? & ? & _). apply Forall_app. split; [|apply Forall_singleton; split; [done|by exists RCommit]].
    eapply Forall_impl; [exact Hdt|]. intros x [? ?]. split; [done|by exists RData].
Qed.


(** ** A crash in the middle of a commit *)

(** The items of a directory whose last segment has been replaced. *)
Lemma wal_items_last key dir ss s content :
  dir_repr key dir (ss ++ [s]) → (∀ i, i ∈ list_segments dir → 0 ≤ i) →
  wal_items (<[s.1 := content]> dir) key 0 =
  map Ok (flat_map seg_records ss) ++ segment_items key s.1 content.
Proof.
  intros (Hl & Hc & Hok) Hpos. unfold wal_items.
  rewrite (list_segments_dom _ dir), Hl, filter_all, map_app, flat_map_app.
  2: { rewrite <- Hl. apply Forall_forall. exact Hpos. }
  2: { apply Forall_app in Hc as [_ [Hs _]%Forall_cons]. apply dom_insert_lookup_L. by eexists. }
  cbn. rewrite lookup_insert_eq, app_nil_r. f_equal. cbn.
  apply Forall_app in Hc as [Hc _]. apply Forall_app in Hok as [Hok _].
  pose proof (list_segments_NoDup dir) as Hnd. rewrite Hl, map_app in Hnd.
  apply NoDup_app in Hnd as (_ & Hnd & _). clear Hl Hpos.
  induction ss as [|x ss IH]; [done|]. apply Forall_cons in Hc as [Hx Hc], Hok as [Hk Hok].
  cbn [map flat_map]. rewrite map_app, IH; [|done..|intros i Hi; apply Hnd; by right].
  f_equal. rewrite lookup_insert_ne, Hx; [by apply segment_items_seg|].
  intros Heq. apply (Hnd x.1); [by left|]. rewrite <- Heq. by left.
Qed.

(** A strict prefix of a sequence of records is some whole records and a
    strict prefix of the next one. *)
Lemma concat_prefix (cs : list bytes) p q :
  concat cs = p ++ q → q ≠ [] →
  ∃ cs1 c cs2 p1 q1, cs = cs1 ++ c :: cs2 ∧ p = concat cs1 ++ p1 ∧ c = p1 ++ q1 ∧ q1 ≠ [].
Proof.
  revert p. induction cs as [|c cs IH]; intros p He Hq; cbn in He.
  { symmetry in He. apply app_nil in He as [_ ->]. done. }
  destruct (decide (length p < length c)%nat) as [Hlt|Hge].
  - exists [], c, cs, p, (drop (length p) c). split_and!; try done.
    + transitivity (take (length p) c ++ drop (length p) c); [by rewrite take_drop|]. f_equal.
      apply (f_equal (take (length p))) in He. rewrite take_app_le, take_app_length in He by lia. done.
    + intros Hn. apply (f_equal length) in Hn. rewrite length_drop in Hn. cbn in Hn. lia.
  - apply app_split in He as (p' & -> & He); [|lia].
    destruct (IH p' He Hq) as (cs1 & c1 & cs2 & p1 & q1 & -> & -> & -> & ?).
    exists (c :: cs1), (p1 ++ q1), cs2, p1, q1. cbn. by rewrite app_assoc.
Qed.

Lemma segment_items_torn key idx s r p q :
  seg_ok key s → s.1 = idx → record_ok r → encode_record r = p ++ q → q ≠ [] →
  ∃ tl torn, segment_items key idx (seg_content s ++ p) = map Ok (seg_records s) ++ tl ∧ scan_end tl torn.
Proof.
  intros Hs <- Hr He Hq. apply seg_ok_split in Hs as [Hok Hst].
  pose proof (stored_count _ _ _ _ Hst) as Hcnt. unfold segment_items, seg_content.
  destruct (drain_stored (SegmentReader_open (concat (map snd s.2) ++ p) s.1 key) (seg_records s)
    (map snd s.2) p (S (length (concat (map snd s.2) ++ p)))) as (rd' & -> & Hd & Hrest & _);
    [done..|rewrite length_app; lia|].
  destruct (S _ - _)%nat as [|fuel] eqn:Hfu; [rewrite length_app in Hfu; lia|].
  destruct (next_record_torn rd' r p q Hd Hr He Hq Hrest) as (rd2 & Hd2 & [Hn|(e & Ht & Hn)]);
    cbn [drain]; rewrite Hn.
  - by exists [], false.
  - exists [Err e], true. rewrite drain_done by done. split; [done|]. by destruct e.
Qed.

(** A segment after plaintext records. *)
Definition seg_add (s : seg) (rs : list WalRecord) : seg :=
  (s.1, s.2 ++ map (λ r, (r, encode_record r)) rs).

Lemma seg_records_add s rs : seg_records (seg_add s rs) = seg_records s ++ rs.
Proof. unfold seg_records; cbn. rewrite map_app, map_map. cbn. by rewrite map_id. Qed.

Lemma seg_content_add s rs : seg_content (seg_add s rs) = seg_content s ++ concat (map encode_record rs).
Proof. unfold seg_content; cbn. by rewrite map_app, concat_app, map_map. Qed.

Lemma seg_ok_add key s rs : seg_ok key s → Forall record_ok rs → seg_ok key (seg_add s rs).
Proof.
  unfold seg_ok; cbn. intros Hs Hok. apply Forall_app. split; [done|].
  induction Hok; cbn; [constructor|]. constructor; [|done]. cbn. split; [done|constructor].
Qed.

(** Recovery of the log with only part of a transaction's bytes in it. *)
Lemma torn_items key dir ss s rs' p q :
  dir_repr key dir (ss ++ [s]) → (∀ i, i ∈ list_segments dir → 0 ≤ i) →
  Forall record_ok rs' → concat (map encode_record rs') = p ++ q → q ≠ [] →
  ∃ rs1 r rs2 tl torn, rs' = rs1 ++ r :: rs2 ∧ scan_end tl torn ∧
    wal_items (<[s.1 := seg_content s ++ p]> dir) key 0 =
    map Ok (flat_map seg_records (ss ++ [s]) ++ rs1) ++ tl.
Proof.
  intros Hr Hpos Hok He Hq. destruct (concat_prefix _ _ _ He Hq) as (cs1 & c & cs2 & p1 & q1 & Hcs & -> & Hc & Hq1).
  apply map_eq_app in Hcs as (rs1 & rs2' & -> & <- & Hcs). apply map_eq_cons in Hcs as (r & rs2 & -> & <- & <-).
  apply Forall_app in Hok as [Hok1 [Hokr _]%Forall_cons].
  assert (Hs : seg_ok key (seg_add s rs1)).
  { apply seg_ok_add; [|done]. by destruct Hr as (_ & _ & [_ [Hs _]%Forall_cons]%Forall_app). }
  destruct (segment_items_torn key s.1 _ r p1 q1 Hs eq_refl Hokr Hc Hq1) as (tl & torn & Hit & Hend).
  exists rs1, r, rs2, tl, torn. split_and!; [done..|]. erewrite wal_items_last by done.
  rewrite seg_content_add, <- app_assoc in Hit. rewrite Hit, seg_records_add, flat_map_app.
  cbn [flat_map]. by rewrite app_nil_r, !map_app, <- !app_assoc.
Qed.

(** C7: a commit is atomic across a crash.  If the machine stops while the
    data and commit records of a transaction are being written, leaving any
    strict prefix of their bytes at the end of the active segment,
    recovery succeeds and returns exactly the transactions committed before;
    none of the interrupted transaction's mutations appears. *)
Theorem commit_crash_atomic t w rs ds c p q :
  wal_inv w rs → Forall typed rs →
  Forall record_ok (ds ++ [c]) →
  Forall (λ r, h_tx_id (r_header r) = t ∧ h_record_type (r_header r) = record_type_u8 RData) ds →
  concat (map encode_record (ds ++ [c])) = p ++ q → q ≠ [] →
  ∃ res, recover_with_options (ww_dir (append_file p w)) (ww_encryption_key w) false = Ok res ∧
    rr_committed res = sort_by_seq (committed_spec rs).
Proof.
  intros Hinv Hty Hok Hds He Hq. pose proof (λ i, wal_inv_pos w rs i Hinv) as Hpos.
  destruct Hinv as (ss & rcs & Hr & -> & _).
  destruct (torn_items _ _ _ _ _ _ _ Hr Hpos Hok He Hq) as (rs1 & r & rs2 & tl & torn & Hrs & Hend & Hit).
  assert (Hpre : rs1 `prefix_of` ds).
  { destruct rs2 as [|x rs2 _] using rev_ind.
    - apply app_inj_tail in Hrs as [-> _]. done.
    - rewrite app_comm_cons, app_assoc in Hrs. apply app_inj_tail in Hrs as [-> _]. by eexists. }
  destruct Hpre as [rest ->]. apply Forall_app in Hds as [Hds _].
  set (s := (seg_index (ww_active w), rcs)) in *.
  assert (Hdir : ww_dir (append_file p w) = <[s.1 := seg_content s ++ p]> (ww_dir w)).
  { destruct Hr as (_ & [_ [Hs _]%Forall_cons]%Forall_app & _). unfold append_file; cbn in *. by rewrite Hs. }
  rewrite Hdir. unfold recover_with_options.
  assert (Hty' : Forall typed (flat_map seg_records (ss ++ [s]) ++ rs1)).
  { apply Forall_app. split; [done|]. eapply Forall_impl; [exact Hds|]. intros ? [_ ?]. by exists RData. }
  destruct (scan_items_repr [] _ scan0 tl Hty' scan_repr0) as (st & Hsc & Hst).
  assert (Hsc' := eq_trans (f_equal (λ i, scan_items false i scan0) Hit) Hsc). cbv beta in Hsc'. rewrite Hsc'.
  cbn [app] in Hst. destruct Hst as (_ & Hcom & _).
  rewrite committed_spec_data in Hcom by (eapply Forall_impl; [exact Hds|by intros ? []]).
  destruct tl as [|[?|e] tl]; cbn in Hend; [|done|].
  - eexists. split; [reflexivity|]. cbn. by rewrite Hcom.
  - destruct Hend as [Hes ->]. cbn. rewrite Hes. eexists. split; [reflexivity|]. cbn. by rewrite Hcom.
Qed.

(** ** Transaction ids after a restart *)

Definition max_tx_id (cts : list CommittedTransaction) : Z := foldl (λ m ct, Z.max m (ct_tx_id ct)) 0 cts.

Lemma note_commit_all cts W last :
  forM (handle TxWal note_commit false None) cts (W, last) =
  (Ok tt, (W, foldl (λ m ct, Z.max m (ct_tx_id ct)) last cts)).
Proof.
  revert last. induction cts as [|ct cts IH]; intros last; [done|]. cbn [forM foldl].
  rewrite (mbind_eq _ _ _ tt (W, Z.max last (ct_tx_id ct))); [apply IH|].
  unfold handle, mbind, M_bind, liftR, note_commit, modify. cbn. do 2 f_equal.
  destruct (Z.ltb_spec last (ct_tx_id ct)); lia.
Qed.

Lemma open_next_tx_id dir sk mode W rs :
  list_segments dir ≠ [] → wal_items dir None 0 = map Ok rs → Forall typed rs →
  ∃ m, open_with_signing_and_mode dir sk mode W = Ok m ∧
    tm_next_tx_id m = wadd_u64 (max_tx_id (committed_spec rs)) 1 ∧ tm_active m = ∅ ∧ tm_committed_keys m = ∅ ∧
    ww_dir (tm_wal m) = dir ∧ tm_signing_key m = sk.
Proof.
  intros Hne Hi Hty. unfold open_with_signing_and_mode.
  assert (Hdir : ww_dir (open_with_options dir DEFAULT_SEGMENT_SIZE mode None) = dir).
  { unfold open_with_options. destruct (last (list_segments dir)) eqn:Hl; [done|].
    by apply last_None in Hl. }
  assert (He : wal_items dir None 0 = map Ok rs ++ []) by (by rewrite app_nil_r).
  assert (Hs : scan_end [] false) by done.
  destruct (recover_streaming_Ok TxWal note_commit false None dir None 0 rs [] false (W, 0) He Hty Hs)
    as (n & Hr).
  rewrite Hdir, Hr. unfold mbind, M_bind. rewrite note_commit_all. cbn. eexists. split; [reflexivity|]. done.
Qed.

(** A reopened manager takes the id after the highest {e committed} id in
    the log, so the id of a transaction that a crash left open is given out
    again; when the new transaction commits, recovery attributes to it the
    data records of the interrupted one too. *)
Theorem reused_tx_id_merges dir sk mode W rs b ds c :
  list_segments dir ≠ [] → wal_items dir None 0 = map Ok rs → Forall typed rs →
  let t := wadd_u64 (max_tx_id (committed_spec rs)) 1 in
  h_tx_id (r_header b) = t → rec_is RBegin b = true →
  Forall (λ r, h_tx_id (r_header r) = t ∧ h_record_type (r_header r) = record_type_u8 RData) ds →
  h_tx_id (r_header c) = t → rec_is RCommit c = true →
  (∃ m, open_with_signing_and_mode dir sk mode W = Ok m ∧ tm_next_tx_id m = t) ∧
  committed_spec (rs ++ [b] ++ ds ++ [c]) =
    committed_spec rs ++ [mkCommitted t c (payloads_of (data_of t rs ++ ds)) (data_of t rs ++ ds)].
Proof.
  intros Hne Hi Hty t Hb Hbb Hds Hc Hcc.
  destruct (open_next_tx_id dir sk mode W rs Hne Hi Hty) as (m & Ho & Hn & _). split; [by exists m|].
  apply Z.eqb_eq in Hcc. rewrite !app_assoc, (committed_spec_commit t), committed_spec_data, data_of_data by
    (done || (eapply Forall_impl; [exact Hds|by intros ? []])).
  apply Z.eqb_eq in Hbb. unfold committed_spec. rewrite committed_after_snoc, data_of_snoc. cbn.
  unfold ends_tx, data_of_tx, rec_is. rewrite Hb, Hbb, Z.eqb_refl. cbn. by rewrite !app_nil_r.
Qed.
End manager.

Notation TM := (M TransactionManager TxError).

(** ** Snapshot reads *)

Definition mark_deleted (d : Z) (v : RowVersion) : RowVersion :=
  mkVersion (rv_tx_id_created v) d (rv_row_sequence v) (rv_data v) (rv_data_hash v) (rv_prev_hash v).

(** A later writer's effect on one version: none, or deleting a live one. *)
Definition later_write (snap : Z) (v v' : RowVersion) : Prop :=
  v' = v ∨ (rv_tx_id_deleted v = 0 ∧ ∃ d, snap ≤ d ∧ v' = mark_deleted d v).

Lemma later_write_visible snap v v' :
  later_write snap v v' → is_visible v' snap = is_visible v snap ∧ rv_data v' = rv_data v.
Proof.
  intros [->|(H0 & d & Hd & ->)]; [done|]. unfold is_visible, mark_deleted; cbn. rewrite H0. cbn.
  destruct (Z.ltb_spec d snap); [lia|]. by rewrite andb_false_r.
Qed.

Lemma is_visible_newer snap v : snap ≤ rv_tx_id_created v → is_visible v snap = TooNew.
Proof. intros Hv. unfold is_visible. by destruct (Z.leb_spec snap (rv_tx_id_created v)); [|lia]. Qed.

Lemma find_skip {A} (f : A → bool) l1 l2 :
  Forall (λ x, f x = false) l1 → find f (l1 ++ l2) = find f l2.
Proof. induction 1 as [|x l1 Hx _ IH]; [done|]. cbn. by rewrite Hx. Qed.

(** A snapshot read is stable: whatever transactions at or after the
    snapshot create or delete, the row a snapshot sees keeps its data. *)
Theorem snapshot_stable snap vs vs' newer :
  Forall2 (later_write snap) vs vs' → Forall (λ v, snap ≤ rv_tx_id_created v) newer →
  rv_data <$> latest_visible (vs' ++ newer) snap = rv_data <$> latest_visible vs snap.
Proof.
  intros Hw Hnew. unfold latest_visible. rewrite reverse_app, find_skip.
  2: { apply Forall_reverse. eapply Forall_impl; [exact Hnew|]. intros v Hv. cbn.
       by rewrite (is_visible_newer _ _ Hv). }
  apply Forall2_reverse in Hw. induction Hw as [|v v' l l' [Hv Hd]%later_write_visible _ IH]; [done|].
  cbn. rewrite Hv. case_bool_decide; cbn; [by rewrite Hd|done].
Qed.

(** What a snapshot sees is the visible version created last. *)
Lemma latest_visible_spec snap vs v :
  StronglySorted (λ a b, rv_tx_id_created a ≤ rv_tx_id_created b) vs → latest_visible vs snap = Some v →
  v ∈ vs ∧ is_visible v snap = Visible ∧
  ∀ v', v' ∈ vs → is_visible v' snap = Visible → rv_tx_id_created v' ≤ rv_tx_id_created v.
Proof.
  unfold latest_visible. induction vs as [|x vs IH] using rev_ind; [done|]. intros Hs.
  rewrite reverse_snoc. cbn. case_bool_decide as Hx.
  - intros [= ->]. split_and!; [set_solver|done|].
    intros v' [Hv'|Hv'%list_elem_of_singleton]%elem_of_app _; [|by subst].
    eapply StronglySorted_app_1_elem_of in Hs; [exact Hs|exact Hv'|by left].
  - intros Hf. destruct (IH (StronglySorted_app_1_l _ _ _ Hs) Hf) as (? & ? & Hmax).
    split_and!; [set_solver|done|]. intros v' [Hv'|Hv'%list_elem_of_singleton]%elem_of_app Hvis; [by apply Hmax|].
    by subst.
Qed.
