(* ===== verification/TxLog.v ===== *)
(** * vledger-transaction: whole transactions and the log

    The store runs each change as one transaction: [begin], one
    [add_mutation] per row, [commit].  When the sequence succeeds, in whatever
    environment, the log gains exactly one committed transaction, with exactly
    these rows, and what recovery needs of the log still holds.  The payloads
    the store writes are small; that they fit in a record is a property of
    the serializer's format, stated as a class. *)

From stdpp Require Import base gmap list strings option fin_maps sorting.
From Stdlib Require Import ZArith Lia.
From S2P Require Import Prelude Bytes Crypto WalRecord Wal Recovery Tx.

(** A row payload as the store builds it: row data that fit a page, whose size
    is a [u16]. *)
Definition MAX_ROW : Z := 64 * 1024.
Definition data_small (p : DataPayload) : Prop :=
  u32_ok (dp_table_id p) ∧ u64_ok (dp_page_id p) ∧ u16_ok (dp_slot_id p) ∧
  Z.of_nat (length (dp_row_data p)) ≤ MAX_ROW ∧ hash_ok (dp_row_hash p) ∧
  (∀ h, dp_prev_hash p = Some h → hash_ok h).
Definition commit_small (p : CommitPayload) : Prop :=
  u32_ok (cp_record_count p) ∧ hash_ok (cp_tx_hash p) ∧
  (length (cp_signature p) ≤ 64)%nat ∧ (length (cp_signer_pubkey p) ≤ 32)%nat.
Definition checkpoint_small (p : CheckpointPayload) : Prop :=
  u64_ok (ck_last_committed_sequence p) ∧ hash_ok (ck_page_merkle_root p) ∧
  (length (ck_root_signature p) ≤ 64)%nat ∧ (length (ck_signer_pubkey p) ≤ 32)%nat.

(** bincode adds a few bytes per field, far from the 64 MiB a record may
    hold. *)
Class SmallRecords `{WalExt} := {
  begin_fits : ∀ d, (∀ t, d = Some t → (String.length t ≤ 64)%nat) → fits (mkBegin d);
  data_fits : ∀ p, data_small p → fits p;
  commit_fits : ∀ p, commit_small p → fits p;
  checkpoint_fits : ∀ p, checkpoint_small p → fits p
}.

(** Serializing these payloads to a buffer does not fail. *)
Class TotalRecords `{WalExt} := {
  begin_total : ∀ p : BeginPayload, is_Some (enc p);
  data_total : ∀ p : DataPayload, is_Some (enc p);
  commit_total : ∀ p : CommitPayload, is_Some (enc p)
}.

Section txlog.
Context `{Blake3} `{Ed25519} `{!WalExt} `{!SmallRecords}.

(** ** The log of a manager *)

(** The log holds the records [rs]; ids below the next one are used, and every
    commit record in it verifies. *)
Record log_ok (m : TransactionManager) (rs : list WalRecord) : Prop := {
  log_tm : tm_inv m;
  log_wal : wal_inv (tm_wal m) rs;
  log_plain : ww_encryption_key (tm_wal m) = None;
  log_typed : Forall typed rs;
  log_seq : u64_ok (ww_sequence (tm_wal m));
  log_next : 0 < tm_next_tx_id m;
  log_ids : Forall (λ r, h_tx_id (r_header r) < tm_next_tx_id m) rs;
  log_verified : Forall (λ ct, verify_commit_full (ct_commit_record ct) (ct_data_records ct) = Ok tt)
    (committed_spec rs)
}.

(** Ids and segment numbers that have not run out. *)
Definition log_room (m : TransactionManager) (n : nat) : Prop :=
  tm_next_tx_id m < 2 ^ 64 - 1 ∧ room n (tm_wal m).

(** *** The sequence counter stays in its width *)

Definition seq_in_width (w : WalWriter) : Prop := u64_ok (ww_sequence w).

Lemma write_all_width d : preserves seq_in_width (write_all d).
Proof. unfold write_all. solve_preserves; apply preserves_modify; by intros w. Qed.
Lemma roll_segment_width : preserves seq_in_width roll_segment.
Proof. unfold roll_segment, sync_all. solve_preserves; apply preserves_modify; by intros w. Qed.
#[local] Hint Resolve write_all_width roll_segment_width : preserves.

Lemma append_width t ty p : preserves seq_in_width (append t ty p).
Proof.
  unfold append, append_encrypted, append_plain, ensure_space, add_offset, after_write, seal_blob, gen_nonce, sync_all.
  solve_preserves; apply preserves_modify; intros w Hw; try done.
  unfold seq_in_width, wadd_u64, as_u64, u64_ok in *. cbn. apply Z.mod_pos_bound. lia.
Qed.
#[local] Hint Resolve append_width : preserves.

Lemma wal_append_width {P} `{Codec P} t ty (p : P) :
  preserves (λ m, seq_in_width (tm_wal m)) (wal_op (append_record t ty p)).
Proof.
  unfold wal_op. apply preserves_map_err, preserves_zoom_field; [done|]. unfold append_record.
  apply preserves_bind; auto with preserves.
Qed.
#[local] Hint Resolve wal_append_width : preserves.

Lemma commit_width t : preserves (λ m, seq_in_width (tm_wal m)) (commit t).
Proof. unfold commit, finish_commit. solve_preserves; apply preserves_modify; intros m Hm; by try case_match. Qed.
Lemma begin_width d : preserves (λ m, seq_in_width (tm_wal m)) (begin d).
Proof. unfold begin. solve_preserves; apply preserves_modify; by intros m. Qed.

(** ** One transaction *)

(** The calls the store makes for a list of rows. *)
Definition tx_prog (d : option string) (ms : list PendingMutation) : TM unit :=
  t ← begin d;
  _ ← forM (λ m, add_mutation t (pm_table_id m) (pm_page_id m) (pm_slot_id m) (pm_kind m)
                   (pm_row_data m) (pm_prev_hash m)) ms;
  commit t.

Lemma begin_Ok d W m rs n t W' m' :
  log_ok m rs → log_room m (S n) → (∀ x, d = Some x → (String.length x ≤ 64)%nat) →
  begin d (W, m) = (Ok t, (W', m')) →
  t = tm_next_tx_id m ∧ tm_next_tx_id m' = t + 1 ∧ tm_inv m' ∧ room n (tm_wal m') ∧
  tm_committed_keys m' = tm_committed_keys m ∧ tm_signing_key m' = tm_signing_key m ∧
  ww_encryption_key (tm_wal m') = ww_encryption_key (tm_wal m) ∧
  (∃ sn st, tm_active m' !! t = Some (Transaction_new t sn st d)) ∧
  ∃ b, wal_inv (tm_wal m') (rs ++ [b]) ∧ h_tx_id (r_header b) = t ∧
    h_record_type (r_header b) = record_type_u8 RBegin.
Proof.
  intros Hl [Hb Hr] Hd Hbe. pose proof (log_next _ _ Hl) as Hn.
  assert (Hinv : tm_inv m') by (pose proof (begin_preserves d W m (log_tm _ _ Hl)) as Hp; by rewrite Hbe in Hp).
  unfold begin in Hbe. minv.
  repeat match goal with p : World * TransactionManager |- _ => destruct p end. cbn in *.
  simplify_eq/=.
  match goal with Hx : wal_op _ _ = _ |- _ =>
    eapply append_record_Ok in Hx as (Hi & Hr' & (_ & Hid & Hty & _) & Hm & Hk); [|exact (log_wal _ _ Hl)|unfold u64_ok; lia|exact Hr|by apply begin_fits] end.
  rewrite wadd_u64_small in Hm by lia. split_and!; try done; try by rewrite Hm.
  - eexists _, _. apply lookup_insert_eq.
  - by eexists.
Qed.

Lemma add_mutations_Ok t ms : ∀ W m tx u W' m',
  tm_inv m → tm_active m !! t = Some tx → tx_state tx = Active →
  Forall (λ x, pm_row_hash x = hash_bytes (pm_row_data x)) ms →
  forM (λ m, add_mutation t (pm_table_id m) (pm_page_id m) (pm_slot_id m) (pm_kind m)
               (pm_row_data m) (pm_prev_hash m)) ms (W, m) = (Ok u, (W', m')) →
  W' = W ∧ tm_inv m' ∧ m' = tm_set_active (tm_active m') m ∧
  ∃ tx', tm_active m' !! t = Some tx' ∧ tx_state tx' = Active ∧
    tx_mutations tx' = tx_mutations tx ++ ms ∧ tx_idempotency_key tx' = tx_idempotency_key tx.
Proof.
  induction ms as [|x ms IH]; intros W m tx u W' m' Hinv Ht Hs Hh Ha; cbn [forM] in Ha.
  { minv. split_and!; [done..|by destruct m'|]. exists tx. by rewrite app_nil_r. }
  apply Forall_cons in Hh as [Hx Hh]. apply mbind_Ok_inv in Ha as (u1 & [W1 m1] & Hx1 & Ha).
  pose proof (add_mutation_preserves t (pm_table_id x) (pm_page_id x) (pm_slot_id x) (pm_kind x)
    (pm_row_data x) (pm_prev_hash x) W m Hinv) as Hinv1. rewrite Hx1 in Hinv1.
  unfold add_mutation, with_tx in Hx1. rewrite (mbind_eq _ _ _ (tm_active m) (W, m)) in Hx1 by done. cbv beta in Hx1.
  rewrite Ht in Hx1. rewrite (mbind_eq _ _ _ tx (W, m)) in Hx1 by done.
  unfold Transaction_add_mutation, ensure_active in Hx1. rewrite Hs in Hx1. cbn in Hx1. rewrite <- Hx in Hx1.
  unfold mbind, M_bind, liftR, modify in Hx1. cbn in Hx1. simplify_eq.
  eapply (IH _ _ (tx_set_mutations (tx_mutations tx ++ [x]) (tx_hashed tx ++ pm_row_hash x) tx))
    in Ha as (-> & Hinv2 & Hm & tx' & Ht' & Hs' & Hms & Hk); [|done| |done|done].
  2: { cbn. rewrite lookup_insert_eq. do 2 f_equal. by destruct x. }
  split_and!; [done|done|rewrite Hm; done|]. exists tx'. split_and!; [done..| |exact Hk].
  rewrite Hms. cbn. by rewrite <- app_assoc.
Qed.

(** A fresh id has no data in the log. *)
Lemma data_of_fresh t rs : Forall (λ r, h_tx_id (r_header r) ≠ t) rs → data_of t rs = [].
Proof.
  induction rs as [|r rs IH] using rev_ind; intros Hf; [done|].
  apply Forall_app in Hf as [Hf [Hr _]%Forall_cons]. rewrite data_of_snoc, IH by done.
  unfold ends_tx, data_of_tx. by rewrite (proj2 (Z.eqb_neq _ _) Hr).
Qed.

Lemma committed_spec_begin rs b :
  h_record_type (r_header b) = record_type_u8 RBegin → committed_spec (rs ++ [b]) = committed_spec rs.
Proof.
  intros Hb. unfold committed_spec. rewrite committed_after_snoc. cbn. unfold rec_is. rewrite Hb. cbn.
  apply app_nil_r.
Qed.

Lemma commit_payload_small sk tx : commit_small (commit_payload sk tx).
Proof.
  unfold commit_payload, commit_small, commit_signature. destruct sk as [sk|]; cbn.
  - rewrite ed_sign_length, ed_public_length. split_and!; [apply Z.mod_pos_bound; lia|apply blake3_length|lia|lia].
  - split_and!; [apply Z.mod_pos_bound; lia|apply blake3_length|lia|lia].
Qed.

(** A row as [add_mutation] files it. *)
Definition row_small (x : PendingMutation) : Prop :=
  pm_row_hash x = hash_bytes (pm_row_data x) ∧ data_small (data_payload x).

(** The transactions [cts] are added to the log, and nothing else that
    recovery returns. *)
Definition logged (m m' : TransactionManager) (rs rs' : list WalRecord) (pss : list (list DataPayload)) : Prop :=
  log_ok m' rs' ∧ tm_signing_key m' = tm_signing_key m ∧
  ∃ cts, committed_spec rs' = committed_spec rs ++ cts ∧ map ct_data_payloads cts = pss.

(** A transaction that succeeds, in any environment, is the next committed
    transaction of the log, with its rows in order. *)
Lemma tx_prog_logged d ms W m rs u W' m' :
  log_ok m rs → log_room m (2 + length ms) → (∀ x, d = Some x → (String.length x ≤ 64)%nat) →
  Forall row_small ms → tx_prog d ms (W, m) = (Ok u, (W', m')) →
  ∃ rs', logged m m' rs rs' [map data_payload ms].
Proof.
  intros Hl Hroom Hd Hms Hp. unfold tx_prog in Hp.
  apply mbind_Ok_inv in Hp as (t & [W1 m1] & Hb & Hp). apply mbind_Ok_inv in Hp as (u2 & [W2 m2] & Ha & Hc).
  pose proof (log_next _ _ Hl) as Hpos. pose proof (begin_width d W m (log_seq _ _ Hl)) as Hq1. rewrite Hb in Hq1.
  eapply begin_Ok in Hb as (-> & Hn1 & Hi1 & Hr1 & Hk1 & Hs1 & He1 & (sn & st & Ht1) & b & Hw1 & Hb1 & Hb2);
    [|done..].
  eapply add_mutations_Ok in Ha as (-> & Hi2 & Hm2 & tx & Ht2 & Ha2 & Hms2 & Hkey2); [|done..|].
  2: { eapply Forall_impl; [exact Hms|]. by intros x []. }
  cbn in Hms2, Hkey2. assert (Hw2 : tm_wal m2 = tm_wal m1) by (by rewrite Hm2).
  assert (Hdf : data_of (tm_next_tx_id m) (rs ++ [b]) = []).
  { rewrite data_of_snoc, data_of_fresh.
    - unfold ends_tx, data_of_tx, rec_is. rewrite Hb2. cbn. by rewrite !andb_false_r.
    - eapply Forall_impl; [exact (log_ids _ _ Hl)|]. cbn. lia. }
  assert (Hq2 : seq_in_width (tm_wal m2)) by (by rewrite Hw2).
  apply (commit_width (tm_next_tx_id m) W1 m2) in Hq2. rewrite Hc in Hq2.
  assert (Hi3 : tm_inv m') by (pose proof (commit_preserves (tm_next_tx_id m) W1 m2 Hi2) as Hx; by rewrite Hc in Hx).
  destruct Hroom as [Hlt _].
  eapply commit_Ok in Hc as (ds & c & Hw3 & Hcs & Hv & _ & _ & Hids & Hn3 & Hs3 & He3).
  2: exact Hi2. 2: by rewrite Hw2. 2: exact Ht2. 2: exact Ha2. 2: by rewrite Hkey2. 2: exact Hdf.
  2: unfold u64_ok; lia.
  2: { rewrite Hw2. unfold mutation_count. rewrite Hms2. exact Hr1. }
  2: { rewrite Hms2. eapply Forall_impl; [exact Hms|]. intros x [_ Hx]. by apply data_fits. }
  2: { apply commit_fits, commit_payload_small. }
  rewrite (committed_spec_begin _ _ Hb2) in Hcs.
  assert (Hnext : tm_next_tx_id m' = tm_next_tx_id m + 1) by (rewrite Hn3, Hm2; cbn; lia).
  exists ((rs ++ [b]) ++ ds ++ [c]). split; [constructor|split].
  - exact Hi3.
  - exact Hw3.
  - rewrite He3, Hw2, He1. apply Hl.
  - rewrite !Forall_app. split_and!; [apply Hl|apply Forall_singleton; by exists RBegin|..];
      apply Forall_app in Hids as [Hid1 Hid2]; (eapply Forall_impl; [eassumption|by intros ? []]).
  - exact Hq2.
  - lia.
  - rewrite Hnext. rewrite !Forall_app. split_and!.
    + eapply Forall_impl; [exact (log_ids _ _ Hl)|]. cbn. lia.
    + apply Forall_singleton. lia.
    + apply Forall_app in Hids as [Hid1 _]. eapply Forall_impl; [exact Hid1|]. cbn. intros ? [-> _]. lia.
    + apply Forall_app in Hids as [_ Hid2]. eapply Forall_impl; [exact Hid2|]. cbn. intros ? [-> _]. lia.
  - rewrite Hcs. apply Forall_app. split; [apply Hl|]. by apply Forall_singleton.
  - by rewrite Hs3, Hm2.
  - eexists. split; [exact Hcs|]. cbn. by rewrite Hms2.
Qed.

(** ** Checkpoints *)

(** A checkpoint record adds no transaction. *)
Lemma checkpoint_signed_logged root W m rs n W' m' :
  log_ok m rs → log_room m 1 → hash_ok root → checkpoint_signed root (W, m) = (Ok n, (W', m')) →
  ∃ rs', logged m m' rs rs' [].
Proof.
  intros Hl [Hlt Hroom] Hroot Hc. unfold checkpoint_signed in Hc. rewrite (mbind_eq _ _ _ (tm_signing_key m) (W, m)) in Hc by done.
  cbv beta in Hc. apply wal_op_Ok in Hc as (w' & Hc & ->). unfold checkpoint_with_merkle_root in Hc.
  rewrite (mbind_eq _ _ _ (ww_sequence (tm_wal m)) (W, tm_wal m)) in Hc by done. cbv beta in Hc.
  apply mbind_Ok_inv in Hc as (u & [W1 w1] & Hs & Hc).
  assert (Hw1 : wal_inv w1 rs ∧ ww_encryption_key w1 = None ∧ ww_next_segment_index w1 = ww_next_segment_index (tm_wal m) ∧
    ww_sequence w1 = ww_sequence (tm_wal m)).
  { unfold sync, sync_all in Hs. rewrite (mbind_eq _ _ _ (ww_dirty (tm_wal m)) (W, tm_wal m)) in Hs by done.
    pose proof (log_wal _ _ Hl). pose proof (log_plain _ _ Hl).
    destruct (ww_dirty (tm_wal m)) as [[|]|]; cbn -[io] in Hs; minv; repeat match goal with p : World * WalWriter |- _ => destruct p end;
      repeat match goal with Hx : io _ _ = _ |- _ => apply io_Ok in Hx; cbn in Hx; subst end; split_and!; try done; by eapply wal_inv_ext. }
  destruct Hw1 as (Hw1 & Hk1 & Hn1 & Hq1). destruct (match tm_signing_key m with Some _ => _ | None => _ end) as [sig pk] eqn:Hsig.
  apply mbind_Ok_inv in Hc as (r & [W2 w2] & Ha & Hc). minv.
  assert (Hsmall : (length sig ≤ 64)%nat ∧ (length pk ≤ 32)%nat).
  { destruct (tm_signing_key m); simplify_eq/=; rewrite ?ed_sign_length, ?ed_public_length; cbn; lia. }
  assert (Hop : wal_op (append_record 0 RCheckpoint (mkCheckpoint (ww_sequence (tm_wal m)) root sig pk)) (W1, tm_set_wal w1 m) = (Ok r, (W', tm_set_wal w' m))).
  { unfold wal_op, map_err, zoom. cbn [tm_wal tm_set_wal]. by rewrite Ha. }
  pose proof (wal_append_width 0 RCheckpoint (mkCheckpoint (ww_sequence (tm_wal m)) root sig pk) W1 (tm_set_wal w1 m)) as Hq2.
  rewrite Hop in Hq2. cbn in Hq2. unfold seq_in_width in Hq2. rewrite Hq1 in Hq2. specialize (Hq2 (log_seq _ _ Hl)).
  eapply (append_record_Ok _ _ _ _ _ _ _ _ _ 0) in Hop as (Hw2 & _ & (_ & Hid & Hty & _) & _ & Hk2).
  2: exact Hw1. 2: by (unfold u64_ok; lia). 2: { unfold room in *. cbn. by rewrite Hn1. }
  2: { apply checkpoint_fits. unfold checkpoint_small. cbn. split_and!; [apply Hl|done|lia|lia]. }
  exists (rs ++ [r]). split; [constructor|split; [done|]]; cbn in *.
  - apply Hl.
  - done.
  - by rewrite Hk2.
  - apply Forall_app. split; [apply Hl|]. apply Forall_singleton. by exists RCheckpoint.
  - done.
  - apply Hl.
  - apply Forall_app. split; [apply Hl|]. apply Forall_singleton. rewrite Hid. apply Hl.
  - unfold committed_spec. rewrite committed_after_snoc. cbn. unfold rec_is. rewrite Hty. cbn. rewrite app_nil_r. apply Hl.
  - exists []. split; [|done]. unfold committed_spec. rewrite committed_after_snoc. cbn. unfold rec_is. rewrite Hty. done.
Qed.
End txlog.
