(* ===== verification/Page.v ===== *)
(** * vledger-pages: slotted pages and the page store

    Models [crates/vledger-pages/src/header.rs], [page.rs] and [store.rs] and
    [crates/vledger-crypto/src/encrypt.rs].  A page is a byte buffer: a 66-byte
    header, a slot directory growing up, slot data growing down from the end.
    The representation predicate [page_repr] says which rows a buffer holds;
    the operations are proved against it.  An index or arithmetic panic of the
    Rust code is the error [PagePanic], which well-formed pages never reach. *)

From stdpp Require Import base gmap list strings option fin_maps.
From Stdlib Require Import ZArith Lia.
From S2P Require Import Prelude Bytes Crypto Merkle WalRecord.

(** ** Headers *)

Record PageHeader := mkPageHeader {
  ph_magic : Z;
  ph_version : Z;
  ph_flags : Z;
  ph_page_id : Z;
  ph_table_id : Z;
  ph_prev_page_id : Z;
  ph_slot_count : Z;
  ph_free_bytes : Z;
  ph_content_hash : Hash;
  ph_crc32 : Z
}.

Definition PH_SIZE : nat := 66.
Definition DEFAULT_PAGE_SIZE : Z := 8 * 1024.
Definition PAGE_MAGIC : Z := 0x56475047.
Definition PAGE_VERSION : Z := 1.

(** [PageFlags] *)
Definition flag_encrypted (flags : Z) : bool := negb (Z.land flags 0x01 =? 0).
Definition flag_overflow (flags : Z) : bool := negb (Z.land flags 0x02 =? 0).
Definition flag_deleted (flags : Z) : bool := negb (Z.land flags 0x04 =? 0).

Definition PageHeader_new (page_id table_id page_size : Z) : PageHeader :=
  mkPageHeader PAGE_MAGIC PAGE_VERSION 0 page_id table_id 0 0
    (as_u16 (page_size - Z.of_nat PH_SIZE)) ZERO_HASH 0.

Definition validate_magic (h : PageHeader) : bool :=
  (ph_magic h =? PAGE_MAGIC) && (ph_version h =? PAGE_VERSION).

Definition ph_set_slots (n free : Z) (h : PageHeader) : PageHeader :=
  mkPageHeader (ph_magic h) (ph_version h) (ph_flags h) (ph_page_id h) (ph_table_id h)
    (ph_prev_page_id h) n free (ph_content_hash h) (ph_crc32 h).
Definition ph_set_hash (c : Hash) (h : PageHeader) : PageHeader :=
  mkPageHeader (ph_magic h) (ph_version h) (ph_flags h) (ph_page_id h) (ph_table_id h)
    (ph_prev_page_id h) (ph_slot_count h) (ph_free_bytes h) c (ph_crc32 h).
Definition ph_set_crc (c : Z) (h : PageHeader) : PageHeader :=
  mkPageHeader (ph_magic h) (ph_version h) (ph_flags h) (ph_page_id h) (ph_table_id h)
    (ph_prev_page_id h) (ph_slot_count h) (ph_free_bytes h) (ph_content_hash h) c.

Definition page_header_ok (h : PageHeader) : Prop :=
  u32_ok (ph_magic h) ∧ 0 ≤ ph_version h < 256 ∧ 0 ≤ ph_flags h < 256 ∧ u64_ok (ph_page_id h) ∧
  u32_ok (ph_table_id h) ∧ u64_ok (ph_prev_page_id h) ∧ u16_ok (ph_slot_count h) ∧
  u16_ok (ph_free_bytes h) ∧ hash_ok (ph_content_hash h) ∧ u32_ok (ph_crc32 h).

(** The fields before [crc32], then the whole header: 62 and 66 bytes. *)
Definition page_header_front (h : PageHeader) : bytes :=
  le32 (ph_magic h) ++ le_bytes 1 (ph_version h) ++ le_bytes 1 (ph_flags h) ++ le64 (ph_page_id h) ++
  le32 (ph_table_id h) ++ le64 (ph_prev_page_id h) ++ le16 (ph_slot_count h) ++
  le16 (ph_free_bytes h) ++ ph_content_hash h.
Definition page_header_fields (h : PageHeader) : bytes := page_header_front h ++ le32 (ph_crc32 h).

(** bincode with fixed-width integers: a struct is its fields in order. *)
Class PageExt := {
  page_header_codec :: Codec PageHeader;
  page_header_layout : ∀ h, page_header_ok h → enc h = Some (page_header_fields h)
}.

Inductive PageError :=
  | PageIo
  | PageChecksumMismatch (page_id expected actual : Z)
  | PageBadMagic (page_id : Z)
  | PageUnsupportedVersion (page_id version : Z)
  | PageFull (page_id free_bytes needed : Z)
  | SlotNotFound (page_id slot_id : Z)
  | PageSealed (page_id : Z)
  | ContentHashMismatch (page_id : Z)
  | PageCrypto
  | PageSerialization
  | PagePanic.

(** ** Byte buffers: bounds-checked slices, as in Rust *)

(** [buf[off..off + data.len()].copy_from_slice(data)] *)
Definition splice (off : Z) (data buf : bytes) : Result PageError bytes :=
  if (0 <=? off) && (off + Z.of_nat (length data) <=? Z.of_nat (length buf))
  then Ok (take (Z.to_nat off) buf ++ data ++ drop (Z.to_nat off + length data) buf)
  else Err PagePanic.

(** [&buf[a..b]] *)
Definition slice (a b : Z) (buf : bytes) : Result PageError bytes :=
  if (0 <=? a) && (a <=? b) && (b <=? Z.of_nat (length buf))
  then Ok (take (Z.to_nat (b - a)) (drop (Z.to_nat a) buf))
  else Err PagePanic.

(** ** Pages *)

Record Page := mkPage {
  pg_buf : bytes;
  pg_header : PageHeader;
  pg_sealed : bool;
  pg_size : Z
}.

Definition SLOT_DIR_ENTRY_SIZE : Z := 4.

Record SlotEntry := mkSlot { se_offset : Z; se_length : Z }.

Section page.
Context `{Blake3} `{WalExt} `{PageExt}.

Definition body_start : Z := Z.of_nat PH_SIZE.

(** [flush_header]: the serialization is expected not to fail. *)
Definition flush_header (p : Page) : Result PageError Page :=
  encoded ← ok_or (enc (pg_header p)) PagePanic;
  buf ← splice 0 encoded (pg_buf p);
  Ok (mkPage buf (pg_header p) (pg_sealed p) (pg_size p)).

Definition with_size (page_id table_id page_size : Z) : Result PageError Page :=
  if page_size <? body_start + 64 then Err PagePanic
  else flush_header (mkPage (replicate (Z.to_nat page_size) Byte.x00)
                       (PageHeader_new page_id table_id page_size) false page_size).

Definition Page_new (page_id table_id : Z) : Result PageError Page :=
  with_size page_id table_id DEFAULT_PAGE_SIZE.

Definition read_slot_entry (p : Page) (index : Z) : Result PageError (option SlotEntry) :=
  if ph_slot_count (pg_header p) <=? index then Ok None
  else
    let dir_offset := body_start + index * SLOT_DIR_ENTRY_SIZE in
    o ← slice dir_offset (dir_offset + 2) (pg_buf p);
    l ← slice (dir_offset + 2) (dir_offset + 4) (pg_buf p);
    Ok (Some (mkSlot (le_val o) (le_val l))).

(** The sum of the lengths of the first [n] slots. *)
Fixpoint slots_total (p : Page) (n : nat) : Result PageError Z :=
  match n with
  | O => Ok 0
  | S n =>
      t ← slots_total p n;
      e ← read_slot_entry p (Z.of_nat n);
      Ok (t + match e with Some e => se_length e | None => 0 end)
  end.

Definition write_slot (data : bytes) (p : Page) : Result PageError (Z * Page) :=
  let h := pg_header p in
  if pg_sealed p then Err (PageSealed (ph_page_id h))
  else
    let slot_count := ph_slot_count h in
    let len := Z.of_nat (length data) in
    let needed := SLOT_DIR_ENTRY_SIZE + len in
    if ph_free_bytes h <? needed then Err (PageFull (ph_page_id h) (ph_free_bytes h) needed)
    else
      total ← slots_total p (Z.to_nat slot_count);
      let data_end := pg_size p - total in
      let data_start := data_end - len in
      buf ← splice data_start data (pg_buf p);
      let dir_offset := body_start + slot_count * SLOT_DIR_ENTRY_SIZE in
      let slot_offset := as_u16 (data_start - body_start) in
      buf ← splice dir_offset (le16 slot_offset) buf;
      buf ← splice (dir_offset + 2) (le16 (as_u16 len)) buf;
      Ok (slot_count,
          mkPage buf (ph_set_slots (as_u16 (slot_count + 1)) (as_u16 (ph_free_bytes h - as_u16 needed)) h)
            (pg_sealed p) (pg_size p)).

Definition read_slot (slot_id : Z) (p : Page) : Result PageError bytes :=
  e ← read_slot_entry p slot_id;
  entry ← ok_or e (SlotNotFound (ph_page_id (pg_header p)) slot_id);
  let start := body_start + se_offset entry in
  slice start (start + se_length entry) (pg_buf p).

Definition page_body (p : Page) : bytes := drop PH_SIZE (pg_buf p).

Definition page_crc (p : Page) : Z := crc32 (take (PH_SIZE - 4) (pg_buf p) ++ page_body p).

Definition set_header (h : PageHeader) (p : Page) : Page := mkPage (pg_buf p) h (pg_sealed p) (pg_size p).

Definition seal (p : Page) : Result PageError Page :=
  p ← flush_header p;
  let p := set_header (ph_set_hash (hash_bytes (page_body p)) (pg_header p)) p in
  p ← flush_header (set_header (ph_set_crc 0 (pg_header p)) p);
  p ← flush_header (set_header (ph_set_crc (page_crc p) (pg_header p)) p);
  Ok (mkPage (pg_buf p) (pg_header p) true (pg_size p)).

Definition verify_checksum (p : Page) : Result PageError unit :=
  let expected := ph_crc32 (pg_header p) in
  let computed := page_crc p in
  if computed =? expected then Ok tt
  else Err (PageChecksumMismatch (ph_page_id (pg_header p)) expected computed).

Definition verify_content_hash (p : Page) : Result PageError unit :=
  if bool_decide (hash_bytes (page_body p) = ph_content_hash (pg_header p)) then Ok tt
  else Err (ContentHashMismatch (ph_page_id (pg_header p))).

Definition from_bytes (bs : bytes) : Result PageError Page :=
  if (length bs <? PH_SIZE)%nat then Err PageIo
  else
    header ← ok_or (dec (take PH_SIZE bs)) PageSerialization;
    if negb (validate_magic header) then Err (PageBadMagic (ph_page_id header))
    else
      let page := mkPage bs header true (Z.of_nat (length bs)) in
      _ ← verify_checksum page;
      _ ← verify_content_hash page;
      Ok page.

Definition page_hash (p : Page) : Hash := hash_bytes (pg_buf p).

(** ** Authenticated encryption ([encrypt.rs]): the nonce, then the ciphertext *)

Definition encrypt (key nonce plaintext aad : bytes) : option bytes :=
  ct ← aead_encrypt key nonce aad plaintext; Some (nonce ++ ct).

Definition decrypt (key ciphertext aad : bytes) : option bytes :=
  if (length ciphertext <? 12)%nat then None
  else aead_decrypt key (take 12 ciphertext) aad (drop 12 ciphertext).

Lemma decrypt_encrypt_page key nonce m aad ct :
  length nonce = 12%nat → encrypt key nonce m aad = Some ct → decrypt key ct aad = Some m.
Proof.
  intros Hn. unfold encrypt. destruct (aead_encrypt key nonce aad m) as [c|] eqn:Ha; [|done].
  cbn. intros [= <-]. unfold decrypt. rewrite length_app. destruct (Nat.ltb_spec (length nonce + length c) 12); [lia|].
  rewrite take_app_length', drop_app_length' by done. by apply aead_correct.
Qed.

Lemma encrypt_length key nonce m aad ct :
  length nonce = 12%nat → encrypt key nonce m aad = Some ct → length ct = (length m + 28)%nat.
Proof.
  unfold encrypt. intros Hn He. destruct (aead_encrypt key nonce aad m) as [c|] eqn:Ha; [|done].
  cbn in He. simplify_eq. rewrite length_app, Hn, (aead_length _ _ _ _ _ Ha). lia.
Qed.

(** ** What a page holds *)

(** The directory of [slots] in a body of [bsize] bytes, [used] of them taken
    at the end. *)
Fixpoint dir_bytes (bsize used : Z) (slots : list bytes) : bytes :=
  match slots with
  | [] => []
  | s :: slots =>
      let used := used + Z.of_nat (length s) in
      le16 (bsize - used) ++ le16 (Z.of_nat (length s)) ++ dir_bytes bsize used slots
  end.

Definition total (slots : list bytes) : Z := Z.of_nat (length (concat slots)).

Definition bsize (p : Page) : Z := pg_size p - body_start.

Definition page_repr (p : Page) (slots : list bytes) : Prop :=
  ∃ hd gap, pg_buf p = hd ++ dir_bytes (bsize p) 0 slots ++ gap ++ concat (reverse slots) ∧
    length hd = PH_SIZE ∧ Z.of_nat (length (pg_buf p)) = pg_size p ∧ bsize p < 2 ^ 16 ∧
    ph_slot_count (pg_header p) = Z.of_nat (length slots) ∧
    ph_free_bytes (pg_header p) = Z.of_nat (length gap) ∧ page_header_ok (pg_header p) ∧
    validate_magic (pg_header p) = true.

Lemma dir_bytes_app b u l1 l2 :
  dir_bytes b u (l1 ++ l2) = dir_bytes b u l1 ++ dir_bytes b (u + total l1) l2.
Proof.
  revert u. induction l1 as [|s l1 IH]; intros u; cbn.
  - by replace (u + total []) with u by (unfold total; cbn; lia).
  - rewrite IH, <- !app_assoc. do 4 f_equal. unfold total. cbn. rewrite length_app. lia.
Qed.

Lemma dir_bytes_length b u l : length (dir_bytes b u l) = (4 * length l)%nat.
Proof.
  revert u. induction l as [|s l IH]; intros u; cbn; [done|]. rewrite !length_app, IH.
  unfold le16. rewrite !le_bytes_length. lia.
Qed.

Lemma total_cons s l : total (s :: l) = Z.of_nat (length s) + total l.
Proof. unfold total. cbn. rewrite length_app. lia. Qed.

Lemma concat_reverse_length (l : list bytes) : length (concat (reverse l)) = length (concat l).
Proof.
  induction l as [|s l IH]; [done|]. rewrite reverse_cons, concat_app, !length_app, IH. cbn.
  rewrite app_nil_r, length_app. lia.
Qed.

Lemma page_repr_size p slots :
  page_repr p slots →
  bsize p = 4 * Z.of_nat (length slots) + ph_free_bytes (pg_header p) + total slots.
Proof.
  intros (hd & gap & Hb & Hhd & Hl & _ & _ & Hf & _). unfold bsize, body_start.
  rewrite <- Hl, Hb, !length_app, dir_bytes_length, concat_reverse_length, Hhd. unfold total. lia.
Qed.

Lemma slice_app x y z a b :
  a = Z.of_nat (length x) → b = a + Z.of_nat (length y) → slice a b (x ++ y ++ z) = Ok y.
Proof.
  intros -> ->. unfold slice. rewrite !length_app.
  destruct (Z.leb_spec 0 (Z.of_nat (length x))); [|lia].
  destruct (Z.leb_spec (Z.of_nat (length x)) (Z.of_nat (length x) + Z.of_nat (length y))); [|lia].
  destruct (Z.leb_spec (Z.of_nat (length x) + Z.of_nat (length y))
    (Z.of_nat (length x + (length y + length z)))); [|lia]. cbn [andb].
  rewrite Nat2Z.id, drop_app_length. replace (Z.to_nat _) with (length y) by lia.
  by rewrite take_app_length.
Qed.

Lemma splice_app x y z d a :
  a = Z.of_nat (length x) → length d = length y → splice a d (x ++ y ++ z) = Ok (x ++ d ++ z).
Proof.
  intros -> Hd. unfold splice. rewrite !length_app.
  destruct (Z.leb_spec 0 (Z.of_nat (length x))); [|lia].
  destruct (Z.leb_spec (Z.of_nat (length x) + Z.of_nat (length d))
    (Z.of_nat (length x + (length y + length z)))); [|lia]. cbn [andb].
  rewrite Nat2Z.id, take_app_length, <- drop_drop, drop_app_length, Hd, drop_app_length. done.
Qed.

Lemma le_val_le16 z : u16_ok z → le_val (le16 z) = z.
Proof. intros Hz. unfold le16. rewrite le_val_bytes. apply Z.mod_small. exact Hz. Qed.

Lemma entry_slices x o l z :
  let a := Z.of_nat (length x) in
  slice a (a + 2) (x ++ le16 o ++ le16 l ++ z) = Ok (le16 o) ∧
  slice (a + 2) (a + 4) (x ++ le16 o ++ le16 l ++ z) = Ok (le16 l).
Proof.
  intros a. split; [by apply slice_app|].
  rewrite (app_assoc x). apply slice_app; [|unfold le16; rewrite le_bytes_length; lia].
  rewrite length_app. unfold le16. rewrite le_bytes_length. lia.
Qed.

Lemma page_repr_entry p l1 s l2 :
  page_repr p (l1 ++ s :: l2) →
  read_slot_entry p (Z.of_nat (length l1)) =
    Ok (Some (mkSlot (bsize p - total l1 - Z.of_nat (length s)) (Z.of_nat (length s)))).
Proof.
  intros Hr. pose proof (page_repr_size _ _ Hr) as Hsz.
  destruct Hr as (hd & gap & Hb & Hhd & Hl & Hmax & Hn & Hf & _).
  rewrite length_app in *. cbn [length] in *.
  assert (Htot : total (l1 ++ s :: l2) = total l1 + Z.of_nat (length s) + total l2).
  { unfold total. rewrite concat_app, length_app. cbn. rewrite length_app. lia. }
  assert (0 ≤ total l2 ∧ 0 ≤ total l1) by (unfold total; lia).
  unfold read_slot_entry. rewrite Hn.
  destruct (Z.leb_spec (Z.of_nat (length l1 + S (length l2))) (Z.of_nat (length l1))); [lia|].
  rewrite Hb, dir_bytes_app. cbn [dir_bytes]. rewrite <- !app_assoc.
  assert (Hoff : Z.of_nat (length (hd ++ dir_bytes (bsize p) 0 l1)) =
    body_start + Z.of_nat (length l1) * SLOT_DIR_ENTRY_SIZE).
  { rewrite length_app, dir_bytes_length, Hhd. unfold body_start, SLOT_DIR_ENTRY_SIZE. lia. }
  rewrite (app_assoc hd), <- Hoff. destruct (entry_slices (hd ++ dir_bytes (bsize p) 0 l1)
    (bsize p - (0 + total l1 + Z.of_nat (length s))) (Z.of_nat (length s))
    (dir_bytes (bsize p) (0 + total l1 + Z.of_nat (length s)) l2 ++ gap ++ concat (reverse (l1 ++ s :: l2))))
    as [-> ->]. cbn [mbind Result_bind].
  rewrite !le_val_le16 by (unfold u16_ok; lia). do 3 f_equal. lia.
Qed.

Lemma slots_total_repr p slots n :
  page_repr p slots → (n ≤ length slots)%nat → slots_total p n = Ok (total (take n slots)).
Proof.
  intros Hr. induction n as [|n IH]; intros Hn; [done|]. cbn [slots_total]. rewrite IH by lia.
  cbn [mbind Result_bind]. destruct (lookup_lt_is_Some_2 slots n ltac:(lia)) as [s Hs].
  pose proof (take_drop_middle slots n s Hs) as Hsp.
  assert (Hln : length (take n slots) = n) by (rewrite length_take; lia).
  rewrite <- Hsp in Hr. apply page_repr_entry in Hr. rewrite Hln in Hr. rewrite Hr.
  cbn [mbind Result_bind se_length]. f_equal. rewrite (take_S_r _ _ s) by done.
  unfold total. rewrite concat_app, length_app. cbn. rewrite app_nil_r. lia.
Qed.

(** Reading a slot returns the row stored there. *)
Lemma read_slot_repr p slots i :
  page_repr p slots → 0 ≤ i →
  read_slot i p = match slots !! Z.to_nat i with
                  | Some s => Ok s
                  | None => Err (SlotNotFound (ph_page_id (pg_header p)) i)
                  end.
Proof.
  intros Hr Hi. unfold read_slot. destruct (slots !! Z.to_nat i) as [s|] eqn:Hs.
  - pose proof (take_drop_middle slots _ s Hs) as Hsp. apply lookup_lt_Some in Hs as Hlt.
    assert (Hln : Z.of_nat (length (take (Z.to_nat i) slots)) = i) by (rewrite length_take; lia).
    set (l1 := take (Z.to_nat i) slots) in *. set (l2 := drop (S (Z.to_nat i)) slots) in *.
    rewrite <- Hsp in Hr. pose proof (page_repr_size _ _ Hr) as Hsz.
    pose proof (page_repr_entry _ _ _ _ Hr) as He. rewrite Hln in He. rewrite He.
    destruct Hr as (hd & gap & Hb & Hhd & Hl & _ & _ & Hf & _). cbn [mbind Result_bind ok_or se_offset se_length].
    rewrite Hb, reverse_app, reverse_cons, !concat_app. cbn [concat]. rewrite app_nil_r, <- !app_assoc.
    rewrite (app_assoc hd), (app_assoc (hd ++ _)), (app_assoc ((hd ++ _) ++ gap)).
    apply slice_app; [|lia]. rewrite !length_app, dir_bytes_length, concat_reverse_length, Hhd.
    rewrite !length_app in Hsz. cbn [length] in Hsz |- *. unfold total in *. rewrite concat_app, length_app in Hsz.
    cbn [concat] in Hsz. rewrite length_app in Hsz. rewrite (length_app l1). cbn [length]. unfold body_start. lia.
  - apply lookup_ge_None_1 in Hs. destruct Hr as (_ & _ & _ & _ & _ & _ & Hn & _).
    unfold read_slot_entry. rewrite Hn. destruct (Z.leb_spec (Z.of_nat (length slots)) i); [done|lia].
Qed.

Lemma split_at {A} (l : list A) n : (n ≤ length l)%nat → ∃ a b, l = a ++ b ∧ length a = n.
Proof. intros. exists (take n l), (drop n l). rewrite take_drop, length_take. split; [done|lia]. Qed.

Lemma total_snoc l s : total (l ++ [s]) = total l + Z.of_nat (length s).
Proof. unfold total. rewrite concat_app, length_app. cbn. rewrite app_nil_r. lia. Qed.

(** The three writes of [write_slot] into the gap. *)
Lemma write_slot_buf hd D g R data o l :
  (4 + length data ≤ length g)%nat →
  let off := Z.of_nat (length (hd ++ D)) in
  ∃ g', (length g' + 4 + length data = length g)%nat ∧
    (b ← splice (off + Z.of_nat (length g) - Z.of_nat (length data)) data (hd ++ D ++ g ++ R);
     b ← splice off (le16 o) b; splice (off + 2) (le16 l) b) =
    Ok (hd ++ (D ++ le16 o ++ le16 l) ++ g' ++ data ++ R).
Proof.
  intros Hg off. destruct (split_at g 2) as (g0 & gr & -> & Hl0); [lia|]. rewrite length_app in *.
  destruct (split_at gr 2) as (g1 & gr' & -> & Hl1); [lia|]. rewrite length_app in *.
  destruct (split_at gr' (length gr' - length data)) as (g2 & g3 & -> & Hl2); [lia|]. rewrite length_app in *.
  exists g2. split; [lia|].
  replace (hd ++ D ++ (g0 ++ g1 ++ g2 ++ g3) ++ R) with ((hd ++ D ++ g0 ++ g1 ++ g2) ++ g3 ++ R)
    by (by rewrite <- !app_assoc).
  rewrite splice_app; [|unfold off; rewrite !length_app; lia|lia]. cbn [mbind Result_bind].
  replace ((hd ++ D ++ g0 ++ g1 ++ g2) ++ data ++ R) with ((hd ++ D) ++ g0 ++ g1 ++ g2 ++ data ++ R)
    by (by rewrite <- !app_assoc).
  rewrite splice_app; [|done|by unfold le16; rewrite le_bytes_length]. cbn [mbind Result_bind].
  rewrite app_assoc. rewrite splice_app.
  - f_equal. by rewrite <- !app_assoc.
  - unfold off. rewrite !length_app. unfold le16. rewrite le_bytes_length. lia.
  - by unfold le16; rewrite le_bytes_length.
Qed.

Lemma page_header_ok_slots n f h :
  page_header_ok h → u16_ok n → u16_ok f → page_header_ok (ph_set_slots n f h).
Proof. unfold page_header_ok; cbn. intuition. Qed.

(** Writing a row into an unsealed page with room adds it as the next slot. *)
Lemma write_slot_repr p slots data :
  page_repr p slots → pg_sealed p = false →
  4 + Z.of_nat (length data) ≤ ph_free_bytes (pg_header p) →
  ∃ p', write_slot data p = Ok (Z.of_nat (length slots), p') ∧ page_repr p' (slots ++ [data]) ∧
    pg_sealed p' = false ∧ pg_size p' = pg_size p ∧
    ph_free_bytes (pg_header p') = ph_free_bytes (pg_header p) - (4 + Z.of_nat (length data)) ∧
    ph_page_id (pg_header p') = ph_page_id (pg_header p) ∧
    ph_table_id (pg_header p') = ph_table_id (pg_header p).
Proof.
  intros Hr Hs Hfree. pose proof (page_repr_size _ _ Hr) as Hsz.
  pose proof (slots_total_repr p slots (length slots) Hr ltac:(lia)) as Htot. rewrite firstn_all in Htot.
  destruct Hr as (hd & gap & Hb & Hhd & Hl & Hmax & Hn & Hf & Hok & Hmg).
  assert (0 ≤ total slots) by (unfold total; lia).
  unfold write_slot. rewrite Hs, Hn, Nat2Z.id.
  destruct (Z.ltb_spec (ph_free_bytes (pg_header p)) (SLOT_DIR_ENTRY_SIZE + Z.of_nat (length data)));
    [unfold SLOT_DIR_ENTRY_SIZE in *; lia|].
  rewrite Htot. cbn [mbind Result_bind].
  set (o := as_u16 (pg_size p - total slots - Z.of_nat (length data) - body_start)). set (l := as_u16 (Z.of_nat (length data))).
  destruct (write_slot_buf hd (dir_bytes (bsize p) 0 slots) gap (concat (reverse slots)) data o l)
    as (g' & Hg' & Hw); [lia|].
  assert (Hoff : Z.of_nat (length (hd ++ dir_bytes (bsize p) 0 slots)) =
    body_start + Z.of_nat (length slots) * SLOT_DIR_ENTRY_SIZE).
  { rewrite length_app, dir_bytes_length, Hhd. unfold body_start, SLOT_DIR_ENTRY_SIZE. lia. }
  assert (Hst : body_start + Z.of_nat (length slots) * SLOT_DIR_ENTRY_SIZE + Z.of_nat (length gap) -
    Z.of_nat (length data) = pg_size p - total slots - Z.of_nat (length data)).
  { unfold bsize, SLOT_DIR_ENTRY_SIZE in *. lia. }
  rewrite Hoff, Hst, <- Hb in Hw. apply res_bind_Ok in Hw as (b1 & -> & Hw).
  apply res_bind_Ok in Hw as (b2 & Hw2 & Hw). cbn [mbind Result_bind].
  rewrite Hw2. cbn [mbind Result_bind]. rewrite Hw. cbn [mbind Result_bind].
  assert (Hlu : l = Z.of_nat (length data)) by (unfold l, as_u16; apply Z.mod_small; lia).
  assert (Hou : o = bsize p - (0 + total slots + Z.of_nat (length data))).
  { unfold o, as_u16. rewrite Z.mod_small; unfold bsize in *; lia. }
  assert (Hfr : as_u16 (ph_free_bytes (pg_header p) - as_u16 (SLOT_DIR_ENTRY_SIZE + Z.of_nat (length data))) =
    ph_free_bytes (pg_header p) - (4 + Z.of_nat (length data))).
  { unfold as_u16, SLOT_DIR_ENTRY_SIZE in *. rewrite (Z.mod_small (4 + _)) by lia. apply Z.mod_small. lia. }
  assert (Hcn : as_u16 (Z.of_nat (length slots) + 1) = Z.of_nat (length (slots ++ [data]))).
  { rewrite length_app. cbn. unfold as_u16. rewrite Z.mod_small; lia. }
  eexists. split; [reflexivity|]. cbn [pg_sealed pg_size pg_header]. rewrite Hfr, Hcn.
  split_and!; try done. exists hd, g'. unfold bsize; cbn [pg_size pg_buf pg_header ph_set_slots ph_slot_count ph_free_bytes].
  split_and!; try done.
  - rewrite dir_bytes_app, reverse_snoc. cbn [dir_bytes concat]. rewrite app_nil_r, Hlu, Hou. done.
  - rewrite <- Hl, Hb, !length_app, !dir_bytes_length. unfold le16. rewrite !le_bytes_length. lia.
  - lia.
  - apply page_header_ok_slots; [done| |]; unfold u16_ok; rewrite ?length_app; cbn; lia.
Qed.

(** [write_slot] on every branch.  A sealed page and a page without room
    are refused with the right error; otherwise the row becomes the next slot,
    it reads back as written, every earlier slot still reads as before, and no
    index or arithmetic panic is reachable. *)
Theorem write_slot_spec p slots data :
  page_repr p slots →
  match write_slot data p with
  | Ok (i, p') => pg_sealed p = false ∧ i = Z.of_nat (length slots) ∧ page_repr p' (slots ++ [data]) ∧
      read_slot i p' = Ok data ∧ (∀ j, 0 ≤ j < i → read_slot j p' = read_slot j p)
  | Err e => (pg_sealed p = true ∧ e = PageSealed (ph_page_id (pg_header p))) ∨
      (pg_sealed p = false ∧ ph_free_bytes (pg_header p) < 4 + Z.of_nat (length data) ∧
       e = PageFull (ph_page_id (pg_header p)) (ph_free_bytes (pg_header p)) (4 + Z.of_nat (length data)))
  end.
Proof.
  intros Hr. destruct (pg_sealed p) eqn:Hs; [unfold write_slot; rewrite Hs; by left|].
  destruct (decide (4 + Z.of_nat (length data) ≤ ph_free_bytes (pg_header p))) as [Hf|Hf].
  - destruct (write_slot_repr p slots data Hr Hs Hf) as (p' & -> & Hr' & _). split_and!; [done..| |].
    + rewrite (read_slot_repr _ _ _ Hr'), Nat2Z.id, lookup_app_r, Nat.sub_diag by lia. done.
    + intros j Hj. rewrite (read_slot_repr _ _ _ Hr'), (read_slot_repr _ _ _ Hr), lookup_app_l by lia.
      by destruct (lookup_lt_is_Some_2 slots (Z.to_nat j) ltac:(lia)) as [? ->].
  - unfold write_slot. rewrite Hs. unfold SLOT_DIR_ENTRY_SIZE.
    destruct (Z.ltb_spec (ph_free_bytes (pg_header p)) (4 + Z.of_nat (length data))); [|lia].
    right. split_and!; [done|lia|done].
Qed.

(** *** Sealing *)

Lemma page_header_front_length h : page_header_ok h → length (page_header_front h) = 62%nat.
Proof.
  intros (_&_&_&_&_&_&_&_&Hh&_). unfold page_header_front. rewrite !length_app, Hh.
  unfold le16, le32, le64. by rewrite !le_bytes_length.
Qed.

Lemma page_header_fields_length h : page_header_ok h → length (page_header_fields h) = PH_SIZE.
Proof.
  intros Hh. unfold page_header_fields. rewrite length_app, page_header_front_length by done.
  unfold le32. by rewrite le_bytes_length.
Qed.

Lemma flush_header_buf p hd body :
  pg_buf p = hd ++ body → length hd = PH_SIZE → page_header_ok (pg_header p) →
  flush_header p = Ok (mkPage (page_header_fields (pg_header p) ++ body) (pg_header p) (pg_sealed p) (pg_size p)).
Proof.
  intros Hb Hl Hok. unfold flush_header. rewrite (page_header_layout _ Hok), Hb. cbn [ok_or mbind Result_bind].
  change (hd ++ body) with ([] ++ hd ++ body). rewrite splice_app; [done|done|].
  by rewrite page_header_fields_length, Hl.
Qed.

(** A new page holds no rows. *)
Lemma with_size_repr page_id table_id page_size :
  u64_ok page_id → u32_ok table_id → body_start + 64 ≤ page_size → page_size - body_start < 2 ^ 16 →
  ∃ p, with_size page_id table_id page_size = Ok p ∧ page_repr p [] ∧ pg_sealed p = false.
Proof.
  intros Hp Ht Hlo Hhi. unfold with_size. destruct (Z.ltb_spec page_size (body_start + 64)); [lia|].
  assert (Hok : page_header_ok (PageHeader_new page_id table_id page_size)).
  { unfold page_header_ok, PageHeader_new, u32_ok, u64_ok, u16_ok in *. cbn. split_and!; try lia; try done.
    all: unfold as_u16; apply Z.mod_pos_bound; lia. }
  assert (Hbuf : replicate (Z.to_nat page_size) Byte.x00 =
    replicate PH_SIZE Byte.x00 ++ replicate (Z.to_nat (page_size - body_start)) Byte.x00).
  { rewrite <- replicate_add. f_equal. unfold body_start, PH_SIZE in *. lia. }
  eexists. split; [by apply (flush_header_buf _ (replicate PH_SIZE Byte.x00) (replicate (Z.to_nat (page_size - body_start)) Byte.x00))|].
  split; [|done]. exists (page_header_fields (PageHeader_new page_id table_id page_size)), (replicate (Z.to_nat (page_size - body_start)) Byte.x00).
  cbn [pg_buf pg_size pg_header dir_bytes]. split_and!; [|by apply page_header_fields_length| | |done| |done|done].
  - cbn [reverse rev_append concat app]. by rewrite app_nil_r.
  - rewrite length_app, page_header_fields_length, length_replicate by done. unfold body_start in *. lia.
  - done.
  - rewrite length_replicate. cbn [ph_free_bytes PageHeader_new]. fold body_start. unfold as_u16.
    rewrite Z.mod_small; unfold body_start in *; lia.
Qed.

Lemma page_crc_buf h body sealed size :
  page_header_ok h → page_crc (mkPage (page_header_fields h ++ body) h sealed size) =
  crc32 (page_header_front h ++ body).
Proof.
  intros Hok. unfold page_crc, page_body; cbn [pg_buf].
  rewrite drop_app_length' by (by rewrite page_header_fields_length). do 2 f_equal.
  unfold page_header_fields. rewrite <- app_assoc, take_app_length'; [done|].
  by rewrite page_header_front_length.
Qed.

(** The sealed form of a page with header [h] and body [body]. *)
Definition sealed_header (h : PageHeader) (body : bytes) : PageHeader :=
  let h := ph_set_hash (hash_bytes body) h in
  ph_set_crc (crc32 (page_header_front h ++ body)) h.

Lemma sealed_header_ok h body : page_header_ok h → page_header_ok (sealed_header h body).
Proof.
  unfold page_header_ok, sealed_header; cbn. intros Hh. split_and!; try apply Hh; [apply blake3_length|apply crc32_range..].
Qed.

Lemma seal_buf p hd body :
  pg_buf p = hd ++ body → length hd = PH_SIZE → page_header_ok (pg_header p) →
  seal p = Ok (mkPage (page_header_fields (sealed_header (pg_header p) body) ++ body)
                 (sealed_header (pg_header p) body) true (pg_size p)).
Proof.
  intros Hb Hl Hok. unfold seal. rewrite (flush_header_buf p hd body) by done. cbn [mbind Result_bind].
  assert (Hbody : ∀ h s z, page_header_ok h → page_body (mkPage (page_header_fields h ++ body) h s z) = body).
  { intros h s z Hh. unfold page_body; cbn [pg_buf].
    by rewrite drop_app_length' by (by rewrite page_header_fields_length). }
  rewrite Hbody by done. cbn [set_header pg_header pg_buf pg_sealed pg_size].
  set (h1 := ph_set_crc 0 _).
  assert (Hok1 : page_header_ok h1).
  { unfold page_header_ok, h1; cbn. split_and!; try apply Hok; [apply blake3_length|done]. }
  erewrite flush_header_buf; [|reflexivity|by rewrite page_header_fields_length|done].
  cbn [mbind Result_bind set_header pg_header pg_buf pg_sealed pg_size].
  rewrite page_crc_buf by done.
  erewrite flush_header_buf; [|reflexivity|by rewrite page_header_fields_length|by apply sealed_header_ok].
  done.
Qed.

Lemma from_bytes_sealed h body :
  page_header_ok h → validate_magic h = true →
  let bs := page_header_fields (sealed_header h body) ++ body in
  from_bytes bs = Ok (mkPage bs (sealed_header h body) true (Z.of_nat (length bs))).
Proof.
  intros Hok Hm bs. pose proof (sealed_header_ok h body Hok) as Hok'.
  pose proof (page_header_fields_length _ Hok') as Hl. unfold from_bytes.
  assert (Hlen : length bs = (PH_SIZE + length body)%nat) by (unfold bs; by rewrite length_app, Hl).
  rewrite Hlen. destruct (Nat.ltb_spec (PH_SIZE + length body) PH_SIZE); [lia|].
  assert (Ht : take PH_SIZE bs = page_header_fields (sealed_header h body)) by (by apply take_app_length').
  rewrite Ht, (dec_enc' _ _ (page_header_layout _ Hok')). cbn [ok_or mbind Result_bind].
  change (validate_magic (sealed_header h body)) with (validate_magic h). rewrite Hm. cbn [negb].
  unfold verify_checksum. cbn [pg_header]. subst bs. rewrite page_crc_buf by done.
  change (crc32 (page_header_front (sealed_header h body) ++ body)) with (ph_crc32 (sealed_header h body)).
  rewrite Z.eqb_refl. cbn [mbind Result_bind]. unfold verify_content_hash, page_body. cbn [pg_header pg_buf].
  rewrite drop_app_length' by done. rewrite bool_decide_true by done.
  cbn [mbind Result_bind]. done.
Qed.

(** Sealing a page and loading its bytes gives back the same sealed page,
    holding the same rows. *)
Theorem seal_from_bytes p slots :
  page_repr p slots →
  ∃ p', seal p = Ok p' ∧ from_bytes (pg_buf p') = Ok p' ∧ pg_sealed p' = true ∧ page_repr p' slots ∧
    ∀ i, 0 ≤ i → read_slot i p' = read_slot i p.
Proof.
  intros Hr. pose proof Hr as (hd & gap & Hb & Hhd & Hl & Hmax & Hn & Hf & Hok & Hmg).
  rewrite (seal_buf p hd _ Hb Hhd Hok). eexists. split; [reflexivity|]. cbn [pg_buf pg_sealed].
  set (body := dir_bytes _ _ _ ++ _) in *. set (h' := sealed_header (pg_header p) body).
  assert (Hlen : Z.of_nat (length (page_header_fields h' ++ body)) = pg_size p).
  { rewrite <- Hl, Hb, !length_app, page_header_fields_length by (by apply sealed_header_ok). lia. }
  assert (Hr' : page_repr (mkPage (page_header_fields h' ++ body) h' true (pg_size p)) slots).
  { exists (page_header_fields h'), gap. split_and!; try done.
    - by apply page_header_fields_length, sealed_header_ok.
    - by apply sealed_header_ok. }
  split_and!; [|done..|].
  - unfold h'. rewrite (from_bytes_sealed _ body Hok Hmg). fold h'. by rewrite Hlen.
  - intros i Hi. rewrite (read_slot_repr _ _ _ Hr'), (read_slot_repr _ _ _ Hr) by done. done.
Qed.

(** A page image that loads is consistent with its header: two images that
    load and carry the same content hash have the same body (directory and
    rows), or their bodies are a BLAKE3 collision. *)
Theorem from_bytes_tamper_evident b1 b2 p1 p2 :
  from_bytes b1 = Ok p1 → from_bytes b2 = Ok p2 →
  ph_content_hash (pg_header p1) = ph_content_hash (pg_header p2) →
  page_body p1 = page_body p2 ∨ collision [page_body p1] [page_body p2].
Proof.
  assert (Hload : ∀ b p, from_bytes b = Ok p → blake3 (page_body p) = ph_content_hash (pg_header p)).
  { intros b p. unfold from_bytes. destruct (_ <? _)%nat; [done|]. destruct (ok_or _ _) as [h|]; [|done].
    cbn [mbind Result_bind]. destruct (negb _); [done|]. intros Hb.
    apply res_bind_Ok in Hb as (_ & _ & Hb). apply res_bind_Ok in Hb as (u & Hv & Hb).
    apply Ok_inj in Hb. subst p. unfold verify_content_hash in Hv. by case_bool_decide. }
  intros Hp1%Hload Hp2%Hload He. destruct (decide (page_body p1 = page_body p2)) as [|Hne]; [by left|].
  right. exists (page_body p1), (page_body p2). split_and!; [by left|by left|done|]. by rewrite Hp1, Hp2.
Qed.
End page.

(** ** The page store *)

(** A table file: the table id, and whether it is the encrypted ([.epages])
    or the plaintext ([.pages]) file. *)
Definition PageFile := (Z * bool)%type.

Record PageStore := mkPageStore {
  ps_page_size : Z;
  ps_files : gmap PageFile bytes;       (* the directory *)
  ps_handles : gmap Z PageFile;         (* open files by handle key *)
  ps_table_keys : gmap Z bytes;
  ps_dirty : bool
}.

Definition GCM_OVERHEAD : Z := 32.

Definition ps_set_files f s := mkPageStore (ps_page_size s) f (ps_handles s) (ps_table_keys s) (ps_dirty s).
Definition ps_set_handles h s := mkPageStore (ps_page_size s) (ps_files s) h (ps_table_keys s) (ps_dirty s).
Definition ps_set_dirty b s := mkPageStore (ps_page_size s) (ps_files s) (ps_handles s) (ps_table_keys s) b.

(** [open_with_page_size] on the files found in the directory. *)
Definition PageStore_open (files : gmap PageFile bytes) (page_size : Z) : PageStore :=
  mkPageStore page_size files ∅ ∅ false.

Definition register_table_key (table_id : Z) (key : bytes) (s : PageStore) : PageStore :=
  mkPageStore (ps_page_size s) (ps_files s) (ps_handles s) (<[table_id := key]> (ps_table_keys s)) (ps_dirty s).

Definition ps_is_encrypted (s : PageStore) (table_id : Z) : bool :=
  bool_decide (is_Some (ps_table_keys s !! table_id)).

Definition make_aad (table_id page_id : Z) : bytes := le32 table_id ++ le64 page_id.

(** Writing at an offset past the end fills the hole with zeros. *)
Definition write_at (off : nat) (data content : bytes) : bytes :=
  let padded := content ++ replicate (off - length content) Byte.x00 in
  take off padded ++ data ++ drop (off + length data) padded.

(** [read_exact] after a seek. *)
Definition read_at (off n : nat) (content : bytes) : option bytes :=
  if (off + n <=? length content)%nat then Some (take n (drop off content)) else None.

Notation PSM := (M PageStore PageError).

Section store.
Context `{Blake3} `{WalExt} `{PageExt}.


(** The file of the handle under [hkey], opened (and created) as [path] when
    there is none yet. *)
Definition open_handle (hkey : Z) (path : PageFile) : PSM PageFile :=
  hs ← gets ps_handles;
  match hs !! hkey with
  | Some f => mret f
  | None =>
      _ ← io PageIo;
      _ ← modify (λ s, ps_set_files (<[path := default [] (ps_files s !! path)]> (ps_files s)) s);
      _ ← modify (λ s, ps_set_handles (<[hkey := path]> (ps_handles s)) s);
      mret path
  end.

Definition file_for_table (table_id : Z) : PSM PageFile := open_handle table_id (table_id, false).
Definition efile_for_table (table_id : Z) : PSM PageFile :=
  open_handle (as_u32 (table_id + 0x80000000)) (table_id, true).

(** [file.seek(Start(offset))], then [file.write_all(data)]. *)
Definition file_write (f : PageFile) (off : nat) (data : bytes) : PSM unit :=
  _ ← io PageIo;
  modify (λ s, ps_set_files (<[f := write_at off data (default [] (ps_files s !! f))]> (ps_files s)) s).

Definition file_read (f : PageFile) (off n : nat) : PSM bytes :=
  _ ← io PageIo;
  c ← gets (λ s, default [] (ps_files s !! f));
  liftR (ok_or (read_at off n c) PageIo).

Definition page_nonce : PSM bytes := r ← rand; mret (le_bytes 12 r).

(** The two branches of [write_page]. *)
Definition write_page_enc (key : bytes) (size table_id page_id : Z) (buf : bytes) : PSM unit :=
  let record_size := size + GCM_OVERHEAD in
  let offset := as_u64 (page_id * record_size) in
  nonce ← page_nonce;
  ct ← liftR (ok_or (encrypt key nonce buf (make_aad table_id page_id)) PageCrypto);
  f ← efile_for_table table_id;
  file_write f (Z.to_nat offset) (ct ++ le32 (as_u32 size)).

Definition write_page_plain (size table_id page_id : Z) (buf : bytes) : PSM unit :=
  let offset := as_u64 (page_id * size) in
  f ← file_for_table table_id;
  file_write f (Z.to_nat offset) buf.

Definition write_page (p : Page) : PSM unit :=
  if negb (pg_sealed p) then throw PagePanic
  else
    let table_id := ph_table_id (pg_header p) in
    let page_id := ph_page_id (pg_header p) in
    keys ← gets ps_table_keys;
    size ← gets ps_page_size;
    _ ← match keys !! table_id with
        | Some key => write_page_enc key size table_id page_id (pg_buf p)
        | None => write_page_plain size table_id page_id (pg_buf p)
        end;
    modify (ps_set_dirty true).

(** [sync]: one [sync_all] per open handle, when dirty. *)
Definition ps_sync : PSM unit :=
  d ← gets ps_dirty;
  if (d : bool) then
    hs ← gets (λ s, map_to_list (ps_handles s));
    _ ← forM (λ _, io PageIo) hs;
    modify (ps_set_dirty false)
  else mret tt.

Definition read_page (table_id page_id : Z) : PSM Page :=
  keys ← gets ps_table_keys;
  size ← gets ps_page_size;
  match keys !! table_id with
  | Some key =>
      let record_size := size + GCM_OVERHEAD in
      let offset := as_u64 (page_id * record_size) in
      f ← efile_for_table table_id;
      record ← file_read f (Z.to_nat offset) (Z.to_nat record_size);
      let ct := take (Z.to_nat (record_size - 4)) record in
      plaintext ← liftR (ok_or (decrypt key ct (make_aad table_id page_id)) PageCrypto);
      liftR (from_bytes plaintext)
  | None =>
      let offset := as_u64 (page_id * size) in
      f ← file_for_table table_id;
      buf ← file_read f (Z.to_nat offset) (Z.to_nat size);
      liftR (from_bytes buf)
  end.

(** The record size of a table and its open file. *)
Definition table_file (table_id : Z) : PSM (Z * PageFile) :=
  s ← gets id;
  if ps_is_encrypted s table_id then
    f ← efile_for_table table_id; mret (ps_page_size s + GCM_OVERHEAD, f)
  else
    f ← file_for_table table_id; mret (ps_page_size s, f).

Definition page_count (table_id : Z) : PSM Z :=
  rf ← table_file table_id;
  _ ← io PageIo;
  c ← gets (λ s, default [] (ps_files s !! rf.2));
  mret (Z.of_nat (length c) / rf.1).

(** The records [0 .. n-1] of a file. *)
Fixpoint read_records (f : PageFile) (record_size : nat) (pids : list nat) : PSM (list bytes) :=
  match pids with
  | [] => mret []
  | pid :: pids =>
      r ← file_read f (pid * record_size) record_size;
      rs ← read_records f record_size pids;
      mret (r :: rs)
  end.

Definition table_merkle_root (table_id : Z) : PSM Hash :=
  rf ← table_file table_id;
  _ ← io PageIo;
  c ← gets (λ s, default [] (ps_files s !! rf.2));
  let n := Z.of_nat (length c) / rf.1 in
  if n =? 0 then mret ZERO_HASH
  else
    records ← read_records rf.2 (Z.to_nat rf.1) (seq 0 (Z.to_nat n));
    mret (merkle_root records).

(** *** Files *)

Lemma write_at_length off d c : (off + length d ≤ length (write_at off d c))%nat.
Proof.
  unfold write_at. rewrite !length_app, length_take, length_drop, length_app, length_replicate. lia.
Qed.

Lemma write_at_lookup off d c i :
  write_at off d c !! i =
  if decide (i < off)%nat then (c ++ replicate (off - length c) Byte.x00) !! i
  else if decide (i < off + length d)%nat then d !! (i - off)%nat else c !! i.
Proof.
  unfold write_at. set (p := c ++ _).
  assert (Hp : (off ≤ length p)%nat) by (unfold p; rewrite length_app, length_replicate; lia).
  assert (Hto : length (take off p) = off) by (rewrite length_take; lia).
  case_decide; [rewrite lookup_app_l, lookup_take_lt by lia; done|].
  rewrite lookup_app_r, Hto by lia. case_decide; [by rewrite lookup_app_l by lia|].
  rewrite lookup_app_r by lia. rewrite lookup_drop.
  replace (off + length d + (i - off - length d))%nat with i by lia. unfold p.
  destruct (decide (i < length c)%nat); [by rewrite lookup_app_l|].
  rewrite lookup_app_r, (lookup_ge_None_2 c) by lia. apply lookup_replicate_None. lia.
Qed.

Lemma read_at_Some off n c r :
  read_at off n c = Some r ↔ (off + n ≤ length c)%nat ∧ length r = n ∧ ∀ i, (i < n)%nat → r !! i = c !! (off + i)%nat.
Proof.
  unfold read_at. destruct (Nat.leb_spec (off + n) (length c)) as [Hle|Hgt]; [|split; [done|lia]].
  assert (Hl : length (take n (drop off c)) = n) by (rewrite length_take, length_drop; lia).
  split.
  - intros [= <-]. split_and!; [done|done|]. intros i Hi. by rewrite lookup_take_lt, lookup_drop.
  - intros (_ & Hr & Hi). f_equal. apply list_eq. intros i. destruct (decide (i < n)%nat).
    + by rewrite Hi, lookup_take_lt, lookup_drop.
    + by rewrite !lookup_ge_None_2 by lia.
Qed.

Lemma read_at_write_same off d c : read_at off (length d) (write_at off d c) = Some d.
Proof.
  apply read_at_Some. split_and!; [apply write_at_length|done|]. intros i Hi. rewrite write_at_lookup.
  case_decide; [lia|]. case_decide; [|lia]. f_equal. lia.
Qed.

Lemma read_at_write_other off d c off' n r :
  (off' + n ≤ off)%nat ∨ (off + length d ≤ off')%nat →
  read_at off' n c = Some r → read_at off' n (write_at off d c) = Some r.
Proof.
  intros Hd (Hl & Hn & Hi)%read_at_Some. apply read_at_Some. split_and!; [|done|].
  - unfold write_at. rewrite !length_app, length_take, length_drop, length_app, length_replicate. lia.
  - intros i Hlt. rewrite Hi by done. rewrite write_at_lookup. case_decide; [by rewrite lookup_app_l by lia|].
    case_decide; [lia|done].
Qed.

(** *** What a store holds *)

(** A handle leads to the file its key names; table ids use 31 bits, so that
    the keys of plaintext and encrypted files do not meet. *)
Definition handle_path (k : Z) : PageFile := if k <? 2 ^ 31 then (k, false) else (k - 2 ^ 31, true).
Definition store_inv (s : PageStore) : Prop := map_Forall (λ k f, f = handle_path k) (ps_handles s).
Definition table_ok (t : Z) : Prop := 0 ≤ t < 2 ^ 31.

Definition rec_file (s : PageStore) (t : Z) : PageFile := (t, ps_is_encrypted s t).
Definition rec_size (s : PageStore) (t : Z) : Z :=
  if ps_is_encrypted s t then ps_page_size s + GCM_OVERHEAD else ps_page_size s.
Definition rec_fits (s : PageStore) (t pid : Z) : Prop := 0 < ps_page_size s ∧ 0 ≤ pid ∧ pid * rec_size s t < 2 ^ 64.

Definition record_at (s : PageStore) (t pid : Z) : option bytes :=
  read_at (Z.to_nat (pid * rec_size s t)) (Z.to_nat (rec_size s t)) (default [] (ps_files s !! rec_file s t)).

(** The page a record decodes to. *)
Definition decode_page (s : PageStore) (t pid : Z) (record : bytes) : Result PageError Page :=
  match ps_table_keys s !! t with
  | Some key =>
      pt ← ok_or (decrypt key (take (Z.to_nat (rec_size s t - 4)) record) (make_aad t pid)) PageCrypto;
      from_bytes pt
  | None => from_bytes record
  end.

(** Opening a file changes no contents. *)
Definition same_contents (s s' : PageStore) : Prop :=
  ps_page_size s' = ps_page_size s ∧ ps_table_keys s' = ps_table_keys s ∧
  ∀ f, default [] (ps_files s' !! f) = default [] (ps_files s !! f).

Lemma open_handle_Ok k path W s f W' s' :
  store_inv s → path = handle_path k → open_handle k path (W, s) = (Ok f, (W', s')) →
  f = path ∧ store_inv s' ∧ same_contents s s'.
Proof.
  intros Hi Hp Ho. unfold open_handle in Ho. rewrite (mbind_eq _ _ _ (ps_handles s) (W, s)) in Ho by done.
  cbv beta in Ho. destruct (ps_handles s !! k) as [f0|] eqn:Hk.
  { minv. split_and!; [|done..]. rewrite (Hi _ _ Hk). done. }
  minv. unfold io in *. simplify_eq/=. split_and!; [done|by apply map_Forall_insert_2|].
  split_and!; [done..|]. intros f. cbn. destruct (decide (f = handle_path k)) as [->|Hne];
    [by rewrite lookup_insert_eq|by rewrite lookup_insert_ne by done].
Qed.

Lemma file_paths t : table_ok t →
  (t, false) = handle_path t ∧ (t, true) = handle_path (as_u32 (t + 0x80000000)).
Proof.
  intros [? ?]. unfold handle_path, as_u32. rewrite (Z.mod_small (t + _)) by lia.
  destruct (Z.ltb_spec t (2 ^ 31)); [|lia]. destruct (Z.ltb_spec (t + 0x80000000) (2 ^ 31)); [lia|].
  split; [done|]. f_equal. lia.
Qed.

Lemma same_contents_record s s' t pid : same_contents s s' → record_at s' t pid = record_at s t pid.
Proof. intros (Hs & Hk & Hf). unfold record_at, rec_size, rec_file, ps_is_encrypted. by rewrite Hs, Hk, Hf. Qed.

(** The effect of writing record [rec] of page [pid] of table [t]. *)
Definition record_written (s s' : PageStore) (t pid : Z) (rec : bytes) : Prop :=
  store_inv s' ∧ ps_page_size s' = ps_page_size s ∧ ps_table_keys s' = ps_table_keys s ∧
  record_at s' t pid = Some rec ∧
  (∀ t' pid' r, rec_fits s t' pid' → (t', pid') ≠ (t, pid) →
    record_at s t' pid' = Some r → record_at s' t' pid' = Some r).

Lemma file_write_Ok s s' W W' t pid rec u :
  store_inv s → rec_fits s t pid → Z.of_nat (length rec) = rec_size s t →
  file_write (rec_file s t) (Z.to_nat (pid * rec_size s t)) rec (W, s) = (Ok u, (W', s')) →
  record_written s s' t pid rec.
Proof.
  intros Hi (Hps & Hpid & _) Hl Hw. unfold file_write in Hw. minv. unfold io in *. simplify_eq/=.
  assert (Hrs : 0 < rec_size s t) by (unfold rec_size, GCM_OVERHEAD; destruct (ps_is_encrypted s t); lia).
  split_and!; [done..| |].
  - unfold record_at, rec_file, rec_size, ps_is_encrypted in *; cbn. rewrite lookup_insert_eq. cbn.
    replace (Z.to_nat (if bool_decide (is_Some (ps_table_keys s !! t)) then _ else _)) with (length rec) by lia.
    apply read_at_write_same.
  - intros t' pid' r (_ & Hpid' & _) Hne Hr.
    unfold record_at, rec_file, rec_size, ps_is_encrypted in *; cbn.
    destruct (decide (t' = t)) as [->|Ht].
    + rewrite lookup_insert_eq. cbn. apply read_at_write_other; [|done].
      set (rs := if bool_decide _ then _ else _) in *.
      assert (pid' ≠ pid) by (intros ->; by apply Hne).
      assert (pid' + 1 ≤ pid ∨ pid + 1 ≤ pid') as [Hlt|Hlt] by lia; [left|right].
      * assert ((pid' + 1) * rs ≤ pid * rs) by (apply Z.mul_le_mono_nonneg_r; lia). lia.
      * assert ((pid + 1) * rs ≤ pid' * rs) by (apply Z.mul_le_mono_nonneg_r; lia). lia.
    + rewrite lookup_insert_ne; [done|congruence].
Qed.

(** The page fields [write_page] looks at. *)
Definition page_of (p : Page) (t pid size : Z) : Prop :=
  ph_table_id (pg_header p) = t ∧ ph_page_id (pg_header p) = pid ∧ pg_sealed p = true ∧
  from_bytes (pg_buf p) = Ok p ∧ Z.of_nat (length (pg_buf p)) = size.

Lemma record_written_same s0 s s' t pid rec :
  same_contents s0 s → record_written s s' t pid rec → record_written s0 s' t pid rec.
Proof.
  intros Hs (Hi & Hp & Hk & Hr & Ho). destruct Hs as (Hs1 & Hs2 & Hs3).
  split_and!; [done|congruence|congruence|done|]. intros t' pid' r Hfit Hne Hrec. apply Ho; [|done|].
  - unfold rec_fits, rec_size, ps_is_encrypted in *. by rewrite Hs1, Hs2.
  - by rewrite (same_contents_record s0 s).
Qed.

Lemma write_page_enc_Ok s W key p t pid u W' s' :
  store_inv s → table_ok t → rec_fits s t pid → page_of p t pid (ps_page_size s) → ps_page_size s < 2 ^ 32 →
  ps_table_keys s !! t = Some key →
  write_page_enc key (ps_page_size s) t pid (pg_buf p) (W, s) = (Ok u, (W', s')) →
  ∃ rec, decode_page s t pid rec = Ok p ∧ record_written s s' t pid rec.
Proof.
  intros Hi Ht Hfit (_ & _ & _ & Hfb & Hlen) Hps Hk Hw.
  pose proof (file_paths t Ht) as [_ Hpath]. pose proof Hfit as (Hp0 & Hpid0 & Hmul).
  assert (Henc : ps_is_encrypted s t = true) by (apply bool_decide_true; by eexists).
  assert (Hrs : rec_size s t = ps_page_size s + GCM_OVERHEAD) by (unfold rec_size; by rewrite Henc).
  unfold write_page_enc, efile_for_table, page_nonce in Hw. minv.
  repeat match goal with q : World * PageStore |- _ => destruct q end. unfold rand in *. simplify_eq/=.
  match goal with Hx : ok_or ?e _ = Ok ?c |- _ => rename c into ct;
    assert (He : e = Some ct) by (destruct e; simplify_eq/=; done) end.
  match goal with Hx : open_handle _ _ _ = _ |- _ => eapply open_handle_Ok in Hx as (-> & Hi1 & Hs1); [|done..] end.
  assert (Hct : length ct = (length (pg_buf p) + 28)%nat) by (eapply encrypt_length, He; apply le_bytes_length).
  exists (ct ++ le32 (as_u32 (ps_page_size s))). split.
  - unfold decode_page. rewrite Hk, Hrs, take_app_length' by (unfold GCM_OVERHEAD; lia).
    erewrite decrypt_encrypt_page by (exact He || apply le_bytes_length). done.
  - eapply record_written_same; [exact Hs1|]. destruct Hs1 as (Hz1 & Hz2 & _).
    match goal with Hx : store_inv ?s' , Hy : file_write _ _ _ (_, ?s') = _ |- _ => rename s' into s1 end.
  assert (Hsame : rec_file s1 t = (t, true) ∧ rec_size s1 t = rec_size s t).
    { unfold rec_file, rec_size, ps_is_encrypted in *. by rewrite Hz2, Henc, Hz1. }
    destruct Hsame as [Hf Hz]. eapply file_write_Ok; [done| | |].
    + unfold rec_fits. by rewrite Hz, Hz1.
    + rewrite Hz, Hrs, length_app, Hct. unfold le32. rewrite le_bytes_length. unfold GCM_OVERHEAD. lia.
    + rewrite Hf, Hz, Hrs. rewrite Hrs in Hmul. rewrite as_u64_small in Hw; [exact Hw|].
      split; [|done]. apply Z.mul_nonneg_nonneg; unfold GCM_OVERHEAD; lia.
Qed.

Lemma write_page_plain_Ok s W p t pid u W' s' :
  store_inv s → table_ok t → rec_fits s t pid → page_of p t pid (ps_page_size s) →
  ps_table_keys s !! t = None →
  write_page_plain (ps_page_size s) t pid (pg_buf p) (W, s) = (Ok u, (W', s')) →
  ∃ rec, decode_page s t pid rec = Ok p ∧ record_written s s' t pid rec.
Proof.
  intros Hi Ht Hfit (_ & _ & _ & Hfb & Hlen) Hk Hw.
  pose proof (file_paths t Ht) as [Hpath _]. pose proof Hfit as (Hp0 & Hpid0 & Hmul).
  assert (Henc : ps_is_encrypted s t = false) by (apply bool_decide_false; rewrite Hk; by intros [??]).
  assert (Hrs : rec_size s t = ps_page_size s) by (unfold rec_size; by rewrite Henc).
  unfold write_page_plain, file_for_table in Hw. minv.
  repeat match goal with q : World * PageStore |- _ => destruct q end.
  match goal with Hx : open_handle _ _ _ = _ |- _ => eapply open_handle_Ok in Hx as (-> & Hi1 & Hs1); [|done..] end.
  exists (pg_buf p). split; [unfold decode_page; by rewrite Hk|].
  eapply record_written_same; [exact Hs1|]. destruct Hs1 as (Hz1 & Hz2 & _).
  match goal with Hx : store_inv ?s' , Hy : file_write _ _ _ (_, ?s') = _ |- _ => rename s' into s1 end.
  assert (Hsame : rec_file s1 t = (t, false) ∧ rec_size s1 t = rec_size s t).
  { unfold rec_file, rec_size, ps_is_encrypted in *. by rewrite Hz2, Henc, Hz1. }
  destruct Hsame as [Hf Hz]. eapply file_write_Ok; [done| | |].
  - unfold rec_fits. by rewrite Hz, Hz1.
  - by rewrite Hz, Hrs.
  - rewrite Hf, Hz, Hrs. rewrite Hrs in Hmul. rewrite as_u64_small in Hw; [exact Hw|].
    split; [|done]. apply Z.mul_nonneg_nonneg; lia.
Qed.

Lemma write_page_Ok s W p t pid u W' s' :
  store_inv s → table_ok t → rec_fits s t pid → page_of p t pid (ps_page_size s) → ps_page_size s < 2 ^ 32 →
  write_page p (W, s) = (Ok u, (W', s')) →
  ∃ rec, decode_page s t pid rec = Ok p ∧ record_written s s' t pid rec.
Proof.
  intros Hi Ht Hfit Hp Hps Hw. pose proof Hp as (Htid & Hpid & Hsl & _).
  unfold write_page in Hw. rewrite Hsl, Htid, Hpid in Hw. cbn [negb] in Hw. clear Htid Hpid Hsl.
  do 3 (apply mbind_Ok_inv in Hw as (?&?&?&Hw)). minv.
  match goal with q : World * PageStore |- _ => destruct q as [W1 s1] end. cbn in *. simplify_eq/=.
  enough (∃ rec, decode_page s t pid rec = Ok p ∧ record_written s s1 t pid rec) as (rec & ? & ?).
  { by exists rec. }
  destruct (ps_table_keys s !! t) as [key|] eqn:Hk.
  - by eapply write_page_enc_Ok.
  - by eapply write_page_plain_Ok.
Qed.

Lemma open_handle_quiet k path W s :
  store_inv s → path = handle_path k → w_io W = [] →
  ∃ s', open_handle k path (W, s) = (Ok path, (W, s')) ∧ same_contents s s'.
Proof.
  intros Hi Hp Hio. destruct (open_handle k path (W, s)) as [[f|e] [W' s']] eqn:Ho.
  - pose proof (open_handle_Ok _ _ _ _ _ _ _ Hi Hp Ho) as (-> & _ & Hs). exists s'. split; [|done].
    f_equal. f_equal. unfold open_handle in Ho. rewrite (mbind_eq _ _ _ (ps_handles s) (W, s)) in Ho by done.
    cbv beta in Ho. destruct (ps_handles s !! k); [by minv|].
    rewrite (mbind_eq _ _ _ tt (W, s)) in Ho by (by apply io_quiet). by minv.
  - exfalso. unfold open_handle in Ho. rewrite (mbind_eq _ _ _ (ps_handles s) (W, s)) in Ho by done.
    cbv beta in Ho. destruct (ps_handles s !! k); [done|].
    rewrite (mbind_eq _ _ _ tt (W, s)) in Ho by (by apply io_quiet). done.
Qed.

Lemma file_read_quiet W s f off n :
  w_io W = [] → (file_read f off n (W, s)).1 = ok_or (read_at off n (default [] (ps_files s !! f))) PageIo.
Proof. intros Hio. unfold file_read. by rewrite (mbind_eq _ _ _ tt (W, s)) by (by apply io_quiet). Qed.

(** Reading a page, when the file system answers, is decoding its record. *)
Lemma read_page_spec s W t pid :
  store_inv s → table_ok t → rec_fits s t pid → w_io W = [] →
  (read_page t pid (W, s)).1 =
  match record_at s t pid with Some r => decode_page s t pid r | None => Err PageIo end.
Proof.
  intros Hi Ht (Hp0 & Hpid0 & Hmul) Hio. pose proof (file_paths t Ht) as [Hpp Hpe].
  unfold read_page. rewrite (mbind_eq _ _ _ (ps_table_keys s) (W, s)) by done.
  rewrite (mbind_eq _ _ _ (ps_page_size s) (W, s)) by done. cbv beta.
  unfold record_at, decode_page, rec_file, rec_size, ps_is_encrypted in *.
  destruct (ps_table_keys s !! t) as [key|] eqn:Hk.
  - rewrite bool_decide_true in * by (by eexists).
    destruct (open_handle_quiet _ _ W s Hi Hpe Hio) as (s' & Ho & (_ & _ & Hf)).
    rewrite as_u64_small by (split; [apply Z.mul_nonneg_nonneg; unfold GCM_OVERHEAD; lia|done]).
    unfold efile_for_table. rewrite (mbind_eq _ _ _ _ _ Ho). cbv beta.
    unfold mbind at 1, M_bind at 1. pose proof (file_read_quiet W s' (t, true)
      (Z.to_nat (pid * (ps_page_size s + GCM_OVERHEAD))) (Z.to_nat (ps_page_size s + GCM_OVERHEAD)) Hio) as Hr.
    rewrite Hf in Hr. destruct (file_read _ _ _ _) as [r σ]. cbn in Hr. subst r.
    destruct (read_at _ _ _) as [rec|]; [|done]. cbn. by destruct (decrypt _ _ _).
  - rewrite bool_decide_false in * by (by intros [??]).
    destruct (open_handle_quiet _ _ W s Hi Hpp Hio) as (s' & Ho & (_ & _ & Hf)).
    rewrite as_u64_small by (split; [apply Z.mul_nonneg_nonneg; lia|done]).
    unfold file_for_table. rewrite (mbind_eq _ _ _ _ _ Ho). cbv beta.
    unfold mbind at 1, M_bind at 1. pose proof (file_read_quiet W s' (t, false)
      (Z.to_nat (pid * ps_page_size s)) (Z.to_nat (ps_page_size s)) Hio) as Hr.
    rewrite Hf in Hr. destruct (file_read _ _ _ _) as [r σ]. cbn in Hr. subst r. by destruct (read_at _ _ _).
Qed.

(** A page written to the store reads back as the same page, in a
    plaintext or an encrypted table, and every other page of the store that
    could be read before the write can still be read, unchanged. *)
Theorem write_read_page s W p t pid u W1 s1 W2 :
  store_inv s → table_ok t → rec_fits s t pid → page_of p t pid (ps_page_size s) → ps_page_size s < 2 ^ 32 →
  write_page p (W, s) = (Ok u, (W1, s1)) → w_io W2 = [] →
  (read_page t pid (W2, s1)).1 = Ok p ∧
  (∀ t' pid' q, table_ok t' → rec_fits s t' pid' → (t', pid') ≠ (t, pid) →
    (read_page t' pid' (W2, s)).1 = Ok q → (read_page t' pid' (W2, s1)).1 = Ok q).
Proof.
  intros Hi Ht Hfit Hp Hps Hw Hio.
  destruct (write_page_Ok _ _ _ _ _ _ _ _ Hi Ht Hfit Hp Hps Hw) as (rec & Hd & Hi1 & Hz & Hk & Hr & Ho).
  assert (Hfits : ∀ t pid, rec_fits s t pid → rec_fits s1 t pid).
  { intros. unfold rec_fits, rec_size, ps_is_encrypted in *. by rewrite Hz, Hk. }
  assert (Hdec : ∀ t pid r, decode_page s1 t pid r = decode_page s t pid r).
  { intros. unfold decode_page, rec_size, ps_is_encrypted. by rewrite Hz, Hk. }
  split.
  - by rewrite read_page_spec, Hr, Hdec by auto.
  - intros t' pid' q Ht' Hfit' Hne. rewrite !read_page_spec by auto.
    destruct (record_at s t' pid') as [r|] eqn:Hrec; [|done]. rewrite (Ho _ _ _ Hfit' Hne Hrec). by rewrite Hdec.
Qed.
End store.
