(* ===== verification/EntryDb.v ===== *)
(** * vledger-ledger: the SQLite entry index

    Models [crates/vledger-ledger/src/entry_db.rs].  The tables are finite
    maps: [entries] and the full-text table by rowid, [accounts] by id and
    [account_entries] as a set of pairs, absent until created.  A statement is
    its effect on the tables, with the constraints of the schema (primary key,
    [UNIQUE(idempotency_key)], [CHECK (sequence > 0)]) and SQLite's conflict
    clauses; each statement may also fail, as the environment says.  A bulk
    transaction keeps the tables as they were at [BEGIN]. *)

From stdpp Require Import base gmap list strings option fin_maps sorting.
From Stdlib Require Import ZArith Lia Strings.Ascii.
From S2P Require Import Prelude Bytes Crypto Money Entry.

(** bincode, in its variable-width configuration. *)
Class LedgerCodecs := {
  entry_codec :: Codec JournalEntry;
  account_codec :: Codec Account
}.

(** ** Tables *)

(** A row of [entries]; the key is the [sequence] column, a signed integer.
    Hashes are stored in hexadecimal and timestamps in RFC 3339, both
    one-to-one. *)
Record EntryRow := mkRow {
  row_id : Z;
  row_status : EntryStatus;
  row_domain : string;
  row_external_ref : option string;
  row_idempotency_key : option string;
  row_content_hash : Hash;
  row_chain_hash : Hash;
  row_effective_at : Z;
  row_posted_at : Z;
  row_data : bytes
}.

Record Tables := mkTables {
  t_entries : gmap Z EntryRow;
  t_fts : gmap Z string;
  t_accounts : gmap Z bytes;
  t_account_entries : option (gset (Z * Z))
}.

Record EntryDb := mkDb {
  db_tables : Tables;
  db_saved : option Tables        (* the tables at [BEGIN], in a transaction *)
}.

Definition empty_db : EntryDb := mkDb (mkTables ∅ ∅ ∅ None) None.

Definition set_entries e t := mkTables e (t_fts t) (t_accounts t) (t_account_entries t).
Definition set_fts f t := mkTables (t_entries t) f (t_accounts t) (t_account_entries t).
Definition set_accounts a t := mkTables (t_entries t) (t_fts t) a (t_account_entries t).
Definition set_account_entries ae t := mkTables (t_entries t) (t_fts t) (t_accounts t) ae.

Notation DbM := (M EntryDb LedgerError).

Definition sqlite_error : LedgerError := Serialization "SQLite".

(** A statement that may fail, then reads or updates the tables. *)
Definition query {A} (f : Tables → A) : DbM A := _ ← io sqlite_error; gets (λ db, f (db_tables db)).
Definition execute (f : Tables → Tables) : DbM unit :=
  _ ← io sqlite_error; modify (λ db, mkDb (f (db_tables db)) (db_saved db)).

(** The rows in [ORDER BY sequence]. *)
Definition rows (t : Tables) : list EntryRow := sorted_values (t_entries t).

Section db.
Context `{LedgerCodecs}.

Definition encode_entry (e : JournalEntry) : Result LedgerError bytes :=
  ok_or (enc e) (Serialization "encode").
Definition decode_entry (bs : bytes) : Result LedgerError JournalEntry :=
  ok_or (dec bs) (Serialization "decode").

(** Decode the rows of a result set in order; the first failure is returned. *)
Fixpoint decode_rows (rs : list EntryRow) : Result LedgerError (list JournalEntry) :=
  match rs with
  | [] => Ok []
  | r :: rs => e ← decode_entry (row_data r); es ← decode_rows rs; Ok (e :: es)
  end.

Definition entry_row (e : JournalEntry) (data : bytes) : EntryRow :=
  mkRow (e_id e) (e_status e) (e_domain e) (e_external_ref e) (e_idempotency_key e)
    (e_content_hash e) (e_chain_hash e) (e_effective_at e) (e_posted_at e) data.

(** Some row has this idempotency key. *)
Definition key_used (key : string) (t : Tables) : bool :=
  existsb (λ r, bool_decide (row_idempotency_key r = Some key)) (rows t).

(** ** Inserting an entry *)

(** [INSERT OR IGNORE INTO entries]: the row is skipped when it violates the
    check on the sequence, the primary key or the unique key. *)
Definition ignored (k : Z) (r : EntryRow) (t : Tables) : bool :=
  (k <=? 0) || bool_decide (is_Some (t_entries t !! k)) ||
  match row_idempotency_key r with Some key => key_used key t | None => false end.

Definition insert_row (k : Z) (r : EntryRow) (t : Tables) : Tables :=
  if ignored k r t then t else set_entries (<[k := r]> (t_entries t)) t.

Definition insert (e : JournalEntry) : DbM unit :=
  data ← liftR (encode_entry e);
  let k := as_i64 (e_sequence e) in
  let r := entry_row e data in
  skip ← query (ignored k r);
  _ ← modify (λ db, mkDb (insert_row k r (db_tables db)) (db_saved db));
  if (skip : bool) then mret tt
  else execute (λ t, set_fts (<[k := default ""%string (e_metadata e)]> (t_fts t)) t).

(** ** Queries *)

(** The first row with a property, decoded. *)
Definition get_first (P : EntryRow → bool) : DbM (option JournalEntry) :=
  r ← query (λ t, find P (rows t));
  match r with
  | None => mret None
  | Some r => e ← liftR (decode_entry (row_data r)); mret (Some e)
  end.

Definition get_by_uuid (id : Z) : DbM (option JournalEntry) :=
  get_first (λ r, bool_decide (row_id r = id)).

Definition get_by_external_ref (ref : string) : DbM (option JournalEntry) :=
  get_first (λ r, bool_decide (row_external_ref r = Some ref)).

Definition get_by_sequence (seq : Z) : DbM (option JournalEntry) :=
  r ← query (λ t, t_entries t !! as_i64 seq);
  match r with
  | None => mret None
  | Some r => e ← liftR (decode_entry (row_data r)); mret (Some e)
  end.

Definition idempotency_key_exists (key : string) : DbM bool := query (key_used key).

Definition sequence_for_idempotency_key (key : string) : DbM (option Z) :=
  query (λ t, k ← find (λ k, bool_decide (t_entries t !! k ≫= row_idempotency_key = Some key))
                    (sorted_keys (t_entries t));
              Some (as_u64 k)).

Definition count : DbM Z := query (λ t, Z.of_nat (size (t_entries t))).

Definition max_sequence : DbM Z := query (λ t, as_u64 (default 0 (last (sorted_keys (t_entries t))))).

Definition chain_tip : DbM (option Hash) := query (λ t, row_chain_hash <$> last (rows t)).

(** [LIMIT n]: a negative value means no limit. *)
Definition limit {A} (n : Z) (l : list A) : list A :=
  let n := as_i64 n in if n <? 0 then l else take (Z.to_nat n) l.

(** The text stored in the [status] column: [format!("{:?}", entry.status)]. *)
Definition status_text (st : EntryStatus) : string :=
  match st with
  | Pending => "Pending" | Posted => "Posted" | Settled => "Settled"
  | Reversed => "Reversed" | Failed => "Failed" | Reversal => "Reversal"
  | PendingApproval => "PendingApproval" | Rejected => "Rejected"
  end.

(** The rows after a sequence number that pass the given filters. *)
Definition scan (domain : option string) (status : option string) (lim offset_seq : Z)
    : DbM (list JournalEntry) :=
  rs ← query (λ t, limit lim (omap (λ k, r ← t_entries t !! k;
      if (as_i64 offset_seq <? k) &&
         match domain with Some d => bool_decide (row_domain r = d) | None => true end &&
         match status with Some st => bool_decide (status_text (row_status r) = st) | None => true end
      then Some r else None) (sorted_keys (t_entries t))));
  liftR (decode_rows rs).

Definition scan_by_domain (domain : string) (lim offset_seq : Z) := scan (Some domain) None lim offset_seq.
Definition scan_by_status (status : string) (lim offset_seq : Z) := scan None (Some status) lim offset_seq.

Definition scan_by_external_ref (ref : string) (lim : Z) : DbM (list JournalEntry) :=
  rs ← query (λ t, limit lim (filter (λ r, row_external_ref r = Some ref) (rows t)));
  liftR (decode_rows rs).

Definition scan_range (from_seq to_seq : Z) : DbM (list JournalEntry) :=
  rs ← query (λ t, omap (λ k, t_entries t !! k)
      (filter (λ k, as_i64 from_seq <= k ∧ k <= as_i64 to_seq) (sorted_keys (t_entries t))));
  liftR (decode_rows rs).

(** [stream_all(f)]: the closure updates [acc] entry by entry; what it has
    accumulated remains when a row does not decode or the closure fails. *)
Fixpoint stream_rows {A} (f : JournalEntry → A → Result LedgerError A) (rs : list EntryRow) (acc : A)
    : A * Result LedgerError unit :=
  match rs with
  | [] => (acc, Ok tt)
  | r :: rs =>
      match decode_entry (row_data r) with
      | Err e => (acc, Err e)
      | Ok entry => match f entry acc with
                    | Ok acc' => stream_rows f rs acc'
                    | Err e => (acc, Err e)
                    end
      end
  end.

Definition stream_all {A} (f : JournalEntry → A → Result LedgerError A) (acc : A)
    : DbM (A * Result LedgerError unit) :=
  r ← attempt (F:=LedgerError) (query rows);
  match r with
  | Ok rs => mret (stream_rows f rs acc)
  | Err e => mret (acc, Err e)
  end.

(** ** Bulk transactions *)

Definition begin_bulk : DbM unit :=
  _ ← io sqlite_error;
  saved ← gets db_saved;
  match saved with
  | Some _ => throw sqlite_error
  | None => modify (λ db, mkDb (db_tables db) (Some (db_tables db)))
  end.

Definition commit_bulk : DbM unit :=
  _ ← io sqlite_error;
  saved ← gets db_saved;
  match saved with
  | Some _ => modify (λ db, mkDb (db_tables db) None)
  | None => throw sqlite_error
  end.

Definition rollback_bulk : DbM unit :=
  _ ← io sqlite_error;
  saved ← gets db_saved;
  match saved with
  | Some t => modify (λ db, mkDb t None)
  | None => throw sqlite_error
  end.

(** [COMMIT; BEGIN] after a full batch of the rebuild loops. *)
Definition next_batch (batch : Z) : DbM Z :=
  if 500000 <=? batch then _ ← commit_bulk; _ ← begin_bulk; mret 0 else mret batch.

(** ** Full-text search *)

(** Drop FTS5 operators, double the quotes, wrap in quotes. *)
Definition dquote : ascii := Ascii.ascii_of_nat 34.
Fixpoint strip_ops (s : string) : string :=
  match s with
  | EmptyString => EmptyString
  | String c s => if bool_decide (c ∈ ["*"; "^"; "-"]%char) then strip_ops s else String c (strip_ops s)
  end.
Fixpoint double_quotes (s : string) : string :=
  match s with
  | EmptyString => EmptyString
  | String c s => if bool_decide (c = dquote) then String c (String c (double_quotes s))
                  else String c (double_quotes s)
  end.
Definition fts_query (query : string) : string :=
  String dquote (double_quotes (strip_ops query) +:+ String dquote EmptyString).

Section fts.
(** SQLite's [MATCH] on a metadata text. *)
Context (fts_match : string → string → bool).

Definition search_metadata (query_ : string) (lim : Z) : DbM (list JournalEntry) :=
  rs ← query (λ t, limit lim (omap (λ k, m ← t_fts t !! k;
      if fts_match (fts_query query_) m then t_entries t !! k else None) (sorted_keys (t_entries t))));
  liftR (decode_rows rs).
End fts.

(** Clear the full-text table, then fill it from the entries inside
    transactions; an error leaves the current transaction open. *)
Fixpoint fts_loop (ks : list Z) (n batch : Z) : DbM Z :=
  match ks with
  | [] => mret n
  | k :: ks =>
      r ← gets (λ db, t_entries (db_tables db) !! k);
      match r with
      | None => fts_loop ks n batch
      | Some r =>
          e ← liftR (decode_entry (row_data r));
          _ ← execute (λ t, set_fts (<[k := default ""%string (e_metadata e)]> (t_fts t)) t);
          batch ← next_batch (batch + 1);
          fts_loop ks (n + 1) batch
      end
  end.

(** [DELETE FROM entries_fts]: the table is declared [content=''], and SQLite
    refuses to delete a row of a contentless table; with no rows it succeeds. *)
Definition clear_fts : DbM unit :=
  some ← query (λ t, negb (bool_decide (t_fts t = ∅)));
  if (some : bool) then throw sqlite_error else mret tt.

Definition rebuild_fts_index : DbM Z :=
  _ ← clear_fts;
  _ ← begin_bulk;
  ks ← query (λ t, sorted_keys (t_entries t));
  n ← fts_loop ks 0 0;
  _ ← commit_bulk;
  mret n.

Definition fts_is_empty : DbM bool :=
  r ← attempt (F:=LedgerError) (query (λ t, bool_decide (t_fts t = ∅)));
  mret (res_unwrap_or true r).

(** ** The account cross-reference *)

Definition ensure_account_entries_table : DbM unit :=
  execute (λ t, set_account_entries (Some (default ∅ (t_account_entries t))) t).

(** Fails when the table does not exist. *)
Definition insert_account_entry (account_id sequence : Z) : DbM unit :=
  ae ← query t_account_entries;
  match ae with
  | None => throw sqlite_error
  | Some _ => modify (λ db, mkDb (set_account_entries
        ((λ s, {[(account_id, as_i64 sequence)]} ∪ s) <$> t_account_entries (db_tables db)) (db_tables db))
        (db_saved db))
  end.

Definition entries_for_account (account_id : Z) : DbM (list JournalEntry) :=
  ae ← query t_account_entries;
  match ae with
  | None => throw sqlite_error
  | Some ae =>
      rs ← query (λ t, omap (λ k, t_entries t !! k)
          (filter (λ k, (account_id, k) ∈ ae) (sorted_keys (t_entries t))));
      liftR (decode_rows rs)
  end.

Definition sequences_for_account (account_id : Z) : DbM (list Z) := mret [].

(** The inner loop over the lines of an entry. *)
Fixpoint ae_lines (seq : Z) (ls : list JournalLine) : DbM unit :=
  match ls with
  | [] => mret tt
  | l :: ls => _ ← insert_account_entry (ln_account_id l) seq; ae_lines seq ls
  end.

Fixpoint ae_loop (rs : list EntryRow) (n batch : Z) : DbM Z :=
  match rs with
  | [] => mret n
  | r :: rs =>
      e ← liftR (decode_entry (row_data r));
      _ ← ae_lines (e_sequence e) (e_lines e);
      let added := Z.of_nat (length (e_lines e)) in
      batch ← next_batch (batch + added);
      ae_loop rs (n + added) batch
  end.

Definition rebuild_account_entries_fast : DbM Z :=
  ae ← query t_account_entries;
  match ae with
  | None => throw sqlite_error
  | Some _ =>
      _ ← execute (set_account_entries (Some ∅));
      _ ← begin_bulk;
      rs ← query rows;
      n ← ae_loop rs 0 0;
      _ ← commit_bulk;
      mret n
  end.

(** One entry of [bulk_insert_migration]; returns 1 when a row was added. *)
Definition bulk_insert_one (e : JournalEntry) : DbM Z :=
  data ← liftR (encode_entry e);
  let k := as_i64 (e_sequence e) in
  let r := entry_row e data in
  skip ← query (ignored k r);
  _ ← modify (λ db, mkDb (insert_row k r (db_tables db)) (db_saved db));
  if (skip : bool) then mret 0
  else _ ← execute (λ t, set_fts (<[k := default ""%string (e_metadata e)]> (t_fts t)) t); mret 1.

Fixpoint bulk_insert_all (es : list JournalEntry) : DbM Z :=
  match es with
  | [] => mret 0
  | e :: es => n ← bulk_insert_one e; m ← bulk_insert_all es; mret (n + m)
  end.

Definition bulk_insert_migration (es : list JournalEntry) : DbM Z :=
  match es with
  | [] => mret 0
  | _ =>
      _ ← attempt (F:=LedgerError) rollback_bulk;
      _ ← begin_bulk;
      n ← bulk_insert_all es;
      _ ← commit_bulk;
      mret n
  end.

(** ** Accounts *)

(** [CREATE TABLE IF NOT EXISTS accounts]: the table is created with the
    database. *)
Definition ensure_accounts_table : DbM unit := execute (λ t, t).

Definition upsert_account (a : Account) : DbM unit :=
  data ← liftR (ok_or (enc a) (Serialization "encode"));
  execute (λ t, set_accounts (<[acc_id a := data]> (t_accounts t)) t).

(** The accounts that decode, after a test that the table exists. *)
Definition load_all_accounts : DbM (list Account) :=
  r ← attempt (F:=LedgerError) (query (λ _, true));
  if res_unwrap_or false r then query (λ t, omap (λ kd, dec kd.2) (map_to_list (t_accounts t)))
  else mret [].

Definition account_count : DbM Z :=
  r ← attempt (F:=LedgerError) (query (λ t, Z.of_nat (size (t_accounts t))));
  mret (res_unwrap_or 0 r).

(** [UPDATE entries SET data = ? WHERE sequence = ?], for tests: the trigger
    [entries_no_update] aborts the update of every row that matches. *)
Definition tamper_replace (seq : Z) (data : bytes) : DbM bool :=
  r ← query (λ t, t_entries t !! as_i64 seq);
  match r with
  | None => mret false
  | Some _ => throw sqlite_error
  end.

(** ** Balances *)

Definition affects_balance (s : EntryStatus) : bool :=
  match s with Posted | Reversal => true | _ => false end.

(** The change a line makes to the balance of an account of type [t]. *)
Definition line_delta (t : AccountType) (l : JournalLine) : Z :=
  if is_debit_normal t
  then match ln_dr_cr l with Debit => amount_i128 (ln_amount l) | Credit => - amount_i128 (ln_amount l) end
  else match ln_dr_cr l with Credit => amount_i128 (ln_amount l) | Debit => - amount_i128 (ln_amount l) end.

(** [*cache.entry(id).or_insert(0) += delta] *)
Definition add_to (id delta : Z) (cache : gmap Z Z) : gmap Z Z :=
  <[id := default 0 (cache !! id) + delta]> cache.

(** The lines of one entry, stopping at the first unknown account. *)
Fixpoint rebuild_lines (accounts : gmap Z Account) (ls : list JournalLine) (cache : gmap Z Z) : gmap Z Z :=
  match ls with
  | [] => cache
  | l :: ls =>
      match accounts !! ln_account_id l with
      | None => cache
      | Some a => rebuild_lines accounts ls (add_to (ln_account_id l) (line_delta (account_type a) l) cache)
      end
  end.

Definition rebuild_entry (accounts : gmap Z Account) (e : JournalEntry) (cache : gmap Z Z)
    : Result LedgerError (gmap Z Z) :=
  Ok (if affects_balance (e_status e) then rebuild_lines accounts (e_lines e) cache else cache).

Definition rebuild_balance_cache (accounts : gmap Z Account) (cache : gmap Z Z)
    : DbM (gmap Z Z * Result LedgerError unit) :=
  stream_all (rebuild_entry accounts) cache.

(** ** What the index holds *)

(** The entries [es], in sequence order, each serialized in its row. *)
Definition row_of (e : JournalEntry) (r : EntryRow) : Prop := ∃ d, enc e = Some d ∧ r = entry_row e d.
Definition seq_ok (e : JournalEntry) : Prop := 0 < e_sequence e < 2 ^ 63.

Definition stored_in (t : Tables) (e : JournalEntry) : Prop :=
  ∃ r, t_entries t !! e_sequence e = Some r ∧ row_of e r.

Definition db_repr (t : Tables) (es : list JournalEntry) : Prop :=
  sorted_keys (t_entries t) = map e_sequence es ∧ Forall (stored_in t) es ∧ Forall seq_ok es.

Lemma as_i64_seq e : seq_ok e → as_i64 (e_sequence e) = e_sequence e.
Proof. intros He. apply as_i64_small. unfold seq_ok in He. lia. Qed.

Lemma db_repr_empty t : t_entries t = ∅ → db_repr t [].
Proof.
  intros He. unfold db_repr, sorted_keys. rewrite He, dom_empty_L, elements_empty. by split_and!.
Qed.

Lemma rows_repr t es : db_repr t es → Forall2 row_of es (rows t).
Proof.
  intros (Hk & Hs & _). unfold rows, sorted_values. rewrite Hk. clear Hk.
  induction Hs as [|e es (r & Hr & Hrow) _ IH]; [constructor|]. cbn. rewrite Hr. by constructor.
Qed.

Lemma decode_row_of e r : row_of e r → decode_entry (row_data r) = Ok e.
Proof. intros (d & He & ->). unfold decode_entry. cbn. by rewrite (dec_enc' _ _ He). Qed.

Lemma decode_rows_repr es rs : Forall2 row_of es rs → decode_rows rs = Ok es.
Proof. induction 1 as [|e r es rs Hr _ IH]; [done|]. cbn. rewrite (decode_row_of _ _ Hr). cbn. by rewrite IH. Qed.

Lemma key_used_repr t es key :
  db_repr t es → key_used key t = existsb (λ e, bool_decide (e_idempotency_key e = Some key)) es.
Proof.
  intros Hr%rows_repr. unfold key_used. induction Hr as [|e r es rs (d & _ & ->) _ IH]; [done|].
  cbn. by rewrite IH.
Qed.

Lemma db_repr_seqs t es : db_repr t es → StronglySorted Z.lt (map e_sequence es).
Proof.
  intros (Hk & _). rewrite <- Hk. pose proof (sorted_keys_sorted (t_entries t)) as Hs.
  pose proof (sorted_keys_NoDup (t_entries t)) as Hn. clear Hk. revert Hs Hn.
  induction (sorted_keys (t_entries t)) as [|k ks IH]; intros Hs Hn; [constructor|].
  apply StronglySorted_inv in Hs as [Hs Hk']. apply NoDup_cons in Hn as [Hnk Hn].
  constructor; [auto|]. apply Forall_forall. rewrite Forall_forall in Hk'. intros k' Hin. specialize (Hk' k' Hin).
  assert (k ≠ k') by (by intros ->). lia.
Qed.

Lemma db_repr_lookup t es k :
  db_repr t es → t_entries t !! k = None ∨ ∃ e, e ∈ es ∧ e_sequence e = k.
Proof.
  intros (Hk & _). destruct (t_entries t !! k) as [r|] eqn:Hl; [right|by left].
  assert (k ∈ sorted_keys (t_entries t)) as Hin by (apply elem_of_sorted_keys; by eexists).
  rewrite Hk in Hin. apply list_elem_of_fmap in Hin as (e & -> & He). by exists e.
Qed.

(** *** Statements when SQLite does not fail *)

Section quiet.
Context (W : World) (Hio : w_io W = []).

Lemma query_quiet {A} (f : Tables → A) db : query f (W, db) = (Ok (f (db_tables db)), (W, db)).
Proof. unfold query. by rewrite (mbind_eq _ _ _ tt (W, db)) by (by apply io_quiet). Qed.

Lemma execute_quiet f db : execute f (W, db) = (Ok tt, (W, mkDb (f (db_tables db)) (db_saved db))).
Proof. unfold execute. by rewrite (mbind_eq _ _ _ tt (W, db)) by (by apply io_quiet). Qed.

(** The tables after inserting a new entry. *)
Definition inserted (e : JournalEntry) (d : bytes) (t : Tables) : Tables :=
  set_fts (<[e_sequence e := default ""%string (e_metadata e)]> (t_fts t))
    (set_entries (<[e_sequence e := entry_row e d]> (t_entries t)) t).

Definition fresh_key (es : list JournalEntry) (e : JournalEntry) : Prop :=
  ∀ key, e_idempotency_key e = Some key → Forall (λ e', e_idempotency_key e' ≠ Some key) es.

Lemma not_ignored t es e d :
  db_repr t es → seq_ok e → Forall (λ e', e_sequence e' < e_sequence e) es → fresh_key es e →
  ignored (e_sequence e) (entry_row e d) t = false.
Proof.
  intros Hr Hs Hlt Hf. unfold ignored. destruct (Z.leb_spec (e_sequence e) 0); [unfold seq_ok in Hs; lia|].
  rewrite bool_decide_false. 2: { intros [r Hr']. destruct (db_repr_lookup t es (e_sequence e) Hr) as [Hn|(e' & Hin & He)].
    - by rewrite Hn in Hr'.
    - rewrite Forall_forall in Hlt. specialize (Hlt e' Hin). lia. }
  cbn. destruct (e_idempotency_key e) as [key|] eqn:Hkey; [|done]. rewrite (key_used_repr _ _ _ Hr).
  specialize (Hf key Hkey). clear -Hf. induction Hf as [|e' es He' _ IH]; [done|]. cbn.
  by rewrite bool_decide_false.
Qed.

(** Inserting an entry with a new highest sequence and an unused key. *)
Lemma insert_quiet db es e d :
  db_repr (db_tables db) es → seq_ok e → Forall (λ e', e_sequence e' < e_sequence e) es → fresh_key es e →
  enc e = Some d →
  insert e (W, db) = (Ok tt, (W, mkDb (inserted e d (db_tables db)) (db_saved db))).
Proof.
  intros Hr Hs Hlt Hf He. unfold insert, encode_entry. rewrite He.
  rewrite (mbind_eq _ _ _ d (W, db)) by done. rewrite (as_i64_seq _ Hs).
  rewrite (mbind_eq _ _ _ _ _ (query_quiet _ _)), (not_ignored _ es) by done.
  rewrite (mbind_eq _ _ _ tt (W, mkDb (set_entries (<[e_sequence e := entry_row e d]> (t_entries (db_tables db))) (db_tables db)) (db_saved db))).
  - by rewrite execute_quiet.
  - unfold modify, insert_row; cbn. by rewrite (not_ignored _ es).
Qed.

Lemma stored_in_insert t e d e' :
  e_sequence e' ≠ e_sequence e → stored_in t e' → stored_in (inserted e d t) e'.
Proof. intros Hne (r & Hr & Hrow). exists r. split; [|done]. cbn. by rewrite lookup_insert_ne. Qed.

Lemma inserted_repr t es e d :
  db_repr t es → seq_ok e → Forall (λ e', e_sequence e' < e_sequence e) es → enc e = Some d →
  db_repr (inserted e d t) (es ++ [e]).
Proof.
  intros (Hk & Hs & Hok) He Hlt Hd. split_and!.
  - cbn. rewrite sorted_keys_snoc, Hk, map_app; [done|].
    rewrite Hk. intros i (e' & -> & Hin)%list_elem_of_fmap. rewrite Forall_forall in Hlt. auto.
  - apply Forall_app. split.
    + apply Forall_forall. rewrite Forall_forall in Hs, Hlt. intros e' Hin. apply stored_in_insert; [|auto].
      specialize (Hlt e' Hin). lia.
    + apply Forall_singleton. exists (entry_row e d). cbn. rewrite lookup_insert_eq. split; [done|]. by exists d.
  - apply Forall_app. split; [done|]. by apply Forall_singleton.
Qed.

(** The entries a stream visits, as a fold. *)
Fixpoint stream_entries {A} (f : JournalEntry → A → Result LedgerError A) (es : list JournalEntry) (acc : A)
    : A * Result LedgerError unit :=
  match es with
  | [] => (acc, Ok tt)
  | e :: es => match f e acc with Ok acc' => stream_entries f es acc' | Err x => (acc, Err x) end
  end.

Lemma stream_all_quiet {A} (f : JournalEntry → A → Result LedgerError A) acc db es :
  db_repr (db_tables db) es → stream_all f acc (W, db) = (Ok (stream_entries f es acc), (W, db)).
Proof.
  intros Hr%rows_repr. unfold stream_all.
  rewrite (mbind_eq _ _ _ (Ok (rows (db_tables db))) (W, db)) by (unfold attempt; by rewrite query_quiet).
  cbn. do 2 f_equal. revert acc. induction Hr as [|e r es rs Hrow _ IH]; intros acc; [done|]. cbn.
  rewrite (decode_row_of _ _ Hrow). by destruct (f e acc).
Qed.

Lemma get_by_sequence_quiet db es e :
  db_repr (db_tables db) es → e ∈ es → get_by_sequence (e_sequence e) (W, db) = (Ok (Some e), (W, db)).
Proof.
  intros (_ & Hs & Hok) Hin. rewrite Forall_forall in Hs, Hok.
  unfold get_by_sequence. rewrite (as_i64_seq e) by auto. destruct (Hs e Hin) as (r & Hr & Hrow).
  rewrite (mbind_eq _ _ _ _ _ (query_quiet _ _)), Hr.
  rewrite (mbind_eq _ _ _ e (W, db)) by (unfold liftR; by rewrite (decode_row_of _ _ Hrow)). done.
Qed.
End quiet.
End db.
