(* ===== verification/Sql.v ===== *)
(** * vledger-sql: results, plans and the optimizer

    Models [crates/vledger-sql/src/result.rs], the plan types of [planner.rs]
    and [optimizer.rs].  A failed assertion or an index out of range is a
    [SqlPanic] error; the text of error messages is left out where it only
    repeats its arguments. *)

From stdpp Require Import base gmap list strings option fin_maps pretty.
From Stdlib Require Import ZArith Lia.
From S2P Require Import Prelude Bytes Crypto Merkle Money Entry.

(** ** Errors *)

Inductive SqlError :=
  | SqlUnsupported
  | SqlUnknownTable (table : string)
  | SqlColumnNotFound (column : string)
  | SqlTypeError
  | SqlMissingField (field : string)
  | SqlInvalidValue (field : string)
  | SqlLedger (e : LedgerError)
  | SqlExecution (msg : string)
  | SqlPanic.

(** ** Values and rows *)

(** Reinterpretation in 128 bits ([i128] sums in a release build). *)
Definition as_i128 (z : Z) : Z :=
  let u := z mod 2 ^ 128 in if u <? 2 ^ 127 then u else u - 2 ^ 128.

Lemma as_i128_id z : i128_ok z → as_i128 z = z.
Proof.
  intros Hz. unfold as_i128, i128_ok in *.
  destruct (Z.ltb_spec (z mod 2 ^ 128) (2 ^ 127)) as [Hm|Hm].
  - destruct (Z.ltb_spec z 0); [|rewrite Z.mod_small in *; lia].
    assert (z mod 2 ^ 128 = z + 2 ^ 128); [|lia].
    rewrite <- (Z_mod_plus_full z 1), Z.mod_small; lia.
  - destruct (Z.ltb_spec z 0); [|rewrite Z.mod_small in *; lia].
    assert (z mod 2 ^ 128 = z + 2 ^ 128); [|lia].
    rewrite <- (Z_mod_plus_full z 1), Z.mod_small; lia.
Qed.

Inductive Value :=
  | VNull
  | VInt (n : Z)
  | VBigInt (n : Z)
  | VText (s : string)
  | VBool (b : bool)
  | VTimestamp (s : string)
  | VHash (s : string)
  | VUuid (s : string).

#[global] Instance Value_eq_dec : EqDecision Value.
Proof. solve_decision. Defined.

(** [Display] *)
Definition value_string (v : Value) : string :=
  match v with
  | VNull => "NULL"
  | VInt n | VBigInt n => pretty n
  | VText s | VTimestamp s | VHash s | VUuid s => s
  | VBool b => if b then "true" else "false"
  end.

Record Row := mkRow { row_columns : list string; row_values : list Value }.

(** [Row::new], which asserts that the lengths agree. *)
Definition Row_new (columns : list string) (values : list Value) : Result SqlError Row :=
  if (length columns =? length values)%nat then Ok (mkRow columns values) else Err SqlPanic.

(** [columns.iter().position(|c| c == col)] *)
Definition position (col : string) (columns : list string) : option nat :=
  fst <$> list_find (λ c, c = col) columns.

Definition row_get (col : string) (r : Row) : option Value :=
  i ← position col (row_columns r); row_values r !! i.

(** ** Query results *)

Record LeafProof := mkLeafProof { lp_leaf_index : nat; lp_leaf_hash : Hash; lp_path : list ProofStep }.

Record QueryProof := mkQueryProof {
  qp_root : Hash;
  qp_leaf_proofs : list LeafProof;
  qp_root_signature : option bytes;
  qp_signing_public_key : option bytes
}.

Record QueryResult := mkQueryResult {
  qr_columns : list string;
  qr_rows : list Row;
  qr_rows_affected : nat;
  qr_proof : option QueryProof;
  qr_message : string;
  qr_entry_id : option Z;
  qr_entry_sequence : option Z;
  qr_domain : option string;
  qr_amount_sum : option Z
}.

Definition qr_empty (message : string) : QueryResult :=
  mkQueryResult [] [] 0 None message None None None None.
Definition qr_of_rows (columns : list string) (rows : list Row) (message : string) : QueryResult :=
  mkQueryResult columns rows (length rows) None message None None None None.
Definition with_proof (p : QueryProof) (r : QueryResult) : QueryResult :=
  mkQueryResult (qr_columns r) (qr_rows r) (qr_rows_affected r) (Some p) (qr_message r)
    (qr_entry_id r) (qr_entry_sequence r) (qr_domain r) (qr_amount_sum r).
Definition qr_affected (n : nat) (message : string) : QueryResult :=
  mkQueryResult [] [] n None message None None None None.

(** [collect::<Result<_, _>>()]: the first error wins. *)
Fixpoint collect {E A} (rs : list (Result E A)) : Result E (list A) :=
  match rs with
  | [] => Ok []
  | r :: rs => a ← r; l ← collect rs; Ok (a :: l)
  end.

(** [project]: the named columns, in the order asked for; unknown names are
    ignored, and nothing changes when as many columns remain. *)
Definition project (keep : list string) (r : QueryResult) : Result SqlError QueryResult :=
  match keep with
  | [] => Ok r
  | _ =>
      let new_cols := filter (λ c, c ∈ qr_columns r) keep in
      if (length new_cols =? length (qr_columns r))%nat then Ok r
      else
        rows ← collect (map (λ row, Row_new new_cols (map (λ c, default VNull (row_get c row)) new_cols)) (qr_rows r));
        Ok (mkQueryResult new_cols rows (qr_rows_affected r) (qr_proof r) (qr_message r)
              (qr_entry_id r) (qr_entry_sequence r) (qr_domain r) (qr_amount_sum r))
  end.

(** ** Plans *)

Inductive JoinType := Inner | LeftOuter.
Inductive AggFn := AggSum | AggCount | AggAvg | AggMin | AggMax.
Record AggExpr := mkAggExpr { agg_func : AggFn; agg_column : string; agg_alias : string }.
Inductive WindowFn := RowNumber | Rank | DenseRank | RunningSum | RunningAvg | Lag | Lead.

#[global] Instance WindowFn_eq_dec : EqDecision WindowFn.
Proof. solve_decision. Defined.
#[global] Instance AggFn_eq_dec : EqDecision AggFn.
Proof. solve_decision. Defined.

Definition agg_name (f : AggFn) : string :=
  match f with AggSum => "SUM" | AggCount => "COUNT" | AggAvg => "AVG" | AggMin => "MIN" | AggMax => "MAX" end.
Definition window_name (f : WindowFn) : string :=
  match f with
  | RowNumber => "ROW_NUMBER" | Rank => "RANK" | DenseRank => "DENSE_RANK" | RunningSum => "SUM"
  | RunningAvg => "AVG" | Lag => "LAG" | Lead => "LEAD"
  end.

Record AccountSpec := mkAccountSpec {
  as_code : string; as_name : string; as_account_type : string; as_currency : string; as_domain : string
}.

Record EntrySpec := mkEntrySpec {
  es_description : string;
  es_debit_account : string;
  es_credit_account : string;
  es_amount : Z;
  es_currency : string;
  es_external_ref : option string;
  es_idempotency_key : option string;
  es_domain : string
}.

Inductive EntryFilter :=
  | BySequence (n : Z)
  | ByExternalRef (r : string)
  | ByDomain (d : string)
  | ByStatus (s : string)
  | ByDrCr (s : string)
  | Limit (n : Z)
  | ByAccountId (s : string)
  | ByAccountCode (s : string)
  | ByAccountName (s : string)
  | BySequenceIn (ns : list Z)
  | ByValueIn (column : string) (values : list string)
  | ByMetadataEq (s : string)
  | ByMetadataContains (s : string)
  | ByMetadataSearch (s : string).

Inductive LogicalPlan :=
  | ScanEntries (filter : option EntryFilter) (projections : list string)
  | ScanLedgerLines (filter : option EntryFilter) (projections : list string)
  | ScanAccounts (filter : option EntryFilter) (projections : list string)
  | GetBalance (account_ref : string)
  | VerifyChain (from_seq to_seq : option Z)
  | VerifyEntry (sequence : Z)
  | MerkleRoot (from_seq to_seq : Z)
  | Constant (col val : string)
  | PostEntry (spec : EntrySpec)
  | CreateAccount (spec : AccountSpec)
  | Join (left right : LogicalPlan) (join_type : JoinType) (on_condition : string) (projections : list string)
  | Aggregate (input : LogicalPlan) (group_by : list string) (aggregates : list AggExpr)
  | Window (input : LogicalPlan) (window_fn : WindowFn) (column alias : string) (partition_by order_by : list string).

(** ** The optimizer *)

Fixpoint predicate_pushdown (plan : LogicalPlan) : LogicalPlan :=
  match plan with
  | Join l r jt on ps => Join (predicate_pushdown l) (predicate_pushdown r) jt on ps
  | Aggregate i gb aggs => Aggregate (predicate_pushdown i) gb aggs
  | Window i f c a p o => Window (predicate_pushdown i) f c a p o
  | other => other
  end.

Fixpoint constant_fold (plan : LogicalPlan) : LogicalPlan :=
  match plan with
  | ScanEntries (Some (Limit 0)) projections => ScanEntries (Some (Limit 0)) projections
  | Join l r jt on ps => Join (constant_fold l) (constant_fold r) jt on ps
  | Aggregate i gb aggs => Aggregate (constant_fold i) gb aggs
  | Window i f c a p o => Window (constant_fold i) f c a p o
  | other => other
  end.

Definition optimize (plan : LogicalPlan) : LogicalPlan := constant_fold (predicate_pushdown plan).

(** Neither pass rewrites anything: the optimizer returns the plan it is
    given. *)
Lemma predicate_pushdown_id plan : predicate_pushdown plan = plan.
Proof. induction plan; cbn; congruence. Qed.

Lemma constant_fold_id plan : constant_fold plan = plan.
Proof.
  induction plan as [f ps| | | | | | | | | | | |]; cbn; try congruence.
  destruct f as [[]|]; try done. by case_match.
Qed.

Lemma optimize_id plan : optimize plan = plan.
Proof. unfold optimize. by rewrite predicate_pushdown_id, constant_fold_id. Qed.

(** ** Collecting *)

Lemma collect_Ok {E A} (rs : list (Result E A)) l : collect rs = Ok l ↔ Forall2 (λ r a, r = Ok a) rs l.
Proof.
  revert l. induction rs as [|r rs IH]; intros l; cbn.
  - split; [by intros [= <-]|]. by inversion 1.
  - split.
    + intros (a&->&(l'&Hl&[= <-])%res_bind_Ok)%res_bind_Ok. constructor; [done|]. by apply IH.
    + inversion 1 as [|? a ? l' -> Hl]; subst. apply IH in Hl. cbn. by rewrite Hl.
Qed.
