(* ===== verification/Store.v ===== *)
(** * vledger-ledger: the ledger store

    Models [crates/vledger-ledger/src/store.rs] and [wal_checkpoint.rs]: the
    chart of accounts, posting, reversal, settlement, legal holds,
    reconciliation, snapshots, verification, and the replay that rebuilds the
    store from the write-ahead log at startup.  The store owns a transaction
    manager ([Tx]), a page store ([Page]) and the SQLite index ([EntryDb]); its
    operations are computations over [LedgerStore]. *)

From stdpp Require Import base gmap list strings option fin_maps sorting pretty.
From Stdlib Require Import ZArith Lia Strings.Ascii.
From S2P Require Import Prelude Bytes Crypto Money Entry WalRecord Wal Recovery Tx Page EntryDb.

(** ** Events *)

Record ReversalEvent := mkReversalEvent {
  re_original_entry_id : Z;
  re_reversal_entry_id : Z;
  re_reversed_at : Z
}.

Record SettlementEvent := mkSettlementEvent {
  sv_entry_id : Z;
  sv_new_status : EntryStatus;
  sv_settled_at : Z;
  sv_notes : option string
}.

Record ReconciliationDiscrepancy := mkDiscrepancy {
  rd_account_id : Z;
  rd_account_code : string;
  rd_cached_balance : Z;
  rd_recomputed_balance : Z;
  rd_delta : Z
}.

Record ReconciliationRecord := mkReconciliation {
  rn_id : Z;
  rn_run_at : Z;
  rn_entries_scanned : Z;
  rn_accounts_checked : Z;
  rn_discrepancy_count : Z;
  rn_discrepancy_json : string;
  rn_ledger_sequence_at_run : Z;
  rn_chain_tip_at_run : string
}.

(** What the store takes from outside: the serializer, the text form of
    identifiers, digests and reports, and the iteration order of a hash map or
    hash set, which is some permutation of its elements. *)
Class LedgerExt := {
  reversal_codec :: Codec ReversalEvent;
  settlement_codec :: Codec SettlementEvent;
  reconciliation_codec :: Codec ReconciliationRecord;
  uuid_string : Z → string;
  hex_encode : bytes → string;
  discrepancy_json : list ReconciliationDiscrepancy → string;
  hash_order : ∀ {A : Type}, list A → list A;
  hash_order_perm : ∀ A (l : list A), hash_order l ≡ₚ l
}.

Record WalCheckpoint := mkWalCheckpoint {
  wc_sqlite_max_sequence : Z;
  wc_first_needed_segment : Z
}.

Definition TABLE_ACCOUNTS : Z := 0.
Definition TABLE_ENTRIES : Z := 1.
Definition TABLE_REVERSAL_EVENTS : Z := 2.
Definition TABLE_SETTLEMENT_EVENTS : Z := 3.
Definition TABLE_RECONCILIATION_EVENTS : Z := 4.
Definition DEFAULT_QUERY_LIMIT : Z := 10000.

Section store.
Context `{Blake3} `{Ed25519} `{WalExt} `{PageExt} `{LedgerCodecs} `{LedgerExt}.

(** ** State *)

Record LedgerStore := mkStore {
  ls_tx : TransactionManager;
  ls_pages : PageStore;
  ls_db : EntryDb;
  ls_accounts : gmap Z Account;
  ls_balance : gmap Z Z;
  ls_next_sequence : Z;
  ls_last_chain_hash : Hash;
  ls_reversals : gmap Z Z;
  ls_settlements : gmap Z EntryStatus;
  ls_recon : list ReconciliationRecord;
  ls_holds : gset Z;
  ls_currencies : gmap string Currency;
  ls_next_account_page : Z;
  ls_next_entry_page : Z;
  ls_checkpoint : option WalCheckpoint;      (* [wal-checkpoint.json] *)
  ls_last_bytes : option bytes
}.

Definition s_tx x s := mkStore x (ls_pages s) (ls_db s) (ls_accounts s) (ls_balance s) (ls_next_sequence s) (ls_last_chain_hash s) (ls_reversals s) (ls_settlements s) (ls_recon s) (ls_holds s) (ls_currencies s) (ls_next_account_page s) (ls_next_entry_page s) (ls_checkpoint s) (ls_last_bytes s).
Definition s_pages x s := mkStore (ls_tx s) x (ls_db s) (ls_accounts s) (ls_balance s) (ls_next_sequence s) (ls_last_chain_hash s) (ls_reversals s) (ls_settlements s) (ls_recon s) (ls_holds s) (ls_currencies s) (ls_next_account_page s) (ls_next_entry_page s) (ls_checkpoint s) (ls_last_bytes s).
Definition s_db x s := mkStore (ls_tx s) (ls_pages s) x (ls_accounts s) (ls_balance s) (ls_next_sequence s) (ls_last_chain_hash s) (ls_reversals s) (ls_settlements s) (ls_recon s) (ls_holds s) (ls_currencies s) (ls_next_account_page s) (ls_next_entry_page s) (ls_checkpoint s) (ls_last_bytes s).
Definition s_accounts x s := mkStore (ls_tx s) (ls_pages s) (ls_db s) x (ls_balance s) (ls_next_sequence s) (ls_last_chain_hash s) (ls_reversals s) (ls_settlements s) (ls_recon s) (ls_holds s) (ls_currencies s) (ls_next_account_page s) (ls_next_entry_page s) (ls_checkpoint s) (ls_last_bytes s).
Definition s_balance x s := mkStore (ls_tx s) (ls_pages s) (ls_db s) (ls_accounts s) x (ls_next_sequence s) (ls_last_chain_hash s) (ls_reversals s) (ls_settlements s) (ls_recon s) (ls_holds s) (ls_currencies s) (ls_next_account_page s) (ls_next_entry_page s) (ls_checkpoint s) (ls_last_bytes s).
Definition s_next_sequence x s := mkStore (ls_tx s) (ls_pages s) (ls_db s) (ls_accounts s) (ls_balance s) x (ls_last_chain_hash s) (ls_reversals s) (ls_settlements s) (ls_recon s) (ls_holds s) (ls_currencies s) (ls_next_account_page s) (ls_next_entry_page s) (ls_checkpoint s) (ls_last_bytes s).
Definition s_last_chain_hash x s := mkStore (ls_tx s) (ls_pages s) (ls_db s) (ls_accounts s) (ls_balance s) (ls_next_sequence s) x (ls_reversals s) (ls_settlements s) (ls_recon s) (ls_holds s) (ls_currencies s) (ls_next_account_page s) (ls_next_entry_page s) (ls_checkpoint s) (ls_last_bytes s).
Definition s_reversals x s := mkStore (ls_tx s) (ls_pages s) (ls_db s) (ls_accounts s) (ls_balance s) (ls_next_sequence s) (ls_last_chain_hash s) x (ls_settlements s) (ls_recon s) (ls_holds s) (ls_currencies s) (ls_next_account_page s) (ls_next_entry_page s) (ls_checkpoint s) (ls_last_bytes s).
Definition s_settlements x s := mkStore (ls_tx s) (ls_pages s) (ls_db s) (ls_accounts s) (ls_balance s) (ls_next_sequence s) (ls_last_chain_hash s) (ls_reversals s) x (ls_recon s) (ls_holds s) (ls_currencies s) (ls_next_account_page s) (ls_next_entry_page s) (ls_checkpoint s) (ls_last_bytes s).
Definition s_recon x s := mkStore (ls_tx s) (ls_pages s) (ls_db s) (ls_accounts s) (ls_balance s) (ls_next_sequence s) (ls_last_chain_hash s) (ls_reversals s) (ls_settlements s) x (ls_holds s) (ls_currencies s) (ls_next_account_page s) (ls_next_entry_page s) (ls_checkpoint s) (ls_last_bytes s).
Definition s_holds x s := mkStore (ls_tx s) (ls_pages s) (ls_db s) (ls_accounts s) (ls_balance s) (ls_next_sequence s) (ls_last_chain_hash s) (ls_reversals s) (ls_settlements s) (ls_recon s) x (ls_currencies s) (ls_next_account_page s) (ls_next_entry_page s) (ls_checkpoint s) (ls_last_bytes s).
Definition s_currencies x s := mkStore (ls_tx s) (ls_pages s) (ls_db s) (ls_accounts s) (ls_balance s) (ls_next_sequence s) (ls_last_chain_hash s) (ls_reversals s) (ls_settlements s) (ls_recon s) (ls_holds s) x (ls_next_account_page s) (ls_next_entry_page s) (ls_checkpoint s) (ls_last_bytes s).
Definition s_next_account_page x s := mkStore (ls_tx s) (ls_pages s) (ls_db s) (ls_accounts s) (ls_balance s) (ls_next_sequence s) (ls_last_chain_hash s) (ls_reversals s) (ls_settlements s) (ls_recon s) (ls_holds s) (ls_currencies s) x (ls_next_entry_page s) (ls_checkpoint s) (ls_last_bytes s).
Definition s_next_entry_page x s := mkStore (ls_tx s) (ls_pages s) (ls_db s) (ls_accounts s) (ls_balance s) (ls_next_sequence s) (ls_last_chain_hash s) (ls_reversals s) (ls_settlements s) (ls_recon s) (ls_holds s) (ls_currencies s) (ls_next_account_page s) x (ls_checkpoint s) (ls_last_bytes s).
Definition s_checkpoint x s := mkStore (ls_tx s) (ls_pages s) (ls_db s) (ls_accounts s) (ls_balance s) (ls_next_sequence s) (ls_last_chain_hash s) (ls_reversals s) (ls_settlements s) (ls_recon s) (ls_holds s) (ls_currencies s) (ls_next_account_page s) (ls_next_entry_page s) x (ls_last_bytes s).
Definition s_last_bytes x s := mkStore (ls_tx s) (ls_pages s) (ls_db s) (ls_accounts s) (ls_balance s) (ls_next_sequence s) (ls_last_chain_hash s) (ls_reversals s) (ls_settlements s) (ls_recon s) (ls_holds s) (ls_currencies s) (ls_next_account_page s) (ls_next_entry_page s) (ls_checkpoint s) x.

Notation LM := (M LedgerStore LedgerError).

(** Operations of the components the store owns. *)
Definition tx_op {A} (m : TM A) : LM A := map_err (λ _, TransactionErr) (zoom ls_tx s_tx m).
Definition page_op {A} (m : PSM A) : LM A := map_err (λ _, Serialization "page_store") (zoom ls_pages s_pages m).
Definition db_op {A} (m : DbM A) : LM A := zoom ls_db s_db m.
(** [if let Err(e) = .. { warn!(..) }] *)
Definition db_try {A} (m : DbM A) : LM (Result LedgerError A) := attempt (db_op m).

Definition encode_row {T} `{Codec T} (v : T) : Result LedgerError bytes :=
  ok_or (enc v) (Serialization "encode").
Definition decode_row {T} `{Codec T} (bs : bytes) : Result LedgerError T :=
  ok_or (dec bs) (Serialization "decode").

(** ** Durable writes *)

Definition write_to_page (table_id : Z) (row_data : bytes) (cursor : Z) : LM (Z * Z * Z) :=
  page ← liftR (res_map_err (λ _, PageErr) (Page_new cursor table_id));
  sp ← liftR (res_map_err (λ _, Serialization "page write_slot") (write_slot row_data page));
  page ← liftR (res_map_err (λ _, PageErr) (seal sp.2));
  _ ← page_op (write_page page);
  mret (cursor, sp.1, wadd_u64 cursor 1).

Definition cursor_of (table_id : Z) (s : LedgerStore) : Z :=
  if table_id =? TABLE_ACCOUNTS then ls_next_account_page s else ls_next_entry_page s.
Definition set_cursor (table_id c : Z) (s : LedgerStore) : LedgerStore :=
  if table_id =? TABLE_ACCOUNTS then s_next_account_page c s else s_next_entry_page c s.

Definition persist_row (table_id : Z) (row_data : bytes) (mutation : MutationKind)
    (prev_hash : option Hash) : LM (Z * Z) :=
  cursor ← gets (cursor_of table_id);
  psn ← write_to_page table_id row_data cursor;
  let '(page_id, slot_id, next_cursor) := psn in
  _ ← modify (set_cursor table_id next_cursor);
  tx_id ← tx_op (begin None);
  _ ← tx_op (add_mutation tx_id table_id page_id slot_id mutation row_data prev_hash);
  _ ← tx_op (commit tx_id);
  mret (page_id, slot_id).

Definition persist_row_pair (table_a : Z) (data_a : bytes) (prev_a : option Hash)
    (table_b : Z) (data_b : bytes) : LM unit :=
  cursor_a ← gets ls_next_entry_page;
  a ← write_to_page table_a data_a cursor_a;
  let '(page_id_a, slot_id_a, next_a) := a in
  _ ← modify (s_next_entry_page next_a);
  cursor_b ← gets ls_next_entry_page;
  b ← write_to_page table_b data_b cursor_b;
  let '(page_id_b, slot_id_b, next_b) := b in
  _ ← modify (s_next_entry_page next_b);
  tx_id ← tx_op (begin (Some "reversal"%string));
  _ ← tx_op (add_mutation tx_id table_a page_id_a slot_id_a Insert data_a prev_a);
  _ ← tx_op (add_mutation tx_id table_b page_id_b slot_id_b Insert data_b None);
  tx_op (commit tx_id).

(** ** In-memory state *)

Definition apply_account (a : Account) (s : LedgerStore) : LedgerStore :=
  s_accounts (<[acc_id a := a]> (ls_accounts s))
    (s_holds (if legal_hold a then {[acc_id a]} ∪ ls_holds s else ls_holds s ∖ {[acc_id a]}) s).

Definition update_balance_cache (account_id amount : Z) (dr_cr : DrCr) (s : LedgerStore) : LedgerStore :=
  match ls_accounts s !! account_id with
  | None => s
  | Some acct =>
      let delta :=
        if is_debit_normal (account_type acct)
        then match dr_cr with Debit => amount | Credit => - amount end
        else match dr_cr with Credit => amount | Debit => - amount end in
      s_balance (add_to account_id delta (ls_balance s)) s
  end.

(** [for line in &entry.lines { self.update_balance_cache(..) }] *)
Definition apply_lines (ls : list JournalLine) (s : LedgerStore) : LedgerStore :=
  foldl (λ s l, update_balance_cache (ln_account_id l) (amount_i128 (ln_amount l)) (ln_dr_cr l) s) s ls.

Definition apply_balances (e : JournalEntry) (s : LedgerStore) : LedgerStore :=
  if affects_balance (e_status e) then apply_lines (e_lines e) s else s.

(** Insert the entry and, when that succeeded, its account cross-references,
    ignoring errors. *)
Definition index_lines (e : JournalEntry) : LM unit :=
  forM (λ l, _ ← db_try (insert_account_entry (ln_account_id l) (e_sequence e)); mret tt) (e_lines e).

Definition index_insert (e : JournalEntry) : LM unit :=
  r ← db_try (insert e);
  match r with Ok _ => index_lines e | Err _ => mret tt end.

Definition index_entry (e : JournalEntry) : LM unit :=
  _ ← db_try ensure_account_entries_table;
  index_insert e.

Definition apply_entry (e : JournalEntry) : LM unit :=
  _ ← modify (λ s,
        let next := if ls_next_sequence s <=? e_sequence e then wadd_u64 (e_sequence e) 1 else ls_next_sequence s in
        apply_balances e (s_last_chain_hash (e_chain_hash e) (s_next_sequence next s)));
  _ ← index_entry e;
  modify (λ s, s_next_entry_page (wadd_u64 (ls_next_entry_page s) 1) s).

(** ** Accounts *)

Definition create_account (a : Account) : LM Z :=
  bs ← liftR (encode_row a);
  _ ← persist_row TABLE_ACCOUNTS bs Insert None;
  _ ← db_try (upsert_account a);
  _ ← modify (apply_account a);
  mret (acc_id a).

Definition get_account (id : Z) (s : LedgerStore) : option Account := ls_accounts s !! id.

Definition close_account (id : Z) : LM unit :=
  accts ← gets ls_accounts;
  acct ← liftR (ok_or (accts !! id) (AccountNotFound id));
  let acct := set_status Closed acct in
  _ ← modify (λ s, s_accounts (<[id := acct]> (ls_accounts s)) s);
  bs ← liftR (encode_row acct);
  _ ← persist_row TABLE_ACCOUNTS bs Delete None;
  accts ← gets ls_accounts;
  match accts !! id with
  | Some a => _ ← db_try (upsert_account a); mret tt
  | None => mret tt
  end.

(** ** Posting *)

Definition balance (account_id : Z) (s : LedgerStore) : Z := default 0 (ls_balance s !! account_id).

(** One round of the per-line validation loop of [post_entry]. *)
Definition check_line (s : LedgerStore) (approved_by : option string) (l : JournalLine)
    : Result LedgerError unit :=
  acct ← ok_or (ls_accounts s !! ln_account_id l) (AccountNotFound (ln_account_id l));
  if negb (is_active acct) then Err (AccountClosed (ln_account_id l))
  else if legal_hold acct then Err (AccountUnderLegalHold (ln_account_id l))
  else if negb (bool_decide (currency_code acct = ln_currency_code l))
  then Err (CurrencyMismatch (currency_code acct) (ln_currency_code l))
  else
    _ ← match registry_precision (ls_currencies s) (ln_currency_code l) with
        | Some precision =>
            if exceeds_precision precision (ln_amount l)
            then Err (PrecisionViolation (ln_currency_code l) precision (amount_i64 (ln_amount l)) (max_minor precision))
            else Ok tt
        | None => Ok tt
        end;
    if require_four_eyes acct && bool_decide (approved_by = None) then Err FourEyesRequired
    else Ok tt.

(** [for x in xs { f(x)?; }] without effects *)
Fixpoint check_all {A} (f : A → Result LedgerError unit) (xs : list A) : Result LedgerError unit :=
  match xs with [] => Ok tt | x :: xs => _ ← f x; check_all f xs end.

Definition net_debit_delta (ls : list JournalLine) : gmap Z Z :=
  foldl (λ m l, add_to (ln_account_id l) (net_debit_of l) m) ∅ ls.
Definition total_debit (ls : list JournalLine) : gmap Z Z :=
  foldl (λ m l, match ln_dr_cr l with
                | Debit => add_to (ln_account_id l) (amount_i128 (ln_amount l)) m
                | Credit => m end) ∅ ls.

(** One round of the aggregate loop: exposure limit, then balance. *)
Definition check_account (s : LedgerStore) (debits : gmap Z Z) (ad : Z * Z) : Result LedgerError unit :=
  let '(account_id, delta) := ad in
  acct ← ok_or (ls_accounts s !! account_id) (AccountNotFound account_id);
  _ ← match exposure_limit acct with
      | Some limit =>
          let agg := default 0 (debits !! account_id) in
          if limit <? agg then Err (ExposureLimitExceeded account_id limit agg) else Ok tt
      | None => Ok tt
      end;
  if require_non_negative_balance acct && is_debit_normal (account_type acct) && (delta <? 0) then
    let current := balance account_id s in
    if current + delta <? 0 then Err (InsufficientFunds account_id current (- delta)) else Ok tt
  else Ok tt.

Definition post_checks (s : LedgerStore) (e : JournalEntry) : Result LedgerError unit :=
  _ ← check_all (check_line s (e_approved_by e)) (e_lines e);
  check_all (check_account s (total_debit (e_lines e)))
    (hash_order (map_to_list (net_debit_delta (e_lines e)))).

(** The idempotency check: the sequence to return, when the key is known. *)
Definition posted_before (e : JournalEntry) : LM (option Z) :=
  match e_idempotency_key e with
  | None => mret None
  | Some key =>
      r ← db_try (idempotency_key_exists key);
      if res_unwrap_or false r then
        q ← db_try (sequence_for_idempotency_key key);
        mret (Some (default 0 (res_unwrap_or None q)))
      else mret None
  end.

(** [fetch_add(1)] on the sequence counter *)
Definition take_sequence : LM Z :=
  seq ← gets ls_next_sequence;
  _ ← modify (s_next_sequence (wadd_u64 seq 1));
  mret seq.

(** Steps 5 to 7 of [post_entry]. *)
Definition commit_entry (e : JournalEntry) : LM Z :=
  seq ← take_sequence;
  t ← now;
  tip ← gets ls_last_chain_hash;
  let e := finalize_chain_hash tip (set_posting seq t e) in
  bs ← liftR (encode_row e);
  _ ← persist_row TABLE_ENTRIES bs Insert (Some (e_prev_hash e));
  _ ← modify (s_last_bytes (Some bs));
  _ ← modify (s_last_chain_hash (e_chain_hash e));
  _ ← modify (apply_balances e);
  _ ← index_entry e;
  mret seq.

Definition post_entry (e : JournalEntry) : LM Z :=
  _ ← liftR (validate e);
  dup ← posted_before e;
  match dup with
  | Some seq => mret seq
  | None =>
      s ← gets id;
      _ ← liftR (post_checks s e);
      commit_entry e
  end.

(** ** Import *)

Definition import_check_line (s : LedgerStore) (l : JournalLine) : Result LedgerError unit :=
  acct ← ok_or (ls_accounts s !! ln_account_id l) (AccountNotFound (ln_account_id l));
  if negb (is_active acct) then Err (AccountClosed (ln_account_id l))
  else if negb (bool_decide (currency_code acct = ln_currency_code l))
  then Err (CurrencyMismatch (currency_code acct) (ln_currency_code l))
  else Ok tt.

Definition import_entry_direct (e : JournalEntry) : LM Z :=
  _ ← liftR (validate e);
  r ← match e_idempotency_key e with
      | Some key => db_try (idempotency_key_exists key)
      | None => mret (Ok false)
      end;
  if res_unwrap_or false r then mret 0
  else
    s ← gets id;
    _ ← liftR (check_all (import_check_line s) (e_lines e));
    seq ← take_sequence;
    t ← now;
    tip ← gets ls_last_chain_hash;
    let e := finalize_chain_hash tip (set_posting seq t e) in
    bs ← liftR (encode_row e);
    _ ← persist_row TABLE_ENTRIES bs Insert (Some (e_prev_hash e));
    _ ← modify (s_last_chain_hash (e_chain_hash e));
    mret seq.

(** ** Reversal *)

Definition flip (d : DrCr) : DrCr := match d with Debit => Credit | Credit => Debit end.

(** The mirror lines, each under a fresh identifier. *)
Fixpoint reversal_lines (ls : list JournalLine) : LM (list JournalLine) :=
  match ls with
  | [] => mret []
  | l :: ls =>
      id ← rand;
      rest ← reversal_lines ls;
      mret (mkLine id (ln_account_id l) (ln_currency_code l) (ln_amount l) (flip (ln_dr_cr l))
              (Some ("Reversal of line " +:+ uuid_string (ln_id l))) :: rest)
  end.

(** The sequence of the last streamed entry with this id. *)
Definition find_sequence (entry_id : Z) : LM (option Z) :=
  r ← db_op (stream_all (λ e acc, Ok (if bool_decide (e_id e = entry_id) then Some (e_sequence e) else acc)) None);
  mret r.1.

(** The checks before a reversal is built. *)
Definition reverse_checks (s : LedgerStore) (entry_id : Z) (original : JournalEntry) : Result LedgerError unit :=
  if negb (bool_decide (e_status original = Posted)) then Err (CannotReverse entry_id (e_status original))
  else
    _ ← check_all (λ l, if bool_decide (ln_account_id l ∈ ls_holds s)
                        then Err (AccountUnderLegalHold (ln_account_id l)) else Ok tt) (e_lines original);
    match ls_reversals s !! entry_id with
    | Some reversal_id => Err (AlreadyReversed entry_id reversal_id)
    | None => Ok tt
    end.

(** The reversal entry before it is given a sequence number. *)
Definition reversal_of (id entry_id effective posted : Z) (description domain : string)
    (ls : list JournalLine) : JournalEntry :=
  mkEntry id 0 Reversal description ls effective posted None None (Some entry_id) None domain
    ZERO_HASH ZERO_HASH ZERO_HASH None None.

Definition build_reversal (entry_id : Z) (original : JournalEntry) (description domain : string)
    : LM JournalEntry :=
  ls ← reversal_lines (e_lines original);
  id ← rand;
  effective ← now;
  posted ← now;
  mret (reversal_of id entry_id effective posted description domain ls).

Definition commit_reversal (entry_id : Z) (reversal : JournalEntry) : LM Z :=
  seq ← take_sequence;
  t ← now;
  tip ← gets ls_last_chain_hash;
  let reversal := finalize_hashes tip (set_posting seq t reversal) in
  let event := mkReversalEvent entry_id (e_id reversal) (e_posted_at reversal) in
  reversal_bytes ← liftR (encode_row reversal);
  event_bytes ← liftR (encode_row event);
  _ ← persist_row_pair TABLE_ENTRIES reversal_bytes (Some (e_prev_hash reversal))
        TABLE_REVERSAL_EVENTS event_bytes;
  _ ← modify (s_last_chain_hash (e_chain_hash reversal));
  _ ← modify (λ s, s_reversals (<[entry_id := e_id reversal]> (ls_reversals s)) s);
  _ ← modify (apply_lines (e_lines reversal));
  _ ← index_entry reversal;
  mret (e_id reversal).

Definition reverse_entry (entry_id : Z) (description domain : string) : LM Z :=
  found ← find_sequence entry_id;
  seq ← liftR (ok_or found (EntryNotFound entry_id));
  o ← db_op (get_by_sequence seq);
  original ← liftR (ok_or o (EntryNotFound entry_id));
  s ← gets id;
  _ ← liftR (reverse_checks s entry_id original);
  reversal ← build_reversal entry_id original description domain;
  commit_reversal entry_id reversal.

Definition is_reversed (entry_id : Z) (s : LedgerStore) : bool := bool_decide (is_Some (ls_reversals s !! entry_id)).
Definition reversed_by (entry_id : Z) (s : LedgerStore) : option Z := ls_reversals s !! entry_id.

(** ** Settlement *)

Definition apply_settlement_event (entry_id : Z) (new_status : EntryStatus) (notes : option string) : LM unit :=
  r ← db_op (stream_all (λ e acc, Ok (if bool_decide (e_id e = entry_id) then Some (e_lines e) else acc)) None);
  lines ← liftR (ok_or r.1 (EntryNotFound entry_id));
  s ← gets id;
  _ ← liftR (check_all (λ l, if bool_decide (ln_account_id l ∈ ls_holds s)
                             then Err (AccountUnderLegalHold (ln_account_id l)) else Ok tt) lines);
  t ← now;
  bs ← liftR (encode_row (mkSettlementEvent entry_id new_status t notes));
  _ ← persist_row TABLE_SETTLEMENT_EVENTS bs Insert None;
  modify (λ s, s_settlements (<[entry_id := new_status]> (ls_settlements s)) s).

Definition mark_pending (entry_id : Z) (notes : option string) := apply_settlement_event entry_id Pending notes.
Definition mark_settled (entry_id : Z) (notes : option string) := apply_settlement_event entry_id Settled notes.
Definition mark_failed (entry_id : Z) (notes : option string) := apply_settlement_event entry_id Failed notes.

Definition effective_status (entry_id : Z) : LM EntryStatus :=
  s ← gets id;
  match ls_settlements s !! entry_id with
  | Some st => mret st
  | None =>
      if is_reversed entry_id s then mret Reversed
      else
        r ← db_op (stream_all (λ e acc, Ok (if bool_decide (e_id e = entry_id) then e_status e else acc)) Posted);
        mret r.1
  end.

(** ** Legal holds *)

Definition set_legal_hold (account_id : Z) (hold : bool) : LM unit :=
  accts ← gets ls_accounts;
  acct ← liftR (ok_or (accts !! account_id) (AccountNotFound account_id));
  let acct := set_hold hold acct in
  _ ← modify (λ s, s_accounts (<[account_id := acct]> (ls_accounts s)) s);
  bs ← liftR (encode_row acct);
  _ ← persist_row TABLE_ACCOUNTS bs Delete None;
  modify (λ s, s_holds (if hold then {[account_id]} ∪ ls_holds s else ls_holds s ∖ {[account_id]}) s).

Definition place_legal_hold (account_id : Z) := set_legal_hold account_id true.
Definition lift_legal_hold (account_id : Z) := set_legal_hold account_id false.
Definition is_under_legal_hold (account_id : Z) (s : LedgerStore) : bool := bool_decide (account_id ∈ ls_holds s).

(** ** Reconciliation *)

(** One streamed entry of [reconcile]; a line on an unknown account is
    skipped. *)
Definition recompute_entry (accounts : gmap Z Account) (e : JournalEntry) (m : gmap Z Z) : gmap Z Z :=
  if affects_balance (e_status e) then
    foldl (λ m l, match accounts !! ln_account_id l with
                  | None => m
                  | Some a => add_to (ln_account_id l) (net_debit_of l * normal_balance_sign (account_type a)) m
                  end) m (e_lines e)
  else m.

Definition discrepancy (s : LedgerStore) (recomputed : gmap Z Z) (id : Z) : option ReconciliationDiscrepancy :=
  let cached := balance id s in
  let computed := default 0 (recomputed !! id) in
  if cached =? computed then None
  else Some (mkDiscrepancy id (match ls_accounts s !! id with Some a => acc_code a | None => uuid_string id end)
               cached computed (computed - cached)).

Definition reconcile : LM (list ReconciliationDiscrepancy) :=
  s ← gets id;
  r ← db_op (stream_all (λ e m, Ok (recompute_entry (ls_accounts s) e m)) ∅);
  let all_ids := hash_order (elements (dom (ls_accounts s) ∪ dom (ls_balance s))) in
  mret (omap (discrepancy s r.1) all_ids).

Definition reconcile_and_record : LM (list ReconciliationDiscrepancy * ReconciliationRecord) :=
  ds ← reconcile;
  c ← db_try count;
  s ← gets id;
  id ← rand;
  t ← now;
  let record := mkReconciliation id t (res_unwrap_or 0 c) (Z.of_nat (size (ls_accounts s)))
    (Z.of_nat (length ds)) (discrepancy_json ds) (sat_sub (ls_next_sequence s) 1)
    (hex_encode (ls_last_chain_hash s)) in
  bs ← liftR (encode_row record);
  _ ← persist_row TABLE_RECONCILIATION_EVENTS bs Insert None;
  mret (ds, record).

(** ** The accounting equation *)

(** The sum of the balances of the accounts selected by [P]. *)
Definition sum_balances (P : AccountType → bool) (s : LedgerStore) (accts : list Account) : Z :=
  foldl (λ n a, if P (account_type a) then n + balance (acc_id a) s else n) 0 accts.

Definition is_credit_normal (t : AccountType) : bool :=
  match t with Liability | Equity | Income => true | _ => false end.

Definition check_financial_invariants (s : LedgerStore) : Result (Z * Z) unit :=
  let accts := hash_order (map snd (map_to_list (ls_accounts s))) in
  let debit_normal_sum := sum_balances is_debit_normal s accts in
  let credit_normal_sum := sum_balances is_credit_normal s accts in
  if debit_normal_sum =? credit_normal_sum then Ok tt else Err (debit_normal_sum, credit_normal_sum).

Definition register_currency (c : Currency) : LM unit :=
  modify (λ s, s_currencies (register c (ls_currencies s)) s).

(** ** Verification *)

Definition chain_error (bad : option (Z * bool)) : Result LedgerError unit :=
  match bad with
  | None => Ok tt
  | Some (seq, true) => Err (Serialization ("Hash chain broken at sequence " +:+ pretty seq))
  | Some (seq, false) => Err (Serialization ("Chain linkage broken at sequence " +:+ pretty seq))
  end.

(** The closure of [verify_chain_integrity]: the state is [prev_hash]. *)
Definition verify_step (e : JournalEntry) (prev : Hash) : Result LedgerError Hash :=
  _ ← chain_error (verify_entries prev [e]);
  Ok (e_chain_hash e).

Definition verify_chain_integrity : LM unit :=
  r ← db_op (stream_all verify_step ZERO_HASH);
  liftR r.2.

Definition verify_chain_range (from_seq to_seq : option Z) : LM (nat * Hash) :=
  entries ← db_op (scan_range (default 1 from_seq) (default U64_MAX to_seq));
  match entries with
  | [] => mret (0%nat, ZERO_HASH)
  | e :: _ =>
      _ ← liftR (chain_error (verify_entries (e_prev_hash e) entries));
      mret (length entries, tip ZERO_HASH entries)
  end.

(** ** Queries *)

(** Lower case, then the first letter in upper case. *)
Definition ascii_lower (c : ascii) : ascii :=
  let n := Ascii.N_of_ascii c in
  if ((65 <=? n) && (n <=? 90))%N then Ascii.ascii_of_N (n + 32) else c.
Fixpoint to_lowercase (s : string) : string :=
  match s with EmptyString => EmptyString | String c s => String (ascii_lower c) (to_lowercase s) end.
Definition normalise_status (s : string) : string :=
  match to_lowercase s with
  | EmptyString => EmptyString
  | String c rest => String (ascii_upper c) rest
  end.

Definition account_entries (account_id : Z) : LM (list JournalEntry) :=
  r ← db_try (entries_for_account account_id); mret (res_unwrap_or [] r).
Definition entry_count : LM Z := r ← db_try count; mret (res_unwrap_or 0 r).
Definition entries_by_domain (domain : string) : LM (list JournalEntry) :=
  r ← db_try (scan_by_domain domain DEFAULT_QUERY_LIMIT 0); mret (res_unwrap_or [] r).
Definition entries_by_domain_limited (domain : string) (lim : Z) : LM (list JournalEntry) :=
  r ← db_try (scan_by_domain domain lim 0); mret (res_unwrap_or [] r).
Definition entries_by_status (status : string) : LM (list JournalEntry) :=
  r ← db_try (scan_by_status (normalise_status status) DEFAULT_QUERY_LIMIT 0); mret (res_unwrap_or [] r).
Definition entries_by_status_limited (status : string) (lim : Z) : LM (list JournalEntry) :=
  r ← db_try (scan_by_status (normalise_status status) lim 0); mret (res_unwrap_or [] r).
Definition entries_in_range (from_seq to_seq : Z) : LM (list JournalEntry) :=
  r ← db_try (scan_range from_seq to_seq); mret (res_unwrap_or [] r).
Definition entries_by_external_ref (ref : string) : LM (list JournalEntry) :=
  r ← db_try (scan_by_external_ref ref DEFAULT_QUERY_LIMIT); mret (res_unwrap_or [] r).
Definition entries_scan (lim : Z) : LM (list JournalEntry) :=
  r ← db_try (scan None None lim 0); mret (res_unwrap_or [] r).
Definition get_entry_by_sequence (seq : Z) : LM (option JournalEntry) :=
  r ← db_try (get_by_sequence seq); mret (res_unwrap_or None r).

(** For tests and the self-test command: change a stored description and
    leave the hashes alone. *)
Definition set_description (d : string) (e : JournalEntry) : JournalEntry :=
  mkEntry (e_id e) (e_sequence e) (e_status e) d (e_lines e) (e_effective_at e) (e_posted_at e)
    (e_external_ref e) (e_idempotency_key e) (e_reverses_entry_id e) (e_reversed_by_entry_id e) (e_domain e)
    (e_content_hash e) (e_prev_hash e) (e_chain_hash e) (e_approved_by e) (e_metadata e).

Definition tamper_entry_for_demo (seq : Z) (new_description : string) : LM bool :=
  r ← db_try (get_by_sequence seq);
  match r with
  | Ok (Some e) =>
      match encode_entry (set_description new_description e) with
      | Ok data => t ← db_try (tamper_replace seq data); mret (res_unwrap_or false t)
      | Err _ => mret false
      end
  | _ => mret false
  end.

Definition checkpoint_store : LM Z :=
  root ← map_err (λ _, Serialization "merkle") (page_op (table_merkle_root TABLE_ENTRIES));
  tx_op (checkpoint_signed root).

(** ** Snapshots *)

Definition current_snapshot (s : LedgerStore) : Z := sat_sub (ls_next_sequence s) 1.

Definition balance_at_snapshot (account_id snapshot_seq : Z) : LM Z :=
  s ← gets id;
  match ls_accounts s !! account_id with
  | None => mret 0
  | Some acct =>
      r ← db_try (entries_for_account account_id);
      mret (foldl (λ n e,
        if (snapshot_seq <? e_sequence e) || negb (affects_balance (e_status e)) then n
        else foldl (λ n l, if bool_decide (ln_account_id l = account_id)
                           then n + line_delta (account_type acct) l else n) n (e_lines e))
        0 (res_unwrap_or [] r))
  end.

Definition entries_at_snapshot (snapshot_seq : Z) : LM (list JournalEntry) := entries_in_range 1 snapshot_seq.

(** ** Replay *)

(** The local variables of [replay_from_wal_mode] that the callback updates. *)
Record ReplayVars := mkVars {
  rv_sqlite_is_current : bool;
  rv_bulk_open : bool
}.

Notation RM := (M (LedgerStore * ReplayVars) LedgerError).

Definition on_store {A} (m : LM A) : RM A := zoom fst (λ s sv, (s, sv.2)) m.

(** Advance the sequence counter past a replayed entry, and the chain tip. *)
Definition note_entry (e : JournalEntry) (s : LedgerStore) : LedgerStore :=
  let next := if ls_next_sequence s <=? e_sequence e then wadd_u64 (e_sequence e) 1 else ls_next_sequence s in
  s_last_chain_hash (e_chain_hash e) (s_next_sequence next s).

Definition bump_entry_page (s : LedgerStore) : LedgerStore :=
  s_next_entry_page (wadd_u64 (ls_next_entry_page s) 1) s.

(** Open the bulk transaction if it is not, then index the entry. *)
Definition replay_index (e : JournalEntry) : RM unit :=
  bulk ← gets (λ sv, rv_bulk_open sv.2);
  _ ← (if (bulk : bool) then mret tt
       else r ← on_store (db_try begin_bulk);
            if is_ok r then modify (λ sv, (sv.1, mkVars (rv_sqlite_is_current sv.2) true)) else mret tt);
  on_store (index_insert e).

(** The [TABLE_ENTRIES] branch of the callback. *)
Definition replay_entry (import_mode : bool) (sqlite_max_seq : Z) (row : bytes) : RM unit :=
  e ← liftR (decode_row (T:=JournalEntry) row);
  if import_mode then on_store (modify (λ s, bump_entry_page (note_entry e s)))
  else
    current ← gets (λ sv, rv_sqlite_is_current sv.2);
    if (current : bool) then
      if sqlite_max_seq <? e_sequence e then
        _ ← modify (λ sv, (sv.1, mkVars false (rv_bulk_open sv.2)));
        _ ← on_store (modify (λ s, bump_entry_page (apply_balances e (note_entry e s))));
        replay_index e
      else on_store (modify (λ s, bump_entry_page (note_entry e s)))
    else
      _ ← on_store (modify (λ s, bump_entry_page (apply_balances e (note_entry e s))));
      if e_sequence e <=? sqlite_max_seq then mret tt else replay_index e.

(** One data payload of a committed transaction. *)
Definition replay_payload (import_mode : bool) (sqlite_max_seq : Z) (p : DataPayload) : RM unit :=
  let t := dp_table_id p in
  match dp_mutation p with
  | Insert | Update =>
      if t =? TABLE_ACCOUNTS then
        a ← liftR (decode_row (T:=Account) (dp_row_data p));
        on_store (modify (apply_account a))
      else if t =? TABLE_ENTRIES then replay_entry import_mode sqlite_max_seq (dp_row_data p)
      else if t =? TABLE_REVERSAL_EVENTS then
        ev ← liftR (decode_row (T:=ReversalEvent) (dp_row_data p));
        on_store (modify (λ s, s_reversals (<[re_original_entry_id ev := re_reversal_entry_id ev]> (ls_reversals s)) s))
      else if t =? TABLE_SETTLEMENT_EVENTS then
        ev ← liftR (decode_row (T:=SettlementEvent) (dp_row_data p));
        on_store (modify (λ s, s_settlements (<[sv_entry_id ev := sv_new_status ev]> (ls_settlements s)) s))
      else if t =? TABLE_RECONCILIATION_EVENTS then
        rn ← liftR (decode_row (T:=ReconciliationRecord) (dp_row_data p));
        on_store (modify (λ s, s_recon (ls_recon s ++ [rn]) s))
      else mret tt
  | Delete =>
      if t =? TABLE_ACCOUNTS then
        a ← liftR (decode_row (T:=Account) (dp_row_data p));
        on_store (modify (apply_account a))
      else mret tt
  end.

Definition replay_tx (import_mode : bool) (sqlite_max_seq : Z) (ct : CommittedTransaction) : RM unit :=
  forM (replay_payload import_mode sqlite_max_seq) (ct_data_payloads ct).

(** Rebuild the FTS table when the index has entries and the table is empty. *)
Definition backfill_fts : LM unit :=
  n ← db_try count;
  match n with
  | Ok n =>
      if 0 <? n then
        empty ← db_op fts_is_empty;
        if (empty : bool) then _ ← db_try rebuild_fts_index; mret tt else mret tt
      else mret tt
  | Err _ => mret tt
  end.

Definition load_accounts : LM unit :=
  _ ← db_try ensure_accounts_table;
  r ← db_try load_all_accounts;
  match r with
  | Ok accts => modify (λ s, foldl (λ s a, apply_account a s) s accts)
  | Err _ => mret tt
  end.

(** The part after the scan when the index is current: counters, tip and
    balances come from SQLite. *)
Definition load_from_sqlite : LM unit :=
  m ← db_try EntryDb.max_sequence;
  _ ← modify (s_next_sequence (wadd_u64 (res_unwrap_or 0 m) 1));
  t ← db_try chain_tip;
  _ ← match t with Ok (Some tip) => modify (s_last_chain_hash tip) | _ => mret tt end;
  s ← gets id;
  r ← db_op (rebuild_balance_cache (ls_accounts s) (ls_balance s));
  _ ← modify (s_balance r.1);
  liftR r.2.

(** The scan of the log and what follows it. *)
Definition replay_scan (import_mode : bool) (sqlite_max_seq start_segment : Z) (verify : bool)
    (dir : gmap Z bytes) : LM unit := fun '(W, s) =>
  let vars := mkVars (negb import_mode && (0 <? sqlite_max_seq)) false in
  match recover_streaming (λ _, WalErr) (replay_tx import_mode sqlite_max_seq)
          dir None verify None start_segment (W, (s, vars)) with
  | (Err e, (W', (s', _))) => (Err e, (W', s'))
  | (Ok _, (W', (s', vars'))) =>
      (_ ← (if rv_bulk_open vars' then _ ← db_try commit_bulk; mret tt else mret tt);
       if rv_sqlite_is_current vars' then load_from_sqlite else mret tt) (W', s')
  end.

Definition replay_from_wal_mode (import_mode : bool) : LM unit :=
  cp ← gets ls_checkpoint;
  let start_segment := match cp with Some cp => wc_first_needed_segment cp | None => 0 end in
  m ← (if import_mode then mret (Ok 0) else db_try EntryDb.max_sequence);
  let sqlite_max_seq := res_unwrap_or 0 m in
  _ ← (if import_mode then mret tt
       else _ ← db_try ensure_account_entries_table; backfill_fts);
  _ ← (if (0 <? start_segment) && negb import_mode then load_accounts else mret tt);
  s ← gets id;
  replay_scan import_mode sqlite_max_seq start_segment
    (bool_decide (is_Some (tm_signing_key (ls_tx s)))) (ww_dir (tm_wal (ls_tx s))).

(** ** Opening *)

(** The data directory: the WAL segments, the page files, the SQLite file, the
    checkpoint file and the signing key, if its file parses. *)
Record DataDir := mkDataDir {
  dd_wal : gmap Z bytes;
  dd_pages : gmap PageFile bytes;
  dd_tables : Tables;
  dd_checkpoint : option WalCheckpoint;
  dd_signing_key : option SigningKey
}.

Definition write_checkpoint : LM unit :=
  m ← db_try EntryDb.max_sequence;
  let sqlite_max := res_unwrap_or 0 m in
  s ← gets id;
  let last_seg := default 0 (last (list_segments (ww_dir (tm_wal (ls_tx s))))) in
  if 0 <? sqlite_max then
    r ← attempt (F:=LedgerError) (io LedgerIo);
    if is_ok r then modify (s_checkpoint (Some (mkWalCheckpoint sqlite_max last_seg))) else mret tt
  else mret tt.

Definition initial_store (tm : TransactionManager) (d : DataDir) : LedgerStore :=
  mkStore tm (PageStore_open (dd_pages d) DEFAULT_PAGE_SIZE) (mkDb (dd_tables d) None) ∅ ∅ 1 ZERO_HASH
    ∅ ∅ [] ∅ CurrencyRegistry_new 0 0 (dd_checkpoint d) None.

(** [open_with_sync_mode] and [open_for_import]. *)
Definition open_store (import_mode : bool) (mode : WalSyncMode) (d : DataDir) (W : World)
    : Result LedgerError LedgerStore :=
  match open_with_signing_and_mode (dd_wal d) (dd_signing_key d) mode W with
  | Err _ => Err TransactionErr
  | Ok tm =>
      match (_ ← replay_from_wal_mode import_mode; write_checkpoint) (W, initial_store tm d) with
      | (Ok _, (_, s)) => Ok s
      | (Err e, _) => Err e
      end
  end.

(** What a closed or crashed process leaves on disk; SQLite rolls back an open
    transaction. *)
Definition disk_of (s : LedgerStore) : DataDir :=
  mkDataDir (ww_dir (tm_wal (ls_tx s))) (ps_files (ls_pages s))
    (default (db_tables (ls_db s)) (db_saved (ls_db s))) (ls_checkpoint s) (tm_signing_key (ls_tx s)).
End store.

Notation LM := (M LedgerStore LedgerError).
Notation RM := (M (LedgerStore * ReplayVars) LedgerError).
