(* ===== verification/StoreFrame.v ===== *)
(** * The ledger store: what each operation leaves alone

    Frame lemmas for [Store]: durable writes touch only the transaction
    manager, the page store and the page cursors, and an operation that
    returns an error leaves the books (accounts, balances, chain, indexes)
    as they were. *)

From stdpp Require Import base gmap list strings option fin_maps sorting.
From Stdlib Require Import ZArith Lia.
From S2P Require Import Prelude Bytes Crypto Money Entry WalRecord Wal Recovery Tx Page EntryDb Store.

Section frame.
Context `{Blake3} `{Ed25519} `{WalExt} `{PageExt} `{LedgerCodecs} `{LedgerExt}.

(** The books: everything but the transaction manager, the pages, the page
    cursors, the sequence counter and the cached bytes. *)
Definition same_books (s s' : LedgerStore) : Prop :=
  ls_db s' = ls_db s ∧ ls_accounts s' = ls_accounts s ∧ ls_balance s' = ls_balance s ∧
  ls_last_chain_hash s' = ls_last_chain_hash s ∧ ls_reversals s' = ls_reversals s ∧
  ls_settlements s' = ls_settlements s ∧ ls_recon s' = ls_recon s ∧ ls_holds s' = ls_holds s ∧
  ls_currencies s' = ls_currencies s ∧ ls_checkpoint s' = ls_checkpoint s.

(** The books and the sequence counter. *)
Definition same_ledger (s s' : LedgerStore) : Prop :=
  same_books s s' ∧ ls_next_sequence s' = ls_next_sequence s.

#[global] Instance same_books_equiv : Equivalence same_books.
Proof.
  split; [by intros s|by intros s s'; unfold same_books; intuition|].
  unfold same_books. intros s1 s2 s3. intuition congruence.
Qed.
#[global] Instance same_ledger_equiv : Equivalence same_ledger.
Proof.
  split; [by intros s; split|intros s s' [Hb Hn]; split; [by symmetry|done]|].
  intros s1 s2 s3 [Hb1 Hn1] [Hb2 Hn2]. split; [by etransitivity|congruence].
Qed.

Section frame_of.
Context (s0 : LedgerStore).

Lemma tx_op_same {A} (m : TM A) : preserves (same_ledger s0) (tx_op m).
Proof. apply preserves_map_err, preserves_zoom. by intros x s. Qed.
Lemma page_op_same {A} (m : PSM A) : preserves (same_ledger s0) (page_op m).
Proof. apply preserves_map_err, preserves_zoom. by intros x s. Qed.

Hint Resolve tx_op_same page_op_same : preserves.

Lemma write_to_page_same t bs c : preserves (same_ledger s0) (write_to_page t bs c).
Proof. unfold write_to_page. repeat (apply preserves_bind; [auto with preserves|intros]). auto with preserves. Qed.

Lemma set_cursor_same t c : preserves (E:=LedgerError) (same_ledger s0) (modify (set_cursor t c)).
Proof. apply preserves_modify. intros s. unfold set_cursor. by case_match. Qed.

Hint Resolve write_to_page_same set_cursor_same : preserves.

Lemma persist_row_same t bs k prev : preserves (same_ledger s0) (persist_row t bs k prev).
Proof.
  unfold persist_row. apply preserves_bind; [auto with preserves|intros c].
  apply preserves_bind; [auto with preserves|intros [[pid sid] nc]].
  repeat (apply preserves_bind; [auto with preserves|intros]). auto with preserves.
Qed.

Lemma persist_row_pair_same ta da pa tb db : preserves (same_ledger s0) (persist_row_pair ta da pa tb db).
Proof.
  assert (Hc : ∀ c, preserves (E:=LedgerError) (same_ledger s0) (modify (s_next_entry_page c))).
  { intros c. apply preserves_modify. by intros s. }
  unfold persist_row_pair. apply preserves_bind; [auto with preserves|intros c].
  apply preserves_bind; [auto with preserves|intros [[pid sid] nc]].
  do 2 (apply preserves_bind; [auto with preserves|intros]).
  apply preserves_bind; [auto with preserves|intros [[pid' sid'] nc']].
  repeat (apply preserves_bind; [auto with preserves|intros]). auto with preserves.
Qed.
End frame_of.

(** Run-based forms. *)
Lemma persist_row_frame t bs k prev W s r W' s' :
  persist_row t bs k prev (W, s) = (r, (W', s')) → same_ledger s s'.
Proof. intros Hp. pose proof (persist_row_same s t bs k prev W s ltac:(done)) as Hf. by rewrite Hp in Hf. Qed.

Lemma persist_row_pair_frame ta da pa tb db W s r W' s' :
  persist_row_pair ta da pa tb db (W, s) = (r, (W', s')) → same_ledger s s'.
Proof. intros Hp. pose proof (persist_row_pair_same s ta da pa tb db W s ltac:(done)) as Hf. by rewrite Hp in Hf. Qed.

(** A database query leaves the store as it is. *)
Definition reads {A} (m : DbM A) : Prop := ∀ W db, (m (W, db)).2.2 = db.

Lemma query_reads {A} (f : Tables → A) : reads (query f).
Proof. intros W db. unfold query, mbind, M_bind, io. cbn. by destruct (default false (head (w_io W))). Qed.

Lemma reads_bind {A B} (m : DbM A) (k : A → DbM B) : reads m → (∀ a, reads (k a)) → reads (m ≫= k).
Proof.
  intros Hm Hk W db. specialize (Hm W db). unfold mbind, M_bind.
  destruct (m (W, db)) as [[a|e] [W' db']]; cbn in *; subst; [apply Hk|done].
Qed.

Lemma reads_liftR {A} (r : Result LedgerError A) : reads (liftR r).
Proof. by intros W db. Qed.
Lemma reads_ret {A} (a : A) : reads (mret a).
Proof. by intros W db. Qed.
Lemma reads_throw {A} e : reads (A:=A) (throw e).
Proof. by intros W db. Qed.
Lemma reads_attempt {A} (m : DbM A) : reads m → reads (attempt (E:=LedgerError) m).
Proof. intros Hm W db. specialize (Hm W db). unfold attempt. by destruct (m (W, db)) as [? [??]]. Qed.

Lemma stream_all_reads {A} (f : JournalEntry → A → Result LedgerError A) acc : reads (stream_all f acc).
Proof.
  unfold stream_all. apply reads_bind; [apply reads_attempt, query_reads|].
  intros [rs|e]; apply reads_ret.
Qed.

Lemma get_by_sequence_reads seq : reads (get_by_sequence seq).
Proof.
  unfold get_by_sequence. apply reads_bind; [apply query_reads|intros [r|]]; [|apply reads_ret].
  apply reads_bind; [apply reads_liftR|intros; apply reads_ret].
Qed.

Lemma s_db_id s : s_db (ls_db s) s = s.
Proof. by destruct s. Qed.

Lemma db_op_reads {A} (m : DbM A) W s r W' s' : reads m → db_op m (W, s) = (r, (W', s')) → s' = s.
Proof.
  intros Hm Hd. unfold db_op, zoom in Hd. specialize (Hm W (ls_db s)).
  destruct (m (W, ls_db s)) as [r0 [W0 db0]]. cbn in Hm. subst db0. simplify_eq. apply s_db_id.
Qed.

Lemma db_try_reads {A} (m : DbM A) W s r W' s' : reads m → db_try m (W, s) = (r, (W', s')) → s' = s.
Proof.
  intros Hm Hd. unfold db_try, attempt in Hd. destruct (db_op m (W, s)) as [r0 [W0 s0]] eqn:Ho.
  simplify_eq. by eapply db_op_reads.
Qed.

Lemma posted_before_reads e W s r W' s' : posted_before e (W, s) = (r, (W', s')) → s' = s ∧ is_ok r = true.
Proof.
  unfold posted_before. destruct (e_idempotency_key e) as [key|]; [|intros Hp; by minv].
  intros Hp. assert (Hok : ∀ A (m : DbM A) σ, ∃ x σ', db_try m σ = (Ok x, σ')).
  { intros A m σ. unfold db_try, attempt. destruct (db_op m σ) as [x σ']. eauto. }
  destruct (Hok _ (idempotency_key_exists key) (W, s)) as (x & [W1 s1] & Hx).
  rewrite (mbind_eq _ _ _ _ _ Hx) in Hp. apply db_try_reads in Hx as ->; [|apply query_reads].
  destruct (res_unwrap_or false x); [|by minv].
  destruct (Hok _ (sequence_for_idempotency_key key) (W1, s)) as (y & [W2 s2] & Hy).
  rewrite (mbind_eq _ _ _ _ _ Hy) in Hp. apply db_try_reads in Hy as ->; [|apply query_reads]. by minv.
Qed.

(** ** The steps of posting and reversing *)

Definition tick (W : World) : World := mkWorld (tail (w_clock W)) (w_rng W) (w_io W).
Definition clock (W : World) : Z := default 0 (head (w_clock W)).

(** The in-memory update after a durable write. *)
Definition booked (e : JournalEntry) (bs : bytes) (s : LedgerStore) : LedgerStore :=
  apply_balances e (s_last_chain_hash (e_chain_hash e) (s_last_bytes (Some bs) s)).

(** The entry as it is committed. *)
Definition final_entry (W : World) (s : LedgerStore) (e : JournalEntry) : JournalEntry :=
  finalize_chain_hash (ls_last_chain_hash s) (set_posting (ls_next_sequence s) (clock W) e).

Definition next_seq (s : LedgerStore) : LedgerStore := s_next_sequence (wadd_u64 (ls_next_sequence s) 1) s.

Lemma commit_entry_eq e W s :
  commit_entry e (W, s) =
  let e' := final_entry W s e in
  match enc e' with
  | None => (Err (Serialization "encode"), (tick W, next_seq s))
  | Some bs =>
      match persist_row TABLE_ENTRIES bs Insert (Some (e_prev_hash e')) (tick W, next_seq s) with
      | (Err x, σ) => (Err x, σ)
      | (Ok _, (W2, s2)) =>
          (_ ← index_entry e'; mret (ls_next_sequence s)) (W2, booked e' bs s2)
      end
  end.
Proof.
  unfold commit_entry, take_sequence, encode_row, final_entry. cbv beta iota zeta delta [mbind M_bind gets modify mret M_ret now liftR].
  cbn -[finalize_chain_hash persist_row index_entry set_posting s_next_sequence].
  destruct (enc _) as [bs|]; [|done]. cbn -[finalize_chain_hash persist_row index_entry set_posting s_next_sequence].
  by destruct (persist_row _ _ _ _ _) as [[?|?] [??]].
Qed.

(** The reversal as it is committed, and its event. *)
Definition final_reversal (W : World) (s : LedgerStore) (r : JournalEntry) : JournalEntry :=
  finalize_hashes (ls_last_chain_hash s) (set_posting (ls_next_sequence s) (clock W) r).
Definition reversal_event (entry_id : Z) (r : JournalEntry) : ReversalEvent :=
  mkReversalEvent entry_id (e_id r) (e_posted_at r).

Definition reversal_booked (entry_id : Z) (r : JournalEntry) (s : LedgerStore) : LedgerStore :=
  let s := s_last_chain_hash (e_chain_hash r) s in
  apply_lines (e_lines r) (s_reversals (<[entry_id := e_id r]> (ls_reversals s)) s).

Lemma commit_reversal_eq entry_id r W s :
  commit_reversal entry_id r (W, s) =
  let r' := final_reversal W s r in
  match enc r', enc (reversal_event entry_id r') with
  | Some bs, Some ev =>
      match persist_row_pair TABLE_ENTRIES bs (Some (e_prev_hash r')) TABLE_REVERSAL_EVENTS ev (tick W, next_seq s) with
      | (Err x, σ) => (Err x, σ)
      | (Ok _, (W2, s2)) => (_ ← index_entry r'; mret (e_id r')) (W2, reversal_booked entry_id r' s2)
      end
  | _, _ => (Err (Serialization "encode"), (tick W, next_seq s))
  end.
Proof.
  unfold commit_reversal, take_sequence, encode_row, final_reversal, reversal_event.
  cbv beta iota zeta delta [mbind M_bind gets modify mret M_ret now liftR].
  cbn -[finalize_hashes persist_row_pair index_entry set_posting s_next_sequence].
  destruct (enc (finalize_hashes _ _)) as [bs|]; [|done].
  cbn -[finalize_hashes persist_row_pair index_entry set_posting s_next_sequence].
  destruct (enc (mkReversalEvent _ _ _)) as [ev|]; [|done].
  cbn -[finalize_hashes persist_row_pair index_entry set_posting s_next_sequence].
  by destruct (persist_row_pair _ _ _ _ _ _) as [[?|?] [??]].
Qed.

(** Indexing never fails: its errors are logged. *)
Lemma forM_try_Ok {A B} (f : A → DbM B) xs σ :
  ∃ σ', forM (λ x, _ ← db_try (f x); mret tt) xs σ = (Ok tt, σ').
Proof.
  revert σ. induction xs as [|x xs IH]; intros σ; [by eexists|]. cbn. unfold mbind, M_bind, db_try, attempt.
  destruct (db_op (f x) σ) as [r σ1]. apply IH.
Qed.

Lemma index_entry_Ok e σ : ∃ σ', index_entry e σ = (Ok tt, σ').
Proof.
  unfold index_entry, index_insert, index_lines. unfold mbind at 1, M_bind at 1, db_try at 1, attempt at 1.
  destruct (db_op ensure_account_entries_table σ) as [r0 σ0].
  unfold mbind at 1, M_bind at 1, db_try at 1, attempt at 1.
  destruct (db_op (insert e) σ0) as [[?|?] σ1]; [apply forM_try_Ok|by eexists].
Qed.

(** ** Errors *)

Lemma commit_entry_Err e W s x W' s' :
  commit_entry e (W, s) = (Err x, (W', s')) → same_ledger (next_seq s) s'.
Proof.
  rewrite commit_entry_eq. cbv zeta. destruct (enc _) as [bs|]; [|intros; by simplify_eq].
  destruct (persist_row _ _ _ _ _) as [[?|?] [W2 s2]] eqn:Hp; [|intros; simplify_eq; by eapply persist_row_frame].
  unfold mbind, M_bind. by destruct (index_entry_Ok (final_entry W s e) (W2, booked (final_entry W s e) bs s2)) as [σ' ->].
Qed.

Lemma commit_reversal_Err id r W s x W' s' :
  commit_reversal id r (W, s) = (Err x, (W', s')) → same_ledger (next_seq s) s'.
Proof.
  rewrite commit_reversal_eq. cbv zeta.
  destruct (enc (final_reversal W s r)) as [bs|]; [|intros; by simplify_eq].
  destruct (enc (reversal_event _ _)) as [ev|]; [|intros; by simplify_eq].
  destruct (persist_row_pair _ _ _ _ _ _) as [[?|?] [W2 s2]] eqn:Hp; [|intros; simplify_eq; by eapply persist_row_pair_frame].
  unfold mbind, M_bind. by destruct (index_entry_Ok (final_reversal W s r) (W2, reversal_booked id (final_reversal W s r) s2)) as [σ' ->].
Qed.

(** The outcome of [post_entry], by cases. *)
Lemma post_entry_cases e W s r W' s' :
  post_entry e (W, s) = (r, (W', s')) →
  (∃ x, r = Err x ∧ s' = s ∧ (validate e = Err x ∨ validate e = Ok tt ∧ post_checks s e = Err x)) ∨
  (∃ seq, r = Ok seq ∧ s' = s ∧ validate e = Ok tt ∧ posted_before e (W, s) = (Ok (Some seq), (W', s))) ∨
  (validate e = Ok tt ∧ post_checks s e = Ok tt ∧
   ∃ W1, posted_before e (W, s) = (Ok None, (W1, s)) ∧ commit_entry e (W1, s) = (r, (W', s'))).
Proof.
  unfold post_entry. destruct (validate e) as [[]|x] eqn:Hv; [|intros Hp; rewrite (mbind_err _ _ _ x (W, s)) in Hp by done; simplify_eq; left; exists x; split_and!; [done..|by left]].
  rewrite (mbind_eq _ _ _ tt (W, s)) by done. intros Hp.
  destruct (posted_before e (W, s)) as [d [W1 s1]] eqn:Hd. pose proof (posted_before_reads _ _ _ _ _ _ Hd) as [-> Hok].
  destruct d as [d|]; [|done]. rewrite (mbind_eq _ _ _ _ _ Hd) in Hp. destruct d as [seq|].
  - right; left. minv. exists seq. done.
  - rewrite (mbind_eq _ _ _ s (W1, s)) in Hp by done.
    destruct (post_checks s e) as [[]|x] eqn:Hc; [|rewrite (mbind_err _ _ _ x (W1, s)) in Hp by done; simplify_eq; left; exists x; split_and!; [done..|right; done]].
    rewrite (mbind_eq _ _ _ tt (W1, s)) in Hp by done. right; right. split_and!; [done..|]. exists W1. split; [done|exact Hp].
Qed.

(** C2: a [post_entry] that returns an error, for whatever reason and at
    whatever point (validation, a failed check, serialization, a full page, an
    I/O failure in the page store or the log), leaves the books unchanged:
    accounts, balances, chain tip, holds, settlement and reversal indexes,
    currencies and the SQLite index.  At most the sequence counter has moved. *)
Theorem post_entry_error_unchanged e W s x W' s' :
  post_entry e (W, s) = (Err x, (W', s')) → same_books s s'.
Proof.
  intros [(? & _ & -> & _)|[(? & ? & _)|(_ & _ & W1 & _ & Hc)]]%post_entry_cases; [done|done|].
  apply commit_entry_Err in Hc as [Hb _]. exact Hb.
Qed.
End frame.
