(* ===== verification/StoreLog.v ===== *)
(** * The ledger store: what reaches the log

    Every change of the books is one transaction of the log: when an
    operation of the store returns [Ok], in whatever environment, the log has
    exactly one more committed transaction, whose rows are the ones the
    operation wrote.  This is what replay relies on. *)

From stdpp Require Import base gmap list strings option fin_maps sorting.
From Stdlib Require Import ZArith Lia.
From S2P Require Import Prelude Bytes Crypto Merkle Money Entry WalRecord Wal Recovery Tx TxLog Page EntryDb Store StoreFrame.

Section storelog.
Context `{Blake3} `{Ed25519} `{!WalExt} `{!PageExt} `{LedgerCodecs} `{LedgerExt} `{!SmallRecords}.

(** The log of a store; page cursors are [u64]s and the tip is a digest. *)
Record store_logged (s : LedgerStore) (rs : list WalRecord) : Prop := {
  sl_log : log_ok (ls_tx s) rs;
  sl_account_page : u64_ok (ls_next_account_page s);
  sl_entry_page : u64_ok (ls_next_entry_page s);
  sl_tip : hash_ok (ls_last_chain_hash s)
}.

Lemma tx_op_Ok {A} (o : TM A) W s a W' s' :
  tx_op o (W, s) = (Ok a, (W', s')) → ∃ m', o (W, ls_tx s) = (Ok a, (W', m')) ∧ s' = s_tx m' s.
Proof.
  unfold tx_op, map_err, zoom. destruct (o (W, ls_tx s)) as [[b|x] [W1 m1]]; intros Ho; [|done].
  simplify_eq/=. eauto.
Qed.

Lemma page_op_Ok {A} (o : PSM A) W s a W' s' :
  page_op o (W, s) = (Ok a, (W', s')) → ∃ p', s' = s_pages p' s.
Proof.
  unfold page_op, map_err, zoom. destruct (o (W, ls_pages s)) as [[b|x] [W1 m1]]; intros Ho; [|done].
  simplify_eq/=. eauto.
Qed.

(** A row written to a fresh page is small and sits in its first slot. *)
Lemma write_to_page_Ok t bs c W s pid sid nc W' s' :
  u64_ok c → u32_ok t → write_to_page t bs c (W, s) = (Ok (pid, sid, nc), (W', s')) →
  pid = c ∧ sid = 0 ∧ nc = wadd_u64 c 1 ∧ Z.of_nat (length bs) ≤ MAX_ROW ∧ ∃ p', s' = s_pages p' s.
Proof.
  intros Hc Ht Hw. unfold write_to_page in Hw.
  apply mbind_Ok_inv in Hw as (pg & [W1 s1] & Hpg & Hw). apply mbind_Ok_inv in Hw as ([i pg1] & [W2 s2] & Hsl & Hw).
  apply mbind_Ok_inv in Hw as (pg2 & [W3 s3] & Hse & Hw). apply mbind_Ok_inv in Hw as (u & [W4 s4] & Hwp & Hw).
  unfold liftR in Hpg, Hsl, Hse. injection Hpg as Hpg <- <-. injection Hsl as Hsl <- <-. injection Hse as _ <- <-.
  destruct (with_size_repr c t DEFAULT_PAGE_SIZE) as (pg0 & Hnew & Hrepr & _); [done|done|unfold DEFAULT_PAGE_SIZE, body_start, PH_SIZE; lia..|].
  unfold Page_new in Hpg. rewrite Hnew in Hpg. apply Ok_inj in Hpg as <-.
  pose proof (page_repr_size _ _ Hrepr) as Hsize. destruct Hrepr as (hd & gap & _ & _ & _ & Hb & Hn & _).
  unfold write_slot in Hsl. destruct (pg_sealed pg0); [done|].
  destruct (Z.ltb_spec (ph_free_bytes (pg_header pg0)) (SLOT_DIR_ENTRY_SIZE + Z.of_nat (length bs))) as [|Hfree]; [done|].
  apply page_op_Ok in Hwp as (p' & ->). unfold mret, M_ret in Hw. simplify_eq/=. split_and!; [done| |done| |by eexists].
  - destruct (slots_total _ _); cbn in Hsl; [|done]. destruct (splice _ _ _); cbn in Hsl; [|done].
    destruct (splice _ _ _); cbn in Hsl; [|done]. destruct (splice _ _ _); cbn in Hsl; [|done]. by simplify_eq/=.
  - unfold SLOT_DIR_ENTRY_SIZE, MAX_ROW, total in *. cbn in Hsize. lia.
Qed.

(** The row as the transaction carries it. *)
Definition row (t pid : Z) (k : MutationKind) (bs : bytes) (prev : option Hash) : PendingMutation :=
  mkMutation t pid 0 k bs (hash_bytes bs) prev.

Lemma row_is_small t pid k bs prev :
  u32_ok t → u64_ok pid → Z.of_nat (length bs) ≤ MAX_ROW → (∀ h, prev = Some h → hash_ok h) → row_small (row t pid k bs prev).
Proof. intros. split; [done|]. split_and!; cbn; try done. apply blake3_length. Qed.

(** What a durable write adds to the log. *)
Definition wrote (s s' : LedgerStore) (rs rs' : list WalRecord) (pss : list (list DataPayload)) : Prop :=
  logged (ls_tx s) (ls_tx s') rs rs' pss ∧ same_ledger s s' ∧
  u64_ok (ls_next_account_page s') ∧ u64_ok (ls_next_entry_page s').

Lemma wadd_u64_ok a b : u64_ok (wadd_u64 a b).
Proof. unfold u64_ok, wadd_u64, as_u64. apply Z.mod_pos_bound. lia. Qed.

Lemma set_cursor_pages t c s :
  u64_ok c → u64_ok (ls_next_account_page s) → u64_ok (ls_next_entry_page s) →
  u64_ok (ls_next_account_page (set_cursor t c s)) ∧ u64_ok (ls_next_entry_page (set_cursor t c s)).
Proof. unfold set_cursor. by case_match. Qed.

Lemma persist_row_logged t bs k prev W s rs x W' s' :
  store_logged s rs → log_room (ls_tx s) 3 → u32_ok t → (∀ h, prev = Some h → hash_ok h) →
  persist_row t bs k prev (W, s) = (Ok x, (W', s')) →
  ∃ rs' pid, wrote s s' rs rs' [[data_payload (row t pid k bs prev)]].
Proof.
  intros Hs Hroom Ht Hprev Hp. pose proof (persist_row_frame _ _ _ _ _ _ _ _ _ Hp) as Hframe.
  unfold persist_row in Hp. rewrite (mbind_eq _ _ _ (cursor_of t s) (W, s)) in Hp by done. cbv beta in Hp.
  apply mbind_Ok_inv in Hp as ([[pid sid] nc] & [W1 s1] & Hw & Hp).
  assert (Hc : u64_ok (cursor_of t s)) by (unfold cursor_of; case_match; apply Hs).
  apply write_to_page_Ok in Hw as (-> & -> & -> & Hlen & p' & ->); [|done..].
  apply mbind_Ok_inv in Hp as (u & [W2 s2] & Hm & Hp). unfold modify in Hm. cbn [fst snd] in Hm. simplify_eq.
  apply mbind_Ok_inv in Hp as (tid & [W3 s3] & Hb & Hp). apply mbind_Ok_inv in Hp as (u2 & [W4 s4] & Ha & Hp).
  apply mbind_Ok_inv in Hp as (u3 & [W5 s5] & Hco & Hp). unfold mret, M_ret in Hp. simplify_eq.
  set (s2 := set_cursor t (wadd_u64 (cursor_of t s) 1) (s_pages p' s)) in *.
  assert (Htx2 : ls_tx s2 = ls_tx s) by (unfold s2, set_cursor; by case_match).
  apply tx_op_Ok in Hb as (m3 & Hb & ->), Ha as (m4 & Ha & ->), Hco as (m5 & Hco & ->). cbn in Ha, Hco. rewrite Htx2 in Hb.
  assert (Hprog : tx_prog None [row t (cursor_of t s) k bs prev] (W2, ls_tx s) = (Ok tt, (W', m5))).
  { unfold tx_prog. rewrite (mbind_eq _ _ _ _ _ Hb). cbn [forM]. destruct u2, u3.
    rewrite (mbind_eq _ _ _ tt (W4, m4)); [exact Hco|]. by rewrite (mbind_eq _ _ _ tt (W4, m4)). }
  eapply tx_prog_logged in Hprog as (rs' & Hl); [|apply Hs|exact Hroom|done|].
  2: { constructor; [|constructor]. by apply row_is_small. }
  exists rs', (cursor_of t s). split_and!; [exact Hl|exact Hframe|..]; cbn; apply set_cursor_pages; try apply wadd_u64_ok; apply Hs.
Qed.

Lemma persist_row_pair_logged ta da pa tb db W s rs x W' s' :
  store_logged s rs → log_room (ls_tx s) 4 → u32_ok ta → u32_ok tb → (∀ h, pa = Some h → hash_ok h) →
  persist_row_pair ta da pa tb db (W, s) = (Ok x, (W', s')) →
  ∃ rs' p1 p2, wrote s s' rs rs' [[data_payload (row ta p1 Insert da pa); data_payload (row tb p2 Insert db None)]].
Proof.
  intros Hs Hroom Hta Htb Hprev Hp. pose proof (persist_row_pair_frame _ _ _ _ _ _ _ _ _ _ Hp) as Hframe.
  unfold persist_row_pair in Hp. rewrite (mbind_eq _ _ _ (ls_next_entry_page s) (W, s)) in Hp by done. cbv beta in Hp.
  apply mbind_Ok_inv in Hp as ([[pid sid] nc] & [W1 s1] & Hw & Hp). pose proof (sl_entry_page _ _ Hs) as Hc.
  apply write_to_page_Ok in Hw as (-> & -> & -> & Hlen & p' & ->); [|done..].
  apply mbind_Ok_inv in Hp as (u & [W2 s2] & Hm & Hp). unfold modify in Hm. cbn [fst snd] in Hm. simplify_eq.
  rewrite (mbind_eq _ _ _ (wadd_u64 (ls_next_entry_page s) 1) (W2, s_next_entry_page (wadd_u64 (ls_next_entry_page s) 1) (s_pages p' s))) in Hp by done. cbv beta in Hp.
  apply mbind_Ok_inv in Hp as ([[pid sid] nc] & [W3 s3] & Hw & Hp).
  apply write_to_page_Ok in Hw as (-> & -> & -> & Hlen2 & p2' & ->); [|apply wadd_u64_ok|done].
  apply mbind_Ok_inv in Hp as (u & [W4 s4] & Hm & Hp). unfold modify in Hm. cbn [fst snd] in Hm. simplify_eq.
  apply mbind_Ok_inv in Hp as (tid & [W5 s5] & Hb & Hp). apply mbind_Ok_inv in Hp as (u2 & [W6 s6] & Ha & Hp).
  apply mbind_Ok_inv in Hp as (u3 & [W7 s7] & Ha2 & Hco).
  apply tx_op_Ok in Hb as (m5 & Hb & ->), Ha as (m6 & Ha & ->), Ha2 as (m7 & Ha2 & ->), Hco as (m8 & Hco & ->). cbn in Hb, Ha, Ha2, Hco.
  assert (Hprog : tx_prog (Some "reversal"%string) [row ta (ls_next_entry_page s) Insert da pa; row tb (wadd_u64 (ls_next_entry_page s) 1) Insert db None]
    (W4, ls_tx s) = (Ok x, (W', m8))).
  { unfold tx_prog. rewrite (mbind_eq _ _ _ _ _ Hb). cbn [forM]. destruct u2, u3.
    rewrite (mbind_eq _ _ _ tt (W7, m7)); [exact Hco|]. rewrite (mbind_eq _ _ _ tt (W6, m6)) by done.
    by rewrite (mbind_eq _ _ _ tt (W7, m7)). }
  eapply tx_prog_logged in Hprog as (rs' & Hl); [|apply Hs|exact Hroom|intros ? [= <-]; cbn; lia|].
  2: { constructor; [|constructor; [|constructor]]; apply row_is_small; try done. apply wadd_u64_ok. }
  exists rs', (ls_next_entry_page s), (wadd_u64 (ls_next_entry_page s) 1). split_and!; [exact Hl|exact Hframe|apply Hs|apply wadd_u64_ok].
Qed.
End storelog.
