(* ===== verification/StoreBooks.v ===== *)
(** * The ledger store: admission and balances

    What [post_entry] checks, as a specification independent of its loops, and
    what posting and reversing do to balances. *)

From stdpp Require Import base gmap list strings option fin_maps sorting.
From Stdlib Require Import ZArith Lia.
From S2P Require Import Prelude Bytes Crypto Money Entry WalRecord Wal Recovery Tx Page EntryDb Store StoreFrame.

(** A quantity of the lines on one account. *)
Definition on (id : Z) (f : JournalLine → Z) (l : JournalLine) : Z :=
  if decide (ln_account_id l = id) then f l else 0.

Definition touches (id : Z) (ls : list JournalLine) : Prop := Exists (λ l, ln_account_id l = id) ls.

Lemma add_to_default id d m i : default 0 (add_to id d m !! i) = default 0 (m !! i) + (if decide (id = i) then d else 0).
Proof.
  unfold add_to. case_decide as Hi; [subst; by rewrite lookup_insert_eq|]. rewrite lookup_insert_ne by done. lia.
Qed.

Lemma line_delta_sign t l : line_delta t l = cache_sign t * net_debit_of l.
Proof. unfold line_delta, cache_sign, net_debit_of, signed_amount. destruct (is_debit_normal t), (ln_dr_cr l); lia. Qed.

Lemma sumZ_scale c f ls : sumZ (λ l, c * f l) ls = c * sumZ f ls.
Proof. induction ls as [|l ls IH]; cbn; [lia|]. rewrite IH. lia. Qed.

Lemma sumZ_on_none id f ls : ¬ touches id ls → sumZ (on id f) ls = 0.
Proof.
  unfold touches. rewrite <- Forall_Exists_neg. induction 1 as [|l ls Hl _ IH]; [done|]. cbn. rewrite IH.
  unfold on. case_decide; [done|lia].
Qed.

(** The effect of lines on the cached balance of an account. *)
Definition effect (accounts : gmap Z Account) (id : Z) (ls : list JournalLine) : Z :=
  match accounts !! id with
  | None => 0
  | Some a => cache_sign (account_type a) * sumZ (on id net_debit_of) ls
  end.

Section books.
Context `{Blake3} `{Ed25519} `{WalExt} `{PageExt} `{LedgerCodecs} `{LedgerExt}.

(** ** The balance cache *)

Definition apply_cache (accounts : gmap Z Account) (ls : list JournalLine) (c : gmap Z Z) : gmap Z Z :=
  foldl (λ c l, match accounts !! ln_account_id l with
                | None => c
                | Some a => add_to (ln_account_id l) (line_delta (account_type a) l) c
                end) c ls.

Lemma s_balance_id s : s_balance (ls_balance s) s = s.
Proof. by destruct s. Qed.

Lemma apply_lines_cache ls s : apply_lines ls s = s_balance (apply_cache (ls_accounts s) ls (ls_balance s)) s.
Proof.
  unfold apply_lines, apply_cache. revert s. induction ls as [|l ls IH]; intros s; cbn [foldl].
  { by rewrite s_balance_id. }
  rewrite IH. unfold update_balance_cache. by destruct (ls_accounts s !! ln_account_id l) as [a|].
Qed.

Lemma apply_cache_default accounts ls c id :
  default 0 (apply_cache accounts ls c !! id) = default 0 (c !! id) + effect accounts id ls.
Proof.
  unfold apply_cache, effect. revert c. induction ls as [|l ls IH]; intros c; cbn [foldl sumZ].
  { destruct (accounts !! id); lia. }
  rewrite IH. destruct (accounts !! ln_account_id l) as [a|] eqn:Ha.
  - rewrite add_to_default, line_delta_sign. unfold on at 2. case_decide; [subst; rewrite Ha|destruct (accounts !! id)]; lia.
  - unfold on at 2. case_decide; [subst; by rewrite Ha|]. destruct (accounts !! id); lia.
Qed.

Lemma balance_apply_lines ls s id :
  balance id (apply_lines ls s) = balance id s + effect (ls_accounts s) id ls.
Proof. rewrite apply_lines_cache. apply apply_cache_default. Qed.

(** ** Admission *)

Lemma check_all_Ok {A} (f : A → Result LedgerError unit) xs :
  check_all f xs = Ok tt ↔ Forall (λ x, f x = Ok tt) xs.
Proof.
  induction xs as [|x xs IH]; cbn [check_all]; [by split|]. rewrite Forall_cons, res_bind_Ok, <- IH.
  split; [intros ([] & ? & ?)|intros [? ?]; exists tt]; done.
Qed.

(** What each line must satisfy. *)
Definition line_admitted (s : LedgerStore) (approved_by : option string) (l : JournalLine) : Prop :=
  ∃ a, ls_accounts s !! ln_account_id l = Some a ∧ acc_status a = Money.Active ∧ legal_hold a = false ∧
    currency_code a = ln_currency_code l ∧
    (∀ p, registry_precision (ls_currencies s) (ln_currency_code l) = Some p → exceeds_precision p (ln_amount l) = false) ∧
    (require_four_eyes a = true → approved_by ≠ None).

Lemma check_line_Ok s ap l : check_line s ap l = Ok tt ↔ line_admitted s ap l.
Proof.
  unfold check_line, line_admitted, is_active.
  destruct (ls_accounts s !! ln_account_id l) as [a|]; cbn; [|split; [done|by intros (? & ? & _)]]. split.
  - intros Hc. exists a. case_bool_decide as Hact; [|done]. cbn in Hc. destruct (legal_hold a); [done|].
    case_bool_decide as Hcur; [|done]. cbn in Hc.
    assert (Hfour : ∀ u, (if require_four_eyes a && bool_decide (ap = None) then Err FourEyesRequired else Ok tt) = Ok u →
      require_four_eyes a = true → ap ≠ None).
    { intros u Hu Hr Hap. by rewrite Hr, bool_decide_true in Hu by done. }
    destruct (registry_precision _ _) as [p|]; cbn in Hc.
    + destruct (exceeds_precision p (ln_amount l)) eqn:Hx; [done|]. cbn in Hc.
      split_and!; [done..|by intros ? [= <-]|by eapply Hfour].
    + split_and!; [done..|by eapply Hfour].
  - intros (a' & [= <-] & Hact & Hh & Hcur & Hp & Hf). rewrite !bool_decide_true, Hh by done. cbn.
    assert (Hfour : require_four_eyes a && bool_decide (ap = None) = false).
    { destruct (require_four_eyes a); [|done]. by rewrite bool_decide_false by auto. }
    rewrite Hfour. destruct (registry_precision _ _) as [p|]; [|done]. by rewrite (Hp p eq_refl).
Qed.

(** What the entry as a whole must satisfy on each account it touches. *)
Definition account_admitted (s : LedgerStore) (ls : list JournalLine) (id : Z) (a : Account) : Prop :=
  (∀ lim, exposure_limit a = Some lim → sumZ (on id debit_of) ls ≤ lim) ∧
  (require_non_negative_balance a = true → is_debit_normal (account_type a) = true →
   sumZ (on id net_debit_of) ls < 0 → 0 ≤ balance id s + sumZ (on id net_debit_of) ls).

Lemma touches_snoc id ls l : touches id (ls ++ [l]) ↔ touches id ls ∨ ln_account_id l = id.
Proof. unfold touches. rewrite Exists_app, Exists_cons, Exists_nil. intuition. Qed.

Lemma net_debit_delta_snoc ls l :
  net_debit_delta (ls ++ [l]) = add_to (ln_account_id l) (net_debit_of l) (net_debit_delta ls).
Proof. unfold net_debit_delta. by rewrite foldl_app. Qed.

Lemma net_debit_delta_default ls id : default 0 (net_debit_delta ls !! id) = sumZ (on id net_debit_of) ls.
Proof.
  induction ls as [|l ls IH] using rev_ind; [done|].
  rewrite net_debit_delta_snoc, add_to_default, IH, sumZ_app. cbn. unfold on. case_decide; lia.
Qed.

Lemma net_debit_delta_dom ls id : is_Some (net_debit_delta ls !! id) ↔ touches id ls.
Proof.
  induction ls as [|l ls IH] using rev_ind.
  - unfold net_debit_delta, touches. cbn. rewrite lookup_empty, Exists_nil. split; [by intros [? ?]|done].
  - rewrite net_debit_delta_snoc, touches_snoc, <- IH. unfold add_to.
    destruct (decide (ln_account_id l = id)) as [->|Hne].
    + rewrite lookup_insert_eq. split; [by right|by eexists].
    + rewrite lookup_insert_ne by done. split; [by left|by intros [?|?]].
Qed.

Lemma total_debit_default ls id : default 0 (total_debit ls !! id) = sumZ (on id debit_of) ls.
Proof.
  unfold total_debit. induction ls as [|l ls IH] using rev_ind; [done|].
  rewrite foldl_app, sumZ_app, <- IH. cbn. unfold on, debit_of.
  destruct (ln_dr_cr l); [rewrite add_to_default|]; case_decide; lia.
Qed.

Lemma check_account_Ok s ls id a :
  ls_accounts s !! id = Some a →
  check_account s (total_debit ls) (id, sumZ (on id net_debit_of) ls) = Ok tt ↔ account_admitted s ls id a.
Proof.
  intros Ha. unfold check_account, account_admitted. rewrite Ha. cbn. rewrite total_debit_default.
  set (net := sumZ _ ls). set (deb := sumZ (on id debit_of) ls).
  assert (Hnn : ∀ u, (if require_non_negative_balance a && is_debit_normal (account_type a) && (net <? 0)
                  then if balance id s + net <? 0 then Err (InsufficientFunds id (balance id s) (- net)) else Ok tt
                  else Ok tt) = Ok u ↔
    (require_non_negative_balance a = true → is_debit_normal (account_type a) = true → net < 0 → 0 ≤ balance id s + net)).
  { intros []. destruct (require_non_negative_balance a), (is_debit_normal (account_type a)); cbn; try (split; intros; done).
    destruct (Z.ltb_spec net 0); [|split; intros; [lia|done]].
    destruct (Z.ltb_spec (balance id s + net) 0); split; try done.
    intros Hx. specialize (Hx eq_refl eq_refl). lia. }
  destruct (exposure_limit a) as [lim|]; cbn.
  - destruct (Z.ltb_spec lim deb) as [Hlt|Hge]; cbn.
    + split; [done|]. intros [Hl _]. specialize (Hl lim eq_refl). lia.
    + rewrite Hnn. split; [intros Hx; split; [by intros ? [= <-]|done]|by intros [_ ?]].
  - rewrite Hnn. split; [intros Hx; split; [done|done]|by intros [_ ?]].
Qed.

(** The checks of [post_entry] as a specification. *)
Definition admitted (s : LedgerStore) (e : JournalEntry) : Prop :=
  Forall (line_admitted s (e_approved_by e)) (e_lines e) ∧
  ∀ id a, touches id (e_lines e) → ls_accounts s !! id = Some a → account_admitted s (e_lines e) id a.

Lemma post_checks_Ok s e : post_checks s e = Ok tt ↔ admitted s e.
Proof.
  unfold post_checks, admitted.
  assert (Hlines : check_all (check_line s (e_approved_by e)) (e_lines e) = Ok tt ↔
    Forall (line_admitted s (e_approved_by e)) (e_lines e)).
  { rewrite check_all_Ok. apply Forall_iff. intros l. apply check_line_Ok. }
  destruct (check_all (check_line s (e_approved_by e)) (e_lines e)) as [[]|x]; cbn [mbind Result_bind].
  2: { split; [done|]. intros [Hl _]. by apply Hlines in Hl. }
  destruct Hlines as [Hlines _]. specialize (Hlines eq_refl).
  rewrite check_all_Ok, hash_order_perm, Forall_forall.
  assert (Hacc : ∀ id, touches id (e_lines e) → ∃ a, ls_accounts s !! id = Some a).
  { intros id (l & Hin & <-)%Exists_exists. rewrite Forall_forall in Hlines.
    destruct (Hlines l Hin) as (a & Ha & _). by exists a. }
  split.
  - intros Hall. split; [done|]. intros id a Ht Ha. apply (check_account_Ok s _ id a Ha).
    apply net_debit_delta_dom in Ht as [v Hv]. apply elem_of_map_to_list in Hv as Hin. specialize (Hall _ Hin).
    pose proof (net_debit_delta_default (e_lines e) id) as Hd. rewrite Hv in Hd. cbn in Hd. by subst v.
  - intros [_ Hall] [id v] Hv%elem_of_map_to_list. assert (Ht : touches id (e_lines e)) by (apply net_debit_delta_dom; by eexists).
    destruct (Hacc id Ht) as [a Ha]. pose proof (net_debit_delta_default (e_lines e) id) as Hd.
    rewrite Hv in Hd. cbn in Hd. subst v. apply (check_account_Ok s _ id a Ha). by apply Hall.
Qed.

(** ** The effect of posting *)

Lemma index_entry_frame e W s r W' s' :
  index_entry e (W, s) = (r, (W', s')) → ∃ db', s' = s_db db' s.
Proof.
  set (P := λ s', ∃ db', s' = s_db db' s).
  assert (Hdb : ∀ A (m : DbM A), preserves P (db_try m)).
  { intros A m. apply preserves_attempt, preserves_zoom. intros db s1 [db1 ->]. by exists db. }
  assert (Hp : preserves P (index_entry e)).
  { unfold index_entry, index_insert, index_lines. apply preserves_bind; [apply Hdb|intros _].
    apply preserves_bind; [apply Hdb|intros [?|?]]; [|apply preserves_ret].
    apply preserves_forM. intros l. apply preserves_bind; [apply Hdb|intros; apply preserves_ret]. }
  intros Hi. specialize (Hp W s (ex_intro _ (ls_db s) (eq_sym (s_db_id s)))). by rewrite Hi in Hp.
Qed.

Lemma apply_balances_cache e s :
  apply_balances e s =
  s_balance (if affects_balance (e_status e) then apply_cache (ls_accounts s) (e_lines e) (ls_balance s)
             else ls_balance s) s.
Proof.
  unfold apply_balances. destruct (affects_balance (e_status e)); [apply apply_lines_cache|]. by rewrite s_balance_id.
Qed.

(** The change an entry makes to a balance. *)
Definition entry_effect (accounts : gmap Z Account) (id : Z) (e : JournalEntry) : Z :=
  if affects_balance (e_status e) then effect accounts id (e_lines e) else 0.

(** What a successful append of entry [e] does to the books, SQLite apart. *)
Definition appended_entry (s s' : LedgerStore) (e : JournalEntry) : Prop :=
  e_sequence e = ls_next_sequence s ∧ e_prev_hash e = ls_last_chain_hash s ∧
  ls_last_chain_hash s' = e_chain_hash e ∧ ls_next_sequence s' = wadd_u64 (ls_next_sequence s) 1 ∧
  ls_accounts s' = ls_accounts s ∧ ls_holds s' = ls_holds s ∧ ls_settlements s' = ls_settlements s ∧
  ls_currencies s' = ls_currencies s ∧ ls_recon s' = ls_recon s ∧ ls_checkpoint s' = ls_checkpoint s ∧
  ∀ id, balance id s' = balance id s + entry_effect (ls_accounts s) id e.

Lemma balance_booked e bs s id :
  balance id (booked e bs s) = balance id s + entry_effect (ls_accounts s) id e.
Proof.
  unfold booked, entry_effect. rewrite apply_balances_cache. unfold balance; cbn.
  destruct (affects_balance (e_status e)); [apply apply_cache_default|lia].
Qed.

Lemma commit_entry_Ok e W s seq W' s' :
  commit_entry e (W, s) = (Ok seq, (W', s')) →
  seq = ls_next_sequence s ∧ ls_reversals s' = ls_reversals s ∧
  appended_entry s s' (final_entry W s e).
Proof.
  rewrite commit_entry_eq. cbv zeta. set (e' := final_entry W s e). destruct (enc e') as [bs|]; [|done].
  destruct (persist_row _ _ _ _ _) as [[?|?] [W2 s2]] eqn:Hp; [|done].
  apply persist_row_frame in Hp as [(Hdb & Hacc & Hbal & Htip & Hrev & Hset & Hrec & Hh & Hcur & Hcp) Hn].
  destruct (index_entry_Ok e' (W2, booked e' bs s2)) as [[W3 s3] Hi]. rewrite (mbind_eq _ _ _ _ _ Hi).
  intros Hx. unfold mret, M_ret in Hx. simplify_eq.
  apply index_entry_frame in Hi as [db' ->].
  assert (Hbk : ls_accounts (booked e' bs s2) = ls_accounts s2 ∧ ls_last_chain_hash (booked e' bs s2) = e_chain_hash e' ∧
    ls_next_sequence (booked e' bs s2) = ls_next_sequence s2 ∧ ls_holds (booked e' bs s2) = ls_holds s2 ∧
    ls_settlements (booked e' bs s2) = ls_settlements s2 ∧ ls_currencies (booked e' bs s2) = ls_currencies s2 ∧
    ls_recon (booked e' bs s2) = ls_recon s2 ∧ ls_checkpoint (booked e' bs s2) = ls_checkpoint s2 ∧
    ls_reversals (booked e' bs s2) = ls_reversals s2).
  { unfold booked. by rewrite apply_balances_cache. }
  destruct Hbk as (B1 & B2 & B3 & B4 & B5 & B6 & B7 & B8 & B9). cbn in *.
  split_and!; [done|by rewrite B9|]. unfold appended_entry; cbn. rewrite B1, B2, B3, B4, B5, B6, B7, B8.
  split_and!; try done. intros id.
  change (balance id (s_db db' (booked e' bs s2))) with (balance id (booked e' bs s2)).
  rewrite balance_booked, Hacc. unfold balance. by rewrite Hbal.
Qed.

(** A successful [post_entry]: a known key, or an entry appended. *)
Lemma post_entry_Ok e W s seq W' s' :
  post_entry e (W, s) = (Ok seq, (W', s')) →
  (s' = s ∧ ∃ key, e_idempotency_key e = Some key) ∨
  ((2 ≤ length (e_lines e))%nat ∧ balanced (e_lines e) ∧ admitted s e ∧ seq = ls_next_sequence s ∧
   ls_reversals s' = ls_reversals s ∧
   ∃ e', appended_entry s s' e' ∧ e_lines e' = e_lines e ∧ e_status e' = e_status e ∧ e_id e' = e_id e).
Proof.
  intros [(? & ? & _)|[(k & _ & -> & _ & Hd)|(Hv & Hc & W1 & _ & Hce)]]%post_entry_cases; [done| |].
  - left. split; [done|]. unfold posted_before in Hd. destruct (e_idempotency_key e); [by eexists|]. by minv.
  - right. apply validate_Ok in Hv as [Hlen Hbal]. apply post_checks_Ok in Hc.
    apply commit_entry_Ok in Hce as (-> & Hrev & Happ). split_and!; try done. by eexists.
Qed.

(** Posting never drives a balance negative: an Asset or Expense account
    that requires a non-negative balance and had one still has one after any
    successful [post_entry] that debits and credits it, however many lines of
    the entry touch it. *)
Theorem post_entry_non_negative e W s seq W' s' id a :
  post_entry e (W, s) = (Ok seq, (W', s')) →
  ls_accounts s !! id = Some a → require_non_negative_balance a = true →
  is_debit_normal (account_type a) = true → 0 ≤ balance id s → 0 ≤ balance id s'.
Proof.
  intros [(? & ? & _)|[(k & _ & -> & _)|(Hv & Hc & W1 & _ & Hce)]]%post_entry_cases; [done..|].
  intros Ha Hr Hn Hb. apply post_checks_Ok in Hc as [_ Hadm].
  apply commit_entry_Ok in Hce as (_ & _ & (_&_&_&_&_&_&_&_&_&_&->)).
  unfold entry_effect. destruct (affects_balance _); [|lia]. cbn. unfold effect. rewrite Ha.
  unfold cache_sign. rewrite Hn. rewrite Z.mul_1_l.
  destruct (decide (touches id (e_lines e))) as [Ht|Ht]; [|rewrite sumZ_on_none by done; lia].
  destruct (Hadm id a Ht Ha) as [_ Hnn]. specialize (Hnn Hr Hn). lia.
Qed.
(** An entry whose hashes were finalized before posting, as the builder's
    documentation tells callers to do, keeps the content hash computed over its
    provisional sequence number, so the entry [post_entry] commits does not
    verify, unless BLAKE3 collides on the two encodings. *)
Theorem finalized_before_posting prev e W s :
  hash_bytes (canonical_bytes e) ≠ ZERO_HASH → u64_ok (e_sequence e) → u64_ok (ls_next_sequence s) →
  e_sequence e ≠ ls_next_sequence s →
  verify_hashes (final_entry W s (finalize_hashes prev e)) = false ∨
  collision [canonical_bytes e] [canonical_bytes (final_entry W s (finalize_hashes prev e))].
Proof.
  intros Hnz Hu1 Hu2 Hne. set (e0 := finalize_hashes prev e). set (e' := final_entry W s e0).
  destruct (verify_hashes e') eqn:Hv; [right|by left]. apply verify_hashes_spec in Hv as [Hc _].
  assert (Hc0 : e_content_hash (set_posting (ls_next_sequence s) (clock W) e0) = hash_bytes (canonical_bytes e)).
  { unfold e0, finalize_hashes, finalize_chain_hash, precompute_content_hash. cbn. by rewrite bool_decide_false. }
  assert (Hst : e_content_hash e' = hash_bytes (canonical_bytes e)).
  { unfold e', final_entry. rewrite finalize_chain_hash_stale; [exact Hc0|]. by rewrite Hc0. }
  exists (canonical_bytes e), (canonical_bytes e'). split_and!; [by left|by left| |].
  - intros Heq. apply Hne. by apply (canonical_bytes_sequence e e').
  - unfold hash_bytes in *. by rewrite <- Hst, <- Hc.
Qed.
End books.
