(* ===== verification/StoreInv.v ===== *)
(** * The ledger store: the invariant of the books

    When no I/O call fails, the SQLite index holds exactly the entries
    committed so far, they form a verified hash chain whose tip the store
    keeps, and every cached balance is the sum of the effects of the entries
    on its account.  Every operation of the store preserves this, and what the
    verification, reconciliation and accounting-equation checks report on such
    a store follows from it. *)

From stdpp Require Import base gmap list strings option fin_maps sorting.
From Stdlib Require Import ZArith Lia.
From S2P Require Import Prelude Bytes Crypto Money Entry WalRecord Wal Recovery Tx Page EntryDb Store StoreFrame StoreBooks.

Section inv.
Context `{Blake3} `{Ed25519} `{WalExt} `{PageExt} `{LedgerCodecs} `{LedgerExt}.

(** ** Operations without failures *)

Lemma write_all_calm d : calm (write_all d).
Proof. unfold write_all. solve_calm. Qed.
Lemma roll_segment_calm : calm roll_segment.
Proof. unfold roll_segment, sync_all. solve_calm. Qed.
Lemma seal_blob_calm k p : calm (seal_blob k p).
Proof. unfold seal_blob, gen_nonce. solve_calm. Qed.
#[local] Hint Resolve write_all_calm roll_segment_calm seal_blob_calm : calm.

Lemma append_encrypted_calm k p : calm (append_encrypted k p).
Proof. unfold append_encrypted, add_offset. solve_calm. Qed.
Lemma append_plain_calm h p c : calm (append_plain h p c).
Proof. unfold append_plain, ensure_space, add_offset. solve_calm. Qed.
#[local] Hint Resolve append_encrypted_calm append_plain_calm : calm.

Lemma append_calm t k p : calm (append t k p).
Proof. unfold append, after_write, sync_all. solve_calm. Qed.
#[local] Hint Resolve append_calm : calm.

Lemma wal_append_calm {P} `{Codec P} t k (p : P) : calm (wal_op (append_record t k p)).
Proof. unfold wal_op, append_record. apply calm_map_err, calm_zoom. solve_calm. Qed.
#[local] Hint Resolve wal_append_calm : calm.

Lemma begin_calm d : calm (begin d).
Proof. unfold begin. solve_calm. Qed.
Lemma add_mutation_calm t tb pg sl k row prev : calm (add_mutation t tb pg sl k row prev).
Proof. unfold add_mutation, with_tx. solve_calm. Qed.
Lemma commit_calm t : calm (commit t).
Proof. unfold commit, finish_commit. solve_calm. Qed.

Lemma write_page_calm p : calm (write_page p).
Proof.
  unfold write_page, write_page_enc, write_page_plain, efile_for_table, file_for_table, open_handle, file_write, page_nonce.
  solve_calm.
Qed.
#[local] Hint Resolve begin_calm add_mutation_calm commit_calm write_page_calm : calm.

Lemma tx_op_calm {A} (m : TM A) : calm m → calm (tx_op m).
Proof. intros. by apply calm_map_err, calm_zoom. Qed.
Lemma page_op_calm {A} (m : PSM A) : calm m → calm (page_op m).
Proof. intros. by apply calm_map_err, calm_zoom. Qed.
#[local] Hint Resolve tx_op_calm page_op_calm : calm.

Lemma persist_row_calm t bs k prev : calm (persist_row t bs k prev).
Proof. unfold persist_row, write_to_page. solve_calm. Qed.
Lemma persist_row_pair_calm ta da pa tb db : calm (persist_row_pair ta da pa tb db).
Proof. unfold persist_row_pair, write_to_page. solve_calm. Qed.

(** ** The invariant *)

Definition entry_ok (accounts : gmap Z Account) (e : JournalEntry) : Prop :=
  balanced (e_lines e) ∧ Forall (λ l, is_Some (accounts !! ln_account_id l)) (e_lines e).

(** The balance the entries give an account. *)
Fixpoint sum_effects (accounts : gmap Z Account) (id : Z) (es : list JournalEntry) : Z :=
  match es with [] => 0 | e :: es => entry_effect accounts id e + sum_effects accounts id es end.

(** The cross-reference lists the entries that touch each account. *)
Definition refs_ok (t : Tables) (es : list JournalEntry) : Prop :=
  match t_account_entries t with
  | None => es = []
  | Some ae => ∀ id k, (id, k) ∈ ae ↔ ∃ e, e ∈ es ∧ e_sequence e = k ∧ touches id (e_lines e)
  end.

(** A recorded reversal is an entry that names what it reverses. *)
Definition reversals_ok (rev : gmap Z Z) (es : list JournalEntry) : Prop :=
  ∀ id rid, rev !! id = Some rid →
    ∃ e, e ∈ es ∧ e_id e = rid ∧ e_status e = Reversal ∧ e_reverses_entry_id e = Some id.

Record ledger_inv (s : LedgerStore) (es : list JournalEntry) : Prop := {
  inv_db : db_repr (db_tables (ls_db s)) es;
  inv_refs : refs_ok (db_tables (ls_db s)) es;
  inv_chain : verify_entries ZERO_HASH es = None;
  inv_tip : ls_last_chain_hash s = tip ZERO_HASH es;
  inv_next : 0 < ls_next_sequence s;
  inv_seqs : Forall (λ e, e_sequence e < ls_next_sequence s) es;
  inv_entries : Forall (entry_ok (ls_accounts s)) es;
  inv_balance : ∀ id, balance id s = sum_effects (ls_accounts s) id es;
  inv_accounts : ∀ id a, ls_accounts s !! id = Some a → acc_id a = id;
  inv_reversals : reversals_ok (ls_reversals s) es;
  inv_fts : es ≠ [] → t_fts (db_tables (ls_db s)) ≠ ∅;
  inv_saved : db_saved (ls_db s) = None
}.

Lemma sum_effects_app accounts id es1 es2 :
  sum_effects accounts id (es1 ++ es2) = sum_effects accounts id es1 + sum_effects accounts id es2.
Proof. induction es1 as [|e es1 IH]; [done|]. cbn. rewrite IH. lia. Qed.

Lemma reversals_ok_app rev es e : reversals_ok rev es → reversals_ok rev (es ++ [e]).
Proof. intros Hr id rid Hid. destruct (Hr id rid Hid) as (e' & Hin & ?). exists e'. split; [set_solver|done]. Qed.

(** *** Indexing an entry *)

Section quiet_index.
Context (W : World) (Hio : w_io W = []).

Lemma db_try_quiet {A} (m : DbM A) s a db :
  m (W, ls_db s) = (Ok a, (W, db)) → db_try m (W, s) = (Ok (Ok a), (W, s_db db s)).
Proof. intros Hm. unfold db_try, attempt, db_op, zoom. by rewrite Hm. Qed.

Lemma db_try_reads_quiet {A} (m : DbM A) s a :
  m (W, ls_db s) = (Ok a, (W, ls_db s)) → db_try m (W, s) = (Ok (Ok a), (W, s)).
Proof. intros Hm. by rewrite (db_try_quiet _ _ _ _ Hm), s_db_id. Qed.

Lemma db_op_quiet {A} (m : DbM A) s a :
  m (W, ls_db s) = (Ok a, (W, ls_db s)) → db_op m (W, s) = (Ok a, (W, s)).
Proof. intros Hm. unfold db_op, zoom. by rewrite Hm, s_db_id. Qed.

Definition add_refs (t : Tables) (ps : gset (Z * Z)) : Tables :=
  set_account_entries ((λ ae, ps ∪ ae) <$> t_account_entries t) t.

Lemma insert_account_entry_quiet id seq db ae :
  t_account_entries (db_tables db) = Some ae →
  insert_account_entry id seq (W, db) =
  (Ok tt, (W, mkDb (add_refs (db_tables db) {[(id, as_i64 seq)]}) (db_saved db))).
Proof.
  intros Hae. unfold insert_account_entry.
  rewrite (mbind_eq _ _ _ (t_account_entries (db_tables db)) (W, db)) by (by apply query_quiet).
  by rewrite Hae.
Qed.

(** The pairs of an entry. *)
Definition pairs_of (e : JournalEntry) : gset (Z * Z) :=
  list_to_set (map (λ l, (ln_account_id l, e_sequence e)) (e_lines e)).

Lemma elem_of_pairs e id k : (id, k) ∈ pairs_of e ↔ k = e_sequence e ∧ touches id (e_lines e).
Proof.
  unfold pairs_of, touches. rewrite elem_of_list_to_set, Exists_exists, list_elem_of_fmap. naive_solver.
Qed.

Lemma index_lines_quiet s e ae :
  seq_ok e → t_account_entries (db_tables (ls_db s)) = Some ae →
  ∃ t', index_lines e (W, s) = (Ok tt, (W, s_db (mkDb t' (db_saved (ls_db s))) s)) ∧
    t_entries t' = t_entries (db_tables (ls_db s)) ∧ t_account_entries t' = Some (pairs_of e ∪ ae) ∧
    t_fts t' = t_fts (db_tables (ls_db s)).
Proof.
  intros Hs. unfold index_lines, pairs_of. revert s ae. induction (e_lines e) as [|l ls IH]; intros s ae Hae.
  { exists (db_tables (ls_db s)). cbn. rewrite Hae. split_and!; [|done|f_equal; set_solver|done].
    unfold mret, M_ret. do 2 f_equal. by destruct s as [?? [??]]. }
  cbn [forM].
  set (db1 := mkDb (add_refs (db_tables (ls_db s)) {[(ln_account_id l, e_sequence e)]}) (db_saved (ls_db s))).
  rewrite (mbind_eq _ _ _ tt (W, s_db db1 s)).
  2: { rewrite (mbind_eq _ _ _ (Ok tt) (W, s_db db1 s)); [done|]. apply db_try_quiet.
       rewrite (insert_account_entry_quiet _ _ _ ae) by done. by rewrite as_i64_seq. }
  destruct (IH (s_db db1 s) ({[(ln_account_id l, e_sequence e)]} ∪ ae)) as (t' & -> & He & Ha & Hft).
  { cbn. by rewrite Hae. }
  exists t'. split_and!; [done|by rewrite He| |by rewrite Hft]. rewrite Ha. f_equal. cbn. set_solver.
Qed.

Lemma refs_ok_snoc t ae es e :
  (∀ id k, (id, k) ∈ ae ↔ ∃ e', e' ∈ es ∧ e_sequence e' = k ∧ touches id (e_lines e')) →
  t_account_entries t = Some (pairs_of e ∪ ae) → refs_ok t (es ++ [e]).
Proof.
  intros Hae Ht. unfold refs_ok. rewrite Ht. intros id k. rewrite elem_of_union, elem_of_pairs, Hae. split.
  - intros [[-> ?]|(e' & ? & ?)]; [exists e|exists e']; set_solver.
  - intros (e' & [Hin|Hin]%elem_of_app & <- & ?); [right; by exists e'|].
    apply list_elem_of_singleton in Hin as ->. by left.
Qed.

Lemma db_repr_entries t t' es : t_entries t' = t_entries t → db_repr t es → db_repr t' es.
Proof. intros He. unfold db_repr, stored_in. by rewrite He. Qed.

(** Indexing a new highest entry with an unused key succeeds and adds it. *)
Lemma index_entry_quiet s es e d :
  db_repr (db_tables (ls_db s)) es → refs_ok (db_tables (ls_db s)) es → seq_ok e →
  Forall (λ e', e_sequence e' < e_sequence e) es → fresh_key es e → enc e = Some d →
  ∃ t', index_entry e (W, s) = (Ok tt, (W, s_db (mkDb t' (db_saved (ls_db s))) s)) ∧
    db_repr t' (es ++ [e]) ∧ refs_ok t' (es ++ [e]) ∧ t_fts t' ≠ ∅.
Proof.
  intros Hr Hrefs Hs Hlt Hf He. unfold index_entry, index_insert. set (t := db_tables (ls_db s)) in *.
  set (ae := default ∅ (t_account_entries t)). set (t1 := set_account_entries (Some ae) t).
  assert (Hae : ∀ id k, (id, k) ∈ ae ↔ ∃ e', e' ∈ es ∧ e_sequence e' = k ∧ touches id (e_lines e')).
  { unfold ae, refs_ok in *. destruct (t_account_entries t); [done|]. subst es. set_solver. }
  rewrite (mbind_eq _ _ _ (Ok tt) (W, s_db (mkDb t1 (db_saved (ls_db s))) s)) by (apply db_try_quiet; by apply execute_quiet).
  assert (Hr1 : db_repr t1 es) by (by apply (db_repr_entries t)).
  rewrite (mbind_eq _ _ _ (Ok tt) (W, s_db (mkDb (inserted e d t1) (db_saved (ls_db s))) s)).
  2: { apply (db_try_quiet _ (s_db (mkDb t1 (db_saved (ls_db s))) s)). by apply (insert_quiet W Hio (mkDb t1 (db_saved (ls_db s))) es). }
  destruct (index_lines_quiet (s_db (mkDb (inserted e d t1) (db_saved (ls_db s))) s) e ae) as (t' & -> & Hent & Hae' & Hft); [done..|].
  exists t'. split_and!; [done| |by eapply refs_ok_snoc|rewrite Hft; apply insert_non_empty].
  eapply db_repr_entries; [exact Hent|]. by apply inserted_repr.
Qed.
End quiet_index.

(** ** Preservation *)

#[global] Instance ledger_inv_proper : Proper (same_ledger ==> eq ==> iff) ledger_inv.
Proof.
  assert (Himp : ∀ s s' es, same_ledger s s' → ledger_inv s es → ledger_inv s' es).
  { intros s s' es [(Hdb & Hacc & Hbal & Htip & Hrev & _) Hn] [Ia Ib Ic Id Ie If Ig Ih Ii Ij Ik Il].
    assert (Hb : ∀ id, balance id s' = balance id s) by (intros id; unfold balance; by rewrite Hbal).
    constructor; rewrite ?Hdb, ?Hacc, ?Htip, ?Hrev, ?Hn; try done. intros id. by rewrite Hb. }
  intros s s' Hs es ? <-. split; apply Himp; [done|by symmetry].
Qed.

(** A consumed sequence number. *)
Lemma next_seq_inv s es :
  ls_next_sequence s < 2 ^ 63 → ledger_inv s es → ledger_inv (next_seq s) es.
Proof.
  intros Hlt [Ia Ib Ic Id Ie If Ig Ih Ii Ij Ik Il]. constructor; try done; cbn.
  - rewrite wadd_u64_small; lia.
  - rewrite wadd_u64_small by lia. eapply Forall_impl; [exact If|]. cbn. lia.
Qed.

Lemma next_seq_value s es :
  ls_next_sequence s < 2 ^ 63 → ledger_inv s es → ls_next_sequence (next_seq s) = ls_next_sequence s + 1.
Proof. intros Hlt Hi. pose proof (inv_next _ _ Hi). cbn. rewrite wadd_u64_small; lia. Qed.

(** An entry ready to be appended to the books. *)
Record appendable (s : LedgerStore) (es : list JournalEntry) (e : JournalEntry) (d : bytes) : Prop := {
  ap_sequence : e_sequence e = ls_next_sequence s;
  ap_prev : e_prev_hash e = ls_last_chain_hash s;
  ap_hashes : verify_hashes e = true;
  ap_enc : enc e = Some d;
  ap_key : fresh_key es e;
  ap_ok : entry_ok (ls_accounts s) e
}.

(** Indexing an entry already booked in memory restores the invariant. *)
Lemma append_inv W s es s3 e d :
  w_io W = [] → ledger_inv s es → ls_next_sequence s < 2 ^ 63 → appendable s es e d →
  ls_db s3 = ls_db s → ls_accounts s3 = ls_accounts s → ls_next_sequence s3 = ls_next_sequence s + 1 →
  ls_last_chain_hash s3 = e_chain_hash e →
  (∀ id, balance id s3 = balance id s + entry_effect (ls_accounts s) id e) →
  reversals_ok (ls_reversals s3) (es ++ [e]) →
  ∃ db', index_entry e (W, s3) = (Ok tt, (W, s_db db' s3)) ∧ ledger_inv (s_db db' s3) (es ++ [e]).
Proof.
  intros Hio [Ia Ib Ic Id Ie If Ig Ih Ii Ij Ik Il] Hlt [Aseq Aprev Ahash Aenc Akey Aok] Hdb Hacc Hn Htip Hbal Hrev.
  destruct (index_entry_quiet W Hio s3 es e d) as (t' & Hi & Hr & Hf & Hft); rewrite ?Hdb; try done.
  { unfold seq_ok. lia. } { by rewrite Aseq. }
  eexists. split; [exact Hi|]. constructor; cbn; rewrite ?Hacc, ?Hn, ?Htip; try done.
  - apply verify_entries_snoc; [done..|]. by rewrite Aprev.
  - by rewrite tip_snoc.
  - lia.
  - apply Forall_app. split; [|apply Forall_singleton; lia]. eapply Forall_impl; [exact If|]. cbn. lia.
  - apply Forall_app. split; [done|by apply Forall_singleton].
  - intros id. change (balance id (s_db _ s3)) with (balance id s3). rewrite Hbal, Ih, sum_effects_app. cbn. lia.
  - by rewrite Hdb.
Qed.

(** *** Posting *)

(** The entries an operation adds, when it succeeds. *)
Lemma commit_entry_inv e W s es r W' s' :
  w_io W = [] → ledger_inv s es → ls_next_sequence s < 2 ^ 63 →
  e_content_hash e = ZERO_HASH → fresh_key es e → entry_ok (ls_accounts s) e →
  commit_entry e (W, s) = (r, (W', s')) →
  (is_ok r = false ∧ ledger_inv s' es ∧ ls_next_sequence s' = ls_next_sequence s + 1) ∨
  (r = Ok (ls_next_sequence s) ∧ ledger_inv s' (es ++ [final_entry W s e])).
Proof.
  intros Hio Hi Hlt Hz Hk Hok. rewrite commit_entry_eq. cbv zeta. set (e' := final_entry W s e).
  pose proof (next_seq_inv s es Hlt Hi) as Hnext. pose proof (next_seq_value s es Hlt Hi) as Hnv.
  destruct (enc e') as [bs|] eqn:Hbs; [|intros; simplify_eq; by left].
  destruct (persist_row _ _ _ _ _) as [[?|?] [W2 s2]] eqn:Hp.
  2: { intros; simplify_eq. left. apply persist_row_frame in Hp. split_and!; [done|by rewrite <- Hp|].
       destruct Hp as [_ ->]. done. }
  assert (Hio2 : w_io W2 = []) by (eapply calm_run; [apply persist_row_calm|exact Hp|done]).
  apply persist_row_frame in Hp as [(Hdb & Hacc & Hbal & Htip & Hrev & _) Hn].
  assert (Hbk : ∃ c, booked e' bs s2 = s_balance c (s_last_chain_hash (e_chain_hash e') (s_last_bytes (Some bs) s2))).
  { unfold booked. rewrite apply_balances_cache. by eexists. }
  destruct (append_inv W2 s es (booked e' bs s2) e' bs) as (db' & Hx & Hinv); try done.
  - constructor; try done. by apply finalize_chain_hash_verifies.
  - destruct Hbk as [c ->]. exact Hdb.
  - destruct Hbk as [c ->]. exact Hacc.
  - destruct Hbk as [c ->]. cbn. by rewrite Hn.
  - by destruct Hbk as [c ->].
  - intros id. rewrite balance_booked, Hacc. unfold balance. by rewrite Hbal.
  - destruct Hbk as [c ->]. cbn. rewrite Hrev. apply reversals_ok_app, Hi.
  - rewrite (mbind_eq _ _ _ tt _ Hx). intros Hr. unfold mret, M_ret in Hr. simplify_eq. by right.
Qed.
(** The sequence of the entry posted under the key of [e]. *)
Definition posted_as (es : list JournalEntry) (e : JournalEntry) : option Z :=
  key ← e_idempotency_key e;
  e_sequence <$> find (λ e', bool_decide (e_idempotency_key e' = Some key)) es.

Lemma existsb_find {A} (f : A → bool) l : existsb f l = bool_decide (is_Some (find f l)).
Proof.
  induction l as [|x l IH]; cbn; [done|]. by destruct (f x).
Qed.

Lemma find_keys t es key :
  db_repr t es →
  find (λ k, bool_decide (t_entries t !! k ≫= row_idempotency_key = Some key)) (sorted_keys (t_entries t)) =
  e_sequence <$> find (λ e', bool_decide (e_idempotency_key e' = Some key)) es.
Proof.
  intros (Hk & Hs & _). rewrite Hk. clear Hk. induction Hs as [|e es (r & Hr & (d & _ & ->)) _ IH]; [done|]. cbn.
  rewrite Hr. cbn. case_bool_decide; [done|exact IH].
Qed.

Lemma find_elem {A} (f : A → bool) l x : find f l = Some x → x ∈ l ∧ f x = true.
Proof.
  induction l as [|y l IH]; cbn; [done|]. destruct (f y) eqn:Hy; [intros [= ->]; by split; [left|]|].
  intros [? ?]%IH. by split; [right|].
Qed.

Lemma posted_before_quiet W s es e :
  w_io W = [] → db_repr (db_tables (ls_db s)) es → posted_before e (W, s) = (Ok (posted_as es e), (W, s)).
Proof.
  intros Hio Hr. unfold posted_before, posted_as. destruct (e_idempotency_key e) as [key|]; [|done]. cbn.
  assert (Hex : db_try (idempotency_key_exists key) (W, s) = (Ok (Ok (key_used key (db_tables (ls_db s)))), (W, s))).
  { apply db_try_reads_quiet. by apply query_quiet. }
  rewrite (mbind_eq _ _ _ _ _ Hex), (key_used_repr _ _ _ Hr), existsb_find. cbn [res_unwrap_or].
  destruct (find _ es) as [e'|] eqn:Hf; [|done]. rewrite bool_decide_true by (by eexists).
  assert (Hq : db_try (sequence_for_idempotency_key key) (W, s) = (Ok (Ok (Some (e_sequence e'))), (W, s))).
  { apply db_try_reads_quiet. unfold sequence_for_idempotency_key.
    rewrite (query_quiet W Hio), (find_keys _ es), Hf by done. cbn. do 3 f_equal.
    apply find_elem in Hf as [Hin _]. destruct Hr as (_ & _ & Hok). rewrite Forall_forall in Hok.
    specialize (Hok e' Hin). unfold seq_ok in Hok. rewrite as_u64_small; [done|unfold u64_ok; lia]. }
  by rewrite (mbind_eq _ _ _ _ _ Hq).
Qed.

Lemma posted_as_None es e : posted_as es e = None → fresh_key es e.
Proof.
  unfold posted_as. intros Hp key Hkey. rewrite Hkey in Hp. cbn in Hp. apply fmap_None in Hp.
  apply Forall_forall. intros e' Hin Hk. pose proof (existsb_find (λ e', bool_decide (e_idempotency_key e' = Some key)) es) as Hx.
  rewrite Hp in Hx.
  assert (existsb (λ e', bool_decide (e_idempotency_key e' = Some key)) es = true) as Ht.
  { apply existsb_exists. exists e'. split; [by apply list_elem_of_In|by apply bool_decide_true]. }
  by rewrite Ht in Hx.
Qed.

Lemma admitted_accounts s e : admitted s e → Forall (λ l, is_Some (ls_accounts s !! ln_account_id l)) (e_lines e).
Proof. intros [Hl _]. eapply Forall_impl; [exact Hl|]. intros l (a & Ha & _). by eexists. Qed.

Lemma post_entry_inv e W s es r W' s' :
  w_io W = [] → ledger_inv s es → ls_next_sequence s < 2 ^ 63 → e_content_hash e = ZERO_HASH →
  post_entry e (W, s) = (r, (W', s')) →
  (ledger_inv s' es ∧ ls_next_sequence s ≤ ls_next_sequence s') ∨
  (r = Ok (ls_next_sequence s) ∧ ledger_inv s' (es ++ [final_entry W s e])).
Proof.
  intros Hio Hi Hlt Hz [(? & -> & -> & _)|[(k & -> & -> & _)|(Hv & Hc & W1 & Hpb & Hce)]]%post_entry_cases.
  - left. by split.
  - left. by split.
  - rewrite (posted_before_quiet W s es e Hio (inv_db _ _ Hi)) in Hpb.
    injection Hpb as Hnone <-. apply posted_as_None in Hnone.
    apply validate_Ok in Hv as [_ Hbal]. apply post_checks_Ok in Hc as Hadm%admitted_accounts.
    eapply commit_entry_inv in Hce as [(_ & ? & ->)|?]; [left; split; [done|lia]|by right|done..|by split].
Qed.
End inv.
