(* ===== verification/StoreReverse.v ===== *)
(** * The ledger store: reversal

    A reversal appends the mirror image of an existing entry: it cancels the
    entry's effect on every balance, leaves the entry as it is, and can be made
    only once. *)

From stdpp Require Import base gmap list strings option fin_maps sorting.
From Stdlib Require Import ZArith Lia.
From S2P Require Import Prelude Bytes Crypto Money Entry WalRecord Wal Recovery Tx Page EntryDb Store StoreFrame StoreBooks StoreInv.

(** ** Mirror lines *)

Definition mirrors (l m : JournalLine) : Prop :=
  ln_account_id m = ln_account_id l ∧ ln_currency_code m = ln_currency_code l ∧
  ln_amount m = ln_amount l ∧ ln_dr_cr m = flip (ln_dr_cr l).

Lemma mirror_net l m : mirrors l m → net_debit_of m = - net_debit_of l.
Proof. intros (_ & _ & Ha & Hd). unfold net_debit_of. rewrite Ha, Hd. destruct (ln_dr_cr l); cbn; lia. Qed.

Lemma mirror_net_sum ls ms : Forall2 mirrors ls ms → sumZ net_debit_of ms = - sumZ net_debit_of ls.
Proof. induction 1 as [|l m ls ms Hm _ IH]; [done|]. cbn. rewrite IH, (mirror_net _ _ Hm). lia. Qed.

Lemma mirror_on_sum id ls ms :
  Forall2 mirrors ls ms → sumZ (on id net_debit_of) ms = - sumZ (on id net_debit_of) ls.
Proof.
  induction 1 as [|l m ls ms Hm _ IH]; [done|]. cbn. rewrite IH. pose proof (mirror_net _ _ Hm).
  destruct Hm as [Ha _]. unfold on. rewrite Ha. case_decide; lia.
Qed.

Lemma mirror_effect accounts id ls ms : Forall2 mirrors ls ms → effect accounts id ms = - effect accounts id ls.
Proof. intros Hm. unfold effect. destruct (accounts !! id); [|done]. rewrite (mirror_on_sum _ _ _ Hm). lia. Qed.

Lemma balanced_net ls : balanced ls ↔ sumZ net_debit_of ls = 0.
Proof. unfold balanced. rewrite sumZ_net_debit. lia. Qed.

Lemma mirror_balanced ls ms : Forall2 mirrors ls ms → balanced ls → balanced ms.
Proof. rewrite !balanced_net. intros ->%mirror_net_sum. lia. Qed.

Lemma mirror_accounts (P : Z → Prop) ls ms :
  Forall2 mirrors ls ms → Forall (λ l, P (ln_account_id l)) ls → Forall (λ l, P (ln_account_id l)) ms.
Proof.
  induction 1 as [|l m ls ms (Ha & _) _ IH]; [done|]. intros [Hl Hls]%Forall_cons. constructor; [by rewrite Ha|auto].
Qed.

Section reverse.
Context `{Blake3} `{Ed25519} `{WalExt} `{PageExt} `{LedgerCodecs} `{LedgerExt}.

(** ** Finding the original *)

(** The world after one I/O call, and a query in any environment. *)
Definition after_io (W : World) : World := mkWorld (w_clock W) (w_rng W) (tail (w_io W)).

Lemma query_run {A} (f : Tables → A) W db :
  query f (W, db) =
  (if default false (head (w_io W)) then Err sqlite_error else Ok (f (db_tables db)), (after_io W, db)).
Proof. unfold query, mbind, M_bind, io. by destruct (default false (head (w_io W))). Qed.

(** A stream over a well-formed index, in any environment. *)
Lemma stream_all_run {A} (f : JournalEntry → A → Result LedgerError A) acc W s es r W' s' :
  db_repr (db_tables (ls_db s)) es → db_op (stream_all f acc) (W, s) = (r, (W', s')) →
  s' = s ∧ (r = Ok (stream_entries f es acc) ∨ r = Ok (acc, Err sqlite_error)).
Proof.
  intros Hr Hd. pose proof (db_op_reads _ _ _ _ _ _ (stream_all_reads f acc) Hd) as ->. split; [done|].
  unfold db_op, zoom in Hd. destruct (stream_all f acc (W, ls_db s)) as [r0 [W0 db0]] eqn:Hst.
  injection Hd as -> _ _. unfold stream_all in Hst.
  destruct (default false (head (w_io W))) eqn:Hf.
  - rewrite (mbind_eq _ _ _ (Err sqlite_error) (after_io W, ls_db s)) in Hst by (unfold attempt; by rewrite query_run, Hf).
    right. by injection Hst as <- _ _.
  - rewrite (mbind_eq _ _ _ (Ok (rows (db_tables (ls_db s)))) (after_io W, ls_db s)) in Hst by (unfold attempt; by rewrite query_run, Hf).
    left. pose proof (stream_all_quiet quiet eq_refl f acc (ls_db s) es Hr) as Hq. unfold stream_all in Hq.
    rewrite (mbind_eq _ _ _ (Ok (rows (db_tables (ls_db s)))) (quiet, ls_db s)) in Hq by done.
    injection Hst as <- _ _. injection Hq as Hq. by rewrite Hq.
Qed.

(** The last entry with an identifier. *)
Definition last_with (entry_id : Z) (es : list JournalEntry) : option JournalEntry :=
  last (filter (λ e, e_id e = entry_id) es).

Lemma last_with_elem id es o : last_with id es = Some o → o ∈ es ∧ e_id o = id.
Proof.
  unfold last_with. intros Hl%last_Some_elem_of. apply list_elem_of_filter in Hl as [? ?]. done.
Qed.

(** The loops that remember something of the last entry with an id. *)
Lemma stream_last {B} (g : JournalEntry → B) id es acc :
  stream_entries (λ e acc, Ok (if bool_decide (e_id e = id) then Some (g e) else acc)) es acc =
  (match last_with id es with Some e => Some (g e) | None => acc end, Ok tt).
Proof.
  unfold last_with. revert acc. induction es as [|e es IH]; intros acc; [done|]. cbn [stream_entries].
  rewrite IH. rewrite filter_cons. case_bool_decide as Hid.
  - rewrite decide_True by done. rewrite last_cons. by destruct (last _).
  - by rewrite decide_False by done.
Qed.

Lemma find_sequence_run id W s es r W' s' :
  db_repr (db_tables (ls_db s)) es → find_sequence id (W, s) = (r, (W', s')) →
  s' = s ∧ (r = Ok (e_sequence <$> last_with id es) ∨ r = Ok None).
Proof.
  intros Hr Hf. unfold find_sequence in Hf.
  apply mbind_inv in Hf as [(x & [W1 s1] & Hd & Hf)|(x & Hd & ->)];
    pose proof (stream_all_run _ _ _ _ _ _ _ _ Hr Hd) as [-> [Hx|Hx]]; try done; apply Ok_inj in Hx; subst x;
    unfold mret, M_ret in Hf; injection Hf as <- _ <-; (split; [done|]); [left|by right].
  rewrite stream_last. by destruct (last_with id es).
Qed.

Lemma get_by_sequence_run W s es o r W' s' :
  db_repr (db_tables (ls_db s)) es → o ∈ es → db_op (get_by_sequence (e_sequence o)) (W, s) = (r, (W', s')) →
  s' = s ∧ (r = Ok (Some o) ∨ is_ok r = false).
Proof.
  intros Hr Hin Hd. pose proof (db_op_reads _ _ _ _ _ _ (get_by_sequence_reads _) Hd) as ->. split; [done|].
  unfold db_op, zoom in Hd. destruct (get_by_sequence _ (W, ls_db s)) as [r0 [W0 db0]] eqn:Hst. simplify_eq.
  pose proof (get_by_sequence_quiet quiet eq_refl (ls_db s) es o Hr Hin) as Hq.
  unfold get_by_sequence in Hst, Hq. destruct (default false (head (w_io W))) eqn:Hf.
  - rewrite (mbind_err _ _ _ sqlite_error (after_io W, ls_db s)) in Hst by (by rewrite query_run, Hf).
    right. by injection Hst as <- _ _.
  - rewrite (mbind_eq _ _ _ _ _ (query_quiet quiet eq_refl _ _)) in Hq.
    rewrite (mbind_eq _ _ _ _ (after_io W, ls_db s)) in Hst by (by rewrite query_run, Hf). left.
    destruct (t_entries _ !! _) as [row|]; [|by injection Hq]. unfold mbind, M_bind, liftR, mret, M_ret in Hst, Hq.
    destruct (decode_entry (row_data row)); [|by injection Hq].
    injection Hq as ->. by injection Hst as <- _ _.
Qed.

(** ** Building the reversal *)

Lemma reversal_lines_run ls W s : ∃ ms W', reversal_lines ls (W, s) = (Ok ms, (W', s)) ∧ Forall2 mirrors ls ms ∧ w_io W' = w_io W.
Proof.
  revert W. induction ls as [|l ls IH]; intros W; [by exists [], W|]. cbn [reversal_lines].
  set (W1 := mkWorld (w_clock W) (tail (w_rng W)) (w_io W)). destruct (IH W1) as (ms & W2 & Hr & Hm & Hio).
  eexists _, W2. rewrite (mbind_eq _ _ _ (default 0 (head (w_rng W))) (W1, s)) by done.
  rewrite (mbind_eq _ _ _ _ _ Hr). split_and!; [done| |done]. by constructor.
Qed.

(** What is known of a reversal before it is committed. *)
Record reversal_spec (entry_id : Z) (o r : JournalEntry) : Prop := {
  rs_lines : Forall2 mirrors (e_lines o) (e_lines r);
  rs_status : e_status r = Reversal;
  rs_reverses : e_reverses_entry_id r = Some entry_id;
  rs_key : e_idempotency_key r = None
}.

Lemma build_reversal_run entry_id o desc dom W s :
  ∃ r W', build_reversal entry_id o desc dom (W, s) = (Ok r, (W', s)) ∧ reversal_spec entry_id o r ∧ w_io W' = w_io W.
Proof.
  unfold build_reversal. destruct (reversal_lines_run (e_lines o) W s) as (ms & W1 & Hr & Hm & Hio).
  rewrite (mbind_eq _ _ _ _ _ Hr). eexists _, _. split_and!; [done|by split|done].
Qed.
(** ** The outcome of [reverse_entry] *)

Lemma reverse_entry_cases entry_id desc dom W s es r W' s' :
  db_repr (db_tables (ls_db s)) es → reverse_entry entry_id desc dom (W, s) = (r, (W', s')) →
  (is_ok r = false ∧ s' = s) ∨
  ∃ o rv W1 W2, last_with entry_id es = Some o ∧ reverse_checks s entry_id o = Ok tt ∧
    reversal_spec entry_id o rv ∧ (w_io W = [] → w_io W2 = []) ∧
    build_reversal entry_id o desc dom (W1, s) = (Ok rv, (W2, s)) ∧
    commit_reversal entry_id rv (W2, s) = (r, (W', s')).
Proof.
  intros Hr Hv. unfold reverse_entry in Hv.
  apply mbind_inv in Hv as [(found & [W1 s1] & Hf & Hv)|(x & Hf & ->)].
  2: { apply find_sequence_run with (es := es) in Hf as [-> _]; [|done]. by left. }
  assert (Hio1 : w_io W = [] → w_io W1 = []).
  { intros Hio. eapply calm_run; [|exact Hf|done]. unfold find_sequence, db_op, stream_all, query.
    apply calm_bind; [apply calm_zoom|intros; apply calm_ret]. solve_calm. apply calm_attempt. solve_calm. }
  apply find_sequence_run with (es := es) in Hf as [-> Hf]; [|done].
  destruct found as [seq|]; [|rewrite (mbind_err _ _ _ (EntryNotFound entry_id) (W1, s)) in Hv by done; left; by injection Hv as <- _ <-].
  rewrite (mbind_eq _ _ _ seq (W1, s)) in Hv by done.
  destruct Hf as [Hf|Hf]; apply Ok_inj in Hf; [|done]. symmetry in Hf. apply fmap_Some in Hf as (o & Ho & ->).
  pose proof (last_with_elem _ _ _ Ho) as [Hin _].
  apply mbind_inv in Hv as [(got & [W2 s2] & Hg & Hv)|(x & Hg & ->)].
  2: { apply get_by_sequence_run with (es := es) in Hg as [-> _]; [|done..]. by left. }
  assert (Hio2 : w_io W = [] → w_io W2 = []).
  { intros Hio. eapply calm_run; [|exact Hg|auto]. unfold db_op, get_by_sequence, query. apply calm_zoom. solve_calm. }
  apply get_by_sequence_run with (es := es) in Hg as [-> [Hg|Hg]]; [|done..]. apply Ok_inj in Hg as ->.
  rewrite (mbind_eq _ _ _ o (W2, s)), (mbind_eq _ _ _ s (W2, s)) in Hv by done.
  destruct (reverse_checks s entry_id o) as [[]|x] eqn:Hc.
  2: { rewrite (mbind_err _ _ _ x (W2, s)) in Hv by done. left. by injection Hv as <- _ <-. }
  rewrite (mbind_eq _ _ _ tt (W2, s)) in Hv by done.
  destruct (build_reversal_run entry_id o desc dom W2 s) as (rv & W3 & Hb & Hs & Hio3).
  rewrite (mbind_eq _ _ _ _ _ Hb) in Hv. right. exists o, rv, W2, W3. split_and!; try done.
  intros Hio. rewrite Hio3. auto.
Qed.

Lemma reverse_checks_Ok s entry_id o :
  reverse_checks s entry_id o = Ok tt →
  e_status o = Posted ∧ Forall (λ l, ln_account_id l ∉ ls_holds s) (e_lines o) ∧ ls_reversals s !! entry_id = None.
Proof.
  unfold reverse_checks. case_bool_decide as Hp; cbn; [|done].
  destruct (check_all _ _) as [[]|] eqn:Hc; cbn; [|done]. destruct (ls_reversals s !! entry_id); [done|].
  intros _. split_and!; [done| |done]. apply check_all_Ok in Hc. eapply Forall_impl; [exact Hc|].
  intros l. cbn. by case_bool_decide.
Qed.

(** The reversal in memory, as a balance change. *)
Lemma balance_reversal_booked entry_id r s id :
  balance id (reversal_booked entry_id r s) = balance id s + effect (ls_accounts s) id (e_lines r).
Proof. unfold reversal_booked. by rewrite balance_apply_lines. Qed.

Lemma reversal_booked_fields entry_id r s :
  ∃ c, reversal_booked entry_id r s =
    s_balance c (s_reversals (<[entry_id := e_id r]> (ls_reversals s)) (s_last_chain_hash (e_chain_hash r) s)).
Proof. unfold reversal_booked. rewrite apply_lines_cache. by eexists. Qed.

Lemma final_reversal_fields W s r :
  e_lines (final_reversal W s r) = e_lines r ∧ e_status (final_reversal W s r) = e_status r ∧
  e_id (final_reversal W s r) = e_id r ∧ e_reverses_entry_id (final_reversal W s r) = e_reverses_entry_id r ∧
  e_idempotency_key (final_reversal W s r) = e_idempotency_key r ∧
  e_sequence (final_reversal W s r) = ls_next_sequence s ∧ e_prev_hash (final_reversal W s r) = ls_last_chain_hash s.
Proof. done. Qed.

Lemma final_reversal_spec W s entry_id o r :
  reversal_spec entry_id o r → reversal_spec entry_id o (final_reversal W s r).
Proof. by intros [? ? ? ?]. Qed.

(** What a successful commit of a reversal does. *)
Lemma commit_reversal_Ok entry_id o rv W s rid W' s' :
  reversal_spec entry_id o rv →
  commit_reversal entry_id rv (W, s) = (Ok rid, (W', s')) →
  rid = e_id rv ∧ ls_reversals s' = <[entry_id := rid]> (ls_reversals s) ∧
  appended_entry s s' (final_reversal W s rv).
Proof.
  intros Hs. rewrite commit_reversal_eq. cbv zeta. set (r' := final_reversal W s rv).
  destruct (enc r') as [bs|]; [|done]. destruct (enc (reversal_event _ _)) as [ev|]; [|done].
  destruct (persist_row_pair _ _ _ _ _ _) as [[?|?] [W2 s2]] eqn:Hp; [|done].
  apply persist_row_pair_frame in Hp as [(Hdb & Hacc & Hbal & Htip & Hrev & Hset & Hrec & Hh & Hcur & Hcp) Hn].
  destruct (index_entry_Ok r' (W2, reversal_booked entry_id r' s2)) as [[W3 s3] Hi]. rewrite (mbind_eq _ _ _ _ _ Hi).
  intros Hx. unfold mret, M_ret in Hx. injection Hx as <- <- <-. apply index_entry_frame in Hi as [db' ->].
  pose proof (balance_reversal_booked entry_id r' s2) as Hb.
  destruct (reversal_booked_fields entry_id r' s2) as [c Hc].
  assert (Hst : e_status r' = Reversal) by apply (rs_status _ _ _ (final_reversal_spec W s _ _ _ Hs)).
  split_and!; [done|rewrite Hc; cbn [ls_reversals s_db s_balance s_reversals]; by rewrite Hrev|].
  unfold appended_entry. split_and!; try done; try (by rewrite Hc). intros id.
  change (balance id (s_db db' (reversal_booked entry_id r' s2))) with (balance id (reversal_booked entry_id r' s2)).
  rewrite Hb, Hacc. unfold balance at 1. rewrite Hbal. unfold entry_effect. by rewrite Hst.
Qed.

(** C10: what a successful [reverse_entry] does.  The entry exists, was [Posted], had
    not been reversed and touches no account under legal hold; its mirror
    image was appended under a new identifier that names it, the reversal
    index records it, and every balance moved by exactly minus the original's
    effect.  This holds in every environment. *)
Theorem reverse_entry_effect entry_id desc dom W s es rid W' s' :
  ledger_inv s es → reverse_entry entry_id desc dom (W, s) = (Ok rid, (W', s')) →
  ∃ o r, o ∈ es ∧ e_id o = entry_id ∧ e_status o = Posted ∧
    Forall (λ l, ln_account_id l ∉ ls_holds s) (e_lines o) ∧
    is_reversed entry_id s = false ∧ reversed_by entry_id s' = Some rid ∧
    e_id r = rid ∧ reversal_spec entry_id o r ∧ appended_entry s s' r ∧
    ∀ id, balance id s' = balance id s - entry_effect (ls_accounts s) id o.
Proof.
  intros Hi Hv. apply reverse_entry_cases with (es := es) in Hv as [[? _]|(o & rv & W1 & W2 & Ho & Hc & Hs & _ & _ & Hcr)]; [done| |apply Hi].
  apply last_with_elem in Ho as [Hin Hid]. apply reverse_checks_Ok in Hc as (Hp & Hh & Hn).
  apply commit_reversal_Ok with (o := o) in Hcr as (-> & Hrev & Happ); [|done].
  exists o, (final_reversal W2 s rv). pose proof (final_reversal_spec W2 s _ _ _ Hs) as Hs'.
  split_and!; try done.
  - unfold is_reversed. by rewrite Hn.
  - unfold reversed_by. by rewrite Hrev, lookup_insert_eq.
  - intros id. destruct Happ as (_&_&_&_&_&_&_&_&_&_&->). unfold entry_effect at 1.
    rewrite (rs_status _ _ _ Hs'). cbn [affects_balance]. rewrite (mirror_effect _ _ _ _ (rs_lines _ _ _ Hs')).
    unfold entry_effect. rewrite Hp. cbn [affects_balance]. lia.
Qed.

(** A [reverse_entry] that returns an error leaves the books as they
    were, in every environment. *)
Theorem reverse_entry_error_unchanged entry_id desc dom W s es x W' s' :
  ledger_inv s es → reverse_entry entry_id desc dom (W, s) = (Err x, (W', s')) → same_books s s'.
Proof.
  intros Hi Hv. apply reverse_entry_cases with (es := es) in Hv as [[_ ->]|(o & rv & W1 & W2 & _ & _ & _ & _ & _ & Hcr)]; [done| |apply Hi].
  apply commit_reversal_Err in Hcr as [Hb _]. exact Hb.
Qed.

(** *** The invariant *)

Lemma commit_reversal_inv entry_id o rv W s es r W' s' :
  w_io W = [] → ledger_inv s es → ls_next_sequence s < 2 ^ 63 →
  o ∈ es → reversal_spec entry_id o rv →
  commit_reversal entry_id rv (W, s) = (r, (W', s')) →
  (is_ok r = false ∧ ls_next_sequence s' = ls_next_sequence s + 1 ∧ ledger_inv s' es) ∨
  ledger_inv s' (es ++ [final_reversal W s rv]).
Proof.
  intros Hio Hi Hlt Hin Hs. rewrite commit_reversal_eq. cbv zeta. set (r' := final_reversal W s rv).
  pose proof (next_seq_inv s es Hlt Hi) as Hnext. pose proof (next_seq_value s es Hlt Hi) as Hnv.
  destruct (enc r') as [bs|] eqn:Hbs; [|intros; simplify_eq; by left].
  destruct (enc (reversal_event _ _)) as [ev|]; [|intros; simplify_eq; by left].
  destruct (persist_row_pair _ _ _ _ _ _) as [[?|?] [W2 s2]] eqn:Hp.
  2: { intros; simplify_eq. left. apply persist_row_pair_frame in Hp. split_and!; [done| |by rewrite <- Hp]. by destruct Hp as [_ ->]. }
  assert (Hio2 : w_io W2 = []) by (eapply calm_run; [apply persist_row_pair_calm|exact Hp|done]).
  apply persist_row_pair_frame in Hp as [(Hdb & Hacc & Hbal & Htip & Hrev & _) Hn].
  pose proof (final_reversal_spec W s _ _ _ Hs) as [Hl Hst Hre Hkey]. fold r' in Hl, Hst, Hre, Hkey.
  destruct (reversal_booked_fields entry_id r' s2) as [c Hc].
  pose proof (inv_entries _ _ Hi) as Hent. rewrite Forall_forall in Hent. destruct (Hent o Hin) as [Ob Oa].
  destruct (append_inv W2 s es (reversal_booked entry_id r' s2) r' bs) as (db' & Hx & Hinv); try done.
  - constructor; try done.
    + apply finalize_hashes_verifies.
    + intros key Hk. by rewrite Hkey in Hk.
    + split; [by eapply mirror_balanced|by eapply (mirror_accounts (λ i, is_Some (ls_accounts s !! i)))].
  - rewrite Hc. exact Hdb.
  - rewrite Hc. exact Hacc.
  - rewrite Hc. cbn. by rewrite Hn.
  - by rewrite Hc.
  - intros id. rewrite balance_reversal_booked, Hacc. unfold balance, entry_effect. by rewrite Hbal, Hst.
  - rewrite Hc. cbn. rewrite Hrev. intros id rid. rewrite lookup_insert_Some.
    intros [[<- <-]|[_ Hid]]; [|by apply (reversals_ok_app _ _ _ (inv_reversals _ _ Hi))].
    exists r'. split; [set_solver|done].
  - rewrite (mbind_eq _ _ _ tt _ Hx). intros Hr. unfold mret, M_ret in Hr. simplify_eq. by right.
Qed.

Lemma reverse_entry_inv entry_id desc dom W s es r W' s' :
  w_io W = [] → ledger_inv s es → ls_next_sequence s < 2 ^ 63 →
  reverse_entry entry_id desc dom (W, s) = (r, (W', s')) →
  (ledger_inv s' es ∧ ls_next_sequence s ≤ ls_next_sequence s') ∨
  ∃ rv, ledger_inv s' (es ++ [rv]) ∧ e_sequence rv = ls_next_sequence s.
Proof.
  intros Hio Hi Hlt Hv.
  apply reverse_entry_cases with (es := es) in Hv as [[_ ->]|(o & rv & W1 & W2 & Ho & _ & Hs & Hq & _ & Hcr)]; [by left| |apply Hi].
  apply last_with_elem in Ho as [Hin _].
  eapply commit_reversal_inv in Hcr as [(_ & -> & ?)|Hinv]; [left; split; [done|lia]| |by auto|done..].
  right. by eexists.
Qed.
End reverse.
