(* ===== verification/StoreSafety.v ===== *)
(** * The ledger store: what holds of every reachable store

    The operations of the store as a transition relation, the invariant of
    [StoreInv] for every state it reaches, and what follows: history is only
    extended, the chain verifies, reconciliation and the accounting equation
    hold, snapshots are stable. *)

From stdpp Require Import base gmap list strings option fin_maps sorting relations.
From Stdlib Require Import ZArith Lia.
From S2P Require Import Prelude Bytes Crypto Money Entry WalRecord Wal Recovery Tx Page EntryDb Store StoreFrame StoreBooks StoreInv StoreReverse.

Section safety.
Context `{Blake3} `{Ed25519} `{WalExt} `{PageExt} `{LedgerCodecs} `{LedgerExt}.

(** ** Changes to accounts *)

(** Two charts of accounts give the entries the same effects. *)
Lemma sum_effects_ext accounts accounts' id es :
  Forall (λ e, effect accounts' id (e_lines e) = effect accounts id (e_lines e)) es →
  sum_effects accounts' id es = sum_effects accounts id es.
Proof.
  induction 1 as [|e es He _ IH]; [done|]. cbn. rewrite IH. unfold entry_effect. by rewrite He.
Qed.

(** The same accounts with the same types. *)
Definition same_types (accounts accounts' : gmap Z Account) : Prop :=
  ∀ id, account_type <$> accounts' !! id = account_type <$> accounts !! id.

Lemma effect_types accounts accounts' id ls :
  same_types accounts accounts' → effect accounts' id ls = effect accounts id ls.
Proof.
  intros Ht. specialize (Ht id). unfold effect. destruct (accounts !! id), (accounts' !! id); cbn in Ht; try done.
  by injection Ht as ->.
Qed.

Lemma effect_new accounts a id ls :
  accounts !! acc_id a = None → Forall (λ l, is_Some (accounts !! ln_account_id l)) ls →
  effect (<[acc_id a := a]> accounts) id ls = effect accounts id ls.
Proof.
  intros Hn Hls. unfold effect. destruct (decide (acc_id a = id)) as [<-|Hne]; [|by rewrite lookup_insert_ne].
  rewrite lookup_insert_eq, Hn, sumZ_on_none; [lia|]. intros (l & Hin & Hl)%Exists_exists.
  rewrite Forall_forall in Hls. destruct (Hls l Hin) as [a' Ha']. rewrite Hl, Hn in Ha'. done.
Qed.

(** The parts of the store the invariant reads, with another chart of accounts
    and other tables besides the entries. *)
Definition same_journal (s s' : LedgerStore) : Prop :=
  t_entries (db_tables (ls_db s')) = t_entries (db_tables (ls_db s)) ∧
  t_account_entries (db_tables (ls_db s')) = t_account_entries (db_tables (ls_db s)) ∧
  t_fts (db_tables (ls_db s')) = t_fts (db_tables (ls_db s)) ∧ db_saved (ls_db s') = db_saved (ls_db s) ∧
  ls_balance s' = ls_balance s ∧ ls_last_chain_hash s' = ls_last_chain_hash s ∧
  ls_next_sequence s' = ls_next_sequence s ∧ ls_reversals s' = ls_reversals s.

Lemma same_journal_trans s1 s2 s3 : same_journal s1 s2 → same_journal s2 s3 → same_journal s1 s3.
Proof. unfold same_journal. intuition congruence. Qed.

Lemma same_ledger_journal s s' : same_ledger s s' → same_journal s s'.
Proof. intros [(Hdb & _ & ? & ? & ? & _) ?]. unfold same_journal. rewrite Hdb. done. Qed.

Lemma accounts_inv s s' es :
  ledger_inv s es → same_journal s s' →
  (∀ id e, e ∈ es → effect (ls_accounts s') id (e_lines e) = effect (ls_accounts s) id (e_lines e)) →
  (∀ id, is_Some (ls_accounts s !! id) → is_Some (ls_accounts s' !! id)) →
  (∀ id a, ls_accounts s' !! id = Some a → acc_id a = id) →
  ledger_inv s' es.
Proof.
  intros [Ia Ib Ic Id Ie If Ig Ih Ii Ij Ik Il] (He & Hae & Hft & Hsv & Hbal & Htip & Hn & Hrev) Heff Hdom Hid.
  constructor; rewrite ?Htip, ?Hn, ?Hrev, ?Hft, ?Hsv; try done.
  - by eapply db_repr_entries.
  - unfold refs_ok in *. by rewrite Hae.
  - eapply Forall_impl; [exact Ig|]. intros e [Hb Hl]. split; [done|]. eapply Forall_impl; [exact Hl|]. auto.
  - intros id. rewrite (sum_effects_ext (ls_accounts s)), <- Ih; [unfold balance; by rewrite Hbal|].
    apply Forall_forall. auto.
Qed.

Lemma same_types_inv s s' es :
  ledger_inv s es → same_journal s s' → same_types (ls_accounts s) (ls_accounts s') →
  (∀ id a, ls_accounts s' !! id = Some a → acc_id a = id) → ledger_inv s' es.
Proof.
  intros Hi Hj Ht Hid. apply (accounts_inv s); [done|done| | |done].
  - intros id e _. by apply effect_types.
  - intros id Ha. specialize (Ht id). destruct (ls_accounts s' !! id); [by eexists|]. destruct Ha as [a Ha].
    rewrite Ha in Ht. done.
Qed.

(** Replacing an account by one with the same id and type. *)
Lemma update_account_inv s s' es id a a' :
  ledger_inv s es → same_journal s s' → ls_accounts s !! id = Some a →
  acc_id a' = acc_id a → account_type a' = account_type a →
  ls_accounts s' = <[id := a']> (ls_accounts s) → ledger_inv s' es.
Proof.
  intros Hi Hj Ha Hid Hty Hacc. apply (same_types_inv s); [done..| |].
  - intros i. rewrite Hacc. destruct (decide (id = i)) as [<-|Hne]; [|by rewrite lookup_insert_ne].
    rewrite lookup_insert_eq, Ha. cbn. by rewrite Hty.
  - intros i b. rewrite Hacc, lookup_insert_Some. intros [[<- <-]|[_ Hb]]; [|by eapply (inv_accounts _ _ Hi)].
    rewrite Hid. by eapply (inv_accounts _ _ Hi).
Qed.

(** *** Every other operation *)

Lemma upsert_account_run a W s r W' s' :
  db_try (upsert_account a) (W, s) = (r, (W', s')) →
  same_journal s s' ∧ ls_accounts s' = ls_accounts s ∧ ls_holds s' = ls_holds s ∧ is_ok r = true.
Proof.
  unfold db_try, attempt, db_op, zoom, upsert_account, execute, io.
  intros Hu. destruct (enc a) as [d|]; unfold mbind, M_bind, liftR, ok_or, modify in Hu; cbn in Hu.
  - destruct (default false (head (w_io W))); cbn in Hu; injection Hu as <- _ <-; by split_and!.
  - injection Hu as <- _ <-. by split_and!.
Qed.

Lemma create_account_inv a W s es r W' s' :
  ledger_inv s es → ls_accounts s !! acc_id a = None → create_account a (W, s) = (r, (W', s')) → ledger_inv s' es.
Proof.
  intros Hi Hn Hc. unfold create_account in Hc.
  apply mbind_inv in Hc as [(bs & [W1 s1] & He & Hc)|(x & He & ->)]; unfold liftR in He; [injection He as _ <- <-|by injection He as _ _ <-].
  apply mbind_inv in Hc as [(ps & [W2 s2] & Hp & Hc)|(x & Hp & ->)]; apply persist_row_frame in Hp; [|by rewrite <- Hp].
  apply mbind_inv in Hc as [(u & [W3 s3] & Hu & Hc)|(x & Hu & ->)]; apply upsert_account_run in Hu as (Hj & Ha & _ & Hok); [|done].
  unfold mbind, M_bind, modify, mret, M_ret in Hc. injection Hc as _ _ <-.
  assert (Hacc : ls_accounts s3 = ls_accounts s) by (rewrite Ha; apply Hp).
  apply (accounts_inv s); [done|..].
  - eapply same_journal_trans; [by apply same_ledger_journal|]. eapply same_journal_trans; [exact Hj|]. done.
  - intros id e Hin. cbn. rewrite Hacc. apply effect_new; [done|]. pose proof (inv_entries _ _ Hi) as Hent.
    rewrite Forall_forall in Hent. by apply Hent.
  - intros id Hid. cbn. rewrite Hacc. by apply lookup_insert_is_Some'; right.
  - intros id b. cbn. rewrite Hacc, lookup_insert_Some. intros [[<- <-]|[_ Hb]]; [done|by eapply (inv_accounts _ _ Hi)].
Qed.
(** [close_account] and [set_legal_hold] begin alike: replace the account in
    memory, then persist it. *)
Definition update_account (id : Z) (f : Account → Account) : LM unit :=
  accts ← gets ls_accounts;
  acct ← liftR (ok_or (accts !! id) (AccountNotFound id));
  let acct := f acct in
  _ ← modify (λ s, s_accounts (<[id := acct]> (ls_accounts s)) s);
  bs ← liftR (encode_row acct);
  _ ← persist_row TABLE_ACCOUNTS bs Delete None;
  mret tt.

Lemma update_account_run id f W s r W' s' :
  update_account id f (W, s) = (r, (W', s')) →
  (ls_accounts s !! id = None ∧ r = Err (AccountNotFound id) ∧ s' = s) ∨
  ∃ a, ls_accounts s !! id = Some a ∧ same_ledger (s_accounts (<[id := f a]> (ls_accounts s)) s) s'.
Proof.
  unfold update_account. rewrite (mbind_eq _ _ _ (ls_accounts s) (W, s)) by done.
  destruct (ls_accounts s !! id) as [a|] eqn:Ha; cbn [ok_or].
  2: { rewrite (mbind_err _ _ _ (AccountNotFound id) (W, s)) by done. intros Hx. left. by injection Hx as <- _ <-. }
  rewrite (mbind_eq _ _ _ a (W, s)) by done. set (s1 := s_accounts (<[id := f a]> (ls_accounts s)) s).
  rewrite (mbind_eq _ _ _ tt (W, s1)) by done. intros Hu. right. exists a. split; [done|].
  apply mbind_inv in Hu as [(bs & [W1 s2] & He & Hc)|(x & He & ->)]; unfold liftR in He; [injection He as _ <- <-|by injection He as _ _ <-].
  apply mbind_inv in Hc as [(ps & [W2 s2] & Hp & Hc)|(x & Hp & ->)]; apply persist_row_frame in Hp; [|done].
  unfold mret, M_ret in Hc. by injection Hc as _ _ <-.
Qed.

Lemma close_account_update id W s :
  close_account id (W, s) =
  (_ ← update_account id (set_status Closed);
   accts ← gets ls_accounts;
   match accts !! id with
   | Some a => _ ← db_try (upsert_account a); mret tt
   | None => mret tt
   end) (W, s).
Proof.
  unfold close_account, update_account, mbind, M_bind, gets, liftR, modify, mret, M_ret. cbn.
  destruct (ls_accounts s !! id) as [a|]; [|done]. cbn. destruct (encode_row _) as [bs|]; [|done].
  by destruct (persist_row _ _ _ _ _) as [[?|?] ?].
Qed.

Lemma set_legal_hold_update id hold W s :
  set_legal_hold id hold (W, s) =
  (_ ← update_account id (set_hold hold);
   modify (λ s, s_holds (if hold then {[id]} ∪ ls_holds s else ls_holds s ∖ {[id]}) s)) (W, s).
Proof.
  unfold set_legal_hold, update_account, mbind, M_bind, gets, liftR, modify, mret, M_ret. cbn.
  destruct (ls_accounts s !! id) as [a|]; [|done]. cbn. destruct (encode_row _) as [bs|]; [|done].
  by destruct (persist_row _ _ _ _ _) as [[?|?] ?].
Qed.

Lemma update_account_run_inv id f W s es r W' s' :
  (∀ a, acc_id (f a) = acc_id a ∧ account_type (f a) = account_type a) →
  ledger_inv s es → update_account id f (W, s) = (r, (W', s')) → ledger_inv s' es.
Proof.
  intros Hf Hi [(_ & _ & ->)|(a & Ha & Hs)]%update_account_run; [done|]. rewrite <- Hs.
  eapply update_account_inv; [exact Hi|done|exact Ha|apply Hf|apply Hf|done].
Qed.

Lemma close_account_inv id W s es r W' s' :
  ledger_inv s es → close_account id (W, s) = (r, (W', s')) → ledger_inv s' es.
Proof.
  rewrite close_account_update. intros Hi Hc.
  apply mbind_inv in Hc as [(u & [W1 s1] & Hu & Hc)|(x & Hu & ->)];
    (eapply update_account_run_inv in Hu; [|by intros|exact Hi]); [|done].
  rewrite (mbind_eq _ _ _ (ls_accounts s1) (W1, s1)) in Hc by done.
  destruct (ls_accounts s1 !! id) as [a|]; [|by injection Hc as _ _ <-].
  apply mbind_inv in Hc as [(v & [W2 s2] & Hv & Hc)|(x & Hv & ->)];
    apply upsert_account_run in Hv as (Hj & Ha & _ & Hok); [|done]. injection Hc as _ _ <-.
  eapply same_types_inv; [done..| |]; rewrite Ha; [done|apply Hu].
Qed.

Lemma set_legal_hold_inv id hold W s es r W' s' :
  ledger_inv s es → set_legal_hold id hold (W, s) = (r, (W', s')) → ledger_inv s' es.
Proof.
  rewrite set_legal_hold_update. intros Hi Hc.
  apply mbind_inv in Hc as [(u & [W1 s1] & Hu & Hc)|(x & Hu & ->)];
    (eapply update_account_run_inv in Hu; [|by intros|exact Hi]); [|done].
  unfold modify in Hc. injection Hc as _ _ <-. eapply same_types_inv; [exact Hu|done|done|apply Hu].
Qed.
(** Settlement: an error leaves the books alone; success records the status of
    an existing entry none of whose accounts is under legal hold. *)
Lemma apply_settlement_run entry_id st notes W s es r W' s' :
  db_repr (db_tables (ls_db s)) es → apply_settlement_event entry_id st notes (W, s) = (r, (W', s')) →
  (is_ok r = false ∧ same_ledger s s') ∨
  ∃ o s1, last_with entry_id es = Some o ∧ Forall (λ l, ln_account_id l ∉ ls_holds s) (e_lines o) ∧
    same_ledger s s1 ∧ s' = s_settlements (<[entry_id := st]> (ls_settlements s1)) s1 ∧ r = Ok tt.
Proof.
  intros Hr Ha. unfold apply_settlement_event in Ha.
  apply mbind_inv in Ha as [(x & [W1 s1] & Hd & Ha)|(x & Hd & ->)];
    apply stream_all_run with (es := es) in Hd as [-> Hx]; [|done|by destruct Hx|done].
  assert (Hlines : x.1 = None ∨ ∃ o, last_with entry_id es = Some o ∧ x.1 = Some (e_lines o)).
  { destruct Hx as [Hx|Hx]; apply Ok_inj in Hx; subst x; [|by left]. rewrite stream_last.
    destruct (last_with entry_id es) as [o|]; [right; by exists o|by left]. }
  destruct Hlines as [Hnone|(o & Ho & Hl)].
  { rewrite Hnone, (mbind_err _ _ _ (EntryNotFound entry_id) (W1, s)) in Ha by done. left. by injection Ha as <- _ <-. }
  rewrite Hl, (mbind_eq _ _ _ (e_lines o) (W1, s)), (mbind_eq _ _ _ s (W1, s)) in Ha by done.
  apply mbind_inv in Ha as [(u & [W2 s2] & Hc & Ha)|(y & Hc & ->)]; [|left; by injection Hc as _ _ <-].
  injection Hc as Hc <- <-. destruct u. apply check_all_Ok in Hc.
  rewrite (mbind_eq _ _ _ (clock W1) (tick W1, s)) in Ha by done.
  apply mbind_inv in Ha as [(bs & [W3 s3] & He & Ha)|(y & He & ->)]; [|left; by injection He as _ _ <-].
  injection He as _ <- <-.
  apply mbind_inv in Ha as [(ps & [W4 s4] & Hp & Ha)|(y & Hp & ->)]; apply persist_row_frame in Hp; [|by left].
  right. exists o, s4. unfold modify in Ha. injection Ha as <- _ <-. split_and!; [done| |done..].
  eapply Forall_impl; [exact Hc|]. intros l. cbn. by case_bool_decide.
Qed.

Lemma apply_settlement_inv entry_id st notes W s es r W' s' :
  ledger_inv s es → apply_settlement_event entry_id st notes (W, s) = (r, (W', s')) → ledger_inv s' es.
Proof.
  intros Hi Ha. apply apply_settlement_run with (es := es) in Ha as [[_ Hs]|(o & s1 & _ & _ & Hs & -> & _)];
    [by rewrite <- Hs| |apply Hi]. rewrite Hs in Hi. eapply same_types_inv; [exact Hi|done|done|apply Hi].
Qed.

Lemma reconcile_reads W s r W' s' : reconcile (W, s) = (r, (W', s')) → s' = s.
Proof.
  unfold reconcile. rewrite (mbind_eq _ _ _ s (W, s)) by done. intros Hr.
  apply mbind_inv in Hr as [(x & [W1 s1] & Hd & Hr)|(x & Hd & ->)];
    apply db_op_reads in Hd as ->; try apply stream_all_reads; [by injection Hr as _ _ <-|done].
Qed.

Lemma reconcile_and_record_run W s r W' s' :
  reconcile_and_record (W, s) = (r, (W', s')) → same_ledger s s'.
Proof.
  unfold reconcile_and_record. intros Hr.
  apply mbind_inv in Hr as [(x & [W1 s1] & Hd & Hr)|(x & Hd & ->)]; apply reconcile_reads in Hd as ->; [|done].
  apply mbind_inv in Hr as [(c & [W2 s2] & Hd & Hr)|(y & Hd & ->)]; apply db_try_reads in Hd as ->; try apply query_reads; [|done].
  unfold mbind at 1, M_bind at 1, gets at 1 in Hr. unfold mbind at 1, M_bind at 1, rand at 1 in Hr.
  unfold mbind at 1, M_bind at 1, now at 1 in Hr. cbv zeta in Hr.
  apply mbind_inv in Hr as [(bs & [W3 s3] & He & Hr)|(y & He & ->)]; [injection He as _ <- <-|by injection He as _ _ <-].
  apply mbind_inv in Hr as [(ps & [W4 s4] & Hp & Hr)|(y & Hp & ->)]; apply persist_row_frame in Hp; [|done].
  by injection Hr as _ _ <-.
Qed.

Lemma checkpoint_store_run W s r W' s' : checkpoint_store (W, s) = (r, (W', s')) → same_ledger s s'.
Proof.
  intros Hc. pose proof (preserves_bind (same_ledger s)
    (map_err (λ _, Serialization "merkle") (page_op (table_merkle_root TABLE_ENTRIES)))
    (λ root, tx_op (checkpoint_signed root))
    (preserves_map_err _ _ _ (page_op_same s _)) (λ root, tx_op_same s _) W s ltac:(done)) as Hp.
  unfold checkpoint_store in Hc. by rewrite Hc in Hp.
Qed.

(** ** Transitions *)

(** One operation of a running store, in its own environment.  No I/O call
    fails; an account is created under a fresh identifier; a posted entry comes
    from the builder, which leaves the content hash unset; sequence numbers
    stay below [i64::MAX]. *)
Inductive StoreOp :=
  | OpCreate (a : Account) | OpClose (id : Z) | OpPost (e : JournalEntry)
  | OpReverse (id : Z) (description domain : string) | OpSettle (id : Z) (st : EntryStatus) (notes : option string)
  | OpHold (id : Z) (hold : bool) | OpReconcile | OpCheckpoint | OpCurrency (c : Currency).

Inductive store_step (s : LedgerStore) : StoreOp → LedgerStore → Prop :=
  | step_create a W r W' s' :
      w_io W = [] → ls_accounts s !! acc_id a = None → create_account a (W, s) = (r, (W', s')) →
      store_step s (OpCreate a) s'
  | step_close id W r W' s' : w_io W = [] → close_account id (W, s) = (r, (W', s')) → store_step s (OpClose id) s'
  | step_post e W r W' s' :
      w_io W = [] → ls_next_sequence s < 2 ^ 63 → e_content_hash e = ZERO_HASH →
      post_entry e (W, s) = (r, (W', s')) → store_step s (OpPost e) s'
  | step_reverse id desc dom W r W' s' :
      w_io W = [] → ls_next_sequence s < 2 ^ 63 →
      reverse_entry id desc dom (W, s) = (r, (W', s')) → store_step s (OpReverse id desc dom) s'
  | step_settle id st notes W r W' s' :
      w_io W = [] → apply_settlement_event id st notes (W, s) = (r, (W', s')) → store_step s (OpSettle id st notes) s'
  | step_hold id hold W r W' s' :
      w_io W = [] → set_legal_hold id hold (W, s) = (r, (W', s')) → store_step s (OpHold id hold) s'
  | step_reconcile W r W' s' : w_io W = [] → reconcile_and_record (W, s) = (r, (W', s')) → store_step s OpReconcile s'
  | step_checkpoint W r W' s' : w_io W = [] → checkpoint_store (W, s) = (r, (W', s')) → store_step s OpCheckpoint s'
  | step_currency c W r W' s' : register_currency c (W, s) = (r, (W', s')) → store_step s (OpCurrency c) s'.

(** Any number of operations, all of which satisfy [P]. *)
Definition steps_of (P : StoreOp → Prop) : LedgerStore → LedgerStore → Prop :=
  rtc (λ s s', ∃ o, P o ∧ store_step s o s').
Definition steps : LedgerStore → LedgerStore → Prop := steps_of (λ _, True).

(** Operations that do not append an entry leave the journal alone. *)
Section journal.
Context (s0 : LedgerStore).

Lemma persist_row_journal t bs k prev : preserves (same_journal s0) (persist_row t bs k prev).
Proof.
  intros W s Hs. destruct (persist_row t bs k prev (W, s)) as [r [W' s']] eqn:Hp. apply persist_row_frame in Hp.
  eapply same_journal_trans; [exact Hs|]. by apply same_ledger_journal.
Qed.

Lemma upsert_account_journal a : preserves (same_journal s0) (db_try (upsert_account a)).
Proof.
  intros W s Hs. destruct (db_try _ (W, s)) as [r [W' s']] eqn:Hu. apply upsert_account_run in Hu as [Hj _].
  by eapply same_journal_trans.
Qed.

Lemma modify_journal (f : LedgerStore → LedgerStore) :
  (∀ s, same_journal s (f s)) → preserves (E:=LedgerError) (same_journal s0) (modify f).
Proof. intros Hf. apply preserves_modify. intros s Hs. by eapply same_journal_trans. Qed.

Hint Resolve persist_row_journal upsert_account_journal : preserves.

Lemma create_account_journal a : preserves (same_journal s0) (create_account a).
Proof.
  unfold create_account. repeat (apply preserves_bind; [auto with preserves|intros]); auto with preserves.
  by apply modify_journal.
Qed.

Lemma update_account_journal id f : preserves (same_journal s0) (update_account id f).
Proof.
  unfold update_account. repeat (apply preserves_bind; [auto with preserves|intros]); auto with preserves.
  by apply modify_journal.
Qed.
End journal.

Lemma journal_run {A} (m : LM A) W s r W' s' :
  preserves (same_journal s) m → m (W, s) = (r, (W', s')) → same_journal s s'.
Proof. intros Hm Hr. specialize (Hm W s). rewrite Hr in Hm. by apply Hm. Qed.

Lemma close_account_journal id W s r W' s' : close_account id (W, s) = (r, (W', s')) → same_journal s s'.
Proof.
  rewrite close_account_update. apply journal_run. apply preserves_bind; [apply update_account_journal|intros _].
  apply preserves_bind; [auto with preserves|intros accts]. destruct (accts !! id); [|auto with preserves].
  apply preserves_bind; [apply upsert_account_journal|auto with preserves].
Qed.

Lemma set_legal_hold_journal id h W s r W' s' : set_legal_hold id h (W, s) = (r, (W', s')) → same_journal s s'.
Proof.
  rewrite set_legal_hold_update. apply journal_run. apply preserves_bind; [apply update_account_journal|intros _].
  by apply modify_journal.
Qed.

Lemma apply_settlement_journal id st notes W s es r W' s' :
  ledger_inv s es → apply_settlement_event id st notes (W, s) = (r, (W', s')) → same_journal s s'.
Proof.
  intros Hi Ha. apply apply_settlement_run with (es := es) in Ha as [[_ Hs]|(o & s1 & _ & _ & Hs & -> & _)]; [..|apply Hi].
  - by apply same_ledger_journal.
  - apply same_ledger_journal in Hs. by eapply same_journal_trans.
Qed.

(** The entries [new] are appended to a journal, above every number used. *)
Definition extends (s s' : LedgerStore) (new : list JournalEntry) : Prop :=
  ls_next_sequence s ≤ ls_next_sequence s' ∧ Forall (λ e, ls_next_sequence s ≤ e_sequence e) new.

Lemma store_step_inv s o s' es :
  store_step s o s' → ledger_inv s es → ∃ new, ledger_inv s' (es ++ new) ∧ extends s s' new.
Proof.
  assert (Hsame : ∀ s', ledger_inv s' es → ls_next_sequence s ≤ ls_next_sequence s' →
    ∃ new, ledger_inv s' (es ++ new) ∧ extends s s' new).
  { intros s0 Hi Hle. exists []. by rewrite app_nil_r. }
  assert (Hj : ∀ s', ledger_inv s' es → same_journal s s' → ∃ new, ledger_inv s' (es ++ new) ∧ extends s s' new).
  { intros s0 Hi (_ & _ & _ & _ & _ & _ & Hn & _). apply Hsame; [done|]. lia. }
  assert (Hnew : ∀ s' e, ledger_inv s' (es ++ [e]) → e_sequence e = ls_next_sequence s →
    ∃ new, ledger_inv s' (es ++ new) ∧ extends s s' new).
  { intros s0 e Hi He. exists [e]. pose proof (inv_seqs _ _ Hi) as Hs. rewrite Forall_app, Forall_singleton in Hs. destruct Hs as [_ Hs].
    split; [done|]. split; [lia|]. apply Forall_singleton. lia. }
  intros Hst Hi. destruct Hst as [a W r W' s' _ Hn Ho|id W r W' s' _ Ho|e W r W' s' Hio Hlt Hz Ho|id de dm W r W' s' Hio Hlt Ho
    |id st no W r W' s' _ Ho|id h W r W' s' _ Ho|W r W' s' _ Ho|W r W' s' _ Ho|c W r W' s' Ho].
  - apply Hj; [by eapply create_account_inv|]. eapply journal_run; [apply create_account_journal|done].
  - apply Hj; [by eapply close_account_inv|by eapply close_account_journal].
  - eapply post_entry_inv in Ho as [[? ?]|[_ ?]]; [by apply Hsame|by eapply Hnew|done..].
  - eapply reverse_entry_inv in Ho as [[? ?]|(rv & ? & ?)]; [by apply Hsame|by eapply Hnew|done..].
  - apply Hj; [by eapply apply_settlement_inv|by eapply apply_settlement_journal].
  - apply Hj; [by eapply set_legal_hold_inv|by eapply set_legal_hold_journal].
  - apply reconcile_and_record_run in Ho. apply Hj; [by rewrite <- Ho|by apply same_ledger_journal].
  - apply checkpoint_store_run in Ho. apply Hj; [by rewrite <- Ho|by apply same_ledger_journal].
  - unfold register_currency, modify in Ho. injection Ho as _ _ <-.
    apply Hj; [|done]. eapply same_types_inv; [exact Hi|done|done|apply Hi].
Qed.

Lemma store_steps_inv P s s' es :
  steps_of P s s' → ledger_inv s es → ∃ new, ledger_inv s' (es ++ new) ∧ extends s s' new.
Proof.
  intros Hst. revert es. induction Hst as [s|s s1 s2 (o & _ & Hs) _ IH]; intros es Hi; [exists []; by rewrite app_nil_r|].
  apply (store_step_inv _ _ _ _ Hs) in Hi as (new1 & Hi & Hn1 & Hf1). apply IH in Hi as (new2 & Hi & Hn2 & Hf2).
  exists (new1 ++ new2). rewrite app_assoc. split; [done|]. split; [lia|]. apply Forall_app. split; [done|].
  eapply Forall_impl; [exact Hf2|]. cbn. lia.
Qed.

(** *** Opening an empty data directory *)

Definition empty_dir (sk : option SigningKey) : DataDir := mkDataDir ∅ ∅ (mkTables ∅ ∅ ∅ None) None sk.

Lemma open_empty_inv mode sk W s :
  w_io W = [] → open_store false mode (empty_dir sk) W = Ok s → ledger_inv s [].
Proof.
  destruct W as [c g io]. cbn. intros -> Ho.
  assert (Hs : ∃ s, open_store false mode (empty_dir sk) (mkWorld c g []) = Ok s ∧ t_entries (db_tables (ls_db s)) = ∅ ∧
    t_account_entries (db_tables (ls_db s)) = Some ∅ ∧ ls_accounts s = ∅ ∧ ls_balance s = ∅ ∧ ls_next_sequence s = 1 ∧
    ls_last_chain_hash s = ZERO_HASH ∧ ls_reversals s = ∅ ∧ db_saved (ls_db s) = None).
  { eexists. split; [vm_compute; reflexivity|]. by split_and!. }
  destruct Hs as (s1 & Hs & He & Hae & Hacc & Hbal & Hn & Ht & Hrev & Hsv). rewrite Hs in Ho. apply Ok_inj in Ho as <-.
  constructor; unfold balance; rewrite ?Hacc, ?Hbal, ?Hn, ?Ht, ?Hrev; try done.
  - by apply db_repr_empty.
  - unfold refs_ok. rewrite Hae. set_solver.
Qed.

(** The states of a store opened on an empty directory. *)
Definition reachable (s : LedgerStore) : Prop := ∃ mode sk W s0,
  w_io W = [] ∧ open_store false mode (empty_dir sk) W = Ok s0 ∧ steps s0 s.

Lemma reachable_inv s : reachable s → ∃ es, ledger_inv s es.
Proof.
  intros (mode & sk & W & s0 & Hio & Ho & Hst). apply (open_empty_inv _ _ _ _ Hio) in Ho.
  apply (store_steps_inv _ _ _ _ Hst) in Ho as (new & ? & _). by exists new.
Qed.
End safety.
