(* ===== verification/StoreHistory.v ===== *)
(** * The ledger store: what survives further operations

    What posting an entry writes to the log, the index and the books; then
    entries, idempotency keys, reversals, legal holds and snapshots, seen from
    any later state. *)

From stdpp Require Import base gmap list strings option fin_maps sorting relations.
From Stdlib Require Import ZArith Lia.
From S2P Require Import Prelude Bytes Crypto Merkle Money Entry WalRecord Wal Recovery Tx TxLog Page EntryDb Store StoreFrame StoreLog StoreBooks StoreInv StoreReverse StoreSafety.

(** ** What posting writes *)

Section posting.
Context `{Blake3} `{Ed25519} `{!WalExt} `{!PageExt} `{LedgerCodecs} `{LedgerExt}.

Lemma insert_row_entries k r t t' :
  t_entries t' = t_entries t → t_entries (insert_row k r t') = t_entries (insert_row k r t).
Proof.
  intros He. assert (Hi : ignored k r t' = ignored k r t).
  { unfold ignored, key_used, rows. by rewrite He. }
  unfold insert_row. rewrite Hi. destruct (ignored k r t); [done|]. cbn. by rewrite He.
Qed.

(** The index row of an entry whose encoding is [bs], or none. *)
Definition row_added (e : JournalEntry) (bs : bytes) (s s' : LedgerStore) : Prop :=
  t_entries (db_tables (ls_db s')) =
  t_entries (insert_row (as_i64 (e_sequence e)) (entry_row e bs) (db_tables (ls_db s))).
Definition rows_kept (s s' : LedgerStore) : Prop :=
  t_entries (db_tables (ls_db s')) = t_entries (db_tables (ls_db s)).

Lemma insert_rows e bs W db r W' db' :
  enc e = Some bs → insert e (W, db) = (r, (W', db')) →
  let added := t_entries (db_tables db') = t_entries (insert_row (as_i64 (e_sequence e)) (entry_row e bs) (db_tables db)) in
  added ∨ (w_io W ≠ [] ∧ is_ok r = false ∧ t_entries (db_tables db') = t_entries (db_tables db)).
Proof.
  intros He. unfold insert, encode_entry, query, execute. rewrite He. cbn. unfold mbind, M_bind, gets, modify, mret, M_ret. cbn.
  destruct (w_io W) as [|[] l] eqn:Hio; cbn.
  - destruct (ignored _ _ _); intros; simplify_eq/=; by left.
  - intros; simplify_eq/=; by right.
  - destruct (ignored _ _ _); [intros; simplify_eq/=; by left|]. cbn. destruct l as [|[] l]; intros; simplify_eq/=; by left.
Qed.

Lemma keeps_rows {A} (m : DbM A) s0 :
  (∀ W db, t_entries (db_tables (m (W, db)).2.2) = t_entries (db_tables db)) → preserves (rows_kept s0) (db_try m).
Proof.
  intros Hm W s Hs. unfold db_try, attempt, db_op, zoom. specialize (Hm W (ls_db s)).
  destruct (m (W, ls_db s)) as [r [W1 db1]]. cbn in *. unfold rows_kept in *. cbn. by rewrite Hm.
Qed.

Lemma index_entry_rows e bs W s r W' s' :
  enc e = Some bs → index_entry e (W, s) = (r, (W', s')) →
  row_added e bs s s' ∨ (w_io W ≠ [] ∧ rows_kept s s').
Proof.
  intros He Hi. unfold index_entry, index_insert in Hi.
  assert (Hens : ∀ W db, t_entries (db_tables (ensure_account_entries_table (W, db)).2.2) = t_entries (db_tables db)).
  { intros W0 db. unfold ensure_account_entries_table, execute, mbind, M_bind, modify. cbn. by destruct (default _ _). }
  assert (Hlines : ∀ s0, preserves (rows_kept s0) (index_lines e)).
  { intros s0. apply preserves_forM. intros l. apply preserves_bind; [|intros; apply preserves_ret]. apply keeps_rows. intros W0 db.
    unfold insert_account_entry, query, mbind, M_bind, gets, modify, throw. cbn. destruct (default _ _); cbn; [done|]. by destruct (t_account_entries _). }
  unfold mbind, M_bind, db_try, attempt, db_op, zoom in Hi. cbn -[insert] in Hi.
  pose proof (calm_run ensure_account_entries_table W (ls_db s)) as Hc. pose proof (Hens W (ls_db s)) as Hx.
  destruct (ensure_account_entries_table (W, ls_db s)) as [r1 [W1 db1]] eqn:Hx1. cbn -[insert] in *.
  destruct (insert e (W1, db1)) as [r2 [W2 db2]] eqn:Hx2.
  apply (insert_rows e bs) in Hx2; [|done]. cbv zeta in Hx2. rewrite (insert_row_entries _ _ (db_tables (ls_db s)) (db_tables db1)) in Hx2 by done.
  assert (Hio1 : w_io W1 ≠ [] → w_io W ≠ []).
  { intros Hw Hw0. apply Hw. eapply Hc; [|done|done]. unfold ensure_account_entries_table, execute. apply calm_bind; [apply calm_io|intros; apply calm_modify]. }
  destruct r2 as [u|x]; cbn in Hi.
  - assert (Hk : rows_kept (s_db db2 (s_db db1 s)) s').
    { specialize (Hlines (s_db db2 (s_db db1 s)) W2 (s_db db2 (s_db db1 s)) eq_refl). by rewrite Hi in Hlines. }
    unfold rows_kept, row_added in *. cbn in Hk. rewrite Hk. destruct Hx2 as [Hx2|(? & ? & ?)]; [by left|done].
  - unfold mret, M_ret in Hi. simplify_eq. unfold rows_kept, row_added. cbn. destruct Hx2 as [Hx2|(Hw & _ & Hx2)]; [by left|right]. split; [auto|congruence].
Qed.
(** The number the index has for a key. *)
Definition sequence_of_key (key : string) (t : Tables) : option Z :=
  as_u64 <$> find (λ k, bool_decide (t_entries t !! k ≫= row_idempotency_key = Some key)) (sorted_keys (t_entries t)).

(** The answer for a key found: its number, or 0 when the second lookup fails. *)
Lemma posted_before_found e W s seq W' :
  posted_before e (W, s) = (Ok (Some seq), (W', s)) →
  ∃ key, e_idempotency_key e = Some key ∧ key_used key (db_tables (ls_db s)) = true ∧
    (seq = default 0 (sequence_of_key key (db_tables (ls_db s))) ∨ (w_io W ≠ [] ∧ seq = 0)).
Proof.
  unfold posted_before. destruct (e_idempotency_key e) as [key|]; [|intros Hp; by minv].
  unfold idempotency_key_exists, sequence_for_idempotency_key, query, db_try, attempt, db_op, zoom, mbind, M_bind, gets, mret, M_ret. cbn.
  intros Hp. exists key. split; [done|]. destruct (w_io W) as [|[] l] eqn:Hio; cbn in Hp.
  - destruct (key_used key _); [|done]. cbn in Hp. simplify_eq/=. split; [done|]. left. unfold sequence_of_key. by destruct (find _ _).
  - done.
  - destruct (key_used key _); [|done]. cbn in Hp. split; [done|]. destruct l as [|[] l]; simplify_eq/=; [left|right|left]; unfold sequence_of_key; by try destruct (find _ _).
Qed.

(** The log after an entry was committed, when its header numbers have room. *)
Definition entry_logged (e : JournalEntry) (bs : bytes) (s s' : LedgerStore) : Prop :=
  ∀ rs, store_logged s rs → log_room (ls_tx s) 3 →
  ∃ rs' pid, logged (ls_tx s) (ls_tx s') rs rs' [[data_payload (row TABLE_ENTRIES pid Insert bs (Some (e_prev_hash e)))]].

Lemma commit_entry_writes `{!SmallRecords} e W s seq W' s' :
  commit_entry e (W, s) = (Ok seq, (W', s')) →
  ∃ bs, enc (final_entry W s e) = Some bs ∧ entry_logged (final_entry W s e) bs s s' ∧
    (row_added (final_entry W s e) bs s s' ∨ (w_io W ≠ [] ∧ rows_kept s s')).
Proof.
  rewrite commit_entry_eq. cbv zeta. set (e' := final_entry W s e). destruct (enc e') as [bs|] eqn:Hbs; [|done].
  destruct (persist_row _ _ _ _ _) as [[?|?] [W2 s2]] eqn:Hp; [|done].
  destruct (index_entry_Ok e' (W2, booked e' bs s2)) as [[W3 s3] Hi]. rewrite (mbind_eq _ _ _ _ _ Hi).
  intros Hx. unfold mret, M_ret in Hx. simplify_eq.
  assert (Hb : ls_db (booked e' bs s2) = ls_db s2 ∧ ls_tx (booked e' bs s2) = ls_tx s2) by (unfold booked; by rewrite apply_balances_cache).
  destruct Hb as [Hbd Hbt]. pose proof (index_entry_frame _ _ _ _ _ _ Hi) as [db' Hs'].
  pose proof (persist_row_frame _ _ _ _ _ _ _ _ _ Hp) as [(Hdb & _) _].
  exists bs. split; [done|]. split.
  - intros rs Hs Hroom.
    assert (Htip : ∀ h, Some (e_prev_hash e') = Some h → hash_ok h) by (intros h Hh; injection Hh as <-; apply Hs).
    apply (persist_row_logged _ _ _ _ _ _ rs) in Hp as (rs' & pid & Hl & _); [|by destruct Hs; constructor|done..].
    exists rs', pid. subst s'. cbn. by rewrite Hbt.
  - apply (index_entry_rows _ bs) in Hi; [|done]. unfold row_added, rows_kept in *. rewrite Hbd, Hdb in Hi. cbn in Hi.
    destruct Hi as [Hi|[Hw Hi]]; [by left|right]. split; [|done]. intros Hw0. apply Hw.
    eapply calm_run; [apply persist_row_calm|exact Hp|done].
Qed.

Lemma query_is_calm {A} (f : Tables → A) : calm (query f).
Proof. apply calm_bind; [apply calm_io|intros; apply calm_gets]. Qed.

(** C1: what a successful [post_entry] does, in every environment, whatever I/O
    calls fail.  Either the idempotency key is in the index, nothing changes and
    the number returned is the one the index has for the key (or 0 when that
    lookup fails), or the entry was admissible (balanced, every line on an
    existing, active, unheld account of the right currency, limits and
    non-negative balances respected by the entry as a whole) and it was appended:
    the entry with the next sequence number, a posting time and its hashes over
    the current chain tip is what is encoded; those bytes are the one row of the
    one transaction the log gained (while transaction ids and segments have
    room); its chain hash is the new tip; each balance moved by exactly its
    effect; accounts, holds, settlements, reversals and currencies are
    untouched; and the index gained its row by [INSERT OR IGNORE], except that
    an SQLite failure can leave the index as it was. *)
Theorem post_entry_effect `{!SmallRecords} e W s seq W' s' :
  post_entry e (W, s) = (Ok seq, (W', s')) →
  (∃ key, e_idempotency_key e = Some key ∧ key_used key (db_tables (ls_db s)) = true ∧ s' = s ∧
    (seq = default 0 (sequence_of_key key (db_tables (ls_db s))) ∨ (w_io W ≠ [] ∧ seq = 0))) ∨
  ((2 ≤ length (e_lines e))%nat ∧ balanced (e_lines e) ∧ admitted s e ∧ seq = ls_next_sequence s ∧
   ls_reversals s' = ls_reversals s ∧
   ∃ t bs, let e' := finalize_chain_hash (ls_last_chain_hash s) (set_posting seq t e) in
     appended_entry s s' e' ∧ enc e' = Some bs ∧ entry_logged e' bs s s' ∧
     (row_added e' bs s s' ∨ (w_io W ≠ [] ∧ rows_kept s s'))).
Proof.
  intros [(? & ? & _)|[(k & [= <-] & -> & _ & Hd)|(Hv & Hc & W1 & Hpb & Hce)]]%post_entry_cases; [done| |].
  - left. apply posted_before_found in Hd as (key & Hk & Hu & Hseq). eauto.
  - right. apply validate_Ok in Hv as [Hlen Hbal]. apply post_checks_Ok in Hc.
    pose proof (commit_entry_Ok _ _ _ _ _ _ Hce) as (-> & Hrev & Happ). apply commit_entry_writes in Hce as (bs & Hbs & Hlog & Hrow).
    split_and!; try done. exists (clock W1), bs. cbv zeta. split_and!; try done.
    destruct Hrow as [?|[Hw ?]]; [by left|right]. split; [|done]. intros Hw0. apply Hw. eapply calm_run; [|exact Hpb|done].
    unfold posted_before. destruct (e_idempotency_key e); [|apply calm_ret].
    apply calm_bind; [apply calm_attempt, calm_zoom, query_is_calm|]. intros x. destruct (res_unwrap_or _ _); [|apply calm_ret].
    apply calm_bind; [apply calm_attempt, calm_zoom, query_is_calm|]. intros; apply calm_ret.
Qed.
End posting.

Section history.
Context `{Blake3} `{Ed25519} `{WalExt} `{PageExt} `{LedgerCodecs} `{LedgerExt}.

(** ** What an operation keeps *)

(** Accounts keep their type, reversed entries stay reversed. *)
Record evolves (s s' : LedgerStore) : Prop := {
  ev_types : ∀ id a, ls_accounts s !! id = Some a →
    ∃ a', ls_accounts s' !! id = Some a' ∧ account_type a' = account_type a;
  ev_reversals : ∀ id, is_Some (ls_reversals s !! id) → is_Some (ls_reversals s' !! id)
}.

#[global] Instance evolves_preorder : PreOrder evolves.
Proof.
  split; [intros s; split; eauto|]. intros s1 s2 s3 [T1 R1] [T2 R2]. split; [|auto].
  intros id a Ha. destruct (T1 id a Ha) as (b & Hb & Hab). destruct (T2 id b Hb) as (c & Hc & Hbc).
  exists c. split; [done|congruence].
Qed.

Lemma evolves_eq s s' : ls_accounts s' = ls_accounts s → ls_reversals s' = ls_reversals s → evolves s s'.
Proof. intros Ha Hr. split; rewrite ?Ha, ?Hr; eauto. Qed.

Lemma evolves_ledger s s' : same_books s s' → evolves s s'.
Proof. intros (_ & Ha & _ & _ & Hr & _). by apply evolves_eq. Qed.

Lemma evolves_insert s s' id a :
  ls_accounts s' = <[id := a]> (ls_accounts s) → ls_reversals s' = ls_reversals s →
  (∀ b, ls_accounts s !! id = Some b → account_type a = account_type b) → evolves s s'.
Proof.
  intros Ha Hr Ht. split; rewrite ?Ha, ?Hr; [|done]. intros i b Hb.
  destruct (decide (id = i)) as [<-|Hne]; [rewrite lookup_insert_eq|rewrite lookup_insert_ne by done; eauto].
  exists a. split; [done|auto].
Qed.

Lemma create_account_run a W s r W' s' :
  create_account a (W, s) = (r, (W', s')) →
  (is_ok r = false ∧ same_ledger s s') ∨
  (ls_accounts s' = <[acc_id a := a]> (ls_accounts s) ∧ same_journal s s' ∧
   ls_holds s' = if legal_hold a then {[acc_id a]} ∪ ls_holds s else ls_holds s ∖ {[acc_id a]}).
Proof.
  intros Hc. unfold create_account in Hc.
  apply mbind_inv in Hc as [(bs & [W1 s1] & He & Hc)|(x & He & ->)]; [injection He as _ <- <-|left; by injection He as _ _ <-].
  apply mbind_inv in Hc as [(ps & [W2 s2] & Hp & Hc)|(x & Hp & ->)]; apply persist_row_frame in Hp; [|by left].
  apply mbind_inv in Hc as [(u & [W3 s3] & Hu & Hc)|(x & Hu & ->)]; apply upsert_account_run in Hu as (Hj & Ha & Hh & Hok); [|done].
  unfold mbind, M_bind, modify, mret, M_ret in Hc. injection Hc as _ _ <-. right. cbn. rewrite Ha, Hh.
  apply same_ledger_journal in Hp as Hj0. destruct Hp as [(_ & -> & _ & _ & _ & _ & _ & -> & _) _]. split_and!; [done| |done].
  eapply same_journal_trans; [exact Hj0|]. by eapply same_journal_trans; [exact Hj|].
Qed.

Lemma close_account_run id W s r W' s' :
  close_account id (W, s) = (r, (W', s')) →
  (s' = s ∧ is_ok r = false) ∨
  ∃ a, ls_accounts s !! id = Some a ∧ ls_accounts s' = <[id := set_status Closed a]> (ls_accounts s) ∧
    ls_holds s' = ls_holds s ∧ same_journal s s'.
Proof.
  intros Hc. pose proof (close_account_journal _ _ _ _ _ _ Hc) as Hj. rewrite close_account_update in Hc.
  apply mbind_inv in Hc as [(u & [W1 s1] & Hu & Hc)|(x & Hu & ->)];
    apply update_account_run in Hu as [(_ & Hr & ->)|(a & Ha & Hb)]; try done.
  - right. exists a. destruct Hb as [(_ & Hacc & _ & _ & _ & _ & _ & Hh & _) _]. cbn in Hacc, Hh.
    rewrite (mbind_eq _ _ _ (ls_accounts s1) (W1, s1)) in Hc by done.
    destruct (ls_accounts s1 !! id) as [b|]; [|injection Hc as _ _ <-; by split_and!].
    apply mbind_inv in Hc as [(v & [W2 s2] & Hv & Hc)|(x & Hv & ->)];
      apply upsert_account_run in Hv as (_ & Ha2 & Hh2 & Hok); [|done]. injection Hc as _ _ <-.
    split_and!; [done|by rewrite Ha2|by rewrite Hh2|done].
  - left. done.
  - right. exists a. destruct Hb as [(_ & Hacc & _ & _ & _ & _ & _ & Hh & _) _]. by split_and!.
Qed.

Lemma set_legal_hold_run id hold W s r W' s' :
  set_legal_hold id hold (W, s) = (r, (W', s')) →
  (s' = s ∧ is_ok r = false) ∨
  ∃ a, ls_accounts s !! id = Some a ∧ ls_accounts s' = <[id := set_hold hold a]> (ls_accounts s) ∧ same_journal s s' ∧
    ((is_ok r = false ∧ ls_holds s' = ls_holds s) ∨
     (r = Ok tt ∧ ls_holds s' = if hold then {[id]} ∪ ls_holds s else ls_holds s ∖ {[id]})).
Proof.
  intros Hc. pose proof (set_legal_hold_journal _ _ _ _ _ _ _ Hc) as Hj. rewrite set_legal_hold_update in Hc.
  apply mbind_inv in Hc as [(u & [W1 s1] & Hu & Hc)|(x & Hu & ->)];
    apply update_account_run in Hu as [(_ & Hr & ->)|(a & Ha & Hb)]; try done.
  - right. exists a. destruct Hb as [(_ & Hacc & _ & _ & _ & _ & _ & Hh & _) _]. cbn in Hacc, Hh.
    unfold modify in Hc. injection Hc as <- _ <-. cbn. rewrite Hh. split_and!; [done..|]. by right.
  - left. done.
  - right. exists a. destruct Hb as [(_ & Hacc & _ & _ & _ & _ & _ & Hh & _) _]. split_and!; [done..|]. by left.
Qed.

Lemma store_step_evolves s o s' es : store_step s o s' → ledger_inv s es → evolves s s'.
Proof.
  intros Hst Hi. destruct Hst as [a W r W' s' _ Hn Ho|id W r W' s' _ Ho|e W r W' s' Hio Hlt Hz Ho|id de dm W r W' s' Hio Hlt Ho
    |id st no W r W' s' _ Ho|id h W r W' s' _ Ho|W r W' s' _ Ho|W r W' s' _ Ho|c W r W' s' Ho].
  - apply create_account_run in Ho as [[_ [? _]]|(Ha & Hj & _)]; [by apply evolves_ledger|].
    eapply evolves_insert; [exact Ha|apply Hj|]. intros b Hb. by rewrite Hn in Hb.
  - apply close_account_run in Ho as [[-> _]|(a & Ha & Hacc & _ & Hj)]; [done|].
    eapply evolves_insert; [exact Hacc|apply Hj|]. intros b Hb. rewrite Ha in Hb. by injection Hb as <-.
  - apply post_entry_cases in Ho as [(? & _ & -> & _)|[(? & _ & -> & _)|(_ & _ & W1 & _ & Hc)]]; [done|done|].
    destruct r as [seq|x].
    + apply commit_entry_Ok in Hc as (_ & Hr & (_&_&_&_&Ha&_)). by apply evolves_eq.
    + apply commit_entry_Err in Hc as [Hb _]. apply evolves_ledger. exact Hb.
  - apply reverse_entry_cases with (es := es) in Ho as [[_ ->]|(o & rv & W1 & W2 & _ & _ & Hs & _ & _ & Hcr)]; [done| |apply Hi].
    destruct r as [rid|x].
    + apply commit_reversal_Ok with (o := o) in Hcr as (_ & Hr & (_&_&_&_&Ha&_)); [|done]. split; rewrite ?Ha, ?Hr; [eauto|].
      intros i Hi'. by apply lookup_insert_is_Some'; right.
    + apply commit_reversal_Err in Hcr as [Hb _]. apply evolves_ledger. exact Hb.
  - apply apply_settlement_run with (es := es) in Ho as [[_ [? _]]|(o & s1 & _ & _ & [Hb _] & -> & _)]; [by apply evolves_ledger| |apply Hi].
    destruct Hb as (_ & Ha & _ & _ & Hr & _). by apply evolves_eq.
  - apply set_legal_hold_run in Ho as [[-> _]|(a & Ha & Hacc & Hj & _)]; [done|].
    eapply evolves_insert; [exact Hacc|apply Hj|]. intros b Hb. rewrite Ha in Hb. by injection Hb as <-.
  - apply reconcile_and_record_run in Ho as [? _]. by apply evolves_ledger.
  - apply checkpoint_store_run in Ho as [? _]. by apply evolves_ledger.
  - unfold register_currency, modify in Ho. injection Ho as _ _ <-. by apply evolves_eq.
Qed.

(** What holds between a state and any later one. *)
Lemma steps_inv P s s' es :
  steps_of P s s' → ledger_inv s es → ∃ new, ledger_inv s' (es ++ new) ∧ extends s s' new ∧ evolves s s'.
Proof.
  intros Hst Hi. destruct (store_steps_inv _ _ _ _ Hst Hi) as (new & Hi' & Hx). exists new. split_and!; [done..|].
  clear Hi' Hx new. revert es Hi. induction Hst as [s|s s1 s2 (o & _ & Hs) _ IH]; intros es Hi; [done|].
  destruct (store_step_inv _ _ _ _ Hs Hi) as (new & Hi1 & _). etransitivity; [by eapply store_step_evolves|by eapply IH].
Qed.
(** ** Entries *)

Lemma stored_row t es k r :
  db_repr t es → t_entries t !! k = Some r → ∃ e, e ∈ es ∧ e_sequence e = k ∧ row_of e r.
Proof.
  intros Hr Hk. destruct (db_repr_lookup t es k Hr) as [Hn|(e & Hin & <-)]; [by rewrite Hn in Hk|].
  destruct Hr as (_ & Hs & _). rewrite Forall_forall in Hs. destruct (Hs e Hin) as (r' & Hr' & Hrow).
  rewrite Hk in Hr'. injection Hr' as <-. by exists e.
Qed.

Lemma row_extends t t' es new k r :
  db_repr t es → db_repr t' (es ++ new) → t_entries t !! k = Some r → t_entries t' !! k = Some r.
Proof.
  intros Hr Hr' Hk. destruct (stored_row _ _ _ _ Hr Hk) as (e & Hin & <- & (d & Hd & ->)).
  destruct Hr' as (_ & Hs & _). rewrite Forall_app, !Forall_forall in Hs. destruct Hs as [Hs _].
  destruct (Hs e Hin) as (r' & -> & (d' & Hd' & ->)). rewrite Hd in Hd'. by injection Hd' as <-.
Qed.

Lemma get_entry_by_sequence_quiet W s seq :
  w_io W = [] →
  get_entry_by_sequence seq (W, s) =
  (Ok (r ← t_entries (db_tables (ls_db s)) !! as_i64 seq; res_ok (decode_entry (row_data r))), (W, s)).
Proof.
  intros Hio. unfold get_entry_by_sequence.
  assert (Hg : ∃ x, db_try (get_by_sequence seq) (W, s) = (Ok x, (W, s)) ∧
    res_unwrap_or None x = (r ← t_entries (db_tables (ls_db s)) !! as_i64 seq; res_ok (decode_entry (row_data r)))).
  { unfold db_try, attempt, db_op, zoom, get_by_sequence. rewrite (mbind_eq _ _ _ _ _ (query_quiet W Hio _ _)).
    destruct (t_entries _ !! _) as [r|]; unfold mbind, M_bind, liftR, mret, M_ret; cbn.
    - destruct (decode_entry (row_data r)); (eexists; split; [by rewrite s_db_id|done]).
    - eexists. split; [by rewrite s_db_id|done]. }
  destruct Hg as (x & Hx & Hv). rewrite (mbind_eq _ _ _ _ _ Hx). unfold mret, M_ret. by rewrite Hv.
Qed.

(** C4: history is append-only.  Whatever operations follow, an entry that can
    be read at a sequence number is read there unchanged ever after. *)
Theorem history_append_only s s' W seq e :
  reachable s → steps s s' → w_io W = [] →
  get_entry_by_sequence seq (W, s) = (Ok (Some e), (W, s)) →
  get_entry_by_sequence seq (W, s') = (Ok (Some e), (W, s')).
Proof.
  intros (es & Hi)%reachable_inv Hst Hio. rewrite !get_entry_by_sequence_quiet by done.
  destruct (steps_inv _ _ _ _ Hst Hi) as (new & Hi' & _ & _).
  destruct (t_entries (db_tables (ls_db s)) !! as_i64 seq) as [r|] eqn:Hr; [|done].
  rewrite (row_extends _ _ es new _ _ (inv_db _ _ Hi) (inv_db _ _ Hi') Hr). cbn. intros [= ->]. done.
Qed.

(** ** Idempotency *)

Lemma find_app_Some {A} (f : A → bool) l l' x : find f l = Some x → find f (l ++ l') = Some x.
Proof. induction l as [|y l IH]; cbn; [done|]. by destruct (f y). Qed.

Lemma posted_as_app es new e seq : posted_as es e = Some seq → posted_as (es ++ new) e = Some seq.
Proof.
  unfold posted_as. destruct (e_idempotency_key e) as [key|]; [|done]. cbn. intros (e' & Hf & ->)%fmap_Some.
  by rewrite (find_app_Some _ _ _ _ Hf).
Qed.

Lemma posted_as_new es e e' key :
  e_idempotency_key e = Some key → e_idempotency_key e' = Some key → posted_as es e = None →
  posted_as (es ++ [e']) e = Some (e_sequence e').
Proof.
  unfold posted_as. intros -> He'. cbn. intros Hn%fmap_None. induction es as [|x es IH]; cbn in *.
  - by rewrite bool_decide_true.
  - by destruct (bool_decide (e_idempotency_key x = Some key)); [|apply IH].
Qed.

(** The sequence a successful [post_entry] returned is recorded under its key. *)
Lemma post_entry_recorded e key W s es seq W' s' :
  w_io W = [] → ledger_inv s es → ls_next_sequence s < 2 ^ 63 → e_content_hash e = ZERO_HASH →
  e_idempotency_key e = Some key → post_entry e (W, s) = (Ok seq, (W', s')) →
  ∃ es', ledger_inv s' es' ∧ posted_as es' e = Some seq.
Proof.
  intros Hio Hi Hlt Hz Hkey [(? & ? & _)|[(k & [= ->] & -> & _ & Hpb)|(Hv & Hc & W1 & Hpb & Hce)]]%post_entry_cases; [done|..];
    rewrite (posted_before_quiet W s es e Hio (inv_db _ _ Hi)) in Hpb; injection Hpb as Hnone HW.
  - by exists es.
  - subst W1. apply posted_as_None in Hnone as Hf. apply validate_Ok in Hv as [_ Hbal].
    apply post_checks_Ok in Hc as Hadm%admitted_accounts.
    eapply commit_entry_inv in Hce as [(? & _)|[[= ->] Hi']]; [done| |done..|by split].
    eexists. split; [exact Hi'|]. by apply (posted_as_new _ _ (final_entry W s e) key).
Qed.

(** C20: idempotency without I/O failures.  When [post_entry] has returned [seq]
    for an entry with an idempotency key, then after any operations of [StoreOp]
    posting any valid entry under that key returns the same [seq] and changes
    nothing, provided no I/O call fails in the first post, in between and in the
    second post (a key lookup that fails counts as an absent key). *)
Theorem post_entry_idempotent e key W s seq W' s' s'' e2 W2 :
  reachable s → w_io W = [] → ls_next_sequence s < 2 ^ 63 → e_content_hash e = ZERO_HASH →
  e_idempotency_key e = Some key → post_entry e (W, s) = (Ok seq, (W', s')) →
  steps s' s'' → w_io W2 = [] → e_idempotency_key e2 = Some key → validate e2 = Ok tt →
  post_entry e2 (W2, s'') = (Ok seq, (W2, s'')).
Proof.
  intros (es & Hi)%reachable_inv Hio Hlt Hz Hkey Hp Hst Hio2 Hkey2 Hv2.
  destruct (post_entry_recorded _ _ _ _ _ _ _ _ Hio Hi Hlt Hz Hkey Hp) as (es' & Hi' & Hrec).
  destruct (steps_inv _ _ _ _ Hst Hi') as (new & Hi'' & _ & _).
  assert (Hpb : posted_as (es' ++ new) e2 = Some seq).
  { apply (posted_as_app _ new) in Hrec. unfold posted_as in *. by rewrite Hkey2, <- Hkey. }
  unfold post_entry. rewrite (mbind_eq _ _ _ tt (W2, s'')) by (unfold liftR; by rewrite Hv2).
  by rewrite (mbind_eq _ _ _ _ _ (posted_before_quiet W2 s'' _ e2 Hio2 (inv_db _ _ Hi''))), Hpb.
Qed.

(** An entry is reversed at most once: once it is reversed, no later
    [reverse_entry] of it succeeds, in any environment. *)
Theorem reversed_once s s' entry_id desc dom W :
  reachable s → is_reversed entry_id s = true → steps s s' →
  is_ok (reverse_entry entry_id desc dom (W, s')).1 = false.
Proof.
  intros (es & Hi)%reachable_inv Hr%bool_decide_eq_true Hst.
  destruct (steps_inv _ _ _ _ Hst Hi) as (new & Hi' & _ & Hev). apply (ev_reversals _ _ Hev) in Hr as [rid Hr].
  destruct (reverse_entry entry_id desc dom (W, s')) as [r [W' s'']] eqn:Hv.
  apply reverse_entry_cases with (es := es ++ new) in Hv as [[? _]|(o & rv & W1 & W2 & _ & Hc & _)]; [done| |apply Hi'].
  apply reverse_checks_Ok in Hc as (_ & _ & Hn). by rewrite Hn in Hr.
Qed.
End history.
