(* ===== verification/StoreAudit.v ===== *)
(** * The ledger store: what its checks report

    Chain verification, reconciliation and the accounting equation, on every
    state a store reaches. *)

From stdpp Require Import base gmap list strings option fin_maps sorting relations pretty.
From Stdlib Require Import ZArith Lia.
From S2P Require Import Prelude Bytes Crypto Money Entry WalRecord Wal Recovery Tx Page EntryDb Store StoreFrame StoreBooks StoreInv StoreReverse StoreSafety StoreHistory.

(** Sums over a list of values. *)
Fixpoint sum_list {A} (f : A → Z) (l : list A) : Z :=
  match l with [] => 0 | a :: l => f a + sum_list f l end.

Lemma sum_list_perm {A} (f : A → Z) l l' : l ≡ₚ l' → sum_list f l = sum_list f l'.
Proof. induction 1; cbn in *; lia. Qed.

Lemma sum_list_app {A} (f : A → Z) l l' : sum_list f (l ++ l') = sum_list f l + sum_list f l'.
Proof. induction l as [|a l IH]; cbn in *; [done|]. rewrite IH. lia. Qed.

Lemma sum_list_ext {A} (f g : A → Z) l : (∀ a, a ∈ l → f a = g a) → sum_list f l = sum_list g l.
Proof.
  induction l as [|a l IH]; intros Hfg; cbn; [done|]. rewrite (Hfg a) by left.
  rewrite IH; [done|]. intros. apply Hfg. by right.
Qed.

Lemma sum_list_add {A} (f g : A → Z) l : sum_list (λ a, f a + g a) l = sum_list f l + sum_list g l.
Proof. induction l as [|a l IH]; cbn in *; [done|]. rewrite IH. lia. Qed.

(** Summing the share of each account gives the total. *)
Lemma sum_on_one f l ids :
  NoDup ids → ln_account_id l ∈ ids → sum_list (λ id, on id f l) ids = f l.
Proof.
  induction 1 as [|id ids Hni Hnd IH]; [by intros ?%elem_of_nil|]. intros Hin. cbn.
  destruct (decide (ln_account_id l = id)) as [Heq|Hne].
  - unfold on at 1. rewrite decide_True by done.
    rewrite (sum_list_ext _ (λ _, 0)); [|intros i Hi; unfold on; case_decide; [subst; done|done]].
    assert (Hz : sum_list (λ _ : Z, 0) ids = 0) by (clear; induction ids; cbn in *; lia). lia.
  - unfold on at 1. rewrite decide_False by done. rewrite IH; [lia|]. set_solver.
Qed.

Lemma sum_on_all f ls ids :
  NoDup ids → Forall (λ l, ln_account_id l ∈ ids) ls → sum_list (λ id, sumZ (on id f) ls) ids = sumZ f ls.
Proof.
  intros Hnd. induction 1 as [|l ls Hl _ IH]; cbn; [induction ids; cbn in *; [done|]|].
  - apply NoDup_cons in Hnd as [_ Hnd]. rewrite IHids; done.
  - rewrite sum_list_add, IH, sum_on_one; done.
Qed.

Section audit.
Context `{Blake3} `{Ed25519} `{WalExt} `{PageExt} `{LedgerCodecs} `{LedgerExt}.

(** ** Chain verification *)

Lemma verify_stream prev es :
  (stream_entries verify_step es prev).2 = chain_error (verify_entries prev es).
Proof.
  revert prev. induction es as [|e es IH]; intros prev; [done|]. cbn. unfold verify_step. cbn.
  destruct (verify_hashes e); cbn; [|done]. case_bool_decide; cbn; [apply IH|done].
Qed.

Lemma verify_chain_integrity_run W s es :
  w_io W = [] → db_repr (db_tables (ls_db s)) es →
  verify_chain_integrity (W, s) = (chain_error (verify_entries ZERO_HASH es), (W, s)).
Proof.
  intros Hio Hr. unfold verify_chain_integrity.
  rewrite (mbind_eq _ _ _ (stream_entries verify_step es ZERO_HASH) (W, s)).
  - unfold liftR. by rewrite verify_stream.
  - apply db_op_quiet. by apply stream_all_quiet.
Qed.

(** C5: the chain of a reachable store verifies.  After any sequence of the
    operations of [StoreOp] (create, close, post, reverse, settle, hold,
    reconcile, checkpoint, register a currency) on a new store, in which no I/O
    call fails, new accounts get fresh identifiers, sequence numbers stay below
    [2^63] and every entry is posted with its content hash unset (all zero, as
    the builder leaves it), [verify_chain_integrity] returns [Ok].  The last
    condition is needed: a content hash computed before posting covers the old
    sequence number and is kept ([finalized_before_posting]). *)
Theorem reachable_chain_verifies s W :
  reachable s → w_io W = [] → verify_chain_integrity (W, s) = (Ok tt, (W, s)).
Proof.
  intros (es & Hi)%reachable_inv Hio. rewrite (verify_chain_integrity_run _ _ es); [|done|apply Hi].
  by rewrite (inv_chain _ _ Hi).
Qed.

(** On an index of any content, [verify_chain_integrity] accepts exactly
    the entries that verify one by one against the hash chain from the genesis
    value. *)
Theorem verify_chain_integrity_exact s es W :
  w_io W = [] → db_repr (db_tables (ls_db s)) es →
  ((verify_chain_integrity (W, s)).1 = Ok tt ↔ verify_entries ZERO_HASH es = None).
Proof.
  intros Hio Hr. rewrite (verify_chain_integrity_run _ _ es) by done. cbn [fst].
  split; by destruct (verify_entries ZERO_HASH es) as [[seq []]|].
Qed.

(** *** Tampering *)

Lemma verify_entries_bad pre e post :
  verify_entries ZERO_HASH pre = None → verify_hashes e = false →
  verify_entries ZERO_HASH (pre ++ e :: post) = Some (e_sequence e, true).
Proof. intros Hp He. rewrite verify_entries_app, Hp. cbn [verify_entries]. by rewrite He. Qed.

Lemma verify_hashes_description d e :
  verify_hashes e = true → hash_bytes (canonical_bytes (set_description d e)) ≠ hash_bytes (canonical_bytes e) →
  verify_hashes (set_description d e) = false.
Proof.
  intros [Hc _]%verify_hashes_spec Hne. unfold verify_hashes. rewrite bool_decide_false; [done|].
  change (e_content_hash (set_description d e)) with (e_content_hash e). by rewrite Hc.
Qed.

(** The index after a row was rewritten with another entry of the same columns. *)
Lemma db_repr_replace t pre e e' d post :
  db_repr t (pre ++ e :: post) → e_sequence e' = e_sequence e → enc e' = Some d →
  db_repr (set_entries (<[e_sequence e := entry_row e' d]> (t_entries t)) t) (pre ++ e' :: post).
Proof.
  intros Hr Hseq Hd. pose proof Hr as (Hk & Hs & Hok). split_and!.
  - rewrite map_app. cbn [map]. rewrite Hseq. rewrite map_app in Hk. cbn [map] in Hk. rewrite <- Hk.
    apply sorted_keys_dom. cbn. apply dom_insert_lookup_L.
    assert (e_sequence e ∈ sorted_keys (t_entries t)) as Hin by (rewrite Hk; set_solver). by apply elem_of_sorted_keys.
  - pose proof (sorted_keys_NoDup (t_entries t)) as Hnd. rewrite Hk, map_app in Hnd. cbn [map] in Hnd.
    apply NoDup_app in Hnd as (_ & Hpre & [Hpost _]%NoDup_cons).
    assert (Hkeep : ∀ x, e_sequence x ≠ e_sequence e → stored_in t x →
      stored_in (set_entries (<[e_sequence e := entry_row e' d]> (t_entries t)) t) x).
    { intros x Hx (r & Hrx & Hrow). exists r. split; [|done]. cbn. by rewrite lookup_insert_ne. }
    rewrite Forall_app, Forall_cons, !Forall_forall in Hs |- *. destruct Hs as (Hs1 & _ & Hs2). split_and!.
    + intros x Hx. apply Hkeep; [|auto]. intros Heq. apply (Hpre (e_sequence x)); [apply list_elem_of_fmap; by exists x|].
      rewrite Heq. left.
    + exists (entry_row e' d). cbn. rewrite Hseq, lookup_insert_eq. split; [done|by exists d].
    + intros x Hx. apply Hkeep; [|auto]. intros Heq. apply Hpost. rewrite <- Heq. apply list_elem_of_fmap. by exists x.
  - rewrite Forall_app, Forall_cons in Hok |- *. unfold seq_ok in *. by rewrite Hseq.
Qed.

(** The demonstration of tampering never changes anything: its [UPDATE] is
    aborted by the trigger that keeps the table append-only, and it answers
    [false] in every environment. *)
Theorem tamper_demo_has_no_effect seq d W s : ∃ W', tamper_entry_for_demo seq d (W, s) = (Ok false, (W', s)).
Proof.
  unfold tamper_entry_for_demo, db_try, attempt, mbind at 1, M_bind at 1.
  destruct (db_op (get_by_sequence seq) (W, s)) as [r [W1 s1]] eqn:Hg.
  apply db_op_reads in Hg as ->; [|apply get_by_sequence_reads]. destruct r as [[e|]|x]; [|by eexists..].
  unfold encode_entry. destruct (enc (set_description d e)) as [data|]; [|by eexists]. cbn [ok_or].
  unfold mbind, M_bind. destruct (db_op (tamper_replace seq data) (W1, s)) as [r [W2 s2]] eqn:Ht.
  assert (Hr : is_ok r = true → r = Ok false).
  { unfold db_op, zoom, tamper_replace, query, mbind, M_bind, gets, throw, mret, M_ret in Ht. cbn in Ht.
    destruct (default false _); cbn in Ht; [by simplify_eq|]. destruct (_ !! as_i64 seq); by simplify_eq. }
  apply db_op_reads in Ht as ->.
  2: { apply reads_bind; [apply query_reads|]. intros [?|]; [apply reads_throw|apply reads_ret]. }
  destruct r as [b|x]; [|by eexists]. injection (Hr eq_refl) as ->. by eexists.
Qed.

(** Somebody rewrites the description of a stored entry in the SQLite file,
    past the program and its triggers. *)
Definition forge_description (seq : Z) (d : string) (s : LedgerStore) : option LedgerStore :=
  let t := db_tables (ls_db s) in
  r ← t_entries t !! seq;
  e ← dec (row_data r);
  data ← enc (set_description d e);
  Some (s_db (mkDb (set_entries (<[seq := entry_row (set_description d e) data]> (t_entries t)) t) (db_saved (ls_db s))) s).

Definition forged_store (seq : Z) (d : string) (s : LedgerStore) : LedgerStore := default s (forge_description seq d s).
Lemma forged_store_run seq d s :
  bool_decide (is_Some (forge_description seq d s)) = true → forge_description seq d s = Some (forged_store seq d s).
Proof. intros [s' Hs]%bool_decide_eq_true. unfold forged_store. by rewrite Hs. Qed.

Lemma forge_run s es seq d s' :
  db_repr (db_tables (ls_db s)) es → forge_description seq d s = Some s' →
  ∃ pre e post, es = pre ++ e :: post ∧ seq = e_sequence e ∧
    db_repr (db_tables (ls_db s')) (pre ++ set_description d e :: post).
Proof.
  intros Hr Ht. unfold forge_description in Ht.
  destruct (t_entries (db_tables (ls_db s)) !! seq) as [r|] eqn:Hrow; [|done]. cbn in Ht.
  destruct (stored_row _ _ _ _ Hr Hrow) as (e & Hin & Hseq & Hre).
  pose proof (decode_row_of _ _ Hre) as Hdec. unfold decode_entry in Hdec.
  destruct (dec (row_data r)) as [e0|]; [|done]. cbn in Hdec, Ht. injection Hdec as ->.
  destruct (enc (set_description d e)) as [data|] eqn:Hd; [|done]. cbn in Ht. injection Ht as <-. subst seq.
  apply list_elem_of_split in Hin as (pre & post & ->). exists pre, e, post.
  split_and!; [done..|]. by apply db_repr_replace.
Qed.

(** Tampering with a stored entry is detected: after its description was
    rewritten in the index, verification of the chain fails and names that
    entry, unless the rewritten entry has the same digest as the original. *)
Theorem tampering_detected W s seq d s' :
  reachable s → w_io W = [] → forge_description seq d s = Some s' →
  ∃ e, get_entry_by_sequence seq (W, s) = (Ok (Some e), (W, s)) ∧
    (hash_bytes (canonical_bytes (set_description d e)) = hash_bytes (canonical_bytes e) ∨
     verify_chain_integrity (W, s') =
       (Err (Serialization ("Hash chain broken at sequence " +:+ pretty (e_sequence e))), (W, s'))).
Proof.
  intros (es & Hi)%reachable_inv Hio Ht. pose proof (inv_db _ _ Hi) as Hr.
  destruct (forge_run _ _ _ _ _ Hr Ht) as (pre & e & post & -> & Hseq & Hr').
  exists e. split.
  - destruct Hr as (_ & Hs & Hok). rewrite Forall_app, Forall_cons in Hs, Hok. destruct Hs as (_ & (r & Hl & Hre) & _), Hok as (_ & Hok & _).
    rewrite get_entry_by_sequence_quiet, Hseq, as_i64_seq, Hl by done. cbn. by rewrite (decode_row_of _ _ Hre).
  - destruct (decide (hash_bytes (canonical_bytes (set_description d e)) = hash_bytes (canonical_bytes e))) as [|Hne]; [by left|right].
    pose proof (inv_chain _ _ Hi) as Hc. rewrite verify_entries_app in Hc.
    destruct (verify_entries ZERO_HASH pre) eqn:Hp; [done|]. cbn [verify_entries] in Hc.
    destruct (verify_hashes e) eqn:He; [|done].
    rewrite (verify_chain_integrity_run _ _ (pre ++ set_description d e :: post)) by done.
    by rewrite (verify_entries_bad _ _ _ Hp (verify_hashes_description _ _ He Hne)).
Qed.

(** ** Reconciliation *)

(** The sign under which reconciliation counts an account, relative to the
    running cache. *)
Definition recon_sign (accounts : gmap Z Account) (id : Z) : Z :=
  match accounts !! id with
  | Some a => if decide (account_type a = Suspense) then -1 else 1
  | None => 1
  end.

Lemma recon_sign_type t : normal_balance_sign t = (if decide (t = Suspense) then -1 else 1) * cache_sign t.
Proof. by destruct t. Qed.

Lemma recompute_lines accounts ls m id :
  default 0 (foldl (λ m l, match accounts !! ln_account_id l with
                | None => m
                | Some a => add_to (ln_account_id l) (net_debit_of l * normal_balance_sign (account_type a)) m
                end) m ls !! id) =
  default 0 (m !! id) + recon_sign accounts id * effect accounts id ls.
Proof.
  unfold recon_sign, effect. revert m. induction ls as [|l ls IH]; intros m; cbn [foldl sumZ].
  { destruct (accounts !! id); lia. }
  rewrite IH. destruct (accounts !! ln_account_id l) as [a|] eqn:Ha.
  - rewrite add_to_default. unfold on at 2. destruct (decide (ln_account_id l = id)) as [Heq|Hne].
    + subst id. rewrite Ha, recon_sign_type. lia.
    + destruct (accounts !! id); lia.
  - unfold on at 2. destruct (decide (ln_account_id l = id)) as [Heq|Hne]; [subst; by rewrite Ha|].
    destruct (accounts !! id); lia.
Qed.

Lemma recompute_stream accounts es m id :
  default 0 ((stream_entries (λ e m, Ok (recompute_entry accounts e m)) es m).1 !! id) =
  default 0 (m !! id) + recon_sign accounts id * sum_effects accounts id es.
Proof.
  revert m. induction es as [|e es IH]; intros m; cbn [stream_entries sum_effects fst]; [lia|]. rewrite IH.
  unfold recompute_entry, entry_effect. destruct (affects_balance (e_status e)); [rewrite recompute_lines|]; lia.
Qed.

Lemma discrepancy_sign s m id :
  default 0 (m !! id) = recon_sign (ls_accounts s) id * balance id s →
  discrepancy s m id =
  match ls_accounts s !! id with
  | Some a => if decide (account_type a = Suspense ∧ balance id s ≠ 0)
              then Some (mkDiscrepancy id (acc_code a) (balance id s) (- balance id s) (-2 * balance id s)) else None
  | None => None
  end.
Proof.
  intros Hm. unfold discrepancy. rewrite Hm. unfold recon_sign.
  destruct (ls_accounts s !! id) as [a|]; [|by rewrite Z.mul_1_l, Z.eqb_refl].
  destruct (decide (account_type a = Suspense)) as [Hs|Hs].
  - destruct (Z.eqb_spec (balance id s) (-1 * balance id s)).
    + rewrite decide_False by (intros [_ Hx]; lia). done.
    + rewrite decide_True by (split; [done|lia]). do 2 f_equal; lia.
  - rewrite Z.mul_1_l, Z.eqb_refl, decide_False by naive_solver. done.
Qed.

(** C19: reconciliation of a reachable store recomputes every balance from the
    entries and reports no account, except each [Suspense] account with a
    balance, for which it computes the opposite sign. *)
Theorem reconcile_exact s W :
  reachable s → w_io W = [] →
  ∃ ds, reconcile (W, s) = (Ok ds, (W, s)) ∧
    ∀ d, d ∈ ds ↔ ∃ id a, ls_accounts s !! id = Some a ∧ account_type a = Suspense ∧ balance id s ≠ 0 ∧
      d = mkDiscrepancy id (acc_code a) (balance id s) (- balance id s) (-2 * balance id s).
Proof.
  intros (es & Hi)%reachable_inv Hio. unfold reconcile. rewrite (mbind_eq _ _ _ s (W, s)) by done.
  set (st := stream_entries (λ e m, Ok (recompute_entry (ls_accounts s) e m)) es ∅).
  rewrite (mbind_eq _ _ _ st (W, s)) by (apply db_op_quiet, stream_all_quiet; [done|apply Hi]).
  eexists. split; [done|]. intros d. rewrite list_elem_of_omap.
  assert (Hd : ∀ id, default 0 (st.1 !! id) = recon_sign (ls_accounts s) id * balance id s).
  { intros id. unfold st. rewrite recompute_stream, (inv_balance _ _ Hi), lookup_empty. done. }
  split.
  - intros (id & _ & Hid). rewrite (discrepancy_sign s _ id (Hd id)) in Hid.
    destruct (ls_accounts s !! id) as [a|] eqn:Ha; [|done]. case_decide as Hc; [|done]. injection Hid as <-.
    destruct Hc. exists id, a. by split_and!.
  - intros (id & a & Ha & Ht & Hb & ->). exists id. split.
    + rewrite hash_order_perm, elem_of_elements, elem_of_union. left. apply elem_of_dom. by eexists.
    + by rewrite (discrepancy_sign s _ id (Hd id)), Ha, decide_True.
Qed.
(** ** The accounting equation *)

Definition account_list (s : LedgerStore) : list Account := map snd (map_to_list (ls_accounts s)).

(** The balances left out of the equation. *)
Definition excluded (t : AccountType) : bool := match t with Contra | Suspense => true | _ => false end.

Lemma sum_balances_list P s l :
  sum_balances P s l = sum_list (λ a, if P (account_type a) then balance (acc_id a) s else 0) l.
Proof.
  unfold sum_balances. set (f := λ n a, _).
  assert (Hf : ∀ z, foldl f z l = z + sum_list (λ a, if P (account_type a) then balance (acc_id a) s else 0) l).
  { induction l as [|a l IH]; intros z; cbn; [lia|]. rewrite IH. unfold f. destruct (P (account_type a)); lia. }
  by rewrite Hf.
Qed.

Lemma sum_balances_perm P s l l' : l ≡ₚ l' → sum_balances P s l = sum_balances P s l'.
Proof. intros Hp. rewrite !sum_balances_list. by apply sum_list_perm. Qed.

Lemma account_ids s es : ledger_inv s es → map acc_id (account_list s) = map fst (map_to_list (ls_accounts s)).
Proof.
  intros Hi. unfold account_list. rewrite map_map. apply map_ext_in. intros [id a] Hin%list_elem_of_In.
  cbn. by apply elem_of_map_to_list, (inv_accounts _ _ Hi) in Hin.
Qed.

Lemma sum_list_map {A B} (g : A → B) (f : B → Z) l : sum_list f (map g l) = sum_list (λ a, f (g a)) l.
Proof. induction l; cbn; [done|]. by rewrite IHl. Qed.

Lemma cache_sign_sq t z : cache_sign t * (cache_sign t * z) = z.
Proof. destruct t; cbn; lia. Qed.

(** A list of all accounts. *)
Record lists_accounts (accounts : gmap Z Account) (l : list Account) : Prop := {
  la_nodup : NoDup (map acc_id l);
  la_sound : ∀ a, a ∈ l → accounts !! acc_id a = Some a;
  la_complete : ∀ id, is_Some (accounts !! id) → id ∈ map acc_id l
}.

Lemma account_list_lists s es : ledger_inv s es → lists_accounts (ls_accounts s) (account_list s).
Proof.
  intros Hi. pose proof (account_ids _ _ Hi) as Hids. constructor.
  - rewrite Hids. apply NoDup_fst_map_to_list.
  - intros a ([id b] & -> & Hb%elem_of_map_to_list)%list_elem_of_fmap. cbn. by rewrite (inv_accounts _ _ Hi _ _ Hb).
  - intros id [a Ha]. rewrite Hids. apply list_elem_of_fmap. exists (id, a). split; [done|by apply elem_of_map_to_list].
Qed.

Lemma entry_signed_zero accounts l e :
  lists_accounts accounts l → entry_ok accounts e →
  sum_list (λ a, cache_sign (account_type a) * entry_effect accounts (acc_id a) e) l = 0.
Proof.
  intros [Hnd Hs Hc] [Hb Hl]. unfold entry_effect. destruct (affects_balance (e_status e)).
  - rewrite (sum_list_ext _ (λ a, sumZ (on (acc_id a) net_debit_of) (e_lines e))).
    + rewrite <- (sum_list_map acc_id (λ id, sumZ (on id net_debit_of) (e_lines e))).
      rewrite sum_on_all; [by apply balanced_net|done|]. eapply Forall_impl; [exact Hl|]. intros ln. apply Hc.
    + intros a Ha. unfold effect. by rewrite (Hs a Ha), cache_sign_sq.
  - rewrite (sum_list_ext _ (λ _, 0)) by (intros; lia). clear. induction l; cbn; lia.
Qed.

(** Signed by account type, the balances of a ledger sum to zero. *)
Lemma signed_sum_zero s es :
  ledger_inv s es → sum_list (λ a, cache_sign (account_type a) * balance (acc_id a) s) (account_list s) = 0.
Proof.
  intros Hi. pose proof (account_list_lists _ _ Hi) as Hla.
  rewrite (sum_list_ext _ (λ a, cache_sign (account_type a) * sum_effects (ls_accounts s) (acc_id a) es))
    by (intros; by rewrite (inv_balance _ _ Hi)).
  pose proof (inv_entries _ _ Hi) as Hok. clear Hi. induction Hok as [|e es He _ IH]; cbn [sum_effects].
  - rewrite (sum_list_ext _ (λ _, 0)) by (intros; lia). clear. induction (account_list s); cbn; lia.
  - rewrite (sum_list_ext _ (λ a, cache_sign (account_type a) * entry_effect (ls_accounts s) (acc_id a) e +
      cache_sign (account_type a) * sum_effects (ls_accounts s) (acc_id a) es)) by (intros; lia).
    by rewrite sum_list_add, IH, entry_signed_zero.
Qed.

Lemma type_split s l :
  sum_list (λ a, cache_sign (account_type a) * balance (acc_id a) s) l =
  sum_balances is_debit_normal s l - sum_balances is_credit_normal s l - sum_balances excluded s l.
Proof.
  rewrite !sum_balances_list. induction l as [|a l IH]; [done|]. cbn [sum_list]. rewrite IH.
  destruct (account_type a); cbn; lia.
Qed.

(** C3: the accounting equation.  [check_financial_invariants] accepts a
    reachable store exactly when the balances it leaves out (those of [Contra]
    and [Suspense] accounts) sum to zero; in particular it accepts every
    ledger without such accounts.  When it refuses, the difference it reports
    is that sum. *)
Theorem financial_invariants_exact s :
  reachable s →
  (check_financial_invariants s = Ok tt ↔ sum_balances excluded s (account_list s) = 0) ∧
  (∀ d c, check_financial_invariants s = Err (d, c) → d - c = sum_balances excluded s (account_list s)) ∧
  (map_Forall (λ _ a, excluded (account_type a) = false) (ls_accounts s) → check_financial_invariants s = Ok tt).
Proof.
  intros (es & Hi)%reachable_inv. pose proof (signed_sum_zero _ _ Hi) as Hz. rewrite type_split in Hz.
  unfold check_financial_invariants. fold (account_list s). pose proof (hash_order_perm _ (account_list s)) as Hp.
  rewrite !(sum_balances_perm _ s _ _ Hp).
  set (d := sum_balances is_debit_normal s _) in *. set (c := sum_balances is_credit_normal s _) in *.
  split_and!.
  - destruct (Z.eqb_spec d c); split; [lia|done..|lia].
  - intros d' c'. destruct (Z.eqb_spec d c); [done|]. intros [= <- <-]. lia.
  - intros Hno. destruct (Z.eqb_spec d c) as [|Hne]; [done|]. destruct Hne.
    assert (He : sum_balances excluded s (account_list s) = 0); [|lia].
    rewrite sum_balances_list, (sum_list_ext _ (λ _, 0)); [clear; induction (account_list s); cbn; lia|].
    intros a Ha. by rewrite (Hno _ _ (la_sound _ _ (account_list_lists _ _ Hi) a Ha)).
Qed.
End audit.
