(* ===== verification/StoreHold.v ===== *)
(** * The ledger store: legal holds

    An account under legal hold keeps its balance: no posting, reversal or
    settlement touches it until the hold is lifted. *)

From stdpp Require Import base gmap list strings option fin_maps sorting relations.
From Stdlib Require Import ZArith Lia.
From S2P Require Import Prelude Bytes Crypto Money Entry WalRecord Wal Recovery Tx Page EntryDb Store StoreFrame StoreBooks StoreInv StoreReverse StoreSafety StoreHistory.

Section hold.
Context `{Blake3} `{Ed25519} `{WalExt} `{PageExt} `{LedgerCodecs} `{LedgerExt}.

(** The account is marked and listed. *)
Definition held (id : Z) (s : LedgerStore) : Prop :=
  (∃ a, ls_accounts s !! id = Some a ∧ legal_hold a = true) ∧ id ∈ ls_holds s.

Lemma held_same id s s' :
  ls_accounts s' = ls_accounts s → ls_holds s' = ls_holds s → held id s → held id s'.
Proof. unfold held. by intros -> ->. Qed.

Lemma held_insert id s s' i a :
  ls_accounts s' = <[i := a]> (ls_accounts s) → id ∈ ls_holds s' →
  (i = id → legal_hold a = true) → held id s → held id s'.
Proof.
  intros Ha Hh Hi [(b & Hb & Hl) _]. split; [|done]. rewrite Ha.
  destruct (decide (i = id)) as [->|Hne]; [rewrite lookup_insert_eq; eauto|rewrite lookup_insert_ne by done; eauto].
Qed.

Lemma effect_untouched accounts id ls : ¬ touches id ls → effect accounts id ls = 0.
Proof. intros Ht. unfold effect. destruct (accounts !! id); [|done]. rewrite sumZ_on_none by done. lia. Qed.

(** Neither an admitted entry nor a reversible one touches a held account. *)
Lemma admitted_untouched id s e : held id s → admitted s e → ¬ touches id (e_lines e).
Proof.
  intros [(a & Ha & Hl) _] [Hadm _] (l & Hin & Hid)%Exists_exists. rewrite Forall_forall in Hadm.
  destruct (Hadm l Hin) as (b & Hb & _ & Hf & _). rewrite Hid, Ha in Hb. injection Hb as <-. congruence.
Qed.

Lemma unheld_untouched id s ls :
  held id s → Forall (λ l, ln_account_id l ∉ ls_holds s) ls → ¬ touches id ls.
Proof.
  intros [_ Hh] Hf (l & Hin & Hid)%Exists_exists. rewrite Forall_forall in Hf. specialize (Hf l Hin). congruence.
Qed.

Lemma balance_eq id s s' : ls_balance s' = ls_balance s → balance id s' = balance id s.
Proof. unfold balance. by intros ->. Qed.

Lemma books_held id s s' : same_books s s' → held id s → held id s' ∧ balance id s' = balance id s.
Proof.
  intros (_ & Ha & Hb & _ & _ & _ & _ & Hh & _) Hheld. split; [by eapply held_same|by apply balance_eq].
Qed.

Lemma appended_held id s s' e :
  appended_entry s s' e → ¬ touches id (e_lines e) → held id s → held id s' ∧ balance id s' = balance id s.
Proof.
  intros (_&_&_&_&Ha&Hh&_&_&_&_&Hb) Ht Hheld. split; [by eapply held_same|]. rewrite Hb. unfold entry_effect.
  rewrite effect_untouched by done. destruct (affects_balance _); lia.
Qed.

Lemma post_held id e W s r W' s' :
  post_entry e (W, s) = (r, (W', s')) → held id s → held id s' ∧ balance id s' = balance id s.
Proof.
  intros [(? & _ & -> & _)|[(? & _ & -> & _)|(_ & Hc & W1 & _ & Hce)]]%post_entry_cases Hheld; [done|done|].
  apply post_checks_Ok in Hc. destruct r as [seq|x].
  - apply commit_entry_Ok in Hce as (_ & _ & Happ). eapply appended_held; [exact Happ| |done].
    by eapply (admitted_untouched id s e).
  - apply commit_entry_Err in Hce as [Hb _]. eapply books_held; [exact Hb|done].
Qed.

Lemma mirror_untouched id ls ms : Forall2 mirrors ls ms → ¬ touches id ls → ¬ touches id ms.
Proof.
  unfold touches. rewrite <- !Forall_Exists_neg. apply (mirror_accounts (λ i, i ≠ id)).
Qed.

Lemma reverse_held id entry_id desc dom W s es r W' s' :
  ledger_inv s es → reverse_entry entry_id desc dom (W, s) = (r, (W', s')) →
  held id s → held id s' ∧ balance id s' = balance id s.
Proof.
  intros Hi Hv Hheld. apply reverse_entry_cases with (es := es) in Hv as [[_ ->]|(o & rv & W1 & W2 & _ & Hc & Hs & _ & _ & Hcr)]; [done| |apply Hi].
  apply reverse_checks_Ok in Hc as (_ & Hh & _). destruct r as [rid|x].
  - apply commit_reversal_Ok with (o := o) in Hcr as (_ & _ & Happ); [|done].
    eapply appended_held; [exact Happ| |done].
    eapply mirror_untouched; [exact (rs_lines _ _ _ (final_reversal_spec W2 s _ _ _ Hs))|by eapply unheld_untouched].
  - apply commit_reversal_Err in Hcr as [Hb _]. eapply books_held; [exact Hb|done].
Qed.

Lemma step_held id s o s' es :
  store_step s o s' → ledger_inv s es → o ≠ OpHold id false → held id s →
  held id s' ∧ balance id s' = balance id s.
Proof.
  intros Hst Hi Hne Hheld.
  assert (Hbal : ∀ s', same_journal s s' → balance id s' = balance id s).
  { intros s0 (_ & _ & _ & _ & Hb & _). by apply balance_eq. }
  destruct Hst as [a W r W' s' _ Hn Ho|i W r W' s' _ Ho|e W r W' s' _ _ _ Ho|i de dm W r W' s' _ _ Ho
    |i st no W r W' s' _ Ho|i h W r W' s' _ Ho|W r W' s' _ Ho|W r W' s' _ Ho|c W r W' s' Ho].
  - apply create_account_run in Ho as [[_ [? _]]|(Ha & Hj & Hh)]; [by apply books_held|]. split; [|auto].
    assert (Hneq : acc_id a ≠ id) by (intros Heq; destruct Hheld as [(b & Hb & _) _]; by rewrite Heq, Hb in Hn).
    eapply held_insert; [exact Ha| |done|done]. destruct Hheld as [_ Hin]. rewrite Hh. destruct (legal_hold a); set_solver.
  - apply close_account_run in Ho as [[-> _]|(a & Ha & Hacc & Hh & Hj)]; [done|]. split; [|auto].
    eapply held_insert; [exact Hacc|rewrite Hh; apply Hheld| |done]. intros ->.
    destruct Hheld as [(b & Hb & Hl) _]. rewrite Ha in Hb. injection Hb as <-. done.
  - by eapply post_held.
  - by eapply reverse_held.
  - apply apply_settlement_run with (es := es) in Ho as [[_ [? _]]|(o & s1 & _ & _ & [Hb _] & -> & _)];
      [by apply books_held| |apply Hi]. destruct (books_held id _ _ Hb Hheld). done.
  - apply set_legal_hold_run in Ho as [[-> _]|(a & Ha & Hacc & Hj & Hr)]; [done|]. split; [|auto].
    assert (Hh : i = id → h = true) by (intros ->; destruct h; [done|by destruct Hne]).
    eapply held_insert; [exact Hacc| |exact Hh|done]. destruct Hheld as [_ Hin].
    destruct Hr as [[_ ->]|[_ ->]]; [done|]. destruct h; [set_solver|]. assert (i ≠ id) by (intros ->; by discriminate Hh). set_solver.
  - apply reconcile_and_record_run in Ho as [? _]. by apply books_held.
  - apply checkpoint_store_run in Ho as [? _]. by apply books_held.
  - unfold register_currency, modify in Ho. injection Ho as _ _ <-. done.
Qed.

Lemma steps_held id s s' es :
  steps_of (λ o, o ≠ OpHold id false) s s' → ledger_inv s es → held id s →
  held id s' ∧ balance id s' = balance id s.
Proof.
  intros Hst. revert es. induction Hst as [s|s s1 s2 (o & Hne & Hs) _ IH]; intros es Hi Hheld; [done|].
  destruct (step_held _ _ _ _ _ Hs Hi Hne Hheld) as [Hh Hb].
  destruct (store_step_inv _ _ _ _ Hs Hi) as (new & Hi1 & _). rewrite <- Hb. by eapply IH.
Qed.

(** C21: a legal hold freezes an account against the operations of [StoreOp].
    Once [place_legal_hold] has returned [Ok], no sequence of postings, reversals,
    settlements, closures, creations of accounts under fresh identifiers, holds
    on other accounts, reconciliations, checkpoints and new currencies, without
    I/O failures, changes the account's balance or removes the hold, until the
    hold is lifted.  The bulk import is not among them: [import_entry_direct] does
    not look at holds ([import_ignores_hold]). *)
Theorem legal_hold_freezes id W s W' s' s'' :
  reachable s → w_io W = [] → place_legal_hold id (W, s) = (Ok tt, (W', s')) →
  steps_of (λ o, o ≠ OpHold id false) s' s'' →
  balance id s'' = balance id s ∧ is_under_legal_hold id s'' = true.
Proof.
  intros (es & Hi)%reachable_inv Hio Hp Hst. unfold place_legal_hold in Hp.
  pose proof (set_legal_hold_inv _ _ _ _ _ _ _ _ Hi Hp) as Hi'.
  apply set_legal_hold_run in Hp as [[_ ?]|(a & Ha & Hacc & Hj & Hr)]; [done|].
  destruct Hr as [[? _]|[_ Hh]]; [done|].
  assert (Hheld : held id s').
  { split; [|rewrite Hh; set_solver]. exists (set_hold true a). by rewrite Hacc, lookup_insert_eq. }
  destruct (steps_held _ _ _ _ Hst Hi' Hheld) as [[_ Hin] Hb]. split; [|by apply bool_decide_true].
  rewrite Hb. apply balance_eq, Hj.
Qed.
End hold.
