(* ===== verification/StoreSnapshot.v ===== *)
(** * The ledger store: snapshots and range verification

    The account cross-reference finds the entries of an account; the balance at
    a snapshot is the sum of their effects up to it and does not change as the
    ledger grows; a range of a verified chain verifies. *)

From stdpp Require Import base gmap list strings option fin_maps sorting relations.
From Stdlib Require Import ZArith Lia.
From S2P Require Import Prelude Bytes Crypto Money Entry WalRecord Wal Recovery Tx Page EntryDb Store StoreFrame StoreBooks StoreInv StoreReverse StoreSafety StoreHistory.

#[global] Instance touches_dec id ls : Decision (touches id ls).
Proof. unfold touches. apply _. Defined.

(** ** Sums over entries *)

Section snapshot.
Context `{Blake3} `{Ed25519} `{WalExt} `{PageExt} `{LedgerCodecs} `{LedgerExt}.

Lemma seqs_unique t es e e' : db_repr t es → e ∈ es → e' ∈ es → e_sequence e = e_sequence e' → e = e'.
Proof.
  intros (Hk & Hs & _) He He' Heq. pose proof (sorted_keys_NoDup (t_entries t)) as Hnd. rewrite Hk in Hnd.
  clear Hk Hs. induction es as [|x es IH]; [by apply elem_of_nil in He|].
  apply NoDup_cons in Hnd as [Hni Hnd]. apply elem_of_cons in He as [->|He], He' as [->|He']; [done|..|auto].
  - exfalso. apply Hni, list_elem_of_fmap. by exists e'.
  - exfalso. apply Hni, list_elem_of_fmap. by exists e.
Qed.

Lemma refs_touches t es ae e id :
  db_repr t es → refs_ok t es → t_account_entries t = Some ae → e ∈ es →
  ((id, e_sequence e) ∈ ae ↔ touches id (e_lines e)).
Proof.
  intros Hr Hf Ha He. unfold refs_ok in Hf. rewrite Ha in Hf. rewrite Hf. split.
  - intros (e' & He' & Heq & Ht). by rewrite <- (seqs_unique _ _ _ _ Hr He' He Heq).
  - intros Ht. by exists e.
Qed.

(** A selection of rows by key is the selection of the entries. *)
Lemma select_rows t es (P : Z → Prop) (Q : JournalEntry → Prop) `{!∀ k, Decision (P k), !∀ e, Decision (Q e)} :
  db_repr t es → (∀ e, e ∈ es → P (e_sequence e) ↔ Q e) →
  decode_rows (omap (λ k, t_entries t !! k) (filter P (sorted_keys (t_entries t)))) = Ok (filter Q es).
Proof.
  intros (Hk & Hs & _) HPQ. apply decode_rows_repr. rewrite Hk. clear Hk.
  induction Hs as [|e es (r & Hr & Hrow) _ IH]; [constructor|]. cbn [map]. rewrite !filter_cons.
  assert (Hiff : P (e_sequence e) ↔ Q e) by (apply HPQ; left).
  specialize (IH (λ e' He', HPQ e' ltac:(by right))).
  destruct (decide (Q e)) as [Hq|Hq].
  - rewrite decide_True by tauto. cbn. rewrite Hr. by constructor.
  - rewrite decide_False by tauto. done.
Qed.

Lemma entries_for_account_quiet W db es ae id :
  w_io W = [] → db_repr (db_tables db) es → refs_ok (db_tables db) es →
  t_account_entries (db_tables db) = Some ae →
  entries_for_account id (W, db) = (Ok (filter (λ e, touches id (e_lines e)) es), (W, db)).
Proof.
  intros Hio Hr Hf Ha. unfold entries_for_account. rewrite (mbind_eq _ _ _ _ _ (query_quiet W Hio _ _)), Ha.
  rewrite (mbind_eq _ _ _ _ _ (query_quiet W Hio _ _)). unfold liftR.
  rewrite (select_rows _ es _ (λ e, touches id (e_lines e))); [done|done|].
  intros e He. by eapply refs_touches.
Qed.

(** ** The balance at a snapshot *)

Lemma snapshot_lines id t ls n :
  foldl (λ n l, if bool_decide (ln_account_id l = id) then n + line_delta t l else n) n ls =
  n + cache_sign t * sumZ (on id net_debit_of) ls.
Proof.
  revert n. induction ls as [|l ls IH]; intros n; cbn [foldl sumZ]; [lia|]. rewrite IH. unfold on at 2.
  case_bool_decide; case_decide; try done; rewrite ?line_delta_sign; lia.
Qed.

Definition up_to (snap : Z) (es : list JournalEntry) : list JournalEntry := filter (λ e, e_sequence e ≤ snap) es.

Lemma snapshot_fold accounts id a snap es n :
  accounts !! id = Some a →
  foldl (λ n e,
    if (snap <? e_sequence e) || negb (affects_balance (e_status e)) then n
    else foldl (λ n l, if bool_decide (ln_account_id l = id) then n + line_delta (account_type a) l else n) n (e_lines e))
    n (filter (λ e, touches id (e_lines e)) es) = n + sum_effects accounts id (up_to snap es).
Proof.
  intros Ha. unfold up_to. revert n. induction es as [|e es IH]; intros n; cbn [sum_effects]; [cbn; lia|].
  rewrite !filter_cons.
  assert (Heff : entry_effect accounts id e = if affects_balance (e_status e) then
    cache_sign (account_type a) * sumZ (on id net_debit_of) (e_lines e) else 0).
  { unfold entry_effect, effect. by rewrite Ha. }
  destruct (decide (touches id (e_lines e))) as [Ht|Ht]; cbn [foldl].
  - rewrite snapshot_lines. destruct (Z.ltb_spec snap (e_sequence e)) as [Hlt|Hle]; cbn [orb].
    + rewrite decide_False by lia. apply IH.
    + rewrite decide_True by lia. cbn [sum_effects]. rewrite IH, Heff. destruct (affects_balance _); cbn; lia.
  - rewrite IH. case_decide; [|done]. cbn [sum_effects]. rewrite Heff, sumZ_on_none by done. destruct (affects_balance _); lia.
Qed.

Lemma balance_at_snapshot_quiet W s es id a snap :
  w_io W = [] → ledger_inv s es → ls_accounts s !! id = Some a →
  balance_at_snapshot id snap (W, s) = (Ok (sum_effects (ls_accounts s) id (up_to snap es)), (W, s)).
Proof.
  intros Hio Hi Ha. unfold balance_at_snapshot. rewrite (mbind_eq _ _ _ s (W, s)) by done. rewrite Ha.
  destruct (t_account_entries (db_tables (ls_db s))) as [ae|] eqn:Hae.
  - rewrite (mbind_eq _ _ _ (Ok (filter (λ e, touches id (e_lines e)) es)) (W, s)).
    2: { apply db_try_reads_quiet. eapply entries_for_account_quiet; [done|apply Hi|apply Hi|done]. }
    cbn [res_unwrap_or]. rewrite (snapshot_fold (ls_accounts s)) by done. by rewrite Z.add_0_l.
  - pose proof (inv_refs _ _ Hi) as Hf. unfold refs_ok in Hf. rewrite Hae in Hf. subst es.
    rewrite (mbind_eq _ _ _ (Err sqlite_error) (W, s)); [done|].
    unfold db_try, attempt, db_op, zoom, entries_for_account.
    rewrite (mbind_eq _ _ _ _ _ (query_quiet W Hio _ _)), Hae. cbn. by rewrite s_db_id.
Qed.

Lemma up_to_extends s s' es new snap :
  ledger_inv s es → extends s s' new → snap ≤ current_snapshot s → up_to snap (es ++ new) = up_to snap es.
Proof.
  intros Hi [_ Hn] Hs. unfold up_to. rewrite filter_app.
  rewrite (filter_none _ new), app_nil_r; [done|]. eapply Forall_impl; [exact Hn|].
  unfold current_snapshot, sat_sub in Hs. pose proof (inv_next _ _ Hi). cbn. intros e He. lia.
Qed.

Lemma up_to_current s es : ledger_inv s es → up_to (current_snapshot s) es = es.
Proof.
  intros Hi. apply filter_all. eapply Forall_impl; [apply (inv_seqs _ _ Hi)|]. cbn. intros e He.
  unfold current_snapshot, sat_sub. lia.
Qed.

(** C22: snapshot isolation without I/O failures.  The balance of an account at a
    snapshot taken earlier is the same in every state later operations of
    [StoreOp] lead to, however many entries were posted since; at the moment the
    snapshot is taken it is the account's balance.  No I/O call fails in the
    history of the store, in the later operations and in the two reads. *)
Theorem snapshot_isolation s s' W id a snap :
  reachable s → steps s s' → w_io W = [] → ls_accounts s !! id = Some a → snap ≤ current_snapshot s →
  ∃ v, balance_at_snapshot id snap (W, s) = (Ok v, (W, s)) ∧
    balance_at_snapshot id snap (W, s') = (Ok v, (W, s')) ∧
    (snap = current_snapshot s → v = balance id s).
Proof.
  intros (es & Hi)%reachable_inv Hst Hio Ha Hs. destruct (steps_inv _ _ _ _ Hst Hi) as (new & Hi' & Hx & Hev).
  destruct (ev_types _ _ Hev id a Ha) as (a' & Ha' & Ht). exists (sum_effects (ls_accounts s) id (up_to snap es)).
  rewrite (balance_at_snapshot_quiet W s es id a snap), (balance_at_snapshot_quiet W s' (es ++ new) id a' snap) by done.
  split_and!; [done| |].
  - rewrite (up_to_extends _ _ _ _ _ Hi Hx Hs). do 2 f_equal. apply sum_effects_ext, Forall_forall. intros e _.
    unfold effect. by rewrite Ha, Ha', Ht.
  - intros ->. by rewrite (up_to_current _ _ Hi), (inv_balance _ _ Hi).
Qed.

(** ** Verifying a range *)

Lemma scan_range_quiet W s es from_seq to_seq :
  w_io W = [] → db_repr (db_tables (ls_db s)) es →
  db_op (scan_range from_seq to_seq) (W, s) =
  (Ok (filter (λ e, as_i64 from_seq ≤ e_sequence e ∧ e_sequence e ≤ as_i64 to_seq) es), (W, s)).
Proof.
  intros Hio Hr. apply db_op_quiet. unfold scan_range. rewrite (mbind_eq _ _ _ _ _ (query_quiet W Hio _ _)).
  unfold liftR. by rewrite (select_rows _ es _ (λ e, as_i64 from_seq ≤ e_sequence e ∧ e_sequence e ≤ as_i64 to_seq)).
Qed.

(** Without an upper bound [verify_chain_range] verifies nothing: the
    bound becomes -1 in the query, no entry is read and the call reports that
    zero entries verified, whatever the ledger contains. *)
Theorem verify_chain_range_open_end W s es from_seq :
  w_io W = [] → db_repr (db_tables (ls_db s)) es →
  verify_chain_range from_seq None (W, s) = (Ok (0%nat, ZERO_HASH), (W, s)).
Proof.
  intros Hio Hr. unfold verify_chain_range.
  rewrite (mbind_eq _ _ _ _ _ (scan_range_quiet W s es _ _ Hio Hr)), filter_none; [done|].
  destruct Hr as (_ & _ & Hok). eapply Forall_impl; [exact Hok|]. unfold seq_ok. cbn [from_option id].
  intros e He [_ Hx]. change (as_i64 U64_MAX) with (-1) in Hx. lia.
Qed.

(** The entries of a range are consecutive. *)
Lemma range_split lo hi es :
  StronglySorted Z.lt (map e_sequence es) → lo ≤ hi + 1 →
  es = filter (λ e, e_sequence e < lo) es ++ filter (λ e, lo ≤ e_sequence e ∧ e_sequence e ≤ hi) es ++
       filter (λ e, hi < e_sequence e) es.
Proof.
  intros Hs Hle. induction es as [|e es IH]; [done|]. apply StronglySorted_inv in Hs as [Hs Hall].
  change (Forall (Z.lt (e_sequence e)) (map e_sequence es)) in Hall. rewrite Forall_map in Hall. specialize (IH Hs). rewrite !filter_cons.
  assert (Hnone : ∀ b, b ≤ e_sequence e → filter (λ e', e_sequence e' < b) es = []).
  { intros b Hb. apply filter_none. eapply Forall_impl; [exact Hall|]. cbn. lia. }
  destruct (decide (e_sequence e < lo)) as [H1'|H1'].
  { rewrite !decide_False by lia. cbn [app] in *. by rewrite <- IH. }
  rewrite (Hnone lo) in IH |- * by lia. destruct (decide (lo ≤ e_sequence e ∧ e_sequence e ≤ hi)) as [H2'|H2'].
  { rewrite decide_False by lia. cbn [app] in *. by rewrite <- IH. }
  rewrite decide_True by lia.
  rewrite (filter_none (λ e', lo ≤ e_sequence e' ∧ e_sequence e' ≤ hi)) in IH |- *; [cbn [app] in *; by rewrite <- IH|..];
    (eapply Forall_impl; [exact Hall|]); cbn; lia.
Qed.

Lemma verify_slice prev pre mid post e :
  verify_entries prev (pre ++ (e :: mid) ++ post) = None → verify_entries (e_prev_hash e) (e :: mid) = None.
Proof.
  rewrite verify_entries_app. destruct (verify_entries prev pre); [done|]. rewrite verify_entries_app.
  destruct (verify_entries (tip prev pre) (e :: mid)) eqn:Hv; [done|]. intros _. revert Hv. cbn [verify_entries].
  destruct (verify_hashes e); cbn [negb]; [|done]. rewrite (bool_decide_true (e_prev_hash e = e_prev_hash e)) by done.
  by case_bool_decide.
Qed.

(** A bounded range of a reachable store verifies, and the call reports
    the number of entries in the range and the chain hash of the last. *)
Theorem verify_chain_range_ok W s from_seq to_seq :
  reachable s → w_io W = [] → 0 < from_seq ≤ to_seq → to_seq < 2 ^ 63 →
  ∃ es, ledger_inv s es ∧
    let range := filter (λ e, from_seq ≤ e_sequence e ∧ e_sequence e ≤ to_seq) es in
    verify_chain_range (Some from_seq) (Some to_seq) (W, s) = (Ok (length range, tip ZERO_HASH range), (W, s)).
Proof.
  intros (es & Hi)%reachable_inv Hio Hf Ht. exists es. split; [done|]. unfold verify_chain_range. cbn [from_option id].
  rewrite (mbind_eq _ _ _ _ _ (scan_range_quiet W s es _ _ Hio (inv_db _ _ Hi))), !as_i64_small by lia.
  pose proof (range_split from_seq to_seq es (db_repr_seqs _ _ (inv_db _ _ Hi)) ltac:(lia)) as Hsplit.
  pose proof (inv_chain _ _ Hi) as Hc. rewrite Hsplit in Hc. cbv zeta.
  destruct (filter (λ e, from_seq ≤ e_sequence e ∧ e_sequence e ≤ to_seq) es) as [|e mid]; [done|].
  apply verify_slice in Hc. rewrite (mbind_eq _ _ _ tt (W, s)); [done|]. unfold liftR. by rewrite Hc.
Qed.
End snapshot.
