(* ===== verification/StoreReplay.v ===== *)
(** * The ledger store: reopening

    The log determines the books: replaying the rows of a store's log at
    startup rebuilds its accounts, legal holds, reversals and settlement
    states, and the SQLite index gives back the counters, the chain tip and
    the balances.  A history is a sequence of operations that succeeded; each
    adds to the log what replay needs ([StoreLog]), and the theorem at the end
    is about the composition of every layer: pages, transactions, log,
    recovery, index and store. *)

From stdpp Require Import base gmap list strings option fin_maps sorting relations.
From Stdlib Require Import ZArith Lia.
From S2P Require Import Prelude Bytes Crypto Merkle Money Entry WalRecord Wal Recovery Tx TxLog Page EntryDb Store StoreFrame StoreLog StoreBooks StoreInv StoreReverse StoreSafety.

Section replay.
Context `{Blake3} `{Ed25519} `{!WalExt} `{!PageExt} `{LedgerCodecs} `{LedgerExt} `{!SmallRecords}.

(** ** Replaying rows *)

(** What only the log holds. *)
Record Books := mkBooks {
  bk_accounts : gmap Z Account;
  bk_holds : gset Z;
  bk_reversals : gmap Z Z;
  bk_settlements : gmap Z EntryStatus
}.
Definition books_of (s : LedgerStore) : Books :=
  mkBooks (ls_accounts s) (ls_holds s) (ls_reversals s) (ls_settlements s).
Definition books0 : Books := mkBooks ∅ ∅ ∅ ∅.

(** What replay in front of a current index leaves alone; the counters move
    only when there are entries. *)
Definition untouched (cur : bool) (s s' : LedgerStore) : Prop :=
  ls_tx s' = ls_tx s ∧ ls_db s' = ls_db s ∧ ls_balance s' = ls_balance s ∧ ls_checkpoint s' = ls_checkpoint s ∧
  (cur = false → ls_next_sequence s' = ls_next_sequence s ∧ ls_last_chain_hash s' = ls_last_chain_hash s).

Lemma untouched_refl cur s : untouched cur s s.
Proof. by split_and!. Qed.
Lemma untouched_trans cur s1 s2 s3 : untouched cur s1 s2 → untouched cur s2 s3 → untouched cur s1 s3.
Proof. unfold untouched. intuition congruence. Qed.

(** Replaying [ps] takes books [b] to [b'] without touching the index. *)
Definition replays (mx : Z) (cur : bool) (ps : list DataPayload) (b b' : Books) : Prop :=
  ∀ W s, books_of s = b → ∃ s', forM (replay_payload false mx) ps (W, (s, mkVars cur false)) =
      (Ok tt, (W, (s', mkVars cur false))) ∧ books_of s' = b' ∧ untouched cur s s'.

Lemma replays_nil mx cur b : replays mx cur [] b b.
Proof. intros W s Hs. exists s. split_and!; [done|done|apply untouched_refl]. Qed.

Lemma replays_app mx cur ps qs b1 b2 b3 :
  replays mx cur ps b1 b2 → replays mx cur qs b2 b3 → replays mx cur (ps ++ qs) b1 b3.
Proof.
  intros Hp Hq W s Hs. destruct (Hp W s Hs) as (s1 & Hr1 & Hb1 & Hu1). destruct (Hq W s1 Hb1) as (s2 & Hr2 & Hb2 & Hu2).
  exists s2. split_and!; [|done|by eapply untouched_trans]. by rewrite forM_app, (mbind_eq _ _ _ _ _ Hr1).
Qed.

(** One row that maps the store by [f]. *)
Lemma replays_row mx cur p b b' (f : LedgerStore → LedgerStore) :
  (∀ W s, replay_payload false mx p (W, (s, mkVars cur false)) = (Ok tt, (W, (f s, mkVars cur false)))) →
  (∀ s, books_of s = b → books_of (f s) = b') → (∀ s, untouched cur s (f s)) → replays mx cur [p] b b'.
Proof.
  intros Hp Hb Hu W s Hs. exists (f s). split_and!; [|by apply Hb|apply Hu]. cbn [forM]. by rewrite (mbind_eq _ _ _ _ _ (Hp W s)).
Qed.

Definition add_account (a : Account) (b : Books) : Books :=
  mkBooks (<[acc_id a := a]> (bk_accounts b))
    (if legal_hold a then {[acc_id a]} ∪ bk_holds b else bk_holds b ∖ {[acc_id a]}) (bk_reversals b) (bk_settlements b).

Lemma replays_account mx cur pid k a bs prev b :
  enc a = Some bs → k ≠ Update → replays mx cur [data_payload (row TABLE_ACCOUNTS pid k bs prev)] b (add_account a b).
Proof.
  intros Ha Hk. apply (replays_row _ _ _ _ _ (apply_account a)).
  - intros W s. unfold replay_payload. cbn. unfold decode_row.
    pose proof (dec_enc' a bs Ha) as Hd. by destruct k; rewrite ?Hd.
  - intros s <-. done.
  - by intros s.
Qed.

Lemma replays_entry mx pid e bs prev b :
  enc e = Some bs → e_sequence e ≤ mx → replays mx true [data_payload (row TABLE_ENTRIES pid Insert bs prev)] b b.
Proof.
  intros He Hmx. apply (replays_row _ _ _ _ _ (λ s, bump_entry_page (note_entry e s))).
  - intros W s. change (replay_payload false mx _) with (replay_entry false mx bs).
    unfold replay_entry, decode_row. pose proof (dec_enc' e bs He) as Hd. rewrite Hd.
    rewrite (mbind_eq _ _ _ e (W, (s, mkVars true false))) by done.
    rewrite (mbind_eq _ _ _ true (W, (s, mkVars true false))) by done.
    by rewrite (proj2 (Z.ltb_ge _ _) Hmx).
  - intros s <-. done.
  - intros s. by split_and!.
Qed.

Lemma replays_reversal mx cur pid ev bs b :
  enc ev = Some bs →
  replays mx cur [data_payload (row TABLE_REVERSAL_EVENTS pid Insert bs None)] b
    (mkBooks (bk_accounts b) (bk_holds b) (<[re_original_entry_id ev := re_reversal_entry_id ev]> (bk_reversals b)) (bk_settlements b)).
Proof.
  intros He. pose proof (dec_enc' ev bs He) as Hd.
  apply (replays_row _ _ _ _ _ (λ s, s_reversals (<[re_original_entry_id ev := re_reversal_entry_id ev]> (ls_reversals s)) s)).
  - intros W s. unfold replay_payload. cbn. unfold decode_row. by rewrite Hd.
  - by intros s <-.
  - by intros s.
Qed.

Lemma replays_settlement mx cur pid ev bs b :
  enc ev = Some bs →
  replays mx cur [data_payload (row TABLE_SETTLEMENT_EVENTS pid Insert bs None)] b
    (mkBooks (bk_accounts b) (bk_holds b) (bk_reversals b) (<[sv_entry_id ev := sv_new_status ev]> (bk_settlements b))).
Proof.
  intros He. pose proof (dec_enc' ev bs He) as Hd.
  apply (replays_row _ _ _ _ _ (λ s, s_settlements (<[sv_entry_id ev := sv_new_status ev]> (ls_settlements s)) s)).
  - intros W s. unfold replay_payload. cbn. unfold decode_row. by rewrite Hd.
  - by intros s <-.
  - by intros s.
Qed.

Lemma replays_recon mx cur pid rn bs b :
  enc rn = Some bs → replays mx cur [data_payload (row TABLE_RECONCILIATION_EVENTS pid Insert bs None)] b b.
Proof.
  intros He. pose proof (dec_enc' rn bs He) as Hd.
  apply (replays_row _ _ _ _ _ (λ s, s_recon (ls_recon s ++ [rn]) s)).
  - intros W s. unfold replay_payload. cbn. unfold decode_row. by rewrite Hd.
  - by intros s <-.
  - by intros s.
Qed.

(** ** What a history keeps true *)

Definition log_rows (rs : list WalRecord) : list DataPayload := concat (map ct_data_payloads (committed_spec rs)).

(** Replay in front of an index that holds all of [es]. *)
Definition rebuilds (es : list JournalEntry) (ps : list DataPayload) (b b' : Books) : Prop :=
  ∀ mx cur, Forall (λ e, e_sequence e ≤ mx ∧ cur = true) es → replays mx cur ps b b'.

Definition next_after (es : list JournalEntry) : Z := default 0 (last (map e_sequence es)) + 1.

(** The set of holds agrees with the flags of the accounts. *)
Definition holds_ok (b : Books) : Prop :=
  ∀ id a, bk_accounts b !! id = Some a → (id ∈ bk_holds b ↔ legal_hold a = true).

Lemma add_account_holds a b : holds_ok b → holds_ok (add_account a b).
Proof.
  intros Hb id x. cbn. rewrite lookup_insert_Some. intros [[<- <-]|[Hne Hx]].
  - destruct (legal_hold a); set_solver.
  - rewrite <- (Hb id x Hx). destruct (legal_hold a); set_solver.
Qed.

Record replayable (s : LedgerStore) (rs : list WalRecord) (es : list JournalEntry) : Prop := {
  rp_logged : store_logged s rs;
  rp_inv : ledger_inv s es;
  rp_rows : rebuilds es (log_rows rs) books0 (books_of s);
  rp_next : ls_next_sequence s = next_after es;
  rp_holds : holds_ok (books_of s);
  rp_checkpoint : ls_checkpoint s = None
}.

(** What an operation adds to the log, and the books it leaves. *)
Record adds_rows (s s' : LedgerStore) (rs rs' : list WalRecord) (es' : list JournalEntry) (pss : list (list DataPayload)) : Prop := {
  ar_logged : logged (ls_tx s) (ls_tx s') rs rs' pss;
  ar_account_page : u64_ok (ls_next_account_page s');
  ar_entry_page : u64_ok (ls_next_entry_page s');
  ar_rows : rebuilds es' (concat pss) (books_of s) (books_of s');
  ar_holds : holds_ok (books_of s) → holds_ok (books_of s');
  ar_checkpoint : ls_checkpoint s' = ls_checkpoint s
}.

Lemma verified_tip_ok prev es : hash_ok prev → verify_entries prev es = None → hash_ok (tip prev es).
Proof.
  intros Hp. destruct es as [|e es _] using rev_ind; [done|]. rewrite tip_snoc. intros Hv.
  assert (Hh : verify_hashes e = true).
  { clear Hp. revert prev Hv. induction es as [|e0 es IH]; intros prev Hv; cbn in Hv.
    - by destruct (verify_hashes e).
    - destruct (verify_hashes e0); cbn in Hv; [|done]. case_bool_decide; cbn in Hv; [|done]. by eapply IH. }
  unfold verify_hashes in Hh. case_bool_decide; cbn in Hh; [|done]. apply bool_decide_eq_true in Hh. rewrite <- Hh. apply blake3_length.
Qed.

Lemma replayable_step s s' rs rs' es new pss :
  replayable s rs es → adds_rows s s' rs rs' (es ++ new) pss → ledger_inv s' (es ++ new) →
  ls_next_sequence s' = next_after (es ++ new) → replayable s' rs' (es ++ new).
Proof.
  intros [Hl Hi Hr Hn Hh Hc] [Al Aa Ae Ar Ah Ac] Hi' Hn'. constructor; try done; [| |by apply Ah|congruence].
  - constructor; [apply Al|done..|]. rewrite (inv_tip _ _ Hi'). apply verified_tip_ok; [done|apply Hi'].
  - intros mx cur Hall. destruct Al as (_ & _ & cts & Hcs & <-). unfold log_rows. rewrite Hcs, map_app, concat_app.
    eapply replays_app; [apply Hr; by apply Forall_app in Hall as [? _]|by apply Ar].
Qed.

(** ** One operation at a time *)

Lemma store_logged_ext s s' rs :
  store_logged s rs → ls_tx s' = ls_tx s → ls_next_account_page s' = ls_next_account_page s →
  ls_next_entry_page s' = ls_next_entry_page s → ls_last_chain_hash s' = ls_last_chain_hash s → store_logged s' rs.
Proof. intros [? ? ? ?] Ht Ha He Hh. constructor; by rewrite ?Ht, ?Ha, ?He, ?Hh. Qed.

Lemma log_room_le m n k : log_room m n → (k ≤ n)%nat → log_room m k.
Proof. intros [? [? ?]] Hk. split; [done|]. split; [done|]. lia. Qed.

Lemma logged_refl m rs : log_ok m rs → logged m m rs rs [].
Proof. intros Hl. split; [done|]. split; [done|]. exists []. by rewrite app_nil_r. Qed.

(** A state with the same log and books. *)
Lemma adds_nothing s s' rs es :
  store_logged s rs → ls_tx s' = ls_tx s → ls_next_account_page s' = ls_next_account_page s →
  ls_next_entry_page s' = ls_next_entry_page s → books_of s' = books_of s → ls_checkpoint s' = ls_checkpoint s →
  adds_rows s s' rs rs es [].
Proof.
  intros [Hl Ha He _] Ht Hap Hep Hb Hc. constructor; rewrite ?Ht, ?Hap, ?Hep; try done; rewrite ?Hb; [by apply logged_refl| |done].
  intros mx cur _. apply replays_nil.
Qed.

(** A row persisted from [s0], which has the log of [s]; afterwards only books
    change. *)
Lemma persisted_row s s0 s1 s' rs t bs k prev es W W' x :
  store_logged s rs → persist_row t bs k prev (W, s0) = (Ok x, (W', s1)) → log_room (ls_tx s) 4 →
  ls_tx s0 = ls_tx s → ls_next_account_page s0 = ls_next_account_page s →
  ls_next_entry_page s0 = ls_next_entry_page s → ls_last_chain_hash s0 = ls_last_chain_hash s →
  ls_checkpoint s0 = ls_checkpoint s → u32_ok t → (∀ h, prev = Some h → hash_ok h) →
  ls_tx s' = ls_tx s1 → ls_next_account_page s' = ls_next_account_page s1 → ls_next_entry_page s' = ls_next_entry_page s1 →
  ls_checkpoint s' = ls_checkpoint s1 →
  (∀ pid, rebuilds es [data_payload (row t pid k bs prev)] (books_of s) (books_of s')) →
  (holds_ok (books_of s) → holds_ok (books_of s')) →
  ∃ rs' pss, adds_rows s s' rs rs' es pss.
Proof.
  intros Hl Hp Hroom Ht0 Ha0 He0 Hh0 Hc0 Ht Hprev Ht1 Ha1 He1 Hc1 Hrows Hholds.
  eapply persist_row_logged in Hp as (rs' & pid & (Hlog & [Hb _] & Hpa & Hpe)); [| |by rewrite Ht0; eapply log_room_le; [exact Hroom|lia]|done|done].
  2: by eapply store_logged_ext.
  exists rs', [[data_payload (row t pid k bs prev)]]. constructor; rewrite ?Ht1, ?Ha1, ?He1; try done.
  - by rewrite <- Ht0.
  - apply Hrows.
  - rewrite Hc1, <- Hc0. apply Hb.
Qed.

Lemma create_account_adds a W s rs es x W' s' :
  store_logged s rs → log_room (ls_tx s) 4 → create_account a (W, s) = (Ok x, (W', s')) →
  ∃ rs' pss, adds_rows s s' rs rs' es pss.
Proof.
  intros Hl Hroom Hc. unfold create_account in Hc.
  apply mbind_Ok_inv in Hc as (bs & [W1 s1] & He & Hc). unfold liftR, encode_row in He. injection He as He <- <-.
  destruct (enc a) as [bs'|] eqn:Hea; [|done]. apply Ok_inj in He as ->.
  apply mbind_Ok_inv in Hc as (ps & [W2 s2] & Hp & Hc). pose proof (persist_row_frame _ _ _ _ _ _ _ _ _ Hp) as [(_ & Fa & _ & _ & Fr & Fs & _ & Fh & _ & Fc) _].
  apply mbind_Ok_inv in Hc as (u & [W3 s3] & Hu & Hc). unfold mbind, M_bind, modify, mret, M_ret in Hc. injection Hc as _ _ <-.
  assert (Hdb : ∃ db, s3 = s_db db s2).
  { unfold db_try, attempt, db_op, zoom in Hu. destruct (upsert_account a _) as [r [W4 db]]. injection Hu as _ _ <-. by exists db. }
  destruct Hdb as [db ->].
  assert (Hbk : books_of (apply_account a (s_db db s2)) = add_account a (books_of s))
    by (unfold books_of, add_account, apply_account; cbn; by rewrite Fa, Fr, Fs, Fh).
  eapply persisted_row; [exact Hl|exact Hp|done..| |]; rewrite Hbk; [|apply add_account_holds].
  intros pid mx cur _. by apply replays_account.
Qed.

Lemma update_account_persist id f W s u W' s' :
  update_account id f (W, s) = (Ok u, (W', s')) →
  ∃ a bs x, ls_accounts s !! id = Some a ∧ enc (f a) = Some bs ∧
    persist_row TABLE_ACCOUNTS bs Delete None (W, s_accounts (<[id := f a]> (ls_accounts s)) s) = (Ok x, (W', s')).
Proof.
  unfold update_account. rewrite (mbind_eq _ _ _ (ls_accounts s) (W, s)) by done.
  destruct (ls_accounts s !! id) as [a|] eqn:Ha; cbn [ok_or]; [|by rewrite (mbind_err _ _ _ (AccountNotFound id) (W, s))].
  rewrite (mbind_eq _ _ _ a (W, s)) by done. set (s1 := s_accounts (<[id := f a]> (ls_accounts s)) s).
  rewrite (mbind_eq _ _ _ tt (W, s1)) by done. intros Hu.
  apply mbind_Ok_inv in Hu as (bs & [W1 s2] & He & Hu). unfold liftR, encode_row in He. injection He as He <- <-.
  destruct (enc (f a)) as [bs'|] eqn:Hea; [|done]. apply Ok_inj in He as ->.
  apply mbind_Ok_inv in Hu as (x & [W2 s2] & Hp & Hu). injection Hu as _ <- <-. by exists a, bs, x.
Qed.

(** An account replaced by one with the same identifier, and the holds set as
    its flag says. *)
Lemma update_account_adds id f W s rs es u W1 s1 s' :
  store_logged s rs → ledger_inv s es → log_room (ls_tx s) 4 →
  update_account id f (W, s) = (Ok u, (W1, s1)) → (∀ a, acc_id (f a) = acc_id a) →
  ls_tx s' = ls_tx s1 → ls_next_account_page s' = ls_next_account_page s1 →
  ls_next_entry_page s' = ls_next_entry_page s1 → ls_checkpoint s' = ls_checkpoint s1 →
  (∀ a, ls_accounts s !! id = Some a → same_ledger (s_accounts (<[id := f a]> (ls_accounts s)) s) s1 →
    books_of s' = mkBooks (<[id := f a]> (ls_accounts s))
      (if legal_hold (f a) then {[id]} ∪ ls_holds s else ls_holds s ∖ {[id]}) (ls_reversals s) (ls_settlements s)) →
  ∃ rs' pss, adds_rows s s' rs rs' es pss.
Proof.
  intros Hl Hi Hroom (a & bs & x & Ha & Hb & Hp)%update_account_persist Hid Ht1 Ha1 He1 Hc1 Hbk.
  pose proof (persist_row_frame _ _ _ _ _ _ _ _ _ Hp) as Hframe.
  assert (Hx : acc_id (f a) = id) by (rewrite Hid; by apply (inv_accounts _ _ Hi)).
  assert (Hadd : books_of s' = add_account (f a) (books_of s)) by (rewrite (Hbk a Ha Hframe); unfold add_account; by rewrite Hx).
  eapply persisted_row; [exact Hl|exact Hp|done..| |]; rewrite Hadd; [|apply add_account_holds].
  intros pid mx cur _. by apply replays_account.
Qed.

Lemma set_legal_hold_adds id hold W s rs es u W' s' :
  store_logged s rs → ledger_inv s es → log_room (ls_tx s) 4 → set_legal_hold id hold (W, s) = (Ok u, (W', s')) →
  ∃ rs' pss, adds_rows s s' rs rs' es pss.
Proof.
  intros Hl Hi Hroom. rewrite set_legal_hold_update. intros Hc.
  apply mbind_Ok_inv in Hc as (v & [W1 s1] & Hu & Hc). unfold modify in Hc. injection Hc as _ _ <-.
  eapply update_account_adds; [exact Hl|exact Hi|exact Hroom|exact Hu|done|done|done|done|done|].
  intros a Ha [(_ & Fa & _ & _ & Fr & Fs & _ & Fh & _) _]. unfold books_of; cbn in *. by rewrite Fa, Fr, Fs, Fh.
Qed.

Lemma close_account_adds id W s rs es u W' s' :
  store_logged s rs → ledger_inv s es → holds_ok (books_of s) → log_room (ls_tx s) 4 → close_account id (W, s) = (Ok u, (W', s')) →
  ∃ rs' pss, adds_rows s s' rs rs' es pss.
Proof.
  intros Hl Hi Hh Hroom. rewrite close_account_update. intros Hc.
  apply mbind_Ok_inv in Hc as (v & [W1 s1] & Hu & Hc). rewrite (mbind_eq _ _ _ (ls_accounts s1) (W1, s1)) in Hc by done.
  assert (Hdb : ∃ db, s' = s_db db s1).
  { destruct (ls_accounts s1 !! id) as [a|]; [|injection Hc as _ _ <-; exists (ls_db s1); by rewrite s_db_id].
    apply mbind_Ok_inv in Hc as (w & [W2 s2] & Hv & Hc). injection Hc as _ _ <-.
    unfold db_try, attempt, db_op, zoom in Hv. destruct (upsert_account a _) as [r [W4 db]]. injection Hv as _ _ <-. by exists db. }
  destruct Hdb as [db ->].
  eapply update_account_adds; [exact Hl|exact Hi|exact Hroom|exact Hu|done|done|done|done|done|].
  intros a Ha [(_ & Fa & _ & _ & Fr & Fs & _ & Fh & _) _]. unfold books_of; cbn in *. rewrite Fa, Fr, Fs, Fh. f_equal.
  specialize (Hh id a Ha). apply set_eq. destruct (legal_hold a); set_solver.
Qed.

Lemma commit_entry_adds e W s rs es seq W' s' :
  store_logged s rs → log_room (ls_tx s) 4 → commit_entry e (W, s) = (Ok seq, (W', s')) →
  ∃ rs' pss, adds_rows s s' rs rs' (es ++ [final_entry W s e]) pss.
Proof.
  intros Hl Hroom. rewrite commit_entry_eq. cbv zeta. set (e' := final_entry W s e).
  destruct (enc e') as [bs|] eqn:Hb; [|done]. destruct (persist_row _ _ _ _ _) as [[x|?] [W2 s2]] eqn:Hp; [|done].
  destruct (index_entry_Ok e' (W2, booked e' bs s2)) as [[W3 s3] Hx]. rewrite (mbind_eq _ _ _ _ _ Hx).
  intros Hr. unfold mret, M_ret in Hr. simplify_eq. apply index_entry_frame in Hx as [db' ->].
  pose proof (persist_row_frame _ _ _ _ _ _ _ _ _ Hp) as [(_ & Fa & _ & _ & Fr & Fs & _ & Fh & _) _].
  assert (Hbk : ∃ c, booked e' bs s2 = s_balance c (s_last_chain_hash (e_chain_hash e') (s_last_bytes (Some bs) s2)))
    by (unfold booked; rewrite apply_balances_cache; by eexists). destruct Hbk as [c ->].
  eapply persisted_row; [exact Hl|exact Hp|done|done|done|done|done|done|done| |done|done|done|done| |];
    unfold books_of; cbn in *; rewrite ?Fa, ?Fr, ?Fs, ?Fh; [by intros h [= <-]; apply Hl| |done].
  intros pid mx cur Hall. rewrite Forall_app, Forall_singleton in Hall. destruct Hall as [_ [Hmx ->]].
  by apply (replays_entry _ _ e').
Qed.

Lemma commit_reversal_adds entry_id rv W s rs es rid W' s' :
  store_logged s rs → log_room (ls_tx s) 4 → commit_reversal entry_id rv (W, s) = (Ok rid, (W', s')) →
  ∃ rs' pss, adds_rows s s' rs rs' (es ++ [final_reversal W s rv]) pss.
Proof.
  intros Hl Hroom. rewrite commit_reversal_eq. cbv zeta. set (r' := final_reversal W s rv).
  destruct (enc r') as [bs|] eqn:Hb; [|done]. destruct (enc (reversal_event entry_id r')) as [ev|] eqn:Hev; [|done].
  destruct (persist_row_pair _ _ _ _ _ _) as [[x|?] [W2 s2]] eqn:Hp; [|done].
  destruct (index_entry_Ok r' (W2, reversal_booked entry_id r' s2)) as [[W3 s3] Hx]. rewrite (mbind_eq _ _ _ _ _ Hx).
  intros Hr. unfold mret, M_ret in Hr. simplify_eq. apply index_entry_frame in Hx as [db' ->].
  pose proof (persist_row_pair_frame _ _ _ _ _ _ _ _ _ _ Hp) as [(_ & Fa & _ & _ & Fr & Fs & _ & Fh & _ & Fc) _].
  destruct (reversal_booked_fields entry_id r' s2) as [c ->].
  eapply persist_row_pair_logged in Hp as (rs' & p1 & p2 & (Hlog & _ & Hpa & Hpe)); [|by eapply store_logged_ext|done|done|done|].
  2: { intros h [= <-]. apply Hl. }
  eexists rs', _. constructor; [exact Hlog|exact Hpa|exact Hpe| | |exact Fc].
  2: { unfold books_of; cbn in *. by rewrite Fa, Fr, Fs, Fh. }
  intros mx cur Hall. rewrite Forall_app, Forall_singleton in Hall. destruct Hall as [_ [Hmx ->]]. cbn [concat app].
  eapply (replays_app _ _ [_] [_]); [by apply (replays_entry _ _ r')|].
  assert (Hv := replays_reversal mx true p2 _ ev (books_of s) Hev). unfold books_of; cbn in *. by rewrite Fa, Fr, Fs, Fh.
Qed.

Lemma apply_settlement_adds entry_id st notes W s rs es es' u W' s' :
  store_logged s rs → db_repr (db_tables (ls_db s)) es → log_room (ls_tx s) 4 →
  apply_settlement_event entry_id st notes (W, s) = (Ok u, (W', s')) → ∃ rs' pss, adds_rows s s' rs rs' es' pss.
Proof.
  intros Hl Hdb Hroom Ha. unfold apply_settlement_event in Ha.
  apply mbind_Ok_inv in Ha as (x & [W1 s1] & Hd & Ha). apply stream_all_run with (es := es) in Hd as [-> _]; [|done].
  apply mbind_Ok_inv in Ha as (ls & [W2 s2] & Hls & Ha). injection Hls as _ <- <-.
  rewrite (mbind_eq _ _ _ s (W1, s)) in Ha by done.
  apply mbind_Ok_inv in Ha as (v & [W2 s2] & Hc & Ha). injection Hc as _ <- <-.
  rewrite (mbind_eq _ _ _ (clock W1) (tick W1, s)) in Ha by done.
  apply mbind_Ok_inv in Ha as (bs & [W3 s3] & He & Ha). unfold liftR, encode_row in He. injection He as He <- <-.
  destruct (enc (mkSettlementEvent _ _ _ _)) as [bs'|] eqn:Hev; [|done]. apply Ok_inj in He as ->.
  apply mbind_Ok_inv in Ha as (ps & [W4 s4] & Hp & Ha). unfold modify in Ha. injection Ha as _ _ <-.
  pose proof (persist_row_frame _ _ _ _ _ _ _ _ _ Hp) as [(_ & Fa & _ & _ & Fr & Fs & _ & Fh & _) _].
  eapply persisted_row; [exact Hl|exact Hp|done..| |]; unfold books_of; cbn in *; rewrite ?Fa, ?Fr, ?Fs, ?Fh; [|done].
  intros pid mx cur _. exact (replays_settlement mx cur pid _ bs (books_of s) Hev).
Qed.

Lemma reconcile_adds W s rs es x W' s' :
  store_logged s rs → log_room (ls_tx s) 4 → reconcile_and_record (W, s) = (Ok x, (W', s')) →
  ∃ rs' pss, adds_rows s s' rs rs' es pss.
Proof.
  intros Hl Hroom Hr. unfold reconcile_and_record in Hr.
  apply mbind_Ok_inv in Hr as (ds & [W1 s1] & Hd & Hr). apply reconcile_reads in Hd as ->.
  apply mbind_Ok_inv in Hr as (c & [W2 s2] & Hd & Hr). apply db_try_reads in Hd as ->; [|apply query_reads].
  unfold mbind at 1, M_bind at 1, gets at 1 in Hr. unfold mbind at 1, M_bind at 1, rand at 1 in Hr.
  unfold mbind at 1, M_bind at 1, now at 1 in Hr. cbv zeta in Hr.
  apply mbind_Ok_inv in Hr as (bs & [W3 s3] & He & Hr). unfold liftR, encode_row in He. injection He as He <- <-.
  destruct (enc (mkReconciliation _ _ _ _ _ _ _ _)) as [bs'|] eqn:Hev; [|done]. apply Ok_inj in He as ->.
  apply mbind_Ok_inv in Hr as (ps & [W4 s4] & Hp & Hr). injection Hr as _ _ <-.
  pose proof (persist_row_frame _ _ _ _ _ _ _ _ _ Hp) as [(_ & Fa & _ & _ & Fr & Fs & _ & Fh & _) _].
  eapply persisted_row; [exact Hl|exact Hp|done..| |]; unfold books_of; cbn in *; rewrite ?Fa, ?Fr, ?Fs, ?Fh; [|done].
  intros pid mx cur _. by eapply replays_recon.
Qed.

Lemma table_merkle_root_ok t W p root W' p' : table_merkle_root t (W, p) = (Ok root, (W', p')) → hash_ok root.
Proof.
  unfold table_merkle_root. intros Hr. apply mbind_Ok_inv in Hr as (rf & [W1 p1] & _ & Hr).
  apply mbind_Ok_inv in Hr as (u & [W2 p2] & _ & Hr). apply mbind_Ok_inv in Hr as (c & [W3 p3] & _ & Hr).
  destruct (_ =? 0); [by injection Hr as <- _ _|].
  apply mbind_Ok_inv in Hr as (rows & [W4 p4] & _ & Hr). injection Hr as <- _ _. apply merkle_root_ok.
Qed.

Lemma checkpoint_store_adds W s rs es n W' s' :
  store_logged s rs → log_room (ls_tx s) 4 → checkpoint_store (W, s) = (Ok n, (W', s')) →
  ∃ rs' pss, adds_rows s s' rs rs' es pss.
Proof.
  intros Hl Hroom Hc. unfold checkpoint_store in Hc. apply mbind_Ok_inv in Hc as (root & [W1 s1] & Hroot & Hc).
  unfold map_err in Hroot. destruct (page_op _ (W, s)) as [[r|] [W2 s2]] eqn:Hp; [|done]. injection Hroot as <- <- <-.
  assert (Hok : hash_ok r).
  { unfold page_op, map_err, zoom in Hp. destruct (table_merkle_root _ _) as [[h|] [W3 p3]] eqn:Ht; [|done].
    injection Hp as <- _ _. by eapply table_merkle_root_ok. }
  apply page_op_Ok in Hp as [p' ->]. apply tx_op_Ok in Hc as (m' & Hc & ->). cbn in Hc.
  eapply checkpoint_signed_logged in Hc as (rs' & Hlog); [|apply Hl|eapply log_room_le; [exact Hroom|lia]|done].
  exists rs', []. constructor; [exact Hlog|apply Hl|apply Hl| |done|done]. intros mx cur _. apply replays_nil.
Qed.

(** ** Histories *)

Definition op_run (o : StoreOp) : LM unit :=
  match o with
  | OpCreate a => _ ← create_account a; mret tt
  | OpClose id => close_account id
  | OpPost e => _ ← post_entry e; mret tt
  | OpReverse id description domain => _ ← reverse_entry id description domain; mret tt
  | OpSettle id st notes => apply_settlement_event id st notes
  | OpHold id hold => set_legal_hold id hold
  | OpReconcile => _ ← reconcile_and_record; mret tt
  | OpCheckpoint => _ ← checkpoint_store; mret tt
  | OpCurrency c => register_currency c
  end.

Definition op_guard (s : LedgerStore) (o : StoreOp) : Prop :=
  match o with
  | OpCreate a => ls_accounts s !! acc_id a = None
  | OpPost e => ls_next_sequence s < 2 ^ 63 ∧ e_content_hash e = ZERO_HASH
  | OpReverse _ _ _ => ls_next_sequence s < 2 ^ 63
  | _ => True
  end.

(** An operation that returned [Ok] without I/O failures, while transaction
    ids and segment numbers have not run out. *)
Definition ok_step (s s' : LedgerStore) : Prop := ∃ o W W',
  w_io W = [] ∧ log_room (ls_tx s) 4 ∧ op_guard s o ∧ op_run o (W, s) = (Ok tt, (W', s')).

Lemma op_run_discard {A} (m : LM A) W s W' s' :
  (_ ← m; mret tt) (W, s) = (Ok tt, (W', s')) → ∃ a, m (W, s) = (Ok a, (W', s')).
Proof. intros Hm. apply mbind_Ok_inv in Hm as (a & [W1 s1] & Ha & [= <- <-]). by exists a. Qed.

Lemma next_after_snoc es e : next_after (es ++ [e]) = e_sequence e + 1.
Proof. unfold next_after. rewrite map_app. cbn [map]. by rewrite last_snoc. Qed.

(** An operation that leaves the journal as it is. *)
Lemma journal_replayable s s' rs es :
  replayable s rs es → ledger_inv s' es → same_journal s s' → (∃ rs' pss, adds_rows s s' rs rs' es pss) →
  ∃ rs' es', replayable s' rs' es'.
Proof.
  intros Hr Hi (_ & _ & _ & _ & _ & _ & Hn & _) (rs' & pss & Ha). exists rs', es.
  rewrite <- (app_nil_r es) in Ha, Hi |- *. eapply replayable_step; [exact Hr|exact Ha|exact Hi|].
  rewrite app_nil_r. rewrite Hn. apply Hr.
Qed.

(** An operation that appends an entry. *)
Lemma append_replayable s s' rs es e :
  replayable s rs es → ledger_inv s' (es ++ [e]) → e_sequence e = ls_next_sequence s →
  ls_next_sequence s' = ls_next_sequence s + 1 → (∃ rs' pss, adds_rows s s' rs rs' (es ++ [e]) pss) →
  ∃ rs' es', replayable s' rs' es'.
Proof.
  intros Hr Hi He Hn (rs' & pss & Ha). exists rs', (es ++ [e]). eapply replayable_step; [exact Hr|exact Ha|exact Hi|].
  rewrite next_after_snoc. lia.
Qed.

Lemma post_replayable e W s rs es seq W' s' :
  replayable s rs es → w_io W = [] → log_room (ls_tx s) 4 → ls_next_sequence s < 2 ^ 63 → e_content_hash e = ZERO_HASH →
  post_entry e (W, s) = (Ok seq, (W', s')) → ∃ rs' es', replayable s' rs' es'.
Proof.
  intros Hr Hio Hroom Hlt Hz [(? & [=] & _)|[(k & _ & -> & _)|(Hv & Hc & W1 & Hpb & Hce)]]%post_entry_cases; [by exists rs, es|].
  pose proof (rp_inv _ _ _ Hr) as Hi. rewrite (posted_before_quiet W s es e Hio (inv_db _ _ Hi)) in Hpb.
  injection Hpb as Hnone <-. apply posted_as_None in Hnone.
  apply validate_Ok in Hv as [_ Hbal]. apply post_checks_Ok in Hc as Hadm%admitted_accounts.
  pose proof (commit_entry_Ok _ _ _ _ _ _ Hce) as (_ & _ & Hap).
  assert (Hadd := commit_entry_adds e W s rs es seq W' s' (rp_logged _ _ _ Hr) Hroom Hce).
  eapply commit_entry_inv in Hce as [(? & _)|[_ Hi']]; [done| |exact Hio|exact Hi|exact Hlt|exact Hz|exact Hnone|by split].
  eapply append_replayable; [exact Hr|exact Hi'|done| |exact Hadd].
  destruct Hap as (_ & _ & _ & -> & _). apply (next_seq_value s es Hlt Hi).
Qed.

Lemma reverse_replayable id desc dom W s rs es rid W' s' :
  replayable s rs es → w_io W = [] → log_room (ls_tx s) 4 → ls_next_sequence s < 2 ^ 63 →
  reverse_entry id desc dom (W, s) = (Ok rid, (W', s')) → ∃ rs' es', replayable s' rs' es'.
Proof.
  intros Hr Hio Hroom Hlt Hv. pose proof (rp_inv _ _ _ Hr) as Hi.
  apply reverse_entry_cases with (es := es) in Hv as [[? _]|(o & rv & W1 & W2 & Ho & _ & Hs & Hq & _ & Hcr)]; [done| |apply Hi].
  apply last_with_elem in Ho as [Hin _]. pose proof (commit_reversal_Ok _ _ _ _ _ _ _ _ Hs Hcr) as (_ & _ & Hap).
  assert (Hadd := commit_reversal_adds id rv W2 s rs es rid W' s' (rp_logged _ _ _ Hr) Hroom Hcr).
  destruct Hap as (Hseq & _ & _ & Hn & _). rewrite (next_seq_value s es Hlt Hi : wadd_u64 _ 1 = _) in Hn.
  eapply commit_reversal_inv in Hcr as [[? _]|Hi']; [done|by eapply append_replayable|auto|exact Hi|exact Hlt|exact Hin|exact Hs].
Qed.

Lemma ok_step_replayable s s' rs es : replayable s rs es → ok_step s s' → ∃ rs' es', replayable s' rs' es'.
Proof.
  intros Hr (o & W & W' & Hio & Hroom & Hg & Ho). pose proof (rp_inv _ _ _ Hr) as Hi. pose proof (rp_logged _ _ _ Hr) as Hl.
  destruct o as [a|id|e|id de dm|id st no|id h| | |c]; cbn [op_run op_guard] in *.
  - apply op_run_discard in Ho as [x Ho]. eapply journal_replayable; [exact Hr|by eapply create_account_inv| |by eapply create_account_adds].
    eapply journal_run; [apply create_account_journal|done].
  - eapply journal_replayable; [exact Hr|by eapply close_account_inv|by eapply close_account_journal|].
    eapply close_account_adds; [exact Hl|exact Hi|apply Hr|exact Hroom|exact Ho].
  - destruct Hg as [Hlt Hz]. apply op_run_discard in Ho as [x Ho]. by eapply post_replayable.
  - apply op_run_discard in Ho as [x Ho]. by eapply reverse_replayable.
  - eapply journal_replayable; [exact Hr|by eapply apply_settlement_inv|by eapply apply_settlement_journal|].
    by eapply apply_settlement_adds; [|apply Hi|..].
  - eapply journal_replayable; [exact Hr|by eapply set_legal_hold_inv|by eapply set_legal_hold_journal|by eapply set_legal_hold_adds].
  - apply op_run_discard in Ho as [x Ho]. pose proof (reconcile_and_record_run _ _ _ _ _ Ho) as Hs.
    eapply journal_replayable; [exact Hr|by rewrite <- Hs|by apply same_ledger_journal|by eapply reconcile_adds].
  - apply op_run_discard in Ho as [x Ho]. pose proof (checkpoint_store_run _ _ _ _ _ Ho) as Hs.
    eapply journal_replayable; [exact Hr|by rewrite <- Hs|by apply same_ledger_journal|by eapply checkpoint_store_adds].
  - unfold register_currency, modify in Ho. injection Ho as _ <-.
    eapply journal_replayable; [exact Hr|eapply same_types_inv; [exact Hi|done|done|apply Hi]|done|].
    exists rs, []. by apply adds_nothing.
Qed.

(** ** Opening an empty directory *)

Lemma open_empty_replayable mode sk W s :
  w_io W = [] → open_store false mode (empty_dir sk) W = Ok s → replayable s [] [].
Proof.
  intros Hio Ho. pose proof (open_empty_inv _ _ _ _ Hio Ho) as Hi. destruct W as [c g io]. cbn in Hio. subst io.
  assert (Hs : ∃ s, open_store false mode (empty_dir sk) (mkWorld c g []) = Ok s ∧
    ls_tx s = mkManager (open_with_options ∅ DEFAULT_SEGMENT_SIZE mode None) 1 ∅ ∅ 0 sk ∧
    books_of s = books0 ∧ ls_next_sequence s = 1 ∧ ls_next_account_page s = 0 ∧ ls_next_entry_page s = 0 ∧
    ls_last_chain_hash s = ZERO_HASH ∧ ls_checkpoint s = None).
  { eexists. split; [vm_compute; reflexivity|]. by split_and!. }
  destruct Hs as (s1 & Hs & Htx & Hb & Hn & Ha & He & Hh & Hc). rewrite Hs in Ho. apply Ok_inj in Ho as <-.
  constructor; rewrite ?Hb; try done.
  - constructor; rewrite ?Htx, ?Ha, ?He, ?Hh; try done. constructor; cbn; try done. apply open_empty_wal.
  - intros mx cur _. apply replays_nil.
Qed.

Lemma history_replayable s0 s rs es :
  rtc ok_step s0 s → replayable s0 rs es → ∃ rs' es', replayable s rs' es'.
Proof.
  intros Hst. revert rs es. induction Hst as [s|s s1 s2 Hs _ IH]; intros rs es Hr; [by exists rs, es|].
  destruct (ok_step_replayable _ _ _ _ Hr Hs) as (rs' & es' & Hr'). by eapply IH.
Qed.
End replay.
