(* ===== verification/StoreReopen.v ===== *)
(** * The ledger store: what a restart restores

    Opening the directory a history left behind, in front of the SQLite index
    that history kept current. *)

From stdpp Require Import base gmap list strings option fin_maps sorting relations.
From Stdlib Require Import ZArith Lia.
From S2P Require Import Prelude Bytes Crypto Merkle Money Entry WalRecord Wal Recovery Tx TxLog Page EntryDb Store StoreFrame StoreLog StoreBooks StoreInv StoreReverse StoreSafety StoreReplay.

Section reopen.
Context `{Blake3} `{Ed25519} `{!WalExt} `{!PageExt} `{LedgerCodecs} `{LedgerExt} `{!SmallRecords}.

(** ** The scan of the log *)

Lemma committed_payloads rs : Forall (λ ct, ct_data_payloads ct = payloads_of (ct_data_records ct)) (committed_spec rs).
Proof.
  unfold committed_spec. generalize (@nil WalRecord) as before. induction rs as [|r rs IH]; intros before; [constructor|].
  cbn. case_match; [by constructor|done].
Qed.

(** Recovery runs the callback over the rows of verified transactions, one
    after the other. *)
Lemma handle_rows mx verify cts σ :
  Forall (λ ct, ct_data_payloads ct = payloads_of (ct_data_records ct)) cts →
  Forall (λ ct, verify_commit_full (ct_commit_record ct) (ct_data_records ct) = Ok tt) cts →
  forM (handle (λ _, WalErr) (replay_tx false mx) verify None) cts σ =
  forM (replay_payload false mx) (concat (map ct_data_payloads cts)) σ.
Proof.
  intros Hp Hv. revert σ. induction cts as [|ct cts IH]; intros σ; [done|].
  apply Forall_cons in Hp as [Hp Hps], Hv as [Hv Hvs]. cbn [forM map concat]. rewrite forM_app.
  assert (Hh : ∀ σ, handle (λ _, WalErr) (replay_tx false mx) verify None ct σ = forM (replay_payload false mx) (ct_data_payloads ct) σ).
  { intros σ0. unfold handle. rewrite (mbind_eq _ _ _ tt σ0); [|destruct σ0, verify; [|done]; unfold liftR; by rewrite Hv].
    unfold present, replay_tx. destruct verify; [done|]. cbn [ct_data_payloads]. by rewrite Hp. }
  unfold mbind, M_bind. rewrite Hh. destruct (forM _ (ct_data_payloads ct) σ) as [[u|e] σ1]; [by apply IH|done].
Qed.

(** ** The index *)

Definition last_sequence (es : list JournalEntry) : Z := default 0 (last (map e_sequence es)).

Lemma last_sequence_spec t es :
  db_repr t es → Forall (λ e, e_sequence e ≤ last_sequence es) es ∧ 0 ≤ last_sequence es < 2 ^ 63 ∧ (es ≠ [] → 0 < last_sequence es).
Proof.
  intros Hr. pose proof (db_repr_seqs t es Hr) as Hs. destruct Hr as (_ & _ & Hok). unfold last_sequence.
  destruct es as [|e es _] using rev_ind; [by split_and!|]. rewrite map_app in *. cbn [map] in *. rewrite last_snoc. change (default 0 (Some (e_sequence e))) with (e_sequence e).
  apply Forall_app in Hok as [Hok Hoke]. rewrite Forall_singleton in Hoke. unfold seq_ok in Hoke. split_and!; try lia.
  apply Forall_app. split; [|by apply Forall_singleton]. apply Forall_forall. intros x Hx.
  apply StronglySorted_app_1_elem_of with (x1 := e_sequence x) (x2 := e_sequence e) in Hs; [lia|by apply list_elem_of_fmap_2|set_solver].
Qed.

Section quiet.
Context (W : World) (Hio : w_io W = []).

Lemma max_sequence_quiet s es :
  db_repr (db_tables (ls_db s)) es → db_try EntryDb.max_sequence (W, s) = (Ok (Ok (last_sequence es)), (W, s)).
Proof.
  intros Hr. apply db_try_reads_quiet. unfold EntryDb.max_sequence. rewrite (query_quiet W Hio).
  destruct (last_sequence_spec _ _ Hr) as (_ & Hl & _). destruct Hr as (Hk & _). rewrite Hk.
  rewrite as_u64_small; [done|]. unfold u64_ok, last_sequence in *. lia.
Qed.

Lemma chain_tip_quiet s es :
  db_repr (db_tables (ls_db s)) es →
  db_try chain_tip (W, s) = (Ok (Ok (e_chain_hash <$> last es)), (W, s)).
Proof.
  intros Hr%rows_repr. apply db_try_reads_quiet. unfold chain_tip. rewrite (query_quiet W Hio). do 2 f_equal.
  destruct es as [|e es _] using rev_ind; [apply Forall2_nil_inv_l in Hr; by rewrite Hr|].
  apply Forall2_app_inv_l in Hr as (rs1 & rs2 & _ & Hr2 & ->). apply Forall2_cons_inv_l in Hr2 as (r & rs3 & (d & _ & ->) & Hr3 & ->).
  apply Forall2_nil_inv_l in Hr3 as ->. by rewrite !last_snoc.
Qed.

(** Rebuilding the balances, when every account is known. *)
Lemma rebuild_lines_cache accounts ls c :
  Forall (λ l, is_Some (accounts !! ln_account_id l)) ls → rebuild_lines accounts ls c = apply_cache accounts ls c.
Proof.
  revert c. induction ls as [|l ls IH]; intros c; [done|]. intros [[a Ha] Hls]%Forall_cons. cbn. rewrite Ha. by apply IH.
Qed.

Lemma rebuild_stream accounts es c :
  Forall (entry_ok accounts) es →
  ∃ c', stream_entries (rebuild_entry accounts) es c = (c', Ok tt) ∧
    ∀ id, default 0 (c' !! id) = default 0 (c !! id) + sum_effects accounts id es.
Proof.
  revert c. induction es as [|e es IH]; intros c; [intros _; exists c; split; [done|]; cbn; lia|].
  intros [[_ He] Hes]%Forall_cons. cbn [stream_entries]. unfold rebuild_entry at 1.
  destruct (IH (if affects_balance (e_status e) then rebuild_lines accounts (e_lines e) c else c) Hes) as (c' & Hc & Hd).
  exists c'. split; [done|]. intros id. rewrite Hd. cbn. unfold entry_effect. destruct (affects_balance (e_status e)); [|lia].
  rewrite rebuild_lines_cache, apply_cache_default by done. lia.
Qed.

Lemma load_from_sqlite_quiet s es :
  db_repr (db_tables (ls_db s)) es → Forall (entry_ok (ls_accounts s)) es → ls_balance s = ∅ → es ≠ [] →
  ∃ c, load_from_sqlite (W, s) =
      (Ok tt, (W, s_balance c (s_last_chain_hash (tip ZERO_HASH es) (s_next_sequence (last_sequence es + 1) s)))) ∧
    ∀ id, default 0 (c !! id) = sum_effects (ls_accounts s) id es.
Proof.
  intros Hr Hok Hb Hne. destruct (last_sequence_spec _ _ Hr) as (_ & Hl & _).
  destruct (rebuild_stream (ls_accounts s) es ∅ Hok) as (c & Hc & Hd).
  exists c. split; [|intros id; rewrite Hd, lookup_empty; cbn; lia].
  unfold load_from_sqlite. rewrite (mbind_eq _ _ _ _ _ (max_sequence_quiet s es Hr)). cbn [res_unwrap_or].
  rewrite wadd_u64_small by lia. set (s1 := s_next_sequence (last_sequence es + 1) s). rewrite (mbind_eq _ _ _ tt (W, s1)) by done.
  rewrite (mbind_eq _ _ _ _ _ (chain_tip_quiet s1 es Hr)).
  destruct es as [|e es _] using rev_ind; [done|]. rewrite last_snoc. cbn [fmap option_fmap option_map]. rewrite tip_snoc.
  set (s2 := s_last_chain_hash (e_chain_hash e) s1). rewrite (mbind_eq _ _ _ tt (W, s2)), (mbind_eq _ _ _ s2 (W, s2)) by done.
  rewrite (mbind_eq _ _ _ (c, Ok tt) (W, s2)); [done|]. apply db_op_quiet. unfold rebuild_balance_cache.
  rewrite (stream_all_quiet W Hio _ _ _ _ Hr). change (ls_accounts s2) with (ls_accounts s). change (ls_balance s2) with (ls_balance s).
  by rewrite Hb, Hc.
Qed.

(** The scan and what follows it, on a store that has read nothing yet. *)
Lemma replay_scan_quiet s rs es s0 verify :
  replayable s rs es → books_of s0 = books0 → db_repr (db_tables (ls_db s0)) es → ls_balance s0 = ∅ →
  ls_next_sequence s0 = 1 → ls_last_chain_hash s0 = ZERO_HASH →
  ∃ s', replay_scan false (last_sequence es) 0 verify (ww_dir (tm_wal (ls_tx s))) (W, s0) = (Ok tt, (W, s')) ∧
    books_of s' = books_of s ∧ ls_tx s' = ls_tx s0 ∧ ls_db s' = ls_db s0 ∧ ls_checkpoint s' = ls_checkpoint s0 ∧
    ls_next_sequence s' = ls_next_sequence s ∧ ls_last_chain_hash s' = ls_last_chain_hash s ∧
    ∀ id, balance id s' = balance id s.
Proof.
  intros [Hl Hi Hr Hn Hh Hc] Hb Hdb Hbal Hn0 Ht0. pose proof (sl_log _ _ Hl) as Hlog.
  assert (Hitems : wal_items (ww_dir (tm_wal (ls_tx s))) None 0 = map Ok rs ++ []).
  { rewrite app_nil_r, <- (log_plain _ _ Hlog). apply wal_inv_items, Hlog. }
  destruct (last_sequence_spec _ _ Hdb) as (Hmx & _ & Hpos). set (cur := 0 <? last_sequence es).
  assert (Hcur : es ≠ [] → cur = true) by (intros Hne; apply Z.ltb_lt; auto).
  assert (Hrows : replays (last_sequence es) cur (log_rows rs) books0 (books_of s)).
  { apply Hr. apply Forall_forall. intros e He. rewrite Forall_forall in Hmx. split; [auto|]. apply Hcur. by intros ->; apply elem_of_nil in He. }
  destruct (Hrows W s0 Hb) as (s1 & Hf & Hb1 & Ht1 & Hd1 & Hbal1 & Hc1 & Hu1).
  unfold replay_scan. change (negb false && (0 <? last_sequence es)) with cur.
  destruct (recover_streaming_Ok (λ _, WalErr) (replay_tx false (last_sequence es)) verify None _ None 0 rs [] false
    (W, (s0, mkVars cur false)) Hitems (log_typed _ _ Hlog) eq_refl) as (n & ->).
  rewrite (mbind_eq _ _ _ tt (W, (s1, mkVars cur false))).
  2: { rewrite (handle_rows _ _ _ _ (committed_payloads rs) (log_verified _ _ Hlog)). exact Hf. }
  cbn [mret M_ret rv_bulk_open rv_sqlite_is_current]. rewrite (mbind_eq _ _ _ tt (W, s1)) by done.
  destruct es as [|e es].
  - exists s1. destruct (Hu1 eq_refl) as [Hn1 Htip1]. split_and!; try congruence; [done| | |].
    + by rewrite Hn1, Hn0, Hn.
    + by rewrite Htip1, Ht0, (inv_tip _ _ Hi).
    + intros id. rewrite (inv_balance _ _ Hi). unfold balance. by rewrite Hbal1, Hbal.
  - rewrite (Hcur ltac:(done)).
    assert (Hacc : ls_accounts s1 = ls_accounts s) by (by injection Hb1).
    destruct (load_from_sqlite_quiet s1 (e :: es)) as (c & Hload & Hbc); [by rewrite Hd1|rewrite Hacc; apply Hi|congruence|done|].
    eexists. split; [exact Hload|]. cbn. split_and!; try congruence; try done.
    + by rewrite (inv_tip _ _ Hi).
    + intros id. unfold balance at 1. cbn. by rewrite Hbc, Hacc, (inv_balance _ _ Hi).
Qed.

(** Before the scan: the tables are there. *)
Definition ensured (s : LedgerStore) : LedgerStore :=
  s_db (mkDb (set_account_entries (Some (default ∅ (t_account_entries (db_tables (ls_db s))))) (db_tables (ls_db s))) (db_saved (ls_db s))) s.

Lemma backfill_fts_quiet s es :
  db_repr (db_tables (ls_db s)) es → (es ≠ [] → t_fts (db_tables (ls_db s)) ≠ ∅) → backfill_fts (W, s) = (Ok tt, (W, s)).
Proof.
  intros Hr Hf. unfold backfill_fts.
  rewrite (mbind_eq _ _ _ _ _ (db_try_reads_quiet W count s _ (query_quiet W Hio _ _))).
  destruct (Z.ltb_spec 0 (Z.of_nat (size (t_entries (db_tables (ls_db s)))))) as [Hlt|]; [|done].
  assert (Hne : es ≠ []).
  { intros ->. destruct Hr as (Hk & _). assert (Hs : size (t_entries (db_tables (ls_db s))) ≠ 0%nat) by lia.
    apply map_size_non_empty_iff, map_choose in Hs as (k & r & Hk').
    assert (k ∈ sorted_keys (t_entries (db_tables (ls_db s)))) as Hin by (apply elem_of_sorted_keys; by eexists).
    rewrite Hk in Hin. by apply elem_of_nil in Hin. }
  rewrite (mbind_eq _ _ _ false (W, s)); [done|]. apply db_op_quiet. unfold fts_is_empty.
  rewrite (mbind_eq _ _ _ (Ok (bool_decide (t_fts (db_tables (ls_db s)) = ∅))) (W, ls_db s)) by (unfold attempt; by rewrite (query_quiet W Hio)).
  cbn. by rewrite bool_decide_false by auto.
Qed.
End quiet.

(** ** Reopening *)

(** The books of [s'] are those of [s]. *)
Record restored (s s' : LedgerStore) : Prop := {
  rs_accounts : ls_accounts s' = ls_accounts s;
  rs_holds : ls_holds s' = ls_holds s;
  rs_reversals : ls_reversals s' = ls_reversals s;
  rs_settlements : ls_settlements s' = ls_settlements s;
  rs_next : ls_next_sequence s' = ls_next_sequence s;
  rs_tip : ls_last_chain_hash s' = ls_last_chain_hash s;
  rs_balance : ∀ id, balance id s' = balance id s;
  rs_entries : t_entries (db_tables (ls_db s')) = t_entries (db_tables (ls_db s));
  rs_key : tm_signing_key (ls_tx s') = tm_signing_key (ls_tx s)
}.

Lemma ensured_repr s es : db_repr (db_tables (ls_db s)) es → db_repr (db_tables (ls_db (ensured s))) es.
Proof. by apply db_repr_entries. Qed.

(** The startup sequence on a fresh store, in front of a current index. *)
Lemma replay_from_wal_quiet W s rs es s0 :
  w_io W = [] → replayable s rs es → books_of s0 = books0 → ls_db s0 = ls_db s → ls_balance s0 = ∅ →
  ls_next_sequence s0 = 1 → ls_last_chain_hash s0 = ZERO_HASH → ls_checkpoint s0 = None →
  ww_dir (tm_wal (ls_tx s0)) = ww_dir (tm_wal (ls_tx s)) →
  ∃ s', replay_from_wal_mode false (W, s0) = (Ok tt, (W, s')) ∧
    books_of s' = books_of s ∧ ls_tx s' = ls_tx s0 ∧ ls_db s' = ls_db (ensured s) ∧
    ls_next_sequence s' = ls_next_sequence s ∧ ls_last_chain_hash s' = ls_last_chain_hash s ∧ ∀ id, balance id s' = balance id s.
Proof.
  intros Hio Hr Hb Hdb Hbal Hn0 Ht0 Hcp Hdir. pose proof (rp_inv _ _ _ Hr) as Hi. pose proof (inv_db _ _ Hi) as Hrep.
  unfold replay_from_wal_mode. rewrite (mbind_eq _ _ _ None (W, s0)) by (unfold gets; by rewrite <- Hcp). cbv zeta match.
  assert (Hrep0 : db_repr (db_tables (ls_db s0)) es) by (by rewrite Hdb).
  rewrite (mbind_eq _ _ _ _ _ (max_sequence_quiet W Hio s0 es Hrep0)). cbn [res_unwrap_or].
  assert (Hens : (_ ← db_try ensure_account_entries_table; backfill_fts) (W, s0) = (Ok tt, (W, ensured s0))).
  { rewrite (mbind_eq _ _ _ _ _ (db_try_quiet W ensure_account_entries_table s0 _ _ (execute_quiet W Hio _ _))).
    apply (backfill_fts_quiet W Hio (ensured s0) es); [by apply ensured_repr|]. cbn. rewrite Hdb. apply Hi. }
  rewrite (mbind_eq _ _ _ _ _ Hens). change ((0 <? 0) && negb false) with false.
  rewrite (mbind_eq _ _ _ tt (W, ensured s0)), (mbind_eq _ _ _ (ensured s0) (W, ensured s0)) by done.
  change (ww_dir (tm_wal (ls_tx (ensured s0)))) with (ww_dir (tm_wal (ls_tx s0))). rewrite Hdir.
  destruct (replay_scan_quiet W Hio s rs es (ensured s0) (bool_decide (is_Some (tm_signing_key (ls_tx (ensured s0))))) Hr)
    as (s' & Hs & Hb' & Ht' & Hd' & _ & Hn' & Htip' & Hbal'); try done.
  exists s'. split_and!; try done. rewrite Hd'. unfold ensured. cbn. by rewrite Hdb.
Qed.

Lemma write_checkpoint_quiet W s es :
  w_io W = [] → db_repr (db_tables (ls_db s)) es → ∃ cp, write_checkpoint (W, s) = (Ok tt, (W, s_checkpoint cp s)).
Proof.
  intros Hio Hr. unfold write_checkpoint. rewrite (mbind_eq _ _ _ _ _ (max_sequence_quiet W Hio s es Hr)).
  rewrite (mbind_eq _ _ _ s (W, s)) by done. cbn [res_unwrap_or]. destruct (0 <? last_sequence es).
  - rewrite (mbind_eq _ _ _ (Ok tt) (W, s)) by (unfold attempt; by rewrite io_quiet). by eexists.
  - exists (ls_checkpoint s). by destruct s.
Qed.

(** C11: A restart restores the books.  Take any store reached from an empty
    directory by operations that succeeded (accounts, postings, reversals,
    settlements, holds, reconciliations, checkpoints, currencies, in any order
    and number), and open the files it left: opening succeeds, and the
    reopened store has the same accounts, legal holds, reversal index,
    settlement states, sequence counter, chain tip, balances, journal and
    signing key, and satisfies the ledger's invariant again. *)
Theorem reopen_restores mode0 sk W0 s0 s mode W :
  w_io W0 = [] → open_store false mode0 (empty_dir sk) W0 = Ok s0 → rtc ok_step s0 s → w_io W = [] →
  ∃ s', open_store false mode (disk_of s) W = Ok s' ∧ restored s s' ∧ ∃ es, ledger_inv s es ∧ ledger_inv s' es.
Proof.
  intros Hio0 Hopen Hst Hio. apply (open_empty_replayable _ _ _ _ Hio0) in Hopen.
  destruct (history_replayable _ _ _ _ Hst Hopen) as (rs & es & Hr). pose proof (rp_inv _ _ _ Hr) as Hi.
  pose proof (sl_log _ _ (rp_logged _ _ _ Hr)) as Hlog.
  destruct (open_next_tx_id (ww_dir (tm_wal (ls_tx s))) (tm_signing_key (ls_tx s)) mode W rs) as (tm & Htm & _ & _ & _ & Hdir & Hsk).
  { destruct (log_wal _ _ Hlog) as (ss & rcs & (-> & _) & _). by destruct ss. }
  { rewrite <- (log_plain _ _ Hlog). apply wal_inv_items, Hlog. } { apply Hlog. }
  set (st0 := initial_store tm (disk_of s)).
  assert (Hdb0 : ls_db st0 = ls_db s).
  { unfold st0, initial_store, disk_of. cbn. pose proof (inv_saved _ _ Hi) as Hsv. destruct (ls_db s) as [t sv]. cbn in *. by subst sv. }
  destruct (replay_from_wal_quiet W s rs es st0 Hio Hr) as (s1 & Hrep & Hb & Ht & Hd & Hn & Htip & Hbal); try done.
  { apply Hr. }
  destruct (write_checkpoint_quiet W s1 es Hio) as (cp & Hcp); [rewrite Hd; apply ensured_repr, Hi|].
  exists (s_checkpoint cp s1). injection Hb as Hacc Hho Hrev Hset.
  split_and!.
  - unfold open_store. cbn [dd_wal dd_signing_key disk_of]. rewrite Htm. fold st0.
    by rewrite (mbind_eq _ _ _ _ _ Hrep), Hcp.
  - constructor; cbn; try done; [by rewrite Hd|by rewrite Ht].
  - exists es. split; [done|]. constructor; cbn [ls_db ls_accounts ls_last_chain_hash ls_next_sequence ls_reversals s_checkpoint];
      rewrite ?Hd, ?Hacc, ?Hn, ?Htip, ?Hrev; try apply Hi.
    + pose proof (inv_refs _ _ Hi) as Hrefs. unfold refs_ok in *. cbn. destruct (t_account_entries _) as [ae|]; [done|].
      subst es. set_solver.
    + intros id. change (balance id (s_checkpoint cp s1)) with (balance id s1). rewrite Hbal. apply Hi.
Qed.
End reopen.
