(* ===== verification/StoreLive.v ===== *)
(** * The ledger store: admissible entries are accepted

    The other direction of the posting theorems: when no I/O call fails, the
    row fits a page and the log has room, an entry that balances and passes
    every check is posted.  Serializing a record to a buffer does not fail in
    bincode; that is stated as a class. *)

From stdpp Require Import base gmap list strings option fin_maps sorting.
From Stdlib Require Import ZArith Lia.
From S2P Require Import Prelude Bytes Crypto Merkle Money Entry WalRecord Wal Recovery Tx TxLog Page EntryDb Store StoreFrame StoreLog StoreBooks StoreInv StoreReverse StoreSafety StoreReplay.

Section live.
Context `{Blake3} `{Ed25519} `{!WalExt} `{!PageExt} `{LedgerCodecs} `{LedgerExt} `{!SmallRecords} `{!TotalRecords}.

(** ** The log *)

Lemma write_all_succeeds d W w : w_io W = [] → succeeds (write_all d) W w.
Proof. intros Hio. exists tt, W, (append_file d w). split; [|done]. unfold write_all, attempt. unfold mbind, M_bind. by rewrite io_quiet. Qed.
Hint Resolve write_all_succeeds : succeeds.

Lemma wal_inv_next w rs : wal_inv w rs → ww_dir w !! ww_next_segment_index w = None.
Proof.
  intros (ss & rcs & (Hl & _) & _ & Hn & _). destruct (ww_dir w !! ww_next_segment_index w) as [c|] eqn:Hx; [|done]. exfalso.
  assert (Hin : ww_next_segment_index w ∈ list_segments (ww_dir w)) by (apply elem_of_sorted_keys; by eexists).
  pose proof (list_segments_sorted (ww_dir w)) as Hs. rewrite Hl, map_app in *. cbn [map fst] in *.
  apply elem_of_app in Hin as [Hin|Hin].
  - apply StronglySorted_app_1_elem_of with (x1 := ww_next_segment_index w) (x2 := seg_index (ww_active w)) in Hs; [lia|done|set_solver].
  - apply list_elem_of_singleton in Hin. lia.
Qed.

Lemma roll_segment_succeeds W w : w_io W = [] → ww_dir w !! ww_next_segment_index w = None → succeeds roll_segment W w.
Proof.
  intros Hio Hn. unfold roll_segment, sync_all. exists tt, W. eexists. split; [|done].
  rewrite (mbind_eq _ _ _ tt (W, w)) by (by apply io_quiet). rewrite (mbind_eq _ _ _ tt (W, ww_set_active (seg_set_sealed true (ww_active w)) w)) by done.
  rewrite (mbind_eq _ _ _ (ww_next_segment_index w) (W, ww_set_active (seg_set_sealed true (ww_active w)) w)) by done.
  rewrite (mbind_eq _ _ _ tt (W, ww_set_active (seg_set_sealed true (ww_active w)) w)) by (by apply io_quiet).
  rewrite (mbind_eq _ _ _ false (W, ww_set_active (seg_set_sealed true (ww_active w)) w)); [done|].
  unfold gets. cbn. by rewrite Hn, bool_decide_false by (by intros [? [=]]).
Qed.

Lemma append_succeeds t ty payload W w rs :
  w_io W = [] → wal_inv w rs → ww_encryption_key w = None → u64_ok t → u64_ok (ww_sequence w) → succeeds (append t ty payload) W w.
Proof.
  intros Hio Hi Hk Ht Hq. pose proof (wal_inv_next _ _ Hi) as Hnext. unfold append.
  apply succeeds_bind; [by apply succeeds_gets|]. intros old W1 w1 Ho _. injection Ho as <- <- <-.
  apply succeeds_bind; [by apply succeeds_modify|]. intros u W1 w1 Ho _. injection Ho as <- <- <-.
  apply succeeds_bind; [by apply succeeds_now|]. intros ts W1 w1 Ho Hio1. injection Ho as _ _ <-.
  cbv zeta. set (h := mkHeader _ _ _ _ _ _ _).
  assert (Hh : header_ok h).
  { unfold header_ok, h; cbn. split_and!; try done; try apply wadd_u64_ok; try (by destruct ty); try (unfold u32_ok, as_u32; apply Z.mod_pos_bound; lia). apply as_i64_range. }
  rewrite (header_layout h Hh). apply succeeds_bind; [by eapply succeeds_liftR|]. intros hb W2 w2 Ho _. injection Ho as <- <- <-.
  rewrite header_fields_length. cbn [negb Nat.eqb HEADER_SIZE].
  apply succeeds_bind; [by apply succeeds_gets|]. intros k W2 w2 Ho _. injection Ho as <- <- <-. cbn [ww_encryption_key ww_set_sequence].
  rewrite Hk. apply succeeds_bind.
  - unfold append_plain. apply succeeds_bind.
    + unfold ensure_space. apply succeeds_bind; [by apply succeeds_gets|]. intros sp W3 w3 Ho _. injection Ho as <- <- <-.
      case_match; [by apply succeeds_ret|]. by apply roll_segment_succeeds.
    + intros ? W3 w3 _ Hio3. do 3 step_ok. by apply succeeds_modify.
  - intros ? W3 w3 _ Hio3. apply succeeds_bind; [|intros ? W4 w4 _ Hio4; by apply succeeds_ret].
    unfold after_write. apply succeeds_bind; [by apply succeeds_gets|]. intros mode W4 w4 Ho _. injection Ho as <- <- <-.
    case_match; [by apply succeeds_io|by apply succeeds_modify].
Qed.

Lemma wal_append_succeeds {P} `{Codec P} t ty (p : P) W m rs :
  w_io W = [] → wal_inv (tm_wal m) rs → ww_encryption_key (tm_wal m) = None → u64_ok t → u64_ok (ww_sequence (tm_wal m)) →
  is_Some (enc p) → succeeds (wal_op (append_record t ty p)) W m.
Proof.
  intros Hio Hi Hk Ht Hq [bs Hbs]. apply succeeds_zoom. unfold append_record. rewrite Hbs.
  apply succeeds_bind; [by eapply succeeds_liftR|]. intros bs' W1 w1 Ho _. injection Ho as <- <- <-. by eapply append_succeeds.
Qed.

(** ** One transaction *)

Lemma begin_succeeds d W m rs : w_io W = [] → log_ok m rs → log_room m 1 → succeeds (begin d) W m.
Proof.
  intros Hio Hl [Hlt _]. pose proof (log_next _ _ Hl) as Hn. unfold begin.
  apply succeeds_bind; [by apply succeeds_gets|]. intros t W1 m1 Ho _. injection Ho as <- <- <-.
  apply succeeds_bind; [by apply succeeds_modify|]. intros u W1 m1 Ho _. injection Ho as <- <- <-.
  apply succeeds_bind; [by apply succeeds_gets|]. intros sn W1 m1 Ho _. injection Ho as <- <- <-.
  apply succeeds_bind.
  - eapply wal_append_succeeds; cbn; [done|apply Hl|apply Hl|unfold u64_ok; lia|apply Hl|apply begin_total].
  - intros r W1 m1 _ Hio1. step_ok. step_ok. by apply succeeds_ret.
Qed.

Lemma add_mutation_succeeds t tb pid sl k bs prev W m tx :
  w_io W = [] → tm_active m !! t = Some tx → tx_state tx = Active → succeeds (add_mutation t tb pid sl k bs prev) W m.
Proof.
  intros Hio Ht Hs. unfold add_mutation, with_tx. apply succeeds_bind; [by apply succeeds_gets|]. intros ac W1 m1 Ho _. injection Ho as <- <- <-.
  rewrite Ht. apply succeeds_bind; [by eapply succeeds_liftR|]. intros tx1 W1 m1 Ho _. injection Ho as <- <- <-.
  unfold Transaction_add_mutation, ensure_active. rewrite Hs. cbn.
  apply succeeds_bind; [by eapply succeeds_liftR|]. intros tx1 W1 m1 Ho _. injection Ho as <- <- <-. by apply succeeds_modify.
Qed.

(** The data records of a transaction. *)
Lemma append_mutations_succeed t ms : ∀ W m rs n,
  w_io W = [] → wal_inv (tm_wal m) rs → ww_encryption_key (tm_wal m) = None → u64_ok t → seq_in_width (tm_wal m) →
  room (length ms + n) (tm_wal m) → Forall (fits ∘ data_payload) ms →
  succeeds (forM (λ pm, _ ← wal_op (append_record t RData (data_payload pm)); mret tt) ms) W m.
Proof.
  induction ms as [|pm ms IH]; intros W m rs n Hio Hi Hk Ht Hq Hn Hf; cbn [forM]; [by apply succeeds_ret|].
  apply Forall_cons in Hf as [Hfp Hf]. apply succeeds_bind.
  - apply succeeds_bind; [by eapply wal_append_succeeds, data_total|]. intros r W1 m1 _ Hio1. by apply succeeds_ret.
  - intros u W1 m1 Ha Hio1. apply mbind_Ok_inv in Ha as (r & [W2 m2] & Ha & Hr). unfold mret, M_ret in Hr. simplify_eq.
    pose proof (wal_append_width t RData (data_payload pm) W m Hq) as Hq1. rewrite Ha in Hq1.
    eapply append_record_Ok in Ha as (Hi1 & Hn1 & _ & _ & Hk1); [|exact Hi|exact Ht|exact Hn|exact Hfp].
    eapply (IH _ _ _ n); try done. by rewrite Hk1.
Qed.

Lemma finish_commit_succeeds t tx W m :
  w_io W = [] → tm_active m !! t = Some tx → tx_state tx = Active → succeeds (finish_commit t tx) W m.
Proof.
  intros Hio Ht Hs. unfold finish_commit. apply succeeds_bind; [by apply succeeds_gets|]. intros ac W1 m1 Ho _. injection Ho as <- <- <-.
  rewrite Ht. apply succeeds_bind.
  - step_ok. apply succeeds_bind; [|intros; by apply succeeds_modify]. unfold mark_committed, ensure_active. rewrite Hs. by eapply succeeds_liftR.
  - intros u W1 m1 _ Hio1. case_match; auto with succeeds.
Qed.

Lemma commit_succeeds t W m rs tx :
  w_io W = [] → wal_inv (tm_wal m) rs → ww_encryption_key (tm_wal m) = None → seq_in_width (tm_wal m) → u64_ok t →
  tm_active m !! t = Some tx → tx_state tx = Active → tx_idempotency_key tx = None →
  room (S (mutation_count tx)) (tm_wal m) → Forall (fits ∘ data_payload) (tx_mutations tx) → succeeds (commit t) W m.
Proof.
  intros Hio Hi Hk Hq Ht Htx Hs Hkey Hroom Hf. unfold commit. apply succeeds_bind; [by apply succeeds_gets|].
  intros ac W1 m1 Ho _. injection Ho as <- <- <-. rewrite Htx. apply succeeds_bind; [by eapply succeeds_liftR|].
  intros tx1 W1 m1 Ho _. injection Ho as <- <- <-. apply succeeds_bind; [by apply succeeds_gets|].
  intros ks W1 m1 Ho _. injection Ho as <- <- <-. rewrite Hkey. apply succeeds_bind; [by apply succeeds_gets|].
  intros sk W1 m1 Ho _. injection Ho as <- <- <-. assert (Hr : room (length (tx_mutations tx) + 1) (tm_wal m)) by (by rewrite Nat.add_comm).
  apply succeeds_bind; [by eapply append_mutations_succeed|]. intros u W1 m1 Ha Hio1.
  assert (Hq1 : seq_in_width (tm_wal m1)).
  { assert (Hp : preserves (λ m, seq_in_width (tm_wal m))
      (forM (λ pm, _ ← wal_op (append_record t RData (data_payload pm)); mret tt) (tx_mutations tx))).
    { apply preserves_forM. intros pm. apply preserves_bind; [apply wal_append_width|]. intros. apply preserves_ret. }
    specialize (Hp W m Hq). by rewrite Ha in Hp. }
  eapply append_mutations_Ok in Ha as (ds & Hi1 & Hr1 & Hm1 & Hk1 & _); [|exact Hi|exact Ht|exact Hr|exact Hf].
  apply succeeds_bind; [eapply wal_append_succeeds; try done; [by rewrite Hk1|apply commit_total]|].
  intros r W2 m2 Ha Hio2. apply wal_op_Ok in Ha as (w2 & _ & ->). apply finish_commit_succeeds; [done| |done]. rewrite Hm1. exact Htx.
Qed.

(** ** Pages *)

Lemma open_handle_succeeds k f W p : w_io W = [] → succeeds (open_handle k f) W p.
Proof.
  intros Hio. unfold open_handle. apply succeeds_bind; [by apply succeeds_gets|]. intros hs W1 p1 Ho _. injection Ho as <- <- <-.
  case_match; [by apply succeeds_ret|]. do 3 step_ok. by apply succeeds_ret.
Qed.

Lemma write_page_succeeds pg W p :
  w_io W = [] → pg_sealed pg = true → ps_table_keys p !! ph_table_id (pg_header pg) = None → succeeds (write_page pg) W p.
Proof.
  intros Hio Hs Hk. unfold write_page. rewrite Hs. cbn [negb].
  apply succeeds_bind; [by apply succeeds_gets|]. intros ks W1 p1 Ho _. injection Ho as <- <- <-.
  apply succeeds_bind; [by apply succeeds_gets|]. intros sz W1 p1 Ho _. injection Ho as <- <- <-. rewrite Hk.
  apply succeeds_bind; [|intros; by apply succeeds_modify]. unfold write_page_plain, file_for_table, file_write.
  apply succeeds_bind; [by apply open_handle_succeeds|]. intros f W1 p1 _ Hio1. step_ok. by apply succeeds_modify.
Qed.

Lemma with_size_header i t z pg :
  with_size i t z = Ok pg → ph_table_id (pg_header pg) = t ∧ pg_size pg = z.
Proof.
  unfold with_size, flush_header. case_match; [done|]. intros Hw.
  apply res_bind_Ok in Hw as (x & _ & Hw). by apply res_bind_Ok in Hw as (y & _ & [= <-]).
Qed.

(** The largest row a fresh page of the store takes. *)
Definition ROW_CAPACITY : Z := DEFAULT_PAGE_SIZE - body_start - SLOT_DIR_ENTRY_SIZE.

Lemma write_to_page_succeeds t bs c W s :
  w_io W = [] → u64_ok c → u32_ok t → Z.of_nat (length bs) ≤ ROW_CAPACITY → ps_table_keys (ls_pages s) !! t = None →
  succeeds (write_to_page t bs c) W s.
Proof.
  intros Hio Hc Ht Hlen Hk. unfold write_to_page, Page_new.
  destruct (with_size_repr c t DEFAULT_PAGE_SIZE) as (pg & Hnew & Hrepr & Hns); [done|done|unfold DEFAULT_PAGE_SIZE, body_start, PH_SIZE; lia..|].
  rewrite Hnew. apply succeeds_bind; [by eapply succeeds_liftR|]. intros pg' W1 s1 Ho _. injection Ho as <- <- <-.
  pose proof (page_repr_size _ _ Hrepr) as Hsize. cbn in Hsize.
  assert (Hid : ph_table_id (pg_header pg) = t ∧ pg_size pg = DEFAULT_PAGE_SIZE).
  { apply with_size_header in Hnew. done. }
  destruct Hid as [Hid Hpsz].
  destruct (write_slot_repr pg [] bs Hrepr Hns) as (pg1 & Hws & Hrepr1 & _ & _ & _ & _ & Htid).
  { unfold ROW_CAPACITY, SLOT_DIR_ENTRY_SIZE, bsize, total in *. cbn in Hsize. rewrite Hpsz in Hsize. lia. }
  rewrite Hws. apply succeeds_bind; [by eapply succeeds_liftR|]. intros sp W1 s1 Ho _. injection Ho as <- <- <-.
  destruct Hrepr1 as (hd & gap & Hb & Hhd & _ & _ & _ & _ & Hok & _). cbn [snd]. rewrite (seal_buf _ _ _ Hb Hhd Hok).
  apply succeeds_bind; [by eapply succeeds_liftR|]. intros pg2 W1 s1 Ho _. injection Ho as <- <- <-.
  apply succeeds_bind; [|intros; by apply succeeds_ret]. apply succeeds_zoom, write_page_succeeds; [done..|]. cbn. by rewrite Htid, Hid.
Qed.

(** ** The store *)

Lemma tx_op_succeeds {A} (o : TM A) W s : succeeds o W (ls_tx s) → succeeds (tx_op o) W s.
Proof. apply succeeds_zoom. Qed.

Lemma persist_row_succeeds t bs k prev W s rs :
  w_io W = [] → store_logged s rs → log_room (ls_tx s) 3 → u32_ok t → Z.of_nat (length bs) ≤ ROW_CAPACITY →
  ps_table_keys (ls_pages s) !! t = None → (∀ h, prev = Some h → hash_ok h) → succeeds (persist_row t bs k prev) W s.
Proof.
  intros Hio Hs Hroom Ht Hlen Hkey Hprev. unfold persist_row.
  apply succeeds_bind; [by apply succeeds_gets|]. intros c W1 s1 Ho _. injection Ho as <- <- <-.
  assert (Hc : u64_ok (cursor_of t s)) by (unfold cursor_of; case_match; apply Hs).
  apply succeeds_bind; [by apply write_to_page_succeeds|]. intros [[pid sid] nc] W1 s1 Hw Hio1.
  apply write_to_page_Ok in Hw as (-> & -> & -> & Hmax & p' & ->); [|done..].
  apply succeeds_bind; [by apply succeeds_modify|]. intros u W2 s2 Ho _. injection Ho as <- <- <-.
  set (s2 := set_cursor _ _ _). assert (Htx2 : ls_tx s2 = ls_tx s) by (unfold s2, set_cursor; by case_match).
  pose proof (sl_log _ _ Hs) as Hl. pose proof (log_next _ _ Hl) as Hn.
  apply succeeds_bind.
  { apply tx_op_succeeds. rewrite Htx2. eapply begin_succeeds; [done..|]. destruct Hroom as [Hlt Hr]. split; [done|]. unfold room in *. lia. }
  intros tid W3 s3 Hb Hio3. apply tx_op_Ok in Hb as (m3 & Hb & ->). rewrite Htx2 in Hb.
  pose proof (begin_width None W1 (ls_tx s) (log_seq _ _ Hl)) as Hq3. rewrite Hb in Hq3.
  eapply begin_Ok in Hb as (-> & _ & Hi3 & Hr3 & _ & _ & He3 & (sn & st & Ht3) & b & Hw3 & _); [|done..].
  apply succeeds_bind; [by eapply tx_op_succeeds, add_mutation_succeeds|].
  intros u3 W4 s4 Ha Hio4. apply tx_op_Ok in Ha as (m4 & Ha & ->). cbn in Ha.
  assert (Hms : Forall row_small [row t (cursor_of t s) k bs prev]) by (constructor; [by apply row_is_small|constructor]).
  eapply (add_mutations_Ok _ [row t (cursor_of t s) k bs prev]) in Hi3 as Hm4; [|exact Ht3|done|constructor; [done|constructor]|].
  2: { cbn [forM row pm_table_id pm_page_id pm_slot_id pm_kind pm_row_data pm_prev_hash]. by rewrite (mbind_eq _ _ _ _ _ Ha). }
  destruct Hm4 as (_ & _ & Hm4 & tx & Ht4 & Hs4 & Hmut & Hkey4). cbn in Hmut, Hkey4.
  assert (Hw4 : tm_wal m4 = tm_wal m3) by (by rewrite Hm4). destruct Hroom as [Hlt _].
  apply succeeds_bind; [|intros; by apply succeeds_ret]. apply tx_op_succeeds. cbn.
  eapply commit_succeeds; [done|by rewrite Hw4|rewrite Hw4, He3; apply Hl|by rewrite Hw4|unfold u64_ok; lia|exact Ht4|done..| |].
  - rewrite Hw4. unfold mutation_count. by rewrite Hmut.
  - rewrite Hmut. eapply Forall_impl; [exact Hms|]. intros x [_ Hx]. by apply data_fits.
Qed.

(** The entry, once numbered and chained, fits a page. *)
Definition row_fits (e : JournalEntry) : Prop := ∃ bs, enc e = Some bs ∧ Z.of_nat (length bs) ≤ ROW_CAPACITY.

Lemma commit_entry_succeeds e W s rs :
  w_io W = [] → store_logged s rs → log_room (ls_tx s) 3 → ps_table_keys (ls_pages s) !! TABLE_ENTRIES = None →
  row_fits (final_entry W s e) → ∃ W' s', commit_entry e (W, s) = (Ok (ls_next_sequence s), (W', s')).
Proof.
  intros Hio Hs Hroom Hkey (bs & Hbs & Hlen). rewrite commit_entry_eq. cbv zeta. rewrite Hbs.
  destruct (persist_row_succeeds TABLE_ENTRIES bs Insert (Some (e_prev_hash (final_entry W s e))) (tick W) (next_seq s) rs)
    as (x & W1 & s1 & -> & _); try done.
  { destruct Hs. by constructor. }
  { intros h [= <-]. cbn. apply Hs. }
  destruct (index_entry_Ok (final_entry W s e) (W1, booked (final_entry W s e) bs s1)) as [[W2 s2] Hix].
  rewrite (mbind_eq _ _ _ _ _ Hix). by exists W2, s2.
Qed.

(** C12: the posting checks are complete.  When no I/O call fails, the entry
    table is not encrypted, the log has room for three more records and the
    numbered entry fits a page, [post_entry] returns [Ok] exactly when the
    entry has two lines, balances, and either carries a known idempotency key
    or is admissible; it is refused in no other case. *)
Theorem post_entry_accepts e W s es rs :
  w_io W = [] → ledger_inv s es → store_logged s rs → log_room (ls_tx s) 3 →
  ps_table_keys (ls_pages s) !! TABLE_ENTRIES = None → row_fits (final_entry W s e) →
  is_ok (post_entry e (W, s)).1 = true ↔
  (2 ≤ length (e_lines e))%nat ∧ balanced (e_lines e) ∧ (is_Some (posted_as es e) ∨ admitted s e).
Proof.
  intros Hio Hi Hs Hroom Hkey Hfit. pose proof (posted_before_quiet W s es e Hio (inv_db _ _ Hi)) as Hpb.
  rewrite (assoc (∧)), <- validate_Ok, <- post_checks_Ok. unfold post_entry.
  destruct (validate e) as [[]|x]; [|by split; [|intros [? _]]]. rewrite (mbind_eq _ _ _ tt (W, s)) by done.
  rewrite (mbind_eq _ _ _ _ _ Hpb). destruct (posted_as es e) as [seq|]; [by split; eauto|].
  rewrite (mbind_eq _ _ _ s (W, s)) by done. destruct (post_checks s e) as [[]|x].
  - rewrite (mbind_eq _ _ _ tt (W, s)) by done. destruct (commit_entry_succeeds e W s rs) as (W2 & s2 & ->); try done. by split; eauto.
  - split; [done|]. by intros [_ [[? ?]|?]].
Qed.
End live.
