(* ===== verification/SqlExec.v ===== *)
(** * vledger-sql: the executor

    Models [crates/vledger-sql/src/executor.rs]: the read-only executor (a
    recursion on the plan) and the write executor, over the ledger store of
    [Store].  Text rendering by other crates (RFC 3339 dates, UUID parsing,
    error messages) and SQLite's [MATCH] are parameters ([SqlExt]). *)

From stdpp Require Import base gmap list strings option fin_maps sorting pretty.
From Stdlib Require Import ZArith Lia.
From S2P Require Import Prelude Bytes Crypto Merkle Money Entry WalRecord Wal Recovery Tx Page EntryDb Sql Store.

#[local] Open Scope string_scope.
#[local] Open Scope Z_scope.
#[local] Open Scope list_scope.

Class SqlExt := {
  to_rfc3339 : Z → string;
  date_text : Z → string;                       (* [format("%Y-%m-%d")] *)
  uuid_parse : string → option Z;               (* [Uuid::parse_str] *)
  ledger_error_text : LedgerError → string;
  fts_match : string → string → bool
}.

Definition DEFAULT_SCAN_LIMIT : Z := 10000.

(** [{:?}] of the enumerations. *)
Definition drcr_text (d : DrCr) : string := match d with Debit => "Debit" | Credit => "Credit" end.
Definition account_type_text (t : AccountType) : string :=
  match t with
  | Asset => "Asset" | Liability => "Liability" | Equity => "Equity" | Income => "Income"
  | Expense => "Expense" | Contra => "Contra" | Suspense => "Suspense"
  end.
Definition account_status_text (t : AccountStatus) : string :=
  match t with Money.Active => "Active" | Money.Closed => "Closed" | Money.Frozen => "Frozen" end.

Fixpoint join_with (sep : string) (l : list string) : string :=
  match l with
  | [] => ""
  | [s] => s
  | s :: l => s +:+ sep +:+ join_with sep l
  end.

(** [trim_start_matches(p)] *)
Fixpoint trim_start_matches (fuel : nat) (p s : string) : string :=
  match fuel with
  | O => s
  | S fuel => if String.prefix p s then trim_start_matches fuel p (String.substring (String.length p) (String.length s - String.length p) s) else s
  end.

Definition eq_ignore_ascii_case (a b : string) : bool := bool_decide (to_lowercase a = to_lowercase b).
Definition contains (needle hay : string) : bool := bool_decide (is_Some (String.index 0 needle hay)).

(** The order of sorted group keys: [Vec<String>], lexicographic. *)
Fixpoint keys_leb (a b : list string) : bool :=
  match a, b with
  | [], _ => true
  | _ :: _, [] => false
  | x :: a, y :: b => if bool_decide (x = y) then keys_leb a b else String.ltb x y
  end.

Definition keys_le (a b : list string) : Prop := keys_leb a b = true.
#[global] Instance keys_le_dec : RelDecision keys_le := λ a b, bool_eq_dec (keys_leb a b) true.

(** [sort_by_key(|e| e.sequence)] *)
Definition seq_le (a b : JournalEntry) : Prop := e_sequence a ≤ e_sequence b.
#[global] Instance seq_le_dec : RelDecision seq_le := λ a b, Z_le_dec (e_sequence a) (e_sequence b).

Section exec.
Context `{Blake3} `{Ed25519} `{WalExt} `{PageExt} `{LedgerCodecs} `{LedgerExt} `{SqlExt}.

Notation SM := (M LedgerStore SqlError).

Definition ledger {A} (m : M LedgerStore LedgerError A) : SM A := map_err SqlLedger m.

Definition all_accounts (s : LedgerStore) : list Account := hash_order (map snd (map_to_list (ls_accounts s))).

(** [LedgerStore::search_metadata] and [stream_entries]. *)
Definition store_search_metadata (q : string) (lim : Z) : M LedgerStore LedgerError (list JournalEntry) :=
  r ← db_try (search_metadata fts_match q lim); mret (res_unwrap_or [] r).
Definition store_stream {A} (f : JournalEntry → A → Result LedgerError A) (acc : A) : M LedgerStore LedgerError A :=
  r ← db_op (stream_all f acc); mret r.1.

(** The closure of the metadata scans: stop once the limit is reached. *)
Definition take_matching (p : string → bool) (e : JournalEntry) (matched : list JournalEntry)
    : Result LedgerError (list JournalEntry) :=
  if DEFAULT_SCAN_LIMIT <=? Z.of_nat (length matched) then Err (Serialization "limit")
  else Ok (if match e_metadata e with Some m => p m | None => false end then matched ++ [e] else matched).

Fixpoint entries_at (seqs : list Z) : M LedgerStore LedgerError (list JournalEntry) :=
  match seqs with
  | [] => mret []
  | seq :: seqs =>
      o ← get_entry_by_sequence seq;
      es ← entries_at seqs;
      mret (match o with Some e => e :: es | None => es end)
  end.

(** The part [exec_scan_entries] and [exec_scan_ledger_lines] have in common:
    the entries a filter selects, and whether the default limit cut them. *)
Definition matched_entries (filter : option EntryFilter) : M LedgerStore LedgerError (list JournalEntry * bool) :=
  let capped matched := (matched, Z.of_nat (length matched) =? DEFAULT_SCAN_LIMIT) in
  match filter with
  | Some (BySequence seq) =>
      o ← get_entry_by_sequence seq;
      mret (match o with Some e => [e] | None => [] end, false)
  | Some (BySequenceIn seqs) =>
      es ← entries_at seqs;
      mret (merge_sort seq_le es, false)
  | Some (ByDomain domain) =>
      matched ← entries_by_domain_limited domain DEFAULT_SCAN_LIMIT; mret (capped matched)
  | Some (ByStatus status) =>
      matched ← entries_by_status_limited status DEFAULT_SCAN_LIMIT; mret (capped matched)
  | Some (ByExternalRef r) => matched ← entries_by_external_ref r; mret (matched, false)
  | Some (ByMetadataSearch q) => matched ← store_search_metadata q DEFAULT_SCAN_LIMIT; mret (matched, false)
  | Some (ByMetadataEq needle) =>
      matched ← store_stream (take_matching (λ m, bool_decide (m = needle))) []; mret (matched, false)
  | Some (ByMetadataContains needle) =>
      matched ← store_stream (take_matching (λ m, contains (to_lowercase needle) (to_lowercase m))) [];
      mret (matched, false)
  | Some (Limit n) => matched ← entries_scan n; mret (matched, false)
  | _ => matched ← entries_scan DEFAULT_SCAN_LIMIT; mret (capped matched)
  end.

(** ** SELECT FROM ledger *)

Definition ENTRY_COLUMNS : list string :=
  ["sequence"; "id"; "status"; "description"; "domain"; "effective_at"; "posted_at"; "external_ref";
   "content_hash"; "chain_hash"; "lines"; "metadata"].

Definition line_text (l : JournalLine) : string :=
  uuid_string (ln_account_id l) +:+ ": " +:+ drcr_text (ln_dr_cr l) +:+ " " +:+
  pretty (amount_i64 (ln_amount l)) +:+ " " +:+ ln_currency_code l.

Definition entry_values (e : JournalEntry) : list Value :=
  [VBigInt (e_sequence e); VUuid (uuid_string (e_id e)); VText (status_text (e_status e));
   VText (e_description e); VText (e_domain e); VTimestamp (to_rfc3339 (e_effective_at e));
   VTimestamp (to_rfc3339 (e_posted_at e)); VText (default "" (e_external_ref e));
   VHash (hex_encode (e_content_hash e)); VHash (hex_encode (e_chain_hash e));
   VText (join_with "; " (map line_text (e_lines e))); VText (default "" (e_metadata e))].

(** [build_merkle_proof] *)
Definition leaf_proof (all_leaves : list bytes) (idx : nat) : option LeafProof :=
  p ← (if (length all_leaves <=? idx)%nat then None else merkle_proof all_leaves idx);
  Some (mkLeafProof (leaf_index p) (leaf_hash p) (path p)).

Definition build_merkle_proof (all_leaves : list bytes) (indices : list nat)
    (sign_root : bytes → option (bytes * bytes)) : QueryProof :=
  let root := merkle_root all_leaves in
  let sig := sign_root root in
  mkQueryProof root (omap (leaf_proof all_leaves) indices) (fst <$> sig) (snd <$> sig).

Definition build_scan_entries_result (attach_proofs : bool) (matched : list JournalEntry) (cap : bool)
    (sign_root : bytes → option (bytes * bytes)) : Result SqlError QueryResult :=
  rows ← collect (map (λ e, Row_new ENTRY_COLUMNS (entry_values e)) matched);
  let n := pretty (Z.of_nat (length rows)) in
  let message :=
    if cap then n +:+ " rows (capped at " +:+ pretty DEFAULT_SCAN_LIMIT +:+
      " — use LIMIT n or WHERE sequence = x to paginate)"
    else n +:+ " rows" in
  let result := qr_of_rows ENTRY_COLUMNS rows message in
  let leaf_data := map e_content_hash matched in
  Ok (if attach_proofs && negb (bool_decide (leaf_data = [])) then
        with_proof (build_merkle_proof leaf_data (seq 0 (length leaf_data)) sign_root) result
      else result).

Definition exec_scan_entries (attach_proofs : bool) (filter : option EntryFilter) : SM QueryResult :=
  mc ← ledger (matched_entries filter);
  sign ← gets (λ s, sign_bytes (ls_tx s));
  liftR (build_scan_entries_result attach_proofs mc.1 mc.2 sign).

(** ** SELECT FROM ledger_lines *)

Definition LINE_COLUMNS : list string :=
  ["date"; "sequence"; "entry_id"; "description"; "domain"; "account_id"; "dr_cr"; "amount"; "currency";
   "status"; "metadata"].

Definition line_values (e : JournalEntry) (l : JournalLine) : list Value :=
  [VText (date_text (e_effective_at e)); VBigInt (e_sequence e); VUuid (uuid_string (e_id e));
   VText (e_description e); VText (e_domain e); VUuid (uuid_string (ln_account_id l));
   VText (drcr_text (ln_dr_cr l)); VBigInt (amount_i64 (ln_amount l)); VText (ln_currency_code l);
   VText (status_text (e_status e)); VText (default "" (e_metadata e))].

Definition line_selected (filter : option EntryFilter) (l : JournalLine) : bool :=
  match filter with
  | Some (ByDrCr wanted) => eq_ignore_ascii_case (drcr_text (ln_dr_cr l)) wanted
  | _ => true
  end.

Definition build_scan_ledger_lines_result (entries : list JournalEntry) (filter : option EntryFilter)
    (cap_applied : bool) : Result SqlError QueryResult :=
  rows ← collect (map (λ el, Row_new LINE_COLUMNS (line_values el.1 el.2))
    (concat (map (λ e, map (pair e) (List.filter (line_selected filter) (e_lines e))) entries)));
  let n := pretty (Z.of_nat (length rows)) in
  let message :=
    if cap_applied then n +:+ " rows (capped at " +:+ pretty DEFAULT_SCAN_LIMIT +:+
      " entries — use LIMIT n or WHERE sequence = x to paginate)"
    else n +:+ " rows" in
  Ok (qr_of_rows LINE_COLUMNS rows message).

Definition exec_scan_ledger_lines (filter : option EntryFilter) : SM QueryResult :=
  mc ← ledger (matched_entries filter);
  liftR (build_scan_ledger_lines_result mc.1 filter mc.2).

(** ** SELECT FROM accounts *)

Definition ACCOUNT_COLUMNS : list string :=
  ["id"; "code"; "name"; "account_type"; "currency"; "status"; "domain"; "balance"].

Definition account_selected (filter : option EntryFilter) (a : Account) : bool :=
  let one_of (s : string) (vs : list string) := bool_decide (s ∈ vs) in
  match filter with
  | None => true
  | Some (ByAccountId id_str) => bool_decide (uuid_string (acc_id a) = id_str)
  | Some (ByAccountCode code) => bool_decide (acc_code a = code)
  | Some (ByAccountName name) => bool_decide (acc_name a = name)
  | Some (ByValueIn column values) =>
      if bool_decide (column = "id") then one_of (uuid_string (acc_id a)) values
      else if bool_decide (column = "code") then one_of (acc_code a) values
      else if bool_decide (column = "name") then one_of (acc_name a) values
      else if bool_decide (column = "domain") then one_of (acc_domain a) values
      else if bool_decide (column = "currency") then one_of (currency_code a) values
      else true
  | Some (ByDomain d) =>
      if String.prefix "__account_code:" d then
        bool_decide (acc_code a = trim_start_matches (String.length d) "__account_code:" d)
      else if String.prefix "__account_currency:" d then
        bool_decide (currency_code a = trim_start_matches (String.length d) "__account_currency:" d)
      else bool_decide (acc_domain a = d)
  | _ => true
  end.

Definition account_values (s : LedgerStore) (a : Account) : list Value :=
  [VUuid (uuid_string (acc_id a)); VText (acc_code a); VText (acc_name a);
   VText (account_type_text (account_type a)); VText (currency_code a); VText (account_status_text (acc_status a));
   VText (acc_domain a); VBigInt (balance (acc_id a) s)].

Definition exec_scan_accounts (filter : option EntryFilter) : SM QueryResult :=
  s ← gets id;
  rows ← liftR (collect (map (λ a, Row_new ACCOUNT_COLUMNS (account_values s a))
    (List.filter (account_selected filter) (all_accounts s))));
  mret (qr_of_rows ACCOUNT_COLUMNS rows (pretty (Z.of_nat (length rows)) +:+ " accounts")).

(** ** Functions *)

Definition resolve_account (account_ref : string) (s : LedgerStore) : Result SqlError Z :=
  let by_code := match list_find (λ a, acc_code a = account_ref) (all_accounts s) with
                 | Some (_, a) => Ok (acc_id a)
                 | None => Err (SqlExecution ("account '" +:+ account_ref +:+ "' not found"))
                 end in
  match uuid_parse account_ref with
  | Some id => if bool_decide (is_Some (get_account id s)) then Ok id else by_code
  | None => by_code
  end.

Definition one_row (cols : list string) (vals : list Value) (message : string) : Result SqlError QueryResult :=
  r ← Row_new cols vals; Ok (qr_of_rows cols [r] message).

Definition exec_constant (col val : string) : SM QueryResult := liftR (one_row [col] [VText val] "").

Definition exec_get_balance (account_ref : string) : SM QueryResult :=
  s ← gets id;
  acct_id ← liftR (resolve_account account_ref s);
  let b := balance acct_id s in
  liftR (one_row ["account"; "balance"] [VText account_ref; VBigInt b] ("balance = " +:+ pretty b)).

Definition integrity_failure (e : LedgerError) : QueryResult :=
  qr_empty ("INTEGRITY FAILURE: " +:+ ledger_error_text e).

Definition exec_verify_chain (from_seq to_seq : option Z) : SM QueryResult :=
  let cols := ["status"; "entries_verified"; "chain_tip"] in
  match from_seq, to_seq with
  | None, None =>
      r ← attempt verify_chain_integrity;
      match r with
      | Ok _ =>
          n ← ledger entry_count;
          tip ← gets ls_last_chain_hash;
          liftR (one_row cols [VText "OK"; VBigInt n; VHash (hex_encode tip)] "Chain integrity verified")
      | Err e => mret (integrity_failure e)
      end
  | _, _ =>
      r ← attempt (verify_chain_range from_seq to_seq);
      match r with
      | Ok (count, tip) =>
          liftR (one_row cols [VText "OK"; VBigInt (Z.of_nat count); VHash (hex_encode tip)]
            ("Chain range verified (" +:+ pretty (Z.of_nat count) +:+ " entries)"))
      | Err e => mret (integrity_failure e)
      end
  end.

Definition exec_verify_entry (sequence : Z) : SM QueryResult :=
  let cols := ["sequence"; "status"; "content_hash"; "chain_hash"; "description"] in
  o ← ledger (get_entry_by_sequence sequence);
  match o with
  | None => mret (qr_empty ("entry with sequence " +:+ pretty sequence +:+ " not found"))
  | Some entry =>
      let ok := verify_hashes entry in
      liftR (one_row cols
        [VBigInt (e_sequence entry); VText (if ok then "VALID" else "CORRUPTED");
         VHash (hex_encode (e_content_hash entry)); VHash (hex_encode (e_chain_hash entry)); VText (e_description entry)]
        (if ok then "Entry hash verified" else "INTEGRITY FAILURE: hash mismatch"))
  end.

Definition range_text (from_seq to_seq : Z) : string := " [" +:+ pretty from_seq +:+ ", " +:+ pretty to_seq +:+ "]".

Definition exec_merkle_root (from_seq to_seq : Z) : SM QueryResult :=
  let cols := ["from_seq"; "to_seq"; "entry_count"; "merkle_root"] in
  entries ← ledger (entries_in_range from_seq to_seq);
  match entries with
  | [] =>
      liftR (one_row cols [VBigInt from_seq; VBigInt to_seq; VBigInt 0; VHash (hex_encode ZERO_HASH)]
        ("No entries in range" +:+ range_text from_seq to_seq))
  | _ =>
      let n := Z.of_nat (length entries) in
      liftR (one_row cols
        [VBigInt from_seq; VBigInt to_seq; VBigInt n; VHash (hex_encode (merkle_root (map e_content_hash entries)))]
        ("Merkle root over " +:+ pretty n +:+ " entries" +:+ range_text from_seq to_seq))
  end.

(** ** JOIN *)

(** The column the right side is indexed by. *)
Definition right_key_col (cols : list string) : nat :=
  match list_find (λ c, c = "id" ∨ c = "code") cols with Some (i, _) => i | None => 0%nat end.

Definition right_map (r : QueryResult) : gmap string Row :=
  foldl (λ m row, match row_values row !! right_key_col (qr_columns r) with
                  | Some k => <[value_string k := row]> m
                  | None => m
                  end) ∅ (qr_rows r).

(** The output columns: those of the left side, then each column of the right
    side that is not among the output columns so far, with a prefix. *)
Definition join_columns (left right : list string) : list string :=
  foldl (λ out c, if bool_decide (c ∈ out) then out else out ++ ["r_" +:+ c]) left right.

Definition join_key (row : Row) : string :=
  match row_get "account_id" row with
  | Some v => value_string v
  | None => match head (row_values row) with Some v => value_string v | None => "" end
  end.

Definition join_row (jt : JoinType) (out_cols : list string) (rcols : list string) (rm : gmap string Row) (row : Row)
    : Result SqlError (list Row) :=
  match rm !! join_key row, jt with
  | Some rr, _ => r ← Row_new out_cols (row_values row ++ row_values rr); Ok [r]
  | None, LeftOuter => r ← Row_new out_cols (row_values row ++ map (λ _, VNull) rcols); Ok [r]
  | None, Inner => Ok []
  end.

Definition join_results (jt : JoinType) (l r : QueryResult) : Result SqlError QueryResult :=
  let out_cols := join_columns (qr_columns l) (qr_columns r) in
  rows ← collect (map (join_row jt out_cols (qr_columns r) (right_map r)) (qr_rows l));
  let rows := concat rows in
  Ok (qr_of_rows out_cols rows (pretty (Z.of_nat (length rows)) +:+ " rows (join)")).

(** ** Aggregates *)

Definition numeric (v : Value) : option Z :=
  match v with VBigInt n | VInt n => Some n | _ => None end.

Definition column_numbers (col_idx : option nat) (rows : list Row) : list Z :=
  omap (λ r, i ← col_idx; v ← row_values r !! i; numeric v) rows.

Definition sum_i128 (nums : list Z) : Z := foldl (λ a n, as_i128 (a + n)) 0 nums.

Definition extremum (f : Z → Z → Z) (nums : list Z) : Z :=
  match nums with [] => 0 | n :: nums => foldl f n nums end.

Definition compute_aggregate (func : AggFn) (col_idx : option nat) (rows : list Row) : Value :=
  let nums := column_numbers col_idx rows in
  match func with
  | AggCount => VBigInt (Z.of_nat (length rows))
  | AggSum => VBigInt (sum_i128 nums)
  | AggMin => VBigInt (extremum Z.min nums)
  | AggMax => VBigInt (extremum Z.max nums)
  | AggAvg => match nums with [] => VNull | _ => VBigInt (Z.quot (sum_i128 nums) (Z.of_nat (length nums))) end
  end.

Definition group_key (group_by : list string) (cols : list string) (row : Row) : list string :=
  match group_by with
  | [] => ["__all__"]
  | _ => map (λ gb, match position gb cols with
                    | Some i => match row_values row !! i with Some v => value_string v | None => "" end
                    | None => ""
                    end) group_by
  end.

Definition groups_of (group_by : list string) (input : QueryResult) : gmap (list string) (list Row) :=
  foldl (λ g row, let k := group_key group_by (qr_columns input) row in <[k := default [] (g !! k) ++ [row]]> g)
    ∅ (qr_rows input).

Definition aggregate_row (group_by : list string) (aggs : list AggExpr) (cols out_cols : list string)
    (g : gmap (list string) (list Row)) (key : list string) : Result SqlError Row :=
  let group_rows := default [] (g !! key) in
  Row_new out_cols
    ((match group_by with [] => [] | _ => map VText key end) ++
     map (λ a, compute_aggregate (agg_func a) (position (agg_column a) cols) group_rows) aggs).

Definition aggregate_results (group_by : list string) (aggs : list AggExpr) (input : QueryResult)
    : Result SqlError QueryResult :=
  let g := groups_of group_by input in
  let out_cols := group_by ++ map agg_alias aggs in
  let keys := merge_sort keys_le (map fst (map_to_list g)) in
  rows ← collect (map (aggregate_row group_by aggs (qr_columns input) out_cols g) keys);
  Ok (qr_of_rows out_cols rows (pretty (Z.of_nat (length rows)) +:+ " groups")).

(** ** Window functions *)

Record PartitionState := mkPart { running_sum : Z; running_count : Z; row_number : Z }.

Definition window_value (f : WindowFn) (st : PartitionState) (raw : Z) : Value :=
  match f with
  | RowNumber | Rank | DenseRank => VBigInt (row_number st)
  | RunningSum => VBigInt (running_sum st)
  | RunningAvg => VBigInt (Z.quot (running_sum st) (Z.max (running_count st) 1))
  | Lag => VBigInt (as_i128 (running_sum st - raw))
  | Lead => VBigInt raw
  end.

(** One row of the loop of [exec_window]. *)
Definition window_row (f : WindowFn) (alias : string) (parts : list nat) (vcol : option nat)
    (acc : gmap (list string) PartitionState * list Row) (row : Row) : gmap (list string) PartitionState * list Row :=
  let part_key := map (λ i, match row_values row !! i with Some v => value_string v | None => "" end) parts in
  let st := default (mkPart 0 0 0) (acc.1 !! part_key) in
  let raw := default 0 (i ← vcol; v ← row_values row !! i; numeric v) in
  let st := mkPart (as_i128 (running_sum st + raw)) (running_count st + 1) (wadd_u64 (row_number st) 1) in
  (<[part_key := st]> acc.1,
   acc.2 ++ [mkRow (row_columns row ++ [alias]) (row_values row ++ [window_value f st raw])]).

Definition window_results (f : WindowFn) (column alias : string) (partition_by : list string) (input : QueryResult)
    : QueryResult :=
  let cols := qr_columns input in
  let parts := omap (λ c, position c cols) partition_by in
  let rows := (foldl (window_row f alias parts (position column cols)) (∅, []) (qr_rows input)).2 in
  qr_of_rows (cols ++ [alias]) rows (pretty (Z.of_nat (length rows)) +:+ " rows (window)").

(** ** The executors *)

Fixpoint read_execute (attach_proofs : bool) (plan : LogicalPlan) : SM QueryResult :=
  match plan with
  | ScanEntries f ps => r ← exec_scan_entries attach_proofs f; liftR (project ps r)
  | ScanLedgerLines f ps => r ← exec_scan_ledger_lines f; liftR (project ps r)
  | ScanAccounts f ps => r ← exec_scan_accounts f; liftR (project ps r)
  | GetBalance r => exec_get_balance r
  | VerifyChain from_seq to_seq => exec_verify_chain from_seq to_seq
  | VerifyEntry seq => exec_verify_entry seq
  | MerkleRoot from_seq to_seq => exec_merkle_root from_seq to_seq
  | Constant col val => exec_constant col val
  | Join l r jt _ _ =>
      lr ← read_execute attach_proofs l;
      rr ← read_execute attach_proofs r;
      liftR (join_results jt lr rr)
  | Aggregate i gb aggs => input ← read_execute attach_proofs i; liftR (aggregate_results gb aggs input)
  | Window i f c a p _ => input ← read_execute attach_proofs i; mret (window_results f c a p input)
  | PostEntry _ | CreateAccount _ => throw SqlUnsupported
  end.

Definition parse_account_type (s : string) : Result SqlError AccountType :=
  let l := to_lowercase s in
  if bool_decide (l = "asset") then Ok Asset
  else if bool_decide (l = "liability") then Ok Liability
  else if bool_decide (l = "equity") then Ok Equity
  else if bool_decide (l = "income") then Ok Income
  else if bool_decide (l = "expense") then Ok Expense
  else if bool_decide (l = "contra") then Ok Contra
  else if bool_decide (l = "suspense") then Ok Suspense
  else Err (SqlInvalidValue "account_type").

(** The entry an [INSERT INTO ledger] posts. *)
Definition build_entry (spec : EntrySpec) (debit_id credit_id : Z) (amount : Amount) : SM JournalEntry :=
  b ← Builder_new (es_description spec) (es_domain spec);
  b ← debit debit_id amount (es_currency spec) b;
  b ← credit credit_id amount (es_currency spec) b;
  let b := match es_external_ref spec with Some r => external_ref r b | None => b end in
  let b := match es_idempotency_key spec with Some k => idempotency_key k b | None => b end in
  build b.

Definition debit_total (e : JournalEntry) : Z :=
  as_i64 (foldl (λ n l, match ln_dr_cr l with Debit => n + amount_i64 (ln_amount l) | Credit => n end) 0 (e_lines e)).

Definition exec_post_entry (spec : EntrySpec) : SM QueryResult :=
  s ← gets id;
  debit_id ← liftR (resolve_account (es_debit_account spec) s);
  credit_id ← liftR (resolve_account (es_credit_account spec) s);
  amount ← liftR (ok_or (Amount_new (es_amount spec)) (SqlInvalidValue "amount"));
  entry ← build_entry spec debit_id credit_id amount;
  seq ← ledger (post_entry entry);
  o ← ledger (get_entry_by_sequence seq);
  let '(id, domain, amount) :=
    match o with
    | Some e => (e_id e, e_domain e, debit_total e)
    | None => (0, es_domain spec, es_amount spec)
    end in
  qr ← liftR (one_row ["sequence"; "id"; "status"] [VBigInt seq; VUuid (uuid_string id); VText "Posted"]
    ("1 entry posted (sequence=" +:+ pretty seq +:+ ")"));
  mret (mkQueryResult (qr_columns qr) (qr_rows qr) (qr_rows_affected qr) (qr_proof qr) (qr_message qr)
    (Some id) (Some seq) (Some domain) (Some amount)).

Definition exec_create_account (spec : AccountSpec) : SM QueryResult :=
  acct_type ← liftR (parse_account_type (as_account_type spec));
  id ← rand;
  t ← now;
  id ← ledger (create_account (Account_new id t (as_code spec) (as_name spec) acct_type (as_currency spec) (as_domain spec)));
  liftR (one_row ["id"; "code"; "status"] [VUuid (uuid_string id); VText (as_code spec); VText "Created"]
    ("Account '" +:+ as_code spec +:+ "' created")).

Definition execute (attach_proofs : bool) (plan : LogicalPlan) : SM QueryResult :=
  match plan with
  | PostEntry spec => exec_post_entry spec
  | CreateAccount spec => exec_create_account spec
  | read_plan => read_execute attach_proofs read_plan
  end.
End exec.
