(* ===== verification/SqlSafety.v ===== *)
(** * vledger-sql: what queries return

    Theorems about the executor of [SqlExec]: the Merkle proofs attached to a
    scan verify, balances and counts are those of
    the journal up to the default limit, an [INSERT] posts the entry it
    describes; and three behaviours of the code that a query writer would not
    expect (the join, [IN] lists on the ledger, and aggregates over more than
    ten thousand entries). *)

From stdpp Require Import base gmap list strings option fin_maps sorting pretty.
From Stdlib Require Import ZArith Lia.
From S2P Require Import Prelude Bytes Crypto Merkle Money Entry WalRecord Wal Recovery Tx Page EntryDb Sql Store StoreFrame StoreBooks StoreInv StoreSafety StoreHistory StoreAudit StoreSnapshot SqlExec.

#[local] Open Scope string_scope.
#[local] Open Scope Z_scope.
#[local] Open Scope list_scope.

(** What a computation yields when it returns. *)
Definition yields {S E A} (P : A → Prop) (m : M S E A) : Prop := ∀ σ a σ', m σ = (Ok a, σ') → P a.

Section yields.
Context {S E : Type}.

Lemma yields_ret {A} (P : A → Prop) (a : A) : P a → yields (S:=S) (E:=E) P (mret a).
Proof. by intros ? σ a' σ' [= <- <-]. Qed.
Lemma yields_throw {A} (P : A → Prop) (e : E) : yields (S:=S) P (throw e).
Proof. by intros σ a σ'. Qed.
Lemma yields_liftR {A} (P : A → Prop) (r : Result E A) : (∀ a, r = Ok a → P a) → yields (S:=S) P (liftR r).
Proof. intros HP σ a σ' [= -> <-]. auto. Qed.
Lemma yields_bind {A B} (P : B → Prop) (m : M S E A) (f : A → M S E B) : (∀ a, yields P (f a)) → yields P (m ≫= f).
Proof. intros Hf σ b σ' (a&σ1&_&Hb)%mbind_Ok_inv. by eapply Hf. Qed.
Lemma yields_bind' {A B} (Q : A → Prop) (P : B → Prop) (m : M S E A) (f : A → M S E B) :
  yields Q m → (∀ a, Q a → yields P (f a)) → yields P (m ≫= f).
Proof. intros Hm Hf σ b σ' (a&σ1&Ha&Hb)%mbind_Ok_inv. eapply Hf; [by eapply Hm|exact Hb]. Qed.
End yields.

Section sql.
Context `{Blake3} `{Ed25519} `{WalExt} `{PageExt} `{LedgerCodecs} `{LedgerExt} `{SqlExt}.

(** ** Scans *)

Lemma ledger_quiet {A} (m : M LedgerStore LedgerError A) W s a :
  m (W, s) = (Ok a, (W, s)) → ledger m (W, s) = (Ok a, (W, s)).
Proof. unfold ledger, map_err. by intros ->. Qed.

Lemma entries_scan_quiet W s es lim :
  w_io W = [] → db_repr (db_tables (ls_db s)) es → 0 ≤ lim < 2 ^ 63 →
  entries_scan lim (W, s) = (Ok (take (Z.to_nat lim) es), (W, s)).
Proof.
  intros Hio Hr Hl. unfold entries_scan. erewrite mbind_eq.
  2:{ apply db_try_quiet. unfold scan. rewrite (mbind_eq _ _ _ _ _ (query_quiet W Hio _ _)). unfold liftR.
      assert (Hrows : omap (λ k, r ← t_entries (db_tables (ls_db s)) !! k;
        if (as_i64 0 <? k) && true && true then Some r else None) (sorted_keys (t_entries (db_tables (ls_db s)))) =
        rows (db_tables (ls_db s))).
      { unfold rows, sorted_values. apply list_omap_ext, Forall_Forall2_diag, Forall_forall. intros k Hk.
        destruct Hr as (Hkeys&_&Hok). rewrite Hkeys in Hk. apply list_elem_of_fmap in Hk as (e&->&He).
        rewrite Forall_forall in Hok. destruct (Hok e He). change (as_i64 0) with 0.
        destruct (t_entries _ !! e_sequence e); [|done]. cbn. by rewrite (proj2 (Z.ltb_lt 0 (e_sequence e))). }
      rewrite Hrows. unfold limit. rewrite as_i64_small by lia. destruct (Z.ltb_spec lim 0); [lia|].
      rewrite (decode_rows_repr (take (Z.to_nat lim) es)); [done|]. apply Forall2_take, rows_repr, Hr. }
  cbn. by destruct s.
Qed.

Lemma matched_all_quiet W s es filter :
  w_io W = [] → db_repr (db_tables (ls_db s)) es →
  match filter with None | Some (ByDrCr _) | Some (ByValueIn _ _) | Some (ByAccountId _)
    | Some (ByAccountCode _) | Some (ByAccountName _) => True | _ => False end →
  ∃ cap, ledger (matched_entries filter) (W, s) = (Ok (take 10000 es, cap), (W, s)).
Proof.
  intros Hio Hr Hf. eexists. apply ledger_quiet.
  assert (Hs : entries_scan DEFAULT_SCAN_LIMIT (W, s) = (Ok (take 10000 es), (W, s))).
  { apply entries_scan_quiet; [done..|]. unfold DEFAULT_SCAN_LIMIT. lia. }
  destruct filter as [[]|]; try done; unfold matched_entries; by rewrite (mbind_eq _ _ _ _ _ Hs).
Qed.

(** ** GROUP BY *)

(** The rows of a group, in the order of the input. *)
Lemma groups_of_lookup gb input k :
  groups_of gb input !! k =
  match filter (λ row, group_key gb (qr_columns input) row = k) (qr_rows input) with [] => None | rs => Some rs end.
Proof.
  unfold groups_of. set (key := group_key gb (qr_columns input)).
  induction (qr_rows input) as [|row rows IH] using rev_ind; [done|].
  rewrite foldl_snoc, filter_app. set (g := foldl _ _ rows) in *. cbn zeta.
  destruct (decide (key row = k)) as [<-|Hne].
  - rewrite lookup_insert_eq, IH, filter_cons_True, filter_nil by done.
    by destruct (filter _ rows).
  - rewrite lookup_insert_ne, IH, filter_cons_False, filter_nil, app_nil_r by done. done.
Qed.

Definition group_row (gb : list string) (aggs : list AggExpr) (input : QueryResult) (key : list string) : Row :=
  mkRow (gb ++ map agg_alias aggs)
    ((match gb with [] => [] | _ => map VText key end) ++
     map (λ a, compute_aggregate (agg_func a) (position (agg_column a) (qr_columns input))
       (filter (λ row, group_key gb (qr_columns input) row = key) (qr_rows input))) aggs).

Lemma group_key_length gb cols row : gb ≠ [] → length (group_key gb cols row) = length gb.
Proof. destruct gb; [done|]. intros _. cbn. by rewrite length_map. Qed.

(** [GROUP BY] partitions the input exactly: the result has one row for
    each distinct key of the input, and every aggregate in it is computed over
    exactly the input rows with that key, in their order; it never panics. *)
Theorem group_by_exact gb aggs input :
  ∃ keys msg, aggregate_results gb aggs input =
      Ok (qr_of_rows (gb ++ map agg_alias aggs) (map (group_row gb aggs input) keys) msg) ∧
    NoDup keys ∧ ∀ k, k ∈ keys ↔ ∃ row, row ∈ qr_rows input ∧ group_key gb (qr_columns input) row = k.
Proof.
  set (keys := merge_sort keys_le (map fst (map_to_list (groups_of gb input)))).
  assert (Hin : ∀ k, k ∈ keys ↔ is_Some (groups_of gb input !! k)).
  { intros k. unfold keys. rewrite merge_sort_Permutation. rewrite list_elem_of_fmap. split.
    - intros ([k' rs]&->&Hk%elem_of_map_to_list). by eexists.
    - intros [rs Hrs]. exists (k, rs). split; [done|]. by apply elem_of_map_to_list. }
  assert (Hkey : ∀ k, k ∈ keys ↔ ∃ row, row ∈ qr_rows input ∧ group_key gb (qr_columns input) row = k).
  { intros k. rewrite Hin, groups_of_lookup. split.
    - destruct (filter _ _) as [|row rs] eqn:Hf; [by intros [? [=]]|]. intros _. exists row.
      assert (row ∈ row :: rs) as Hrow by set_solver. rewrite <- Hf in Hrow.
      apply list_elem_of_filter in Hrow as [? ?]. done.
    - intros (row&Hrow&Hk). destruct (filter _ _) as [|row' rs] eqn:Hf; [|by eexists].
      assert (row ∈ filter (λ row, group_key gb (qr_columns input) row = k) (qr_rows input)) as Hx
        by (by apply list_elem_of_filter). rewrite Hf in Hx. set_solver. }
  exists keys. eexists. split_and!; [|unfold keys; rewrite merge_sort_Permutation; apply NoDup_fst_map_to_list|done].
  unfold aggregate_results. fold keys.
  assert (Hrows : collect (map (aggregate_row gb aggs (qr_columns input) (gb ++ map agg_alias aggs) (groups_of gb input)) keys)
    = Ok (map (group_row gb aggs input) keys)); [|by rewrite Hrows].
  apply collect_Ok, Forall2_fmap_l, Forall2_fmap_r, Forall_Forall2_diag, Forall_forall. intros k Hk.
  unfold compose, aggregate_row, Row_new. apply Hkey in Hk as (row&Hrow&Hk). rewrite groups_of_lookup.
  rewrite (proj2 (Nat.eqb_eq _ _)).
  - unfold group_row. by destruct (filter _ (qr_rows input)).
  - rewrite !length_app, !length_map. f_equal. destruct gb as [|g gb]; [done|].
    by rewrite length_map, <- Hk, group_key_length.
Qed.

(** ** Counting *)

Lemma collect_total {A E} (f : A → Result E Row) (g : A → Row) xs :
  (∀ x, f x = Ok (g x)) → collect (map f xs) = Ok (map g xs).
Proof. intros Hf. induction xs as [|x xs IH]; [done|]. cbn. rewrite Hf. cbn. by rewrite IH. Qed.

Lemma scan_result_eq proofs matched cap sign :
  ∃ msg, build_scan_entries_result proofs matched cap sign = Ok
    (let result := qr_of_rows ENTRY_COLUMNS (map (λ e, mkRow ENTRY_COLUMNS (entry_values e)) matched) msg in
     if proofs && negb (bool_decide (map e_content_hash matched = [])) then
       with_proof (build_merkle_proof (map e_content_hash matched) (seq 0 (length (map e_content_hash matched))) sign) result
     else result).
Proof.
  unfold build_scan_entries_result. eexists.
  by rewrite (collect_total _ (λ e, mkRow ENTRY_COLUMNS (entry_values e))) by done.
Qed.

(** [SELECT COUNT( * ) FROM ledger] counts at most ten thousand entries:
    the scan under an aggregate is cut at the default limit, and the notice
    that says so is dropped with the scan's message. *)
Theorem count_star_capped proofs W s es alias :
  w_io W = [] → db_repr (db_tables (ls_db s)) es → es ≠ [] →
  ∃ r, read_execute proofs (Aggregate (ScanEntries None []) [] [mkAggExpr AggCount "*" alias]) (W, s) = (Ok r, (W, s)) ∧
    qr_rows r = [mkRow [alias] [VBigInt (Z.min 10000 (Z.of_nat (length es)))]].
Proof.
  intros Hio Hr Hne. destruct (matched_all_quiet W s es None Hio Hr I) as [cap Hm].
  destruct (scan_result_eq proofs (take 10000 es) cap (sign_bytes (ls_tx s))) as [msg Hb].
  set (scanned := if _ && _ then _ else _) in Hb.
  assert (Hrows : qr_rows scanned = map (λ e, mkRow ENTRY_COLUMNS (entry_values e)) (take 10000 es)) by (unfold scanned; by destruct (_ && _)).
  clearbody scanned.
  assert (Hi : read_execute proofs (ScanEntries None []) (W, s) = (Ok scanned, (W, s))).
  { cbn [read_execute]. erewrite mbind_eq; [done|]. unfold exec_scan_entries. erewrite mbind_eq by exact Hm.
    erewrite mbind_eq by done. unfold liftR. cbn [fst snd]. by rewrite Hb. }
  destruct es as [|e es]; [done|].
  assert (Hg : groups_of [] scanned = {[ ["__all__"] := qr_rows scanned ]}).
  { apply map_eq. intros k. rewrite groups_of_lookup. destruct (decide (k = ["__all__"])) as [->|Hk].
    - rewrite lookup_singleton_eq, filter_all; [by rewrite Hrows|]. by apply Forall_forall.
    - rewrite lookup_singleton_ne by congruence. rewrite filter_none; [done|]. apply Forall_forall. intros row _ Heq. by apply Hk. }
  eexists. split.
  - cbn [read_execute] in *. erewrite mbind_eq by exact Hi. unfold aggregate_results, liftR.
    rewrite Hg, map_to_list_singleton. cbn [map fst merge_sort]. done.
  - cbn [qr_rows qr_of_rows]. rewrite lookup_singleton_eq. cbn [default from_option id]. do 2 f_equal.
    cbn [app map agg_func compute_aggregate]. rewrite Hrows, length_map, length_take, Nat2Z.inj_min. done.
Qed.

(** ** Joining lines and accounts *)

Lemma scan_lines_eq matched f cap :
  ∃ msg, build_scan_ledger_lines_result matched f cap = Ok (qr_of_rows LINE_COLUMNS
    (map (λ el, mkRow LINE_COLUMNS (line_values el.1 el.2))
       (concat (map (λ e, map (pair e) (List.filter (line_selected f) (e_lines e))) matched))) msg).
Proof.
  unfold build_scan_ledger_lines_result. eexists.
  by rewrite (collect_total _ (λ el, mkRow LINE_COLUMNS (line_values el.1 el.2))) by done.
Qed.

Definition account_row (s : LedgerStore) (a : Account) : Row := mkRow ACCOUNT_COLUMNS (account_values s a).

Lemma scan_accounts_eq W s f :
  ∃ msg, exec_scan_accounts f (W, s) =
    (Ok (qr_of_rows ACCOUNT_COLUMNS (map (account_row s) (List.filter (account_selected f) (all_accounts s))) msg), (W, s)).
Proof.
  unfold exec_scan_accounts. eexists. erewrite mbind_eq by done. cbn [snd id].
  erewrite mbind_eq; [done|]. unfold liftR. by rewrite (collect_total _ (account_row s)) by done.
Qed.

Lemma join_key_line e l : join_key (mkRow LINE_COLUMNS (line_values e l)) = uuid_string (ln_account_id l).
Proof.
  unfold join_key, row_get. cbn [row_columns row_values].
  assert (Hx : position "account_id" LINE_COLUMNS = Some 5%nat) by (by vm_compute). by rewrite Hx.
Qed.

(** The index of the right side has a row for every account. *)
Lemma right_map_accounts s accts a msg :
  a ∈ accts →
  ∃ a', a' ∈ accts ∧ right_map (qr_of_rows ACCOUNT_COLUMNS (map (account_row s) accts) msg) !! uuid_string (acc_id a) =
    Some (account_row s a').
Proof.
  intros Ha. unfold right_map. cbn [qr_rows qr_of_rows qr_columns].
  change (right_key_col ACCOUNT_COLUMNS) with 0%nat.
  induction accts as [|x accts IH] using rev_ind; [set_solver|].
  rewrite map_app, foldl_app. cbn. destruct (decide (uuid_string (acc_id x) = uuid_string (acc_id a))) as [He|He].
  - exists x. rewrite He, lookup_insert_eq. set_solver.
  - rewrite lookup_insert_ne by done. destruct IH as (a'&?&?).
    + apply elem_of_app in Ha as [?| ->%list_elem_of_singleton]; [done|]. by destruct He.
    + exists a'. set_solver.
Qed.

Lemma elem_of_all_accounts s id a : ls_accounts s !! id = Some a → a ∈ all_accounts s.
Proof.
  intros Ha. unfold all_accounts. rewrite hash_order_perm. apply list_elem_of_fmap. exists (id, a).
  split; [done|]. by apply elem_of_map_to_list.
Qed.

(** Joining the ledger's lines with the accounts panics: as soon as the
    first line returned belongs to an existing account, the row the join builds
    has more values (11 + 8) than column names (11 + 5, because the columns of
    the accounts table that the lines also have are skipped), and the assertion
    in [Row::new] fails. *)
Theorem join_lines_accounts_panics proofs jt on ps W s e es l ls :
  w_io W = [] → ledger_inv s (e :: es) → e_lines e = l :: ls →
  read_execute proofs (Join (ScanLedgerLines None []) (ScanAccounts None []) jt on ps) (W, s) = (Err SqlPanic, (W, s)).
Proof.
  intros Hio Hi Hl. destruct (matched_all_quiet W s (e :: es) None Hio (inv_db _ _ Hi) I) as [cap Hm].
  destruct (scan_lines_eq (take 10000 (e :: es)) None cap) as [msg1 H1'].
  destruct (scan_accounts_eq W s None) as [msg2 H2'].
  cbn [read_execute]. erewrite mbind_eq.
  2:{ erewrite mbind_eq; [done|]. unfold exec_scan_ledger_lines. erewrite mbind_eq by exact Hm.
      unfold liftR. cbn [fst snd]. by rewrite H1'. }
  erewrite mbind_eq by (erewrite mbind_eq by exact H2'; done).
  unfold liftR. f_equal. unfold join_results. cbn [qr_columns qr_of_rows qr_rows].
  destruct (take 10000 (e :: es)) as [|e' es'] eqn:Ht; [done|]. injection Ht as <- _.
  cbn [map concat]. rewrite Hl. cbn [List.filter line_selected map app fst snd].
  set (rows := map _ (_ ++ concat _)). clearbody rows. cbn [collect map].
  pose proof (inv_entries _ _ Hi) as Hok. apply Forall_cons in Hok as [[_ Hok] _]. rewrite Hl in Hok.
  apply Forall_cons in Hok as [[a Ha] _].
  assert (Hall : a ∈ List.filter (account_selected None) (all_accounts s)).
  { apply list_elem_of_In, filter_In. split; [|done]. apply list_elem_of_In. by eapply elem_of_all_accounts. }
  destruct (right_map_accounts s _ a msg2 Hall) as (a'&_&Hrm). rewrite (inv_accounts _ _ Hi _ _ Ha) in Hrm.
  set (rm := right_map _) in *.
  assert (Hrow : join_row jt (join_columns LINE_COLUMNS ACCOUNT_COLUMNS) ACCOUNT_COLUMNS rm
    (mkRow LINE_COLUMNS (line_values e l)) = Err SqlPanic); [|by rewrite Hrow].
  assert (Hc : length (join_columns LINE_COLUMNS ACCOUNT_COLUMNS) = 16%nat) by (by vm_compute).
  unfold join_row, Row_new. by rewrite join_key_line, Hrm, Hc.
Qed.

(** ** Proofs attached to a scan *)

Lemma seq_leaf_proofs leaves :
  ∃ lps, omap (leaf_proof leaves) (seq 0 (length leaves)) = lps ∧ length lps = length leaves ∧
    ∀ i d, leaves !! i = Some d → ∃ lp, lps !! i = Some lp ∧ lp_leaf_hash lp = hash_leaf d ∧
      MerkleProof_verify (mkProof (lp_leaf_index lp) (lp_leaf_hash lp) (lp_path lp) (merkle_root leaves)) = Ok tt.
Proof.
  assert (Hp : ∀ i, (i < length leaves)%nat → ∃ lp, leaf_proof leaves i = Some lp ∧
    lp_leaf_hash lp = hash_leaf (leaves !!! i) ∧
    MerkleProof_verify (mkProof (lp_leaf_index lp) (lp_leaf_hash lp) (lp_path lp) (merkle_root leaves)) = Ok tt).
  { intros i Hi. destruct (merkle_proof_ok leaves i Hi) as (p&Hp&Hr&Hh&Hv). unfold leaf_proof.
    destruct (Nat.leb_spec (length leaves) i); [lia|]. rewrite Hp. eexists. split; [done|]. split; [done|].
    cbn. rewrite <- Hr. by destruct p. }
  assert (Hlps : ∃ lps, Forall2 (λ i lp, leaf_proof leaves i = Some lp) (seq 0 (length leaves)) lps).
  { assert (Hall : Forall (λ i, (i < length leaves)%nat) (seq 0 (length leaves))).
    { apply Forall_forall. intros i Hi%elem_of_seq. lia. }
    induction Hall as [|i is_ Hi _ [lps IH]]; [by exists []|]. destruct (Hp i Hi) as (lp&?&_). exists (lp :: lps). by constructor. }
  destruct Hlps as [lps Hlps]. exists lps. split_and!.
  - induction Hlps as [|i lp is_ lps Hi _ IH]; [done|]. cbn. by rewrite Hi, IH.
  - by rewrite <- (Forall2_length _ _ _ Hlps), length_seq.
  - intros i d Hd. assert (i < length leaves)%nat as Hi by (by eapply lookup_lt_Some).
    destruct (Forall2_lookup_l _ _ _ i i Hlps) as (lp&Hlp&Hl); [apply lookup_seq; lia|].
    destruct (Hp i Hi) as (lp'&Hl'&Hh&Hv). simplify_eq. exists lp. split; [done|]. split; [|done].
    by rewrite Hh, (list_lookup_total_correct _ _ _ Hd).
Qed.

(** C17: a scan of the ledger with proofs is verifiable by the client.  Its rows
    are, in order, the entries that the lookup for the condition returns (all of
    them up to ten thousand when there is no condition and SQLite does not fail);
    when there are any, one Merkle proof per row is attached, the proof of each
    row starts at the leaf hash of that entry's content hash and leads to the
    attached root, and when a signing key is configured the root carries a
    signature that verifies under the database's public key, which is attached
    too. *)
Theorem scan_proofs_verify f W s r W' s' :
  read_execute true (ScanEntries f []) (W, s) = (Ok r, (W', s')) →
  ∃ matched cap, ledger (matched_entries f) (W, s) = (Ok (matched, cap), (W', s')) ∧
    (f = None → w_io W = [] → ∀ es, db_repr (db_tables (ls_db s)) es → matched = take 10000 es) ∧
    qr_rows r = map (λ e, mkRow ENTRY_COLUMNS (entry_values e)) matched ∧
    (matched ≠ [] → ∃ p, qr_proof r = Some p ∧ length (qp_leaf_proofs p) = length (qr_rows r) ∧
      (∀ i e, matched !! i = Some e → ∃ lp, qp_leaf_proofs p !! i = Some lp ∧
        lp_leaf_hash lp = hash_leaf (e_content_hash e) ∧
        MerkleProof_verify (mkProof (lp_leaf_index lp) (lp_leaf_hash lp) (lp_path lp) (qp_root p)) = Ok tt) ∧
      (∀ sk, tm_signing_key (ls_tx s') = Some sk →
        ∃ sig, qp_root_signature p = Some sig ∧ qp_signing_public_key p = Some (ed_public sk) ∧
          ed_verify (ed_public sk) (qp_root p) sig = true)).
Proof.
  cbn [read_execute]. intros (r0&[W0 s0]&Hs&[= <- <- <-])%mbind_Ok_inv.
  unfold exec_scan_entries in Hs. apply mbind_Ok_inv in Hs as ([matched cap]&[W1 s1]&Hm0&Hs).
  apply mbind_Ok_inv in Hs as (sign&σ1&[= <- <-]&Hs). unfold liftR in Hs. injection Hs as Hs <- <-. cbn [fst snd] in Hs.
  destruct (scan_result_eq true matched cap (sign_bytes (ls_tx s1))) as [msg Hb]. rewrite Hs in Hb.
  apply Ok_inj in Hb. subst r0. exists matched, cap. split; [exact Hm0|]. split.
  { intros -> Hio es Hr. destruct (matched_all_quiet W s es None Hio Hr I) as [cap' Hq]. rewrite Hq in Hm0. by injection Hm0. }
  cbn [andb].
  destruct (seq_leaf_proofs (map e_content_hash matched)) as (lps&Hlps&Hlen&Hlp). rewrite length_map in Hlen.
  case_bool_decide as Hm; cbn [negb].
  { split; [done|]. intros Hne. by destruct matched. }
  set (p := build_merkle_proof _ _ _). split; [done|]. intros _. exists p. split; [done|].
  assert (Hl : qp_leaf_proofs p = lps) by exact Hlps. rewrite Hl.
  change (qp_root p) with (merkle_root (map e_content_hash matched)). split_and!.
  - cbn [qr_rows with_proof qr_of_rows]. by rewrite length_map.
  - intros i e He. apply (Hlp i (e_content_hash e)).
    change (map e_content_hash matched) with (e_content_hash <$> matched). by rewrite list_lookup_fmap, He.
  - intros sk Hsk. assert (Hsign : sign_bytes (ls_tx s1) (merkle_root (map e_content_hash matched)) =
      Some (ed_sign sk (merkle_root (map e_content_hash matched)), ed_public sk)).
    { unfold sign_bytes. by rewrite Hsk. }
    unfold p, build_merkle_proof. cbn [qp_root_signature qp_signing_public_key snd]. rewrite Hsign.
    eexists. split; [done|]. split; [done|]. apply ed_correct.
Qed.

(** ** Balances and postings *)

Lemma resolve_account_Ok s ref id :
  (∀ i a, ls_accounts s !! i = Some a → acc_id a = i) → resolve_account ref s = Ok id →
  ∃ a, ls_accounts s !! id = Some a ∧ (uuid_parse ref = Some id ∨ acc_code a = ref).
Proof.
  intros Hids. unfold resolve_account.
  assert (Hcode : match list_find (λ a, acc_code a = ref) (all_accounts s) with
    | Some (_, a) => Ok (acc_id a) | None => Err (SqlExecution ("account '" +:+ ref +:+ "' not found")) end = Ok id →
    ∃ a, ls_accounts s !! id = Some a ∧ (uuid_parse ref = Some id ∨ acc_code a = ref)).
  { destruct (list_find _ _) as [[i a]|] eqn:Hf; [|done]. intros [= <-].
    apply list_find_Some in Hf as (Hi&Hc&_). apply list_elem_of_lookup_2 in Hi.
    unfold all_accounts in Hi. rewrite hash_order_perm in Hi. apply list_elem_of_fmap in Hi as ([k a']&->&Hk).
    apply elem_of_map_to_list in Hk. cbn in *. exists a'. by rewrite (Hids _ _ Hk), Hk; auto. }
  destruct (uuid_parse ref) as [u|] eqn:Hu; [|done]. case_bool_decide as Hx; [|done].
  intros [= ->]. destruct Hx as [a Ha]. exists a. auto.
Qed.

(** [SELECT BALANCE('ref')] reports the balance the journal gives the
    account: the sum of the effects of all its entries; the reference is
    resolved to an existing account by identifier or by code, and the query
    changes nothing. *)
Theorem balance_query_exact proofs ref W s es r W' s' :
  ledger_inv s es → read_execute proofs (GetBalance ref) (W, s) = (Ok r, (W', s')) →
  W' = W ∧ s' = s ∧
  ∃ id a, ls_accounts s !! id = Some a ∧ (uuid_parse ref = Some id ∨ acc_code a = ref) ∧
    qr_rows r = [mkRow ["account"; "balance"] [VText ref; VBigInt (sum_effects (ls_accounts s) id es)]].
Proof.
  intros Hi He. cbn [read_execute] in He. unfold exec_get_balance in He.
  apply mbind_Ok_inv in He as (s0&σ&[= <- <-]&He). cbn [snd id] in He.
  apply mbind_Ok_inv in He as (id&σ&[= Hres <-]&[= <- <- <-]).
  destruct (resolve_account_Ok s ref id (inv_accounts _ _ Hi) Hres) as (a&Ha&Hc).
  do 2 (split; [done|]). exists id, a. split_and!; [done|done|]. by rewrite <- (inv_balance _ _ Hi).
Qed.

(** The entry built from an [INSERT]. *)
Lemma build_entry_run spec d c amt W s :
  ∃ e W', build_entry spec d c amt (W, s) = (Ok e, (W', s)) ∧
    e_status e = Posted ∧ e_idempotency_key e = es_idempotency_key spec ∧
    ∃ i j, e_lines e = [mkLine i d (to_uppercase (es_currency spec)) amt Debit None;
                        mkLine j c (to_uppercase (es_currency spec)) amt Credit None].
Proof.
  destruct spec as [desc da ca am cur er ik dom].
  destruct W as [ck rg io']. unfold build_entry.
  do 3 (erewrite mbind_eq by reflexivity).
  destruct er, ik; eexists _, _; (split; [cbn; reflexivity|]); do 2 (split; [done|]); by eexists _, _.
Qed.

(** What an entry of two lines does to an account. *)
Definition transfer_effect (accounts : gmap Z Account) (d c amt id : Z) : Z :=
  match accounts !! id with
  | None => 0
  | Some a => cache_sign (account_type a) * ((if bool_decide (d = id) then amt else 0) - (if bool_decide (c = id) then amt else 0))
  end.

(** A successful [INSERT INTO ledger] without an idempotency key posts one
    double-entry transfer: the debit and the credit account are resolved by
    identifier or code, the amount is not zero, the entry gets the next
    sequence number, which the result reports, and every account's balance
    moves by exactly the transfer. *)
Theorem insert_posts_transfer proofs spec W s r W' s' :
  (∀ i a, ls_accounts s !! i = Some a → acc_id a = i) → es_idempotency_key spec = None →
  execute proofs (PostEntry spec) (W, s) = (Ok r, (W', s')) →
  ∃ d c, resolve_account (es_debit_account spec) s = Ok d ∧ resolve_account (es_credit_account spec) s = Ok c ∧
    is_Some (ls_accounts s !! d) ∧ is_Some (ls_accounts s !! c) ∧ es_amount spec ≠ 0 ∧
    qr_entry_sequence r = Some (ls_next_sequence s) ∧ ls_next_sequence s' = wadd_u64 (ls_next_sequence s) 1 ∧
    ls_accounts s' = ls_accounts s ∧
    ∀ id, balance id s' = balance id s + transfer_effect (ls_accounts s) d c (es_amount spec) id.
Proof.
  intros Hids Hkey He. cbn [execute] in He. unfold exec_post_entry in He.
  apply mbind_Ok_inv in He as (s0&σ&[= <- <-]&He). cbn [snd id] in He.
  apply mbind_Ok_inv in He as (d&σ&[= Hd <-]&He). apply mbind_Ok_inv in He as (c&σ&[= Hc <-]&He).
  apply mbind_Ok_inv in He as (amt&σ&[= Hamt <-]&He).
  destruct (build_entry_run spec d c amt W s) as (e&W1&Hb&Hst&Hk&i&j&Hls).
  rewrite (mbind_eq _ _ _ _ _ Hb) in He.
  apply mbind_Ok_inv in He as (sq&[W2 s2]&Hp&He). unfold ledger, map_err in Hp.
  destruct (post_entry e (W1, s)) as [[sq'|] [W3 s3]] eqn:Hpost; [|done]. injection Hp as <- <- <-.
  apply mbind_Ok_inv in He as (o&[W4 s4]&Hg&He).
  assert (s4 = s3) as ->.
  { unfold ledger, map_err, get_entry_by_sequence in Hg.
    destruct ((r0 ← db_try (get_by_sequence sq'); mret (res_unwrap_or None r0)) (W3, s3)) as [r1 [W5 s5]] eqn:Hr.
    injection Hg as _ _ <-. apply mbind_inv in Hr as [(x&[W6 s6]&Hx&[= _ _ <-])|(x&Hx&_)];
      by eapply db_try_reads in Hx; [|apply get_by_sequence_reads]. }
  destruct (post_entry_Ok _ _ _ _ _ _ Hpost) as [[_ [k Hk']]|(_&_&_&->&_&e'&Happ&Hl'&Hst'&_)]; [congruence|].
  destruct Happ as (_&_&_&Hnext&Hacc&_&_&_&_&_&Hbal).
  destruct (resolve_account_Ok s _ d Hids Hd) as (ad&Had&_). destruct (resolve_account_Ok s _ c Hids Hc) as (ac&Hac&_).
  exists d, c. unfold Amount_new in Hamt. destruct (Z.eqb_spec (es_amount spec) 0) as [|Hnz]; [done|].
  cbn in Hamt. injection Hamt as <-.
  destruct (match o with Some e0 => _ | None => _ end) as [[id0 dom0] am0].
  apply mbind_Ok_inv in He as (qr&[W5 s5]&Hq&[= <- <- <-]). unfold liftR in Hq. injection Hq as _ _ <-.
  split_and!; try done; [by eexists..|]. intros id. rewrite Hbal. f_equal.
  unfold entry_effect, effect, transfer_effect. rewrite Hst', Hst, Hl', Hls. cbn [affects_balance].
  destruct (ls_accounts s !! id); [|done]. f_equal. cbn [sumZ]. unfold on, net_debit_of. cbn.
  repeat case_decide; repeat case_bool_decide; lia.
Qed.
End sql.
