(* ===== verification/SqlPlan.v ===== *)
(** * vledger-sql: the planner

    Models [crates/vledger-sql/src/planner.rs].  Statements are syntax trees of
    the [sqlparser] crate; the types below are the part of them the planner
    looks at, with a constructor for everything else.  How [sqlparser] prints
    an expression or a value is a parameter.  Letter case is ASCII. *)

From stdpp Require Import base gmap list strings option fin_maps.
From Stdlib Require Import ZArith Lia Strings.Ascii.
From S2P Require Import Prelude Bytes Crypto Merkle Money Entry WalRecord Wal Recovery Tx Page EntryDb Sql Store.

#[local] Open Scope string_scope.
#[local] Open Scope Z_scope.
#[local] Open Scope list_scope.

(** ** Syntax trees *)

Inductive SqlValue :=
  | Number (n : string)
  | SingleQuotedString (s : string)
  | Boolean (b : bool)
  | Null
  | OtherValue (display : string).

Inductive Expr :=
  | Identifier (i : string)
  | CompoundIdentifier (parts : list string)
  | ExprValue (v : SqlValue)
  | ExprFunction (f : SqlFunction)
  | InList (e : Expr) (l : list Expr) (negated : bool)
  | Like (e pattern : Expr) (negated : bool)     (* [Like] and [ILike] *)
  | BinaryEq (left right : Expr)
  | OtherExpr (display : string)
with SqlFunction := mkFunction (name : string) (args : FunctionArguments) (over : option WindowType)
with FunctionArguments := NoArgs | ArgList (args : list FunctionArg) | SubqueryArgs
with FunctionArg := ArgExpr (e : Expr) | ArgWildcard | OtherArg
with WindowType := WindowSpecOver (partition_by order_by : list Expr) | NamedWindow.

Definition fn_name (f : SqlFunction) := let 'mkFunction n _ _ := f in n.
Definition fn_args (f : SqlFunction) := let 'mkFunction _ a _ := f in a.
Definition fn_over (f : SqlFunction) := let 'mkFunction _ _ o := f in o.

Inductive SelectItem :=
  | UnnamedExpr (e : Expr)
  | ExprWithAlias (e : Expr) (alias : string)
  | Wildcard
  | OtherItem.

Inductive TableFactor := Table (name : string) | OtherTable.

Record JoinClause := mkJoinClause { jc_relation : TableFactor; jc_left_outer : bool; jc_debug : string }.

Inductive GroupByExpr := GroupByExprs (es : list Expr) | GroupByOther.

Record Select := mkSelect {
  sel_projection : list SelectItem;
  sel_from : list (TableFactor * list JoinClause);
  sel_selection : option Expr;
  sel_group_by : GroupByExpr
}.

Inductive SetExpr := SetSelect (s : Select) | SetValues (rows : list (list Expr)) | SetOther.

Record Query := mkQuery { q_body : SetExpr; q_limit : option Expr }.

Record Insert := mkInsert { ins_table : string; ins_columns : list string; ins_source : option Query }.

Inductive Statement :=
  | StQuery (q : Query)
  | StInsert (i : Insert)
  | StCreateTable (name : string)
  | StOther.

(** ** Text *)

Definition digit (c : Ascii.ascii) : option Z :=
  let n := Z.of_N (Ascii.N_of_ascii c) in if (48 <=? n) && (n <=? 57) then Some (n - 48) else None.

Fixpoint digits (acc : Z) (s : string) : option Z :=
  match s with
  | EmptyString => Some acc
  | String c s => d ← digit c; digits (10 * acc + d) s
  end.

(** [str::parse] at an integer type: an optional sign, at least one digit, no
    overflow. *)
Definition unsigned (s : string) : option Z :=
  match s with EmptyString => None | _ => digits 0 s end.
Definition strip_plus (s : string) : string :=
  match s with String c r => if bool_decide (c = "+"%char) then r else s | _ => s end.
Definition parse_u64 (s : string) : option Z :=
  n ← unsigned (strip_plus s); if n <? 2 ^ 64 then Some n else None.
Definition parse_i64 (s : string) : option Z :=
  match s with
  | String c r =>
      if bool_decide (c = "-"%char) then n ← unsigned r; checked_i64 (- n)
      else n ← unsigned (strip_plus s); checked_i64 n
  | EmptyString => None
  end.

(** [trim_matches('%')] *)
Fixpoint trim_start_percent (s : string) : string :=
  match s with String c r => if bool_decide (c = "%"%char) then trim_start_percent r else s | _ => s end.
Fixpoint trim_end_percent (s : string) : string :=
  match s with
  | EmptyString => EmptyString
  | String c r =>
      match trim_end_percent r with
      | EmptyString => if bool_decide (c = "%"%char) then EmptyString else String c EmptyString
      | r' => String c r'
      end
  end.
Definition trim_percent (s : string) : string := trim_end_percent (trim_start_percent s).

Definition LEDGER : string := "ledger".
Definition LEDGER_LINES : string := "ledger_lines".
Definition ACCOUNTS : string := "accounts".

Section planner.
Context (expr_display : Expr → string) (value_display : SqlValue → string).

Notation R := (Result SqlError).

Definition extract_table_name (tf : TableFactor) : R string :=
  match tf with Table name => Ok (to_lowercase name) | OtherTable => Err SqlUnsupported end.

Definition bool_text (b : bool) : string := if b then "true" else "false".

Definition expr_to_string (e : Expr) : R string :=
  match e with
  | ExprValue (SingleQuotedString s) => Ok s
  | ExprValue (Number n) => Ok n
  | ExprValue (Boolean b) => Ok (bool_text b)
  | ExprValue Null => Ok ""
  | Identifier i => Ok i
  | _ => Err SqlTypeError
  end.

Definition expr_to_col_name (e : Expr) : string :=
  match e with
  | Identifier i => i
  | CompoundIdentifier pts => default "" (last pts)
  | other => expr_display other
  end.

Definition extract_function_string_arg (args : FunctionArguments) (fname : string) : R string :=
  match args with
  | ArgList l =>
      match head l with
      | Some (ArgExpr e) => match expr_to_string e with Ok s => Ok s | Err _ => Err (SqlMissingField fname) end
      | _ => Err (SqlMissingField fname)
      end
  | _ => Err (SqlMissingField fname)
  end.

Definition parse_arg (l : list FunctionArg) (i : nat) : R (option Z) :=
  match l !! i with
  | None => Ok None
  | Some (ArgExpr e) => s ← expr_to_string e; n ← ok_or (parse_u64 s) SqlTypeError; Ok (Some n)
  | _ => Ok None
  end.

Definition extract_optional_u64_range (args : FunctionArguments) : R (option Z * option Z) :=
  match args with
  | ArgList l => a ← parse_arg l 0; b ← parse_arg l 1; Ok (a, b)
  | _ => Ok (None, None)
  end.

(** The column of a WHERE clause. *)
Definition where_column (e : Expr) : R string :=
  match e with
  | Identifier i => Ok (to_lowercase i)
  | CompoundIdentifier parts => Ok (default "" (to_lowercase <$> last parts))
  | _ => Err SqlUnsupported
  end.

Definition is_ledger_table (t : string) : bool := bool_decide (t = LEDGER) || bool_decide (t = LEDGER_LINES).

Definition parse_where_to_entry_filter (table : string) (e : Expr) : R EntryFilter :=
  match e with
  | InList col_expr l false =>
      col ← where_column col_expr;
      values ← collect (map expr_to_string l);
      if bool_decide (values = []) then Err SqlUnsupported
      else if bool_decide (col = "sequence") && is_ledger_table table then
        seqs ← collect (map (λ v, ok_or (parse_u64 v) SqlTypeError) values);
        Ok (BySequenceIn seqs)
      else Ok (ByValueIn col values)
  | InList _ _ true => Err SqlUnsupported
  | Like col_expr pattern false =>
      col ← where_column col_expr;
      if bool_decide (col = "metadata") && is_ledger_table table then
        raw ← expr_to_string pattern; Ok (ByMetadataSearch (trim_percent raw))
      else Err SqlUnsupported
  | BinaryEq lhs rhs =>
      col ← where_column lhs;
      val ← expr_to_string rhs;
      if is_ledger_table table && bool_decide (col = "sequence") then
        n ← ok_or (parse_u64 val) SqlTypeError; Ok (BySequence n)
      else if is_ledger_table table && bool_decide (col = "external_ref") then Ok (ByExternalRef val)
      else if is_ledger_table table && bool_decide (col = "domain") then Ok (ByDomain val)
      else if is_ledger_table table && bool_decide (col = "status") then Ok (ByStatus val)
      else if is_ledger_table table && bool_decide (col = "metadata") then Ok (ByMetadataSearch val)
      else if bool_decide (table = LEDGER_LINES) && bool_decide (col = "dr_cr") then Ok (ByDrCr val)
      else if bool_decide (table = ACCOUNTS) && bool_decide (col = "id") then Ok (ByAccountId val)
      else if bool_decide (table = ACCOUNTS) && bool_decide (col = "code") then Ok (ByAccountCode val)
      else if bool_decide (table = ACCOUNTS) && bool_decide (col = "name") then Ok (ByAccountName val)
      else if bool_decide (table = ACCOUNTS) && bool_decide (col = "domain") then Ok (ByDomain val)
      else if bool_decide (table = ACCOUNTS) && bool_decide (col = "currency") then
        Ok (ByDomain ("__account_currency:" +:+ val))
      else Err (SqlColumnNotFound col)
  | _ => Err SqlUnsupported
  end.

Definition scan_of (table : string) (filter : option EntryFilter) (projections : list string) : R LogicalPlan :=
  if bool_decide (table = LEDGER) then Ok (ScanEntries filter projections)
  else if bool_decide (table = LEDGER_LINES) then Ok (ScanLedgerLines filter projections)
  else if bool_decide (table = ACCOUNTS) then Ok (ScanAccounts filter projections)
  else Err (SqlUnknownTable table).

(** [n.parse::<usize>()] on a 64-bit target. *)
Definition parse_limit (n : string) : R Z := ok_or (parse_u64 n) SqlTypeError.

Definition base_scan (table : string) (selection limit : option Expr) : R LogicalPlan :=
  filter ← match selection, limit with
           | Some sel, _ => f ← parse_where_to_entry_filter table sel; Ok (Some f)
           | None, Some (ExprValue (Number n)) => n ← parse_limit n; Ok (Some (Limit n))
           | None, _ => Ok None
           end;
  scan_of table filter [].

Definition item_name (p : SelectItem) : string :=
  match p with
  | UnnamedExpr e => expr_to_col_name e
  | ExprWithAlias _ alias => alias
  | Wildcard | OtherItem => "*"
  end.

Definition parse_projections (items : list SelectItem) : list string :=
  if existsb (λ p, match p with Wildcard => true | _ => false end) items then []
  else List.filter (λ s, negb (bool_decide (s = "")) && negb (bool_decide (s = "*"))) (map item_name items).

Definition agg_of_name (fname : string) : option AggFn :=
  if bool_decide (fname = "SUM") then Some AggSum
  else if bool_decide (fname = "COUNT") then Some AggCount
  else if bool_decide (fname = "AVG") then Some AggAvg
  else if bool_decide (fname = "MIN") then Some AggMin
  else if bool_decide (fname = "MAX") then Some AggMax
  else None.

Definition agg_arg (args : FunctionArguments) : string :=
  match args with
  | ArgList l =>
      match head l with
      | Some (ArgExpr e) => expr_to_col_name e
      | _ => "*"
      end
  | _ => "*"
  end.

Definition aggregate_of_item (item : SelectItem) : option AggExpr :=
  '(e, alias) ← match item with
    | UnnamedExpr e => Some (e, None)
    | ExprWithAlias e alias => Some (e, Some alias)
    | _ => None
    end;
  match e with
  | ExprFunction f =>
      agg ← agg_of_name (to_uppercase (fn_name f));
      match fn_over f with
      | Some _ => None
      | None =>
          let col := agg_arg (fn_args f) in
          Some (mkAggExpr agg col (default (to_lowercase (agg_name agg +:+ "(" +:+ col +:+ ")")) alias))
      end
  | _ => None
  end.

Definition collect_aggregate_exprs (items : list SelectItem) : list AggExpr := omap aggregate_of_item items.

Definition extract_window_spec (f : SqlFunction) : option (list Expr * list Expr) :=
  match fn_over f with Some (WindowSpecOver p o) => Some (p, o) | _ => None end.

Definition window_of_name (fname : string) : R WindowFn :=
  if bool_decide (fname = "ROW_NUMBER") then Ok RowNumber
  else if bool_decide (fname = "RANK") then Ok Rank
  else if bool_decide (fname = "DENSE_RANK") then Ok DenseRank
  else if bool_decide (fname = "SUM") then Ok RunningSum
  else if bool_decide (fname = "AVG") then Ok RunningAvg
  else if bool_decide (fname = "LAG") then Ok Lag
  else if bool_decide (fname = "LEAD") then Ok Lead
  else Err SqlUnsupported.

Definition parse_window_fn (f : SqlFunction) : R (WindowFn * string) :=
  wfn ← window_of_name (to_uppercase (fn_name f));
  let col := match fn_args f with
             | ArgList l => match head l with Some (ArgExpr e) => expr_to_col_name e | _ => "amount" end
             | _ => "amount"
             end in
  Ok (wfn, col).

(** *** SELECT *)

(** The special functions of a query without FROM. *)
Definition plan_function (f : SqlFunction) : R (option LogicalPlan) :=
  let fname := to_uppercase (fn_name f) in
  if bool_decide (fname = "BALANCE") then
    arg ← extract_function_string_arg (fn_args f) "BALANCE"; Ok (Some (GetBalance arg))
  else if bool_decide (fname = "VERIFY_CHAIN") then
    '(a, b) ← extract_optional_u64_range (fn_args f); Ok (Some (VerifyChain a b))
  else if bool_decide (fname = "VERIFY_ENTRY") then
    '(a, _) ← extract_optional_u64_range (fn_args f);
    n ← ok_or a (SqlMissingField "VERIFY_ENTRY"); Ok (Some (VerifyEntry n))
  else if bool_decide (fname = "MERKLE_ROOT") then
    '(a, b) ← extract_optional_u64_range (fn_args f);
    n ← ok_or a (SqlMissingField "MERKLE_ROOT"); Ok (Some (MerkleRoot n (default n b)))
  else if bool_decide (fname = "VERSION") then
    Ok (Some (Constant "version" "PostgreSQL 15.0 (VectorLedger 1.0.0)"))
  else if bool_decide (fname = "CURRENT_USER") then Ok (Some (Constant "current_user" "vledger"))
  else if bool_decide (fname = "CURRENT_DATABASE") then Ok (Some (Constant "current_database" "vledger"))
  else Ok None.

Definition constant_text (v : SqlValue) : string :=
  match v with
  | Number n => n
  | SingleQuotedString s => s
  | Boolean b => bool_text b
  | Null => "NULL"
  | other => value_display other
  end.

Definition plan_constant (item : SelectItem) : R LogicalPlan :=
  match item with
  | UnnamedExpr (ExprValue v) => Ok (Constant "?column?" (constant_text v))
  | ExprWithAlias (ExprValue v) alias => Ok (Constant alias (constant_text v))
  | _ => Err SqlUnsupported
  end.

(** The first window function of the projection. *)
Fixpoint plan_window (table : string) (selection limit : option Expr) (items : list SelectItem)
    : R (option LogicalPlan) :=
  match items with
  | [] => Ok None
  | item :: items =>
      let fa := match item with
                | UnnamedExpr (ExprFunction f) => Some (f, None)
                | ExprWithAlias (ExprFunction f) alias => Some (f, Some alias)
                | _ => None
                end in
      match fa with
      | Some (f, alias) =>
          match extract_window_spec f with
          | Some (parts, order) =>
              '(wfn, col) ← parse_window_fn f;
              scan ← base_scan table selection limit;
              Ok (Some (Window scan wfn col (default (window_name wfn) alias)
                    (map expr_to_col_name parts) (map expr_to_col_name order)))
          | None => plan_window table selection limit items
          end
      | None => plan_window table selection limit items
      end
  end.

Definition group_columns (g : GroupByExpr) : list string :=
  match g with GroupByExprs es => map expr_to_col_name es | GroupByOther => [] end.

Definition plan_join (table : string) (body : Select) (limit : option Expr) (jc : JoinClause) : R LogicalPlan :=
  right_table ← extract_table_name (jc_relation jc);
  lp ← base_scan table (sel_selection body) limit;
  rp ← base_scan right_table None None;
  Ok (Join lp rp (if jc_left_outer jc then LeftOuter else Inner) (jc_debug jc) (map item_name (sel_projection body))).

Definition plan_simple (table : string) (body : Select) (limit : option Expr) : R LogicalPlan :=
  let projections := parse_projections (sel_projection body) in
  match sel_selection body, limit with
  | Some sel, _ => f ← parse_where_to_entry_filter table sel; scan_of table (Some f) projections
  | None, Some (ExprValue (Number n)) =>
      n ← parse_limit n;
      (* the limit is not passed on for the accounts table *)
      scan_of table (if bool_decide (table = ACCOUNTS) then None else Some (Limit n)) projections
  | None, _ => scan_of table None projections
  end.

Definition plan_from (body : Select) (limit : option Expr) (rel : TableFactor) (joins : list JoinClause) : R LogicalPlan :=
  table ← extract_table_name rel;
  w ← plan_window table (sel_selection body) limit (sel_projection body);
  match w with
  | Some plan => Ok plan
  | None =>
      match collect_aggregate_exprs (sel_projection body) with
      | [] =>
          match joins with
          | jc :: _ => plan_join table body limit jc
          | [] => plan_simple table body limit
          end
      | aggs =>
          scan ← base_scan table (sel_selection body) limit;
          Ok (Aggregate scan (group_columns (sel_group_by body)) aggs)
      end
  end.

Definition plan_query (q : Query) : R LogicalPlan :=
  match q_body q with
  | SetSelect body =>
      match sel_from body with
      | (rel, joins) :: _ => plan_from body (q_limit q) rel joins
      | [] =>
          special ← match head (sel_projection body) with
                    | Some (UnnamedExpr (ExprFunction f)) => plan_function f
                    | _ => Ok None
                    end;
          match special, head (sel_projection body) with
          | Some plan, _ => Ok plan
          | None, Some item => plan_constant item
          | None, None => Err SqlUnsupported
          end
      end
  | _ => Err SqlUnsupported
  end.

(** *** INSERT *)

(** The closure [get]: the value of a named column in the VALUES row. *)
Definition insert_get (cols : list string) (vals : list Expr) (name : string) : R string :=
  idx ← ok_or (position name cols) (SqlMissingField name);
  val ← ok_or (vals !! idx) (SqlMissingField name);
  expr_to_string val.

(** The first row of the VALUES list. *)
Definition insert_row_values (source : option Query) : R (list Expr) :=
  q ← ok_or source (SqlMissingField "VALUES");
  match q_body q with
  | SetValues (vals :: _) => Ok vals
  | SetValues [] => Err (SqlMissingField "at least one VALUES row")
  | _ => Err SqlUnsupported
  end.

Definition plan_insert (ins : Insert) : R LogicalPlan :=
  let table := to_lowercase (ins_table ins) in
  let cols := map to_lowercase (ins_columns ins) in
  if bool_decide (table = LEDGER) then
    vals ← insert_row_values (ins_source ins);
    let get := insert_get cols vals in
    amount_str ← get "amount";
    amount ← ok_or (parse_i64 amount_str) (SqlInvalidValue "amount");
    description ← get "description";
    debit_account ← get "debit_account";
    credit_account ← get "credit_account";
    currency ← get "currency";
    Ok (PostEntry (mkEntrySpec description debit_account credit_account amount currency
      (res_ok (get "external_ref")) (res_ok (get "idempotency_key")) (res_unwrap_or "default" (get "domain"))))
  else if bool_decide (table = ACCOUNTS) then
    vals ← insert_row_values (ins_source ins);
    let get := insert_get cols vals in
    code ← get "code";
    name ← get "name";
    account_type ← get "account_type";
    currency ← get "currency";
    Ok (CreateAccount (mkAccountSpec code name account_type currency (res_unwrap_or "default" (get "domain"))))
  else Err (SqlUnknownTable table).

Definition plan_create_table (name : string) : R LogicalPlan := Err SqlUnsupported.

Definition plan (stmt : Statement) : R LogicalPlan :=
  raw ← match stmt with
        | StQuery q => plan_query q
        | StInsert ins => plan_insert ins
        | StCreateTable name => plan_create_table name
        | StOther => Err SqlUnsupported
        end;
  Ok (optimize raw).
End planner.
