(* ===== verification/SqlFront.v ===== *)
(** * vledger-sql: from statement to effect

    The planner and the executor together: a [SELECT] never changes the
    ledger, an [INSERT] printed from an entry specification plans back to it;
    and what the planner drops (the rows after the first, a limit next to a
    WHERE clause, an IN list on the ledger). *)

From stdpp Require Import base gmap list strings option fin_maps.
From Stdlib Require Import ZArith Lia.
From S2P Require Import Prelude Bytes Crypto Merkle Money Entry WalRecord Wal Recovery Tx Page EntryDb Sql Store StoreFrame SqlExec SqlSafety SqlPlan.

#[local] Open Scope string_scope.
#[local] Open Scope Z_scope.
#[local] Open Scope list_scope.

Section front.
Context `{Blake3} `{Ed25519} `{WalExt} `{PageExt} `{LedgerCodecs} `{LedgerExt} `{SqlExt}.
Context (expr_display : Expr → string) (value_display : SqlValue → string).

(** ** Reading leaves the store alone *)

(** The store is the same after the computation, on every path. *)
Definition keeps_store {E A} (m : M LedgerStore E A) : Prop := ∀ s0, preserves (λ s, s = s0) m.

Lemma keeps_db_try {A} (m : DbM A) : reads m → keeps_store (db_try m).
Proof.
  intros Hm s0 W s ->. destruct (db_try m (W, s0)) as [r [W' s']] eqn:Hd. cbn. by eapply db_try_reads.
Qed.
Lemma keeps_db_op {A} (m : DbM A) : reads m → keeps_store (db_op m).
Proof.
  intros Hm s0 W s ->. destruct (db_op m (W, s0)) as [r [W' s']] eqn:Hd. cbn. by eapply db_op_reads.
Qed.

Lemma scan_reads d st lim off : reads (scan d st lim off).
Proof. apply reads_bind; [apply query_reads|intros]. apply reads_liftR. Qed.
Lemma scan_range_reads a b : reads (scan_range a b).
Proof. apply reads_bind; [apply query_reads|intros]. apply reads_liftR. Qed.
Lemma scan_ref_reads r lim : reads (scan_by_external_ref r lim).
Proof. apply reads_bind; [apply query_reads|intros]. apply reads_liftR. Qed.
Lemma search_reads q lim : reads (search_metadata fts_match q lim).
Proof. apply reads_bind; [apply query_reads|intros]. apply reads_liftR. Qed.
Lemma stream_reads {A} (f : JournalEntry → A → Result LedgerError A) acc : reads (stream_all f acc).
Proof.
  unfold stream_all. intros W db. unfold mbind, M_bind, attempt. pose proof (query_reads rows W db) as Hq.
  destruct (query rows (W, db)) as [r [W' db']]. cbn in Hq. subst. by destruct r.
Qed.

Lemma keeps_ledger {A} (m : M LedgerStore LedgerError A) : keeps_store m → keeps_store (ledger m).
Proof. intros Hm s0. apply preserves_map_err, Hm. Qed.

Lemma matched_keeps f : keeps_store (matched_entries f).
Proof.
  intros s0. assert (Hget : ∀ n, preserves (λ s, s = s0) (get_entry_by_sequence n)).
  { intros n. apply preserves_bind; [apply keeps_db_try, get_by_sequence_reads|intros; apply preserves_ret]. }
  assert (Hscan : ∀ n, preserves (λ s, s = s0) (entries_scan n)).
  { intros n. apply preserves_bind; [apply keeps_db_try, scan_reads|intros; apply preserves_ret]. }
  unfold matched_entries. destruct f as [[]|]; apply preserves_bind; try (intros; apply preserves_ret); auto.
  - apply preserves_bind; [apply keeps_db_try, scan_ref_reads|intros; apply preserves_ret].
  - apply preserves_bind; [apply keeps_db_try, scan_reads|intros; apply preserves_ret].
  - apply preserves_bind; [apply keeps_db_try, scan_reads|intros; apply preserves_ret].
  - induction ns as [|n ns IH]; cbn [entries_at]; [apply preserves_ret|].
    apply preserves_bind; [apply Hget|intros]. apply preserves_bind; [apply IH|intros; apply preserves_ret].
  - apply preserves_bind; [apply keeps_db_op, stream_reads|intros; apply preserves_ret].
  - apply preserves_bind; [apply keeps_db_op, stream_reads|intros; apply preserves_ret].
  - apply preserves_bind; [apply keeps_db_try, search_reads|intros; apply preserves_ret].
Qed.

Lemma count_keeps : keeps_store entry_count.
Proof. intros s0. apply preserves_bind; [apply keeps_db_try, query_reads|intros; apply preserves_ret]. Qed.

Lemma range_keeps a b : keeps_store (entries_in_range a b).
Proof. intros s0. apply preserves_bind; [apply keeps_db_try, scan_range_reads|intros; apply preserves_ret]. Qed.

Lemma verify_keeps : keeps_store verify_chain_integrity.
Proof. intros s0. apply preserves_bind; [apply keeps_db_op, stream_reads|intros; apply preserves_liftR]. Qed.

Lemma verify_range_keeps a b : keeps_store (verify_chain_range a b).
Proof.
  intros s0. apply preserves_bind; [apply keeps_db_op, scan_range_reads|].
  intros [|e es]; [apply preserves_ret|]. apply preserves_bind; [apply preserves_liftR|intros; apply preserves_ret].
Qed.

Lemma read_execute_keeps proofs plan : keeps_store (read_execute proofs plan).
Proof.
  intros s0. induction plan; cbn [read_execute]; try apply preserves_throw.
  - apply preserves_bind; [|intros; apply preserves_liftR]. unfold exec_scan_entries.
    apply preserves_bind; [apply keeps_ledger, matched_keeps|intros]. solve_preserves.
  - apply preserves_bind; [|intros; apply preserves_liftR]. unfold exec_scan_ledger_lines.
    apply preserves_bind; [apply keeps_ledger, matched_keeps|intros]. apply preserves_liftR.
  - unfold exec_scan_accounts. solve_preserves.
  - unfold exec_get_balance. solve_preserves.
  - unfold exec_verify_chain. destruct from_seq, to_seq;
      (apply preserves_bind; [apply preserves_attempt; first [apply verify_range_keeps|apply verify_keeps]|]);
      intros [[]|]; try apply preserves_ret; try apply preserves_liftR.
    apply preserves_bind; [apply keeps_ledger, count_keeps|intros]. solve_preserves.
  - unfold exec_verify_entry. apply preserves_bind.
    + apply keeps_ledger. intros s1. apply preserves_bind; [apply keeps_db_try, get_by_sequence_reads|intros; apply preserves_ret].
    + intros [e|]; [apply preserves_liftR|apply preserves_ret].
  - unfold exec_merkle_root. apply preserves_bind; [apply keeps_ledger, range_keeps|].
    intros [|e es]; apply preserves_liftR.
  - apply preserves_liftR.
  - solve_preserves.
  - solve_preserves.
  - solve_preserves.
Qed.

(** ** Planning a query gives a read plan *)

Definition is_write (p : LogicalPlan) : bool := match p with PostEntry _ | CreateAccount _ => true | _ => false end.

Lemma scan_of_read t f ps p : scan_of t f ps = Ok p → is_write p = false.
Proof. unfold scan_of. repeat case_match; naive_solver. Qed.

Lemma plan_window_read t sel lim items p :
  plan_window expr_display t sel lim items = Ok (Some p) → is_write p = false.
Proof.
  induction items as [|item items IH]; cbn; [done|].
  destruct (match item with UnnamedExpr (ExprFunction f) => _ | _ => _ end) as [[f alias]|]; [|done].
  destruct (extract_window_spec f) as [[ps os]|]; [|done].
  intros ([wfn col]&_&(scan&_&[= <-])%res_bind_Ok)%res_bind_Ok. done.
Qed.

Lemma plan_from_read body lim rel joins p : plan_from expr_display body lim rel joins = Ok p → is_write p = false.
Proof.
  unfold plan_from. intros (t&_&(w&Hw&Hp)%res_bind_Ok)%res_bind_Ok. destruct w as [pl|].
  { injection Hp as <-. by eapply plan_window_read. }
  destruct (collect_aggregate_exprs _ _) as [|agg aggs].
  - destruct joins as [|jc js].
    + unfold plan_simple in Hp. destruct (sel_selection body) as [sel|].
      * apply res_bind_Ok in Hp as (f&_&Hp). by eapply scan_of_read.
      * destruct lim as [[| |[]| | | | |]|]; try (by eapply scan_of_read).
        apply res_bind_Ok in Hp as (n'&_&Hp). by eapply scan_of_read.
    + unfold plan_join in Hp. apply res_bind_Ok in Hp as (rt&_&Hp).
      apply res_bind_Ok in Hp as (lp&_&Hp). by apply res_bind_Ok in Hp as (rp&_&[= <-]).
  - by apply res_bind_Ok in Hp as (scan&_&[= <-]).
Qed.

Lemma plan_query_read q p : plan_query expr_display value_display q = Ok p → is_write p = false.
Proof.
  unfold plan_query. destruct (q_body q) as [body| |]; [|done..].
  destruct (sel_from body) as [|[rel joins] rest]; [|apply plan_from_read].
  intros (special&Hs&Hp)%res_bind_Ok. destruct special as [pl|].
  - injection Hp as <-. destruct (head _) as [[[]| | |]|]; try done.
    unfold plan_function in Hs. repeat case_bool_decide;
      repeat match goal with Hb : (_ ≫= _) = Ok _ |- _ => apply res_bind_Ok in Hb as ([]&?&Hb) end; naive_solver.
  - destruct (head _) as [item|]; [|done]. unfold plan_constant in Hp. repeat case_match; naive_solver.
Qed.

(** A query never changes the ledger: whatever a parsed SELECT asks for,
    planning it and executing the plan through the write-capable executor
    leaves the whole store (journal, balances, accounts, log, pages and index)
    exactly as it was, on success, on error and whatever I/O calls fail. *)
Theorem select_never_writes proofs q p W s r W' s' :
  plan expr_display value_display (StQuery q) = Ok p →
  execute proofs p (W, s) = (r, (W', s')) → s' = s.
Proof.
  unfold plan. intros (raw&Hq&[= <-])%res_bind_Ok He. rewrite optimize_id in He. apply plan_query_read in Hq.
  assert (Hx : execute proofs raw = read_execute proofs raw) by (by destruct raw). rewrite Hx in He.
  pose proof (read_execute_keeps proofs raw s W s eq_refl) as Hk. by rewrite He in Hk.
Qed.

(** ** INSERT *)

Definition quoted (s : string) : Expr := ExprValue (SingleQuotedString s).

(** The statement that posts a specification; optional columns are listed only
    when they have a value. *)
Definition insert_of_spec (spec : EntrySpec) (amount_text : string) : Statement :=
  let opt (c : string) (o : option string) := match o with Some v => [(c, quoted v)] | None => [] end in
  let cells := [("description", quoted (es_description spec)); ("debit_account", quoted (es_debit_account spec));
      ("credit_account", quoted (es_credit_account spec)); ("amount", ExprValue (Number amount_text));
      ("currency", quoted (es_currency spec))] ++ opt "external_ref" (es_external_ref spec) ++
      opt "idempotency_key" (es_idempotency_key spec) ++ [("domain", quoted (es_domain spec))] in
  StInsert (mkInsert "ledger" (map fst cells) (Some (mkQuery (SetValues [map snd cells]) None))).

(** An [INSERT INTO ledger] written from an entry specification is planned
    back to exactly that specification, with or without the optional columns. *)
Theorem insert_plan_roundtrip spec t :
  parse_i64 t = Some (es_amount spec) →
  plan expr_display value_display (insert_of_spec spec t) = Ok (PostEntry spec).
Proof.
  intros Ht. destruct spec as [desc da ca amt cur er ik dom]. cbn in Ht.
  destruct er, ik; unfold plan, insert_of_spec, plan_insert; cbn -[parse_i64 position to_lowercase];
    (rewrite !bool_decide_true by done);
    repeat match goal with |- context [insert_get ?c ?v ?n] =>
      let x := eval vm_compute in (insert_get c v n) in change (insert_get c v n) with x end;
    cbn -[parse_i64]; by rewrite Ht.
Qed.

(** Only the first row of the VALUES list is planned. *)
Lemma insert_drops_rows table cols row rows lim :
  plan expr_display value_display (StInsert (mkInsert table cols (Some (mkQuery (SetValues (row :: rows)) lim)))) =
  plan expr_display value_display (StInsert (mkInsert table cols (Some (mkQuery (SetValues [row]) None)))).
Proof. done. Qed.

(** A limit next to a WHERE clause is dropped. *)
Lemma where_drops_limit body sel lim table :
  sel_selection body = Some sel → plan_simple expr_display table body lim = plan_simple expr_display table body None.
Proof. unfold plan_simple. by intros ->. Qed.

(** An IN list on a ledger column other than the sequence does not filter: the
    scan is the one without a WHERE clause. *)
Lemma in_list_not_applied proofs col vals ps :
  read_execute proofs (ScanEntries (Some (ByValueIn col vals)) ps) = read_execute proofs (ScanEntries None ps).
Proof. done. Qed.
End front.
