(* ===== verification/UserAuth.v ===== *)
(** * vledger-server: users, sessions and privileges

    Models [crates/vledger-server/src/auth.rs]: the user store with its
    session map and failure counters, every operation that changes it, and
    the privilege check on plans.  The two readings of time in the code
    ([Instant] for the lockout, [SystemTime] for the expiry of sessions) are
    readings of the world's clock, in nanoseconds.  Argon2 and the JSON text of
    the user file are parameters; sleeping after a failure has no effect on the
    state, the delay is what [record_failure] returns. *)

From stdpp Require Import base gmap list strings option fin_maps relations.
From Stdlib Require Import ZArith Lia Strings.Byte.
From S2P Require Import Prelude Bytes Jsonl Crypto Entry Sql Store SqlGuard SqlExec.

#[local] Open Scope string_scope.
#[local] Open Scope Z_scope.
#[local] Open Scope list_scope.

(** ** Data *)

Definition MAX_SESSIONS : nat := 4096.
Definition SECOND : Z := 1000000000.
Definition MAX_FAILED_ATTEMPTS : Z := 5.
Definition LOCKOUT_DURATION : Z := 300 * SECOND.
Definition BASE_FAIL_DELAY_MS : Z := 200.
Definition MAX_FAIL_DELAY_MS : Z := 3000.

Inductive Role := Admin | Operator | Auditor | ReadOnly.
#[global] Instance Role_eq_dec : EqDecision Role.
Proof. solve_decision. Defined.

Definition can_select (r : Role) : bool := true.
Definition can_insert_ledger (r : Role) : bool := match r with Admin | Operator => true | _ => false end.
Definition can_insert_accounts (r : Role) : bool := match r with Admin | Operator => true | _ => false end.
Definition can_verify (r : Role) : bool := match r with Admin | Operator | Auditor => true | ReadOnly => false end.
Definition can_admin (r : Role) : bool := match r with Admin => true | _ => false end.

Definition role_text (r : Role) : string :=
  match r with Admin => "admin" | Operator => "operator" | Auditor => "auditor" | ReadOnly => "readonly" end.

(** [str::parse::<Role>] *)
Definition role_from_str (s : string) : Result string Role :=
  let l := to_lowercase s in
  if bool_decide (l = "admin") then Ok Admin
  else if bool_decide (l = "operator") then Ok Operator
  else if bool_decide (l = "auditor") then Ok Auditor
  else if bool_decide (l = "readonly") || bool_decide (l = "read_only") then Ok ReadOnly
  else Err ("unknown role '" +:+ l +:+ "' — use: admin, operator, auditor, readonly").

Record UserRecord := mkUser {
  u_username : string;
  u_password_hash : string;
  u_role : Role;
  u_enabled : bool;
  u_created_at : string;
  u_domain_filter : option string
}.
Definition u_set_hash h u := mkUser (u_username u) h (u_role u) (u_enabled u) (u_created_at u) (u_domain_filter u).
Definition u_set_role r u := mkUser (u_username u) (u_password_hash u) r (u_enabled u) (u_created_at u) (u_domain_filter u).
Definition u_set_enabled b u := mkUser (u_username u) (u_password_hash u) (u_role u) b (u_created_at u) (u_domain_filter u).

Record Session := mkSession {
  sn_username : string;
  sn_role : Role;
  sn_token : bytes;
  sn_expires_at : Z
}.

Definition session_is_expired (now : Z) (s : Session) : bool := sn_expires_at s <? now.

Record FailureState := mkFailure {
  fs_count : Z;
  fs_locked_at : option Z
}.
Definition FailureState_new : FailureState := mkFailure 0 None.
Definition failure_reset (f : FailureState) : FailureState := mkFailure 0 None.

(** [is_locked], given the reading of the clock ([elapsed] is not negative). *)
Definition is_locked (now : Z) (f : FailureState) : bool :=
  match fs_locked_at f with
  | Some t => Z.max 0 (now - t) <? LOCKOUT_DURATION
  | None => false
  end.

Definition delay_ms (f : FailureState) : Z :=
  Z.min (Z.min (BASE_FAIL_DELAY_MS * Z.shiftl 1 (Z.min (fs_count f) 10)) (2 ^ 64 - 1)) MAX_FAIL_DELAY_MS.

Inductive ServerError :=
  | SrvIo
  | SrvTls (message : string)
  | SrvProtocol (message : string)
  | SrvSql (e : SqlError)
  | SrvAuth (message : string)
  | SrvForbidden (message : string)
  | SrvNotInitialized
  | SrvBindFailed (addr reason : string).

(** What the store obtains from other crates. *)
Class AuthExt := {
  argon_hash : string → Z → Result string string;      (* password, salt *)
  argon_verify : string → string → bool;
  argon_roundtrip : ∀ p salt phc, argon_hash p salt = Ok phc → argon_verify p phc = true;
  alphanumeric : Z → string;                           (* 24 characters from the generator *)
  cred_path : string;                                  (* the path of the credentials file *)
  users_to_json : gmap string UserRecord → option bytes;
  users_from_json : bytes → option (gmap string UserRecord);
  users_json_roundtrip : ∀ us bs, users_to_json us = Some bs → users_from_json bs = Some us;
  users_json_utf8 : ∀ us bs, users_to_json us = Some bs → utf8_valid bs = true
}.

(** The files of the catalog directory. *)
Record Catalog := mkCatalog {
  cat_secret : option bytes;
  cat_users : option bytes;
  cat_credentials : option string
}.

Record UserStore := mkUserStore {
  us_catalog : Catalog;
  us_users : gmap string UserRecord;
  us_sessions : gmap bytes Session;
  us_server_secret : bytes;
  us_session_ttl : Z;
  us_failures : gmap string FailureState
}.
Definition us_set_catalog c s := mkUserStore c (us_users s) (us_sessions s) (us_server_secret s) (us_session_ttl s) (us_failures s).
Definition us_set_users u s := mkUserStore (us_catalog s) u (us_sessions s) (us_server_secret s) (us_session_ttl s) (us_failures s).
Definition us_set_sessions x s := mkUserStore (us_catalog s) (us_users s) x (us_server_secret s) (us_session_ttl s) (us_failures s).
Definition us_set_failures f s := mkUserStore (us_catalog s) (us_users s) (us_sessions s) (us_server_secret s) (us_session_ttl s) f.

Definition cat_set_users bs c := mkCatalog (cat_secret c) bs (cat_credentials c).
Definition cat_set_secret bs c := mkCatalog bs (cat_users c) (cat_credentials c).
Definition cat_set_credentials t c := mkCatalog (cat_secret c) (cat_users c) t.

Notation UM := (M UserStore ServerError).

Section auth.
Context `{Blake3Keyed} `{Hex} `{LedgerExt} `{SqlExt} `{AuthExt}.

(** ** Operations *)

Definition hash_password {S} (password : string) : M S ServerError string :=
  salt ← rand; liftR (res_map_err SrvAuth (argon_hash password salt)).

(** [std::fs::write]: on failure a prefix may be in the file. *)
Definition fs_write {S} (set : bytes → S → S) (data : bytes) : M S ServerError unit :=
  r ← attempt (io SrvIo);
  match r with
  | Ok _ => modify (set data)
  | Err e =>
      n ← rand;
      _ ← modify (set (take (Z.to_nat (n mod (Z.of_nat (length data) + 1))) data));
      throw e
  end.

Definition set_users_file (bs : bytes) (s : UserStore) : UserStore :=
  us_set_catalog (cat_set_users (Some bs) (us_catalog s)) s.

(** [persist]: write [users.json], then restrict its mode. *)
Definition persist : UM unit :=
  us ← gets us_users;
  json ← liftR (ok_or (users_to_json us) (SrvAuth "json"));
  _ ← fs_write set_users_file json;
  io SrvIo.

Definition record_failure (username : string) : UM Z :=
  fs ← gets us_failures;
  let state := default FailureState_new (fs !! username) in
  let count := as_u32 (fs_count state + 1) in
  locked ← (if (MAX_FAILED_ATTEMPTS <=? count) && bool_decide (fs_locked_at state = None)
            then t ← now; mret (Some t) else mret (fs_locked_at state));
  _ ← modify (λ s, us_set_failures (<[username := mkFailure count locked]> (us_failures s)) s);
  mret (delay_ms state).

Definition mint_token (username : string) (role : Role) : UM bytes :=
  nonce ← rand;
  secret ← gets us_server_secret;
  mret (hex_enc (blake3_keyed secret (str_bytes username ++ str_bytes (role_text role) ++ le_bytes 32 nonce))).

Definition needs_rehash (phc : string) : bool := negb (contains "m=65536,t=3,p=4" phc).

Definition retain (p : Session → bool) (m : gmap bytes Session) : gmap bytes Session :=
  filter (λ kv, p kv.2 = true) m.

(** [min_by_key(|(_, s)| s.expires_at)]: the first minimum in iteration order. *)
Fixpoint oldest (best : option (bytes * Session)) (l : list (bytes * Session)) : option (bytes * Session) :=
  match l with
  | [] => best
  | kv :: l =>
      oldest (match best with
              | Some b => if sn_expires_at kv.2 <? sn_expires_at b.2 then Some kv else Some b
              | None => Some kv
              end) l
  end.

Definition evict_oldest (m : gmap bytes Session) : gmap bytes Session :=
  match oldest None (hash_order (map_to_list m)) with
  | Some (t, _) => delete t m
  | None => m
  end.

Definition insert_session_bounded (token : bytes) (session : Session) : UM unit :=
  m ← gets us_sessions;
  m ← (if (MAX_SESSIONS <=? size m)%nat
       then t ← now; mret (retain (λ s, t <? sn_expires_at s) m) else mret m);
  let m := if (MAX_SESSIONS <=? size m)%nat then evict_oldest m else m in
  modify (us_set_sessions (<[token := session]> m)).

(** The rehash of a password stored under weaker parameters; its errors are
    ignored. *)
Definition lazy_rehash (username password stored_hash : string) : UM unit :=
  if needs_rehash stored_hash then
    r ← attempt (hash_password password);
    match r with
    | Ok new_hash =>
        _ ← modify (λ s, us_set_users (alter (u_set_hash new_hash) username (us_users s)) s);
        _ ← attempt (F:=ServerError) persist;
        mret tt
    | Err _ => mret tt
    end
  else mret tt.

(** The successful branch of [authenticate]. *)
Definition issue_session (username password : string) (user : UserRecord) : UM Session :=
  token ← mint_token username (u_role user);
  t ← now;
  ttl ← gets us_session_ttl;
  let session := mkSession username (u_role user) token (t + ttl) in
  _ ← lazy_rehash username password (u_password_hash user);
  _ ← modify (λ s, us_set_failures (<[username :=
        failure_reset (default FailureState_new (us_failures s !! username))]> (us_failures s)) s);
  _ ← insert_session_bounded token session;
  mret session.

Definition authenticate (username password : string) : UM Session :=
  fs ← gets us_failures;
  locked ← match fs !! username with
           | Some state => match fs_locked_at state with
                           | Some _ => t ← now; mret (is_locked t state)
                           | None => mret false
                           end
           | None => mret false
           end;
  if locked : bool then throw (SrvAuth "account temporarily locked — too many failed attempts")
  else
    users ← gets us_users;
    match users !! username with
    | None => _ ← record_failure username; throw (SrvAuth "invalid credentials")
    | Some user =>
        if negb (u_enabled user) then _ ← record_failure username; throw (SrvAuth "account disabled")
        else if negb (argon_verify password (u_password_hash user))
        then _ ← record_failure username; throw (SrvAuth "invalid credentials")
        else issue_session username password user
    end.

Definition validate_token (token : bytes) : UM Session :=
  t ← now;
  _ ← modify (λ s, us_set_sessions (retain (λ x, negb (session_is_expired t x)) (us_sessions s)) s);
  m ← gets us_sessions;
  match m !! token with
  | Some s =>
      t ← now;
      if session_is_expired t s then throw (SrvAuth "invalid or expired session token") else mret s
  | None => throw (SrvAuth "invalid or expired session token")
  end.

Definition revoke_sessions_for (username : string) : UM Z :=
  m ← gets us_sessions;
  let m' := retain (λ s, negb (bool_decide (sn_username s = username))) m in
  _ ← modify (us_set_sessions m');
  mret (Z.of_nat (size m) - Z.of_nat (size m')).

Definition create_user (username password : string) (role : Role) (domain : option string) : UM unit :=
  hash ← hash_password password;
  t ← now;
  let record := mkUser username hash role true (to_rfc3339 t) domain in
  us ← gets us_users;
  if bool_decide (is_Some (us !! username)) then throw (SrvAuth ("user '" +:+ username +:+ "' already exists"))
  else
    _ ← modify (λ s, us_set_users (<[username := record]> (us_users s)) s);
    persist.

(** [users.get_mut(username)], or the error of the management methods. *)
Definition alter_user (username : string) (f : UserRecord → UserRecord) : UM unit :=
  us ← gets us_users;
  match us !! username with
  | None => throw (SrvAuth ("user '" +:+ username +:+ "' not found"))
  | Some u => modify (us_set_users (<[username := f u]> us))
  end.

Definition set_password (username new_password : string) : UM unit :=
  hash ← hash_password new_password;
  _ ← alter_user username (u_set_hash hash);
  _ ← revoke_sessions_for username;
  persist.

Definition set_enabled (username : string) (enabled : bool) : UM unit :=
  _ ← alter_user username (u_set_enabled enabled);
  _ ← (if enabled then mret 0 else revoke_sessions_for username);
  persist.

Definition set_role (username : string) (new_role : Role) : UM unit :=
  _ ← alter_user username (u_set_role new_role);
  _ ← revoke_sessions_for username;
  persist.

Definition list_users (s : UserStore) : list (string * Role * bool) :=
  map (λ u, (u_username u, u_role u, u_enabled u)) (hash_order (map snd (map_to_list (us_users s)))).

Definition domain_filter (username : string) (s : UserStore) : option string :=
  us_users s !! username ≫= u_domain_filter.

Definition delete_user (username : string) : UM unit :=
  us ← gets us_users;
  match us !! username with
  | None => throw (SrvAuth ("user '" +:+ username +:+ "' not found"))
  | Some _ =>
      _ ← modify (us_set_users (delete username us));
      _ ← revoke_sessions_for username;
      persist
  end.

Definition purge_expired_sessions : UM Z :=
  m ← gets us_sessions;
  t ← now;
  let m' := retain (λ s, t <? sn_expires_at s) m in
  _ ← modify (us_set_sessions m');
  mret (Z.of_nat (size m) - Z.of_nat (size m')).

(** ** Opening *)

Notation CM := (M Catalog ServerError).

Definition read_to_string (text : bytes) : CM bytes :=
  _ ← io SrvIo; if utf8_valid text then mret text else throw SrvIo.

Definition open_secret : CM bytes :=
  f ← gets cat_secret;
  match f with
  | Some text =>
      text ← read_to_string text;
      bs ← liftR (ok_or (hex_dec (trim text)) (SrvAuth "corrupt server secret"));
      if (length bs =? 32)%nat then mret bs else throw (SrvAuth "corrupt server secret length")
  | None =>
      r ← rand;
      let secret := le_bytes 32 r in
      _ ← fs_write (λ bs, cat_set_secret (Some bs)) (hex_enc secret);
      _ ← io SrvIo;
      mret secret
  end.

Definition lf : string := String.String (Ascii.ascii_of_nat 10) "".
Definition dquoted (t : string) : string := let q := String.String (Ascii.ascii_of_nat 34) "" in q +:+ t +:+ q.
Definition credentials_text (generated password : string) : string :=
  "VectorLedger initial admin credentials" +:+ lf +:+
  "Generated: " +:+ generated +:+ lf +:+
  "Username:  admin" +:+ lf +:+
  "Password:  " +:+ password +:+ lf +:+ lf +:+
  "CHANGE THIS PASSWORD IMMEDIATELY:" +:+ lf +:+
  "vledger user set-password --username admin" +:+ lf +:+ lf +:+
  "DELETE THIS FILE after reading it:" +:+ lf +:+
  "rm " +:+ dquoted cred_path +:+ lf.

(** The bootstrap of an empty user file. *)
Definition bootstrap : CM (gmap string UserRecord) :=
  r ← rand;
  let initial_password := alphanumeric r in
  hash ← hash_password initial_password;
  t ← now;
  let admin := mkUser "admin" hash Admin true (to_rfc3339 t) None in
  t2 ← now;
  _ ← fs_write (λ _, cat_set_credentials (Some (credentials_text (to_rfc3339 t2) initial_password)))
        (str_bytes (credentials_text (to_rfc3339 t2) initial_password));
  _ ← io SrvIo;
  let users := {["admin" := admin]} in
  json ← liftR (ok_or (users_to_json users) (SrvAuth "json"));
  _ ← fs_write (λ bs, cat_set_users (Some bs)) json;
  _ ← io SrvIo;
  mret users.

Definition UserStore_open : CM UserStore :=
  secret ← open_secret;
  f ← gets cat_users;
  users ← match f with
          | Some data =>
              data ← read_to_string data;
              liftR (ok_or (users_from_json data) (SrvAuth "corrupt users.json"))
          | None => mret ∅
          end;
  users ← (if bool_decide (users = ∅) then bootstrap else mret users);
  c ← gets id;
  mret (mkUserStore c users ∅ secret (3600 * SECOND) ∅).

(** ** Privileges *)

Definition check_plan_privilege (role : Role) (plan : LogicalPlan) : Result string unit :=
  let deny what := Err ("role '" +:+ role_text role +:+ "' cannot " +:+ what) in
  match plan with
  | PostEntry _ => if negb (can_insert_ledger role) then deny "post journal entries" else Ok tt
  | CreateAccount _ => if negb (can_insert_accounts role) then deny "create accounts" else Ok tt
  | VerifyChain _ _ => if negb (can_verify role) then deny "run VERIFY_CHAIN" else Ok tt
  | MerkleRoot _ _ => if negb (can_verify role) then deny "run MERKLE_ROOT" else Ok tt
  | ScanEntries _ _ | ScanAccounts _ _ | GetBalance _ | Join _ _ _ _ _ | Aggregate _ _ _ | Window _ _ _ _ _ _ =>
      if negb (can_select role) then deny "execute SELECT" else Ok tt
  | _ => Ok tt
  end.
End auth.
