(* ===== verification/UserSafety.v ===== *)
(** * vledger-server: what holds of the user store

    Sessions never outlive the privileges they were issued with, the session
    map is bounded, management operations revoke the sessions of the user they
    change, and the lockout after failed logins: that it locks, and that it
    does so once. *)

From stdpp Require Import base gmap list strings option fin_maps relations.
From Stdlib Require Import ZArith Lia Strings.Byte.
From S2P Require Import Prelude Bytes Jsonl Crypto Entry Sql Store StoreFrame SqlGuard SqlExec UserAuth.

#[local] Open Scope Z_scope.

(** The session is issued to an enabled user, with the role the user has. *)
Definition session_ok (us : gmap string UserRecord) (token : bytes) (x : Session) : Prop :=
  sn_token x = token ∧ ∃ u, us !! sn_username x = Some u ∧ u_enabled u = true ∧ u_role u = sn_role x.

Record sessions_ok (s : UserStore) : Prop := {
  sok_current : map_Forall (session_ok (us_users s)) (us_sessions s);
  sok_bound : (size (us_sessions s) ≤ MAX_SESSIONS)%nat
}.

(** No session of the user is left. *)
Definition revoked (username : string) (s : UserStore) : Prop :=
  map_Forall (λ _ x, sn_username x ≠ username) (us_sessions s).

(** The operations of the store. *)
Inductive UserOp :=
  | OpAuthenticate (username password : string)
  | OpValidate (token : bytes)
  | OpCreateUser (username password : string) (role : Role) (domain : option string)
  | OpSetPassword (username new_password : string)
  | OpSetEnabled (username : string) (enabled : bool)
  | OpSetRole (username : string) (role : Role)
  | OpDeleteUser (username : string)
  | OpPurge.

(** The operation revokes the sessions of the user. *)
Definition op_revokes (username : string) (o : UserOp) : Prop :=
  match o with
  | OpSetPassword u _ | OpSetRole u _ | OpDeleteUser u | OpSetEnabled u false => u = username
  | _ => False
  end.

(** The operation may issue a session to the user. *)
Definition op_issues (username : string) (o : UserOp) : Prop :=
  match o with OpAuthenticate u _ => u = username | _ => False end.

Section safety.
Context `{Blake3Keyed} `{Hex} `{LedgerExt} `{SqlExt} `{AuthExt}.

Definition user_run (o : UserOp) : UM unit :=
  match o with
  | OpAuthenticate u p => _ ← authenticate u p; mret tt
  | OpValidate t => _ ← validate_token t; mret tt
  | OpCreateUser u p r d => create_user u p r d
  | OpSetPassword u p => set_password u p
  | OpSetEnabled u b => set_enabled u b
  | OpSetRole u r => set_role u r
  | OpDeleteUser u => delete_user u
  | OpPurge => _ ← purge_expired_sessions; mret tt
  end.

(** One call, in any environment, whatever it returns. *)
Definition user_step (o : UserOp) (s s' : UserStore) : Prop := ∃ W, s' = (user_run o (W, s)).2.2.
Definition user_steps : UserStore → UserStore → Prop := rtc (λ s s', ∃ o, user_step o s s').

(** ** Steps that leave users and sessions alone *)

(** A property of the users and the sessions only. *)
Definition books (P : gmap string UserRecord → gmap bytes Session → Prop) (s : UserStore) : Prop :=
  P (us_users s) (us_sessions s).

Lemma fs_write_keeps P data : preserves (books P) (fs_write set_users_file data).
Proof. unfold fs_write. solve_preserves; apply preserves_modify; by intros s. Qed.
Hint Resolve fs_write_keeps : preserves.

Lemma persist_keeps P : preserves (books P) persist.
Proof. unfold persist. solve_preserves. Qed.
Lemma record_failure_keeps P u : preserves (books P) (record_failure u).
Proof. unfold record_failure. solve_preserves; apply preserves_modify; by intros s. Qed.
Lemma hash_password_keeps (P : UserStore → Prop) p : preserves P (hash_password p).
Proof. unfold hash_password. solve_preserves. Qed.
Hint Resolve persist_keeps record_failure_keeps hash_password_keeps : preserves.

Lemma retain_subseteq p m : retain p m ⊆ m.
Proof. apply map_filter_subseteq. Qed.
Lemma retain_size p m : (size (retain p m) ≤ size m)%nat.
Proof. apply map_subseteq_size, retain_subseteq. Qed.
Lemma retain_Forall (P : bytes → Session → Prop) p m : map_Forall P m → map_Forall P (retain p m).
Proof. intros Hm k x Hx%map_lookup_filter_Some. by apply Hm, Hx. Qed.

Lemma oldest_Some l : ∀ b, is_Some (oldest b l) ↔ is_Some b ∨ l ≠ [].
Proof.
  induction l as [|kv l IH]; intros b; cbn; [naive_solver|]. rewrite IH. split; [by right|intros _; left].
  destruct b as [b|]; [|by eexists]. case_match; by eexists.
Qed.
Lemma oldest_elem l : ∀ b kv, oldest b l = Some kv → b = Some kv ∨ kv ∈ l.
Proof.
  induction l as [|x l IH]; intros b kv Ho; cbn in Ho; [by left|]. apply IH in Ho as [Ho|Ho]; [|right; by right].
  destruct b as [b|]; [case_match; simplify_eq; [right; left|by left]|simplify_eq; right; left].
Qed.

Lemma evict_oldest_size m : (1 ≤ size m)%nat → S (size (evict_oldest m)) = size m.
Proof.
  intros Hm. unfold evict_oldest. destruct (oldest None (hash_order (map_to_list m))) as [[t x]|] eqn:Ho.
  - apply oldest_elem in Ho as [|Hin]; [done|]. rewrite hash_order_perm in Hin. apply elem_of_map_to_list in Hin.
    rewrite map_size_delete, Hin. lia.
  - exfalso. assert (Hs : is_Some (oldest None (hash_order (map_to_list m)))); [|rewrite Ho in Hs; by destruct Hs].
    apply oldest_Some. right. intros Hl. assert (Hp : map_to_list m ≡ₚ []) by (rewrite <- Hl; symmetry; apply hash_order_perm).
    apply Permutation_nil_r, map_to_list_empty_iff in Hp. subst. rewrite map_size_empty in Hm. lia.
Qed.
Lemma evict_oldest_subseteq m : evict_oldest m ⊆ m.
Proof. unfold evict_oldest. case_match; [|done]. case_match. apply delete_subseteq. Qed.

(** ** Issuing *)

Lemma insert_session_Forall (P : gmap string UserRecord → bytes → Session → Prop) (tok : bytes) (x : Session) :
  preserves (λ s, map_Forall (P (us_users s)) (us_sessions s) ∧ P (us_users s) tok x) (insert_session_bounded tok x).
Proof.
  intros w s [Hm Hx]. unfold insert_session_bounded.
  assert (Hins : ∀ m, m ⊆ us_sessions s → map_Forall (P (us_users s)) (<[tok := x]> m)).
  { intros m Hsub. apply map_Forall_insert_2; [done|]. intros k y Hy. apply Hm. by eapply lookup_weaken. }
  rewrite (mbind_eq _ _ _ (us_sessions s) (w, s)) by done. destruct (MAX_SESSIONS <=? size (us_sessions s))%nat.
  - cbn. split; [|done]. apply Hins. case_match; [etrans; [apply evict_oldest_subseteq|]|]; apply retain_subseteq.
  - cbn. split; [|done]. apply Hins. case_match; [apply evict_oldest_subseteq|done].
Qed.

Lemma insert_bounded_size (tok : bytes) (x : Session) (m : gmap bytes Session) :
  (size m ≤ MAX_SESSIONS)%nat →
  (size (<[tok := x]> (if (MAX_SESSIONS <=? size m)%nat then evict_oldest m else m)) ≤ MAX_SESSIONS)%nat.
Proof.
  intros Hm. rewrite map_size_insert. destruct (Nat.leb_spec MAX_SESSIONS (size m)).
  - assert (1 ≤ MAX_SESSIONS)%nat by (apply Nat.leb_le; reflexivity). pose proof (evict_oldest_size m ltac:(lia)) as Hs. case_match; unfold id; lia.
  - case_match; unfold id; lia.
Qed.

Lemma insert_session_bound tok x :
  preserves (λ s, (size (us_sessions s) ≤ MAX_SESSIONS)%nat) (insert_session_bounded tok x).
Proof.
  intros w s Hs. unfold insert_session_bounded. rewrite (mbind_eq _ _ _ (us_sessions s) (w, s)) by done.
  destruct (MAX_SESSIONS <=? size (us_sessions s))%nat eqn:Hle; cbn -[MAX_SESSIONS Nat.leb].
  - apply insert_bounded_size. etrans; [apply retain_size|done].
  - by apply insert_bounded_size.
Qed.

(** Users keep their role and status. *)
Definition same_rights (us us' : gmap string UserRecord) : Prop :=
  ∀ name u, us !! name = Some u → ∃ u', us' !! name = Some u' ∧ u_enabled u' = u_enabled u ∧ u_role u' = u_role u.

Lemma session_ok_rights us us' tok x : same_rights us us' → session_ok us tok x → session_ok us' tok x.
Proof.
  intros Hr (Ht & u & Hu & He & Hro). destruct (Hr _ _ Hu) as (u' & Hu' & He' & Hro').
  split; [done|]. exists u'. split_and!; [done|congruence..].
Qed.

Lemma alter_hash_rights us name h : same_rights us (alter (u_set_hash h) name us).
Proof.
  intros n u Hu. destruct (decide (n = name)) as [->|Hn].
  - rewrite lookup_alter_eq, Hu. by eexists.
  - rewrite lookup_alter_ne by done. by exists u.
Qed.

Lemma rehash_rights (u p h : string) (P : gmap string UserRecord → gmap bytes Session → Prop) :
  (∀ us us' ss, same_rights us us' → P us ss → P us' ss) → preserves (books P) (lazy_rehash u p h).
Proof.
  intros HP. unfold lazy_rehash. case_match; [|apply preserves_ret]. apply preserves_bind; [auto with preserves|].
  intros [hash|]; [|apply preserves_ret]. apply preserves_bind; [|intros; apply preserves_bind; auto with preserves].
  apply preserves_modify. intros s. apply HP, alter_hash_rights.
Qed.

(** What [authenticate] keeps, when issuing a session to the user does. *)
Lemma authenticate_keeps (P : gmap string UserRecord → gmap bytes Session → Prop) (name pw : string) :
  (∀ us us' ss, same_rights us us' → P us ss → P us' ss) →
  (∀ tok x, sn_username x = name →
    triple (books (λ us ss, P us ss ∧ session_ok us tok x)) (insert_session_bounded tok x) (λ _, books P) (books P)) →
  preserves (books P) (authenticate name pw).
Proof.
  intros HP Hins. unfold authenticate.
  apply preserves_bind; [apply preserves_gets|intros fs]. apply preserves_bind.
  { solve_preserves. }
  intros [|]; [apply preserves_throw|]. apply triple_preserves.
  eapply triple_bind; [apply triple_gets|]. intros users.
  destruct (users !! name) as [user|] eqn:Hu.
  2: { intros w s [Hs _]. apply (proj2 (triple_preserves (books P) _)); [|done]. solve_preserves. }
  destruct (u_enabled user) eqn:Hen; cbn [negb].
  2: { intros w s [Hs _]. apply (proj2 (triple_preserves (books P) _)); [|done]. solve_preserves. }
  destruct (argon_verify pw (u_password_hash user)); cbn [negb].
  2: { intros w s [Hs _]. apply (proj2 (triple_preserves (books P) _)); [|done]. solve_preserves. }
  unfold issue_session.
  eapply triple_bind; [apply triple_keep; [intros s0; unfold mint_token; solve_preserves|by intros s []]|intros tok; cbv beta].
  eapply triple_bind; [apply triple_keep; [intros s0; solve_preserves|by intros s []]|intros t; cbv beta].
  eapply triple_bind; [apply triple_keep; [intros s0; solve_preserves|by intros s []]|intros ttl; cbv beta zeta].
  set (x := mkSession _ _ _ _). set (Q := books (λ us ss, P us ss ∧ session_ok us tok x)).
  eapply (triple_weaken _ Q); [|intros s [Hs ->]; split; [done|]; split; [done|]; by exists user|intros ? s Hs; exact Hs|intros s Hs; exact Hs].
  eapply triple_bind; [|intros ?].
  { eapply triple_weaken; [apply triple_preserves, (rehash_rights _ _ _ (λ us ss, P us ss ∧ session_ok us tok x))| |intros ? ? Hs; exact Hs|by intros ? []].
    - intros us us' ss Hr [Hs Hx]. split; [by eapply HP|by eapply session_ok_rights].
    - done. }
  eapply triple_bind; [|intros ?].
  { eapply (triple_weaken _ (λ s, Q (us_set_failures _ s))); [apply triple_modify|done|intros ? ? Hs; exact Hs|intros s Hs; exact Hs]. }
  eapply triple_bind; [by apply Hins|intros ? w s Hs; exact Hs].
Qed.

(** ** The invariant *)

Definition current (us : gmap string UserRecord) (ss : gmap bytes Session) : Prop :=
  map_Forall (session_ok us) ss ∧ (size ss ≤ MAX_SESSIONS)%nat.

Lemma sessions_ok_current s : sessions_ok s ↔ books current s.
Proof. split; [intros []; by split|intros []; by constructor]. Qed.

Lemma current_rights us us' ss : same_rights us us' → current us ss → current us' ss.
Proof. intros Hr [Hc Hb]. split; [|done]. eapply map_Forall_impl; [exact Hc|]. intros k x. by apply session_ok_rights. Qed.

Lemma current_retain us ss p : current us ss → current us (retain p ss).
Proof. intros [Hc Hb]. split; [by apply retain_Forall|]. etrans; [apply retain_size|done]. Qed.

Lemma authenticate_ok name pw : preserves (books current) (authenticate name pw).
Proof.
  apply authenticate_keeps; [apply current_rights|]. intros tok x _ w s [[Hc Hb] Hx].
  pose proof (insert_session_Forall session_ok tok x w s (conj Hc Hx)) as [Hc' _].
  pose proof (insert_session_bound tok x w s Hb) as Hb'.
  by destruct (insert_session_bounded tok x (w, s)) as [[a|e] [w' s']].
Qed.

Lemma validate_token_keeps P tok : (∀ us ss p, P us ss → P us (retain p ss)) → preserves (books P) (validate_token tok).
Proof. intros HP. unfold validate_token. solve_preserves; apply preserves_modify; intros s Hs; by apply HP. Qed.

Lemma purge_keeps P : (∀ us ss p, P us ss → P us (retain p ss)) → preserves (books P) purge_expired_sessions.
Proof.
  intros HP w s Hs. unfold purge_expired_sessions. cbn. by apply HP.
Qed.

(** Changing a user, then revoking: what holds of the rest. *)
Lemma alter_revoke_keeps (P : gmap string UserRecord → gmap bytes Session → Prop) name f (k : UM unit) :
  (∀ us ss u, P us ss → us !! name = Some u →
    P (<[name := f u]> us) (retain (λ s, negb (bool_decide (sn_username s = name))) ss)) →
  preserves (books P) k → preserves (books P) (_ ← alter_user name f; _ ← revoke_sessions_for name; k).
Proof.
  intros HP Hk w s Hs. unfold alter_user. destruct (us_users s !! name) as [u|] eqn:Hu.
  - assert (Ha : ∀ (g : unit → UM unit), ((us ← gets us_users; match us !! name with None => throw (SrvAuth ("user '" +:+ name +:+ "' not found")) | Some u => modify (us_set_users (<[name := f u]> us)) end) ≫= g) (w, s) = g tt (w, us_set_users (<[name := f u]> (us_users s)) s)).
    { intros g. unfold mbind, M_bind, gets. cbn. by rewrite Hu. }
    rewrite Ha. unfold revoke_sessions_for. rewrite (mbind_eq _ _ _ _ (w, us_set_sessions (retain (λ s, negb (bool_decide (sn_username s = name))) (us_sessions s)) (us_set_users (<[name := f u]> (us_users s)) s))) by reflexivity.
    apply Hk. by apply HP.
  - unfold mbind at 1, M_bind at 1. unfold mbind, M_bind, gets. cbn. by rewrite Hu.
Qed.

(** What each operation keeps, given what a change of users and a revocation
    keep. *)
Record stable (P : gmap string UserRecord → gmap bytes Session → Prop) : Prop := {
  st_rights : ∀ us us' ss, same_rights us us' → P us ss → P us' ss;
  st_retain : ∀ us ss p, P us ss → P us (retain p ss);
  st_insert : ∀ us ss name u, P us ss → us !! name = None → P (<[name := u]> us) ss;
  st_revoke : ∀ us us' ss name, P us ss → delete name us = delete name us' →
    P us' (retain (λ s, negb (bool_decide (sn_username s = name))) ss);
  st_enable : ∀ us ss name u, P us ss → us !! name = Some u → P (<[name := u_set_enabled true u]> us) ss
}.

Lemma set_password_keeps P name pw : stable P → preserves (books P) (set_password name pw).
Proof.
  intros HP. unfold set_password. apply preserves_bind; [auto with preserves|intros h]. apply alter_revoke_keeps; [|apply persist_keeps].
  intros us ss u Hs Hu. eapply (st_revoke P HP); [exact Hs|by rewrite delete_insert_eq].
Qed.
Lemma set_role_keeps P name r : stable P → preserves (books P) (set_role name r).
Proof.
  intros HP. unfold set_role. apply alter_revoke_keeps; [|apply persist_keeps].
  intros us ss u Hs Hu. eapply (st_revoke P HP); [exact Hs|by rewrite delete_insert_eq].
Qed.
Lemma set_enabled_keeps P name b : stable P → preserves (books P) (set_enabled name b).
Proof.
  intros HP. unfold set_enabled. destruct b.
  - apply preserves_bind; [|intros; apply preserves_bind; [apply preserves_ret|intros; apply persist_keeps]].
    intros w s Hs. unfold alter_user. rewrite (mbind_eq _ _ _ (us_users s) (w, s)) by done.
    destruct (us_users s !! name) as [u|] eqn:Hu; [|done]. by apply (st_enable P HP).
  - apply alter_revoke_keeps; [|apply persist_keeps]. intros us ss u Hs Hu. eapply (st_revoke P HP); [exact Hs|by rewrite delete_insert_eq].
Qed.
Lemma delete_user_keeps P name : stable P → preserves (books P) (delete_user name).
Proof.
  intros HP w s Hs. unfold delete_user. rewrite (mbind_eq _ _ _ (us_users s) (w, s)) by done.
  destruct (us_users s !! name) as [u|] eqn:Hu; [|done].
  rewrite (mbind_eq _ _ _ tt (w, us_set_users (delete name (us_users s)) s)) by done.
  unfold revoke_sessions_for. rewrite (mbind_eq _ _ _ _ (w, us_set_sessions (retain (λ s, negb (bool_decide (sn_username s = name))) (us_sessions s)) (us_set_users (delete name (us_users s)) s))) by reflexivity.
  apply persist_keeps. eapply (st_revoke P HP); [exact Hs|]. cbn. by rewrite delete_delete_eq.
Qed.
Lemma create_user_keeps P name pw r d : stable P → preserves (books P) (create_user name pw r d).
Proof.
  intros HP. unfold create_user. apply preserves_bind; [auto with preserves|intros h]. apply preserves_bind; [auto with preserves|intros t].
  intros w s Hs. rewrite (mbind_eq _ _ _ (us_users s) (w, s)) by done. case_bool_decide as Hd; [done|].
  rewrite (mbind_eq _ _ _ tt (w, us_set_users (<[name := mkUser name h r true (to_rfc3339 t) d]> (us_users s)) s)) by done. apply persist_keeps. apply (st_insert P HP); [done|].
  by destruct (us_users s !! name); [destruct Hd; eexists|].
Qed.

(** Every operation but the one that issues a session. *)
Lemma user_run_keeps P o : stable P → (∀ name pw, o = OpAuthenticate name pw → preserves (books P) (authenticate name pw)) →
  preserves (books P) (user_run o).
Proof.
  intros HP Ha. destruct o; cbn [user_run].
  - apply preserves_bind; [by eapply Ha|intros; apply preserves_ret].
  - apply preserves_bind; [apply validate_token_keeps, HP|intros; apply preserves_ret].
  - by apply create_user_keeps.
  - by apply set_password_keeps.
  - by apply set_enabled_keeps.
  - by apply set_role_keeps.
  - by apply delete_user_keeps.
  - apply preserves_bind; [apply purge_keeps, HP|intros; apply preserves_ret].
Qed.

Lemma current_stable : stable current.
Proof.
  constructor.
  - apply current_rights.
  - apply current_retain.
  - intros us ss name u [Hc Hb] Hn. split; [|done]. eapply map_Forall_impl; [exact Hc|]. intros k x (Ht & v & Hv & He & Hr).
    split; [done|]. exists v. rewrite lookup_insert_ne by congruence. done.
  - intros us us' ss name [Hc Hb] Hd. split; [|etrans; [apply retain_size|done]].
    intros k x [Hx Hp]%map_lookup_filter_Some. cbn in Hp. case_bool_decide as Hn; [done|].
    destruct (Hc _ _ Hx) as (Ht & v & Hv & He & Hr). split; [done|]. exists v. split_and!; [|done..].
    rewrite <- (lookup_delete_ne us' name) by done. rewrite <- Hd. by rewrite lookup_delete_ne.
  - intros us ss name u [Hc Hb] Hu. split; [|done]. eapply map_Forall_impl; [exact Hc|]. intros k x (Ht & v & Hv & He & Hr).
    split; [done|]. destruct (decide (sn_username x = name)) as [<-|Hn].
    + exists (u_set_enabled true u). rewrite lookup_insert_eq. simplify_eq. done.
    + exists v. by rewrite lookup_insert_ne.
Qed.

Lemma user_steps_ok s s' : user_steps s s' → sessions_ok s → sessions_ok s'.
Proof.
  induction 1 as [s|s s1 s2 (o & W & ->) _ IH]; [done|]. intros Hs. apply IH, sessions_ok_current.
  apply user_run_keeps; [apply current_stable|intros; apply authenticate_ok|]. by apply sessions_ok_current.
Qed.

Lemma open_sessions_ok W c s W' c' : UserStore_open (W, c) = (Ok s, (W', c')) → sessions_ok s.
Proof.
  intros Ho. unfold UserStore_open in Ho. repeat (apply mbind_Ok_inv in Ho as (? & [? ?] & _ & Ho)).
  unfold mret, M_ret in Ho. simplify_eq. constructor; cbn; [apply map_Forall_empty|]. rewrite map_size_empty. lia.
Qed.

(** A token opens a session only with rights its user has now: take a user
    store opened from its files and changed by any sequence of logins, token
    checks, management operations and purges, in any environment; when
    [validate_token] returns a session, the session is the one filed under
    that token, it has not expired, its user exists and is enabled, and its
    role is the role the user has at this moment.  At most 4096 sessions are
    kept. *)
Theorem token_rights_current W0 c s0 W0' c' s W token x W' s' :
  UserStore_open (W0, c) = (Ok s0, (W0', c')) → user_steps s0 s → validate_token token (W, s) = (Ok x, (W', s')) →
  sn_token x = token ∧ clock W ≤ sn_expires_at x ∧ (size (us_sessions s) ≤ MAX_SESSIONS)%nat ∧
  ∃ u, us_users s !! sn_username x = Some u ∧ u_enabled u = true ∧ u_role u = sn_role x.
Proof.
  intros Ho Hst Hv. apply open_sessions_ok in Ho. apply user_steps_ok in Hst as [Hc Hb]; [|done].
  unfold validate_token in Hv. unfold mbind, M_bind, now, modify, gets in Hv. cbn in Hv.
  destruct (retain _ (us_sessions s) !! token) as [y|] eqn:Hy; [|done].
  apply map_lookup_filter_Some in Hy as [Hy He]. cbn in He, Hv. destruct (session_is_expired _ y) eqn:Hexp in Hv; [done|].
  unfold mret, M_ret in Hv. simplify_eq. destruct (Hc _ _ Hy) as [Ht Hu]. split_and!; [done| |done|done].
  apply negb_true_iff, Z.ltb_ge in He. unfold clock. lia.
Qed.

(** ** Revocation *)

Definition no_session (name : string) (us : gmap string UserRecord) (ss : gmap bytes Session) : Prop :=
  map_Forall (λ _ x, sn_username x ≠ name) ss.

Lemma no_session_stable name : stable (no_session name).
Proof. constructor; unfold no_session; auto using retain_Forall. Qed.

Lemma no_session_other name other pw : other ≠ name → preserves (books (no_session name)) (authenticate other pw).
Proof.
  intros Hn. apply authenticate_keeps; [done|]. intros tok x Hx w s [Hs _].
  assert (Hxn : sn_username x ≠ name) by congruence.
  pose proof (insert_session_Forall (λ _ _ y, sn_username y ≠ name) tok x w s (conj Hs Hxn)) as [Hs' _].
  by destruct (insert_session_bounded tok x (w, s)) as [[a|e] [w' s']].
Qed.

Lemma revoke_persist name : triple (λ _, True) (_ ← revoke_sessions_for name; persist) (λ _, books (no_session name)) (λ _, True).
Proof.
  eapply triple_bind; [|intros n; eapply triple_weaken; [apply triple_preserves, (persist_keeps (no_session name))|intros ? Hs; exact Hs|done|done]].
  intros w s _. unfold revoke_sessions_for, no_session, books. cbn. intros k x [_ Hx]%map_lookup_filter_Some. cbn in Hx. by case_bool_decide.
Qed.

Lemma op_revokes_triple name o : op_revokes name o → triple (λ _, True) (user_run o) (λ _, books (no_session name)) (λ _, True).
Proof.
  assert (Hany : ∀ A (m : UM A), triple (λ _, True) m (λ _ _, True) (λ _, True)).
  { intros A m w s _. by destruct (m (w, s)) as [[?|?] [? ?]]. }
  destruct o as [| | | |? [|]| | |]; cbn [op_revokes user_run]; try done; intros ->.
  - unfold set_password. eapply triple_bind; [apply Hany|intros ?]. eapply triple_bind; [apply Hany|intros ?]. apply revoke_persist.
  - unfold set_enabled. eapply triple_bind; [apply Hany|intros ?]. apply revoke_persist.
  - unfold set_role. eapply triple_bind; [apply Hany|intros ?]. apply revoke_persist.
  - unfold delete_user. eapply triple_bind; [apply Hany|intros ?]. case_match; [|by intros w s _].
    eapply triple_bind; [apply Hany|intros ?]. apply revoke_persist.
Qed.

(** C33: Revocation is final: once changing the password or the role of a user,
    disabling or deleting the user has returned [Ok], no token opens a session
    of that user after any further operations, until the user logs in
    again. *)
Theorem revocation_final name o W s W1 s1 s2 token W2 x W3 s3 :
  op_revokes name o → user_run o (W, s) = (Ok tt, (W1, s1)) →
  rtc (λ s s', ∃ o, ¬ op_issues name o ∧ user_step o s s') s1 s2 →
  validate_token token (W2, s2) = (Ok x, (W3, s3)) → sn_username x ≠ name.
Proof.
  intros Hr Ho Hst Hv. pose proof (op_revokes_triple name o Hr W s I) as Hs1. rewrite Ho in Hs1.
  assert (Hs2 : books (no_session name) s2).
  { clear Ho Hv. induction Hst as [s0|s0 s1 s2 (o' & Hn & W' & ->) _ IH]; [done|]. apply IH.
    apply user_run_keeps; [apply no_session_stable| |done]. intros other pw ->. by apply no_session_other. }
  unfold validate_token in Hv. unfold mbind, M_bind, now, modify, gets in Hv. cbn in Hv.
  destruct (retain _ (us_sessions s2) !! token) as [y|] eqn:Hy; [|done]. apply map_lookup_filter_Some in Hy as [Hy _].
  cbn in Hv. case_match; [done|]. unfold mret, M_ret in Hv. simplify_eq. by apply (Hs2 _ _ Hy).
Qed.

(** ** Lockout *)

Definition failure_of (name : string) (s : UserStore) : FailureState := default FailureState_new (us_failures s !! name).

(** [n] attempts that failed, one after the other, with any passwords and in
    any environments. *)
Inductive failed_run (name : string) (s : UserStore) : nat → UserStore → Prop :=
  | fr_start : failed_run name s 0 s
  | fr_next n s1 W pw e W' s2 :
      failed_run name s n s1 → authenticate name pw (W, s1) = (Err e, (W', s2)) → failed_run name s (S n) s2.

(** The failure state after a counted failure at time [t]. *)
Definition failure_next (t : Z) (f : FailureState) : FailureState :=
  let count := as_u32 (fs_count f + 1) in
  mkFailure count (if (MAX_FAILED_ATTEMPTS <=? count) && bool_decide (fs_locked_at f = None) then Some t else fs_locked_at f).

Lemma record_failure_run name W s :
  ∃ d W', record_failure name (W, s) =
    (Ok d, (W', us_set_failures (<[name := failure_next (clock W) (failure_of name s)]> (us_failures s)) s)).
Proof.
  unfold record_failure, failure_of, failure_next. rewrite (mbind_eq _ _ _ (us_failures s) (W, s)) by done. cbv zeta.
  destruct ((MAX_FAILED_ATTEMPTS <=? _) && _); by eexists _, _.
Qed.

Definition lock_reading (name : string) (W : World) (s : UserStore) : bool := is_locked (clock W) (failure_of name s).

(** The lockout check. *)
Lemma authenticate_locked name pw W s :
  lock_reading name W s = true →
  authenticate name pw (W, s) = (Err (SrvAuth "account temporarily locked — too many failed attempts"), (tick W, s)).
Proof.
  unfold lock_reading, failure_of, is_locked, authenticate. intros Hl.
  rewrite (mbind_eq _ _ _ (us_failures s) (W, s)) by done. destruct (us_failures s !! name) as [[c [t|]]|]; [|done..].
  cbn in Hl. unfold mbind, M_bind, now. cbn. unfold is_locked; cbn. fold (clock W). by rewrite Hl.
Qed.

(** Issuing a session does not fail. *)
Lemma issue_session_Ok name pw u : total (issue_session name pw u).
Proof. unfold issue_session, mint_token, lazy_rehash, insert_session_bounded. solve_total. Qed.

(** A login by cases. *)
Lemma authenticate_cases name pw W s :
  lock_reading name W s = false → ∃ W1,
  (∃ u, us_users s !! name = Some u ∧ u_enabled u = true ∧ argon_verify pw (u_password_hash u) = true ∧
     authenticate name pw (W, s) = issue_session name pw u (W1, s)) ∨
  (¬ (∃ u, us_users s !! name = Some u ∧ u_enabled u = true ∧ argon_verify pw (u_password_hash u) = true) ∧
   ∃ e W2, authenticate name pw (W, s) =
     (Err e, (W2, us_set_failures (<[name := failure_next (clock W1) (failure_of name s)]> (us_failures s)) s))).
Proof.
  intros Hl. unfold authenticate. rewrite (mbind_eq _ _ _ (us_failures s) (W, s)) by done.
  set (chk := match us_failures s !! name with Some _ => _ | None => _ end).
  assert (Hchk : ∃ W1, chk (W, s) = (Ok false, (W1, s))).
  { unfold chk, lock_reading, failure_of, is_locked in *. destruct (us_failures s !! name) as [[c [t|]]|]; [|by eexists..].
    eexists. unfold mbind, M_bind, now, is_locked. cbn in *. fold (clock W). by rewrite Hl. }
  destruct Hchk as [W1 Hchk]. rewrite (mbind_eq _ _ _ _ _ Hchk). cbv iota.
  rewrite (mbind_eq _ _ _ (us_users s) (W1, s)) by done.
  destruct (record_failure_run name W1 s) as (d & W2 & Hrf). exists W1.
  destruct (us_users s !! name) as [u|] eqn:Hu; [|right; split; [intros (? & ? & ? & ?); congruence|]; eexists _, _; by rewrite (mbind_eq _ _ _ _ _ Hrf)].
  destruct (u_enabled u) eqn:He; cbn [negb]; [|right; split; [intros (? & ? & ? & ?); congruence|]; eexists _, _; by rewrite (mbind_eq _ _ _ _ _ Hrf)].
  destruct (argon_verify pw (u_password_hash u)) eqn:Hpw; cbn [negb];
    [|right; split; [intros (? & ? & ? & ?); congruence|]; eexists _, _; by rewrite (mbind_eq _ _ _ _ _ Hrf)].
  left. eauto.
Qed.

(** A failed attempt was refused by the lockout or counted; it changes nothing
    but the counter. *)
Lemma authenticate_failed name pw W s e W' s' :
  authenticate name pw (W, s) = (Err e, (W', s')) →
  (lock_reading name W s = true ∧ s' = s) ∨
  (lock_reading name W s = false ∧ us_users s' = us_users s ∧ ∃ t, failure_of name s' = failure_next t (failure_of name s)).
Proof.
  intros Ha. destruct (lock_reading name W s) eqn:Hl; [rewrite authenticate_locked in Ha by done; simplify_eq; eauto|].
  right. split; [done|]. destruct (authenticate_cases name pw W s Hl) as (W1 & [(u & _ & _ & _ & Hi)|(_ & e' & W2 & Hf)]).
  - rewrite Hi in Ha. destruct (issue_session_Ok name pw u (W1, s)) as (x & [? ?] & Hx). by rewrite Hx in Ha.
  - rewrite Hf in Ha. simplify_eq. split; [done|]. exists (clock W1). unfold failure_of at 1. cbn. by rewrite lookup_insert_eq.
Qed.

(** Up to the fifth failure the account is open, the fifth locks it. *)
Lemma failed_run_count name s n s' :
  failure_of name s = FailureState_new → failed_run name s n s' → (n ≤ 5)%nat →
  fs_count (failure_of name s') = Z.of_nat n ∧ (is_Some (fs_locked_at (failure_of name s')) ↔ n = 5%nat).
Proof.
  intros H0' Hr. induction Hr as [|n s1 W pw e W' s2 Hr IH Ha]; intros Hn.
  { rewrite H0'. cbn. split; [done|]. split; [by intros []|lia]. }
  destruct (IH ltac:(lia)) as [Hc Hl]. apply authenticate_failed in Ha as [[Hlk _]|(_ & _ & t & Hf)].
  - exfalso. unfold lock_reading, is_locked in Hlk. destruct (fs_locked_at (failure_of name s1)); [|done].
    assert (n = 5%nat) by (apply Hl; by eexists). lia.
  - rewrite Hf. unfold failure_next. rewrite Hc. destruct (fs_locked_at (failure_of name s1)) as [t'|].
    { assert (n = 5%nat) by (apply Hl; by eexists). lia. }
    unfold as_u32. rewrite Z.mod_small by lia. cbn [fs_count fs_locked_at]. split; [lia|]. rewrite bool_decide_true by done. rewrite andb_true_r.
    unfold MAX_FAILED_ATTEMPTS. destruct (Z.leb_spec 5 (Z.of_nat n + 1)).
    + split; [lia|by eexists].
    + split; [by intros []|lia].
Qed.

(** Five failed logins in a row lock the account: from then on, for five
    minutes by the clock, every login for that name is refused, with the right
    password too, and changes nothing. *)
Theorem lockout_enforced name s s' pw W :
  failure_of name s = FailureState_new → failed_run name s 5 s' →
  ∃ t, fs_locked_at (failure_of name s') = Some t ∧
  (clock W < t + LOCKOUT_DURATION →
   authenticate name pw (W, s') = (Err (SrvAuth "account temporarily locked — too many failed attempts"), (tick W, s'))).
Proof.
  intros H0' Hr. destruct (failed_run_count _ _ _ _ H0' Hr ltac:(lia)) as [_ [_ Hl]]. destruct (Hl eq_refl) as [t Ht].
  exists t. split; [done|]. intros Hlt. apply authenticate_locked. unfold lock_reading, is_locked. rewrite Ht.
  apply Z.ltb_lt. unfold LOCKOUT_DURATION, SECOND in *. lia.
Qed.

(** The lockout happens once: after it has expired, no number of further
    failed logins locks the account again; the first login with the right
    password succeeds.  (The time of the first lockout is kept, and a new one is
    only noted when there is none.) *)
Theorem lockout_only_once name s t n s' pw u W :
  fs_locked_at (failure_of name s) = Some t → failed_run name s n s' → t + LOCKOUT_DURATION ≤ clock W →
  us_users s !! name = Some u → u_enabled u = true → argon_verify pw (u_password_hash u) = true →
  ∃ x σ, authenticate name pw (W, s') = (Ok x, σ).
Proof.
  intros Ht Hr Hlate Hu He Hpw.
  assert (Hinv : fs_locked_at (failure_of name s') = Some t ∧ us_users s' = us_users s).
  { induction Hr as [|n s1 W1 pw1 e W1' s2 Hr [Hl Hus] Ha]; [done|].
    apply authenticate_failed in Ha as [[_ ->]|(_ & Hus2 & t2 & Hf)]; [done|]. split; [|congruence].
    rewrite Hf. unfold failure_next. cbn. rewrite Hl. by rewrite bool_decide_false, andb_false_r by done. }
  destruct Hinv as [Hl Hus]. assert (Hopen : lock_reading name W s' = false).
  { unfold lock_reading, is_locked. rewrite Hl. apply Z.ltb_ge. unfold LOCKOUT_DURATION, SECOND in *. lia. }
  destruct (authenticate_cases name pw W s' Hopen) as (W1 & [(u' & _ & _ & _ & ->)|[Hno _]]); [apply issue_session_Ok|].
  exfalso. apply Hno. exists u. by rewrite Hus.
Qed.
End safety.
