(* ===== verification/Server.v ===== *)
(** * vledger-server: the connection handler

    Models [crates/vledger-server/src/handler.rs] and [protocol.rs]: the frames
    of a connection, its authentication gate, the admin commands, and the
    execution of SQL with its privilege check, domain filter, proofs,
    replication and audit events.  One event of a connection (a line, a
    timeout, the shutdown signal) is one step; a server is the ledger, the user
    store, the audit log and the shipper that all connections share.  JSON, error
    texts and the SQL parser are parameters; TLS and sockets are below the
    model.  The waiting time for the ledger lock, which the query timeout
    bounds, is an outcome of the environment. *)

From stdpp Require Import base gmap list strings option fin_maps pretty sorting.
From Stdlib Require Import ZArith Lia Strings.Byte.
From S2P Require Import Prelude Bytes Jsonl Crypto Merkle Money Entry AuditTrail WalRecord Wal Recovery Replication Tx Page EntryDb Sql Store SqlGuard SqlExec SqlPlan UserAuth.

#[local] Open Scope string_scope.
#[local] Open Scope Z_scope.
#[local] Open Scope list_scope.

(** ** The protocol *)

Inductive AdminCommand :=
  | CmdSetPassword (username new_password : string)
  | CmdCreateUser (username password role : string)
  | CmdDeleteUser (username : string)
  | CmdSetEnabled (username : string) (enabled : bool)
  | CmdListUsers
  | CmdSetRole (username role : string).

Record Request := mkRequest {
  rq_sql : option string;
  rq_auth : option (string * string);
  rq_token : option bytes;
  rq_with_proof : bool;
  rq_admin : option AdminCommand
}.

Record ProofJson := mkProofJson { pj_root_hex : bytes; pj_leaf_count : nat; pj_verified : bool }.

Record Response := mkResponse {
  rsp_ok : bool;
  rsp_error : option string;
  rsp_columns : list string;
  rsp_rows : list (list string);
  rsp_rows_affected : nat;
  rsp_proof : option ProofJson;
  rsp_message : string;
  rsp_token : option bytes;
  rsp_role : option string
}.

Definition Response_err (message : string) : Response := mkResponse false (Some message) [] [] 0 None "" None None.
Definition Response_auth_ok (token : bytes) (role : string) : Response :=
  mkResponse true None [] [] 0 None "authenticated" (Some token) (Some role).

Record ServerConfig := mkServerConfig {
  cfg_attach_proofs : bool;
  cfg_query_timeout_ms : Z;
  cfg_max_result_rows : nat
}.

(** What the handler gets from other crates. *)
Class ServerExt := {
  request_from_json : bytes → Result string Request;
  parse_sql : bytes → Result bytes (list Statement);
  expr_display : Expr → string;
  value_display : SqlValue → string;
  parse_error_text : ParseError → string;
  sql_error_text : SqlError → string;
  server_error_text : ServerError → string
}.

(** ** State *)

(** What the connections share; [C] is the type of the shipper's peers. *)
Section server.
Context `{Ed25519} {C : Type}.

Record Server := mkServer {
  sv_ledger : LedgerStore;
  sv_users : UserStore;
  sv_audit : option AuditLog;
  sv_shipper : option (WalShipper C)
}.

Definition sv_set_ledger l s := mkServer l (sv_users s) (sv_audit s) (sv_shipper s).
Definition sv_set_users u s := mkServer (sv_ledger s) u (sv_audit s) (sv_shipper s).
Definition sv_set_audit a s := mkServer (sv_ledger s) (sv_users s) (Some a) (sv_shipper s).
Definition sv_set_shipper x s := mkServer (sv_ledger s) (sv_users s) (sv_audit s) (Some x).
End server.
Arguments Server {_} C.

(** A connection: its session, the failed logins on it, what was sent. *)
Record Conn := mkConn {
  cn_session : option Session;
  cn_auth_failures : Z;
  cn_sent : list Response;
  cn_open : bool
}.
Definition Conn_new : Conn := mkConn None 0 [] true.
Definition cn_set_session s c := mkConn (Some s) (cn_auth_failures c) (cn_sent c) (cn_open c).
Definition send (r : Response) (c : Conn) : Conn := mkConn (cn_session c) (cn_auth_failures c) (cn_sent c ++ [r]) (cn_open c).
Definition close (c : Conn) : Conn := mkConn (cn_session c) (cn_auth_failures c) (cn_sent c) false.
Definition count_failure (c : Conn) : Conn := mkConn (cn_session c) (cn_auth_failures c + 1) (cn_sent c) (cn_open c).

Definition MAX_AUTH_ATTEMPTS_PER_CONN : Z := 5.
Definition MAX_LINE_BYTES : nat := Z.to_nat (4 * 1024 * 1024).

(** ** Reading a line *)

(** [AsyncBufReadExt::read_line]: up to and with the first line feed. *)
Fixpoint split_line (bs : bytes) : bytes * bytes :=
  match bs with
  | [] => ([], [])
  | b :: bs => if bool_decide (b = nl) then ([b], bs) else let '(l, rest) := split_line bs in (b :: l, rest)
  end.

Fixpoint trim_nl_rev (sb : bytes) : bytes :=
  match sb with b :: sb' => if bool_decide (b = nl) then trim_nl_rev sb' else sb | [] => [] end.

(** The loop of [read_line_bounded]; the first round either ends or reaches
    the end of the stream, so two rounds are enough. *)
Fixpoint read_line_loop (fuel max_bytes : nat) (buf stream : bytes) : option (Result unit (option bytes) * bytes) :=
  match fuel with
  | O => None
  | S fuel =>
      if (max_bytes <? length buf)%nat then Some (Err tt, stream)
      else
        let '(l, rest) := split_line stream in
        match l with
        | [] => Some (Ok (match buf with [] => None | _ => Some buf end), rest)
        | _ =>
            if negb (utf8_valid l) then Some (Err tt, rest)
            else
              let buf := buf ++ l in
              if bool_decide (last buf = Some nl) then Some (Ok (Some (rev (trim_nl_rev (rev buf)))), rest)
              else read_line_loop fuel max_bytes buf rest
        end
  end.

Definition read_line_bounded (max_bytes : nat) (stream : bytes) : option (Result unit (option bytes) * bytes) :=
  read_line_loop 2 max_bytes [] stream.

(** ** Plans *)

(** The filter of a scan under a user's domain. *)
Definition domain_filtered (d : string) (filter : option EntryFilter) : option EntryFilter :=
  match filter with
  | Some (ByDomain _) => Some (ByDomain d)
  | Some other => Some other
  | None => Some (ByDomain d)
  end.

Definition apply_domain_filter (plan : LogicalPlan) (domain : option string) : LogicalPlan :=
  match domain with
  | Some d =>
      if bool_decide (d = "") then plan
      else match plan with
           | ScanEntries filter projections => ScanEntries (domain_filtered d filter) projections
           | ScanLedgerLines filter projections => ScanLedgerLines (domain_filtered d filter) projections
           | ScanAccounts filter projections => ScanAccounts (domain_filtered d filter) projections
           | other => other
           end
  | None => plan
  end.

Definition cap_rows {A} (rows : list A) (max : nat) : list A :=
  if ((0 <? max) && (max <? length rows))%nat then take max rows else rows.

Definition is_post_entry (p : LogicalPlan) : bool := match p with PostEntry _ => true | _ => false end.
Definition is_write_plan (p : LogicalPlan) : bool := match p with PostEntry _ | CreateAccount _ => true | _ => false end.

Section handler.
Context `{Blake3} `{Blake3Keyed} `{Ed25519} `{!WalExt} `{!PageExt} `{LedgerCodecs} `{LedgerExt} `{SqlExt}.
Context `{Hex} `{AuthExt} `{AuditExt} `{ReplExt} `{ServerExt}.
Context {C : Type} (exchange : bytes → C → Answer * C) (peer_addr : string) (config : ServerConfig).

Notation HM := (M (Server C) Empty_set).

Definition on_ledger {E A} (m : M LedgerStore E A) : HM (Result E A) := attempt (zoom sv_ledger sv_set_ledger m).
Definition on_users {A} (m : M UserStore ServerError A) : HM (Result ServerError A) := attempt (zoom sv_users sv_set_users m).

(** [if let Some(log) = audit_log { let _ = log.append(kind); }] *)
Definition audit_event (kind : AuditEventKind) : HM unit :=
  a ← gets sv_audit;
  match a with
  | Some log => _ ← attempt (F:=AuditError) (zoom (λ _, log) sv_set_audit (AuditTrail.append kind)); mret tt
  | None => mret tt
  end.

(** [Response::ok] *)
Definition leaf_verifies (root : Hash) (lp : LeafProof) : bool :=
  bool_decide (foldl step_hash (lp_leaf_hash lp) (lp_path lp) = root).
Definition proof_json (p : QueryProof) : ProofJson :=
  mkProofJson (hex_enc (qp_root p)) (length (qp_leaf_proofs p)) (forallb (leaf_verifies (qp_root p)) (qp_leaf_proofs p)).
Definition Response_ok (columns : list string) (rows : list Row) (rows_affected : nat) (proof : option QueryProof)
    (message : string) : Response :=
  mkResponse true None columns (map (λ r, map value_string (row_values r)) rows) rows_affected (proof_json <$> proof)
    message None None.

(** ** SQL *)

Definition result_response (qr : QueryResult) : Response :=
  Response_ok (qr_columns qr) (cap_rows (qr_rows qr) (cfg_max_result_rows config)) (qr_rows_affected qr) (qr_proof qr) (qr_message qr).

(** Waiting for the lock of the ledger: with a timeout configured it may
    expire. *)
Definition lock_ledger : HM (Result string unit) :=
  if 0 <? cfg_query_timeout_ms config
  then attempt (io ("query_timeout: query exceeded the " +:+ pretty (cfg_query_timeout_ms config) +:+ "ms limit set by the server"))
  else mret (Ok tt).

Definition query_event (sql : string) (session : Session) (qr : QueryResult) (elapsed_ms : Z) : AuditEventKind :=
  QueryExecuted sql (sn_username session) (Z.of_nat (qr_rows_affected qr)) elapsed_ms.

Definition ship_entry (entry_bytes : option bytes) (segment : Z) : HM unit :=
  sh ← gets sv_shipper;
  match entry_bytes, sh with
  | Some bs, Some s => modify (sv_set_shipper (ship exchange bs segment s).2)
  | _, _ => mret tt
  end.

(** The write branch of [execute_sql]. *)
Definition execute_write (sql : string) (attach : bool) (session : Session) (plan : LogicalPlan) (start : Z) : HM Response :=
  l ← lock_ledger;
  match l with
  | Err e => mret (Response_err e)
  | Ok _ =>
      result ← on_ledger (execute attach plan);
      store ← gets sv_ledger;
      let entry_bytes := if is_ok result && is_post_entry plan then ls_last_bytes store else None in
      _ ← ship_entry entry_bytes (seg_index (ww_active (tm_wal (ls_tx store))));
      t ← now;
      let elapsed_ms := (t - start) / 1000000 in
      match result with
      | Ok qr =>
          _ ← (if is_post_entry plan then
                 id ← match qr_entry_id qr with Some id => mret id | None => rand end;
                 audit_event (EntryPosted id (default 0 (qr_entry_sequence qr)) (default "" (qr_domain qr))
                                (default 0 (qr_amount_sum qr)) (sn_username session))
               else mret tt);
          _ ← audit_event (query_event sql session qr elapsed_ms);
          mret (result_response qr)
      | Err e => mret (Response_err (sql_error_text e))
      end
  end.

(** The read branch. *)
Definition execute_read (sql : string) (attach : bool) (session : Session) (plan : LogicalPlan) (start : Z) : HM Response :=
  l ← lock_ledger;
  match l with
  | Err e => mret (Response_err e)
  | Ok _ =>
      result ← on_ledger (read_execute attach plan);
      t ← now;
      match result with
      | Ok qr =>
          _ ← audit_event (query_event sql session qr ((t - start) / 1000000));
          mret (result_response qr)
      | Err e => mret (Response_err (sql_error_text e))
      end
  end.

Definition execute_sql (sql : string) (with_proof : bool) (session : Session) : HM Response :=
  start ← now;
  match parse_one parse_sql (str_bytes sql) with
  | None => mret (Response_err "SQL parse error")
  | Some (Err e) => mret (Response_err ("SQL parse error: " +:+ parse_error_text e))
  | Some (Ok stmt) =>
      match plan expr_display value_display stmt with
      | Err e => mret (Response_err ("Plan error: " +:+ sql_error_text e))
      | Ok plan =>
          match check_plan_privilege (sn_role session) plan with
          | Err e => mret (Response_err ("Permission denied: " +:+ e))
          | Ok _ =>
              users ← gets sv_users;
              let plan := apply_domain_filter plan (domain_filter (sn_username session) users) in
              let attach := cfg_attach_proofs config || with_proof in
              if is_write_plan plan then execute_write sql attach session plan start
              else execute_read sql attach session plan start
          end
      end
  end.

(** ** Admin commands *)

(** The answer to a management operation. *)
Definition admin_answer (columns : list string) (message : string) (r : Result ServerError unit) : Response :=
  match r with
  | Ok _ => Response_ok columns [] 0 None message
  | Err e => Response_err (server_error_text e)
  end.

Definition user_row (u : string * Role * bool) : Row :=
  let '(name, role, enabled) := u in
  mkRow ["username"; "role"; "enabled"] [VText name; VText (role_text role); VText (if enabled : bool then "true" else "false")].

Definition username_le (a b : string * Role * bool) : Prop := String.leb a.1.1 b.1.1 = true.
#[global] Instance username_le_dec : RelDecision username_le := λ a b, bool_eq_dec (String.leb a.1.1 b.1.1) true.

Definition execute_admin (cmd : AdminCommand) : HM Response :=
  match cmd with
  | CmdSetPassword username new_password =>
      r ← on_users (set_password username new_password);
      mret (admin_answer ["result"] ("Password updated for '" +:+ username +:+ "'. All sessions revoked.") r)
  | CmdCreateUser username password role =>
      match role_from_str role with
      | Err e => mret (Response_err e)
      | Ok parsed =>
          r ← on_users (create_user username password parsed None);
          mret (admin_answer [] ("User '" +:+ username +:+ "' created with role '" +:+ role +:+ "'.") r)
      end
  | CmdDeleteUser username =>
      r ← on_users (delete_user username);
      mret (admin_answer [] ("User '" +:+ username +:+ "' deleted.") r)
  | CmdSetEnabled username enabled =>
      r ← on_users (set_enabled username enabled);
      mret (admin_answer [] ("User '" +:+ username +:+ "' " +:+ (if enabled then "enabled" else "disabled") +:+ ".") r)
  | CmdListUsers =>
      us ← gets sv_users;
      let users := merge_sort username_le (list_users us) in
      mret (Response_ok ["username"; "role"; "enabled"] (map user_row users) (length users) None
              (pretty (length users) +:+ " user(s)"))
  | CmdSetRole username role =>
      match role_from_str role with
      | Err e => mret (Response_err e)
      | Ok parsed =>
          r ← on_users (set_role username parsed);
          mret (admin_answer [] ("User '" +:+ username +:+ "' role changed to '" +:+ role +:+ "'. All sessions revoked.") r)
      end
  end.

(** ** The connection loop *)

Definition auth_required : string :=
  "authentication required — send {" +:+ dquoted "auth" +:+ ":{" +:+ dquoted "username" +:+ ":…," +:+ dquoted "password" +:+ ":…}} first".

(** The authentication gate: the connection after it, and whether the frame
    goes on to be executed. *)
Definition auth_gate (req : Request) (cn : Conn) : HM (Conn * bool) :=
  match cn_session cn with
  | None =>
      result ← match rq_auth req with
               | Some (u, p) => r ← on_users (authenticate u p); mret (res_map_err server_error_text r)
               | None =>
                   match rq_token req with
                   | Some token => r ← on_users (validate_token token); mret (res_map_err server_error_text r)
                   | None => mret (Err auth_required)
                   end
               end;
      match result with
      | Err e =>
          let cn := count_failure cn in
          _ ← audit_event (AuthEvent (match rq_auth req with Some (u, _) => u | None => "unknown" end) false peer_addr);
          if MAX_AUTH_ATTEMPTS_PER_CONN <=? cn_auth_failures cn
          then mret (close (send (Response_err "too many authentication failures — reconnect to try again") cn), false)
          else mret (close (send (Response_err e) cn), false)
      | Ok s =>
          _ ← audit_event (AuthEvent (sn_username s) true peer_addr);
          let cn := cn_set_session s cn in
          match rq_sql req with
          | None => mret (send (Response_auth_ok (sn_token s) (role_text (sn_role s))) cn, false)
          | Some _ => mret (cn, true)
          end
      end
  | Some _ =>
      match rq_token req with
      | None => mret (cn, true)
      | Some token =>
          r ← on_users (validate_token token);
          match r with
          | Ok s => mret (cn_set_session s cn, true)
          | Err e => mret (close (send (Response_err (server_error_text e)) cn), false)
          end
      end
  end.

(** A frame after the gate: [sess] is the connection's session. *)
Definition run_frame (req : Request) (sess : Session) (cn : Conn) : HM Conn :=
  match rq_admin req with
  | Some cmd =>
      if negb (can_admin (sn_role sess)) then
        mret (send (Response_err ("Permission denied: role '" +:+ role_text (sn_role sess) +:+ "' cannot perform admin operations")) cn)
      else r ← execute_admin cmd; mret (send r cn)
  | None =>
      match rq_sql req with
      | Some sql => r ← execute_sql sql (rq_with_proof req) sess; mret (send r cn)
      | None => mret (send (Response_auth_ok (sn_token sess) (role_text (sn_role sess))) cn)
      end
  end.

Definition handle_request (req : Request) (cn : Conn) : HM Conn :=
  g ← auth_gate req cn;
  let '(cn, go) := g in
  if (go : bool) then match cn_session cn with Some sess => run_frame req sess cn | None => mret cn end
  else mret cn.

Inductive ConnEvent :=
  | EvShutdown
  | EvTimeout
  | EvRead (r : Result unit (option bytes)).

(** One round of the loop of [handle_connection]. *)
Definition conn_step (ev : ConnEvent) (cn : Conn) : HM Conn :=
  match ev with
  | EvShutdown => mret (close (send (Response_err "server shutting down") cn))
  | EvTimeout =>
      mret (close (send (Response_err (match cn_session cn with
        | None => "authentication timeout: no credentials received within 30s"
        | Some _ => "idle timeout: no request received within 300s" end)) cn))
  | EvRead (Ok (Some line)) =>
      if blank line then mret cn
      else match request_from_json line with
           | Err e => mret (send (Response_err ("Invalid JSON: " +:+ e)) cn)
           | Ok req => handle_request req cn
           end
  | EvRead (Ok None) => mret (close cn)
  | EvRead (Err _) => mret (close cn)
  end.
End handler.
