(* ===== verification/ServerSafety.v ===== *)
(** * vledger-server: what a connection can do

    The ledger changes only under a session with the right role; a connection
    that never authenticates changes nothing but counters; the size limit on
    request lines holds only for the last, unterminated line; an open
    connection keeps the rights of its session after they were revoked; and
    the domain filter of a user does not apply to scans with a condition. *)

From stdpp Require Import base gmap list strings option fin_maps.
From Stdlib Require Import ZArith Lia Strings.Byte.
From S2P Require Import Prelude Bytes Jsonl Crypto Merkle Money Entry AuditTrail WalRecord Wal Recovery Replication Tx Page EntryDb Sql Store StoreFrame SqlGuard SqlExec SqlSafety SqlPlan SqlFront UserAuth UserSafety Server.

#[local] Open Scope string_scope.
#[local] Open Scope Z_scope.
#[local] Open Scope list_scope.

Section safety.
Context `{Blake3} `{Blake3Keyed} `{Ed25519} `{!WalExt} `{!PageExt} `{LedgerCodecs} `{LedgerExt} `{SqlExt}.
Context `{Hex} `{AuthExt} `{AuditExt} `{ReplExt} `{ServerExt}.
Context {C : Type} (exchange : bytes → C → Answer * C) (peer_addr : string) (config : ServerConfig).

Notation HM := (M (Server C) Empty_set).

(** The ledger of the server is [l]. *)
Definition ledger_is (l : LedgerStore) (s : Server C) : Prop := sv_ledger s = l.

Lemma on_users_keeps {A} l (m : M UserStore ServerError A) : preserves (ledger_is l) (on_users m).
Proof. apply preserves_attempt, preserves_zoom. by intros u s. Qed.
Lemma audit_event_keeps l k : preserves (ledger_is l) (audit_event k).
Proof.
  unfold audit_event. apply preserves_bind; [apply preserves_gets|]. intros [log|]; [|apply preserves_ret].
  apply preserves_bind; [|intros; apply preserves_ret]. apply preserves_attempt, preserves_zoom. by intros a s.
Qed.
Lemma ship_entry_keeps l bs seg : preserves (ledger_is l) (ship_entry exchange bs seg).
Proof. unfold ship_entry. solve_preserves; apply preserves_modify; by intros s. Qed.
Lemma lock_ledger_keeps l : preserves (ledger_is l) (lock_ledger config).
Proof. unfold lock_ledger. case_match; auto with preserves. Qed.
Hint Resolve on_users_keeps audit_event_keeps ship_entry_keeps lock_ledger_keeps : preserves.

Lemma on_ledger_read l proofs p : preserves (ledger_is l) (on_ledger (read_execute proofs p)).
Proof.
  apply preserves_attempt. apply (preserves_zoom_field (λ s, s = l)); [done|]. apply read_execute_keeps.
Qed.
Hint Resolve on_ledger_read : preserves.

Lemma execute_read_keeps l sql a sess p t : preserves (ledger_is l) (execute_read config sql a sess p t).
Proof. unfold execute_read. solve_preserves. Qed.
Hint Resolve execute_read_keeps : preserves.

Lemma filter_write p d : is_write_plan (apply_domain_filter p d) = is_write_plan p.
Proof. unfold apply_domain_filter. destruct d as [d|]; [|done]. case_match; [done|]. by destruct p. Qed.

Definition may_write (r : Role) : bool := can_insert_ledger r && can_insert_accounts r.

Lemma write_privilege r p : check_plan_privilege r p = Ok tt → is_write_plan p = true → may_write r = true.
Proof. by destruct p, r. Qed.

Lemma execute_sql_keeps l sql proof sess :
  may_write (sn_role sess) = false → preserves (ledger_is l) (execute_sql exchange config sql proof sess).
Proof.
  intros Hr. unfold execute_sql. apply preserves_bind; [apply preserves_now|intros start].
  destruct (parse_one parse_sql (str_bytes sql)) as [[stmt|e]|]; [|apply preserves_ret..].
  destruct (plan expr_display value_display stmt) as [p|e]; [|apply preserves_ret].
  destruct (check_plan_privilege (sn_role sess) p) as [[]|e] eqn:Hc; [|apply preserves_ret].
  apply preserves_bind; [apply preserves_gets|intros us]. cbv zeta. rewrite filter_write.
  destruct (is_write_plan p) eqn:Hw; [|auto with preserves]. by rewrite (write_privilege _ _ Hc Hw) in Hr.
Qed.

Lemma execute_admin_keeps l cmd : preserves (ledger_is l) (execute_admin cmd).
Proof. unfold execute_admin. destruct cmd; solve_preserves. Qed.

Lemma auth_gate_keeps l req cn : preserves (ledger_is l) (auth_gate peer_addr req cn).
Proof.
  unfold auth_gate. destruct (cn_session cn).
  - solve_preserves.
  - apply preserves_bind; [solve_preserves|]. intros [s|e].
    + apply preserves_bind; [auto with preserves|]. intros. case_match; apply preserves_ret.
    + apply preserves_bind; [auto with preserves|]. intros. case_match; apply preserves_ret.
Qed.

(** The session a frame is executed under: the connection's, or one that the
    user store returned while handling the frame. *)
Definition issued (us : UserStore) (sess : Session) : Prop :=
  (∃ name pw W W' us', authenticate name pw (W, us) = (Ok sess, (W', us'))) ∨
  (∃ token W W' us', validate_token token (W, us) = (Ok sess, (W', us'))).

Lemma on_users_run {A} (m : M UserStore ServerError A) W (sv : Server C) r W' (sv' : Server C) :
  on_users m (W, sv) = (Ok (E:=Empty_set) r, (W', sv')) → ∃ us', m (W, sv_users sv) = (r, (W', us')) ∧ sv' = sv_set_users us' sv.
Proof.
  unfold on_users, attempt, zoom. destruct (m (W, sv_users sv)) as [x [W1 us1]]. intros Hx. simplify_eq/=. eauto.
Qed.

Lemma auth_gate_session req cn W (sv : Server C) cn' W' (sv' : Server C) sess :
  auth_gate peer_addr req cn (W, sv) = (Ok (cn', true), (W', sv')) → cn_session cn' = Some sess →
  cn_session cn = Some sess ∨ issued (sv_users sv) sess.
Proof.
  unfold auth_gate. destruct (cn_session cn) as [s0|] eqn:Hcn.
  - destruct (rq_token req) as [token|]; [|intros Hg; minv; intros; left; congruence].
    intros (r & [W1 sv1] & Hr & Hg)%mbind_Ok_inv Hs. apply on_users_run in Hr as (us' & Hv & ->).
    destruct r as [s|e]; minv. right; right. by eexists token, W, _, us'.
  - intros (r & [W1 sv1] & Hr & Hg)%mbind_Ok_inv Hs. destruct r as [s|e].
    2: { apply mbind_Ok_inv in Hg as (? & ? & _ & Hg). by case_match; minv. }
    apply mbind_Ok_inv in Hg as (? & ? & _ & Hg). destruct (rq_sql req); minv. right.
    destruct (rq_auth req) as [[u p]|].
    + apply mbind_Ok_inv in Hr as (r & [W2 sv2] & Hr & Hx). apply on_users_run in Hr as (us' & Hv & ->).
      destruct r as [s'|]; minv. left. by eexists u, p, W, _, us'.
    + destruct (rq_token req) as [token|]; [|minv].
      apply mbind_Ok_inv in Hr as (r & [W2 sv2] & Hr & Hx). apply on_users_run in Hr as (us' & Hv & ->).
      destruct r as [s'|]; minv. right. by eexists token, W, _, us'.
Qed.

Lemma auth_gate_users_closed req cn W (sv : Server C) cn' W' (sv' : Server C) :
  auth_gate peer_addr req cn (W, sv) = (Ok (cn', false), (W', sv')) → sv_ledger sv' = sv_ledger sv.
Proof. intros Hg. pose proof (auth_gate_keeps (sv_ledger sv) req cn W sv eq_refl) as Hk. by rewrite Hg in Hk. Qed.

Lemma run_frame_keeps l req sess cn :
  may_write (sn_role sess) = false → preserves (ledger_is l) (run_frame exchange config req sess cn).
Proof.
  intros Hw. unfold run_frame. destruct (rq_admin req) as [cmd|].
  - case_match; [apply preserves_ret|]. apply preserves_bind; [apply execute_admin_keeps|intros; apply preserves_ret].
  - destruct (rq_sql req); [|apply preserves_ret].
    apply preserves_bind; [by apply execute_sql_keeps|intros; apply preserves_ret].
Qed.

Lemma run_frame_session req sess cn W (sv : Server C) cn' W' (sv' : Server C) :
  run_frame exchange config req sess cn (W, sv) = (Ok cn', (W', sv')) → cn_session cn' = cn_session cn.
Proof. unfold run_frame. intros Hr. repeat case_match; minv; done. Qed.

(** C34: Only an authorised session changes the ledger: when one event of a
    connection (a request line of any content, a timeout, the shutdown)
    changes the ledger, the connection's session afterwards has a role that may
    post entries and create accounts, and it is the session the connection had
    or one the user store returned for a correct password or a valid token
    within this event. *)
Theorem ledger_changes_authorised ev cn W (sv : Server C) cn' W' (sv' : Server C) :
  conn_step exchange peer_addr config ev cn (W, sv) = (Ok cn', (W', sv')) → sv_ledger sv' ≠ sv_ledger sv →
  ∃ sess, cn_session cn' = Some sess ∧ may_write (sn_role sess) = true ∧
    (cn_session cn = Some sess ∨ issued (sv_users sv) sess).
Proof.
  intros Hs Hne. destruct ev as [| |[[line|]|]]; try (minv; done). cbn in Hs.
  destruct (blank line); [minv; done|]. destruct (request_from_json line) as [req|e]; [|minv; done].
  unfold handle_request in Hs. apply mbind_Ok_inv in Hs as ([cn1 go] & [W1 sv1] & Hg & Hs).
  pose proof (auth_gate_keeps (sv_ledger sv) req cn W sv eq_refl) as Hk. rewrite Hg in Hk. unfold ledger_is in Hk; cbn in Hk.
  destruct go; [|minv; done]. destruct (cn_session cn1) as [sess|] eqn:Hc; [|minv; done].
  exists sess. pose proof (run_frame_session _ _ _ _ _ _ _ _ Hs) as Hc'. rewrite Hc'. split; [done|]. split.
  - destruct (may_write (sn_role sess)) eqn:Hw; [done|]. destruct Hne.
    pose proof (run_frame_keeps (sv_ledger sv) req sess cn1 Hw W1 sv1 Hk) as Hr. by rewrite Hs in Hr.
  - by eapply auth_gate_session.
Qed.

(** ** Stale sessions *)

(** An open connection keeps its rights: a frame without a token is executed
    under the session of the connection whatever the user store says by then.
    The gate neither looks at the store nor at the expiry time, so disabling or
    deleting the user, or the end of the session's lifetime, does not stop the
    connection from posting. *)
Theorem open_connection_not_revalidated req cn sess σ :
  cn_session cn = Some sess → rq_token req = None →
  handle_request exchange peer_addr config req cn σ = run_frame exchange config req sess cn σ.
Proof.
  intros Hc Ht. unfold handle_request, auth_gate. rewrite Hc, Ht. by rewrite (mbind_eq _ _ _ (cn, true) σ), Hc.
Qed.
End safety.

(** ** The line limit *)

Lemma split_line_terminated l rest : nl ∉ l → split_line (l ++ nl :: rest) = (l ++ [nl], rest).
Proof.
  induction l as [|b l IH]; cbn; intros Hn.
  - by rewrite bool_decide_true.
  - rewrite bool_decide_false by set_solver. rewrite IH by set_solver. done.
Qed.

Lemma split_line_last l : nl ∉ l → split_line l = (l, []).
Proof.
  induction l as [|b l IH]; cbn; intros Hn; [done|]. rewrite bool_decide_false by set_solver. by rewrite IH by set_solver.
Qed.

Lemma trim_nl_once l : nl ∉ l → rev (trim_nl_rev (rev (l ++ [nl]))) = l.
Proof.
  intros Hn. rewrite rev_app_distr. cbn. rewrite bool_decide_true by done.
  assert (Ht : trim_nl_rev (rev l) = rev l).
  { destruct (rev l) as [|b r] eqn:Hr; [done|]. cbn. rewrite bool_decide_false; [done|]. intros ->. apply Hn.
    apply list_elem_of_In, in_rev. rewrite Hr. by left. }
  by rewrite Ht, rev_involutive.
Qed.

(** The limit on request lines holds only for an unterminated last line: a
    line that ends in a line feed is accepted at any length and returned
    without it; without a line feed, more than the limit is refused. *)
Theorem line_limit_exact max_bytes line rest :
  nl ∉ line →
  (utf8_valid (line ++ [nl]) = true → read_line_bounded max_bytes (line ++ nl :: rest) = Some (Ok (Some line), rest)) ∧
  (utf8_valid line = true → (max_bytes < length line)%nat → read_line_bounded max_bytes line = Some (Err tt, [])) ∧
  (utf8_valid line = true → (0 < length line ≤ max_bytes)%nat → read_line_bounded max_bytes line = Some (Ok (Some line), [])).
Proof.
  intros Hn. unfold read_line_bounded, read_line_loop. cbn [length]. replace (max_bytes <? 0)%nat with false by (symmetry; apply Nat.ltb_ge; lia).
  assert (Hlast : line ≠ [] → last line ≠ Some nl).
  { intros Hne Hl. apply Hn. apply last_Some_elem_of in Hl. done. }
  split; [|split].
  - intros Hu. rewrite (split_line_terminated line rest Hn). destruct (line ++ [nl]) as [|b l0] eqn:Hl; [by destruct line|].
    rewrite Hu. cbn [negb app]. rewrite <- Hl, last_snoc, bool_decide_true by done. by rewrite trim_nl_once.
  - intros Hu Hlen. rewrite split_line_last by done. destruct line as [|b l0] eqn:Hl; [cbn in *; lia|]. rewrite <- Hl in *.
    rewrite Hu. cbn [negb app]. rewrite bool_decide_false by (apply Hlast; congruence).
    by replace (max_bytes <? length line)%nat with true by (symmetry; apply Nat.ltb_lt; lia).
  - intros Hu Hlen. rewrite split_line_last by done. destruct line as [|b l0] eqn:Hl; [cbn in *; lia|]. rewrite <- Hl in *.
    rewrite Hu. cbn [negb app]. rewrite bool_decide_false by (apply Hlast; congruence).
    replace (max_bytes <? length line)%nat with false by (symmetry; apply Nat.ltb_ge; lia). cbn. by rewrite Hl.
Qed.

(** ** The domain filter *)

(** The filter of a user's domain is in force on a scan exactly when the
    statement has no condition or a condition on the domain. *)
Lemma domain_filtered_exact d f :
  domain_filtered d f = Some (ByDomain d) ↔
  match f with None | Some (ByDomain _) => True | Some f => False end ∨ f = Some (ByDomain d).
Proof. destruct f as [[]|]; cbn; naive_solver. Qed.
