(* ===== verification/PgCodec.v ===== *)
(** * vledger-pgwire: frames and messages

    Models [crates/vledger-pgwire/src/codec.rs] and [messages.rs]: the
    length-prefixed frames of the PostgreSQL protocol, the startup packet, the
    messages of the client and the messages the server builds, with
    [String::from_utf8_lossy] from the standard library.  The theorems: what
    the server writes is read back as the messages it built, rows and
    parameters read back as what was sent, and the texts taken from a client are
    valid UTF-8. *)

From stdpp Require Import base gmap list strings option fin_maps.
From Stdlib Require Import ZArith Lia Strings.Byte.
From S2P Require Import Prelude Bytes Jsonl WalRecord.

(** ** Big-endian integers *)

Definition be_bytes (n : nat) (z : Z) : bytes := rev (le_bytes n z).
Definition be_val (bs : bytes) : Z := le_val (rev bs).

Lemma be_bytes_length n z : length (be_bytes n z) = n.
Proof. unfold be_bytes. by rewrite length_rev, le_bytes_length. Qed.
Lemma be_val_bytes n z : be_val (be_bytes n z) = z mod 256 ^ Z.of_nat n.
Proof. unfold be_val, be_bytes. by rewrite rev_involutive, le_val_bytes. Qed.

(** ** Frames *)

Inductive CodecError := UnexpectedEof | InvalidData.

Definition MAX_STARTUP_PAYLOAD : nat := Z.to_nat 65536.
Definition MAX_MESSAGE_PAYLOAD : nat := Z.to_nat (16 * 1024 * 1024).

(** The payload announced by a length field that counts itself. *)
Definition read_payload (limit : nat) (len : Z) (rest : bytes) : Result CodecError (bytes * bytes) :=
  if len <? 4 then Err InvalidData
  else
    let payload_len := Z.to_nat (len - 4) in
    if (limit <? payload_len)%nat then Err InvalidData
    else ok_or (read_exact payload_len rest) UnexpectedEof.

(** [read_startup], [read_message]: the result and the unread rest. *)
Definition read_startup (stream : bytes) : Result CodecError (bytes * bytes) :=
  '(len_buf, rest) ← ok_or (read_exact 4 stream) UnexpectedEof;
  read_payload MAX_STARTUP_PAYLOAD (be_val len_buf) rest.

Definition read_message (stream : bytes) : Result CodecError (byte * bytes * bytes) :=
  '(hdr, rest) ← ok_or (read_exact 5 stream) UnexpectedEof;
  '(payload, rest) ← read_payload MAX_MESSAGE_PAYLOAD (be_val (tail hdr)) rest;
  Ok (default Byte.x00 (head hdr), payload, rest).

(** ** UTF-8 with replacement *)

Definition replacement : bytes := [Byte.xef; Byte.xbf; Byte.xbd].

Definition cont_at (r : bytes) : bool := match r with b :: _ => is_cont b | [] => false end.
Definition in_range_at (lo hi : Z) (r : bytes) : bool := match r with b :: _ => in_range lo hi b | [] => false end.

(** One step of [Utf8Chunks]: whether a character starts here, and the number
    of bytes of the character or of the maximal invalid prefix. *)
Definition char_step (b0 : byte) (r0 : bytes) : bool * nat :=
  let c := Z_of_byte b0 in
  if c <=? 127 then (true, 1%nat)
  else if (194 <=? c) && (c <=? 223) then
    if cont_at r0 then (true, 2%nat) else (false, 1%nat)
  else if (224 <=? c) && (c <=? 239) then
    if in_range_at (if c =? 224 then 160 else 128) (if c =? 237 then 159 else 191) r0 then
      if cont_at (tail r0) then (true, 3%nat) else (false, 2%nat)
    else (false, 1%nat)
  else if (240 <=? c) && (c <=? 244) then
    if in_range_at (if c =? 240 then 144 else 128) (if c =? 244 then 143 else 191) r0 then
      if cont_at (tail r0) then
        if cont_at (tail (tail r0)) then (true, 4%nat) else (false, 3%nat)
      else (false, 2%nat)
    else (false, 1%nat)
  else (false, 1%nat).

(** Every step takes at least one byte, so the length is enough fuel. *)
Fixpoint lossy_loop (fuel : nat) (bs : bytes) : bytes :=
  match fuel, bs with
  | S fuel, b0 :: r0 =>
      let '(ok, n) := char_step b0 r0 in
      (if ok : bool then take n bs else replacement) ++ lossy_loop fuel (drop n bs)
  | _, _ => []
  end.

Definition from_utf8_lossy (bs : bytes) : bytes := lossy_loop (length bs) bs.

(** ** The startup packet *)

Definition SSL_REQUEST_CODE : Z := 80877103.
Definition CANCEL_REQUEST_CODE : Z := 80877102.
Definition PROTOCOL_VERSION_3 : Z := 196608.

Record StartupMessage := mkStartup {
  sm_protocol_version : Z;
  sm_params : gmap bytes bytes
}.

Definition NUL : byte := Byte.x00.

(** The bytes before the first NUL and those after it. *)
Fixpoint split_nul (bs : bytes) : option (bytes * bytes) :=
  match bs with
  | [] => None
  | b :: bs => if bool_decide (b = NUL) then Some ([], bs) else '(s, rest) ← split_nul bs; Some (b :: s, rest)
  end.

Definition read_cstr (buf : bytes) : option (bytes * bytes) :=
  '(s, rest) ← split_nul buf; Some (from_utf8_lossy s, rest).

(** Each round takes at least one byte. *)
Fixpoint parse_params (fuel : nat) (buf : bytes) (params : gmap bytes bytes) : option (gmap bytes bytes) :=
  match fuel, buf with
  | S fuel, _ :: _ =>
      '(key, buf) ← read_cstr buf;
      match key with
      | [] => Some params
      | _ => '(val, buf) ← read_cstr buf; parse_params fuel buf (<[key := val]> params)
      end
  | _, _ => Some params
  end.

Definition StartupMessage_parse (buf : bytes) : option StartupMessage :=
  if (length buf <? 4)%nat then None
  else
    let protocol_version := be_val (take 4 buf) in
    if (protocol_version =? SSL_REQUEST_CODE) || (protocol_version =? CANCEL_REQUEST_CODE)
    then Some (mkStartup protocol_version ∅)
    else params ← parse_params (length buf) (drop 4 buf) ∅; Some (mkStartup protocol_version params).

(** ** Messages of the client *)

Inductive FrontendMessage :=
  | Query (sql : bytes)
  | Parse (name query : bytes)
  | Bind (portal statement : bytes)
  | Describe (kind : byte) (name : bytes)
  | Execute (portal : bytes)
  | Sync
  | Flush
  | Terminate
  | Unknown (t : byte).

Definition read_cstr_pos (buf : bytes) : bytes * bytes :=
  match split_nul buf with
  | Some (s, rest) => (from_utf8_lossy s, rest)
  | None => (from_utf8_lossy buf, [])
  end.

Definition FrontendMessage_parse (msg_type : byte) (payload : bytes) : FrontendMessage :=
  match msg_type with
  | Byte.x51 => Query (read_cstr_pos payload).1
  | Byte.x50 => let '(name, rest) := read_cstr_pos payload in Parse name (read_cstr_pos rest).1
  | Byte.x42 => let '(portal, rest) := read_cstr_pos payload in Bind portal (read_cstr_pos rest).1
  | Byte.x44 => Describe (default Byte.x53 (head payload)) (read_cstr_pos (drop 1 payload)).1
  | Byte.x45 => Execute (read_cstr_pos payload).1
  | Byte.x53 => Sync
  | Byte.x48 => Flush
  | Byte.x58 => Terminate
  | other => Unknown other
  end.

(** ** Messages of the server *)

Definition len32 (n : nat) : bytes := be_bytes 4 (as_u32 (Z.of_nat n)).

Definition auth_ok : bytes := Byte.x52 :: be_bytes 4 8 ++ be_bytes 4 0.
Definition auth_cleartext_password : bytes := Byte.x52 :: be_bytes 4 8 ++ be_bytes 4 3.
Definition parameter_status (name value : bytes) : bytes :=
  let payload_len := (length name + 1 + length value + 1)%nat in
  Byte.x53 :: len32 (4 + payload_len) ++ name ++ [NUL] ++ value ++ [NUL].
Definition backend_key_data (pid secret : Z) : bytes := Byte.x4b :: be_bytes 4 12 ++ be_bytes 4 pid ++ be_bytes 4 secret.
Definition ready_for_query (tx_status : byte) : bytes := Byte.x5a :: be_bytes 4 5 ++ [tx_status].

Record FieldDesc := mkField {
  fd_name : bytes;
  fd_type_oid : Z;
  fd_type_size : Z;
  fd_type_mod : Z;
  fd_format_code : Z
}.
Definition FieldDesc_text (name : bytes) : FieldDesc := mkField name 25 (-1) (-1) 0.
Definition FieldDesc_bigint (name : bytes) : FieldDesc := mkField name 20 8 (-1) 0.

Definition field_bytes (f : FieldDesc) : bytes :=
  fd_name f ++ [NUL] ++ be_bytes 4 0 ++ be_bytes 2 0 ++ be_bytes 4 (fd_type_oid f) ++ be_bytes 2 (fd_type_size f) ++
  be_bytes 4 (fd_type_mod f) ++ be_bytes 2 (fd_format_code f).

Definition row_description (fields : list FieldDesc) : bytes :=
  let payload := be_bytes 2 (as_u16 (Z.of_nat (length fields))) ++ concat (map field_bytes fields) in
  Byte.x54 :: len32 (4 + length payload) ++ payload.

Definition value_bytes (v : option bytes) : bytes :=
  match v with
  | None => be_bytes 4 (-1)
  | Some s => be_bytes 4 (Z.of_nat (length s)) ++ s
  end.

Definition data_row (values : list (option bytes)) : bytes :=
  let payload := be_bytes 2 (as_u16 (Z.of_nat (length values))) ++ concat (map value_bytes values) in
  Byte.x44 :: len32 (4 + length payload) ++ payload.

Definition command_complete (tag : bytes) : bytes := Byte.x43 :: len32 (4 + length tag + 1) ++ tag ++ [NUL].
Definition empty_query_response : bytes := Byte.x49 :: be_bytes 4 4.

Definition push_field (code : byte) (val : bytes) : bytes := code :: val ++ [NUL].
Definition error_response (severity sqlstate message : bytes) : bytes :=
  let payload := push_field Byte.x53 severity ++ push_field Byte.x56 severity ++ push_field Byte.x43 sqlstate ++
    push_field Byte.x4d message ++ [NUL] in
  Byte.x45 :: len32 (4 + length payload) ++ payload.
Definition notice_response (message : bytes) : bytes :=
  let payload := push_field Byte.x53 (str_bytes "NOTICE") ++ push_field Byte.x4d message ++ [NUL] in
  Byte.x4e :: len32 (4 + length payload) ++ payload.
Definition parse_complete : bytes := Byte.x31 :: be_bytes 4 4.
Definition bind_complete : bytes := Byte.x32 :: be_bytes 4 4.
Definition no_data : bytes := Byte.x6e :: be_bytes 4 4.

(** ** Framing *)

(** A well-formed frame within the reader's limit. *)
Definition frame (t : byte) (payload : bytes) : bytes := t :: len32 (4 + length payload) ++ payload.
Definition framed (m : bytes) (t : byte) (payload : bytes) : Prop :=
  m = frame t payload ∧ (length payload ≤ MAX_MESSAGE_PAYLOAD)%nat.

Lemma be_val_small n z : 0 ≤ z < 256 ^ Z.of_nat n → be_val (be_bytes n z) = z.
Proof. intros Hz. rewrite be_val_bytes. by rewrite Z.mod_small. Qed.

Lemma be_val_len32 n : Z.of_nat n < 2 ^ 32 → be_val (len32 n) = Z.of_nat n.
Proof.
  intros Hn. unfold len32. rewrite be_val_small; unfold as_u32; rewrite Z.mod_small by lia; [done|].
  change (256 ^ Z.of_nat 4) with (2 ^ 32). lia.
Qed.

Lemma message_limit : Z.of_nat MAX_MESSAGE_PAYLOAD = 16777216.
Proof. unfold MAX_MESSAGE_PAYLOAD. by rewrite Z2Nat.id. Qed.

Lemma read_payload_app limit payload rest :
  (length payload ≤ limit)%nat → read_payload limit (4 + Z.of_nat (length payload)) (payload ++ rest) = Ok (payload, rest).
Proof.
  intros Hl. unfold read_payload. destruct (Z.ltb_spec (4 + Z.of_nat (length payload)) 4); [lia|].
  replace (Z.to_nat (4 + Z.of_nat (length payload) - 4)) with (length payload) by lia.
  destruct (Nat.ltb_spec limit (length payload)); [lia|]. by rewrite read_exact_app.
Qed.

Lemma read_message_frame m t payload rest : framed m t payload → read_message (m ++ rest) = Ok (t, payload, rest).
Proof.
  intros [-> Hl]. unfold read_message, frame. pose proof message_limit as Hm.
  rewrite app_comm_cons, <- app_assoc.
  rewrite read_exact_app by (cbn [length]; unfold len32; by rewrite be_bytes_length). cbn [ok_or mbind Result_bind tail head default].
  rewrite be_val_len32 by lia. replace (Z.of_nat (4 + length payload)) with (4 + Z.of_nat (length payload)) by lia.
  by rewrite read_payload_app.
Qed.

(** ** UTF-8 with replacement is UTF-8 *)

Lemma char_step_pos b r : (0 < (char_step b r).2)%nat.
Proof. unfold char_step. repeat case_match; cbn; lia. Qed.

Lemma in_range_at_cons lo hi r : in_range_at lo hi r = true → ∃ b r', r = b :: r' ∧ in_range lo hi b = true.
Proof. destruct r as [|b r]; [done|]. by exists b, r. Qed.
Lemma cont_at_cons r : cont_at r = true → ∃ b r', r = b :: r' ∧ is_cont b = true.
Proof. destruct r as [|b r]; [done|]. by exists b, r. Qed.

(** A step that finds a character: the character is decoded in any context. *)
Lemma char_step_ok b0 r0 n :
  char_step b0 r0 = (true, n) → ∃ c, ∀ rest, utf8_decode (take n (b0 :: r0) ++ rest) = cons c <$> utf8_decode rest.
Proof.
  unfold char_step. intros Hs. destruct (Z_of_byte b0 <=? 127) eqn:E1.
  { simplify_eq. exists (Z_of_byte b0). intros rest. cbn. by rewrite E1. }
  destruct ((194 <=? Z_of_byte b0) && (Z_of_byte b0 <=? 223)) eqn:E2.
  { destruct (cont_at r0) eqn:Ec; [|done]. apply cont_at_cons in Ec as (b1 & r1 & -> & Hb1). simplify_eq.
    eexists. intros rest. cbn. by rewrite E1, E2, Hb1. }
  destruct ((224 <=? Z_of_byte b0) && (Z_of_byte b0 <=? 239)) eqn:E3.
  { destruct (in_range_at _ _ r0) eqn:Er; [|done]. apply in_range_at_cons in Er as (b1 & r1 & -> & Hb1). cbn [tail] in Hs.
    destruct (cont_at r1) eqn:Ec; [|done]. apply cont_at_cons in Ec as (b2 & r2 & -> & Hb2). simplify_eq.
    eexists. intros rest. cbn. by rewrite E1, E2, E3, Hb1, Hb2. }
  destruct ((240 <=? Z_of_byte b0) && (Z_of_byte b0 <=? 244)) eqn:E4; [|done].
  destruct (in_range_at _ _ r0) eqn:Er; [|done]. apply in_range_at_cons in Er as (b1 & r1 & -> & Hb1). cbn [tail] in Hs.
  destruct (cont_at r1) eqn:Ec; [|done]. apply cont_at_cons in Ec as (b2 & r2 & -> & Hb2). cbn [tail] in Hs.
  destruct (cont_at r2) eqn:Ec; [|done]. apply cont_at_cons in Ec as (b3 & r3 & -> & Hb3). simplify_eq.
  eexists. intros rest. cbn. by rewrite E1, E2, E3, E4, Hb1, Hb2, Hb3.
Qed.

(** On well-formed text every step finds a character. *)
Lemma char_step_valid b0 r0 : is_Some (utf8_decode (b0 :: r0)) → (char_step b0 r0).1 = true.
Proof.
  unfold char_step. cbn. destruct (Z_of_byte b0 <=? 127); [done|].
  destruct ((194 <=? Z_of_byte b0) && (Z_of_byte b0 <=? 223)).
  { destruct r0 as [|b1 r0]; cbn; [by intros []|]. by destruct (is_cont b1); [|intros []]. }
  destruct ((224 <=? Z_of_byte b0) && (Z_of_byte b0 <=? 239)).
  { destruct r0 as [|b1 [|b2 r0]]; cbn; [by intros []..|]. destruct (in_range _ _ b1); cbn; [|by intros []].
    by destruct (is_cont b2); [|intros []]. }
  destruct ((240 <=? Z_of_byte b0) && (Z_of_byte b0 <=? 244)); [|by intros []].
  destruct r0 as [|b1 [|b2 [|b3 r0]]]; cbn; [by intros []..|]. destruct (in_range _ _ b1); cbn; [|by intros []].
  destruct (is_cont b2); cbn; [|by intros []]. by destruct (is_cont b3); [|intros []].
Qed.

Lemma replacement_decodes rest : utf8_decode (replacement ++ rest) = cons 65533 <$> utf8_decode rest.
Proof. done. Qed.

Lemma lossy_loop_valid fuel : ∀ bs, is_Some (utf8_decode (lossy_loop fuel bs)).
Proof.
  induction fuel as [|fuel IH]; intros [|b0 r0]; cbn [lossy_loop]; [by eexists..|].
  destruct (char_step b0 r0) as [[|] n] eqn:Hs.
  - apply char_step_ok in Hs as [c Hc]. rewrite Hc. destruct (IH (drop n (b0 :: r0))) as [cs ->]. by eexists.
  - rewrite replacement_decodes. destruct (IH (drop n (b0 :: r0))) as [cs ->]. by eexists.
Qed.

Lemma from_utf8_lossy_valid bs : utf8_valid (from_utf8_lossy bs) = true.
Proof. apply bool_decide_true, lossy_loop_valid. Qed.

Lemma lossy_loop_id fuel : ∀ bs, (length bs ≤ fuel)%nat → is_Some (utf8_decode bs) → lossy_loop fuel bs = bs.
Proof.
  induction fuel as [|fuel IH]; intros [|b0 r0] Hl Hv; cbn [lossy_loop]; [done|cbn in Hl; lia|done|].
  pose proof (char_step_valid _ _ Hv) as Hok. pose proof (char_step_pos b0 r0) as Hpos.
  destruct (char_step b0 r0) as [ok n] eqn:Hs. cbn in Hok, Hpos. subst ok. pose proof (char_step_ok _ _ _ Hs) as [c Hc].
  rewrite IH; [apply take_drop|rewrite length_drop; cbn [length] in *; lia|].
  specialize (Hc (drop n (b0 :: r0))). rewrite take_drop in Hc. rewrite Hc in Hv. destruct Hv as [cs Hv].
  destruct (utf8_decode (drop n (b0 :: r0))); [by eexists|done].
Qed.

Lemma from_utf8_lossy_id bs : utf8_valid bs = true → from_utf8_lossy bs = bs.
Proof. unfold utf8_valid. rewrite bool_decide_eq_true. by apply lossy_loop_id. Qed.

(** ** Texts in messages *)

(** A text the protocol can carry. *)
Definition c_text (s : bytes) : Prop := NUL ∉ s ∧ utf8_valid s = true.

Lemma split_nul_app s rest : NUL ∉ s → split_nul (s ++ NUL :: rest) = Some (s, rest).
Proof.
  induction s as [|b s IH]; intros Hn; cbn; [by rewrite bool_decide_true|].
  rewrite bool_decide_false by set_solver. by rewrite IH by set_solver.
Qed.
Lemma read_cstr_app s rest : c_text s → read_cstr (s ++ NUL :: rest) = Some (s, rest).
Proof. intros [Hn Hv]. unfold read_cstr. rewrite split_nul_app by done. cbn. by rewrite from_utf8_lossy_id. Qed.
Lemma read_cstr_pos_app s rest : c_text s → read_cstr_pos (s ++ NUL :: rest) = (s, rest).
Proof. intros [Hn Hv]. unfold read_cstr_pos. rewrite split_nul_app by done. by rewrite from_utf8_lossy_id. Qed.

(** A startup packet as a client sends it. *)
Definition param_bytes (kv : bytes * bytes) : bytes := kv.1 ++ NUL :: kv.2 ++ [NUL].
Definition startup_bytes (version : Z) (params : list (bytes * bytes)) : bytes :=
  be_bytes 4 version ++ concat (map param_bytes params) ++ [NUL].

Lemma parse_params_step fuel k v rest acc : k ≠ [] → c_text k → c_text v →
  parse_params (S fuel) (param_bytes (k, v) ++ rest) acc = parse_params fuel rest (<[k := v]> acc).
Proof.
  intros Hk Hkt Hvt. assert (Hb : param_bytes (k, v) ++ rest = k ++ NUL :: v ++ NUL :: rest).
  { unfold param_bytes. cbn [fst snd]. rewrite <- app_assoc. cbn [app]. by rewrite <- app_assoc. }
  rewrite Hb. pose proof (read_cstr_app k (v ++ NUL :: rest) Hkt) as Hr. destruct k as [|b k]; [done|]. cbn [app parse_params] in *.
  rewrite Hr. cbn [mbind option_bind]. by rewrite read_cstr_app.
Qed.

Lemma parse_params_ok ps : ∀ fuel acc, (length (concat (map param_bytes ps) ++ [NUL]) ≤ fuel)%nat →
  Forall (λ kv, kv.1 ≠ [] ∧ c_text kv.1 ∧ c_text kv.2) ps →
  parse_params fuel (concat (map param_bytes ps) ++ [NUL]) acc = Some (foldl (λ m kv, <[kv.1 := kv.2]> m) acc ps).
Proof.
  induction ps as [|[k v] ps IH]; intros [|fuel] acc Hf Hps; cbn [map concat] in *.
  1, 2, 3: by (rewrite ?length_app in Hf; cbn in Hf; (lia || done)).
  apply Forall_cons in Hps as [(Hk & Hkt & Hvt) Hps]. rewrite <- app_assoc, parse_params_step by done. apply IH; [|done].
  unfold param_bytes at 1 in Hf. rewrite !length_app in *. cbn [length fst snd] in Hf. rewrite length_app in Hf. cbn [length] in *. lia.
Qed.

(** What [StartupMessage::parse] makes of a packet a client sends: the version
    and the parameters; the last of several values wins. *)
Lemma startup_roundtrip version ps : 0 ≤ version < 2 ^ 32 → version ≠ SSL_REQUEST_CODE → version ≠ CANCEL_REQUEST_CODE →
  Forall (λ kv, kv.1 ≠ [] ∧ c_text kv.1 ∧ c_text kv.2) ps →
  StartupMessage_parse (startup_bytes version ps) = Some (mkStartup version (foldl (λ m kv, <[kv.1 := kv.2]> m) ∅ ps)).
Proof.
  intros Hv H1' H2' Hps. unfold StartupMessage_parse, startup_bytes. rewrite length_app, be_bytes_length.
  rewrite take_app_length', drop_app_length' by (by rewrite be_bytes_length). rewrite be_val_small by done.
  destruct (Z.eqb_spec version SSL_REQUEST_CODE), (Z.eqb_spec version CANCEL_REQUEST_CODE); try done. cbn [orb].
  destruct (Nat.ltb_spec (4 + length (concat (map param_bytes ps) ++ [NUL])) 4); [lia|].
  rewrite parse_params_ok by (lia || done). done.
Qed.

(** ** Rows *)

(** Reading a row on the client's side. *)
Fixpoint read_values (n : nat) (bs : bytes) : option (list (option bytes)) :=
  match n with
  | O => match bs with [] => Some [] | _ => None end
  | S n =>
      '(l, bs) ← read_exact 4 bs;
      if be_val l =? 2 ^ 32 - 1 then cons None <$> read_values n bs
      else '(s, bs) ← read_exact (Z.to_nat (be_val l)) bs; cons (Some s) <$> read_values n bs
  end.
Definition read_row (payload : bytes) : option (list (option bytes)) :=
  '(c, bs) ← read_exact 2 payload; read_values (Z.to_nat (be_val c)) bs.

Definition value_fits (v : option bytes) : Prop := match v with Some s => Z.of_nat (length s) < 2 ^ 31 | None => True end.

Lemma read_values_ok vs : Forall value_fits vs → read_values (length vs) (concat (map value_bytes vs)) = Some vs.
Proof.
  induction 1 as [|v vs Hv _ IH]; [done|]. cbn [length map concat read_values]. destruct v as [s|]; cbn [value_bytes].
  - rewrite <- app_assoc, read_exact_app by apply be_bytes_length. cbn [mbind option_bind]. cbn in Hv.
    rewrite be_val_small by (change (256 ^ Z.of_nat 4) with (2 ^ 32); lia).
    destruct (Z.eqb_spec (Z.of_nat (length s)) (2 ^ 32 - 1)); [lia|].
    rewrite Nat2Z.id, read_exact_app by done. cbn [mbind option_bind]. by rewrite IH.
  - rewrite read_exact_app by apply be_bytes_length. cbn [mbind option_bind]. rewrite be_val_bytes.
    change ((-1) mod 256 ^ Z.of_nat 4) with (2 ^ 32 - 1). rewrite Z.eqb_refl. by rewrite IH.
Qed.

Definition row_payload (vs : list (option bytes)) : bytes :=
  be_bytes 2 (as_u16 (Z.of_nat (length vs))) ++ concat (map value_bytes vs).

Lemma read_row_ok vs : Z.of_nat (length vs) < 2 ^ 16 → Forall value_fits vs → read_row (row_payload vs) = Some vs.
Proof.
  intros Hl Hv. unfold read_row, row_payload. rewrite read_exact_app by apply be_bytes_length. cbn [mbind option_bind].
  unfold as_u16. rewrite be_val_small by (rewrite Z.mod_small by lia; change (256 ^ Z.of_nat 2) with (2 ^ 16); lia).
  rewrite Z.mod_small, Nat2Z.id by lia. by apply read_values_ok.
Qed.

(** ** Sequences of messages *)

(** Read [n] messages. *)
Fixpoint read_messages (n : nat) (stream : bytes) : Result CodecError (list (byte * bytes) * bytes) :=
  match n with
  | O => Ok ([], stream)
  | S n => '(t, payload, stream) ← read_message stream; '(ms, rest) ← read_messages n stream; Ok ((t, payload) :: ms, rest)
  end.

Lemma read_messages_frames ms tps rest :
  Forall2 (λ m tp, framed m tp.1 tp.2) ms tps → read_messages (length ms) (concat ms ++ rest) = Ok (tps, rest).
Proof.
  induction 1 as [|m [t pl] ms tps Hm _ IH]; [done|]. cbn [length concat read_messages fst snd] in *.
  rewrite <- app_assoc, (read_message_frame _ _ _ _ Hm). cbn [mbind Result_bind]. rewrite IH. done.
Qed.

(** A message the server builds: a frame of some type and payload, when it fits
    the reader's limit. *)
Definition is_frame (m : bytes) : Prop := ∃ t payload, m = frame t payload.

Lemma be_bytes_len32 n : Z.of_nat n < 2 ^ 32 → be_bytes 4 (Z.of_nat n) = len32 n.
Proof. intros Hn. unfold len32, as_u32. by rewrite Z.mod_small by lia. Qed.

Lemma auth_ok_frame : is_frame auth_ok.
Proof. by exists Byte.x52, (be_bytes 4 0). Qed.
Lemma auth_cleartext_frame : is_frame auth_cleartext_password.
Proof. by exists Byte.x52, (be_bytes 4 3). Qed.
Lemma parameter_status_frame n v : is_frame (parameter_status n v).
Proof.
  exists Byte.x53, (n ++ [NUL] ++ v ++ [NUL]). unfold parameter_status, frame. do 3 f_equal. rewrite !length_app. cbn. lia.
Qed.
Lemma backend_key_frame p k : is_frame (backend_key_data p k).
Proof.
  exists Byte.x4b, (be_bytes 4 p ++ be_bytes 4 k). unfold frame, backend_key_data. by rewrite length_app, !be_bytes_length.
Qed.
Lemma ready_frame t : is_frame (ready_for_query t).
Proof. by exists Byte.x5a, [t]. Qed.
Lemma row_description_frame fs : is_frame (row_description fs).
Proof. by eexists _, _. Qed.
Lemma data_row_frame vs : is_frame (data_row vs).
Proof. by eexists _, _. Qed.
Lemma command_complete_frame t : is_frame (command_complete t).
Proof. exists Byte.x43, (t ++ [NUL]). unfold command_complete, frame. do 3 f_equal. rewrite length_app. cbn. lia. Qed.
Lemma empty_query_frame : is_frame empty_query_response.
Proof. by exists Byte.x49, []. Qed.
Lemma error_frame a b c : is_frame (error_response a b c).
Proof. by eexists _, _. Qed.
Lemma notice_frame m : is_frame (notice_response m).
Proof. by eexists _, _. Qed.
Lemma parse_complete_frame : is_frame parse_complete.
Proof. by exists Byte.x31, []. Qed.
Lemma bind_complete_frame : is_frame bind_complete.
Proof. by exists Byte.x32, []. Qed.
Lemma no_data_frame : is_frame no_data.
Proof. by exists Byte.x6e, []. Qed.

Create HintDb frames discriminated.
#[export] Hint Resolve auth_ok_frame auth_cleartext_frame parameter_status_frame backend_key_frame ready_frame
  row_description_frame data_row_frame command_complete_frame empty_query_frame error_frame notice_frame
  parse_complete_frame bind_complete_frame no_data_frame : frames.

(** Frames within the limit, sent one after the other, are read back one by
    one. *)
Lemma frames_read_back ms rest :
  Forall is_frame ms → Forall (λ m, (length m ≤ 5 + MAX_MESSAGE_PAYLOAD)%nat) ms →
  ∃ tps, map (λ tp, frame tp.1 tp.2) tps = ms ∧ read_messages (length ms) (concat ms ++ rest) = Ok (tps, rest).
Proof.
  intros Hf Hl. assert (Hx : ∃ tps, Forall2 (λ m tp, framed m tp.1 tp.2) ms tps).
  { induction Hf as [|m ms (t & pl & ->) _ IH]; [by exists []; constructor|]. apply Forall_cons in Hl as [Hm Hl].
    destruct (IH Hl) as [tps Ht]. exists ((t, pl) :: tps). constructor; [|done]. split; [done|]. cbn [snd].
    unfold frame in Hm. cbn [length] in Hm. unfold len32 in Hm. rewrite length_app, be_bytes_length in Hm. lia. }
  destruct Hx as [tps Ht]. exists tps. split; [|by apply read_messages_frames].
  clear Hf Hl. induction Ht as [|m [t pl] ms tps [-> _] _ IH]; [done|]. cbn [map fst snd]. by rewrite IH.
Qed.

(** What the server sends is what it built: any sequence of messages made by
    the message builders, each within the size limit, is read back from the
    stream message by message, whatever follows; a data row is read back as
    exactly its values, NULLs included; and a query sent by a client reaches the
    server as the same text, while any other payload still gives valid UTF-8. *)
Theorem pg_messages_roundtrip ms rest vs sql payload :
  Forall is_frame ms → Forall (λ m, (length m ≤ 5 + MAX_MESSAGE_PAYLOAD)%nat) ms →
  (∃ tps, map (λ tp, frame tp.1 tp.2) tps = ms ∧ read_messages (length ms) (concat ms ++ rest) = Ok (tps, rest)) ∧
  (Z.of_nat (length vs) < 2 ^ 16 → Forall value_fits vs → data_row vs = frame Byte.x44 (row_payload vs) ∧ read_row (row_payload vs) = Some vs) ∧
  (c_text sql → FrontendMessage_parse Byte.x51 (sql ++ [NUL]) = Query sql) ∧
  (∃ text, FrontendMessage_parse Byte.x51 payload = Query text ∧ utf8_valid text = true).
Proof.
  intros Hf Hl. split_and!.
  - by apply frames_read_back.
  - intros Hn Hv. split; [done|]. by apply read_row_ok.
  - intros Hs. cbn. by rewrite read_cstr_pos_app.
  - cbn. eexists. split; [done|]. unfold read_cstr_pos. destruct (split_nul payload) as [[s r]|]; apply from_utf8_lossy_valid.
Qed.
