(* ===== verification/PgWire.v ===== *)
(** * vledger-pgwire: the server

    Models [crates/vledger-pgwire/src/server.rs]: the negotiation before TLS,
    the startup and password phases, and the query loop with its transaction
    status byte, the statements answered without the parser, and the execution
    of the rest.  A connection is a state machine: one read (a packet, a
    timeout, the shutdown signal, the end of the stream) is one step.  Both
    listeners share the ledger and the user store, so the state is the [Server]
    of the native protocol.  Not modelled: the accept loop with its rate limiter
    and the TLS handshake itself. *)

From stdpp Require Import base gmap list strings option fin_maps pretty.
From Stdlib Require Import ZArith Lia Strings.Byte.
From S2P Require Import Prelude Bytes Jsonl Crypto Merkle Money Entry AuditTrail WalRecord Wal Recovery Replication Tx Page EntryDb Sql Store SqlGuard SqlExec SqlPlan UserAuth Server PgCodec.

#[local] Open Scope Z_scope.
#[local] Open Scope list_scope.

(** ** Text *)

Fixpoint starts_with (p s : bytes) : bool :=
  match p, s with
  | [], _ => true
  | a :: p, b :: s => bool_decide (a = b) && starts_with p s
  | _ :: _, [] => false
  end.
(** [str::to_uppercase]: the ASCII letters, and the other letters whose upper
    case has an ASCII letter in it (dotless i, long s, sharp s, the f and st
    ligatures, and the letters that become one with a mark).  The upper case of
    every other character has no ASCII byte, and the texts it is compared with
    are ASCII, so those bytes are left alone. *)
Definition upper_byte (b : byte) : byte :=
  let c := Z_of_byte b in if (97 <=? c) && (c <=? 122) then byte_of_Z (c - 32) else b.
Definition SPECIAL_UPPER : list (bytes * bytes) :=
  [([Byte.xc4; Byte.xb1], str_bytes "I"); ([Byte.xc5; Byte.xbf], str_bytes "S"); ([Byte.xc3; Byte.x9f], str_bytes "SS");
   ([Byte.xef; Byte.xac; Byte.x80], str_bytes "FF"); ([Byte.xef; Byte.xac; Byte.x81], str_bytes "FI");
   ([Byte.xef; Byte.xac; Byte.x82], str_bytes "FL"); ([Byte.xef; Byte.xac; Byte.x83], str_bytes "FFI");
   ([Byte.xef; Byte.xac; Byte.x84], str_bytes "FFL"); ([Byte.xef; Byte.xac; Byte.x85], str_bytes "ST");
   ([Byte.xef; Byte.xac; Byte.x86], str_bytes "ST"); ([Byte.xc5; Byte.x89], [Byte.xca; Byte.xbc] ++ str_bytes "N");
   ([Byte.xc7; Byte.xb0], str_bytes "J" ++ [Byte.xcc; Byte.x8c]); ([Byte.xe1; Byte.xba; Byte.x96], str_bytes "H" ++ [Byte.xcc; Byte.xb1]);
   ([Byte.xe1; Byte.xba; Byte.x97], str_bytes "T" ++ [Byte.xcc; Byte.x88]); ([Byte.xe1; Byte.xba; Byte.x98], str_bytes "W" ++ [Byte.xcc; Byte.x8a]);
   ([Byte.xe1; Byte.xba; Byte.x99], str_bytes "Y" ++ [Byte.xcc; Byte.x8a]); ([Byte.xe1; Byte.xba; Byte.x9a], str_bytes "A" ++ [Byte.xca; Byte.xbe])].
(** [skip] bytes of a character already written are passed over. *)
Fixpoint upper_from (skip : nat) (s : bytes) : bytes :=
  match s, skip with
  | [], _ => []
  | _ :: s, S skip => upper_from skip s
  | b :: s', O =>
      match List.find (λ x, starts_with x.1 s) SPECIAL_UPPER with
      | Some (from, to) => to ++ upper_from (pred (length from)) s'
      | None => upper_byte b :: upper_from 0 s'
      end
  end.
Definition upper (s : bytes) : bytes := upper_from 0 s.

Fixpoint bytes_contain (p s : bytes) : bool :=
  starts_with p s || match s with [] => false | _ :: s => bytes_contain p s end.

Definition starts (p : string) (s : bytes) : bool := starts_with (str_bytes p) s.
Definition one_of (l : list string) (s : bytes) : bool := existsb (λ p, bool_decide (str_bytes p = s)) l.

(** ** Transaction status *)

Definition IDLE : byte := Byte.x49.
Definition IN_TX : byte := Byte.x54.
Definition IN_ERROR : byte := Byte.x45.

(** [if *tx_status == b'T' { *tx_status = b'E'; }] *)
Definition fail_tx (t : byte) : byte := if bool_decide (t = IN_TX) then IN_ERROR else t.

(** ** Answers *)

Definition complete (tag : string) (t : byte) : list bytes := [command_complete (str_bytes tag); ready_for_query t].
Definition pg_error (severity sqlstate message : string) : bytes :=
  error_response (str_bytes severity) (str_bytes sqlstate) (str_bytes message).
Definition statement_failed (sqlstate : string) (message : bytes) (t : byte) : list bytes * byte :=
  let t := fail_tx t in ([error_response (str_bytes "ERROR") (str_bytes sqlstate) message; ready_for_query t], t).
(** One row with one text column. *)
Definition one_text (column : bytes) (value : bytes) (tag : string) (t : byte) : list bytes :=
  [row_description [FieldDesc_text column]; data_row [Some value]; command_complete (str_bytes tag); ready_for_query t].

Definition show_value (var : bytes) : string :=
  if one_of ["SERVER_VERSION"] (upper var) then "15.0"
  else if one_of ["SERVER_ENCODING"; "CLIENT_ENCODING"] (upper var) then "UTF8"
  else if one_of ["DATESTYLE"] (upper var) then "ISO, MDY"
  else if one_of ["TIMEZONE"] (upper var) then "UTC"
  else if one_of ["INTEGER_DATETIMES"; "IS_SUPERUSER"] (upper var) then "on"
  else if one_of ["MAX_CONNECTIONS"] (upper var) then "200"
  else "".

Definition tab_text : string := String.String (Ascii.ascii_of_nat 9) "".

(** The statements answered before the parser: the messages and the status. *)
Definition compat_answer (sql : bytes) (role : Role) (t : byte) : option (list bytes * byte) :=
  let sql_upper := upper sql in
  let trimmed := trim_end_semicolons sql_upper in
  if one_of ["BEGIN"; "BEGIN TRANSACTION"; "START TRANSACTION"; "BEGIN WORK"] trimmed then Some (complete "BEGIN" IN_TX, IN_TX)
  else if one_of ["COMMIT"; "COMMIT TRANSACTION"; "COMMIT WORK"; "END"; "END TRANSACTION"; "END WORK"] trimmed
  then Some (complete "COMMIT" IDLE, IDLE)
  else if one_of ["ROLLBACK"; "ROLLBACK TRANSACTION"; "ROLLBACK WORK"; "ABORT"] trimmed || starts "ROLLBACK TO" trimmed
    || starts "ROLLBACK TRANSACTION TO" trimmed
  then Some (complete "ROLLBACK" IDLE, IDLE)
  else if one_of ["SAVEPOINT"] trimmed || starts "SAVEPOINT " trimmed then Some (complete "SAVEPOINT" t, t)
  else if one_of ["RELEASE"] trimmed || starts "RELEASE " trimmed || starts "RELEASE SAVEPOINT " trimmed
  then Some (complete "RELEASE" t, t)
  else if starts "SET " sql_upper || starts ("SET" +:+ tab_text) sql_upper then Some (complete "SET" t, t)
  else if starts "SHOW " sql_upper then
    let var := trim_end_semicolons (trim (drop 5 sql)) in Some (one_text var (str_bytes (show_value var)) "SHOW" t, t)
  else if bytes_contain (str_bytes "PG_CATALOG") sql_upper || bytes_contain (str_bytes "INFORMATION_SCHEMA") sql_upper
  then Some ([row_description []; command_complete (str_bytes "SELECT 0"); ready_for_query t], t)
  else if starts "SELECT VERSION()" sql_upper || starts "SELECT VERSION ()" sql_upper
  then Some (one_text (str_bytes "version") (str_bytes "PostgreSQL 15.0 (VectorLedger vgdb)") "SELECT 1" t, t)
  else if starts "SELECT CURRENT_SCHEMA" sql_upper
  then Some (one_text (str_bytes "current_schema") (str_bytes "public") "SELECT 1" t, t)
  else if starts "SELECT CURRENT_DATABASE" sql_upper || starts "SELECT CURRENT_CATALOG" sql_upper
  then Some (one_text (str_bytes "current_database") (str_bytes "vledger") "SELECT 1" t, t)
  else if starts "SELECT CURRENT_USER" sql_upper || starts "SELECT USER" sql_upper
  then Some (one_text (str_bytes "current_user") (str_bytes (role_text role)) "SELECT 1" t, t)
  else if starts "SELECT CURRENT_SETTING(" sql_upper
  then Some (one_text (str_bytes "current_setting") [] "SELECT 1" t, t)
  else None.

(** ** Privileges *)

Definition pg_check_plan_privilege (role : Role) (plan : LogicalPlan) : Result string unit :=
  let deny what := Err ("role '" +:+ role_text role +:+ "' cannot " +:+ what) in
  match plan with
  | PostEntry _ => if negb (can_insert_ledger role) then deny "post journal entries" else Ok tt
  | CreateAccount _ => if negb (can_insert_accounts role) then deny "create accounts" else Ok tt
  | VerifyChain _ _ => if negb (can_verify role) then deny "run VERIFY_CHAIN" else Ok tt
  | MerkleRoot _ _ => if negb (can_verify role) then deny "run MERKLE_ROOT" else Ok tt
  | ScanEntries _ _ | ScanAccounts _ _ | GetBalance _ | Join _ _ _ _ _ | Aggregate _ _ _ | Window _ _ _ _ _ _ =>
      if negb (can_select role) then deny "execute SELECT" else Ok tt
  | _ => Ok tt
  end.

Section pgwire.
Context `{Blake3} `{Blake3Keyed} `{Ed25519} `{!WalExt} `{!PageExt} `{LedgerCodecs} `{LedgerExt} `{SqlExt}.
Context `{Hex} `{AuthExt} `{AuditExt} `{ReplExt} `{ServerExt}.
Context {C : Type} (attach_proofs : bool) (process_id : Z).

Notation HM := (M (Server C) Empty_set).

(** ** Results *)

Definition field_of (c : string) : FieldDesc :=
  if bool_decide (c ∈ ["balance"; "sequence"; "entries_verified"])%string then FieldDesc_bigint (str_bytes c) else FieldDesc_text (str_bytes c).

Definition notice_text (p : QueryProof) : bytes :=
  let n := length (qp_leaf_proofs p) in
  str_bytes "Merkle root: " ++ hex_enc (qp_root p) ++
  str_bytes (" (" +:+ pretty n +:+ " leaf" +:+ (if (n =? 1)%nat then "" else "s") +:+ ", verified: " +:+
    (if bool_decide (is_Some (qp_root_signature p)) then "true" else "false") +:+ ")").

(** The messages of a result; the last one is ReadyForQuery. *)
Definition result_messages (sql_upper : bytes) (qr : QueryResult) (t : byte) : list bytes * byte :=
  let affected := pretty (qr_rows_affected qr) in
  match qr_columns qr, qr_rows qr with
  | [], [] =>
      if String.prefix "INTEGRITY FAILURE" (qr_message qr) then statement_failed "XX000" (str_bytes (qr_message qr)) t
      else
        let tag := if starts "INSERT" sql_upper then "INSERT 0 " +:+ affected
          else if starts "UPDATE" sql_upper then "UPDATE " +:+ affected
          else if starts "DELETE" sql_upper then "DELETE " +:+ affected
          else "OK " +:+ affected in
        (complete tag t, t)
  | columns, rows =>
      let tag := if starts "INSERT" sql_upper then "INSERT 0 " +:+ affected else "SELECT " +:+ pretty (length rows) in
      ([row_description (map field_of columns)] ++
       map (λ row, data_row (map (λ c, str_bytes <$> (value_string <$> row_get c row)) columns)) rows ++
       match qr_proof qr with Some p => [notice_response (notice_text p)] | None => [] end ++
       [command_complete (str_bytes tag); ready_for_query t], t)
  end.

(** ** Statements *)

Definition execute_query (sql : bytes) (role : Role) (t : byte) : HM (list bytes * byte) :=
  let sql := trim sql in
  if bool_decide (sql = []) || bool_decide (sql = str_bytes ";") then mret ([empty_query_response; ready_for_query t], t)
  else
    match compat_answer sql role t with
    | Some a => mret a
    | None =>
        match parse_one parse_sql sql with
        | None => mret (statement_failed "42601" (str_bytes "syntax error") t)
        | Some (Err e) => mret (statement_failed "42601" (str_bytes ("syntax error: " +:+ parse_error_text e)) t)
        | Some (Ok stmt) =>
            match plan expr_display value_display stmt with
            | Err e => mret (statement_failed "42601" (str_bytes ("plan error: " +:+ sql_error_text e)) t)
            | Ok plan =>
                match pg_check_plan_privilege role plan with
                | Err e => mret (statement_failed "42501" (str_bytes e) t)
                | Ok _ =>
                    result ← (if is_write_plan plan then on_ledger (execute false plan)
                              else on_ledger (read_execute attach_proofs plan));
                    mret match result with
                         | Err e => statement_failed "XX000" (str_bytes (sql_error_text e)) t
                         | Ok qr => result_messages (upper sql) qr t
                         end
                end
            end
        end
    end.

(** ** The connection *)

Inductive PgPhase :=
  | Negotiate                                  (* before TLS *)
  | Startup                                    (* first packet inside TLS *)
  | StartupAfterSsl                            (* after a second SSLRequest *)
  | Password (username : bytes)
  | Ready (session : Session) (tx_status : byte)
  | Closed.

Record PgConn := mkPgConn { pg_phase : PgPhase; pg_sent : list bytes }.
Definition PgConn_new : PgConn := mkPgConn Negotiate [].

(** What a read gives: the payload of a startup packet, a message, the end of
    the stream, another error, the expiry of the timeout, the shutdown signal. *)
Inductive PgEvent :=
  | PgStartup (payload : bytes)
  | PgMessage (msg_type : byte) (payload : bytes)
  | PgEof
  | PgReadError
  | PgTimeout
  | PgShutdown.

Definition pg_close (c : PgConn) : PgConn := mkPgConn Closed (pg_sent c).
(** [let _ = write(...)]: the outcome is ignored, the connection ends. *)
Definition say_and_close (m : bytes) (c : PgConn) : HM PgConn :=
  r ← attempt (F:=unit) (io tt);
  mret (match r with Ok _ => mkPgConn Closed (pg_sent c ++ [m]) | Err _ => pg_close c end).
(** [write(...).await?]: a failed write ends the connection. *)
Definition say (ms : list bytes) (next : PgPhase) (c : PgConn) : HM PgConn :=
  r ← attempt (F:=unit) (io tt);
  mret (match r with Ok _ => mkPgConn next (pg_sent c ++ ms) | Err _ => pg_close c end).

Definition pg_username (s : StartupMessage) : bytes := default (str_bytes "vledger") (sm_params s !! str_bytes "user").

(** The start of [handle_authenticated]. *)
Definition ask_password (s : StartupMessage) (c : PgConn) : HM PgConn := say [auth_cleartext_password] (Password (pg_username s)) c.

Definition greeting_messages : list bytes :=
  [auth_ok; parameter_status (str_bytes "server_version") (str_bytes "15.0 (VectorLedger vgdb)");
   parameter_status (str_bytes "client_encoding") (str_bytes "UTF8"); parameter_status (str_bytes "DateStyle") (str_bytes "ISO, MDY");
   parameter_status (str_bytes "TimeZone") (str_bytes "UTC"); parameter_status (str_bytes "integer_datetimes") (str_bytes "on");
   backend_key_data process_id 0; ready_for_query IDLE].

Definition bytes_text (bs : bytes) : string := String.string_of_list_byte bs.

(** [handle_connection_starttls]: the payload of the first packet, whose length
    field must be between 8 and 65536. *)
Definition negotiate (payload : bytes) (c : PgConn) : HM PgConn :=
  if ((length payload <? 4) || (65532 <? length payload))%nat then mret (pg_close c)
  else if be_val (take 4 payload) =? SSL_REQUEST_CODE then say [[Byte.x53]] Startup c
  else say_and_close (pg_error "FATAL" "28000" "SSL connection is required. Use sslmode=require.") c.

(** [handle_connection]: the first packet inside TLS. *)
Definition startup (payload : bytes) (c : PgConn) : HM PgConn :=
  match StartupMessage_parse payload with
  | None => mret (pg_close c)
  | Some s =>
      if sm_protocol_version s =? SSL_REQUEST_CODE then say [[Byte.x53]] StartupAfterSsl c
      else if negb (sm_protocol_version s =? PROTOCOL_VERSION_3)
      then say [pg_error "FATAL" "08P01" ("unsupported protocol version " +:+ pretty (sm_protocol_version s))] Closed c
      else ask_password s c
  end.

Definition startup_after_ssl (payload : bytes) (c : PgConn) : HM PgConn :=
  match StartupMessage_parse payload with
  | None => mret (pg_close c)
  | Some s => ask_password s c
  end.

(** The password message. *)
Definition password (username : bytes) (msg_type : byte) (payload : bytes) (c : PgConn) : HM PgConn :=
  if negb (bool_decide (msg_type = Byte.x70)) then say [pg_error "FATAL" "28P01" "expected PasswordMessage"] Closed c
  else
    r ← on_users (authenticate (bytes_text username) (bytes_text (read_cstr_pos payload).1));
    match r with
    | Err _ => say [pg_error "FATAL" "28P01" "password authentication failed"] Closed c
    | Ok session => say greeting_messages (Ready session IDLE) c
    end.

(** One message of the query loop. *)
Definition query_loop (session : Session) (t : byte) (msg : FrontendMessage) (c : PgConn) : HM PgConn :=
  match msg with
  | Terminate => mret (pg_close c)
  | Query sql => a ← execute_query sql (sn_role session) t; say a.1 (Ready session a.2) c
  | Parse _ query => say (parse_complete :: if bool_decide (trim query = []) then [no_data] else []) (Ready session t) c
  | Bind _ _ => say [bind_complete] (Ready session t) c
  | Describe _ _ => say [no_data] (Ready session t) c
  | Execute portal => a ← execute_query portal (sn_role session) t; say a.1 (Ready session a.2) c
  | Sync | Flush => say [ready_for_query t] (Ready session t) c
  | Unknown _ => mret c
  end.

Definition timeout_text (p : PgPhase) : option string :=
  match p with
  | Negotiate => None
  | Startup | Password _ => Some "authentication timeout after 30s"
  | StartupAfterSsl => Some "authentication timeout"
  | Ready _ _ => Some "idle timeout: no request received within 300s"
  | Closed => None
  end%string.

Definition pg_step (ev : PgEvent) (c : PgConn) : HM PgConn :=
  match pg_phase c, ev with
  | Closed, _ => mret c
  | Negotiate, (PgShutdown | PgTimeout) => mret (pg_close c)
  | _, PgShutdown => say_and_close (pg_error "FATAL" "57P01" "server shutting down") c
  | p, PgTimeout =>
      match timeout_text p with Some m => say_and_close (pg_error "FATAL" "57P01" m) c | None => mret (pg_close c) end
  | _, (PgEof | PgReadError) => mret (pg_close c)
  | Negotiate, PgStartup payload => negotiate payload c
  | Startup, PgStartup payload => startup payload c
  | StartupAfterSsl, PgStartup payload => startup_after_ssl payload c
  | Password u, PgMessage ty payload => password u ty payload c
  | Ready s t, PgMessage ty payload => query_loop s t (FrontendMessage_parse ty payload) c
  | _, _ => mret (pg_close c)
  end.
End pgwire.
