(* ===== verification/PgSafety.v ===== *)
(** * vledger-pgwire: what a client sees and what it can do

    Every answer to a statement is a sequence of well-formed frames that ends in
    the only ReadyForQuery; the ledger changes only after a correct password of
    a user with the right role; the transaction status has no influence on what
    is executed; and a prepared statement is never executed. *)

From stdpp Require Import base gmap list strings option fin_maps pretty.
From Stdlib Require Import ZArith Lia Strings.Byte.
From S2P Require Import Prelude Bytes Jsonl Crypto Merkle Money Entry AuditTrail WalRecord Wal Recovery Replication Tx Page EntryDb Sql Store StoreFrame SqlGuard SqlExec SqlSafety SqlPlan SqlFront UserAuth UserSafety Server ServerSafety PgCodec PgWire.

#[local] Open Scope Z_scope.
#[local] Open Scope list_scope.

(** The two listeners check the same privileges. *)
Lemma pg_privilege_agrees role p : pg_check_plan_privilege role p = check_plan_privilege role p.
Proof. by destruct p. Qed.

(** ** The shape of an answer *)

Definition status_ok (t : byte) : Prop := t = IDLE ∨ t = IN_TX ∨ t = IN_ERROR.
Definition not_ready (m : bytes) : Prop := head m ≠ Some Byte.x5a.

(** Frames, of which exactly the last is ReadyForQuery, with the new status. *)
Definition answer_ok (a : list bytes * byte) : Prop :=
  ∃ body, a.1 = body ++ [ready_for_query a.2] ∧ Forall is_frame body ∧ Forall not_ready body.

Lemma answer_ok_intro body t : Forall is_frame body → Forall not_ready body → answer_ok (body ++ [ready_for_query t], t).
Proof. intros Hf Hn. by exists body. Qed.

Lemma complete_ok tag t : answer_ok (complete tag t, t).
Proof. apply (answer_ok_intro [_]); repeat constructor; auto with frames; done. Qed.
Lemma one_text_ok c v tag t : answer_ok (one_text c v tag t, t).
Proof. apply (answer_ok_intro [_; _; _]); repeat constructor; auto with frames; done. Qed.
Lemma statement_failed_ok s m t : answer_ok (statement_failed s m t).
Proof. apply (answer_ok_intro [_]); repeat constructor; auto with frames; done. Qed.
Lemma if_Some_case {A} (P : A → Prop) (b : bool) x r a : P x → (r = Some a → P a) → (if b then Some x else r) = Some a → P a.
Proof. intros Hx Hr He. destruct b; [by apply Some_inj in He as <-|auto]. Qed.
Lemma no_rows_ok t : answer_ok ([row_description []; command_complete (str_bytes "SELECT 0"); ready_for_query t], t).
Proof. apply (answer_ok_intro [_; _]); repeat constructor; auto with frames; done. Qed.
Lemma compat_answer_ok sql role t a : compat_answer sql role t = Some a → answer_ok a.
Proof.
  unfold compat_answer. cbv zeta.
  repeat (apply if_Some_case; [lazymatch goal with
    | |- answer_ok (complete _ _, _) => apply complete_ok
    | |- answer_ok (one_text _ _ _ _, _) => apply one_text_ok
    | |- _ => apply no_rows_ok
    end|]). intros Ha; discriminate Ha.
Qed.

Lemma fail_tx_ok t : status_ok t → status_ok (fail_tx t).
Proof. unfold fail_tx, status_ok. case_bool_decide; auto. Qed.
Lemma compat_answer_status sql role t a : compat_answer sql role t = Some a → status_ok t → status_ok a.2.
Proof.
  unfold compat_answer. cbv zeta. intros Ha Ht. revert Ha.
  repeat (apply (if_Some_case (λ a, status_ok a.2)); [cbn [snd]; unfold status_ok in *; tauto|]). intros Ha; discriminate Ha.
Qed.

Section safety.
Context `{Blake3} `{Blake3Keyed} `{Ed25519} `{!WalExt} `{!PageExt} `{LedgerCodecs} `{LedgerExt} `{SqlExt}.
Context `{Hex} `{AuthExt} `{AuditExt} `{ReplExt} `{ServerExt}.
Context {C : Type} (attach_proofs : bool) (process_id : Z).

Lemma result_messages_ok su qr t : answer_ok (result_messages su qr t).
Proof.
  unfold result_messages.
  assert (Hrows : ∀ cols rows tag, answer_ok ([row_description (map field_of cols)] ++
    map (λ row, data_row (map (λ c, str_bytes <$> (value_string <$> row_get c row)) cols)) rows ++
    match qr_proof qr with Some p => [notice_response (notice_text p)] | None => [] end ++
    [command_complete (str_bytes tag); ready_for_query t], t)).
  { intros cols rows tag. set (rs := map _ rows). set (pf := match qr_proof qr with Some _ => _ | None => _ end).
    replace (_ ++ rs ++ pf ++ _) with (([row_description (map field_of cols)] ++ rs ++ pf ++ [command_complete (str_bytes tag)]) ++ [ready_for_query t])
      by (by rewrite <- !app_assoc).
    assert (Hrs : Forall is_frame rs ∧ Forall not_ready rs).
    { unfold rs. split; apply Forall_map, Forall_forall; intros; [apply data_row_frame|done]. }
    assert (Hpf : Forall is_frame pf ∧ Forall not_ready pf).
    { unfold pf. destruct (qr_proof qr); split; repeat constructor; auto with frames; done. }
    apply answer_ok_intro; repeat (apply Forall_app; split); try (by destruct Hrs); try (by destruct Hpf);
      repeat constructor; auto with frames; done. }
  destruct (qr_columns qr) as [|c cs]; [destruct (qr_rows qr) as [|r rs]|]; [|apply Hrows..].
  destruct (String.prefix _ _); [apply statement_failed_ok|apply complete_ok].
Qed.

Lemma result_messages_status su qr t : status_ok t → status_ok (result_messages su qr t).2.
Proof.
  intros Ht. unfold result_messages. destruct (qr_columns qr); [destruct (qr_rows qr)|]; [|done..].
  destruct (String.prefix _ _); [by apply fail_tx_ok|done].
Qed.

Lemma execute_query_answer sql role t σ a σ' :
  execute_query (C:=C) attach_proofs sql role t σ = (Ok a, σ') → answer_ok a ∧ (status_ok t → status_ok a.2).
Proof.
  unfold execute_query. intros He. case_match; [minv; split; [|done]; apply (answer_ok_intro [_]); repeat constructor; auto with frames; done|].
  destruct (compat_answer _ _ _) eqn:Hc; [minv; eauto using compat_answer_ok, compat_answer_status|].
  assert (Hf : ∀ s m, answer_ok (statement_failed s m t) ∧ (status_ok t → status_ok (statement_failed s m t).2)).
  { intros s m. split; [apply statement_failed_ok|apply fail_tx_ok]. }
  destruct (parse_one _ _) as [[stmt|e]|]; [|minv; apply Hf..]. destruct (plan _ _ stmt) as [p|e]; [|minv; apply Hf].
  destruct (pg_check_plan_privilege role p); [|minv; apply Hf].
  apply mbind_Ok_inv in He as (r & σ1 & _ & He). minv. destruct r; [|apply Hf].
  split; [apply result_messages_ok|apply result_messages_status].
Qed.

(** The answer to a statement is always well-formed: it is a sequence of
    frames, it ends in ReadyForQuery carrying the connection's new transaction
    status, no other message of it is a ReadyForQuery, and the status stays one
    of the three the protocol knows; when the messages are within the size limit
    the client reads back exactly this sequence, whatever follows. *)
Theorem pg_answer_protocol sql role t σ ms t' σ' rest :
  execute_query (C:=C) attach_proofs sql role t σ = (Ok (ms, t'), σ') → status_ok t →
  Forall (λ m, (length m ≤ 5 + MAX_MESSAGE_PAYLOAD)%nat) ms →
  status_ok t' ∧
  ∃ body, ms = body ++ [ready_for_query t'] ∧ Forall not_ready body ∧
  ∃ tps, map (λ tp, frame tp.1 tp.2) tps = ms ∧ read_messages (length ms) (concat ms ++ rest) = Ok (tps, rest).
Proof.
  intros He Ht Hl. apply execute_query_answer in He as [(body & Hms & Hf & Hn) Hs]. cbn in *. split; [by apply Hs|].
  exists body. split_and!; [done|done|]. subst ms. apply frames_read_back; [|done]. apply Forall_app. split; [done|].
  repeat constructor. apply ready_frame.
Qed.

(** ** Authorisation *)

Lemma on_ledger_read_is l proofs p : preserves (ledger_is (C:=C) l) (on_ledger (read_execute proofs p)).
Proof. apply preserves_attempt. apply (preserves_zoom_field (λ s, s = l)); [done|]. apply read_execute_keeps. Qed.

Lemma execute_query_keeps l sql role t :
  may_write role = false → preserves (ledger_is (C:=C) l) (execute_query attach_proofs sql role t).
Proof.
  intros Hr. unfold execute_query. case_match; [apply preserves_ret|]. destruct (compat_answer _ _ _); [apply preserves_ret|].
  destruct (parse_one _ _) as [[stmt|e]|]; [|apply preserves_ret..]. destruct (plan _ _ stmt) as [p|e]; [|apply preserves_ret].
  destruct (pg_check_plan_privilege role p) as [[]|e] eqn:Hc; [|apply preserves_ret].
  apply preserves_bind; [|intros; apply preserves_ret]. destruct (is_write_plan p) eqn:Hw; [|apply on_ledger_read_is].
  rewrite pg_privilege_agrees in Hc. by rewrite (write_privilege _ _ Hc Hw) in Hr.
Qed.

Lemma say_keeps l ms next c : preserves (ledger_is (C:=C) l) (say ms next c).
Proof. unfold say. solve_preserves. Qed.
Lemma say_and_close_keeps l m c : preserves (ledger_is (C:=C) l) (say_and_close m c).
Proof. unfold say_and_close. solve_preserves. Qed.
Lemma pg_users_keeps {A} l (m : M UserStore ServerError A) : preserves (ledger_is (C:=C) l) (on_users m).
Proof. apply preserves_attempt, preserves_zoom. by intros u s. Qed.
Hint Resolve say_keeps say_and_close_keeps pg_users_keeps : preserves.

Lemma query_loop_keeps l s t msg c :
  may_write (sn_role s) = false → preserves (ledger_is (C:=C) l) (query_loop attach_proofs s t msg c).
Proof.
  intros Hr. destruct msg; cbn [query_loop]; auto with preserves; (apply preserves_bind; [by apply execute_query_keeps|intros; apply say_keeps]).
Qed.

Definition in_query_loop (p : PgPhase) : Prop := ∃ s t, p = Ready s t.

Lemma pg_step_keeps_before l ev c :
  ¬ in_query_loop (pg_phase c) → preserves (ledger_is (C:=C) l) (pg_step attach_proofs process_id ev c).
Proof.
  intros Hp. unfold pg_step, negotiate, startup, startup_after_ssl, password, ask_password.
  destruct (pg_phase c) as [| | |u|s t|] eqn:Hc; [..|destruct Hp; by exists s, t|auto with preserves]; destruct ev; cbn [timeout_text];
    auto with preserves; solve_preserves.
Qed.

(** The connections that can exist: each step happens in any environment and any
    state of the server, which others may have changed in between.  The list
    holds the states of the server at the steps so far. *)
Inductive pg_reachable : list (Server C) → PgConn → Prop :=
  | pg_start : pg_reachable [] PgConn_new
  | pg_next ev svs c W (sv : Server C) c' W' (sv' : Server C) :
      pg_reachable svs c → pg_step attach_proofs process_id ev c (W, sv) = (Ok c', (W', sv')) → pg_reachable (sv :: svs) c'.

(** The session was returned by the server's user store, as it was at one of
    these steps, for a name and its password. *)
Definition logged_in (svs : list (Server C)) (s : Session) : Prop :=
  ∃ sv name pw W W' us', sv ∈ svs ∧ authenticate name pw (W, sv_users sv) = (Ok s, (W', us')).

Definition phase_ok (svs : list (Server C)) (p : PgPhase) : Prop := match p with Ready s t => logged_in svs s ∧ status_ok t | _ => True end.

Lemma phase_ok_later sv svs p : phase_ok svs p → phase_ok (sv :: svs) p.
Proof. destruct p; try done. intros [(sv0 & name & pw & W & W' & us' & Hin & Ha) Ht]. split; [|done]. exists sv0, name, pw, W, W', us'. split; [by right|done]. Qed.

Lemma say_phase ms next c (σ : World * Server C) c' σ' : say ms next c σ = (Ok c', σ') → pg_phase c' = next ∨ pg_phase c' = Closed.
Proof. unfold say. intros Hs. minv. destruct x; cbn; auto. Qed.
Lemma say_and_close_phase m c (σ : World * Server C) c' σ' : say_and_close m c σ = (Ok c', σ') → pg_phase c' = Closed.
Proof. unfold say_and_close. intros Hs. minv. by destruct x. Qed.

Ltac phase_step :=
  match goal with
  | Hx : say _ _ _ _ = (Ok _, _) |- _ => apply say_phase in Hx as [->| ->]
  | Hx : say_and_close _ _ _ = (Ok _, _) |- _ => apply say_and_close_phase in Hx as ->
  end.

Lemma query_loop_phase svs s t msg c (σ : World * Server C) c' σ' :
  phase_ok svs (Ready s t) → phase_ok svs (pg_phase c) → query_loop attach_proofs s t msg c σ = (Ok c', σ') → phase_ok svs (pg_phase c').
Proof.
  intros [Hl Ht] Hc Hq. destruct msg; cbn [query_loop] in Hq; try (phase_step; done); try (minv; done).
  all: apply mbind_Ok_inv in Hq as (a & σ1 & Ha & Hq); apply execute_query_answer in Ha as [_ Hs]; phase_step; [|done]; split; auto.
Qed.

Lemma pg_step_phase svs ev c W (sv : Server C) c' W' (sv' : Server C) :
  phase_ok svs (pg_phase c) → pg_step attach_proofs process_id ev c (W, sv) = (Ok c', (W', sv')) → phase_ok (sv :: svs) (pg_phase c').
Proof.
  intros Hc%(phase_ok_later sv) Hs. unfold pg_step in Hs. destruct (pg_phase c) as [| | |u|s t|] eqn:Hp; [| | | | |minv; by rewrite Hp].
  all: destruct ev; cbn [timeout_text] in Hs; try (phase_step; done); try (minv; done).
  - unfold negotiate in Hs. repeat case_match; try (phase_step; done); minv; done.
  - unfold startup, ask_password in Hs. repeat case_match; try (phase_step; done); minv; done.
  - unfold startup_after_ssl, ask_password in Hs. repeat case_match; try (phase_step; done); minv; done.
  - unfold password in Hs. case_match; [phase_step; done|].
    apply mbind_Ok_inv in Hs as (r & [W1 sv1] & Hr & Hs). apply on_users_run in Hr as (us' & Hr & _).
    destruct r as [x|]; phase_step; try done. split; [|by left]. eexists sv, _, _, _, _, _. split; [by left|done].
  - eapply query_loop_phase; [exact Hc|by rewrite Hp|exact Hs].
Qed.

(** C37: On the PostgreSQL listener too only an authorised session changes the
    ledger: when one step of a connection changes it, in any environment and
    whatever other connections did before, the connection is past the password
    phase, the session it is in was returned for a name and its password by the
    server's user store as it was at an earlier step of this connection, and its
    role may post entries and create accounts. *)
Theorem pg_ledger_authorised ev svs c W (sv : Server C) c' W' (sv' : Server C) :
  pg_reachable svs c → pg_step attach_proofs process_id ev c (W, sv) = (Ok c', (W', sv')) → sv_ledger sv' ≠ sv_ledger sv →
  ∃ s t, pg_phase c = Ready s t ∧ logged_in svs s ∧ may_write (sn_role s) = true.
Proof.
  intros Hr Hs Hne. assert (Hc : phase_ok svs (pg_phase c)).
  { clear Hs Hne. induction Hr as [|ev0 svs0 c0 W0 sv0 c1 W1 sv1 Hr IH Hs]; [done|]. by eapply pg_step_phase. }
  destruct (pg_phase c) as [| | |u|s t|] eqn:Hp;
    try (destruct Hne; pose proof (pg_step_keeps_before (sv_ledger sv) ev c) as Hk; rewrite Hp in Hk;
         specialize (Hk ltac:(by intros (? & ? & ?)) W sv eq_refl); by rewrite Hs in Hk).
  exists s, t. destruct Hc as [Hl _]. split_and!; [done|done|]. destruct (may_write (sn_role s)) eqn:Hw; [done|]. destruct Hne.
  assert (Hk : preserves (ledger_is (C:=C) (sv_ledger sv)) (pg_step attach_proofs process_id ev c)).
  { unfold pg_step. rewrite Hp. destruct ev; cbn [timeout_text]; auto with preserves. by apply query_loop_keeps. }
  specialize (Hk W sv eq_refl). by rewrite Hs in Hk.
Qed.

(** ** Transactions *)

(** BEGIN, COMMIT and ROLLBACK only change the status byte: what a statement
    does to the ledger and the users does not depend on the transaction status,
    also after an error; and the transaction statements themselves leave the
    server as it is, so nothing is ever rolled back. *)
Theorem pg_status_is_cosmetic sql role t1 t2 σ :
  (execute_query (C:=C) attach_proofs sql role t1 σ).2 = (execute_query attach_proofs sql role t2 σ).2 ∧
  (is_Some (compat_answer (trim sql) role t1) → (execute_query (C:=C) attach_proofs sql role t1 σ).2 = σ).
Proof.
  assert (Hc : ∀ s, is_Some (compat_answer s role t1) ↔ is_Some (compat_answer s role t2)).
  { intros s. unfold compat_answer. cbv zeta.
    repeat match goal with |- is_Some (if ?b then _ else _) ↔ _ => destruct b; [by split; eexists|] end. done. }
  unfold execute_query. split.
  - destruct (bool_decide (trim sql = []) || bool_decide (trim sql = str_bytes ";")); [done|].
    specialize (Hc (trim sql)). destruct (compat_answer (trim sql) role t1), (compat_answer (trim sql) role t2);
      try done; [by destruct (proj1 Hc ltac:(by eexists))|by destruct (proj2 Hc ltac:(by eexists))|].
    destruct (parse_one _ _) as [[stmt|e]|]; [|done..]. destruct (plan _ _ stmt) as [p|e]; [|done].
    destruct (pg_check_plan_privilege role p); [|done]. unfold mbind, M_bind.
    destruct (is_write_plan p); [destruct (on_ledger (execute false p) σ) as [[r|[]] σ1]|
      destruct (on_ledger (read_execute attach_proofs p) σ) as [[r|[]] σ1]]; done.
  - intros [a Ha]. case_match; [done|]. by rewrite Ha.
Qed.

(** ** Prepared statements *)

(** Run messages one after the other in a session. *)
Fixpoint run_messages (s : Session) (ms : list FrontendMessage) (c : PgConn) : M (Server C) Empty_set PgConn :=
  match ms with
  | [] => mret c
  | m :: ms =>
      match pg_phase c with
      | Ready _ t => c' ← query_loop attach_proofs s t m c; run_messages s ms c'
      | _ => mret c
      end
  end.

(** A prepared statement is never executed: when a client sends any query
    with Parse, binds it to the unnamed portal and executes the portal, the
    server answers ParseComplete, BindComplete and EmptyQueryResponse (with an
    additional ReadyForQuery) and its state is unchanged, whatever the query
    was. *)
Theorem pg_prepared_not_executed s t name query statement sent W (sv : Server C) :
  w_io W = [] → trim query ≠ [] → ∃ W',
  run_messages s [Parse name query; Bind [] statement; Execute []] (mkPgConn (Ready s t) sent) (W, sv) =
    (Ok (mkPgConn (Ready s t) (sent ++ [parse_complete; bind_complete; empty_query_response; ready_for_query t])), (W', sv)).
Proof.
  intros Hio Hq.
  assert (Hstep : ∀ ms next c W, w_io W = [] → say ms next c (W, sv) = (Ok (mkPgConn next (pg_sent c ++ ms)), (W, sv))).
  { intros ms next c W0 Hio0. unfold say, attempt, mbind, M_bind. by rewrite io_quiet. }
  exists W. cbn [run_messages pg_phase query_loop]. rewrite (bool_decide_false _ Hq). cbn [run_messages pg_phase query_loop].
  rewrite (mbind_eq _ _ _ _ _ (Hstep _ _ _ _ Hio)). cbn [run_messages pg_phase query_loop].
  rewrite (mbind_eq _ _ _ _ _ (Hstep _ _ _ _ Hio)). cbn [run_messages pg_phase query_loop pg_sent].
  assert (He : execute_query (C:=C) attach_proofs [] (sn_role s) t (W, sv) = (Ok ([empty_query_response; ready_for_query t], t), (W, sv))) by done.
  assert (Ha : (execute_query (C:=C) attach_proofs [] (sn_role s) t ≫= λ a, say a.1 (Ready s a.2)
      (mkPgConn (Ready s t) ((sent ++ [parse_complete]) ++ [bind_complete]))) (W, sv) =
    (Ok (mkPgConn (Ready s t) (((sent ++ [parse_complete]) ++ [bind_complete]) ++ [empty_query_response; ready_for_query t])), (W, sv))).
  { rewrite (mbind_eq _ _ _ _ _ He). by rewrite Hstep. }
  rewrite (mbind_eq _ _ _ _ _ Ha). by rewrite <- !app_assoc.
Qed.
End safety.
