(* ===== verification/Index.v ===== *)
(** * vledger-index: the in-memory indexes

    Models [crates/vledger-index/src/btree.rs] and [hash_index.rs].  A
    [BTreeMap] is its sequence of entries in strictly ascending key order, the
    order its iterators use; a [HashMap] is a finite map.  The abstract
    specification of both is a finite map, and the theorems show that any
    sequence of operations on the ordered representation answers as the finite
    map does, and that a range scan lists exactly the keys of the half-open
    interval, ascending. *)

From stdpp Require Import base gmap list strings option fin_maps sorting relations.
From Stdlib Require Import ZArith Lia Strings.Byte.
From S2P Require Import Prelude Bytes Jsonl.

#[local] Open Scope Z_scope.

(** ** The order of keys: [Vec<u8>] compares byte by byte, a proper prefix is
    smaller. *)

Lemma Z_of_byte_inj a b : Z_of_byte a = Z_of_byte b → a = b.
Proof. intros He%(f_equal byte_of_Z). by rewrite !byte_of_Z_of_byte in He. Qed.

Fixpoint key_cmp (a b : bytes) : comparison :=
  match a, b with
  | [], [] => Eq
  | [], _ :: _ => Lt
  | _ :: _, [] => Gt
  | x :: a, y :: b => match Z_of_byte x ?= Z_of_byte y with Eq => key_cmp a b | c => c end
  end.
Definition key_lt (a b : bytes) : Prop := key_cmp a b = Lt.
#[global] Instance key_lt_dec a b : Decision (key_lt a b) := decide_rel (=) (key_cmp a b) Lt.

Lemma key_cmp_eq a b : key_cmp a b = Eq ↔ a = b.
Proof.
  revert b. induction a as [|x a IH]; intros [|y b]; cbn; try done.
  destruct (Z.compare_spec (Z_of_byte x) (Z_of_byte y)) as [He|Hl|Hl].
  - rewrite IH. apply Z_of_byte_inj in He as ->. naive_solver.
  - split; [done|]. intros [= -> ->]. lia.
  - split; [done|]. intros [= -> ->]. lia.
Qed.
Lemma key_cmp_antisym a b : key_cmp b a = CompOpp (key_cmp a b).
Proof.
  revert b. induction a as [|x a IH]; intros [|y b]; cbn; try done.
  rewrite (Z.compare_antisym (Z_of_byte x)). destruct (Z_of_byte x ?= Z_of_byte y); cbn; auto.
Qed.
Lemma key_lt_trans : Transitive key_lt.
Proof.
  unfold key_lt. intros a. induction a as [|x a IH]; intros [|y b] [|z c]; cbn; try done.
  destruct (Z.compare_spec (Z_of_byte x) (Z_of_byte y)), (Z.compare_spec (Z_of_byte y) (Z_of_byte z)); try done; intros Hab Hbc.
  - assert (Hxz : Z_of_byte x = Z_of_byte z) by lia. rewrite Hxz, Z.compare_refl. eauto.
  - replace (Z_of_byte x ?= Z_of_byte z) with Lt by (symmetry; apply Z.compare_lt_iff; lia). done.
  - replace (Z_of_byte x ?= Z_of_byte z) with Lt by (symmetry; apply Z.compare_lt_iff; lia). done.
  - replace (Z_of_byte x ?= Z_of_byte z) with Lt by (symmetry; apply Z.compare_lt_iff; lia). done.
Qed.
Existing Instance key_lt_trans.
Lemma key_lt_irrefl a : ¬ key_lt a a.
Proof. unfold key_lt. by rewrite (proj2 (key_cmp_eq a a) eq_refl). Qed.
Lemma key_lt_ne a b : key_lt a b → a ≠ b.
Proof. intros Hl ->. by apply key_lt_irrefl in Hl. Qed.
Lemma key_gt_lt a b : key_cmp a b = Gt → key_lt b a.
Proof. unfold key_lt. rewrite (key_cmp_antisym a). by intros ->. Qed.

Lemma key_gt_ne a b : key_cmp a b = Gt → a ≠ b.
Proof. by intros Hl%key_gt_lt%key_lt_ne. Qed.

(** ** Ordered maps *)

Section btree.
Context {V : Type}.
Notation Tree := (list (bytes * V)).

Fixpoint bt_insert (k : bytes) (v : V) (t : Tree) : Tree :=
  match t with
  | [] => [(k, v)]
  | (k', v') :: t' =>
      match key_cmp k k' with
      | Lt => (k, v) :: t
      | Eq => (k, v) :: t'
      | Gt => (k', v') :: bt_insert k v t'
      end
  end.
Fixpoint bt_get (k : bytes) (t : Tree) : option V :=
  match t with
  | [] => None
  | (k', v') :: t' => match key_cmp k k' with Lt => None | Eq => Some v' | Gt => bt_get k t' end
  end.
Fixpoint bt_remove (k : bytes) (t : Tree) : Tree :=
  match t with
  | [] => []
  | (k', v') :: t' => match key_cmp k k' with Lt => t | Eq => t' | Gt => (k', v') :: bt_remove k t' end
  end.

(** Strictly ascending keys. *)
Definition bt_sorted (t : Tree) : Prop := StronglySorted key_lt t.*1.
Definition bt_map (t : Tree) : gmap bytes V := list_to_map t.

Lemma bt_sorted_cons k v t : bt_sorted ((k, v) :: t) ↔ bt_sorted t ∧ ∀ k', k' ∈ t.*1 → key_lt k k'.
Proof.
  unfold bt_sorted. cbn. split.
  - intros Hs. apply StronglySorted_inv in Hs as [Hs Hf]. split; [done|]. by apply Forall_forall.
  - intros [Hs Hf]. constructor; [done|]. by apply Forall_forall.
Qed.
Lemma bt_sorted_NoDup t : bt_sorted t → NoDup t.*1.
Proof.
  induction t as [|[k v] t IH]; [constructor|]. intros [Hs Hf]%bt_sorted_cons. cbn. constructor; [|auto].
  intros Hin. by apply (key_lt_irrefl k), Hf.
Qed.

(** Keys below the first one are absent. *)
Lemma bt_map_below k t : (∀ k', k' ∈ t.*1 → key_lt k k') → bt_map t !! k = None.
Proof. intros Hf. apply not_elem_of_list_to_map_1. intros Hin. by apply (key_lt_irrefl k), Hf. Qed.

Lemma bt_get_spec k t : bt_sorted t → bt_get k t = bt_map t !! k.
Proof.
  induction t as [|[k' v'] t IH]; [done|]. intros [Hs Hf]%bt_sorted_cons. cbn. unfold bt_map. cbn.
  destruct (key_cmp k k') eqn:Hc.
  - apply key_cmp_eq in Hc as ->. by rewrite lookup_insert_eq.
  - rewrite lookup_insert_ne by (intros ->; by apply (key_lt_irrefl k)). symmetry. apply bt_map_below.
    intros k2 Hk2. by etrans; [|apply Hf].
  - rewrite lookup_insert_ne by (symmetry; by apply key_gt_ne). by apply IH.
Qed.

Lemma bt_insert_keys k v t k' : k' ∈ (bt_insert k v t).*1 → k' = k ∨ k' ∈ t.*1.
Proof. induction t as [|[k1 v1] t IH]; cbn; [set_solver|]. destruct (key_cmp k k1); cbn; set_solver. Qed.
Lemma bt_insert_sorted k v t : bt_sorted t → bt_sorted (bt_insert k v t).
Proof.
  induction t as [|[k' v'] t IH]; intros Hs.
  - apply bt_sorted_cons. split; [done|]. set_solver.
  - pose proof Hs as [Ht Hf]%bt_sorted_cons. cbn. destruct (key_cmp k k') eqn:Hc; apply bt_sorted_cons; split; auto.
    + apply key_cmp_eq in Hc as ->. done.
    + intros k2 [->|Hk2]%elem_of_cons; [done|]. by etrans; [|apply Hf].
    + intros k2 [->|Hk2]%bt_insert_keys; [by apply key_gt_lt|auto].
Qed.
Lemma bt_insert_map k v t : bt_sorted t → bt_map (bt_insert k v t) = <[k := v]> (bt_map t).
Proof.
  unfold bt_map. induction t as [|[k' v'] t IH]; [done|]. intros [Hs Hf]%bt_sorted_cons. cbn. destruct (key_cmp k k') eqn:Hc; cbn.
  - apply key_cmp_eq in Hc as ->. by rewrite insert_insert_eq.
  - done.
  - rewrite IH by done. apply insert_insert_ne. symmetry. by apply key_gt_ne.
Qed.

Lemma bt_remove_keys k t k' : k' ∈ (bt_remove k t).*1 → k' ∈ t.*1.
Proof. induction t as [|[k1 v1] t IH]; cbn; [done|]. destruct (key_cmp k k1); cbn; set_solver. Qed.
Lemma bt_remove_sorted k t : bt_sorted t → bt_sorted (bt_remove k t).
Proof.
  induction t as [|[k' v'] t IH]; [done|]. intros Hs. pose proof Hs as [Ht Hf]%bt_sorted_cons. cbn. destruct (key_cmp k k'); [done..|].
  apply bt_sorted_cons. split; [auto|]. intros k2 Hk2%bt_remove_keys. auto.
Qed.
Lemma bt_remove_map k t : bt_sorted t → bt_map (bt_remove k t) = delete k (bt_map t).
Proof.
  unfold bt_map. induction t as [|[k' v'] t IH]; cbn; [by rewrite delete_empty|]. intros [Hs Hf]%bt_sorted_cons. destruct (key_cmp k k') eqn:Hc; cbn.
  - apply key_cmp_eq in Hc as ->. rewrite delete_insert_eq, delete_id; [done|]. by apply bt_map_below.
  - rewrite delete_id; [done|]. change (bt_map ((k', v') :: t) !! k = None). apply bt_map_below.
    intros k2 [->|Hk2]%elem_of_cons; [done|]. by etrans; [|apply Hf].
  - rewrite IH by done. rewrite delete_insert_ne; [done|]. by apply key_gt_ne.
Qed.

Lemma bt_map_length t : bt_sorted t → size (bt_map t) = length t.
Proof. intros Hs. unfold bt_map. rewrite map_size_list_to_map by (by apply bt_sorted_NoDup). done. Qed.
End btree.

(** ** [btree.rs] *)

Record RowLocation := mkRowLocation { page_id : Z; slot_id : Z }.
#[global] Instance RowLocation_eq_dec : EqDecision RowLocation.
Proof. solve_decision. Defined.

Inductive IndexError :=
  | KeyNotFound
  | DuplicateKey (key : bytes)
  | IndexReadOnly.

Record BTreeIndex := mkBTreeIndex { bx_map : list (bytes * RowLocation); bx_unique : bool }.

Definition BTreeIndex_new_unique : BTreeIndex := mkBTreeIndex [] true.
Definition BTreeIndex_new : BTreeIndex := mkBTreeIndex [] false.

Section ops.
Context `{Hex}.

Definition BTreeIndex_insert (key : bytes) (location : RowLocation) (s : BTreeIndex) : Result IndexError unit * BTreeIndex :=
  if bx_unique s && bool_decide (is_Some (bt_get key (bx_map s))) then (Err (DuplicateKey (hex_enc key)), s)
  else (Ok tt, mkBTreeIndex (bt_insert key location (bx_map s)) (bx_unique s)).
Definition BTreeIndex_get (key : bytes) (s : BTreeIndex) : option RowLocation := bt_get key (bx_map s).
Definition BTreeIndex_remove (key : bytes) (s : BTreeIndex) : option RowLocation * BTreeIndex :=
  (bt_get key (bx_map s), mkBTreeIndex (bt_remove key (bx_map s)) (bx_unique s)).

(** [BTreeMap::range(start..end)] panics ([None]) when the start is greater than
    the end. *)
Definition BTreeIndex_range (start stop : bytes) (s : BTreeIndex) : option (list (bytes * RowLocation)) :=
  if bool_decide (key_lt stop start) then None
  else Some (filter (λ kv, ¬ key_lt kv.1 start ∧ key_lt kv.1 stop) (bx_map s)).
Definition BTreeIndex_len (s : BTreeIndex) : nat := length (bx_map s).
Definition BTreeIndex_is_empty (s : BTreeIndex) : bool := match bx_map s with [] => true | _ => false end.

(** ** [hash_index.rs] *)

Definition HashIndex : Type := gmap bytes (list RowLocation).
Definition HashIndex_new : HashIndex := ∅.
Definition HashIndex_insert (key : bytes) (location : RowLocation) (s : HashIndex) : HashIndex :=
  <[key := default [] (s !! key) ++ [location]]> s.
Definition HashIndex_get (key : bytes) (s : HashIndex) : option (list RowLocation) := s !! key.
Definition HashIndex_remove_all (key : bytes) (s : HashIndex) : option (list RowLocation) * HashIndex := (s !! key, delete key s).
Definition HashIndex_len (s : HashIndex) : nat := size s.
Definition HashIndex_is_empty (s : HashIndex) : bool := bool_decide (s = ∅).

(** ** The abstract specification *)

Inductive IndexOp := OpInsert (k : bytes) (v : RowLocation) | OpGet (k : bytes) | OpRemove (k : bytes) | OpLen | OpRange (a b : bytes).
Inductive IndexAnswer :=
  | ADone (r : Result IndexError unit)
  | AFound (r : option RowLocation)
  | ACount (n : nat)
  | ARange (r : option (list (bytes * RowLocation))).

Definition index_run (op : IndexOp) (s : BTreeIndex) : IndexAnswer * BTreeIndex :=
  match op with
  | OpInsert k v => let '(r, s') := BTreeIndex_insert k v s in (ADone r, s')
  | OpGet k => (AFound (BTreeIndex_get k s), s)
  | OpRemove k => let '(r, s') := BTreeIndex_remove k s in (AFound r, s')
  | OpLen => (ACount (BTreeIndex_len s), s)
  | OpRange a b => (ARange (BTreeIndex_range a b s), s)
  end.

(** What a range scan of a finite map has to be: nothing else is in the list,
    nothing is missing, and the keys ascend. *)
Definition range_of (a b : bytes) (m : gmap bytes RowLocation) (l : list (bytes * RowLocation)) : Prop :=
  StronglySorted key_lt l.*1 ∧ ∀ k v, (k, v) ∈ l ↔ m !! k = Some v ∧ ¬ key_lt k a ∧ key_lt k b.

(** One operation on a finite map, for a unique or non-unique index. *)
Inductive index_spec (unique : bool) : IndexOp → gmap bytes RowLocation → IndexAnswer → gmap bytes RowLocation → Prop :=
  | Spec_insert k v m : unique = false ∨ m !! k = None → index_spec unique (OpInsert k v) m (ADone (Ok tt)) (<[k := v]> m)
  | Spec_duplicate k v m : unique = true → is_Some (m !! k) →
      index_spec unique (OpInsert k v) m (ADone (Err (DuplicateKey (hex_enc k)))) m
  | Spec_get k m : index_spec unique (OpGet k) m (AFound (m !! k)) m
  | Spec_remove k m : index_spec unique (OpRemove k) m (AFound (m !! k)) (delete k m)
  | Spec_len m : index_spec unique OpLen m (ACount (size m)) m
  | Spec_range a b m l : ¬ key_lt b a → range_of a b m l → index_spec unique (OpRange a b) m (ARange (Some l)) m
  | Spec_range_panic a b m : key_lt b a → index_spec unique (OpRange a b) m (ARange None) m.

Inductive index_specs (unique : bool) : list IndexOp → gmap bytes RowLocation → list IndexAnswer → gmap bytes RowLocation → Prop :=
  | Specs_nil m : index_specs unique [] m [] m
  | Specs_cons op ops m a m1 l m2 :
      index_spec unique op m a m1 → index_specs unique ops m1 l m2 → index_specs unique (op :: ops) m (a :: l) m2.

Fixpoint index_runs (ops : list IndexOp) (s : BTreeIndex) : list IndexAnswer * BTreeIndex :=
  match ops with
  | [] => ([], s)
  | op :: ops => let '(a, s1) := index_run op s in let '(l, s2) := index_runs ops s1 in (a :: l, s2)
  end.

Lemma range_filter a b t : bt_sorted t → range_of a b (bt_map t) (filter (λ kv, ¬ key_lt kv.1 a ∧ key_lt kv.1 b) t).
Proof.
  intros Hs. split.
  - induction t as [|[k v] t IH]; [constructor|]. apply bt_sorted_cons in Hs as [Hs Hf]. rewrite filter_cons. case_decide; [|auto].
    cbn. constructor; [auto|]. apply Forall_forall. intros k' Hk'. apply Hf.
    apply list_elem_of_fmap in Hk' as (kv & -> & Hkv). apply list_elem_of_filter in Hkv as [_ Hkv]. by apply list_elem_of_fmap_2.
  - intros k v. rewrite list_elem_of_filter. cbn. unfold bt_map. rewrite <- elem_of_list_to_map by (by apply bt_sorted_NoDup). tauto.
Qed.

Lemma index_run_spec op s a s' :
  bt_sorted (bx_map s) → index_run op s = (a, s') →
  index_spec (bx_unique s) op (bt_map (bx_map s)) a (bt_map (bx_map s')) ∧ bt_sorted (bx_map s') ∧ bx_unique s' = bx_unique s.
Proof.
  intros Hs. destruct op as [k v|k|k| |x y]; cbn.
  - unfold BTreeIndex_insert. rewrite bt_get_spec by done. destruct (bx_unique s) eqn:Hu; cbn; [case_bool_decide as Hd|]; intros [= <- <-]; cbn [bx_map bx_unique].
    + rewrite Hu. split_and!; [by constructor|done|done].
    + rewrite bt_insert_map by done. apply eq_None_not_Some in Hd. split_and!; [constructor; auto|by apply bt_insert_sorted|done].
    + rewrite bt_insert_map by done. split_and!; [constructor; auto|by apply bt_insert_sorted|done].
  - unfold BTreeIndex_get. rewrite bt_get_spec by done. intros [= <- <-]. split_and!; [constructor|done|done].
  - unfold BTreeIndex_remove. rewrite bt_get_spec by done. intros [= <- <-]. cbn [bx_map bx_unique]. rewrite bt_remove_map by done.
    split_and!; [constructor|by apply bt_remove_sorted|done].
  - intros [= <- <-]. unfold BTreeIndex_len. rewrite <- (bt_map_length (bx_map s)) by done. split_and!; [constructor|done|done].
  - unfold BTreeIndex_range. case_bool_decide; intros [= <- <-]; (split_and!; [|done|done]); [by constructor|].
    constructor; [done|]. by apply range_filter.
Qed.

(** The ordered index implements a finite map: any sequence of insertions,
    lookups, removals, counts and range scans on a new index, unique or not,
    returns answer by answer what the finite map prescribes; a duplicate is
    refused exactly in a unique index, and a range scan panics exactly when its
    start is greater than its end. *)
Theorem index_refines_map (unique : bool) ops :
  let '(answers, s) := index_runs ops (mkBTreeIndex [] unique) in
  index_specs unique ops ∅ answers (bt_map (bx_map s)).
Proof.
  assert (Hgen : ∀ ops s, bt_sorted (bx_map s) → bx_unique s = unique →
    index_specs unique ops (bt_map (bx_map s)) (index_runs ops s).1 (bt_map (bx_map (index_runs ops s).2))).
  { clear ops. intros ops. induction ops as [|op ops IH]; intros s Hs Hu; cbn; [constructor|].
    destruct (index_run op s) as [a s1] eqn:Hr. apply index_run_spec in Hr as (Hsp & Hs1 & Hu1); [|done].
    specialize (IH s1 Hs1 ltac:(congruence)). destruct (index_runs ops s1). cbn in *. rewrite Hu in Hsp. by econstructor. }
  specialize (Hgen ops (mkBTreeIndex [] unique) ltac:(constructor) eq_refl). by destruct (index_runs ops _).
Qed.

(** The hash index keeps every location of a key, in the order of insertion,
    until they are removed together. *)
Theorem hash_index_keeps_all key locs other (s : HashIndex) :
  s !! key = None → other ≠ key →
  let s' := fold_left (λ s l, HashIndex_insert key l s) locs s in
  HashIndex_get key s' = (if bool_decide (locs = []) then None else Some locs) ∧
  HashIndex_get other s' = HashIndex_get other s ∧ (HashIndex_remove_all key s').2 = s.
Proof.
  intros Hn Ho. unfold HashIndex_get, HashIndex_remove_all. cbv zeta. cbn [snd].
  induction locs as [|l locs IH] using rev_ind; [split_and!; [done|done|by apply delete_id]|].
  destruct IH as (IH1 & IH2 & IH3). rewrite fold_left_app. cbn [fold_left]. remember (fold_left _ locs s) as s1 eqn:Hs1. clear Hs1. unfold HashIndex_insert, HashIndex in *.
  rewrite lookup_insert_eq, lookup_insert_ne, delete_insert_eq, IH1, IH2, IH3 by done.
  rewrite (bool_decide_false (locs ++ [l] = [])) by (by destruct locs). split_and!; [|done|done].
  case_bool_decide; [by subst|done].
Qed.

(** An index that is not unique still keeps one location per key: a second row
    with the same key replaces the first. *)
Theorem non_unique_overwrites key l1 l2 :
  BTreeIndex_get key (BTreeIndex_insert key l2 (BTreeIndex_insert key l1 BTreeIndex_new).2).2 = Some l2.
Proof. cbn. rewrite !(proj2 (key_cmp_eq key key) eq_refl). cbn. by rewrite (proj2 (key_cmp_eq key key) eq_refl). Qed.
End ops.
