(* ===== verification/License.v ===== *)
(** * vledger-license: the signed license file

    Models [crates/vledger-license/src/tier.rs], [store.rs] and [watcher.rs]:
    tiers and features, the canonical payload that is signed, loading and
    verifying [license.json], the feature test, and the task that reads the file
    again every day.  The state of the loading functions is the file
    ([None] when there is none); days count from the epoch.  serde_json's object
    encoder, its decoder for the file and chrono's date parser are parameters. *)

From stdpp Require Import base list strings option relations.
From Stdlib Require Import ZArith Lia Strings.Byte.
From S2P Require Import Prelude Bytes Jsonl Wal Store.

#[local] Open Scope Z_scope.
#[local] Open Scope list_scope.

(** ** [tier.rs] *)

Inductive Feature := FPgWire | FReplication | FHsm | FComplianceReport | FAuditExportUnlimited | FMultiNode | FAgenticAi.
#[global] Instance Feature_eq_dec : EqDecision Feature.
Proof. solve_decision. Defined.

Definition Feature_display (f : Feature) : string :=
  match f with
  | FPgWire => "pgwire"
  | FReplication => "replication"
  | FHsm => "hsm"
  | FComplianceReport => "compliance_report"
  | FAuditExportUnlimited => "audit_export_unlimited"
  | FMultiNode => "multi_node"
  | FAgenticAi => "agentic_ai"
  end.
Definition Feature_from_str (s : string) : Result string Feature :=
  if bool_decide (s = "pgwire") then Ok FPgWire
  else if bool_decide (s = "replication") then Ok FReplication
  else if bool_decide (s = "hsm") then Ok FHsm
  else if bool_decide (s = "compliance_report") then Ok FComplianceReport
  else if bool_decide (s = "audit_export_unlimited") then Ok FAuditExportUnlimited
  else if bool_decide (s = "multi_node") then Ok FMultiNode
  else if bool_decide (s = "agentic_ai") then Ok FAgenticAi
  else Err ("unknown feature '" +:+ s +:+ "'").

Lemma Feature_roundtrip f : Feature_from_str (Feature_display f) = Ok f.
Proof. by destruct f. Qed.
Lemma Feature_from_str_Ok s f : Feature_from_str s = Ok f → s = Feature_display f.
Proof.
  unfold Feature_from_str. intros He.
  repeat (case_bool_decide as Hd; [injection He as <-; exact Hd|clear Hd]). discriminate He.
Qed.

Inductive LicenseTier := Free | Starter | Growth | Enterprise.
#[global] Instance LicenseTier_eq_dec : EqDecision LicenseTier.
Proof. solve_decision. Defined.

Definition display_name (t : LicenseTier) : string :=
  match t with Free => "Free" | Starter => "Starter" | Growth => "Growth" | Enterprise => "Enterprise" end.
Definition default_features (t : LicenseTier) : list Feature :=
  match t with
  | Free => []
  | Starter => [FPgWire; FAgenticAi]
  | Growth => [FPgWire; FReplication; FComplianceReport; FAuditExportUnlimited; FAgenticAi]
  | Enterprise => [FPgWire; FReplication; FHsm; FComplianceReport; FAuditExportUnlimited; FMultiNode; FAgenticAi]
  end.
Definition LicenseTier_from_str (s : string) : Result string LicenseTier :=
  let l := to_lowercase s in
  if bool_decide (l = "free") then Ok Free
  else if bool_decide (l = "starter") then Ok Starter
  else if bool_decide (l = "growth") then Ok Growth
  else if bool_decide (l = "enterprise") then Ok Enterprise
  else Err ("unknown tier '" +:+ l +:+ "' - use: free, starter, growth, enterprise").

(** ** [error.rs] *)

Inductive LicenseError :=
  | LNotFound (path : string)
  | LInvalidJson
  | LInvalidSignature
  | LExpired (expired_at : string)
  | LFeatureNotEntitled (feature : Feature) (tier : string)
  | LMalformedField (field : string)
  | LIo.

(** ** [store.rs] *)

Record LicenseFile := mkLicenseFile {
  lf_licensee : string;
  lf_email : string;
  lf_tier : string;
  lf_issued_at : string;
  lf_expires_at : string;
  lf_features : list string;
  lf_signature : string
}.

Inductive JsonValue := JString (s : string) | JArray (l : list JsonValue).

(** The object written by [serde_json::to_vec] can be read back; the date parser
    is chrono's [NaiveDate::parse_from_str] with the format %Y-%m-%d. *)
Class LicenseExt := {
  object_to_vec : list (string * JsonValue) → option bytes;
  object_from_slice : bytes → option (list (string * JsonValue));
  object_roundtrip : ∀ o bs, object_to_vec o = Some bs → object_from_slice bs = Some o;
  object_nonempty : ∀ o bs, object_to_vec o = Some bs → bs ≠ [];
  license_from_json : bytes → option LicenseFile;
  parse_date : string → option Z
}.

Record LicenseStore := mkLicenseStore {
  li_licensee : string;
  li_email : string;
  li_tier : LicenseTier;
  li_issued_at : Z;
  li_expires_at : Z;
  li_features : list Feature;
  li_is_signed : bool
}.

Definition VECTORGUARD_LICENSE_PUBKEY_HEX : string := "9cf73a416943d55255a4943d2c839560454869ff8ea2fa74c33e787d70e09b14".

Definition NANOS_PER_DAY : Z := 86400 * 1000000000.
(** [Utc::now().date_naive()], as a day number. *)
Definition date_of (t : Z) : Z := t / NANOS_PER_DAY.
(** The day number of 9999-12-31. *)
Definition NEVER : Z := 2932896.

Section license.
Context `{Hex} `{Ed25519} `{LicenseExt}.

(** The keys in the order of the [BTreeMap]. *)
Definition payload_map (f : LicenseFile) : list (string * JsonValue) :=
  [("email", JString (lf_email f)); ("expires_at", JString (lf_expires_at f)); ("features", JArray (map JString (lf_features f)));
   ("issued_at", JString (lf_issued_at f)); ("licensee", JString (lf_licensee f)); ("tier", JString (lf_tier f))]%string.
Definition canonical_payload (f : LicenseFile) : bytes := default [] (object_to_vec (payload_map f)).

Definition exact_length (n : nat) (bs : bytes) : option bytes := if (length bs =? n)%nat then Some bs else None.

(** The signature part of [load_from_file]. *)
Definition verify_license (f : LicenseFile) : Result LicenseError unit :=
  pubkey_bytes ← ok_or (hex_dec (str_bytes VECTORGUARD_LICENSE_PUBKEY_HEX)) LInvalidSignature;
  pubkey ← ok_or (exact_length 32 pubkey_bytes) LInvalidSignature;
  _ ← (if ed_key_valid pubkey then Ok tt else Err LInvalidSignature);
  sig_bytes ← ok_or (hex_dec (str_bytes (lf_signature f))) LInvalidSignature;
  sig ← ok_or (exact_length 64 sig_bytes) LInvalidSignature;
  if ed_verify pubkey (canonical_payload f) sig then Ok tt else Err LInvalidSignature.

Definition parsed_features (f : LicenseFile) : list Feature := omap (λ s, res_ok (Feature_from_str s)) (lf_features f).

Notation LM := (M (option bytes) LicenseError).

Definition load_from_file : LM LicenseStore :=
  _ ← io LIo;
  content ← gets id;
  match content with
  | None => throw LIo
  | Some json =>
      if negb (utf8_valid json) then throw LIo
      else
        file ← liftR (ok_or (license_from_json json) LInvalidJson);
        _ ← liftR (verify_license file);
        expires ← liftR (ok_or (parse_date (lf_expires_at file)) (LMalformedField "expires_at"));
        t ← now;
        if expires <? date_of t then throw (LExpired (lf_expires_at file))
        else
          issued ← liftR (ok_or (parse_date (lf_issued_at file)) (LMalformedField "issued_at"));
          tier ← liftR (res_map_err (λ _, LMalformedField "tier") (LicenseTier_from_str (lf_tier file)));
          mret (mkLicenseStore (lf_licensee file) (lf_email file) tier issued expires (parsed_features file) true)
  end.

Definition free : LM LicenseStore :=
  t ← now;
  mret (mkLicenseStore "unlicensed" "" Free (date_of t) NEVER [] false).

Definition load_or_free : LM LicenseStore :=
  content ← gets id;
  match content with
  | None => free
  | Some _ =>
      r ← attempt load_from_file;
      match r with Ok s => mret s | Err _ => free end
  end.

Definition has_feature (f : Feature) (s : LicenseStore) : bool :=
  bool_decide (f ∈ li_features s) || bool_decide (f ∈ default_features (li_tier s)).
Definition require_feature (f : Feature) (s : LicenseStore) : Result LicenseError unit :=
  if bool_decide (f ∈ li_features s) then Ok tt
  else if bool_decide (f ∈ default_features (li_tier s)) then Ok tt
  else Err (LFeatureNotEntitled f (display_name (li_tier s))).
Definition days_remaining (s : LicenseStore) : LM (option Z) :=
  if negb (li_is_signed s) then mret None
  else t ← now; mret (Some (li_expires_at s - date_of t)).

(** ** [watcher.rs] *)

(** [Utc::now().timestamp() % 86_400] on [i64] is the truncated remainder. *)
Definition seconds_until_next_midnight (t : Z) : Z :=
  let seconds_today := Z.rem (t / 1000000000) 86400 in
  let remaining := 86400 - seconds_today in
  Z.max remaining 1.

(** The shared license, and the wake-up time the task sleeps until. *)
Record Watcher := mkWatcher { wt_file : option bytes; wt_license : LicenseStore; wt_wake : option Z }.

(** [refresh]: the file is read again, the shared license replaced. *)
Definition refresh : M Watcher LicenseError unit :=
  new ← zoom wt_file (λ f w, mkWatcher f (wt_license w) (wt_wake w)) load_or_free;
  modify (λ w, mkWatcher (wt_file w) new (wt_wake w)).

(** The task and its surroundings: planning the next check, the check when the
    sleep is over, the passing of time until then, and the administrator
    replacing the file. *)
Inductive watch_step : Z * Watcher → Z * Watcher → Prop :=
  | Watch_plan t w : wt_wake w = None →
      watch_step (t, w) (t, mkWatcher (wt_file w) (wt_license w) (Some (t + seconds_until_next_midnight t * 1000000000)))
  | Watch_tick t w ios w' W' : wt_wake w = Some t →
      refresh (mkWorld [t; t] [] ios, mkWatcher (wt_file w) (wt_license w) None) = (Ok tt, (W', w')) → watch_step (t, w) (t, w')
  | Watch_wait t w t' wake : wt_wake w = Some wake → t ≤ t' ≤ wake → watch_step (t, w) (t', w)
  | Watch_replace t w f : watch_step (t, w) (t, mkWatcher f (wt_license w) (wt_wake w)).

(** ** What a signature covers *)

(** Equal payloads come from equal fields. *)
Lemma payload_map_inj f g : payload_map f = payload_map g → f = mkLicenseFile (lf_licensee g) (lf_email g) (lf_tier g)
  (lf_issued_at g) (lf_expires_at g) (lf_features g) (lf_signature f).
Proof.
  destruct f, g. cbn. intros [= -> -> Hf -> -> ->]. f_equal. revert Hf. generalize lf_features1.
  induction lf_features0 as [|s l IH]; intros [|s' l'] Hl; try done. cbn in Hl. injection Hl as -> Hl. f_equal. by apply IH.
Qed.
Lemma payload_covers f g bs : object_to_vec (payload_map f) = Some bs → canonical_payload f = canonical_payload g →
  payload_map f = payload_map g.
Proof.
  unfold canonical_payload. intros Hf. rewrite Hf. cbn. destruct (object_to_vec (payload_map g)) as [bs'|] eqn:Hg; cbn; intros ->.
  - apply object_roundtrip in Hf, Hg. congruence.
  - by apply object_nonempty in Hf.
Qed.

Lemma verify_license_Ok f : verify_license f = Ok tt ↔
  ∃ pk sig, hex_dec (str_bytes VECTORGUARD_LICENSE_PUBKEY_HEX) = Some pk ∧ length pk = 32%nat ∧ ed_key_valid pk = true ∧
    hex_dec (str_bytes (lf_signature f)) = Some sig ∧ length sig = 64%nat ∧ ed_verify pk (canonical_payload f) sig = true.
Proof.
  unfold verify_license, exact_length, ok_or. split.
  - intros Hv. destruct (hex_dec (str_bytes VECTORGUARD_LICENSE_PUBKEY_HEX)) as [pk|]; [|done]. cbn in Hv.
    destruct (length pk =? 32)%nat eqn:Hl; [|done]. cbn in Hv. destruct (ed_key_valid pk) eqn:Hk; [|done]. cbn in Hv.
    destruct (hex_dec (str_bytes (lf_signature f))) as [sig|]; [|done]. cbn in Hv.
    destruct (length sig =? 64)%nat eqn:Hs; [|done]. cbn in Hv. destruct (ed_verify _ _ _) eqn:He; [|done].
    apply Nat.eqb_eq in Hl, Hs. by exists pk, sig.
  - intros (pk & sig & -> & Hl & Hk & -> & Hs & Hv). cbn. rewrite Hl. cbn. rewrite Hk. cbn. rewrite Hs. cbn. by rewrite Hv.
Qed.

(** The license a file stands for on a day. *)
Definition license_of (content : option bytes) (day : Z) (s : LicenseStore) : Prop :=
  ∃ json f issued, content = Some json ∧ utf8_valid json = true ∧ license_from_json json = Some f ∧ verify_license f = Ok tt ∧
    parse_date (lf_expires_at f) = Some (li_expires_at s) ∧ day ≤ li_expires_at s ∧ parse_date (lf_issued_at f) = Some issued ∧
    LicenseTier_from_str (lf_tier f) = Ok (li_tier s) ∧
    s = mkLicenseStore (lf_licensee f) (lf_email f) (li_tier s) issued (li_expires_at s) (parsed_features f) true.

Definition clock_now (W : World) : Z := default 0 (head (w_clock W)).

Definition io_fails (W : World) : bool := default false (head (w_io W)).

(** One call of [load_from_file]. *)
Ltac bad := split; [discriminate|]; intros (? & ? & ? & ? & ? & ? & ? & ? & ? & ? & ? & ? & ?); congruence.
Lemma load_from_file_exact W c s :
  (load_from_file (W, c)).1 = Ok s ↔ io_fails W = false ∧ license_of c (date_of (clock_now W)) s.
Proof.
  destruct W as [cl rn ios]. unfold io_fails, clock_now, license_of, load_from_file, io, gets, now, liftR, throw, mbind, mret, M_bind, M_ret. cbn [w_io w_clock w_rng fst snd].
  destruct (default false (head ios)); [bad|]. cbn. destruct c as [json|]; [|bad]. cbn.
  destruct (utf8_valid json) eqn:Hu; cbn; [|bad]. destruct (license_from_json json) as [f|] eqn:Hj; cbn; [|bad].
  destruct (verify_license f) as [[]|] eqn:Hv; cbn; [|bad]. destruct (parse_date (lf_expires_at f)) as [ex|] eqn:He; cbn; [|bad].
  destruct (Z.ltb_spec ex (date_of (default 0 (head cl)))) as [Hd|Hd]; cbn.
  { split; [done|]. intros (_ & j & f' & iss & ? & ? & ? & ? & ? & ? & ?). simplify_eq. lia. }
  destruct (parse_date (lf_issued_at f)) as [iss|] eqn:Hi; cbn; [|bad].
  destruct (LicenseTier_from_str (lf_tier f)) as [ti|] eqn:Ht; cbn; [|bad]. split.
  - intros [= <-]. cbn. split; [done|]. by exists json, f, iss.
  - intros (_ & j & f' & iss' & ? & ? & ? & ? & ? & ? & ? & Hti & Hs). simplify_eq. rewrite Ht in Hti. injection Hti as ->. f_equal. symmetry. exact Hs.
Qed.
Lemma load_from_file_file W c : (load_from_file (W, c)).2.2 = c.
Proof.
  assert (Hp : preserves (λ s, s = c) load_from_file); [|by apply Hp].
  unfold load_from_file. apply preserves_bind; [apply preserves_io|intros _]. apply preserves_bind; [apply preserves_gets|intros content].
  repeat case_match; solve_preserves.
Qed.

Lemma free_run (W : World) (c : option bytes) : ∃ s W', free (W, c) = (Ok s, (W', c)) ∧ li_is_signed s = false ∧ ∀ f, has_feature f s = false.
Proof. eexists _, _. split; [reflexivity|]. by split. Qed.

(** [load_or_free] always returns: the signed license when the file is one on
    this day, the free tier otherwise. *)
Lemma load_or_free_run W c : ∃ s W', load_or_free (W, c) = (Ok s, (W', c)) ∧
  ((li_is_signed s = true ∧ io_fails W = false ∧ license_of c (date_of (clock_now W)) s) ∨
   (li_is_signed s = false ∧ (∀ f, has_feature f s = false) ∧ (io_fails W = false → ¬ ∃ s', license_of c (date_of (clock_now W)) s'))).
Proof.
  unfold load_or_free, gets, id. unfold mbind at 1, M_bind at 1. cbn [snd]. destruct c as [json|] eqn:Hc.
  - unfold mbind, M_bind, attempt. pose proof (load_from_file_exact W (Some json)) as Hx. pose proof (load_from_file_file W (Some json)) as Hf.
    destruct (load_from_file (W, Some json)) as [[s|e] [W1 c1]]; cbn in Hf, Hx; subst c1.
    + destruct (proj1 (Hx s) eq_refl) as [Hio Hl]. exists s, W1. split; [done|]. left. split_and!; [|done|done].
      destruct Hl as (? & ? & ? & _ & _ & _ & _ & _ & _ & _ & _ & Hs). by rewrite Hs.
    + destruct (free_run W1 (Some json)) as (s & W' & Hr & Hs & Hf). exists s, W'. split; [done|]. right. split_and!; [done|done|].
      intros Hio [s' Hl]. discriminate (proj2 (Hx s') (conj Hio Hl)).
  - destruct (free_run W None) as (s & W' & Hr & Hs & Hf). exists s, W'. split; [done|]. right. split_and!; [done|done|].
    intros _ (s' & j & f & iss & [=] & _).
Qed.

Lemma require_has f s : is_ok (require_feature f s) = has_feature f s.
Proof. unfold require_feature, has_feature. by repeat case_bool_decide. Qed.
Lemma parsed_features_exact f feat : feat ∈ parsed_features f ↔ Feature_display feat ∈ lf_features f.
Proof.
  unfold parsed_features. rewrite list_elem_of_omap. split.
  - intros (s & Hs & Hp). destruct (Feature_from_str s) eqn:He; [|done]. injection Hp as ->. by rewrite <- (Feature_from_str_Ok _ _ He).
  - intros Hs. eexists. split; [exact Hs|]. by rewrite Feature_roundtrip.
Qed.

(** A paid feature is granted exactly by a valid license: after loading,
    require_feature succeeds if and only if the file can be read, its signature
    by the vendor's key covers exactly its fields, it has not expired on this
    day, its dates and tier are well-formed, and the feature is named in it or
    included in its tier.  No other file has the same payload. *)
Theorem license_grants_exactly W c feat :
  ∃ s W', load_or_free (W, c) = (Ok s, (W', c)) ∧
  (is_ok (require_feature feat s) = true ↔
   io_fails W = false ∧ ∃ json f ex iss tier,
     c = Some json ∧ utf8_valid json = true ∧ license_from_json json = Some f ∧ verify_license f = Ok tt ∧
     (is_Some (object_to_vec (payload_map f)) → ∀ g, canonical_payload g = canonical_payload f → payload_map g = payload_map f) ∧
     parse_date (lf_expires_at f) = Some ex ∧ date_of (clock_now W) ≤ ex ∧ parse_date (lf_issued_at f) = Some iss ∧
     LicenseTier_from_str (lf_tier f) = Ok tier ∧ (Feature_display feat ∈ lf_features f ∨ feat ∈ default_features tier)).
Proof.
  destruct (load_or_free_run W c) as (s & W' & Hr & Hs). exists s, W'. split; [done|]. rewrite require_has.
  destruct Hs as [(Hsg & Hio & j & f & iss & -> & Hu & Hj & Hv & Hex & Hd & Hi & Ht & Hs)|(_ & Hn & Hno)].
  - split.
    + intros Hf. split; [done|]. exists j, f, (li_expires_at s), iss, (li_tier s). split_and!; try done.
      * intros [bs Hbs] g Hg. symmetry. eapply payload_covers; [exact Hbs|by symmetry].
      * rewrite Hs in Hf. unfold has_feature in Hf. cbn in Hf. rewrite orb_true_iff, !bool_decide_eq_true, parsed_features_exact in Hf. done.
    + intros (_ & j' & f' & ex & iss' & tier & ? & ? & ? & ? & _ & ? & ? & ? & ? & Hf). simplify_eq.
      assert (Hti : tier = li_tier s) by congruence. rewrite Hs. unfold has_feature. cbn. rewrite <- Hti.
      rewrite orb_true_iff, !bool_decide_eq_true, parsed_features_exact. done.
  - rewrite Hn. split; [done|]. intros (Hio & j & f & ex & iss & tier & ? & ? & ? & ? & _ & ? & ? & ? & ? & _). destruct (Hno Hio).
    exists (mkLicenseStore (lf_licensee f) (lf_email f) tier iss ex (parsed_features f) true). by exists j, f, iss.
Qed.

(** ** The daily check *)

(** The wake-up time is within the first second of the next day. *)
Lemma midnight t : 0 ≤ t →
  (date_of t + 1) * NANOS_PER_DAY ≤ t + seconds_until_next_midnight t * 1000000000 < (date_of t + 1) * NANOS_PER_DAY + 1000000000.
Proof.
  intros Ht. unfold seconds_until_next_midnight, date_of, NANOS_PER_DAY.
  rewrite Z.rem_mod_nonneg by (try apply Z.div_pos; lia).
  pose proof (Z.mod_pos_bound (t / 1000000000) 86400 ltac:(lia)). rewrite Z.max_l by lia.
  rewrite (Z.mul_comm 86400 1000000000), <- Z.div_div by lia.
  pose proof (Z.div_mod (t / 1000000000) 86400 ltac:(lia)). pose proof (Z.div_mod t 1000000000 ltac:(lia)).
  pose proof (Z.mod_pos_bound t 1000000000 ltac:(lia)). lia.
Qed.

Definition in_force_ok (t : Z) (s : LicenseStore) : Prop :=
  li_is_signed s = true → date_of t ≤ li_expires_at s ∨ (date_of t = li_expires_at s + 1 ∧ t < date_of t * NANOS_PER_DAY + 1000000000).

(** The license was loaded at a moment from which the task sleeps. *)
Definition watch_inv (p : Z * Watcher) : Prop :=
  0 ≤ p.1 ∧ ∃ loaded, 0 ≤ loaded ≤ p.1 ∧ (li_is_signed (wt_license p.2) = true → date_of loaded ≤ li_expires_at (wt_license p.2)) ∧
  match wt_wake p.2 with
  | None => p.1 = loaded
  | Some wake => p.1 ≤ wake ∧ wake < (date_of loaded + 1) * NANOS_PER_DAY + 1000000000
  end.

Lemma watch_inv_step p q : watch_inv p → watch_step p q → watch_inv q.
Proof.
  intros (Ht & l & Hl & He & Hw) Hs. destruct Hs as [t w Hn|t w ios w' W' Hn Hr|t w t' wake Hn Hb|t w f]; cbn in *.
  - rewrite Hn in Hw. subst l. split; [done|]. exists t. cbn. split_and!; [done|done|done|..]; pose proof (midnight t Ht).
    + unfold seconds_until_next_midnight. lia.
    + lia.
  - split; [done|]. exists t. unfold refresh in Hr. apply mbind_Ok_inv in Hr as (s & σ & Hz & Hm). unfold zoom in Hz. cbn in Hz.
    destruct (load_or_free_run (mkWorld [t; t] [] ios) (wt_file w)) as (s' & W1 & Hlr & Hs). rewrite Hlr in Hz. injection Hz as <- <-.
    unfold modify in Hm. cbn in Hm. injection Hm as <- <-. cbn. split_and!; [lia|lia| |done].
    intros Hsg. destruct Hs as [(_ & _ & j & f & iss & _ & _ & _ & _ & _ & Hd & _)|[Hf _]]; [done|congruence].
  - rewrite Hn in Hw. split; [cbn; lia|]. exists l. cbn. rewrite Hn. split_and!; [lia|lia|done|lia|lia].
  - split; [done|]. by exists l.
Qed.

(** While the daily task runs on time, the shared license never outlives its
    expiry date by more than the first second of the next day, whatever happens
    to the file in between. *)
Theorem license_expires_at_midnight t0 c s W' t w :
  0 ≤ t0 → load_or_free (mkWorld [t0; t0] [] [], c) = (Ok s, (W', c)) →
  rtc watch_step (t0, mkWatcher c s None) (t, w) → in_force_ok t (wt_license w).
Proof.
  intros Ht Hl Hr. assert (Hi : watch_inv (t0, mkWatcher c s None)).
  { split; [done|]. exists t0. cbn. split_and!; [done|lia| |done].
    destruct (load_or_free_run (mkWorld [t0; t0] [] []) c) as (s' & W1 & Hlr & Hs). rewrite Hlr in Hl. injection Hl as -> ->.
    intros Hsg. destruct Hs as [(_ & _ & j & f & iss & _ & _ & _ & _ & _ & Hd & _)|[Hf _]]; [done|congruence]. }
  assert (Hinv : watch_inv (t, w)).
  { remember (t0, mkWatcher c s None) as p. remember (t, w) as q. clear Heqp Heqq Hl.
    induction Hr as [|x y z Hxy Hyz IH]; [done|]. apply IH. by eapply watch_inv_step. }
  destruct Hinv as (Htt & l & Hll & He & Hw). cbn in *. intros Hsg. specialize (He Hsg).
  assert (Hb : t < (date_of l + 1) * NANOS_PER_DAY + 1000000000).
  { destruct (wt_wake w); [lia|subst l]. unfold date_of, NANOS_PER_DAY. pose proof (Z.div_mod t (86400 * 1000000000) ltac:(lia)).
    pose proof (Z.mod_pos_bound t (86400 * 1000000000) ltac:(lia)). lia. }
  destruct (Z.le_gt_cases (date_of t) (li_expires_at (wt_license w))) as [|Hgt]; [by left|right].
  assert (Hd : date_of t ≤ date_of l + 1).
  { unfold date_of in *. apply Z.lt_succ_r, Z.div_lt_upper_bound; unfold NANOS_PER_DAY in *; lia. }
  assert (Heq : date_of t = date_of l + 1) by lia. split; [lia|]. rewrite Heq. lia.
Qed.

(** The free tier stays free. *)
Lemma default_features_mono : default_features Free ⊆ default_features Starter ∧ default_features Starter ⊆ default_features Growth ∧
  default_features Growth ⊆ default_features Enterprise.
Proof. split_and!; intros f Hf; cbn in *; set_solver. Qed.
End license.
