(* ===== verification/Compliance.v ===== *)
(** * vledger-compliance: the compliance report

    Models [crates/vledger-compliance/src/rules.rs], [evidence.rs], [report.rs]
    and [engine.rs]: one check per control, the two standards, the counts and
    the verdict.  The data directory is a finite map from paths to files and
    directories; a check reads it and the clock.  The theorem says exactly which
    facts about the directory make a report compliant. *)

From stdpp Require Import base gmap list strings option fin_maps pretty.
From Stdlib Require Import ZArith Lia Strings.Byte.
From S2P Require Import Prelude Bytes Jsonl Crypto AuditTrail.

#[local] Open Scope Z_scope.
#[local] Open Scope list_scope.

(** ** [evidence.rs] *)

Inductive EvidenceStatus := Pass | Fail_ | Warn | NotApplicable.
#[global] Instance EvidenceStatus_eq_dec : EqDecision EvidenceStatus.
Proof. solve_decision. Defined.

Definition status_display (s : EvidenceStatus) : string :=
  match s with Pass => "PASS" | Fail_ => "FAIL" | Warn => "WARN" | NotApplicable => "N/A" end.

Record Evidence := mkEvidence {
  ev_control_id : string;
  ev_title : string;
  ev_status : EvidenceStatus;
  ev_description : string;
  ev_findings : list string;
  ev_collected_at : Z
}.

(** The data directory: paths below it. *)
Inductive Node := File (content : bytes) | Directory.
Definition DataDir : Type := gmap (list string) Node.

Notation CM := (M DataDir Empty_set).

Definition Evidence_pass (control title description : string) : CM Evidence :=
  t ← now; mret (mkEvidence control title Pass description [] t).
Definition Evidence_fail (control title description : string) (findings : list string) : CM Evidence :=
  t ← now; mret (mkEvidence control title Fail_ description findings t).
Definition Evidence_na (control title reason : string) : CM Evidence :=
  t ← now; mret (mkEvidence control title NotApplicable reason [] t).
Definition Evidence_warn (control title description : string) (findings : list string) : CM Evidence :=
  t ← now; mret (mkEvidence control title Warn description findings t).

(** ** [rules.rs] *)

(** [Path::exists] *)
Definition path_exists (p : list string) : CM bool := gets (λ d, bool_decide (is_Some (d !! p))).
Definition file_content (p : list string) (d : DataDir) : option bytes :=
  match d !! p with Some (File bs) => Some bs | _ => None end.
(** The entries of a directory. *)
Definition is_child (p q : list string) : bool := bool_decide (length q = S (length p) ∧ take (length p) q = p).
Definition dir_count (p : list string) (d : DataDir) : nat := size (filter (λ kv, is_child p kv.1 = true) d).

Definition VERSION_FILE : list string := ["catalog"; "VERSION"].
Definition AUDIT_LOG_FILE : list string := ["audit"; "audit.log"].
Definition WAL_DIR : list string := ["wal"].
Definition PAGES_DIR : list string := ["pages"].
Definition CA_CERT : list string := ["keys"; "server.crt"].
Definition REPLICATION_FILE : list string := ["replication.json"].
Definition PLACEHOLDER_FILE : list string := ["keys"; "MASTER_KEY_PLACEHOLDER.txt"].
Definition HSM_CONFIG : list string := ["keys"; "hsm_config.json"].
Definition KEY_SOURCE : list string := ["keys"; "key_source.json"].

(** Without I/O failures the result of reading lines depends on them only. *)
Fixpoint read_fold {E A} (e : E) (f : A → bytes → Result E A) (a : A) (raws : list bytes) : Result E A :=
  match raws with
  | [] => Ok a
  | raw :: raws =>
      if utf8_valid raw then
        if blank (strip_eol raw) then read_fold e f a raws
        else match f a (strip_eol raw) with Ok a' => read_fold e f a' raws | Err x => Err x end
      else Err e
  end.
Lemma for_lines_quiet {S E A} (e : E) (f : A → bytes → Result E A) raws a W (s : S) :
  w_io W = [] → for_lines e (λ a l, liftR (f a l)) a raws (W, s) = (read_fold e f a raws, (W, s)).
Proof.
  intros Hio. revert a. induction raws as [|raw raws IH]; intros a; [done|]. cbn [for_lines read_fold]. unfold next_line.
  destruct (utf8_valid raw) eqn:Hu.
  - erewrite mbind_eq; [|by erewrite mbind_eq by (by apply io_quiet)]. cbv beta.
    destruct (blank (strip_eol raw)); [apply IH|]. unfold liftR at 1. unfold mbind, M_bind. destruct (f a (strip_eol raw)); [apply IH|done].
  - erewrite mbind_err; [done|]. by erewrite mbind_eq by (by apply io_quiet).
Qed.
(** A fold that never fails accepts every file another one accepts. *)
Lemma read_fold_total {E A B} (e : E) (f : A → bytes → Result E A) (g : B → bytes → B) raws a b r :
  read_fold e f a raws = Ok r → is_ok (read_fold e (λ b l, Ok (g b l)) b raws) = true.
Proof.
  revert a b. induction raws as [|raw raws IH]; intros a b; [done|]. cbn. destruct (utf8_valid raw); [|done].
  destruct (blank _); [apply IH|]. destruct (f a _); [apply IH|done].
Qed.

Section rules.
Context `{Blake3} `{Hex} `{AuditExt}.
(** [AuditError]'s text, and the [backend] member of a JSON object. *)
Context (audit_error_text : AuditError → string) (json_backend : bytes → option string).

Definition check_tls_enabled : CM Evidence :=
  e ← path_exists VERSION_FILE;
  if (e : bool) then
    Evidence_pass "CC6.1" "Logical access — TLS encryption in transit"
      "TLS 1.3 is mandatory for all connections (vledger-server uses rustls). Database initialised and catalog VERSION file present."
  else
    Evidence_fail "CC6.1" "Logical access — TLS encryption in transit" "Database catalog VERSION file not found"
      ["Run `vledger init` to initialise the database"].

Definition check_audit_log_exists (control description : string) : CM Evidence :=
  e ← path_exists AUDIT_LOG_FILE;
  if (e : bool) then
    meta ← attempt (F:=unit) (io tt);
    content ← gets (file_content AUDIT_LOG_FILE);
    let size := match meta with Ok _ => length (default [] content) | Err _ => 0%nat end in
    Evidence_pass control "Audit trail present" (description +:+ " (audit.log size: " +:+ pretty size +:+ " bytes)")
  else
    Evidence_fail control "Audit trail present" description ["audit/audit.log does not exist — no events have been recorded"].

Definition check_account_close_mechanism : CM Evidence :=
  e ← path_exists WAL_DIR;
  if (e : bool) then
    Evidence_pass "CC6.3" "Access revocation — account close mechanism"
      "close_account() persists AccountStatus::Closed via WAL; closed accounts reject new entries at the LedgerStore layer."
  else
    Evidence_na "CC6.3" "Access revocation — account close mechanism" "WAL directory not found — database not initialised".

Definition check_encryption_at_rest : CM Evidence :=
  e ← path_exists PAGES_DIR;
  if (e : bool) then
    Evidence_pass "CC6.6" "Encryption at rest"
      "All page-store files are encrypted with AES-256-GCM. Per-table keys are derived from the master key via HKDF."
  else
    Evidence_na "CC6.6" "Encryption at rest" "pages/ directory not found — database not initialised".

Definition check_tls_config_present : CM Evidence :=
  e ← path_exists CA_CERT;
  if (e : bool) then
    Evidence_pass "CC6.7" "Transmission encryption — TLS configuration"
      "CA-signed TLS certificate found at keys/server.crt. TLS 1.3 is mandatory for all connections (vledger-server uses rustls)."
  else
    Evidence_warn "CC6.7" "Transmission encryption — TLS configuration" "No CA-signed TLS certificate found"
      ["vledger-server is using a self-signed certificate (catalog/tls_cert.pem). Self-signed certificates do not satisfy PCI-DSS Req 4.2 or SOC 2 CC6.7 for production deployments.";
       "Action: obtain a certificate signed by a trusted CA, place it at keys/server.crt (cert) and keys/server.key (private key), then restart the server with --tls-cert-path and --tls-key-path."].

(** [AuditLog::open] at the path, then [verify_chain]; opening a file that is
    there leaves it as it is. *)
Definition audit_open : M DataDir AuditError AuditLog :=
  zoom (file_content AUDIT_LOG_FILE) (λ c d, match c with Some bs => <[AUDIT_LOG_FILE := File bs]> d | None => d end) AuditLog_open.
Definition audit_verify (log : AuditLog) : M DataDir AuditError Z := zoom (λ _, log) (λ _ d, d) verify_chain.

Definition check_audit_log_chain_integrity : CM Evidence :=
  e ← path_exists AUDIT_LOG_FILE;
  if negb e then Evidence_na "CC7.2" "Audit log chain integrity" "audit.log not found — no events recorded yet"
  else
    r ← attempt audit_open;
    match r with
    | Err e => Evidence_fail "CC7.2" "Audit log chain integrity" "Failed to open audit log" [audit_error_text e]
    | Ok log =>
        v ← attempt (audit_verify log);
        match v with
        | Ok count => Evidence_pass "CC7.2" "Audit log chain integrity" ("BLAKE3 hash chain verified over " +:+ pretty count +:+ " audit events")
        | Err e => Evidence_fail "CC7.2" "Audit log chain integrity" "Audit log chain broken" [audit_error_text e]
        end
    end.

Definition check_wal_exists (control description : string) : CM Evidence :=
  e ← path_exists WAL_DIR;
  if (e : bool) then
    r ← attempt (F:=unit) (io tt);
    n ← gets (dir_count WAL_DIR);
    let seg_count := match r with Ok _ => n | Err _ => 0%nat end in
    Evidence_pass control "WAL append-only change log" (description +:+ " (" +:+ pretty seg_count +:+ " WAL segments)")
  else
    Evidence_na control "WAL append-only change log" "WAL directory not found — database not initialised".

Definition check_replication_config (control description : string) : CM Evidence :=
  e ← path_exists REPLICATION_FILE;
  if (e : bool) then Evidence_pass control "High-availability replication" (description +:+ " (replication.json present)")
  else
    Evidence_warn control "High-availability replication" description
      ["replication.json not found — single-node deployment detected.";
       "Configure synchronous replication (`replication.json`) for full HA, or document a backup-based recovery strategy to satisfy A1.1."].

Definition check_master_key_placeholder : CM Evidence :=
  e ← path_exists PLACEHOLDER_FILE;
  if (e : bool) then
    Evidence_fail "PCI-2.2" "Secure system configuration — master key storage" "Master key must be stored in an HSM, not on disk"
      ["MASTER_KEY_PLACEHOLDER.txt still present — move master key to HSM (vledger init --hsm-backend soft|aws|azure) and delete this file"]
  else
    Evidence_pass "PCI-2.2" "Secure system configuration — master key storage"
      "MASTER_KEY_PLACEHOLDER.txt absent — master key is stored in HSM".

(** The evidence for a backend of key_source.json. *)
Definition backend_evidence (backend : string) : CM Evidence :=
  let title := "Key management — HSM configuration" in
  if bool_decide (backend = "py_hsm" ∨ backend = "pyhsm") then
    Evidence_pass "PCI-3.5" title
      "keys/key_source.json configured with PyHSM backend (Model 1 — local) — master key sealed inside AES-256-GCM-SIV encrypted keystore, never on disk in plaintext"
  else if bool_decide (backend = "remote_py_hsm") then
    Evidence_pass "PCI-3.5" title
      "keys/key_source.json configured with remote PyHSM backend (Model 2 — separate server, TLS 1.3 + mTLS) — master key sealed inside PyHSM on a dedicated server; raw key material never accessible from the VectorLedger host"
  else if bool_decide (backend = "vault") then
    Evidence_pass "PCI-3.5" title
      "keys/key_source.json configured with HashiCorp Vault backend — master key managed by Vault KMS, not stored on local disk"
  else if bool_decide (backend = "aws_kms") then
    Evidence_pass "PCI-3.5" title
      "keys/key_source.json configured with AWS KMS backend — master key protected by AWS KMS, raw key material never on disk"
  else if bool_decide (backend = "env" ∨ backend = "file" ∨ backend = EmptyString) then
    Evidence_fail "PCI-3.5" title "Master key is stored on disk or in an environment variable"
      ["keys/key_source.json backend is '" +:+ backend +:+ "' — this does not satisfy PCI-DSS Req 3.5 key-management requirements.";
       "Action: re-initialise with `vledger init --key-source pyhsm` (or vault / aws_kms) to move master key custody into an HSM or KMS."]
  else
    Evidence_warn "PCI-3.5" title ("Unknown key_source backend '" +:+ backend +:+ "'")
      ["Verify that the configured backend provides adequate key protection for PCI-DSS Req 3.5 compliance."].

(** The backend named by key_source.json, empty when it cannot be read. *)
Definition backend_of (d : DataDir) : string := default EmptyString (file_content KEY_SOURCE d ≫= λ bs, if utf8_valid bs then json_backend bs else None).

Definition check_hsm_config : CM Evidence :=
  explicit ← path_exists HSM_CONFIG;
  if (explicit : bool) then
    Evidence_pass "PCI-3.5" "Key management — HSM configuration" "keys/hsm_config.json present — key material managed by HSM provider"
  else
    source ← path_exists KEY_SOURCE;
    if (source : bool) then
      r ← attempt (F:=unit) (io tt);
      b ← gets backend_of;
      backend_evidence (match r with Ok _ => b | Err _ => EmptyString end)
    else
      Evidence_fail "PCI-3.5" "Key management — HSM configuration" "No HSM configuration found"
        ["Neither keys/hsm_config.json nor keys/key_source.json was found. Configure an HSM backend via `vledger init --key-source pyhsm` (or vault / aws_kms)."].

Definition check_four_eyes_config : CM Evidence :=
  e ← path_exists VERSION_FILE;
  if (e : bool) then
    Evidence_pass "PCI-7.1" "Restrict access — four-eyes enforcement"
      "Server-layer four-eyes enforcement is active for accounts with require_four_eyes=true (enforced in LedgerStore::post_entry and vledger-foureyes approval queue)."
  else Evidence_na "PCI-7.1" "Restrict access — four-eyes enforcement" "Database not initialised".

Definition check_hash_chain_integrity : CM Evidence :=
  e ← path_exists PAGES_DIR;
  if (e : bool) then
    Evidence_pass "PCI-11.5" "Change-detection — ledger hash chain"
      "Every journal entry is linked by a BLAKE3 hash chain. `vledger verify` checks the chain on demand."
  else Evidence_na "PCI-11.5" "Change-detection — ledger hash chain" "pages/ directory not found — database not initialised".

(** ** Standards *)

Inductive ComplianceStandard := Soc2 | PciDss.
Record ReportDateRange := mkRange { rr_from : Z; rr_to : Z }.

(** [evidence.push(check(..))] one after the other. *)
Fixpoint collect (checks : list (CM Evidence)) : CM (list Evidence) :=
  match checks with
  | [] => mret []
  | c :: checks => ev ← c; rest ← collect checks; mret (ev :: rest)
  end.

Definition soc2_checks : list (CM Evidence) :=
  [check_tls_enabled;
   check_audit_log_exists "CC6.2" "Audit log records all authentication events";
   check_account_close_mechanism;
   check_encryption_at_rest;
   check_tls_config_present;
   check_audit_log_chain_integrity;
   check_wal_exists "CC8.1" "WAL provides append-only change record for all ledger mutations";
   check_replication_config "A1.1" "Replication configuration present for high availability"].
Definition evaluate_soc2 (range : ReportDateRange) : CM (list Evidence) := collect soc2_checks.

Definition pci_checks : list (CM Evidence) :=
  [check_master_key_placeholder;
   check_encryption_at_rest;
   check_hsm_config;
   check_tls_config_present;
   check_four_eyes_config;
   check_audit_log_exists "PCI-10.2" "Audit log records all access to cardholder data environment";
   check_audit_log_chain_integrity;
   check_wal_exists "PCI-10.5" "WAL provides tamper-evident trail for all data modifications";
   check_hash_chain_integrity].
Definition evaluate_pci_dss (range : ReportDateRange) : CM (list Evidence) := collect pci_checks.

Definition evaluate (standard : ComplianceStandard) (range : ReportDateRange) : CM (list Evidence) :=
  match standard with Soc2 => evaluate_soc2 range | PciDss => evaluate_pci_dss range end.

(** ** [report.rs] and [engine.rs] *)

Record ComplianceReport := mkReport {
  cr_standard : ComplianceStandard;
  cr_generated_at : Z;
  cr_date_range : ReportDateRange;
  cr_evidence : list Evidence
}.

Definition generate_report (standard : ComplianceStandard) (range : ReportDateRange) : CM ComplianceReport :=
  evidence ← evaluate standard range;
  t ← now;
  mret (mkReport standard t range evidence).

Definition NANOS_PER_DAY' : Z := 86400 * 1000000000.
Definition last_days (days : Z) : CM ReportDateRange := to ← now; mret (mkRange (to - days * NANOS_PER_DAY') to).
Definition last_90_days : CM ReportDateRange := last_days 90.
Definition last_year : CM ReportDateRange := last_days 365.

Definition count_status (s : EvidenceStatus) (evs : list Evidence) : nat := length (filter (λ e, ev_status e = s) evs).
Definition counts (r : ComplianceReport) : nat * nat * nat * nat :=
  let n s := count_status s (cr_evidence r) in (n Pass, n Warn, n Fail_, n NotApplicable).
Definition is_compliant (r : ComplianceReport) : bool := forallb (λ e, negb (bool_decide (ev_status e = Fail_))) (cr_evidence r).
Definition result_label (r : ComplianceReport) : string :=
  if is_compliant r then if (0 <? count_status Warn (cr_evidence r))%nat then "COMPLIANT WITH WARNINGS" else "COMPLIANT"
  else "NON-COMPLIANT".

Context (format_date format_minute : Z → string).
Definition standard_debug (s : ComplianceStandard) : string := match s with Soc2 => "Soc2" | PciDss => "PciDss" end.
Definition summary (r : ComplianceReport) : string :=
  let '(pass, warn, fail, na) := counts r in
  standard_debug (cr_standard r) +:+ " compliance report (" +:+ format_date (rr_from (cr_date_range r)) +:+ " — " +:+
  format_date (rr_to (cr_date_range r)) +:+ "): " +:+ pretty pass +:+ " PASS, " +:+ pretty warn +:+ " WARN, " +:+ pretty fail +:+
  " FAIL, " +:+ pretty na +:+ " N/A — " +:+ (if is_compliant r then "COMPLIANT" else "NON-COMPLIANT").

Definition newline : string := String (Ascii.ascii_of_nat 10) EmptyString.
Definition join_with (sep : string) (l : list string) : string :=
  match l with [] => EmptyString | x :: l => x +:+ String.concat EmptyString (map (λ y, sep +:+ y) l) end.
Definition markdown_row (e : Evidence) : string :=
  "| " +:+ ev_control_id e +:+ " | " +:+ ev_title e +:+ " | " +:+ status_display (ev_status e) +:+ " | " +:+
  (match ev_findings e with [] => "-" | fs => join_with "; " fs end) +:+ " |" +:+ newline.
Definition to_markdown (r : ComplianceReport) : string :=
  let '(pass, warn, fail, na) := counts r in
  "# " +:+ standard_debug (cr_standard r) +:+ " Compliance Report" +:+ newline +:+ newline +:+ "**Period:** " +:+
  format_date (rr_from (cr_date_range r)) +:+ " — " +:+ format_date (rr_to (cr_date_range r)) +:+ newline +:+ newline +:+
  "**Generated:** " +:+ format_minute (cr_generated_at r) +:+ newline +:+ newline +:+
  "| Control | Title | Status | Findings |" +:+ newline +:+ "|---------|-------|--------|----------|" +:+ newline +:+
  String.concat EmptyString (map markdown_row (cr_evidence r)) +:+ newline +:+
  "**Result:** " +:+ pretty pass +:+ " PASS · " +:+ pretty warn +:+ " WARN · " +:+ pretty fail +:+ " FAIL · " +:+ pretty na +:+
  " N/A — **" +:+ result_label r +:+ "**" +:+ newline.

(** ** What makes a report compliant *)

(** The events of the log hash to their digests and each carries the digest of
    the one before. *)
Definition audit_accepts (content : bytes) : bool := is_ok (read_fold AuditIo verify_line (AUDIT_ZERO_HASH, 0) (raw_lines content)).

(** In an environment without I/O failures a check returns an item for its
    control, leaves the directory as it is, and fails exactly on the directories
    outside [P]. *)
Definition checks (c : CM Evidence) (control : string) (P : DataDir → Prop) : Prop :=
  ∀ W d, w_io W = [] → ∃ ev W', c (W, d) = (Ok ev, (W', d)) ∧ w_io W' = [] ∧ ev_control_id ev = control ∧ (ev_status ev ≠ Fail_ ↔ P d).

Definition present (p : list string) (d : DataDir) : Prop := is_Some (d !! p).
#[global] Instance present_dec p d : Decision (present p d) := is_Some_dec _.

Lemma checks_iff c control P Q : checks c control P → (∀ d, P d ↔ Q d) → checks c control Q.
Proof.
  intros Hc Hpq W d Hio. destruct (Hc W d Hio) as (ev & W' & Hr & Hio' & Hid & Hs). exists ev, W'. rewrite <- Hpq. done.
Qed.
Lemma checks_pass control t de : checks (Evidence_pass control t de) control (λ _, True).
Proof. intros W d Hio. eexists _, _. split_and!; [reflexivity|done|done|done]. Qed.
Lemma checks_na control t de : checks (Evidence_na control t de) control (λ _, True).
Proof. intros W d Hio. eexists _, _. split_and!; [reflexivity|done|done|done]. Qed.
Lemma checks_warn control t de fs : checks (Evidence_warn control t de fs) control (λ _, True).
Proof. intros W d Hio. eexists _, _. split_and!; [reflexivity|done|done|done]. Qed.
Lemma checks_fail control t de fs : checks (Evidence_fail control t de fs) control (λ _, False).
Proof. intros W d Hio. eexists _, _. split_and!; [reflexivity|done|done|]. by split. Qed.

(** A question answered from the directory, or after an I/O call that succeeds. *)
Lemma checks_gets {A} (f : DataDir → A) (c : A → CM Evidence) control P :
  (∀ a, checks (c a) control (P a)) → checks (x ← gets f; c x) control (λ d, P (f d) d).
Proof.
  intros Hc W d Hio. destruct (Hc (f d) W d Hio) as (ev & W' & Hr & Hrest). exists ev, W'. split; [|done].
  by erewrite mbind_eq by done.
Qed.
Lemma checks_io (c : Result unit unit → CM Evidence) control P :
  checks (c (Ok tt)) control P → checks (r ← attempt (F:=unit) (io tt); c r) control P.
Proof.
  intros Hc W d Hio. destruct (Hc W d Hio) as (ev & W' & Hr & Hrest). exists ev, W'. split; [|done].
  erewrite mbind_eq; [exact Hr|]. unfold attempt. by rewrite io_quiet.
Qed.
Lemma checks_exists p (c : bool → CM Evidence) control (P Q : DataDir → Prop) :
  checks (c true) control P → checks (c false) control Q →
  checks (e ← path_exists p; c e) control (λ d, if bool_decide (present p d) then P d else Q d).
Proof.
  intros Hp Hq W d Hio. unfold path_exists.
  assert (Hc : checks (c (bool_decide (present p d))) control (λ d', if bool_decide (present p d) then P d' else Q d')).
  { by case_bool_decide. }
  destruct (Hc W d Hio) as (ev & W' & Hr & Hio' & Hid & Hs). exists ev, W'. split_and!; [by erewrite mbind_eq by done|done|done|done].
Qed.
Hint Resolve checks_pass checks_na checks_warn checks_fail checks_exists checks_io : checks.

Definition always (_ : DataDir) : Prop := True.
Ltac decide_present := intros d; cbv beta; unfold always; repeat case_bool_decide; tauto.
Ltac by_checks f := unfold f; eapply checks_iff; [eauto with checks|decide_present].

Lemma tls_enabled_checks : checks check_tls_enabled "CC6.1" (present VERSION_FILE).
Proof. by_checks check_tls_enabled. Qed.
Lemma account_close_checks : checks check_account_close_mechanism "CC6.3" always.
Proof. by_checks check_account_close_mechanism. Qed.
Lemma encryption_checks : checks check_encryption_at_rest "CC6.6" always.
Proof. by_checks check_encryption_at_rest. Qed.
Lemma tls_config_checks : checks check_tls_config_present "CC6.7" always.
Proof. by_checks check_tls_config_present. Qed.
Lemma replication_checks control de : checks (check_replication_config control de) control always.
Proof. by_checks check_replication_config. Qed.
Lemma placeholder_checks : checks check_master_key_placeholder "PCI-2.2" (λ d, ¬ present PLACEHOLDER_FILE d).
Proof. by_checks check_master_key_placeholder. Qed.
Lemma four_eyes_checks : checks check_four_eyes_config "PCI-7.1" always.
Proof. by_checks check_four_eyes_config. Qed.
Lemma hash_chain_checks : checks check_hash_chain_integrity "PCI-11.5" always.
Proof. by_checks check_hash_chain_integrity. Qed.

Lemma audit_exists_checks control de : checks (check_audit_log_exists control de) control (present AUDIT_LOG_FILE).
Proof.
  unfold check_audit_log_exists. eapply checks_iff.
  - apply checks_exists; [|apply checks_fail]. apply checks_io. eapply (checks_gets _ _ _ (λ _ _, True)). intros a. apply checks_pass.
  - decide_present.
Qed.
Lemma wal_exists_checks control de : checks (check_wal_exists control de) control always.
Proof.
  unfold check_wal_exists. eapply checks_iff.
  - apply checks_exists; [|apply checks_na]. apply checks_io. eapply (checks_gets _ _ _ (λ _ _, True)). intros a. apply checks_pass.
  - decide_present.
Qed.

(** A backend that keeps the key outside, or that the rules do not know. *)
Definition backend_accepted (b : string) : Prop := b ≠ "env"%string ∧ b ≠ "file"%string ∧ b ≠ EmptyString.
Lemma checks_case (Q : Prop) `{!Decision Q} c1 c2 control P :
  (Q → checks c1 control P) → (¬ Q → checks c2 control P) → checks (if bool_decide Q then c1 else c2) control P.
Proof. intros Ht Hf. case_bool_decide; auto. Qed.
Lemma backend_checks b : checks (backend_evidence b) "PCI-3.5" (λ _, backend_accepted b).
Proof.
  unfold backend_evidence, backend_accepted. cbv zeta.
  do 4 (apply checks_case; [intros Hb; eapply checks_iff; [apply checks_pass|]; intros ?; cbv beta; naive_solver|intros _]).
  apply checks_case; intros Hb; (eapply checks_iff; [eauto with checks|]); intros ?; cbv beta; tauto.
Qed.

(** Key custody: an explicit file, or a backend that is accepted. *)
Definition key_custody (d : DataDir) : Prop :=
  present HSM_CONFIG d ∨ (present KEY_SOURCE d ∧ backend_accepted (backend_of d)).
Lemma hsm_checks : checks check_hsm_config "PCI-3.5" key_custody.
Proof.
  unfold check_hsm_config, key_custody. eapply checks_iff.
  - apply checks_exists; [apply checks_pass|]. apply checks_exists; [|apply checks_fail].
    apply checks_io. eapply (checks_gets _ _ _ (λ b _, backend_accepted b)). intros b. apply backend_checks.
  - decide_present.
Qed.

(** ** The audit log *)

Lemma audit_open_quiet W d bs :
  w_io W = [] → d !! AUDIT_LOG_FILE = Some (File bs) →
  ∃ r, audit_open (W, d) = (r, (W, d)) ∧
    match r with
    | Ok log => al_file log = bs
    | Err _ => audit_accepts bs = false
    end.
Proof.
  intros Hio Hd. unfold audit_open, zoom, file_content. rewrite Hd. unfold AuditLog_open, scan_tail.
  erewrite mbind_eq by (by apply io_quiet).
  set (g := λ (a : Z * bytes) l, match from_json (A:=AuditEvent) l with Some ev => (ae_sequence ev, ae_chain_hash ev) | None => a end).
  assert (Hfold : ∀ raws a, read_fold AuditIo scan_line a raws = read_fold AuditIo (λ a l, Ok (g a l)) a raws).
  { intros raws. induction raws as [|raw raws IH]; intros a; [done|]. cbn. destruct (utf8_valid raw); [|done]. destruct (blank _); [apply IH|].
    unfold scan_line, g. destruct (from_json _); apply IH. }
  destruct (read_fold AuditIo scan_line (0, AUDIT_ZERO_HASH) (raw_lines bs)) as [r|x] eqn:Hr.
  - erewrite (mbind_eq _ _ (W, Some bs)).
    2:{ erewrite mbind_eq by done. cbn [snd id]. erewrite mbind_eq by (by apply io_quiet).
        erewrite mbind_eq; [reflexivity|]. rewrite for_lines_quiet by done. by rewrite Hr. }
    erewrite mbind_eq by (by apply io_quiet). exists (Ok (mkAuditLog bs (wadd_u64 r.1 1) r.2)). split; [|done].
    transitivity (Ok (E:=AuditError) (mkAuditLog bs (wadd_u64 r.1 1) r.2), (W, <[AUDIT_LOG_FILE := File bs]> d)); [done|by rewrite (insert_id (M:=gmap (list string)) d)].
  - erewrite (mbind_err _ _ (W, Some bs)).
    2:{ erewrite mbind_eq by done. cbn [snd id]. erewrite mbind_eq by (by apply io_quiet).
        erewrite mbind_err; [reflexivity|]. rewrite for_lines_quiet by done. by rewrite Hr. }
    exists (Err x). split.
    { transitivity (Err (A:=AuditLog) x, (W, <[AUDIT_LOG_FILE := File bs]> d)); [done|by rewrite (insert_id (M:=gmap (list string)) d)]. }
    unfold audit_accepts.
    destruct (read_fold AuditIo verify_line _ _) as [v|] eqn:Hv; [|done].
    pose proof (read_fold_total _ _ g _ _ (0, AUDIT_ZERO_HASH) _ Hv) as Ht. by rewrite <- Hfold, Hr in Ht.
Qed.
Lemma audit_verify_quiet W (d : DataDir) log : w_io W = [] →
  ∃ r, audit_verify log (W, d) = (r, (W, d)) ∧ is_ok r = audit_accepts (al_file log).
Proof.
  intros Hio. unfold audit_verify, zoom, verify_chain, audit_accepts. erewrite mbind_eq by (by apply io_quiet).
  erewrite mbind_eq by done. cbn [snd]. destruct (read_fold AuditIo verify_line (AUDIT_ZERO_HASH, 0) (raw_lines (al_file log))) as [v|x] eqn:Hv.
  - erewrite mbind_eq by (rewrite for_lines_quiet by done; by rewrite Hv). by exists (Ok v.2).
  - erewrite mbind_err by (rewrite for_lines_quiet by done; by rewrite Hv). by exists (Err x).
Qed.

(** There is no log, or its chain verifies. *)
Definition audit_intact (d : DataDir) : Prop := ∀ n, d !! AUDIT_LOG_FILE = Some n → ∃ bs, n = File bs ∧ audit_accepts bs = true.

Lemma chain_integrity_checks d W :
  (∀ n, d !! AUDIT_LOG_FILE = Some n → ∃ bs, n = File bs) → w_io W = [] →
  ∃ ev W', check_audit_log_chain_integrity (W, d) = (Ok ev, (W', d)) ∧ w_io W' = [] ∧ ev_control_id ev = "CC7.2"%string ∧
    (ev_status ev ≠ Fail_ ↔ audit_intact d).
Proof.
  intros Hfile Hio. unfold check_audit_log_chain_integrity. erewrite mbind_eq by done. cbn [snd]. unfold audit_intact.
  case_bool_decide as Hp; cbn [negb].
  - destruct Hp as [n Hn]. destruct (Hfile n Hn) as [bs ->]. destruct (audit_open_quiet W d bs Hio Hn) as (r & Hr & Hx).
    erewrite mbind_eq by (unfold attempt; by rewrite Hr). destruct r as [log|e].
    + destruct (audit_verify_quiet W d log Hio) as (v & Hv & Hok). erewrite mbind_eq by (unfold attempt; by rewrite Hv). subst bs.
      assert (Hi : is_ok v = true ↔ ∀ n, d !! AUDIT_LOG_FILE = Some n → ∃ bs, n = File bs ∧ audit_accepts bs = true).
      { rewrite Hok. split; [intros Ha n Hn'; simplify_eq; eauto|]. intros Ha. destruct (Ha _ Hn) as (bs & [= <-] & Hbs). done. }
      destruct v as [c|e]; eexists _, _; (split_and!; [reflexivity|done|done|]); cbn; rewrite <- Hi; cbn; split; congruence.
    + eexists _, _. split_and!; [reflexivity|done|done|]. cbn. split; [done|]. intros Ha. destruct (Ha _ Hn) as (bs' & [= <-] & Hbs). congruence.
  - eexists _, _. split_and!; [reflexivity|done|done|]. cbn. split; [|done]. intros _ n Hn. destruct Hp. by eexists.
Qed.

(** The directory has a file, not a directory, at the path of the log. *)
Definition log_is_file (d : DataDir) : Prop := ∀ n, d !! AUDIT_LOG_FILE = Some n → ∃ bs, n = File bs.

(** Checks collected one after the other. *)
Lemma collect_checks cs d : ∀ W, w_io W = [] →
  Forall (λ '(c, control, P), ∀ W, w_io W = [] → ∃ ev W', c (W, d) = (Ok ev, (W', d)) ∧ w_io W' = [] ∧ ev_control_id ev = control ∧
    (ev_status ev ≠ Fail_ ↔ P)) cs →
  ∃ evs W', collect (map (λ x, x.1.1) cs) (W, d) = (Ok evs, (W', d)) ∧ w_io W' = [] ∧ map ev_control_id evs = map (λ x, x.1.2) cs ∧
    (Forall (λ ev, ev_status ev ≠ Fail_) evs ↔ Forall (λ x, x.2) cs).
Proof.
  induction cs as [|[[c control] P] cs IH]; intros W Hio Hcs; [by eexists [], W|]. apply Forall_cons in Hcs as [Hc Hcs].
  destruct (Hc W Hio) as (ev & W1 & Hr & Hio1 & Hid & Hs). destruct (IH W1 Hio1 Hcs) as (evs & W2 & Hrs & Hio2 & Hids & Hss).
  exists (ev :: evs), W2. split_and!; [|done|cbn; by rewrite Hid, Hids|by rewrite !Forall_cons, Hs, Hss].
  cbn [map collect fst snd]. erewrite mbind_eq by exact Hr. by erewrite mbind_eq by exact Hrs.
Qed.

(** What each standard really requires of the directory. *)
Definition requirements (s : ComplianceStandard) (d : DataDir) : Prop :=
  match s with
  | Soc2 => present VERSION_FILE d ∧ present AUDIT_LOG_FILE d ∧ audit_intact d
  | PciDss => ¬ present PLACEHOLDER_FILE d ∧ key_custody d ∧ present AUDIT_LOG_FILE d ∧ audit_intact d
  end.
Definition control_ids (s : ComplianceStandard) : list string :=
  match s with
  | Soc2 => ["CC6.1"; "CC6.2"; "CC6.3"; "CC6.6"; "CC6.7"; "CC7.2"; "CC8.1"; "A1.1"]
  | PciDss => ["PCI-2.2"; "CC6.6"; "PCI-3.5"; "CC6.7"; "PCI-7.1"; "PCI-10.2"; "CC7.2"; "PCI-10.5"; "PCI-11.5"]
  end%string.

Lemma is_compliant_exact r : is_compliant r = true ↔ Forall (λ ev, ev_status ev ≠ Fail_) (cr_evidence r).
Proof.
  unfold is_compliant. rewrite forallb_forall, Forall_forall. split; intros Hx ev Hev; specialize (Hx ev).
  - rewrite <- list_elem_of_In in Hx. specialize (Hx Hev). by apply negb_true_iff, bool_decide_eq_false in Hx.
  - rewrite list_elem_of_In in Hx. specialize (Hx Hev). by apply negb_true_iff, bool_decide_eq_false.
Qed.

(** The checks of a standard with their controls and what they require. *)
Definition standard_table (s : ComplianceStandard) (d : DataDir) : list (CM Evidence * string * Prop) :=
  match s with
  | Soc2 =>
      [(check_tls_enabled, "CC6.1", present VERSION_FILE d);
       (check_audit_log_exists "CC6.2" "Audit log records all authentication events", "CC6.2", present AUDIT_LOG_FILE d);
       (check_account_close_mechanism, "CC6.3", True); (check_encryption_at_rest, "CC6.6", True); (check_tls_config_present, "CC6.7", True);
       (check_audit_log_chain_integrity, "CC7.2", audit_intact d);
       (check_wal_exists "CC8.1" "WAL provides append-only change record for all ledger mutations", "CC8.1", True);
       (check_replication_config "A1.1" "Replication configuration present for high availability", "A1.1", True)]
  | PciDss =>
      [(check_master_key_placeholder, "PCI-2.2", ¬ present PLACEHOLDER_FILE d); (check_encryption_at_rest, "CC6.6", True);
       (check_hsm_config, "PCI-3.5", key_custody d); (check_tls_config_present, "CC6.7", True); (check_four_eyes_config, "PCI-7.1", True);
       (check_audit_log_exists "PCI-10.2" "Audit log records all access to cardholder data environment", "PCI-10.2", present AUDIT_LOG_FILE d);
       (check_audit_log_chain_integrity, "CC7.2", audit_intact d);
       (check_wal_exists "PCI-10.5" "WAL provides tamper-evident trail for all data modifications", "PCI-10.5", True);
       (check_hash_chain_integrity, "PCI-11.5", True)]
  end%string.

Lemma standard_table_ok s d : log_is_file d →
  Forall (λ '(c, control, P), ∀ W, w_io W = [] → ∃ ev W', c (W, d) = (Ok ev, (W', d)) ∧ w_io W' = [] ∧ ev_control_id ev = control ∧
    (ev_status ev ≠ Fail_ ↔ P)) (standard_table s d).
Proof.
  intros Hf. destruct s; unfold standard_table; repeat apply Forall_cons_2; try apply Forall_nil_2; intros W0 Hio0.
  - exact (tls_enabled_checks W0 d Hio0).
  - exact (audit_exists_checks _ _ W0 d Hio0).
  - exact (account_close_checks W0 d Hio0).
  - exact (encryption_checks W0 d Hio0).
  - exact (tls_config_checks W0 d Hio0).
  - by apply chain_integrity_checks.
  - exact (wal_exists_checks _ _ W0 d Hio0).
  - exact (replication_checks _ _ W0 d Hio0).
  - exact (placeholder_checks W0 d Hio0).
  - exact (encryption_checks W0 d Hio0).
  - exact (hsm_checks W0 d Hio0).
  - exact (tls_config_checks W0 d Hio0).
  - exact (four_eyes_checks W0 d Hio0).
  - exact (audit_exists_checks _ _ W0 d Hio0).
  - by apply chain_integrity_checks.
  - exact (wal_exists_checks _ _ W0 d Hio0).
  - exact (hash_chain_checks W0 d Hio0).
Qed.

(** A report is compliant exactly when the directory meets these facts, and
    nothing else of it counts: for SOC 2 the catalog file and the audit log exist
    and the chain of the log verifies; for PCI-DSS there is no key placeholder,
    an HSM file or a key source other than env and file is configured, and the
    audit log exists and its chain verifies.  Every control of the standard has
    one item, in order; generating a report changes nothing, and its date range
    is not used. *)
Theorem compliance_exact standard range d W :
  w_io W = [] → log_is_file d →
  ∃ report W', generate_report standard range (W, d) = (Ok report, (W', d)) ∧
    map ev_control_id (cr_evidence report) = control_ids standard ∧
    (is_compliant report = true ↔ requirements standard d).
Proof.
  intros Hio Hf. destruct (collect_checks (standard_table standard d) d W Hio (standard_table_ok standard d Hf)) as (evs & W1 & Hr & _ & Hids & Hs).
  assert (He : evaluate standard range (W, d) = (Ok evs, (W1, d))) by (rewrite <- Hr; by destruct standard).
  eexists _, _. split_and!.
  - unfold generate_report. erewrite mbind_eq by exact He. reflexivity.
  - cbn [cr_evidence]. rewrite Hids. by destruct standard.
  - rewrite is_compliant_exact. cbn [cr_evidence]. rewrite Hs. unfold standard_table, requirements.
    destruct standard; rewrite !Forall_cons, Forall_nil; cbn; tauto.
Qed.
End rules.
