(* ===== verification/Hsm.v ===== *)
(** * vledger-hsm: the client of the key-management daemon

    Models [crates/vledger-hsm/src/protocol.rs], [remote.rs], [client.rs] and
    [pkcs11.rs]: requests and policies, the three transports, the retry loop of
    the remote one, the operations, and the provider interface with its
    backends.  The network with the daemon behind it is a parameter, reached
    through the stages the code performs (connect, TLS handshake, write, read a
    line); each stage succeeds, times out or fails.  serde_json, the PEM parser
    and rustls are parameters too.

    The retry loop makes at most the configured number of attempts and returns
    the outcome of the last one; over a network without failures every
    transport gives the same answers, and what is encrypted through one client
    is decrypted through another; a retried request reaches the daemon a second
    time under a new id. *)

From stdpp Require Import base gmap list strings option fin_maps pretty.
From Stdlib Require Import ZArith Lia Strings.Ascii Strings.Byte.
From S2P Require Import Prelude Bytes Jsonl SqlGuard Sql Store SqlExec SqlPlan.

#[local] Open Scope Z_scope.
#[local] Open Scope list_scope.

(** ** [error.rs] *)

Inductive HsmError :=
  | HIpc (e : string)
  | HRemote (e : string)
  | HSocketNotFound (path : string)
  | HTimeout (ms : Z)
  | HTls (e : string)
  | HConnection (e : string)
  | HConfig (e : string)
  | HRetriesExhausted (attempts : Z) (last_error : string)
  | HKeyNotFound (e : string)
  | HPolicyViolation (e : string)
  | HCryptoFailed (e : string)
  | HSerialisation (e : string)
  | HIo (e : string).

Definition hsm_error_text (e : HsmError) : string :=
  match e with
  | HIpc e => "PyHSM IPC error: " +:+ e
  | HRemote e => "PyHSM returned error: " +:+ e
  | HSocketNotFound path => "PyHSM socket not found at " +:+ path +:+ " — is the PyHSM daemon running?"
  | HTimeout ms => "PyHSM IPC timeout after " +:+ pretty ms +:+ "ms"
  | HTls e => "PyHSM TLS error: " +:+ e
  | HConnection e => "PyHSM remote connection error: " +:+ e
  | HConfig e => "PyHSM configuration error: " +:+ e
  | HRetriesExhausted attempts last =>
      "PyHSM remote request failed after " +:+ pretty attempts +:+ " attempt(s): " +:+ last
  | HKeyNotFound e => "Key not found: " +:+ e
  | HPolicyViolation e => "Key policy violation: " +:+ e
  | HCryptoFailed e => "Cryptographic operation failed: " +:+ e
  | HSerialisation e => "Serialisation error: " +:+ e
  | HIo e => "I/O error: " +:+ e
  end.

(** ** [protocol.rs] *)

Record KeyPolicy := mkKeyPolicy {
  allow_encrypt : bool;
  allow_decrypt : bool;
  allow_sign : option bool;
  max_operations : option Z;
  kp_expires_at : option string;
  allowed_callers : option (list string)
}.
Definition KeyPolicy_encrypt_decrypt : KeyPolicy := mkKeyPolicy true true None None None None.
Definition KeyPolicy_sign_only : KeyPolicy := mkKeyPolicy false false (Some true) None None None.

Inductive HsmRequest :=
  | ReqEncrypt (key_id : string) (plaintext : bytes) (caller_id : string)
  | ReqDecrypt (key_id : string) (ciphertext : bytes) (caller_id : string)
  | ReqSign (key_id : string) (message : bytes) (caller_id : string)
  | ReqVerify (key_id : string) (message signature : bytes) (caller_id : string)
  | ReqGenerateKey (key_id : string) (policy : option KeyPolicy) (caller_id : string)
  | ReqRotateKey (key_id : string) (caller_id : string)
  | ReqDestroyKey (key_id : string) (caller_id : string)
  | ReqHealth (caller_id : string)
  | ReqBackup (caller_id : string).

(** [serde_json::Value], as far as [as_str] and [as_bool] look. *)
Inductive HsmValue := HvString (s : bytes) | HvBool (b : bool) | HvOther.
Definition as_str (v : HsmValue) : option bytes := match v with HvString s => Some s | _ => None end.
Definition as_bool (v : HsmValue) : option bool := match v with HvBool b => Some b | _ => None end.

Record HsmResponse := mkHsmResponse { hr_ok : bool; hr_data : option HsmValue; hr_error : option string }.

(** ** [remote.rs] *)

Record RemotePyHsmConfig := mkRemoteConfig {
  rc_endpoint : string;
  rc_ca_cert : string;
  rc_client_cert : option string;
  rc_client_key : option string;
  rc_timeout_ms : Z;
  rc_max_retries : Z
}.
Definition default_timeout_ms : Z := 5000.
Definition default_max_retries : Z := 3.

(** The process environment: [std::env::var]. *)
Definition Env : Type := string → option string.

(** [str::parse] to an unsigned integer of the given maximum. *)
Definition parse_unsigned (mx : Z) (s : string) : option Z :=
  n ← unsigned (strip_plus s); if n <=? mx then Some n else None.

Definition or_env (env : Env) (var old : string) : string := default old (env var).
Definition apply_env_overrides (env : Env) (c : RemotePyHsmConfig) : RemotePyHsmConfig :=
  mkRemoteConfig (or_env env "PYHSM_ENDPOINT" (rc_endpoint c)) (or_env env "PYHSM_CA_CERT" (rc_ca_cert c))
    (match env "PYHSM_CLIENT_CERT" with Some v => Some v | None => rc_client_cert c end)
    (match env "PYHSM_CLIENT_KEY" with Some v => Some v | None => rc_client_key c end)
    (default (rc_timeout_ms c) (env "PYHSM_TIMEOUT_MS" ≫= parse_u64))
    (rc_max_retries c).

(** [strip_prefix] and [rsplit_once(':')] *)
Fixpoint strip_prefix (p s : string) : option string :=
  match p, s with
  | EmptyString, _ => Some s
  | String a p, String b s => if bool_decide (a = b) then strip_prefix p s else None
  | String _ _, EmptyString => None
  end.
Definition colon : Ascii.ascii := ":"%char.
Fixpoint rsplit_colon (s : string) : option (string * string) :=
  match s with
  | EmptyString => None
  | String c s' =>
      match rsplit_colon s' with
      | Some (a, b) => Some (String c a, b)
      | None => if bool_decide (c = colon) then Some (EmptyString, s') else None
      end
  end.

Definition host_port (c : RemotePyHsmConfig) : Result HsmError (string * Z) :=
  stripped ← ok_or (strip_prefix "https://" (rc_endpoint c))
    (HConfig ("PYHSM endpoint must start with 'https://' — got: " +:+ rc_endpoint c));
  let '(host, port_str) := default (stripped, "8443"%string) (rsplit_colon stripped) in
  port ← ok_or (parse_unsigned 65535 port_str) (HConfig ("Invalid port in PYHSM endpoint: " +:+ port_str));
  Ok (host, port).

Inductive HsmTransport :=
  | LocalSocket (path : string)
  | LocalTcp (addr : string)
  | Remote (cfg : RemotePyHsmConfig).

Fixpoint has_colon (s : string) : bool :=
  match s with EmptyString => false | String c s => bool_decide (c = colon) || has_colon s end.

Definition from_address (env : Env) (addr : string) : HsmTransport :=
  match strip_prefix "https://" addr with
  | Some _ => Remote (mkRemoteConfig addr (or_env env "PYHSM_CA_CERT" EmptyString) (env "PYHSM_CLIENT_CERT") (env "PYHSM_CLIENT_KEY")
      default_timeout_ms default_max_retries)
  | None => if has_colon addr then LocalTcp addr else LocalSocket addr
  end.
Definition HsmTransport_remote (env : Env) (cfg : RemotePyHsmConfig) : HsmTransport := Remote (apply_env_overrides env cfg).
Definition description (t : HsmTransport) : string :=
  match t with
  | LocalSocket p => "Unix socket: " +:+ p
  | LocalTcp addr => "TCP loopback: " +:+ addr
  | Remote cfg => "Remote mTLS: " +:+ rc_endpoint cfg
  end.

(** *** The TLS configuration *)

Inductive PrivateKeyDer := Pkcs8 (k : bytes) | Sec1 (k : bytes) | Pkcs1 (k : bytes).
(** The protocol version is always 1.3. *)
Record TlsConfig := mkTlsConfig { tls_roots : list bytes; tls_identity : option (list bytes * PrivateKeyDer) }.

Class HsmExt := {
  pem_file : string → Result string bytes;          (* [std::fs::read] *)
  pem_certs : bytes → list (Result string bytes);   (* rustls_pemfile::certs *)
  pem_pkcs8 : bytes → list (Result string bytes);
  pem_ec : bytes → list (Result string bytes);
  pem_rsa : bytes → list (Result string bytes);
  root_add : bytes → option string;                 (* an error of [RootCertStore::add] *)
  client_auth : list bytes → PrivateKeyDer → option string;  (* of [with_client_auth_cert] *)
  valid_server_name : string → bool;
  request_to_string : HsmRequest → option bytes;
  request_to_string_stamped : HsmRequest → string → string → option bytes;
  response_from_str : bytes → option HsmResponse;
  uuid_v4_text : Z → string;
  rfc3339_text : Z → string
}.

(** ** The network *)

Inductive Stage (A : Type) := SOk (a : A) | STimeout | SErr (e : string).
Arguments SOk {_}. Arguments STimeout {_}. Arguments SErr {_}.

Inductive Target := ToUnix (path : string) | ToTcp (addr : string) | ToHost (host : string) (port : Z).

(** One connection: [connect] opens it, [handshake] is TLS, [read] reads a line
    (of valid UTF-8). *)
Record Network (N : Type) := mkNetwork {
  net_exists : string → N → bool;
  net_connect : Target → N → Stage unit * N;
  net_handshake : TlsConfig → string → N → Stage unit * N;
  net_write : bytes → N → Stage unit * N;
  net_read : N → Stage bytes * N;
  net_sleep : Z → N → N
}.
Arguments net_exists {_}. Arguments net_connect {_}. Arguments net_handshake {_}. Arguments net_write {_}.
Arguments net_read {_}. Arguments net_sleep {_}. Arguments mkNetwork {_}.

Definition newline_text : string := String (Ascii.ascii_of_nat 10) EmptyString.

Section client.
Context `{HsmExt} `{Hex}.

Definition read_pem_file (path : string) : Result HsmError bytes :=
  res_map_err (λ e, HTls ("Cannot read PEM file '" +:+ path +:+ "': " +:+ e)) (pem_file path).

(** [collect::<Result<Vec<_>, _>>()] *)
Fixpoint collect_ok {E A} (l : list (Result E A)) : Result E (list A) :=
  match l with
  | [] => Ok []
  | Ok a :: l => rest ← collect_ok l; Ok (a :: rest)
  | Err e :: _ => Err e
  end.
Fixpoint add_roots (certs : list (Result string bytes)) (roots : list bytes) : Result HsmError (list bytes) :=
  match certs with
  | [] => Ok roots
  | Err e :: _ => Err (HTls ("CA cert parse error: " +:+ e))
  | Ok c :: certs =>
      match root_add c with
      | Some e => Err (HTls ("CA cert add error: " +:+ e))
      | None => add_roots certs (roots ++ [c])
      end
  end.

(** The first key in one of the three formats. *)
Definition first_key (l : list (Result string bytes)) : option bytes := head (res_unwrap_or [] (collect_ok l)).
Definition client_key_of (path : string) (pem : bytes) : Result HsmError PrivateKeyDer :=
  match first_key (pem_pkcs8 pem) with
  | Some k => Ok (Pkcs8 k)
  | None =>
      match first_key (pem_ec pem) with
      | Some k => Ok (Sec1 k)
      | None =>
          match first_key (pem_rsa pem) with
          | Some k => Ok (Pkcs1 k)
          | None => Err (HTls ("No private key found in client key file: " +:+ path +:+ newline_text +:+
              "Supported formats: PKCS#8 PEM, SEC1 EC PEM, PKCS#1 RSA PEM"))
          end
      end
  end.

Definition build_tls_connector (ca_cert : string) (client_cert client_key : option string) : Result HsmError TlsConfig :=
  ca_pem ← read_pem_file ca_cert;
  roots ← add_roots (pem_certs ca_pem) [];
  match client_cert, client_key with
  | Some cert_path, Some key_path =>
      cert_pem ← read_pem_file cert_path;
      key_pem ← read_pem_file key_path;
      certs ← res_map_err (λ e, HTls ("Client cert parse error: " +:+ e)) (collect_ok (pem_certs cert_pem));
      if bool_decide (certs = []) then Err (HTls ("No certificate found in client cert file: " +:+ cert_path))
      else
        key ← client_key_of key_path key_pem;
        match client_auth certs key with
        | Some e => Err (HTls ("mTLS client config error: " +:+ e))
        | None => Ok (mkTlsConfig roots (Some (certs, key)))
        end
  | _, _ => Ok (mkTlsConfig roots None)
  end.

Definition server_name (host : string) : Result HsmError string :=
  if valid_server_name host then Ok host else Err (HTls ("Invalid TLS server name: " +:+ host)).

(** ** [client.rs] *)

Record HsmClient := mkHsmClient { hc_transport : HsmTransport; hc_caller_id : string }.

Definition HsmClient_new (socket_path caller_id : string) : HsmClient :=
  mkHsmClient (if has_colon socket_path then LocalTcp socket_path else LocalSocket socket_path) caller_id.
Definition default_pyhsm_address : string := "/tmp/pyhsm.sock".
Definition default_socket (caller_id : string) : HsmClient := HsmClient_new default_pyhsm_address caller_id.
Definition HsmClient_remote (env : Env) (cfg : RemotePyHsmConfig) (caller_id : string) : HsmClient :=
  mkHsmClient (HsmTransport_remote env cfg) caller_id.

Context {N : Type} (net : Network N).
Abbreviation NM := (M N HsmError).

(** [timeout(ms, stage).await.map_err(Timeout)?.map_err(err)?] *)
Definition stage {A} (ms : Z) (err : string → HsmError) (f : N → Stage A * N) : NM A := fun '(w, s) =>
  let '(r, s') := f s in
  (match r with SOk a => Ok a | STimeout => Err (HTimeout ms) | SErr e => Err (err e) end, (w, s')).

Definition serialize_local (req : HsmRequest) : Result HsmError bytes :=
  line ← ok_or (request_to_string req) (HSerialisation "request"); Ok (line ++ [nl]).
(** A fresh request id and the time of this attempt. *)
Definition serialize_remote (req : HsmRequest) : NM bytes :=
  r ← rand;
  t ← now;
  line ← liftR (ok_or (request_to_string_stamped req (uuid_v4_text r) (rfc3339_text t)) (HSerialisation "request"));
  mret (line ++ [nl]).

Definition parse_response (resp_line : bytes) : Result HsmError HsmResponse :=
  resp ← ok_or (response_from_str (trim resp_line)) (HSerialisation "bad response JSON");
  if negb (hr_ok resp) then Err (HRemote (default "unknown error"%string (hr_error resp))) else Ok resp.

Definition LOCAL_MS : Z := 10000.

Definition send_unix (req : HsmRequest) (path : string) : NM HsmResponse :=
  e ← gets (net_exists net path);
  if negb e then throw (HSocketNotFound path)
  else
    _ ← stage LOCAL_MS HIpc (net_connect net (ToUnix path));
    line ← liftR (serialize_local req);
    _ ← stage LOCAL_MS HIpc (net_write net line);
    resp ← stage LOCAL_MS HIpc (net_read net);
    liftR (parse_response resp).
Definition send_tcp (req : HsmRequest) (addr : string) : NM HsmResponse :=
  _ ← stage LOCAL_MS (λ e, HIpc ("TCP connect to PyHSM at " +:+ addr +:+ ": " +:+ e)) (net_connect net (ToTcp addr));
  line ← liftR (serialize_local req);
  _ ← stage LOCAL_MS HIpc (net_write net line);
  resp ← stage LOCAL_MS HIpc (net_read net);
  liftR (parse_response resp).

Definition try_send_remote (req : HsmRequest) (cfg : RemotePyHsmConfig) (ms : Z) : NM HsmResponse :=
  hp ← liftR (host_port cfg);
  let '(host, port) := hp in
  connector ← liftR (build_tls_connector (rc_ca_cert cfg) (rc_client_cert cfg) (rc_client_key cfg));
  _ ← stage ms (λ e, HConnection ("TCP connect to " +:+ host +:+ ":" +:+ pretty port +:+ ": " +:+ e)) (net_connect net (ToHost host port));
  sni ← liftR (server_name host);
  _ ← stage ms (λ e, HTls ("TLS handshake with " +:+ host +:+ ":" +:+ pretty port +:+ ": " +:+ e)) (net_handshake net connector sni);
  line ← serialize_remote req;
  _ ← stage ms HConnection (net_write net line);
  resp ← stage ms HConnection (net_read net);
  liftR (parse_response resp).

Definition is_retryable (e : HsmError) : bool :=
  match e with HConnection _ | HTimeout _ | HTls _ => true | _ => false end.

(** The iterations from [attempt] on, [n] of them. *)
Fixpoint retry_loop (req : HsmRequest) (cfg : RemotePyHsmConfig) (n : nat) (attempt_no : Z) (last_error : string) : NM HsmResponse :=
  match n with
  | O => throw (HRetriesExhausted (rc_max_retries cfg) last_error)
  | S n =>
      r ← attempt (try_send_remote req cfg (rc_timeout_ms cfg));
      match r with
      | Ok resp => mret resp
      | Err e =>
          if negb (is_retryable e) || (attempt_no =? rc_max_retries cfg) then throw e
          else
            _ ← modify (net_sleep net (100 * attempt_no));
            retry_loop req cfg n (attempt_no + 1) (hsm_error_text e)
      end
  end.
Definition send_remote (req : HsmRequest) (cfg : RemotePyHsmConfig) : NM HsmResponse :=
  retry_loop req cfg (Z.to_nat (Z.max (rc_max_retries cfg) 1)) 1 EmptyString.

Definition send (c : HsmClient) (req : HsmRequest) : NM HsmResponse :=
  match hc_transport c with
  | LocalSocket path => send_unix req path
  | LocalTcp addr => send_tcp req addr
  | Remote cfg => send_remote req cfg
  end.

(** *** Operations *)

(** The data of a response as a hexadecimal string. *)
Definition hex_data (what : string) (resp : HsmResponse) : Result HsmError bytes :=
  s ← ok_or (hr_data resp ≫= as_str) (HRemote (what +:+ ": missing data in response"));
  ok_or (hex_dec s) (HSerialisation "hex").

Definition hsm_encrypt (c : HsmClient) (key_id : string) (plaintext : bytes) : NM bytes :=
  resp ← send c (ReqEncrypt key_id (hex_enc plaintext) (hc_caller_id c)); liftR (hex_data "encrypt" resp).
Definition hsm_decrypt (c : HsmClient) (key_id : string) (ciphertext : bytes) : NM bytes :=
  resp ← send c (ReqDecrypt key_id (hex_enc ciphertext) (hc_caller_id c)); liftR (hex_data "decrypt" resp).
Definition hsm_sign (c : HsmClient) (key_id : string) (message : bytes) : NM bytes :=
  resp ← send c (ReqSign key_id (hex_enc message) (hc_caller_id c)); liftR (hex_data "sign" resp).
Definition hsm_verify (c : HsmClient) (key_id : string) (message signature : bytes) : NM bool :=
  resp ← send c (ReqVerify key_id (hex_enc message) (hex_enc signature) (hc_caller_id c));
  mret (default false (hr_data resp ≫= as_bool)).
Definition generate_key (c : HsmClient) (key_id : string) (policy : option KeyPolicy) : NM unit :=
  _ ← send c (ReqGenerateKey key_id policy (hc_caller_id c)); mret tt.
Definition hsm_rotate_key (c : HsmClient) (key_id : string) : NM unit :=
  _ ← send c (ReqRotateKey key_id (hc_caller_id c)); mret tt.
Definition destroy_key (c : HsmClient) (key_id : string) : NM unit :=
  _ ← send c (ReqDestroyKey key_id (hc_caller_id c)); mret tt.
Definition health (c : HsmClient) : NM unit := _ ← send c (ReqHealth (hc_caller_id c)); mret tt.
Definition is_available (c : HsmClient) : NM bool :=
  there ← gets (λ s, match hc_transport c with LocalSocket p => net_exists net p s | _ => true end);
  if negb there then mret false
  else r ← attempt (E:=HsmError) (health c); mret (is_ok r).

Definition table_encrypt_key_id (table_id : Z) : string := "vledger.table." +:+ pretty table_id +:+ ".encrypt".
Definition wal_signing_key_id : string := "vledger.wal.signing".
Definition commit_signing_key_id : string := "vledger.commit.signing".

(** Errors are logged only. *)
Definition provision_vgdb_keys (c : HsmClient) : NM unit :=
  forM (λ '(kid, policy), _ ← attempt (E:=HsmError) (generate_key c kid (Some policy)); mret tt)
    [(wal_signing_key_id, KeyPolicy_sign_only); (commit_signing_key_id, KeyPolicy_sign_only)].

(** ** [pkcs11.rs] *)

Record Pkcs11Provider := mkProvider {
  pv_generate_aes_key : string → NM unit;
  pv_generate_signing_key : string → NM unit;
  pv_encrypt : string → bytes → NM bytes;
  pv_decrypt : string → bytes → NM bytes;
  pv_sign : string → bytes → NM bytes;
  pv_verify : string → bytes → bytes → NM bool;
  pv_rotate_key : string → NM unit;
  pv_destroy_key : string → NM unit;
  pv_health : NM unit
}.

(** The default method of the trait: an error of the daemon means that the key
    exists. *)
Definition pv_provision_vgdb_keys (p : Pkcs11Provider) : NM unit :=
  forM (λ label,
    r ← attempt (pv_generate_signing_key p label);
    match r with Ok _ | Err (HRemote _) => mret tt | Err e => throw e end)
    [wal_signing_key_id; commit_signing_key_id].

Definition soft_provider (c : HsmClient) : Pkcs11Provider :=
  mkProvider (λ l, generate_key c l (Some KeyPolicy_encrypt_decrypt)) (λ l, generate_key c l (Some KeyPolicy_sign_only))
    (hsm_encrypt c) (hsm_decrypt c) (hsm_sign c) (hsm_verify c) (hsm_rotate_key c) (destroy_key c) (health c).
Definition SoftHsmProvider_new_default : Pkcs11Provider := soft_provider (default_socket "vledger").
Definition SoftHsmProvider_new (socket_path : string) : Pkcs11Provider := soft_provider (HsmClient_new socket_path "vledger").

Record AwsCloudHsmConfig := mkAwsConfig { aws_bridge_socket : string; aws_cluster_id : string; aws_crypto_user : string; aws_verify_bridge_tls : bool }.
Record AzureHsmConfig := mkAzureConfig { az_bridge_socket : string; az_resource_group : string; az_device_host : string; az_partition : string }.

Definition home_dir (env : Env) : string :=
  match env "HOME"%string with
  | Some h => h
  | None =>
      match env "USERPROFILE"%string with
      | Some h => h
      | None =>
          match env "HOMEDRIVE"%string, env "HOMEPATH"%string with
          | Some drive, Some path => drive +:+ path
          | _, _ => "/root"
          end
      end
  end.
Definition AwsCloudHsmConfig_default (env : Env) : AwsCloudHsmConfig :=
  mkAwsConfig (home_dir env +:+ "/.vledger-hsm-aws/bridge.sock") EmptyString "vgdb-cu" true.
Definition AzureHsmConfig_default (env : Env) : AzureHsmConfig :=
  mkAzureConfig (home_dir env +:+ "/.vledger-hsm-azure/bridge.sock") EmptyString EmptyString "vledger".

Inductive HsmProviderConfig :=
  | SoftConfig (socket_path : option string)
  | AwsCloudHsm (cfg : AwsCloudHsmConfig)
  | AzureDedicatedHsm (cfg : AzureHsmConfig).
Definition build_provider (c : HsmProviderConfig) : Pkcs11Provider :=
  match c with
  | SoftConfig (Some path) => SoftHsmProvider_new path
  | SoftConfig None => SoftHsmProvider_new_default
  | AwsCloudHsm cfg => SoftHsmProvider_new (aws_bridge_socket cfg)
  | AzureDedicatedHsm cfg => SoftHsmProvider_new (az_bridge_socket cfg)
  end.
End client.


(** * Retries, transports and round trips *)

(** ** Retries *)

Section retries.
Context `{HsmExt} `{Hex} {N : Type} (net : Network N) (req : HsmRequest) (cfg : RemotePyHsmConfig).

Abbreviation one_try := (try_send_remote net req cfg (rc_timeout_ms cfg)).
Definition backoff (i : Z) (σ : World * N) : World * N := (σ.1, net_sleep net (100 * i) σ.2).

(** Attempts number [i], [i+1], ... that failed and were followed by a pause. *)
Inductive failed_tries : Z → World * N → list HsmError → World * N → Prop :=
  | Tries_nil i σ : failed_tries i σ [] σ
  | Tries_cons i σ e σ1 es σ' :
      one_try σ = (Err e, σ1) → is_retryable e = true → failed_tries (i + 1) (backoff i σ1) es σ' → failed_tries i σ (e :: es) σ'.

(** How the loop ends after the attempt [i] with the outcome [r]. *)
Definition loop_ends (i : Z) (r : Result HsmError HsmResponse) (σ : World * N) (out : Result HsmError HsmResponse * (World * N)) : Prop :=
  match r with
  | Ok _ => out = (r, σ)
  | Err e =>
      if is_retryable e && negb (i =? rc_max_retries cfg)
      then out = (Err (HRetriesExhausted (rc_max_retries cfg) (hsm_error_text e)), backoff i σ)
      else out = (r, σ)
  end.

Lemma retry_loop_ends n : ∀ i last σ, (1 ≤ n)%nat → ∃ es σ' r σ'',
  failed_tries i σ es σ' ∧ (length es < n)%nat ∧ one_try σ' = (r, σ'') ∧
  loop_ends (i + Z.of_nat (length es)) r σ'' (retry_loop net req cfg n i last σ) ∧
  (match r with Err e => is_retryable e = true → (length es + 1 < n)%nat → i + Z.of_nat (length es) = rc_max_retries cfg | Ok _ => True end).
Proof.
  induction n as [|n IH]; intros i last σ Hn; [lia|]. cbn [retry_loop]. destruct (one_try σ) as [r σ1] eqn:Ht.
  assert (Ha : attempt (E:=HsmError) one_try σ = (Ok r, σ1)) by (unfold attempt; by rewrite Ht).
  erewrite mbind_eq by exact Ha. destruct r as [resp|e].
  { exists [], σ, (Ok resp), σ1. split_and!; [constructor|cbn; lia|done|done|done]. }
  destruct (negb (is_retryable e) || (i =? rc_max_retries cfg)) eqn:Hstop.
  - exists [], σ, (Err e), σ1. cbn [length]. rewrite Z.add_0_r. split_and!; [constructor|lia|done| |].
    + unfold loop_ends. rewrite <- (negb_involutive (is_retryable e)), <- negb_orb, Hstop. done.
    + intros Hr _. rewrite Hr in Hstop. cbn in Hstop. by apply Z.eqb_eq.
  - apply orb_false_iff in Hstop as [Hr Hi]. apply negb_false_iff in Hr. erewrite mbind_eq by done.
    destruct n as [|n].
    + exists [], σ, (Err e), σ1. cbn [length]. rewrite Z.add_0_r. split_and!; [constructor|lia|done| |lia].
      unfold loop_ends. by rewrite Hr, Hi.
    + destruct (IH (i + 1) (hsm_error_text e) (backoff i σ1) ltac:(lia)) as (es & σ' & r & σ'' & Hf & Hl & Ho & He & Hx).
      exists (e :: es), σ', r, σ''. cbn [length]. replace (i + Z.of_nat (S (length es))) with (i + 1 + Z.of_nat (length es)) by lia.
      split_and!; [by econstructor|lia|done|exact He|]. destruct r; [done|]. intros Hr' Hl'. apply Hx; [done|lia].
Qed.

(** A remote request ends after at most max_retries attempts (at least one),
    whatever the network does: all but the last failed with a connection,
    timeout or TLS error and were followed by a pause of 100 ms times their
    number; the answer is the outcome of the last attempt, except that with
    max_retries = 0 a retryable error is reported as RetriesExhausted. *)
Theorem hsm_retries_bounded σ :
  0 ≤ rc_max_retries cfg →
  ∃ es σ' r σ'', failed_tries 1 σ es σ' ∧ Z.of_nat (length es) < Z.max (rc_max_retries cfg) 1 ∧ one_try σ' = (r, σ'') ∧
  ((send_remote net req cfg σ = (r, σ'') ∧
    match r with Ok _ => True | Err e => is_retryable e = false ∨ Z.of_nat (length es) + 1 = rc_max_retries cfg end) ∨
   (rc_max_retries cfg = 0 ∧ ∃ e, r = Err e ∧ is_retryable e = true ∧
    send_remote net req cfg σ = (Err (HRetriesExhausted 0 (hsm_error_text e)), backoff 1 σ''))).
Proof.
  intros Hm. destruct (retry_loop_ends (Z.to_nat (Z.max (rc_max_retries cfg) 1)) 1 EmptyString σ) as (es & σ' & r & σ'' & Hf & Hl & Ho & He & Hx); [lia|].
  fold (send_remote net req cfg) in He. exists es, σ', r, σ''. split_and!; [done|lia|done|]. unfold loop_ends in He. destruct r as [resp|e].
  { by left. }
  destruct (is_retryable e) eqn:Hr; cbn [andb] in He; [|left; auto].
  destruct (Z.eqb_spec (1 + Z.of_nat (length es)) (rc_max_retries cfg)) as [Hi|Hi]; cbn [negb] in He.
  - left. split; [done|right; lia].
  - right. assert (Hz : rc_max_retries cfg = 0).
    { destruct (decide (rc_max_retries cfg = 0)) as [|Hnz]; [done|]. destruct (decide (length es + 1 < Z.to_nat (Z.max (rc_max_retries cfg) 1))%nat) as [Hlt|Hge].
      - specialize (Hx eq_refl Hlt). lia.
      - lia. }
    assert (Hes : es = []) by (destruct es; [done|cbn in Hl; lia]). subst es. rewrite Hz in *. split; [done|]. exists e. auto.
Qed.
End retries.

(** ** The TLS identity *)

Section tls.
Context `{HsmExt}.

(** The client presents a certificate exactly when both paths are configured:
    a certificate without a key silently gives a connection without one. *)
Theorem mtls_needs_both ca cert key cfg :
  build_tls_connector ca cert key = Ok cfg → (is_Some (tls_identity cfg) ↔ is_Some cert ∧ is_Some key).
Proof.
  unfold build_tls_connector. intros Hb. apply res_bind_Ok in Hb as (pem & _ & Hb). apply res_bind_Ok in Hb as (roots & _ & Hb).
  destruct cert as [c|], key as [k|]; try (injection Hb as <-; cbn; split; [by intros []|by intros [[] []]]).
  apply res_bind_Ok in Hb as (? & _ & Hb). apply res_bind_Ok in Hb as (? & _ & Hb). apply res_bind_Ok in Hb as (certs & _ & Hb).
  destruct (bool_decide (certs = [])); [done|]. apply res_bind_Ok in Hb as (kd & _ & Hb). destruct (client_auth certs kd); [done|].
  injection Hb as <-. cbn. split; [by eauto|by eexists].
Qed.
End tls.

(** ** A network without failures *)

Section ideal.
Context `{HsmExt} `{Hex} {D : Type}.
(** The daemon: how it reads a line, what it does and how it writes the answer. *)
Context (request_parse : bytes → option HsmRequest) (handle : HsmRequest → D → HsmResponse * D) (response_line : HsmResponse → bytes).
Hypothesis parse_plain : ∀ r l, request_to_string r = Some l → request_parse (l ++ [nl]) = Some r.
Hypothesis parse_stamped : ∀ r i t l, request_to_string_stamped r i t = Some l → request_parse (l ++ [nl]) = Some r.
Hypothesis response_read : ∀ r, response_from_str (trim (response_line r)) = Some r.

(** The daemon answers each line it receives. *)
Definition ideal_net : Network (D * bytes) :=
  mkNetwork (λ _ _, true) (λ _ s, (SOk tt, s)) (λ _ _ s, (SOk tt, s))
    (λ line s, match request_parse line with
       | Some r => let '(resp, d) := handle r s.1 in (SOk tt, (d, response_line resp))
       | None => (SErr "closed", s)
       end)
    (λ s, (SOk s.2, s)) (λ _ s, s).

(** The configuration of a remote client can be used. *)
Definition usable (c : HsmClient) : Prop :=
  match hc_transport c with
  | Remote cfg => ∃ host port tls, host_port cfg = Ok (host, port) ∧ valid_server_name host = true ∧
      build_tls_connector (rc_ca_cert cfg) (rc_client_cert cfg) (rc_client_key cfg) = Ok tls
  | _ => True
  end.
(** serde_json writes the request. *)
Definition serialisable (req : HsmRequest) : Prop :=
  is_Some (request_to_string req) ∧ ∀ i t, is_Some (request_to_string_stamped req i t).

(** What the daemon's answer means to the client. *)
Definition answer_of (resp : HsmResponse) : Result HsmError HsmResponse :=
  if hr_ok resp then Ok resp else Err (HRemote (default "unknown error"%string (hr_error resp))).
Lemma parse_response_line resp : parse_response (response_line resp) = answer_of resp.
Proof. unfold parse_response, answer_of. rewrite response_read. cbn. by destruct (hr_ok resp). Qed.

Lemma stage_ok {N A} ms err (f : N → Stage A * N) W s a s' : f s = (SOk a, s') → stage ms err f (W, s) = (Ok a, (W, s')).
Proof. intros Hf. unfold stage. by rewrite Hf. Qed.

Lemma try_remote_ideal req cfg ms W d pending host port tls :
  serialisable req → host_port cfg = Ok (host, port) → valid_server_name host = true →
  build_tls_connector (rc_ca_cert cfg) (rc_client_cert cfg) (rc_client_key cfg) = Ok tls →
  ∃ W', w_io W' = w_io W ∧ try_send_remote ideal_net req cfg ms (W, (d, pending)) =
    (answer_of (handle req d).1, (W', ((handle req d).2, response_line (handle req d).1))).
Proof.
  intros [_ Hs] Hh Hv Ht. unfold try_send_remote. erewrite mbind_eq by (unfold liftR; by rewrite Hh). cbv beta iota.
  erewrite mbind_eq by (unfold liftR; by rewrite Ht). erewrite mbind_eq by (by apply stage_ok).
  unfold server_name. rewrite Hv. erewrite mbind_eq by done. erewrite mbind_eq by (by apply stage_ok).
  destruct W as [cl rn ios]. set (i := uuid_v4_text (default 0 (head rn))). set (t := rfc3339_text (default 0 (head cl))).
  destruct (Hs i t) as [l Hl]. exists (mkWorld (tail cl) (tail rn) ios). split; [done|].
  assert (Hser : serialize_remote (N:=D * bytes) req (mkWorld cl rn ios, (d, pending)) = (Ok (l ++ [nl]), (mkWorld (tail cl) (tail rn) ios, (d, pending)))).
  { unfold serialize_remote. erewrite mbind_eq by done. erewrite mbind_eq by done. cbn -[request_to_string_stamped]. fold i t. rewrite Hl. done. }
  erewrite mbind_eq by exact Hser. destruct (handle req d) as [resp d'] eqn:Hd. cbn [fst snd].
  erewrite mbind_eq; [|apply stage_ok; cbn; rewrite (parse_stamped _ _ _ _ Hl), Hd; reflexivity].
  erewrite mbind_eq; [|apply stage_ok; reflexivity]. cbn [snd]. unfold liftR. by rewrite parse_response_line.
Qed.

Lemma local_exchange_ideal req W d pending : serialisable req →
  (line ← liftR (serialize_local req); _ ← stage LOCAL_MS HIpc (net_write ideal_net line); resp ← stage LOCAL_MS HIpc (net_read ideal_net);
   liftR (parse_response resp)) (W, (d, pending)) =
  (answer_of (handle req d).1, (W, ((handle req d).2, response_line (handle req d).1))).
Proof.
  intros [[l Hl] _]. erewrite mbind_eq by (unfold liftR, serialize_local; by rewrite Hl). destruct (handle req d) as [resp d'] eqn:Hd. cbn [fst snd].
  erewrite mbind_eq; [|apply stage_ok; cbn; rewrite (parse_plain _ _ Hl), Hd; reflexivity].
  erewrite mbind_eq; [|apply stage_ok; reflexivity]. cbn [snd]. unfold liftR. by rewrite parse_response_line.
Qed.

(** Every transport delivers the request to the daemon once and returns what it
    answers. *)
Lemma send_ideal c req W d pending :
  usable c → serialisable req →
  ∃ W', w_io W' = w_io W ∧ send ideal_net c req (W, (d, pending)) = (answer_of (handle req d).1, (W', ((handle req d).2, response_line (handle req d).1))).
Proof.
  intros Hu Hs. unfold send, usable in *. destruct (hc_transport c) as [path|addr|cfg].
  1: exists W; split; [done|]; unfold send_unix; erewrite mbind_eq by done; cbn [negb net_exists ideal_net]; erewrite mbind_eq by (by apply stage_ok);
    by apply local_exchange_ideal.
  1: exists W; split; [done|]; unfold send_tcp; erewrite mbind_eq by (by apply stage_ok); by apply local_exchange_ideal.
  destruct Hu as (host & port & tls & Hh & Hv & Ht). unfold send_remote.
  destruct (Z.to_nat (Z.max (rc_max_retries cfg) 1)) as [|n] eqn:Hn; [lia|]. cbn [retry_loop].
  destruct (try_remote_ideal req cfg (rc_timeout_ms cfg) W d pending host port tls Hs Hh Hv Ht) as (W' & Hw & Hr). exists W'. split; [done|].
  erewrite mbind_eq by (unfold attempt; by rewrite Hr). unfold answer_of. destruct (hr_ok _); [done|]. cbn. done.
Qed.

(** The daemon decrypts what it encrypted, for any caller. *)
Definition daemon_decrypts : Prop := ∀ key m caller d,
  hr_ok (handle (ReqEncrypt key (hex_enc m) caller) d).1 = true →
  ∃ ct, hr_data (handle (ReqEncrypt key (hex_enc m) caller) d).1 = Some (HvString (hex_enc ct)) ∧
  ∀ caller', (handle (ReqDecrypt key (hex_enc ct) caller') (handle (ReqEncrypt key (hex_enc m) caller) d).2).1 =
    mkHsmResponse true (Some (HvString (hex_enc m))) None.

(** Over a network without failures the transport does not matter: any
    request sent through any two clients, local socket, local TCP or remote TLS,
    gets the same answer and leaves the daemon in the same state; and data
    encrypted through one of them is decrypted through the other to what it
    was. *)
Theorem hsm_transports_agree c1 c2 key m W1 W2 d p1 p2 :
  usable c1 → usable c2 → (∀ req, serialisable req) →
  (∀ req, (send ideal_net c1 req (W1, (d, p1))).1 = (send ideal_net c2 req (W2, (d, p2))).1 ∧
    (send ideal_net c1 req (W1, (d, p1))).2.2 = (send ideal_net c2 req (W2, (d, p2))).2.2) ∧
  (daemon_decrypts → ∀ ct σ, hsm_encrypt ideal_net c1 key m (W1, (d, p1)) = (Ok ct, σ) →
    (hsm_decrypt ideal_net c2 key ct (W2, σ.2)).1 = Ok m).
Proof.
  intros Hu1 Hu2 Hs. split.
  - intros req. destruct (send_ideal c1 req W1 d p1 Hu1 (Hs req)) as (W1' & _ & ->), (send_ideal c2 req W2 d p2 Hu2 (Hs req)) as (W2' & _ & ->). done.
  - intros Hd ct σ He. unfold hsm_encrypt in He. destruct (send_ideal c1 (ReqEncrypt key (hex_enc m) (hc_caller_id c1)) W1 d p1 Hu1 (Hs _)) as (W1' & _ & Hsend).
    set (r1 := handle (ReqEncrypt key (hex_enc m) (hc_caller_id c1)) d) in *. unfold answer_of in Hsend. destruct (hr_ok r1.1) eqn:Hok.
    2:{ erewrite mbind_err in He by exact Hsend. done. }
    erewrite mbind_eq in He by exact Hsend. destruct (Hd key m (hc_caller_id c1) d Hok) as (ct' & Hdata & Hdec). fold r1 in Hdata, Hdec.
    unfold liftR, hex_data in He. rewrite Hdata in He. cbn in He. rewrite hex_roundtrip in He. cbn in He. injection He as <- <-. cbn [snd].
    unfold hsm_decrypt. destruct (send_ideal c2 (ReqDecrypt key (hex_enc ct') (hc_caller_id c2)) W2 r1.2 (response_line r1.1) Hu2 (Hs _)) as (W2' & _ & Hsend2).
    rewrite Hdec in Hsend2. unfold answer_of in Hsend2. cbn [hr_ok] in Hsend2. erewrite mbind_eq by exact Hsend2.
    unfold liftR, hex_data. cbn. by rewrite hex_roundtrip.
Qed.
End ideal.

(** ** Lost answers *)

Section lost.
Context `{HsmExt} `{Hex}.

(** A network that delivers every line; the outcomes of the reads are given. *)
Record Script := mkScript { sc_reads : list (Stage bytes); sc_written : list bytes }.
Definition script_net : Network Script :=
  mkNetwork (λ _ _, true) (λ _ s, (SOk tt, s)) (λ _ _ s, (SOk tt, s))
    (λ line s, (SOk tt, mkScript (sc_reads s) (sc_written s ++ [line])))
    (λ s, match sc_reads s with r :: rs => (r, mkScript rs (sc_written s)) | [] => (STimeout, s) end)
    (λ _ s, s).

(** When the answer to a request is lost, the request is sent again under a new
    request id: the daemon receives the operation twice and cannot tell from the
    ids that the second is a retry. *)
Theorem lost_answer_duplicates req cfg host port tls r1 r2 rng t1 t2 clk l1 l2 answer reads ios :
  2 ≤ rc_max_retries cfg → host_port cfg = Ok (host, port) → valid_server_name host = true →
  build_tls_connector (rc_ca_cert cfg) (rc_client_cert cfg) (rc_client_key cfg) = Ok tls →
  request_to_string_stamped req (uuid_v4_text r1) (rfc3339_text t1) = Some l1 →
  request_to_string_stamped req (uuid_v4_text r2) (rfc3339_text t2) = Some l2 →
  (∀ e, parse_response answer = Err e → is_retryable e = false) →
  send_remote script_net req cfg (mkWorld (t1 :: t2 :: clk) (r1 :: r2 :: rng) ios, mkScript (STimeout :: SOk answer :: reads) []) =
  (parse_response answer, (mkWorld clk rng ios, mkScript reads [l1 ++ [nl]; l2 ++ [nl]])).
Proof.
  intros Hm Hh Hv Ht H1 H2 Hp.
  assert (Hser : ∀ r t rs ts ios (s : Script) l, request_to_string_stamped req (uuid_v4_text r) (rfc3339_text t) = Some l →
    serialize_remote (N:=Script) req (mkWorld (t :: ts) (r :: rs) ios, s) = (Ok (l ++ [nl]), (mkWorld ts rs ios, s))).
  { intros r t rs ts ios' s l Hl. unfold serialize_remote. erewrite mbind_eq by done. erewrite mbind_eq by done. cbn -[request_to_string_stamped].
    by rewrite Hl. }
  assert (Htry : ∀ r t rs ts ios rd rds w l, request_to_string_stamped req (uuid_v4_text r) (rfc3339_text t) = Some l →
    try_send_remote script_net req cfg (rc_timeout_ms cfg) (mkWorld (t :: ts) (r :: rs) ios, mkScript (rd :: rds) w) =
    (match rd with SOk a => parse_response a | STimeout => Err (HTimeout (rc_timeout_ms cfg)) | SErr e => Err (HConnection e) end,
     (mkWorld ts rs ios, mkScript rds (w ++ [l ++ [nl]])))).
  { intros r t rs ts ios' rd rds w l Hl. unfold try_send_remote. erewrite mbind_eq by (unfold liftR; by rewrite Hh). cbv beta iota.
    erewrite mbind_eq by (unfold liftR; by rewrite Ht). erewrite mbind_eq by (by apply stage_ok).
    unfold server_name. rewrite Hv. erewrite mbind_eq by done. erewrite mbind_eq by (by apply stage_ok).
    erewrite mbind_eq by (by apply Hser). erewrite mbind_eq by (by apply stage_ok). unfold mbind, M_bind, stage. cbn. by destruct rd. }
  unfold send_remote. destruct (Z.to_nat (Z.max (rc_max_retries cfg) 1)) as [|[|n]] eqn:Hn; [lia|lia|]. cbn [retry_loop].
  erewrite mbind_eq by (unfold attempt; by rewrite (Htry _ _ _ _ _ _ _ _ _ H1)). cbn [is_retryable negb orb].
  destruct (Z.eqb_spec 1 (rc_max_retries cfg)); [lia|]. erewrite mbind_eq by done. cbn [fst snd net_sleep script_net app].
  erewrite mbind_eq by (unfold attempt; by rewrite (Htry _ _ _ _ _ _ _ _ _ H2)). cbn [app].
  destruct (parse_response answer) as [resp|e] eqn:Ha; [done|]. by rewrite (Hp e eq_refl).
Qed.

(** Provisioning through the client succeeds although no key was generated. *)
Theorem provision_ignores_errors {N} (net : Network N) c σ : (provision_vgdb_keys net c σ).1 = Ok tt.
Proof.
  unfold provision_vgdb_keys. cbn [forM]. unfold mbind, M_bind, attempt.
  destruct (generate_key net c wal_signing_key_id _ σ) as [r1 σ1]. cbn.
  destruct (generate_key net c commit_signing_key_id _ σ1) as [r2 σ2]. done.
Qed.
End lost.
