(* ===== verification/Secrets.v ===== *)
(** * vledger-secrets: where the master key comes from

    Models [crates/vledger-secrets/src/provider.rs]: the configuration of the
    key source, the six providers (environment, file, Vault, AWS KMS, the local
    and the remote key-management daemon), the sealed cache files, and the AWS
    request signature.  The host is the file system, the network to the daemon
    (of [Hsm]) and the HTTP services; SHA-256, HMAC, base64, JSON and date
    formats are parameters.

    A sealed cache file is read back as it was written; the key of the local
    daemon's provider is the same after every restart; the key sealed through
    the remote provider can never be loaded again. *)

From stdpp Require Import base gmap list strings option fin_maps pretty.
From Stdlib Require Import ZArith Lia Strings.Ascii Strings.Byte.
From S2P Require Import Prelude Bytes Jsonl Crypto SqlGuard Sql Store SqlExec SqlPlan Hsm.

#[local] Open Scope Z_scope.
#[local] Open Scope list_scope.

Inductive SecretsError :=
  | EnvVarMissing (var : string)
  | FileError (path : string)
  | InvalidKeyLength (got : nat)
  | HexDecode
  | SVault (e : string)
  | AwsKms (e : string)
  | SPyHsm (e : string)
  | SSerialisation
  | SIo
  | SHttp (e : string)
  | UnknownBackend (b : string).

(** ** The configuration *)

Inductive KeySourceConfig :=
  | KsEnv (var : string)
  | KsFile (path : string)
  | KsVault (addr mount secret_path field : string) (namespace : option string)
  | KsAwsKms (key_id region : string) (encryption_context : gmap string string)
  | KsPyHsm (socket_path caller_id key_id : string)
  | KsRemotePyHsm (cfg : RemotePyHsmConfig) (caller_id key_id : string).

Definition default_env_var : string := "VectorLedger_MASTER_KEY".
Definition default_vault_field : string := "value".
Definition default_pyhsm_socket : string := "/tmp/pyhsm.sock".
Definition default_pyhsm_caller_id : string := "vledger".
Definition default_pyhsm_key_id : string := "vledger.master-key".

(** ** The host *)

Record HttpRequest := mkHttpRequest { hq_method : string; hq_url : string; hq_headers : list (string * string); hq_body : bytes }.
Record HttpResponse := mkHttpResponse { hs_status : Z; hs_body : bytes }.
Definition is_success (r : HttpResponse) : bool := (200 <=? hs_status r) && (hs_status r <? 300).

Record Host (N T : Type) := mkHost { ho_files : gmap string bytes; ho_net : N; ho_http : T }.
Arguments mkHost {_ _}. Arguments ho_files {_ _}. Arguments ho_net {_ _}. Arguments ho_http {_ _}.

(** An answer of the daemon read as a JSON value: [as_bool] of its ok, [as_str]
    of its data and error members. *)
Record IpcValue := mkIpcValue { iv_ok : option bool; iv_data : option bytes; iv_error : option string }.

Class SecretsExt := {
  hmac_sha256 : bytes → bytes → bytes;
  sha256 : bytes → bytes;
  b64_enc : bytes → bytes;
  b64_dec : bytes → option bytes;
  b64_roundtrip : ∀ bs, b64_dec (b64_enc bs) = Some bs;
  config_to_json : KeySourceConfig → option bytes;
  config_from_json : bytes → option KeySourceConfig;
  config_roundtrip : ∀ c bs, config_to_json c = Some bs → config_from_json bs = Some c ∧ utf8_valid bs = true;
  ipc_to_string : HsmRequest → option bytes;               (* the json! object of a request *)
  ipc_from_str : bytes → option IpcValue;
  kms_generate_body : string → gmap string string → option bytes;
  kms_decrypt_body : bytes → gmap string string → option bytes;
  json_str_at : bytes → list string → option (option bytes); (* [None]: not JSON; then the string at a path *)
  date_compact : Z → string;                               (* %Y%m%d *)
  datetime_compact : Z → string                            (* %Y%m%dT%H%M%SZ *)
}.

Definition text_of (bs : bytes) : string := String.string_of_list_byte bs.

(** [str::lines] *)
Definition text_lines (bs : bytes) : list bytes := map strip_eol (raw_lines bs).

(** [haystack.contains(needle)] *)
Fixpoint text_contains (needle s : string) : bool :=
  String.prefix needle s || match s with EmptyString => false | String _ s => text_contains needle s end.

Section providers.
Context `{Blake3} `{Hex} `{HsmExt} `{SecretsExt} {N T : Type} (net : Network N) (env : Env).
Context (http : HttpRequest → T → Result string HttpResponse * T).

Abbreviation SM := (M (Host N T) SecretsError).

(** ** Files and services *)

Definition file_at (path : string) (h : Host N T) : option bytes := ho_files h !! path.
Definition set_file (path : string) (bs : bytes) (h : Host N T) : Host N T := mkHost (<[path := bs]> (ho_files h)) (ho_net h) (ho_http h).

Definition read_text (path : string) (e : SecretsError) : SM bytes :=
  _ ← io e;
  c ← gets (file_at path);
  match c with Some bs => if utf8_valid bs then mret bs else throw e | None => throw e end.
(** [std::fs::write]: on a failure any prefix may be in the file. *)
Definition write_text (path : string) (bs : bytes) (e : SecretsError) : SM unit :=
  r ← attempt (E:=SecretsError) (io e);
  match r with
  | Ok _ => modify (set_file path bs)
  | Err e => n ← rand; _ ← modify (set_file path (take (Z.to_nat n) bs)); throw e
  end.

Definition on_net {A} (m : M N HsmError A) (f : HsmError → SecretsError) : SM A :=
  map_err f (zoom ho_net (λ n h, mkHost (ho_files h) n (ho_http h)) m).
Definition http_send (req : HttpRequest) : SM HttpResponse := fun '(w, h) =>
  let '(r, t) := http req (ho_http h) in (res_map_err SHttp r, (w, mkHost (ho_files h) (ho_net h) t)).

(** ** The configuration file *)

Definition config_from_file (path : string) : SM KeySourceConfig :=
  data ← read_text path (FileError path); liftR (ok_or (config_from_json data) SSerialisation).
Definition config_save_to_file (c : KeySourceConfig) (path : string) : SM unit :=
  json ← liftR (ok_or (config_to_json c) SSerialisation); write_text path json SIo.

(** ** Keys *)

Definition parse_hex_key (hex : bytes) : Result SecretsError bytes :=
  bs ← ok_or (hex_dec hex) HexDecode;
  if (length bs =? 32)%nat then Ok bs else Err (InvalidKeyLength (length bs)).
Definition bytes_to_key32 (plaintext : bytes) : Result SecretsError bytes :=
  if utf8_valid plaintext then parse_hex_key (trim plaintext) else Err (SPyHsm "plaintext is not valid UTF-8").

(** ** Environment and file *)

Definition env_load (var : string) : SM bytes :=
  v ← liftR (ok_or (env var) (EnvVarMissing var)); liftR (parse_hex_key (trim (str_bytes v))).
Definition file_load (path : string) : SM bytes :=
  v ← read_text path (FileError path); liftR (parse_hex_key (trim v)).
Definition file_generate (path : string) : SM unit :=
  r ← rand; write_text path (hex_enc (le_bytes 32 r)) SIo.

(** ** Vault *)

Fixpoint strip_trailing_slashes (s : string) : string :=
  match s with
  | EmptyString => EmptyString
  | String c s => match strip_trailing_slashes s with
      | EmptyString => if bool_decide (c = "/"%char) then EmptyString else String c EmptyString
      | s' => String c s' end
  end.

Definition vault_headers (token : string) (namespace : option string) : list (string * string) :=
  ("X-Vault-Token"%string, token) :: match namespace with Some ns => [("X-Vault-Namespace"%string, ns)] | None => [] end.
(** The token's lifetime is looked up and logged; the outcome is not used. *)
Definition check_vault_token_ttl (addr token : string) (namespace : option string) : SM unit :=
  _ ← attempt (E:=SecretsError) (http_send (mkHttpRequest "GET" (strip_trailing_slashes addr +:+ "/v1/auth/token/lookup-self")
    (vault_headers token namespace) [])); mret tt.
Definition vault_load (addr mount secret_path field : string) (namespace : option string) : SM bytes :=
  token ← liftR (ok_or (env "VAULT_TOKEN"%string) (SVault "VAULT_TOKEN environment variable not set"));
  _ ← check_vault_token_ttl addr token namespace;
  resp ← http_send (mkHttpRequest "GET" (strip_trailing_slashes addr +:+ "/v1/" +:+ mount +:+ "/data/" +:+ secret_path)
    (vault_headers token namespace) []);
  if negb (is_success resp) then throw (SVault ("Vault returned HTTP " +:+ pretty (hs_status resp)))
  else
    body ← liftR (ok_or (json_str_at (hs_body resp) ["data"; "data"; field]%string) (SVault "parse response"));
    hex ← liftR (ok_or body (SVault ("field '" +:+ field +:+ "' not found in KV v2 secret at '" +:+ secret_path +:+ "'")));
    liftR (parse_hex_key (trim hex)).

(** ** Sealed cache files *)

Definition hmac_hex (key data : bytes) : bytes := hex_enc (hmac_sha256 key data).
Definition sealed (key blob : bytes) : bytes := blob ++ [nl] ++ hmac_hex key blob ++ [nl].
Definition write_cache (path : string) (key blob : bytes) (err : string → SecretsError) : SM unit :=
  write_text path (sealed key blob) (err "write").
Definition read_cache_verified (path : string) (key : bytes) (err : string → SecretsError) : SM bytes :=
  raw ← read_text path (err "read");
  match text_lines raw with
  | [] => throw (err "missing ciphertext line")
  | [_] => throw (err "missing HMAC line")
  | blob :: stored :: _ =>
      if bool_decide (stored = hmac_hex key blob) then mret blob
      else throw (err "HMAC verification FAILED")
  end.

Definition cache_path (cache_dir : option string) (name : string) : string := default "."%string cache_dir +:+ "/" +:+ name.

(** ** AWS KMS *)

Record AwsCredentials := mkCreds { access_key_id : string; secret_access_key : string; session_token : option string }.
Definition creds_from_env : Result SecretsError AwsCredentials :=
  a ← ok_or (env "AWS_ACCESS_KEY_ID"%string) (AwsKms "AWS_ACCESS_KEY_ID not set");
  s ← ok_or (env "AWS_SECRET_ACCESS_KEY"%string) (AwsKms "AWS_SECRET_ACCESS_KEY not set");
  Ok (mkCreds a s (env "AWS_SESSION_TOKEN"%string)).

Definition aws_hmac_key (c : AwsCredentials) (region : string) : bytes := blake3 (str_bytes (access_key_id c) ++ str_bytes region).
Definition sha256_hex (data : bytes) : string := text_of (hex_enc (sha256 data)).
Definition derive_signing_key (secret date region service : string) : bytes :=
  let k1 := hmac_sha256 (str_bytes ("AWS4" +:+ secret)) (str_bytes date) in
  let k2 := hmac_sha256 k1 (str_bytes region) in
  let k3 := hmac_sha256 k2 (str_bytes service) in
  hmac_sha256 k3 (str_bytes "aws4_request").

(** The values of the Authorization and X-Amz-Date headers. *)
Definition sigv4_auth (host target : string) (body : bytes) (region : string) (creds : AwsCredentials) (t : Z) : string * string :=
  let date_str := date_compact t in
  let dt_str := datetime_compact t in
  let body_hash := sha256_hex body in
  let ch := "content-type:application/x-amz-json-1.1" +:+ newline_text +:+ "host:" +:+ host +:+ newline_text +:+
    "x-amz-date:" +:+ dt_str +:+ newline_text +:+ "x-amz-target:" +:+ target +:+ newline_text +:+
    match session_token creds with Some tok => "x-amz-security-token:" +:+ tok +:+ newline_text | None => EmptyString end in
  let sh := "content-type;host;x-amz-date;x-amz-target" +:+
    match session_token creds with Some _ => ";x-amz-security-token" | None => EmptyString end in
  let canonical := "POST" +:+ newline_text +:+ "/" +:+ newline_text +:+ newline_text +:+ ch +:+ newline_text +:+ sh +:+ newline_text +:+ body_hash in
  let scope := date_str +:+ "/" +:+ region +:+ "/kms/aws4_request" in
  let sts := "AWS4-HMAC-SHA256" +:+ newline_text +:+ dt_str +:+ newline_text +:+ scope +:+ newline_text +:+ sha256_hex (str_bytes canonical) in
  let sig := text_of (hex_enc (hmac_sha256 (derive_signing_key (secret_access_key creds) date_str region "kms") (str_bytes sts))) in
  ("AWS4-HMAC-SHA256 Credential=" +:+ access_key_id creds +:+ "/" +:+ scope +:+ ", SignedHeaders=" +:+ sh +:+ ", Signature=" +:+ sig, dt_str).

(** The signed POST both calls send. *)
Definition kms_post (target : string) (region : string) (body : bytes) (creds : AwsCredentials) : SM HttpResponse :=
  let host := "kms." +:+ region +:+ ".amazonaws.com" in
  t ← now;
  let '(auth, dt) := sigv4_auth host target body region creds t in
  http_send (mkHttpRequest "POST" ("https://" +:+ host +:+ "/")
    ([("Content-Type", "application/x-amz-json-1.1"); ("X-Amz-Target", target); ("X-Amz-Date", dt); ("Authorization", auth)]%string ++
     match session_token creds with Some tok => [("X-Amz-Security-Token"%string, tok)] | None => [] end) body).

Definition decode_kms_key (b64 : bytes) : Result SecretsError bytes :=
  bs ← ok_or (b64_dec (trim b64)) (AwsKms "base64 decode");
  if (length bs =? 32)%nat then Ok bs else Err (InvalidKeyLength (length bs)).

(** A member of the answer. *)
Definition kms_field (resp : HttpResponse) (field missing : string) : Result SecretsError bytes :=
  v ← ok_or (json_str_at (hs_body resp) [field]) (AwsKms "parse"); ok_or v (AwsKms missing).

Definition kms_generate_data_key (region key_id : string) (ctx : gmap string string) (creds : AwsCredentials) : SM (bytes * bytes) :=
  body ← liftR (ok_or (kms_generate_body key_id ctx) SSerialisation);
  resp ← kms_post "TrentService.GenerateDataKey" region body creds;
  if negb (is_success resp) then throw (AwsKms ("GenerateDataKey HTTP " +:+ pretty (hs_status resp)))
  else
    pt ← liftR (kms_field resp "Plaintext" "Plaintext missing");
    ct ← liftR (kms_field resp "CiphertextBlob" "CiphertextBlob missing");
    key ← liftR (decode_kms_key pt);
    mret (key, ct).
Definition kms_decrypt (region : string) (ct_b64 : bytes) (ctx : gmap string string) (creds : AwsCredentials) : SM bytes :=
  body ← liftR (ok_or (kms_decrypt_body ct_b64 ctx) SSerialisation);
  resp ← kms_post "TrentService.Decrypt" region body creds;
  if negb (is_success resp) then throw (AwsKms ("Decrypt HTTP " +:+ pretty (hs_status resp)))
  else
    pt ← liftR (kms_field resp "Plaintext" "Plaintext missing in Decrypt response");
    liftR (decode_kms_key pt).

Definition aws_load (key_id region : string) (ctx : gmap string string) (cache_dir : option string) : SM bytes :=
  creds ← liftR creds_from_env;
  let cache := cache_path cache_dir "kms_data_key.enc" in
  exists_ ← gets (λ h, bool_decide (is_Some (file_at cache h)));
  if (exists_ : bool) then
    blob ← read_cache_verified cache (aws_hmac_key creds region) AwsKms;
    kms_decrypt region blob ctx creds
  else
    r ← kms_generate_data_key region key_id ctx creds;
    _ ← write_cache cache (aws_hmac_key creds region) r.2 AwsKms;
    mret r.1.

(** ** The local daemon *)

Definition SEC10 : Z := 10000.
Definition ipc_err (what : string) (_ : HsmError) : SecretsError := SPyHsm ("PyHSM IPC " +:+ what).

(** The string at [data], when the answer is a success. *)
Definition pyhsm_parse_response (line : bytes) : Result SecretsError (option bytes) :=
  resp ← ok_or (ipc_from_str line) (SPyHsm "PyHSM bad JSON response");
  if negb (bool_decide (iv_ok resp = Some true))
  then Err (SPyHsm ("PyHSM returned error: " +:+ default "unknown error"%string (iv_error resp))) else Ok (iv_data resp).

Definition ipc_call (socket_path : string) (req : HsmRequest) : SM (option bytes) :=
  line ← liftR (ok_or (ipc_to_string req) SSerialisation);
  e ← gets (λ h, net_exists net socket_path (ho_net h));
  if negb e then throw (SPyHsm ("PyHSM socket not found at '" +:+ socket_path +:+ "'"))
  else
    _ ← on_net (stage SEC10 HIpc (net_connect net (ToUnix socket_path))) (ipc_err "connect");
    _ ← on_net (stage SEC10 HIpc (net_write net (line ++ [nl]))) (ipc_err "write");
    resp ← on_net (stage SEC10 HIpc (net_read net)) (ipc_err "read");
    liftR (pyhsm_parse_response (trim resp)).

Record PyHsmProvider := mkPyHsm { ph_socket_path : string; ph_caller_id : string; ph_key_id : string; ph_cache_dir : option string }.

Definition ph_hmac_key (p : PyHsmProvider) : bytes := blake3 (str_bytes (ph_socket_path p) ++ str_bytes (ph_key_id p)).
Definition ph_cache (p : PyHsmProvider) : string := cache_path (ph_cache_dir p) "pyhsm_master_key.enc".

Definition ensure_wrapping_key (p : PyHsmProvider) : SM unit :=
  r ← attempt (E:=SecretsError) (ipc_call (ph_socket_path p) (ReqGenerateKey (ph_key_id p) (Some KeyPolicy_encrypt_decrypt) (ph_caller_id p)));
  match r with
  | Ok _ => mret tt
  | Err (SPyHsm msg) => if text_contains "already exists" msg then mret tt else throw (SPyHsm msg)
  | Err e => throw e
  end.
(** The answer's string is kept as it is. *)
Definition ph_encrypt (p : PyHsmProvider) (plaintext : bytes) : SM bytes :=
  resp ← ipc_call (ph_socket_path p) (ReqEncrypt (ph_key_id p) (hex_enc plaintext) (ph_caller_id p));
  liftR (ok_or resp (SPyHsm "encrypt: missing data in response")).
Definition ph_decrypt (p : PyHsmProvider) (ct : bytes) : SM bytes :=
  resp ← ipc_call (ph_socket_path p) (ReqDecrypt (ph_key_id p) ct (ph_caller_id p));
  liftR (ok_or resp (SPyHsm "decrypt: missing data in response")).

Definition pyhsm_load (p : PyHsmProvider) : SM bytes :=
  exists_ ← gets (λ h, bool_decide (is_Some (file_at (ph_cache p) h)));
  if (exists_ : bool) then
    ct ← read_cache_verified (ph_cache p) (ph_hmac_key p) SPyHsm;
    plaintext ← ph_decrypt p ct;
    liftR (bytes_to_key32 plaintext)
  else
    _ ← ensure_wrapping_key p;
    r ← rand;
    let raw := le_bytes 32 r in
    ct ← ph_encrypt p raw;
    _ ← write_cache (ph_cache p) (ph_hmac_key p) ct SPyHsm;
    mret raw.

(** ** The remote daemon *)

Record RemotePyHsmProvider := mkRemotePyHsm { rp_cfg : RemotePyHsmConfig; rp_caller_id : string; rp_key_id : string; rp_cache_dir : option string }.

Definition rp_hmac_key (p : RemotePyHsmProvider) : bytes := blake3 (str_bytes (rc_endpoint (rp_cfg p)) ++ str_bytes (rp_key_id p)).
Definition rp_cache (p : RemotePyHsmProvider) : string := cache_path (rp_cache_dir p) "pyhsm_master_key.enc".
(** The fields resolved from the environment; [HsmClient::remote] resolves them
    once more. *)
Definition build_hsm_client (p : RemotePyHsmProvider) : HsmClient := HsmClient_remote env (apply_env_overrides env (rp_cfg p)) (rp_caller_id p).

Definition rp_encrypt (p : RemotePyHsmProvider) (c : HsmClient) (plaintext : bytes) : SM bytes :=
  ct ← on_net (hsm_encrypt net c (rp_key_id p) plaintext) (λ e, SPyHsm ("remote PyHSM encrypt: " +:+ hsm_error_text e));
  mret (b64_enc ct).
Definition rp_decrypt (p : RemotePyHsmProvider) (c : HsmClient) (ct_b64 : bytes) : SM bytes :=
  ct ← liftR (ok_or (b64_dec (trim ct_b64)) (SPyHsm "base64 decode cached blob"));
  on_net (hsm_decrypt net c (rp_key_id p) ct) (λ e, SPyHsm ("remote PyHSM decrypt: " +:+ hsm_error_text e)).
Definition rp_ensure_wrapping_key (p : RemotePyHsmProvider) (c : HsmClient) : SM unit :=
  r ← attempt (E:=SecretsError) (zoom ho_net (λ n h, mkHost (ho_files h) n (ho_http h))
    (generate_key net c (rp_key_id p) (Some KeyPolicy_encrypt_decrypt)));
  match r with
  | Ok _ => mret tt
  | Err (HRemote msg) => if text_contains "already exists" msg then mret tt else throw (SPyHsm ("ensure wrapping key: " +:+ hsm_error_text (HRemote msg)))
  | Err e => throw (SPyHsm ("ensure wrapping key: " +:+ hsm_error_text e))
  end.

Definition remote_load (p : RemotePyHsmProvider) : SM bytes :=
  let client := build_hsm_client p in
  exists_ ← gets (λ h, bool_decide (is_Some (file_at (rp_cache p) h)));
  if (exists_ : bool) then
    ct ← read_cache_verified (rp_cache p) (rp_hmac_key p) SPyHsm;
    plaintext ← rp_decrypt p client ct;
    liftR (bytes_to_key32 plaintext)
  else
    _ ← rp_ensure_wrapping_key p client;
    r ← rand;
    let raw := le_bytes 32 r in
    ct ← rp_encrypt p client raw;
    _ ← write_cache (rp_cache p) (rp_hmac_key p) ct SPyHsm;
    mret raw.

(** ** [build_provider] and the trait's method *)

Definition load_master_key (c : KeySourceConfig) (cache_dir : option string) : SM bytes :=
  match c with
  | KsEnv var => env_load var
  | KsFile path => file_load path
  | KsVault addr mount secret_path field namespace => vault_load addr mount secret_path field namespace
  | KsAwsKms key_id region ctx => aws_load key_id region ctx cache_dir
  | KsPyHsm socket_path caller_id key_id => pyhsm_load (mkPyHsm socket_path caller_id key_id cache_dir)
  | KsRemotePyHsm cfg caller_id key_id => remote_load (mkRemotePyHsm cfg caller_id key_id cache_dir)
  end.
Definition provider_description (c : KeySourceConfig) : string :=
  match c with
  | KsEnv var => "environment variable '" +:+ var +:+ "'"
  | KsFile path => "key file '" +:+ path +:+ "'"
  | KsVault addr mount secret_path _ _ => "HashiCorp Vault KV v2 at " +:+ addr +:+ "/" +:+ mount +:+ "/" +:+ secret_path
  | KsAwsKms key_id region _ => "AWS KMS key '" +:+ key_id +:+ "' in region '" +:+ region +:+ "'"
  | KsPyHsm socket_path _ key_id => "PyHSM daemon at '" +:+ socket_path +:+ "' (key '" +:+ key_id +:+ "')"
  | KsRemotePyHsm cfg _ key_id => "Remote PyHSM daemon at '" +:+ rc_endpoint cfg +:+ "' (mTLS, key '" +:+ key_id +:+ "')"
  end.
End providers.


(** * What survives a restart *)

Lemma hex_printable `{Hex} bs : Forall printable (hex_enc bs).
Proof. eapply Forall_impl; [apply hex_enc_digits|]. intros c. unfold printable. lia. Qed.

Section secrets.
Context `{Blake3} `{Hex} `{HsmExt} `{SecretsExt} {N T : Type} (net : Network N) (env : Env).
Context (http : HttpRequest → T → Result string HttpResponse * T).

(** ** Sealed files *)

Lemma text_lines_sealed key blob : Forall printable blob → text_lines (sealed key blob) = [blob; hmac_hex key blob].
Proof.
  intros Hb. unfold text_lines, sealed. destruct (printable_not_eol _ Hb) as [Hn Hc].
  destruct (printable_not_eol _ (hex_printable (hmac_sha256 key blob))) as [Hn' Hc'].
  change (blob ++ [nl] ++ hmac_hex key blob ++ [nl]) with (blob ++ nl :: (hmac_hex key blob ++ nl :: [])).
  rewrite raw_lines_line by done. rewrite raw_lines_line by done. cbn [map raw_lines].
  by rewrite !strip_eol_line by done.
Qed.
Lemma sealed_utf8 key blob : Forall printable blob → utf8_valid (sealed key blob) = true.
Proof.
  intros Hb. unfold utf8_valid. apply bool_decide_true. unfold sealed.
  assert (Hd : ∀ l r, Forall printable l → is_Some (utf8_decode r) → is_Some (utf8_decode (l ++ r))).
  { intros l r Hl Hr. induction Hl as [|b l Hbb _ [x IH]]; [done|]. cbn [app]. rewrite decode_printable by done. rewrite IH. by eexists. }
  apply Hd; [done|]. cbn [app]. assert (Hnl : ∀ r, is_Some (utf8_decode r) → is_Some (utf8_decode (nl :: r))) by (intros r [x Hr]; cbn; rewrite Hr; by eexists).
  apply Hnl, Hd; [apply hex_printable|]. apply (Hnl []). by eexists.
Qed.

(** What was sealed under a key is read back under that key.  The keys of the
    daemon providers are derived from the configuration alone, so whoever can
    read the configuration and write the cache file can seal any blob. *)
Lemma read_sealed path key blob err W (h : Host N T) :
  Forall printable blob → w_io W = [] → file_at path h = Some (sealed key blob) →
  read_cache_verified path key err (W, h) = (Ok blob, (W, h)).
Proof.
  intros Hb Hio Hf. unfold read_cache_verified, read_text.
  erewrite mbind_eq.
  2:{ erewrite mbind_eq by (by apply io_quiet). erewrite mbind_eq by done. cbn [snd]. rewrite Hf, sealed_utf8 by done. reflexivity. }
  rewrite text_lines_sealed by done. by rewrite bool_decide_true.
Qed.
Lemma write_cache_quiet path key blob err W (h : Host N T) :
  w_io W = [] → write_cache path key blob err (W, h) = (Ok tt, (W, set_file path (sealed key blob) h)).
Proof. intros Hio. unfold write_cache, write_text. erewrite mbind_eq by (unfold attempt; by rewrite io_quiet). done. Qed.
Lemma file_at_set path bs (h : Host N T) : file_at path (set_file path bs h) = Some bs.
Proof. unfold file_at, set_file. cbn. by rewrite lookup_insert_eq. Qed.

(** ** Keys *)

Lemma parse_hex_key_enc key : length key = 32%nat → parse_hex_key (hex_enc key) = Ok key.
Proof. intros Hl. unfold parse_hex_key. rewrite hex_roundtrip. cbn. by rewrite Hl. Qed.
Lemma bytes_to_key32_hex key : length key = 32%nat → bytes_to_key32 (hex_enc key) = Ok key.
Proof.
  intros Hl. unfold bytes_to_key32. rewrite printable_utf8 by apply hex_printable. rewrite trim_printable by apply hex_printable.
  by apply parse_hex_key_enc.
Qed.
(** Thirty-two bytes are never the hexadecimal text of a key. *)
Lemma bytes_to_key32_raw key : length key = 32%nat → ∃ e, bytes_to_key32 key = Err e.
Proof.
  intros Hl. unfold bytes_to_key32. destruct (utf8_valid key); [|by eexists]. unfold parse_hex_key.
  destruct (hex_dec (trim key)) as [bs|] eqn:Hd; [|by eexists]. cbn. apply hex_dec_length in Hd. pose proof (trim_length key).
  destruct (Nat.eqb_spec (length bs) 32); [lia|by eexists].
Qed.
End secrets.

(** ** Restarts *)

Section restart.
Context `{Blake3} `{Hex} `{HsmExt} `{SecretsExt} {D T : Type} (env : Env).
Context (http : HttpRequest → T → Result string HttpResponse * T).
(** The daemon behind a network without failures, as in [Hsm]. *)
Context (request_parse : bytes → option HsmRequest) (handle : HsmRequest → D → HsmResponse * D) (response_line : HsmResponse → bytes).
Hypothesis parse_plain : ∀ r l, request_to_string r = Some l → request_parse (l ++ [nl]) = Some r.
Hypothesis parse_stamped : ∀ r i t l, request_to_string_stamped r i t = Some l → request_parse (l ++ [nl]) = Some r.
Hypothesis response_read : ∀ r, response_from_str (trim (response_line r)) = Some r.
Hypothesis all_serialisable : ∀ req, serialisable req.
(** The same messages as JSON values. *)
Hypothesis parse_ipc : ∀ r, ∃ l, ipc_to_string r = Some l ∧ request_parse (l ++ [nl]) = Some r.
Hypothesis ipc_read : ∀ r, ipc_from_str (trim (response_line r)) = Some (mkIpcValue (Some (hr_ok r)) (hr_data r ≫= as_str) (hr_error r)).
(** base64 text has no spaces. *)
Hypothesis b64_printable : ∀ bs, Forall printable (b64_enc bs).

Notation net := (ideal_net request_parse handle response_line).
Notation pending d resp := ((d, response_line resp) : D * bytes).

(** One exchange with the daemon over its socket. *)
Lemma ipc_call_ideal socket req W fs d p (t : T) :
  ∃ r, ipc_call net socket req (W, mkHost fs (d, p) t) = (r, (W, mkHost fs (pending (handle req d).2 (handle req d).1) t)) ∧
  r = (if hr_ok (handle req d).1 then Ok (hr_data (handle req d).1 ≫= as_str)
       else Err (SPyHsm ("PyHSM returned error: " +:+ default "unknown error"%string (hr_error (handle req d).1)))).
Proof.
  destruct (parse_ipc req) as (l & Hl & Hp). eexists. split; [|reflexivity]. unfold ipc_call.
  erewrite mbind_eq by (unfold liftR; by rewrite Hl). erewrite mbind_eq by done. cbn [negb net_exists ideal_net snd].
  erewrite mbind_eq by done. destruct (handle req d) as [resp d'] eqn:Hh. cbn [fst snd].
  assert (Hw : on_net (stage SEC10 HIpc (net_write net (l ++ [nl]))) (ipc_err "write") (W, mkHost fs (d, p) t) =
    (Ok tt, (W, mkHost fs (pending d' resp) t))).
  { unfold on_net, map_err, zoom, stage. cbn. rewrite Hp, Hh. done. }
  assert (Hr : on_net (stage SEC10 HIpc (net_read net)) (ipc_err "read") (W, mkHost fs (pending d' resp) t) =
    (Ok (response_line resp), (W, mkHost fs (pending d' resp) t))) by done.
  erewrite mbind_eq by exact Hw. erewrite mbind_eq by exact Hr. unfold liftR, pyhsm_parse_response. rewrite ipc_read. cbn.
  destruct (hr_ok resp); [by rewrite bool_decide_true|by rewrite bool_decide_false].
Qed.

(** The daemon decrypts to what it was given; its ciphertexts are hexadecimal
    text. *)
Hypothesis decrypts : daemon_decrypts handle.

Lemma encrypt_data key m caller d : hr_ok (handle (ReqEncrypt key (hex_enc m) caller) d).1 = true →
  ∃ ct, hr_data (handle (ReqEncrypt key (hex_enc m) caller) d).1 ≫= as_str = Some (hex_enc ct) ∧
  ∀ caller', (handle (ReqDecrypt key (hex_enc ct) caller') (handle (ReqEncrypt key (hex_enc m) caller) d).2).1 =
    mkHsmResponse true (Some (HvString (hex_enc m))) None.
Proof. intros Hok. destruct (decrypts key m caller d Hok) as (ct & Hd & Hr). exists ct. by rewrite Hd. Qed.

Lemma ph_encrypt_ideal p raw W fs d q (t : T) ct σ :
  ph_encrypt net p raw (W, mkHost fs (d, q) t) = (Ok ct, σ) →
  ∃ ct', ct = hex_enc ct' ∧ σ.1 = W ∧ ∃ d' q', σ.2 = mkHost fs (d', q') t ∧
  ∀ caller, (handle (ReqDecrypt (ph_key_id p) ct caller) d').1 = mkHsmResponse true (Some (HvString (hex_enc raw))) None.
Proof.
  unfold ph_encrypt. intros He. apply mbind_Ok_inv in He as (r & σ1 & Hc & He).
  destruct (ipc_call_ideal (ph_socket_path p) (ReqEncrypt (ph_key_id p) (hex_enc raw) (ph_caller_id p)) W fs d q t) as (r' & Hc' & Hr').
  rewrite Hc' in Hc. assert (Hrr : r' = Ok r) by congruence. assert (Hσ : σ1 = (W, mkHost fs (pending (handle (ReqEncrypt (ph_key_id p) (hex_enc raw) (ph_caller_id p)) d).2
    (handle (ReqEncrypt (ph_key_id p) (hex_enc raw) (ph_caller_id p)) d).1) t)) by congruence. clear Hc Hc'. subst r' σ1.
  destruct (hr_ok _) eqn:Hok; [|done]. injection Hrr as <-.
  destruct (encrypt_data _ _ _ _ Hok) as (ct' & Hd & Hdec). rewrite Hd in He. unfold liftR in He. cbn in He. injection He as <- <-.
  exists ct'. split_and!; [done|done|]. eexists _, _. split; [reflexivity|]. done.
Qed.

Lemma ensure_ideal p W fs d q (t : T) :
  ∃ r d' q', ensure_wrapping_key net p (W, mkHost fs (d, q) t) = (r, (W, mkHost fs (d', q') t)).
Proof.
  unfold ensure_wrapping_key.
  destruct (ipc_call_ideal (ph_socket_path p) (ReqGenerateKey (ph_key_id p) (Some KeyPolicy_encrypt_decrypt) (ph_caller_id p)) W fs d q t) as (r & Hr & _).
  erewrite mbind_eq by (unfold attempt; by rewrite Hr). destruct r as [x|[]]; try (by eexists _, _, _). destruct (text_contains _ _); by eexists _, _, _.
Qed.

(** A first start leaves the key sealed in the cache file. *)
Lemma first_start_seals p W fs d q (t : T) key σ :
  w_io W = [] → fs !! ph_cache p = None → pyhsm_load net p (W, mkHost fs (d, q) t) = (Ok key, σ) →
  length key = 32%nat ∧ ∃ ct, ho_files σ.2 !! ph_cache p = Some (sealed (ph_hmac_key p) (hex_enc ct)) ∧
  ∀ caller, (handle (ReqDecrypt (ph_key_id p) (hex_enc ct) caller) (ho_net σ.2).1).1 = mkHsmResponse true (Some (HvString (hex_enc key))) None.
Proof.
  intros Hio Hnone Hl. unfold pyhsm_load in Hl. apply mbind_Ok_inv in Hl as (e & σ0 & Hg & Hl).
  unfold gets in Hg. cbn in Hg. injection Hg as <- <-. unfold file_at in Hl. cbn [ho_files] in Hl.
  rewrite bool_decide_false in Hl by (rewrite Hnone; by intros []).
  apply mbind_Ok_inv in Hl as ([] & σ1 & Hens & Hl). destruct (ensure_ideal p W fs d q t) as (r & d1 & q1 & He). rewrite He in Hens.
  injection Hens as _ <-. destruct W as [cl rn ios]. apply mbind_Ok_inv in Hl as (n & σ2 & Hrand & Hl). cbn in Hrand. injection Hrand as <- <-.
  apply mbind_Ok_inv in Hl as (ct & σ3 & Henc & Hl). apply ph_encrypt_ideal in Henc as (ct' & -> & Hw3 & d' & q' & Hs3 & Hdec).
  destruct σ3 as [W3 h3]. cbn in Hw3, Hs3. subst W3 h3. erewrite mbind_eq in Hl by (by apply write_cache_quiet).
  unfold mret, M_ret in Hl. injection Hl as <- <-. split; [apply le_bytes_length|]. exists ct'. cbn. rewrite lookup_insert_eq. split; [done|exact Hdec].
Qed.

(** The master key sealed by the local daemon survives restarts: when the
    first start, without a cache file, returned a key, every later start with
    the same configuration returns the same key, whatever other files changed
    and at whatever later state of the daemon that still decrypts the blob. *)
Theorem local_key_survives_restart p W1 W2 fs d q (t : T) key σ fs2 d2 q2 (t2 : T) :
  w_io W1 = [] → w_io W2 = [] → fs !! ph_cache p = None →
  pyhsm_load net p (W1, mkHost fs (d, q) t) = (Ok key, σ) →
  fs2 !! ph_cache p = ho_files σ.2 !! ph_cache p →
  (∀ ct caller, (handle (ReqDecrypt (ph_key_id p) ct caller) d2).1 = (handle (ReqDecrypt (ph_key_id p) ct caller) (ho_net σ.2).1).1) →
  (pyhsm_load net p (W2, mkHost fs2 (d2, q2) t2)).1 = Ok key.
Proof.
  intros Hio1 Hio2 Hnone Hl Hfs Hsame. apply first_start_seals in Hl as (Hlen & ct & Hc & Hdec); [|done..]. rewrite Hc in Hfs.
  unfold pyhsm_load. erewrite mbind_eq by done. unfold file_at at 1. cbn [snd ho_files]. rewrite bool_decide_true by (rewrite Hfs; by eexists).
  erewrite mbind_eq by (apply read_sealed; [apply hex_printable|done|exact Hfs]).
  destruct (ipc_call_ideal (ph_socket_path p) (ReqDecrypt (ph_key_id p) (hex_enc ct) (ph_caller_id p)) W2 fs2 d2 q2 t2) as (r & Hr & Hrr).
  rewrite Hsame, Hdec in Hrr. cbn in Hrr. subst r. unfold ph_decrypt. erewrite mbind_eq by (erewrite mbind_eq by exact Hr; reflexivity).
  unfold liftR. cbn [fst]. by apply bytes_to_key32_hex.
Qed.

(** ** The remote provider *)

Abbreviation send_ideal' := (send_ideal request_parse handle response_line parse_plain parse_stamped response_read).

Lemma on_net_run {A} (m : M (D * bytes) HsmError A) g W fs n (t : T) r W' n' :
  m (W, n) = (r, (W', n')) → on_net m g (W, mkHost fs n t) = (res_map_err g r, (W', mkHost fs n' t)).
Proof. intros Hm. unfold on_net, map_err, zoom. cbn. by rewrite Hm. Qed.

Lemma rp_encrypt_ideal p c raw W fs d q (t : T) ct σ :
  usable c → rp_encrypt net p c raw (W, mkHost fs (d, q) t) = (Ok ct, σ) →
  ∃ ct', ct = b64_enc ct' ∧ ∃ W' d' q', w_io W' = w_io W ∧ σ = (W', mkHost fs (d', q') t) ∧
  ∀ caller, (handle (ReqDecrypt (rp_key_id p) (hex_enc ct') caller) d').1 = mkHsmResponse true (Some (HvString (hex_enc raw))) None.
Proof.
  intros Hu He. unfold rp_encrypt in He. apply mbind_Ok_inv in He as (x & σ1 & Hx & He).
  destruct (send_ideal' c (ReqEncrypt (rp_key_id p) (hex_enc raw) (hc_caller_id c)) W d q Hu (all_serialisable _)) as (W' & Hw & Hs).
  set (r := handle (ReqEncrypt (rp_key_id p) (hex_enc raw) (hc_caller_id c)) d) in *. destruct (hr_ok r.1) eqn:Hok.
  - destruct (decrypts _ _ _ _ Hok) as (ct' & Hdata & Hdec). fold r in Hdata, Hdec.
    assert (Hen : hsm_encrypt net c (rp_key_id p) raw (W, (d, q)) = (Ok ct', (W', pending r.2 r.1))).
    { unfold hsm_encrypt. unfold answer_of in Hs. rewrite Hok in Hs. erewrite mbind_eq by exact Hs. unfold liftR, hex_data. rewrite Hdata. cbn.
      by rewrite hex_roundtrip. }
    erewrite on_net_run in Hx by exact Hen. cbn in Hx. injection Hx as <- <-. unfold mret, M_ret in He. injection He as <- <-.
    exists ct'. split; [done|]. by eexists _, _, _.
  - unfold hsm_encrypt in Hx. assert (Hen : ∃ e, hsm_encrypt net c (rp_key_id p) raw (W, (d, q)) = (Err e, (W', pending r.2 r.1))).
    { unfold answer_of in Hs. rewrite Hok in Hs. eexists. unfold hsm_encrypt. by erewrite mbind_err by exact Hs. }
    destruct Hen as [e Hen]. unfold hsm_encrypt in Hen. erewrite on_net_run in Hx by exact Hen. done.
Qed.

Lemma rp_ensure_ideal p c W fs d q (t : T) : usable c →
  ∃ r W' d' q', w_io W' = w_io W ∧ rp_ensure_wrapping_key net p c (W, mkHost fs (d, q) t) = (r, (W', mkHost fs (d', q') t)).
Proof.
  intros Hu. unfold rp_ensure_wrapping_key.
  destruct (send_ideal' c (ReqGenerateKey (rp_key_id p) (Some KeyPolicy_encrypt_decrypt) (hc_caller_id c)) W d q Hu (all_serialisable _)) as (W' & Hw & Hs).
  set (r := handle _ d) in *. assert (Hg : ∃ x, generate_key net c (rp_key_id p) (Some KeyPolicy_encrypt_decrypt) (W, (d, q)) = (x, (W', pending r.2 r.1))).
  { unfold generate_key, answer_of in *. destruct (hr_ok r.1); eexists; [by erewrite mbind_eq by exact Hs|by erewrite mbind_err by exact Hs]. }
  destruct Hg as [x Hg]. erewrite mbind_eq by (unfold attempt, zoom; cbn; by rewrite Hg). destruct x as [x|[]]; try (by eexists _, _, _, _).
  destruct (text_contains _ _); by eexists _, _, _, _.
Qed.

(** The master key of the remote provider is lost at the first restart: when
    the first start sealed a key, every later start fails, although the cache
    file is intact and the daemon decrypts the blob correctly.  The client
    already decodes the hexadecimal text of the daemon, so the provider takes
    the 32 bytes of the key for text and tries to decode them again. *)
Theorem remote_key_lost_at_restart p W1 W2 fs d q (t : T) key σ fs2 d2 q2 (t2 : T) :
  usable (build_hsm_client env p) → w_io W1 = [] → w_io W2 = [] → fs !! rp_cache p = None →
  remote_load net env p (W1, mkHost fs (d, q) t) = (Ok key, σ) →
  fs2 !! rp_cache p = ho_files σ.2 !! rp_cache p →
  (∀ ct caller, (handle (ReqDecrypt (rp_key_id p) ct caller) d2).1 = (handle (ReqDecrypt (rp_key_id p) ct caller) (ho_net σ.2).1).1) →
  ∃ e, (remote_load net env p (W2, mkHost fs2 (d2, q2) t2)).1 = Err e.
Proof.
  intros Hu Hio1 Hio2 Hnone Hl Hfs Hsame.
  assert (Hseal : length key = 32%nat ∧ ∃ ct, ho_files σ.2 !! rp_cache p = Some (sealed (rp_hmac_key p) (b64_enc ct)) ∧
    ∀ caller, (handle (ReqDecrypt (rp_key_id p) (hex_enc ct) caller) (ho_net σ.2).1).1 = mkHsmResponse true (Some (HvString (hex_enc key))) None).
  { unfold remote_load in Hl. cbv zeta in Hl. apply mbind_Ok_inv in Hl as (e & σ0 & Hg & Hl).
    unfold gets in Hg. cbn in Hg. injection Hg as <- <-. unfold file_at in Hl. cbn [ho_files] in Hl.
    rewrite bool_decide_false in Hl by (rewrite Hnone; by intros []).
    apply mbind_Ok_inv in Hl as ([] & σ1 & Hens & Hl). destruct (rp_ensure_ideal p _ W1 fs d q t Hu) as (r & Wa & d1 & q1 & Hwa & He). rewrite He in Hens.
    injection Hens as _ <-. destruct Wa as [cl rn ios]. cbn in Hwa. apply mbind_Ok_inv in Hl as (n & σ2 & Hrand & Hl). cbn in Hrand. injection Hrand as <- <-.
    apply mbind_Ok_inv in Hl as (ct & σ3 & Henc & Hl). apply rp_encrypt_ideal in Henc as (ct' & -> & Wb & d' & q' & Hwb & -> & Hdec); [|done].
    cbn in Hwb. erewrite mbind_eq in Hl by (apply write_cache_quiet; congruence).
    unfold mret, M_ret in Hl. injection Hl as <- <-. split; [apply le_bytes_length|]. exists ct'. cbn. rewrite lookup_insert_eq. split; [done|exact Hdec]. }
  destruct Hseal as (Hlen & ct & Hc & Hdec). rewrite Hc in Hfs. unfold remote_load. cbv zeta. erewrite mbind_eq by done. unfold file_at at 1.
  cbn [snd ho_files]. rewrite bool_decide_true by (rewrite Hfs; by eexists).
  erewrite mbind_eq by (apply read_sealed; [apply b64_printable|done|exact Hfs]). unfold rp_decrypt.
  rewrite trim_printable by apply b64_printable. rewrite b64_roundtrip.
  destruct (send_ideal' (build_hsm_client env p) (ReqDecrypt (rp_key_id p) (hex_enc ct) (hc_caller_id (build_hsm_client env p))) W2 d2 q2 Hu (all_serialisable _))
    as (W' & _ & Hs).
  assert (Hd : hsm_decrypt net (build_hsm_client env p) (rp_key_id p) ct (W2, (d2, q2)) = (Ok key, (W',
    pending (handle (ReqDecrypt (rp_key_id p) (hex_enc ct) (hc_caller_id (build_hsm_client env p))) d2).2
      (handle (ReqDecrypt (rp_key_id p) (hex_enc ct) (hc_caller_id (build_hsm_client env p))) d2).1))).
  { unfold hsm_decrypt. rewrite Hsame, Hdec in Hs. erewrite mbind_eq by exact Hs. unfold liftR, hex_data. cbn. rewrite hex_roundtrip. cbn.
    by rewrite Hsame, Hdec. }
  erewrite mbind_eq by (erewrite mbind_eq by done; erewrite on_net_run by exact Hd; reflexivity).
  unfold liftR. cbn [fst]. by apply bytes_to_key32_raw.
Qed.
End restart.
