(* ===== verification/Fs.v ===== *)
(** * Paths, symbolic links and the file system

    What the backup code relies on of [std::path] and [std::fs]: paths as
    their components, a file system of directories, files and symbolic links,
    resolution of a path ([canonicalize]) with the limits of the operating
    system (forty links, 4096 bytes), reading, listing, creating and writing.
    The order of a directory listing is a parameter ([FsExt]).  Each call is a
    step that may fail; a failed write leaves a prefix of the data. *)

From stdpp Require Import base gmap list strings option fin_maps.
From Stdlib Require Import ZArith Lia Strings.Ascii Strings.Byte.
From S2P Require Import Prelude Bytes Jsonl.

(** ** Paths *)

Inductive Component := RootDir | CurDir | ParentDir | Normal (name : string).
#[export] Instance Component_eq_dec : EqDecision Component.
Proof. solve_decision. Defined.

Abbreviation Path := (list Component).

(** [str::split('/')] *)
Fixpoint split_slash (s : string) : list string :=
  match s with
  | EmptyString => [EmptyString]
  | String c s =>
      if bool_decide (c = "/"%char) then EmptyString :: split_slash s
      else match split_slash s with [] => [String c EmptyString] | p :: ps => String c p :: ps end
  end.

Fixpoint join_slash (ps : list string) : string :=
  match ps with
  | [] => EmptyString
  | [p] => p
  | p :: ps => p +:+ "/" +:+ join_slash ps
  end.

Definition component (p : string) : option Component :=
  if bool_decide (p = EmptyString ∨ p = "."%string) then None
  else if bool_decide (p = ".."%string) then Some ParentDir
  else Some (Normal p).

(** [Path::components]: empty parts and dots vanish, save a dot in front. *)
Definition components (s : string) : Path :=
  match split_slash s with
  | [] => []
  | [p] => if bool_decide (p = "."%string) then [CurDir] else omap component [p]
  | p :: ps =>
      (if bool_decide (p = EmptyString) then [RootDir]
       else if bool_decide (p = "."%string) then [CurDir] else omap component [p]) ++ omap component ps
  end.

Definition component_text (c : Component) : string :=
  match c with RootDir => EmptyString | CurDir => "." | ParentDir => ".." | Normal n => n end.

(** [Path::display] of a path without redundant separators. *)
Definition path_text (p : Path) : string :=
  match p with
  | [RootDir] => "/"
  | _ => join_slash (map component_text p)
  end.

Definition is_absolute (p : Path) : bool := match p with RootDir :: _ => true | _ => false end.

Definition path_join (p q : Path) : Path :=
  if is_absolute q then q
  else match p with [] => q | _ => p ++ filter (λ c, c ≠ CurDir) q end.

(** [Path::strip_prefix]; [Path::starts_with] holds when it succeeds. *)
Fixpoint strip_path (pre p : Path) : option Path :=
  match pre, p with
  | [], _ => Some p
  | a :: pre, b :: p => if bool_decide (a = b) then strip_path pre p else None
  | _ :: _, [] => None
  end.
Definition path_starts_with (p pre : Path) : bool := bool_decide (is_Some (strip_path pre p)).

(** [Path::parent] and [Path::file_name]. *)
Definition path_parent (p : Path) : option Path :=
  match rev p with [] | RootDir :: _ => None | _ :: r => Some (rev r) end.
Definition path_file_name (p : Path) : option string :=
  match rev p with Normal n :: _ => Some n | _ => None end.

(** ** The file system *)

Inductive Node := NFile (data : bytes) | NDir | NLink (target : string).

(** Every node but the root, by its place. *)
Abbreviation Place := (list string).
Abbreviation Fs := (@gmap (list string) (@list_eq_dec string String.eq_dec) (@list_countable string String.eq_dec String.countable) Node).

Definition node_at (fs : Fs) (p : Place) : option Node :=
  match p with [] => Some NDir | _ => fs !! p end.
Definition place_path (p : Place) : Path := RootDir :: map Normal p.

Definition MAX_LINKS : nat := 40.
Definition PATH_MAX : nat := Z.to_nat 4096.

(** Following a path from a directory.  [create]: the last component may be
    missing ([O_CREAT]). *)
Fixpoint resolve (fs : Fs) (create : bool) (links : nat) : Place → Path → option Place :=
  fix go (at_ : Place) (p : Path) : option Place :=
    match p with
    | [] => Some at_
    | RootDir :: p => go [] p
    | CurDir :: p => go at_ p
    | ParentDir :: p => go (removelast at_) p
    | Normal c :: p =>
        match fs !! (at_ ++ [c]) with
        | None => if create && bool_decide (p = []) then Some (at_ ++ [c]) else None
        | Some NDir => go (at_ ++ [c]) p
        | Some (NFile _) => if bool_decide (p = []) then Some (at_ ++ [c]) else None
        | Some (NLink t) =>
            match links with
            | O => None
            | S k => resolve fs create k at_ (components t ++ p)
            end
        end
    end.

(** The length of the text of a path with its final NUL. *)
Definition path_len (p : Path) : nat := sum_list_with (λ c, S (String.length (component_text c))) p.

Definition lookup_path (cwd : Place) (fs : Fs) (create : bool) (p : Path) : option Place :=
  if bool_decide (p ≠ []) && (path_len p <=? PATH_MAX)%nat then resolve fs create MAX_LINKS cwd p
  else None.

Definition canonicalize (cwd : Place) (fs : Fs) (p : Path) : option Place := lookup_path cwd fs false p.
Definition path_exists (cwd : Place) (fs : Fs) (p : Path) : bool := bool_decide (is_Some (canonicalize cwd fs p)).
Definition node_of (cwd : Place) (fs : Fs) (p : Path) : option Node :=
  q ← canonicalize cwd fs p; node_at fs q.
Definition is_dir (cwd : Place) (fs : Fs) (p : Path) : bool :=
  match node_of cwd fs p with Some NDir => true | _ => false end.
Definition file_data (cwd : Place) (fs : Fs) (p : Path) : option bytes :=
  match node_of cwd fs p with Some (NFile d) => Some d | _ => None end.

Class FsExt := {
  read_dir_names : Fs → Place → list string;
  read_dir_nodup : ∀ fs d, NoDup (read_dir_names fs d);
  read_dir_spec : ∀ fs d c, c ∈ read_dir_names fs d ↔ is_Some (fs !! (d ++ [c]))
}.

(** ** Calls *)

Section calls.
Context `{FsExt} (cwd : Place) {E : Type}.

Definition fs_canonicalize (p : Path) (e : E) : M Fs E Place :=
  _ ← io e; q ← gets (λ fs, canonicalize cwd fs p); liftR (ok_or q e).

(** [Path::exists]: an error counts as absent. *)
Definition fs_exists (p : Path) (e : E) : M Fs E bool :=
  r ← attempt (E:=E) (fs_canonicalize p e); mret (is_ok r).

Definition fs_read (p : Path) (e : E) : M Fs E bytes :=
  _ ← io e; d ← gets (λ fs, file_data cwd fs p); liftR (ok_or d e).

(** The names in a directory. *)
Definition fs_read_dir (p : Path) (e : E) : M Fs E (list string) :=
  _ ← io e;
  d ← gets (λ fs, canonicalize cwd fs p);
  match d with
  | None => throw e
  | Some d =>
      n ← gets (λ fs, node_at fs d);
      match n with Some NDir => gets (λ fs, read_dir_names fs d) | _ => throw e end
  end.

Definition mkdir (p : Path) (fs : Fs) : option Fs :=
  d ← path_parent p; c ← path_file_name p;
  d ← canonicalize cwd fs d;
  match node_at fs d, fs !! (d ++ [c]) with
  | Some NDir, None => Some (<[d ++ [c] := NDir]> fs)
  | _, _ => None
  end.

(** The missing directories of a path, the outermost first. *)
Definition ensure_dir (e : E) (p : Path) : M Fs E unit :=
  _ ← io e;
  fs ← gets id;
  if is_dir cwd fs p then mret tt
  else match mkdir p fs with Some fs' => modify (λ _, fs') | None => throw e end.
Definition fs_create_dir_all (p : Path) (e : E) : M Fs E unit :=
  forM (ensure_dir e) (map (λ n, take n p) (seq 1 (length p))).

(** The place a file is created or truncated at. *)
Definition open_create (p : Path) (fs : Fs) : option Place :=
  q ← lookup_path cwd fs true p;
  match node_at fs q with Some NDir | Some (NLink _) => None | _ => Some q end.

Definition fs_create (p : Path) (e : E) : M Fs E Place :=
  _ ← io e;
  q ← gets (open_create p);
  match q with
  | None => throw e
  | Some q => _ ← modify (λ fs : Fs, <[q := NFile []]> fs); mret q
  end.

Definition append_at (q : Place) (data : bytes) (fs : Fs) : Fs :=
  match fs !! q with Some (NFile d) => <[q := NFile (d ++ data)]> fs | _ => fs end.
Definition fs_append (q : Place) (data : bytes) (e : E) : M Fs E unit :=
  r ← attempt (E:=E) (io e);
  match r with
  | Ok _ => modify (append_at q data)
  | Err e => n ← rand; _ ← modify (append_at q (take (Z.to_nat n) data)); throw e
  end.

(** [std::fs::write] *)
Definition fs_write (p : Path) (data : bytes) (e : E) : M Fs E unit :=
  q ← fs_create p e; fs_append q data e.
End calls.

(** ** Facts about paths *)

Definition plain_name (p : string) : Prop := component p = Some (Normal p) ∧ split_slash p = [p].

Lemma split_slash_cons p s : split_slash p = [p] → split_slash (p +:+ "/" +:+ s) = p :: split_slash s.
Proof.
  induction p as [|c p IH]; [done|]. intros Hs.
  change (String c p +:+ "/" +:+ s) with (String c (p +:+ "/" +:+ s)). cbn [split_slash] in *.
  case_bool_decide; [by destruct (split_slash p)|].
  destruct (split_slash p) as [|x l] eqn:Hp; [by destruct p; cbn in Hp; repeat case_match|].
  simplify_eq. by rewrite (IH eq_refl).
Qed.

Lemma split_slash_join ps : ps ≠ [] → Forall (λ p, split_slash p = [p]) ps → split_slash (join_slash ps) = ps.
Proof.
  intros Hne Hps. induction Hps as [|p ps Hp Hps IH]; [done|]. destruct ps as [|p' ps]; [done|].
  change (join_slash _) with (p +:+ "/" +:+ join_slash (p' :: ps)). rewrite split_slash_cons by done. by rewrite IH.
Qed.

Lemma plain_components ps : Forall plain_name ps → omap component ps = map Normal ps.
Proof. induction 1 as [|p ps [Hp _] _ IH]; [done|]. cbn. by rewrite Hp, IH. Qed.

Lemma plain_name_nondot p : plain_name p → p ≠ EmptyString ∧ p ≠ "."%string ∧ p ≠ ".."%string.
Proof. intros [Hp _]. unfold component in Hp. repeat case_bool_decide; naive_solver. Qed.

Lemma components_join ps : Forall plain_name ps → components (join_slash ps) = map Normal ps.
Proof.
  intros Hps. destruct ps as [|p ps]; [done|]. unfold components.
  assert (Hs : Forall (λ p, split_slash p = [p]) (p :: ps)) by (eapply Forall_impl; [exact Hps|by intros ? []]).
  rewrite split_slash_join by done.
  apply Forall_cons in Hps as [Hp Hps]. pose proof (plain_name_nondot p Hp) as (?&?&?).
  destruct Hp as [Hp _]. destruct ps as [|p' ps].
  - rewrite bool_decide_false by done. cbn. by rewrite Hp.
  - rewrite !bool_decide_false by done. rewrite (plain_components (p' :: ps)) by done. cbn [omap list_omap]. by rewrite Hp.
Qed.

Lemma strip_path_spec pre p r : strip_path pre p = Some r ↔ p = pre ++ r.
Proof.
  revert p; induction pre as [|a pre IH]; intros [|b p]; cbn; try (split; congruence).
  case_bool_decide as Hab; [subst|]; [rewrite IH|]; split; congruence.
Qed.

Lemma path_starts_with_spec p pre : path_starts_with p pre = true ↔ pre `prefix_of` p.
Proof.
  unfold path_starts_with. rewrite bool_decide_eq_true. split.
  - intros [r Hr]. exists r. by apply strip_path_spec.
  - intros [r ->]. exists r. by apply strip_path_spec.
Qed.

Lemma map_Normal_prefix (a b : Place) : map Normal a `prefix_of` map Normal b ↔ a `prefix_of` b.
Proof.
  split; [|intros [r ->]; exists (map Normal r); by rewrite map_app].
  revert b; induction a as [|x a IH]; intros b Hp; [apply prefix_nil|].
  destruct b as [|y b]; [by apply prefix_nil_not in Hp|]. cbn in Hp.
  pose proof (prefix_cons_inv_1 _ _ _ _ Hp) as [= <-]. apply prefix_cons, IH. by eapply prefix_cons_inv_2.
Qed.

Lemma place_path_inside p root :
  path_starts_with (place_path p) (place_path root) = true ↔ root `prefix_of` p.
Proof.
  rewrite path_starts_with_spec. unfold place_path. rewrite <- map_Normal_prefix. split.
  - apply prefix_cons_inv_2.
  - apply prefix_cons.
Qed.

Lemma path_len_app p q : path_len (p ++ q) = (path_len p + path_len q)%nat.
Proof. unfold path_len. induction p as [|c p IH]; [done|]. cbn in *. lia. Qed.

Lemma path_join_normals dir ns : dir ≠ [] → path_join dir (map Normal ns) = dir ++ map Normal ns.
Proof.
  intros Hd. unfold path_join. destruct ns as [|n ns]; cbn [map is_absolute].
  - destruct dir; [done|]. by rewrite filter_nil.
  - destruct dir as [|c dir]; [done|]. rewrite filter_all; [done|]. rewrite Forall_forall. intros x Hx.
    change (Normal n :: map Normal ns) with (map Normal (n :: ns)) in Hx.
    apply list_elem_of_fmap in Hx as (y & -> & _). done.
Qed.

Lemma path_join_normal dir n : dir ≠ [] → path_join dir [Normal n] = dir ++ [Normal n].
Proof. apply (path_join_normals dir [n]). Qed.

(** ** Facts about resolution *)

Lemma resolve_eq fs create links at_ p :
  resolve fs create links at_ p =
  match p with
  | [] => Some at_
  | RootDir :: p => resolve fs create links [] p
  | CurDir :: p => resolve fs create links at_ p
  | ParentDir :: p => resolve fs create links (removelast at_) p
  | Normal c :: p =>
      match fs !! (at_ ++ [c]) with
      | None => if create && bool_decide (p = []) then Some (at_ ++ [c]) else None
      | Some NDir => resolve fs create links (at_ ++ [c]) p
      | Some (NFile _) => if bool_decide (p = []) then Some (at_ ++ [c]) else None
      | Some (NLink t) =>
          match links with O => None | S k => resolve fs create k at_ (components t ++ p) end
      end
  end.
Proof. by destruct links, p as [|[]]. Qed.

(** A directory all of whose parents are directories; a file or directory in
    such a one. *)
Definition dir_place (fs : Fs) (p : Place) : Prop := ∀ q, q `prefix_of` p → node_at fs q = Some NDir.
Definition real_place (fs : Fs) (p : Place) : Prop :=
  dir_place fs p ∨ ∃ d c bs, p = d ++ [c] ∧ dir_place fs d ∧ fs !! p = Some (NFile bs).

Lemma prefix_snoc_inv {A} (q d : list A) (c : A) : q `prefix_of` d ++ [c] → q = d ++ [c] ∨ q `prefix_of` d.
Proof.
  intros [r Hr]. destruct r as [|x r _] using rev_ind; [left; by rewrite app_nil_r in Hr|].
  rewrite app_assoc in Hr. apply app_inj_tail in Hr as [-> _]. right. by exists r.
Qed.

Lemma dir_place_nil fs : dir_place fs [].
Proof. intros q Hq. by apply prefix_nil_inv in Hq as ->. Qed.

Lemma dir_place_snoc fs d c : dir_place fs (d ++ [c]) ↔ dir_place fs d ∧ fs !! (d ++ [c]) = Some NDir.
Proof.
  split.
  - intros Hd. split.
    + intros q Hq. apply Hd. by apply prefix_app_r.
    + specialize (Hd (d ++ [c])). destruct (d ++ [c]) eqn:He; [by destruct d|]. by apply Hd.
  - intros [Hd Hc] q [->|Hq]%prefix_snoc_inv; [|by apply Hd].
    unfold node_at. destruct (d ++ [c]) eqn:He; [by destruct d|done].
Qed.

Lemma dir_place_removelast fs d : dir_place fs d → dir_place fs (removelast d).
Proof.
  destruct d as [|c d _] using rev_ind; [done|]. rewrite removelast_last. by intros [? _]%dir_place_snoc.
Qed.

#[export] Hint Resolve dir_place_nil dir_place_removelast : core.

(** What a path resolves to is in the file system. *)
Lemma resolve_real fs links at_ p q :
  dir_place fs at_ → resolve fs false links at_ p = Some q → real_place fs q.
Proof.
  revert at_ p. induction links as [|k IHk]; intros at_ p; revert at_;
    (induction p as [|x p IHp]; intros at_ Hat; rewrite resolve_eq; [intros [= <-]; by left|]);
    (destruct x as [| | |c]; [apply IHp; eauto..|]);
    destruct (fs !! (at_ ++ [c])) as [[bs| |t]|] eqn:Hc; try done.
  1,3: case_bool_decide; [|done]; intros [= <-]; right; by exists at_, c, bs.
  1,2: apply IHp; by apply dir_place_snoc.
  by apply IHk.
Qed.

Lemma resolve_names fs create links at_ ns p :
  dir_place fs (at_ ++ ns) → resolve fs create links at_ (map Normal ns ++ p) = resolve fs create links (at_ ++ ns) p.
Proof.
  revert at_. induction ns as [|n ns IH]; intros at_ Hd; [by rewrite app_nil_r|].
  rewrite cons_middle, app_assoc in Hd. rewrite resolve_eq. cbn [map app].
  assert (Hn : dir_place fs (at_ ++ [n])) by (intros q Hq; by apply Hd, prefix_app_r).
  apply dir_place_snoc in Hn as [_ ->]. rewrite IH by done. by rewrite <- app_assoc.
Qed.

Lemma resolve_root fs create links at_ ns p :
  dir_place fs ns → resolve fs create links at_ (RootDir :: map Normal ns ++ p) = resolve fs create links ns p.
Proof. intros Hd. rewrite resolve_eq. by rewrite resolve_names. Qed.

Lemma resolve_place fs create links at_ q : real_place fs q → resolve fs create links at_ (place_path q) = Some q.
Proof.
  intros [Hq|(d & c & bs & -> & Hd & Hc)]; unfold place_path.
  - rewrite <- (app_nil_r (map Normal q)), resolve_root by done. by rewrite resolve_eq.
  - rewrite map_app, resolve_root by done. rewrite resolve_eq. cbn [map]. rewrite Hc. by rewrite bool_decide_true.
Qed.

Lemma resolve_new fs links at_ d c :
  dir_place fs d → fs !! (d ++ [c]) = None → resolve fs true links at_ (place_path (d ++ [c])) = Some (d ++ [c]).
Proof.
  intros Hd Hc. unfold place_path. rewrite map_app, resolve_root by done. rewrite resolve_eq. cbn [map].
  rewrite Hc. by rewrite bool_decide_true.
Qed.

Lemma resolve_absent fs links at_ d c p :
  dir_place fs d → fs !! (d ++ [c]) = None → resolve fs false links at_ (place_path (d ++ [c]) ++ p) = None.
Proof.
  intros Hd Hc. unfold place_path. rewrite map_app. cbn [app]. rewrite <- app_assoc, resolve_root by done.
  rewrite resolve_eq. cbn [map app]. by rewrite Hc.
Qed.

Definition short (p : Place) : Prop := (path_len (place_path p) ≤ PATH_MAX)%nat.

Lemma lookup_path_short cwd fs create p : p ≠ [] → (path_len p ≤ PATH_MAX)%nat →
  lookup_path cwd fs create p = resolve fs create MAX_LINKS cwd p.
Proof.
  intros Hp Hl. unfold lookup_path. rewrite bool_decide_true by done.
  destruct (Nat.leb_spec (path_len p) PATH_MAX); [done|lia].
Qed.

Lemma canonicalize_inv cwd fs p q :
  canonicalize cwd fs p = Some q → p ≠ [] ∧ (path_len p ≤ PATH_MAX)%nat ∧ resolve fs false MAX_LINKS cwd p = Some q.
Proof.
  unfold canonicalize, lookup_path. case_bool_decide; [|done].
  destruct (Nat.leb_spec (path_len p) PATH_MAX); [|done]. done.
Qed.

Lemma canonicalize_place cwd fs q : real_place fs q → short q → canonicalize cwd fs (place_path q) = Some q.
Proof. intros Hr Hs. unfold canonicalize. rewrite lookup_path_short by done. by apply resolve_place. Qed.

Lemma node_of_place cwd fs q : real_place fs q → short q → node_of cwd fs (place_path q) = node_at fs q.
Proof. intros Hr Hs. unfold node_of. by rewrite canonicalize_place. Qed.

Lemma real_place_node fs q : real_place fs q → node_at fs q = Some NDir ∧ dir_place fs q ∨ ∃ bs, fs !! q = Some (NFile bs).
Proof.
  intros [Hd|(d & c & bs & -> & _ & Hc)]; [left|right; by eauto]. split; [by apply Hd|done].
Qed.

(** ** Calls that end well *)

Section call_facts.
Context `{FsExt} (cwd : Place) {E : Type} (e : E).

Lemma reaches_canonicalize (fs : Fs) (p : Place) (Q : Place → Fs → Prop) :
  real_place fs p → short p → Q p fs → reaches (fs_canonicalize cwd (place_path p) e) fs Q.
Proof.
  intros Hr Hs HQ. unfold fs_canonicalize. apply reaches_bind, reaches_io, reaches_bind, reaches_gets.
  rewrite canonicalize_place by done. by eapply reaches_liftR.
Qed.

(** [fs_exists] decides whether the path resolves. *)
Lemma reaches_exists (fs : Fs) (p : Path) (Q : bool → Fs → Prop) : Q (path_exists cwd fs p) fs → reaches (fs_exists cwd p e) fs Q.
Proof.
  intros HQ W HW. unfold fs_exists, fs_canonicalize, mbind, M_bind, attempt.
  rewrite io_quiet by done. unfold gets, liftR, mret, M_ret. cbn.
  unfold path_exists in HQ. exists (bool_decide (is_Some (canonicalize cwd fs p))), W, fs.
  by destruct (canonicalize cwd fs p).
Qed.

Lemma path_exists_place (fs : Fs) (p : Place) : real_place fs p → short p → path_exists cwd fs (place_path p) = true.
Proof. intros Hr Hs. unfold path_exists. rewrite canonicalize_place by done. by apply bool_decide_true. Qed.

Lemma path_exists_absent (fs : Fs) (d : Place) (c : string) : dir_place fs d → fs !! (d ++ [c]) = None → path_exists cwd fs (place_path (d ++ [c])) = false.
Proof.
  intros Hd Hc. unfold path_exists. apply bool_decide_false. intros [q (_ & _ & Hq)%canonicalize_inv].
  pose proof (resolve_absent fs MAX_LINKS cwd d c [] Hd Hc) as Ha. rewrite app_nil_r in Ha. congruence.
Qed.

Lemma file_real (fs : Fs) (d : Place) (c : string) (bs : bytes) : dir_place fs d → fs !! (d ++ [c]) = Some (NFile bs) → real_place fs (d ++ [c]).
Proof. intros Hd Hc. right. by exists d, c, bs. Qed.

Lemma file_data_place (fs : Fs) (d : Place) (c : string) (bs : bytes) :
  dir_place fs d → fs !! (d ++ [c]) = Some (NFile bs) → short (d ++ [c]) →
  file_data cwd fs (place_path (d ++ [c])) = Some bs.
Proof.
  intros Hd Hc Hs. unfold file_data. rewrite node_of_place by (done || by eapply file_real).
  unfold node_at. destruct (d ++ [c]) eqn:He; [by destruct d|]. by rewrite Hc.
Qed.

Lemma reaches_read (fs : Fs) (d : Place) (c : string) (bs : bytes) (Q : bytes → Fs → Prop) :
  dir_place fs d → fs !! (d ++ [c]) = Some (NFile bs) → short (d ++ [c]) → Q bs fs →
  reaches (fs_read cwd (place_path (d ++ [c])) e) fs Q.
Proof.
  intros Hd Hc Hs HQ. unfold fs_read. apply reaches_bind, reaches_io, reaches_bind, reaches_gets.
  erewrite file_data_place by done. by eapply reaches_liftR.
Qed.

Lemma reaches_read_dir (fs : Fs) (d : Place) (Q : list string → Fs → Prop) :
  dir_place fs d → short d → Q (read_dir_names fs d) fs → reaches (fs_read_dir cwd (place_path d) e) fs Q.
Proof.
  intros Hd Hs HQ. unfold fs_read_dir. apply reaches_bind, reaches_io, reaches_bind, reaches_gets.
  rewrite canonicalize_place by (done || by left). apply reaches_bind, reaches_gets.
  rewrite (Hd d) by done. by apply reaches_gets.
Qed.

Lemma reaches_append (fs : Fs) (q : Place) (old data : bytes) (Q : unit → Fs → Prop) :
  fs !! q = Some (NFile old) → Q tt (<[q := NFile (old ++ data)]> fs) → reaches (fs_append q data e) fs Q.
Proof.
  intros Hq HQ. unfold fs_append. apply reaches_bind, reaches_attempt, reaches_io, reaches_modify.
  unfold append_at. by rewrite Hq.
Qed.

(** A place where a file can be written: in a directory, absent or a file. *)
Definition writable (fs : Fs) (d : Place) (c : string) : Prop :=
  dir_place fs d ∧ short (d ++ [c]) ∧ (fs !! (d ++ [c]) = None ∨ ∃ bs, fs !! (d ++ [c]) = Some (NFile bs)).

Lemma open_create_writable (fs : Fs) (d : Place) (c : string) : writable fs d c → open_create cwd (place_path (d ++ [c])) fs = Some (d ++ [c]).
Proof.
  intros (Hd & Hs & Hc). unfold open_create. rewrite lookup_path_short by done.
  assert (Hn : node_at fs (d ++ [c]) = fs !! (d ++ [c])) by (unfold node_at; destruct (d ++ [c]) eqn:He; [by destruct d|done]).
  destruct Hc as [Hc|[bs Hc]].
  - rewrite resolve_new by done. cbn. by rewrite Hn, Hc.
  - rewrite resolve_place by (by eapply file_real). cbn. by rewrite Hn, Hc.
Qed.

Lemma reaches_create (fs : Fs) (d : Place) (c : string) (Q : Place → Fs → Prop) :
  writable fs d c → Q (d ++ [c]) (<[d ++ [c] := NFile []]> fs) → reaches (fs_create cwd (place_path (d ++ [c])) e) fs Q.
Proof.
  intros Hw HQ. unfold fs_create. apply reaches_bind, reaches_io, reaches_bind, reaches_gets.
  rewrite open_create_writable by done. apply reaches_bind, reaches_modify. by apply reaches_ret.
Qed.

Lemma reaches_write (fs : Fs) (d : Place) (c : string) (data : bytes) (Q : unit → Fs → Prop) :
  writable fs d c → Q tt (<[d ++ [c] := NFile data]> fs) → reaches (fs_write cwd (place_path (d ++ [c])) data e) fs Q.
Proof.
  intros Hw HQ. unfold fs_write. apply reaches_bind, reaches_create; [done|].
  eapply reaches_append; [apply lookup_insert_eq|]. by rewrite insert_insert_eq.
Qed.

(** Directories are added along the path, nothing else changes. *)
Definition add_dirs (p : Place) (fs fs' : Fs) : Prop :=
  ∀ x, fs' !! x = if decide (x ≠ [] ∧ x `prefix_of` p) then Some NDir else fs !! x.

Lemma add_dirs_snoc (p : Place) (c : string) (fs fs' : Fs) : add_dirs p fs fs' → add_dirs (p ++ [c]) fs (<[p ++ [c] := NDir]> fs').
Proof.
  intros Ha x. destruct (decide (x = p ++ [c])) as [->|Hx].
  - rewrite lookup_insert_eq, decide_True; [done|]. split; [by destruct p|done].
  - rewrite lookup_insert_ne by done. rewrite Ha. apply decide_ext. split; intros [? Hp]; split; try done.
    + by apply prefix_app_r.
    + by apply prefix_snoc_inv in Hp as [?|?].
Qed.

Lemma add_dirs_dir (p : Place) (fs fs' : Fs) : add_dirs p fs fs' → dir_place fs' p.
Proof.
  intros Ha q Hq. unfold node_at. destruct q as [|x q]; [done|]. rewrite Ha. by rewrite decide_True.
Qed.

Lemma add_dirs_same (p : Place) (c : string) (fs fs' : Fs) : add_dirs p fs fs' → fs !! (p ++ [c]) = Some NDir → add_dirs (p ++ [c]) fs fs'.
Proof.
  intros Ha Hc x. rewrite Ha. destruct (decide (x = p ++ [c])) as [->|Hx].
  - rewrite (decide_True (P := _ ∧ p ++ [c] `prefix_of` p ++ [c])) by (split; [by destruct p|done]).
    rewrite decide_False; [done|]. intros [_ Hp]. by apply prefix_snoc_not in Hp.
  - apply decide_ext. split; intros [? Hp]; split; try done; [by apply prefix_app_r|by apply prefix_snoc_inv in Hp as [?|?]].
Qed.

Lemma path_parent_snoc (d : Place) (c : string) : path_parent (place_path (d ++ [c])) = Some (place_path d).
Proof.
  unfold path_parent, place_path. rewrite map_app, app_comm_cons, rev_app_distr. cbn [map rev app].
  by rewrite rev_app_distr, rev_involutive.
Qed.

Lemma path_file_name_snoc (d : Place) (c : string) : path_file_name (place_path (d ++ [c])) = Some c.
Proof. unfold path_file_name, place_path. by rewrite map_app, app_comm_cons, rev_app_distr. Qed.

Lemma short_snoc (d : Place) (c : string) : short (d ++ [c]) → short d.
Proof. unfold short, place_path. rewrite map_app, app_comm_cons, path_len_app. lia. Qed.

Lemma reaches_ensure_dir (fs fs' : Fs) (p : Place) (c : string) :
  add_dirs p fs fs' → short (p ++ [c]) → fs !! (p ++ [c]) = Some NDir ∨ fs !! (p ++ [c]) = None →
  reaches (ensure_dir cwd e (place_path (p ++ [c]))) fs' (λ _, add_dirs (p ++ [c]) fs).
Proof.
  intros Ha Hs Hc. pose proof (add_dirs_dir _ _ _ Ha) as Hd. pose proof (short_snoc _ _ Hs) as Hsp.
  assert (Hsame : fs' !! (p ++ [c]) = fs !! (p ++ [c])).
  { rewrite Ha. rewrite decide_False; [done|]. intros [_ Hp]. by apply prefix_snoc_not in Hp. }
  unfold ensure_dir. apply reaches_bind, reaches_io, reaches_bind, reaches_gets. cbn [id].
  destruct Hc as [Hc|Hc]; rewrite Hc in Hsame.
  - assert (Hr : dir_place fs' (p ++ [c])) by (by apply dir_place_snoc).
    unfold is_dir. rewrite node_of_place by (done || by left). rewrite (Hr (p ++ [c])) by done.
    apply reaches_ret. by apply add_dirs_same.
  - replace (is_dir cwd fs' (place_path (p ++ [c]))) with false; cycle 1.
    { symmetry. unfold is_dir, node_of. pose proof (path_exists_absent fs' p c Hd Hsame) as Hex.
      unfold path_exists in Hex. apply bool_decide_eq_false in Hex.
      destruct (canonicalize cwd fs' (place_path (p ++ [c]))); [destruct Hex; eauto|done]. }
    unfold mkdir. rewrite path_parent_snoc, path_file_name_snoc. cbn [mbind option_bind].
    rewrite canonicalize_place by (done || by left). cbn [mbind option_bind]. rewrite (Hd p) by done.
    rewrite Hsame. apply reaches_modify. by apply add_dirs_snoc.
Qed.

Lemma create_dirs_snoc (p : Place) (c : string) :
  map (λ n, take n (place_path (p ++ [c]))) (seq 1 (length (place_path (p ++ [c])))) =
  map (λ n, take n (place_path p)) (seq 1 (length (place_path p))) ++ [place_path (p ++ [c])].
Proof.
  assert (He : place_path (p ++ [c]) = place_path p ++ [Normal c]) by (unfold place_path; by rewrite map_app).
  rewrite He, length_app. cbn [length]. rewrite Nat.add_1_r, seq_S, map_app. f_equal.
  - apply map_ext_in. intros n Hn%in_seq. by rewrite take_app_le by lia.
  - cbn [map]. f_equal. rewrite take_ge; [done|]. rewrite length_app. cbn. lia.
Qed.

Lemma reaches_create_dir_all (fs : Fs) (p : Place) (Q : unit → Fs → Prop) :
  short p → (∀ x, x ≠ [] → x `prefix_of` p → fs !! x = Some NDir ∨ fs !! x = None) →
  (∀ fs', add_dirs p fs fs' → Q tt fs') →
  reaches (fs_create_dir_all cwd (place_path p) e) fs Q.
Proof.
  intros Hs Hp HQ. apply (reaches_mono _ _ (λ _, add_dirs p fs)); [|intros []; by apply HQ]. clear Q HQ.
  induction p as [|c p IH] using rev_ind; unfold fs_create_dir_all in *.
  - cbn [place_path map length seq take forM]. apply reaches_bind. unfold ensure_dir.
    apply reaches_bind, reaches_io, reaches_bind, reaches_gets. cbn [id].
    unfold is_dir. change [RootDir] with (place_path []).
    rewrite node_of_place; [|left; apply dir_place_nil|done]. cbn. apply reaches_ret, reaches_ret.
    intros x. rewrite decide_False; [done|]. by intros [? ->%prefix_nil_inv].
  - rewrite create_dirs_snoc. intros W HW. rewrite forM_app. revert W HW.
    change (reaches (forM (ensure_dir cwd e) (map (λ n, take n (place_path p)) (seq 1 (length (place_path p)))) ≫=
      λ _, forM (ensure_dir cwd e) [place_path (p ++ [c])]) fs (λ _, add_dirs (p ++ [c]) fs)).
    apply reaches_bind. eapply reaches_mono; [apply IH|].
    + by eapply short_snoc.
    + intros x Hx Hxp. apply Hp; [done|]. by apply prefix_app_r.
    + intros [] fs' Ha. cbn [forM]. apply reaches_bind.
      eapply reaches_mono; [apply (reaches_ensure_dir fs fs' p c Ha Hs)|intros [] ??; by apply reaches_ret].
      apply Hp; [by destruct p|done].
Qed.
End call_facts.
