(* ===== verification/Backup.v ===== *)
(** * Backup, restore and verification of archives

    [backup.rs]: an archive is a tar file of the files under [wal], [pages],
    [catalog] and [audit] and of the public key, each encrypted with its
    relative path as associated data, then a plaintext manifest of the BLAKE3
    hashes; the archive's key is wrapped under the master key in a sidecar.
    The state is the file system ([Fs]); [tar], [serde_json] and chrono are
    parameters ([BackupExt]).  A recursion over directories is given fuel;
    [BkNoFuel] stands for missing fuel. *)

From stdpp Require Import base gmap list strings option fin_maps pretty sorting.
From Stdlib Require Import ZArith Lia Strings.Ascii Strings.Byte.
From S2P Require Import Prelude Bytes Jsonl Crypto WalRecord Page AuditTrail Fs.

Inductive RestoreFailure := FileMissing (path : string) | FileMismatch (path : string).

Inductive BackupError :=
  | BkIo
  | BkKdf
  | BkEncrypt
  | BkSerialise
  | BkArchive
  | BkPlaintextDisabled
  | BkTargetExists
  | BkNoManifest
  | BkManifestParse
  | BkManifestHash
  | BkNoMasterKey
  | BkSidecar
  | BkWrappedKey
  | BkDecrypt (name : string)
  | BkVerify (failures : list RestoreFailure)
  | BkPanic
  | BkNoFuel.

(** ** The manifest *)

Record BackupManifest := mkManifest {
  vledger_version : string;
  created_at_unix : Z;
  created_at_rfc : string;
  bm_files : gmap string bytes;      (* path, hexadecimal hash of the plaintext *)
  manifest_hash : bytes;
  bm_encrypted : bool
}.

Record BackupKeySidecar := mkSidecar { wrapped_key_hex : bytes; kdf_context : string }.

Class BackupExt := {
  manifest_to_json : BackupManifest → option bytes;
  manifest_from_json : bytes → option BackupManifest;
  manifest_json_ok : ∀ m j, manifest_to_json m = Some j → manifest_from_json j = Some m ∧ utf8_valid j = true;
  sidecar_to_json : BackupKeySidecar → option bytes;
  sidecar_from_json : bytes → option BackupKeySidecar;
  sidecar_json_ok : ∀ s j, sidecar_to_json s = Some j → sidecar_from_json j = Some s ∧ utf8_valid j = true;
  rfc3339_now : Z → string;
  package_version : string;                           (* CARGO_PKG_VERSION *)
  (* tar: the name an entry is stored under, the header with the padded data,
     the end of the archive, and the entries read back ([None]: an error) *)
  tar_name : string → option string;
  tar_entry : string → bytes → bytes;
  tar_trailer : bytes;
  tar_parse : bytes → list (option (string * bytes));
  tar_plain : ∀ ps, ps ≠ [] → Forall (λ p, component p = Some (Normal p) ∧ split_slash p = [p]) ps →
    tar_name (join_slash ps) = Some (join_slash ps);
  tar_read : ∀ es : list (string * bytes), Forall (λ e, is_Some (tar_name e.1)) es →
    tar_parse (concat (map (λ e, tar_entry e.1 e.2) es) ++ tar_trailer) =
    map (λ e, Some (default e.1 (tar_name e.1), e.2)) es
}.

(** The entries of a [BTreeMap], in the order of their keys. *)
Definition sorted_files (fs : gmap string bytes) : list (string * bytes) :=
  omap (λ k, (λ v, (k, v)) <$> fs !! k) (merge_sort String.le (elements (dom fs))).

Section backup.
Context `{Blake3} `{Hex} `{WalExt} `{FsExt} `{BackupExt} (cwd : Place).

Abbreviation FM := (M Fs BackupError).

Definition file_digest (bs : bytes) : bytes := hex_enc (blake3 bs).

Definition manifest_input (files : gmap string bytes) : bytes :=
  concat (map (λ e, str_bytes e.1 ++ e.2) (sorted_files files)).
Definition compute_manifest_hash (files : gmap string bytes) : bytes := hex_enc (blake3 (manifest_input files)).
Definition manifest_verify (m : BackupManifest) : bool :=
  bool_decide (compute_manifest_hash (bm_files m) = manifest_hash m).

(** ** The key of an archive *)

Definition backup_context (ts_unix : Z) : string := "vgdb/backup/" +:+ pretty (Z.to_N ts_unix).
Definition WRAP_CONTEXT : string := "vgdb/backup-key-wrap".

Definition derive_backup_key (master : bytes) (ts_unix : Z) : Result BackupError bytes :=
  ok_or (hkdf_expand master (str_bytes (backup_context ts_unix))) BkKdf.

(** A fresh nonce of twelve bytes. *)
Definition bk_encrypt (key plaintext aad : bytes) : FM bytes :=
  r ← rand; liftR (ok_or (encrypt key (le_bytes 12 r) plaintext aad) BkEncrypt).

Definition sidecar_path (archive_path : Path) : Path :=
  match path_file_name archive_path with
  | Some name => path_join (default [] (path_parent archive_path)) [Normal (name +:+ ".key")]
  | None => path_join archive_path [Normal ".key"%string]
  end.

Definition set_mode_600 : FM unit := _ ← attempt (E:=BackupError) (io (E:=BackupError) BkIo); mret tt.

Definition write_key_sidecar (archive_path : Path) (backup_key master : bytes) (ts_unix : Z) : FM unit :=
  wrap_key ← liftR (ok_or (hkdf_expand master (str_bytes WRAP_CONTEXT)) BkKdf);
  ct ← bk_encrypt wrap_key backup_key (str_bytes WRAP_CONTEXT);
  json ← liftR (ok_or (sidecar_to_json (mkSidecar (hex_enc ct) (backup_context ts_unix))) BkSerialise);
  _ ← fs_write cwd (sidecar_path archive_path) json BkIo;
  set_mode_600.

Definition read_key_sidecar (archive_path : Path) (master : bytes) : FM bytes :=
  json ← fs_read cwd (sidecar_path archive_path) BkSidecar;
  if negb (utf8_valid json) then throw BkSidecar
  else
    sidecar ← liftR (ok_or (sidecar_from_json json) BkSidecar);
    ct ← liftR (ok_or (hex_dec (wrapped_key_hex sidecar)) BkSidecar);
    wrap_key ← liftR (ok_or (hkdf_expand master (str_bytes WRAP_CONTEXT)) BkKdf);
    pt ← liftR (ok_or (decrypt wrap_key ct (str_bytes WRAP_CONTEXT)) BkWrappedKey);
    if (length pt =? 32)%nat then mret pt else throw BkWrappedKey.

(** ** Walking the data directory *)

Section walk.
Variables (rec : Path → FM (list Place)) (dir : Path) (root : Place).
Fixpoint walk_names (names : list string) : FM (list Place) :=
  match names with
  | [] => mret []
  | n :: names =>
      _ ← io BkIo;
      let path := path_join dir [Normal n] in
      r ← attempt (E:=BackupError) (fs_canonicalize cwd path BkIo);
      match r with
      | Err _ => walk_names names
      | Ok resolved =>
          if negb (path_starts_with (place_path resolved) (place_path root)) then walk_names names
          else
            d ← gets (λ fs, is_dir cwd fs (place_path resolved));
            found ← (if (d : bool) then rec path else mret [resolved]);
            rest ← walk_names names;
            mret (found ++ rest)
      end
  end.
End walk.

Fixpoint walkdir (fuel : nat) (root : Place) (dir : Path) : FM (list Place) :=
  match fuel with
  | O => throw BkNoFuel
  | S fuel => names ← fs_read_dir cwd dir BkIo; walk_names (walkdir fuel root) dir root names
  end.

(** A path grows with every level and is shorter than [PATH_MAX]. *)
Definition walkdir_safe (dir : Path) (root : Place) : FM (list Place) := walkdir (S PATH_MAX) root dir.

(** ** Writing an archive *)

Definition write_archive_entry (q : Place) (name : string) (data : bytes) : FM unit :=
  match tar_name name with
  | None => throw BkArchive
  | Some _ => fs_append q (tar_entry name data) BkArchive
  end.

Definition archive_file (q : Place) (backup_key : option bytes) (relative : string) (bs : bytes)
    (files : gmap string bytes) : FM (gmap string bytes) :=
  stored ← match backup_key with
           | Some key => ct ← bk_encrypt key bs (str_bytes relative); mret (ct, relative +:+ ".enc")
           | None => mret (bs, relative)
           end;
  _ ← write_archive_entry q stored.2 stored.1;
  mret (<[relative := file_digest bs]> files).

Definition archive_relative (dir : Path) (prefix : string) (resolved : Place) : string :=
  let p := place_path resolved in prefix +:+ "/" +:+ path_text (default p (strip_path dir p)).

Fixpoint archive_files (q : Place) (backup_key : option bytes) (dir : Path) (prefix : string) (resolved : list Place)
    (files : gmap string bytes) : FM (gmap string bytes) :=
  match resolved with
  | [] => mret files
  | p :: ps =>
      bs ← fs_read cwd (place_path p) BkIo;
      files ← archive_file q backup_key (archive_relative dir prefix p) bs files;
      archive_files q backup_key dir prefix ps files
  end.

Definition archive_dir_safe (dir : Path) (prefix : string) (root : Place) (backup_key : option bytes) (q : Place)
    (files : gmap string bytes) : FM (gmap string bytes) :=
  found ← walkdir_safe dir root; archive_files q backup_key dir prefix found files.

Definition backup_dirs : list string := ["wal"; "pages"; "catalog"; "audit"]%string.
Definition keys_whitelist : list string := ["db_signing_pubkey.hex"]%string.

Fixpoint archive_dirs (data_dir : Path) (root : Place) (backup_key : option bytes) (q : Place) (dirs : list string)
    (files : gmap string bytes) : FM (gmap string bytes) :=
  match dirs with
  | [] => mret files
  | d :: dirs =>
      let dir := path_join data_dir [Normal d] in
      e ← fs_exists cwd dir BkIo;
      files ← (if (e : bool) then archive_dir_safe dir d root backup_key q files else mret files);
      archive_dirs data_dir root backup_key q dirs files
  end.

Fixpoint archive_keys (keys_dir : Path) (root : Place) (backup_key : option bytes) (q : Place) (names : list string)
    (files : gmap string bytes) : FM (gmap string bytes) :=
  match names with
  | [] => mret files
  | name :: names =>
      let src := path_join keys_dir [Normal name] in
      e ← fs_exists cwd src BkIo;
      files ←
        (if negb e then mret files
         else
           r ← attempt (E:=BackupError) (fs_canonicalize cwd src BkIo);
           match r with
           | Err _ => mret files
           | Ok resolved =>
               if negb (path_starts_with (place_path resolved) (place_path root)) then mret files
               else
                 bs ← fs_read cwd (place_path resolved) BkIo;
                 archive_file q backup_key ("keys/" +:+ name) bs files
           end);
      archive_keys keys_dir root backup_key q names files
  end.

(** The entries, the manifest and the end of the archive. *)
Definition write_archive (data_dir : Path) (root : Place) (backup_key : option bytes) (q : Place) (ts_unix : Z)
    (ts_rfc : string) : FM BackupManifest :=
  files ← archive_dirs data_dir root backup_key q backup_dirs ∅;
  let keys_dir := path_join data_dir [Normal "keys"%string] in
  e ← fs_exists cwd keys_dir BkIo;
  files ← (if (e : bool) then archive_keys keys_dir root backup_key q keys_whitelist files else mret files);
  let manifest := mkManifest package_version ts_unix ts_rfc files (compute_manifest_hash files)
                    (bool_decide (is_Some backup_key)) in
  json ← liftR (ok_or (manifest_to_json manifest) BkSerialise);
  _ ← write_archive_entry q "MANIFEST.json" json;
  mret manifest.

Definition create_archive (data_dir output_path : Path) (master : option bytes) : FM BackupManifest :=
  t ← now;
  t' ← now;
  let ts_unix := t / 1000000000 in
  backup_key ← match master with
               | Some m => k ← liftR (derive_backup_key m ts_unix); mret (Some k)
               | None => mret None
               end;
  root ← fs_canonicalize cwd data_dir BkIo;
  q ← fs_create cwd output_path BkIo;
  r ← attempt (E:=BackupError) (write_archive data_dir root backup_key q ts_unix (rfc3339_now t'));
  match r with
  | Err e =>
      (* the builder is dropped: its end is written, an error ignored *)
      _ ← attempt (E:=BackupError) (fs_append q tar_trailer BkArchive);
      throw e
  | Ok manifest =>
      _ ← fs_append q tar_trailer BkArchive;
      _ ← match master, backup_key with
          | Some m, Some key => write_key_sidecar output_path key m ts_unix
          | _, _ => mret tt
          end;
      mret manifest
  end.

Definition create_backup : FM BackupManifest := throw BkPlaintextDisabled.
Definition create_backup_encrypted (data_dir output_path : Path) (master : bytes) : FM BackupManifest :=
  create_archive data_dir output_path (Some master).

(** ** Restoring *)

(** [ends_with(".enc")], and the name without it. *)
Definition strip_enc (n : string) : option string :=
  let k := (String.length n - 4)%nat in
  if (4 <=? String.length n)%nat && bool_decide (String.substring k 4 n = ".enc"%string)
  then Some (String.substring 0 k n) else None.
Definition logical_name (encrypted : bool) (entry_name : string) : string :=
  if encrypted then default entry_name (strip_enc entry_name) else entry_name.

(** The first pass: the first entry named as the manifest. *)
Fixpoint find_manifest (entries : list (option (string * bytes))) : Result BackupError BackupManifest :=
  match entries with
  | [] => Err BkNoManifest
  | None :: _ => Err BkIo
  | Some (name, data) :: entries =>
      if bool_decide (name = "MANIFEST.json"%string) then
        if utf8_valid data then ok_or (manifest_from_json data) BkManifestParse else Err BkIo
      else find_manifest entries
  end.

(** The place an entry would be written at, as far as it can be resolved. *)
Definition normalised (dest : Path) : FM (option Path) :=
  r ← attempt (E:=BackupError) (fs_canonicalize cwd dest BkIo);
  match r with
  | Ok c => mret (Some (place_path c))
  | Err _ =>
      match path_parent dest with
      | None => mret (Some dest)
      | Some p =>
          r ← attempt (E:=BackupError) (fs_canonicalize cwd p BkIo);
          match r with
          | Ok c => mret (Some (path_join (place_path c)
                       (match path_file_name dest with Some f => [Normal f] | None => [] end)))
          | Err _ => mret None
          end
      end
  end.

Definition restore_entry (target_dir : Path) (canonical_target : Place) (encrypted : bool) (backup_key : option bytes)
    (entry_name : string) (raw : bytes) : FM unit :=
  if bool_decide (entry_name = "MANIFEST.json"%string) then mret tt
  else
    let name := logical_name encrypted entry_name in
    let dest := path_join target_dir (components name) in
    n ← normalised dest;
    let escapes := match n with Some p => negb (path_starts_with p (place_path canonical_target)) | None => false end in
    if escapes then mret tt
    else
      _ ← match path_parent dest with Some p => fs_create_dir_all cwd p BkIo | None => mret tt end;
      plain ← match backup_key with
              | Some key => liftR (ok_or (decrypt key raw (str_bytes name)) (BkDecrypt name))
              | None => mret raw
              end;
      fs_write cwd dest plain BkIo.

Fixpoint restore_entries (target_dir : Path) (canonical_target : Place) (encrypted : bool) (backup_key : option bytes)
    (entries : list (option (string * bytes))) : FM unit :=
  match entries with
  | [] => mret tt
  | None :: _ => throw BkIo
  | Some (name, raw) :: entries =>
      _ ← restore_entry target_dir canonical_target encrypted backup_key name raw;
      restore_entries target_dir canonical_target encrypted backup_key entries
  end.

(** The third pass: the files that are missing or differ. *)
Fixpoint verify_restored (target_dir : Path) (files : list (string * bytes)) : FM (list RestoreFailure) :=
  match files with
  | [] => mret []
  | (rel_path, expected) :: files =>
      let full := path_join target_dir (components rel_path) in
      e ← fs_exists cwd full BkIo;
      failed ←
        (if negb e then mret [FileMissing rel_path]
         else
           bs ← fs_read cwd full BkIo;
           mret (if bool_decide (file_digest bs = expected) then [] else [FileMismatch rel_path]));
      rest ← verify_restored target_dir files;
      mret (failed ++ rest)
  end.

Definition read_archive (archive_path : Path) : FM (list (option (string * bytes))) :=
  bs ← fs_read cwd archive_path BkIo; mret (tar_parse bs).

Definition restore_key (archive_path : Path) (encrypted : bool) (master : option bytes) : FM (option bytes) :=
  if encrypted then
    m ← liftR (ok_or master BkNoMasterKey);
    k ← read_key_sidecar archive_path m;
    mret (Some k)
  else mret None.

Definition restore_backup_inner (archive_path target_dir : Path) (force : bool) (master : option bytes)
    : FM BackupManifest :=
  e ← fs_exists cwd target_dir BkIo;
  if e && negb force then throw BkTargetExists
  else
    entries ← read_archive archive_path;
    manifest ← liftR (find_manifest entries);
    if negb (manifest_verify manifest) then throw BkManifestHash
    else
      backup_key ← restore_key archive_path (bm_encrypted manifest) master;
      entries ← read_archive archive_path;
      _ ← fs_create_dir_all cwd target_dir BkIo;
      canonical_target ← fs_canonicalize cwd target_dir BkIo;
      _ ← restore_entries target_dir canonical_target (bm_encrypted manifest) backup_key entries;
      failures ← verify_restored target_dir (sorted_files (bm_files manifest));
      match failures with
      | [] => mret manifest
      | _ => throw (BkVerify failures)
      end.

Definition restore_backup (archive_path target_dir : Path) (force : bool) : FM BackupManifest :=
  restore_backup_inner archive_path target_dir force None.
Definition restore_backup_encrypted (archive_path target_dir : Path) (force : bool) (master : bytes) : FM BackupManifest :=
  restore_backup_inner archive_path target_dir force (Some master).

(** ** Verifying an archive without restoring it *)

Inductive FileVerifyStatus := FvOk | FvHashMismatch | FvDecryptionFailed | FvNotInManifest.
#[export] Instance FileVerifyStatus_eq_dec : EqDecision FileVerifyStatus.
Proof. solve_decision. Defined.

Record FileVerifyResult := mkFvr { fv_path : string; fv_status : FileVerifyStatus; fv_reason : option (bytes * bytes) }.

Record VerifyReport := mkReport {
  vr_archive_path : Path;
  vr_version : string;
  vr_created_at : string;
  vr_encrypted : bool;
  vr_manifest_hash : bytes;
  vr_manifest_hash_ok : bool;
  vr_total_files : nat;
  vr_content_verified : bool;
  vr_file_results : list FileVerifyResult;
  vr_failed_files : nat
}.

(** [&s[..16]]: a panic when the text is shorter or the byte is inside a
    character. *)
Definition first16 (s : bytes) : Result BackupError bytes :=
  if (16 <=? length s)%nat && negb (match s !! 16%nat with Some b => is_cont b | None => false end)
  then Ok (take 16 s) else Err BkPanic.

Definition verify_entry (manifest : BackupManifest) (backup_key : option bytes) (entry_name : string) (raw : bytes)
    : Result BackupError FileVerifyResult :=
  let name := logical_name (bm_encrypted manifest) entry_name in
  match bm_files manifest !! name with
  | None => Ok (mkFvr name FvNotInManifest None)
  | Some expected =>
      match (match backup_key with Some key => decrypt key raw (str_bytes name) | None => Some raw end) with
      | None => Ok (mkFvr name FvDecryptionFailed None)
      | Some plain =>
          let actual := file_digest plain in
          if bool_decide (actual = expected) then Ok (mkFvr name FvOk None)
          else
            e ← first16 expected;
            a ← first16 actual;
            Ok (mkFvr name FvHashMismatch (Some (e, a)))
      end
  end.

Fixpoint verify_entries (manifest : BackupManifest) (backup_key : option bytes) (entries : list (option (string * bytes)))
    : Result BackupError (list FileVerifyResult) :=
  match entries with
  | [] => Ok []
  | None :: _ => Err BkIo
  | Some (name, raw) :: entries =>
      if bool_decide (name = "MANIFEST.json"%string) then verify_entries manifest backup_key entries
      else
        r ← verify_entry manifest backup_key name raw;
        rest ← verify_entries manifest backup_key entries;
        Ok (r :: rest)
  end.

Definition verify_key (archive_path : Path) (encrypted : bool) (master : option bytes) : FM (option bytes) :=
  match encrypted, master with
  | true, Some m =>
      e ← fs_exists cwd (sidecar_path archive_path) BkIo;
      if (e : bool) then k ← read_key_sidecar archive_path m; mret (Some k) else mret None
  | _, _ => mret None
  end.

Definition verify_backup (archive_path : Path) (master : option bytes) : FM VerifyReport :=
  entries ← read_archive archive_path;
  manifest ← liftR (find_manifest entries);
  backup_key ← verify_key archive_path (bm_encrypted manifest) master;
  file_results ←
    (if bool_decide (is_Some backup_key) || negb (bm_encrypted manifest) then
       entries ← read_archive archive_path; liftR (verify_entries manifest backup_key entries)
     else mret []);
  mret (mkReport archive_path (vledger_version manifest) (created_at_rfc manifest) (bm_encrypted manifest)
          (manifest_hash manifest) (manifest_verify manifest) (size (bm_files manifest))
          (negb (bool_decide (file_results = []))) file_results
          (length (filter (λ r, fv_status r ≠ FvOk) file_results))).

Definition report_is_ok (r : VerifyReport) : bool := vr_manifest_hash_ok r && (vr_failed_files r =? 0)%nat.

(** ** With the audit log *)

Context `{AuditExt}.

(** The size of the archive is read back; an error of the log is ignored. *)
Definition create_backup_encrypted_audited (data_dir output_path : Path) (output_text : string) (master : bytes)
    : M (Fs * AuditLog) BackupError BackupManifest :=
  manifest ← zoom fst (λ fs s, (fs, s.2)) (create_archive data_dir output_path (Some master));
  d ← attempt (E:=BackupError) (zoom fst (λ fs s, (fs, s.2)) (fs_read cwd output_path BkIo));
  let size_bytes := match d with Ok bs => Z.of_nat (length bs) | Err _ => 0 end in
  _ ← attempt (E:=BackupError) (zoom snd (λ l s, (s.1, l)) (append (BackupCreated output_text size_bytes "vledger-backup")));
  mret manifest.
Definition create_backup_audited : M (Fs * AuditLog) BackupError BackupManifest := throw BkPlaintextDisabled.
End backup.
