(* ===== verification/BackupSafety.v ===== *)
(** * Backups: what is archived, what a restore guarantees

    The walk over the data directory ends for every file system and never
    leaves the directory; a successful restore has verified every file of the
    manifest.  The limits: the report of [verify_backup] is exact about the
    entries an archive holds and silent about those it lacks; the hash of a
    manifest does not determine its list of files; the guard against entries that
    leave the target does not see a path whose directories do not exist yet. *)

From stdpp Require Import base gmap list strings option fin_maps pretty sorting.
From Stdlib Require Import ZArith Lia Strings.Ascii Strings.Byte.
From S2P Require Import Prelude Bytes Jsonl Crypto WalRecord Page AuditTrail Fs Backup.

Section walk_facts.
Context `{Blake3} `{Hex} `{WalExt} `{FsExt} `{BackupExt} (cwd : Place).

Lemma path_len_join (dir : Path) n : (path_len dir < path_len (path_join dir [Normal n]))%nat.
Proof.
  destruct dir as [|c dir]; [cbn; lia|]. rewrite path_join_normal by done. rewrite path_len_app. cbn. lia.
Qed.

Lemma canonicalize_Ok {E} (e : E) (p : Path) (σ : World * Fs) (q : Place) (σ' : World * Fs) :
  fs_canonicalize cwd p e σ = (Ok q, σ') → canonicalize cwd σ.2 p = Some q ∧ σ'.2 = σ.2.
Proof.
  unfold fs_canonicalize. intros Hc. apply mbind_Ok_inv in Hc as ([] & σ1 & <-%io_state & Hc).
  apply mbind_Ok_inv in Hc as (o & σ2 & Hg & Hc). unfold gets, liftR in *. simplify_eq.
  match goal with |- context [canonicalize cwd ?x p] => destruct (canonicalize cwd x p) end; cbn in *; by simplify_eq.
Qed.

Lemma walk_names_never (rec : Path → M Fs BackupError (list Place)) dir root names :
  (∀ n, (path_len (path_join dir [Normal n]) ≤ PATH_MAX)%nat → never BkNoFuel (rec (path_join dir [Normal n]))) →
  never BkNoFuel (walk_names cwd rec dir root names).
Proof.
  intros Hrec. induction names as [|n names IH]; cbn [walk_names]; [apply never_ret|].
  apply never_bind; [by apply never_io|]. intros [] σ σ' Hw.
  apply mbind_inv in Hw as [(r & σ1 & Hr & Hw)|(e & He & _)]; [|by eapply never_attempt].
  unfold attempt in Hr. destruct (fs_canonicalize cwd _ BkIo σ) as [r' σ2] eqn:Hc. simplify_eq.
  destruct r as [q|]; [|by eapply IH]. destruct (negb _); [by eapply IH|].
  apply canonicalize_Ok in Hc as [(_ & Hl & _)%canonicalize_inv _]. revert Hw.
  apply never_bind; [apply never_gets|]. intros d. apply never_bind; [|intros; apply never_bind; [done|intros; apply never_ret]].
  destruct d; [by apply Hrec|apply never_ret].
Qed.

Lemma walkdir_never fuel root dir :
  (0 < fuel)%nat → (PATH_MAX < fuel + path_len dir)%nat → never BkNoFuel (walkdir cwd fuel root dir).
Proof.
  revert dir. induction fuel as [|fuel IH]; intros dir Hf Hl; [lia|]. cbn [walkdir].
  apply never_bind.
  - unfold fs_read_dir. apply never_bind; [by apply never_io|]. intros []. apply never_bind; [apply never_gets|].
    intros [d|]; [|by apply never_throw]. apply never_bind; [apply never_gets|].
    intros [[]|]; first [apply never_gets|by apply never_throw].
  - intros names. apply walk_names_never. intros n Hn. pose proof (path_len_join dir n). apply IH; lia.
Qed.

(** C31: the walk over a directory ends on every file system, whatever links it
    holds, also cyclic ones: the fuel is never used up, because every level
    makes the path longer and the operating system refuses paths that are too
    long. *)
Theorem walk_terminates dir root : never BkNoFuel (walkdir_safe cwd dir root).
Proof. apply walkdir_never; lia. Qed.

End walk_facts.

(** ** Nothing outside the data directory is archived *)

Section inside.
Context `{Blake3} `{Hex} `{WalExt} `{FsExt} `{BackupExt} (cwd : Place).
Context (fs : Fs) (q : Place) (root : Place).

(** While the archive is written only its own file changes. *)
Definition with_archive (s : Fs) : Prop := ∃ d, s = <[q := NFile d]> fs.

Lemma node_with d (p : Place) : q ≠ [] → node_at (<[q := NFile d]> fs) p = if decide (p = q) then Some (NFile d) else node_at fs p.
Proof.
  intros Hq. unfold node_at. destruct p as [|x p].
  - by rewrite decide_False by done.
  - destruct (decide (x :: p = q)) as [->|Hne]; [by rewrite lookup_insert_eq|by rewrite lookup_insert_ne].
Qed.

Lemma dir_place_with d d' (p : Place) : q ≠ [] → dir_place (<[q := NFile d]> fs) p → dir_place (<[q := NFile d']> fs) p.
Proof.
  intros Hq Hp x Hx. specialize (Hp x Hx). rewrite node_with in * by done. by case_decide.
Qed.

Lemma real_place_with d d' (p : Place) : q ≠ [] → real_place (<[q := NFile d]> fs) p → real_place (<[q := NFile d']> fs) p.
Proof.
  intros Hq [Hp|(x & c & bs & -> & Hx & Hc)]; [left; by eapply dir_place_with|]. right.
  destruct (decide (x ++ [c] = q)) as [He|Hne].
  - exists x, c, d'. split_and!; [done|by eapply dir_place_with|]. rewrite He. apply lookup_insert_eq.
  - exists x, c, bs. split_and!; [done|by eapply dir_place_with|]. by rewrite lookup_insert_ne in *.
Qed.

(** A hash of a file inside the root. *)
Definition inside_hash (h : bytes) : Prop :=
  ∃ p bs, root `prefix_of` p ∧ fs !! p = Some (NFile bs) ∧ h = file_digest bs.
Definition inside_place (p : Place) : Prop := root `prefix_of` p ∧ real_place (<[q := NFile []]> fs) p.

Hypothesis Hq : q ≠ [].
Hypothesis Hcwd : dir_place (<[q := NFile []]> fs) cwd.
Hypothesis Hout : ¬ root `prefix_of` q.

Lemma gives_canonicalize p : gives with_archive (fs_canonicalize cwd p BkIo) (real_place (<[q := NFile []]> fs)).
Proof.
  eapply gives_bind; [apply gives_io|]. intros [] _. eapply gives_bind; [apply gives_gets|].
  intros o (s & [d ->] & ->). eapply gives_mono; [apply gives_liftR|]. intros a Ha.
  destruct (canonicalize cwd _ p) as [a'|] eqn:Hc; cbn in Ha; [|done]. simplify_eq.
  apply canonicalize_inv in Hc as (_ & _ & Hc). eapply resolve_real in Hc; [by eapply real_place_with|by eapply dir_place_with].
Qed.

Lemma gives_exists p : gives with_archive (fs_exists cwd p BkIo) (λ _, True).
Proof.
  eapply gives_bind; [apply gives_attempt, gives_canonicalize|]. intros r _. by apply gives_ret.
Qed.

Lemma gives_append data (e : BackupError) : gives with_archive (fs_append q data e) (λ _, True).
Proof.
  assert (Ha : ∀ x s, with_archive s → with_archive (append_at q x s)).
  { intros x s [d ->]. unfold append_at. rewrite lookup_insert_eq. exists (d ++ x). by rewrite insert_insert_eq. }
  eapply gives_bind; [apply gives_attempt, gives_io|]. intros [[]|e'] _.
  - apply gives_modify. eauto.
  - eapply gives_bind; [apply gives_rand|]. intros r _.
    eapply gives_bind; [apply gives_modify; eauto|]. intros [] _. apply gives_throw.
Qed.

Lemma walk_names_inside (rec : Path → M Fs BackupError (list Place)) dir names :
  (∀ p, gives with_archive (rec p) (Forall inside_place)) →
  gives with_archive (walk_names cwd rec dir root names) (Forall inside_place).
Proof.
  intros Hrec. induction names as [|n names IH]; cbn [walk_names]; [by apply gives_ret|].
  eapply gives_bind; [apply gives_io|]. intros [] _.
  eapply gives_bind; [apply gives_attempt, gives_canonicalize|]. intros [p|] Hp; [|done].
  destruct (path_starts_with _ _) eqn:Hin; cbn [negb]; [|done]. apply place_path_inside in Hin.
  eapply gives_bind; [apply gives_gets|]. intros d _.
  eapply gives_bind; [|intros l Hl; eapply gives_bind; [apply IH|intros l' Hl'; apply gives_ret; by apply Forall_app]].
  destruct d; [apply Hrec|]. apply gives_ret, Forall_singleton. by split.
Qed.

Lemma walkdir_inside fuel dir : gives with_archive (walkdir cwd fuel root dir) (Forall inside_place).
Proof.
  revert dir. induction fuel as [|fuel IH]; intros dir; cbn [walkdir]; [apply gives_throw|].
  eapply gives_bind with (Φ := λ _, True); [|intros names _; by apply walk_names_inside].
  eapply gives_bind; [apply gives_io|]. intros [] _. eapply gives_bind; [apply gives_gets|].
  intros [d|] _; [|apply gives_throw]. eapply gives_bind; [apply gives_gets|].
  intros [[]|] _; first [apply gives_throw|by eapply gives_mono; [apply gives_gets|]].
Qed.

Lemma gives_read_inside p : inside_place p →
  gives with_archive (fs_read cwd (place_path p) BkIo) (λ bs, fs !! p = Some (NFile bs)).
Proof.
  intros [Hin Hp]. eapply gives_bind; [apply gives_io|]. intros [] _. eapply gives_bind; [apply gives_gets|].
  intros o (s & [d ->] & ->). eapply gives_mono; [apply gives_liftR|]. intros bs Hbs.
  unfold file_data, node_of in Hbs. destruct (canonicalize cwd _ _) as [p'|] eqn:Hc; [|done].
  apply canonicalize_inv in Hc as (_ & _ & Hc).
  rewrite resolve_place in Hc by (by eapply real_place_with). simplify_eq. cbn in Hbs.
  rewrite node_with in Hbs by done. rewrite decide_False in Hbs by (intros ->; done).
  unfold node_at in Hbs. destruct p' as [|x p']; [done|]. destruct (fs !! (x :: p')) as [[]|]; cbn in Hbs; by simplify_eq.
Qed.

Abbreviation inside_files := (λ files : gmap string bytes, ∀ rel h, files !! rel = Some h → inside_hash h).

Lemma archive_file_inside key rel p bs files : root `prefix_of` p → fs !! p = Some (NFile bs) → inside_files files →
  gives with_archive (archive_file q key rel bs files) inside_files.
Proof.
  intros Hp Hbs Hf. eapply gives_bind with (Φ := λ _, True).
  { destruct key as [k|]; [|by apply gives_ret]. eapply gives_bind with (Φ := λ _, True); [|intros ct _; by apply gives_ret].
    eapply gives_bind; [apply gives_rand|]. intros r _. by eapply gives_mono; [apply gives_liftR|]. }
  intros stored _. eapply gives_bind with (Φ := λ _, True).
  { unfold write_archive_entry. destruct (tar_name _); [apply gives_append|apply gives_throw]. }
  intros [] _. apply gives_ret. intros rel' h. rewrite lookup_insert_Some. intros [[_ <-]|[_ Hh]]; [|by eauto].
  by exists p, bs.
Qed.

Lemma archive_files_inside key dir prefix ps files : Forall inside_place ps → inside_files files →
  gives with_archive (archive_files cwd q key dir prefix ps files) inside_files.
Proof.
  intros Hps. revert files. induction Hps as [|p ps Hp _ IH]; intros files Hf; cbn [archive_files]; [by apply gives_ret|].
  eapply gives_bind; [by apply gives_read_inside|]. intros bs Hbs. destruct Hp as [Hp _].
  eapply gives_bind; [by eapply archive_file_inside|]. intros files' Hf'. by apply IH.
Qed.

Lemma archive_dirs_inside data_dir key dirs files : inside_files files →
  gives with_archive (archive_dirs cwd data_dir root key q dirs files) inside_files.
Proof.
  revert files. induction dirs as [|d dirs IH]; intros files Hf; cbn [archive_dirs]; [by apply gives_ret|].
  eapply gives_bind; [apply gives_exists|]. intros b _. eapply gives_bind with (Φ := inside_files); [|intros; by apply IH].
  destruct b; [|by apply gives_ret]. unfold archive_dir_safe.
  eapply gives_bind; [apply walkdir_inside|]. intros ps Hps. by apply archive_files_inside.
Qed.

Lemma archive_keys_inside keys_dir key names files : inside_files files →
  gives with_archive (archive_keys cwd keys_dir root key q names files) inside_files.
Proof.
  revert files. induction names as [|n names IH]; intros files Hf; cbn [archive_keys]; [by apply gives_ret|].
  eapply gives_bind; [apply gives_exists|]. intros b _. eapply gives_bind with (Φ := inside_files); [|intros; by apply IH].
  destruct b; cbn [negb]; [|by apply gives_ret]. eapply gives_bind; [apply gives_attempt, gives_canonicalize|].
  intros [p|] Hp; [|by apply gives_ret]. destruct (path_starts_with _ _) eqn:Hin; cbn [negb]; [|by apply gives_ret].
  apply place_path_inside in Hin. eapply gives_bind; [by apply gives_read_inside|]. intros bs Hbs.
  by eapply archive_file_inside.
Qed.

Lemma write_archive_inside data_dir key ts rfc :
  gives with_archive (write_archive cwd data_dir root key q ts rfc) (λ m, inside_files (bm_files m)).
Proof.
  eapply gives_bind; [by apply archive_dirs_inside|]. intros files Hf.
  eapply gives_bind; [apply gives_exists|]. intros b _. eapply gives_bind with (Φ := inside_files).
  { destruct b; [by apply archive_keys_inside|by apply gives_ret]. }
  intros files' Hf'. eapply gives_bind; [apply gives_liftR|]. intros j _.
  eapply gives_bind with (Φ := λ _, True); [|intros; by apply gives_ret].
  unfold write_archive_entry. destruct (tar_name _); [apply gives_append|apply gives_throw].
Qed.
End inside.

Section guarantees.
Context `{Blake3} `{Hex} `{WalExt} `{FsExt} `{BackupExt} (cwd : Place).

Lemma open_create_file fs p q : open_create cwd p fs = Some q → q ≠ [] ∧ node_at fs q ≠ Some NDir.
Proof.
  unfold open_create. destruct (lookup_path cwd fs true p) as [q'|]; [|done]. cbn.
  destruct (node_at fs q') as [[]|] eqn:Hn; intros; simplify_eq; (split; [by intros ->|by rewrite Hn]).
Qed.

(** A backup archives nothing from outside the data directory, whatever
    symbolic links it holds and whatever fails: every hash of the manifest is
    the hash of a file whose place is under the canonical data directory. *)
Theorem backup_only_inside data_dir output_path master W fs m σ' root q :
  create_archive cwd data_dir output_path master (W, fs) = (Ok m, σ') →
  canonicalize cwd fs data_dir = Some root → open_create cwd output_path fs = Some q →
  ¬ root `prefix_of` q → dir_place fs cwd →
  ∀ rel h, bm_files m !! rel = Some h →
    ∃ p bs, root `prefix_of` p ∧ fs !! p = Some (NFile bs) ∧ h = file_digest bs.
Proof.
  intros Hrun Hroot Hq Hout Hcwd. pose proof (open_create_file _ _ _ Hq) as [Hq0 Hqd].
  assert (Hcwd' : dir_place (<[q := NFile []]> fs) cwd).
  { intros x Hx. rewrite node_with by done. rewrite decide_False; [by apply Hcwd|]. intros ->. by apply Hqd, Hcwd. }
  unfold create_archive in Hrun.
  apply mbind_Ok_inv in Hrun as (t & [w0 s0] & Ht & Hrun). cbn in Ht. simplify_eq.
  apply mbind_Ok_inv in Hrun as (t' & [w1 s1] & Ht & Hrun). cbn in Ht. simplify_eq.
  apply mbind_Ok_inv in Hrun as (key & [w2 s2] & Hk & Hrun).
  assert (s2 = s1) as ->.
  { destruct master; [apply mbind_Ok_inv in Hk as (k & σ1 & [_ ->]%liftR_Ok & Hk)|]; unfold mret, M_ret in Hk; by simplify_eq. }
  apply mbind_Ok_inv in Hrun as (root' & [w3 s3] & [Hr Hs]%canonicalize_Ok & Hrun). cbn in Hr, Hs. simplify_eq.
  apply mbind_Ok_inv in Hrun as (q' & [w4 s4] & Hc & Hrun).
  apply mbind_Ok_inv in Hc as ([] & [w5 s5] & Hs5%io_state & Hc). cbn in Hs5. subst s5.
  apply mbind_Ok_inv in Hc as (o & ? & Hg & Hc). unfold gets in Hg. simplify_eq. cbn in Hc. rewrite Hq in Hc.
  unfold mbind, M_bind, modify, mret, M_ret in Hc. cbn in Hc. simplify_eq.
  apply mbind_Ok_inv in Hrun as (r & [w6 s6] & Hw%attempt_Ok & Hrun).
  destruct r as [m'|e]; cycle 1.
  { by apply mbind_Ok_inv in Hrun as (? & ? & _ & ?). }
  apply mbind_Ok_inv in Hrun as ([] & ? & _ & Hrun). apply mbind_Ok_inv in Hrun as (u & ? & _ & Hrun).
  unfold mret, M_ret in Hrun. simplify_eq.
  edestruct (write_archive_inside cwd s1 q' root' Hq0 Hcwd' Hout) as [_ Hm]; [by exists []|].
  rewrite Hw in Hm. by apply Hm.
Qed.

(** *** Restoring verifies *)

Lemma fs_exists_state (p : Path) (σ : World * Fs) (b : bool) (σ' : World * Fs) : fs_exists cwd p BkIo σ = (Ok b, σ') → σ'.2 = σ.2.
Proof.
  unfold fs_exists. intros He. apply mbind_Ok_inv in He as (r & σ1 & Hr%attempt_Ok & He).
  unfold mret, M_ret in He. simplify_eq. unfold fs_canonicalize in Hr.
  apply mbind_inv in Hr as [([] & σ2 & Hio%io_state & Hr)|(e & Hio%io_state & _)]; [|done].
  unfold mbind, M_bind, gets, liftR in Hr. by simplify_eq.
Qed.

Lemma fs_read_Ok {E} (e : E) (p : Path) (σ : World * Fs) (bs : bytes) (σ' : World * Fs) :
  fs_read cwd p e σ = (Ok bs, σ') → file_data cwd σ.2 p = Some bs ∧ σ'.2 = σ.2.
Proof.
  unfold fs_read. intros Hr. apply mbind_Ok_inv in Hr as ([] & σ1 & <-%io_state & Hr).
  apply mbind_Ok_inv in Hr as (o & σ2 & Hg & Hr). unfold gets, liftR in *. simplify_eq.
  match goal with |- context [file_data cwd ?x p] => destruct (file_data cwd x p) end; cbn in *; by simplify_eq.
Qed.

Lemma verify_restored_ok (target : Path) (files : list (string * bytes)) (σ σ' : World * Fs) :
  verify_restored cwd target files σ = (Ok [], σ') →
  σ'.2 = σ.2 ∧ ∀ rel h, (rel, h) ∈ files → ∃ bs, file_data cwd σ.2 (path_join target (components rel)) = Some bs ∧ file_digest bs = h.
Proof.
  revert σ. induction files as [|[rel h] files IH]; intros σ; cbn [verify_restored].
  { unfold mret, M_ret. intros; simplify_eq. split; [done|]. by intros ?? ?%elem_of_nil. }
  intros Hv. apply mbind_Ok_inv in Hv as (b & σ1 & He%fs_exists_state & Hv).
  apply mbind_Ok_inv in Hv as (l & σ2 & Hl & Hv). apply mbind_Ok_inv in Hv as (l' & σ3 & Hl' & Hv).
  unfold mret, M_ret in Hv. injection Hv as [-> ->]%app_eq_nil ->.
  destruct b; cbn [negb] in Hl; [|unfold mret, M_ret in Hl; by simplify_eq].
  apply mbind_Ok_inv in Hl as (bs & σ4 & [Hbs Hs]%fs_read_Ok & Hl). unfold mret, M_ret in Hl.
  case_bool_decide; simplify_eq. destruct (IH _ Hl') as [Hs' Hf]. rewrite Hs, He in *. split; [congruence|].
  intros rel' h' [[= -> ->]|Hin]%elem_of_cons; [by exists bs|by apply Hf].
Qed.

Lemma elem_of_sorted_files (files : gmap string bytes) k v : (k, v) ∈ sorted_files files ↔ files !! k = Some v.
Proof.
  unfold sorted_files. rewrite list_elem_of_omap. split.
  - intros (k' & _ & He). destruct (files !! k') eqn:Hk; cbn in He; by simplify_eq.
  - intros Hk. exists k. rewrite Hk. split; [|done]. rewrite (merge_sort_Permutation String.le).
    apply elem_of_elements, elem_of_dom. eauto.
Qed.

(** C30: what a restore that succeeds has verified, for every archive, key and
    environment.  The archive is a file whose manifest entry is the manifest
    returned, that manifest's own hash holds, and for every file it lists there
    is a file with the recorded hash at the path that the recorded name gives
    from the target.  (A recorded name may contain [..] or be absolute, so that
    path may lie outside the target.) *)
Theorem restore_verifies (archive target : Path) (force : bool) (master : option bytes) (W : World) (fs : Fs) (m : BackupManifest) (σ' : World * Fs) :
  restore_backup_inner cwd archive target force master (W, fs) = (Ok m, σ') →
  (∃ bs, file_data cwd fs archive = Some bs ∧ find_manifest (tar_parse bs) = Ok m) ∧
  manifest_verify m = true ∧
  ∀ rel h, bm_files m !! rel = Some h →
    ∃ bs, file_data cwd σ'.2 (path_join target (components rel)) = Some bs ∧ file_digest bs = h.
Proof.
  unfold restore_backup_inner. intros Hr. apply mbind_Ok_inv in Hr as (b & σ1 & He%fs_exists_state & Hr).
  destruct (b && negb force); [done|]. apply mbind_Ok_inv in Hr as (es & σ2 & Ha & Hr).
  apply mbind_Ok_inv in Ha as (bs & σ3 & [Hbs _]%fs_read_Ok & Ha). unfold mret, M_ret in Ha. injection Ha as <- <-.
  apply mbind_Ok_inv in Hr as (m' & σ4 & Hf & Hr). unfold liftR in Hf. injection Hf as Hf <-.
  destruct (manifest_verify m') eqn:Hm; [|done]. cbn [negb] in Hr.
  do 5 (apply mbind_Ok_inv in Hr as (? & ? & _ & Hr)).
  apply mbind_Ok_inv in Hr as (l & σ5 & Hv & Hr). destruct l; [|done]. unfold mret, M_ret in Hr. simplify_eq.
  apply verify_restored_ok in Hv as [Hs Hf']. split_and!; [|done|].
  - exists bs. rewrite He in Hbs. done.
  - intros rel h Hh. rewrite Hs. by apply Hf', elem_of_sorted_files.
Qed.
End guarantees.

(** ** What the checks of an archive do not show *)

Section limits.
Context `{Blake3} `{Hex} `{WalExt} `{FsExt} `{BackupExt} (cwd : Place).

(** ** The report *)

Definition opened (key : option bytes) (name : string) (raw : bytes) : option bytes :=
  match key with Some k => decrypt k raw (str_bytes name) | None => Some raw end.

(** An entry whose content is the file the manifest records under its name. *)
Definition entry_matches (m : BackupManifest) (key : option bytes) (name : string) (raw : bytes) : Prop :=
  ∃ plain, opened key (logical_name (bm_encrypted m) name) raw = Some plain ∧
    bm_files m !! logical_name (bm_encrypted m) name = Some (file_digest plain).

Lemma verify_entry_ok m key name raw r :
  verify_entry m key name raw = Ok r → fv_status r = FvOk ↔ entry_matches m key name raw.
Proof.
  unfold verify_entry, entry_matches. change (match key with Some k => _ | None => _ end) with (opened key (logical_name (bm_encrypted m) name) raw).
  destruct (bm_files m !! _) as [h|]; [|intros; simplify_eq; split; [done|naive_solver]].
  destruct (opened _ _ _) as [p|]; [|intros; simplify_eq; split; [done|naive_solver]].
  case_bool_decide as Hd; [intros; simplify_eq; split; [by eauto|done]|].
  intros (e & _ & Hr)%res_bind_Ok. apply res_bind_Ok in Hr as (a & _ & Hr). apply Ok_inj in Hr as <-. cbn. split; [done|]. naive_solver.
Qed.

Lemma verify_entries_ok m key es rs :
  verify_entries m key es = Ok rs →
  length (filter (λ r, fv_status r ≠ FvOk) rs) = 0%nat ↔
  ∀ name raw, Some (name, raw) ∈ es → name ≠ "MANIFEST.json"%string → entry_matches m key name raw.
Proof.
  revert rs. induction es as [|[[name raw]|] es IH]; intros rs; cbn [verify_entries]; [| |done].
  { intros [= <-]. split; [by intros _ ?? ?%elem_of_nil|done]. }
  case_bool_decide as Hm.
  { intros Hrs. rewrite (IH rs Hrs). split; intros Hall n w; [intros [[= -> ->]|?]%elem_of_cons; [done|by apply Hall]|].
    intros Hin. apply Hall. by right. }
  intros (r & Hr & Hrs)%res_bind_Ok. apply res_bind_Ok in Hrs as (rest & Hrest & Hrs). apply Ok_inj in Hrs as <-.
  pose proof (verify_entry_ok _ _ _ _ _ Hr) as Hone. rewrite filter_cons. case_decide as Hst.
  - split; [done|]. intros Hall. destruct Hst. apply Hone, Hall; [by left|done].
  - rewrite (IH rest Hrest). split.
    + intros Hall n w [[= -> ->]|?]%elem_of_cons ?; [by apply Hone|by apply Hall].
    + intros Hall n w ? ?. apply Hall; [by right|done].
Qed.

Lemma read_key_sidecar_state (archive : Path) (mk : bytes) (σ : World * Fs) k σ' :
  read_key_sidecar cwd archive mk σ = (Ok k, σ') → σ'.2 = σ.2.
Proof.
  unfold read_key_sidecar. intros Hk. apply mbind_Ok_inv in Hk as (j & σ1 & [_ <-]%fs_read_Ok & Hk).
  destruct (utf8_valid j); cbn [negb] in Hk; [|done].
  do 4 (apply mbind_Ok_inv in Hk as (? & ? & [_ ->]%liftR_Ok & Hk)).
  destruct (_ =? _)%nat; unfold mret, M_ret in Hk; by simplify_eq.
Qed.

Lemma verify_key_state (archive : Path) (enc : bool) (master : option bytes) (σ : World * Fs) key σ' :
  verify_key cwd archive enc master σ = (Ok key, σ') → σ'.2 = σ.2.
Proof.
  unfold verify_key. destruct enc, master as [mk|]; try (unfold mret, M_ret; by intros; simplify_eq).
  intros Hk. apply mbind_Ok_inv in Hk as (b & σ1 & He%fs_exists_state & Hk).
  destruct b; [|unfold mret, M_ret in Hk; by simplify_eq].
  apply mbind_Ok_inv in Hk as (k & σ2 & Hk%read_key_sidecar_state & Hret). unfold mret, M_ret in Hret. simplify_eq. congruence.
Qed.

(** The report of a verification is exact about what the archive holds: it
    passes if and only if the manifest's own hash holds and, when the content
    could be read, every entry decrypts to a file the manifest lists with that
    hash. *)
Theorem verify_report_exact (archive : Path) (master : option bytes) (W : World) (fs : Fs) (r : VerifyReport) σ' :
  verify_backup cwd archive master (W, fs) = (Ok r, σ') →
  ∃ bs m key, file_data cwd fs archive = Some bs ∧ find_manifest (tar_parse bs) = Ok m ∧
    vr_total_files r = size (bm_files m) ∧
    (report_is_ok r = true ↔ manifest_verify m = true ∧
       (is_Some key ∨ bm_encrypted m = false →
        ∀ name raw, Some (name, raw) ∈ tar_parse bs → name ≠ "MANIFEST.json"%string → entry_matches m key name raw)).
Proof.
  unfold verify_backup, read_archive. intros Hv. apply mbind_Ok_inv in Hv as (es & σ1 & Hes & Hv).
  apply mbind_Ok_inv in Hes as (bs & σ2 & [Hbs Hs]%fs_read_Ok & Hes). unfold mret, M_ret in Hes. simplify_eq/=.
  apply mbind_Ok_inv in Hv as (m & σ3 & [Hm ->]%liftR_Ok & Hv).
  apply mbind_Ok_inv in Hv as (key & σ4 & Hk & Hv). apply mbind_Ok_inv in Hv as (rs & σ5 & Hrs & Hv).
  unfold mret, M_ret in Hv. simplify_eq/=. exists bs, m, key. split_and!; [done|done|done|].
  unfold report_is_ok. cbn. rewrite andb_true_iff, Nat.eqb_eq.
  pose proof (verify_key_state _ _ _ _ _ _ Hk) as Hfs.
  destruct (bool_decide (is_Some key) || negb (bm_encrypted m)) eqn:Hcheck.
  - apply mbind_Ok_inv in Hrs as (es & σ6 & Hes & Hrs). apply mbind_Ok_inv in Hes as (bs' & σ7 & [Hbs' _]%fs_read_Ok & Hes).
    unfold mret, M_ret in Hes. simplify_eq/=. apply liftR_Ok in Hrs as [Hrs ->]. rewrite Hfs in Hbs'.
    rewrite Hbs in Hbs'. simplify_eq. rewrite (verify_entries_ok _ _ _ _ Hrs).
    apply orb_true_iff in Hcheck. rewrite bool_decide_eq_true, negb_true_iff in Hcheck. naive_solver.
  - unfold mret, M_ret in Hrs. simplify_eq/=. apply orb_false_iff in Hcheck as [Hn%bool_decide_eq_false He%negb_false_iff].
    split; [intros [? _]|intros [? _]]; (split; [done|]); [|done]. intros [?|?]; [done|congruence].
Qed.

(** ** Missing files, ambiguous manifests *)

(** An archive that lost every file but its manifest still passes
    verification: no entry is there to fail, and the files of the manifest are
    counted without being looked for. *)
Theorem verify_passes_emptied (d : Place) (c : string) (fs : Fs) (bs j : bytes) (m : BackupManifest) :
  dir_place fs d → fs !! (d ++ [c]) = Some (NFile bs) → short (d ++ [c]) →
  tar_parse bs = [Some ("MANIFEST.json"%string, j)] → utf8_valid j = true → manifest_from_json j = Some m →
  manifest_verify m = true →
  reaches (verify_backup cwd (place_path (d ++ [c])) None) fs
    (λ r _, report_is_ok r = true ∧ vr_total_files r = size (bm_files m)).
Proof.
  intros Hd Hf Hs Ht Hu Hj Hv. assert (Hread : ∀ Q : _ → Fs → Prop, Q [Some ("MANIFEST.json"%string, j)] fs →
    reaches (read_archive cwd (place_path (d ++ [c]))) fs Q).
  { intros Q HQ. unfold read_archive. apply reaches_bind. eapply reaches_read; [done|done|done|]. apply reaches_ret. by rewrite Ht. }
  unfold verify_backup. apply reaches_bind, Hread, reaches_bind.
  eapply reaches_liftR; [cbn [find_manifest]; by rewrite bool_decide_true, Hu, Hj|].
  apply reaches_bind. replace (verify_key _ _ _ None) with (mret (M:=M Fs BackupError) (None : option bytes)) by (by destruct (bm_encrypted m)).
  apply reaches_ret, reaches_bind.
  apply (reaches_mono _ _ (λ rs s, rs = [])); [|intros rs s ->; apply reaches_ret; split; [unfold report_is_ok; cbn; by rewrite Hv|done]].
  destruct (bm_encrypted m); [by apply reaches_ret|]. cbn. apply reaches_bind, Hread.
  eapply reaches_liftR; [cbn; by rewrite bool_decide_true|done].
Qed.

(** The hash of a manifest does not determine its files: paths and hashes
    are hashed one after the other without separators, so a list of two files
    has the same hash as a list of one file with a longer name. *)
Theorem manifest_hash_ambiguous (h1 h2 : bytes) :
  let files : gmap string bytes := {[ "wal/a"%string := h1; "wal/b"%string := h2 ]} in
  ∃ files', files' ≠ files ∧ compute_manifest_hash files' = compute_manifest_hash files.
Proof.
  intros files. set (name := ("wal/a" +:+ String.string_of_list_byte h1 +:+ "wal/b")%string).
  exists {[ name := h2 ]}. split.
  - intros He. apply (f_equal size) in He. unfold files in He. rewrite map_size_singleton in He.
    rewrite map_size_insert_None in He by done. by rewrite map_size_singleton in He.
  - unfold compute_manifest_hash. do 2 f_equal. unfold manifest_input, sorted_files.
    rewrite dom_singleton_L, elements_singleton.
    transitivity (str_bytes name ++ h2).
    { cbn. rewrite lookup_singleton_eq. cbn. by rewrite app_nil_r. }
    unfold name. rewrite !str_bytes_app, str_bytes_of.
    transitivity (concat (map (λ e : string * bytes, str_bytes e.1 ++ e.2) [("wal/a"%string, h1); ("wal/b"%string, h2)])).
    { cbn. by rewrite app_nil_r, <- app_assoc. }
    reflexivity.
Qed.

(** ** Entries that leave the target *)

Definition escape_fs (bs : bytes) : Fs := {[ ["srv"%string] := NDir; ["srv"; "a.tar"]%string := NFile bs ]}.
Definition escape_name : string := "a/../../evil/x".

(** C32: the guard of a restore can be passed.  An entry whose name goes up from
    a directory that does not exist yet resolves to nothing, so it is not
    refused; its directories are then created, and it is written outside the
    target. *)
Theorem restore_escapes (bs j data : bytes) (m : BackupManifest) :
  tar_parse bs = [Some ("MANIFEST.json"%string, j); Some (escape_name, data)] → utf8_valid j = true →
  manifest_from_json j = Some m → manifest_verify m = true → bm_encrypted m = false → bm_files m = ∅ →
  reaches (restore_backup cwd (components "/srv/a.tar") (components "/srv/target") false) (escape_fs bs)
    (λ _ fs', fs' !! ["srv"; "evil"; "x"]%string = Some (NFile data) ∧ node_at fs' ["srv"; "target"]%string = Some NDir).
Proof.
  intros Ht Hu Hj Hv He Hf. set (es := tar_parse bs) in Ht.
  assert (Hread : ∀ Q : _ → Fs → Prop, Q es (escape_fs bs) →
    reaches (read_archive cwd (components "/srv/a.tar")) (escape_fs bs) Q).
  { intros Q HQ. unfold read_archive. apply reaches_bind. change (components "/srv/a.tar") with (place_path (["srv"%string] ++ ["a.tar"%string])).
    eapply (reaches_read cwd BkIo (escape_fs bs) ["srv"%string] "a.tar"%string bs); [|done|by apply Nat.leb_le|by apply reaches_ret].
    apply (dir_place_snoc _ [] "srv"%string). split; [apply dir_place_nil|done]. }
  unfold restore_backup, restore_backup_inner. apply reaches_bind, reaches_exists.
  replace (path_exists _ _ _) with false by (by vm_compute). cbn [andb].
  apply reaches_bind, Hread, reaches_bind. rewrite Ht.
  eapply reaches_liftR; [cbn [find_manifest]; by rewrite bool_decide_true, Hu, Hj|]. rewrite Hv, He. cbn [negb].
  unfold restore_key. apply reaches_bind, reaches_ret, reaches_bind, Hread. rewrite Ht.
  intros [clock rng i] Hi. cbn in Hi. subst i. rewrite Hf. clear - H. eexists _, _, _. split; [vm_compute; reflexivity|by vm_compute].
Qed.
End limits.
