(* ===== verification/BackupRoundtrip.v ===== *)
(** * A backup restores to the same files

    For a data directory without symbolic links, given by its canonical path,
    and a fresh target directory: creating an encrypted backup and restoring
    it succeeds, and the files under the target are exactly the files under
    the directories that are backed up and the public key. *)

From stdpp Require Import base gmap list strings option fin_maps pretty sorting.
From Stdlib Require Import ZArith Lia Strings.Ascii Strings.Byte.
From S2P Require Import Prelude Bytes Jsonl Crypto WalRecord Page AuditTrail Fs Backup BackupSafety.

(** ** More about places *)

Lemma place_path_snoc (d : Place) (c : string) : place_path (d ++ [c]) = place_path d ++ [Normal c].
Proof. unfold place_path. by rewrite map_app. Qed.

Lemma join_place (d ns : Place) : path_join (place_path d) (map Normal ns) = place_path (d ++ ns).
Proof. rewrite path_join_normals by done. unfold place_path. by rewrite map_app. Qed.

Lemma node_at_snoc (fs : Fs) (d : Place) (c : string) : node_at fs (d ++ [c]) = fs !! (d ++ [c]).
Proof. unfold node_at. destruct (d ++ [c]) eqn:He; [by destruct d|done]. Qed.

Lemma node_at_cons (fs : Fs) (p : Place) : p ≠ [] → node_at fs p = fs !! p.
Proof. by destruct p. Qed.

Lemma dir_place_insert (fs : Fs) (p x : Place) n : dir_place fs p → ¬ x `prefix_of` p → dir_place (<[x := n]> fs) p.
Proof.
  intros Hp Hx y Hy. specialize (Hp y Hy). destruct y as [|a y]; [done|]. cbn in *.
  rewrite lookup_insert_ne; [done|]. by intros ->.
Qed.

Lemma dir_place_prefix (fs : Fs) (p x : Place) : dir_place fs p → x `prefix_of` p → dir_place fs x.
Proof. intros Hp Hx y Hy. apply Hp. by etrans. Qed.

Lemma resolve_nolink (fs : Fs) create links at_ ns x :
  (∀ y, y ≠ [] → y `prefix_of` ns → ∀ t, fs !! (at_ ++ y) ≠ Some (NLink t)) →
  resolve fs create links at_ (map Normal ns) = Some x → x = at_ ++ ns.
Proof.
  revert at_. induction ns as [|n ns IH]; intros at_ Hl; rewrite resolve_eq; cbn [map].
  { intros [= <-]. by rewrite app_nil_r. }
  replace (at_ ++ n :: ns) with ((at_ ++ [n]) ++ ns) by (by rewrite <- app_assoc).
  destruct (fs !! (at_ ++ [n])) as [[bs| |t]|] eqn:Hn.
  - case_bool_decide as Hm; [|done]. intros [= <-]. destruct ns; [by rewrite app_nil_r|done].
  - apply IH. intros y _ Hy t. rewrite <- app_assoc. by apply Hl; [|apply prefix_cons].
  - by destruct (Hl [n] ltac:(done) ltac:(by apply prefix_cons, prefix_nil) t).
  - case_bool_decide as Hm; [|by rewrite andb_false_r]. destruct create; [|done]. intros [= <-].
    destruct ns; [by rewrite app_nil_r|done].
Qed.

Lemma canonicalize_nolink (cwd : Place) (fs : Fs) (p x : Place) :
  (∀ y, y ≠ [] → y `prefix_of` p → ∀ t, fs !! y ≠ Some (NLink t)) → canonicalize cwd fs (place_path p) = Some x → x = p.
Proof.
  intros Hl (_ & _ & Hr)%canonicalize_inv. unfold place_path in Hr. rewrite resolve_eq in Hr.
  by eapply (resolve_nolink fs false MAX_LINKS []) in Hr.
Qed.

Lemma reaches_try_canonicalize (cwd : Place) {E F} (e : E) (fs : Fs) (p : Path) (Q : Result E Place → Fs → Prop) :
  Q (ok_or (canonicalize cwd fs p) e) fs → reaches (E:=F) (attempt (fs_canonicalize cwd p e)) fs Q.
Proof.
  intros HQ W HW. unfold attempt, fs_canonicalize, mbind, M_bind. rewrite io_quiet by done.
  unfold gets, liftR. cbn. by eexists _, W, fs.
Qed.

(** ** Names in an archive *)

Lemma string_app_assoc s t u : (s +:+ t) +:+ u = s +:+ (t +:+ u).
Proof. induction s as [|c s IH]; [done|]. exact (f_equal (String c) IH). Qed.

Lemma split_slash_enc c : split_slash c = [c] → split_slash (c +:+ ".enc") = [c +:+ ".enc"].
Proof.
  induction c as [|x c IH]; [done|]. change (String x c +:+ ".enc") with (String x (c +:+ ".enc")).
  cbn [split_slash]. case_bool_decide; [by destruct (split_slash c)|].
  destruct (split_slash c) as [|y l] eqn:Hc; [by destruct c; cbn in Hc; repeat case_match|].
  intros [= -> ->]. by rewrite (IH eq_refl).
Qed.

Lemma plain_name_enc c : plain_name c → plain_name (c +:+ ".enc").
Proof.
  intros [Hc Hs]. split; [|by apply split_slash_enc]. unfold component in *.
  destruct c as [|x [|y [|z c]]]; [done|..]; rewrite !bool_decide_false; naive_solver.
Qed.

Lemma join_slash_snoc (ns : Place) c : ns ≠ [] → join_slash (ns ++ [c]) = join_slash ns +:+ "/" +:+ c.
Proof.
  induction ns as [|n ns IH]; [done|]. intros _. destruct ns as [|n' ns]; [done|].
  change (join_slash ((n :: n' :: ns) ++ [c])) with (n +:+ "/" +:+ join_slash ((n' :: ns) ++ [c])).
  rewrite IH by done. change (join_slash (n :: n' :: ns)) with (n +:+ "/" +:+ join_slash (n' :: ns)).
  by rewrite !string_app_assoc.
Qed.

Lemma join_slash_enc (ns : Place) : ns ≠ [] → Forall plain_name ns →
  ∃ ns', ns' ≠ [] ∧ Forall plain_name ns' ∧ join_slash ns +:+ ".enc" = join_slash ns'.
Proof.
  destruct ns as [|c ns _] using rev_ind; [done|]. intros _ [Hns [Hc _]%Forall_cons]%Forall_app.
  exists (ns ++ [c +:+ ".enc"]). split_and!; [by destruct ns|apply Forall_app; split; [done|]; by apply Forall_singleton, plain_name_enc|].
  destruct ns as [|n ns]; [done|]. rewrite !join_slash_snoc by done. by rewrite !string_app_assoc.
Qed.

Lemma join_slash_inj (a b : Place) : Forall plain_name a → Forall plain_name b → join_slash a = join_slash b → a = b.
Proof.
  intros Ha Hb He. apply (f_equal components) in He. rewrite !components_join in He by done.
  clear Ha Hb. revert b He. induction a as [|x a IH]; intros [|y b] [=]; [done|]. subst. f_equal. by apply IH.
Qed.

Lemma string_length_app s t : String.length (s +:+ t) = (String.length s + String.length t)%nat.
Proof. induction s as [|c s IH]; [done|]. exact (f_equal S IH). Qed.

Lemma substring_prefix s t : String.substring 0 (String.length s) (s +:+ t) = s.
Proof. induction s as [|c s IH]; [by destruct t|]. exact (f_equal (String c) IH). Qed.

Lemma substring_suffix s t : String.substring (String.length s) (String.length t) (s +:+ t) = t.
Proof.
  induction s as [|c s IH]; [|done]. cbn [String.length]. change (EmptyString +:+ t) with t.
  induction t as [|c t IH]; [done|]. exact (f_equal (String c) IH).
Qed.

Lemma strip_enc_app r : strip_enc (r +:+ ".enc") = Some r.
Proof.
  unfold strip_enc. rewrite string_length_app. change (String.length ".enc") with 4%nat.
  replace (String.length r + 4 - 4)%nat with (String.length r) by lia.
  pose proof (substring_suffix r ".enc") as Hs. change (String.length ".enc") with 4%nat in Hs.
  rewrite Hs, substring_prefix, bool_decide_true by done.
  destruct (Nat.leb_spec 4 (String.length r + 4)); [done|lia].
Qed.

(** ** A tree of directories and files *)

Record plain_tree (root : Place) (fs : Fs) : Prop := {
  pt_root : dir_place fs root;
  pt_short : short root;
  pt_node : ∀ ns c n, fs !! (root ++ ns ++ [c]) = Some n →
    dir_place fs (root ++ ns) ∧ (∀ t, n ≠ NLink t) ∧ plain_name c ∧ short (root ++ ns ++ [c])
}.

Section tree.
Context (root : Place) (fs : Fs) (Hpt : plain_tree root fs).

Lemma tree_short d : root `prefix_of` d → dir_place fs d → short d.
Proof.
  intros [ns ->] Hd. destruct ns as [|c ns _] using rev_ind; [rewrite app_nil_r; apply Hpt|].
  rewrite app_assoc in Hd. apply dir_place_snoc in Hd as [_ Hc]. rewrite <- app_assoc in Hc. by apply (pt_node _ _ Hpt) in Hc as (_&_&_&?).
Qed.

Lemma tree_real ns c n : fs !! (root ++ ns ++ [c]) = Some n → real_place fs (root ++ ns ++ [c]).
Proof.
  intros Hc. destruct (pt_node _ _ Hpt _ _ _ Hc) as (Hd & Hl & _ & _). rewrite app_assoc in *.
  destruct n as [bs| |t]; [right; by exists (root ++ ns), c, bs|left; by apply dir_place_snoc|by destruct (Hl t)].
Qed.

Lemma tree_plain ns n : fs !! (root ++ ns) = Some n → Forall plain_name ns.
Proof.
  revert n. induction ns as [|c ns IH] using rev_ind; intros n Hn; [constructor|].
  destruct (pt_node _ _ Hpt _ _ _ Hn) as (Hd & _ & Hc & _). apply Forall_app. split; [|by apply Forall_singleton].
  destruct ns as [|x ns _] using rev_ind; [constructor|].
  eapply (IH NDir). rewrite app_assoc in Hd |- *. by apply dir_place_snoc in Hd as [_ ?].
Qed.

Lemma tree_dir ns c n : fs !! (root ++ ns ++ [c]) = Some n → dir_place fs (root ++ ns).
Proof. intros Hn. by apply (pt_node _ _ Hpt) in Hn as (?&_). Qed.

(** Nothing is below a file. *)
Lemma tree_leaf d x ns bs n :
  root `prefix_of` d → d ≠ [] → fs !! d = Some (NFile bs) → fs !! (d ++ x :: ns) = Some n → False.
Proof.
  intros [rs ->] Hne Hd Hn. destruct (exists_last (l:=x :: ns)) as (ns' & c & He); [done|]. rewrite He in Hn.
  rewrite <- !app_assoc, (app_assoc rs) in Hn. apply tree_dir in Hn.
  specialize (Hn (root ++ rs)). rewrite node_at_cons in Hn by done.
  rewrite Hn in Hd; [done|]. rewrite app_assoc. by apply prefix_app_r.
Qed.
End tree.

(** Writing a file elsewhere. *)
Lemma plain_tree_insert root fs q bs :
  plain_tree root fs → ¬ root `prefix_of` q → ¬ q `prefix_of` root → plain_tree root (<[q := NFile bs]> fs).
Proof.
  intros Hpt Hq Hq'.
  assert (Hins : ∀ ns, dir_place fs (root ++ ns) → dir_place (<[q := NFile bs]> fs) (root ++ ns)).
  { intros ns Hd. apply dir_place_insert; [done|]. intros Hp.
    destruct (prefix_weak_total q root (root ++ ns)) as [?|?]; [done|by apply prefix_app_r|done..]. }
  split; [|apply Hpt|].
  - pose proof (Hins []) as Hi. rewrite app_nil_r in Hi. apply Hi, Hpt.
  - intros ns c n Hn. rewrite lookup_insert_ne in Hn by (intros ->; by destruct Hq; exists (ns ++ [c])).
    destruct (pt_node _ _ Hpt _ _ _ Hn) as (Hd & ? & ? & ?). by eauto.
Qed.

Section archive.
Context `{Blake3} `{Hex} `{WalExt} `{FsExt} `{BackupExt} (cwd : Place).

(** *** The walk finds the files *)

Definition files_below (fs : Fs) (d : Place) (l : list Place) : Prop :=
  ∀ p, p ∈ l ↔ ∃ ns bs, p = d ++ ns ∧ ns ≠ [] ∧ fs !! p = Some (NFile bs).

Lemma walk_names_plain root fs d names (rec : Path → M Fs BackupError (list Place)) :
  plain_tree root fs → root `prefix_of` d → dir_place fs d → (∀ n, n ∈ names → is_Some (fs !! (d ++ [n]))) →
  (∀ n, fs !! (d ++ [n]) = Some NDir → reaches (rec (place_path (d ++ [n]))) fs (λ l s, s = fs ∧ files_below fs (d ++ [n]) l)) →
  reaches (walk_names cwd rec (place_path d) root names) fs
    (λ l s, s = fs ∧ ∀ p, p ∈ l ↔ ∃ n ns bs, n ∈ names ∧ p = d ++ n :: ns ∧ fs !! p = Some (NFile bs)).
Proof.
  intros Hpt [rs ->] Hd Hn Hrec. induction names as [|n names IH]; cbn [walk_names].
  { apply reaches_ret. split; [done|]. intros p. rewrite elem_of_nil. split; [done|]. by intros (?&?&?&?%elem_of_nil&_). }
  destruct (Hn n) as [node Hnode]; [by left|]. rewrite <- app_assoc in Hnode.
  pose proof (tree_real _ _ Hpt _ _ _ Hnode) as Hr. destruct (pt_node _ _ Hpt _ _ _ Hnode) as (_ & Hl & _ & Hs).
  rewrite app_assoc in *. apply reaches_bind, reaches_io, reaches_bind.
  rewrite path_join_normal, <- place_path_snoc by done. apply reaches_attempt, reaches_canonicalize; [done|done|].
  replace (path_starts_with _ _) with true; cycle 1.
  { symmetry. apply place_path_inside. rewrite <- app_assoc. by apply prefix_app_r. }
  cbn [negb]. apply reaches_bind, reaches_gets, reaches_bind.
  unfold is_dir. rewrite node_of_place by done. rewrite node_at_snoc, Hnode.
  eapply (reaches_mono _ _ (λ l s, s = fs ∧ ∀ p, p ∈ l ↔ ∃ ns bs, p = (root ++ rs) ++ n :: ns ∧ fs !! p = Some (NFile bs))).
  - destruct node as [bs| |t]; [| |by destruct (Hl t)].
    + apply reaches_ret. split; [done|]. intros p. rewrite list_elem_of_singleton. split; [intros ->; by exists [], bs|].
      intros (ns & bs' & -> & Hf). destruct ns as [|x ns]; [done|]. exfalso.
      eapply (tree_leaf _ _ Hpt ((root ++ rs) ++ [n]) x ns bs); [|by destruct (root ++ rs)|done|].
      * rewrite <- app_assoc. by apply prefix_app_r.
      * rewrite <- app_assoc. exact Hf.
    + eapply reaches_mono; [by apply Hrec|]. intros l s [-> Hf]. split; [done|]. intros p. rewrite (Hf p). split.
      * intros (ns & bs & -> & Hne & Hfile). exists ns, bs. split; [by rewrite <- !app_assoc|done].
      * intros (ns & bs & -> & Hfile). exists ns, bs. split_and!; [by rewrite <- !app_assoc| |done].
        intros ->. congruence.
  - intros l s [-> Hf]. apply reaches_bind. eapply reaches_mono; [apply IH|].
    { intros m Hm. apply Hn. by right. }
    intros l' s' [-> Hf']. apply reaches_ret. split; [done|]. intros p. rewrite elem_of_app, Hf, Hf'.
    setoid_rewrite elem_of_cons. naive_solver.
Qed.

Lemma walkdir_plain root fs fuel d :
  plain_tree root fs → root `prefix_of` d → dir_place fs d →
  (0 < fuel)%nat → (PATH_MAX < fuel + path_len (place_path d))%nat →
  reaches (walkdir cwd fuel root (place_path d)) fs (λ l s, s = fs ∧ files_below fs d l).
Proof.
  intros Hpt. revert d. induction fuel as [|fuel IH]; intros d Hr Hd Hf Hl; [lia|]. cbn [walkdir].
  pose proof (tree_short _ _ Hpt d Hr Hd) as Hs. apply reaches_bind, reaches_read_dir; [done|done|].
  eapply reaches_mono; [apply walk_names_plain; [done|done|done| |]|].
  - intros n. apply read_dir_spec.
  - intros n Hn. assert (Hdn : dir_place fs (d ++ [n])) by (by apply dir_place_snoc).
    assert (Hrn : root `prefix_of` d ++ [n]) by (by apply prefix_app_r).
    pose proof (tree_short _ _ Hpt _ Hrn Hdn) as Hsn. unfold short in Hsn.
    assert (Hlen : (path_len (place_path d) < path_len (place_path (d ++ [n])))%nat)
      by (rewrite place_path_snoc, path_len_app; cbn; lia).
    apply IH; [done|done|lia|lia].
  - intros l s [-> Hf']. split; [done|]. intros p. rewrite Hf'. split.
    + intros (n & ns & bs & _ & -> & Hfile). by exists (n :: ns), bs.
    + intros (ns & bs & -> & Hne & Hfile). destruct ns as [|n ns]; [done|]. exists n, ns, bs. split_and!; [|done|done].
      apply read_dir_spec. destruct ns as [|x ns]; [by eexists|].
      destruct Hr as [rs ->]. destruct (exists_last (l:=x :: ns)) as (ns' & c & He); [done|]. rewrite He in Hfile.
      rewrite <- !app_assoc, (app_comm_cons ns' [c] n), (app_assoc rs) in Hfile. apply (tree_dir _ _ Hpt) in Hfile.
      eapply (dir_place_prefix _ _ ((root ++ rs) ++ [n])) in Hfile; [apply dir_place_snoc in Hfile as [_ Hfile]; by eexists|].
      rewrite <- !app_assoc. apply prefix_app, prefix_app, prefix_cons, prefix_nil.
Qed.

(** *** What has been written to the archive *)

Context (fs : Fs) (root q : Place) (key : bytes).
Hypothesis Hpt : plain_tree root fs.
Hypothesis Hout : ¬ root `prefix_of` q.
Hypothesis Hin : ¬ q `prefix_of` root.
Hypothesis Hseal : ∀ n a m, is_Some (aead_encrypt key n a m).

(** An entry: the components of its name, the plaintext, the ciphertext. *)
Abbreviation entry := (Place * bytes * bytes)%type.

Definition entry_name (e : entry) : string := join_slash e.1.1 +:+ ".enc".
Definition entry_ok (e : entry) : Prop :=
  decrypt key e.2 (str_bytes (join_slash e.1.1)) = Some e.1.2 ∧ e.1.1 ≠ [] ∧ fs !! (root ++ e.1.1) = Some (NFile e.1.2).
Definition archive_bytes (es : list entry) : bytes := concat (map (λ e, tar_entry (entry_name e) e.2) es).
Definition files_of (es : list entry) (files : gmap string bytes) : Prop :=
  ∀ rel h, files !! rel = Some h ↔ ∃ e, e ∈ es ∧ rel = join_slash e.1.1 ∧ h = file_digest e.1.2.
Definition arch (es : list entry) (files : gmap string bytes) (s : Fs) : Prop :=
  s = <[q := NFile (archive_bytes es)]> fs ∧ Forall entry_ok es ∧ files_of es files.
Definition covers (es : list entry) (P : Place → Prop) : Prop := ∀ ns, (∃ bs ct, (ns, bs, ct) ∈ es) ↔ P ns.

Lemma archive_bytes_snoc es e : archive_bytes (es ++ [e]) = archive_bytes es ++ tar_entry (entry_name e) e.2.
Proof. unfold archive_bytes. rewrite map_app, concat_app. cbn. by rewrite app_nil_r. Qed.

Lemma entry_ok_plain e : entry_ok e → Forall plain_name e.1.1.
Proof. intros (_ & _ & Hf). by eapply tree_plain. Qed.

Lemma entry_name_stored e : entry_ok e → tar_name (entry_name e) = Some (entry_name e).
Proof.
  intros He. destruct (join_slash_enc e.1.1) as (ns' & Hne & Hp & Heq); [apply He|by apply entry_ok_plain|].
  unfold entry_name. rewrite Heq. by apply tar_plain.
Qed.

Lemma archive_file_plain es files s ns bs :
  arch es files s → ns ≠ [] → fs !! (root ++ ns) = Some (NFile bs) →
  reaches (archive_file q (Some key) (join_slash ns) bs files) s
    (λ files' s', ∃ ct, arch (es ++ [(ns, bs, ct)]) files' s').
Proof.
  intros (-> & Hes & Hf) Hne Hbs. unfold archive_file. apply reaches_bind, reaches_bind. unfold bk_encrypt.
  apply reaches_bind, reaches_rand. intros r.
  destruct (Hseal (le_bytes 12 r) (str_bytes (join_slash ns)) bs) as [c Hc].
  assert (He : encrypt key (le_bytes 12 r) bs (str_bytes (join_slash ns)) = Some (le_bytes 12 r ++ c))
    by (unfold encrypt; by rewrite Hc).
  rewrite He. eapply reaches_liftR; [done|]. apply reaches_ret, reaches_bind. cbn [fst snd].
  set (ct := le_bytes 12 r ++ c) in *.
  assert (Hok : entry_ok (ns, bs, ct)).
  { split_and!; [|done|done]. eapply decrypt_encrypt_page; [|exact He]. apply le_bytes_length. }
  unfold write_archive_entry. change (join_slash ns +:+ ".enc") with (entry_name (ns, bs, ct)).
  rewrite entry_name_stored by done. eapply reaches_append; [apply lookup_insert_eq|].
  apply reaches_ret. exists ct. split_and!.
  - by rewrite insert_insert_eq, archive_bytes_snoc.
  - apply Forall_app. split; [done|]. by apply Forall_singleton.
  - intros rel h. pose proof (Hf rel h) as Hfr. rewrite lookup_insert_Some, Hfr. setoid_rewrite elem_of_app. setoid_rewrite list_elem_of_singleton. split.
    + intros [[<- <-]|[_ (e & ? & ? & ?)]]; [exists (ns, bs, ct)|exists e]; eauto.
    + intros (e & [Hein| ->] & -> & ->); [|by left].
      destruct (decide (join_slash ns = join_slash e.1.1)) as [Heq|]; [|right; by eauto]. left. split; [done|].
      rewrite Forall_forall in Hes. specialize (Hes e Hein).
      apply join_slash_inj in Heq; [|by eapply tree_plain|by apply entry_ok_plain].
      destruct Hes as (_ & _ & Hfe). rewrite <- Heq, Hbs in Hfe. congruence.
Qed.

Lemma archive_relative_plain d ns : ns ≠ [] →
  archive_relative (place_path (root ++ [d])) d (root ++ d :: ns) = join_slash (d :: ns).
Proof.
  intros Hne. unfold archive_relative.
  assert (Hs : strip_path (place_path (root ++ [d])) (place_path (root ++ d :: ns)) = Some (map Normal ns)).
  { apply strip_path_spec. unfold place_path. rewrite !map_app. cbn. by rewrite <- app_assoc. }
  rewrite Hs. cbn [default]. destruct ns as [|n ns]; [done|]. unfold path_text. cbn [map id].
  rewrite map_map. cbn. by rewrite map_id.
Qed.

Lemma arch_tree es files s : arch es files s → plain_tree root s.
Proof. intros (-> & _). by apply plain_tree_insert. Qed.

Lemma arch_lookup es files s p : arch es files s → root `prefix_of` p → s !! p = fs !! p.
Proof. intros (-> & _) Hp. apply lookup_insert_ne. intros ->. done. Qed.

Definition is_file (ns : Place) : Prop := ∃ bs, fs !! (root ++ ns) = Some (NFile bs).

Lemma archive_files_plain es files s d l :
  arch es files s → Forall (λ p, ∃ ns, p = root ++ d :: ns ∧ ns ≠ [] ∧ is_file (d :: ns)) l →
  reaches (archive_files cwd q (Some key) (place_path (root ++ [d])) d l files) s
    (λ files' s', ∃ new, arch (es ++ new) files' s' ∧ covers new (λ ns, root ++ ns ∈ l)).
Proof.
  intros Ha Hl. revert es files s Ha. induction Hl as [|p l (ns & -> & Hne & bs & Hbs) _ IH]; intros es files s Ha; cbn [archive_files].
  { apply reaches_ret. exists []. rewrite app_nil_r. split; [done|]. intros ns. split; [intros (?&?&?%elem_of_nil); done|by intros ?%elem_of_nil]. }
  apply reaches_bind. destruct (exists_last (l:=d :: ns)) as (ns' & c & He); [done|].
  pose proof (arch_tree _ _ _ Ha) as Hps.
  assert (Hbs' : s !! (root ++ ns' ++ [c]) = Some (NFile bs)) by (rewrite (arch_lookup _ _ _ _ Ha), <- He; [done|by apply prefix_app_r]).
  destruct (pt_node _ _ Hps _ _ _ Hbs') as (Hd & _ & _ & Hs).
  replace (root ++ d :: ns) with ((root ++ ns') ++ [c]) at 1 by (by rewrite <- app_assoc, He).
  rewrite app_assoc in Hs, Hbs'. eapply reaches_read; [done|done|done|].
  rewrite archive_relative_plain by done. apply reaches_bind.
  eapply reaches_mono; [by apply (archive_file_plain es files s (d :: ns) bs)|]. intros files' s' (ct & Ha').
  eapply reaches_mono; [by apply (IH _ _ _ Ha')|]. intros files2 s2 (new & Ha2 & Hc).
  exists ((d :: ns, bs, ct) :: new). split; [by rewrite <- app_assoc in Ha2|]. intros x. rewrite elem_of_cons, <- (Hc x).
  setoid_rewrite elem_of_cons. split.
  - intros (bs' & ct' & [[= -> -> ->]|?]); eauto.
  - intros [Heq|(bs' & ct' & ?)]; [|by eauto]. apply app_inv_head in Heq as ->. by eauto.
Qed.

Definition is_dir_or_absent (d : string) : Prop := fs !! (root ++ [d]) = None ∨ fs !! (root ++ [d]) = Some NDir.

Lemma archive_dir_plain es files s d :
  arch es files s → fs !! (root ++ [d]) = Some NDir →
  reaches (archive_dir_safe cwd (place_path (root ++ [d])) d root (Some key) q files) s
    (λ files' s', ∃ new, arch (es ++ new) files' s' ∧ covers new (λ ns, ∃ ns', ns = d :: ns' ∧ ns' ≠ [] ∧ is_file ns)).
Proof.
  intros Ha Hd. pose proof (arch_tree _ _ _ Ha) as Hps. unfold archive_dir_safe, walkdir_safe. apply reaches_bind.
  assert (Hr : root `prefix_of` root ++ [d]) by (by apply prefix_app_r).
  assert (Hdp : dir_place s (root ++ [d])).
  { apply dir_place_snoc. split; [apply Hps|]. by rewrite (arch_lookup _ _ _ _ Ha). }
  eapply reaches_mono; [apply walkdir_plain; [exact Hps|done|done|lia|lia]|]. intros l s' [-> Hl].
  assert (Hl' : ∀ p, p ∈ l ↔ ∃ ns, p = root ++ d :: ns ∧ ns ≠ [] ∧ is_file (d :: ns)).
  { intros p. rewrite (Hl p). split.
    - intros (ns & bs & -> & Hne & Hbs). rewrite <- app_assoc in Hbs |- *. exists ns. split_and!; [done|done|]. exists bs.
      rewrite <- (arch_lookup _ _ _ _ Ha); [done|by apply prefix_app_r].
    - intros (ns & -> & Hne & bs & Hbs). exists ns, bs. rewrite <- app_assoc. split_and!; [done|done|].
      rewrite (arch_lookup _ _ _ _ Ha); [done|by apply prefix_app_r]. }
  eapply reaches_mono; [apply archive_files_plain; [exact Ha|]|].
  - apply Forall_forall. intros p Hp. by apply Hl'.
  - intros files' s' (new & Ha' & Hc). exists new. split; [done|]. intros ns. rewrite (Hc ns), Hl'. split.
    + intros (ns' & Heq%app_inv_head & ? & ?). subst. by exists ns'.
    + intros (ns' & -> & ? & ?). by exists ns'.
Qed.

Lemma covers_app new new' (P P' : Place → Prop) : covers new P → covers new' P' → covers (new ++ new') (λ ns, P ns ∨ P' ns).
Proof.
  intros Hc Hc' ns. rewrite <- (Hc ns), <- (Hc' ns). setoid_rewrite elem_of_app. naive_solver.
Qed.

Lemma covers_nil (P : Place → Prop) : (∀ ns, ¬ P ns) → covers [] P.
Proof. intros HP ns. split; [by intros (?&?&?%elem_of_nil)|intros ?; by destruct (HP ns)]. Qed.

Lemma archive_dirs_plain es files s dirs :
  arch es files s → Forall is_dir_or_absent dirs →
  reaches (archive_dirs cwd (place_path root) root (Some key) q dirs files) s
    (λ files' s', ∃ new, arch (es ++ new) files' s' ∧
       covers new (λ ns, ∃ d ns', d ∈ dirs ∧ ns = d :: ns' ∧ ns' ≠ [] ∧ is_file ns)).
Proof.
  intros Ha Hd. revert es files s Ha. induction Hd as [|d dirs Hd _ IH]; intros es files s Ha; cbn [archive_dirs].
  { apply reaches_ret. exists []. rewrite app_nil_r. split; [done|]. apply covers_nil. by intros ns (?&?&?%elem_of_nil&_). }
  pose proof (arch_tree _ _ _ Ha) as Hps. rewrite path_join_normal, <- place_path_snoc by done.
  assert (Hsd : s !! (root ++ [d]) = fs !! (root ++ [d])) by (apply (arch_lookup _ _ _ _ Ha); by apply prefix_app_r).
  apply reaches_bind, reaches_exists. destruct Hd as [Hd|Hd]; rewrite Hd in Hsd.
  - rewrite path_exists_absent by (done || apply Hps). apply reaches_bind, reaches_ret.
    eapply reaches_mono; [by apply IH|]. intros files' s' (new & Ha' & Hc). exists new. split; [done|].
    intros ns. rewrite (Hc ns). setoid_rewrite elem_of_cons. split; [naive_solver|].
    intros (d' & ns' & [-> |?] & -> & Hne & bs & Hbs); [|exists d', ns'; split_and!; try done; by exists bs]. exfalso.
    destruct (exists_last (l:=ns')) as (ns2 & c & ->); [done|]. rewrite app_comm_cons in Hbs.
    apply (tree_dir _ _ Hpt) in Hbs. eapply (dir_place_prefix _ _ (root ++ [d])) in Hbs.
    + apply dir_place_snoc in Hbs as [_ ?]. congruence.
    + apply prefix_app, prefix_cons, prefix_nil.
  - assert (Hdp : dir_place s (root ++ [d])) by (apply dir_place_snoc; split; [apply Hps|done]).
    rewrite path_exists_place; [|by left|eapply tree_short; [exact Hps|by apply prefix_app_r|done]].
    apply reaches_bind. eapply reaches_mono; [by apply archive_dir_plain|]. intros files' s' (new & Ha' & Hc).
    eapply reaches_mono; [by apply (IH _ _ _ Ha')|]. intros files2 s2 (new2 & Ha2 & Hc2). exists (new ++ new2).
    rewrite app_assoc. split; [done|]. intros ns. rewrite (covers_app _ _ _ _ Hc Hc2 ns). setoid_rewrite elem_of_cons. naive_solver.
Qed.

Lemma archive_key_plain es files s name :
  arch es files s → fs !! (root ++ ["keys"%string]) = Some NDir → fs !! (root ++ ["keys"%string; name]) ≠ Some NDir →
  reaches (archive_keys cwd (place_path (root ++ ["keys"%string])) root (Some key) q [name] files) s
    (λ files' s', ∃ new, arch (es ++ new) files' s' ∧ covers new (λ ns, ns = ["keys"%string; name] ∧ is_file ns)).
Proof.
  intros Ha Hk Hn. pose proof (arch_tree _ _ _ Ha) as Hps. cbn [archive_keys].
  assert (Hin' : root `prefix_of` (root ++ ["keys"%string]) ++ [name]) by (rewrite <- app_assoc; by apply prefix_app_r).
  assert (Hdp : dir_place s (root ++ ["keys"%string])).
  { apply dir_place_snoc. split; [apply Hps|]. rewrite (arch_lookup _ _ _ _ Ha); [done|by apply prefix_app_r]. }
  rewrite path_join_normal, <- place_path_snoc by done. apply reaches_bind, reaches_exists.
  pose proof (arch_lookup _ _ _ _ Ha Hin') as Hsn. rewrite <- app_assoc in Hsn at 2. cbn [app] in Hsn.
  destruct (fs !! (root ++ ["keys"%string; name])) as [n|] eqn:Hnode; cycle 1.
  { rewrite path_exists_absent by done. apply reaches_bind, reaches_ret, reaches_ret. exists []. rewrite app_nil_r.
    split; [done|]. apply covers_nil. intros ns [-> [bs Hbs]]. congruence. }
  pose proof (pt_node _ _ Hpt ["keys"%string] name n Hnode) as (_ & Hl & _ & Hs).
  destruct n as [bs| |t]; [|done|by destruct (Hl t)]. rewrite app_assoc in Hs.
  assert (Hr : real_place s ((root ++ ["keys"%string]) ++ [name])) by (by eapply file_real).
  rewrite path_exists_place by done. cbn [negb]. apply reaches_bind, reaches_bind, reaches_attempt, reaches_canonicalize; [done|done|].
  replace (path_starts_with _ _) with true by (symmetry; by apply place_path_inside). cbn [negb].
  apply reaches_bind. eapply reaches_read; [done|done|done|].
  change ("keys/" +:+ name) with (join_slash ["keys"%string; name]).
  eapply reaches_mono; [apply (archive_file_plain es files s ["keys"%string; name] bs Ha); done|].
  intros files' s' (ct & Ha'). apply reaches_ret. exists [(["keys"%string; name], bs, ct)]. split; [done|].
  intros ns. setoid_rewrite list_elem_of_singleton. split.
  - intros (bs' & ct' & [= -> -> ->]). split; [done|]. by exists bs.
  - intros [-> _]. by eauto.
Qed.

(** The files a backup holds. *)
Definition backed_up (ns : Place) : Prop :=
  (∃ d ns', d ∈ backup_dirs ∧ ns = d :: ns' ∧ ns' ≠ []) ∨ ns = ["keys"; "db_signing_pubkey.hex"]%string.

Hypothesis Hdirs : Forall is_dir_or_absent ("keys"%string :: backup_dirs).
Hypothesis Hkey : fs !! (root ++ ["keys"; "db_signing_pubkey.hex"]%string) ≠ Some NDir.
Hypothesis Hjson : ∀ m, is_Some (manifest_to_json m).

Lemma archive_all es files s :
  arch es files s →
  reaches (e ← fs_exists cwd (place_path (root ++ ["keys"%string])) BkIo;
           (if (e : bool) then archive_keys cwd (place_path (root ++ ["keys"%string])) root (Some key) q keys_whitelist files
            else mret files)) s
    (λ files' s', ∃ new, arch (es ++ new) files' s' ∧ covers new (λ ns, ns = ["keys"; "db_signing_pubkey.hex"]%string ∧ is_file ns)).
Proof.
  intros Ha. pose proof (arch_tree _ _ _ Ha) as Hps. apply Forall_cons in Hdirs as [Hk _].
  assert (Hsk : s !! (root ++ ["keys"%string]) = fs !! (root ++ ["keys"%string])) by (apply (arch_lookup _ _ _ _ Ha); by apply prefix_app_r).
  apply reaches_bind, reaches_exists. destruct Hk as [Hk|Hk]; rewrite Hk in Hsk.
  - rewrite path_exists_absent by (done || apply Hps). apply reaches_ret. exists []. rewrite app_nil_r. split; [done|].
    apply covers_nil. intros ns [-> [bs Hbs]]. apply (tree_dir _ _ Hpt ["keys"%string] _ _) in Hbs.
    apply dir_place_snoc in Hbs as [_ ?]. congruence.
  - assert (Hdp : dir_place s (root ++ ["keys"%string])) by (apply dir_place_snoc; split; [apply Hps|done]).
    rewrite path_exists_place; [|by left|eapply tree_short; [exact Hps|by apply prefix_app_r|done]].
    by apply archive_key_plain.
Qed.

Lemma manifest_name_stored : tar_name "MANIFEST.json" = Some "MANIFEST.json"%string.
Proof. apply (tar_plain ["MANIFEST.json"%string]); [done|]. by apply Forall_singleton. Qed.

Lemma write_archive_plain ts rfc :
  reaches (write_archive cwd (place_path root) root (Some key) q ts rfc) (<[q := NFile []]> fs)
    (λ m s, ∃ es j, s = <[q := NFile (archive_bytes es ++ tar_entry "MANIFEST.json" j)]> fs ∧
       Forall entry_ok es ∧ files_of es (bm_files m) ∧ covers es (λ ns, backed_up ns ∧ is_file ns) ∧
       manifest_to_json m = Some j ∧ manifest_verify m = true ∧ bm_encrypted m = true).
Proof.
  assert (Ha0 : arch [] ∅ (<[q := NFile []]> fs)).
  { split_and!; [done|constructor|]. intros rel h. rewrite lookup_empty. split; [done|]. by intros (?&?%elem_of_nil&_). }
  unfold write_archive. apply reaches_bind. eapply reaches_mono.
  { eapply archive_dirs_plain; [exact Ha0|]. by apply Forall_cons in Hdirs as [_ ?]. }
  intros files1 s1 (es1 & Ha1 & Hc1). cbn [app] in Ha1. rewrite path_join_normal, <- place_path_snoc by done.
  pose proof (archive_all es1 files1 s1 Ha1) as Hall. intros W HW. destruct (Hall W HW) as (files2 & W2 & s2 & Hr & HW2 & es2 & Ha2 & Hc2).
  apply mbind_Ok_inv in Hr as (b & σb & Hb & Hr). rewrite (mbind_eq _ _ _ _ _ Hb), (mbind_eq _ _ _ _ _ Hr).
  clear Hb Hr. revert W2 HW2. destruct Ha2 as (-> & Hok & Hf).
  set (m := mkManifest _ _ _ _ _ _). destruct (Hjson m) as [j Hj].
  match goal with |- ∀ W2, _ → ∃ a W' s', ?c (W2, ?s) = _ ∧ _ ∧ @?Q a s' => change (reaches c s Q) end.
  apply reaches_bind. eapply reaches_liftR; [by rewrite Hj|]. unfold write_archive_entry. rewrite manifest_name_stored.
  apply reaches_bind. eapply reaches_append; [apply lookup_insert_eq|]. apply reaches_ret. exists (es1 ++ es2), j.
  split_and!; [by rewrite insert_insert_eq|done|done| |done|by apply bool_decide_true|done].
  intros ns. rewrite (covers_app _ _ _ _ Hc1 Hc2 ns). unfold backed_up. naive_solver.
Qed.
End archive.

(** ** Creating the archive and its sidecar *)

Section create.
Context `{Blake3} `{Hex} `{WalExt} `{FsExt} `{BackupExt} (cwd : Place).
Context (fs : Fs) (root od : Place) (oc : string) (master : bytes).

Abbreviation q := (od ++ [oc]).
Abbreviation side := (od ++ [oc +:+ ".key"]).

(** The archive goes to a place outside the data directory. *)
Record backup_ready : Prop := {
  br_tree : plain_tree root fs;
  br_out : ¬ root `prefix_of` q;
  br_archive : writable fs od oc;
  br_sidecar : writable fs od (oc +:+ ".key");
  br_dirs : Forall (is_dir_or_absent fs root) ("keys"%string :: backup_dirs);
  br_key : fs !! (root ++ ["keys"; "db_signing_pubkey.hex"]%string) ≠ Some NDir
}.

(** The libraries do not fail: keys of 32 bytes, encryption, serialization. *)
Record libraries_ok : Prop := {
  lo_hkdf : ∀ ctx, ∃ k, hkdf_expand master ctx = Some k ∧ length k = 32%nat;
  lo_seal : ∀ k n a m, is_Some (aead_encrypt k n a m);
  lo_manifest : ∀ m, is_Some (manifest_to_json m);
  lo_sidecar : ∀ s, is_Some (sidecar_to_json s)
}.

Hypothesis Hready : backup_ready.
Hypothesis Hlib : libraries_ok.

Lemma side_ne : q ≠ side.
Proof.
  intros [_ He]%app_inj_tail. apply (f_equal String.length) in He. rewrite string_length_app in He. cbn in He. lia.
Qed.

Lemma q_not_prefix (p : Place) : dir_place fs p → ¬ q `prefix_of` p.
Proof.
  intros Hp Hq. specialize (Hp q Hq). rewrite node_at_snoc in Hp.
  destruct (br_archive Hready) as (_ & _ & [?|[bs ?]]); congruence.
Qed.

Lemma sidecar_place : sidecar_path (place_path q) = place_path side.
Proof.
  unfold sidecar_path. rewrite path_file_name_snoc, path_parent_snoc. cbn [default id].
  by rewrite path_join_normal, <- place_path_snoc.
Qed.

Lemma writable_insert s x d c n : writable s d c → ¬ x `prefix_of` d ++ [c] → writable (<[x := n]> s) d c.
Proof.
  intros (Hd & Hs & Hc) Hx. split_and!; [|done|].
  - apply dir_place_insert; [done|]. intros Hp. by apply Hx, prefix_app_r.
  - rewrite lookup_insert_ne by (by intros ->). done.
Qed.

Definition sidecar_opens (key : bytes) (sj : bytes) : Prop :=
  ∃ wrap ct ctx, hkdf_expand master (str_bytes WRAP_CONTEXT) = Some wrap ∧
    sidecar_from_json sj = Some (mkSidecar (hex_enc ct) ctx) ∧ utf8_valid sj = true ∧
    decrypt wrap ct (str_bytes WRAP_CONTEXT) = Some key ∧ length key = 32%nat.

Definition created (m : BackupManifest) (s : Fs) : Prop :=
  ∃ key es j sj,
    s = <[side := NFile sj]> (<[q := NFile ((archive_bytes es ++ tar_entry "MANIFEST.json" j) ++ tar_trailer)]> fs) ∧
    sidecar_opens key sj ∧ Forall (entry_ok fs root key) es ∧ files_of es (bm_files m) ∧
    covers es (λ ns, backed_up ns ∧ is_file fs root ns) ∧
    manifest_to_json m = Some j ∧ manifest_verify m = true ∧ bm_encrypted m = true.

Lemma write_sidecar_plain key ts s :
  length key = 32%nat → writable s od (oc +:+ ".key") →
  reaches (write_key_sidecar cwd (place_path q) key master ts) s
    (λ _ s', ∃ sj, s' = <[side := NFile sj]> s ∧ sidecar_opens key sj).
Proof.
  intros Hk Hw. destruct (lo_hkdf Hlib (str_bytes WRAP_CONTEXT)) as (wrap & Hwrap & _).
  unfold write_key_sidecar. apply reaches_bind. eapply reaches_liftR; [by rewrite Hwrap|].
  apply reaches_bind. unfold bk_encrypt. apply reaches_bind, reaches_rand. intros r.
  destruct (lo_seal Hlib wrap (le_bytes 12 r) (str_bytes WRAP_CONTEXT) key) as [c Hc].
  assert (He : encrypt wrap (le_bytes 12 r) key (str_bytes WRAP_CONTEXT) = Some (le_bytes 12 r ++ c))
    by (unfold encrypt; by rewrite Hc).
  rewrite He. eapply reaches_liftR; [done|]. set (ct := le_bytes 12 r ++ c) in *.
  destruct (lo_sidecar Hlib (mkSidecar (hex_enc ct) (backup_context ts))) as [sj Hsj].
  apply reaches_bind. eapply reaches_liftR; [by rewrite Hsj|]. rewrite sidecar_place.
  apply reaches_bind, reaches_write; [done|]. unfold set_mode_600. apply reaches_bind, reaches_attempt, reaches_io, reaches_ret.
  apply sidecar_json_ok in Hsj as [Hsj Hu]. exists sj. split; [done|].
  exists wrap, ct, (backup_context ts). split_and!; try done. eapply decrypt_encrypt_page; [|exact He]. apply le_bytes_length.
Qed.

Lemma create_plain :
  reaches (create_archive cwd (place_path root) (place_path q) (Some master)) fs created.
Proof.
  pose proof (br_tree Hready) as Hpt. unfold create_archive. apply reaches_bind, reaches_now. intros t.
  apply reaches_bind, reaches_now. intros t'.
  destruct (lo_hkdf Hlib (str_bytes (backup_context (t / 1000000000)))) as (key & Hkey & Hlen).
  apply reaches_bind, reaches_bind. eapply reaches_liftR; [unfold derive_backup_key; by rewrite Hkey|].
  apply reaches_ret, reaches_bind, reaches_canonicalize; [left; apply Hpt|apply Hpt|].
  apply reaches_bind, reaches_create; [apply Hready|]. apply reaches_bind, reaches_attempt.
  assert (Hq : ¬ q `prefix_of` root) by (apply q_not_prefix, Hpt).
  eapply reaches_mono.
  { apply (write_archive_plain cwd fs root q key); try apply Hready; try apply Hlib; done. }
  intros m s (es & j & -> & Hok & Hf & Hc & Hj & Hv & He). apply reaches_bind.
  eapply reaches_append; [apply lookup_insert_eq|]. rewrite insert_insert_eq. apply reaches_bind.
  eapply reaches_mono; [apply (write_sidecar_plain key); [done|]|].
  - apply writable_insert; [apply Hready|]. intros [He'|Hp]%prefix_snoc_inv; [by apply side_ne|by apply prefix_snoc_not in Hp].
  - intros [] s (sj & -> & Hside). apply reaches_ret. by exists key, es, j, sj.
Qed.
End create.

(** ** Restoring into a fresh directory *)

Section restore.
Context `{Blake3} `{Hex} `{WalExt} `{FsExt} `{BackupExt} (cwd : Place).
Context (fs : Fs) (root : Place) (Hpt : plain_tree root fs).
Context (s0 : Fs) (t : Place) (key : bytes).
Hypothesis Ht0 : t ≠ [].
Hypothesis Hfresh : ∀ ns, s0 !! (t ++ ns) = None.
Hypothesis Htlen : ∀ ns bs, fs !! (root ++ ns) = Some (NFile bs) → backed_up ns → short (t ++ ns).

(** What is under the target after some entries: their files, and the
    directories that hold them. *)
Record restored (done_ : list (Place * bytes)) (s : Fs) : Prop := {
  rs_else : ∀ p, ¬ t `prefix_of` p → s !! p = s0 !! p;
  rs_dir : dir_place s t;
  rs_file : ∀ ns bs, (ns, bs) ∈ done_ → s !! (t ++ ns) = Some (NFile bs) ∧ dir_place s (t ++ removelast ns);
  rs_only : ∀ ns n, ns ≠ [] → s !! (t ++ ns) = Some n →
    (n = NDir ∧ ∃ x ns' bs, (ns ++ x :: ns', bs) ∈ done_) ∨ (∃ bs, n = NFile bs ∧ (ns, bs) ∈ done_)
}.

Definition source_ok (done_ : list (Place * bytes)) : Prop :=
  ∀ ns bs, (ns, bs) ∈ done_ → ns ≠ [] ∧ fs !! (root ++ ns) = Some (NFile bs).

Lemma source_dir done_ ns x ns' bs : source_ok done_ → (ns ++ x :: ns', bs) ∈ done_ → ns ≠ [] → fs !! (root ++ ns) = Some NDir.
Proof.
  intros Hs [_ Hf]%Hs Hne. destruct (exists_last (l:=x :: ns')) as (l & c & He); [done|]. rewrite He, (app_assoc ns) in Hf.
  apply (tree_dir _ _ Hpt) in Hf. specialize (Hf (root ++ ns)). rewrite node_at_cons in Hf.
  - apply Hf. rewrite app_assoc. by apply prefix_app_r.
  - destruct root; [|done]. by destruct ns.
Qed.

Lemma prefix_split (x a b : Place) : x `prefix_of` a ++ b → x `prefix_of` a ∨ ∃ y, x = a ++ y ∧ y ≠ [] ∧ y `prefix_of` b.
Proof.
  intros Hx. destruct (prefix_weak_total x a (a ++ b)) as [?|[y ->]]; [done|by apply prefix_app_r|by left|].
  destruct y as [|c y]; [left; by rewrite app_nil_r|]. right. exists (c :: y). split_and!; [done|done|]. by apply prefix_app_inv in Hx.
Qed.

(** The way to an entry is free. *)
Lemma restored_way done_ s ns0 c bs x :
  restored done_ s → source_ok done_ → fs !! (root ++ ns0 ++ [c]) = Some (NFile bs) →
  x ≠ [] → x `prefix_of` t ++ ns0 → s !! x = Some NDir ∨ s !! x = None.
Proof.
  intros Hr Hs Hf Hx Hp. apply prefix_split in Hp as [Hp|(y & -> & Hy & Hp)].
  - left. pose proof (rs_dir _ _ Hr x Hp) as Hd. by rewrite node_at_cons in Hd.
  - destruct (s !! (t ++ y)) as [n|] eqn:Hn; [|by right]. left.
    apply (rs_only _ _ Hr) in Hn as [[-> _]|(bs' & -> & Hin)]; [done| |done]. exfalso.
    apply Hs in Hin as [_ Hin]. apply (tree_dir _ _ Hpt) in Hf. specialize (Hf (root ++ y)).
    rewrite node_at_cons in Hf by (destruct root; [by destruct y|done]). rewrite Hf in Hin; [done|]. by apply prefix_app.
Qed.

Lemma restored_slot done_ s ns0 c bs :
  restored done_ s → source_ok done_ → fs !! (root ++ ns0 ++ [c]) = Some (NFile bs) →
  s !! (t ++ ns0 ++ [c]) = None ∨ ∃ bs', s !! (t ++ ns0 ++ [c]) = Some (NFile bs').
Proof.
  intros Hr Hs Hf. destruct (s !! (t ++ ns0 ++ [c])) as [n|] eqn:Hn; [|by left]. right.
  assert (Hne : ns0 ++ [c] ≠ []) by (by destruct ns0).
  apply (rs_only _ _ Hr) in Hn as [[_ (x & ns' & bs' & Hin)]|(bs' & -> & _)]; [|by eauto|done].
  eapply source_dir in Hin; [|done|done]. congruence.
Qed.

Lemma add_dirs_mono p s s' y : add_dirs p s s' → dir_place s y → dir_place s' y.
Proof.
  intros Ha Hy z Hz. specialize (Hy z Hz). destruct z as [|a z]; [done|]. cbn in *. rewrite Ha. by case_decide.
Qed.

(** Another entry leaves the files that are there. *)
Lemma restored_keep done_ s s' ns0 c bs ns bs' :
  restored done_ s → source_ok done_ → fs !! (root ++ ns0 ++ [c]) = Some (NFile bs) →
  add_dirs (t ++ ns0) s s' → (ns, bs') ∈ done_ →
  <[t ++ ns0 ++ [c] := NFile bs]> s' !! (t ++ ns) = Some (NFile bs') ∧
  dir_place (<[t ++ ns0 ++ [c] := NFile bs]> s') (t ++ removelast ns).
Proof.
  intros Hr Hs Hf Ha Hin. destruct (rs_file _ _ Hr ns bs' Hin) as [Hn Hdn]. destruct (Hs _ _ Hin) as [Hne Hfn]. split.
  - destruct (decide (ns = ns0 ++ [c])) as [->|Hneq]; [rewrite lookup_insert_eq; congruence|].
    rewrite lookup_insert_ne by (by intros ?%app_inv_head). rewrite Ha, decide_False; [done|]. intros [Hx Hp].
    destruct (restored_way _ _ _ _ _ _ Hr Hs Hf Hx Hp); congruence.
  - apply dir_place_insert; [by eapply add_dirs_mono|]. intros Hp%prefix_app_inv.
    assert (Hfn' : fs !! (root ++ removelast ns ++ [List.last ns EmptyString]) = Some (NFile bs')) by (by rewrite <- app_removelast_last).
    apply (tree_dir _ _ Hpt) in Hfn'. specialize (Hfn' (root ++ ns0 ++ [c])).
    rewrite node_at_cons in Hfn' by (destruct root; [by destruct ns0|done]). rewrite Hfn' in Hf; [done|]. by apply prefix_app.
Qed.

Lemma restored_step done_ s s' ns0 c bs :
  restored done_ s → source_ok done_ → fs !! (root ++ ns0 ++ [c]) = Some (NFile bs) →
  add_dirs (t ++ ns0) s s' → restored ((ns0 ++ [c], bs) :: done_) (<[t ++ ns0 ++ [c] := NFile bs]> s').
Proof.
  intros Hr Hs Hf Ha. pose proof (add_dirs_dir _ _ _ Ha) as Hd.
  assert (Hnew : ∀ y, dir_place s' y → y `prefix_of` t ++ ns0 → dir_place (<[t ++ ns0 ++ [c] := NFile bs]> s') y).
  { intros y Hy Hp. apply dir_place_insert; [done|]. rewrite app_assoc. intros Hq.
    by eapply prefix_snoc_not, (transitivity Hq). }
  split.
  - intros p Hp. rewrite lookup_insert_ne by (intros <-; apply Hp; by apply prefix_app_r).
    rewrite <- (rs_else _ _ Hr p Hp), Ha. case_decide as Hc; [|done]. destruct Hc as [Hne Hpre].
    apply prefix_split in Hpre as [Hpre|(y & -> & _)]; [|by destruct Hp; apply prefix_app_r].
    pose proof (rs_dir _ _ Hr p Hpre) as Hpd. by rewrite node_at_cons in Hpd.
  - apply Hnew; [|by apply prefix_app_r]. eapply add_dirs_mono; [done|apply Hr].
  - intros ns bs' [[= -> ->]|Hin]%elem_of_cons.
    + rewrite lookup_insert_eq, removelast_last. split; [done|]. by apply Hnew.
    + by eapply restored_keep.
  - intros ns n Hne Hn. destruct (decide (ns = ns0 ++ [c])) as [->|Hneq].
    { rewrite lookup_insert_eq in Hn. simplify_eq. right. exists bs. split; [done|by left]. }
    rewrite lookup_insert_ne in Hn by (by intros ?%app_inv_head). rewrite Ha in Hn. case_decide as Hc.
    + left. simplify_eq. split; [done|]. destruct Hc as [_ [y Hy]%prefix_app_inv].
      destruct y as [|x y]; [rewrite app_nil_r in Hy; subst; exists c, [], bs; by left|].
      subst ns0. exists x, (y ++ [c]), bs. rewrite <- app_assoc. by left.
    + apply (rs_only _ _ Hr) in Hn as [[-> (x & ns' & bs' & ?)]|(bs' & -> & ?)]; [left|right|done].
      * split; [done|]. exists x, ns', bs'. by right.
      * exists bs'. split; [done|by right].
Qed.

(** *** One entry *)

Lemma dest_place ns : Forall plain_name ns → path_join (place_path t) (components (join_slash ns)) = place_path (t ++ ns).
Proof. intros Hp. by rewrite components_join, join_place. Qed.

Lemma restored_nolink done_ s ns : restored done_ s → ∀ y, y ≠ [] → y `prefix_of` t ++ ns → ∀ l, s !! y ≠ Some (NLink l).
Proof.
  intros Hr y Hne Hy l Hl. apply prefix_split in Hy as [Hy|(z & -> & Hz & _)].
  - pose proof (rs_dir _ _ Hr y Hy) as Hd. rewrite node_at_cons in Hd by done. congruence.
  - apply (rs_only _ _ Hr) in Hl as [[? _]|(? & ? & _)]; done.
Qed.

(** The guard lets the entry pass. *)
Lemma normalised_inside done_ s ns0 c :
  restored done_ s →
  reaches (normalised cwd (place_path (t ++ ns0 ++ [c]))) s
    (λ n s', s' = s ∧ match n with Some p => negb (path_starts_with p (place_path t)) | None => false end = false).
Proof.
  intros Hr. unfold normalised. apply reaches_bind, reaches_try_canonicalize.
  destruct (canonicalize cwd s _) as [x|] eqn:Hc; cbn [ok_or].
  - apply canonicalize_nolink in Hc as ->; [|by eapply restored_nolink]. apply reaches_ret. split; [done|].
    apply negb_false_iff, place_path_inside. by apply prefix_app_r.
  - rewrite app_assoc, path_parent_snoc, path_file_name_snoc. apply reaches_bind, reaches_try_canonicalize.
    destruct (canonicalize cwd s (place_path (t ++ ns0))) as [x|] eqn:Hc'; cbn [ok_or]; apply reaches_ret; (split; [done|]); [|done].
    apply canonicalize_nolink in Hc' as ->; [|by eapply restored_nolink].
    rewrite path_join_normal, <- place_path_snoc by done. apply negb_false_iff, place_path_inside.
    rewrite <- app_assoc. by apply prefix_app_r.
Qed.

Lemma restore_entry_plain done_ s e :
  restored done_ s → source_ok done_ → entry_ok fs root key e → backed_up e.1.1 →
  reaches (restore_entry cwd (place_path t) t true (Some key) (entry_name e) e.2) s
    (λ _, restored ((e.1.1, e.1.2) :: done_)).
Proof.
  intros Hr Hs (Hdec & Hne & Hf) Hb. destruct e as [[ns bs] ct]. cbn [fst snd] in *. unfold restore_entry, entry_name. cbn [fst snd].
  rewrite bool_decide_false.
  2: { intros He. pose proof (strip_enc_app (join_slash ns)) as Hse. rewrite He in Hse. done. }
  unfold logical_name. rewrite strip_enc_app. cbn [default id].
  pose proof (Htlen ns bs Hf Hb) as Hshort.
  rewrite dest_place by (by eapply tree_plain). destruct ns as [|c ns0 _] using rev_ind; [done|].
  apply reaches_bind. eapply reaches_mono; [by eapply normalised_inside|]. intros n s' [-> Hg]. cbv zeta. rewrite Hg.
  rewrite app_assoc in Hshort |- *. rewrite path_parent_snoc. apply reaches_bind.
  apply reaches_create_dir_all; [by eapply short_snoc|intros x Hx Hp; by eapply restored_way|].
  intros s' Ha. apply reaches_bind. eapply reaches_liftR; [by rewrite Hdec|].
  pose proof (restored_slot _ _ _ _ _ Hr Hs Hf) as Hslot.
  apply reaches_write; [|rewrite <- app_assoc; by eapply restored_step].
  split_and!; [by eapply add_dirs_dir|done|]. rewrite Ha, decide_False by (intros [_ Hp]; by apply prefix_snoc_not in Hp).
  by rewrite <- app_assoc.
Qed.

Lemma restore_entries_plain done_ s es j :
  restored done_ s → source_ok done_ → Forall (entry_ok fs root key) es → Forall (λ e, backed_up e.1.1) es →
  reaches (restore_entries cwd (place_path t) t true (Some key)
             (map (λ e, Some (entry_name e, e.2)) es ++ [Some ("MANIFEST.json"%string, j)])) s
    (λ _ s', ∃ all, restored all s' ∧ source_ok all ∧ ∀ x, x ∈ all ↔ x ∈ done_ ∨ x ∈ map fst es).
Proof.
  intros Hr Hs Hes Hbs. revert done_ s Hr Hs. induction Hes as [|e es He _ IH]; intros done_ s Hr Hs; cbn [restore_entries map app].
  { apply reaches_bind. unfold restore_entry. rewrite bool_decide_true by done. apply reaches_ret, reaches_ret.
    exists done_. split_and!; [done|done|]. intros x. rewrite elem_of_nil. naive_solver. }
  apply Forall_cons in Hbs as [Hb Hbs]. apply reaches_bind. eapply reaches_mono; [by eapply restore_entry_plain|].
  intros [] s' Hr'. eapply reaches_mono; [apply (IH Hbs _ _ Hr')|].
  - intros ns bs [[= -> ->]|?]%elem_of_cons; [by destruct He|by apply Hs].
  - intros _ s2 (all & ? & ? & Hall). exists all. split_and!; [done|done|]. intros x. rewrite Hall, !elem_of_cons.
    destruct e as [[ns bs] ct]. naive_solver.
Qed.

(** *** The third pass *)

Lemma verify_restored_plain all s files :
  restored all s → source_ok all → (∀ ns bs, (ns, bs) ∈ all → short (t ++ ns)) →
  Forall (λ f, ∃ ns bs, (ns, bs) ∈ all ∧ f.1 = join_slash ns ∧ f.2 = file_digest bs) files →
  reaches (verify_restored cwd (place_path t) files) s (λ l s', l = [] ∧ s' = s).
Proof.
  intros Hr Hs Hlen Hf. induction Hf as [|[rel h] files (ns & bs & Hin & Hrel & Hh) _ IH]; cbn [verify_restored]; [by apply reaches_ret|].
  cbn [fst snd] in *. subst rel h. destruct (Hs _ _ Hin) as [Hne Hsrc]. rewrite dest_place by (by eapply tree_plain).
  destruct (rs_file _ _ Hr _ _ Hin) as [Hn Hd]. pose proof (Hlen _ _ Hin) as Hsh.
  destruct ns as [|c ns _] using rev_ind; [done|]. rewrite removelast_last in Hd. rewrite app_assoc in *.
  apply reaches_bind, reaches_exists. rewrite path_exists_place by (done || by eapply file_real). cbn [negb].
  apply reaches_bind, reaches_bind. eapply reaches_read; [done..|]. rewrite bool_decide_true by done.
  apply reaches_ret, reaches_bind. eapply reaches_mono; [exact IH|]. intros l s' [-> ->]. by apply reaches_ret.
Qed.
End restore.

(** ** The round trip *)

Section roundtrip.
Context `{Blake3} `{Hex} `{WalExt} `{FsExt} `{BackupExt} (cwd : Place).
Context (fs : Fs) (root od td : Place) (oc tc : string) (master : bytes).

Abbreviation q := (od ++ [oc]).
Abbreviation side := (od ++ [oc +:+ ".key"]).
Abbreviation t := (td ++ [tc]).

(** The target is absent, in a directory, and no path under it is too long. *)
Record target_ready : Prop := {
  tr_parent : dir_place fs td;
  tr_short : short t;
  tr_fresh : ∀ ns, fs !! (t ++ ns) = None;
  tr_ne : t ≠ q ∧ t ≠ side;
  tr_len : ∀ ns bs, fs !! (root ++ ns) = Some (NFile bs) → backed_up ns → short (t ++ ns)
}.

Hypothesis Hready : backup_ready fs root od oc.
Hypothesis Hlib : libraries_ok master.
Hypothesis Htarget : target_ready.

Lemma target_apart c ns : t ≠ od ++ [c] → t ++ ns ≠ od ++ [c].
Proof.
  intros Hne He. assert (Hp : t `prefix_of` od ++ [c]) by (exists ns; done).
  apply prefix_snoc_inv in Hp as [?|Hp]; [done|]. destruct (br_archive _ _ _ _ Hready) as (Hd & _).
  specialize (Hd t Hp). rewrite node_at_snoc in Hd. pose proof (tr_fresh Htarget []) as Hf. rewrite app_nil_r in Hf. congruence.
Qed.

Lemma writable_not_prefix d c p : writable fs d c → dir_place fs p → ¬ d ++ [c] `prefix_of` p.
Proof.
  intros (_ & _ & Hc) Hp Hx. specialize (Hp _ Hx). rewrite node_at_snoc in Hp. destruct Hc as [?|[bs ?]]; congruence.
Qed.

Section after.
Context (x y : bytes).
Let s0 : Fs := <[side := NFile y]> (<[q := NFile x]> fs).

Lemma after_dir p : dir_place fs p → dir_place s0 p.
Proof.
  intros Hp. apply dir_place_insert; [apply dir_place_insert; [done|]|]; by (eapply writable_not_prefix; [apply Hready|]).
Qed.

Lemma after_fresh ns : s0 !! (t ++ ns) = None.
Proof.
  destruct (tr_ne Htarget) as [Hq Hs]. unfold s0. rewrite !lookup_insert_ne by (apply not_eq_sym; by apply target_apart).
  apply Htarget.
Qed.

Lemma after_archive : s0 !! q = Some (NFile x).
Proof. unfold s0. rewrite lookup_insert_ne by (apply not_eq_sym, side_ne). apply lookup_insert_eq. Qed.

(** The empty target. *)
Lemma restored_empty s : add_dirs t s0 s → restored s0 t [] s.
Proof.
  intros Ha. split.
  - intros p Hp. rewrite Ha. case_decide as Hc; [|done]. destruct Hc as [Hne [->|Hpre]%prefix_snoc_inv]; [done|].
    pose proof (after_dir td (tr_parent Htarget) p Hpre) as Hd. by rewrite node_at_cons in Hd.
  - by eapply add_dirs_dir.
  - by intros ns bs ?%elem_of_nil.
  - intros ns n Hne. rewrite Ha, decide_False, after_fresh; [done|]. intros [_ Hp].
    destruct ns as [|c ns]; [done|]. apply prefix_length in Hp. rewrite !length_app in Hp. cbn in Hp. lia.
Qed.

Lemma read_archive_after es j (Q : _ → Fs → Prop) :
  x = (archive_bytes es ++ tar_entry "MANIFEST.json" j) ++ tar_trailer →
  Forall (λ e, tar_name (entry_name e) = Some (entry_name e)) es →
  Q (map (λ e, Some (entry_name e, e.2)) es ++ [Some ("MANIFEST.json"%string, j)]) s0 →
  reaches (read_archive cwd (place_path q)) s0 Q.
Proof.
  intros Hx Hes HQ. destruct (br_archive _ _ _ _ Hready) as (Hd & Hs & _). unfold read_archive. apply reaches_bind.
  eapply reaches_read; [by apply after_dir|apply after_archive|done|]. apply reaches_ret.
  pose proof (tar_read (map (λ e : Place * bytes * bytes, (entry_name e, e.2)) es ++ [("MANIFEST.json"%string, j)])) as Hr.
  rewrite !map_app, !map_map, concat_app in Hr. cbn [map concat fst snd] in Hr. rewrite app_nil_r in Hr. rewrite Hx.
  unfold archive_bytes. rewrite Hr; clear Hr.
  - rewrite manifest_name_stored. cbn [default]. replace (map _ es) with (map (λ e, Some (entry_name e, e.2)) es); [done|].
    apply map_ext_Forall. eapply Forall_impl; [exact Hes|]. intros e ->. done.
  - apply Forall_app. split; [|apply Forall_singleton; cbn; rewrite manifest_name_stored; by eauto].
    apply Forall_map. eapply Forall_impl; [exact Hes|]. cbn. intros e ->. eauto.
Qed.
End after.

Lemma find_manifest_last (es : list (Place * bytes * bytes)) j m :
  manifest_to_json m = Some j →
  find_manifest (map (λ e, Some (entry_name e, e.2)) es ++ [Some ("MANIFEST.json"%string, j)]) = Ok m.
Proof.
  intros Hj. apply manifest_json_ok in Hj as [Hj Hu]. induction es as [|e es IH]; cbn [map app find_manifest].
  - by rewrite bool_decide_true, Hu, Hj.
  - rewrite bool_decide_false; [done|]. intros He. pose proof (strip_enc_app (join_slash e.1.1)) as Hs.
    unfold entry_name in He. by rewrite He in Hs.
Qed.

Lemma read_sidecar_after x y key (Q : bytes → Fs → Prop) :
  sidecar_opens master key y → Q key (<[side := NFile y]> (<[q := NFile x]> fs)) →
  reaches (read_key_sidecar cwd (place_path q) master) (<[side := NFile y]> (<[q := NFile x]> fs)) Q.
Proof.
  intros (wrap & ct & ctx & Hw & Hy & Hu & Hdec & Hlen) HQ. destruct (br_sidecar _ _ _ _ Hready) as (Hd & Hs & _).
  unfold read_key_sidecar. rewrite sidecar_place. apply reaches_bind.
  eapply reaches_read; [by apply after_dir|apply lookup_insert_eq|done|]. rewrite Hu. cbn [negb].
  apply reaches_bind. eapply reaches_liftR; [by rewrite Hy|]. apply reaches_bind. cbn [wrapped_key_hex].
  eapply reaches_liftR; [by rewrite hex_roundtrip|]. apply reaches_bind. eapply reaches_liftR; [by rewrite Hw|].
  apply reaches_bind. eapply reaches_liftR; [by rewrite Hdec|]. rewrite Hlen. cbn. by apply reaches_ret.
Qed.

(** The entries of the archive are the files that are backed up. *)
Lemma archive_members es key (all : list (Place * bytes)) :
  Forall (entry_ok fs root key) es → covers es (λ ns, backed_up ns ∧ is_file fs root ns) →
  (∀ x, x ∈ all ↔ x ∈ [] ∨ x ∈ map fst es) →
  ∀ ns bs, (ns, bs) ∈ all ↔ backed_up ns ∧ fs !! (root ++ ns) = Some (NFile bs).
Proof.
  intros Hes Hc Hall ns bs. rewrite Hall, elem_of_nil. rewrite Forall_forall in Hes. split.
  - intros [[]|([[ns' bs'] ct] & [= -> ->] & Hin)%list_elem_of_fmap]. split; [apply (Hc ns'); by eauto|].
    by destruct (Hes _ Hin) as (_ & _ & ?).
  - intros [Hb Hfile]. right. destruct (proj2 (Hc ns)) as (bs' & ct & Hin); [split; [done|by exists bs]|].
    destruct (Hes _ Hin) as (_ & _ & Hf'). cbn in Hf'. rewrite Hfile in Hf'. simplify_eq.
    apply list_elem_of_fmap. by exists (ns, bs', ct).
Qed.

Lemma restore_plain m s :
  created fs root od oc master m s →
  reaches (restore_backup_inner cwd (place_path q) (place_path t) false (Some master)) s
    (λ m' s', m' = m ∧ ∀ ns bs, s' !! (t ++ ns) = Some (NFile bs) ↔ backed_up ns ∧ fs !! (root ++ ns) = Some (NFile bs)).
Proof.
  intros (key & es & j & sj & -> & Hside & Hes & Hf & Hc & Hj & Hv & Henc).
  pose proof (br_tree _ _ _ _ Hready) as Hpt. set (x := _ ++ tar_trailer). unfold restore_backup_inner.
  apply reaches_bind, reaches_exists. rewrite path_exists_absent.
  2: by apply after_dir, Htarget. 2: by rewrite <- (app_nil_r t); apply after_fresh.
  cbn [andb]. assert (Hnames : Forall (λ e, tar_name (entry_name e) = Some (entry_name e)) es).
  { eapply Forall_impl; [exact Hes|]. intros e. by apply entry_name_stored. }
  apply reaches_bind. eapply read_archive_after; [done|done|]. apply reaches_bind.
  eapply reaches_liftR; [by apply find_manifest_last|]. rewrite Hv. cbn [negb].
  apply reaches_bind. unfold restore_key. rewrite Henc. apply reaches_bind. eapply reaches_liftR; [done|].
  apply reaches_bind. eapply read_sidecar_after; [done|]. apply reaches_ret, reaches_bind.
  eapply read_archive_after; [done|done|]. apply reaches_bind, reaches_create_dir_all; [apply Htarget| |].
  { intros p Hp [->|Hpre]%prefix_snoc_inv; [right; rewrite <- (app_nil_r t); apply after_fresh|left].
    pose proof (after_dir x sj td (tr_parent Htarget) p Hpre) as Hd. by rewrite node_at_cons in Hd. }
  intros s1 Ha. apply reaches_bind, reaches_canonicalize; [left; by eapply add_dirs_dir|apply Htarget|].
  assert (Hbu : Forall (λ e : Place * bytes * bytes, backed_up e.1.1) es).
  { apply Forall_forall. intros [[ns bs] ct] Hin. cbn. apply (Hc ns). by eauto. }
  apply reaches_bind. eapply reaches_mono.
  { eapply (restore_entries_plain cwd fs root Hpt _ t key (tr_len Htarget) []); [by apply restored_empty|by intros ?? ?%elem_of_nil|done|done]. }
  intros _ s2 (all & Hr & Hs & Hall).
  pose proof (archive_members es key all Hes Hc Hall) as Hmem.
  apply reaches_bind. eapply reaches_mono.
  { eapply (verify_restored_plain cwd fs root Hpt _ t all); [done|done| |].
    - intros ns bs [Hb Hfile]%Hmem. by apply (tr_len Htarget ns bs).
    - apply Forall_forall. intros [rel h] Hin%elem_of_sorted_files. apply Hf in Hin as ([[ns bs] ct] & Hin & -> & ->).
      exists ns, bs. split; [|done]. rewrite Hall. right. apply list_elem_of_fmap. by exists (ns, bs, ct). }
  intros l s3 [-> ->]. apply reaches_ret. split; [done|]. intros ns bs. rewrite <- Hmem. split.
  - destruct ns as [|c ns]; [intros Hd|by intros [[? _]|(bs' & [= ->] & ?)]%(rs_only _ _ _ _ Hr)].
    rewrite app_nil_r in Hd. pose proof (rs_dir _ _ _ _ Hr t) as Hdt. rewrite node_at_snoc in Hdt. rewrite Hdt in Hd; done.
  - intros Hin. by apply (rs_file _ _ _ _ Hr).
Qed.
End roundtrip.

(** C29: an encrypted backup restores.  For a data directory without links given
    by its canonical path, an archive outside it, and a fresh target, creating
    the backup and restoring it with the same master key succeed whenever the
    system calls do, and the files under the target are exactly those of the
    directories that are backed up and the public key, with their contents. *)
Theorem backup_restores `{Blake3} `{Hex} `{WalExt} `{FsExt} `{BackupExt} (cwd : Place)
    (fs : Fs) (root od td : Place) (oc tc : string) (master : bytes) :
  backup_ready fs root od oc → libraries_ok master → target_ready fs root od td oc tc →
  reaches (m ← create_backup_encrypted cwd (place_path root) (place_path (od ++ [oc])) master;
           m' ← restore_backup_encrypted cwd (place_path (od ++ [oc])) (place_path (td ++ [tc])) false master;
           mret (m, m')) fs
    (λ '(m, m') fs', m' = m ∧
       ∀ ns bs, fs' !! ((td ++ [tc]) ++ ns) = Some (NFile bs) ↔ backed_up ns ∧ fs !! (root ++ ns) = Some (NFile bs)).
Proof.
  intros Hready Hlib Htarget. apply reaches_bind. eapply reaches_mono; [by apply create_plain|].
  intros m s Hm. apply reaches_bind. eapply reaches_mono; [by eapply restore_plain|].
  intros m' s' [-> Hf]. by apply reaches_ret.
Qed.
