(* ===== verification/Keys.v ===== *)
(** * Derived keys, signatures and nonces

    [kdf.rs]: child keys of the master key by HKDF-SHA256 under a context
    string.  The contexts of every use in the program, with those of the log
    segments and of backups, are pairwise different, so no two purposes share
    the input of the derivation.  [sign.rs]: signed commits, checked against a
    trusted key; [encrypt.rs]: the nonce of an envelope. *)

From stdpp Require Import base gmap list strings option fin_maps pretty.
From Stdlib Require Import ZArith Lia Strings.Ascii Strings.Byte.
From S2P Require Import Prelude Bytes WalRecord Wal Page Fs Backup.

Inductive KdfError := KdfFailed.

Record DerivedKey := mkDerivedKey { dk_bytes : bytes; dk_context : string }.

Section kdf.
Context `{WalExt}.

Definition derive (master : bytes) (context : string) : Result KdfError DerivedKey :=
  okm ← ok_or (hkdf_expand master (str_bytes context)) KdfFailed; Ok (mkDerivedKey okm context).

Definition table_encrypt_context (table_id : Z) : string := "vgdb/table/" +:+ pretty (Z.to_N table_id) +:+ "/encrypt".
Definition table_sign_context (table_id : Z) : string := "vgdb/table/" +:+ pretty (Z.to_N table_id) +:+ "/sign".
Definition row_context (table_id row_id : Z) : string :=
  "vgdb/table/" +:+ pretty (Z.to_N table_id) +:+ "/row/" +:+ pretty (Z.to_N row_id).
Definition wal_sign_context : string := "vgdb/wal/sign".

Definition table_encrypt_key (master : bytes) (table_id : Z) : Result KdfError DerivedKey := derive master (table_encrypt_context table_id).
Definition table_sign_key (master : bytes) (table_id : Z) : Result KdfError DerivedKey := derive master (table_sign_context table_id).
Definition row_key (master : bytes) (table_id row_id : Z) : Result KdfError DerivedKey := derive master (row_context table_id row_id).
Definition wal_sign_key (master : bytes) : Result KdfError DerivedKey := derive master wal_sign_context.

Definition into_encryption_key (k : DerivedKey) : bytes := dk_bytes k.
Definition into_signing_seed (k : DerivedKey) : bytes := dk_bytes k.
End kdf.

(** ** Signed commits *)

Inductive SignError := InvalidKey | SignatureInvalid.

Record SignedCommit := mkSignedCommit { sc_data : bytes; sc_signature : bytes; sc_public_key : bytes }.

Section signatures.
Context `{Ed25519}.

Definition verifying_key_from_bytes (bs : bytes) : Result SignError bytes :=
  if ed_key_valid bs then Ok bs else Err InvalidKey.
Definition verifying_key_verify (key message signature : bytes) : Result SignError unit :=
  if ed_verify key message signature then Ok tt else Err SignatureInvalid.
Definition SignedCommit_new (data : bytes) (k : SigningKey) : SignedCommit := mkSignedCommit data (ed_sign k data) (ed_public k).
Definition verify_against (c : SignedCommit) (trusted_key : bytes) : Result SignError unit :=
  verifying_key_verify trusted_key (sc_data c) (sc_signature c).

(** The embedded key plays no role in the check. *)
Lemma verify_against_ignores_embedded c pk trusted :
  verify_against (mkSignedCommit (sc_data c) (sc_signature c) pk) trusted = verify_against c trusted.
Proof. done. Qed.

Lemma signed_commit_verifies data k :
  (key ← verifying_key_from_bytes (ed_public k); verify_against (SignedCommit_new data k) key) = Ok tt.
Proof.
  unfold verifying_key_from_bytes. rewrite ed_public_valid. cbn. unfold verify_against, verifying_key_verify. cbn.
  by rewrite ed_correct.
Qed.
End signatures.

Definition extract_nonce (ciphertext : bytes) : option bytes :=
  if (length ciphertext <? 12)%nat then None else Some (take 12 ciphertext).

Lemma extract_nonce_encrypt `{WalExt} key nonce m aad ct :
  length nonce = 12%nat → encrypt key nonce m aad = Some ct → extract_nonce ct = Some nonce.
Proof.
  intros Hn He. pose proof (encrypt_length _ _ _ _ _ Hn He) as Hl. unfold extract_nonce.
  destruct (Nat.ltb_spec (length ct) 12); [lia|]. unfold encrypt in He.
  destruct (aead_encrypt key nonce aad m); cbn in He; [|done]. simplify_eq. by rewrite take_app_length'.
Qed.

(** ** The purposes of derived keys *)

Inductive Purpose :=
  | PTableEncrypt (table_id : Z)
  | PTableSign (table_id : Z)
  | PRow (table_id row_id : Z)
  | PWalSign
  | PSegment (segment_index : Z)
  | PBackup (ts_unix : Z)
  | PBackupWrap.

Definition purpose_context (p : Purpose) : string :=
  match p with
  | PTableEncrypt t => table_encrypt_context t
  | PTableSign t => table_sign_context t
  | PRow t r => row_context t r
  | PWalSign => wal_sign_context
  | PSegment i => segment_context i
  | PBackup ts => backup_context ts
  | PBackupWrap => WRAP_CONTEXT
  end.

(** The numbers are unsigned. *)
Definition purpose_ok (p : Purpose) : Prop :=
  match p with
  | PTableEncrypt t | PTableSign t => 0 ≤ t
  | PRow t r => 0 ≤ t ∧ 0 ≤ r
  | PSegment i => 0 ≤ i
  | PBackup ts => 0 ≤ ts
  | PWalSign | PBackupWrap => True
  end.

(** Decimal digits hold no slash. *)
Lemma split_slash_char c s : c ≠ "/"%char → split_slash s = [s] → split_slash (String c s) = [String c s].
Proof. intros Hc Hs. cbn. rewrite bool_decide_false by done. by rewrite Hs. Qed.

Lemma pretty_go_slash x s : split_slash s = [s] → split_slash (pretty_N_go x s) = [pretty_N_go x s].
Proof.
  revert s. induction (N.lt_wf_0 x) as [x _ IH]; intros s Hs.
  assert (x = 0 ∨ 0 < x)%N as [->|Hx] by lia; [done|]. rewrite pretty_N_go_step by done.
  apply IH; [by apply N.div_lt|]. apply split_slash_char; [|done]. unfold pretty_N_char. by repeat case_match.
Qed.

Lemma pretty_slash (x : N) : split_slash (pretty x) = [pretty x].
Proof. unfold pretty, pretty_N. case_decide; [done|]. by apply pretty_go_slash. Qed.

(** A context is the join of parts without slashes. *)
Definition purpose_parts (p : Purpose) : list string :=
  match p with
  | PTableEncrypt t => ["vgdb"; "table"; pretty (Z.to_N t); "encrypt"]
  | PTableSign t => ["vgdb"; "table"; pretty (Z.to_N t); "sign"]
  | PRow t r => ["vgdb"; "table"; pretty (Z.to_N t); "row"; pretty (Z.to_N r)]
  | PWalSign => ["vgdb"; "wal"; "sign"]
  | PSegment i => ["vgdb"; "wal"; "segment"; pretty (Z.to_N i)]
  | PBackup ts => ["vgdb"; "backup"; pretty (Z.to_N ts)]
  | PBackupWrap => ["vgdb"; "backup-key-wrap"]
  end%string.

Lemma purpose_context_parts p : split_slash (purpose_context p) = purpose_parts p.
Proof.
  assert (He : purpose_context p = join_slash (purpose_parts p)) by (by destruct p).
  rewrite He. apply split_slash_join; [by destruct p|].
  destruct p; cbn [purpose_parts]; repeat (apply Forall_cons; split; [first [apply pretty_slash|done]|]); by apply Forall_nil.
Qed.

(** Keys for different purposes are derived from different inputs: the
    contexts of table, row, log and backup keys never coincide, and each
    context determines the table, row, segment or time it is for. *)
Theorem kdf_contexts_separate (p p' : Purpose) :
  purpose_ok p → purpose_ok p' → str_bytes (purpose_context p) = str_bytes (purpose_context p') → p = p'.
Proof.
  intros Hp Hp' He%str_bytes_inj. apply (f_equal split_slash) in He. rewrite !purpose_context_parts in He.
  destruct p, p'; cbn in *; try discriminate; simplify_eq; f_equal; lia.
Qed.
