(* ===== verification/KeyRotate.v ===== *)
(** * Rotation of the keys in the HSM

    The command of [key_rotation.rs]: it builds the client for the local or the
    remote daemon, opens the audit log, collects the key slots and rotates
    each, recording every rotation.  The state holds the network, the audit
    file and the names in the pages directory. *)

From stdpp Require Import base gmap list strings option fin_maps pretty.
From Stdlib Require Import ZArith Lia Strings.Ascii Strings.Byte.
From S2P Require Import Prelude Bytes Jsonl Crypto AuditTrail SqlPlan Hsm.

Inductive RotateError := RkNoCaCert | RkUnreachable (transport : string) | RkAuditOpen | RkReadPages | RkAudit.

Record RotateArgs := mkRotateArgs {
  ra_socket_path : option string;
  ra_caller_id : string;
  ra_endpoint : option string;
  ra_ca_cert : option string;
  ra_client_cert : option string;
  ra_client_key : option string;
  ra_timeout_ms : Z;
  ra_max_retries : Z
}.

(** The directory [pages] may be absent. *)
Record Rot (N : Type) := mkRot { ro_net : N; ro_file : option bytes; ro_pages : option (list string) }.
Arguments mkRot {_}. Arguments ro_net {_}. Arguments ro_file {_}. Arguments ro_pages {_}.

(** ** The client *)

Definition arg_or_env (env : Env) (arg : option string) (var : string) : option string :=
  match arg with Some v => Some v | None => env var end.

Definition rotate_client (env : Env) (a : RotateArgs) : Result RotateError HsmClient :=
  match ra_endpoint a with
  | Some endpoint =>
      ca_cert ← ok_or (arg_or_env env (ra_ca_cert a) "PYHSM_CA_CERT") RkNoCaCert;
      let cfg := mkRemoteConfig endpoint ca_cert
                   (arg_or_env env (ra_client_cert a) "PYHSM_CLIENT_CERT") (arg_or_env env (ra_client_key a) "PYHSM_CLIENT_KEY")
                   (default (ra_timeout_ms a) (env "PYHSM_TIMEOUT_MS" ≫= parse_u64)) (ra_max_retries a) in
      Ok (HsmClient_remote env cfg (ra_caller_id a))
  | None =>
      Ok (HsmClient_new (default default_pyhsm_address (arg_or_env env (ra_socket_path a) "PYHSM_SOCKET_PATH")) (ra_caller_id a))
  end.

(** ** The key slots *)

(** [split('_').next()] *)
Fixpoint before_underscore (s : string) : string :=
  match s with
  | EmptyString => EmptyString
  | String c s => if bool_decide (c = "_"%char) then EmptyString else String c (before_underscore s)
  end.

Definition table_of_name (name : string) : option Z :=
  id_str ← strip_prefix "table_" name;
  Some (default 0 (parse_unsigned 4294967295 (before_underscore id_str))).

Definition push_new (kid : string) (key_ids : list string) : list string :=
  if bool_decide (kid ∈ key_ids) then key_ids else key_ids ++ [kid].

Fixpoint collect_tables (names : list string) (key_ids : list string) : list string :=
  match names with
  | [] => key_ids
  | name :: names =>
      collect_tables names
        (match table_of_name name with Some t => push_new (table_encrypt_key_id t) key_ids | None => key_ids end)
  end.

Definition fixed_key_ids : list string := [wal_signing_key_id; commit_signing_key_id].
Definition collect_key_ids (pages : option (list string)) : list string :=
  let key_ids := match pages with Some names => collect_tables names fixed_key_ids | None => fixed_key_ids end in
  push_new (table_encrypt_key_id 1) (push_new (table_encrypt_key_id 0) key_ids).

(** ** The rotation *)

Section rotate.
Context `{Blake3} `{Hex} `{AuditExt} `{HsmExt} {N : Type} (net : Network N) (env : Env).

(** A failed rotation is skipped; a failed audit event ends the command. *)
Fixpoint rotate_loop (client : HsmClient) (caller_id : string) (key_ids : list string)
    : M (N * AuditLog) RotateError (list string) :=
  match key_ids with
  | [] => mret []
  | key_id :: key_ids =>
      r ← attempt (E:=RotateError) (zoom fst (λ n s, (n, s.2)) (hsm_rotate_key net client key_id));
      done_ ← match r with
              | Ok _ =>
                  _ ← map_err (λ _, RkAudit) (zoom snd (λ l s, (s.1, l)) (append (KeyRotated key_id caller_id)));
                  mret [key_id]
              | Err _ => mret []
              end;
      rest ← rotate_loop client caller_id key_ids;
      mret (done_ ++ rest)
  end.

(** [read_dir] and its entries. *)
Definition read_pages : M (Rot N) RotateError (option (list string)) :=
  p ← gets ro_pages;
  match p with
  | None => mret None
  | Some names => _ ← io RkReadPages; _ ← forM (λ _, io RkReadPages) names; mret (Some names)
  end.

Definition rotate_keys (a : RotateArgs) : M (Rot N) RotateError (list string) :=
  client ← liftR (rotate_client env a);
  up ← map_err (λ _, RkAudit) (zoom ro_net (λ n s, mkRot n (ro_file s) (ro_pages s)) (is_available net client));
  if negb up then throw (RkUnreachable (description (hc_transport client)))
  else
    log ← map_err (λ _, RkAuditOpen) (zoom ro_file (λ f s, mkRot (ro_net s) f (ro_pages s)) AuditLog_open);
    pages ← read_pages;
    zoom (λ s, (ro_net s, log)) (λ p s, mkRot p.1 (Some (al_file p.2)) (ro_pages s))
      (rotate_loop client (ra_caller_id a) (collect_key_ids pages)).

(** ** What is recorded *)

Lemma append_repr W l k ev W' l' evs :
  append k (W, l) = (Ok ev, (W', l')) → w_io W = [] → log_repr l evs → log_repr l' (evs ++ [ev]) ∧ ae_event ev = k ∧ w_io W' = [].
Proof.
  intros Ha HW Hl. unfold append in Ha. apply mbind_Ok_inv in Ha as (seq & [W1 l1] & Hr & Hw).
  destruct (reserve_repr _ _ _ _ _ _ Hr Hl) as (Hl1 & _ & _ & ->).
  pose proof Hw as Hw'. rewrite write_event_quiet in Hw' by done.
  destruct (write_event_repr _ _ _ _ _ _ _ _ Hw HW Hl1) as [(ev' & [= <-] & ? & _ & ? & _)|[? _]]; [|done].
  split_and!; [done|done|]. destruct (to_json _); simplify_eq. done.
Qed.

Lemma calm_stage {A} ms err (f : N → Stage A * N) : calm (stage ms err f).
Proof. intros W s HW. unfold stage. by destruct (f s). Qed.
#[local] Hint Resolve calm_stage : calm.

Lemma calm_try_remote req cfg ms : calm (try_send_remote net req cfg ms).
Proof.
  unfold try_send_remote. apply calm_bind; [apply calm_liftR|]. intros [host port].
  unfold serialize_remote. solve_calm.
Qed.

Lemma calm_retry_loop req cfg n i last : calm (retry_loop net req cfg n i last).
Proof.
  revert i last. induction n as [|n IH]; intros i last; cbn [retry_loop]; [apply calm_throw|].
  apply calm_bind; [apply calm_attempt, calm_try_remote|]. intros [resp|e]; [apply calm_ret|].
  destruct (_ || _); [apply calm_throw|]. apply calm_bind; [apply calm_modify|]. intros _. apply IH.
Qed.

Lemma calm_send c req : calm (send net c req).
Proof.
  unfold send. destruct (hc_transport c) as [path|addr|cfg].
  - unfold send_unix. apply calm_bind; [apply calm_gets|]. intros e. destruct (negb e); solve_calm.
  - unfold send_tcp. solve_calm.
  - apply calm_retry_loop.
Qed.

Lemma calm_is_available c : calm (is_available net c).
Proof.
  unfold is_available. apply calm_bind; [apply calm_gets|]. intros b. destruct (negb b); [apply calm_ret|].
  apply calm_bind; [|intros r; apply calm_ret]. apply calm_attempt. unfold health. apply calm_bind; [apply calm_send|intros; apply calm_ret].
Qed.

Definition rotation_event (caller_id key_id : string) : AuditEventKind := KeyRotated key_id caller_id.

Lemma rotate_loop_audited client caller_id key_ids W n l done_ W' n' l' evs :
  rotate_loop client caller_id key_ids (W, (n, l)) = (Ok done_, (W', (n', l'))) → w_io W = [] → log_repr l evs →
  done_ `sublist_of` key_ids ∧
  ∃ evs', log_repr l' (evs ++ evs') ∧ map ae_event evs' = map (rotation_event caller_id) done_.
Proof.
  revert W n l done_ evs. induction key_ids as [|k ks IH]; intros W n l done_ evs; cbn [rotate_loop].
  { unfold mret, M_ret. intros [= <- <- <- <-] _ Hl. split; [done|]. exists []. by rewrite app_nil_r. }
  intros Hr HW Hl. apply mbind_Ok_inv in Hr as (r & [W1 [n1 l1]] & Ht & Hr).
  assert (l1 = l ∧ w_io W1 = []) as [-> HW1].
  { unfold attempt, zoom in Ht. cbn in Ht. pose proof (calm_send client (ReqRotateKey k (hc_caller_id client)) W n HW) as Hc.
    unfold hsm_rotate_key, mbind, M_bind in Ht. destruct (send net client _ (W, n)) as [[x|x] [W2 n2]]; cbn in *; by simplify_eq. }
  apply mbind_Ok_inv in Hr as (d & [W2 [n2 l2]] & Hd & Hr). apply mbind_Ok_inv in Hr as (rest & [W3 [n3 l3]] & Hrest & Hr).
  unfold mret, M_ret in Hr. simplify_eq. destruct r as [u|e].
  - apply mbind_Ok_inv in Hd as (ev & [W4 [n4 l4]] & Ha & Hd). unfold mret, M_ret in Hd. simplify_eq.
    unfold map_err, zoom in Ha. cbn in Ha. destruct (append (KeyRotated k caller_id) (W1, l)) as [[ev'|e] [W5 l5]] eqn:Hap; cbn in Ha; [|done].
    simplify_eq. destruct (append_repr _ _ _ _ _ _ _ Hap HW1 Hl) as (Hl5 & Hk & HW5).
    destruct (IH _ _ _ _ _ Hrest HW5 Hl5) as [Hsub (evs' & Hl' & Hm)]. split; [by apply sublist_skip|].
    exists (ev :: evs'). rewrite <- app_assoc in Hl'. split; [done|]. cbn. by rewrite Hk, Hm.
  - unfold mret, M_ret in Hd. simplify_eq. destruct (IH _ _ _ _ _ Hrest HW1 Hl) as [Hsub He].
    split; [by apply sublist_cons|done].
Qed.

Lemma read_pages_quiet W s ps W' s' :
  read_pages (W, s) = (Ok ps, (W', s')) → w_io W = [] → ps = ro_pages s ∧ w_io W' = [].
Proof.
  unfold read_pages. intros Hps HW. rewrite (mbind_eq _ _ _ (ro_pages s) (W, s)) in Hps by done.
  destruct (ro_pages s) as [names|]; [|unfold mret, M_ret in Hps; by simplify_eq].
  rewrite (mbind_eq _ _ _ tt (W, s)) in Hps by (by apply io_quiet).
  apply mbind_Ok_inv in Hps as ([] & [W5 s5] & Hfor & Hps). unfold mret, M_ret in Hps. simplify_eq. split; [done|].
  eapply calm_run; [|exact Hfor|done]. apply calm_forM. intros x. apply calm_io.
Qed.

(** A rotation that returns has rotated some of the collected key slots, in
    their order, and the audit file holds one event for each key that was
    rotated and no other new event, after the events it had. *)
Theorem rotation_audited (a : RotateArgs) (W : World) (s : Rot N) (rotated : list string) σ' (l : AuditLog) evs :
  rotate_keys a (W, s) = (Ok rotated, σ') → w_io W = [] → ro_file s = Some (al_file l) → log_repr l evs →
  rotated `sublist_of` collect_key_ids (ro_pages s) ∧
  ∃ l' evs', ro_file σ'.2 = Some (al_file l') ∧ log_repr l' (evs ++ evs') ∧
    map ae_event evs' = map (rotation_event (ra_caller_id a)) rotated.
Proof.
  intros Hr HW Hfile Hl. unfold rotate_keys in Hr. apply mbind_Ok_inv in Hr as (client & σ1 & Hc & Hr).
  unfold liftR in Hc. simplify_eq. destruct s as [n f pages]. cbn in Hfile. subst f.
  apply mbind_Ok_inv in Hr as (up & [W1 s1] & Hup & Hr).
  assert (w_io W1 = [] ∧ ro_file s1 = Some (al_file l) ∧ ro_pages s1 = pages) as (HW1 & Hf1 & Hp1).
  { unfold map_err, zoom in Hup. cbn in Hup. pose proof (calm_is_available client W n HW) as Hca.
    destruct (is_available net client (W, n)) as [[x|x] [W2 n2]]; cbn in *; by simplify_eq. }
  destruct up; cbn [negb] in Hr; [|done]. destruct s1 as [n1 f1 p1]. cbn in Hf1, Hp1. subst f1 p1.
  apply mbind_Ok_inv in Hr as (log & [W2 s2] & Hopen & Hr). unfold map_err, zoom in Hopen. cbn in Hopen.
  destruct (open_repr W1 l evs Hl HW1) as (l2 & Hop & Hl2 & _). rewrite Hop in Hopen. cbn in Hopen. simplify_eq.
  apply mbind_Ok_inv in Hr as (ps & [W3 s3] & Hps & Hr).
  destruct (read_pages_quiet _ _ _ _ _ Hps HW1) as [Hpg HW3]. cbn in Hpg. subst ps.
  unfold zoom in Hr. destruct (rotate_loop client _ _ (W3, (ro_net s3, log))) as [[x|x] [W6 [n6 l6]]] eqn:Hloop; [|by simplify_eq].
  simplify_eq. destruct (rotate_loop_audited _ _ _ _ _ _ _ _ _ _ _ Hloop HW3 Hl2) as [Hsub (evs' & Hl6 & Hm)].
  split; [done|]. by exists l6, evs'.
Qed.
End rotate.

(** ** The tables that are not found *)

(** [format!("{:08x}.{}", table_id, ext)], the name of a page file. *)
Definition hex_digit (d : Z) : ascii := ascii_of_nat (Z.to_nat (if d <? 10 then 48 + d else 87 + d)).
Definition page_file_name (f : Z * bool) : string :=
  String.string_of_list_ascii (map (λ i, hex_digit (Z.land (Z.shiftr f.1 (4 * i)) 15)) [7; 6; 5; 4; 3; 2; 1; 0]) +:+
  (if f.2 then ".epages" else ".pages").

Lemma page_file_not_table f : table_of_name (page_file_name f) = None.
Proof.
  destruct f as [t b]. unfold table_of_name, page_file_name. cbn [fst map String.string_of_list_ascii].
  set (d := Z.land (Z.shiftr t (4 * 7)) 15).
  assert (Hd : 0 ≤ d < 16) by (unfold d; change 15 with (Z.ones 4); rewrite Z.land_ones by lia; apply Z.mod_pos_bound; lia).
  assert (Hne : "t"%char ≠ hex_digit d).
  { assert (Hall : forallb (λ x, negb (bool_decide ("t"%char = hex_digit x))) (map Z.of_nat (seq 0 16)) = true) by (by vm_compute).
    rewrite forallb_forall in Hall. specialize (Hall d). intros He.
    assert (Hin : In d (map Z.of_nat (seq 0 16))) by (apply in_map_iff; exists (Z.to_nat d); rewrite in_seq; lia).
    apply Hall in Hin. by rewrite bool_decide_true in Hin. }
  change (String (hex_digit d) ?x +:+ ?y) with (String (hex_digit d) (x +:+ y)). cbn [strip_prefix].
  by rewrite bool_decide_false.
Qed.

(** The command rotates the keys of tables 0 and 1 and of no other table:
    it looks for files named after tables, and the page store names its files
    otherwise, so whatever tables have pages the slots are the same four. *)
Theorem rotation_misses_tables (files : list (Z * bool)) :
  collect_key_ids (Some (map page_file_name files)) =
  [wal_signing_key_id; commit_signing_key_id; table_encrypt_key_id 0; table_encrypt_key_id 1].
Proof.
  unfold collect_key_ids. replace (collect_tables _ _) with fixed_key_ids; [by vm_compute|].
  induction files as [|f files IH]; [done|]. cbn [map collect_tables]. by rewrite page_file_not_table.
Qed.
