(* ===== verification/SqlText.v ===== *)
(** * vledger-mcp: SQL texts and how the parser reads them

    The tools of [crates/vledger-mcp] build SQL statements as text, with the
    caller's arguments as literals.  The statements are those of the small
    fragment below (a query with function calls, conditions joined by AND, an
    order and a limit; an INSERT of literals); [statement_text] is the text a
    [format!] in the tools yields, and [statement_tree] the tree that the
    [sqlparser] crate gives for it, as far as the planner looks at it.  That the
    parser reads the fragment is the class [SqlReads]; [parse_one_reads] shows
    that the guards in front of the parser let such a text pass. *)

From stdpp Require Import base gmap list strings option pretty.
From Stdlib Require Import ZArith Lia Strings.Byte.
From S2P Require Import Prelude Bytes Jsonl Crypto Merkle Money Entry WalRecord Wal Recovery Tx Page EntryDb Sql Store SqlGuard SqlExec SqlPlan AuditTrail Replication UserAuth Server.

#[local] Open Scope string_scope.
#[local] Open Scope Z_scope.
#[local] Open Scope list_scope.

(** ** Escaping *)

(** [s.replace(c, t)] for a character [c]. *)
Fixpoint replace_char (c : Ascii.ascii) (t : string) (s : string) : string :=
  match s with
  | EmptyString => EmptyString
  | String a s => if bool_decide (a = c) then t +:+ replace_char c t s else String a (replace_char c t s)
  end.

Definition quote_char : Ascii.ascii := Ascii.ascii_of_nat 39.

(** [s.replace('\'', "''")] *)
Definition escape (s : string) : string := replace_char quote_char "''" s.

(** ** Tokens *)

Inductive token := TWord (w : string) | TNum (n : string) | TStr (s : string) | TSym (s : string).

(** A token's text in front of the rest of the text. *)
Definition token_then (t : token) (rest : string) : string :=
  match t with
  | TWord w => w +:+ rest
  | TNum n => n +:+ rest
  | TStr s => String quote_char (escape s +:+ String quote_char rest)
  | TSym s => s +:+ rest
  end.

(** Tokens with the information whether a space comes before them. *)
Fixpoint print_tokens (ts : list (bool * token)) : string :=
  match ts with
  | [] => EmptyString
  | (sp, t) :: ts => (if sp : bool then " " else "") +:+ token_then t (print_tokens ts)
  end.

(** ** The fragment *)

Inductive Lit := LText (s : string) | LNum (n : Z).

Inductive Arg := ACol (c : string) | ALit (l : Lit).
Inductive Item := IName (c : string) | ICall (f : string) (args : list Arg).

Inductive Atom :=
  | AEq (col : string) (l : Lit)
  | ACmp (col op : string) (l : Lit)
  | ALike (col pattern : string) (esc : string).

Record SelectText := mkSelectText {
  st_items : list Item;
  st_from : option string;
  st_where : list Atom;
  st_order : option string;
  st_limit : option Z
}.

Record InsertText := mkInsertText {
  it_table : string;
  it_columns : list string;
  it_values : list Lit;
  it_tight : bool            (* no space after the commas of the values *)
}.

Inductive StatementText := TSelect (q : SelectText) | TInsert (i : InsertText).

(** *** Their tokens *)

Definition lit_tokens (sp : bool) (l : Lit) : list (bool * token) :=
  match l with
  | LText s => [(sp, TStr s)]
  | LNum n => if n <? 0 then [(sp, TSym "-"); (false, TNum (pretty (- n)))] else [(sp, TNum (pretty n))]
  end.

Definition arg_tokens (sp : bool) (a : Arg) : list (bool * token) :=
  match a with ACol c => [(sp, TWord c)] | ALit l => lit_tokens sp l end.

(** Elements separated by commas; [sp] is the space after a comma. *)
Fixpoint comma_tokens {A} (f : bool → A → list (bool * token)) (sp first : bool) (xs : list A) : list (bool * token) :=
  match xs with
  | [] => []
  | [x] => f first x
  | x :: xs => f first x ++ (false, TSym ",") :: comma_tokens f sp sp xs
  end.

Definition item_tokens (sp : bool) (i : Item) : list (bool * token) :=
  match i with
  | IName c => [(sp, TWord c)]
  | ICall f args => (sp, TWord f) :: (false, TSym "(") :: comma_tokens arg_tokens true false args ++ [(false, TSym ")")]
  end.

Definition atom_tokens (a : Atom) : list (bool * token) :=
  match a with
  | AEq c l => (true, TWord c) :: (true, TSym "=") :: lit_tokens true l
  | ACmp c op l => (true, TWord c) :: (true, TSym op) :: lit_tokens true l
  | ALike c p e => [(true, TWord c); (true, TWord "LIKE"); (true, TStr p); (true, TWord "ESCAPE"); (true, TStr e)]
  end.

Fixpoint and_tokens (cs : list Atom) : list (bool * token) :=
  match cs with
  | [] => []
  | [a] => atom_tokens a
  | a :: cs => atom_tokens a ++ (true, TWord "AND") :: and_tokens cs
  end.

Definition where_tokens (cs : list Atom) : list (bool * token) :=
  match cs with [] => [] | _ => (true, TWord "WHERE") :: and_tokens cs end.

Definition order_tokens (o : option string) : list (bool * token) :=
  match o with Some c => [(true, TWord "ORDER"); (true, TWord "BY"); (true, TWord c)] | None => [] end.
Definition limit_tokens (o : option Z) : list (bool * token) :=
  match o with Some n => [(true, TWord "LIMIT"); (true, TNum (pretty n))] | None => [] end.

Definition from_tokens (q : SelectText) : list (bool * token) :=
  match st_from q with
  | Some t => (true, TWord "FROM") :: (true, TWord t) :: where_tokens (st_where q) ++ order_tokens (st_order q) ++ limit_tokens (st_limit q)
  | None => []
  end.

Definition select_tokens (q : SelectText) : list (bool * token) :=
  (false, TWord "SELECT") :: comma_tokens item_tokens true true (st_items q) ++ from_tokens q.

Definition word_tokens (sp : bool) (c : string) : list (bool * token) := [(sp, TWord c)].

Definition insert_tokens (i : InsertText) : list (bool * token) :=
  (false, TWord "INSERT") :: (true, TWord "INTO") :: (true, TWord (it_table i)) :: (true, TSym "(") ::
  comma_tokens word_tokens true false (it_columns i) ++
  (false, TSym ")") :: (true, TWord "VALUES") :: (true, TSym "(") ::
  comma_tokens lit_tokens (negb (it_tight i)) false (it_values i) ++ [(false, TSym ")")].

Definition statement_tokens (q : StatementText) : list (bool * token) :=
  match q with TSelect q => select_tokens q | TInsert i => insert_tokens i end.

Definition statement_text (q : StatementText) : string := print_tokens (statement_tokens q).

(** *** Their trees *)

Section trees.
Context (other : list (bool * token) → string).

(** A negative number is a minus sign applied to a number. *)
Definition lit_tree (l : Lit) : Expr :=
  match l with
  | LText s => ExprValue (SingleQuotedString s)
  | LNum n => if n <? 0 then OtherExpr (other (lit_tokens true l)) else ExprValue (Number (pretty n))
  end.

Definition arg_tree (a : Arg) : FunctionArg :=
  ArgExpr (match a with ACol c => Identifier c | ALit l => lit_tree l end).

Definition item_tree (i : Item) : SelectItem :=
  UnnamedExpr (match i with
    | IName c => Identifier c
    | ICall f args => ExprFunction (mkFunction f (ArgList (map arg_tree args)) None)
    end).

(** Comparisons other than [=] and conjunctions are trees the planner does
    not look into. *)
Definition where_tree (cs : list Atom) : option Expr :=
  match cs with
  | [] => None
  | [AEq c l] => Some (BinaryEq (Identifier c) (lit_tree l))
  | [ALike c p _] => Some (Like (Identifier c) (ExprValue (SingleQuotedString p)) false)
  | _ => Some (OtherExpr (other (and_tokens cs)))
  end.

Definition statement_tree (q : StatementText) : Statement :=
  match q with
  | TSelect q =>
      StQuery (mkQuery
        (SetSelect (mkSelect (map item_tree (st_items q))
          (match st_from q with Some t => [(Table t, [])] | None => [] end)
          (match st_from q with Some _ => where_tree (st_where q) | None => None end) (GroupByExprs [])))
        (match st_from q, st_limit q with Some _, Some n => Some (ExprValue (Number (pretty n))) | _, _ => None end))
  | TInsert i =>
      StInsert (mkInsert (it_table i) (it_columns i)
        (Some (mkQuery (SetValues [map lit_tree (it_values i)]) None)))
  end.
End trees.

(** *** The names that occur *)

Definition COLUMN_NAMES : list string :=
  ["id"; "code"; "name"; "account_type"; "currency"; "domain"; "balance"; "date"; "sequence"; "entry_id"; "description";
   "dr_cr"; "amount"; "account_id"; "effective_at"; "posted_at"; "external_ref"; "content_hash"; "chain_hash"; "metadata";
   "status"; "debit_account"; "credit_account"; "idempotency_key"].
Definition TABLE_NAMES : list string := [LEDGER; LEDGER_LINES; ACCOUNTS].
Definition FUNCTION_NAMES : list string := ["BALANCE"; "VERIFY_CHAIN"; "MERKLE_ROOT"; "SUM"; "COUNT"; "MIN"; "MAX"].
Definition OPERATORS : list string := [">"; ">="; "<="].

Definition one_of (names : list string) (s : string) : bool := bool_decide (s ∈ names).

Definition arg_ok (a : Arg) : bool := match a with ACol c => one_of COLUMN_NAMES c | ALit _ => true end.
Definition item_ok (i : Item) : bool :=
  match i with IName c => one_of COLUMN_NAMES c | ICall f args => one_of FUNCTION_NAMES f && forallb arg_ok args end.
Definition atom_ok (a : Atom) : bool :=
  match a with
  | AEq c _ | ALike c _ _ => one_of COLUMN_NAMES c
  | ACmp c op _ => one_of COLUMN_NAMES c && one_of OPERATORS op
  end.
Definition nonempty {A} (l : list A) : bool := match l with [] => false | _ => true end.

Definition select_ok (q : SelectText) : bool :=
  nonempty (st_items q) && forallb item_ok (st_items q) &&
  match st_from q with Some t => one_of TABLE_NAMES t | None => true end &&
  forallb atom_ok (st_where q) &&
  match st_order q with Some c => one_of COLUMN_NAMES c | None => true end &&
  match st_limit q with Some n => 0 <=? n | None => true end.
Definition insert_ok (i : InsertText) : bool :=
  one_of TABLE_NAMES (it_table i) && nonempty (it_columns i) && forallb (one_of COLUMN_NAMES) (it_columns i) &&
  nonempty (it_values i).
Definition statement_ok (q : StatementText) : bool :=
  match q with TSelect q => select_ok q | TInsert i => insert_ok i end.

(** What the tools rely on: the parser reads every statement of the fragment
    as one statement with the expected tree. *)
Class SqlReads `{ServerExt} := {
  other_text : list (bool * token) → string;
  reads_statement : ∀ q, statement_ok q = true →
    parse_sql (str_bytes (statement_text q)) = Ok [statement_tree other_text q]
}.

(** ** Token lists that can be read back *)

Definition word_byte (b : byte) : bool :=
  let z := Z_of_byte b in
  ((65 <=? z) && (z <=? 90)) || ((97 <=? z) && (z <=? 122)) || ((48 <=? z) && (z <=? 57)) || (z =? 95).
Definition digit_byte (b : byte) : bool := let z := Z_of_byte b in (48 <=? z) && (z <=? 57).

Definition SYMBOLS : list string := ["("; ")"; ","; "="; "-"] ++ OPERATORS.

Definition token_ok (t : token) : bool :=
  match t with
  | TWord w => match str_bytes w with b :: r => word_byte b && negb (digit_byte b) && forallb word_byte r | [] => false end
  | TNum n => match str_bytes n with [] => false | bs => forallb digit_byte bs end
  | TStr _ => true
  | TSym s => one_of SYMBOLS s
  end.

(** Which tokens may follow without a space. *)
Definition may_touch (t u : token) : bool :=
  match t, u with
  | (TWord _ | TNum _), (TWord _ | TNum _) => false
  | TStr _, TStr _ => false
  | TSym s, u => if one_of ["-"] s then match u with TNum _ => true | _ => false end else negb (one_of OPERATORS s)
  | _, _ => true
  end.

Fixpoint separated (ts : list (bool * token)) : bool :=
  match ts with
  | (_, t) :: r => token_ok t && match r with (sp, u) :: _ => (sp || may_touch t u) && separated r | [] => true end
  | [] => true
  end.

(** *** Token lists put together *)

Definition last_token (ts : list (bool * token)) : option token := snd <$> last ts.

(** The end of a list after which a symbol may follow, or anything with a space
    before it; after an opening parenthesis or a comma, anything may follow. *)
Definition bracket (t : token) : bool := match t with TSym s => one_of ["("; ")"; ","] s | _ => false end.
Definition closed (ts : list (bool * token)) : bool :=
  match last_token ts with Some (TSym s) => one_of ["("; ")"; ","] s | Some _ => true | None => false end.
Definition opens (us : list (bool * token)) : bool :=
  match us with (sp, u) :: _ => sp || bracket u | [] => true end.

Lemma separated_app ts us :
  separated ts = true → separated us = true →
  match last_token ts with Some t => bracket t = true ∨ (closed ts = true ∧ opens us = true) | None => True end →
  separated (ts ++ us) = true.
Proof.
  induction ts as [|[sp t] ts IH]; [done|]. intros Hts Hus Hj. cbn [separated app] in *.
  apply andb_true_iff in Hts as [Ht Hts]. rewrite Ht. cbn [andb]. destruct ts as [|[sp' u] ts].
  - cbn [app]. destruct us as [|[sp' u] us]; [done|]. rewrite Hus, andb_true_r. unfold closed, last_token in Hj. cbn in Hj.
    destruct Hj as [Hb|[Hc Ho]].
    + destruct t as [| | |y]; try done. apply orb_true_intro. right. cbn in *. unfold one_of in *. apply bool_decide_eq_true in Hb.
      repeat (apply elem_of_cons in Hb as [->|Hb]); [by vm_compute..|]. by apply not_elem_of_nil in Hb.
    + destruct sp'; [done|]. cbn in Ho |- *. destruct u as [| | |y]; try done.
      destruct t as [| | |x]; try done. cbn in *. unfold one_of in *. apply bool_decide_eq_true in Hc.
      repeat (apply elem_of_cons in Hc as [->|Hc]); [by vm_compute..|]. by apply not_elem_of_nil in Hc.
  - apply andb_true_iff in Hts as [Hu Hts]. cbn [app]. rewrite Hu. cbn [andb]. apply IH; [done..|].
    unfold closed, last_token in *. by rewrite last_cons_cons in Hj.
Qed.

Lemma closed_snoc ts sp t : closed (ts ++ [(sp, t)]) = closed [(sp, t)].
Proof. unfold closed, last_token. by rewrite last_snoc. Qed.
Lemma closed_app ts us : us ≠ [] → closed (ts ++ us) = closed us.
Proof.
  destruct us as [|u us _] using rev_ind; [done|]. intros _. destruct u. by rewrite app_assoc, !closed_snoc.
Qed.

(** A phrase: readable, not empty, closed. *)
Definition phrase (ts : list (bool * token)) : Prop := separated ts = true ∧ closed ts = true.

Lemma phrase_nonempty ts : phrase ts → ts ≠ [].
Proof. by intros [_ Hc] ->. Qed.

Lemma phrase_app ts us : phrase ts → phrase us → opens us = true → phrase (ts ++ us).
Proof.
  intros [Hts Hct] Hus Ho. pose proof (phrase_nonempty us Hus) as Hne. destruct Hus as [Hus Hcu]. split.
  - apply separated_app; [done..|]. destruct (last_token ts); [by right|done].
  - by rewrite closed_app.
Qed.
Lemma phrase_after ts us : separated ts = true → match last_token ts with Some t => bracket t = true | None => True end →
  phrase us → phrase (ts ++ us).
Proof.
  intros Hts Hb Hus. pose proof (phrase_nonempty us Hus) as Hne. destruct Hus as [Hus Hcu]. split.
  - apply separated_app; [done..|]. destruct (last_token ts); [by left|done].
  - by rewrite closed_app.
Qed.

Lemma phrase_comma {A} (f : bool → A → list (bool * token)) sp first xs :
  xs ≠ [] → (∀ b x, x ∈ xs → phrase (f b x)) → phrase (comma_tokens f sp first xs).
Proof.
  revert first. induction xs as [|x xs IH]; [done|]. intros first _ Hf. destruct xs as [|y xs].
  { apply Hf. by left. }
  change (phrase (f first x ++ [(false, TSym ",")] ++ comma_tokens f sp sp (y :: xs))).
  apply phrase_app; [apply Hf; by left| |done].
  apply phrase_after; [by vm_compute..|]. apply IH; [done|]. intros b z Hz. apply Hf. by right.
Qed.

(** *** Numbers *)

Lemma pretty_go_digits x s : forallb digit_byte (str_bytes s) = true → forallb digit_byte (str_bytes (pretty_N_go x s)) = true.
Proof.
  revert s. induction (N.lt_wf_0 x) as [x _ IH]; intros s Hs.
  destruct (decide (x = 0%N)) as [->|Hx]; [by rewrite pretty_N_go_0|].
  rewrite pretty_N_go_step by lia. apply IH; [apply N.div_lt; lia|].
  change (str_bytes (String (pretty_N_char (x `mod` 10)) s)) with (Ascii.byte_of_ascii (pretty_N_char (x `mod` 10)) :: str_bytes s).
  cbn [forallb]. rewrite Hs, andb_true_r. assert (Hd : (x `mod` 10 < 10)%N) by (apply N.mod_lt; lia).
  revert Hd. generalize (x `mod` 10)%N. intros d Hd.
  assert (d = 0 ∨ d = 1 ∨ d = 2 ∨ d = 3 ∨ d = 4 ∨ d = 5 ∨ d = 6 ∨ d = 7 ∨ d = 8 ∨ d = 9)%N as Hc by lia.
  by destruct_or! Hc; subst.
Qed.

Lemma pretty_go_nonempty x s : s ≠ "" → pretty_N_go x s ≠ "".
Proof.
  revert s. induction (N.lt_wf_0 x) as [x _ IH]; intros s Hs.
  destruct (decide (x = 0%N)) as [->|Hx]; [by rewrite pretty_N_go_0|].
  rewrite pretty_N_go_step by lia. apply IH; [apply N.div_lt; lia|done].
Qed.

Lemma pretty_num_ok n : 0 ≤ n → token_ok (TNum (pretty n)) = true.
Proof.
  intros Hn. destruct n as [|p|p]; [by vm_compute| |lia].
  change (pretty (Z.pos p)) with (pretty (N.pos p)). unfold pretty, pretty_N. rewrite decide_False by done.
  cbn [token_ok]. pose proof (pretty_go_digits (N.pos p) "" eq_refl) as Hd.
  destruct (str_bytes (pretty_N_go (N.pos p) "")) as [|b bs] eqn:Hb; [|done].
  exfalso. apply (str_bytes_inj _ "") in Hb. rewrite pretty_N_go_step in Hb by lia.
  by apply pretty_go_nonempty in Hb.
Qed.

(** *** The fragment *)

Lemma names_ok ns c : forallb (λ w, token_ok (TWord w)) ns = true → one_of ns c = true → token_ok (TWord c) = true.
Proof. intros Hns Hc%bool_decide_eq_true. rewrite forallb_forall in Hns. apply Hns. by apply list_elem_of_In. Qed.
Lemma column_ok c : one_of COLUMN_NAMES c = true → token_ok (TWord c) = true.
Proof. by apply names_ok. Qed.
Lemma phrase_word sp w : token_ok (TWord w) = true → phrase [(sp, TWord w)].
Proof. intros Hw. split; [|done]. cbn [separated]. by rewrite Hw. Qed.
Lemma phrase_str sp s : phrase [(sp, TStr s)].
Proof. done. Qed.
Lemma phrase_num sp n : 0 ≤ n → phrase [(sp, TNum (pretty n))].
Proof. intros Hn. split; [|done]. cbn [separated]. by rewrite pretty_num_ok. Qed.

Lemma phrase_lit sp l : phrase (lit_tokens sp l).
Proof.
  destruct l as [s|n]; [apply phrase_str|]. cbn [lit_tokens]. destruct (Z.ltb_spec n 0); [|by apply phrase_num].
  split; [|done]. cbn [separated]. rewrite pretty_num_ok by lia. by vm_compute.
Qed.
Lemma phrase_arg sp a : arg_ok a = true → phrase (arg_tokens sp a).
Proof. destruct a; cbn; [intros; by apply phrase_word, column_ok|intros; apply phrase_lit]. Qed.

Lemma separated_cons2 sp t sp' u ts :
  token_ok t = true → sp' || may_touch t u = true → separated ((sp', u) :: ts) = true → separated ((sp, t) :: (sp', u) :: ts) = true.
Proof. intros Ht Hu Hs. change (token_ok t && ((sp' || may_touch t u) && separated ((sp', u) :: ts)) = true). by rewrite Ht, Hu, Hs. Qed.

Lemma phrase_item sp i : item_ok i = true → phrase (item_tokens sp i).
Proof.
  destruct i as [c|f args]; cbn [item_ok item_tokens]; [intros; by apply phrase_word, column_ok|].
  intros [Hf Ha]%andb_true_iff.
  assert (Hw : token_ok (TWord f) = true) by (eapply (names_ok FUNCTION_NAMES); [by vm_compute|done]).
  change (phrase ([(sp, TWord f)] ++ [(false, TSym "(")] ++ comma_tokens arg_tokens true false args ++ [(false, TSym ")")])).
  apply phrase_app; [by apply phrase_word| |done]. apply phrase_after; [by vm_compute..|].
  destruct args as [|a args]; [by vm_compute|]. apply phrase_app; [|by vm_compute..].
  apply phrase_comma; [done|]. intros b x Hx. apply phrase_arg. rewrite forallb_forall in Ha. apply Ha. by apply list_elem_of_In.
Qed.

Lemma phrase_atom a : atom_ok a = true → phrase (atom_tokens a).
Proof.
  assert (Hop : ∀ c op l, token_ok (TWord c) = true → token_ok (TSym op) = true →
    phrase ((true, TWord c) :: (true, TSym op) :: lit_tokens true l)).
  { intros c op l Hc Ho. pose proof (phrase_lit true l) as Hl. pose proof (phrase_nonempty _ Hl) as Hne. destruct Hl as [Hl Hcl].
    split; [|exact (eq_trans (closed_app [(true, TWord c); (true, TSym op)] _ Hne) Hcl)].
    apply separated_cons2; [done..|]. destruct (lit_tokens true l) as [|[sp u] ts] eqn:Ht; [done|].
    apply separated_cons2; [done| |done]. destruct l as [s|n]; cbn in Ht; repeat case_match; by simplify_eq. }
  destruct a as [c l|c op l|c p e]; cbn [atom_ok atom_tokens].
  - intros Hc. by apply Hop; [apply column_ok|].
  - intros [Hc Ho]%andb_true_iff. apply Hop; [by apply column_ok|]. unfold one_of in *. apply bool_decide_eq_true in Ho.
    apply bool_decide_eq_true. unfold SYMBOLS. apply elem_of_app. by right.
  - intros Hc. split; [|done]. apply separated_cons2; [by apply column_ok|done|done].
Qed.

Lemma atom_opens a ts : opens (atom_tokens a ++ ts) = true.
Proof. by destruct a. Qed.

Lemma phrase_and cs : cs ≠ [] → forallb atom_ok cs = true → phrase (and_tokens cs) ∧ opens (and_tokens cs) = true.
Proof.
  induction cs as [|a cs IH]; [done|]. intros _ [Ha Hcs]%andb_true_iff. destruct cs as [|b cs].
  { split; [by apply phrase_atom|]. cbn [and_tokens]. rewrite <- (app_nil_r (atom_tokens a)). apply atom_opens. }
  destruct (IH ltac:(done) Hcs) as [Hp Ho].
  change (and_tokens (a :: b :: cs)) with (atom_tokens a ++ [(true, TWord "AND")] ++ and_tokens (b :: cs)).
  split; [|apply atom_opens]. apply phrase_app; [by apply phrase_atom| |done]. by apply phrase_app.
Qed.

(** Optional parts of a query: empty, or a phrase that opens with a space. *)
Definition clause (ts : list (bool * token)) : Prop := ts = [] ∨ (phrase ts ∧ opens ts = true).

Lemma phrase_clause ts us : phrase ts → clause us → phrase (ts ++ us).
Proof. intros Ht [->|[Hu Ho]]; [by rewrite app_nil_r|by apply phrase_app]. Qed.
Lemma clause_app ts us : clause ts → clause us → clause (ts ++ us).
Proof.
  intros [->|[Ht Ho]] Hu; [done|]. right. split; [by apply phrase_clause|].
  apply phrase_nonempty in Ht. by destruct ts.
Qed.
Lemma where_clause cs : forallb atom_ok cs = true → clause (where_tokens cs).
Proof.
  intros Hcs. destruct cs as [|a cs]; [by left|]. right. split; [|done].
  destruct (phrase_and (a :: cs)) as [Hp Ho]; [done..|].
  change (phrase ([(true, TWord "WHERE")] ++ and_tokens (a :: cs))). by apply phrase_app.
Qed.

Lemma phrase_select q : select_ok q = true → phrase (select_tokens q).
Proof.
  unfold select_ok. intros [[[[[Hne Hit]%andb_true_iff Hfrom]%andb_true_iff Hwh]%andb_true_iff Hord]%andb_true_iff Hlim]%andb_true_iff.
  change (phrase ([(false, TWord "SELECT")] ++ comma_tokens item_tokens true true (st_items q) ++ from_tokens q)).
  assert (Hitems : phrase (comma_tokens item_tokens true true (st_items q))).
  { apply phrase_comma; [by destruct (st_items q)|]. intros b x Hx. apply phrase_item.
    rewrite forallb_forall in Hit. apply Hit. by apply list_elem_of_In. }
  apply phrase_app; [done| |by destruct (st_items q) as [|[] [|]]].
  apply phrase_clause; [done|]. unfold from_tokens. destruct (st_from q) as [t|]; [|by left].
  change (clause ([(true, TWord "FROM"); (true, TWord t)] ++ (where_tokens (st_where q) ++ order_tokens (st_order q) ++ limit_tokens (st_limit q)))).
  apply clause_app.
  { right. split; [|done]. split; [|done]. apply separated_cons2; [done..|]. cbn [separated].
    rewrite (names_ok TABLE_NAMES); [done|by vm_compute|done]. }
  apply clause_app; [by apply where_clause|]. apply clause_app.
  - destruct (st_order q) as [c|]; [|by left]. right. split; [|done]. split; [|done].
    do 2 (apply separated_cons2; [done..|]). cbn [separated]. by rewrite column_ok.
  - destruct (st_limit q) as [n|]; [|by left]. right. split; [|done]. split; [|done].
    apply separated_cons2; [done..|]. cbn [separated]. by rewrite pretty_num_ok by lia.
Qed.

Lemma phrase_insert i : insert_ok i = true → phrase (insert_tokens i).
Proof.
  unfold insert_ok. intros [[[Htab Hne]%andb_true_iff Hcols]%andb_true_iff Hvals]%andb_true_iff.
  assert (Ht : token_ok (TWord (it_table i)) = true) by (eapply (names_ok TABLE_NAMES); [by vm_compute|done]).
  assert (Hc : phrase (comma_tokens word_tokens true false (it_columns i))).
  { apply phrase_comma; [by destruct (it_columns i)|]. intros b x Hx. apply phrase_word, column_ok.
    rewrite forallb_forall in Hcols. apply Hcols. by apply list_elem_of_In. }
  assert (Hv : phrase (comma_tokens lit_tokens (negb (it_tight i)) false (it_values i))).
  { apply phrase_comma; [by destruct (it_values i)|]. intros b x Hx. apply phrase_lit. }
  change (phrase ([(false, TWord "INSERT"); (true, TWord "INTO"); (true, TWord (it_table i)); (true, TSym "(")] ++
    comma_tokens word_tokens true false (it_columns i) ++
    [(false, TSym ")"); (true, TWord "VALUES"); (true, TSym "(")] ++
    comma_tokens lit_tokens (negb (it_tight i)) false (it_values i) ++ [(false, TSym ")")])).
  apply phrase_after; [|done|].
  { do 2 (apply separated_cons2; [done..|]). by apply separated_cons2. }
  apply phrase_app; [done| |done]. apply phrase_after; [by vm_compute..|]. by apply phrase_app.
Qed.

Lemma statement_phrase q : statement_ok q = true → phrase (statement_tokens q).
Proof. destruct q; [apply phrase_select|apply phrase_insert]. Qed.

(** ** The guards in front of the parser *)

Lemma escape_cons a s :
  str_bytes (escape (String a s)) =
  (if bool_decide (Ascii.byte_of_ascii a = squote) then [squote; squote] else [Ascii.byte_of_ascii a]) ++ str_bytes (escape s).
Proof.
  unfold escape. cbn [replace_char]. destruct (decide (a = quote_char)) as [->|Ha]; [done|].
  rewrite !bool_decide_false; [done| |done]. intros Hb. apply Ha. by rewrite <- (Ascii.ascii_of_byte_of_ascii a), Hb.
Qed.

Lemma str_bytes_cons a s : str_bytes (String a s) = Ascii.byte_of_ascii a :: str_bytes s.
Proof. done. Qed.

(** An escaped text and its closing quote are one quoted section. *)
Lemma skip_quoted_escape s rest :
  head rest ≠ Some squote → skip_quoted squote (str_bytes (escape s) ++ squote :: rest) = rest.
Proof.
  intros Hr. induction s as [|a s IH].
  - change (match rest with b' :: r' => if bool_decide (b' = squote) then skip_quoted squote r' else rest | [] => rest end = rest).
    destruct rest as [|b rest]; [done|]. rewrite bool_decide_false; [done|]. cbn in Hr. congruence.
  - rewrite escape_cons. case_bool_decide as Ha; cbn [app skip_quoted].
    + rewrite !bool_decide_true by done. apply IH.
    + by rewrite bool_decide_false by done.
Qed.

Definition plain_byte (b : byte) : Prop := code_step b = ([], Code).

Lemma visible_plain bs rest : Forall plain_byte bs → visible Code (bs ++ rest) = visible Code rest.
Proof. induction 1 as [|b bs Hb _ IH]; [done|]. cbn [app]. rewrite visible_code_cons, Hb. done. Qed.

Lemma word_byte_plain b : word_byte b = true → plain_byte b.
Proof. unfold plain_byte. by destruct b. Qed.
Lemma digit_byte_word b : digit_byte b = true → word_byte b = true.
Proof. by destruct b. Qed.

Definition token_parens (t : token) : bytes := match t with TSym s => concat (map paren (str_bytes s)) | _ => [] end.

Definition text_bytes (ts : list (bool * token)) : bytes := str_bytes (print_tokens ts).

Lemma text_bytes_cons sp t ts :
  text_bytes ((sp, t) :: ts) = (if sp then [Byte.x20] else []) ++ str_bytes (token_then t (print_tokens ts)).
Proof. unfold text_bytes. cbn [print_tokens]. rewrite str_bytes_app. by destruct sp. Qed.

(** The first byte of a readable text. *)
Lemma text_head t ts : token_ok t = true →
  head (text_bytes ((false, t) :: ts)) = head (match t with TStr _ => [squote] | TWord s | TNum s | TSym s => str_bytes s end).
Proof.
  intros Ht. rewrite text_bytes_cons. cbn [app]. destruct t as [w|n|s|s]; cbn [token_then].
  - rewrite str_bytes_app. cbn in Ht. by destruct (str_bytes w).
  - rewrite str_bytes_app. cbn in Ht. by destruct (str_bytes n).
  - done.
  - rewrite str_bytes_app. cbn in Ht. unfold one_of in Ht. apply bool_decide_eq_true in Ht.
    unfold SYMBOLS, OPERATORS in Ht. cbn in Ht. repeat (apply elem_of_cons in Ht as [->|Ht]); [done..|]. by apply not_elem_of_nil in Ht.
Qed.

Lemma separated_tail sp t ts : separated ((sp, t) :: ts) = true → separated ts = true.
Proof. cbn [separated]. destruct ts as [|[sp' u] ts]; [done|]. by intros [_ [_ ?]%andb_true_iff]%andb_true_iff. Qed.
Lemma separated_head sp t ts : separated ((sp, t) :: ts) = true → token_ok t = true.
Proof. cbn [separated]. by intros [? _]%andb_true_iff. Qed.

Lemma head_after_quote sp s ts : separated ((sp, TStr s) :: ts) = true → head (text_bytes ts) ≠ Some squote.
Proof.
  intros Hs. destruct ts as [|[sp' u] ts]; [done|]. pose proof (separated_head _ _ _ (separated_tail _ _ _ Hs)) as Hu.
  cbn [separated] in Hs. apply andb_true_iff in Hs as [_ [Ht _]%andb_true_iff]. destruct sp'; [done|]. cbn [orb] in Ht.
  rewrite text_head by done. destruct u as [w|n|x|x]; [| |done|].
  - cbn in Hu. destruct (str_bytes w) as [|b r]; [done|]. cbn. intros [= ->]. by vm_compute in Hu.
  - cbn in Hu. destruct (str_bytes n) as [|b r]; [done|]. cbn. intros [= ->]. by vm_compute in Hu.
  - cbn in Hu. unfold one_of in Hu. apply bool_decide_eq_true in Hu.
    unfold SYMBOLS, OPERATORS in Hu. cbn in Hu. repeat (apply elem_of_cons in Hu as [->|Hu]); [done..|]. by apply not_elem_of_nil in Hu.
Qed.

Lemma head_after_minus sp ts : separated ((sp, TSym "-") :: ts) = true → head (text_bytes ts) ≠ Some dash.
Proof.
  intros Hs. destruct ts as [|[sp' u] ts]; [done|]. pose proof (separated_head _ _ _ (separated_tail _ _ _ Hs)) as Hu.
  cbn [separated] in Hs. apply andb_true_iff in Hs as [_ [Ht _]%andb_true_iff]. destruct sp'; [done|]. cbn [orb] in Ht.
  rewrite text_head by done. destruct u as [w|n|x|x]; try (by vm_compute in Ht).
  cbn in Hu. destruct (str_bytes n) as [|b r]; [done|]. cbn. intros [= ->]. by vm_compute in Hu.
Qed.

Lemma visible_tokens ts : separated ts = true → visible Code (text_bytes ts) = concat (map (λ st, token_parens st.2) ts).
Proof.
  induction ts as [|[sp t] ts IH]; [done|]. intros Hs. pose proof (separated_tail _ _ _ Hs) as Hts. specialize (IH Hts).
  pose proof (separated_head _ _ _ Hs) as Ht. rewrite text_bytes_cons.
  assert (Hsp : visible Code ((if sp then [Byte.x20] else []) ++ str_bytes (token_then t (print_tokens ts))) =
    visible Code (str_bytes (token_then t (print_tokens ts)))) by (by destruct sp). rewrite Hsp. clear Hsp.
  cbn [map concat snd]. rewrite <- IH. unfold text_bytes. destruct t as [w|n|s|s]; cbn [token_then].
  - rewrite str_bytes_app. apply visible_plain. cbn in Ht. destruct (str_bytes w) as [|b r]; [done|].
    apply andb_true_iff in Ht as [[Hb _]%andb_true_iff Hr]. constructor; [by apply word_byte_plain|].
    rewrite forallb_forall in Hr. apply list.Forall_forall. intros x Hx. apply word_byte_plain, Hr. by apply list_elem_of_In.
  - rewrite str_bytes_app. apply visible_plain. cbn in Ht. destruct (str_bytes n) as [|b r]; [done|].
    change (forallb digit_byte (b :: r) = true) in Ht. rewrite forallb_forall in Ht. apply list.Forall_forall. intros x Hx. apply word_byte_plain, digit_byte_word, Ht. by apply list_elem_of_In.
  - rewrite str_bytes_cons, str_bytes_app, str_bytes_cons, visible_code_cons. cbn [code_step fst snd app].
    change (Ascii.byte_of_ascii quote_char) with squote. change (code_step squote) with (([], Quoted squote) : bytes * mode). cbn [fst snd app].
    rewrite visible_quoted, skip_quoted_escape; [done|]. by eapply head_after_quote.
  - rewrite str_bytes_app. cbn in Ht. unfold one_of in Ht. apply bool_decide_eq_true in Ht.
    unfold SYMBOLS, OPERATORS in Ht. cbn in Ht.
    repeat (apply elem_of_cons in Ht as [->|Ht]); [| | | | | | | |by apply not_elem_of_nil in Ht].
    5:{ change (str_bytes "-" ++ str_bytes (print_tokens ts)) with (dash :: str_bytes (print_tokens ts)).
        rewrite visible_code_cons. change (code_step dash) with (([], Dashed) : bytes * mode). cbn [fst snd app].
        rewrite visible_dashed; [done|]. by eapply head_after_minus. }
    all: cbn [str_bytes String.list_byte_of_string app]; repeat (rewrite visible_code_cons); done.
Qed.

(** The parentheses of a statement: pairs, one after the other. *)
Fixpoint pairs (k : nat) : bytes := match k with O => [] | S k => lparen :: rparen :: pairs k end.

Lemma pairs_app j k : pairs j ++ pairs k = pairs (j + k).
Proof. induction j as [|j IH]; [done|]. cbn. by rewrite IH. Qed.

Definition parens_of (ts : list (bool * token)) : bytes := concat (map (λ st, token_parens st.2) ts).

Lemma parens_of_app ts us : parens_of (ts ++ us) = parens_of ts ++ parens_of us.
Proof. unfold parens_of. by rewrite map_app, concat_app. Qed.

(** A list of tokens with paired parentheses. *)
Definition paired (ts : list (bool * token)) : Prop := ∃ k, parens_of ts = pairs k.

Lemma paired_nil : paired [].
Proof. by exists 0%nat. Qed.
Lemma paired_app ts us : paired ts → paired us → paired (ts ++ us).
Proof. intros [j Hj] [k Hk]. exists (j + k)%nat. by rewrite parens_of_app, Hj, Hk, pairs_app. Qed.
Lemma paired_cons sp t ts : token_parens t = [] → paired ts → paired ((sp, t) :: ts).
Proof. intros Ht [k Hk]. exists k. unfold parens_of in *. cbn. by rewrite Ht, Hk. Qed.
Lemma paired_group ts sp sp' : parens_of ts = [] → paired ((sp, TSym "(") :: ts ++ [(sp', TSym ")")]).
Proof.
  intros Ht. exists 1%nat. change (lparen :: parens_of (ts ++ [(sp', TSym ")")]) = pairs 1). by rewrite parens_of_app, Ht.
Qed.

Lemma parens_lit sp l : parens_of (lit_tokens sp l) = [].
Proof. destruct l as [s|n]; [done|]. cbn. by case_match. Qed.
Lemma parens_arg sp a : parens_of (arg_tokens sp a) = [].
Proof. destruct a; [done|]. apply parens_lit. Qed.
Lemma parens_comma {A} (f : bool → A → list (bool * token)) sp first xs :
  (∀ b x, parens_of (f b x) = []) → parens_of (comma_tokens f sp first xs) = [].
Proof.
  intros Hf. revert first. induction xs as [|x xs IH]; [done|]. intros first. destruct xs as [|y xs]; [apply Hf|].
  change (parens_of (f first x ++ [(false, TSym ",")] ++ comma_tokens f sp sp (y :: xs)) = []).
  by rewrite !parens_of_app, Hf, IH.
Qed.
Lemma paired_comma {A} (f : bool → A → list (bool * token)) sp first xs :
  (∀ b x, paired (f b x)) → paired (comma_tokens f sp first xs).
Proof.
  intros Hf. revert first. induction xs as [|x xs IH]; [intros; apply paired_nil|]. intros first. destruct xs as [|y xs]; [apply Hf|].
  apply (paired_app (f first x) ((false, TSym ",") :: comma_tokens f sp sp (y :: xs))); [apply Hf|]. by apply paired_cons.
Qed.
Lemma paired_none ts : parens_of ts = [] → paired ts.
Proof. by exists 0%nat. Qed.
Lemma paired_item sp i : paired (item_tokens sp i).
Proof. destruct i as [c|f args]; [by apply paired_none|]. apply paired_cons; [done|]. apply paired_group, parens_comma, parens_arg. Qed.
Lemma parens_atom a : atom_ok a = true → parens_of (atom_tokens a) = [].
Proof.
  destruct a as [c l|c op l|c p e]; cbn [atom_ok atom_tokens]; [intros _; apply (parens_lit true l)| |done].
  intros [_ Ho]%andb_true_iff. unfold one_of in Ho. apply bool_decide_eq_true in Ho.
  unfold OPERATORS in Ho. repeat (apply elem_of_cons in Ho as [->|Ho]); [apply (parens_lit true l)..|]. by apply not_elem_of_nil in Ho.
Qed.
Lemma parens_and cs : forallb atom_ok cs = true → parens_of (and_tokens cs) = [].
Proof.
  induction cs as [|a cs IH]; [done|]. intros [Ha Hcs]%andb_true_iff. destruct cs as [|b cs]; [by apply parens_atom|].
  change (parens_of (atom_tokens a ++ [(true, TWord "AND")] ++ and_tokens (b :: cs)) = []).
  by rewrite !parens_of_app, parens_atom, IH.
Qed.

Lemma statement_paired q : statement_ok q = true → paired (statement_tokens q).
Proof.
  destruct q as [q|i]; cbn [statement_ok statement_tokens].
  - intros [[[_ Hwh]%andb_true_iff _]%andb_true_iff _]%andb_true_iff. apply paired_cons; [done|].
    apply paired_app; [apply paired_comma, paired_item|]. unfold from_tokens. destruct (st_from q); [|apply paired_nil].
    do 2 (apply paired_cons; [done|]). apply paired_none. rewrite !parens_of_app.
    assert (Hw : parens_of (where_tokens (st_where q)) = []) by (destruct (st_where q); [done|]; by apply (parens_and (_ :: _))).
    rewrite Hw. by destruct (st_order q), (st_limit q).
  - intros _. unfold insert_tokens. do 3 (apply paired_cons; [done|]).
    set (cols := comma_tokens word_tokens true false (it_columns i)). set (rest := (true, TWord "VALUES") :: _).
    assert (Heq : (true, TSym "(") :: cols ++ (false, TSym ")") :: rest = ((true, TSym "(") :: cols ++ [(false, TSym ")")]) ++ rest)
      by (cbn; by rewrite <- app_assoc).
    rewrite Heq. apply paired_app; [by apply paired_group, parens_comma|].
    apply paired_cons; [done|]. apply paired_group, parens_comma, parens_lit.
Qed.

Lemma pairs_nesting k : nesting_le MAX_NESTING_DEPTH 0 (pairs k).
Proof.
  induction k as [|k IH]; intros i; [destruct i; vm_compute; lia|].
  destruct i as [|[|i]]; [vm_compute; lia..|]. exact (IH i).
Qed.

(** ** Texts without space around them *)

Lemma decode_some b l cs : utf8_decode (b :: l) = Some cs → cs ≠ [].
Proof.
  cbn [utf8_decode]. repeat case_match; try done; intros Hd; simplify_eq; by apply fmap_Some in Hd as (x&_&->).
Qed.

Lemma decode_two b b' l c : Z_of_byte b ≤ 127 → utf8_decode (b :: b' :: l) ≠ Some [c].
Proof.
  intros Hb. cbn [utf8_decode]. destruct (Z.leb_spec (Z_of_byte b) 127); [|lia].
  intros Hd. apply (fmap_Some (cons (Z_of_byte b))) in Hd as (x&Hx&Heq). apply decode_some in Hx. by injection Heq as _ <-.
Qed.

Lemma ws_len_head b l : printable b → ws_len (b :: l) = 0%nat.
Proof.
  intros Hb. unfold ws_len. rewrite printable_not_space by done. cbn [andb].
  assert (Hle : Z_of_byte b ≤ 127) by (unfold printable in Hb; lia).
  assert (Hx : ∀ b' r, match utf8_decode (b :: b' :: r) with Some [c] => is_whitespace c | _ => false end = false).
  { intros b' r. pose proof (decode_two b b' r) as Hd. destruct (utf8_decode (b :: b' :: r)) as [[|c [|]]|]; try done. by destruct (Hd c). }
  destruct l as [|b1 [|b2 l]]; [done|by rewrite Hx|by rewrite !Hx].
Qed.

Lemma not_cont b : printable b → is_cont b = false.
Proof. unfold printable. destruct b; cbn; try done; lia. Qed.

Lemma decode_last1 b b1 c : printable b → utf8_decode [b1; b] ≠ Some [c].
Proof.
  intros Hb. destruct (decide (Z_of_byte b1 ≤ 127)) as [Hle|Hgt]; [by apply decode_two|].
  cbn [utf8_decode]. destruct (Z.leb_spec (Z_of_byte b1) 127); [lia|]. rewrite not_cont by done. by repeat case_match.
Qed.
Lemma decode_last2 b b1 b2 c : printable b → utf8_decode [b2; b1; b] ≠ Some [c].
Proof.
  intros Hb. destruct (decide (Z_of_byte b2 ≤ 127)) as [Hle|Hgt]; [by apply decode_two|].
  cbn [utf8_decode]. destruct (Z.leb_spec (Z_of_byte b2) 127); [lia|]. rewrite (not_cont b), andb_false_r by done.
  assert (Hle : Z_of_byte b ≤ 127) by (unfold printable in Hb; lia). apply Z.leb_le in Hle. rewrite Hle. repeat case_match; done.
Qed.

Lemma ws_len_rev_head b l : printable b → ws_len_rev (b :: l) = 0%nat.
Proof.
  intros Hb. unfold ws_len_rev. rewrite printable_not_space by done. cbn [andb].
  destruct l as [|b1 l]; [done|]. pose proof (decode_last1 b b1) as H1'. pose proof (λ b2, decode_last2 b b1 b2) as H2'.
  destruct (utf8_decode [b1; b]) as [[|c [|]]|]; try (by destruct (H1' c)).
  all: destruct l as [|b2 l]; [done|]; specialize (H2' b2);
    destruct (utf8_decode [b2; b1; b]) as [[|c' [|]]|]; try done; by destruct (H2' c').
Qed.

(** A text that starts and ends with a visible ASCII character, and not with a
    semicolon, is left as it is. *)
Lemma trims_tight b b' mid sql :
  printable b → printable b' → b' ≠ semicolon → sql = b :: mid → last sql = Some b' →
  trim (trim_end_semicolons (trim sql)) = sql.
Proof.
  intros Hb Hb' Hsemi Hsql Hlast.
  assert (Hrev : ∃ r, rev sql = b' :: r).
  { apply last_Some in Hlast as [l ->]. exists (rev l). by rewrite rev_app_distr. }
  destruct Hrev as [r Hr].
  assert (Ht : trim sql = sql).
  { unfold trim. rewrite (trim_with_0 ws_len) by (rewrite Hsql; by apply ws_len_head).
    rewrite (trim_with_0 ws_len_rev) by (rewrite Hr; by apply ws_len_rev_head). apply rev_involutive. }
  rewrite Ht. unfold trim_end_semicolons. rewrite (trim_with_0 semi_len).
  - rewrite rev_involutive. exact Ht.
  - rewrite Hr. unfold semi_len. cbn [head]. by rewrite bool_decide_false by congruence.
Qed.

Definition end_byte (b : byte) : Prop := printable b ∧ b ≠ semicolon.

Lemma word_end b : word_byte b = true → end_byte b.
Proof. unfold end_byte, printable. by destruct b. Qed.

Lemma last_app_ne {A} (l k : list A) : k ≠ [] → last (l ++ k) = last k.
Proof. destruct k as [|x k _] using rev_ind; [done|]. intros _. by rewrite app_assoc, !last_snoc. Qed.

Lemma forall_last {A} (P : A → Prop) l : l ≠ [] → Forall P l → ∃ x, last l = Some x ∧ P x.
Proof.
  destruct l as [|x l _] using rev_ind; [done|]. intros _ [_ Hx]%Forall_app. exists x. split; [apply last_snoc|by inversion Hx].
Qed.

Lemma forallb_Forall {A} (f : A → bool) (P : A → Prop) l : (∀ x, f x = true → P x) → forallb f l = true → Forall P l.
Proof. intros HP. induction l as [|x l IH]; [done|]. cbn. intros [? ?]%andb_true_iff. constructor; auto. Qed.

Lemma text_end ts : phrase ts → ∃ b, last (text_bytes ts) = Some b ∧ end_byte b.
Proof.
  induction ts as [|[sp t] ts IH]; intros [Hs Hc]; [done|]. destruct ts as [|u ts].
  - clear IH. rewrite text_bytes_cons. pose proof (separated_head _ _ _ Hs) as Ht. unfold closed, last_token in Hc. cbn in Hc.
    destruct t as [w|n|s|s]; cbn [token_then print_tokens].
    + rewrite str_bytes_app, app_nil_r. cbn in Ht. destruct (str_bytes w) as [|b r]; [done|]. rewrite last_app_ne by done.
      apply andb_true_iff in Ht as [[Hb _]%andb_true_iff Hr]. apply forall_last; [done|]. constructor; [by apply word_end|].
      by eapply forallb_Forall, Hr; apply word_end.
    + rewrite str_bytes_app, app_nil_r. cbn in Ht. destruct (str_bytes n) as [|b r]; [done|]. rewrite last_app_ne by done.
      apply forall_last; [done|]. eapply (forallb_Forall digit_byte); [|exact Ht]. intros x Hx. by apply word_end, digit_byte_word.
    + rewrite str_bytes_cons, str_bytes_app. exists squote. split; [|split; [split; vm_compute; done|done]].
      rewrite last_app_ne by done.
      change (last ((Ascii.byte_of_ascii quote_char :: str_bytes (escape s)) ++ [squote]) = Some squote). by rewrite last_snoc.
    + rewrite str_bytes_app, app_nil_r. unfold one_of in Hc. apply bool_decide_eq_true in Hc.
      repeat (apply elem_of_cons in Hc as [->|Hc]); [..|by apply not_elem_of_nil in Hc];
        (rewrite last_app_ne by done; eexists; split; [done|]; split; [split; vm_compute; done|done]).
  - destruct IH as (b&Hb&He).
    { split; [by eapply separated_tail|]. unfold closed, last_token in *. by rewrite last_cons_cons in Hc. }
    exists b. split; [|done]. rewrite text_bytes_cons.
    assert (Hpre : ∃ pre, str_bytes (token_then t (print_tokens (u :: ts))) = pre ++ text_bytes (u :: ts)).
    { unfold text_bytes. destruct t as [w|n|s|s]; cbn [token_then]; rewrite ?str_bytes_cons, ?str_bytes_app, ?str_bytes_cons; try (by eexists).
      exists (Ascii.byte_of_ascii quote_char :: str_bytes (escape s) ++ [Ascii.byte_of_ascii quote_char]). cbn. by rewrite <- app_assoc. }
    destruct Hpre as [pre ->]. rewrite app_assoc, last_app_ne; [done|]. by intros Hx; rewrite Hx in Hb.
Qed.

Lemma statement_start q : ∃ b mid, str_bytes (statement_text q) = b :: mid ∧ printable b.
Proof. by destruct q; eexists _, _; (split; [done|split; vm_compute; done]). Qed.

(** The guards pass a statement of the fragment on unchanged: it is read as
    its tree, unless it is longer than the limit on queries. *)
Lemma parse_one_reads `{SqlReads} q :
  statement_ok q = true →
  parse_one parse_sql (str_bytes (statement_text q)) =
  Some (if (MAX_SQL_BYTES <? length (str_bytes (statement_text q)))%nat
        then Err (QueryTooLong (length (str_bytes (statement_text q))) MAX_SQL_BYTES)
        else Ok (statement_tree other_text q)).
Proof.
  intros Hq. pose proof (statement_phrase q Hq) as Hp. destruct (text_end _ Hp) as (b'&Hl&Hb'&Hsemi).
  destruct (statement_start q) as (b&mid&Hstart&Hb). unfold parse_one.
  rewrite (trims_tight b b' mid) by done.
  unfold check_query_limits. destruct (MAX_SQL_BYTES <? _)%nat; [done|].
  rewrite scan_sql_spec by lia. change (str_bytes (statement_text q)) with (text_bytes (statement_tokens q)) at 2.
  rewrite visible_tokens by apply Hp. destruct (statement_paired q Hq) as [k Hk]. unfold parens_of in Hk. rewrite Hk.
  rewrite (proj2 (check_parens_ok 0 0 (pairs k) ltac:(lia) ltac:(unfold MAX_NESTING_DEPTH; lia)) (pairs_nesting k)).
  cbn. by rewrite reads_statement.
Qed.
