(* ===== verification/McpText.v ===== *)
(** * vledger-mcp: JSON values and texts

    The values of [serde_json] that the tools read and write, and the helpers
    of [crates/vledger-mcp/src/tools.rs] and [network.rs] that validate
    arguments and print results.  Floating-point arithmetic (the success rate of
    a period summary) is that of the specification of binary64 numbers in the
    Standard Library. *)

From stdpp Require Import base gmap list strings option pretty.
From Stdlib Require Import ZArith Lia Strings.Byte Strings.Ascii SpecFloat.
From S2P Require Import Prelude Bytes Jsonl Crypto Merkle Money Entry WalRecord Wal Recovery Tx Page EntryDb Sql Store SqlGuard SqlExec SqlPlan AuditTrail Replication UserAuth Server SqlText.

#[local] Open Scope string_scope.
#[local] Open Scope Z_scope.
#[local] Open Scope list_scope.

(** ** JSON *)

(** [serde_json::Value]; an integer is in the range of [i64] or [u64], any other
    number is kept as its text. *)
Inductive JsonValue :=
  | JNull
  | JBool (b : bool)
  | JInt (z : Z)
  | JFloat (t : string)
  | JStr (s : string)
  | JArr (l : list JsonValue)
  | JObj (fields : list (string * JsonValue)).

Fixpoint field_lookup (key : string) (fields : list (string * JsonValue)) : option JsonValue :=
  match fields with
  | [] => None
  | (k, v) :: fields => if bool_decide (k = key) then Some v else field_lookup key fields
  end.

(** [value[key]]: null for a missing key and for a value that is no object. *)
Definition jget (key : string) (v : JsonValue) : JsonValue :=
  match v with JObj fields => default JNull (field_lookup key fields) | _ => JNull end.

Definition as_str (v : JsonValue) : option string := match v with JStr s => Some s | _ => None end.
Definition as_bool (v : JsonValue) : option bool := match v with JBool b => Some b | _ => None end.
Definition as_array (v : JsonValue) : option (list JsonValue) := match v with JArr l => Some l | _ => None end.
Definition json_i64 (v : JsonValue) : option Z :=
  match v with JInt z => if (- 2 ^ 63 <=? z) && (z <? 2 ^ 63) then Some z else None | _ => None end.
Definition json_u64 (v : JsonValue) : option Z :=
  match v with JInt z => if (0 <=? z) && (z <? 2 ^ 64) then Some z else None | _ => None end.

(** A tool's answer. *)
Definition text_content (text : string) (is_error : bool) : JsonValue :=
  JObj [("content", JArr [JObj [("type", JStr "text"); ("text", JStr text)]]); ("isError", JBool is_error)].
Definition ok_text (text : string) : JsonValue := text_content text false.
Definition err_text (text : string) : JsonValue := text_content text true.

(** ** Building texts *)

Fixpoint cat (parts : list string) : string :=
  match parts with [] => "" | p :: ps => p +:+ cat ps end.
Definition line (parts : list string) : string := cat parts +:+ lf.
Definition dq : string := String.String (Ascii.ascii_of_nat 34) "".
Definition backslash : string := String.String (Ascii.ascii_of_nat 92) "".
Definition backslash_char : Ascii.ascii := Ascii.ascii_of_nat 92.

(** [s.split(c)] *)
Fixpoint split_char (c : Ascii.ascii) (s : string) : list string :=
  match s with
  | EmptyString => [""]
  | String a s =>
      if bool_decide (a = c) then "" :: split_char c s
      else match split_char c s with p :: ps => String a p :: ps | [] => [String a ""] end
  end.

(** ["-".repeat(n)] *)
Fixpoint dashes (n : nat) : string := match n with O => "" | S n => "-" +:+ dashes n end.

(** [{:02}] *)
Definition two_digits (n : Z) : string := if n <? 10 then "0" +:+ pretty n else pretty n.

(** [{:?}] of an [Option<u64>] *)
Definition debug_option (o : option Z) : string :=
  match o with Some n => "Some(" +:+ pretty n +:+ ")" | None => "None" end.

(** ** Arguments *)

Definition has_char (c : Ascii.ascii) (s : string) : bool := existsb (λ a, bool_decide (a = c)) (String.list_ascii_of_string s).

Definition is_digit (c : Ascii.ascii) : bool := bool_decide (is_Some (digit c)).

Definition timestamp_char (c : Ascii.ascii) : bool :=
  is_digit c || existsb (λ a, bool_decide (a = c)) (String.list_ascii_of_string "-:TZ+").

(** The text of the first character of a UTF-8 string. *)
Definition first_char (s : string) : string :=
  match s with
  | String c _ =>
      let n := Z.of_N (Ascii.N_of_ascii c) in
      String.substring 0 (if n <? 128 then 1 else if n <? 224 then 2 else if n <? 240 then 3 else 4) s
  | EmptyString => ""
  end.

Fixpoint drop_valid (s : string) : string :=
  match s with String c r => if timestamp_char c then drop_valid r else s | EmptyString => "" end.

Definition not_a_timestamp (s : string) : string := "timestamp '" +:+ s +:+ "' is not a valid ISO-8601 date or datetime".

Definition validate_iso8601_timestamp (s : string) : Result string unit :=
  let len := String.length s in
  if bool_decide (s = "") || (32 <? len)%nat then Err (not_a_timestamp s)
  else match drop_valid s with
  | EmptyString =>
      if (len <? 10)%nat
         || negb (forallb (λ c, is_digit c) (take 4 (String.list_ascii_of_string s)))
         || negb (bool_decide (String.list_ascii_of_string s !! 4%nat = Some "-"%char))
      then Err (not_a_timestamp s)
      else Ok tt
  | rest =>
      Err ("timestamp '" +:+ s +:+ "' contains invalid character '" +:+ first_char rest +:+
           "'; only ISO-8601 dates (YYYY-MM-DD) and datetimes (YYYY-MM-DDTHH:MM:SSZ) are accepted")
  end.

(** The four replacements, one after the other. *)
Definition escape_like (s : string) : string :=
  escape (replace_char "_"%char (backslash +:+ "_") (replace_char "%"%char (backslash +:+ "%")
    (replace_char backslash_char (backslash +:+ backslash) s))).

(** A date gets a time of day. *)
Definition timestamp_from (s : string) : string := if has_char "T"%char s then s else s +:+ "T00:00:00Z".
Definition timestamp_to (s : string) : string := if has_char "T"%char s then s else s +:+ "T23:59:59Z".

(** ** Amounts *)

Definition zero_decimal (currency : string) : bool := bool_decide (currency ∈ ["JPY"; "KRW"; "VND"; "CLP"; "IDR"]).

Definition amount_text (separator : string) (minor_units : Z) (currency : string) : string :=
  if zero_decimal currency then currency +:+ " " +:+ pretty minor_units
  else currency +:+ " " +:+ pretty (Z.quot minor_units 100) +:+ separator +:+ two_digits (Z.abs (Z.rem minor_units 100)).

(** In [tools.rs] the two parts are separated by a comma ([replacen] with a
    count of zero changes nothing), in [network.rs] by a point. *)
Definition format_amount : Z → string → string := amount_text ",".
Definition format_amount_network : Z → string → string := amount_text ".".

(** [{:+}] as the tools write it: the sign, then the absolute value ([abs]
    wraps on the least integer). *)
Definition adjustment_text (fmt : Z → string) (adjustment : Z) : string :=
  if 0 <=? adjustment then "+" +:+ fmt adjustment else "-" +:+ fmt (as_i64 (Z.abs adjustment)).

(** ** The success rate *)

Definition f64 (z : Z) : spec_float := binary_normalize 53 1024 z 0 false.
Definition f64_div : spec_float → spec_float → spec_float := SFdiv 53 1024.
Definition f64_mul : spec_float → spec_float → spec_float := SFmul 53 1024.

(** [as u64]: towards zero, saturating, zero for a NaN. *)
Definition f64_as_u64 (x : spec_float) : Z :=
  match x with
  | S754_finite false m e => Z.min (Z.shiftl (Z.pos m) e) (2 ^ 64 - 1)
  | S754_infinity false => 2 ^ 64 - 1
  | _ => 0
  end.

Definition success_rate (posted failed : Z) : Z :=
  let all := as_i64 (posted + failed) in
  if 0 <? all then f64_as_u64 (f64_mul (f64_div (f64 posted) (f64 all)) (f64 100)) else 100.

(** ** Results *)

Definition ledger_value_to_string (v : Value) : string :=
  match v with
  | VNull => "NULL"
  | VInt n | VBigInt n => pretty n
  | VText s | VTimestamp s | VHash s | VUuid s => s
  | VBool b => if b then "true" else "false"
  end.

Definition scalar_str (r : QueryResult) : option string :=
  row ← head (qr_rows r); v ← head (row_values row); Some (ledger_value_to_string v).

Definition row_strings (row : Row) : list string := map ledger_value_to_string (row_values row).
Definition rows_as_strings (r : QueryResult) : list (list string) := map row_strings (qr_rows r).

Section texts.
Context `{LedgerExt}.

Definition result_to_text (r : QueryResult) : string :=
  match qr_columns r with
  | [] => line [qr_message r]
  | cols =>
      line [join_with " | " cols] +:+
      line [join_with "-+-" (map (λ c, dashes (String.length c)) cols)] +:+
      cat (map (λ row, line [join_with " | " (row_strings row)]) (qr_rows r)) +:+
      lf +:+ line [qr_message r] +:+
      match qr_proof r with
      | Some p => lf +:+ line ["Merkle proof: "; pretty (Z.of_nat (length (qp_leaf_proofs p))); " leaves — root "; hex_encode (qp_root p)]
      | None => ""
      end
  end.
End texts.

(** A cell of a row of strings, with a default. *)
Definition cell (d : string) (i : nat) (row : list string) : string := default d (row !! i).
Definition cell_i64 (i : nat) (row : list string) : Z := default 0 (s ← row !! i; parse_i64 s).

Definition contains_ok (s : string) : bool := contains "OK" (to_uppercase s).
