(* ===== verification/McpTools.v ===== *)
(** * vledger-mcp: the tools in direct mode

    Models [crates/vledger-mcp/src/tools.rs].  A tool runs its SQL under the
    write lock of the ledger; an execution that panics poisons the lock and ends
    the call.  An [Err] of [anyhow] is a [ToolErr] with its text. *)

From stdpp Require Import base gmap list strings option pretty.
From Stdlib Require Import ZArith Lia Strings.Byte.
From S2P Require Import Prelude Bytes Jsonl Crypto Merkle Money Entry WalRecord Wal Recovery Tx Page EntryDb Sql Store SqlGuard SqlExec SqlPlan AuditTrail Replication UserAuth Server SqlText McpText.

#[local] Open Scope string_scope.
#[local] Open Scope Z_scope.
#[local] Open Scope list_scope.

Inductive ToolError := ToolErr (msg : string) | ToolPanic.

Section state.
Context `{Ed25519}.

(** [Arc<RwLock<LedgerStore>>] *)
Record SharedLedger := mkSharedLedger { sh_store : LedgerStore; sh_poisoned : bool }.
Definition sh_set_store (s : LedgerStore) (l : SharedLedger) : SharedLedger := mkSharedLedger s (sh_poisoned l).
Definition sh_poison (l : SharedLedger) : SharedLedger := mkSharedLedger (sh_store l) true.
End state.

(** ** Arguments *)

Definition need {A} (get : JsonValue → option A) (key msg : string) (args : JsonValue) : Result ToolError A :=
  ok_or (get (jget key args)) (ToolErr msg).
Definition given {A} (get : JsonValue → option A) (key : string) (d : A) (args : JsonValue) : A :=
  default d (get (jget key args)).

Definition rule : string := "────────────────────────────────────────────".

Definition ACCOUNT_FIELDS : string := "SELECT id, code, name, account_type, currency, balance FROM accounts WHERE ".
Definition RESOLVE_FIELDS : string := "SELECT id, code, name, account_type, currency, domain, balance FROM accounts".
Definition LINE_FIELDS : string := "SELECT date, sequence, entry_id, description, dr_cr, amount, currency, domain FROM ledger_lines".

Section tools.
Context `{Blake3} `{Ed25519} `{!WalExt} `{!PageExt} `{LedgerCodecs} `{LedgerExt} `{SqlExt} `{AuthExt} `{ServerExt}.
Context (pkg_version : string).

Notation TM := (M SharedLedger ToolError).

(** What [run_sql] does with a statement that was read. *)
Definition run_stmt (session : Session) (stmt : Statement) : TM (Result string QueryResult) :=
  match plan expr_display value_display stmt with
  | Err e => mret (Err ("SQL plan error: " +:+ sql_error_text e))
  | Ok plan =>
      match check_plan_privilege (sn_role session) plan with
      | Err e => mret (Err ("Permission denied: " +:+ e))
      | Ok _ =>
          poisoned ← gets sh_poisoned;
          if (poisoned : bool) then mret (Err "Ledger lock poisoned")
          else
            r ← attempt (zoom sh_store sh_set_store (execute true plan));
            match r with
            | Ok q => mret (Ok q)
            | Err SqlPanic => _ ← modify sh_poison; throw ToolPanic
            | Err e => mret (Err ("Execution error: " +:+ sql_error_text e))
            end
      end
  end.

Definition run_sql (session : Session) (sql : string) : TM (Result string QueryResult) :=
  match parse_one parse_sql (str_bytes sql) with
  | None => mret (Err "SQL parse error")
  | Some (Err e) => mret (Err ("SQL parse error: " +:+ parse_error_text e))
  | Some (Ok stmt) => run_stmt session stmt
  end.

(** The common end of the low-level tools. *)
Definition report (label : string) (r : Result string QueryResult) : JsonValue :=
  match r with Ok q => ok_text (result_to_text q) | Err e => err_text (label +:+ e) end.

(** A number from the first cell of a result, zero when there is none. *)
Definition scalar_i64 (r : Result string QueryResult) : Z :=
  default 0 (q ← res_ok r; s ← scalar_str q; parse_i64 s).

(** ** Low-level tools *)

Definition tool_query_ledger (session : Session) (args : JsonValue) : TM JsonValue :=
  sql ← liftR (need as_str "sql" "'sql' argument is required" args);
  r ← run_sql session sql;
  mret (report "Query failed: " r).

Definition post_entry_sql (description debit_account credit_account : string) (amount : Z) (currency domain external_ref metadata : string) : string :=
  if negb (bool_decide (metadata = "")) then
    "INSERT INTO ledger (description, debit_account, credit_account, amount, currency, domain, external_ref, metadata) VALUES ('" +:+
    escape description +:+ "', '" +:+ escape debit_account +:+ "', '" +:+ escape credit_account +:+ "', " +:+ pretty amount +:+ ", '" +:+
    escape currency +:+ "', '" +:+ escape domain +:+ "', '" +:+ escape external_ref +:+ "', '" +:+ escape metadata +:+ "')"
  else if negb (bool_decide (external_ref = "")) then
    "INSERT INTO ledger (description, debit_account, credit_account, amount, currency, domain, external_ref) VALUES ('" +:+
    escape description +:+ "', '" +:+ escape debit_account +:+ "', '" +:+ escape credit_account +:+ "', " +:+ pretty amount +:+ ", '" +:+
    escape currency +:+ "', '" +:+ escape domain +:+ "', '" +:+ escape external_ref +:+ "')"
  else
    "INSERT INTO ledger (description, debit_account, credit_account, amount, currency, domain) VALUES ('" +:+
    escape description +:+ "', '" +:+ escape debit_account +:+ "', '" +:+ escape credit_account +:+ "', " +:+ pretty amount +:+ ", '" +:+
    escape currency +:+ "', '" +:+ escape domain +:+ "')".

Definition posted_text (q : QueryResult) : string :=
  qr_message q +:+
  match qr_entry_sequence q with Some seq => lf +:+ "Sequence: " +:+ pretty seq | None => "" end +:+
  match qr_entry_id q with Some id => lf +:+ "Entry ID: " +:+ uuid_string id | None => "" end.

Definition tool_post_entry (session : Session) (args : JsonValue) : TM JsonValue :=
  description ← liftR (need as_str "description" "'description' is required" args);
  debit_account ← liftR (need as_str "debit_account" "'debit_account' is required" args);
  credit_account ← liftR (need as_str "credit_account" "'credit_account' is required" args);
  amount ← liftR (need json_i64 "amount" "'amount' is required and must be an integer" args);
  currency ← liftR (need as_str "currency" "'currency' is required" args);
  let domain := given as_str "domain" "main" args in
  let external_ref := given as_str "external_ref" "" args in
  let metadata := given as_str "metadata" "" args in
  if amount <=? 0 then
    mret (err_text "'amount' must be a positive integer in minor units (e.g. cents). $100.00 USD = 10000")
  else
    r ← run_sql session (post_entry_sql description debit_account credit_account amount currency domain external_ref metadata);
    mret (match r with
          | Ok q => ok_text (posted_text q)
          | Err e => err_text ("Failed to post entry: " +:+ e)
          end).

Definition balance_sql (account : string) : string := "SELECT BALANCE('" +:+ escape account +:+ "')".

Definition tool_get_balance (session : Session) (args : JsonValue) : TM JsonValue :=
  account ← liftR (need as_str "account" "'account' is required" args);
  r ← run_sql session (balance_sql account);
  mret (report "Balance query failed: " r).

(** A condition [column = 'value'] for an argument that is given. *)
Definition condition (column : string) (args : JsonValue) : list string :=
  match as_str (jget column args) with Some v => [column +:+ " = '" +:+ escape v +:+ "'"] | None => [] end.

Definition conditions_sql (fields : string) (conditions : list string) (limit : Z) : string :=
  match conditions with
  | [] => fields +:+ " LIMIT " +:+ pretty limit
  | _ => fields +:+ " WHERE " +:+ join_with " AND " conditions +:+ " LIMIT " +:+ pretty limit
  end.

Definition tool_list_accounts (session : Session) (args : JsonValue) : TM JsonValue :=
  let conditions := condition "domain" args ++ condition "currency" args in
  let limit := given json_u64 "limit" 500 args in
  r ← run_sql session (conditions_sql RESOLVE_FIELDS conditions limit);
  mret (report "List accounts failed: " r).

Definition tool_query_ledger_lines (session : Session) (args : JsonValue) : TM JsonValue :=
  let limit := given json_u64 "limit" 100 args in
  let conditions := condition "domain" args in
  let go conditions :=
    r ← run_sql session (conditions_sql LINE_FIELDS conditions limit);
    mret (report "Ledger lines query failed: " r) in
  match as_str (jget "dr_cr" args) with
  | Some dr_cr =>
      if negb (bool_decide (dr_cr = "Debit")) && negb (bool_decide (dr_cr = "Credit"))
      then mret (err_text "'dr_cr' must be 'Debit' or 'Credit'")
      else go (conditions ++ ["dr_cr = '" +:+ dr_cr +:+ "'"])
  | None => go conditions
  end.

Definition verify_chain_sql (from to : Z) : string := "SELECT VERIFY_CHAIN(" +:+ pretty from +:+ ", " +:+ pretty to +:+ ")".
Definition merkle_root_sql (from to : Z) : string := "SELECT MERKLE_ROOT(" +:+ pretty from +:+ ", " +:+ pretty to +:+ ")".
Definition VERIFY_ALL : string := "SELECT VERIFY_CHAIN()".

Definition tool_verify_chain (session : Session) (args : JsonValue) : TM JsonValue :=
  r ← run_sql session (match json_u64 (jget "from_seq" args), json_u64 (jget "to_seq" args) with
                       | Some from, Some to => verify_chain_sql from to
                       | _, _ => VERIFY_ALL
                       end);
  mret (report "Chain verification failed: " r).

Definition tool_merkle_root (session : Session) (args : JsonValue) : TM JsonValue :=
  from_seq ← liftR (need json_u64 "from_seq" "'from_seq' is required" args);
  to_seq ← liftR (need json_u64 "to_seq" "'to_seq' is required" args);
  r ← run_sql session (merkle_root_sql from_seq to_seq);
  mret (report "Merkle root computation failed: " r).

(** ** Explaining a balance *)

(** The row of an account as the tools take it apart. *)
Record AcctRow := mkAcctRow {
  ar_id : string; ar_code : string; ar_name : string; ar_type : string; ar_currency : string; ar_balance : Z
}.
Definition acct_row (r : list string) : AcctRow :=
  mkAcctRow (cell "?" 0 r) (cell "?" 1 r) (cell "?" 2 r) (cell "?" 3 r) (cell "USD" 4 r) (cell_i64 5 r).

Definition debit_normal (acct_type : string) : bool := bool_decide (acct_type = "Asset") || bool_decide (acct_type = "Expense").

Definition recent_lines_sql (acct_id dr_cr : string) (limit : Z) : string :=
  "SELECT date, sequence, description, amount, currency FROM ledger_lines WHERE account_id = '" +:+ acct_id +:+
  "' AND dr_cr = '" +:+ dr_cr +:+ "' LIMIT " +:+ pretty limit.

(** [i64] sums in a release build. *)
Definition sum_i64 (nums : list Z) : Z := foldl (λ a n, as_i64 (a + n)) 0 nums.
Definition column_sum (q : QueryResult) : Z := sum_i64 (omap (λ r, s ← r !! 3%nat; parse_i64 s) (rows_as_strings q)).

Definition recent_section (title : string) (q : QueryResult) : string :=
  match qr_rows q with [] => "" | _ => title +:+ lf +:+ lf +:+ result_to_text q +:+ lf end.

Definition explain_text (a : AcctRow) (limit : Z) (debits credits : QueryResult) : string :=
  let normal_dir := if debit_normal (ar_type a) then "Debit" else "Credit" in
  let bal := format_amount (ar_balance a) (ar_currency a) in
  line ["## Balance Explanation — "; ar_name a; " ("; ar_code a; ")"] +:+ lf +:+
  line ["**Account type:** "; ar_type a; "  "] +:+
  line ["**Normal balance direction:** "; normal_dir; "  "] +:+
  line ["**Current balance:** "; bal; " (minor units: "; pretty (ar_balance a); ")"] +:+ lf +:+
  line ["### Recent activity (last "; pretty limit; " lines per side)"] +:+ lf +:+
  line ["| Side   | Transactions | Total |"] +:+
  line ["|--------|-------------|-------|"] +:+
  line ["| Debit  | "; pretty (Z.of_nat (length (qr_rows debits))); " | "; format_amount (column_sum debits) (ar_currency a); " |"] +:+
  line ["| Credit | "; pretty (Z.of_nat (length (qr_rows credits))); " | "; format_amount (column_sum credits) (ar_currency a); " |"] +:+ lf +:+
  recent_section "### Recent debits" debits +:+
  recent_section "### Recent credits" credits +:+
  "### Interpretation" +:+ lf +:+ lf +:+
  line ["The current balance of "; bal; " reflects the net of all debits and credits posted to this "; ar_type a;
        " account. For "; ar_type a; " accounts, increases are recorded as "; normal_dir;
        "s and decreases as the opposite side. To investigate further, call `query_ledger_lines` with the account_id `"; ar_id a;
        "` or call `reconcile_account` to verify the balance matches the sum of all posted lines."].

Definition tool_explain_balance (session : Session) (args : JsonValue) : TM JsonValue :=
  account ← liftR (need as_str "account" "'account' is required" args);
  let limit := given json_u64 "limit" 20 args in
  let esc := escape account in
  bal ← run_sql session ("SELECT BALANCE('" +:+ esc +:+ "')");
  match bal with
  | Err e => mret (err_text ("Could not get balance: " +:+ e))
  | Ok _ =>
      by_code ← run_sql session (ACCOUNT_FIELDS +:+ "code = '" +:+ esc +:+ "'");
      acct ← match by_code with
             | Ok q => mret (Ok q)
             | Err _ => run_sql session (ACCOUNT_FIELDS +:+ "id = '" +:+ esc +:+ "'")
             end;
      match acct with
      | Err e => mret (err_text ("Account not found: " +:+ e))
      | Ok acct_result =>
          match rows_as_strings acct_result with
          | [] => mret (err_text ("Account '" +:+ account +:+ "' not found"))
          | row :: _ =>
              let a := acct_row row in
              debits ← run_sql session (recent_lines_sql (ar_id a) "Debit" limit);
              credits ← run_sql session (recent_lines_sql (ar_id a) "Credit" limit);
              mret (ok_text (explain_text a limit (res_unwrap_or (qr_empty "") debits) (res_unwrap_or (qr_empty "") credits)))
          end
      end
  end.

(** ** Reconciling an account *)

Definition line_sum_sql (acct_id dr_cr : string) : string :=
  "SELECT SUM(amount) FROM ledger_lines WHERE account_id = '" +:+ acct_id +:+ "' AND dr_cr = '" +:+ dr_cr +:+ "'".

Definition computed_balance (a : AcctRow) (total_debits total_credits : Z) : Z :=
  as_i64 (if debit_normal (ar_type a) then total_debits - total_credits else total_credits - total_debits).
Definition reconcile_discrepancy (a : AcctRow) (total_debits total_credits : Z) : Z :=
  as_i64 (ar_balance a - computed_balance a total_debits total_credits).

Definition reconcile_text (a : AcctRow) (total_debits total_credits : Z) : string :=
  let computed := computed_balance a total_debits total_credits in
  let discrepancy := reconcile_discrepancy a total_debits total_credits in
  let fmt m := format_amount m (ar_currency a) in
  line ["## Reconciliation — "; ar_name a; " ("; ar_code a; ")"] +:+ lf +:+
  line ["| Field | Value |"] +:+ line ["|---|---|"] +:+
  line ["| Account type | "; ar_type a; " |"] +:+
  line ["| Currency | "; ar_currency a; " |"] +:+
  line ["| Total debits (all lines) | "; fmt total_debits; " |"] +:+
  line ["| Total credits (all lines) | "; fmt total_credits; " |"] +:+
  line ["| Computed balance | "; fmt computed; " |"] +:+
  line ["| Stored balance | "; fmt (ar_balance a); " |"] +:+
  line ["| Discrepancy | "; fmt discrepancy; " |"] +:+
  line ["| **Result** | **"; (if discrepancy =? 0 then "✓ BALANCED" else "✗ DISCREPANCY DETECTED"); "** |"] +:+ lf +:+
  (if discrepancy =? 0 then
     line ["The stored running balance matches the sum of all posted ledger lines. No discrepancy found."]
   else
     line ["**WARNING:** The stored balance differs from the sum of ledger lines by "; fmt (as_i64 (Z.abs discrepancy));
           ". This may indicate:"] +:+
     line ["- Pending or failed entries included in the balance cache"] +:+
     line ["- A balance cache inconsistency (run `vledger reconcile` on the server)"] +:+
     line ["- Entries posted outside the normal flow"] +:+ lf +:+
     line ["Run `VERIFY_CHAIN()` to confirm cryptographic integrity, then `vledger reconcile --data-dir <path>` to recompute all balances from scratch."]).

Definition tool_reconcile_account (session : Session) (args : JsonValue) : TM JsonValue :=
  account ← liftR (need as_str "account" "'account' is required" args);
  let esc := escape account in
  by_code ← run_sql session (ACCOUNT_FIELDS +:+ "code = '" +:+ esc +:+ "'");
  acct ← match by_code with
         | Ok q => mret (Ok q)
         | Err _ => run_sql session (ACCOUNT_FIELDS +:+ "id = '" +:+ esc +:+ "'")
         end;
  acct_result ← liftR (res_map_err (λ e, ToolErr ("Account not found: " +:+ e)) acct);
  match rows_as_strings acct_result with
  | [] => mret (err_text ("Account '" +:+ account +:+ "' not found"))
  | row :: _ =>
      let a := acct_row row in
      debits ← run_sql session (line_sum_sql (ar_id a) "Debit");
      credits ← run_sql session (line_sum_sql (ar_id a) "Credit");
      mret (ok_text (reconcile_text a (scalar_i64 debits) (scalar_i64 credits)))
  end.

(** ** Policy violations *)

(** One check: its section of the report and the violations it found. *)
Definition policy_check (session : Session) (enabled : bool) (sql found trailer none : string) : TM (string * Z) :=
  if enabled then
    r ← run_sql session sql;
    mret (match r with
          | Ok q =>
              match qr_rows q with
              | [] => (none, 0)
              | rows => (found +:+ lf +:+ lf +:+ result_to_text q +:+ trailer, Z.of_nat (length rows))
              end
          | Err _ => (none, 0)
          end)
  else mret ("", 0).

Definition large_amounts_sql (threshold : Z) : string :=
  "SELECT sequence, entry_id, description, amount, currency, dr_cr, date FROM ledger_lines WHERE amount > " +:+ pretty threshold +:+ " LIMIT 50".
Definition PENDING_SQL : string :=
  "SELECT sequence, id, description, domain, effective_at, posted_at FROM ledger WHERE status = 'Pending' LIMIT 50".
Definition MISSING_REF_SQL : string :=
  "SELECT sequence, id, description, domain, effective_at FROM ledger WHERE status = 'Posted' AND external_ref = '' LIMIT 50".
Definition FAILED_SQL : string :=
  "SELECT sequence, id, description, domain, effective_at FROM ledger WHERE status = 'Failed' LIMIT 50".

Definition violations_text (sections : list (string * Z)) : string :=
  let violations := foldl Z.add 0 (map snd sections) in
  "## Policy Violation Report" +:+ lf +:+ lf +:+
  cat (map fst sections) +:+
  "---" +:+ lf +:+ lf +:+ line ["**Total violations found: "; pretty violations; "**"] +:+
  (if violations =? 0 then lf +:+ line ["All configured policy checks passed. No violations detected."] else "").

Definition tool_find_policy_violations (session : Session) (args : JsonValue) : TM JsonValue :=
  let threshold := given json_i64 "large_amount_threshold_minor_units" 5000000 args in
  let pending_days := given json_u64 "pending_days_threshold" 3 args in
  let enabled key := given as_bool key true args in
  large ← policy_check session (enabled "check_large_amounts") (large_amounts_sql threshold)
    ("### ⚠ Large Transactions (> " +:+ pretty threshold +:+ " minor units)") lf
    ("### ✓ Large Transactions — none found above " +:+ pretty threshold +:+ " minor units" +:+ lf +:+ lf);
  pending ← policy_check session (enabled "check_pending_too_long") PENDING_SQL
    ("### ⚠ Pending Entries (unsettled — review if older than " +:+ pretty pending_days +:+ " days)") lf
    ("### ✓ Pending Entries — none found" +:+ lf +:+ lf);
  no_ref ← policy_check session (enabled "check_missing_external_ref") MISSING_REF_SQL
    "### ⚠ Posted Entries Missing External Reference"
    (lf +:+ "These entries have no external_ref. If your policy requires a payment gateway ID or external system reference on every posted entry, these need attention." +:+ lf +:+ lf)
    ("### ✓ External References — all posted entries have a reference" +:+ lf +:+ lf);
  failed ← policy_check session (enabled "check_failed_entries") FAILED_SQL
    "### ⚠ Failed Entries"
    (lf +:+ "These entries have status = 'Failed'. Review whether reversal or correction entries are needed." +:+ lf +:+ lf)
    ("### ✓ Failed Entries — none found" +:+ lf +:+ lf);
  mret (ok_text (violations_text [large; pending; no_ref; failed])).

(** ** Period summary and audit report *)

Definition base_filter (from to domain : string) : string :=
  "effective_at >= '" +:+ timestamp_from from +:+ "' AND effective_at <= '" +:+ timestamp_to to +:+ "' AND domain = '" +:+ escape domain +:+ "'".

Definition count_sql (from to domain : string) : string := "SELECT COUNT(sequence) FROM ledger WHERE " +:+ base_filter from to domain.
Definition count_status_sql (from to domain status : string) : string :=
  count_sql from to domain +:+ " AND status = '" +:+ status +:+ "'".
Definition volume_sql (from to domain : string) : string :=
  "SELECT SUM(amount) FROM ledger_lines WHERE date >= '" +:+ String.substring 0 10 (timestamp_from from) +:+ "' AND date <= '" +:+
  String.substring 0 10 (timestamp_to to) +:+ "' AND dr_cr = 'Debit' AND domain = '" +:+ escape domain +:+ "'".
Definition seq_range_sql (from to domain : string) : string :=
  "SELECT MIN(sequence), MAX(sequence) FROM ledger WHERE " +:+ base_filter from to domain.
Definition sample_sql (from to domain : string) : string :=
  "SELECT sequence, id, status, description, effective_at, content_hash FROM ledger WHERE " +:+ base_filter from to domain +:+ " LIMIT 5".

(** Indexing a row panics when it is too short. *)
Definition value_at (i : nat) (row : Row) : TM string :=
  match row_values row !! i with Some v => mret (ledger_value_to_string v) | None => throw ToolPanic end.

Definition parse_or_0 (s : string) : Z := default 0 (parse_u64 s).

Definition seq_range (session : Session) (from to domain : string) : TM (Z * Z) :=
  r ← run_sql session (seq_range_sql from to domain);
  match q ← res_ok r; head (qr_rows q) with
  | Some row => a ← value_at 0 row; b ← value_at 1 row; mret (parse_or_0 a, parse_or_0 b)
  | None => mret (0, 0)
  end.

Definition has_range (min_seq max_seq : Z) : bool := (0 <? min_seq) && (min_seq <=? max_seq).

Definition period_root (session : Session) (min_seq max_seq : Z) (none : string) : TM string :=
  if has_range min_seq max_seq then
    r ← run_sql session (merkle_root_sql min_seq max_seq);
    match q ← res_ok r; head (qr_rows q) with
    | Some row => value_at 3 row
    | None => mret "unavailable"
    end
  else mret none.

(** The arguments of a period; each date is validated. *)
Definition period_dates (from_msg to_msg : string) (args : JsonValue) : Result ToolError (string * string) :=
  from ← need as_str "from" from_msg args;
  to ← need as_str "to" to_msg args;
  _ ← res_map_err (λ e, ToolErr ("'from' parameter invalid: " +:+ e)) (validate_iso8601_timestamp from);
  _ ← res_map_err (λ e, ToolErr ("'to' parameter invalid: " +:+ e)) (validate_iso8601_timestamp to);
  Ok (from, to).

Record PeriodFigures := mkPeriodFigures {
  pf_posted : Z; pf_failed : Z; pf_pending : Z; pf_volume : Z; pf_min : Z; pf_max : Z; pf_merkle : string; pf_chain_ok : bool
}.

Definition summary_text (from to domain : string) (f : PeriodFigures) : string :=
  line ["## Period Summary — "; domain; " domain"] +:+
  line ["**Period:** "; from; " to "; to] +:+ lf +:+
  "### Transaction counts" +:+ lf +:+ lf +:+
  line ["| Status | Count |"] +:+ line ["|---|---|"] +:+
  line ["| Posted (committed) | "; pretty (pf_posted f); " |"] +:+
  line ["| Pending (unsettled) | "; pretty (pf_pending f); " |"] +:+
  line ["| Failed | "; pretty (pf_failed f); " |"] +:+
  line ["| Success rate | "; pretty (success_rate (pf_posted f) (pf_failed f)); "% |"] +:+ lf +:+
  "### Volume" +:+ lf +:+ lf +:+
  line ["Total debit volume: "; pretty (pf_volume f); " minor units"] +:+ lf +:+
  "### Sequence range" +:+ lf +:+ lf +:+
  line ["| Metric | Value |"] +:+ line ["|---|---|"] +:+
  line ["| First sequence | "; pretty (pf_min f); " |"] +:+
  line ["| Last sequence | "; pretty (pf_max f); " |"] +:+
  line ["| Entry count | "; pretty (wadd_u64 (Z.max 0 (pf_max f - pf_min f)) 1); " |"] +:+ lf +:+
  "### Cryptographic integrity" +:+ lf +:+ lf +:+
  line ["| Check | Result |"] +:+ line ["|---|---|"] +:+
  line ["| Hash chain | "; (if pf_chain_ok f then "✓ VERIFIED" else "✗ CHAIN BROKEN — INVESTIGATE IMMEDIATELY"); " |"] +:+
  line ["| Merkle root | `"; pf_merkle f; "` |"] +:+ lf +:+
  "### Summary" +:+ lf +:+ lf +:+
  line ["In the period from "; from; " to "; to; " on the '"; domain; "' domain, VectorLedger recorded "; pretty (pf_posted f);
        " posted entries with a total debit volume of "; pretty (pf_volume f); " minor units. "; pretty (pf_failed f);
        " entries failed and "; pretty (pf_pending f); " are still pending. The cryptographic hash chain over sequences ";
        pretty (pf_min f); "–"; pretty (pf_max f); " is "; (if pf_chain_ok f then "intact" else "BROKEN — requires immediate investigation");
        ". The Merkle commitment for this period is `"; pf_merkle f; "`."].

Definition scalar_ok (r : Result string QueryResult) : bool :=
  default false (q ← res_ok r; s ← scalar_str q; Some (contains_ok s)).

Definition period_figures (session : Session) (from to domain : string) : TM PeriodFigures :=
  posted ← run_sql session (count_status_sql from to domain "Posted");
  failed ← run_sql session (count_status_sql from to domain "Failed");
  pending ← run_sql session (count_status_sql from to domain "Pending");
  volume ← run_sql session (volume_sql from to domain);
  range ← seq_range session from to domain;
  let '(min_seq, max_seq) := range in
  merkle ← period_root session min_seq max_seq "no entries in period";
  chain_ok ← (if has_range min_seq max_seq then
                r ← run_sql session (verify_chain_sql min_seq max_seq); mret (scalar_ok r)
              else mret true);
  mret (mkPeriodFigures (scalar_i64 posted) (scalar_i64 failed) (scalar_i64 pending) (scalar_i64 volume) min_seq max_seq merkle chain_ok).

Definition tool_summarize_period (session : Session) (args : JsonValue) : TM JsonValue :=
  dates ← liftR (period_dates "'from' is required (ISO-8601 date, e.g. '2026-09-01')" "'to' is required (ISO-8601 date, e.g. '2026-09-30')" args);
  let '(from, to) := dates in
  let domain := given as_str "domain" "main" args in
  figures ← period_figures session from to domain;
  mret (ok_text (summary_text from to domain figures)).

Record AuditFigures := mkAuditFigures {
  au_count : Z; au_min : Z; au_max : Z; au_status : string; au_detail : string; au_root : string; au_sample : QueryResult; au_full_ok : bool
}.

Definition audit_text (from to tenant domain : string) (f : AuditFigures) : string :=
  line ["# Cryptographic Audit Report"] +:+ lf +:+
  line ["**Tenant:** "; tenant; "  "] +:+
  line ["**Audit period:** "; from; " to "; to; "  "] +:+
  line ["**Domain:** "; domain; "  "] +:+
  line ["**Generated by:** VectorLedger v"; pkg_version; "  "] +:+ lf +:+
  "---" +:+ lf +:+ lf +:+ "## 1. Ledger Summary" +:+ lf +:+ lf +:+
  line ["| Field | Value |"] +:+ line ["|---|---|"] +:+
  line ["| Total entries in period | "; pretty (au_count f); " |"] +:+
  line ["| First sequence | "; pretty (au_min f); " |"] +:+
  line ["| Last sequence | "; pretty (au_max f); " |"] +:+
  line ["| Full ledger chain integrity | "; (if au_full_ok f then "✓ VERIFIED" else "✗ BROKEN"); " |"] +:+ lf +:+
  "## 2. Period Hash Chain Verification" +:+ lf +:+ lf +:+
  line ["Chain status for sequences "; pretty (au_min f); "–"; pretty (au_max f); ": **"; au_status f; "**"] +:+ lf +:+
  au_detail f +:+ lf +:+
  "## 3. Merkle Commitment" +:+ lf +:+ lf +:+
  line ["The BLAKE3 Merkle root below is a cryptographic commitment over the `content_hash` of every entry in this period. Any third party can independently verify that a specific entry belongs to this commitment using `vledger audit-proof`."] +:+ lf +:+
  line ["```"] +:+ line ["Merkle root: "; au_root f] +:+ line ["Sequences:   "; pretty (au_min f); " – "; pretty (au_max f)] +:+
  line ["Entries:     "; pretty (au_count f)] +:+ line ["```"] +:+ lf +:+
  "## 4. Sample Entries" +:+ lf +:+ lf +:+
  line ["The following entries are a sample from the audit period. Each `content_hash` independently fingerprints its entry. Any modification to any field would produce a different hash and break the chain."] +:+ lf +:+
  result_to_text (au_sample f) +:+
  lf +:+ "## 5. Verification Instructions" +:+ lf +:+ lf +:+
  line ["To independently verify this report:"] +:+ lf +:+
  line ["```bash"] +:+
  line ["# Verify the full hash chain"] +:+
  line ["vledger sql --ask "; dq; "verify the chain integrity"; dq] +:+ lf +:+
  line ["# Generate a portable audit package (no database access needed by auditor)"] +:+
  line ["vledger audit-package "; backslash] +:+
  line ["  --data-dir ./vledger-data "; backslash] +:+
  line ["  --tenant "; dq; tenant; dq; " "; backslash] +:+
  line ["  --period-start "; from; " "; backslash] +:+
  line ["  --period-end "; to; " "; backslash] +:+
  line ["  --output audit-"; from; "-"; to; ".json"] +:+ lf +:+
  line ["# Verify the package (auditor runs this — no database required)"] +:+
  line ["vledger verify-audit-package --file audit-package.json"] +:+
  line ["```"] +:+ lf +:+
  "---" +:+ lf +:+ lf +:+
  line ["*This report was generated by VectorLedger's cryptographic audit engine. The Merkle root and chain verification results are derived from tamper-evident BLAKE3 hash chains and cannot be retrospectively altered without invalidating the chain. This report is a technical input to an audit — it does not by itself constitute regulatory compliance.*"].

Definition period_chain (session : Session) (min_seq max_seq : Z) : TM (string * string) :=
  if has_range min_seq max_seq then
    r ← run_sql session (verify_chain_sql min_seq max_seq);
    mret (match r with
          | Ok q => let detail := result_to_text q in (if contains_ok detail then "VERIFIED" else "FAILED", detail)
          | Err e => ("ERROR", e)
          end)
  else mret ("NO ENTRIES", "No entries in this period.").

Definition audit_figures (session : Session) (from to domain : string) : TM AuditFigures :=
  count ← run_sql session (count_sql from to domain);
  range ← seq_range session from to domain;
  let '(min_seq, max_seq) := range in
  chain ← period_chain session min_seq max_seq;
  root ← period_root session min_seq max_seq "no entries";
  sample ← run_sql session (sample_sql from to domain);
  full ← run_sql session VERIFY_ALL;
  mret (mkAuditFigures (scalar_i64 count) min_seq max_seq chain.1 chain.2 root (res_unwrap_or (qr_empty "") sample) (scalar_ok full)).

Definition tool_audit_report (session : Session) (args : JsonValue) : TM JsonValue :=
  dates ← liftR (period_dates "'from' is required (e.g. '2026-09-01')" "'to' is required (e.g. '2026-09-30')" args);
  let '(from, to) := dates in
  let tenant := given as_str "tenant" "VectorLedger Customer" args in
  let domain := given as_str "domain" "main" args in
  figures ← audit_figures session from to domain;
  mret (ok_text (audit_text from to tenant domain figures)).

(** ** Resolving an account *)

(** Add the rows whose first column is new. *)
Definition add_matches (matches : list (list string)) (r : Result string QueryResult) : list (list string) :=
  match r with
  | Ok q => foldl (λ ms vals, if existsb (λ m, bool_decide (head m = head vals)) ms then ms else ms ++ [vals]) matches (rows_as_strings q)
  | Err _ => matches
  end.

Definition metadata_sql (query : string) : string :=
  "SELECT sequence, description, metadata FROM ledger WHERE metadata LIKE '%" +:+ escape_like query +:+ "%' ESCAPE '" +:+ backslash +:+ "' LIMIT 5".

Definition STOP : string := "**⛔ STOP — do not post this entry.**".

Definition not_found_text (query : string) (metadata_rows : list (list string)) : string :=
  "### ✗ NOT FOUND" +:+ lf +:+ lf +:+
  line ["No account found with code, name, or UUID matching `"; query; "`."] +:+ lf +:+
  match metadata_rows with
  | [] => ""
  | _ =>
      line ["This name appears in transaction metadata (as sender/receiver), but VectorLedger accounts use numeric codes — the person's name in metadata does not identify their account."] +:+ lf +:+
      line ["**Recent transactions mentioning this name:**"] +:+ lf +:+
      cat (map (λ row, line ["- Sequence "; cell "?" 0 row; ": "; cell "?" 1 row]) metadata_rows) +:+ lf +:+
      line ["To find the actual account, look up the ledger_lines for one of these entries and identify the account UUID from the `account_id` column. Then use that UUID as the debit or credit account in `post_entry`."] +:+ lf
  end +:+
  STOP +:+ lf +:+ lf +:+
  line ["The correct action is to:"] +:+
  line ["1. Ask the user to provide the exact account code or UUID for each party, OR"] +:+
  line ["2. Ask the user to look up the account in their system of record and provide it, OR"] +:+
  line ["3. Use `query_ledger` with `SELECT * FROM ledger_lines WHERE account_id = '<uuid>'` to confirm an account belongs to the correct person before using it."] +:+ lf +:+
  line ["Never assign a random or unverified account to a named individual."].

Definition found_text (r : list string) : string :=
  "### ✓ FOUND — single match" +:+ lf +:+ lf +:+
  line ["| Field | Value |"] +:+ line ["|---|---|"] +:+
  line ["| Account ID | `"; cell "?" 0 r; "` |"] +:+
  line ["| Code | "; cell "?" 1 r; " |"] +:+
  line ["| Name | "; cell "?" 2 r; " |"] +:+
  line ["| Type | "; cell "?" 3 r; " |"] +:+
  line ["| Currency | "; cell "?" 4 r; " |"] +:+
  line ["| Domain | "; cell "?" 5 r; " |"] +:+
  line ["| Balance | "; pretty (cell_i64 6 r); " minor units |"] +:+ lf +:+
  line ["✓ This account can be used in `post_entry` as `debit_account` or `credit_account` using the Account ID above."] +:+ lf +:+
  line ["**Before posting, confirm with the user** that this is the correct account for the intended party."].

Definition multiple_text (matches : list (list string)) : string :=
  line ["### ⚠ MULTIPLE MATCHES ("; pretty (Z.of_nat (length matches)); " accounts found)"] +:+ lf +:+
  line ["| Account ID | Code | Name | Type | Currency | Balance |"] +:+ line ["|---|---|---|---|---|---|"] +:+
  cat (map (λ r, line ["| `"; cell "?" 0 r; "` | "; cell "?" 1 r; " | "; cell "?" 2 r; " | "; cell "?" 3 r; " | "; cell "?" 4 r; " | "; cell "?" 6 r; " |"]) matches) +:+ lf +:+
  STOP +:+ lf +:+ lf +:+
  line ["Multiple accounts match this query. Ask the user to specify which account ID to use before proceeding."].

Definition resolve_answer (query : string) (matches metadata_rows : list (list string)) : JsonValue :=
  let title := line ["## Account Resolution — "; dq; query; dq] +:+ lf in
  match matches with
  | [] => err_text (title +:+ not_found_text query metadata_rows)
  | [r] => ok_text (title +:+ found_text r)
  | _ => err_text (title +:+ multiple_text matches)
  end.

Definition tool_resolve_account (session : Session) (args : JsonValue) : TM JsonValue :=
  query ← liftR (need as_str "query" "'query' is required — name, code, or UUID to resolve" args);
  let esc := escape query in
  by_code ← run_sql session (RESOLVE_FIELDS +:+ " WHERE code = '" +:+ esc +:+ "'");
  by_name ← run_sql session (RESOLVE_FIELDS +:+ " WHERE name = '" +:+ esc +:+ "'");
  by_uuid ← run_sql session (RESOLVE_FIELDS +:+ " WHERE id = '" +:+ esc +:+ "'");
  by_metadata ← run_sql session (metadata_sql query);
  let matches := foldl add_matches [] [by_code; by_name; by_uuid] in
  mret (resolve_answer query matches (default [] (rows_as_strings <$> res_ok by_metadata))).

(** ** Proposing a correction *)

Definition entry_sql (sequence : Z) : string :=
  "SELECT sequence, id, status, description, domain, effective_at, external_ref, content_hash, chain_hash, metadata FROM ledger WHERE sequence = " +:+ pretty sequence.
Definition entry_lines_sql (sequence : Z) : string :=
  "SELECT account_id, dr_cr, amount, currency FROM ledger_lines WHERE sequence = " +:+ pretty sequence +:+ " ORDER BY dr_cr".

(** [&s[..16]] of an ASCII text. *)
Definition prefix16 (s : string) : TM string :=
  if (16 <=? String.length s)%nat then mret (String.substring 0 16 s) else throw ToolPanic.

Record Proposal := mkProposal {
  pr_sequence : Z; pr_correct : Z; pr_original : Z; pr_description : string; pr_debit : string; pr_credit : string;
  pr_currency : string; pr_domain : string; pr_entry_id : string; pr_content_hash : string; pr_chain_hash : string
}.

Definition proposal_text (p : Proposal) : string :=
  let fmt m := format_amount m (pr_currency p) in
  let seq := pretty (pr_sequence p) in
  "## Correction Proposal" +:+ lf +:+ lf +:+
  rule +:+ lf +:+ lf +:+
  line ["**Original entry:** #"; seq; "  "] +:+
  line ["**Description:** "; pr_description p; "  "] +:+
  line ["**Original amount:** "; fmt (pr_original p); "  "] +:+
  line ["**Correct amount:** "; fmt (pr_correct p); "  "] +:+
  line ["**Net adjustment:** "; adjustment_text fmt (as_i64 (pr_correct p - pr_original p)); "  "] +:+ lf +:+
  rule +:+ lf +:+ lf +:+
  "### Proposed actions" +:+ lf +:+ lf +:+
  line ["**1. Reverse entry #"; seq; "** *(flip debit and credit)*  "] +:+
  line ["   Debit:  `"; pr_credit p; "` — "; fmt (pr_original p); "  "] +:+
  line ["   Credit: `"; pr_debit p; "` — "; fmt (pr_original p); "  "] +:+ lf +:+
  line ["**2. Post correction** *(restore correct amount)*  "] +:+
  line ["   Debit:  `"; pr_debit p; "` — "; fmt (pr_correct p); "  "] +:+
  line ["   Credit: `"; pr_credit p; "` — "; fmt (pr_correct p); "  "] +:+ lf +:+
  rule +:+ lf +:+ lf +:+
  "### What will be preserved" +:+ lf +:+ lf +:+
  line ["| Field | Value |"] +:+ line ["|---|---|"] +:+
  line ["| Historical entry | ✓ PRESERVED — entry #"; seq; " is never modified |"] +:+
  line ["| Original content_hash | ✓ PRESERVED — `"; pr_content_hash p; "` |"] +:+
  line ["| Original chain_hash | ✓ PRESERVED — `"; pr_chain_hash p; "` |"] +:+
  line ["| New entries | Will be APPENDED as new sequences |"] +:+
  line ["| Double-entry balance | ✓ Both new entries will balance |"] +:+
  line ["| Hash chain | ✓ Extended with reversal and correction |"] +:+ lf +:+
  rule +:+ lf +:+ lf +:+
  "### ⚠ Awaiting confirmation" +:+ lf +:+ lf +:+
  line ["**Ask the user:** *"; dquoted "Shall I proceed with this correction?"; "*"] +:+ lf +:+
  line ["If confirmed, call `execute_correction` with:"] +:+
  line ["```json"] +:+ line ["{"] +:+
  line ["  "; dquoted "sequence"; ": "; seq; ","] +:+
  line ["  "; dquoted "correct_amount_minor_units"; ": "; pretty (pr_correct p); ","] +:+
  line ["  "; dquoted "original_description"; ": "; dquoted (pr_description p); ","] +:+
  line ["  "; dquoted "debit_account_id"; ": "; dquoted (pr_debit p); ","] +:+
  line ["  "; dquoted "credit_account_id"; ": "; dquoted (pr_credit p); ","] +:+
  line ["  "; dquoted "original_amount_minor_units"; ": "; pretty (pr_original p); ","] +:+
  line ["  "; dquoted "currency"; ": "; dquoted (pr_currency p); ","] +:+
  line ["  "; dquoted "domain"; ": "; dquoted (pr_domain p); ","] +:+
  line ["  "; dquoted "original_entry_id"; ": "; dquoted (pr_entry_id p)] +:+
  line ["}"] +:+ line ["```"] +:+ lf +:+
  line ["Do NOT call `execute_correction` without explicit user confirmation."].

Definition line_side (side : string) (r : list string) : bool := bool_decide (r !! 1%nat = Some side).

(** Indexing an account of a line panics on an empty row. *)
Definition first_cell (r : list string) : TM string :=
  match head r with Some s => mret s | None => throw ToolPanic end.

Definition tool_propose_correction (session : Session) (args : JsonValue) : TM JsonValue :=
  sequence ← liftR (need json_u64 "sequence" "'sequence' is required" args);
  correct ← liftR (need json_i64 "correct_amount_minor_units"
    "'correct_amount_minor_units' is required (integer minor units, e.g. 40192 for $401.92)" args);
  let seq := pretty sequence in
  if correct <=? 0 then mret (err_text "'correct_amount_minor_units' must be a positive integer")
  else
    entry ← run_sql session (entry_sql sequence);
    match entry with
    | Err e => mret (err_text ("Could not look up entry #" +:+ seq +:+ ": " +:+ e))
    | Ok entry_result =>
        match qr_rows entry_result with
        | [] => mret (err_text ("Entry #" +:+ seq +:+ " not found"))
        | entry_row :: _ =>
            let vals := row_strings entry_row in
            let status := cell "" 2 vals in
            if negb (bool_decide (status = "Posted")) then
              mret (err_text ("Entry #" +:+ seq +:+ " has status '" +:+ status +:+ "' — only 'Posted' entries can be corrected." +:+ lf +:+
                "A reversal can only be applied to a committed Posted entry."))
            else
              lines ← run_sql session (entry_lines_sql sequence);
              match lines with
              | Err e => mret (err_text ("Could not look up lines for #" +:+ seq +:+ ": " +:+ e))
              | Ok lines_result =>
                  if (length (qr_rows lines_result) <? 2)%nat then
                    mret (err_text ("Entry #" +:+ seq +:+ " does not have the expected 2 journal lines"))
                  else
                    let line_vals := rows_as_strings lines_result in
                    match List.find (line_side "Debit") line_vals, List.find (line_side "Credit") line_vals with
                    | Some d, Some c =>
                        debit ← first_cell d;
                        credit ← first_cell c;
                        content_hash ← prefix16 (cell "" 7 vals);
                        chain_hash ← prefix16 (cell "" 8 vals);
                        mret (ok_text (proposal_text (mkProposal sequence correct (cell_i64 2 d) (cell "" 3 vals) debit credit
                          (cell "USD" 3 d) (cell "" 4 vals) (cell "" 1 vals) content_hash chain_hash)))
                    | _, _ => mret (err_text ("Could not determine debit/credit accounts for #" +:+ seq))
                    end
              end
        end
    end.

(** ** Executing a correction *)

Record CorrectionArgs := mkCorrectionArgs {
  ca_sequence : Z; ca_correct : Z; ca_original : Z; ca_debit : string; ca_credit : string;
  ca_description : string; ca_entry_id : string; ca_currency : string; ca_domain : string
}.

Definition correction_args (args : JsonValue) : Result ToolError CorrectionArgs :=
  sequence ← need json_u64 "sequence" "'sequence' is required" args;
  correct ← need json_i64 "correct_amount_minor_units" "'correct_amount_minor_units' is required" args;
  original ← need json_i64 "original_amount_minor_units" "'original_amount_minor_units' is required" args;
  debit ← need as_str "debit_account_id" "'debit_account_id' is required" args;
  credit ← need as_str "credit_account_id" "'credit_account_id' is required" args;
  description ← need as_str "original_description" "'original_description' is required" args;
  entry_id ← need as_str "original_entry_id" "'original_entry_id' is required" args;
  Ok (mkCorrectionArgs sequence correct original debit credit description entry_id
        (given as_str "currency" "USD" args) (given as_str "domain" "main" args)).

Definition reversal_key (a : CorrectionArgs) : string := "reversal-of-" +:+ ca_entry_id a.
Definition correction_key (a : CorrectionArgs) : string := "correction-of-" +:+ ca_entry_id a.

Definition by_ref_sql (external_ref : string) : string :=
  "SELECT sequence FROM ledger WHERE external_ref = '" +:+ escape external_ref +:+ "' LIMIT 1".

(** [i as u64] of the first value, when it is an integer. *)
Definition existing_seq (r : Result string QueryResult) : option Z :=
  q ← res_ok r; row ← head (qr_rows q); v ← head (row_values row);
  match v with VBigInt i | VInt i => Some (i mod 2 ^ 64) | _ => None end.

Definition correction_meta (verb : string) (a : CorrectionArgs) : string :=
  "{" +:+ dquoted verb +:+ ":" +:+ dquoted (ca_entry_id a) +:+ "," +:+ dquoted "reason" +:+ ":" +:+ dquoted "amount_correction" +:+ "," +:+
  dquoted "original_amount" +:+ ":" +:+ pretty (ca_original a) +:+ "," +:+ dquoted "correct_amount" +:+ ":" +:+ pretty (ca_correct a) +:+ "}".

Definition correction_insert (description debit credit : string) (amount : Z) (currency domain ref_prefix entry_id key meta : string) : string :=
  "INSERT INTO ledger (description, debit_account, credit_account, amount, currency, domain, external_ref, idempotency_key, metadata) VALUES ('" +:+
  escape description +:+ "', '" +:+ escape debit +:+ "', '" +:+ escape credit +:+ "', " +:+ pretty amount +:+ ", '" +:+
  escape currency +:+ "', '" +:+ escape domain +:+ "', '" +:+ ref_prefix +:+ escape entry_id +:+ "', '" +:+ escape key +:+ "', '" +:+ escape meta +:+ "')".

(** The description is escaped here and once more in the statement. *)
Definition reversal_sql (a : CorrectionArgs) : string :=
  correction_insert ("Reversal of #" +:+ pretty (ca_sequence a) +:+ " — " +:+ escape (ca_description a))
    (ca_credit a) (ca_debit a) (ca_original a) (ca_currency a) (ca_domain a) "reversal-of-" (ca_entry_id a) (reversal_key a)
    (correction_meta "reverses" a).
Definition correction_sql (a : CorrectionArgs) : string :=
  correction_insert ("Correction of #" +:+ pretty (ca_sequence a) +:+ " — " +:+ escape (ca_description a))
    (ca_debit a) (ca_credit a) (ca_correct a) (ca_currency a) (ca_domain a) "correction-of-" (ca_entry_id a) (correction_key a)
    (correction_meta "corrects" a).

Definition text_ok (r : Result string QueryResult) : bool :=
  default false (q ← res_ok r; Some (contains_ok (result_to_text q))).

Definition already_text (a : CorrectionArgs) (rev_seq cor_seq : Z) (chain_ok : bool) : string :=
  let fmt m := format_amount m (ca_currency a) in
  "## Correction Already Applied (Idempotent)" +:+ lf +:+ lf +:+
  rule +:+ lf +:+ lf +:+
  "This correction was already posted on a prior run. " +:+
  "No new entries have been written." +:+ lf +:+ lf +:+
  line ["✓ **Reversal** (existing)  "] +:+
  line ["  Sequence: "; pretty rev_seq; "  "] +:+
  line ["  Amount:   "; fmt (ca_original a); " (original amount reversed)  "] +:+ lf +:+
  line ["✓ **Correction** (existing)  "] +:+
  line ["  Sequence: "; pretty cor_seq; "  "] +:+
  line ["  Amount:   "; fmt (ca_correct a); " (correct amount)  "] +:+ lf +:+
  rule +:+ lf +:+ lf +:+
  line ["| Hash chain | "; (if chain_ok then "✓ Verified" else "⚠ Verify manually with VERIFY_CHAIN()"); " |"].

Definition option_text (o : option Z) : string := match o with Some n => pretty n | None => "?" end.

Definition complete_text (a : CorrectionArgs) (reversal_seq : option Z) (reversal_id : string) (correction_seq : option Z) (correction_id : string)
    (chain_ok : bool) : string :=
  let fmt m := format_amount m (ca_currency a) in
  let seq := pretty (ca_sequence a) in
  "## Correction Complete" +:+ lf +:+ lf +:+
  rule +:+ lf +:+ lf +:+
  line ["✓ **Reversal posted**  "] +:+
  line ["  Sequence: "; option_text reversal_seq; "  "] +:+
  line ["  Entry ID: "; reversal_id; "  "] +:+
  line ["  Amount:   "; fmt (ca_original a); " (original amount reversed)  "] +:+ lf +:+
  line ["✓ **Correction posted**  "] +:+
  line ["  Sequence: "; option_text correction_seq; "  "] +:+
  line ["  Entry ID: "; correction_id; "  "] +:+
  line ["  Amount:   "; fmt (ca_correct a); " (correct amount)  "] +:+ lf +:+
  rule +:+ lf +:+ lf +:+
  line ["| Check | Result |"] +:+ line ["|---|---|"] +:+
  line ["| Double-entry balanced | ✓ Both entries balance |"] +:+
  line ["| Original entry #"; seq; " | ✓ PRESERVED — not modified |"] +:+
  line ["| Hash chain | "; (if chain_ok then "✓ Extended and verified" else "⚠ Verify manually with VERIFY_CHAIN()"); " |"] +:+
  line ["| Net adjustment | "; adjustment_text fmt (as_i64 (ca_correct a - ca_original a)); " |"] +:+ lf +:+
  line ["The ledger now reflects "; fmt (ca_correct a); " for this transaction. The original entry #"; seq; " at "; fmt (ca_original a);
        " is preserved in full with its original content_hash and chain_hash intact."].

Definition entry_id_text (o : option Z) : string := match o with Some id => uuid_string id | None => "?" end.

(** The reversal: the one found, or a new one. *)
Definition obtain_reversal (session : Session) (a : CorrectionArgs) (existing : option Z) : TM (Result string (option Z * string)) :=
  match existing with
  | Some seq =>
      r ← run_sql session ("SELECT id FROM ledger WHERE sequence = " +:+ pretty seq +:+ " LIMIT 1");
      mret (Ok (Some seq, default "?" (q ← res_ok r; row ← head (qr_rows q); v ← head (row_values row); Some (ledger_value_to_string v))))
  | None =>
      r ← run_sql session (reversal_sql a);
      mret (match r with Ok q => Ok (qr_entry_sequence q, entry_id_text (qr_entry_id q)) | Err e => Err e end)
  end.

Definition tool_execute_correction (session : Session) (args : JsonValue) : TM JsonValue :=
  a ← liftR (correction_args args);
  rev_check ← run_sql session (by_ref_sql (reversal_key a));
  cor_check ← run_sql session (by_ref_sql (correction_key a));
  match existing_seq rev_check, existing_seq cor_check with
  | Some rev_seq, Some cor_seq =>
      chain ← run_sql session VERIFY_ALL;
      mret (ok_text (already_text a rev_seq cor_seq (text_ok chain)))
  | existing, _ =>
      reversal ← obtain_reversal session a existing;
      match reversal with
      | Err e => mret (err_text ("Failed to post reversal: " +:+ e))
      | Ok (reversal_seq, reversal_id) =>
          correction ← run_sql session (correction_sql a);
          match correction with
          | Err e =>
              mret (err_text ("Reversal was posted (sequence " +:+ debug_option reversal_seq +:+ ") but correction FAILED: " +:+ e +:+ lf +:+
                "The ledger now has an unmatched reversal. Post the correction manually."))
          | Ok q =>
              chain ← run_sql session VERIFY_ALL;
              mret (ok_text (complete_text a reversal_seq reversal_id (qr_entry_sequence q) (entry_id_text (qr_entry_id q)) (text_ok chain)))
          end
      end
  end.

(** ** Dispatch *)

Definition dispatch_tool (name : string) (session : Session) (args : JsonValue) : TM JsonValue :=
  let named n := bool_decide (name = n) in
  if named "query_ledger" then tool_query_ledger session args
  else if named "post_entry" then tool_post_entry session args
  else if named "get_balance" then tool_get_balance session args
  else if named "list_accounts" then tool_list_accounts session args
  else if named "query_ledger_lines" then tool_query_ledger_lines session args
  else if named "verify_chain" then tool_verify_chain session args
  else if named "merkle_root" then tool_merkle_root session args
  else if named "explain_balance" then tool_explain_balance session args
  else if named "reconcile_account" then tool_reconcile_account session args
  else if named "find_policy_violations" then tool_find_policy_violations session args
  else if named "summarize_period" then tool_summarize_period session args
  else if named "audit_report" then tool_audit_report session args
  else if named "resolve_account" then tool_resolve_account session args
  else if named "propose_correction" then tool_propose_correction session args
  else if named "execute_correction" then tool_execute_correction session args
  else throw (ToolErr ("Unknown tool: " +:+ name)).
End tools.
