(* ===== verification/McpSafety.v ===== *)
(** * vledger-mcp: what a tool call can change

    Every SQL text that a tool builds from its arguments is a statement of the
    fragment of [SqlText], with the arguments as its literals: quotes in an
    argument are doubled, a date has passed the validation, and nothing an
    argument contains can end its literal.  So a tool changes the ledger only
    under a session that may post entries, and only three of the tools can do so
    at all; [post_entry] posts exactly the entry its arguments describe. *)

From stdpp Require Import base gmap list strings option pretty.
From Stdlib Require Import ZArith Lia Strings.Byte Strings.Ascii.
From S2P Require Import Prelude Bytes Jsonl Crypto Merkle Money Entry AuditTrail SqlGuard WalRecord Wal Recovery Replication Tx Page EntryDb Sql Store SqlExec SqlSafety SqlPlan SqlFront UserAuth Server ServerSafety SqlText McpText McpTools.

#[local] Open Scope string_scope.
#[local] Open Scope Z_scope.
#[local] Open Scope list_scope.

(** * The statements the tools build *)

(** ** Strings *)

Lemma str_app_nil (s : string) : s +:+ "" = s.
Proof. induction s as [|c s IH]; [done|]. exact (f_equal (String c) IH). Qed.
Lemma str_app_assoc (s t u : string) : (s +:+ t) +:+ u = s +:+ (t +:+ u).
Proof. induction s as [|c s IH]; [done|]. exact (f_equal (String c) IH). Qed.

Lemma replace_char_app c t (a b : string) : replace_char c t (a +:+ b) = replace_char c t a +:+ replace_char c t b.
Proof.
  induction a as [|x a IH]; [done|]. change (String x a +:+ b) with (String x (a +:+ b)). cbn [replace_char]. rewrite IH.
  case_bool_decide; [by rewrite str_app_assoc|done].
Qed.
Lemma escape_app (a b : string) : escape (a +:+ b) = escape a +:+ escape b.
Proof. apply replace_char_app. Qed.

(** Texts without quotes. *)
Definition quote_free (s : string) : Prop := escape s = s.

Lemma quote_free_app (a b : string) : quote_free a → quote_free b → quote_free (a +:+ b).
Proof. unfold quote_free. intros Ha Hb. by rewrite escape_app, Ha, Hb. Qed.

Fixpoint all_chars (P : Ascii.ascii → bool) (s : string) : bool :=
  match s with String c s => P c && all_chars P s | EmptyString => true end.

Lemma all_chars_quote_free P s : P quote_char = false → all_chars P s = true → quote_free s.
Proof.
  intros HP. unfold quote_free, escape. induction s as [|c s IH]; [done|]. cbn. intros [Hc Hs]%andb_true_iff.
  rewrite bool_decide_false by (intros ->; congruence). by rewrite IH.
Qed.

Lemma pretty_neg n : n < 0 → pretty n = "-" +:+ pretty (- n).
Proof. destruct n; try lia. done. Qed.

(** ** Numbers *)

Lemma digits_pretty_go x s : digits 0 (pretty_N_go x s) = digits (Z.of_N x) s.
Proof.
  revert s. induction (N.lt_wf_0 x) as [x _ IH]; intros s.
  destruct (decide (x = 0%N)) as [->|Hx]; [by rewrite pretty_N_go_0|].
  rewrite pretty_N_go_step by lia. rewrite IH by (apply N.div_lt; lia). cbn [digits].
  assert (Hd : digit (pretty_N_char (x `mod` 10)) = Some (Z.of_N (x `mod` 10))).
  { assert (Hlt : (x `mod` 10 < 10)%N) by (apply N.mod_lt; lia). revert Hlt. generalize (x `mod` 10)%N. intros d Hd.
    assert (d = 0 ∨ d = 1 ∨ d = 2 ∨ d = 3 ∨ d = 4 ∨ d = 5 ∨ d = 6 ∨ d = 7 ∨ d = 8 ∨ d = 9)%N as Hc by lia.
    by destruct_or! Hc; subst. }
  rewrite Hd. cbn. f_equal. rewrite <- N2Z.inj_div, <- N2Z.inj_mod || idtac.
  rewrite (N.div_mod x 10) at 3 by lia. lia.
Qed.

Lemma unsigned_pretty n : 0 ≤ n → unsigned (pretty n) = Some n.
Proof.
  intros Hn. destruct n as [|p|p]; [done| |lia]. change (pretty (Z.pos p)) with (pretty (N.pos p)).
  unfold pretty, pretty_N. rewrite decide_False by done. unfold unsigned.
  pose proof (digits_pretty_go (N.pos p) "") as Hd. destruct (pretty_N_go (N.pos p) "") eqn:Hs; [|exact Hd].
  rewrite pretty_N_go_step in Hs by lia. by apply pretty_go_nonempty in Hs.
Qed.

(** The first character of a number is a digit. *)
Lemma pretty_first n : 0 ≤ n → ∃ c r, pretty n = String c r ∧ c ≠ "+"%char ∧ c ≠ "-"%char.
Proof.
  intros Hn. pose proof (pretty_num_ok n Hn) as Hok. cbn [token_ok] in Hok.
  destruct (pretty n) as [|c r]; [done|]. exists c, r. split; [done|]. rewrite str_bytes_cons in Hok.
  apply andb_true_iff in Hok as [Hc _]. split; intros ->; by vm_compute in Hc.
Qed.

Lemma as_i64_id z : i64_ok z → as_i64 z = z.
Proof.
  unfold i64_ok, as_i64. intros Hz. destruct (decide (0 ≤ z)).
  - rewrite Z.mod_small by lia. destruct (Z.ltb_spec z (2 ^ 63)); lia.
  - assert (Hm : z mod 2 ^ 64 = z + 2 ^ 64) by (rewrite <- (Z_mod_plus_full z 1), Z.mod_small; lia).
    rewrite Hm. destruct (Z.ltb_spec (z + 2 ^ 64) (2 ^ 63)); lia.
Qed.
Lemma checked_i64_ok n : i64_ok n → checked_i64 n = Some n.
Proof.
  unfold i64_ok, checked_i64, I64_MIN, I64_MAX. intros Hn.
  destruct (Z.leb_spec (- 2 ^ 63) n), (Z.leb_spec n (2 ^ 63 - 1)); cbn; (done || lia).
Qed.

Lemma parse_i64_pretty n : i64_ok n → parse_i64 (pretty n) = Some n.
Proof.
  intros Hn. destruct (decide (0 ≤ n)) as [Hpos|Hneg].
  - destruct (pretty_first n) as (c&r&Hs&Hplus&Hminus); [lia|]. unfold parse_i64. rewrite Hs.
    rewrite bool_decide_false by done. unfold strip_plus. rewrite bool_decide_false by done. rewrite <- Hs, unsigned_pretty by lia.
    by apply checked_i64_ok.
  - rewrite pretty_neg by lia. change (parse_i64 ("-" +:+ pretty (- n))) with (m ← unsigned (pretty (- n)); checked_i64 (- m)).
    rewrite unsigned_pretty by lia. cbn. rewrite Z.opp_involutive. by apply checked_i64_ok.
Qed.

(** ** Queries *)

Notation cols l := (map IName l).
Definition query (items : list Item) (table : string) (conds : list Atom) (lim : option Z) : StatementText :=
  TSelect (mkSelectText items (Some table) conds None lim).
Definition call (f : string) (args : list Lit) : StatementText := TSelect (mkSelectText [ICall f (map ALit args)] None [] None None).

Definition ACCOUNT_ITEMS : list Item := cols ["id"; "code"; "name"; "account_type"; "currency"; "balance"].
Definition RESOLVE_ITEMS : list Item := cols ["id"; "code"; "name"; "account_type"; "currency"; "domain"; "balance"].
Definition LINE_ITEMS : list Item := cols ["date"; "sequence"; "entry_id"; "description"; "dr_cr"; "amount"; "currency"; "domain"].
Definition SUM_ITEMS : list Item := [ICall "SUM" [ACol "amount"]].
Definition COUNT_ITEMS : list Item := [ICall "COUNT" [ACol "sequence"]].
Definition RANGE_ITEMS : list Item := [ICall "MIN" [ACol "sequence"]; ICall "MAX" [ACol "sequence"]].

(** A text with a number at its end, or with nothing symbolic after the last
    literal, prints as the text of the code. *)
Ltac sql_text := intros; unfold statement_text; cbn -[escape pretty]; rewrite ?str_app_nil; reflexivity.

Lemma balance_text a : balance_sql a = statement_text (call "BALANCE" [LText a]).
Proof. sql_text. Qed.
Lemma account_text c a : ACCOUNT_FIELDS +:+ c +:+ " = '" +:+ escape a +:+ "'" = statement_text (query ACCOUNT_ITEMS "accounts" [AEq c (LText a)] None).
Proof. sql_text. Qed.
Lemma resolve_text c a : RESOLVE_FIELDS +:+ " WHERE " +:+ c +:+ " = '" +:+ escape a +:+ "'" = statement_text (query RESOLVE_ITEMS "accounts" [AEq c (LText a)] None).
Proof. sql_text. Qed.
Lemma verify_text a b : 0 ≤ a → 0 ≤ b → verify_chain_sql a b = statement_text (call "VERIFY_CHAIN" [LNum a; LNum b]).
Proof.
  intros Ha Hb. unfold statement_text, call. cbn -[escape pretty Z.ltb].
  destruct (Z.ltb_spec a 0); [lia|]. destruct (Z.ltb_spec b 0); [lia|]. reflexivity.
Qed.
Lemma merkle_text a b : 0 ≤ a → 0 ≤ b → merkle_root_sql a b = statement_text (call "MERKLE_ROOT" [LNum a; LNum b]).
Proof.
  intros Ha Hb. unfold statement_text, call. cbn -[escape pretty Z.ltb].
  destruct (Z.ltb_spec a 0); [lia|]. destruct (Z.ltb_spec b 0); [lia|]. reflexivity.
Qed.
Lemma verify_all_text : VERIFY_ALL = statement_text (call "VERIFY_CHAIN" []).
Proof. reflexivity. Qed.

(** Conditions from optional arguments. *)
Definition condition_atoms (column : string) (args : JsonValue) : list Atom :=
  match as_str (jget column args) with Some v => [AEq column (LText v)] | None => [] end.

Lemma list_accounts_text args lim :
  conditions_sql RESOLVE_FIELDS (condition "domain" args ++ condition "currency" args) lim =
  statement_text (query RESOLVE_ITEMS "accounts" (condition_atoms "domain" args ++ condition_atoms "currency" args) (Some lim)).
Proof.
  unfold condition, condition_atoms. destruct (as_str (jget "domain" args)), (as_str (jget "currency" args));
    unfold statement_text; cbn -[escape pretty]; rewrite ?str_app_nil, ?str_app_assoc; reflexivity.
Qed.
Lemma ledger_lines_text args (side : list string) lim :
  side = [] ∨ side = ["Debit"] ∨ side = ["Credit"] →
  conditions_sql LINE_FIELDS (condition "domain" args ++ map (λ s, "dr_cr = '" +:+ s +:+ "'") side) lim =
  statement_text (query LINE_ITEMS "ledger_lines" (condition_atoms "domain" args ++ map (λ s, AEq "dr_cr" (LText s)) side) (Some lim)).
Proof.
  unfold condition, condition_atoms. intros Hs. destruct (as_str (jget "domain" args)); destruct_or! Hs; subst side;
    unfold statement_text; cbn -[escape pretty]; rewrite ?str_app_nil, ?str_app_assoc; reflexivity.
Qed.

(** The queries on an account's lines hold its identifier as it is. *)
Lemma recent_lines_text id side lim : quote_free id → quote_free side →
  recent_lines_sql id side lim =
  statement_text (query (cols ["date"; "sequence"; "description"; "amount"; "currency"]) "ledger_lines"
    [AEq "account_id" (LText id); AEq "dr_cr" (LText side)] (Some lim)).
Proof.
  intros Hid Hside. unfold statement_text, recent_lines_sql. cbn -[escape pretty]. rewrite Hid, Hside, ?str_app_nil. reflexivity.
Qed.
Lemma line_sum_text id side : quote_free id → quote_free side →
  line_sum_sql id side =
  statement_text (query SUM_ITEMS "ledger_lines" [AEq "account_id" (LText id); AEq "dr_cr" (LText side)] None).
Proof. intros Hid Hside. unfold statement_text, line_sum_sql. cbn -[escape pretty]. rewrite Hid, Hside. reflexivity. Qed.

Lemma large_amounts_text n :
  large_amounts_sql n = statement_text (query (cols ["sequence"; "entry_id"; "description"; "amount"; "currency"; "dr_cr"; "date"])
    "ledger_lines" [ACmp "amount" ">" (LNum n)] (Some 50)).
Proof.
  unfold statement_text, large_amounts_sql. cbn -[escape pretty Z.ltb]. destruct (Z.ltb_spec n 0) as [Hn|Hn]; [|done].
  by rewrite (pretty_neg n Hn).
Qed.
Lemma pending_text : PENDING_SQL = statement_text (query (cols ["sequence"; "id"; "description"; "domain"; "effective_at"; "posted_at"])
  "ledger" [AEq "status" (LText "Pending")] (Some 50)).
Proof. reflexivity. Qed.
Lemma missing_ref_text : MISSING_REF_SQL = statement_text (query (cols ["sequence"; "id"; "description"; "domain"; "effective_at"])
  "ledger" [AEq "status" (LText "Posted"); AEq "external_ref" (LText "")] (Some 50)).
Proof. reflexivity. Qed.
Lemma failed_text : FAILED_SQL = statement_text (query (cols ["sequence"; "id"; "description"; "domain"; "effective_at"])
  "ledger" [AEq "status" (LText "Failed")] (Some 50)).
Proof. reflexivity. Qed.

(** Periods: validated dates hold no quotes. *)
Lemma drop_valid_all s : drop_valid s = "" → all_chars timestamp_char s = true.
Proof. induction s as [|c s IH]; [done|]. cbn. destruct (timestamp_char c); [exact IH|done]. Qed.

Lemma validated_chars s : validate_iso8601_timestamp s = Ok tt → all_chars timestamp_char s = true.
Proof.
  unfold validate_iso8601_timestamp. case_match; [done|]. destruct (drop_valid s) eqn:Hd; [|done]. intros _. by apply drop_valid_all.
Qed.
Lemma all_chars_app P (a b : string) : all_chars P (a +:+ b) = all_chars P a && all_chars P b.
Proof. induction a as [|c a IH]; [done|]. change (String c a +:+ b) with (String c (a +:+ b)). cbn. by rewrite IH, andb_assoc. Qed.
Lemma all_chars_substring P n s : all_chars P s = true → all_chars P (String.substring 0 n s) = true.
Proof.
  revert n. induction s as [|c s IH]; intros n; [by destruct n|]. destruct n; [done|]. cbn. intros [Hc Hs]%andb_true_iff.
  rewrite Hc. by apply IH.
Qed.

Definition period_ok (from to : string) : Prop := all_chars timestamp_char from = true ∧ all_chars timestamp_char to = true.

Lemma from_chars s : all_chars timestamp_char s = true → all_chars timestamp_char (timestamp_from s) = true.
Proof. intros Hs. unfold timestamp_from. case_match; [done|]. rewrite all_chars_app, Hs. by vm_compute. Qed.
Lemma to_chars s : all_chars timestamp_char s = true → all_chars timestamp_char (timestamp_to s) = true.
Proof. intros Hs. unfold timestamp_to. case_match; [done|]. rewrite all_chars_app, Hs. by vm_compute. Qed.
Lemma timestamp_quote_free s : all_chars timestamp_char s = true → quote_free s.
Proof. by apply all_chars_quote_free. Qed.

Definition period_atoms (from to domain : string) : list Atom :=
  [ACmp "effective_at" ">=" (LText (timestamp_from from)); ACmp "effective_at" "<=" (LText (timestamp_to to)); AEq "domain" (LText domain)].

Section period.
Context (from to domain : string) (Hp : period_ok from to).

Lemma count_text : count_sql from to domain = statement_text (query COUNT_ITEMS "ledger" (period_atoms from to domain) None).
Proof.
  destruct Hp as [Hf Ht]. unfold statement_text, count_sql, base_filter. cbn -[escape pretty timestamp_from timestamp_to].
  rewrite (timestamp_quote_free _ (from_chars _ Hf)), (timestamp_quote_free _ (to_chars _ Ht)). reflexivity.
Qed.
Lemma count_status_text status : quote_free status →
  count_status_sql from to domain status =
  statement_text (query COUNT_ITEMS "ledger" (period_atoms from to domain ++ [AEq "status" (LText status)]) None).
Proof.
  intros Hs. destruct Hp as [Hf Ht]. unfold statement_text, count_status_sql, count_sql, base_filter.
  cbn -[escape pretty timestamp_from timestamp_to].
  rewrite (timestamp_quote_free _ (from_chars _ Hf)), (timestamp_quote_free _ (to_chars _ Ht)), Hs. rewrite ?str_app_assoc.
  cbn -[escape pretty timestamp_from timestamp_to]. rewrite ?str_app_assoc. reflexivity.
Qed.
Lemma volume_text :
  volume_sql from to domain = statement_text (query SUM_ITEMS "ledger_lines"
    [ACmp "date" ">=" (LText (String.substring 0 10 (timestamp_from from))); ACmp "date" "<=" (LText (String.substring 0 10 (timestamp_to to)));
     AEq "dr_cr" (LText "Debit"); AEq "domain" (LText domain)] None).
Proof.
  destruct Hp as [Hf Ht]. unfold statement_text, volume_sql. cbn -[escape pretty timestamp_from timestamp_to String.substring].
  rewrite (timestamp_quote_free _ (all_chars_substring _ 10 _ (from_chars _ Hf))), (timestamp_quote_free _ (all_chars_substring _ 10 _ (to_chars _ Ht))). reflexivity.
Qed.
Lemma seq_range_text : seq_range_sql from to domain = statement_text (query RANGE_ITEMS "ledger" (period_atoms from to domain) None).
Proof.
  destruct Hp as [Hf Ht]. unfold statement_text, seq_range_sql, base_filter. cbn -[escape pretty timestamp_from timestamp_to].
  rewrite (timestamp_quote_free _ (from_chars _ Hf)), (timestamp_quote_free _ (to_chars _ Ht)). reflexivity.
Qed.
Lemma sample_text : sample_sql from to domain =
  statement_text (query (cols ["sequence"; "id"; "status"; "description"; "effective_at"; "content_hash"]) "ledger" (period_atoms from to domain) (Some 5)).
Proof.
  destruct Hp as [Hf Ht]. unfold statement_text, sample_sql, base_filter. cbn -[escape pretty timestamp_from timestamp_to].
  rewrite (timestamp_quote_free _ (from_chars _ Hf)), (timestamp_quote_free _ (to_chars _ Ht)). rewrite ?str_app_assoc. cbn -[escape timestamp_from timestamp_to]. rewrite ?str_app_assoc. reflexivity.
Qed.
End period.

(** The pattern of a metadata search. *)
Definition like_text (q : string) : string :=
  replace_char "_"%char (backslash +:+ "_") (replace_char "%"%char (backslash +:+ "%") (replace_char backslash_char (backslash +:+ backslash) q)).

Lemma metadata_text q :
  metadata_sql q = statement_text (query (cols ["sequence"; "description"; "metadata"]) "ledger"
    [ALike "metadata" ("%" +:+ like_text q +:+ "%") backslash] (Some 5)).
Proof.
  unfold statement_text, metadata_sql, escape_like. fold (like_text q).
  cbn -[escape pretty like_text String.append]. rewrite (escape_app "%"), (escape_app (like_text q)). cbn -[escape like_text].
  rewrite ?str_app_assoc. reflexivity.
Qed.

Lemma entry_text n : 0 ≤ n →
  entry_sql n = statement_text (query (cols ["sequence"; "id"; "status"; "description"; "domain"; "effective_at"; "external_ref"; "content_hash";
    "chain_hash"; "metadata"]) "ledger" [AEq "sequence" (LNum n)] None).
Proof.
  intros Hn. unfold statement_text, entry_sql. cbn -[escape pretty Z.ltb]. destruct (Z.ltb_spec n 0); [lia|].
  cbn -[pretty]. by rewrite str_app_nil.
Qed.
Lemma entry_lines_text n : 0 ≤ n →
  entry_lines_sql n = statement_text (TSelect (mkSelectText (cols ["account_id"; "dr_cr"; "amount"; "currency"]) (Some "ledger_lines")
    [AEq "sequence" (LNum n)] (Some "dr_cr") None)).
Proof.
  intros Hn. unfold statement_text, entry_lines_sql. cbn -[escape pretty Z.ltb]. destruct (Z.ltb_spec n 0); [lia|]. reflexivity.
Qed.
Lemma id_of_text n : 0 ≤ n →
  "SELECT id FROM ledger WHERE sequence = " +:+ pretty n +:+ " LIMIT 1" =
  statement_text (query (cols ["id"]) "ledger" [AEq "sequence" (LNum n)] (Some 1)).
Proof. intros Hn. unfold statement_text. cbn -[escape pretty Z.ltb]. destruct (Z.ltb_spec n 0); [lia|]. reflexivity. Qed.
Lemma by_ref_text r : by_ref_sql r = statement_text (query (cols ["sequence"]) "ledger" [AEq "external_ref" (LText r)] (Some 1)).
Proof. reflexivity. Qed.

(** ** Inserts *)

Definition entry_insert (columns : list string) (values : list Lit) : StatementText := TInsert (mkInsertText "ledger" columns values false).

Definition BASE_COLUMNS : list string := ["description"; "debit_account"; "credit_account"; "amount"; "currency"; "domain"].

(** The columns and values of the three forms of [post_entry]. *)
Definition post_columns (external_ref metadata : string) : list string :=
  BASE_COLUMNS ++ (if bool_decide (metadata = "") then if bool_decide (external_ref = "") then [] else ["external_ref"]
                   else ["external_ref"; "metadata"]).
Definition post_values (description debit credit : string) (amount : Z) (currency domain external_ref metadata : string) : list Lit :=
  [LText description; LText debit; LText credit; LNum amount; LText currency; LText domain] ++
  (if bool_decide (metadata = "") then if bool_decide (external_ref = "") then [] else [LText external_ref]
   else [LText external_ref; LText metadata]).

Lemma post_entry_text d da ca n cur dom r m : 0 < n →
  post_entry_sql d da ca n cur dom r m = statement_text (entry_insert (post_columns r m) (post_values d da ca n cur dom r m)).
Proof.
  intros Hn. unfold post_entry_sql, post_columns, post_values, statement_text.
  destruct (bool_decide (m = "")) eqn:Hm; [destruct (bool_decide (r = "")) eqn:Hr|]; cbn -[escape pretty Z.ltb];
    (destruct (Z.ltb_spec n 0); [lia|]); reflexivity.
Qed.

Definition CORRECTION_COLUMNS : list string := BASE_COLUMNS ++ ["external_ref"; "idempotency_key"; "metadata"].

Lemma correction_insert_text d da ca n cur dom p id k m : quote_free p →
  correction_insert d da ca n cur dom p id k m =
  statement_text (entry_insert CORRECTION_COLUMNS
    [LText d; LText da; LText ca; LNum n; LText cur; LText dom; LText (p +:+ id); LText k; LText m]).
Proof.
  intros Hp. unfold correction_insert, statement_text. cbn -[escape pretty Z.ltb String.append].
  destruct (Z.ltb_spec n 0) as [Hn|Hn]; [rewrite (pretty_neg n Hn)|]; cbn -[escape pretty String.append];
    rewrite (escape_app p), Hp; cbn -[escape pretty]; rewrite ?str_app_assoc; reflexivity.
Qed.


(** * What a call can change *)

Section safety.
Context `{Blake3} `{Ed25519} `{!WalExt} `{!PageExt} `{LedgerCodecs} `{LedgerExt} `{SqlExt} `{AuthExt} `{SE : ServerExt} `{!SqlReads}.
Context (pkg_version : string) (session : Session).

Notation TM := (M SharedLedger ToolError).

(** The ledger's store is [s]. *)
Definition store_is (s : LedgerStore) (l : SharedLedger) : Prop := sh_store l = s.

(** ** Statements *)

Definition too_long (q : StatementText) : bool := (MAX_SQL_BYTES <? length (str_bytes (statement_text q)))%nat.

(** A statement of the fragment is executed as its tree. *)
Lemma run_sql_statement q : statement_ok q = true →
  run_sql session (statement_text q) =
  if too_long q then mret (Err ("SQL parse error: " +:+ parse_error_text (QueryTooLong (length (str_bytes (statement_text q))) MAX_SQL_BYTES)))
  else run_stmt session (statement_tree other_text q).
Proof. intros Hq. unfold run_sql. rewrite parse_one_reads by done. unfold too_long. by destruct (MAX_SQL_BYTES <? _)%nat. Qed.

Lemma run_plan_keeps s0 (p : LogicalPlan) : is_write p = false → preserves (store_is s0) (attempt (E:=ToolError) (zoom sh_store sh_set_store (execute true p))).
Proof.
  intros Hp. apply preserves_attempt. apply (preserves_zoom_field (λ s, s = s0)); [done|].
  assert (Hx : execute true p = read_execute true p) by (by destruct p). rewrite Hx. apply read_execute_keeps.
Qed.

Lemma run_stmt_keeps s0 stmt :
  (∀ p, plan expr_display value_display stmt = Ok p → check_plan_privilege (sn_role session) p = Ok tt → is_write p = false) →
  preserves (store_is s0) (run_stmt session stmt).
Proof.
  intros Hp. unfold run_stmt. destruct (plan _ _ _) as [p|]; [|apply preserves_ret].
  destruct (check_plan_privilege _ p) as [[]|] eqn:Hc; [|apply preserves_ret].
  apply preserves_bind; [apply preserves_gets|]. intros []; [apply preserves_ret|].
  apply preserves_bind; [by apply run_plan_keeps, Hp|]. intros [q|[]]; try apply preserves_ret.
  apply preserves_bind; [by apply preserves_modify|intros; apply preserves_throw].
Qed.

Lemma select_read_plan q p : plan expr_display value_display (StQuery q) = Ok p → is_write p = false.
Proof. unfold plan. intros (raw&Hq&[= <-])%res_bind_Ok. rewrite optimize_id. by eapply plan_query_read. Qed.

Lemma run_select_keeps s0 q : select_ok q = true → preserves (store_is s0) (run_sql session (statement_text (TSelect q))).
Proof.
  intros Hq. rewrite run_sql_statement by done. case_match; [apply preserves_ret|]. apply run_stmt_keeps. intros p Hp _.
  by eapply select_read_plan.
Qed.

(** Without the right to write no SQL text changes the ledger. *)
Lemma run_sql_keeps s0 sql : may_write (sn_role session) = false → preserves (store_is s0) (run_sql session sql).
Proof.
  intros Hr. unfold run_sql. destruct (parse_one _ _) as [[stmt|]|]; try apply preserves_ret. apply run_stmt_keeps.
  intros p _ Hc. destruct (is_write p) eqn:Hw; [|done]. by rewrite (write_privilege _ _ Hc Hw) in Hr.
Qed.

Lemma preserves_bind_yields {S E A B} (P : S → Prop) (Q : A → Prop) (m : M S E A) (f : A → M S E B) :
  yields Q m → preserves P m → (∀ a, Q a → preserves P (f a)) → preserves P (m ≫= f).
Proof.
  intros Hy Hm Hf W s Hs. unfold mbind, M_bind. pose proof (Hm W s Hs) as Hk. pose proof (Hy (W, s)) as Hq.
  destruct (m (W, s)) as [[a|e] [W' s']]; [|done]. apply Hf; [by eapply Hq|done].
Qed.

Lemma mbind_liftR {S E A B} (a : A) (f : A → M S E B) : (liftR (Ok a) ≫= f) = f a.
Proof. reflexivity. Qed.

(** ** The row of an account *)

Definition ACCOUNT_KEEP : list string := ["id"; "code"; "name"; "account_type"; "currency"; "balance"].

Definition acct_cells (s : LedgerStore) (a : Account) : list string :=
  [uuid_string (acc_id a); acc_code a; acc_name a; account_type_text (account_type a); currency_code a; pretty (balance (acc_id a) s)].

Lemma scan_accounts_cells W s f :
  ∃ q, read_execute true (ScanAccounts (Some f) ACCOUNT_KEEP) (W, s) = (Ok q, (W, s)) ∧
    rows_as_strings q = map (acct_cells s) (List.filter (account_selected (Some f)) (all_accounts s)).
Proof.
  destruct (scan_accounts_eq W s (Some f)) as [msg Hs]. cbn [read_execute]. rewrite (mbind_eq _ _ _ _ _ Hs).
  set (accts := List.filter _ _). clearbody accts.
  assert (Hnew : filter (λ c, c ∈ ACCOUNT_COLUMNS) ACCOUNT_KEEP = ACCOUNT_KEEP) by (by vm_compute).
  set (prow := λ a : Account, mkRow ACCOUNT_KEEP [VUuid (uuid_string (acc_id a)); VText (acc_code a); VText (acc_name a);
     VText (account_type_text (account_type a)); VText (currency_code a); VBigInt (balance (acc_id a) s)]).
  assert (Hrows : collect (map (λ row, Row_new ACCOUNT_KEEP (map (λ c, default VNull (row_get c row)) ACCOUNT_KEEP))
    (map (account_row s) accts)) = Ok (E:=SqlError) (map prow accts)).
  { rewrite map_map. by apply collect_total. }
  eexists. split.
  - unfold project, liftR, ACCOUNT_KEEP at 1. cbn [qr_columns qr_rows qr_of_rows]. rewrite Hnew, Hrows. done.
  - unfold rows_as_strings. cbn [qr_rows]. rewrite map_map. done.
Qed.

Definition account_filter (column a : string) : EntryFilter := if bool_decide (column = "code") then ByAccountCode a else ByAccountId a.

Definition account_query (column a : string) : StatementText := query ACCOUNT_ITEMS "accounts" [AEq column (LText a)] None.

Lemma account_plan column a : column = "code" ∨ column = "id" →
  plan expr_display value_display (statement_tree other_text (account_query column a)) =
  Ok (ScanAccounts (Some (account_filter column a)) ACCOUNT_KEEP).
Proof. intros [-> | ->]; by vm_compute. Qed.

(** What the account lookup of the tools returns. *)
Lemma run_account_query column a W l : column = "code" ∨ column = "id" →
  ∃ r, run_sql session (statement_text (account_query column a)) (W, l) = (Ok r, (W, l)) ∧
    ∀ q, r = Ok q → rows_as_strings q =
      map (acct_cells (sh_store l)) (List.filter (account_selected (Some (account_filter column a))) (all_accounts (sh_store l))).
Proof.
  intros Hc. rewrite run_sql_statement by (by destruct Hc as [-> | ->]). destruct (too_long _); [by eexists|].
  unfold run_stmt. rewrite account_plan by done. destruct (check_plan_privilege _ _) as [[]|]; [|by eexists].
  destruct (scan_accounts_cells W (sh_store l) (account_filter column a)) as (q&Hq&Hrows).
  rewrite (mbind_eq _ _ (W, l) (sh_poisoned l) (W, l)) by done. destruct (sh_poisoned l) eqn:Hp; [by eexists|].
  rewrite (mbind_eq _ _ (W, l) (Ok q) (W, l)).
  - eexists. split; [done|]. intros q' [= <-]. done.
  - unfold attempt, zoom. cbn [execute snd fst]. rewrite Hq. by destruct l.
Qed.

(** ** The tools that only read *)

Section read_only.
Context (uuid_plain : ∀ id, quote_free (uuid_string id)).

Definition first_plain (r : Result string QueryResult) : Prop :=
  ∀ q row, r = Ok q → row ∈ rows_as_strings q → quote_free (cell "?" 0 row).

Lemma account_query_plain column a : column = "code" ∨ column = "id" →
  yields first_plain (run_sql session (statement_text (account_query column a))).
Proof.
  intros Hc [W l] r σ' Hr. destruct (run_account_query column a W l Hc) as (r'&Hr'&Hrows). rewrite Hr in Hr'. simplify_eq.
  intros q row -> Hrow. rewrite (Hrows q eq_refl) in Hrow. apply list_elem_of_fmap in Hrow as (acct&->&_). apply uuid_plain.
Qed.

Lemma acct_row_plain (r : list string) : quote_free (cell "?" 0 r) → quote_free (ar_id (acct_row r)).
Proof. done. Qed.

Lemma json_u64_range v n : json_u64 v = Some n → 0 ≤ n < 2 ^ 64.
Proof. unfold json_u64. destruct v; try done. case_match eqn:Hr; [|done]. intros [= ->]. lia. Qed.
Lemma given_u64_range key d args : 0 ≤ d → 0 ≤ given json_u64 key d args.
Proof. intros Hd. unfold given. destruct (json_u64 _) as [n|] eqn:Hn; [|done]. apply json_u64_range in Hn. cbn. lia. Qed.

Lemma get_balance_keeps s0 args : preserves (store_is s0) (tool_get_balance session args).
Proof.
  unfold tool_get_balance. apply preserves_bind; [apply preserves_liftR|intros a]. rewrite balance_text.
  apply preserves_bind; [by apply run_select_keeps|intros; apply preserves_ret].
Qed.

Lemma limit_ok items t conds n : nonempty items = true → forallb item_ok items = true → one_of TABLE_NAMES t = true →
  forallb atom_ok conds = true → 0 ≤ n → select_ok (mkSelectText items (Some t) conds None (Some n)) = true.
Proof. intros Hn Hi Ht Hc Hl. unfold select_ok. cbn [st_items st_from st_where st_order st_limit]. rewrite Hn, Hi, Ht, Hc. by apply Z.leb_le. Qed.

Lemma condition_ok column args : one_of COLUMN_NAMES column = true → forallb atom_ok (condition_atoms column args) = true.
Proof. intros Hc. unfold condition_atoms. case_match; [|done]. cbn. by rewrite Hc. Qed.

Lemma list_accounts_keeps s0 args : preserves (store_is s0) (tool_list_accounts session args).
Proof.
  unfold tool_list_accounts. cbv zeta. rewrite list_accounts_text.
  apply preserves_bind; [apply run_select_keeps|intros; apply preserves_ret].
  apply limit_ok; [by vm_compute..| |by apply given_u64_range]. rewrite forallb_app. by rewrite !condition_ok.
Qed.

Lemma query_lines_keeps s0 args : preserves (store_is s0) (tool_query_ledger_lines session args).
Proof.
  unfold tool_query_ledger_lines. cbv zeta.
  assert (Hgo : ∀ side, side = [] ∨ side = ["Debit"] ∨ side = ["Credit"] →
    preserves (store_is s0) (r ← run_sql session (conditions_sql LINE_FIELDS (condition "domain" args ++ map (λ s, "dr_cr = '" +:+ s +:+ "'") side)
      (given json_u64 "limit" 100 args)); mret (report "Ledger lines query failed: " r))).
  { intros side Hside. rewrite ledger_lines_text by done. apply preserves_bind; [apply run_select_keeps|intros; apply preserves_ret].
    apply limit_ok; [by vm_compute..| |by apply given_u64_range]. rewrite forallb_app, condition_ok by done. by destruct_or! Hside; subst. }
  destruct (as_str (jget "dr_cr" args)) as [d|].
  - case_match eqn:Hd; [apply preserves_ret|]. apply (Hgo [d]). apply andb_false_iff in Hd as [Hd|Hd];
      apply negb_false_iff, bool_decide_eq_true in Hd; subst; auto.
  - pose proof (Hgo [] (or_introl eq_refl)) as Hx. cbn [map] in Hx. by rewrite app_nil_r in Hx.
Qed.

Lemma verify_keeps_store s0 a b : 0 ≤ a → 0 ≤ b → preserves (store_is s0) (run_sql session (verify_chain_sql a b)).
Proof. intros Ha Hb. rewrite verify_text by done. by apply run_select_keeps. Qed.
Lemma merkle_keeps_store s0 a b : 0 ≤ a → 0 ≤ b → preserves (store_is s0) (run_sql session (merkle_root_sql a b)).
Proof. intros Ha Hb. rewrite merkle_text by done. by apply run_select_keeps. Qed.
Lemma verify_all_keeps s0 : preserves (store_is s0) (run_sql session VERIFY_ALL).
Proof. rewrite verify_all_text. by apply run_select_keeps. Qed.

Lemma verify_tool_keeps s0 args : preserves (store_is s0) (tool_verify_chain session args).
Proof.
  unfold tool_verify_chain. apply preserves_bind; [|intros; apply preserves_ret].
  destruct (json_u64 (jget "from_seq" args)) as [a|] eqn:Ha; [destruct (json_u64 (jget "to_seq" args)) as [b|] eqn:Hb|]; try apply verify_all_keeps.
  apply json_u64_range in Ha, Hb. apply verify_keeps_store; lia.
Qed.

Lemma need_u64_yields {S} key msg args : yields (S:=S) (λ n, 0 ≤ n) (liftR (need json_u64 key msg args)).
Proof.
  apply yields_liftR. unfold need. intros n. destruct (json_u64 _) as [m|] eqn:Hm; [|done]. intros [= <-]. apply json_u64_range in Hm. lia.
Qed.

Lemma merkle_tool_keeps s0 args : preserves (store_is s0) (tool_merkle_root session args).
Proof.
  unfold tool_merkle_root. eapply preserves_bind_yields; [apply need_u64_yields|apply preserves_liftR|intros a Ha].
  eapply preserves_bind_yields; [apply need_u64_yields|apply preserves_liftR|intros b Hb].
  apply preserves_bind; [by apply merkle_keeps_store|intros; apply preserves_ret].
Qed.

(** The lookup by code and then by identifier. *)
Lemma account_lookup a :
  (ACCOUNT_FIELDS +:+ "code = '" +:+ escape a +:+ "'" = statement_text (account_query "code" a)) ∧
  (ACCOUNT_FIELDS +:+ "id = '" +:+ escape a +:+ "'" = statement_text (account_query "id" a)).
Proof. split; [exact (account_text "code" a)|exact (account_text "id" a)]. Qed.

Lemma lookup_keeps s0 {B} a (f : Result string QueryResult → TM B) :
  (∀ r, first_plain r → preserves (store_is s0) (f r)) →
  preserves (store_is s0)
    (by_code ← run_sql session (ACCOUNT_FIELDS +:+ "code = '" +:+ escape a +:+ "'");
     acct ← match by_code with
            | Ok q => mret (Ok q)
            | Err _ => run_sql session (ACCOUNT_FIELDS +:+ "id = '" +:+ escape a +:+ "'")
            end;
     f acct).
Proof.
  intros Hf. destruct (account_lookup a) as [-> ->].
  eapply preserves_bind_yields; [apply account_query_plain; by left|by apply run_select_keeps|]. intros r Hr.
  eapply preserves_bind_yields; [| |exact Hf].
  - destruct r as [q|e]; [by apply yields_ret|]. apply account_query_plain. by right.
  - destruct r; [apply preserves_ret|]. by apply run_select_keeps.
Qed.

Lemma first_row_plain q row rows : first_plain (Ok q) → rows_as_strings q = row :: rows → quote_free (ar_id (acct_row row)).
Proof. intros Hq Hr. apply acct_row_plain. eapply Hq; [done|]. rewrite Hr. by left. Qed.

Lemma line_sum_keeps s0 id side : quote_free id → side = "Debit" ∨ side = "Credit" → preserves (store_is s0) (run_sql session (line_sum_sql id side)).
Proof. intros Hid Hs. rewrite line_sum_text; [by apply run_select_keeps|done|by destruct Hs as [-> | ->]]. Qed.
Lemma recent_keeps s0 id side n : quote_free id → side = "Debit" ∨ side = "Credit" → 0 ≤ n → preserves (store_is s0) (run_sql session (recent_lines_sql id side n)).
Proof.
  intros Hid Hs Hn. rewrite recent_lines_text; [|done|by destruct Hs as [-> | ->]]. apply run_select_keeps. by apply limit_ok.
Qed.

Lemma explain_keeps s0 args : preserves (store_is s0) (tool_explain_balance session args).
Proof.
  unfold tool_explain_balance. apply preserves_bind; [apply preserves_liftR|intros a]. cbv zeta.
  apply preserves_bind; [fold (balance_sql a); rewrite balance_text; by apply run_select_keeps|].
  intros [q|e]; [|apply preserves_ret]. apply lookup_keeps. intros [q'|e] Hq; [|apply preserves_ret].
  destruct (rows_as_strings q') as [|row rows] eqn:Hr; [apply preserves_ret|].
  pose proof (first_row_plain _ _ _ Hq Hr) as Hid. pose proof (given_u64_range "limit" 20 args ltac:(lia)) as Hlim.
  apply preserves_bind; [by apply recent_keeps; auto|intros]. apply preserves_bind; [by apply recent_keeps; auto|intros; apply preserves_ret].
Qed.

Lemma reconcile_keeps s0 args : preserves (store_is s0) (tool_reconcile_account session args).
Proof.
  unfold tool_reconcile_account. apply preserves_bind; [apply preserves_liftR|intros a]. cbv zeta.
  apply lookup_keeps. intros [q|e] Hq; [|by intros W l Hl].
  eapply preserves_bind_yields; [apply (yields_liftR (λ q', q' = q)); by intros q' [= <-]|apply preserves_liftR|intros ? ->].
  destruct (rows_as_strings q) as [|row rows] eqn:Hr; [apply preserves_ret|].
  pose proof (first_row_plain _ _ _ Hq Hr) as Hid.
  apply preserves_bind; [apply line_sum_keeps; auto|intros]. apply preserves_bind; [apply line_sum_keeps; auto|intros; apply preserves_ret].
Qed.

Lemma policy_keeps s0 enabled sql found trailer none :
  preserves (store_is s0) (run_sql session sql) → preserves (store_is s0) (policy_check session enabled sql found trailer none).
Proof.
  intros Hs. unfold policy_check. destruct enabled; [|apply preserves_ret]. apply preserves_bind; [done|intros; apply preserves_ret].
Qed.

Lemma violations_keeps s0 args : preserves (store_is s0) (tool_find_policy_violations session args).
Proof.
  unfold tool_find_policy_violations. cbv zeta.
  apply preserves_bind; [apply policy_keeps; rewrite large_amounts_text; by apply run_select_keeps|intros].
  apply preserves_bind; [apply policy_keeps; rewrite pending_text; by apply run_select_keeps|intros].
  apply preserves_bind; [apply policy_keeps; rewrite missing_ref_text; by apply run_select_keeps|intros].
  apply preserves_bind; [apply policy_keeps; rewrite failed_text; by apply run_select_keeps|intros; apply preserves_ret].
Qed.

(** Reports on a period. *)
Lemma dates_yield {S} m1 m2 args : yields (S:=S) (λ d : string * string, period_ok d.1 d.2) (liftR (period_dates m1 m2 args)).
Proof.
  apply yields_liftR. intros [from to]. unfold period_dates.
  intros (f&_&(t&_&([]&Hf&([]&Ht&[= -> ->])%res_bind_Ok)%res_bind_Ok)%res_bind_Ok)%res_bind_Ok.
  split; cbn [fst snd]; apply validated_chars; [destruct (validate_iso8601_timestamp from) as [[]|]|destruct (validate_iso8601_timestamp to) as [[]|]]; done.
Qed.

Lemma atoms_ok from to domain : forallb atom_ok (period_atoms from to domain) = true.
Proof. done. Qed.

Section period.
Context (from to domain : string) (Hp : period_ok from to) (s0 : LedgerStore).

Lemma seq_range_keeps : preserves (store_is s0) (seq_range session from to domain).
Proof.
  unfold seq_range. apply preserves_bind; [rewrite seq_range_text by done; by apply run_select_keeps|intros r].
  unfold value_at. case_match; solve_preserves.
Qed.

Lemma parse_or_0_nonneg t : 0 ≤ parse_or_0 t.
Proof.
  unfold parse_or_0, parse_u64, unsigned. destruct (strip_plus t) as [|c r]; [done|].
  destruct (digits 0 (String c r)) as [n|] eqn:Hd; [|done]. cbn. case_match; [|done]. cbn.
  assert (Hgo : ∀ u a m, 0 ≤ a → digits a u = Some m → 0 ≤ m).
  { induction u as [|x u IH]; intros a m Ha; cbn; [by intros [= <-]|]. unfold digit. case_match eqn:Hx; [|done]. cbn. apply IH. lia. }
  by eapply Hgo, Hd.
Qed.

Lemma seq_range_nonneg : yields (λ r : Z * Z, 0 ≤ r.1 ∧ 0 ≤ r.2) (seq_range session from to domain).
Proof.
  unfold seq_range. apply yields_bind. intros r. case_match; [|by apply yields_ret].
  do 2 (apply yields_bind; intros ?). apply yields_ret. split; apply parse_or_0_nonneg.
Qed.

Lemma period_root_keeps a b none : 0 ≤ a → 0 ≤ b → preserves (store_is s0) (period_root session a b none).
Proof.
  intros Ha Hb. unfold period_root. case_match; [|apply preserves_ret]. apply preserves_bind; [by apply merkle_keeps_store|intros].
  unfold value_at. solve_preserves.
Qed.

Lemma period_figures_keeps : preserves (store_is s0) (period_figures session from to domain).
Proof.
  unfold period_figures.
  do 3 (apply preserves_bind; [rewrite count_status_text by done; by apply run_select_keeps|intros]).
  apply preserves_bind; [rewrite volume_text by done; by apply run_select_keeps|intros].
  eapply preserves_bind_yields; [apply seq_range_nonneg|apply seq_range_keeps|]. intros [lo hi] [Hlo Hhi]; cbn in Hlo, Hhi.
  apply preserves_bind; [by apply period_root_keeps|intros].
  apply preserves_bind; [|intros; apply preserves_ret]. case_match; [|apply preserves_ret].
  apply preserves_bind; [by apply verify_keeps_store|intros; apply preserves_ret].
Qed.

Lemma audit_figures_keeps : preserves (store_is s0) (audit_figures session from to domain).
Proof.
  unfold audit_figures. apply preserves_bind; [rewrite count_text by done; by apply run_select_keeps|intros].
  eapply preserves_bind_yields; [apply seq_range_nonneg|apply seq_range_keeps|]. intros [lo hi] [Hlo Hhi]; cbn in Hlo, Hhi.
  apply preserves_bind; [unfold period_chain; case_match; [|apply preserves_ret];
    apply preserves_bind; [by apply verify_keeps_store|intros; apply preserves_ret]|intros].
  apply preserves_bind; [by apply period_root_keeps|intros].
  apply preserves_bind; [rewrite sample_text by done; by apply run_select_keeps|intros].
  apply preserves_bind; [apply verify_all_keeps|intros; apply preserves_ret].
Qed.
End period.

Lemma summarize_keeps s0 args : preserves (store_is s0) (tool_summarize_period session args).
Proof.
  unfold tool_summarize_period. eapply preserves_bind_yields; [apply dates_yield|apply preserves_liftR|]. intros [from to] Hd.
  cbv zeta. apply preserves_bind; [by apply period_figures_keeps|intros; apply preserves_ret].
Qed.
Lemma audit_report_keeps s0 args : preserves (store_is s0) (tool_audit_report pkg_version session args).
Proof.
  unfold tool_audit_report. eapply preserves_bind_yields; [apply dates_yield|apply preserves_liftR|]. intros [from to] Hd.
  cbv zeta. apply preserves_bind; [by apply audit_figures_keeps|intros; apply preserves_ret].
Qed.

Lemma resolve_lookup a :
  (RESOLVE_FIELDS +:+ " WHERE code = '" +:+ escape a +:+ "'" = statement_text (query RESOLVE_ITEMS "accounts" [AEq "code" (LText a)] None)) ∧
  (RESOLVE_FIELDS +:+ " WHERE name = '" +:+ escape a +:+ "'" = statement_text (query RESOLVE_ITEMS "accounts" [AEq "name" (LText a)] None)) ∧
  (RESOLVE_FIELDS +:+ " WHERE id = '" +:+ escape a +:+ "'" = statement_text (query RESOLVE_ITEMS "accounts" [AEq "id" (LText a)] None)).
Proof. split_and!; [exact (resolve_text "code" a)|exact (resolve_text "name" a)|exact (resolve_text "id" a)]. Qed.

Lemma resolve_keeps s0 args : preserves (store_is s0) (tool_resolve_account session args).
Proof.
  unfold tool_resolve_account. apply preserves_bind; [apply preserves_liftR|intros a]. cbv zeta.
  destruct (resolve_lookup a) as (->&->&->). do 3 (apply preserves_bind; [by apply run_select_keeps|intros]).
  apply preserves_bind; [rewrite metadata_text; by apply run_select_keeps|intros; apply preserves_ret].
Qed.

Lemma propose_keeps s0 args : preserves (store_is s0) (tool_propose_correction session args).
Proof.
  unfold tool_propose_correction. eapply preserves_bind_yields; [apply need_u64_yields|apply preserves_liftR|intros n Hn].
  apply preserves_bind; [apply preserves_liftR|intros m]. cbv zeta. case_match; [apply preserves_ret|].
  apply preserves_bind; [rewrite entry_text by done; by apply run_select_keeps|intros [q|e]; [|apply preserves_ret]].
  destruct (qr_rows q) as [|row rows]; [apply preserves_ret|]. case_match; [apply preserves_ret|].
  apply preserves_bind; [rewrite entry_lines_text by done; by apply run_select_keeps|intros [q'|e]; [|apply preserves_ret]].
  case_match; [apply preserves_ret|]. unfold first_cell, prefix16. do 2 (case_match; [|apply preserves_ret]). solve_preserves.
Qed.
End read_only.

(** ** The tools that write *)

Section no_rights.
Context (Hr : may_write (sn_role session) = false).

Lemma query_ledger_keeps s0 args : preserves (store_is s0) (tool_query_ledger session args).
Proof.
  unfold tool_query_ledger. apply preserves_bind; [apply preserves_liftR|intros]. apply preserves_bind; [by apply run_sql_keeps|intros; apply preserves_ret].
Qed.
Lemma post_entry_keeps s0 args : preserves (store_is s0) (tool_post_entry session args).
Proof.
  unfold tool_post_entry. do 5 (apply preserves_bind; [apply preserves_liftR|intros]). cbv zeta. case_match; [apply preserves_ret|].
  apply preserves_bind; [by apply run_sql_keeps|intros; apply preserves_ret].
Qed.
Lemma execute_correction_keeps s0 args : preserves (store_is s0) (tool_execute_correction session args).
Proof.
  assert (Hrun : ∀ sql, preserves (store_is s0) (run_sql session sql)) by (intros; by apply run_sql_keeps).
  unfold tool_execute_correction. apply preserves_bind; [apply preserves_liftR|intros a].
  apply preserves_bind; [done|intros rc]. apply preserves_bind; [done|intros cc].
  assert (Hgo : ∀ e, preserves (store_is s0) (obtain_reversal session a e)).
  { intros [n|]; (apply preserves_bind; [done|intros; apply preserves_ret]). }
  assert (Hrest : ∀ e, preserves (store_is s0)
    (reversal ← obtain_reversal session a e;
      match reversal with
      | Err e => mret (err_text ("Failed to post reversal: " +:+ e))
      | Ok (reversal_seq, reversal_id) =>
          correction ← run_sql session (correction_sql a);
          match correction with
          | Err e =>
              mret (err_text ("Reversal was posted (sequence " +:+ debug_option reversal_seq +:+ ") but correction FAILED: " +:+ e +:+ lf +:+
                "The ledger now has an unmatched reversal. Post the correction manually."))
          | Ok q =>
              chain ← run_sql session VERIFY_ALL;
              mret (ok_text (complete_text a reversal_seq reversal_id (qr_entry_sequence q) (entry_id_text (qr_entry_id q)) (text_ok chain)))
          end
      end)).
  { intros e. apply preserves_bind; [apply Hgo|]. intros [[n i]|m]; [|apply preserves_ret].
    apply preserves_bind; [done|]. intros [q|m]; [|apply preserves_ret]. apply preserves_bind; [done|intros; apply preserves_ret]. }
  destruct (existing_seq rc) as [x|]; [destruct (existing_seq cc) as [y|]|]; try apply Hrest.
  apply preserves_bind; [done|intros; apply preserves_ret].
Qed.
End no_rights.

(** C38: A tool call changes the ledger only when the session's role may post
    entries and create accounts, and only through [query_ledger], [post_entry] or
    [execute_correction]: the twelve other tools change nothing under any role,
    whatever text their arguments contain (quotes, comments, further
    statements), because every statement they build is a query with the
    arguments as its literals. *)
Theorem mcp_writes_authorised name args W l r W' l' :
  (∀ id, quote_free (uuid_string id)) →
  dispatch_tool pkg_version name session args (W, l) = (r, (W', l')) → sh_store l' ≠ sh_store l →
  may_write (sn_role session) = true ∧ name ∈ ["query_ledger"; "post_entry"; "execute_correction"].
Proof.
  intros Huuid Hd Hne.
  assert (Hk : ∀ m : TM JsonValue, dispatch_tool pkg_version name session args = m → ¬ preserves (store_is (sh_store l)) m).
  { intros m <- Hm. pose proof (Hm W l eq_refl) as Hx. by rewrite Hd in Hx. }
  assert (Hwrite : (may_write (sn_role session) = false → preserves (store_is (sh_store l)) (dispatch_tool pkg_version name session args)) →
    may_write (sn_role session) = true).
  { intros Hp. destruct (may_write _); [done|]. exfalso. exact (Hk _ eq_refl (Hp eq_refl)). }
  unfold dispatch_tool in Hk, Hwrite. cbv zeta in Hk, Hwrite.
  case_bool_decide as Hn; [split; [apply Hwrite; intros; by apply query_ledger_keeps|subst name; by left]|clear Hn].
  case_bool_decide as Hn; [split; [apply Hwrite; intros; by apply post_entry_keeps|subst name; by right; left]|clear Hn].
  case_bool_decide as Hn; [by destruct (Hk _ eq_refl); apply get_balance_keeps|clear Hn].
  case_bool_decide as Hn; [by destruct (Hk _ eq_refl); apply list_accounts_keeps|clear Hn].
  case_bool_decide as Hn; [by destruct (Hk _ eq_refl); apply query_lines_keeps|clear Hn].
  case_bool_decide as Hn; [by destruct (Hk _ eq_refl); apply verify_tool_keeps|clear Hn].
  case_bool_decide as Hn; [by destruct (Hk _ eq_refl); apply merkle_tool_keeps|clear Hn].
  case_bool_decide as Hn; [by destruct (Hk _ eq_refl); apply explain_keeps|clear Hn].
  case_bool_decide as Hn; [by destruct (Hk _ eq_refl); apply reconcile_keeps|clear Hn].
  case_bool_decide as Hn; [by destruct (Hk _ eq_refl); apply violations_keeps|clear Hn].
  case_bool_decide as Hn; [by destruct (Hk _ eq_refl); apply summarize_keeps|clear Hn].
  case_bool_decide as Hn; [by destruct (Hk _ eq_refl); apply audit_report_keeps|clear Hn].
  case_bool_decide as Hn; [by destruct (Hk _ eq_refl); apply resolve_keeps|clear Hn].
  case_bool_decide as Hn; [by destruct (Hk _ eq_refl); apply propose_keeps|clear Hn].
  case_bool_decide as Hn; [split; [apply Hwrite; intros; by apply execute_correction_keeps|subst name; by right; right; left]|clear Hn].
  by destruct (Hk _ eq_refl); apply preserves_throw.
Qed.

(** ** Posting an entry *)

(** The entry the arguments of [post_entry] describe.  The metadata text is
    dropped; but when it is given, the statement has an external reference column,
    so that an entry without a reference gets the empty one instead of none. *)
Definition post_spec (description debit credit : string) (amount : Z) (currency domain external_ref metadata : string) : EntrySpec :=
  mkEntrySpec description debit credit amount currency
    (if bool_decide (metadata = "") && bool_decide (external_ref = "") then None else Some external_ref) None domain.

Lemma post_plan d da ca n cur dom r m : 0 < n < 2 ^ 63 →
  plan expr_display value_display (statement_tree other_text (entry_insert (post_columns r m) (post_values d da ca n cur dom r m))) =
  Ok (PostEntry (post_spec d da ca n cur dom r m)).
Proof.
  intros Hn. assert (Hlt : n <? 0 = false) by lia. pose proof (parse_i64_pretty n ltac:(unfold i64_ok; lia)) as Hp.
  unfold post_columns, post_values, post_spec, entry_insert, statement_tree, plan, plan_insert.
  destruct (bool_decide (m = "")) eqn:Hm; [destruct (bool_decide (r = "")) eqn:Hrr|];
    cbn -[parse_i64 position to_lowercase pretty Z.ltb]; rewrite Hlt; clear Hlt; revert Hp; generalize (pretty n); intros t Hp;
    (rewrite !bool_decide_true by done);
    repeat match goal with |- context [insert_get ?c ?v ?x] =>
      let y := eval vm_compute in (insert_get c v x) in change (insert_get c v x) with y end;
    cbn -[parse_i64 pretty]; by rewrite Hp.
Qed.

(** What a run of the executor becomes in a tool. *)
Definition run_result (l : SharedLedger) (x : Result SqlError QueryResult * (World * LedgerStore)) :
    Result ToolError (Result string QueryResult) * (World * SharedLedger) :=
  match x with
  | (Ok q, (W', s')) => (Ok (Ok q), (W', sh_set_store s' l))
  | (Err SqlPanic, (W', s')) => (Err ToolPanic, (W', sh_poison (sh_set_store s' l)))
  | (Err e, (W', s')) => (Ok (Err ("Execution error: " +:+ sql_error_text e)), (W', sh_set_store s' l))
  end.

Lemma run_stmt_plan stmt p W l :
  plan expr_display value_display stmt = Ok p → check_plan_privilege (sn_role session) p = Ok tt → sh_poisoned l = false →
  run_stmt session stmt (W, l) = run_result l (execute true p (W, sh_store l)).
Proof.
  intros Hp Hc Hl. unfold run_stmt. rewrite Hp, Hc. rewrite (mbind_eq _ _ (W, l) false (W, l)) by (unfold gets; cbn; by rewrite Hl).
  unfold mbind at 1, M_bind at 1, attempt, zoom. cbn [fst snd]. destruct (execute true p (W, sh_store l)) as [[q|[]] [W' s']]; done.
Qed.

Lemma post_insert_ok r m d da ca n cur dom : statement_ok (entry_insert (post_columns r m) (post_values d da ca n cur dom r m)) = true.
Proof. unfold post_columns. by destruct (bool_decide (m = "")), (bool_decide (r = "")). Qed.

Definition after_post (x : Result ToolError (Result string QueryResult) * (World * SharedLedger)) : Result ToolError JsonValue * (World * SharedLedger) :=
  match x with
  | (Ok (Ok q), σ) => (Ok (ok_text (posted_text q)), σ)
  | (Ok (Err e), σ) => (Ok (err_text ("Failed to post entry: " +:+ e)), σ)
  | (Err e, σ) => (Err e, σ)
  end.

(** C39: [post_entry] executes exactly the posting its arguments describe: for a
    session that may post, all five required arguments with a positive amount, and
    a statement within the size limit, the call is the execution of one [PostEntry] whose
    description, accounts, currency, domain and reference are the argument
    texts themselves, whatever characters they contain, and whose amount is the
    argument's; the ledger's lock is not poisoned; the answer reports that
    execution.  The text of the metadata argument is not stored, but its presence
    is: without a reference argument, a non-empty metadata argument makes the
    entry's external reference the empty string instead of none. *)
Theorem post_entry_tool_exact args d da ca n cur W l :
  let dom := given as_str "domain" "main" args in
  let r := given as_str "external_ref" "" args in
  let m := given as_str "metadata" "" args in
  as_str (jget "description" args) = Some d → as_str (jget "debit_account" args) = Some da →
  as_str (jget "credit_account" args) = Some ca → json_i64 (jget "amount" args) = Some n →
  as_str (jget "currency" args) = Some cur → 0 < n →
  can_insert_ledger (sn_role session) = true → sh_poisoned l = false →
  (length (str_bytes (post_entry_sql d da ca n cur dom r m)) ≤ MAX_SQL_BYTES)%nat →
  tool_post_entry session args (W, l) =
  after_post (run_result l (execute true (PostEntry (post_spec d da ca n cur dom r m)) (W, sh_store l))).
Proof.
  intros dom r m Hd Hda Hca Hn Hcur Hpos Hins Hl Hlen.
  assert (Hrange : n < 2 ^ 63). { unfold json_i64 in Hn. repeat case_match; simplify_eq. lia. }
  unfold tool_post_entry, need. rewrite Hd, Hda, Hca, Hn, Hcur. cbn [ok_or].
  do 5 rewrite mbind_liftR. cbv zeta. fold dom r m.
  destruct (Z.leb_spec n 0); [lia|]. rewrite post_entry_text by lia. rewrite run_sql_statement by apply post_insert_ok.
  unfold too_long. rewrite <- post_entry_text by lia. destruct (Nat.ltb_spec MAX_SQL_BYTES (length (str_bytes (post_entry_sql d da ca n cur dom r m)))); [lia|].
  unfold mbind, M_bind. rewrite (run_stmt_plan _ _ W l (post_plan d da ca n cur dom r m ltac:(lia))); [|cbn; by rewrite Hins|done].
  destruct (run_result _ _) as [[[q|e]|e] σ]; done.
Qed.
End safety.
