(* ===== verification/McpNet.v ===== *)
(** * vledger-mcp: network mode

    Models [crates/vledger-mcp/src/network.rs]: the connection to a running
    server with its reconnect, and the tools that send their SQL over it.  The
    far end is the server of [Server]: a request that reaches it is one step of
    its connection handler, whether or not the answer is read.  Sockets and TLS
    are outcomes of the environment: a write that fails reaches nobody, a flush
    that fails may have sent the frame, and an answer can be lost. *)

From stdpp Require Import base gmap list strings option pretty.
From Stdlib Require Import ZArith Lia Strings.Byte Strings.Ascii.
From S2P Require Import Prelude Bytes Jsonl Crypto Merkle Money Entry WalRecord Wal Recovery Tx Page EntryDb Sql Store SqlGuard SqlExec SqlPlan AuditTrail Replication UserAuth Server SqlText McpText McpTools.

#[local] Open Scope string_scope.
#[local] Open Scope Z_scope.
#[local] Open Scope list_scope.

Definition MAX_RESPONSE_BYTES : Z := 16 * 1024 * 1024.

Definition sql_request (sql token : string) : JsonValue := JObj [("sql", JStr sql); ("token", JStr token)].
Definition auth_request (username password : string) : JsonValue :=
  JObj [("auth", JObj [("username", JStr username); ("password", JStr password)])].

(** [serde_json] on the client's frames, which the server reads back; the texts of
    operating-system errors; certificates. *)
Class NetExt `{ServerExt} := {
  json_text : JsonValue → string;
  sql_request_read : ∀ sql token, request_from_json (str_bytes (json_text (sql_request sql token))) =
    Ok (mkRequest (Some sql) None (Some (str_bytes token)) false None);
  auth_request_read : ∀ u p, request_from_json (str_bytes (json_text (auth_request u p))) = Ok (mkRequest None (Some (u, p)) None false None);
  os_error_text : Z → string;
  ca_certificates : string → Result string unit;
  server_name_ok : string → bool
}.

(** The server's answer as JSON. *)
Definition proof_value (p : ProofJson) : JsonValue :=
  JObj [("root_hex", JStr (String.string_of_list_byte (pj_root_hex p))); ("leaf_count", JInt (Z.of_nat (pj_leaf_count p))); ("verified", JBool (pj_verified p))].
Definition optional {A} (key : string) (f : A → JsonValue) (o : option A) : list (string * JsonValue) :=
  match o with Some a => [(key, f a)] | None => [] end.
Definition unless_empty {A} (key : string) (f : A → JsonValue) (l : list A) : list (string * JsonValue) :=
  match l with [] => [] | _ => [(key, JArr (map f l))] end.

Definition response_value (r : Response) : JsonValue :=
  JObj ([("ok", JBool (rsp_ok r))] ++ optional "error" JStr (rsp_error r) ++ unless_empty "columns" JStr (rsp_columns r) ++
    unless_empty "rows" (λ row, JArr (map JStr row)) (rsp_rows r) ++ [("rows_affected", JInt (Z.of_nat (rsp_rows_affected r)))] ++
    optional "proof" proof_value (rsp_proof r) ++ [("message", JStr (rsp_message r))] ++
    optional "token" (λ t, JStr (String.string_of_list_byte t)) (rsp_token r) ++ optional "role" JStr (rsp_role r)).

(** ** The connection *)

Record NetConfig := mkNetConfig { nc_addr : string; nc_username : string; nc_password : string; nc_ca_cert : option string }.

Definition host_part (addr : string) : string := default "127.0.0.1" (head (split_char ":"%char addr)).
Definition port_part (addr : string) : Z :=
  default 5433 (p ← split_char ":"%char addr !! 1%nat; n ← unsigned (strip_plus p); if n <? 65536 then Some n else None).
Definition is_loopback (host : string) : bool :=
  bool_decide (host = "127.0.0.1") || bool_decide (host = "::1") || bool_decide (to_lowercase host = "localhost").

(** Which errors [execute_sql] takes for a lost connection. *)
Definition is_conn_err (e : string) : bool :=
  let t := to_lowercase e in
  contains "send sql frame" t || contains "server closed" t || contains "broken pipe" t || contains "connection reset" t || contains "eof" t.

Section net.
Context `{Blake3} `{Blake3Keyed} `{Ed25519} `{!WalExt} `{!PageExt} `{LedgerCodecs} `{LedgerExt} `{SqlExt}.
Context `{Hex} `{AuthExt} `{AuditExt} `{ReplExt} `{SE : ServerExt} `{!NetExt}.
Context {C : Type} (exchange : bytes → C → Answer * C) (peer_addr : string) (config : ServerConfig) (cfg : NetConfig).

(** The server and our connection to it: the server's side of the connection,
    how many of its answers were read, and the session token. *)
Record Link := mkLink { lk_server : Server C; lk_conn : Conn; lk_read : nat; lk_token : string }.

Notation LM := (M Link string).

Definition lk_set_conn (sv : Server C) (cn : Conn) (k : Link) : Link := mkLink sv cn (lk_read k) (lk_token k).
Definition lk_lost (k : Link) : Link := mkLink (lk_server k) (close (lk_conn k)) (lk_read k) (lk_token k).
Definition lk_next (k : Link) : Link := mkLink (lk_server k) (lk_conn k) (S (lk_read k)) (lk_token k).

(** A frame that reaches the server is handled by its connection loop. *)
Definition deliver (line : bytes) : LM unit := λ '(W, k),
  if cn_open (lk_conn k) then
    match conn_step exchange peer_addr config (EvRead (Ok (Some line))) (lk_conn k) (W, lk_server k) with
    | (Ok cn, (W', sv')) => (Ok tt, (W', lk_set_conn sv' cn k))
    | (Err e, _) => match e with end
    end
  else (Ok tt, (W, k)).

(** [write_all(...).context(ctx)?; flush()?]: the frame is delivered, lost with
    the connection, or one of the calls fails. *)
Definition write_frame (v : JsonValue) (ctx : string) : LM unit :=
  _ ← io ctx;
  let line := str_bytes (json_text v) in
  r ← attempt (io tt);
  match r with
  | Err _ => n ← rand; _ ← (if Z.odd n then deliver line else mret tt); throw (os_error_text n)
  | Ok _ =>
      r ← attempt (io tt);
      match r with Err _ => modify lk_lost | Ok _ => deliver line end
  end.

(** [reader.next()]: the next answer; [closed] when the stream ended, [ctx] for a
    failed read or a frame above the limit. *)
Definition read_frame (closed ctx : string) : LM JsonValue :=
  r ← attempt (io tt);
  match r with
  | Err _ => n ← rand; _ ← modify lk_lost; throw (if Z.odd n then closed else ctx)
  | Ok _ =>
      k ← gets id;
      match cn_sent (lk_conn k) !! lk_read k with
      | Some resp =>
          _ ← modify lk_next;
          let v := response_value resp in
          if MAX_RESPONSE_BYTES <? Z.of_nat (length (str_bytes (json_text v))) then throw ctx else mret v
      | None => throw closed
      end
  end.

Definition open_connection : LM unit :=
  let host := host_part (nc_addr cfg) in
  _ ← match nc_ca_cert cfg with
      | Some ca_path => _ ← io ("Cannot read CA certificate: " +:+ ca_path); liftR (ca_certificates ca_path)
      | None =>
          if is_loopback host then mret tt
          else throw ("TLS certificate verification is required for non-loopback connections." +:+ lf +:+
                      "Provide the server's CA certificate with --ca-cert <path>.")
      end;
  _ ← io ("Cannot connect to vledger server at " +:+ nc_addr cfg);
  _ ← (if server_name_ok host then mret tt else throw ("Invalid server hostname: " +:+ host));
  _ ← io "TLS handshake with vledger server failed";
  _ ← modify (λ k, mkLink (lk_server k) Conn_new 0 (lk_token k));
  _ ← write_frame (auth_request (nc_username cfg) (nc_password cfg)) "Failed to send auth frame";
  auth_resp ← read_frame "Server closed connection during auth" "Failed to read auth response";
  if negb (default false (as_bool (jget "ok" auth_resp))) then
    throw ("MCP→server authentication failed: " +:+ default "unknown error" (as_str (jget "error" auth_resp)))
  else
    token ← liftR (ok_or (as_str (jget "token" auth_resp)) "Server did not return a session token");
    modify (λ k, mkLink (lk_server k) (lk_conn k) (lk_read k) token).

(** A failed attempt to open leaves the old connection in place. *)
Definition reopen : LM unit := λ '(W, k),
  match open_connection (W, k) with
  | (Err e, (W', k')) => (Err e, (W', mkLink (lk_server k') (lk_conn k) (lk_read k) (lk_token k)))
  | r => r
  end.

Definition execute_sql_once (sql : string) : LM JsonValue :=
  token ← gets lk_token;
  _ ← write_frame (sql_request sql token) "Failed to send SQL frame to server";
  read_frame "Server closed connection during SQL execution" "Failed to read SQL response (response may exceed 16 MiB frame limit)".

(** A lost connection is opened again and the statement sent once more. *)
Definition net_execute_sql (sql : string) : LM JsonValue :=
  r ← attempt (execute_sql_once sql);
  match r with
  | Ok v => mret v
  | Err e =>
      if negb (is_conn_err e) then throw e
      else
        r ← attempt reopen;
        match r with
        | Ok _ => execute_sql_once sql
        | Err e' => throw ("Lost connection to vledger server and could not reconnect: " +:+ e')
        end
  end.

(** ** Answers as text *)

Definition value_text (v : JsonValue) : string := default (json_text v) (as_str v).

Definition response_to_text (resp : JsonValue) : string :=
  if negb (default false (as_bool (jget "ok" resp))) then "Error: " +:+ default "unknown error" (as_str (jget "error" resp))
  else
    match omap as_str (default [] (as_array (jget "columns" resp))) with
    | [] => default "" (as_str (jget "message" resp))
    | cols =>
        line [join_with " | " cols] +:+
        line [join_with "-+-" (map (λ c, dashes (String.length c)) cols)] +:+
        cat (omap (λ row, vals ← as_array row; Some (line [join_with " | " (map value_text vals)])) (default [] (as_array (jget "rows" resp)))) +:+
        lf +:+ line [default "" (as_str (jget "message" resp))] +:+
        (let proof := jget "proof" resp in
         let root := default "" (as_str (jget "root_hex" proof)) in
         if bool_decide (root = "") then ""
         else lf +:+ line ["Merkle proof: "; pretty (default 0 (json_u64 (jget "leaf_count" proof))); " leaves — root "; root; " (";
                           (if default false (as_bool (jget "verified" proof)) then "verified" else "unverified"); ")"])
    end.

Definition default_json : JsonValue := JObj [("ok", JBool false); ("rows", JArr []); ("columns", JArr []); ("message", JStr "")].

Definition json_rows (resp : JsonValue) : list JsonValue := default [] (as_array (jget "rows" resp)).
Definition first_row (resp : JsonValue) : option (list JsonValue) := r ← head (json_rows resp); as_array r.
Definition first_value (resp : JsonValue) : option JsonValue := r ← first_row resp; head r.

(** The first cell as a number, zero when it is none. *)
Definition first_i64 (resp : JsonValue) : Z := default 0 (v ← first_value resp; s ← as_str v; parse_i64 s).

Definition str_at (d : string) (i : nat) (r : list JsonValue) : string := default d (v ← r !! i; as_str v).
Definition i64_at (i : nat) (r : list JsonValue) : Z := default 0 (v ← r !! i; s ← as_str v; parse_i64 s).
Definition u64_at (i : nat) (r : list JsonValue) : Z := default 0 (v ← r !! i; s ← as_str v; parse_u64 s).

(** ** The tools *)

Notation NM := (M Link ToolError).

Definition net_sql (sql : string) : NM (Result string JsonValue) := attempt (net_execute_sql sql).
Definition net_sql_or_default (sql : string) : NM JsonValue := r ← net_sql sql; mret (res_unwrap_or default_json r).

(** An answer of the server, of whatever kind, is reported as a success. *)
Definition net_report (label : string) (r : Result string JsonValue) : JsonValue :=
  match r with Ok resp => ok_text (response_to_text resp) | Err e => err_text (label +:+ e) end.

Definition net_query_ledger (args : JsonValue) : NM JsonValue :=
  sql ← liftR (need as_str "sql" "'sql' is required" args);
  r ← net_sql sql;
  mret (net_report "Query failed: " r).

Definition net_post_sql (description debit_account credit_account : string) (amount : Z) (currency domain external_ref metadata : string) : string :=
  if negb (bool_decide (metadata = "")) then
    "INSERT INTO ledger (description, debit_account, credit_account, amount, currency, domain, external_ref, metadata) VALUES ('" +:+
    escape description +:+ "','" +:+ escape debit_account +:+ "','" +:+ escape credit_account +:+ "'," +:+ pretty amount +:+ ",'" +:+
    escape currency +:+ "','" +:+ escape domain +:+ "','" +:+ escape external_ref +:+ "','" +:+ escape metadata +:+ "')"
  else if negb (bool_decide (external_ref = "")) then
    "INSERT INTO ledger (description, debit_account, credit_account, amount, currency, domain, external_ref) VALUES ('" +:+
    escape description +:+ "','" +:+ escape debit_account +:+ "','" +:+ escape credit_account +:+ "'," +:+ pretty amount +:+ ",'" +:+
    escape currency +:+ "','" +:+ escape domain +:+ "','" +:+ escape external_ref +:+ "')"
  else
    "INSERT INTO ledger (description, debit_account, credit_account, amount, currency, domain) VALUES ('" +:+
    escape description +:+ "','" +:+ escape debit_account +:+ "','" +:+ escape credit_account +:+ "'," +:+ pretty amount +:+ ",'" +:+
    escape currency +:+ "','" +:+ escape domain +:+ "')".

Definition net_post_entry (args : JsonValue) : NM JsonValue :=
  description ← liftR (need as_str "description" "'description' required" args);
  debit_account ← liftR (need as_str "debit_account" "'debit_account' required" args);
  credit_account ← liftR (need as_str "credit_account" "'credit_account' required" args);
  amount ← liftR (need json_i64 "amount" "'amount' required" args);
  currency ← liftR (need as_str "currency" "'currency' required" args);
  let domain := given as_str "domain" "main" args in
  let external_ref := given as_str "external_ref" "" args in
  let metadata := given as_str "metadata" "" args in
  if amount <=? 0 then mret (err_text "'amount' must be positive integer in minor units")
  else
    r ← net_sql (net_post_sql description debit_account credit_account amount currency domain external_ref metadata);
    mret (net_report "Failed to post entry: " r).

Definition net_get_balance (args : JsonValue) : NM JsonValue :=
  account ← liftR (need as_str "account" "'account' required" args);
  r ← net_sql (balance_sql account);
  mret (net_report "Balance query failed: " r).

Definition net_list_accounts (args : JsonValue) : NM JsonValue :=
  let conditions := condition "domain" args ++ condition "currency" args in
  r ← net_sql (conditions_sql RESOLVE_FIELDS conditions (given json_u64 "limit" 500 args));
  mret (net_report "List accounts failed: " r).

Definition net_query_ledger_lines (args : JsonValue) : NM JsonValue :=
  let limit := given json_u64 "limit" 100 args in
  let conditions := condition "domain" args in
  let go conditions := r ← net_sql (conditions_sql LINE_FIELDS conditions limit); mret (net_report "Ledger lines query failed: " r) in
  match as_str (jget "dr_cr" args) with
  | Some dc =>
      if negb (bool_decide (dc = "Debit")) && negb (bool_decide (dc = "Credit"))
      then mret (err_text "'dr_cr' must be 'Debit' or 'Credit'")
      else go (conditions ++ ["dr_cr = '" +:+ dc +:+ "'"])
  | None => go conditions
  end.

Definition net_verify_chain (args : JsonValue) : NM JsonValue :=
  r ← net_sql (match json_u64 (jget "from_seq" args), json_u64 (jget "to_seq" args) with
               | Some from, Some to => verify_chain_sql from to
               | _, _ => VERIFY_ALL
               end);
  mret (net_report "Chain verification failed: " r).

Definition net_merkle_root (args : JsonValue) : NM JsonValue :=
  from_seq ← liftR (need json_u64 "from_seq" "'from_seq' required" args);
  to_seq ← liftR (need json_u64 "to_seq" "'to_seq' required" args);
  r ← net_sql (merkle_root_sql from_seq to_seq);
  mret (net_report "Merkle root failed: " r).

(** The row of an account, with the defaults of this mode. *)
Definition net_acct_row (account : string) (r : list JsonValue) : AcctRow :=
  mkAcctRow (str_at "" 0 r) (str_at account 1 r) (str_at account 2 r) (str_at "Asset" 3 r) (str_at "USD" 4 r) (i64_at 5 r).

Definition net_explain_balance (args : JsonValue) : NM JsonValue :=
  account ← liftR (need as_str "account" "'account' required" args);
  let limit := given json_u64 "limit" 20 args in
  acct ← net_sql (ACCOUNT_FIELDS +:+ "code = '" +:+ escape account +:+ "'");
  match first_row (res_unwrap_or (JObj [("ok", JBool false)]) acct) with
  | None => mret (err_text ("Account '" +:+ account +:+ "' not found"))
  | Some r =>
      let a := net_acct_row account r in
      debits ← net_sql_or_default (recent_lines_sql (ar_id a) "Debit" limit);
      credits ← net_sql_or_default (recent_lines_sql (ar_id a) "Credit" limit);
      mret (ok_text (
        line ["## Balance Explanation — "; ar_name a; " ("; ar_code a; ")"] +:+ lf +:+
        line ["**Account type:** "; ar_type a; "  "] +:+
        line ["**Normal balance direction:** "; (if debit_normal (ar_type a) then "Debit" else "Credit"); "  "] +:+
        line ["**Current balance:** "; format_amount_network (ar_balance a) (ar_currency a)] +:+ lf +:+
        "### Recent debits" +:+ lf +:+ lf +:+ response_to_text debits +:+
        lf +:+ "### Recent credits" +:+ lf +:+ lf +:+ response_to_text credits))
  end.

Definition net_reconcile_text (a : AcctRow) (total_debits total_credits : Z) : string :=
  let discrepancy := reconcile_discrepancy a total_debits total_credits in
  let fmt m := format_amount_network m (ar_currency a) in
  line ["## Reconciliation — "; ar_name a; " ("; ar_code a; ")"] +:+ lf +:+
  line ["| Field | Value |"] +:+ line ["|---|---|"] +:+
  line ["| Account type | "; ar_type a; " |"] +:+
  line ["| Total debits | "; fmt total_debits; " |"] +:+
  line ["| Total credits | "; fmt total_credits; " |"] +:+
  line ["| Computed balance | "; fmt (computed_balance a total_debits total_credits); " |"] +:+
  line ["| Stored balance | "; fmt (ar_balance a); " |"] +:+
  line ["| Discrepancy | "; fmt discrepancy; " |"] +:+
  line ["| **Result** | **"; (if discrepancy =? 0 then "✓ BALANCED" else "✗ DISCREPANCY DETECTED"); "** |"] +:+ lf +:+
  (if discrepancy =? 0 then ""
   else line ["Discrepancy of "; fmt (as_i64 (Z.abs discrepancy)); ". Run `VERIFY_CHAIN()` and `vledger reconcile` to investigate."]).

Definition net_reconcile_account (args : JsonValue) : NM JsonValue :=
  account ← liftR (need as_str "account" "'account' required" args);
  acct ← net_sql_or_default (ACCOUNT_FIELDS +:+ "code = '" +:+ escape account +:+ "'");
  match first_row acct with
  | None => mret (err_text ("Account '" +:+ account +:+ "' not found"))
  | Some r =>
      let a := net_acct_row account r in
      debits ← net_sql_or_default (line_sum_sql (ar_id a) "Debit");
      credits ← net_sql_or_default (line_sum_sql (ar_id a) "Credit");
      mret (ok_text (net_reconcile_text a (first_i64 debits) (first_i64 credits)))
  end.

Definition net_policy_check (enabled : bool) (sql found none : string) : NM (string * Z) :=
  if enabled then
    resp ← net_sql_or_default sql;
    mret (match json_rows resp with
          | [] => (none +:+ lf +:+ lf, 0)
          | rows => (found +:+ lf +:+ lf +:+ response_to_text resp +:+ lf, Z.of_nat (length rows))
          end)
  else mret ("", 0).

Definition NET_PENDING_SQL : string := "SELECT sequence, id, description, domain, effective_at FROM ledger WHERE status = 'Pending' LIMIT 50".
Definition NET_MISSING_REF_SQL : string := "SELECT sequence, id, description, domain FROM ledger WHERE status = 'Posted' AND external_ref = '' LIMIT 50".

Definition net_find_policy_violations (args : JsonValue) : NM JsonValue :=
  let threshold := given json_i64 "large_amount_threshold_minor_units" 5000000 args in
  let enabled key := given as_bool key true args in
  large ← net_policy_check (enabled "check_large_amounts") (large_amounts_sql threshold)
    ("### ⚠ Large Transactions (> " +:+ pretty threshold +:+ " minor units)") ("### ✓ Large Transactions — none above " +:+ pretty threshold);
  pending ← net_policy_check (enabled "check_pending_too_long") NET_PENDING_SQL
    "### ⚠ Pending Entries (unsettled)" "### ✓ Pending Entries — none found";
  no_ref ← net_policy_check (enabled "check_missing_external_ref") NET_MISSING_REF_SQL
    "### ⚠ Posted Entries Missing External Reference" "### ✓ External References — all posted entries have one";
  failed ← net_policy_check (enabled "check_failed_entries") FAILED_SQL "### ⚠ Failed Entries" "### ✓ Failed Entries — none found";
  let sections := [large; pending; no_ref; failed] in
  mret (ok_text ("## Policy Violation Report" +:+ lf +:+ lf +:+ cat (map fst sections) +:+
    "---" +:+ lf +:+ lf +:+ line ["**Total violations: "; pretty (foldl Z.add 0 (map snd sections)); "**"])).

Definition response_ok_text (resp : JsonValue) : bool := contains_ok (response_to_text resp).

Definition net_summarize_period (args : JsonValue) : NM JsonValue :=
  dates ← liftR (period_dates "'from' required" "'to' required" args);
  let '(from, to) := dates in
  let domain := given as_str "domain" "main" args in
  posted ← net_sql_or_default (count_status_sql from to domain "Posted");
  failed ← net_sql_or_default (count_status_sql from to domain "Failed");
  pending ← net_sql_or_default (count_status_sql from to domain "Pending");
  chain ← net_sql_or_default VERIFY_ALL;
  let n_posted := first_i64 posted in
  let n_failed := first_i64 failed in
  mret (ok_text (
    line ["## Period Summary — "; domain] +:+
    line ["**Period:** "; from; " to "; to] +:+ lf +:+
    line ["| Status | Count |"] +:+ line ["|---|---|"] +:+
    line ["| Posted | "; pretty n_posted; " |"] +:+
    line ["| Pending | "; pretty (first_i64 pending); " |"] +:+
    line ["| Failed | "; pretty n_failed; " |"] +:+
    line ["| Success rate | "; pretty (success_rate n_posted n_failed); "% |"] +:+ lf +:+
    line ["**Chain integrity:** "; (if response_ok_text chain then "✓ VERIFIED" else "✗ BROKEN")])).

Definition net_audit_text (from to tenant domain : string) (entry_count min_seq max_seq : Z) (chain_ok : bool) (merkle_root sample : string) : string :=
  line ["# Cryptographic Audit Report"] +:+ lf +:+
  line ["**Tenant:** "; tenant; "  "] +:+
  line ["**Period:** "; from; " to "; to; "  "] +:+
  line ["**Domain:** "; domain] +:+ lf +:+
  "---" +:+ lf +:+ lf +:+ "## 1. Ledger Summary" +:+ lf +:+ lf +:+
  line ["| Field | Value |"] +:+ line ["|---|---|"] +:+
  line ["| Total entries | "; pretty entry_count; " |"] +:+
  line ["| First sequence | "; pretty min_seq; " |"] +:+
  line ["| Last sequence | "; pretty max_seq; " |"] +:+
  line ["| Chain integrity | "; (if chain_ok then "✓ VERIFIED" else "✗ BROKEN"); " |"] +:+ lf +:+
  "## 2. Merkle Commitment" +:+ lf +:+ lf +:+
  line ["```"] +:+ line ["Merkle root: "; merkle_root] +:+ line ["Sequences:   "; pretty min_seq; " – "; pretty max_seq] +:+
  line ["Entries:     "; pretty entry_count] +:+ line ["```"] +:+ lf +:+
  "## 3. Sample Entries" +:+ lf +:+ lf +:+ sample +:+
  lf +:+ "## 4. Verification" +:+ lf +:+ lf +:+ line ["```bash"] +:+ line ["vledger verify-audit-package --file audit.json"] +:+ line ["```"].

Definition net_audit_report (args : JsonValue) : NM JsonValue :=
  dates ← liftR (period_dates "'from' required" "'to' required" args);
  let '(from, to) := dates in
  let tenant := given as_str "tenant" "VectorLedger Customer" args in
  let domain := given as_str "domain" "main" args in
  count ← net_sql_or_default (count_sql from to domain);
  range ← net_sql_or_default (seq_range_sql from to domain);
  chain ← net_sql_or_default VERIFY_ALL;
  sample ← net_sql_or_default (sample_sql from to domain);
  let '(min_seq, max_seq) := match first_row range with Some r => (u64_at 0 r, u64_at 1 r) | None => (0, 0) end in
  merkle ← (if has_range min_seq max_seq then
              r ← net_sql (merkle_root_sql min_seq max_seq);
              mret (default "unavailable" (resp ← res_ok r; row ← first_row resp; v ← row !! 3%nat; as_str v))
            else mret "no entries");
  mret (ok_text (net_audit_text from to tenant domain (first_i64 count) min_seq max_seq (response_ok_text chain) merkle (response_to_text sample))).

Definition row_texts (row : JsonValue) : option (list string) := vals ← as_array row; Some (map value_text vals).

Definition net_add_matches (matches : list (list string)) (resp : JsonValue) : list (list string) :=
  foldl (λ ms vals, if existsb (λ m, bool_decide (head m = head vals)) ms then ms else ms ++ [vals]) matches (omap row_texts (json_rows resp)).

Definition net_resolve_answer (query : string) (matches : list (list string)) (meta_rows : nat) : JsonValue :=
  let title := line ["## Account Resolution — "; dq; query; dq] +:+ lf in
  match matches with
  | [] =>
      err_text (title +:+ "### ✗ NOT FOUND" +:+ lf +:+ lf +:+
        line ["No account found matching `"; query; "`."] +:+ lf +:+
        (if (0 <? meta_rows)%nat then
           line ["This name appears in transaction metadata, but metadata names do NOT identify accounts — they are free-text fields. A person's name in metadata cannot be used to determine their account ID."] +:+ lf
         else "") +:+
        STOP +:+ lf +:+ lf +:+
        line ["Ask the user to provide the exact account code or UUID, or look up prior transactions for this person and identify their account_id from the ledger_lines table."] +:+ lf +:+
        line ["Never assign a random or unverified account to a named individual."])
  | [r] =>
      ok_text (title +:+ "### ✓ FOUND — single match" +:+ lf +:+ lf +:+
        line ["| Field | Value |"] +:+ line ["|---|---|"] +:+
        cat (imap (λ i field, line ["| "; field; " | `"; cell "?" i r; "` |"]) ["Account ID"; "Code"; "Name"; "Type"; "Currency"; "Domain"; "Balance"]) +:+
        lf +:+ line ["✓ Confirmed. Use the Account ID above in `post_entry`."] +:+ lf +:+
        line ["**Confirm with the user** that this is the correct account before posting."])
  | _ =>
      err_text (title +:+ line ["### ⚠ "; pretty (Z.of_nat (length matches)); " MATCHES — disambiguation required"] +:+ lf +:+
        line ["| Account ID | Code | Name | Type | Balance |"] +:+ line ["|---|---|---|---|---|"] +:+
        cat (map (λ r, line ["| `"; cell "?" 0 r; "` | "; cell "?" 1 r; " | "; cell "?" 2 r; " | "; cell "?" 3 r; " | "; cell "?" 6 r; " |"]) matches) +:+
        lf +:+ line ["**⛔ STOP.** Ask the user which account ID to use."])
  end.

Definition net_resolve_account (args : JsonValue) : NM JsonValue :=
  query ← liftR (need as_str "query" "'query' is required" args);
  let esc := escape query in
  by_code ← net_sql_or_default (RESOLVE_FIELDS +:+ " WHERE code = '" +:+ esc +:+ "'");
  by_name ← net_sql_or_default (RESOLVE_FIELDS +:+ " WHERE name = '" +:+ esc +:+ "'");
  by_uuid ← net_sql_or_default (RESOLVE_FIELDS +:+ " WHERE id = '" +:+ esc +:+ "'");
  by_meta ← net_sql_or_default (metadata_sql query);
  mret (net_resolve_answer query (foldl net_add_matches [] [by_code; by_name; by_uuid]) (length (json_rows by_meta))).

(** The first sixteen characters, or the whole text. *)
Definition short_hash (s : string) : string := if (16 <=? String.length s)%nat then String.substring 0 16 s else s.

Definition net_proposal_text (p : Proposal) : string :=
  let fmt m := format_amount_network m (pr_currency p) in
  let seq := pretty (pr_sequence p) in
  "## Correction Proposal" +:+ lf +:+ lf +:+
  rule +:+ lf +:+ lf +:+
  line ["**Original entry:** #"; seq; "  "] +:+
  line ["**Description:** "; pr_description p; "  "] +:+
  line ["**Original amount:** "; fmt (pr_original p); "  "] +:+
  line ["**Correct amount:** "; fmt (pr_correct p); "  "] +:+
  line ["**Net adjustment:** "; adjustment_text fmt (as_i64 (pr_correct p - pr_original p)); "  "] +:+ lf +:+
  rule +:+ lf +:+ lf +:+
  "### Proposed actions" +:+ lf +:+ lf +:+
  line ["**1. Reverse entry #"; seq; "** *(flip debit and credit)*  "] +:+
  line ["   Debit:  `"; pr_credit p; "` — "; fmt (pr_original p); "  "] +:+
  line ["   Credit: `"; pr_debit p; "` — "; fmt (pr_original p); "  "] +:+ lf +:+
  line ["**2. Post correction** *(restore correct amount)*  "] +:+
  line ["   Debit:  `"; pr_debit p; "` — "; fmt (pr_correct p); "  "] +:+
  line ["   Credit: `"; pr_credit p; "` — "; fmt (pr_correct p); "  "] +:+ lf +:+
  rule +:+ lf +:+ lf +:+
  "### What will be preserved" +:+ lf +:+ lf +:+
  line ["| Field | Value |"] +:+ line ["|---|---|"] +:+
  line ["| Historical entry | ✓ PRESERVED — entry #"; seq; " is never modified |"] +:+
  line ["| Original content_hash | ✓ PRESERVED — `"; pr_content_hash p; "...` |"] +:+
  line ["| Original chain_hash | ✓ PRESERVED — `"; pr_chain_hash p; "...` |"] +:+
  line ["| New entries | Will be APPENDED as new sequences |"] +:+
  line ["| Double-entry balance | ✓ Both new entries will balance |"] +:+
  line ["| Hash chain | ✓ Extended with reversal and correction |"] +:+ lf +:+
  rule +:+ lf +:+ lf +:+
  "### ⚠ Awaiting confirmation" +:+ lf +:+ lf +:+
  line ["**Ask the user:** *"; dquoted "Shall I proceed with this correction?"; "*"] +:+ lf +:+
  line ["If confirmed, call `execute_correction` with:"] +:+
  line ["```json"] +:+ line ["{"] +:+
  line ["  "; dquoted "sequence"; ": "; seq; ","] +:+
  line ["  "; dquoted "correct_amount_minor_units"; ": "; pretty (pr_correct p); ","] +:+
  line ["  "; dquoted "original_amount_minor_units"; ": "; pretty (pr_original p); ","] +:+
  line ["  "; dquoted "debit_account_id"; ": "; dquoted (pr_debit p); ","] +:+
  line ["  "; dquoted "credit_account_id"; ": "; dquoted (pr_credit p); ","] +:+
  line ["  "; dquoted "original_description"; ": "; dquoted (pr_description p); ","] +:+
  line ["  "; dquoted "original_entry_id"; ": "; dquoted (pr_entry_id p); ","] +:+
  line ["  "; dquoted "currency"; ": "; dquoted (pr_currency p); ","] +:+
  line ["  "; dquoted "domain"; ": "; dquoted (pr_domain p)] +:+
  line ["}"] +:+ line ["```"] +:+
  lf +:+ line ["Do NOT call `execute_correction` without explicit user confirmation."].

(** Indexing an account of a line panics on an empty row. *)
Definition net_first_cell (r : list string) : NM string := match head r with Some s => mret s | None => throw ToolPanic end.

Definition net_propose_correction (args : JsonValue) : NM JsonValue :=
  sequence ← liftR (need json_u64 "sequence" "'sequence' is required" args);
  correct ← liftR (need json_i64 "correct_amount_minor_units" "'correct_amount_minor_units' is required" args);
  let seq := pretty sequence in
  entry_resp ← net_sql_or_default (entry_sql sequence);
  match r ← first_row entry_resp; Some (map value_text r) with
  | None => mret (err_text ("Entry #" +:+ seq +:+ " not found"))
  | Some entry =>
      let status := cell "" 2 entry in
      if negb (bool_decide (status = "Posted")) then
        mret (err_text ("Entry #" +:+ seq +:+ " has status '" +:+ status +:+ "' — only 'Posted' entries can be corrected."))
      else
        lines_resp ← net_sql_or_default (entry_lines_sql sequence);
        let lines := omap row_texts (json_rows lines_resp) in
        if (length lines <? 2)%nat then mret (err_text ("Entry #" +:+ seq +:+ " does not have 2 journal lines"))
        else
          match List.find (line_side "Debit") lines, List.find (line_side "Credit") lines with
          | Some d, Some c =>
              debit ← net_first_cell d;
              credit ← net_first_cell c;
              mret (ok_text (net_proposal_text (mkProposal sequence correct (cell_i64 2 d) (cell "" 3 entry) debit credit
                (cell "USD" 3 d) (cell "" 4 entry) (cell "" 1 entry) (short_hash (cell "" 7 entry)) (short_hash (cell "" 8 entry)))))
          | _, _ => mret (err_text "Could not determine debit/credit accounts")
          end
  end.

Definition net_correction_args (args : JsonValue) : Result ToolError CorrectionArgs :=
  sequence ← need json_u64 "sequence" "'sequence' required" args;
  correct ← need json_i64 "correct_amount_minor_units" "'correct_amount_minor_units' required" args;
  original ← need json_i64 "original_amount_minor_units" "'original_amount_minor_units' required" args;
  debit ← need as_str "debit_account_id" "'debit_account_id' required" args;
  credit ← need as_str "credit_account_id" "'credit_account_id' required" args;
  description ← need as_str "original_description" "'original_description' required" args;
  entry_id ← need as_str "original_entry_id" "'original_entry_id' required" args;
  Ok (mkCorrectionArgs sequence correct original debit credit description entry_id
        (given as_str "currency" "USD" args) (given as_str "domain" "main" args)).

Definition first_value_text (resp : JsonValue) : option string := value_text <$> first_value resp.

Definition net_correction_insert (description debit credit : string) (amount : Z) (currency domain key meta : string) : string :=
  "INSERT INTO ledger (description, debit_account, credit_account, amount, currency, domain, external_ref, idempotency_key, metadata) VALUES ('" +:+
  escape description +:+ "','" +:+ escape debit +:+ "','" +:+ escape credit +:+ "'," +:+ pretty amount +:+ ",'" +:+
  escape currency +:+ "','" +:+ escape domain +:+ "','" +:+ escape key +:+ "','" +:+ escape key +:+ "','" +:+ escape meta +:+ "')".

Definition net_reversal_sql (a : CorrectionArgs) : string :=
  net_correction_insert ("Reversal of #" +:+ pretty (ca_sequence a) +:+ " — " +:+ escape (ca_description a))
    (ca_credit a) (ca_debit a) (ca_original a) (ca_currency a) (ca_domain a) (reversal_key a) (correction_meta "reverses" a).
Definition net_correction_sql (a : CorrectionArgs) : string :=
  net_correction_insert ("Correction of #" +:+ pretty (ca_sequence a) +:+ " — " +:+ escape (ca_description a))
    (ca_debit a) (ca_credit a) (ca_correct a) (ca_currency a) (ca_domain a) (correction_key a) (correction_meta "corrects" a).

Definition resp_is_ok (resp : JsonValue) : bool := default false (as_bool (jget "ok" resp)).
Definition resp_error (resp : JsonValue) : string := default "unknown" (as_str (jget "error" resp)).

Definition net_already_text (a : CorrectionArgs) (rev_seq cor_seq : string) (chain_ok : bool) : string :=
  let fmt m := format_amount_network m (ca_currency a) in
  "## Correction Already Applied (Idempotent)" +:+ lf +:+ lf +:+
  rule +:+ lf +:+ lf +:+
  "This correction was already posted on a prior run. " +:+
  "No new entries have been written." +:+ lf +:+ lf +:+
  line ["✓ **Reversal** (existing, sequence "; rev_seq; ")  "] +:+
  line ["  Amount: "; fmt (ca_original a); " reversed  "] +:+ lf +:+
  line ["✓ **Correction** (existing, sequence "; cor_seq; ")  "] +:+
  line ["  Amount: "; fmt (ca_correct a); " (correct amount)  "] +:+ lf +:+
  rule +:+ lf +:+ lf +:+
  line ["| Hash chain | "; (if chain_ok then "✓ Verified" else "⚠ Verify manually with VERIFY_CHAIN()"); " |"].

Definition net_complete_text (a : CorrectionArgs) (rev_seq cor_seq : string) (chain_ok : bool) : string :=
  let fmt m := format_amount_network m (ca_currency a) in
  let seq := pretty (ca_sequence a) in
  "## Correction Complete" +:+ lf +:+ lf +:+ rule +:+ lf +:+ lf +:+
  line ["✓ **Reversal posted** (sequence "; rev_seq; ")  "] +:+
  line ["  Amount: "; fmt (ca_original a); " reversed  "] +:+ lf +:+
  line ["✓ **Correction posted** (sequence "; cor_seq; ")  "] +:+
  line ["  Amount: "; fmt (ca_correct a); " (correct amount)  "] +:+ lf +:+
  rule +:+ lf +:+ lf +:+
  line ["| Check | Result |"] +:+ line ["|---|---|"] +:+
  line ["| Double-entry balanced | ✓ Both entries balance |"] +:+
  line ["| Original entry #"; seq; " | ✓ PRESERVED — not modified |"] +:+
  line ["| Hash chain | "; (if chain_ok then "✓ Extended and verified" else "⚠ Verify manually"); " |"] +:+
  line ["| Net adjustment | "; adjustment_text fmt (as_i64 (ca_correct a - ca_original a)); " |"] +:+ lf +:+
  line ["The ledger now reflects "; fmt (ca_correct a); " for this transaction. The original entry #"; seq; " at "; fmt (ca_original a); " is preserved intact."].

(** The sequence of the reversal, found or posted; an error text otherwise. *)
Definition net_obtain_reversal (a : CorrectionArgs) (existing : option string) : NM (Result string string) :=
  match existing with
  | Some seq => mret (Ok seq)
  | None =>
      resp ← net_sql_or_default (net_reversal_sql a);
      mret (if resp_is_ok resp then Ok (default "?" (first_value_text resp)) else Err (resp_error resp))
  end.

Definition net_execute_correction (args : JsonValue) : NM JsonValue :=
  a ← liftR (net_correction_args args);
  rev_check ← net_sql_or_default (by_ref_sql (reversal_key a));
  cor_check ← net_sql_or_default (by_ref_sql (correction_key a));
  match first_value_text rev_check, first_value_text cor_check with
  | Some rev_seq, Some cor_seq =>
      chain ← net_sql_or_default VERIFY_ALL;
      mret (ok_text (net_already_text a rev_seq cor_seq (response_ok_text chain)))
  | existing, _ =>
      reversal ← net_obtain_reversal a existing;
      match reversal with
      | Err e => mret (err_text ("Failed to post reversal: " +:+ e))
      | Ok rev_seq =>
          cor_resp ← net_sql_or_default (net_correction_sql a);
          if negb (resp_is_ok cor_resp) then
            mret (err_text ("Reversal posted (sequence " +:+ rev_seq +:+ ") but correction FAILED: " +:+ resp_error cor_resp +:+ lf +:+
              "The ledger now has an unmatched reversal. Post the correction manually."))
          else
            chain ← net_sql_or_default VERIFY_ALL;
            mret (ok_text (net_complete_text a rev_seq (default "?" (first_value_text cor_resp)) (response_ok_text chain)))
      end
  end.

Definition dispatch_tool_network (name : string) (args : JsonValue) : NM JsonValue :=
  let named n := bool_decide (name = n) in
  if named "query_ledger" then net_query_ledger args
  else if named "post_entry" then net_post_entry args
  else if named "get_balance" then net_get_balance args
  else if named "list_accounts" then net_list_accounts args
  else if named "query_ledger_lines" then net_query_ledger_lines args
  else if named "verify_chain" then net_verify_chain args
  else if named "merkle_root" then net_merkle_root args
  else if named "explain_balance" then net_explain_balance args
  else if named "reconcile_account" then net_reconcile_account args
  else if named "find_policy_violations" then net_find_policy_violations args
  else if named "summarize_period" then net_summarize_period args
  else if named "audit_report" then net_audit_report args
  else if named "resolve_account" then net_resolve_account args
  else if named "propose_correction" then net_propose_correction args
  else if named "execute_correction" then net_execute_correction args
  else throw (ToolErr ("Unknown tool: " +:+ name)).
End net.
