(* ===== verification/McpReports.v ===== *)
(** * vledger-mcp: what the reports are computed from

    The planner accepts a single equality, IN list or LIKE as a WHERE clause.
    The reports of the tools ask for conjunctions and comparisons, so their
    queries fail to plan; the tools take the failure for an empty result.  The
    theorems state what they answer in consequence.  Some tools look for "OK" in
    the upper-cased text of the answer to [VERIFY_CHAIN()], others in its first
    cell: the last theorem says which of the two tells an intact chain from a
    broken one. *)

From stdpp Require Import base gmap list strings option pretty.
From Stdlib Require Import ZArith Lia Strings.Byte Strings.Ascii.
From S2P Require Import Prelude Bytes Jsonl Crypto Merkle Money Entry AuditTrail SqlGuard WalRecord Wal Recovery Replication Tx Page EntryDb Sql Store StoreInv StoreAudit SqlExec SqlSafety SqlPlan SqlFront UserAuth Server ServerSafety SqlText McpText McpTools McpSafety McpNet.

#[local] Open Scope string_scope.
#[local] Open Scope Z_scope.
#[local] Open Scope list_scope.

Section reports.
Context `{Blake3} `{Ed25519} `{!WalExt} `{!PageExt} `{LedgerCodecs} `{LedgerExt} `{SqlExt} `{AuthExt} `{SE : ServerExt} `{!SqlReads}.
Context (pkg_version : string) (session : Session).

Notation TM := (M SharedLedger ToolError).

(** ** Conditions the planner rejects *)

(** A comparison, or more than one condition. *)
Definition complex (conds : list Atom) : bool :=
  match conds with [] | [AEq _ _] | [ALike _ _ _] => false | _ => true end.

Lemma complex_tree conds : complex conds = true → ∃ d, where_tree other_text conds = Some (OtherExpr d).
Proof. destruct conds as [|[] [|]]; try done; intros _; by eexists. Qed.

Lemma no_window t sel lim items : plan_window expr_display t sel lim (map (item_tree other_text) items) = Ok None.
Proof. induction items as [|i items IH]; [done|]. destruct i; cbn; exact IH. Qed.

Lemma complex_plan items t conds ord lim : complex conds = true → one_of TABLE_NAMES t = true →
  plan expr_display value_display (statement_tree other_text (TSelect (mkSelectText items (Some t) conds ord lim))) = Err SqlUnsupported.
Proof.
  intros [d Hd]%complex_tree _. unfold plan, statement_tree, plan_query. cbn [st_from st_items st_where st_limit q_body q_limit sel_from].
  rewrite Hd. unfold plan_from, extract_table_name. cbn [mbind Result_bind sel_projection sel_selection]. rewrite no_window.
  cbn [mbind Result_bind]. destruct (collect_aggregate_exprs _ _); reflexivity.
Qed.

(** Such a query fails in every state, without a trace. *)
Lemma complex_run items t conds ord lim :
  complex conds = true → one_of TABLE_NAMES t = true → select_ok (mkSelectText items (Some t) conds ord lim) = true →
  ∃ e, run_sql session (statement_text (TSelect (mkSelectText items (Some t) conds ord lim))) = mret (Err e).
Proof.
  intros Hc Ht Hok. rewrite run_sql_statement by done. destruct (too_long _); [by eexists|].
  unfold run_stmt. rewrite complex_plan by done. by eexists.
Qed.

Lemma mbind_ret {S E A B} (a : A) (f : A → M S E B) : (mret a ≫= f) = f a.
Proof. reflexivity. Qed.

(** ** Periods *)

Section period.
Context (from to domain : string) (Hp : period_ok from to).

Lemma count_status_fails status : quote_free status → ∃ e, run_sql session (count_status_sql from to domain status) = mret (Err e).
Proof. intros Hs. rewrite count_status_text by done. by apply complex_run. Qed.
Lemma count_fails : ∃ e, run_sql session (count_sql from to domain) = mret (Err e).
Proof. rewrite count_text by done. by apply complex_run. Qed.
Lemma volume_fails : ∃ e, run_sql session (volume_sql from to domain) = mret (Err e).
Proof. rewrite volume_text by done. by apply complex_run. Qed.
Lemma seq_range_none : seq_range session from to domain = mret (0, 0).
Proof.
  unfold seq_range. rewrite seq_range_text by done.
  destruct (complex_run RANGE_ITEMS "ledger" (period_atoms from to domain) None None) as [e He]; [done..|].
  unfold query. rewrite He. reflexivity.
Qed.
Lemma sample_fails : ∃ e, run_sql session (sample_sql from to domain) = mret (Err e).
Proof. rewrite sample_text by done. by apply complex_run. Qed.

(** The figures of any period. *)
Definition no_figures : PeriodFigures := mkPeriodFigures 0 0 0 0 0 0 "no entries in period" true.

Lemma period_figures_none : period_figures session from to domain = mret no_figures.
Proof.
  unfold period_figures. destruct (count_status_fails "Posted") as [e1 ->]; [done|]. destruct (count_status_fails "Failed") as [e2 ->]; [done|].
  destruct (count_status_fails "Pending") as [e3 ->]; [done|]. destruct volume_fails as [e4 ->]. rewrite seq_range_none. reflexivity.
Qed.

Definition no_audit (full_ok : bool) : AuditFigures :=
  mkAuditFigures 0 0 0 "NO ENTRIES" "No entries in this period." "no entries" (qr_empty "") full_ok.

Lemma audit_figures_none :
  audit_figures session from to domain = (full ← run_sql session VERIFY_ALL; mret (no_audit (scalar_ok full))).
Proof.
  unfold audit_figures. destruct count_fails as [e1 ->]. rewrite seq_range_none. destruct sample_fails as [e2 ->]. reflexivity.
Qed.
End period.

(** The period reports see no entry of the ledger.  For any two dates that
    pass the validation and any domain, in every state of the ledger,
    [summarize_period] answers that no entry was posted, failed or pending, that
    the volume is zero, the success rate 100% and the hash chain verified, even
    when the ledger holds entries of that period or its chain is broken; and
    [audit_report] reports no entries and samples none. *)
Theorem period_reports_blind args from to :
  as_str (jget "from" args) = Some from → as_str (jget "to" args) = Some to →
  validate_iso8601_timestamp from = Ok tt → validate_iso8601_timestamp to = Ok tt →
  let domain := given as_str "domain" "main" args in
  let tenant := given as_str "tenant" "VectorLedger Customer" args in
  (∀ W l, tool_summarize_period session args (W, l) = (Ok (ok_text (summary_text from to domain no_figures)), (W, l))) ∧
  (∀ W l v σ, tool_audit_report pkg_version session args (W, l) = (Ok v, σ) →
     ∃ full_ok, v = ok_text (audit_text pkg_version from to tenant domain (no_audit full_ok))).
Proof.
  intros Hf Ht Hvf Hvt domain tenant.
  assert (Hp : period_ok from to) by (split; by apply validated_chars).
  assert (Hd : ∀ m1 m2, period_dates m1 m2 args = Ok (from, to)).
  { intros m1 m2. unfold period_dates, need. rewrite Hf, Ht. cbn. by rewrite Hvf, Hvt. }
  split; intros W l.
  - unfold tool_summarize_period. rewrite Hd, mbind_liftR. cbv zeta. fold domain. rewrite period_figures_none by done. reflexivity.
  - intros v σ. unfold tool_audit_report. rewrite Hd, mbind_liftR. cbv zeta. fold domain tenant. rewrite audit_figures_none by done.
    intros (f&σ1&Hfig&Hv)%mbind_Ok_inv. apply mbind_Ok_inv in Hfig as (full&σ2&_&Hfig). minv. by eexists.
Qed.

(** ** Policies *)

Lemma large_amounts_fail n : ∃ e, run_sql session (large_amounts_sql n) = mret (Err e).
Proof. rewrite large_amounts_text. by apply complex_run. Qed.
Lemma missing_ref_fails : ∃ e, run_sql session MISSING_REF_SQL = mret (Err e).
Proof. rewrite missing_ref_text. by apply complex_run. Qed.

Definition section_if (enabled : bool) (text : string) : string * Z := (if enabled then text else "", 0).

Lemma policy_check_fails enabled sql found trailer none :
  (∃ e, run_sql session sql = mret (Err e)) → policy_check session enabled sql found trailer none = mret (section_if enabled none).
Proof. intros [e He]. unfold policy_check. destruct enabled; [|done]. by rewrite He. Qed.

(** Two of the four policy checks never find anything: in every state of
    the ledger and for every threshold, a [find_policy_violations] that answers
    reports no transaction above the threshold and a reference on every posted
    entry, each as a check that passed, whatever the ledger holds. *)
Theorem policy_checks_blind args W l v σ :
  tool_find_policy_violations session args (W, l) = (Ok v, σ) →
  let threshold := given json_i64 "large_amount_threshold_minor_units" 5000000 args in
  let enabled key := given as_bool key true args in
  ∃ pending failed, v = ok_text (violations_text
    [section_if (enabled "check_large_amounts")
       ("### ✓ Large Transactions — none found above " +:+ pretty threshold +:+ " minor units" +:+ lf +:+ lf);
     pending;
     section_if (enabled "check_missing_external_ref") ("### ✓ External References — all posted entries have a reference" +:+ lf +:+ lf);
     failed]).
Proof.
  intros Hv threshold enabled. unfold tool_find_policy_violations in Hv. cbv zeta in Hv.
  rewrite (policy_check_fails _ (large_amounts_sql _)) in Hv by apply large_amounts_fail. rewrite mbind_ret in Hv.
  apply mbind_Ok_inv in Hv as (pending&σ1&_&Hv).
  rewrite (policy_check_fails _ MISSING_REF_SQL) in Hv by apply missing_ref_fails. rewrite mbind_ret in Hv.
  apply mbind_Ok_inv in Hv as (failed&σ2&_&Hv). injection Hv as <- _. by eexists _, _.
Qed.

(** ** Reconciliation *)

Lemma line_sum_fails id side : quote_free id → side = "Debit" ∨ side = "Credit" → ∃ e, run_sql session (line_sum_sql id side) = mret (Err e).
Proof. intros Hid Hs. rewrite line_sum_text; [by apply complex_run|done|by destruct Hs as [-> | ->]]. Qed.

Lemma acct_cells_balance (s : LedgerStore) (a : Account) : i64_ok (balance (acc_id a) s) → ar_balance (acct_row (acct_cells s a)) = balance (acc_id a) s.
Proof. intros Hb. unfold acct_row, cell_i64. cbn -[parse_i64 pretty]. by rewrite parse_i64_pretty. Qed.

(** [reconcile_account] compares the stored balance with zero.  For an
    account that a lookup by code finds first, in every state of the ledger, the
    answer gives zero as the total of its debits and of its credits, and the
    whole stored balance as the discrepancy: it reports a balanced account
    exactly when the balance is zero, whatever lines were posted. *)
Theorem reconcile_compares_zero args code a rest W l :
  as_str (jget "account" args) = Some code →
  can_select (sn_role session) = true → sh_poisoned l = false → (∀ id, quote_free (uuid_string id)) →
  (length (str_bytes (ACCOUNT_FIELDS +:+ "code = '" +:+ escape code +:+ "'")) ≤ MAX_SQL_BYTES)%nat →
  List.filter (account_selected (Some (ByAccountCode code))) (all_accounts (sh_store l)) = a :: rest →
  i64_ok (balance (acc_id a) (sh_store l)) →
  let row := acct_row (acct_cells (sh_store l) a) in
  tool_reconcile_account session args (W, l) = (Ok (ok_text (reconcile_text row 0 0)), (W, l)) ∧
  reconcile_discrepancy row 0 0 = balance (acc_id a) (sh_store l).
Proof.
  intros Harg Hsel Hl Huuid Hlen Hfind Hb row. split.
  - unfold tool_reconcile_account, need. rewrite Harg. cbn [ok_or]. rewrite mbind_liftR. cbv zeta.
    destruct (account_lookup code) as [Hcode _]. rewrite Hcode in *.
    destruct (run_account_query session "code" code W l ltac:(by left)) as (r&Hr&Hrows).
    assert (Hok : ∃ q, r = Ok q).
    { rewrite run_sql_statement in Hr by done. unfold too_long in Hr. destruct (Nat.ltb_spec MAX_SQL_BYTES (length (str_bytes (statement_text (account_query "code" code))))); [lia|].
      rewrite (run_stmt_plan session _ _ W l (account_plan "code" code ltac:(by left))) in Hr; [|unfold check_plan_privilege; by rewrite Hsel|done].
      destruct (scan_accounts_cells W (sh_store l) (account_filter "code" code)) as (q&Hq&_).
      change (execute true (ScanAccounts (Some (account_filter "code" code)) ACCOUNT_KEEP) (W, sh_store l))
        with (read_execute true (ScanAccounts (Some (account_filter "code" code)) ACCOUNT_KEEP) (W, sh_store l)) in Hr.
      rewrite Hq in Hr. cbn in Hr. simplify_eq. by eexists. }
    destruct Hok as [q ->]. rewrite (mbind_eq _ _ _ _ _ Hr), mbind_ret. cbn [res_map_err]. rewrite mbind_liftR.
    rewrite (Hrows q eq_refl). change (account_filter "code" code) with (ByAccountCode code). rewrite Hfind. cbn [map].
    destruct (line_sum_fails (ar_id row) "Debit") as [e1 He1]; [apply Huuid|by left|].
    destruct (line_sum_fails (ar_id row) "Credit") as [e2 He2]; [apply Huuid|by right|].
    fold row. by rewrite He1, mbind_ret, He2, mbind_ret.
  - unfold reconcile_discrepancy, computed_balance, row. rewrite acct_cells_balance by done.
    assert (Hz : (if debit_normal (ar_type (acct_row (acct_cells (sh_store l) a))) then 0 - 0 else 0 - 0) = 0) by (by case_match).
    rewrite Hz. change (as_i64 0) with 0. rewrite Z.sub_0_r. by apply as_i64_id.
Qed.
End reports.


(** * The verdict on the hash chain *)

(** ** Texts that contain OK *)

Lemma to_uppercase_app (a b : string) : to_uppercase (a +:+ b) = to_uppercase a +:+ to_uppercase b.
Proof. induction a as [|c a IH]; [done|]. exact (f_equal (String (ascii_upper c)) IH). Qed.

Lemma substr_start (n b : string) : String.substring 0 (String.length n) (n +:+ b) = n.
Proof. induction n as [|c n IH]; [by destruct b|]. exact (f_equal (String c) IH). Qed.
Lemma substr_mid (a n b : string) : String.substring (String.length a) (String.length n) (a +:+ n +:+ b) = n.
Proof. induction a as [|c a IH]; [exact (substr_start n b)|exact IH]. Qed.

Lemma contains_app (a n b : string) : n ≠ "" → contains n (a +:+ n +:+ b) = true.
Proof.
  intros Hn. unfold contains. apply bool_decide_eq_true. destruct (String.index 0 n (a +:+ n +:+ b)) eqn:Hi; [done|].
  exfalso. apply (String.index_correct3 0 (String.length a) n _ Hi Hn); [lia|apply substr_mid].
Qed.

Lemma contains_ok_app (a k b : string) : to_uppercase k = "OK" → contains_ok (a +:+ k +:+ b) = true.
Proof. intros Hk. unfold contains_ok. rewrite !to_uppercase_app, Hk. by apply contains_app. Qed.

Section chain.
Context `{Blake3} `{Blake3Keyed} `{Ed25519} `{!WalExt} `{!PageExt} `{LedgerCodecs} `{LedgerExt} `{SqlExt}.
Context `{Hex} `{AuthExt} `{AuditExt} `{ReplExt} `{SE : ServerExt} `{!SqlReads} `{!NetExt}.
Context (config : ServerConfig) (session : Session).

Lemma cap_rows_short {A} (rows : list A) max : (length rows ≤ 1)%nat → cap_rows rows max = rows.
Proof. intros Hl. unfold cap_rows. destruct (Nat.ltb_spec 0 max), (Nat.ltb_spec max (length rows)); cbn; [lia|done..]. Qed.

(** [#[error("Serialization error: {0}")]] *)
Hypothesis serialization_text : ∀ m, ledger_error_text (Serialization m) = "Serialization error: " +:+ m.

(** The answer to [VERIFY_CHAIN()] for an index of the entries [es]. *)
Definition verdict (es : list JournalEntry) (s : LedgerStore) : Result SqlError QueryResult :=
  match chain_error (verify_entries ZERO_HASH es) with
  | Ok _ => one_row ["status"; "entries_verified"; "chain_tip"]
              [VText "OK"; VBigInt (Z.of_nat (size (t_entries (db_tables (ls_db s))))); VHash (hex_encode (ls_last_chain_hash s))] "Chain integrity verified"
  | Err e => Ok (integrity_failure e)
  end.

Lemma verify_all_run es W l : can_verify (sn_role session) = true → sh_poisoned l = false → w_io W = [] →
  db_repr (db_tables (ls_db (sh_store l))) es →
  ∃ q, verdict es (sh_store l) = Ok q ∧ run_sql session VERIFY_ALL (W, l) = (Ok (Ok q), (W, l)).
Proof.
  intros Hrole Hl Hio Hr. rewrite verify_all_text, run_sql_statement by done.
  replace (too_long (call "VERIFY_CHAIN" [])) with false by (vm_compute; reflexivity).
  rewrite (run_stmt_plan session _ (VerifyChain None None)); [|done|by cbn; rewrite Hrole|done].
  unfold SqlExec.execute. cbn [read_execute]. unfold exec_verify_chain, verdict.
  erewrite mbind_eq by (unfold attempt; by rewrite (verify_chain_integrity_run _ _ es)).
  destruct (chain_error _) as [[]|e]. 2: { eexists. split; [done|]. cbn. by destruct l. }
  erewrite mbind_eq.
  2: { unfold ledger, map_err, entry_count. erewrite mbind_eq by (apply db_try_reads_quiet; by apply query_quiet). done. }
  erewrite mbind_eq by done. eexists. split; [done|]. cbn. by destruct l.
Qed.

(** The tools that search the whole answer cannot tell a broken chain from an
    intact one.  For a ledger whose index holds the entries [es], in a healthy
    environment, the answer to [VERIFY_CHAIN()] reads as verified by the test of
    [execute_correction] ([text_ok]) and by the one of the network tools
    ([response_ok_text] on the server's response) whether the chain verifies or
    not, because "BROKEN" contains "OK"; the test of [audit_report] on the first
    cell ([scalar_ok]) holds exactly when it verifies. *)
Theorem broken_chain_reads_ok es W l : can_verify (sn_role session) = true → sh_poisoned l = false → w_io W = [] →
  db_repr (db_tables (ls_db (sh_store l))) es →
  ∃ q, run_sql session VERIFY_ALL (W, l) = (Ok (Ok q), (W, l)) ∧
    text_ok (Ok q) = true ∧ response_ok_text (response_value (result_response config q)) = true ∧
    (scalar_ok (Ok q) = true ↔ verify_entries ZERO_HASH es = None).
Proof.
  intros Hrole Hl Hio Hr. destruct (verify_all_run es W l Hrole Hl Hio Hr) as (q&Hq&Hrun). exists q. split; [done|].
  unfold verdict, chain_error in Hq. destruct (verify_entries ZERO_HASH es) as [[n []]|].
  all: injection Hq as <-; unfold text_ok, response_ok_text, integrity_failure, result_response; rewrite cap_rows_short, ?serialization_text by (cbn; lia);
    split_and!; [| |done].
  1, 2: apply (contains_ok_app "INTEGRITY FAILURE: Serialization error: Hash chain br" "ok"); done.
  1, 2: apply (contains_ok_app "INTEGRITY FAILURE: Serialization error: Chain linkage br" "ok"); done.
  1, 2: apply (contains_ok_app ("status | entries_verified | chain_tip" +:+ lf +:+ "-------+------------------+----------" +:+ lf) "OK"); done.
Qed.
End chain.
