(* ===== verification/McpServer.v ===== *)
(** * vledger-mcp: the catalogue, the query counter and the JSON-RPC server

    Models [crates/vledger-mcp/src/lib.rs] (the system prompt sent to an agent,
    the tools of a [tools/list] answer with their arguments, the handling of
    requests) and [counter.rs].  The counter's file is part of its state; a
    request is one step. *)

From stdpp Require Import base gmap list strings option pretty.
From Stdlib Require Import ZArith Lia Strings.Byte Strings.Ascii.
From S2P Require Import Prelude Bytes Jsonl Crypto Merkle Money Entry AuditTrail SqlGuard WalRecord Wal Recovery Replication Tx Page EntryDb Sql Store SqlExec SqlPlan UserAuth Server SqlText McpText McpTools McpNet.

#[local] Open Scope string_scope.
#[local] Open Scope Z_scope.
#[local] Open Scope list_scope.

Definition AGENT_SYSTEM_PROMPT : string :=
  lf +:+
  line ["You are a financial operations assistant with direct access to VectorLedger —"] +:+
  line ["a cryptographically verifiable, append-only double-entry financial ledger."] +:+
  lf +:+
  line ["## Your capabilities"] +:+
  lf +:+
  line ["You can call the following tools:"] +:+
  lf +:+
  line ["### Query tools"] +:+
  line ["- query_ledger        — Run any SELECT, BALANCE(), VERIFY_CHAIN(), MERKLE_ROOT()"] +:+
  line ["- get_balance         — Get the current balance of any account"] +:+
  line ["- list_accounts       — List all accounts with balances"] +:+
  line ["- query_ledger_lines  — Query individual debit/credit journal lines"] +:+
  lf +:+
  line ["### Write tools (operator/admin role required)"] +:+
  line ["- post_entry          — Record a new double-entry journal entry"] +:+
  lf +:+
  line ["### Integrity tools"] +:+
  line ["- verify_chain        — Verify cryptographic hash chain integrity"] +:+
  line ["- merkle_root         — Compute a BLAKE3 Merkle commitment over a sequence range"] +:+
  lf +:+
  line ["### Financial reasoning tools (use these for complex questions)"] +:+
  line ["- explain_balance      — Why is an account at its current balance?"] +:+
  line ["- reconcile_account    — Does the balance match the sum of posted lines?"] +:+
  line ["- find_policy_violations — Transactions that break financial rules"] +:+
  line ["- summarize_period     — Natural-language summary of a date range"] +:+
  line ["- audit_report         — Cryptographic audit evidence report for a period"] +:+
  lf +:+
  line ["## Financial domain knowledge you MUST apply"] +:+
  lf +:+
  line ["### Amounts are ALWAYS in minor units (integer cents)"] +:+
  line ["- $10,000.00 USD = 1000000"] +:+
  line ["- $82,400.00 USD = 8240000"] +:+
  line ["- When displaying to users: divide by 100 for USD/EUR/GBP; JPY has no subunit"] +:+
  line ["- When a user says "; dq; "$50K"; dq; " you mean 5000000 in tool calls"] +:+
  lf +:+
  line ["### Double-entry accounting"] +:+
  line ["- Every transaction has EXACTLY one Debit line and one Credit line"] +:+
  line ["- Debits and credits always balance (debit amount == credit amount)"] +:+
  line ["- The ledger is APPEND-ONLY — you cannot edit or delete entries"] +:+
  line ["- Corrections require a reversal entry (flip debit/credit) then a correction entry"] +:+
  lf +:+
  line ["### Account types and normal balance direction"] +:+
  line ["- Asset / Expense → increased by Debits, normal balance is positive (Debit)"] +:+
  line ["- Liability / Equity / Income → increased by Credits, normal balance may appear negative"] +:+
  line ["- Suspense → temporary account; balance should be zero after reconciliation"] +:+
  lf +:+
  line ["### Entry status meanings"] +:+
  line ["- 'Posted'    → committed, immutable, hash-chained"] +:+
  line ["- 'Pending'   → awaiting settlement — does NOT affect final balance yet"] +:+
  line ["- 'Settled'   → settlement confirmed"] +:+
  line ["- 'Failed'    → settlement failed — may need reversal"] +:+
  line ["- 'Reversal'  → reversal of a prior Posted entry"] +:+
  lf +:+
  line ["### Cryptographic fields"] +:+
  line ["- content_hash → fingerprint of this entry's fields; tampering changes this"] +:+
  line ["- chain_hash   → links this entry to all prior entries; breaking any prior entry breaks this"] +:+
  line ["- merkle_root  → proves membership in a committed set; use for audit evidence"] +:+
  lf +:+
  line ["## How to answer financial questions"] +:+
  lf +:+
  line [dq; "Why is X account lower than expected?"; dq] +:+
  line ["→ Call explain_balance('X'), then reconcile_account('X')"] +:+
  lf +:+
  line [dq; "Summarize last month / Q3 / this week"; dq] +:+
  line ["→ Call summarize_period with appropriate from/to dates"] +:+
  lf +:+
  line [dq; "Are there any compliance issues / suspicious transactions?"; dq] +:+
  line ["→ Call find_policy_violations"] +:+
  lf +:+
  line [dq; "Generate an audit report for September"; dq] +:+
  line ["→ Call audit_report with from='2026-09-01', to='2026-09-30'"] +:+
  lf +:+
  line [dq; "Is the ledger intact / has it been tampered with?"; dq] +:+
  line ["→ Call verify_chain() — if result contains 'OK' the chain is intact"] +:+
  lf +:+
  line [dq; "What is the Merkle root / cryptographic commitment for entries X to Y?"; dq] +:+
  line ["→ Call merkle_root(from_seq=X, to_seq=Y)"] +:+
  lf +:+
  line ["## Behaviour rules"] +:+
  lf +:+
  line ["1. Never make up balances, amounts, or entry data — always call a tool to get real data."] +:+
  line ["2. Always show amounts in human-readable form (divide minor units by 100 for USD)."] +:+
  line ["3. After posting an entry, always confirm the sequence number and entry ID returned."] +:+
  line ["4. If verify_chain returns anything other than OK, escalate immediately — this means"] +:+
  line ["   potential data tampering."] +:+
  line ["5. For sensitive operations (posting entries, reconciliation), confirm with the user"] +:+
  line ["   before proceeding."] +:+
  line ["6. When a question is ambiguous (which account? which period?), ask for clarification"] +:+
  line ["   rather than guessing."] +:+
  lf +:+
  line ["## MANDATORY correction workflow"] +:+
  lf +:+
  line ["When a user wants to change the amount, description, or any field of a posted entry:"] +:+
  lf +:+
  line ["1. Call `propose_correction` with the sequence number and correct amount."] +:+
  line ["2. Show the user the FULL proposal — original amount, reversal, correction, net"] +:+
  line ["   adjustment, what is preserved — exactly as returned by the tool."] +:+
  line ["3. Ask: *"; dq; "Shall I proceed with this correction?"; dq; "*"] +:+
  line ["4. Only call `execute_correction` after explicit user confirmation."] +:+
  line ["5. Never call `post_entry` directly to correct an existing entry."] +:+
  line ["6. Never attempt UPDATE or DELETE — the ledger is append-only by design."] +:+
  lf +:+
  line ["The correct accounting workflow for corrections is:"] +:+
  line ["  Original → Reversal (-original amount) → Correction (+correct amount)"] +:+
  lf +:+
  line ["This preserves the historical record while updating the ledger's economic state."] +:+
  lf +:+
  line ["Before calling `post_entry` for any transaction involving named individuals or entities:"] +:+
  lf +:+
  line ["1. Call `resolve_account` for EVERY named party (debit side AND credit side)."] +:+
  line ["2. If resolve_account returns NOT_FOUND or MULTIPLE_FOUND — STOP. Do not post."] +:+
  line ["   Ask the user to provide the correct account code or UUID."] +:+
  line ["3. If resolve_account returns a single confirmed match — show the user the"] +:+
  line ["   account details and ask them to confirm before posting."] +:+
  line ["4. Only call `post_entry` after explicit user confirmation of the resolved accounts."] +:+
  lf +:+
  line ["This is the identity → authorization → accounting chain:"] +:+
  line ["- Identity:      Who is this person? (resolve_account)"] +:+
  line ["- Authorization: Is this the right account? (user confirms)"] +:+
  line ["- Accounting:    Record the double-entry (post_entry)"] +:+
  lf +:+
  line ["NEVER skip steps 1–3. NEVER assign a random or unverified account to a named"] +:+
  line ["individual. Cryptographic integrity proves the recorded transaction wasn't altered —"] +:+
  line ["it does NOT prove the transaction was correctly authorized or that the accounts"] +:+
  "were correctly identified. That responsibility belongs to the agent and the user.".

(** A tool: its name, its description, its arguments (name, type, description)
    and the ones that are required. *)
Record ToolDecl := mkToolDecl {
  td_name : string;
  td_description : string;
  td_properties : list (string * (string * string));
  td_required : option (list string)
}.

Definition decl_query_ledger : ToolDecl :=
  mkToolDecl "query_ledger"
    "Run a read-only SELECT against the ledger, ledger_lines, or accounts table. Also accepts special functions: BALANCE('CODE'), VERIFY_CHAIN(), VERIFY_ENTRY(seq), MERKLE_ROOT(from, to). Use for any question about entries, balances, or history."
    [("sql", ("string", "A VectorLedger SQL SELECT statement. Amounts are in integer minor units (cents). Multiply dollar amounts by 100."))]
    (Some ["sql"]).
Definition decl_post_entry : ToolDecl :=
  mkToolDecl "post_entry"
    "Record a new double-entry journal entry. Both debit and credit sides are written atomically and hash-chained. amount MUST be in minor units (e.g. $100.00 USD = 10000). The ledger is append-only — corrections require a separate reversal entry. WARNING: Do NOT call this to correct an existing entry amount. Use propose_correction instead."
    [("description", ("string", "Human-readable transaction description."));
     ("debit_account", ("string", "Account code (e.g. 'CASH') or UUID to debit."));
     ("credit_account", ("string", "Account code or UUID to credit."));
     ("amount", ("integer", "Amount in minor units (cents). Must be positive. $100.00 = 10000."));
     ("currency", ("string", "ISO 4217 currency code, e.g. 'USD'."));
     ("domain", ("string", "Ledger domain (default: 'main')."));
     ("external_ref", ("string", "External system reference ID (optional)."));
     ("metadata", ("string", "JSON metadata string (optional)."))]
    (Some ["description"; "debit_account"; "credit_account"; "amount"; "currency"]).
Definition decl_get_balance : ToolDecl :=
  mkToolDecl "get_balance"
    "Return the current running balance of a single account in minor units. For Asset/Expense accounts a positive balance is normal. For Liability/Equity/Income a negative (credit) balance is normal."
    [("account", ("string", "Account code (e.g. 'CASH') or UUID."))]
    (Some ["account"]).
Definition decl_list_accounts : ToolDecl :=
  mkToolDecl "list_accounts"
    "List accounts with current balances. Optionally filter by domain or currency. Returns up to 500 accounts by default — use the limit parameter for more, or filter by domain/currency to narrow results. For very large account sets use query_ledger with an explicit SQL query instead."
    [("domain", ("string", "Filter by domain (optional)."));
     ("currency", ("string", "Filter by currency code (optional)."));
     ("limit", ("integer", "Maximum accounts to return (default 500, max recommended 2000)."))]
    None.
Definition decl_query_ledger_lines : ToolDecl :=
  mkToolDecl "query_ledger_lines"
    "Query individual debit/credit journal lines. Each ledger entry has exactly 2 lines — one Debit and one Credit. Useful for account-level transaction history."
    [("domain", ("string", "Filter by domain (optional)."));
     ("dr_cr", ("string", "'Debit' or 'Credit' (optional)."));
     ("limit", ("integer", "Max rows (default 100)."))]
    None.
Definition decl_verify_chain : ToolDecl :=
  mkToolDecl "verify_chain"
    "Verify the BLAKE3 cryptographic hash chain. Returns OK or BROKEN. A broken chain means tampering has occurred. Call this after any investigation or before producing an audit report."
    [("from_seq", ("integer", "Start of range (optional, defaults to full ledger)."));
     ("to_seq", ("integer", "End of range (optional)."))]
    None.
Definition decl_merkle_root : ToolDecl :=
  mkToolDecl "merkle_root"
    "Compute the 64-character BLAKE3 Merkle root over a range of entries. This is a cryptographic commitment — record it alongside the sequence range to prove the ledger has not changed."
    [("from_seq", ("integer", "First entry sequence (inclusive)."));
     ("to_seq", ("integer", "Last entry sequence (inclusive)."))]
    (Some ["from_seq"; "to_seq"]).
Definition decl_explain_balance : ToolDecl :=
  mkToolDecl "explain_balance"
    "Explain why an account is at its current balance by showing recent debits and credits, the account type, normal balance direction, and a narrative interpretation. Use this when a user asks 'why is X account at Y?' or 'where did the money in X go?'"
    [("account", ("string", "Account code or UUID to explain."));
     ("limit", ("integer", "Number of recent lines to show per side (default 20)."))]
    (Some ["account"]).
Definition decl_reconcile_account : ToolDecl :=
  mkToolDecl "reconcile_account"
    "Verify that an account's running balance matches the mathematical sum of all its posted debit and credit lines. Returns BALANCED or flags a discrepancy with the exact difference. Use when investigating unexpected balances or preparing for an audit."
    [("account", ("string", "Account code or UUID to reconcile."))]
    (Some ["account"]).
Definition decl_find_policy_violations : ToolDecl :=
  mkToolDecl "find_policy_violations"
    "Scan the ledger for entries that violate configurable financial policies: transactions above a large-amount threshold, entries still Pending too long, Posted entries missing an external reference, and Failed entries. Returns a categorised violation report. Use for compliance checks, fraud screening, or answering questions like 'show me transactions that need review'."
    [("large_amount_threshold_minor_units", ("integer", "Flag entries with a line amount above this threshold in minor units (default 5000000 = $50,000)."));
     ("pending_days_threshold", ("integer", "Flag Pending entries older than this many days (default 3)."));
     ("check_large_amounts", ("boolean", "Enable large-amount check (default true)."));
     ("check_pending_too_long", ("boolean", "Enable pending-too-long check (default true)."));
     ("check_missing_external_ref", ("boolean", "Enable missing-external-ref check (default true)."));
     ("check_failed_entries", ("boolean", "Enable failed-entries check (default true)."))]
    None.
Definition decl_summarize_period : ToolDecl :=
  mkToolDecl "summarize_period"
    "Produce a natural-language financial summary for a date range: entry counts by status, total debit volume, success rate, sequence range, Merkle commitment, and chain integrity. Use when a user asks 'summarize last month' or 'what happened in September?'"
    [("from", ("string", "Start date or timestamp, e.g. '2026-09-01'."));
     ("to", ("string", "End date or timestamp, e.g. '2026-09-30'."));
     ("domain", ("string", "Domain to summarize (default 'main')."))]
    (Some ["from"; "to"]).
Definition decl_audit_report : ToolDecl :=
  mkToolDecl "audit_report"
    "Generate a structured cryptographic audit evidence report for a period. Includes ledger summary, hash chain verification, Merkle commitment, sample entries with content hashes, and instructions for independent verification. Suitable for presenting to an auditor or regulator."
    [("from", ("string", "Period start date, e.g. '2026-09-01'."));
     ("to", ("string", "Period end date, e.g. '2026-09-30'."));
     ("tenant", ("string", "Organization name for the report header."));
     ("domain", ("string", "Domain to report on (default 'main')."))]
    (Some ["from"; "to"]).
Definition decl_resolve_account : ToolDecl :=
  mkToolDecl "resolve_account"
    "MANDATORY before any write operation involving a named person or entity. Resolves an account by code, name, or UUID and returns the authoritative account ID. If no match is found, returns NOT_FOUND and instructs the agent to STOP and ask the user — never guess or use a random account. If multiple matches are found, returns all candidates for the user to disambiguate. This tool enforces the identity→authorization→accounting separation: the agent must never infer which account belongs to a named individual without explicit confirmation."
    [("query", ("string", "The name, account code, or UUID to resolve. Examples: 'Duane Livingston', 'CASH', 'c164acd1-f975-41fc-ae78-d0598d803138'"))]
    (Some ["query"]).
Definition decl_propose_correction : ToolDecl :=
  mkToolDecl "propose_correction"
    "CALL THIS FIRST when a user says an entry amount is wrong, incorrect, or needs to be changed. Trigger words: 'change', 'fix', 'update', 'wrong amount', 'incorrect amount', 'should be', 'it is not'. Step 1 of the correction workflow: look up the original entry and produce a structured proposal showing exactly what will happen — the reversal and correction entries — before anything is written. The agent MUST show this proposal to the user and receive explicit confirmation before calling execute_correction. NEVER call post_entry directly to correct an existing entry. NEVER skip this step and go directly to execute_correction."
    [("sequence", ("integer", "The sequence number of the entry to correct."));
     ("correct_amount_minor_units", ("integer", "The correct amount in minor units (e.g. 40192 for $401.92 USD)."))]
    (Some ["sequence"; "correct_amount_minor_units"]).
Definition decl_execute_correction : ToolDecl :=
  mkToolDecl "execute_correction"
    "Step 2 of the correction workflow. Execute the reversal and correction entries ONLY after propose_correction has been shown to the user and they have explicitly confirmed they want to proceed. Posts the reversal entry (flipped debit/credit at original amount) and the correction entry (correct amount), then verifies chain integrity and returns a full confirmation summary."
    [("sequence", ("integer", "Original entry sequence number."));
     ("correct_amount_minor_units", ("integer", "Correct amount in minor units."));
     ("original_amount_minor_units", ("integer", "Original amount in minor units (from propose_correction)."));
     ("debit_account_id", ("string", "UUID of the original debit account."));
     ("credit_account_id", ("string", "UUID of the original credit account."));
     ("original_description", ("string", "Description of the original entry."));
     ("original_entry_id", ("string", "UUID of the original entry."));
     ("currency", ("string", "Currency code (default: USD)."));
     ("domain", ("string", "Domain (default: main)."))]
    (Some ["sequence"; "correct_amount_minor_units"; "original_amount_minor_units"; "debit_account_id"; "credit_account_id"; "original_description"; "original_entry_id"]).

Definition TOOLS : list ToolDecl :=
  [decl_query_ledger; decl_post_entry; decl_get_balance; decl_list_accounts; decl_query_ledger_lines;
   decl_verify_chain; decl_merkle_root; decl_explain_balance; decl_reconcile_account; decl_find_policy_violations;
   decl_summarize_period; decl_audit_report; decl_resolve_account; decl_propose_correction; decl_execute_correction].

Definition tool_value (t : ToolDecl) : JsonValue :=
  JObj [("name", JStr (td_name t)); ("description", JStr (td_description t));
    ("inputSchema", JObj ([("type", JStr "object");
        ("properties", JObj (map (λ p, (p.1, JObj [("type", JStr p.2.1); ("description", JStr p.2.2)])) (td_properties t)))] ++
      match td_required t with Some r => [("required", JArr (map JStr r))] | None => [] end))].

Definition tool_list : JsonValue := JObj [("tools", JArr (map tool_value TOOLS))].


(** * The server *)

(** ** The counter *)

Definition LIMIT_STARTER : Z := 10.
Definition LIMIT_GROWTH : Z := 100.
Definition LIMIT_UNLIMITED : Z := 0.

Record CounterState := mkCounterState { cs_month : string; cs_count : Z }.

(** The counter, with the contents of [mcp_queries.json]. *)
Record AgentQueryCounter := mkCounter { qc_file : option bytes; qc_state : CounterState; qc_limit : Z }.

Definition qc_set_file (bs : bytes) (c : AgentQueryCounter) : AgentQueryCounter := mkCounter (Some bs) (qc_state c) (qc_limit c).
Definition qc_set_state (s : CounterState) (c : AgentQueryCounter) : AgentQueryCounter := mkCounter (qc_file c) s (qc_limit c).

(** The calendar ([chrono]'s ["%Y-%m"]) and [serde_json] on the state. *)
Class CounterExt := {
  month_text : Z → string;
  counter_json :: Json CounterState
}.

Record QueryLimitError := mkQueryLimitError { ql_limit : Z; ql_used : Z; ql_month : string }.

Definition limit_error_text (e : QueryLimitError) : string :=
  line ["Monthly Agent Query limit reached: "; pretty (ql_used e); "/"; pretty (ql_limit e); " queries used in "; ql_month e; "."] +:+ lf +:+
  line ["Upgrade your VectorLedger license to continue:"] +:+
  line ["Starter:     10 Agent Queries/month  — $499/mo"] +:+
  line ["Growth:     100 Agent Queries/month  — $2,499/mo"] +:+
  line ["Enterprise: Unlimited Agent Queries  — from $4,999/mo"] +:+ lf +:+
  "Contact: pavon@vectorguardlabs.com".

Section counter.
Context `{CounterExt}.

Definition current_month {S E} : M S E string := t ← now; mret (month_text t).

(** [AgentQueryCounter::open] on the file's contents; reading may fail. *)
Definition counter_open {E} (file : option bytes) (limit : Z) : M unit E AgentQueryCounter :=
  month ← current_month;
  let fresh := mkCounterState month 0 in
  state ← match file with
          | Some text =>
              r ← attempt (io tt);
              mret (match r with
                    | Ok _ => match from_json text with Some s => if bool_decide (cs_month s = month) then s else fresh | None => fresh end
                    | Err _ => fresh
                    end)
          | None => mret fresh
          end;
  mret (mkCounter file state limit).

Definition is_over_limit (c : AgentQueryCounter) : bool :=
  negb (qc_limit c =? LIMIT_UNLIMITED) && (qc_limit c <=? cs_count (qc_state c)).

Definition remaining (c : AgentQueryCounter) : option Z :=
  if qc_limit c =? LIMIT_UNLIMITED then None else Some (sat_sub (qc_limit c) (cs_count (qc_state c))).

(** [std::fs::write]: on failure a prefix may be in the file. *)
Definition counter_persist {E} : M AgentQueryCounter E unit :=
  c ← gets id;
  match to_json (qc_state c) with
  | Some text =>
      r ← attempt (io tt);
      match r with
      | Ok _ => modify (qc_set_file text)
      | Err _ => n ← rand; modify (qc_set_file (take (Z.to_nat (n mod (Z.of_nat (length text) + 1))) text))
      end
  | None => mret tt
  end.

Definition consume : M AgentQueryCounter QueryLimitError unit :=
  month ← current_month;
  _ ← modify (λ c, if bool_decide (cs_month (qc_state c) = month) then c else qc_set_state (mkCounterState month 0) c);
  c ← gets id;
  if negb (qc_limit c =? LIMIT_UNLIMITED) && (qc_limit c <=? cs_count (qc_state c)) then
    throw (mkQueryLimitError (qc_limit c) (cs_count (qc_state c)) (cs_month (qc_state c)))
  else
    _ ← modify (qc_set_state (mkCounterState (cs_month (qc_state c)) (wadd_u64 (cs_count (qc_state c)) 1)));
    counter_persist.
End counter.

(** ** Requests *)

Record JsonRpcRequest := mkRpcRequest { rpc_id : option JsonValue; rpc_method : string; rpc_params : JsonValue }.

Inductive RpcResponse :=
  | RpcOk (id : option JsonValue) (result : JsonValue)
  | RpcErr (id : option JsonValue) (code : Z) (message : string).

(** What the HTTP handler returns. *)
Inductive HttpAnswer := NoContent | Reply (r : RpcResponse).

Definition NANOS : Z := 1000000000.

Section server.
Context `{Blake3} `{Blake3Keyed} `{Ed25519} `{!WalExt} `{!PageExt} `{LedgerCodecs} `{LedgerExt} `{SqlExt}.
Context `{Hex} `{AuthExt} `{AuditExt} `{ReplExt} `{SE : ServerExt} `{!NetExt} `{CounterExt}.
Context {C : Type} (exchange : bytes → C → Answer * C) (peer_addr : string) (config : ServerConfig) (cfg : NetConfig).
Context (pkg_version : string).

Record AppState := mkAppState {
  app_ledger : option SharedLedger;
  app_session : option Session;
  app_network : option (Link (C:=C));
  app_counter : AgentQueryCounter;
  app_last_initialize : option Z;
  app_timeout_secs : Z
}.

Definition app_set_ledger (l : SharedLedger) (s : AppState) : AppState :=
  mkAppState (Some l) (app_session s) (app_network s) (app_counter s) (app_last_initialize s) (app_timeout_secs s).
Definition app_set_network (k : Link) (s : AppState) : AppState :=
  mkAppState (app_ledger s) (app_session s) (Some k) (app_counter s) (app_last_initialize s) (app_timeout_secs s).
Definition app_set_counter (c : AgentQueryCounter) (s : AppState) : AppState :=
  mkAppState (app_ledger s) (app_session s) (app_network s) c (app_last_initialize s) (app_timeout_secs s).
Definition app_set_last (t : Z) (s : AppState) : AppState :=
  mkAppState (app_ledger s) (app_session s) (app_network s) (app_counter s) (Some t) (app_timeout_secs s).

Notation AM := (M AppState ToolError).

(** [t.elapsed().as_secs()] *)
Definition elapsed_secs (now_ns t : Z) : Z := Z.max 0 (now_ns - t) / NANOS.

Definition initialize_answer : JsonValue :=
  JObj [("protocolVersion", JStr "2024-11-05"); ("capabilities", JObj [("tools", JObj [])]);
        ("serverInfo", JObj [("name", JStr "vledger-mcp"); ("version", JStr pkg_version)]);
        ("instructions", JStr AGENT_SYSTEM_PROMPT)].

Definition initialize : AM JsonValue :=
  s ← gets id;
  should_count ← match app_last_initialize s with
                 | None => mret true
                 | Some t => n ← now; mret (app_timeout_secs s <=? elapsed_secs n t)
                 end;
  _ ← (if (should_count : bool) then
         map_err (λ e, ToolErr ("Agent Query limit reached: " +:+ limit_error_text e)) (zoom app_counter app_set_counter consume)
       else mret tt);
  t ← now;
  _ ← modify (app_set_last t);
  mret initialize_answer.

Definition call_tool (params : JsonValue) : AM JsonValue :=
  tool_name ← liftR (need as_str "name" "Missing 'name' in tools/call params" params);
  let args := jget "arguments" params in
  s ← gets id;
  match app_network s, app_ledger s, app_session s with
  | Some k, _, _ => zoom (λ _, k) app_set_network (dispatch_tool_network exchange peer_addr config cfg tool_name args)
  | None, Some l, Some session => zoom (λ _, l) app_set_ledger (dispatch_tool pkg_version tool_name session args)
  | None, _, _ => throw (ToolErr "MCP server has no ledger connection")
  end.

Definition dispatch (req : JsonRpcRequest) : AM JsonValue :=
  let method_is m := bool_decide (rpc_method req = m) in
  if method_is "initialize" then initialize
  else if method_is "notifications/initialized" then mret JNull
  else if method_is "tools/list" then mret tool_list
  else if method_is "tools/call" then call_tool (rpc_params req)
  else throw (ToolErr ("Unknown method: " +:+ rpc_method req)).

(** [POST /message]; a panic of the handler closes the connection without an
    answer. *)
Definition handle_message (req : JsonRpcRequest) : AM HttpAnswer :=
  r ← attempt (dispatch req);
  match r with
  | Err ToolPanic => throw ToolPanic
  | _ =>
      match rpc_id req with
      | None => mret NoContent
      | Some _ =>
          mret (Reply (match r with
            | Ok result => RpcOk (rpc_id req) result
            | Err (ToolErr m) => RpcErr (rpc_id req) (-32000) m
            | Err ToolPanic => RpcErr (rpc_id req) (-32000) ""
            end))
      end
  end.

(** [GET /health] *)
Definition health_fields (s : AppState) (now_ns : Z) : list (string * JsonValue) :=
  let c := app_counter s in
  let active := match app_last_initialize s with Some t => elapsed_secs now_ns t <? app_timeout_secs s | None => false end in
  [("ok", JBool true); ("service", JStr "vledger-mcp"); ("version", JStr pkg_version); ("tools", JInt 15);
   ("agent_queries_used", JInt (cs_count (qc_state c)));
   ("agent_queries_limit", if qc_limit c =? 0 then JStr "unlimited" else JInt (qc_limit c));
   ("session_active", JBool active); ("session_timeout_secs", JInt (app_timeout_secs s));
   ("agent_queries_remaining", match remaining c with Some r => JInt r | None => JStr "unlimited" end)] ++
  match app_last_initialize s with Some t => [("session_idle_secs", JInt (elapsed_secs now_ns t))] | None => [] end.

Definition handle_health : AM JsonValue := t ← now; s ← gets id; mret (JObj (health_fields s t)).

(** [McpServer::run]: the state the server starts with. *)
Record McpConfig := mkMcpConfig { mc_username : string; mc_password : string; mc_monthly_limit : Z; mc_timeout_secs : Z }.

Definition start_network (mc : McpConfig) (file : option bytes) (k : Link) : M unit ToolError AppState :=
  c ← counter_open file (mc_monthly_limit mc);
  mret (mkAppState None None (Some k) c None (mc_timeout_secs mc)).

Definition start_direct (mc : McpConfig) (file : option bytes) (l : SharedLedger) : M UserStore ToolError AppState :=
  c ← zoom (λ _, tt) (λ _ us, us) (counter_open file (mc_monthly_limit mc));
  session ← map_err (λ e, ToolErr ("MCP server auth failed: " +:+ server_error_text e)) (authenticate (mc_username mc) (mc_password mc));
  mret (mkAppState (Some l) (Some session) None c None (mc_timeout_secs mc)).
End server.
