(* ===== verification/McpServerSafety.v ===== *)
(** * vledger-mcp: the monthly limit, and the tools over the network

    What the query counter guarantees (at most the limit in a month) and what it
    does not cover.  In network mode the tools reach the ledger only by sending
    frames to the server's connection handler; the frames of the reading tools
    are logins and queries, so that they leave the server's ledger alone. *)

From stdpp Require Import base gmap list strings option pretty relations.
From Stdlib Require Import ZArith Lia Strings.Byte Strings.Ascii.
From S2P Require Import Prelude Bytes Jsonl Crypto Merkle Money Entry AuditTrail SqlGuard WalRecord Wal Recovery Replication Tx Page EntryDb Sql Store SqlExec SqlSafety SqlPlan SqlFront UserAuth Server ServerSafety SqlText McpText McpTools McpSafety McpNet McpServer.

#[local] Open Scope string_scope.
#[local] Open Scope Z_scope.
#[local] Open Scope list_scope.

Section counter.
Context `{CounterExt}.

(** The queries of a counter used in month [m]. *)
Definition used_in (m : string) (c : AgentQueryCounter) : Z := if bool_decide (cs_month (qc_state c) = m) then cs_count (qc_state c) else 0.

Lemma persist_keeps_state {E} W (c : AgentQueryCounter) :
  ∃ W' c', counter_persist (E:=E) (W, c) = (Ok tt, (W', c')) ∧ qc_state c' = qc_state c ∧ qc_limit c' = qc_limit c.
Proof.
  unfold counter_persist. rewrite (mbind_eq _ _ (W, c) c (W, c)) by done. destruct (to_json (qc_state c)) as [t|]; [|by eexists _, _].
  unfold mbind at 1, M_bind at 1, attempt. destruct (io tt (W, c)) as [[[]|[]] [W1 c1]] eqn:Hio;
    (assert (c1 = c) as -> by (unfold io in Hio; repeat case_match; by simplify_eq)).
  - by eexists _, _.
  - unfold mbind, M_bind. unfold rand. repeat case_match; simplify_eq; by eexists _, _.
Qed.

(** One call: the month it sees, whether it is granted, and the count after. *)
Lemma consume_step W c : 0 ≤ qc_limit c →
  ∃ m r W' c', consume (W, c) = (r, (W', c')) ∧ cs_month (qc_state c') = m ∧ qc_limit c' = qc_limit c ∧
    (if negb (qc_limit c =? 0) && (qc_limit c <=? used_in m c)
     then r = Err (mkQueryLimitError (qc_limit c) (used_in m c) m) ∧ cs_count (qc_state c') = used_in m c
     else r = Ok tt ∧ cs_count (qc_state c') = wadd_u64 (used_in m c) 1).
Proof.
  intros _. unfold consume, current_month.
  destruct (now (E:=QueryLimitError) (W, c)) as [[t|e] [W1 c1]] eqn:Hnow; [|unfold now in Hnow; by repeat case_match].
  assert (c1 = c) as -> by (unfold now in Hnow; repeat case_match; by simplify_eq).
  exists (month_text t). set (m := month_text t).
  rewrite (mbind_eq _ _ (W, c) m (W1, c)) by (by rewrite (mbind_eq _ _ _ _ _ Hnow)).
  set (c1 := if bool_decide (cs_month (qc_state c) = m) then c else qc_set_state (mkCounterState m 0) c).
  assert (Hst : cs_month (qc_state c1) = m ∧ cs_count (qc_state c1) = used_in m c ∧ qc_limit c1 = qc_limit c).
  { unfold c1, used_in. case_bool_decide; done. }
  destruct Hst as (Hm&Hu&Hl). rewrite (mbind_eq _ _ (W1, c) tt (W1, c1)) by done.
  rewrite (mbind_eq _ _ (W1, c1) c1 (W1, c1)) by done. rewrite Hu, Hl, Hm. unfold LIMIT_UNLIMITED.
  destruct (negb (qc_limit c =? 0) && (qc_limit c <=? used_in m c)); [by eexists _, _, _|].
  set (c2 := qc_set_state (mkCounterState m (wadd_u64 (used_in m c) 1)) c1).
  rewrite (mbind_eq _ _ (W1, c1) tt (W1, c2)) by done.
  destruct (persist_keeps_state (E:=QueryLimitError) W1 c2) as (W3&c3&->&Hs3&Hl3).
  eexists _, _, _. split; [done|]. rewrite Hs3, Hl3. done.
Qed.

(** A sequence of calls: for each the month it was counted in and whether it
    was granted. *)
Fixpoint consume_log (n : nat) : M AgentQueryCounter Empty_set (list (string * bool)) :=
  match n with
  | O => mret []
  | S n =>
      r ← attempt consume;
      c ← gets id;
      log ← consume_log n;
      mret ((cs_month (qc_state c), is_ok r) :: log)
  end.

Definition granted (log : list (string * bool)) : Z := Z.of_nat (length (List.filter snd log)).

Definition counter_ok (c : AgentQueryCounter) : Prop := 0 ≤ qc_limit c < 2 ^ 63 ∧ 0 ≤ cs_count (qc_state c) ∧ qc_limit c ≠ 0.

Lemma consume_step_ok W c r W' c' : counter_ok c → consume (W, c) = (r, (W', c')) →
  let m := cs_month (qc_state c') in
  qc_limit c' = qc_limit c ∧ 0 ≤ used_in m c ∧
  (if is_ok r then used_in m c < qc_limit c ∧ cs_count (qc_state c') = used_in m c + 1
   else qc_limit c ≤ used_in m c ∧ cs_count (qc_state c') = used_in m c).
Proof.
  intros (Hlim&Hcnt&Hne) Hc. destruct (consume_step W c) as (m&r'&W''&c''&Hc'&Hm&Hl&Hr); [lia|].
  rewrite Hc in Hc'. simplify_eq. set (m := cs_month (qc_state c'')) in *. cbv zeta.
  assert (Hu : 0 ≤ used_in m c) by (unfold used_in; case_bool_decide; lia). split_and!; [done..|].
  destruct (Z.eqb_spec (qc_limit c) 0); [lia|]. cbn [negb andb] in Hr. destruct (Z.leb_spec (qc_limit c) (used_in m c)).
  - destruct Hr as [-> Hcount]. done.
  - destruct Hr as [-> Hcount]. cbn. split; [lia|]. rewrite Hcount. unfold wadd_u64. apply Z.mod_small. change (2 ^ 63) with 9223372036854775808 in Hlim. change (2 ^ 64) with 18446744073709551616. lia.
Qed.

Lemma counter_ok_step W c r W' c' : counter_ok c → consume (W, c) = (r, (W', c')) → counter_ok c' ∧ qc_limit c' = qc_limit c.
Proof.
  intros Hok Hc. destruct (consume_step_ok _ _ _ _ _ Hok Hc) as (Hl&Hu&Hr). split; [|done].
  destruct Hok as (?&?&?). unfold counter_ok. rewrite Hl. destruct (is_ok r); lia.
Qed.

Lemma log_same_month n m : ∀ W c log σ, counter_ok c → consume_log n (W, c) = (Ok log, σ) →
  Forall (λ x, x.1 = m) log → granted log ≤ Z.max 0 (qc_limit c - used_in m c).
Proof.
  induction n as [|n IH]; intros W c log σ Hok Hlog Hall; cbn [consume_log] in Hlog; [minv; unfold granted; cbn; lia|].
  apply mbind_Ok_inv in Hlog as (r&[W1 c1]&Hr&Hlog). apply mbind_Ok_inv in Hlog as (c2&[W2 c2']&Hg&Hlog).
  apply mbind_Ok_inv in Hlog as (log'&σ'&Hlog'&Hlog). minv. apply Forall_cons in Hall as [Hm Hall]. cbn in Hm.
  unfold attempt in Hr. destruct (consume (W, c)) as [rc σc] eqn:Hc. simplify_eq/=. rename c2 into c2'.
  destruct (consume_step_ok _ _ _ _ _ Hok Hc) as (Hl&Hu&Hr). 
  destruct (counter_ok_step _ _ _ _ _ Hok Hc) as [Hok' _].
  specialize (IH _ _ _ _ Hok' Hlog' Hall). assert (Hused : used_in (cs_month (qc_state c2')) c2' = cs_count (qc_state c2')) by (unfold used_in; by rewrite bool_decide_true).
  rewrite Hl, Hused in IH. unfold granted in *. cbn [List.filter snd]. destruct (is_ok r); cbn [length]; lia.
Qed.

Lemma consume_log_drop n : ∀ W c log σ l1 l2, counter_ok c → consume_log n (W, c) = (Ok log, σ) → log = l1 ++ l2 →
  ∃ n' W' c', counter_ok c' ∧ qc_limit c' = qc_limit c ∧ consume_log n' (W', c') = (Ok l2, σ).
Proof.
  induction n as [|n IH]; intros W c log σ l1 l2 Hok Hlog Heq; destruct l1 as [|x l1].
  1, 3: cbn in Heq; subst; by eexists _, W, c.
  - cbn in Hlog. minv.
  - cbn [consume_log] in Hlog. minv. unfold attempt in *. destruct (consume (W, c)) as [rc [W2 c2]] eqn:Hc. simplify_eq/=.
    destruct (counter_ok_step _ _ _ _ _ Hok Hc) as [Hok' Hl].
    edestruct IH as (n'&W'&c'&?&?&?); [done..|]. exists n', W', c'. by rewrite <-Hl.
Qed.

Lemma consume_log_take n : ∀ W c log σ l1 l2, consume_log n (W, c) = (Ok log, σ) → log = l1 ++ l2 →
  ∃ n' σ', consume_log n' (W, c) = (Ok l1, σ').
Proof.
  induction n as [|n IH]; intros W c log σ l1 l2 Hlog Heq; destruct l1 as [|x l1]; [by exists 0%nat; eexists| | by exists 0%nat; eexists|].
  - cbn in Hlog. minv.
  - cbn [consume_log] in Hlog. minv. unfold attempt in *. destruct (consume (W, c)) as [rc [W2 c2]] eqn:Hc. simplify_eq/=.
    edestruct IH as (n'&σ'&Hn'); [done..|]. exists (S n'). eexists. cbn [consume_log].
    erewrite mbind_eq by (by unfold attempt; rewrite Hc). erewrite mbind_eq by done. by erewrite mbind_eq by exact Hn'.
Qed.

(** The monthly limit holds.  However many times [consume] is called, in
    whatever months, in every stretch of calls that fall in one month (read from
    the clock at the call) at most [limit] are granted; persisting the count may
    fail at any of them without a further query being let through. *)
Theorem monthly_limit_holds n W c log σ l1 seg l2 m : counter_ok c → consume_log n (W, c) = (Ok log, σ) →
  log = l1 ++ seg ++ l2 → Forall (λ x, x.1 = m) seg → granted seg ≤ qc_limit c.
Proof.
  intros Hok Hlog Heq Hm. destruct (consume_log_drop _ _ _ _ _ _ _ Hok Hlog Heq) as (n'&W'&c'&Hok'&Hl&Hlog').
  destruct (consume_log_take _ _ _ _ _ seg l2 Hlog' eq_refl) as (n''&σ'&Hseg).
  pose proof (log_same_month _ _ _ _ _ _ Hok' Hseg Hm) as Hg.
  assert (0 ≤ used_in m c') by (unfold used_in; case_bool_decide; destruct Hok' as (?&?&?); lia). destruct Hok. lia.
Qed.
End counter.

Section requests.
Context `{Blake3} `{Blake3Keyed} `{Ed25519} `{!WalExt} `{!PageExt} `{LedgerCodecs} `{LedgerExt} `{SqlExt}.
Context `{Hex} `{AuthExt} `{AuditExt} `{ReplExt} `{SE : ServerExt} `{!NetExt} `{CounterExt}.
Context {C : Type} (exchange : bytes → C → Answer * C) (peer_addr : string) (config : ServerConfig) (cfg : NetConfig).
Context (pkg_version : string).

(** A request within the session's time: no [initialize], or one less than the
    timeout after the last. *)
Definition in_session (req : JsonRpcRequest) (W : World) (s : AppState (C:=C)) : Prop :=
  rpc_method req ≠ "initialize" ∨
  ∃ t, app_last_initialize s = Some t ∧ elapsed_secs (default 0 (head (w_clock W))) t < app_timeout_secs s.

Notation handle := (handle_message exchange peer_addr config cfg pkg_version).
Notation dispatch' := (dispatch exchange peer_addr config cfg pkg_version).

Lemma other_methods_keep_counter req c : rpc_method req ≠ "initialize" → preserves (λ s, app_counter s = c) (handle req).
Proof.
  intros Hne. unfold handle_message. apply preserves_bind; [|intros; solve_preserves].
  apply preserves_attempt. unfold dispatch. rewrite bool_decide_false by done. unfold call_tool.
  solve_preserves; by apply preserves_zoom.
Qed.

Lemma handle_ok req σ a σ' : dispatch' req σ = (Ok a, σ') →
  handle req σ = (Ok (match rpc_id req with None => NoContent | Some i => Reply (RpcOk (Some i) a) end), σ').
Proof. intros Hd. unfold handle_message. erewrite mbind_eq by (unfold attempt; by rewrite Hd). by destruct (rpc_id req). Qed.

(** Only a new session counts as an agent query.  A request that is no
    [initialize], or an [initialize] less than the timeout after the last one,
    leaves the counter and its file as they are, whatever it does to the ledger
    and whether it succeeds, fails or panics; and an [initialize] in the session
    always succeeds and starts the timeout again. *)
Theorem only_new_sessions_counted req W s : in_session req W s →
  let '(r, (W', s')) := handle req (W, s) in
  app_counter s' = app_counter s ∧
  (rpc_method req = "initialize" → r = Ok (match rpc_id req with None => NoContent | Some i => Reply (RpcOk (Some i) (initialize_answer pkg_version)) end) ∧
     app_last_initialize s' = Some (default 0 (head (tail (w_clock W))))).
Proof.
  intros [Hne|(t&Ht&Hlt)].
  { pose proof (other_methods_keep_counter _ _ Hne W s eq_refl) as Hk. by destruct (handle req (W, s)) as [r [W' s']]. }
  destruct (decide (rpc_method req = "initialize")) as [Hm|Hne].
  2: { pose proof (other_methods_keep_counter _ _ Hne W s eq_refl) as Hk. by destruct (handle req (W, s)) as [r [W' s']]. }
  assert (Hd : dispatch' req (W, s) = (Ok (initialize_answer pkg_version),
    (mkWorld (tail (tail (w_clock W))) (w_rng W) (w_io W), app_set_last (default 0 (head (tail (w_clock W)))) s))).
  { unfold dispatch, initialize. rewrite Hm, bool_decide_true by done. rewrite (mbind_eq _ _ (W, s) s (W, s)) by done. rewrite Ht.
    erewrite mbind_eq by done. rewrite (proj2 (Z.leb_gt _ _)) by exact Hlt. done. }
  by rewrite (handle_ok _ _ _ _ Hd).
Qed.
End requests.


(** * The tools over the network *)

Section reads.
Context `{Blake3} `{Blake3Keyed} `{Ed25519} `{!WalExt} `{!PageExt} `{LedgerCodecs} `{LedgerExt} `{SqlExt}.
Context `{Hex} `{AuthExt} `{AuditExt} `{ReplExt} `{SE : ServerExt} `{!NetExt} `{!SqlReads}.
Context {C : Type} (exchange : bytes → C → Answer * C) (peer_addr : string) (config : ServerConfig) (cfg : NetConfig).

(** ** One frame on the server *)

(** A query of the fragment is executed as a read under any session. *)
Lemma execute_select_keeps l q proof sess : select_ok q = true →
  preserves (ledger_is l) (execute_sql exchange config (statement_text (TSelect q)) proof sess).
Proof.
  intros Hq. unfold execute_sql. apply preserves_bind; [apply preserves_now|intros start].
  rewrite parse_one_reads by done. destruct (MAX_SQL_BYTES <? _)%nat; [apply preserves_ret|].
  destruct (plan _ _ _) as [p|e] eqn:Hp; [|apply preserves_ret].
  destruct (check_plan_privilege (sn_role sess) p) as [[]|e]; [|apply preserves_ret].
  apply preserves_bind; [apply preserves_gets|intros us]. cbv zeta. rewrite filter_write.
  assert (Hw : is_write_plan p = false) by (by eapply select_read_plan). rewrite Hw. apply execute_read_keeps.
Qed.

(** What the client sends without asking for a write. *)
Definition harmless (v : JsonValue) : Prop :=
  (∃ q token, select_ok q = true ∧ v = sql_request (statement_text (TSelect q)) token) ∨ ∃ u p, v = auth_request u p.

Lemma harmless_keeps l v cn : harmless v →
  preserves (ledger_is l) (conn_step exchange peer_addr config (EvRead (Ok (Some (str_bytes (json_text v))))) cn).
Proof.
  intros Hv. cbn [conn_step]. destruct (blank _); [apply preserves_ret|].
  assert (Hreq : ∃ req, request_from_json (str_bytes (json_text v)) = Ok req ∧ rq_admin req = None ∧
    ∀ sql, rq_sql req = Some sql → ∃ q, select_ok q = true ∧ sql = statement_text (TSelect q)).
  { destruct Hv as [(q & token & Hq & ->)|(u & p & ->)]; eexists; (split; [apply sql_request_read || apply auth_request_read|]); (split; [done|]); intros sql [= <-]; eauto. }
  destruct Hreq as (req & -> & Hadm & Hsql). unfold handle_request.
  apply preserves_bind; [apply auth_gate_keeps|]. intros [cn' []]; [|apply preserves_ret].
  destruct (cn_session cn'); [|apply preserves_ret]. unfold run_frame. rewrite Hadm.
  destruct (rq_sql req) as [sql|]; [|apply preserves_ret]. destruct (Hsql sql eq_refl) as (q & Hq & ->).
  apply preserves_bind; [by apply execute_select_keeps|intros; apply preserves_ret].
Qed.

(** ** The connection *)

(** The ledger of the server at the other end is [l]. *)
Definition remote_is (l : LedgerStore) (k : Link (C:=C)) : Prop := sv_ledger (lk_server k) = l.

Section connection.
Context (l : LedgerStore).

Lemma deliver_keeps v : harmless v → preserves (remote_is l) (deliver exchange peer_addr config (str_bytes (json_text v))).
Proof.
  intros Hv W k Hk. unfold deliver. destruct (cn_open (lk_conn k)); [|done].
  pose proof (harmless_keeps l v (lk_conn k) Hv W (lk_server k) Hk) as Hs.
  by destruct (conn_step _ _ _ _ _ _) as [[cn|[]] [W' sv']].
Qed.

Lemma write_frame_keeps v ctx : harmless v → preserves (remote_is l) (write_frame exchange peer_addr config v ctx).
Proof.
  intros Hv. pose proof (deliver_keeps v Hv) as Hd. unfold write_frame. solve_preserves. by apply preserves_modify.
Qed.

Lemma read_frame_keeps closed ctx : preserves (remote_is l) (read_frame closed ctx).
Proof. unfold read_frame. solve_preserves; by apply preserves_modify. Qed.

Lemma open_keeps : preserves (remote_is l) (open_connection exchange peer_addr config cfg).
Proof.
  assert (Hv : harmless (auth_request (nc_username cfg) (nc_password cfg))) by (right; by eexists _, _).
  unfold open_connection. pose proof (write_frame_keeps _ "Failed to send auth frame" Hv).
  solve_preserves; first [apply read_frame_keeps | by apply preserves_modify].
Qed.

Lemma reopen_keeps : preserves (remote_is l) (reopen exchange peer_addr config cfg).
Proof.
  intros W k Hk. pose proof (open_keeps W k Hk) as Ho. unfold reopen.
  by destruct (open_connection _ _ _ _ (W, k)) as [[[]|e] [W' k']].
Qed.

(** A query, sent again after a reconnect if need be. *)
Lemma net_select_keeps q : select_ok q = true →
  preserves (remote_is l) (net_execute_sql exchange peer_addr config cfg (statement_text (TSelect q))).
Proof.
  intros Hq. assert (Honce : preserves (remote_is l) (execute_sql_once exchange peer_addr config (statement_text (TSelect q)))).
  { unfold execute_sql_once. solve_preserves; [apply write_frame_keeps; left; by eexists q, _|apply read_frame_keeps]. }
  pose proof reopen_keeps. unfold net_execute_sql. solve_preserves.
Qed.

Notation keeps_net sql := (preserves (remote_is l) (net_sql exchange peer_addr config cfg sql)) (only parsing).
Notation keeps_default sql := (preserves (remote_is l) (net_sql_or_default exchange peer_addr config cfg sql)) (only parsing).

Lemma net_sql_keeps sql q : sql = statement_text (TSelect q) → select_ok q = true → keeps_net sql.
Proof. intros -> Hq. by apply preserves_attempt, net_select_keeps. Qed.
Lemma net_default_keeps sql q : sql = statement_text (TSelect q) → select_ok q = true → keeps_default sql.
Proof. intros He Hq. unfold net_sql_or_default. apply preserves_bind; [by eapply net_sql_keeps|intros; apply preserves_ret]. Qed.

(** ** The tools *)

Lemma net_policy_keeps e sql q f n : sql = statement_text (TSelect q) → select_ok q = true →
  preserves (remote_is l) (net_policy_check exchange peer_addr config cfg e sql f n).
Proof.
  intros Hs Hq. unfold net_policy_check. destruct e; [|apply preserves_ret].
  apply preserves_bind; [by eapply net_default_keeps|intros; apply preserves_ret].
Qed.

Lemma net_verify_all_keeps : keeps_default VERIFY_ALL.
Proof. eapply net_default_keeps; [exact verify_all_text|done]. Qed.

Lemma net_get_balance_keeps args : preserves (remote_is l) (net_get_balance exchange peer_addr config cfg args).
Proof.
  unfold net_get_balance. apply preserves_bind; [apply preserves_liftR|intros a].
  apply preserves_bind; [eapply net_sql_keeps; [apply balance_text|done]|intros; apply preserves_ret].
Qed.

Lemma net_list_accounts_keeps args : preserves (remote_is l) (net_list_accounts exchange peer_addr config cfg args).
Proof.
  unfold net_list_accounts. cbv zeta. apply preserves_bind; [|intros; apply preserves_ret].
  eapply net_sql_keeps; [apply list_accounts_text|].
  apply limit_ok; [by vm_compute..| |by apply given_u64_range]. rewrite forallb_app. by rewrite !condition_ok.
Qed.

Lemma net_lines_keeps args : preserves (remote_is l) (net_query_ledger_lines exchange peer_addr config cfg args).
Proof.
  unfold net_query_ledger_lines. cbv zeta.
  assert (Hgo : ∀ side, side = [] ∨ side = ["Debit"] ∨ side = ["Credit"] →
    keeps_net (conditions_sql LINE_FIELDS (condition "domain" args ++ map (λ s, "dr_cr = '" +:+ s +:+ "'") side) (given json_u64 "limit" 100 args))).
  { intros side Hside. eapply net_sql_keeps; [by apply ledger_lines_text|].
    apply limit_ok; [by vm_compute..| |by apply given_u64_range]. rewrite forallb_app, condition_ok by done. by destruct_or! Hside; subst. }
  destruct (as_str (jget "dr_cr" args)) as [d|].
  - case_match eqn:Hd; [apply preserves_ret|]. apply preserves_bind; [|intros; apply preserves_ret]. apply (Hgo [d]).
    apply andb_false_iff in Hd as [Hd|Hd]; apply negb_false_iff, bool_decide_eq_true in Hd; subst; auto.
  - pose proof (Hgo [] (or_introl eq_refl)) as Hx. cbn [map] in Hx. rewrite app_nil_r in Hx.
    apply preserves_bind; [exact Hx|intros; apply preserves_ret].
Qed.

Lemma net_verify_keeps args : preserves (remote_is l) (net_verify_chain exchange peer_addr config cfg args).
Proof.
  unfold net_verify_chain. apply preserves_bind; [|intros; apply preserves_ret].
  destruct (json_u64 (jget "from_seq" args)) as [a|] eqn:Ha; [destruct (json_u64 (jget "to_seq" args)) as [b|] eqn:Hb|];
    try (eapply net_sql_keeps; [exact verify_all_text|done]).
  apply json_u64_range in Ha, Hb. eapply net_sql_keeps; [apply verify_text; lia|done].
Qed.

Lemma net_merkle_keeps args : preserves (remote_is l) (net_merkle_root exchange peer_addr config cfg args).
Proof.
  unfold net_merkle_root. eapply preserves_bind_yields; [apply need_u64_yields|apply preserves_liftR|intros a Ha].
  eapply preserves_bind_yields; [apply need_u64_yields|apply preserves_liftR|intros b Hb].
  apply preserves_bind; [eapply net_sql_keeps; [by apply merkle_text|done]|intros; apply preserves_ret].
Qed.

Lemma net_violations_keeps args : preserves (remote_is l) (net_find_policy_violations exchange peer_addr config cfg args).
Proof.
  unfold net_find_policy_violations. cbv zeta.
  apply preserves_bind; [eapply net_policy_keeps; [apply large_amounts_text|done]|intros].
  apply preserves_bind; [eapply (net_policy_keeps _ NET_PENDING_SQL (mkSelectText (cols ["sequence"; "id"; "description"; "domain"; "effective_at"])
    (Some "ledger") [AEq "status" (LText "Pending")] None (Some 50))); done|intros].
  apply preserves_bind; [eapply (net_policy_keeps _ NET_MISSING_REF_SQL (mkSelectText (cols ["sequence"; "id"; "description"; "domain"])
    (Some "ledger") [AEq "status" (LText "Posted"); AEq "external_ref" (LText "")] None (Some 50))); done|intros].
  apply preserves_bind; [eapply net_policy_keeps; [exact failed_text|done]|intros; apply preserves_ret].
Qed.

Lemma net_summarize_keeps args : preserves (remote_is l) (net_summarize_period exchange peer_addr config cfg args).
Proof.
  unfold net_summarize_period. eapply preserves_bind_yields; [apply dates_yield|apply preserves_liftR|]. intros [from to] Hd. cbv zeta.
  do 3 (apply preserves_bind; [eapply net_default_keeps; [by apply count_status_text|done]|intros]).
  apply preserves_bind; [apply net_verify_all_keeps|intros; apply preserves_ret].
Qed.

Lemma net_audit_keeps args : preserves (remote_is l) (net_audit_report exchange peer_addr config cfg args).
Proof.
  unfold net_audit_report. eapply preserves_bind_yields; [apply dates_yield|apply preserves_liftR|]. intros [from to] Hd. cbv zeta.
  apply preserves_bind; [eapply net_default_keeps; [by apply count_text|done]|intros].
  apply preserves_bind; [eapply net_default_keeps; [by apply seq_range_text|done]|intros range].
  apply preserves_bind; [apply net_verify_all_keeps|intros].
  apply preserves_bind; [eapply net_default_keeps; [by apply sample_text|done]|intros].
  assert (Hr : ∀ i r, 0 ≤ u64_at i r).
  { intros i r. unfold u64_at. destruct (r !! i) as [v|]; [|done]. cbn. destruct (as_str v) as [t|]; [|done]. exact (parse_or_0_nonneg t). }
  destruct (match first_row range with Some r => (u64_at 0 r, u64_at 1 r) | None => (0, 0) end) as [lo hi] eqn:Hlh.
  assert (Hnn : 0 ≤ lo ∧ 0 ≤ hi) by (destruct (first_row range); injection Hlh as <- <-; split; try apply Hr; done). destruct Hnn as [Hlo Hhi].
  apply preserves_bind; [|intros; apply preserves_ret]. destruct (has_range lo hi); [|apply preserves_ret].
  apply preserves_bind; [eapply net_sql_keeps; [by apply merkle_text|done]|intros; apply preserves_ret].
Qed.

Lemma net_resolve_keeps args : preserves (remote_is l) (net_resolve_account exchange peer_addr config cfg args).
Proof.
  unfold net_resolve_account. apply preserves_bind; [apply preserves_liftR|intros a]. cbv zeta.
  destruct (resolve_lookup a) as (H1'&H2'&H3').
  apply preserves_bind; [eapply net_default_keeps; [exact H1'|done]|intros].
  apply preserves_bind; [eapply net_default_keeps; [exact H2'|done]|intros].
  apply preserves_bind; [eapply net_default_keeps; [exact H3'|done]|intros].
  apply preserves_bind; [eapply net_default_keeps; [apply metadata_text|done]|intros; apply preserves_ret].
Qed.

Lemma net_propose_keeps args : preserves (remote_is l) (net_propose_correction exchange peer_addr config cfg args).
Proof.
  unfold net_propose_correction. eapply preserves_bind_yields; [apply need_u64_yields|apply preserves_liftR|intros n Hn].
  apply preserves_bind; [apply preserves_liftR|intros m]. cbv zeta.
  apply preserves_bind; [eapply net_default_keeps; [by apply entry_text|done]|intros resp].
  case_match; [|apply preserves_ret]. case_match; [apply preserves_ret|].
  apply preserves_bind; [eapply net_default_keeps; [by apply entry_lines_text|done]|intros lines].
  unfold net_first_cell. solve_preserves.
Qed.
End connection.

(** The tools that may send something else than a query built from their
    arguments: three that post or execute the caller's text, and two that put an
    identifier from the server's answer into their next statement as it is. *)
Definition NET_WRITERS : list string := ["query_ledger"; "post_entry"; "execute_correction"; "explain_balance"; "reconcile_account"].

(** C40: the reading tools in network mode change nothing on the server.  For
    every tool name outside [NET_WRITERS], whatever its arguments contain (quotes,
    comments, further statements), whatever the connection does (failed writes
    that were delivered all the same, lost answers, reconnects with a login and a
    second try) and whatever rights the server gives to the client's user, the
    server's ledger after the call is the one before: each frame sent is a login
    or one query with the arguments as its literals, which the server's handler
    parses, plans and executes as a read. *)
Theorem network_reads_change_nothing name args W (k : Link (C:=C)) :
  name ∉ NET_WRITERS →
  sv_ledger (lk_server (dispatch_tool_network exchange peer_addr config cfg name args (W, k)).2.2) = sv_ledger (lk_server k).
Proof.
  intros Hn. set (l := sv_ledger (lk_server k)).
  assert (Hk : preserves (remote_is l) (dispatch_tool_network exchange peer_addr config cfg name args)); [|exact (Hk W k eq_refl)].
  unfold dispatch_tool_network. cbv zeta.
  repeat (case_bool_decide as Hx; [first [by destruct Hn; rewrite Hx; unfold NET_WRITERS; set_solver | clear Hn Hx]|clear Hx]); [..|apply preserves_throw].
  - apply net_get_balance_keeps.
  - apply net_list_accounts_keeps.
  - apply net_lines_keeps.
  - apply net_verify_keeps.
  - apply net_merkle_keeps.
  - apply net_violations_keeps.
  - apply net_summarize_keeps.
  - apply net_audit_keeps.
  - apply net_resolve_keeps.
  - apply net_propose_keeps.
Qed.
End reads.
