(* ===== verification/AuditPackage.v ===== *)
(** * vledger: audit evidence packages

    Models [crates/vledger/src/audit_package.rs]: generating a package from the
    data directory (the commitment to the Merkle root and chain tip with its
    signature, and on request every entry with its proof), proving one entry
    against a commitment, and verifying a file of any of the three kinds
    without the database.  A package is the [serde_json] value that is written;
    [serde_json]'s text format and its representation of an entry are
    parameters.  The maps of [serde_json] keep their keys in order, so the
    objects below are written in that order. *)

From stdpp Require Import base gmap list strings option pretty.
From Stdlib Require Import ZArith Lia Strings.Byte Strings.Ascii.
From S2P Require Import Prelude Bytes Jsonl Crypto Merkle Money Entry WalRecord Wal Recovery Tx Page EntryDb Sql Store SqlGuard SqlExec SqlPlan McpText.

#[local] Open Scope string_scope.
#[local] Open Scope Z_scope.
#[local] Open Scope list_scope.

(** ** Values *)

Fixpoint keys_ascend (ks : list string) : bool :=
  match ks with
  | a :: (b :: _) as r => String.ltb a b && keys_ascend r
  | _ => true
  end.

(** The values a text gives back: integers of 64 bits, keys in order. *)
Fixpoint json_fits (v : JsonValue) : bool :=
  match v with
  | JNull | JBool _ | JStr _ => true
  | JInt z => (- 2 ^ 63 <=? z) && (z <? 2 ^ 64)
  | JFloat _ => false
  | JArr l => forallb json_fits l
  | JObj fs => keys_ascend (map fst fs) && forallb (λ f, json_fits (snd f)) fs
  end.

(** An entry as the type has it: fields in their ranges, hashes of 32 bytes. *)
Definition entry_typed (e : JournalEntry) : bool :=
  entry_wf e && (length (e_content_hash e) =? 32)%nat && (length (e_prev_hash e) =? 32)%nat && (length (e_chain_hash e) =? 32)%nat.

(** [serde_json], on values and on journal entries; the text of the error of
    [ed25519_dalek] for a public key; RFC 3339. *)
Class PackageExt := {
  value_pretty : JsonValue → string;
  value_read : string → option JsonValue;
  value_pretty_utf8 : ∀ v, utf8_valid (str_bytes (value_pretty v)) = true;
  value_read_pretty : ∀ v, json_fits v = true → value_read (value_pretty v) = Some v;
  entry_value : JournalEntry → JsonValue;
  entry_of_value : JsonValue → Result string JournalEntry;
  entry_value_fits : ∀ e, entry_typed e = true → json_fits (entry_value e) = true;
  entry_value_read : ∀ e, entry_typed e = true → entry_of_value (entry_value e) = Ok e;
  key_error_text : bytes → string;
  utc_now_text : Z → string
}.

Inductive PackError :=
  | PkOpen (e : LedgerError)
  | PkChainBroken (e : LedgerError)
  | PkRead (e : LedgerError)
  | PkPanic
  | PkIo
  | PkJson
  | PkMissingRoot
  | PkNotFound (sequence : Z)
  | PkNotIndexed (sequence : Z)
  | PkRootChanged (current committed : string)
  | PkNoProof (index : nat).

Definition FORMAT_VERSION : Z := 2.

Record GenerateOptions := mkGenerateOptions {
  go_include_entries : bool;
  go_tenant : option string;
  go_description : option string;
  go_period_start : option string;
  go_period_end : option string
}.

Record GenerateReport := mkGenerateReport {
  gr_entry_count : Z;
  gr_root_hex : string;
  gr_chain_tip_hex : string;
  gr_signed : bool;
  gr_package_type : string
}.

Record ProveReport := mkProveReport { pr_sequence : Z; pr_entry_id : string; pr_root_hex : string }.

Inductive SigStatus := SigAbsent | SigValid | SigInvalid.

Record VerifyReport := mkVerifyReport {
  vr_entry_count : Z;
  vr_root_hex : string;
  vr_chain_tip_hex : string;
  vr_package_type : string;
  vr_content_ok : bool;
  vr_chain_ok : bool;
  vr_merkle_ok : bool;
  vr_sig_status : SigStatus;
  vr_errors : list string;
  vr_generated_at : string;
  vr_vledger_version : string;
  vr_format_version : Z;
  vr_passed : bool;
  vr_tenant : string;
  vr_description : string;
  vr_period_start : string;
  vr_period_end : string;
  vr_first_sequence : Z;
  vr_last_sequence : Z;
  vr_signing_pubkey : string
}.

(** [&s[..16]], and with the length of the text as a bound. *)
Definition slice_ok (n : nat) (s : string) : bool :=
  (n <=? length (str_bytes s))%nat && negb (match str_bytes s !! n with Some b => is_cont b | None => false end).
Definition first16_text (s : string) : Result PackError string :=
  if slice_ok 16 s then Ok (String.substring 0 16 s) else Err PkPanic.
Definition at_most16 (s : string) : Result PackError string :=
  if slice_ok (16 `min` length (str_bytes s)) s then Ok (String.substring 0 16 s) else Err PkPanic.

(** [value[key].as_str().unwrap_or(d)] and the like. *)
Definition str_or (d key : string) (v : JsonValue) : string := default d (as_str (jget key v)).
Definition u64_or0 (key : string) (v : JsonValue) : Z := default 0 (json_u64 (jget key v)).

Section package.
Context `{Blake3} `{Ed25519} `{!WalExt} `{!PageExt} `{LedgerCodecs} `{LedgerExt} `{Hex} `{PackageExt}.
Context (pkg_version : string).

Definition hash_to_hex (h : Hash) : string := String.string_of_list_byte (hex_enc h).

(** [hex::decode(s).ok().and_then(|b| b.try_into().ok())] for [N] bytes. *)
Definition hex_array (n : nat) (s : string) : option bytes :=
  b ← hex_dec (str_bytes s); if (length b =? n)%nat then Some b else None.

(** ** What is signed *)

(** A text behind its length, a [u32]. *)
Definition len_text (s : string) : bytes := le_bytes 4 (Z.of_nat (length (str_bytes s))) ++ str_bytes s.

Definition sign_payload (root tip : Hash) (entry_count : Z) (tenant description period_start period_end : string) (first last : Z) : bytes :=
  root ++ tip ++ le64 entry_count ++ len_text tenant ++ len_text description ++ len_text period_start ++ len_text period_end ++
  le64 first ++ le64 last.

(** ** Generating *)

(** What the closure of [generate] collects. *)
Record Leaves := mkLeaves { lv_bytes : list bytes; lv_first : Z; lv_last : Z; lv_entries : list JournalEntry }.

Definition collect_leaf (include : bool) (e : JournalEntry) (acc : Leaves) : Result LedgerError Leaves :=
  Ok (mkLeaves (lv_bytes acc ++ [canonical_bytes e]) (if lv_first acc =? 0 then e_sequence e else lv_first acc) (e_sequence e)
       (if include then lv_entries acc ++ [e] else lv_entries acc)).

Definition step_value (s : ProofStep) : JsonValue :=
  JObj [("sibling", JStr (hash_to_hex (sibling s))); ("sibling_is_left", JBool (sibling_is_left s))].
Definition proof_object (p : MerkleProof) : JsonValue :=
  JObj [("leaf_hash", JStr (hash_to_hex (leaf_hash p))); ("leaf_index", JInt (Z.of_nat (leaf_index p)));
        ("path", JArr (map step_value (path p))); ("root", JStr (hash_to_hex (root p)))].
Definition chain_object (e : JournalEntry) : JsonValue :=
  JObj [("chain_hash", JStr (hash_to_hex (e_chain_hash e))); ("content_hash", JStr (hash_to_hex (e_content_hash e)));
        ("prev_hash", JStr (hash_to_hex (e_prev_hash e))); ("sequence", JInt (e_sequence e))].

(** [(0..entry_count).map(|i| merkle_proof(&leaf_bytes, i).expect(..))] *)
Definition all_proofs (leaf_bytes : list bytes) (entry_count : nat) : Result PackError (list MerkleProof) :=
  foldr (λ i acc, p ← ok_or (merkle_proof leaf_bytes i) PkPanic; ps ← acc; Ok (p :: ps)) (Ok []) (seq 0 entry_count).

Definition opt_text (o : option string) : string := default "" o.

Definition meta_value (opts : GenerateOptions) (generated_at : string) (entry_count first last : Z) (chain_tip_hex root_hex sig_hex pubkey_hex : string)
    : JsonValue :=
  JObj [("algorithm", JStr "BLAKE3 + Ed25519"); ("chain_tip", JStr chain_tip_hex); ("description", JStr (opt_text (go_description opts)));
        ("entry_count", JInt entry_count); ("first_sequence", JInt first); ("format_version", JInt FORMAT_VERSION);
        ("generated_at", JStr generated_at); ("last_sequence", JInt last); ("merkle_root", JStr root_hex);
        ("package_type", JStr (if go_include_entries opts then "full" else "commitment"));
        ("period_end", JStr (opt_text (go_period_end opts))); ("period_start", JStr (opt_text (go_period_start opts)));
        ("root_signature", JStr sig_hex); ("signing_pubkey", JStr pubkey_hex); ("tenant", JStr (opt_text (go_tenant opts)));
        ("vledger_version", JStr pkg_version)].

(** From the open ledger: the report and the package. *)
Definition build_package (opts : GenerateOptions) : M LedgerStore PackError (GenerateReport * JsonValue) :=
  _ ← map_err PkChainBroken verify_chain_integrity;
  entry_count ← map_err PkRead entry_count;
  r ← attempt (F:=LedgerError) (db_op (stream_all (collect_leaf (go_include_entries opts)) (mkLeaves [] 0 0 [])));
  let lv := match r with Ok r => r.1 | Err _ => mkLeaves [] 0 0 [] end in
  let root := match lv_bytes lv with [] => ZERO_HASH | _ => merkle_root (lv_bytes lv) end in
  let root_hex := hash_to_hex root in
  chain_tip ← gets ls_last_chain_hash;
  let chain_tip_hex := hash_to_hex chain_tip in
  let payload := sign_payload root chain_tip entry_count (opt_text (go_tenant opts)) (opt_text (go_description opts))
    (opt_text (go_period_start opts)) (opt_text (go_period_end opts)) (lv_first lv) (lv_last lv) in
  s ← gets id;
  let '(sig_hex, pubkey_hex) :=
    match sign_bytes (ls_tx s) payload with
    | Some (sig, pubkey) => (hash_to_hex sig, hash_to_hex pubkey)
    | None => ("", "")
    end in
  t ← now;
  let meta := meta_value opts (utc_now_text t) entry_count (lv_first lv) (lv_last lv) chain_tip_hex root_hex sig_hex pubkey_hex in
  package ← (if go_include_entries opts then
               proofs ← liftR (all_proofs (lv_bytes lv) (Z.to_nat entry_count));
               mret (JObj [("chain_proof", JArr (map chain_object (lv_entries lv))); ("entries", JArr (map entry_value (lv_entries lv)));
                           ("merkle_proofs", JArr (map proof_object proofs)); ("meta", meta)])
             else mret (JObj [("meta", meta)]));
  mret (mkGenerateReport entry_count root_hex chain_tip_hex (negb (bool_decide (sig_hex = "")))
          (if go_include_entries opts then "full" else "commitment"), package).

(** [std::fs::write]: on failure a prefix may be in the file. *)
Definition write_package (v : JsonValue) : M (option bytes) PackError unit :=
  let text := str_bytes (value_pretty v) in
  r ← attempt (io tt);
  match r with
  | Ok _ => modify (λ _, Some text)
  | Err _ => n ← rand; _ ← modify (λ f, if n mod 2 =? 0 then f else Some (take (Z.to_nat (n / 2)) text)); throw PkIo
  end.

(** An operation on a ledger opened from the data directory; [W0] are the
    answers of the environment while it is opened. *)
Definition with_ledger {A} (W0 : World) (d : DataDir) (m : M LedgerStore PackError A) : M (option bytes) PackError A := λ '(W, f),
  match open_store false GroupCommit d W0 with
  | Err e => (Err (PkOpen e), (W, f))
  | Ok s => let '(r, (W', _)) := m (W, s) in (r, (W', f))
  end.

Definition generate (W0 : World) (d : DataDir) (opts : GenerateOptions) : M (option bytes) PackError GenerateReport :=
  r ← with_ledger W0 d (build_package opts);
  _ ← write_package r.2;
  mret r.1.

(** ** Proving one entry *)

(** The leaves with the index of the entry at [sequence]. *)
Definition find_leaf (sequence : Z) (e : JournalEntry) (acc : list bytes * option nat) : Result LedgerError (list bytes * option nat) :=
  Ok (acc.1 ++ [canonical_bytes e], if e_sequence e =? sequence then Some (length acc.1) else acc.2).

Definition proof_package (committed_root commitment_file generated_at : string) (entry : JournalEntry) (proof : MerkleProof) : JsonValue :=
  JObj [("chain_proof", chain_object entry); ("entry", entry_value entry); ("merkle_proof", proof_object proof);
        ("meta", JObj [("commitment_file", JStr commitment_file); ("committed_root", JStr committed_root); ("format_version", JInt FORMAT_VERSION);
                       ("generated_at", JStr generated_at); ("package_type", JStr "entry_proof"); ("vledger_version", JStr pkg_version)])].

Definition build_proof (commitment : JsonValue) (commitment_file : string) (sequence : Z) : M LedgerStore PackError (ProveReport * JsonValue) :=
  committed_root ← liftR (ok_or (as_str (jget "merkle_root" (jget "meta" commitment))) PkMissingRoot);
  o ← map_err PkRead (get_entry_by_sequence sequence);
  entry ← liftR (ok_or o (PkNotFound sequence));
  _ ← map_err PkRead entry_count;
  r ← attempt (F:=LedgerError) (db_op (stream_all (find_leaf sequence) ([], None)));
  let leaves := match r with Ok r => r.1 | Err _ => ([], None) end in
  idx ← liftR (ok_or leaves.2 (PkNotIndexed sequence));
  let root_hex := hash_to_hex (merkle_root leaves.1) in
  _ ← (if bool_decide (root_hex = committed_root) then mret tt
       else
         a ← liftR (first16_text root_hex);
         b ← liftR (first16_text committed_root);
         throw (PkRootChanged a b));
  proof ← liftR (ok_or (merkle_proof leaves.1 idx) (PkNoProof idx));
  t ← now;
  mret (mkProveReport sequence (uuid_string (e_id entry)) root_hex,
        proof_package committed_root commitment_file (utc_now_text t) entry proof).

(** Reading a JSON file of the given contents. *)
Definition read_value {S} (file : option bytes) : M S PackError JsonValue :=
  match file with
  | None => throw PkIo
  | Some bs => _ ← io PkIo; liftR (if utf8_valid bs then ok_or (value_read (String.string_of_list_byte bs)) PkJson else Err PkIo)
  end.

Definition prove_entry (W0 : World) (d : DataDir) (commitment : option bytes) (commitment_file : string) (sequence : Z)
    : M (option bytes) PackError ProveReport :=
  v ← read_value commitment;
  _ ← liftR (ok_or (as_str (jget "merkle_root" (jget "meta" v))) PkMissingRoot);
  r ← with_ledger W0 d (build_proof v commitment_file sequence);
  _ ← write_package r.2;
  mret r.1.

(** ** Verifying *)

(** The signature over the metadata: its status, and the error if there is
    one. *)
Definition check_signature (meta : JsonValue) (root_hex : string) : SigStatus * list string :=
  let sig_hex := str_or "" "root_signature" meta in
  let pubkey_hex := str_or "" "signing_pubkey" meta in
  if negb (bool_decide (sig_hex = "")) && negb (bool_decide (pubkey_hex = "")) then
    match hex_array 32 root_hex, hex_array 32 (str_or "" "chain_tip" meta), hex_array 32 pubkey_hex, hex_array 64 sig_hex with
    | Some root, Some tip, Some pubkey, Some sig =>
        let payload := sign_payload root tip (u64_or0 "entry_count" meta) (str_or "" "tenant" meta) (str_or "" "description" meta)
          (str_or "" "period_start" meta) (str_or "" "period_end" meta) (u64_or0 "first_sequence" meta) (u64_or0 "last_sequence" meta) in
        if ed_key_valid pubkey then
          if ed_verify pubkey payload sig then (SigValid, [])
          else (SigInvalid, ["Root signature verification FAILED — commitment may have been altered"])
        else (SigInvalid, ["Invalid signing public key: Invalid key material: " +:+ key_error_text pubkey])
    | _, _, _, _ => (SigInvalid, ["Failed to decode signature/pubkey/root/chain_tip hex"])
    end
  else (SigAbsent, []).

(** The loop over the steps of a proof; a sibling that cannot be decoded is
    passed over. *)
Definition value_step (cur : Hash) (step : JsonValue) : Hash :=
  match hex_array 32 (str_or "" "sibling" step) with
  | Some s => step_hash cur (mkStep s (default false (as_bool (jget "sibling_is_left" step))))
  | None => cur
  end.
Definition value_path (leaf : Hash) (proof : JsonValue) : Hash :=
  match as_array (jget "path" proof) with Some steps => foldl value_step leaf steps | None => leaf end.

Definition seq_error (e : JournalEntry) (what : string) : string := "seq=" +:+ pretty (e_sequence e) +:+ ": " +:+ what.
Definition content_errors (e : JournalEntry) : list string :=
  if bool_decide (hash_bytes (canonical_bytes e) = e_content_hash e) then [] else [seq_error e "content_hash mismatch"].
Definition chain_errors (e : JournalEntry) : list string :=
  if bool_decide (compute_chain_hash (e_sequence e) (e_prev_hash e) (e_content_hash e) = e_chain_hash e) then []
  else [seq_error e "chain_hash mismatch"].
Definition link_errors (prev : Hash) (e : JournalEntry) : list string :=
  if bool_decide (e_prev_hash e = prev) then [] else [seq_error e "prev_hash linkage broken"].

Definition no_errors (l : list string) : bool := match l with [] => true | _ => false end.

(** What a check adds: its errors, and the three verdicts. *)
Record Checked := mkChecked { ck_errors : list string; ck_content : bool; ck_chain : bool; ck_merkle : bool }.

(** A proof package. *)
Definition check_entry_proof (package : JsonValue) (root_hex : string) : Result PackError Checked :=
  match entry_of_value (jget "entry" package) with
  | Err _ => Ok (mkChecked ["Failed to deserialize entry from proof package"] false false false)
  | Ok entry =>
      let proof := jget "merkle_proof" package in
      let root_in_proof := str_or "" "root" proof in
      let content := content_errors entry in
      let chain := chain_errors entry in
      merkle ← match hex_array 32 (str_or "" "leaf_hash" proof) with
               | None => Ok ["Invalid leaf_hash hex in Merkle proof"]
               | Some leaf =>
                   mismatch ← (if bool_decide (root_in_proof = root_hex) then Ok []
                               else
                                 a ← at_most16 root_in_proof;
                                 b ← at_most16 root_hex;
                                 Ok ["Proof root (" +:+ a +:+ ") does not match committed root (" +:+ b +:+ ")"]);
                   Ok ((if bool_decide (hash_to_hex (value_path leaf proof) = root_in_proof) then []
                        else ["Merkle proof path does not verify to committed root"]) ++ mismatch)
               end;
      Ok (mkChecked (content ++ chain ++ merkle) (no_errors content) (no_errors chain) (no_errors merkle))
  end.

Definition entry_unread (i : nat) (e : string) : string := "Entry[" +:+ pretty (Z.of_nat i) +:+ "] deserialization failed: " +:+ e.

(** The entries of a full package that can be read, and the errors of the
    others. *)
Definition read_entries (vs : list JsonValue) : list JournalEntry * list string :=
  let rs := imap (λ i v, (i, entry_of_value v)) vs in
  (omap (λ r, res_ok r.2) rs,
   omap (λ r, match r.2 with Ok _ => None | Err e => Some (entry_unread r.1 e) end) rs).

(** The loop over the entries: the errors, and how many of them concern
    contents and the chain. *)
Fixpoint check_entries (prev : Hash) (es : list JournalEntry) : list string * nat * nat :=
  match es with
  | [] => ([], 0%nat, 0%nat)
  | e :: es =>
      let content := content_errors e in
      let chain := chain_errors e ++ link_errors prev e in
      let '(errors, c, h) := check_entries (e_chain_hash e) es in
      (content ++ chain ++ errors, (length content + c)%nat, (length chain + h)%nat)
  end.

Definition check_path (i : nat) (proof : JsonValue) : list string :=
  match hex_array 32 (str_or "" "leaf_hash" proof) with
  | Some leaf =>
      if bool_decide (hash_to_hex (value_path leaf proof) = str_or "" "root" proof) then []
      else ["Merkle proof[" +:+ pretty (Z.of_nat i) +:+ "]: path does not verify to root"]
  | None => []
  end.

(** A full package, with the number of its entries. *)
Definition check_full (package : JsonValue) (root_hex : string) : option (Z * Checked) :=
  vs ← as_array (jget "entries" package);
  let '(entries, unread) := read_entries vs in
  let '(errors, c, h) := check_entries ZERO_HASH entries in
  let leaf_bytes := map canonical_bytes entries in
  let computed := match leaf_bytes with [] => ZERO_HASH | _ => merkle_root leaf_bytes end in
  let root_errors := if bool_decide (hash_to_hex computed = root_hex) then [] else ["Merkle root mismatch — entries do not match committed root"] in
  let path_errors := match as_array (jget "merkle_proofs" package) with Some ps => concat (imap check_path ps) | None => [] end in
  Some (Z.of_nat (length vs),
        mkChecked (unread ++ errors ++ root_errors ++ path_errors) (c =? 0)%nat (h =? 0)%nat (no_errors root_errors && no_errors path_errors)).

Definition verify_value (package : JsonValue) : Result PackError VerifyReport :=
  let meta := jget "meta" package in
  let package_type := str_or "commitment" "package_type" meta in
  let root_hex := default "" (match as_str (jget "merkle_root" meta) with Some r => Some r | None => as_str (jget "committed_root" meta) end) in
  let '(sig_status, sig_errors) := check_signature meta root_hex in
  let none := mkChecked [] true true true in
  checked ← (if bool_decide (package_type = "entry_proof") then c ← check_entry_proof package root_hex; Ok (1, c)
             else if bool_decide (package_type = "full") then
               Ok (default (u64_or0 "entry_count" meta, none) (check_full package root_hex))
             else Ok (u64_or0 "entry_count" meta, none));
  let '(entry_count, c) := checked in
  let errors := sig_errors ++ ck_errors c in
  Ok (mkVerifyReport entry_count root_hex (str_or "" "chain_tip" meta) package_type (ck_content c) (ck_chain c) (ck_merkle c) sig_status errors
        (str_or "?" "generated_at" meta) (str_or "?" "vledger_version" meta) (u64_or0 "format_version" meta) (no_errors errors)
        (str_or "" "tenant" meta) (str_or "" "description" meta) (str_or "" "period_start" meta) (str_or "" "period_end" meta)
        (u64_or0 "first_sequence" meta) (u64_or0 "last_sequence" meta) (str_or "" "signing_pubkey" meta)).

Definition verify {S} (file : option bytes) : M S PackError VerifyReport := v ← read_value file; liftR (verify_value v).
End package.
