(* ===== verification/AuditPackageSafety.v ===== *)
(** * vledger: what a verified audit package shows

    A package generated from an intact ledger verifies, also after it was
    written and read back.  A full package that passes holds a chain of entries
    from the genesis value with the committed root.  What passing does not show:
    an entry proof is not tied to its entry, and an entry can be repeated. *)

From stdpp Require Import base gmap list strings option pretty sorting.
From Stdlib Require Import ZArith Lia Strings.Byte Strings.Ascii.
From S2P Require Import Prelude Bytes Jsonl Crypto Merkle Money Entry WalRecord Wal Recovery Tx Page EntryDb Sql Store StoreFrame StoreBooks StoreInv StoreAudit SqlGuard SqlExec SqlPlan McpText AuditPackage.

#[local] Open Scope string_scope.
#[local] Open Scope Z_scope.
#[local] Open Scope list_scope.

Section safety.
Context `{Blake3} `{Ed25519} `{!WalExt} `{!PageExt} `{LedgerCodecs} `{LedgerExt} `{Hex} `{PackageExt}.
Context (pkg_version : string).

(** ** Hexadecimal digests *)

Lemma hex_array_hex n h : length h = n → hex_array n (hash_to_hex h) = Some h.
Proof. intros <-. unfold hex_array, hash_to_hex. rewrite str_bytes_of, hex_roundtrip. cbn. by rewrite Nat.eqb_refl. Qed.

Lemma hash_to_hex_inj a b : hash_to_hex a = hash_to_hex b → a = b.
Proof. intros Hab%(f_equal (λ s, hex_dec (str_bytes s))). unfold hash_to_hex in Hab. rewrite !str_bytes_of, !hex_roundtrip in Hab. by injection Hab. Qed.

Lemma hash_to_hex_nonempty h : length h ≠ 0%nat → hash_to_hex h ≠ "".
Proof.
  intros Hh He%(f_equal (λ s, length (str_bytes s))). unfold hash_to_hex in He. rewrite str_bytes_of, hex_enc_length in He. cbn in He. lia.
Qed.

(** ** Proofs as values *)

Lemma default_hash_ok layer i : Forall hash_ok layer → hash_ok (default ZERO_HASH (layer !! i)).
Proof. intros Hl. destruct (layer !! i) as [h|] eqn:Hx; [|apply zero_hash_ok]. rewrite Forall_lookup in Hl. by eapply Hl. Qed.

Lemma path_loop_ok fuel : ∀ layer i, Forall hash_ok layer → Forall (λ s, hash_ok (sibling s)) (path_loop fuel layer i).
Proof.
  induction fuel as [|fuel IH]; intros layer i Hl; [constructor|]. cbn [path_loop]. destruct (1 <? length layer)%nat; [|constructor].
  constructor; [|apply IH, next_layer_ok]. by apply default_hash_ok.
Qed.

Lemma merkle_proof_hashes items i p : merkle_proof items i = Some p → hash_ok (leaf_hash p) ∧ Forall (λ s, hash_ok (sibling s)) (path p).
Proof.
  assert (Hl : Forall hash_ok (map hash_leaf items)) by (apply Forall_map, Forall_forall; intros; apply blake3_length).
  unfold merkle_proof. destruct items as [|x items]; [done|]. destruct (_ <=? i)%nat; [done|]. intros [= <-]. cbn [leaf_hash path]. split.
  - exact (default_hash_ok (map hash_leaf (x :: items)) i Hl).
  - exact (path_loop_ok (length (x :: items)) (map hash_leaf (x :: items)) i Hl).
Qed.

Lemma value_steps steps cur : Forall (λ s, hash_ok (sibling s)) steps → foldl value_step cur (map step_value steps) = foldl step_hash cur steps.
Proof.
  revert cur. induction steps as [|s steps IH]; intros cur Hs; [done|]. apply Forall_cons in Hs as [Hs Hr]. cbn [map foldl].
  assert (Hstep : value_step cur (step_value s) = step_hash cur s).
  { unfold value_step. change (str_or "" "sibling" (step_value s)) with (hash_to_hex (sibling s)). rewrite (hex_array_hex 32) by exact Hs. by destruct s. }
  rewrite Hstep. by apply IH.
Qed.

(** The check of a proof as a value is the verification of the proof. *)
Lemma value_path_proof p : Forall (λ s, hash_ok (sibling s)) (path p) → MerkleProof_verify p = Ok tt →
  value_path (leaf_hash p) (proof_object p) = root p.
Proof.
  intros Hs Hv. change (value_path (leaf_hash p) (proof_object p)) with (foldl value_step (leaf_hash p) (map step_value (path p))).
  rewrite value_steps by done. unfold MerkleProof_verify in Hv. by case_bool_decide.
Qed.

Lemma all_proofs_ok items n : (n ≤ length items)%nat →
  ∃ ps, all_proofs items n = Ok ps ∧ Forall (λ p, hash_ok (leaf_hash p) ∧ value_path (leaf_hash p) (proof_object p) = root p) ps.
Proof.
  intros Hn. unfold all_proofs. assert (Hall : ∀ k m, (k + m ≤ length items)%nat → ∃ ps,
    foldr (λ i acc, p ← ok_or (merkle_proof items i) PkPanic; ps ← acc; Ok (p :: ps)) (Ok []) (seq k m) = Ok ps ∧
    Forall (λ p, hash_ok (leaf_hash p) ∧ value_path (leaf_hash p) (proof_object p) = root p) ps).
  { intros k m. revert k. induction m as [|m IH]; intros k Hk; [by exists []|]. cbn [seq foldr].
    destruct (merkle_proof_ok items k ltac:(lia)) as (p&Hp&Hroot&Hleaf&Hv). destruct (IH (S k) ltac:(lia)) as (ps&Hps&Hall).
    exists (p :: ps). rewrite Hp, Hps. split; [done|]. constructor; [|done]. destruct (merkle_proof_hashes _ _ _ Hp) as [Hh Hs].
    split; [done|]. by apply value_path_proof. }
  apply Hall. lia.
Qed.

Lemma imap_silent {A B} (g : A → JsonValue) (P : A → Prop) (xs : list A) : ∀ f : nat → JsonValue → list B,
  (∀ i x, P x → f i (g x) = []) → Forall P xs → concat (imap f (map g xs)) = [].
Proof.
  induction xs as [|x xs IH]; intros f Hf Hx; [done|]. apply Forall_cons in Hx as [Hx Hxs]. cbn [map]. rewrite imap_cons. cbn [concat].
  rewrite Hf by done. apply IH; [|done]. intros i y Hy. by apply Hf.
Qed.

Lemma check_paths_ok ps : Forall (λ p, hash_ok (leaf_hash p) ∧ value_path (leaf_hash p) (proof_object p) = root p) ps →
  concat (imap check_path (map proof_object ps)) = [].
Proof.
  apply imap_silent. intros i p [Hl Hp]. unfold check_path. change (str_or "" "leaf_hash" (proof_object p)) with (hash_to_hex (leaf_hash p)).
  rewrite (hex_array_hex 32) by exact Hl. rewrite Hp. by rewrite bool_decide_true.
Qed.

(** ** Chains of entries *)

Lemma entry_errors_none e : content_errors e = [] ∧ chain_errors e = [] ↔ verify_hashes e = true.
Proof. unfold content_errors, chain_errors, verify_hashes. repeat case_bool_decide; naive_solver. Qed.

(** The loop of [verify] finds no error exactly when the chain verifies. *)
Lemma check_entries_exact es : ∀ prev, (check_entries prev es).1.1 = [] ↔ verify_entries prev es = None.
Proof.
  induction es as [|e es IH]; intros prev; [done|]. cbn [check_entries verify_entries]. specialize (IH (e_chain_hash e)).
  destruct (check_entries (e_chain_hash e) es) as [[errors c] h]. cbn [fst] in *. pose proof (entry_errors_none e) as He. unfold link_errors.
  destruct (verify_hashes e); cbn [negb].
  - destruct He as [_ [-> ->]]; [done|]. case_bool_decide; cbn [negb app]; [done|]. by split.
  - split; [|done]. intros [Hc [[Hh _]%app_nil _]%app_nil]%app_nil. discriminate (proj1 He (conj Hc Hh)).
Qed.
Lemma check_entries_counts es : ∀ prev, verify_entries prev es = None → check_entries prev es = ([], 0%nat, 0%nat).
Proof.
  induction es as [|e es IH]; intros prev Hv; [done|]. cbn [check_entries verify_entries] in *. destruct (verify_hashes e) eqn:He; [|done].
  apply entry_errors_none in He as [-> ->]. unfold link_errors. case_bool_decide; [|done]. cbn [negb] in Hv. by rewrite (IH _ Hv).
Qed.

(** Every entry is read exactly when no error is reported. *)
Lemma read_imap (vs : list JsonValue) : ∀ h : nat → nat,
  let rs := imap (λ i v, (h i, entry_of_value v)) vs in
  omap (λ r, match r.2 with Ok _ => None | Err e => Some (entry_unread r.1 e) end) rs = [] →
  Forall2 (λ v e, entry_of_value v = Ok e) vs (omap (λ r, res_ok r.2) rs).
Proof.
  induction vs as [|v vs IH]; intros h; [constructor|]. cbv zeta. rewrite imap_cons. cbn [omap list_omap snd fst].
  specialize (IH (h ∘ S)). cbv zeta in IH. destruct (entry_of_value v) as [e|e] eqn:Hv; cbn [res_ok]; [|done].
  intros Hn. constructor; [done|]. by apply IH.
Qed.
Lemma read_imap_ok (vs : list JsonValue) (es : list JournalEntry) : Forall2 (λ v e, entry_of_value v = Ok e) vs es → ∀ h : nat → nat,
  let rs := imap (λ i v, (h i, entry_of_value v)) vs in
  omap (λ r, res_ok r.2) rs = es ∧ omap (λ r, match r.2 with Ok _ => None | Err e => Some (entry_unread r.1 e) end) rs = [].
Proof.
  induction 1 as [|v e vs es Hv _ IH]; intros h; [done|]. cbv zeta. rewrite imap_cons. cbn [omap list_omap snd fst]. rewrite Hv. cbn [res_ok].
  destruct (IH (h ∘ S)) as [IH1 IH2]. split; [f_equal; exact IH1|exact IH2].
Qed.

Lemma read_entries_ok vs es : Forall2 (λ v e, entry_of_value v = Ok e) vs es → read_entries vs = (es, []).
Proof. intros Hr. unfold read_entries. destruct (read_imap_ok _ _ Hr id) as [H1' H2']. cbv zeta in *. f_equal; [exact H1'|exact H2']. Qed.
Lemma read_entries_sound vs : (read_entries vs).2 = [] → Forall2 (λ v e, entry_of_value v = Ok e) vs (read_entries vs).1.
Proof. apply (read_imap vs id). Qed.

Lemma entries_read es : Forall (λ e, entry_typed e = true) es → Forall2 (λ v e, entry_of_value v = Ok e) (map entry_value es) es.
Proof. induction 1 as [|e es He _ IH]; constructor; [by apply entry_value_read|done]. Qed.

Lemma reads_unique (vs : list JsonValue) (es es' : list JournalEntry) :
  Forall2 (λ v e, entry_of_value v = Ok e) vs es → Forall2 (λ v e, entry_of_value v = Ok e) vs es' → es = es'.
Proof.
  intros Hr. revert es'. induction Hr as [|v e vs es He _ IH]; intros es' Hr'; inversion Hr' as [|? e' ? ? He' Hr'']; subst; [done|].
  f_equal; [congruence|by apply IH].
Qed.

(** ** Full packages *)

(** The root over a list of entries. *)
Definition entries_root (es : list JournalEntry) : Hash := merkle_root (map canonical_bytes es).

Lemma computed_root (ls : list bytes) : (match ls with [] => ZERO_HASH | _ => merkle_root ls end) = merkle_root ls.
Proof. by destruct ls. Qed.

(** A full package whose entries can be read passes exactly when the entries
    are a chain from the genesis value with the committed root and the paths
    verify. *)
Lemma check_full_ok package vs es root_hex : as_array (jget "entries" package) = Some vs →
  Forall2 (λ v e, entry_of_value v = Ok e) vs es → verify_entries ZERO_HASH es = None → hash_to_hex (entries_root es) = root_hex →
  (∀ ps, as_array (jget "merkle_proofs" package) = Some ps → concat (imap check_path ps) = []) →
  check_full package root_hex = Some (Z.of_nat (length es), mkChecked [] true true true).
Proof.
  intros Hvs Hread Hchain Hroot Hpaths. unfold check_full. rewrite Hvs. cbn [mbind option_bind].
  rewrite (read_entries_ok _ _ Hread), (check_entries_counts _ _ Hchain), computed_root. cbv zeta beta iota. fold (entries_root es).
  rewrite bool_decide_true by done. rewrite (Forall2_length _ _ _ Hread).
  destruct (as_array (jget "merkle_proofs" package)) as [ps|]; [|done]. by rewrite (Hpaths ps eq_refl).
Qed.

Lemma check_full_sound package n c root_hex : check_full package root_hex = Some (n, c) → ck_errors c = [] →
  ∃ vs es, as_array (jget "entries" package) = Some vs ∧ Forall2 (λ v e, entry_of_value v = Ok e) vs es ∧
    n = Z.of_nat (length es) ∧ verify_entries ZERO_HASH es = None ∧ hash_to_hex (entries_root es) = root_hex.
Proof.
  unfold check_full. destruct (as_array (jget "entries" package)) as [vs|]; [|done]. cbn [mbind option_bind].
  pose proof (read_entries_sound vs) as Hread. destruct (read_entries vs) as [es unread]. pose proof (check_entries_exact es ZERO_HASH) as Hce.
  destruct (check_entries ZERO_HASH es) as [[errors k] h]. rewrite computed_root. intros [= <- <-]. cbn [ck_errors fst snd] in *.
  intros [Hu [He [Hr _]%app_nil]%app_nil]%app_nil. exists vs, es. specialize (Hread Hu).
  split_and!; [done|done|by rewrite (Forall2_length _ _ _ Hread)|by apply Hce|]. unfold entries_root. by case_bool_decide.
Qed.

(** ** What a passing full package shows *)

(** The payload rebuilt from the metadata of a package. *)
Definition meta_payload (root tip : Hash) (meta : JsonValue) : bytes :=
  sign_payload root tip (u64_or0 "entry_count" meta) (str_or "" "tenant" meta) (str_or "" "description" meta)
    (str_or "" "period_start" meta) (str_or "" "period_end" meta) (u64_or0 "first_sequence" meta) (u64_or0 "last_sequence" meta).

Lemma check_signature_valid meta root_hex errors : check_signature meta root_hex = (SigValid, errors) →
  ∃ root tip pubkey sig, hex_array 32 root_hex = Some root ∧ hex_array 32 (str_or "" "chain_tip" meta) = Some tip ∧
    hex_array 32 (str_or "" "signing_pubkey" meta) = Some pubkey ∧ ed_verify pubkey (meta_payload root tip meta) sig = true.
Proof.
  unfold check_signature. destruct (negb _ && negb _); [|done].
  destruct (hex_array 32 root_hex) as [root|]; [|done]. destruct (hex_array 32 (str_or "" "chain_tip" meta)) as [tip|]; [|done].
  destruct (hex_array 32 (str_or "" "signing_pubkey" meta)) as [pubkey|]; [|done]. destruct (hex_array 64 _) as [sig|]; [|done].
  destruct (ed_key_valid pubkey); [|done]. destruct (ed_verify _ _ _) eqn:Hv; [|done]. intros _. by exists root, tip, pubkey, sig.
Qed.

(** The root a package names. *)
Definition package_root (package : JsonValue) : string :=
  let meta := jget "meta" package in
  default "" (match as_str (jget "merkle_root" meta) with Some r => Some r | None => as_str (jget "committed_root" meta) end).

Lemma verify_value_full_inv package vs rep :
  verify_value package = Ok rep → vr_passed rep = true → vr_package_type rep = "full" → as_array (jget "entries" package) = Some vs →
  str_or "commitment" "package_type" (jget "meta" package) = "full" ∧
  check_signature (jget "meta" package) (package_root package) = (vr_sig_status rep, []) ∧ vr_root_hex rep = package_root package ∧
  vr_tenant rep = str_or "" "tenant" (jget "meta" package) ∧ vr_chain_tip_hex rep = str_or "" "chain_tip" (jget "meta" package) ∧
  vr_signing_pubkey rep = str_or "" "signing_pubkey" (jget "meta" package) ∧
  ∃ es, Forall2 (λ v e, entry_of_value v = Ok e) vs es ∧ vr_entry_count rep = Z.of_nat (length es) ∧
    verify_entries ZERO_HASH es = None ∧ hash_to_hex (entries_root es) = package_root package.
Proof.
  unfold verify_value. fold (package_root package). cbv zeta. fold (package_root package).
  destruct (check_signature (jget "meta" package) (package_root package)) as [sig_status sig_errors] eqn:Hsig.
  intros Hv Hpass Htype Hvs. case_bool_decide as Hep.
  { destruct (check_entry_proof package _) as [c|]; [|done]. cbn in Hv. injection Hv as <-. cbn in Htype. congruence. }
  case_bool_decide as Hfull; cbn [mbind Result_bind] in Hv.
  2: { injection Hv as <-. cbn in Htype. congruence. }
  destruct (check_full package (package_root package)) as [[n c]|] eqn:Hc; cbn [default] in Hv.
  2: { unfold check_full in Hc. rewrite Hvs in Hc. cbn [mbind option_bind] in Hc. destruct (read_entries vs) as [? ?], (check_entries _ _) as [[? ?] ?]. done. }
  injection Hv as <-. cbn [vr_passed vr_entry_count vr_root_hex vr_sig_status vr_chain_tip_hex vr_signing_pubkey vr_tenant] in *.
  destruct (sig_errors ++ ck_errors c) eqn:He; [|done]. apply app_nil in He as [-> He].
  destruct (check_full_sound _ _ _ _ Hc He) as (vs'&es&Hvs'&Hread&Hn&Hchain&Hroot). rewrite Hvs in Hvs'. injection Hvs' as <-.
  split_and!; [done..|]. by exists es.
Qed.

(** The signature of a package: the key and the signature the metadata carries,
    over the root the package names, its chain tip, entry count, tenant,
    description, period and sequence range. *)
Definition package_signed (meta : JsonValue) (root_hex : string) : Prop :=
  ∃ root tip pubkey sig, hex_array 32 root_hex = Some root ∧ hex_array 32 (str_or "" "chain_tip" meta) = Some tip ∧
    hex_array 32 (str_or "" "signing_pubkey" meta) = Some pubkey ∧ hex_array 64 (str_or "" "root_signature" meta) = Some sig ∧
    ed_key_valid pubkey = true ∧ ed_verify pubkey (meta_payload root tip meta) sig = true.
(** One of the two is missing: the signature is not looked at. *)
Definition package_unsigned (meta : JsonValue) : Prop := str_or "" "root_signature" meta = "" ∨ str_or "" "signing_pubkey" meta = "".

#[local] Ltac bad := split; split; intros Hx; exfalso;
  first [discriminate Hx | destruct Hx as [Hx|(?&?&?&?&?&?&?&?&?&?)]; [tauto|congruence] | destruct Hx as [_ (?&?&?&?&?&?&?&?&?&?)]; congruence].

Lemma check_signature_exact meta root_hex :
  ((check_signature meta root_hex).2 = [] ↔ package_unsigned meta ∨ package_signed meta root_hex) ∧
  ((check_signature meta root_hex).1 = SigValid ↔ ¬ package_unsigned meta ∧ package_signed meta root_hex).
Proof.
  unfold check_signature, package_unsigned, package_signed. fold (meta_payload).
  destruct (bool_decide_reflect (str_or "" "root_signature" meta = "")) as [Hs|Hs]; cbn [negb andb]; [split; split; try done; try (by left; left); by intros [[] _]; left|].
  destruct (bool_decide_reflect (str_or "" "signing_pubkey" meta = "")) as [Hp|Hp]; cbn [negb andb]; [split; split; try done; try (by left; right); by intros [[] _]; right|].
  assert (Hn : ¬ (str_or "" "root_signature" meta = "" ∨ str_or "" "signing_pubkey" meta = "")) by tauto.
  destruct (hex_array 32 root_hex) as [root|]; [|bad].
  destruct (hex_array 32 (str_or "" "chain_tip" meta)) as [tip|]; [|bad].
  destruct (hex_array 32 (str_or "" "signing_pubkey" meta)) as [pubkey|]; [|bad].
  destruct (hex_array 64 (str_or "" "root_signature" meta)) as [sig|]; [|bad].
  fold (meta_payload root tip meta). destruct (ed_key_valid pubkey) eqn:Hk; [|bad].
  destruct (ed_verify pubkey (meta_payload root tip meta) sig) eqn:Hv; [|bad].
  split; split; try done; intros _; [right|split; [done|]]; by exists root, tip, pubkey, sig.
Qed.

(** A path leads from its leaf to its own root; a leaf that is no hash is passed
    over. *)
Definition path_ok (proof : JsonValue) : Prop :=
  ∀ leaf, hex_array 32 (str_or "" "leaf_hash" proof) = Some leaf → hash_to_hex (value_path leaf proof) = str_or "" "root" proof.

Lemma check_paths_exact ps : ∀ h : nat → nat, concat (imap (λ i p, check_path (h i) p) ps) = [] ↔ Forall path_ok ps.
Proof.
  induction ps as [|p ps IH]; intros h; [done|]. rewrite imap_cons, Forall_cons. cbn [concat].
  specialize (IH (h ∘ S)). rewrite <- IH. unfold path_ok, check_path.
  assert (Ha : ∀ l1 l2 : list string, l1 ++ l2 = [] ↔ l1 = [] ∧ l2 = []) by (intros l1 l2; split; [apply app_nil|by intros [-> ->]]). rewrite Ha. clear Ha.
  apply and_iff_compat_r. destruct (hex_array 32 _) as [leaf|]; [|naive_solver]. case_bool_decide; naive_solver.
Qed.

(** The journal a full package holds. *)
Definition journal_ok (package : JsonValue) (vs : list JsonValue) : Prop :=
  (∃ es, Forall2 (λ v e, entry_of_value v = Ok e) vs es ∧ verify_entries ZERO_HASH es = None ∧
     hash_to_hex (entries_root es) = package_root package) ∧
  ∀ ps, as_array (jget "merkle_proofs" package) = Some ps → Forall path_ok ps.

Lemma check_full_exact package vs : as_array (jget "entries" package) = Some vs →
  ∃ c, check_full package (package_root package) = Some (Z.of_nat (length vs), c) ∧ (ck_errors c = [] ↔ journal_ok package vs).
Proof.
  intros Hvs. destruct (check_full package (package_root package)) as [[n c]|] eqn:Hc.
  2: { unfold check_full in Hc. rewrite Hvs in Hc. cbn [mbind option_bind] in Hc. destruct (read_entries vs) as [? ?], (check_entries _ _) as [[? ?] ?]. done. }
  pose proof Hc as Hc'. unfold check_full in Hc. rewrite Hvs in Hc. cbn [mbind option_bind] in Hc.
  destruct (read_entries vs) as [es0 unread], (check_entries _ _) as [[errors k] h]. injection Hc as <- Hc. exists c. split; [done|]. split.
  - intros He. destruct (check_full_sound _ _ _ _ Hc' He) as (vs'&es&Hvs'&Hread&_&Hchain&Hroot). rewrite Hvs in Hvs'. injection Hvs' as <-.
    split; [by exists es|]. intros ps Hps. rewrite <- Hc in He. cbn [ck_errors] in He. rewrite Hps in He. apply app_nil in He as [_ [_ [_ He]%app_nil]%app_nil].
    by apply (check_paths_exact ps id).
  - intros [(es&Hread&Hchain&Hroot) Hpaths]. rewrite (check_full_ok package vs es) in Hc'; [|done..|].
    + by injection Hc' as _ <-.
    + intros ps Hps. apply (check_paths_exact ps id). by apply Hpaths.
Qed.

(** C27: exactly which full packages pass.  [verify] returns a report on every
    package whose metadata says [full].  It passes exactly when the signature is
    missing (an empty signature or an empty key) or is the key's signature over
    the root, chain tip, entry count, tenant, description, period and sequence
    range of the metadata, and, when the package has an [entries] array at all,
    every element is read as an entry, the entries form a hash chain from the
    genesis value with every content hash right, the root is the Merkle root
    over them, and every attached path leads from its leaf to its own root.  The
    signature is reported valid exactly when it was there and verified; the
    report shows the root, tip, key and tenant of the package, and the count is
    that of the array, or the declared one when there is no array. *)
Theorem full_package_exact package : str_or "commitment" "package_type" (jget "meta" package) = "full" →
  ∃ rep, verify_value package = Ok rep ∧
    (vr_passed rep = true ↔
      (package_unsigned (jget "meta" package) ∨ package_signed (jget "meta" package) (package_root package)) ∧
      ∀ vs, as_array (jget "entries" package) = Some vs → journal_ok package vs) ∧
    (vr_sig_status rep = SigValid ↔ ¬ package_unsigned (jget "meta" package) ∧ package_signed (jget "meta" package) (package_root package)) ∧
    vr_entry_count rep = match as_array (jget "entries" package) with
                         | Some vs => Z.of_nat (length vs) | None => u64_or0 "entry_count" (jget "meta" package) end ∧
    vr_root_hex rep = package_root package ∧ vr_chain_tip_hex rep = str_or "" "chain_tip" (jget "meta" package) ∧
    vr_signing_pubkey rep = str_or "" "signing_pubkey" (jget "meta" package) ∧ vr_tenant rep = str_or "" "tenant" (jget "meta" package).
Proof.
  intros Ht. destruct (check_signature_exact (jget "meta" package) (package_root package)) as [Herr Hval].
  unfold verify_value. fold (package_root package). cbv zeta. fold (package_root package).
  destruct (check_signature (jget "meta" package) (package_root package)) as [st errs]. cbn [fst snd] in Herr, Hval.
  rewrite Ht, bool_decide_false, bool_decide_true by done. cbn [mbind Result_bind].
  assert (Happ : ∀ l1 l2 : list string, no_errors (l1 ++ l2) = true ↔ l1 = [] ∧ l2 = []) by (intros [|] [|]; cbn; naive_solver).
  destruct (as_array (jget "entries" package)) as [vs|] eqn:Hvs.
  - destruct (check_full_exact package vs Hvs) as (c & -> & Hj). cbn [default]. eexists. split; [done|]. cbn [vr_passed vr_sig_status vr_entry_count vr_root_hex vr_chain_tip_hex vr_signing_pubkey vr_tenant].
    split_and!; try done. rewrite Happ, Herr, Hj. split; [intros [? ?]; split; [done|]; by intros ? [= <-]|intros [? Hx]; split; auto].
  - assert (Hc : check_full package (package_root package) = None) by (unfold check_full; by rewrite Hvs). rewrite Hc. cbn [default].
    eexists. split; [done|]. cbn [vr_passed vr_sig_status vr_entry_count vr_root_hex vr_chain_tip_hex vr_signing_pubkey vr_tenant].
    split_and!; try done. rewrite Happ, Herr. cbn [ck_errors]. split; [intros [? _]; split; [done|]; by intros ?|by intros [? _]].
Qed.

(** ** What it does not show: repeated entries *)

Lemma next_layer_repeat l h : Nat.even (length l) = true → next_layer (l ++ [h; h]) = next_layer (l ++ [h]).
Proof.
  induction l as [|x|x y l IH] using pair_ind; intros He; [done|done|]. cbn [app next_layer]. by rewrite IH.
Qed.

(** A Merkle root does not tell a last item at an even position from the same
    item twice. *)
Lemma root_repeat (l : list bytes) x : Nat.even (length l) = true → l ≠ [] → merkle_root (l ++ [x; x]) = merkle_root (l ++ [x]).
Proof.
  intros He Hne. assert (Hl : (2 ≤ length l)%nat) by (destruct l as [|? [|]]; [done|done|cbn; lia]).
  unfold merkle_root. destruct (l ++ [x; x]) as [|a r] eqn:E1; [by destruct l|]. rewrite <- E1. clear a r E1.
  destruct (l ++ [x]) as [|a r] eqn:E2; [by destruct l|]. rewrite <- E2. clear a r E2. rewrite !map_app. cbn [map].
  set (m := map hash_leaf l). assert (Hm : length m = length l) by apply length_map.
  rewrite !length_app. cbn [length]. replace (length l + 2)%nat with (S (S (length l))) by lia. replace (length l + 1)%nat with (S (length l)) by lia.
  cbn [root_loop]. rewrite !length_app, Hm. cbn [length]. destruct (Nat.ltb_spec 1 (length l + 2)); [|lia]. destruct (Nat.ltb_spec 1 (length l + 1)); [|lia].
  rewrite next_layer_repeat by (by rewrite Hm). do 2 f_equal.
  pose proof (next_layer_length (m ++ [hash_leaf x])) as Hn. rewrite length_app, Hm in Hn. cbn [length] in Hn.
  assert (Hlen : (length (next_layer (m ++ [hash_leaf x])) ≤ length l)%nat).
  { rewrite Hn. pose proof (Nat.div_le_upper_bound (length l + 1 + 1) 2 (length l)). lia. }
  exact (root_loop_fuel (S (length l)) (length l) (next_layer (m ++ [hash_leaf x])) ltac:(lia) Hlen).
Qed.

(** The last entry once more, linked to itself. *)
Definition relink (e : JournalEntry) : JournalEntry :=
  set_hashes (e_content_hash e) (e_chain_hash e) (compute_chain_hash (e_sequence e) (e_chain_hash e) (e_content_hash e)) e.

Lemma relink_typed e : entry_typed e = true → entry_typed (relink e) = true.
Proof.
  unfold entry_typed. intros [[[Hw Hc]%andb_true_iff Hp]%andb_true_iff Hh]%andb_true_iff. rewrite !andb_true_iff. split_and!; [done..|].
  apply Nat.eqb_eq, blake3_length.
Qed.

Lemma verify_value_full package vs es status :
  str_or "commitment" "package_type" (jget "meta" package) = "full" →
  check_signature (jget "meta" package) (package_root package) = (status, []) →
  as_array (jget "entries" package) = Some vs → Forall2 (λ v e, entry_of_value v = Ok e) vs es →
  verify_entries ZERO_HASH es = None → hash_to_hex (entries_root es) = package_root package →
  (∀ ps, as_array (jget "merkle_proofs" package) = Some ps → concat (imap check_path ps) = []) →
  ∃ rep, verify_value package = Ok rep ∧ vr_passed rep = true ∧ vr_errors rep = [] ∧ vr_sig_status rep = status ∧
    vr_entry_count rep = Z.of_nat (length es) ∧ vr_root_hex rep = package_root package ∧
    vr_content_ok rep = true ∧ vr_chain_ok rep = true ∧ vr_merkle_ok rep = true ∧ vr_tenant rep = str_or "" "tenant" (jget "meta" package).
Proof.
  intros Htype Hsig Hvs Hread Hchain Hroot Hpaths. unfold verify_value. cbv zeta. fold (package_root package). rewrite Htype, Hsig.
  rewrite bool_decide_false, bool_decide_true by done. rewrite (check_full_ok _ _ _ _ Hvs Hread Hchain Hroot Hpaths).
  eexists. by split_and!.
Qed.

(** A full package with its last entry twice passes like the original.
    Take a package that passes, read as an odd number of at least three
    entries: the package with the same metadata (the signature over the root and
    the number of entries included) and the last entry repeated, linked to
    itself, passes all checks with the same status of the signature, and the
    report counts one entry more.  The Merkle tree repeats an odd node, the
    hash of an entry does not cover its predecessor, and neither sequence
    numbers nor the number of entries is compared. *)
Theorem repeated_entry_accepted package vs rep l e :
  verify_value package = Ok rep → vr_passed rep = true → vr_package_type rep = "full" → as_array (jget "entries" package) = Some vs →
  Forall2 (λ v e, entry_of_value v = Ok e) vs (l ++ [e]) → Forall (λ e, entry_typed e = true) (l ++ [e]) →
  Nat.even (length l) = true → l ≠ [] →
  ∃ rep', verify_value (JObj [("entries", JArr (map entry_value (l ++ [e; relink e]))); ("meta", jget "meta" package)]) = Ok rep' ∧
    vr_passed rep' = true ∧ vr_content_ok rep' = true ∧ vr_chain_ok rep' = true ∧ vr_merkle_ok rep' = true ∧
    vr_sig_status rep' = vr_sig_status rep ∧ vr_root_hex rep' = vr_root_hex rep ∧ vr_tenant rep' = vr_tenant rep ∧
    vr_entry_count rep' = vr_entry_count rep + 1.
Proof.
  intros Hv Hpass Htype Hvs Hread Hty Heven Hne.
  destruct (verify_value_full_inv _ _ _ Hv Hpass Htype Hvs) as (Hpt&Hsig&Hrh&Hten&_&_&es&Hread'&Hn&Hchain&Hroot).
  assert (es = l ++ [e]) as -> by (by eapply reads_unique).
  set (package' := JObj _).
  assert (Hroot' : entries_root (l ++ [e; relink e]) = entries_root (l ++ [e])).
  { unfold entries_root. rewrite !map_app. cbn [map]. change (canonical_bytes (relink e)) with (canonical_bytes e).
    apply root_repeat; [by rewrite length_map|by destruct l]. }
  destruct (verify_value_full package' (map entry_value (l ++ [e; relink e])) (l ++ [e; relink e]) (vr_sig_status rep))
    as (rep'&Hv'&Hp'&_&Hs'&Hn'&Hr'&Hc1&Hc2&Hc3&Ht'); try done.
  - apply entries_read. rewrite Forall_app in Hty |- *. destruct Hty as [Hl He]. split; [done|]. apply Forall_cons in He as [He _].
    repeat constructor; [done|by apply relink_typed].
  - change (l ++ [e; relink e]) with (l ++ [e] ++ [relink e]). rewrite app_assoc, verify_entries_app, Hchain, tip_snoc. cbn [verify_entries].
    rewrite verify_entries_app in Hchain. destruct (verify_entries ZERO_HASH l); [done|]. cbn [verify_entries] in Hchain.
    destruct (verify_hashes e) eqn:He; [|done]. assert (Hre : verify_hashes (relink e) = true).
    { apply verify_hashes_spec in He as [Hc _]. apply verify_hashes_spec. done. }
    rewrite Hre. cbn [negb]. by rewrite bool_decide_true.
  - rewrite Hroot'. exact Hroot.
  - exists rep'. split_and!; try done; [by rewrite Hr', Hrh|by rewrite Ht', Hten|]. rewrite Hn', Hn, !length_app. cbn [length]. lia.
Qed.

(** ** What it does not show: the entry of a proof *)

(** The metadata of a package, presented as those of an entry proof. *)
Definition set_type (t : string) (meta : JsonValue) : JsonValue :=
  match meta with
  | JObj fs => JObj (map (λ f, if bool_decide (f.1 = "package_type") then (f.1, JStr t) else f) fs)
  | v => v
  end.

Lemma set_type_other t meta key : key ≠ "package_type" → jget key (set_type t meta) = jget key meta.
Proof.
  intros Hk. destruct meta as [| | | | | |fs]; try done. cbn [set_type jget]. f_equal. induction fs as [|[k v] fs IH]; [done|]. cbn [map field_lookup fst].
  destruct (decide (k = "package_type")) as [->|Hne].
  - rewrite bool_decide_true by done. rewrite !bool_decide_false by congruence. exact IH.
  - rewrite (bool_decide_false (k = "package_type")) by done. cbn [field_lookup]. by rewrite IH.
Qed.
Lemma set_type_type t meta old : as_str (jget "package_type" meta) = Some old → jget "package_type" (set_type t meta) = JStr t.
Proof.
  destruct meta as [| | | | | |fs]; try done. cbn [set_type jget]. intros Hold. induction fs as [|[k v] fs IH]; [done|]. cbn [map field_lookup fst] in *.
  destruct (decide (k = "package_type")) as [->|Hne].
  - rewrite bool_decide_true by done. cbn [field_lookup]. by rewrite bool_decide_true.
  - rewrite (bool_decide_false (k = "package_type")) in * by done. cbn [field_lookup]. rewrite bool_decide_false by done. by apply IH.
Qed.

Lemma set_type_signature t meta root_hex : check_signature (set_type t meta) root_hex = check_signature meta root_hex.
Proof. unfold check_signature, str_or, u64_or0. by rewrite !set_type_other by done. Qed.

(** The root as its own leaf, with no steps. *)
Definition empty_proof (root_hex : string) : JsonValue :=
  JObj [("leaf_hash", JStr root_hex); ("path", JArr []); ("root", JStr root_hex)].
Definition forged_proof (meta : JsonValue) (root_hex : string) (e : JournalEntry) : JsonValue :=
  JObj [("entry", entry_value e); ("merkle_proof", empty_proof root_hex); ("meta", set_type "entry_proof" meta)].


(** ** Packages generated from a ledger *)

Lemma chain_hashes es : ∀ prev, hash_ok prev → verify_entries prev es = None →
  Forall (λ e, hash_ok (e_content_hash e) ∧ hash_ok (e_prev_hash e) ∧ hash_ok (e_chain_hash e)) es ∧ hash_ok (tip prev es).
Proof.
  induction es as [|e es IH]; intros prev Hp Hv; [done|]. cbn [verify_entries] in Hv. destruct (verify_hashes e) eqn:He; [|done].
  cbn [negb] in Hv. case_bool_decide as Hprev; [|done]. cbn [negb] in Hv. apply verify_hashes_spec in He as [Hc Hh].
  assert (Hok : hash_ok (e_chain_hash e)) by (rewrite Hh; apply blake3_length). destruct (IH _ Hok Hv) as [Hes Ht].
  split; [|exact Ht]. constructor; [|done]. rewrite Hprev. split_and!; [rewrite Hc; apply blake3_length|done|done].
Qed.

Lemma chain_typed es : verify_entries ZERO_HASH es = None → Forall (λ e, entry_wf e = true) es → Forall (λ e, entry_typed e = true) es.
Proof.
  intros [Hh _]%(chain_hashes _ _ zero_hash_ok) Hw. apply Forall_forall. rewrite Forall_forall in Hh, Hw. intros e He.
  destruct (Hh e He) as (H1'&H2'&H3'). unfold entry_typed. rewrite (Hw e He), H1', H2', H3'. done.
Qed.

Lemma sorted_bound (l : list Z) : ∀ a b, a < b → StronglySorted Z.lt l → Forall (λ z, a < z < b) l → Z.of_nat (length l) < b - a.
Proof.
  induction l as [|x l IH]; intros a b Hab Hs Hl; [cbn; lia|]. apply StronglySorted_inv in Hs as [Hs Hx]. apply Forall_cons in Hl as [Hxa Hl].
  assert (Hr : Forall (λ z, x < z < b) l) by (rewrite Forall_forall in Hx, Hl |- *; intros z Hz; specialize (Hx z Hz); specialize (Hl z Hz); cbn in *; lia).
  specialize (IH x b ltac:(lia) Hs Hr). cbn [length]. lia.
Qed.

(** An index holds fewer than [2^63] entries. *)
Lemma db_repr_bound t es : db_repr t es → Z.of_nat (length es) < 2 ^ 63 ∧ size (t_entries t) = length es.
Proof.
  intros Hr. pose proof (db_repr_seqs _ _ Hr) as Hs. destruct Hr as (Hk&_&Hok). split.
  - rewrite <- (length_map e_sequence). pose proof (sorted_bound (map e_sequence es) 0 (2 ^ 63)) as Hb. rewrite Z.sub_0_r in Hb. apply Hb; [lia|done|].
    apply Forall_map. exact Hok.
  - rewrite <- (length_map e_sequence), <- Hk. unfold sorted_keys. rewrite merge_sort_Permutation. symmetry. apply size_dom.
Qed.

Definition es_first (es : list JournalEntry) : Z := default 0 (e_sequence <$> head es).
Definition es_last (es : list JournalEntry) : Z := default 0 (e_sequence <$> last es).

Lemma last_default (e : JournalEntry) (es : list JournalEntry) l : default (e_sequence e) (e_sequence <$> last es) = default l (e_sequence <$> last (e :: es)).
Proof. rewrite last_cons. by destruct (last es). Qed.

Lemma collect_from include es : ∀ bs f l ents, f ≠ 0 →
  stream_entries (collect_leaf include) es (mkLeaves bs f l ents) =
  (mkLeaves (bs ++ map canonical_bytes es) f (default l (e_sequence <$> last es)) (if include then ents ++ es else ents), Ok tt).
Proof.
  induction es as [|e es IH]; intros bs f l ents Hf; cbn [stream_entries collect_leaf map lv_bytes lv_first lv_entries].
  - rewrite !app_nil_r. by destruct include.
  - destruct (Z.eqb_spec f 0); [done|]. rewrite IH by done. rewrite <- !app_assoc. cbn [app]. do 2 f_equal.
    + apply last_default.
    + destruct include; [by rewrite <- app_assoc|done].
Qed.

Lemma collect_all include es : Forall seq_ok es → stream_entries (collect_leaf include) es (mkLeaves [] 0 0 []) =
  (mkLeaves (map canonical_bytes es) (es_first es) (es_last es) (if include then es else []), Ok tt).
Proof.
  intros Hs. destruct es as [|e es]; [by destruct include|]. apply Forall_cons in Hs as [[Hp _] _]. cbn [stream_entries collect_leaf lv_first lv_bytes lv_entries app].
  rewrite Z.eqb_refl, collect_from by lia. unfold es_first, es_last. cbn [head fmap option_fmap option_map default app map].
  do 2 f_equal; [|by destruct include]. apply last_default.
Qed.

(** The commitment to a store: its metadata, and the package. *)
Definition store_meta (opts : GenerateOptions) (t : Z) (s : LedgerStore) (es : list JournalEntry) : JsonValue :=
  let payload := sign_payload (entries_root es) (ls_last_chain_hash s) (Z.of_nat (length es)) (opt_text (go_tenant opts)) (opt_text (go_description opts))
    (opt_text (go_period_start opts)) (opt_text (go_period_end opts)) (es_first es) (es_last es) in
  let signed := match sign_bytes (ls_tx s) payload with Some (sig, pubkey) => (hash_to_hex sig, hash_to_hex pubkey) | None => ("", "") end in
  meta_value pkg_version opts (utc_now_text t) (Z.of_nat (length es)) (es_first es) (es_last es) (hash_to_hex (ls_last_chain_hash s))
    (hash_to_hex (entries_root es)) signed.1 signed.2.
Definition store_package (opts : GenerateOptions) (t : Z) (s : LedgerStore) (es : list JournalEntry) (ps : list MerkleProof) : JsonValue :=
  if go_include_entries opts then
    JObj [("chain_proof", JArr (map chain_object es)); ("entries", JArr (map entry_value es));
          ("merkle_proofs", JArr (map proof_object ps)); ("meta", store_meta opts t s es)]
  else JObj [("meta", store_meta opts t s es)].

Lemma build_package_run opts W s es ps : ledger_inv s es → w_io W = [] → all_proofs (map canonical_bytes es) (length es) = Ok ps →
  ∃ g t W', build_package pkg_version opts (W, s) = (Ok (g, store_package opts t s es ps), (W', s)) ∧ w_io W' = [] ∧
    gr_entry_count g = Z.of_nat (length es) ∧ gr_root_hex g = hash_to_hex (entries_root es) ∧
    gr_chain_tip_hex g = hash_to_hex (ls_last_chain_hash s) ∧ gr_signed g = bool_decide (is_Some (tm_signing_key (ls_tx s))).
Proof.
  intros Hi Hio Hps. pose proof (inv_db _ _ Hi) as Hr. destruct (db_repr_bound _ _ Hr) as [_ Hsize]. unfold build_package.
  erewrite mbind_eq by (unfold map_err; rewrite (verify_chain_integrity_run _ _ es), (inv_chain _ _ Hi) by done; done).
  erewrite mbind_eq.
  2: { unfold map_err, entry_count. erewrite mbind_eq by (apply db_try_reads_quiet; by apply query_quiet). done. }
  cbn [res_unwrap_or]. rewrite Hsize.
  erewrite mbind_eq by (unfold attempt; rewrite (db_op_quiet _ _ _ _ (stream_all_quiet W Hio _ _ _ _ Hr)); done).
  rewrite collect_all by apply Hr. cbn [fst lv_bytes lv_first lv_last lv_entries]. rewrite computed_root. fold (entries_root es). cbv zeta.
  erewrite mbind_eq by done. erewrite mbind_eq by done. cbn [id snd].
  unfold store_package, store_meta. cbv zeta. destruct (sign_bytes (ls_tx s) _) as [[sig pubkey]|] eqn:Hsig; cbn [fst snd].
  all: erewrite mbind_eq by (unfold now; done); cbv zeta; destruct (go_include_entries opts).
  1, 3: erewrite mbind_eq; [|erewrite mbind_eq by (unfold liftR; rewrite Nat2Z.id, Hps; done); done].
  3, 4: erewrite mbind_eq by done.
  all: eexists _, _, _; split; [done|]; cbn [gr_entry_count gr_root_hex gr_chain_tip_hex gr_signed w_io]; split_and!; try done.
  all: unfold sign_bytes in Hsig; destruct (tm_signing_key (ls_tx s)) as [sk|]; try done.
  all: injection Hsig as <- <-; rewrite (bool_decide_true (is_Some _)) by done; apply negb_true_iff, bool_decide_eq_false, hash_to_hex_nonempty; by rewrite ed_sign_length.
Qed.

(** ** The package is written as a text that is read back *)

Lemma fits_int z : 0 ≤ z < 2 ^ 64 → json_fits (JInt z) = true.
Proof. intros Hz. cbn [json_fits]. apply andb_true_iff. split; [apply Z.leb_le|apply Z.ltb_lt]; lia. Qed.

Lemma forallb_map_true {A B} (f : A → B) (p : B → bool) l : Forall (λ x, p (f x) = true) l → forallb p (map f l) = true.
Proof. induction 1 as [|x l Hx _ IH]; [done|]. cbn. by rewrite Hx. Qed.

Lemma sequence_bounds es : Forall seq_ok es → 0 ≤ es_first es < 2 ^ 63 ∧ 0 ≤ es_last es < 2 ^ 63.
Proof.
  intros Hs. rewrite Forall_forall in Hs. unfold es_first, es_last. split.
  - destruct (head es) as [e|] eqn:He; cbn; [|lia]. destruct (Hs e) as [??]; [|lia]. destruct es; [done|]. injection He as ->. left.
  - destruct (last es) as [e|] eqn:He; cbn; [|lia]. destruct (Hs e) as [??]; [|lia]. by apply last_Some_elem_of.
Qed.

Lemma proof_index items i p : merkle_proof items i = Some p → leaf_index p = i.
Proof. unfold merkle_proof. destruct items; [done|]. destruct (_ <=? i)%nat; [done|]. by intros [= <-]. Qed.

Lemma all_proofs_index items n ps : all_proofs items n = Ok ps → Forall (λ p, (leaf_index p < n)%nat) ps.
Proof.
  unfold all_proofs. assert (Hall : ∀ k m ps, foldr (λ i acc, p ← ok_or (merkle_proof items i) PkPanic; ps ← acc; Ok (p :: ps)) (Ok []) (seq k m) = Ok ps →
    Forall (λ p, (leaf_index p < k + m)%nat) ps).
  { intros k m. revert k. induction m as [|m IH]; intros k qs Hq; [injection Hq as <-; constructor|]. cbn [seq foldr] in Hq.
    destruct (merkle_proof items k) as [p|] eqn:Hp; [|done]. cbn [ok_or mbind Result_bind] in Hq. apply res_bind_Ok in Hq as (qs'&Hq'&Hq).
    injection Hq as <-. constructor; [rewrite (proof_index _ _ _ Hp); lia|]. eapply Forall_impl; [by apply IH|]. cbn. intros; lia. }
  intros Hps%Hall. exact Hps.
Qed.

Lemma proof_object_fits p : Z.of_nat (leaf_index p) < 2 ^ 63 → json_fits (proof_object p) = true.
Proof.
  intros Hp. unfold proof_object. cbn [json_fits map fst snd forallb]. rewrite andb_true_r. change (keys_ascend _) with true. cbn [andb].
  assert (Hf := fits_int (Z.of_nat (leaf_index p)) ltac:(lia)). cbn [json_fits] in Hf. rewrite Hf. cbn [andb].
  rewrite forallb_map_true; [done|]. apply Forall_forall. intros st _. done.
Qed.
Lemma chain_object_fits e : seq_ok e → json_fits (chain_object e) = true.
Proof.
  intros [H1' H2']. unfold chain_object. cbn [json_fits map fst snd forallb]. change (keys_ascend _) with true.
  assert (Hf := fits_int (e_sequence e) ltac:(lia)). cbn [json_fits] in Hf. by rewrite Hf.
Qed.

Lemma store_package_fits opts t s es ps : db_repr (db_tables (ls_db s)) es → Forall (λ e, entry_typed e = true) es →
  all_proofs (map canonical_bytes es) (length es) = Ok ps → json_fits (store_package opts t s es ps) = true.
Proof.
  intros Hr Hty Hps. destruct (db_repr_bound _ _ Hr) as [Hb _]. destruct (sequence_bounds es) as [Hfs Hls]; [apply Hr|].
  assert (Hmeta : json_fits (store_meta opts t s es) = true).
  { unfold store_meta, meta_value. cbv zeta. cbn [json_fits map fst snd forallb]. change (keys_ascend _) with true.
    assert (H1' := fits_int (Z.of_nat (length es)) ltac:(lia)). assert (H2' := fits_int (es_first es) ltac:(lia)).
    assert (H3' := fits_int (es_last es) ltac:(lia)). cbn [json_fits] in H1', H2', H3'. by rewrite H1', H2', H3'. }
  unfold store_package. destruct (go_include_entries opts).
  - cbn [json_fits map fst snd forallb]. change (keys_ascend _) with true. rewrite Hmeta, !forallb_map_true; [done|..].
    + eapply Forall_impl; [exact (all_proofs_index _ _ _ Hps)|]. cbn. intros p Hp. apply proof_object_fits. lia.
    + eapply Forall_impl; [exact Hty|]. intros e He. by apply entry_value_fits.
    + eapply Forall_impl; [apply Hr|]. apply chain_object_fits.
  - cbn [json_fits map fst snd forallb]. change (keys_ascend _) with true. by rewrite Hmeta.
Qed.

(** ** It verifies *)

Definition key_status (s : LedgerStore) : SigStatus := if tm_signing_key (ls_tx s) then SigValid else SigAbsent.

Lemma u64_field key z v : jget key v = JInt z → 0 ≤ z < 2 ^ 64 → u64_or0 key v = z.
Proof. intros Hv Hz. unfold u64_or0. rewrite Hv. cbn [json_u64]. destruct (Z.leb_spec 0 z); [|lia]. destruct (Z.ltb_spec z (2 ^ 64)); [done|lia]. Qed.

Lemma meta_sig o g n f l c r sig pub : str_or "" "root_signature" (meta_value pkg_version o g n f l c r sig pub) = sig.
Proof. done. Qed.
Lemma meta_key o g n f l c r sig pub : str_or "" "signing_pubkey" (meta_value pkg_version o g n f l c r sig pub) = pub.
Proof. done. Qed.
Lemma meta_type o g n f l c r sig pub :
  str_or "commitment" "package_type" (meta_value pkg_version o g n f l c r sig pub) = if go_include_entries o then "full" else "commitment".
Proof. done. Qed.

Lemma store_signature opts t s es : ledger_inv s es →
  check_signature (store_meta opts t s es) (hash_to_hex (entries_root es)) = (key_status s, []).
Proof.
  intros Hi. pose proof (inv_db _ _ Hi) as Hr. destruct (db_repr_bound _ _ Hr) as [Hb _]. destruct (sequence_bounds es) as [Hfs Hls]; [apply Hr|].
  assert (Htip : length (ls_last_chain_hash s) = 32%nat) by (rewrite (inv_tip _ _ Hi); apply (chain_hashes es ZERO_HASH zero_hash_ok), Hi).
  unfold check_signature, key_status.
  rewrite (u64_field "entry_count" (Z.of_nat (length es))), (u64_field "first_sequence" (es_first es)), (u64_field "last_sequence" (es_last es)) by (done || lia).
  change (str_or "" "chain_tip" (store_meta opts t s es)) with (hash_to_hex (ls_last_chain_hash s)).
  rewrite !(hex_array_hex 32) by (apply merkle_root_ok || exact Htip). set (meta := store_meta opts t s es).
  change (str_or "" "tenant" meta) with (opt_text (go_tenant opts)). change (str_or "" "description" meta) with (opt_text (go_description opts)).
  change (str_or "" "period_start" meta) with (opt_text (go_period_start opts)). change (str_or "" "period_end" meta) with (opt_text (go_period_end opts)).
  unfold meta, store_meta, sign_bytes. cbv zeta. destruct (tm_signing_key (ls_tx s)) as [sk|]; [|done]. cbn [mbind option_bind fst snd].
  rewrite meta_sig, meta_key, !bool_decide_false by (apply hash_to_hex_nonempty; by rewrite ?ed_sign_length, ?ed_public_length). cbn [negb andb].
  rewrite (hex_array_hex 32), (hex_array_hex 64) by (apply ed_public_length || apply ed_sign_length). by rewrite ed_public_valid, ed_correct.
Qed.

(** Reading back the text of a value. *)
Lemma read_back {S} v W (s : S) : w_io W = [] → json_fits v = true →
  read_value (Some (str_bytes (value_pretty v))) (W, s) = (Ok v, (W, s)).
Proof.
  intros Hio Hv. unfold read_value. erewrite mbind_eq by (by apply io_quiet). unfold liftR. rewrite value_pretty_utf8.
  unfold str_bytes. by rewrite String.string_of_list_byte_of_string, value_read_pretty.
Qed.

Lemma store_package_verifies opts t s es ps : ledger_inv s es → Forall (λ e, entry_wf e = true) es →
  all_proofs (map canonical_bytes es) (length es) = Ok ps →
  Forall (λ p, hash_ok (leaf_hash p) ∧ value_path (leaf_hash p) (proof_object p) = root p) ps →
  ∃ rep, verify_value (store_package opts t s es ps) = Ok rep ∧ vr_passed rep = true ∧ vr_sig_status rep = key_status s ∧
    vr_entry_count rep = Z.of_nat (length es) ∧ vr_root_hex rep = hash_to_hex (entries_root es) ∧
    vr_tenant rep = opt_text (go_tenant opts) ∧ vr_package_type rep = (if go_include_entries opts then "full" else "commitment").
Proof.
  intros Hi Hw Hps Hpaths. pose proof (inv_chain _ _ Hi) as Hchain. pose proof (chain_typed _ Hchain Hw) as Hty.
  pose proof (store_signature opts t s es Hi) as Hsig. unfold store_package. destruct (go_include_entries opts) eqn:Hinc.
  - set (package := JObj _). assert (Htype : str_or "commitment" "package_type" (jget "meta" package) = "full").
    { change (jget "meta" package) with (store_meta opts t s es). unfold store_meta. cbv zeta. by rewrite meta_type, Hinc. }
    destruct (verify_value_full package (map entry_value es) es (key_status s) Htype Hsig eq_refl (entries_read _ Hty) Hchain eq_refl)
      as (rep&Hv&Hp&_&Hs&Hn&Hroot&_&_&_&Hten).
    { intros qs [= <-]. by apply check_paths_ok. }
    exists rep. split_and!; try done. clear -Hv Htype. unfold verify_value in Hv. cbv zeta in Hv. rewrite Htype in Hv.
    destruct (check_signature _ _) as [? ?]. rewrite bool_decide_false, bool_decide_true in Hv by done. cbn [mbind Result_bind] in Hv.
    destruct (default _ _) as [? ?]. by injection Hv as <-.
  - set (package := JObj _). assert (Htype : str_or "commitment" "package_type" (jget "meta" package) = "commitment").
    { change (jget "meta" package) with (store_meta opts t s es). unfold store_meta. cbv zeta. by rewrite meta_type, Hinc. }
    unfold verify_value. cbv zeta. fold (package_root package). change (package_root package) with (hash_to_hex (entries_root es)).
    rewrite Htype. change (jget "meta" package) with (store_meta opts t s es) at 1. rewrite Hsig, !bool_decide_false by done.
    eexists. split; [done|]. split_and!; try done. cbn [vr_entry_count].
    apply u64_field; [done|]. destruct (db_repr_bound _ _ (inv_db _ _ Hi)). lia.
Qed.

(** C26: A package generated from an intact ledger verifies.  Opened on a data
    directory whose index holds the entries [es] of a ledger in its invariant,
    with fields that fit their types, in an environment without failures,
    [generate] writes a package for any options, its report names the number of
    entries, the Merkle root over them and the chain tip, and [verify] of the
    written bytes passes: it reports that number, that root, the tenant and the
    type asked for, and a valid signature exactly when the ledger has a signing
    key. *)
Theorem package_verifies W0 W d s es opts file :
  open_store false GroupCommit d W0 = Ok s → ledger_inv s es → Forall (λ e, entry_wf e = true) es → w_io W = [] →
  ∃ g text W', generate pkg_version W0 d opts (W, file) = (Ok g, (W', Some text)) ∧
    gr_entry_count g = Z.of_nat (length es) ∧ gr_root_hex g = hash_to_hex (entries_root es) ∧
    gr_chain_tip_hex g = hash_to_hex (tip ZERO_HASH es) ∧ gr_signed g = bool_decide (is_Some (tm_signing_key (ls_tx s))) ∧
    ∃ rep, verify (S:=unit) (Some text) (W', tt) = (Ok rep, (W', tt)) ∧ vr_passed rep = true ∧
      vr_sig_status rep = (if tm_signing_key (ls_tx s) then SigValid else SigAbsent) ∧
      vr_entry_count rep = Z.of_nat (length es) ∧ vr_root_hex rep = gr_root_hex g ∧ vr_tenant rep = opt_text (go_tenant opts) ∧
      vr_package_type rep = (if go_include_entries opts then "full" else "commitment").
Proof.
  intros Hopen Hi Hw Hio. destruct (all_proofs_ok (map canonical_bytes es) (length es)) as (ps&Hps&Hpaths); [by rewrite length_map|].
  destruct (build_package_run opts W s es ps Hi Hio Hps) as (g&t&W'&Hb&Hio'&Hn&Hroot&Htip&Hsigned).
  destruct (store_package_verifies opts t s es ps Hi Hw Hps Hpaths) as (rep&Hv&Hrep).
  pose proof (store_package_fits opts t s es ps (inv_db _ _ Hi) (chain_typed _ (inv_chain _ _ Hi) Hw) Hps) as Hfits.
  exists g, (str_bytes (value_pretty (store_package opts t s es ps))), W'. split.
  { unfold generate. erewrite mbind_eq by (unfold with_ledger; rewrite Hopen, Hb; done). cbn [fst snd].
    erewrite mbind_eq; [done|]. unfold write_package. erewrite mbind_eq by (unfold attempt; rewrite io_quiet by done; done). done. }
  rewrite <- (inv_tip _ _ Hi). split_and!; try done. exists rep. split; [|by rewrite Hroot]. unfold verify. by erewrite mbind_eq by (by apply read_back); unfold liftR; rewrite Hv.
Qed.

(** ** Proofs of single entries *)

Lemma find_leaf_skip q es : ∀ bs o, Forall (λ e, e_sequence e ≠ q) es →
  stream_entries (find_leaf q) es (bs, o) = ((bs ++ map canonical_bytes es, o), Ok tt).
Proof.
  induction es as [|e es IH]; intros bs o Hes; cbn [stream_entries find_leaf map fst snd]; [by rewrite app_nil_r|].
  apply Forall_cons in Hes as [He Hes]. destruct (Z.eqb_spec (e_sequence e) q); [done|]. rewrite IH by done. by rewrite <- app_assoc.
Qed.

Lemma find_leaf_at e post pre : ∀ bs o, Forall (λ x, e_sequence x ≠ e_sequence e) (pre ++ post) →
  stream_entries (find_leaf (e_sequence e)) (pre ++ e :: post) (bs, o) =
  ((bs ++ map canonical_bytes (pre ++ e :: post), Some (length bs + length pre)%nat), Ok tt).
Proof.
  induction pre as [|x pre IH]; intros bs o Hes; cbn [app stream_entries find_leaf map fst snd length].
  - rewrite Z.eqb_refl, find_leaf_skip by done. by rewrite <- app_assoc, Nat.add_0_r.
  - cbn [app] in Hes. apply Forall_cons in Hes as [Hx Hes]. destruct (Z.eqb_spec (e_sequence x) (e_sequence e)); [done|]. rewrite IH by done.
    rewrite <- app_assoc, length_app. cbn [length app]. do 3 f_equal. lia.
Qed.

Lemma sequences_differ (pre post : list JournalEntry) e : StronglySorted Z.lt (map e_sequence (pre ++ e :: post)) →
  Forall (λ x, e_sequence x ≠ e_sequence e) (pre ++ post).
Proof.
  induction pre as [|x pre IH]; cbn [app map]; intros [Hs Hx]%StronglySorted_inv.
  - apply Forall_forall. rewrite Forall_forall in Hx. intros y Hy He. specialize (Hx (e_sequence y) (list_elem_of_fmap_2 _ _ _ Hy)). lia.
  - constructor; [|by apply IH]. rewrite Forall_forall in Hx. specialize (Hx (e_sequence e)).
    assert (e_sequence x < e_sequence e); [|lia]. apply Hx. apply (list_elem_of_fmap_2 e_sequence). set_solver.
Qed.

Lemma verify_entries_member prev es e : verify_entries prev es = None → e ∈ es → verify_hashes e = true.
Proof.
  intros Hv (pre&post&->)%list_elem_of_split. rewrite verify_entries_app in Hv. destruct (verify_entries prev pre); [done|].
  cbn [verify_entries] in Hv. by destruct (verify_hashes e).
Qed.

Lemma get_entry_quiet W s es e : w_io W = [] → db_repr (db_tables (ls_db s)) es → e ∈ es →
  get_entry_by_sequence (e_sequence e) (W, s) = (Ok (Some e), (W, s)).
Proof.
  intros Hio Hr He. unfold get_entry_by_sequence. erewrite mbind_eq by (apply db_try_reads_quiet; by eapply get_by_sequence_quiet). done.
Qed.

Lemma build_proof_run W s es e commitment name : ledger_inv s es → w_io W = [] → e ∈ es →
  as_str (jget "merkle_root" (jget "meta" commitment)) = Some (hash_to_hex (entries_root es)) →
  ∃ p t W', build_proof pkg_version commitment name (e_sequence e) (W, s) =
      (Ok (mkProveReport (e_sequence e) (uuid_string (e_id e)) (hash_to_hex (entries_root es)),
           proof_package pkg_version (hash_to_hex (entries_root es)) name (utc_now_text t) e p), (W', s)) ∧ w_io W' = [] ∧
    root p = entries_root es ∧ leaf_hash p = hash_leaf (canonical_bytes e) ∧ Z.of_nat (leaf_index p) < 2 ^ 63 ∧
    value_path (leaf_hash p) (proof_object p) = root p.
Proof.
  intros Hi Hio He Hroot. pose proof (inv_db _ _ Hi) as Hr. destruct (db_repr_bound _ _ Hr) as [Hb _].
  apply list_elem_of_split in He as (pre&post&->). pose proof (sequences_differ _ _ _ (db_repr_seqs _ _ Hr)) as Hd.
  set (es := pre ++ e :: post) in *. assert (Hlen : (length pre < length (map canonical_bytes es))%nat).
  { unfold es. rewrite length_map, length_app. cbn [length]. lia. }
  destruct (merkle_proof_ok _ _ Hlen) as (p&Hp&Hpr&Hleaf&Hver). destruct (merkle_proof_hashes _ _ _ Hp) as [Hh Hs].
  exists p. unfold build_proof. rewrite Hroot.
  erewrite mbind_eq by done. erewrite mbind_eq by (unfold map_err; rewrite (get_entry_quiet W s es e); [done|done|done|unfold es; set_solver]).
  erewrite mbind_eq by done. erewrite mbind_eq.
  2: { unfold map_err, entry_count. erewrite mbind_eq by (apply db_try_reads_quiet; by apply query_quiet). done. }
  erewrite mbind_eq by (unfold attempt; rewrite (db_op_quiet _ _ _ _ (stream_all_quiet W Hio _ _ _ _ Hr)); done).
  unfold es. rewrite find_leaf_at by done. fold es. cbn [fst snd app length Nat.add]. erewrite mbind_eq by done.
  fold (entries_root es). cbv zeta. rewrite bool_decide_true by done. erewrite mbind_eq by done. rewrite Hp. erewrite mbind_eq by done.
  erewrite mbind_eq by (unfold now; done). eexists _, _. split; [done|]. split_and!; [done|done| | |by apply value_path_proof].
  - rewrite Hleaf. f_equal. apply list_lookup_total_correct. unfold es. by rewrite map_app, lookup_app_r, length_map, Nat.sub_diag by (by rewrite length_map).
  - rewrite (proof_index _ _ _ Hp). rewrite length_map in Hlen. lia.
Qed.

Lemma proof_package_fits root name t e p : seq_ok e → entry_typed e = true → Z.of_nat (leaf_index p) < 2 ^ 63 →
  json_fits (proof_package pkg_version root name t e p) = true.
Proof.
  intros Hs Hty Hp. unfold proof_package. pose proof (chain_object_fits e Hs) as H1'. pose proof (proof_object_fits p Hp) as H2'.
  pose proof (entry_value_fits e Hty) as H3'. set (c := chain_object e) in *. set (q := proof_object p) in *.
  cbn [json_fits map fst snd forallb]. by rewrite H1', H2', H3'.
Qed.

Lemma proof_package_verifies root name t e p : entry_typed e = true → verify_hashes e = true → AuditPackage.hash_to_hex (Merkle.root p) = root →
  hash_ok (leaf_hash p) → value_path (leaf_hash p) (proof_object p) = Merkle.root p →
  ∃ rep, verify_value (proof_package pkg_version root name t e p) = Ok rep ∧ vr_passed rep = true ∧ vr_sig_status rep = SigAbsent ∧
    vr_entry_count rep = 1 ∧ vr_root_hex rep = root ∧ vr_package_type rep = "entry_proof".
Proof.
  intros Hty He Hroot Hh Hpath. set (package := proof_package _ _ _ _ _ _).
  assert (Hcheck : check_entry_proof package root = Ok (mkChecked [] true true true)).
  { unfold check_entry_proof. change (jget "entry" package) with (entry_value e). rewrite entry_value_read by done.
    change (jget "merkle_proof" package) with (proof_object p). change (str_or "" "leaf_hash" (proof_object p)) with (hash_to_hex (leaf_hash p)).
    change (str_or "" "root" (proof_object p)) with (hash_to_hex (Merkle.root p)). rewrite (hex_array_hex 32) by exact Hh.
    rewrite Hpath, Hroot. cbv zeta. rewrite !bool_decide_true by done. by apply entry_errors_none in He as [-> ->]. }
  unfold verify_value. cbv zeta. fold (package_root package). change (package_root package) with root. rewrite Hcheck.
  eexists. split; [done|]. by split_and!.
Qed.

(** Every entry of the ledger can be proved against its commitment.  For a
    commitment that names the Merkle root of the ledger and any of its
    sequence numbers, [prove_entry] writes a proof file, and [verify] of it
    passes; the leaf in the file is the hash of that entry.  The report of such a file
    never shows a signature: the file holds none, so the root has to be compared
    with the commitment by other means. *)
Theorem entry_proof_verifies W0 W d s es e commitment name file :
  open_store false GroupCommit d W0 = Ok s → ledger_inv s es → Forall (λ e, entry_wf e = true) es → w_io W = [] → e ∈ es →
  json_fits commitment = true → as_str (jget "merkle_root" (jget "meta" commitment)) = Some (hash_to_hex (entries_root es)) →
  ∃ r t p W', let package := proof_package pkg_version (hash_to_hex (entries_root es)) name t e p in
    prove_entry pkg_version W0 d (Some (str_bytes (value_pretty commitment))) name (e_sequence e) (W, file) =
      (Ok r, (W', Some (str_bytes (value_pretty package)))) ∧
    pr_root_hex r = hash_to_hex (entries_root es) ∧ leaf_hash p = hash_leaf (canonical_bytes e) ∧
    ∃ rep, verify (S:=unit) (Some (str_bytes (value_pretty package))) (W', tt) = (Ok rep, (W', tt)) ∧ vr_passed rep = true ∧
      vr_sig_status rep = SigAbsent ∧ vr_entry_count rep = 1 ∧ vr_root_hex rep = hash_to_hex (entries_root es).
Proof.
  intros Hopen Hi Hw Hio Hin Hfit Hroot. pose proof (inv_db _ _ Hi) as Hr. pose proof (inv_chain _ _ Hi) as Hchain.
  assert (Hty : entry_typed e = true) by (pose proof (chain_typed _ Hchain Hw) as Hall; rewrite Forall_forall in Hall; auto).
  assert (Hseq : seq_ok e) by (destruct Hr as (_&_&Hok); rewrite Forall_forall in Hok; auto).
  destruct (build_proof_run W s es e commitment name Hi Hio Hin Hroot) as (p&t&W'&Hb&Hio'&Hpr&Hleaf&Hidx&Hpath).
  assert (Hh : hash_ok (leaf_hash p)) by (rewrite Hleaf; apply blake3_length).
  assert (Hve : verify_hashes e = true) by (by eapply verify_entries_member).
  destruct (proof_package_verifies (hash_to_hex (entries_root es)) name (utc_now_text t) e p Hty Hve ltac:(by rewrite Hpr) Hh Hpath) as (rep&Hv&Hrep).
  eexists _, (utc_now_text t), p, W'. cbv zeta. split.
  { unfold prove_entry. erewrite mbind_eq by (by apply read_back). erewrite mbind_eq by (unfold liftR; rewrite Hroot; done).
    erewrite mbind_eq by (unfold with_ledger; rewrite Hopen, Hb; done). cbn [fst snd]. erewrite mbind_eq; [done|].
    unfold write_package. erewrite mbind_eq by (unfold attempt; rewrite io_quiet by done; done). done. }
  split_and!; [done|done|]. exists rep. split; [|by destruct_and!].
  unfold verify. by erewrite mbind_eq by (apply read_back; [done|by apply proof_package_fits]); unfold liftR; rewrite Hv.
Qed.
End safety.
