(* ===== verification/Import.v ===== *)
(** * vledger: bulk import

    Models the import command of [crates/vledger/src/main.rs] ([cmd_import] and
    its helpers): the columns of a CSV file mapped to the fields of a row, the
    idempotency key of a row, the accounts that are found or created, the entry
    built from a row and handed to [import_entry_direct], the counters, the
    checkpoint file and the manifest.  The [csv] crate, [serde_json], chrono's
    parsers and the reading of floating-point numbers are parameters.  Console
    output is not modelled. *)

From stdpp Require Import base gmap list strings option fin_maps pretty.
From Stdlib Require Import ZArith Lia Strings.Byte Strings.Ascii.
From S2P Require Import Prelude Bytes Jsonl Crypto Merkle Money Entry WalRecord Wal Recovery Tx Page EntryDb Sql Store SqlGuard SqlExec SqlPlan McpText AuditPackage.

#[local] Open Scope string_scope.
#[local] Open Scope Z_scope.
#[local] Open Scope list_scope.

(** ** Data *)

Record ImportRow := mkImportRow {
  ir_description : string;
  ir_debit_account : string;
  ir_credit_account : string;
  ir_amount : Z;
  ir_currency : string;
  ir_domain : string;
  ir_external_ref : option string;
  ir_idempotency_key : option string;
  ir_effective_date : option string;
  ir_raw : string;
  ir_raw_fields : gmap string string
}.

Notation ColMap := (gmap string string).

Record ImportState := mkImportState {
  is_file : string;
  is_rows_processed : Z;
  is_rows_imported : Z;
  is_rows_skipped : Z;
  is_rows_already_existed : Z;
  is_last_row_index : Z;
  is_started_at : string
}.
Definition default_state : ImportState := mkImportState "" 0 0 0 0 0 "".

Record ImportManifest := mkImportManifest {
  mf_import_id : string;
  mf_source_file : string;
  mf_source_sha256 : string;
  mf_started_at : string;
  mf_completed_at : string;
  mf_dry_run : bool;
  mf_rows_processed : Z;
  mf_rows_imported : Z;
  mf_rows_already_existed : Z;
  mf_rows_skipped : Z;
  mf_rows_failed : Z;
  mf_first_sequence : option Z;
  mf_last_sequence : option Z;
  mf_chain_tip : string;
  mf_entry_count : Z;
  mf_format : string;
  mf_domain : string;
  mf_on_error : string
}.

(** Why a row is not imported. *)
Inductive RowError :=
  | RwCsv (e : string)
  | RwAmount (text : string)
  | RwNoAccount (code : string)
  | RwCreate (code : string) (e : LedgerError)
  | RwZero (amount : Z)
  | RwLedger (e : LedgerError).

(** Why a row fails the validation pass. *)
Inductive RowDefect :=
  | DfNoRow (e : RowError)
  | DfDescription
  | DfDebit
  | DfCredit
  | DfSameAccount
  | DfAmount (amount : Z)
  | DfCurrency
  | DfDebitUnknown (code : string)
  | DfCreditUnknown (code : string).

Inductive ImportError :=
  | ImNoDataDir
  | ImNoFile
  | ImFormat (fmt : string)
  | ImOnError
  | ImMapping
  | ImMapArg (m : string)
  | ImIo
  | ImCsv (e : string)
  | ImHeaders
  | ImStateFile
  | ImOpen (e : LedgerError)
  | ImRow (row : Z) (e : RowError)
  | ImInvalid (count : Z)
  | ImFailed (count : Z).

(** [csv] with headers, flexible records and trimmed fields: the headers of a
    text and its records; [serde_json] for the mapping file, the checkpoint, the
    manifest and an object of texts; a decimal number times 100, rounded; RFC
    3339 and the midnight of a date; the display of the time. *)
Class ImportExt := {
  csv_headers : bytes → option (list string);
  csv_records : bytes → list (Result string (list string));
  mapping_of : bytes → option (gmap string string);
  state_text : ImportState → bytes;
  state_of : bytes → option ImportState;
  state_of_text : ∀ s, state_of (state_text s) = Some s;
  manifest_text : ImportManifest → bytes;
  fields_text : gmap string string → string;
  decimal_cents : string → option Z;
  rfc3339_time : string → option Z;
  date_midnight : string → option Z;
  time_text : Z → string
}.

(** The arguments of the command; a file that is not there is [None]. *)
Record ImportArgs := mkImportArgs {
  ia_data_dir_exists : bool;
  ia_file : option bytes;
  ia_file_name : string;
  ia_extension : option string;
  ia_format : option string;
  ia_dry_run : bool;
  ia_mappings : list string;
  ia_mapping_file : option bytes;
  ia_domain : string;
  ia_default_currency : string;
  ia_id_column : option string;
  ia_on_error : string;
  ia_batch_size : Z;
  ia_resume : bool;
  ia_create_accounts : bool;
  ia_metadata_columns : option string;
  ia_wal_sync_mode : string
}.

(** ** Rows *)

Definition trim_text (s : string) : string := String.string_of_list_byte (trim (str_bytes s)).

Section rows.
Context `{ImportExt}.

Definition nonempty (s : string) : option string := if bool_decide (s = "") then None else Some s.

(** [trim().parse::<i64>()], else a decimal number in hundredths. *)
Definition parse_amount (text : string) : option Z :=
  match parse_i64 (trim_text text) with Some n => Some n | None => decimal_cents (trim_text text) end.

Definition row_from_map (m : ColMap) (raw : string) (raw_fields : gmap string string) (default_domain default_currency : string)
    : Result RowError ImportRow :=
  let get key := default "" (m !! key) in
  amount ← ok_or (parse_amount (get "amount")) (RwAmount (get "amount"));
  Ok (mkImportRow (get "description") (get "debit_account") (get "credit_account") amount
        (if bool_decide (get "currency" = "") then default_currency else to_uppercase (get "currency"))
        (if bool_decide (get "domain" = "") then default_domain else get "domain")
        (nonempty (get "external_ref")) (nonempty (get "idempotency_key")) (nonempty (get "effective_date")) raw raw_fields).

(** The loop over the headers: the fields by source column and by target. *)
Definition record_maps (col_map : ColMap) (headers : list string) (record : list string) : gmap string string * ColMap :=
  foldl (λ '(raw_fields, m) '(i, h),
           let val := default "" (record !! i) in
           (<[h := val]> raw_fields, <[default h (col_map !! h) := val]> m))
    (∅, ∅) (imap (λ i h, (i, h)) headers).

Definition read_row (col_map : ColMap) (headers : list string) (domain currency : string) (record : list string) : Result RowError ImportRow :=
  let '(raw_fields, m) := record_maps col_map headers record in
  row_from_map m (join_with "," record) raw_fields domain currency.

Definition validate_import_row (row : ImportRow) (lookup : gmap string Z) : Result RowDefect unit :=
  if bool_decide (ir_description row = "") then Err DfDescription
  else if bool_decide (ir_debit_account row = "") then Err DfDebit
  else if bool_decide (ir_credit_account row = "") then Err DfCredit
  else if bool_decide (ir_debit_account row = ir_credit_account row) then Err DfSameAccount
  else if ir_amount row <=? 0 then Err (DfAmount (ir_amount row))
  else if bool_decide (ir_currency row = "") then Err DfCurrency
  else match lookup !! ir_debit_account row with
       | None => Err (DfDebitUnknown (ir_debit_account row))
       | Some _ => match lookup !! ir_credit_account row with
                   | None => Err (DfCreditUnknown (ir_credit_account row))
                   | Some _ => Ok tt
                   end
       end.

(** ** Arguments *)

(** [splitn(2, '=')] with both parts. *)
Fixpoint split_once (c : ascii) (s : string) : option (string * string) :=
  match s with
  | EmptyString => None
  | String a s => if bool_decide (a = c) then Some ("", s) else '(l, r) ← split_once c s; Some (String a l, r)
  end.

Fixpoint add_mappings (ms : list string) (m : ColMap) : Result ImportError ColMap :=
  match ms with
  | [] => Ok m
  | a :: ms => match split_once "="%char a with
               | Some (src, target) => add_mappings ms (<[src := target]> m)
               | None => Err (ImMapArg a)
               end
  end.

Definition detect_format (a : ImportArgs) : string :=
  match ia_format a with Some f => to_lowercase f | None => to_lowercase (default "csv" (ia_extension a)) end.

Definition sync_mode_of (s : string) : WalSyncMode :=
  let s := to_lowercase s in
  if bool_decide (s = "per_record") || bool_decide (s = "fsync") then PerRecord else GroupCommit.

Definition meta_columns (a : ImportArgs) : list string :=
  match ia_metadata_columns a with Some s => map trim_text (split_char ","%char s) | None => [] end.

Definition abort_on_error (a : ImportArgs) : bool := bool_decide (ia_on_error a = "abort").
End rows.

Section import.
Context `{Blake3} `{Ed25519} `{!WalExt} `{!PageExt} `{LedgerCodecs} `{LedgerExt} `{Hex} `{ImportExt}.

(** ** One row *)

(** The ledger with the accounts known by their code. *)
Notation Books := (LedgerStore * gmap string Z)%type.
Definition on_ledger {A} (f : LedgerError → RowError) (m : M LedgerStore LedgerError A) : M Books RowError A :=
  map_err f (zoom fst (λ s b, (s, snd b)) m).

Definition resolve_or_create_account (code currency domain : string) (create : bool) : M Books RowError Z :=
  lookup ← gets snd;
  match lookup !! code with
  | Some id => mret id
  | None =>
      if negb create then throw (RwNoAccount code)
      else
        id ← rand;
        t ← now;
        let a := Account_new id t code code Suspense currency domain in
        let a := mkAccount (acc_id a) (acc_code a) (acc_name a) (account_type a) (currency_code a) (acc_status a) false (exposure_limit a)
                   (require_four_eyes a) (parent_id a) (created_at a) (acc_domain a) (legal_hold a) in
        id ← on_ledger (RwCreate code) (create_account a);
        _ ← modify (λ b, (fst b, <[code := id]> (snd b)));
        mret id
  end.

Definition idem_key (id_column : option string) (source_hash : string) (row_num : Z) (row : ImportRow) : string :=
  match id_column with
  | Some col =>
      match ir_raw_fields row !! col ≫= nonempty with
      | Some val => "id:" +:+ col +:+ ":" +:+ val
      | None => "id:" +:+ col +:+ ":" +:+ hash_to_hex (hash_bytes (str_bytes (col +:+ ":row:" +:+ pretty row_num)))
      end
  | None => "import:" +:+ String.substring 0 16 source_hash +:+ ":" +:+ hash_to_hex (hash_bytes (str_bytes (ir_raw row)))
  end.

Definition effective_time {S E} (date : option string) : M S E Z :=
  match date with
  | Some d => match rfc3339_time d with
              | Some t => mret t
              | None => match date_midnight d with Some t => mret t | None => now end
              end
  | None => now
  end.

(** The columns of [meta_cols] the row has. *)
Definition row_metadata (cols : list string) (row : ImportRow) : gmap string string :=
  foldl (λ m c, match ir_raw_fields row !! c with Some v => <[c := v]> m | None => m end) ∅ cols.

Definition build_row_entry {S E} (cols : list string) (row : ImportRow) (debit_id credit_id : Z) (amount : Amount) (key : string) : M S E JournalEntry :=
  t ← effective_time (ir_effective_date row);
  b ← Builder_new (ir_description row) (ir_domain row);
  b ← debit debit_id amount (ir_currency row) b;
  b ← credit credit_id amount (ir_currency row) b;
  let b := idempotency_key key (effective_at t b) in
  let b := match ir_external_ref row ≫= nonempty with Some r => external_ref r b | None => b end in
  let obj := row_metadata cols row in
  let b := if bool_decide (obj = ∅) then b else metadata (fields_text obj) b in
  build b.

Definition post_row (a : ImportArgs) (source_hash : string) (row_num : Z) (row : ImportRow) : M Books RowError Z :=
  let key := idem_key (ia_id_column a) source_hash row_num row in
  debit_id ← resolve_or_create_account (ir_debit_account row) (ir_currency row) (ir_domain row) (ia_create_accounts a);
  credit_id ← resolve_or_create_account (ir_credit_account row) (ir_currency row) (ir_domain row) (ia_create_accounts a);
  amount ← liftR (ok_or (Amount_new (ir_amount row)) (RwZero (ir_amount row)));
  e ← build_row_entry (meta_columns a) row debit_id credit_id amount key;
  on_ledger RwLedger (import_entry_direct e).

(** ** The loop *)

(** What the run works on: the ledger, the known accounts, the checkpoint file
    and the manifest. *)
Record ImportRun := mkRun {
  im_books : Books;
  im_state_file : option bytes;
  im_manifest : option bytes
}.
Definition set_books (b : Books) (s : ImportRun) : ImportRun := mkRun b (im_state_file s) (im_manifest s).
Definition set_state_file (f : option bytes) (s : ImportRun) : ImportRun := mkRun (im_books s) f (im_manifest s).
Definition set_manifest (f : option bytes) (s : ImportRun) : ImportRun := mkRun (im_books s) (im_state_file s) f.
Notation IM := (M ImportRun ImportError).

(** [std::fs::write]: on failure a prefix may be in the file. *)
Definition write_text (text : bytes) : M (option bytes) ImportError unit :=
  r ← attempt (io tt);
  match r with
  | Ok _ => modify (λ _, Some text)
  | Err _ => n ← rand; _ ← modify (λ f, if n mod 2 =? 0 then f else Some (take (Z.to_nat (n / 2)) text)); throw ImIo
  end.

(** The checkpoint file: [ImportState::load] and [save], and
    [let _ = std::fs::remove_file(..)] when it is there. *)
Definition state_load : M (option bytes) ImportError ImportState :=
  f ← gets id;
  match f with
  | None => mret default_state
  | Some bs => _ ← io ImIo; liftR (ok_or (state_of bs) ImStateFile)
  end.
Definition state_save (st : ImportState) : M (option bytes) ImportError unit := write_text (state_text st).
Definition state_remove : M (option bytes) ImportError unit :=
  f ← gets id;
  match f with
  | None => mret tt
  | Some _ => r ← attempt (F:=unit) (io tt); if is_ok r then modify (λ _, None) else mret tt
  end.
Definition on_state {A} (m : M (option bytes) ImportError A) : IM A := zoom im_state_file set_state_file m.

Record Progress := mkProgress {
  pg_state : ImportState;
  pg_failed : Z;
  pg_first : option Z;
  pg_last : option Z;
  pg_batch : Z
}.

(** A row that could not be read, and one that could not be posted. *)
Definition count_failed (p : Progress) : Progress := mkProgress (pg_state p) (pg_failed p + 1) (pg_first p) (pg_last p) (pg_batch p).
Definition count_skipped (p : Progress) : Progress :=
  let s := pg_state p in
  count_failed (mkProgress (mkImportState (is_file s) (is_rows_processed s) (is_rows_imported s) (is_rows_skipped s + 1) (is_rows_already_existed s)
    (is_last_row_index s) (is_started_at s)) (pg_failed p) (pg_first p) (pg_last p) (pg_batch p)).
(** A row that was posted at [seq], or was there before (0). *)
Definition count_done (row_num seq : Z) (p : Progress) : Progress :=
  let s := pg_state p in
  let new := negb (seq =? 0) in
  mkProgress (mkImportState (is_file s) (is_rows_processed s + 1) (is_rows_imported s + if new then 1 else 0) (is_rows_skipped s)
      (is_rows_already_existed s + if new then 0 else 1) row_num (is_started_at s)) (pg_failed p)
    (if new then match pg_first p with None => Some seq | f => f end else pg_first p) (if new then Some seq else pg_last p) (pg_batch p + 1).

(** Checkpoint after each batch. *)
Definition checkpoint_batch (batch_size : Z) (p : Progress) : IM Progress :=
  if batch_size <=? pg_batch p then
    _ ← on_state (state_save (pg_state p));
    mret (mkProgress (pg_state p) (pg_failed p) (pg_first p) (pg_last p) 0)
  else mret p.

(** One round of the import loop. *)
Definition import_record (a : ImportArgs) (col_map : ColMap) (headers : list string) (source_hash : string) (skip_rows row_num : Z)
    (result : Result string (list string)) (p : Progress) : IM Progress :=
  if row_num <=? skip_rows then mret p
  else
    match result with
    | Err e => if abort_on_error a then throw (ImRow row_num (RwCsv e)) else mret (count_failed p)
    | Ok record =>
        match read_row col_map headers (ia_domain a) (ia_default_currency a) record with
        | Err e => if abort_on_error a then throw (ImRow row_num e) else mret (count_failed p)
        | Ok row =>
            r ← attempt (zoom im_books set_books (post_row a source_hash row_num row));
            match r with
            | Ok seq => checkpoint_batch (ia_batch_size a) (count_done row_num seq p)
            | Err (RwLedger (IdempotencyConflict _)) => checkpoint_batch (ia_batch_size a) (count_done row_num 0 p)
            | Err e => if abort_on_error a then throw (ImRow row_num e) else mret (count_skipped p)
            end
        end
    end.

Fixpoint import_records (a : ImportArgs) (col_map : ColMap) (headers : list string) (source_hash : string) (skip_rows row_num : Z)
    (rs : list (Result string (list string))) (p : Progress) : IM Progress :=
  match rs with
  | [] => mret p
  | r :: rs =>
      p ← import_record a col_map headers source_hash skip_rows (row_num + 1) r p;
      import_records a col_map headers source_hash skip_rows (row_num + 1) rs p
  end.

(** ** The validation pass *)

Fixpoint validate_records (a : ImportArgs) (col_map : ColMap) (headers : list string) (lookup : gmap string Z) (row_num : Z)
    (rs : list (Result string (list string))) : Result ImportError (list (Z * RowDefect)) :=
  match rs with
  | [] => Ok []
  | Err e :: _ => Err (ImCsv e)
  | Ok record :: rs =>
      let found := match read_row col_map headers (ia_domain a) (ia_default_currency a) record with
                   | Ok row => match validate_import_row row lookup with Ok _ => [] | Err d => [(row_num + 1, d)] end
                   | Err e => [(row_num + 1, DfNoRow e)]
                   end in
      rest ← validate_records a col_map headers lookup (row_num + 1) rs;
      Ok (found ++ rest)
  end.

(** [open_csv] *)
Definition open_csv (data : bytes) : IM (list string) := _ ← io ImIo; liftR (ok_or (csv_headers data) ImHeaders).

(** The pass before the loop: [true] when the command ends there. *)
Definition validation_pass (a : ImportArgs) (col_map : ColMap) (data : bytes) : IM bool :=
  if ia_dry_run a || bool_decide (ia_on_error a = "collect") then
    headers ← open_csv data;
    books ← gets im_books;
    errors ← liftR (validate_records a col_map headers (snd books) 0 (csv_records data));
    if ia_dry_run a then mret true
    else if bool_decide (ia_on_error a = "collect") && negb (bool_decide (length errors = 0%nat))
    then throw (ImInvalid (Z.of_nat (length errors)))
    else mret false
  else mret false.

(** ** The command *)

Definition count_rows (rs : list (Result string (list string))) : Result ImportError Z :=
  foldr (λ r acc, match r with Err e => Err (ImCsv e) | Ok _ => n ← acc; Ok (n + 1) end) (Ok 0) rs.

(** The checks of the arguments before the ledger is opened: the time, the
    format, the mapping, the contents of the file. *)
Definition import_setup {S} (a : ImportArgs) : M S ImportError (Z * string * ColMap * bytes) :=
  if negb (ia_data_dir_exists a) then throw ImNoDataDir
  else
    data ← liftR (ok_or (ia_file a) ImNoFile);
    t ← now;
    let fmt := detect_format a in
    if negb (bool_decide (fmt = "csv")) && negb (bool_decide (fmt = "json")) then throw (ImFormat fmt)
    else if negb (bool_decide (ia_on_error a ∈ ["abort"; "skip"; "collect"])) then throw ImOnError
    else
      base ← match ia_mapping_file a with
             | Some bs => _ ← io ImIo; liftR (ok_or (mapping_of bs) ImMapping)
             | None => mret ∅
             end;
      col_map ← liftR (add_mappings (ia_mappings a) base);
      _ ← io ImIo;
      _ ← io ImIo;
      _ ← liftR (count_rows (csv_records data));
      mret (t, fmt, col_map, data).

Definition start_state (a : ImportArgs) (started_at : string) : M (option bytes) ImportError ImportState :=
  if ia_resume a then state_load
  else _ ← state_remove; mret (mkImportState (ia_file_name a) 0 0 0 0 0 started_at).

Definition account_lookup (s : LedgerStore) : gmap string Z :=
  foldl (λ m acct, <[acc_code acct := acc_id acct]> m) ∅ (all_accounts s).

(** After the loop: the last checkpoint, the manifest, the clean-up. *)
Definition import_finish (a : ImportArgs) (fmt source_hash started_at : string) (p : Progress) : IM unit :=
  let st := pg_state p in
  _ ← on_state (state_save st);
  books ← gets im_books;
  count ← map_err ImOpen (zoom (fst ∘ im_books) (λ s r, set_books (s, snd (im_books r)) r) entry_count);
  t ← now;
  _ ← zoom im_manifest set_manifest (write_text (manifest_text (mkImportManifest ("imp_" +:+ String.substring 0 16 source_hash) (ia_file_name a) source_hash
        started_at (time_text t) (ia_dry_run a) (is_rows_processed st) (is_rows_imported st) (is_rows_already_existed st) (is_rows_skipped st)
        (pg_failed p) (pg_first p) (pg_last p) (hash_to_hex (ls_last_chain_hash (fst books))) count fmt (ia_domain a) (ia_on_error a))));
  if pg_failed p =? 0 then on_state state_remove else throw (ImFailed (pg_failed p)).

(** From the open ledger to the end. *)
Definition import_body (a : ImportArgs) (fmt started_at : string) (col_map : ColMap) (data : bytes) (st : ImportState) : IM unit :=
  let source_hash := hash_to_hex (hash_bytes data) in
  ended ← validation_pass a col_map data;
  if (ended : bool) then mret tt
  else
    headers ← open_csv data;
    p ← import_records a col_map headers source_hash (is_last_row_index st) 0 (csv_records data) (mkProgress st 0 None None 0);
    import_finish a fmt source_hash started_at p.

(** The command on a data directory, a checkpoint file and a manifest; [W0] are
    the answers of the environment while the ledger is opened. *)
Definition cmd_import (a : ImportArgs) (W0 : World) : M (DataDir * option bytes * option bytes) ImportError unit := λ '(W, (d, f, m)),
  match (x ← import_setup a; st ← start_state a (time_text x.1.1.1); mret (x, st)) (W, f) with
  | (Err e, (W', f')) => (Err e, (W', (d, f', m)))
  | (Ok ((t, fmt, col_map, data), st), (W', f')) =>
      match open_store true (sync_mode_of (ia_wal_sync_mode a)) d W0 with
      | Err e => (Err (ImOpen e), (W', (d, f', m)))
      | Ok s =>
          let '(res, (W2, r)) := import_body a fmt (time_text t) col_map data st (W', mkRun (s, account_lookup s) f' m) in
          (res, (W2, (disk_of (fst (im_books r)), im_state_file r, im_manifest r)))
      end
  end.
End import.
