(* ===== verification/ImportSafety.v ===== *)
(** * What an import writes

    In every environment the rows an import counts are exactly the rows it
    read, each imported row is one balanced entry that continues the hash
    chain, and the index of entries is never written: a key counts as known
    only if it was indexed when the ledger was opened.  A dry run changes
    nothing but the checkpoint file, the format is only recorded, and an aborted
    run leaves the checkpoint where the last batch put it. *)

From stdpp Require Import base gmap list strings option fin_maps pretty sorting.
From Stdlib Require Import ZArith Lia Strings.Byte Strings.Ascii.
From S2P Require Import Prelude Bytes Jsonl Crypto Merkle Money Entry WalRecord Wal Recovery Tx Page EntryDb Sql Store StoreFrame StoreBooks StoreInv StoreSafety SqlGuard SqlExec SqlPlan McpText AuditPackage Import.

#[local] Open Scope string_scope.
#[local] Open Scope Z_scope.
#[local] Open Scope list_scope.

Section safety.
Context `{Blake3} `{Ed25519} `{!WalExt} `{!PageExt} `{LedgerCodecs} `{LedgerExt} `{Hex} `{ImportExt}.

Notation Books := (LedgerStore * gmap string Z)%type.

(** ** One entry *)

(** The indexed entries and the balances are as before. *)
Definition index_kept (s s' : LedgerStore) : Prop :=
  t_entries (db_tables (ls_db s')) = t_entries (db_tables (ls_db s)) ∧ ls_balance s' = ls_balance s.

Lemma index_kept_trans s1 s2 s3 : index_kept s1 s2 → index_kept s2 s3 → index_kept s1 s3.
Proof. unfold index_kept. intuition congruence. Qed.
Lemma journal_index s s' : same_journal s s' → index_kept s s'.
Proof. unfold same_journal, index_kept. by intuition. Qed.

(** The key is in the index. *)
Definition key_indexed (s : LedgerStore) (key : string) : bool := key_used key (db_tables (ls_db s)).

Lemma key_indexed_kept s s' key : index_kept s s' → key_indexed s' key = key_indexed s key.
Proof. intros [He _]. unfold key_indexed, key_used, rows, sorted_values, sorted_keys. by rewrite He. Qed.

(** An entry as it was handed over, sealed at the end of the chain of [s]. *)
Definition sealed (s s' : LedgerStore) (e e' : JournalEntry) : Prop :=
  verify_hashes e' = true ∧ e_prev_hash e' = ls_last_chain_hash s ∧ ls_last_chain_hash s' = e_chain_hash e' ∧
  e_sequence e' = ls_next_sequence s ∧ ls_next_sequence s' = wadd_u64 (ls_next_sequence s) 1 ∧
  e_lines e' = e_lines e ∧ e_idempotency_key e' = e_idempotency_key e ∧ e_description e' = e_description e ∧ e_domain e' = e_domain e.

(** The steps after the checks. *)
Definition append_entry (e : JournalEntry) : M LedgerStore LedgerError Z :=
  seq ← take_sequence;
  t ← now;
  tip ← gets ls_last_chain_hash;
  let e := finalize_chain_hash tip (set_posting seq t e) in
  bs ← liftR (encode_row e);
  _ ← persist_row TABLE_ENTRIES bs WalRecord.Insert (Some (e_prev_hash e));
  _ ← modify (s_last_chain_hash (e_chain_hash e));
  mret seq.

Lemma append_entry_eq e W s :
  append_entry e (W, s) =
  let e' := final_entry W s e in
  match enc e' with
  | None => (Err (Serialization "encode"), (tick W, next_seq s))
  | Some bs =>
      match persist_row TABLE_ENTRIES bs WalRecord.Insert (Some (e_prev_hash e')) (tick W, next_seq s) with
      | (Err x, σ) => (Err x, σ)
      | (Ok _, (W2, s2)) => (Ok (ls_next_sequence s), (W2, s_last_chain_hash (e_chain_hash e') s2))
      end
  end.
Proof.
  unfold append_entry, take_sequence, encode_row, final_entry. cbv beta iota zeta delta [mbind M_bind gets modify mret M_ret now liftR].
  cbn -[finalize_chain_hash persist_row set_posting s_next_sequence].
  destruct (enc _) as [bs|]; [|done]. cbn -[finalize_chain_hash persist_row set_posting s_next_sequence].
  by destruct (persist_row _ _ _ _ _) as [[?|?] [??]].
Qed.

(** What an attempt to append leaves. *)
Definition appended (e : JournalEntry) (s : LedgerStore) (r : Result LedgerError Z) (s' : LedgerStore) : Prop :=
  match r with
  | Ok seq => (s' = s ∧ seq = 0 ∧ ∃ key, e_idempotency_key e = Some key ∧ key_indexed s key = true) ∨
              (∃ e', sealed s s' e e' ∧ seq = ls_next_sequence s)
  | Err _ => ls_last_chain_hash s' = ls_last_chain_hash s ∧
             (ls_next_sequence s' = ls_next_sequence s ∨ ls_next_sequence s' = wadd_u64 (ls_next_sequence s) 1)
  end.

Lemma append_entry_run e W s r W' s' : e_content_hash e = ZERO_HASH → append_entry e (W, s) = (r, (W', s')) → index_kept s s' ∧ appended e s r s'.
Proof.
  intros Hz. rewrite append_entry_eq. cbv zeta. destruct (enc _) as [bs|]; [|intros [= <- <- <-]; split; [done|split; [done|by right]]].
  destruct (persist_row _ _ _ _ _) as [r0 [W2 s2]] eqn:Hp. apply persist_row_frame in Hp as [Hb Hn].
  assert (Hk : index_kept s s2) by (destruct Hb as (Hdb&_&Hbal&_); unfold index_kept; by rewrite Hdb, Hbal).
  assert (Ht : ls_last_chain_hash s2 = ls_last_chain_hash s) by apply Hb.
  destruct r0 as [u|x]; intros [= <- <- <-]; (split; [done|]).
  - right. exists (final_entry W s e). split; [|done]. unfold sealed. split_and!; try done.
    apply finalize_chain_hash_verifies. exact Hz.
  - split; [done|by right].
Qed.

Lemma import_entry_run e W s r W' s' : e_content_hash e = ZERO_HASH → import_entry_direct e (W, s) = (r, (W', s')) → index_kept s s' ∧ appended e s r s'.
Proof.
  intros Hz. unfold import_entry_direct. fold (append_entry e).
  intros [(u & [W1 s1] & Hv & Hr)|(x & Hv & ->)]%mbind_inv; unfold liftR in Hv; injection Hv as Hv <- <-.
  2: { split; [done|]. split; [done|by left]. }
  assert (Htail : ∀ W1, (s1 ← gets id; _ ← liftR (check_all (import_check_line s1) (e_lines e)); append_entry e) (W1, s) = (r, (W', s')) →
    index_kept s s' ∧ appended e s r s').
  { intros W1. rewrite (mbind_eq _ _ _ s (W1, s)) by done.
    intros [(u1 & [W2 s2] & Hv1 & Hr1)|(x & Hv1 & ->)]%mbind_inv; unfold liftR in Hv1; injection Hv1 as Hv1 <- <-.
    - by eapply append_entry_run.
    - split; [done|]. split; [done|by left]. }
  destruct (e_idempotency_key e) as [key|] eqn:Hkey.
  2: { rewrite (mbind_eq _ _ _ (Ok false) (W, s)) in Hr by done. by apply (Htail W). }
  destruct (db_try (idempotency_key_exists key) (W, s)) as [q [W1 s1]] eqn:Hq.
  pose proof (db_try_reads _ _ _ _ _ _ (query_reads _) Hq) as ->. 
  assert (Hqr : ∃ b, q = Ok b ∧ (b = Ok (key_indexed s key) ∨ ∃ x, b = Err x)).
  { unfold db_try, attempt, db_op, zoom, idempotency_key_exists, query, mbind, M_bind, io in Hq. cbn in Hq.
    destruct (default false (head (w_io W))); cbn in Hq; injection Hq as <- _ _; eauto. }
  destruct Hqr as (b&->&Hb). rewrite (mbind_eq _ _ _ _ _ Hq) in Hr.
  destruct (res_unwrap_or false b) eqn:Hu; [|by apply (Htail W1)].
  unfold mret, M_ret in Hr. injection Hr as <- <- <-. split; [done|]. left. split_and!; try done. exists key. split; [done|].
  by destruct Hb as [->|[x ->]].
Qed.

(** ** One row *)

Lemma on_ledger_run {A} f (m : M LedgerStore LedgerError A) W (s : LedgerStore) (l : gmap string Z) r W' b :
  on_ledger f m (W, (s, l)) = (r, (W', b)) → ∃ r0 s', m (W, s) = (r0, (W', s')) ∧ r = res_map_err f r0 ∧ b = (s', l).
Proof.
  unfold on_ledger, map_err, zoom. cbn. destruct (m (W, s)) as [r0 [W0 s0]]. intros [= <- <- <-]. by eexists _, _.
Qed.

Lemma resolve_run code currency domain create W s l r W' s' l' :
  resolve_or_create_account code currency domain create (W, (s, l)) = (r, (W', (s', l'))) →
  same_journal s s' ∧ l ⊆ l' ∧ ∀ id, r = Ok id → l' !! code = Some id.
Proof.
  unfold resolve_or_create_account. rewrite (mbind_eq _ _ _ l (W, (s, l))) by done.
  destruct (l !! code) as [id|] eqn:Hl; [intros [= <- <- <- <-]; split_and!; [done|done|congruence]|].
  destruct create; [|by intros [= <- <- <- <-]]. cbn [negb].
  erewrite mbind_eq by (unfold rand; done). erewrite mbind_eq by (unfold now; done).
  set (acct := mkAccount _ _ _ _ _ _ _ _ _ _ _ _ _). set (W1 := mkWorld _ _ _).
  intros [(id & [W2 b2] & Hc & Hr)|(x & Hc & ->)]%mbind_inv.
  - apply on_ledger_run in Hc as (r0&s2&Hc&Hr0&->). apply (journal_run _ _ _ _ _ _ (create_account_journal s acct)) in Hc.
    unfold modify, mret, M_ret, mbind, M_bind in Hr. cbn in Hr. injection Hr as <- <- <- <-. split_and!; [done| |].
    + by apply insert_subseteq.
    + intros ? [= <-]. apply lookup_insert_eq.
  - apply on_ledger_run in Hc as (r0&s2&Hc&_&Hb). injection Hb as <- <-.
    by apply (journal_run _ _ _ _ _ _ (create_account_journal s acct)) in Hc.
Qed.

(** An entry that books a row between the accounts known under its codes. *)
Definition books_row (l : gmap string Z) (row : ImportRow) (key : string) (e : JournalEntry) : Prop :=
  e_idempotency_key e = Some key ∧ e_description e = ir_description row ∧ e_domain e = ir_domain row ∧
  ∃ i j d c, l !! ir_debit_account row = Some d ∧ l !! ir_credit_account row = Some c ∧
    e_lines e = [mkLine i d (to_uppercase (ir_currency row)) (MkAmount (ir_amount row)) Debit None;
                 mkLine j c (to_uppercase (ir_currency row)) (MkAmount (ir_amount row)) Credit None].

Lemma books_row_mono l l' row key e : l ⊆ l' → books_row l row key e → books_row l' row key e.
Proof.
  intros Hl (?&?&?&i&j&d&c&Hd&Hc&?). split_and!; [done..|]. exists i, j, d, c. split_and!; [by eapply lookup_weaken|by eapply lookup_weaken|done].
Qed.

Lemma build_row_run {S E} cols row d c amount key W (st : S) r W' st' :
  build_row_entry (E:=E) cols row d c amount key (W, st) = (r, (W', st')) →
  st' = st ∧ ∃ e i j, r = Ok e ∧ e_content_hash e = ZERO_HASH ∧ e_idempotency_key e = Some key ∧ e_description e = ir_description row ∧
    e_domain e = ir_domain row ∧
    e_lines e = [mkLine i d (to_uppercase (ir_currency row)) amount Debit None; mkLine j c (to_uppercase (ir_currency row)) amount Credit None].
Proof.
  assert (Ht : ∃ t W1, effective_time (E:=E) (ir_effective_date row) (W, st) = (Ok t, (W1, st))).
  { unfold effective_time. destruct (ir_effective_date row) as [x|]; [|by eexists _, _]. destruct (rfc3339_time x); [by eexists _, _|].
    destruct (date_midnight x); by eexists _, _. }
  destruct Ht as (t&W1&Ht). unfold build_row_entry. erewrite mbind_eq by exact Ht. erewrite mbind_eq by done.
  erewrite mbind_eq by done. erewrite mbind_eq by done. cbv zeta.
  destruct (ir_external_ref row ≫= nonempty), (bool_decide (row_metadata cols row = ∅)); unfold build, rand, now, mret, M_ret, mbind, M_bind; cbn;
    intros [= <- <- <-]; (split; [done|]); eexists _, _, _; (split; [reflexivity|]); split_and!; reflexivity.
Qed.

(** The next sequence number may be taken by an entry that is not written. *)
Definition seq_moved (s s' : LedgerStore) : Prop :=
  ls_next_sequence s' = ls_next_sequence s ∨ ls_next_sequence s' = wadd_u64 (ls_next_sequence s) 1.

(** The entry at the end of the chain. *)
Definition chained (s s' : LedgerStore) (e : JournalEntry) : Prop :=
  verify_hashes e = true ∧ e_prev_hash e = ls_last_chain_hash s ∧ ls_last_chain_hash s' = e_chain_hash e ∧
  e_sequence e = ls_next_sequence s.

Lemma post_row_run a h num row W s l r W' s' l' :
  post_row a h num row (W, (s, l)) = (r, (W', (s', l'))) →
  index_kept s s' ∧ l ⊆ l' ∧ seq_moved s s' ∧
  match r with
  | Ok seq => (seq = 0 ∧ ls_last_chain_hash s' = ls_last_chain_hash s ∧ key_indexed s (idem_key (ia_id_column a) h num row) = true) ∨
              (∃ e, chained s s' e ∧ books_row l' row (idem_key (ia_id_column a) h num row) e ∧ seq = ls_next_sequence s)
  | Err _ => ls_last_chain_hash s' = ls_last_chain_hash s
  end.
Proof.
  unfold post_row. intros [(d & [W1 [s1 l1]] & Hd & Hr)|(x & Hd & ->)]%mbind_inv; apply resolve_run in Hd as (Hj1&Hl1&Hd).
  2: { refine (conj _ (conj Hl1 (conj (or_introl _) _))); [by apply journal_index|apply Hj1|apply Hj1]. }
  apply mbind_inv in Hr as [(c & [W2 [s2 l2]] & Hc & Hr)|(x & Hc & ->)]; apply resolve_run in Hc as (Hj2&Hl2&Hc);
    pose proof (same_journal_trans _ _ _ Hj1 Hj2) as Hj; pose proof (transitivity Hl1 Hl2) as Hl.
  2: { refine (conj _ (conj Hl (conj (or_introl _) _))); [by apply journal_index|apply Hj|apply Hj]. }
  apply mbind_inv in Hr as [(amount & [W3 b3] & Ha & Hr)|(x & Ha & ->)]; unfold liftR in Ha; injection Ha as Ha <- <-.
  2: { subst l'. refine (conj _ (conj Hl (conj (or_introl _) _))); [by apply journal_index|apply Hj|apply Hj]. }
  apply mbind_inv in Hr as [(e & [W4 b4] & He & Hr)|(x & He & ->)]; apply build_row_run in He as (Hst&e0&i&j&He&Hz&Hkey&Hdesc&Hdom&Hlines); [|done].
  injection He as <-. subst b4. apply on_ledger_run in Hr as (r0&s5&Hr&->&Hb). injection Hb as -> ->.
  apply import_entry_run in Hr as [Hk Happ]; [|done].
  assert (Hk0 : index_kept s s5) by (eapply index_kept_trans; [by apply journal_index|done]).
  destruct Hj as (Hent&_&_&_&_&Htip&Hnext&_).
  destruct r0 as [seq|x]; cbn [res_map_err appended] in *.
  - destruct Happ as [(->&->&key&Hkey'&Hix)|(e'&(Hv&Hprev&Htip'&Hseq&Hnext'&Hl'&Hkey'&Hdesc'&Hdom')&->)].
    + refine (conj Hk0 (conj Hl (conj (or_introl _) _))); [done|]. left. split_and!; [done|done|]. rewrite Hkey in Hkey'. injection Hkey' as <-.
      rewrite <- Hix. symmetry. apply key_indexed_kept. by split; [|apply Hk0].
    + refine (conj Hk0 (conj Hl (conj (or_intror _) _))); [congruence|]. right. exists e'. unfold chained, books_row.
      rewrite Hkey', Hdesc', Hdom', Hl', Hlines, Hprev, Hseq, Hnext, Htip. split_and!; try done. exists i, j, d, c. split_and!; [|by apply Hc|].
      * eapply lookup_weaken; [by apply Hd|done].
      * unfold Amount_new in Ha. destruct (ir_amount row =? 0); [done|]. by injection Ha as <-.
  - destruct Happ as [Ht' Hn']. refine (conj Hk0 (conj Hl (conj _ _))); [unfold seq_moved; rewrite <- Hnext; tauto|congruence].
Qed.

(** *** A conflict of keys is never reported *)

Section conflict.
Context (key : string).
Notation conflict := (IdempotencyConflict key).

Lemma check_all_never {A} (f : A → Result LedgerError unit) xs : (∀ y, f y ≠ Err conflict) → check_all f xs ≠ Err conflict.
Proof. intros Hf. induction xs as [|y xs IH]; [done|]. cbn. specialize (Hf y). destruct (f y) as [u|e]; cbn; [done|]. congruence. Qed.

Lemma tx_op_never {A} (m : TM A) : never conflict (tx_op m).
Proof. by apply never_map_err. Qed.
Lemma page_op_never {A} (m : PSM A) : never conflict (page_op m).
Proof. by apply never_map_err. Qed.
Lemma persist_row_never t bs k prev : never conflict (persist_row t bs k prev).
Proof.
  unfold persist_row, write_to_page.
  assert (Hl : ∀ E A (g : E → LedgerError) (r : Result E A), (∀ e, g e ≠ conflict) → never (S:=LedgerStore) conflict (liftR (res_map_err g r))).
  { intros E A g r Hg. apply never_liftR. destruct r; [done|]. cbn. intros [= He]. by eapply Hg. }
  apply never_bind; [auto with never|intros c]. apply never_bind; [|intros [[pid sid] nc]].
  - repeat (apply never_bind; [first [by apply Hl|apply page_op_never]|intros]). auto with never.
  - repeat (apply never_bind; [first [apply tx_op_never|auto with never]|intros]). auto with never.
Qed.

Lemma import_never_conflict e : never conflict (import_entry_direct e).
Proof.
  unfold import_entry_direct. fold (append_entry e). apply never_bind.
  { apply never_liftR. unfold validate. destruct (_ <? _)%nat; [done|]. destruct (totals _). by destruct (negb _). }
  intros u. apply never_bind; [destruct (e_idempotency_key e); [apply never_attempt|apply never_ret]|]. intros r.
  destruct (res_unwrap_or false r); [apply never_ret|]. apply never_bind; [auto with never|intros s]. apply never_bind.
  { apply never_liftR, check_all_never. intros l. unfold import_check_line. destruct (ls_accounts s !! ln_account_id l) as [acct|]; [|done].
    cbn. destruct (negb (is_active acct)); [done|]. by destruct (negb _). }
  intros u'. unfold append_entry. apply never_bind; [unfold take_sequence; repeat (apply never_bind; [auto with never|intros]); auto with never|intros seq].
  apply never_bind; [auto with never|intros t]. apply never_bind; [auto with never|intros tp]. cbv zeta.
  apply never_bind; [apply never_liftR; unfold encode_row; by destruct (enc _)|intros bs].
  apply never_bind; [apply persist_row_never|intros]. apply never_bind; auto with never.
Qed.

Lemma resolve_never code currency domain create : never (RwLedger conflict) (resolve_or_create_account code currency domain create).
Proof.
  unfold resolve_or_create_account. apply never_bind; [auto with never|intros l]. destruct (l !! code); [auto with never|].
  destruct create; [|by apply never_throw]. cbn [negb]. apply never_bind; [auto with never|intros id]. apply never_bind; [auto with never|intros t]. cbv zeta.
  apply never_bind; [by apply never_map_err|intros id']. apply never_bind; auto with never.
Qed.

Lemma post_row_never a h num row : never (RwLedger conflict) (post_row a h num row).
Proof.
  unfold post_row. cbv zeta. apply never_bind; [apply resolve_never|intros d]. apply never_bind; [apply resolve_never|intros c].
  apply never_bind; [apply never_liftR; by destruct (Amount_new _)|intros amount].
  apply never_bind; [|intros e; apply never_map_err; intros x [= ->]; apply never_zoom, import_never_conflict].
  intros [W st] [W' st'] Hb. by apply build_row_run in Hb as (_&e&i&j&?&_).
Qed.
End conflict.

(** ** The loop *)

Section loop.
Context (a : ImportArgs) (col_map : gmap string string) (headers : list string) (h : string) (skip_rows : Z).

Definition row_key (x : Z * ImportRow) : string := idem_key (ia_id_column a) h x.1 x.2.

(** The rows a stretch of records gives the loop, with their numbers. *)
Definition rows_of (num : Z) (r : Result string (list string)) : list (Z * ImportRow) :=
  if num <=? skip_rows then []
  else match r with
       | Ok record => match read_row col_map headers (ia_domain a) (ia_default_currency a) record with Ok row => [(num, row)] | Err _ => [] end
       | Err _ => []
       end.
Fixpoint rows_from (n : Z) (rs : list (Result string (list string))) : list (Z * ImportRow) :=
  match rs with [] => [] | r :: rs => rows_of (n + 1) r ++ rows_from (n + 1) rs end.
Fixpoint considered (n : Z) (rs : list (Result string (list string))) : Z :=
  match rs with [] => 0 | _ :: rs => (if n + 1 <=? skip_rows then 0 else 1) + considered (n + 1) rs end.

Definition run_store (st : ImportRun) : LedgerStore := fst (im_books st).
Definition run_lookup (st : ImportRun) : gmap string Z := snd (im_books st).

(** From [st] to [st'] the entries [es] were appended, each for one of [rows],
    and at most [k] sequence numbers were taken. *)
Record advanced (k : Z) (rows : list (Z * ImportRow)) (es : list JournalEntry) (st st' : ImportRun) : Prop := {
  ad_index : index_kept (run_store st) (run_store st');
  ad_lookup : run_lookup st ⊆ run_lookup st';
  ad_manifest : im_manifest st' = im_manifest st;
  ad_next : ls_next_sequence (run_store st) ≤ ls_next_sequence (run_store st') ≤ ls_next_sequence (run_store st) + k;
  ad_chain : verify_entries (ls_last_chain_hash (run_store st)) es = None;
  ad_tip : ls_last_chain_hash (run_store st') = tip (ls_last_chain_hash (run_store st)) es;
  ad_rows : ∃ posted, posted `sublist_of` rows ∧ Forall2 (λ x e, books_row (run_lookup st') x.2 (row_key x) e) posted es
}.

Definition indexed_rows (s : LedgerStore) (rows : list (Z * ImportRow)) : Z :=
  Z.of_nat (length (filter (λ x, key_indexed s (row_key x) = true) rows)).

(** The counters of [n] records. *)
Definition counted (s : LedgerStore) (n : Z) (rows : list (Z * ImportRow)) (es : list JournalEntry) (p p' : Progress) : Prop :=
  let st := pg_state p in let st' := pg_state p' in
  is_rows_imported st' = is_rows_imported st + Z.of_nat (length es) ∧
  is_rows_processed st' = is_rows_processed st + Z.of_nat (length es) + (is_rows_already_existed st' - is_rows_already_existed st) ∧
  is_rows_processed st' + pg_failed p' = is_rows_processed st + pg_failed p + n ∧
  is_rows_already_existed st ≤ is_rows_already_existed st' ≤ is_rows_already_existed st + indexed_rows s rows.

Lemma advanced_refl k rows st : 0 ≤ k → advanced k rows [] st st.
Proof. intros Hk. split; try done; [lia|]. exists []. split; [apply sublist_nil_l|constructor]. Qed.

Lemma advanced_trans k1 k2 rows1 rows2 es1 es2 st1 st2 st3 :
  advanced k1 rows1 es1 st1 st2 → advanced k2 rows2 es2 st2 st3 → advanced (k1 + k2) (rows1 ++ rows2) (es1 ++ es2) st1 st3.
Proof.
  intros [Hi1 Hl1 Hm1 Hn1 Hc1 Ht1 (d1&Hd1&Hf1)] [Hi2 Hl2 Hm2 Hn2 Hc2 Ht2 (d2&Hd2&Hf2)]. split.
  - by eapply index_kept_trans.
  - by etransitivity.
  - congruence.
  - lia.
  - by rewrite verify_entries_app, Hc1, <- Ht1.
  - rewrite Ht2, Ht1. unfold tip. by rewrite foldl_app.
  - exists (d1 ++ d2). split; [by apply sublist_app|]. apply Forall2_app; [|done].
    eapply Forall2_impl; [exact Hf1|]. intros x e. by apply books_row_mono.
Qed.

Lemma indexed_rows_kept s s' rows : index_kept s s' → indexed_rows s' rows = indexed_rows s rows.
Proof.
  intros Hk. unfold indexed_rows. do 2 f_equal. induction rows as [|x rows IH]; [done|]. rewrite !filter_cons.
  rewrite (key_indexed_kept s s' (row_key x) Hk). by case_decide; rewrite IH.
Qed.

Lemma counted_trans s s' n1 n2 rows1 rows2 es1 es2 p1 p2 p3 : index_kept s s' →
  counted s n1 rows1 es1 p1 p2 → counted s' n2 rows2 es2 p2 p3 → counted s (n1 + n2) (rows1 ++ rows2) (es1 ++ es2) p1 p3.
Proof.
  intros Hk. unfold counted. cbv zeta. rewrite (indexed_rows_kept s s' rows2 Hk). unfold indexed_rows. rewrite filter_app, !length_app. lia.
Qed.

Lemma write_text_ok {A} (m : M (option bytes) ImportError A) W st r W' st' : on_state m (W, st) = (r, (W', st')) →
  im_books st' = im_books st ∧ im_manifest st' = im_manifest st.
Proof. unfold on_state, zoom. destruct (m (W, im_state_file st)) as [r0 [W0 f0]]. by intros [= <- <- <-]. Qed.

Lemma advanced_file k rows es st st1 st2 : advanced k rows es st st1 → im_books st2 = im_books st1 → im_manifest st2 = im_manifest st1 →
  advanced k rows es st st2.
Proof. intros [Hi Hl Hm Hn Hc Ht Hr] Hb Hm'. unfold run_store, run_lookup in *. split; unfold run_store, run_lookup; rewrite ?Hb; try done. congruence. Qed.

Lemma checkpoint_batch_run size p W st r W' st' : checkpoint_batch size p (W, st) = (r, (W', st')) →
  im_books st' = im_books st ∧ im_manifest st' = im_manifest st ∧ ∀ p', r = Ok p' → pg_state p' = pg_state p ∧ pg_failed p' = pg_failed p.
Proof.
  unfold checkpoint_batch. destruct (size <=? pg_batch p); [|intros [= <- <- <-]; split_and!; [done|done|by intros ? [= <-]]].
  intros [(u & [W1 st1] & Hs & Hr)|(x & Hs & ->)]%mbind_inv; apply write_text_ok in Hs as [Hb Hm]; [|by split_and!].
  unfold mret, M_ret in Hr. injection Hr as <- <- <-. split_and!; [done|done|by intros ? [= <-]].
Qed.

(** One record. *)
Lemma import_record_run num result p W st r W' st' :
  0 < ls_next_sequence (run_store st) < 2 ^ 64 - 1 →
  import_record a col_map headers h skip_rows num result p (W, st) = (r, (W', st')) →
  ∃ es, advanced 1 (rows_of num result) es st st' ∧
    ∀ p', r = Ok p' → counted (run_store st) (if num <=? skip_rows then 0 else 1) (rows_of num result) es p p'.
Proof.
  intros Hnext. unfold import_record, rows_of. destruct (num <=? skip_rows).
  { intros [= <- <- <-]. exists []. split; [by apply advanced_refl|]. intros ? [= <-]. unfold counted, indexed_rows. cbn. lia. }
  assert (Hfail : ∀ rows, ∃ es, advanced 1 rows es st st ∧ counted (run_store st) 1 rows es p (count_failed p)).
  { intros rows. exists []. split; [by apply advanced_refl|]. unfold counted, indexed_rows. cbn. lia. }
  destruct result as [record|e].
  2: { destruct (Hfail []) as (es&Ha&Hc). destruct (abort_on_error a); intros [= <- <- <-]; exists es; (split; [done|]); [done|by intros ? [= <-]]. }
  destruct (read_row _ _ _ _ _) as [row|e].
  2: { destruct (Hfail []) as (es&Ha&Hc). destruct (abort_on_error a); intros [= <- <- <-]; exists es; (split; [done|]); [done|by intros ? [= <-]]. }
  clear Hfail. destruct st as [[s l] f m]. unfold zoom. unfold mbind, M_bind, attempt. cbn [im_books].
  destruct (post_row a h num row (W, (s, l))) as [r0 [W1 [s1 l1]]] eqn:Hp0. unfold set_books. cbn [im_state_file im_manifest].
  pose proof Hp0 as Hp. apply post_row_run in Hp as (Hk&Hl&Hmove&Hres). cbn [run_store im_books fst] in Hnext.
  assert (Hmove' : ls_next_sequence s ≤ ls_next_sequence s1 ≤ ls_next_sequence s + 1).
  { destruct Hmove as [->| ->]; [lia|]. unfold wadd_u64, as_u64. rewrite Z.mod_small; lia. }
  assert (Hnone : ls_last_chain_hash s1 = ls_last_chain_hash s → advanced 1 [(num, row)] [] (mkRun (s, l) f m) (mkRun (s1, l1) f m)).
  { intros Ht. split; try done. exists []. split; [apply sublist_nil_l|constructor]. }
  assert (Hdone : ∀ seq es st2, advanced 1 [(num, row)] es (mkRun (s, l) f m) (mkRun (s1, l1) f m) →
    counted s 1 [(num, row)] es p (count_done num seq p) →
    checkpoint_batch (ia_batch_size a) (count_done num seq p) (W1, mkRun (s1, l1) f m) = (r, (W', st2)) →
    ∃ es, advanced 1 [(num, row)] es (mkRun (s, l) f m) st2 ∧ ∀ p', r = Ok p' → counted s 1 [(num, row)] es p p').
  { intros seq es st2 Ha Hc (Hb&Hm&Hp')%checkpoint_batch_run. exists es. split; [by eapply advanced_file|].
    intros p' Hr. destruct (Hp' p' Hr) as [Hs Hf]. unfold counted in *. by rewrite Hs, Hf. }
  destruct r0 as [seq|x].
  - destruct Hres as [(->&Ht&Hix)|(e&(Hv&Hprev&Ht&Hseq)&Hbook&->)].
    + apply (Hdone 0 []); [by apply Hnone|]. unfold counted, indexed_rows. rewrite filter_cons_True by exact Hix. cbn. lia.
    + apply (Hdone _ [e]).
      * split; try done; unfold run_store, run_lookup; cbn [im_books fst snd].
        -- cbn [verify_entries]. rewrite Hv. cbn [negb]. by rewrite bool_decide_true.
        -- exists [(num, row)]. split; [done|]. constructor; [done|constructor].
      * unfold counted, count_done, indexed_rows. destruct (Z.eqb_spec (ls_next_sequence s) 0); [lia|]. cbn. lia.
  - specialize (Hnone Hres). 
    assert (Herr : ∀ y, x = y → (if abort_on_error a then throw (ImRow num y) else mret (count_skipped p)) (W1, mkRun (s1, l1) f m) = (r, (W', st')) →
      ∃ es, advanced 1 [(num, row)] es (mkRun (s, l) f m) st' ∧ ∀ p', r = Ok p' → counted s 1 [(num, row)] es p p').
    { intros y _ Hr. exists []. destruct (abort_on_error a); unfold throw, mret, M_ret in Hr; injection Hr as <- <- <-; (split; [done|]); [done|].
      intros p' [= <-]. unfold counted, indexed_rows. cbn. lia. }
    destruct x as [| | | | |[]]; try by apply Herr.
    exfalso. by eapply post_row_never.
Qed.

Lemma import_records_run rs : ∀ n p W st r W' st',
  0 < ls_next_sequence (run_store st) → ls_next_sequence (run_store st) + Z.of_nat (length rs) < 2 ^ 64 →
  import_records a col_map headers h skip_rows n rs p (W, st) = (r, (W', st')) →
  ∃ es, advanced (Z.of_nat (length rs)) (rows_from n rs) es st st' ∧
    ∀ p', r = Ok p' → counted (run_store st) (considered n rs) (rows_from n rs) es p p'.
Proof.
  induction rs as [|x rs IH]; intros n p W st r W' st' Hpos Hlt; cbn [import_records rows_from considered length].
  { intros [= <- <- <-]. exists []. split; [by apply advanced_refl|]. intros ? [= <-]. unfold counted, indexed_rows. cbn. lia. }
  cbn [length] in Hlt. intros [(p1 & [W1 st1] & H1' & H2')|(e & H1' & ->)]%mbind_inv.
  - destruct (import_record_run (n + 1) x p W st _ W1 st1 ltac:(lia) H1') as (es1&Ha1&Hc1). pose proof (ad_next _ _ _ _ _ Ha1) as Hn.
    destruct (IH (n + 1) p1 W1 st1 r W' st' ltac:(lia) ltac:(lia) H2') as (es2&Ha2&Hc2). exists (es1 ++ es2).
    replace (Z.of_nat (S (length rs))) with (1 + Z.of_nat (length rs)) by lia. split; [by eapply advanced_trans|].
    intros p' Hr. eapply counted_trans; [apply (ad_index _ _ _ _ _ Ha1)|by apply Hc1|by apply Hc2].
  - destruct (import_record_run (n + 1) x p W st _ W' st' ltac:(lia) H1') as (es1&Ha1&_). exists es1. split; [|done].
    assert (Hrest : advanced (Z.of_nat (length rs)) (rows_from (n + 1) rs) [] st' st') by (apply advanced_refl; lia).
    rewrite <- (app_nil_r es1). replace (Z.of_nat (S (length rs))) with (1 + Z.of_nat (length rs)) by lia. by eapply advanced_trans.
Qed.

(** C25: What an import writes, exactly.  In every environment the loop over the
    records of a file appends the entries [es] to the ledger: they continue the
    hash chain, each books one of the rows that could be read, in their order,
    as a debit and a credit of its amount between the accounts known under its
    codes and under its idempotency key, and nothing else is written to the
    journal; the index of entries and the balances stay as they are.  When the
    loop ends, the counters are exact: as many rows are imported as entries were
    appended, every record considered is processed or failed, and a row is
    counted as already there only if its key was in the index when the loop
    began; a key that repeats in the file is imported every time. *)
Theorem import_rows_exact rs p W st r W' st' :
  0 < ls_next_sequence (run_store st) → ls_next_sequence (run_store st) + Z.of_nat (length rs) < 2 ^ 64 →
  import_records a col_map headers h skip_rows 0 rs p (W, st) = (r, (W', st')) →
  ∃ posted es, posted `sublist_of` rows_from 0 rs ∧
    Forall2 (λ x e, books_row (run_lookup st') x.2 (row_key x) e) posted es ∧
    verify_entries (ls_last_chain_hash (run_store st)) es = None ∧
    ls_last_chain_hash (run_store st') = tip (ls_last_chain_hash (run_store st)) es ∧
    index_kept (run_store st) (run_store st') ∧
    ∀ p', r = Ok p' →
      is_rows_imported (pg_state p') = is_rows_imported (pg_state p) + Z.of_nat (length es) ∧
      is_rows_processed (pg_state p') + pg_failed p' = is_rows_processed (pg_state p) + pg_failed p + considered 0 rs ∧
      is_rows_processed (pg_state p') - is_rows_processed (pg_state p) =
        Z.of_nat (length es) + (is_rows_already_existed (pg_state p') - is_rows_already_existed (pg_state p)) ∧
      is_rows_already_existed (pg_state p') ≤ is_rows_already_existed (pg_state p) + indexed_rows (run_store st) (rows_from 0 rs).
Proof.
  intros Hpos Hlt Hr. destruct (import_records_run rs 0 p W st r W' st' Hpos Hlt Hr) as (es&Ha&Hc).
  destruct (ad_rows _ _ _ _ _ Ha) as (posted&Hs&Hf). exists posted, es.
  split; [done|]. split; [done|]. split; [apply (ad_chain _ _ _ _ _ Ha)|]. split; [apply (ad_tip _ _ _ _ _ Ha)|].
  split; [apply (ad_index _ _ _ _ _ Ha)|]. intros p' Hp. destruct (Hc p' Hp) as (H1'&H2'&H3'&H4'&H5'). lia.
Qed.

(** ** The checkpoint of an aborted run *)

Lemma import_record_quiet_file num result p W st r W' st' :
  pg_batch p + 1 < ia_batch_size a → import_record a col_map headers h skip_rows num result p (W, st) = (r, (W', st')) →
  im_state_file st' = im_state_file st ∧ ∀ p', r = Ok p' → pg_batch p' ≤ pg_batch p + 1.
Proof.
  intros Hb. unfold import_record. destruct (num <=? skip_rows); [intros [= <- <- <-]; split; [done|intros ? [= <-]; lia]|].
  assert (Hfail : ∀ e q, pg_batch q ≤ pg_batch p + 1 → (if abort_on_error a then throw e else mret q) (W, st) = (r, (W', st')) →
    im_state_file st' = im_state_file st ∧ ∀ p', r = Ok p' → pg_batch p' ≤ pg_batch p + 1).
  { intros e q Hq. destruct (abort_on_error a); intros [= <- <- <-]; (split; [done|]); [done|by intros ? [= <-]]. }
  destruct result as [record|e]; [|apply Hfail; cbn; lia]. destruct (read_row _ _ _ _ _) as [row|e]; [|apply Hfail; cbn; lia]. clear Hfail.
  unfold zoom, mbind, M_bind, attempt. destruct (post_row a h num row (W, im_books st)) as [r0 [W1 b1]].
  assert (Hdone : ∀ seq, checkpoint_batch (ia_batch_size a) (count_done num seq p) (W1, set_books b1 st) = (r, (W', st')) →
    im_state_file st' = im_state_file st ∧ ∀ p', r = Ok p' → pg_batch p' ≤ pg_batch p + 1).
  { intros seq. unfold checkpoint_batch. cbn [count_done pg_batch]. destruct (Z.leb_spec (ia_batch_size a) (pg_batch p + 1)); [lia|].
    intros [= <- <- <-]. split; [done|]. by intros ? [= <-]. }
  assert (Hfail : ∀ e, (if abort_on_error a then throw e else mret (count_skipped p)) (W1, set_books b1 st) = (r, (W', st')) →
    im_state_file st' = im_state_file st ∧ ∀ p', r = Ok p' → pg_batch p' ≤ pg_batch p + 1).
  { intros e. destruct (abort_on_error a); intros [= <- <- <-]; (split; [done|]); [done|]. intros ? [= <-]. cbn. lia. }
  destruct r0 as [seq|[| | | | |[]]]; try apply Hdone; apply Hfail.
Qed.

(** A run that ends before its first batch leaves no checkpoint.  When the
    records are fewer than a batch, the loop leaves the checkpoint file as it
    found it, also when it is aborted after importing rows: a run that resumes
    from there imports those rows again. *)
Theorem short_runs_leave_no_checkpoint rs n p W st r W' st' :
  pg_batch p + Z.of_nat (length rs) < ia_batch_size a →
  import_records a col_map headers h skip_rows n rs p (W, st) = (r, (W', st')) → im_state_file st' = im_state_file st.
Proof.
  revert n p W st. induction rs as [|x rs IH]; intros n p W st Hb; cbn [import_records length] in *; [by intros [= <- <- <-]|].
  intros [(p1 & [W1 st1] & H1' & H2')|(e & H1' & ->)]%mbind_inv; apply import_record_quiet_file in H1' as [Hf Hp]; try lia; [|done].
  rewrite <- Hf. apply (IH (n + 1) p1 W1 st1); [|done]. specialize (Hp p1 eq_refl). lia.
Qed.
End loop.

(** ** Dry runs and formats *)

Lemma open_csv_run data W st r W' st' : open_csv data (W, st) = (r, (W', st')) → st' = st.
Proof.
  unfold open_csv, io, liftR, mbind, M_bind. destruct (default false (head (w_io W))); by intros [= <- <- <-].
Qed.

(** A dry run only reads: it leaves the ledger, the checkpoint file it
    started from and the manifest as they are, whatever the file holds. *)
Theorem dry_run_only_reads a fmt started_at col_map data st W run r W' run' :
  ia_dry_run a = true → import_body a fmt started_at col_map data st (W, run) = (r, (W', run')) → run' = run.
Proof.
  intros Hdry. unfold import_body. cbv zeta. unfold validation_pass. rewrite Hdry. cbn [orb].
  assert (Hv : ∀ q W1 run1, (headers ← open_csv data; books ← gets im_books; errors ← liftR (validate_records a col_map headers (snd books) 0 (csv_records data));
    mret true) (W, run) = (q, (W1, run1)) → run1 = run ∧ (q = Ok true ∨ ∃ e, q = Err e)).
  { intros q W1 run1 [(hd & [W2 run2] & Ho & Hq)|(e & Ho & ->)]%mbind_inv; apply open_csv_run in Ho as ->; [|eauto].
    unfold gets, liftR, mret, M_ret, mbind, M_bind in Hq. cbn in Hq. destruct (validate_records _ _ _ _ _ _); injection Hq as <- <- <-; eauto. }
  intros [(ended & [W1 run1] & Hp & Hr)|(e & Hp & ->)]%mbind_inv; apply Hv in Hp as [-> Hq]; [|done].
  destruct Hq as [[= ->]|[e He]]; [|done]. by injection Hr as <- <- <-.
Qed.

Lemma write_other text text' W f r W' f' : write_text text (W, f) = (r, (W', f')) → ∃ f'', write_text text' (W, f) = (r, (W', f'')).
Proof.
  unfold write_text, attempt, io, rand, modify, throw, mbind, M_bind. cbn. destruct (default false (head (w_io W))); intros [= <- <- <-]; by eexists.
Qed.

(** The two computations end alike but for the manifest. *)
Definition manifest_apart {A} (m1 m2 : M ImportRun ImportError A) : Prop :=
  ∀ σ r W' run', m1 σ = (r, (W', run')) → ∃ f, m2 σ = (r, (W', set_manifest f run')).

Lemma apart_refl {A} (m : M ImportRun ImportError A) : manifest_apart m m.
Proof. intros σ r W' run' Hm. exists (im_manifest run'). by destruct run'. Qed.
Lemma apart_bind {A B} (m : M ImportRun ImportError A) (f g : A → M ImportRun ImportError B) :
  (∀ x, manifest_apart (f x) (g x)) → manifest_apart (m ≫= f) (m ≫= g).
Proof.
  intros Hfg σ r W' run' [(x & σ1 & Hm & Hr)|(e & Hm & ->)]%mbind_inv.
  - rewrite (mbind_eq _ _ _ _ _ Hm). by apply Hfg.
  - rewrite (mbind_err _ _ _ _ _ Hm). exists (im_manifest run'). by destruct run'.
Qed.

Lemma finish_format a fmt fmt' h t p : manifest_apart (import_finish a fmt h t p) (import_finish a fmt' h t p).
Proof.
  unfold import_finish. cbv zeta. do 4 (apply apart_bind; intros ?). intros [W run] r W' run'.
  unfold zoom at 1. unfold zoom at 1. unfold mbind, M_bind. intros Hr.
  match type of Hr with context [write_text ?x _] => destruct (write_text x (W, im_manifest run)) as [q [W4 m4]] eqn:Hw end.
  match goal with |- context [write_text ?y _] => destruct (write_other _ y _ _ _ _ _ Hw) as [m5 Hw'] end. rewrite Hw'. exists m5.
  destruct q as [u'|e]; [|injection Hr as <- <- <-; done].
  destruct (pg_failed p =? 0); [|injection Hr as <- <- <-; done].
  unfold on_state, zoom in *. cbn [set_manifest im_state_file] in *. destruct (state_remove (W4, im_state_file run)) as [q' [W5 f5]]. by injection Hr as <- <- <-.
Qed.

(** The format is only recorded.  Whatever the format is called, a file is
    read as CSV: with another name for the format the command has the same
    result and leaves the same ledger and checkpoint file, only the manifest may
    differ. *)
Theorem format_only_recorded a fmt fmt' started_at col_map data st W run r W' run' :
  import_body a fmt started_at col_map data st (W, run) = (r, (W', run')) →
  ∃ m, import_body a fmt' started_at col_map data st (W, run) = (r, (W', set_manifest m run')).
Proof.
  intros Hr. revert Hr. apply (λ Ha : manifest_apart _ _, Ha (W, run)). unfold import_body. cbv zeta. apply apart_bind. intros [].
  - apply apart_refl.
  - do 2 (apply apart_bind; intros ?). apply finish_format.
Qed.
End safety.
