(* ===== verification/DirLock.v ===== *)
(** * vledger-ledger: the lock of the data directory

    Models [crates/vledger-ledger/src/lockfile.rs]: the calls of [acquire] and
    [drop] one by one, so that they interleave between any number of processes.
    The state is the part of the system those calls see: the file the path
    names, the contents of the files, and the open files, each on one file and
    with or without a lock.  [flock] and [LockFileEx] refuse when another open
    file on the {e same file} is locked, and the lock goes when the open file
    is closed; that two holders are never on different files is then a property
    of the program.  It is lost when somebody deletes the lock file, and on the
    platforms where the lock call is the fallback. *)

From stdpp Require Import base gmap list strings option fin_maps pretty relations.
From Stdlib Require Import ZArith Lia Strings.Byte.
From S2P Require Import Prelude Bytes.

#[local] Open Scope Z_scope.
#[local] Open Scope list_scope.

Inductive LockError :=
  | AlreadyLocked
  | CreateFailed (path reason : string)
  | LockIo (e : string).

#[global] Instance LockError_eq_dec : EqDecision LockError.
Proof. solve_decision. Defined.

(** [cfg(unix)], [cfg(windows)] and the fallback. *)
Inductive Platform := Unix | Windows | OtherPlatform.

(** Where the owner of an open file stands: it is open, the number is written,
    the lock is held, the file is emptied and about to be closed. *)
Inductive Phase := Opened | Written | Holding | Emptied.

#[global] Instance Phase_eq_dec : EqDecision Phase.
Proof. solve_decision. Defined.

Record OpenFile := mkOpenFile {
  of_pid : Z;
  of_inode : Z;
  of_locked : bool;
  of_phase : Phase
}.

(** The inode the path names, what the inodes hold, the open files. *)
Record LockState := mkLockState {
  lk_path : option Z;
  lk_data : gmap Z bytes;
  lk_files : gmap Z OpenFile
}.

Definition set_files (fs : gmap Z OpenFile) (s : LockState) : LockState := mkLockState (lk_path s) (lk_data s) fs.
Definition set_phase (fd : Z) (ph : Phase) (s : LockState) : LockState :=
  set_files (alter (λ f, mkOpenFile (of_pid f) (of_inode f) (of_locked f) ph) fd (lk_files s)) s.

(** ** The system calls *)

(** A file opened with [create(true)]: the one the path names, or a new one.
    The system chooses a number not in use. *)
Definition open_or_create (ino : Z) (s : LockState) : option (Z * LockState) :=
  match lk_path s with
  | Some i => Some (i, s)
  | None => if decide (is_Some (lk_data s !! ino)) then None
            else Some (ino, mkLockState (Some ino) (<[ino := []]> (lk_data s)) (lk_files s))
  end.

(** No other open file on this file is locked. *)
Definition unlocked_elsewhere (fd ino : Z) (s : LockState) : bool :=
  bool_decide (map_Forall (λ fd' f, fd' = fd ∨ of_inode f ≠ ino ∨ of_locked f = false) (lk_files s)).

(** [flock(fd, LOCK_EX | LOCK_NB)] and [LockFileEx] with
    [LOCKFILE_FAIL_IMMEDIATELY]; [sys] is false when the call fails for another
    reason.  The fallback does nothing and answers [true]. *)
Definition try_exclusive_lock (pl : Platform) (sys : bool) (fd : Z) (s : LockState) : option (bool * LockState) :=
  f ← lk_files s !! fd;
  match pl with
  | OtherPlatform => Some (true, s)
  | _ => if sys && unlocked_elsewhere fd (of_inode f) s
         then Some (true, set_files (<[fd := mkOpenFile (of_pid f) (of_inode f) true (of_phase f)]> (lk_files s)) s)
         else Some (false, s)
  end.

(** Closing an open file gives up its lock. *)
Definition close (fd : Z) (s : LockState) : LockState := set_files (delete fd (lk_files s)) s.

(** ** [acquire] *)

(** [writeln!(f, "{}", std::process::id())] *)
Definition pid_line (p : Z) : bytes := str_bytes (pretty p) ++ [Byte.x0a].
(** Written at the start of a file that is not truncated. *)
Definition overwrite (line content : bytes) : bytes := line ++ drop (length line) content.

(** The file is opened or created; [fd] and [ino] are the system's choice. *)
Definition open_file (path : string) (fail : option string) (fd ino pid : Z) (s : LockState) : option (Result LockError unit * LockState) :=
  match fail with
  | Some reason => Some (Err (CreateFailed path reason), s)
  | None =>
      if decide (is_Some (lk_files s !! fd)) then None
      else '(i, s) ← open_or_create ino s; Some (Ok tt, set_files (<[fd := mkOpenFile pid i false Opened]> (lk_files s)) s)
  end.

(** An error of this write is dropped. *)
Definition write_pid (ok : bool) (fd : Z) (s : LockState) : option LockState :=
  f ← lk_files s !! fd;
  match of_phase f with
  | Opened => Some (set_phase fd Written (if ok then mkLockState (lk_path s) (alter (overwrite (pid_line (of_pid f))) (of_inode f) (lk_data s)) (lk_files s) else s))
  | _ => None
  end.

(** The lock is tried; when it is not had, the file is closed. *)
Definition take_lock (pl : Platform) (sys : bool) (fd : Z) (s : LockState) : option (Result LockError unit * LockState) :=
  f ← lk_files s !! fd;
  match of_phase f with
  | Written =>
      '(got, s) ← try_exclusive_lock pl sys fd s;
      Some (if got : bool then (Ok tt, set_phase fd Holding s) else (Err AlreadyLocked, close fd s))
  | _ => None
  end.

(** [acquire] without a pause between its calls. *)
Definition acquire (pl : Platform) (path : string) (fail : option string) (wrote sys : bool) (fd ino pid : Z) (s : LockState)
  : option (Result LockError unit * LockState) :=
  '(r, s) ← open_file path fail fd ino pid s;
  match r with
  | Err e => Some (Err e, s)
  | Ok _ => s ← write_pid wrote fd s; take_lock pl sys fd s
  end.

(** ** [drop] *)

(** [std::fs::write(&self.path, "")] opens the path again and truncates, then
    [_file] is closed. *)
Definition empty_file (ok : bool) (ino fd : Z) (s : LockState) : option LockState :=
  f ← lk_files s !! fd;
  match of_phase f with
  | Holding =>
      if ok then '(i, s) ← open_or_create ino s; Some (set_phase fd Emptied (mkLockState (lk_path s) (<[i := []]> (lk_data s)) (lk_files s)))
      else Some (set_phase fd Emptied s)
  | _ => None
  end.
Definition close_file (fd : Z) (s : LockState) : option LockState :=
  f ← lk_files s !! fd;
  match of_phase f with Emptied => Some (close fd s) | _ => None end.

(** A process that dies has its files closed by the system. *)
Definition process_exit (pid : Z) (s : LockState) : LockState := set_files (filter (λ x, of_pid x.2 ≠ pid) (lk_files s)) s.

(** One call of one process, in any order between processes. *)
Inductive lock_step (pl : Platform) (s : LockState) : LockState → Prop :=
  | step_open path fail fd ino pid r s' : open_file path fail fd ino pid s = Some (r, s') → lock_step pl s s'
  | step_write ok fd s' : write_pid ok fd s = Some s' → lock_step pl s s'
  | step_lock sys fd r s' : take_lock pl sys fd s = Some (r, s') → lock_step pl s s'
  | step_empty ok ino fd s' : empty_file ok ino fd s = Some s' → lock_step pl s s'
  | step_close fd s' : close_file fd s = Some s' → lock_step pl s s'
  | step_exit pid : lock_step pl s (process_exit pid s).

(** Somebody deletes the lock file: the path names nothing, open files stay. *)
Definition unlink (s : LockState) : LockState := mkLockState None (lk_data s) (lk_files s).
Inductive disk_step (pl : Platform) (s : LockState) : LockState → Prop :=
  | step_call s' : lock_step pl s s' → disk_step pl s s'
  | step_unlink : disk_step pl s (unlink s).

(** ** Mutual exclusion *)

(** A process is inside from the moment it has the lock to the closing of its
    file. *)
Definition inside (f : OpenFile) : bool := match of_phase f with Holding | Emptied => true | _ => false end.

(** Every open file is on the file the path names, the locked ones are those
    inside, and there is at most one. *)
Record lock_inv (s : LockState) : Prop := {
  li_same : ∀ fd f, lk_files s !! fd = Some f → lk_path s = Some (of_inode f);
  li_locked : ∀ fd f, lk_files s !! fd = Some f → of_locked f = inside f;
  li_one : ∀ fd fd' f f', lk_files s !! fd = Some f → lk_files s !! fd' = Some f' → of_locked f = true → of_locked f' = true → fd = fd'
}.

(** Nobody has the file open; a lock file left behind may be there. *)
Definition at_rest (s : LockState) : Prop := lk_files s = ∅.
Lemma at_rest_inv s : at_rest s → lock_inv s.
Proof. unfold at_rest. intros He. constructor; rewrite He; intros *; by rewrite lookup_empty. Qed.

(** Open files that go away. *)
Lemma lock_inv_subset fs s : fs ⊆ lk_files s → lock_inv s → lock_inv (set_files fs s).
Proof.
  intros Hsub [H1 H2 H3]. constructor; cbn.
  - intros fd f Hf. eapply H1, lookup_weaken; eauto.
  - intros fd f Hf. eapply H2, lookup_weaken; eauto.
  - intros fd fd' f f' Hf Hf'. eapply H3; eapply lookup_weaken; eauto.
Qed.

(** The file the path names comes into being, or its contents change. *)
Lemma lock_inv_path i d s : (∀ j, lk_path s = Some j → j = i) → lock_inv s → lock_inv (mkLockState (Some i) d (lk_files s)).
Proof.
  intros Hp [H1 H2 H3]. constructor; cbn; [|done..]. intros fd f Hf. specialize (H1 fd f Hf). by rewrite (Hp _ H1).
Qed.
Lemma lock_inv_data d s : lock_inv s → lock_inv (mkLockState (lk_path s) d (lk_files s)).
Proof. intros [H1 H2 H3]. by constructor. Qed.

Lemma open_or_create_inv ino s i s' :
  open_or_create ino s = Some (i, s') → lock_inv s → lk_path s' = Some i ∧ lk_files s' = lk_files s ∧ lock_inv s'.
Proof.
  unfold open_or_create. destruct (lk_path s) as [j|] eqn:Hp; [intros [= <- <-]; by rewrite Hp|].
  case_decide; [done|]. intros [= <- <-] Hi. split_and!; [done..|]. apply lock_inv_path; [|done]. congruence.
Qed.

(** One open file changes its phase, and is locked accordingly. *)
Lemma lock_inv_update fd f f' s :
  lk_files s !! fd = Some f → lock_inv s → of_inode f' = of_inode f → of_locked f' = inside f' →
  (of_locked f' = true → of_locked f = true ∨ unlocked_elsewhere fd (of_inode f) s = true) →
  lock_inv (set_files (<[fd := f']> (lk_files s)) s).
Proof.
  intros Hf [H1 H2 H3] Hino Hlk Hfree.
  assert (Hother : ∀ fd2 f2, fd2 ≠ fd → lk_files s !! fd2 = Some f2 → of_locked f' = true → of_locked f2 = true → False).
  { intros fd2 f2 Hne Hf2 Hl' Hl2. destruct (Hfree Hl') as [Hl|Hu]; [by destruct (Hne (H3 _ _ _ _ Hf2 Hf Hl2 Hl))|].
    apply bool_decide_eq_true in Hu. destruct (Hu _ _ Hf2) as [?|[Hi|Hi]]; [done| |congruence].
    pose proof (H1 _ _ Hf2) as Hp2. rewrite (H1 _ _ Hf) in Hp2. congruence. }
  constructor; cbn.
  - intros fd2 f2 [[<- <-]|[_ Hf2]]%lookup_insert_Some; [rewrite Hino|]; eauto.
  - intros fd2 f2 [[<- <-]|[_ Hf2]]%lookup_insert_Some; eauto.
  - intros a b fa fb [[<- <-]|[Ha Hfa]]%lookup_insert_Some [[<- <-]|[Hb Hfb]]%lookup_insert_Some La Lb; eauto; exfalso; eauto.
Qed.

(** [set_phase] on an open file. *)
Lemma set_phase_insert fd f ph s : lk_files s !! fd = Some f →
  set_phase fd ph s = set_files (<[fd := mkOpenFile (of_pid f) (of_inode f) (of_locked f) ph]> (lk_files s)) s.
Proof.
  intros Hf. unfold set_phase. f_equal. apply map_eq. intros j. destruct (decide (j = fd)) as [->|Hj].
  - by rewrite lookup_alter_eq, lookup_insert_eq, Hf.
  - by rewrite lookup_alter_ne, lookup_insert_ne.
Qed.

Lemma set_phase_inv fd f ph s :
  lk_files s !! fd = Some f → lock_inv s → inside (mkOpenFile 0 0 false ph) = inside f → lock_inv (set_phase fd ph s).
Proof.
  intros Hf Hi Hin. rewrite (set_phase_insert _ f) by done. apply (lock_inv_update fd f); try done; cbn; [|by left].
  by rewrite (li_locked _ Hi _ _ Hf).
Qed.

Definition locks (pl : Platform) : bool := match pl with OtherPlatform => false | _ => true end.

Lemma take_lock_cases pl sys fd s f :
  locks pl = true → lk_files s !! fd = Some f → of_phase f = Written →
  take_lock pl sys fd s =
  Some (if sys && unlocked_elsewhere fd (of_inode f) s
        then (Ok tt, set_files (<[fd := mkOpenFile (of_pid f) (of_inode f) true Holding]> (lk_files s)) s)
        else (Err AlreadyLocked, close fd s)).
Proof.
  intros Hpl Hf Hw. unfold take_lock, try_exclusive_lock. rewrite Hf. cbn. rewrite Hw.
  destruct pl; [| |done]; destruct (sys && _); cbn; try done.
  all: rewrite (set_phase_insert _ (mkOpenFile (of_pid f) (of_inode f) true Written)) by (cbn; by rewrite lookup_insert_eq); cbn.
  all: unfold set_files; cbn; by rewrite insert_insert_eq.
Qed.

Lemma lock_step_inv pl s s' : locks pl = true → lock_inv s → lock_step pl s s' → lock_inv s'.
Proof.
  intros Hpl Hi Hs. destruct Hs as [path fail fd ino pid r s' Hs|ok fd s' Hs|sys fd r s' Hs|ok ino fd s' Hs|fd s' Hs|pid].
  - unfold open_file in Hs. destruct fail; [by simplify_eq/=|]. case_decide as Hfd; [done|].
    destruct (open_or_create ino s) as [[i s1]|] eqn:Ho; [|done]. cbn in Hs. simplify_eq.
    apply open_or_create_inv in Ho as (Hp & Hfs & Hi1); [|done]. apply eq_None_not_Some in Hfd. rewrite <- Hfs in Hfd.
    destruct Hi1 as [H1 H2 H3]. constructor; cbn.
    + intros fd2 f2 [[<- <-]|[_ Hf2]]%lookup_insert_Some; eauto.
    + intros fd2 f2 [[<- <-]|[_ Hf2]]%lookup_insert_Some; eauto.
    + intros a b fa fb [[<- <-]|[Ha Hfa]]%lookup_insert_Some [[<- <-]|[Hb Hfb]]%lookup_insert_Some La Lb; eauto; done.
  - unfold write_pid in Hs. destruct (lk_files s !! fd) as [f|] eqn:Hf; [|done]. cbn in Hs. destruct (of_phase f) eqn:Hph; try done. simplify_eq.
    destruct ok; (apply (set_phase_inv _ f); [done|try done; by apply lock_inv_data|unfold inside; by rewrite Hph]).
  - destruct (lk_files s !! fd) as [f|] eqn:Hf; [|unfold take_lock in Hs; by rewrite Hf in Hs].
    destruct (decide (of_phase f = Written)) as [Hph|Hph]; [|unfold take_lock in Hs; rewrite Hf in Hs; cbn in Hs; by destruct (of_phase f)].
    rewrite (take_lock_cases _ _ _ _ f) in Hs by done. destruct (sys && _) eqn:Hfree; simplify_eq/=.
    + apply andb_true_iff in Hfree as [_ Hfree]. apply (lock_inv_update fd f); try done. by right.
    + apply lock_inv_subset; [apply delete_subseteq|done].
  - unfold empty_file in Hs. destruct (lk_files s !! fd) as [f|] eqn:Hf; [|done]. cbn in Hs. destruct (of_phase f) eqn:Hph; try done.
    destruct ok; [|simplify_eq; apply (set_phase_inv _ f); [done..|unfold inside; by rewrite Hph]].
    destruct (open_or_create ino s) as [[i s1]|] eqn:Ho; [|done]. cbn in Hs. simplify_eq.
    apply open_or_create_inv in Ho as (Hp & Hfs & Hi1); [|done]. apply (set_phase_inv _ f); [cbn; by rewrite Hfs|by apply lock_inv_data|unfold inside; by rewrite Hph].
  - unfold close_file in Hs. destruct (lk_files s !! fd) as [f|] eqn:Hf; [|done]. cbn in Hs. destruct (of_phase f); try done. simplify_eq.
    apply lock_inv_subset; [apply delete_subseteq|done].
  - apply lock_inv_subset; [apply map_filter_subseteq|done].
Qed.

Lemma reachable_lock_inv pl s0 s : locks pl = true → at_rest s0 → rtc (lock_step pl) s0 s → lock_inv s.
Proof.
  intros Hpl Hi%at_rest_inv Hr. induction Hr as [|s1 s2 s3 Hs _ IH]; [done|]. apply IH. by eapply lock_step_inv.
Qed.

(** An [acquire] no call of which fails. *)
Lemma acquire_alone pl path fd ino pid s :
  locks pl = true → lock_inv s → lk_files s !! fd = None → lk_data s !! ino = None →
  ∃ r s', acquire pl path None true true fd ino pid s = Some (r, s') ∧
    (r = Ok tt ∧ (∀ fd' f, lk_files s !! fd' = Some f → inside f = false) ∧ (∃ f, lk_files s' !! fd = Some f ∧ inside f = true)
     ∨ r = Err AlreadyLocked ∧ (∃ fd' f, lk_files s !! fd' = Some f ∧ inside f = true) ∧ lk_files s' = lk_files s).
Proof.
  intros Hpl Hi Hfd Hino. unfold acquire, open_file. rewrite decide_False by (by rewrite Hfd; intros [? ?]).
  destruct (open_or_create ino s) as [[i s1]|] eqn:Ho.
  2: { unfold open_or_create in Ho. destruct (lk_path s); [done|]. by rewrite decide_False in Ho by (rewrite Hino; by intros [? ?]). }
  apply open_or_create_inv in Ho as (Hp & Hfs & Hi1); [|done]. cbn.
  unfold write_pid. cbn. rewrite lookup_insert_eq. cbn.
  rewrite (set_phase_insert _ (mkOpenFile pid i false Opened)) by (cbn; by rewrite lookup_insert_eq). cbn.
  erewrite take_lock_cases; [|done|cbn; by rewrite lookup_insert_eq|done]. cbn. rewrite insert_insert_eq.
  set (s2 := set_files _ _). destruct (unlocked_elsewhere fd i s2) eqn:Hu; (eexists _, _; split; [done|]).
  - left. apply bool_decide_eq_true in Hu. split_and!; [done| |cbn; rewrite lookup_insert_eq; by eexists].
    intros fd' f Hf. assert (Hne : fd' ≠ fd) by (intros ->; congruence). rewrite <- (li_locked _ Hi _ _ Hf).
    destruct (Hu fd' f) as [?|[Hx|?]]; [|done| |done]; [cbn; by rewrite lookup_insert_ne, Hfs by done|].
    pose proof (li_same _ Hi1 fd' f) as Hs1. rewrite Hfs, Hp in Hs1. specialize (Hs1 Hf). congruence.
  - right. apply bool_decide_eq_false in Hu. split_and!; [done| |cbn; rewrite delete_insert_eq, Hfs; by apply delete_id].
    apply map_not_Forall in Hu as (fd' & f & Hf & Hn); [|intros; apply _]. cbn in Hf. apply lookup_insert_Some in Hf as [[<- _]|[Hne Hf]]; [by destruct Hn; left|].
    rewrite Hfs in Hf. exists fd', f. split; [done|]. rewrite <- (li_locked _ Hi _ _ Hf). destruct (of_locked f); [done|]. destruct Hn; auto.
Qed.

(** C16: One holder at a time.  On Unix and Windows, from a data directory that
    nobody has open (with or without a lock file left behind by a crash), in
    every interleaving of the calls of any number of processes, with failures of
    every call (the lock call failing for other reasons included) and processes
    that die, and as long as nobody deletes the lock file: at most one open lock
    file is between a successful [acquire] and its closing; and an [acquire] none
    of whose calls fails takes the lock when there is none, and otherwise returns
    [AlreadyLocked] and leaves no open file behind. *)
Theorem data_dir_lock_exclusive pl s0 s :
  locks pl = true → at_rest s0 → rtc (lock_step pl) s0 s →
  (∀ fd fd' f f', lk_files s !! fd = Some f → lk_files s !! fd' = Some f' → inside f = true → inside f' = true → fd = fd') ∧
  (∀ path fd ino pid, lk_files s !! fd = None → lk_data s !! ino = None →
    ∃ r s', acquire pl path None true true fd ino pid s = Some (r, s') ∧
      (r = Ok tt ∧ (∀ fd' f, lk_files s !! fd' = Some f → inside f = false) ∧ (∃ f, lk_files s' !! fd = Some f ∧ inside f = true)
       ∨ r = Err AlreadyLocked ∧ (∃ fd' f, lk_files s !! fd' = Some f ∧ inside f = true) ∧ lk_files s' = lk_files s)).
Proof.
  intros Hpl H0 Hr. pose proof (reachable_lock_inv _ _ _ Hpl H0 Hr) as Hi. split.
  - intros fd fd' f f' Hf Hf' Hin Hin'. apply (li_one _ Hi fd fd' f f'); [done..| |]; [by rewrite (li_locked _ Hi _ _ Hf)|by rewrite (li_locked _ Hi _ _ Hf')].
  - intros path fd ino pid. by apply acquire_alone.
Qed.

(** ** Where exclusion is lost, and the number in the file *)

(** A data directory never locked. *)
Definition no_lock : LockState := mkLockState None ∅ ∅.

Lemma acquire_steps pl path fd ino pid s r s' :
  acquire pl path None true true fd ino pid s = Some (r, s') → rtc (lock_step pl) s s'.
Proof.
  unfold acquire. destruct (open_file _ _ _ _ _ _) as [[ro s1]|] eqn:Ho; [|done]. cbn.
  destruct ro as [u|e]; [|intros [= _ <-]; eapply rtc_l; [by eapply step_open|apply rtc_refl]].
  destruct (write_pid _ _ _) as [s2|] eqn:Hw; [|done]. cbn. intros Ht.
  eapply rtc_l; [by eapply step_open|]. eapply rtc_l; [by eapply step_write|]. eapply rtc_l; [by eapply step_lock|apply rtc_refl].
Qed.

Definition then_acquire (pl : Platform) (fd ino pid : Z) (s : LockState) : LockState :=
  match acquire pl "data/.lockfile" None true true fd ino pid s with Some (_, s') => s' | None => s end.
Lemma then_acquire_steps pl fd ino pid s : rtc (lock_step pl) s (then_acquire pl fd ino pid s).
Proof. unfold then_acquire. destruct (acquire _ _ _ _ _ _ _ _ _) as [[r s']|] eqn:Ha; [by eapply acquire_steps|apply rtc_refl]. Qed.

Lemma calls_on_disk pl s s' : rtc (lock_step pl) s s' → rtc (disk_step pl) s s'.
Proof. induction 1; [apply rtc_refl|]. eapply rtc_l; [by apply step_call|done]. Qed.

(** Two processes inside at once. *)
Definition both_inside (s : LockState) : Prop :=
  ∃ f1 f2, lk_files s !! 1 = Some f1 ∧ lk_files s !! 2 = Some f2 ∧ inside f1 = true ∧ inside f2 = true ∧ of_pid f1 ≠ of_pid f2.

(** A lock file deleted while it is held lets a second process in: the locks are
    on different files. *)
Theorem deleted_lock_file_not_exclusive : ∃ s, rtc (disk_step Unix) no_lock s ∧ both_inside s.
Proof.
  exists (then_acquire Unix 2 20 200 (unlink (then_acquire Unix 1 10 100 no_lock))). split.
  - etransitivity; [apply calls_on_disk, then_acquire_steps|]. eapply rtc_l; [apply step_unlink|]. apply calls_on_disk, then_acquire_steps.
  - eexists _, _. split_and!; [vm_compute; reflexivity..|]. done.
Qed.

(** On the platforms of the fallback every process gets the lock. *)
Theorem fallback_not_exclusive : ∃ s, rtc (lock_step OtherPlatform) no_lock s ∧ both_inside s.
Proof.
  exists (then_acquire OtherPlatform 2 20 200 (then_acquire OtherPlatform 1 10 100 no_lock)). split.
  - etransitivity; apply then_acquire_steps.
  - eexists _, _. split_and!; [vm_compute; reflexivity..|]. done.
Qed.

(** The holder's number is overwritten by a process that fails to get the lock. *)
Theorem lock_file_names_another :
  ∃ s, rtc (lock_step Unix) no_lock s ∧ (∃ f, lk_files s !! 1 = Some f ∧ inside f = true ∧ of_pid f = 100) ∧
    lk_files s !! 2 = None ∧ lk_data s !! 10 = Some (pid_line 200).
Proof.
  exists (then_acquire Unix 2 20 200 (then_acquire Unix 1 10 100 no_lock)). split.
  - etransitivity; apply then_acquire_steps.
  - split_and!; [eexists; split_and!|..]; vm_compute; reflexivity.
Qed.

(** A lock file left behind by a crash. *)
Definition stale : LockState := mkLockState (Some 7) {[ 7 := pid_line 9 ]} ∅.

Lemma data_dir_lock_exclusive_witness :
  let s := then_acquire Unix 1 10 100 stale in
  (∃ f, lk_files s !! 1 = Some f ∧ inside f = true) ∧
  (∀ fd fd' f f', lk_files s !! fd = Some f → lk_files s !! fd' = Some f' → inside f = true → inside f' = true → fd = fd') ∧
  ∃ s', acquire Unix "data/.lockfile" None true true 2 20 200 s = Some (Err AlreadyLocked, s') ∧ lk_files s' = lk_files s.
Proof.
  intros s. assert (Hf : ∃ f, lk_files s !! 1 = Some f ∧ inside f = true) by (eexists; split; vm_compute; reflexivity).
  split; [exact Hf|].
  destruct (data_dir_lock_exclusive Unix stale s eq_refl eq_refl (then_acquire_steps Unix 1 10 100 stale)) as [Hone Hacq].
  split; [exact Hone|].
  destruct (Hacq "data/.lockfile"%string 2 20 200) as (r & s' & Ha & [(_ & Hno & _)|(-> & _ & Hfs)]); [vm_compute; reflexivity..| |].
  - destruct Hf as (f & Hl & Hin). rewrite (Hno 1 f Hl) in Hin. discriminate Hin.
  - exists s'. exact (conj Ha Hfs).
Defined.
