(* ===== verification/Alerts.v ===== *)
(** * vledger-server: alerts

    Models [crates/vledger-server/src/alert.rs]: the severities, the channel that
    writes to the log, the webhook channel with its minimum severity, its
    cooldown per source and its three payloads, the router, and the loading of
    the configuration.  A POST may fail or be answered with any status.  The
    theorems say exactly which alerts are posted. *)

From stdpp Require Import base gmap list strings option fin_maps pretty sorting.
From Stdlib Require Import ZArith Lia Strings.Byte Strings.Ascii.
From S2P Require Import Prelude Bytes Jsonl Crypto Money Entry WalRecord Wal Recovery Tx Page EntryDb Sql Store SqlGuard SqlExec McpText.

#[local] Open Scope string_scope.
#[local] Open Scope Z_scope.
#[local] Open Scope list_scope.

Inductive Severity := Info | Warning | Critical.

Definition severity_text (s : Severity) : string := match s with Info => "info" | Warning => "warning" | Critical => "critical" end.
Definition severity_rank (s : Severity) : Z := match s with Info => 0 | Warning => 1 | Critical => 2 end.

Record Alert := mkAlert { al_source : string; al_message : string; al_severity : Severity; al_fired_at : Z }.

Record Webhook := mkWebhook { wh_url : string; wh_min_severity : Severity; wh_cooldown : Z; wh_last_fired : gmap string Z }.

(** The channels; [WebhookAlertChannel::new] takes seconds, times are in
    nanoseconds. *)
Inductive Channel := LogOnlyAlertChannel | WebhookAlertChannel (w : Webhook).
Definition Webhook_new (url : string) (min_severity : Severity) (cooldown_secs : Z) : Webhook :=
  mkWebhook url min_severity (cooldown_secs * 10 ^ 9) ∅.

(** What leaves the process. *)
Inductive AlertEvent :=
  | Logged (a : Alert)
  | Posted (url : string) (payload : JsonValue) (delivered : bool).

Record ChannelConfig := mkChannelConfig { cc_kind : string; cc_url : option string; cc_min_severity : Severity }.
Record AlertsConfig := mkAlertsConfig { ac_channels : list ChannelConfig; ac_cooldown_seconds : Z }.

(** [serde_json] with the defaults of the two structures; RFC 3339. *)
Class AlertExt := {
  alerts_of : bytes → option AlertsConfig;
  alert_time : Z → string
}.

Section alerts.
Context `{AlertExt}.

Notation AM := (M (list AlertEvent) Empty_set).

Definition Alert_new {S E} (source message : string) (severity : Severity) : M S E Alert := t ← now; mret (mkAlert source message severity t).

(** ** The webhook *)

Definition is_cooled_down (w : Webhook) (source : string) : AM (bool * Webhook) :=
  if wh_cooldown w =? 0 then mret (true, w)
  else
    t ← now;
    let fired := mkWebhook (wh_url w) (wh_min_severity w) (wh_cooldown w) (<[source := t]> (wh_last_fired w)) in
    mret (match wh_last_fired w !! source with
          | Some last => if Z.max 0 (t - last) <? wh_cooldown w then (false, w) else (true, fired)
          | None => (true, fired)
          end).

Definition build_payload (w : Webhook) (a : Alert) : JsonValue :=
  let url_lower := to_lowercase (wh_url w) in
  if contains "hooks.slack.com" url_lower then
    JObj [("text", JStr ("*[" +:+ to_uppercase (severity_text (al_severity a)) +:+ "]* `" +:+ al_source a +:+ "` — " +:+ al_message a))]
  else if contains "pagerduty.com" url_lower then
    JObj [("event_action", JStr "trigger");
          ("payload", JObj [("severity", JStr (severity_text (al_severity a))); ("source", JStr (al_source a)); ("summary", JStr (al_message a));
                            ("timestamp", JStr (alert_time (al_fired_at a)))]);
          ("routing_key", JStr "")]
  else
    JObj [("fired_at", JStr (alert_time (al_fired_at a))); ("message", JStr (al_message a)); ("severity", JStr (severity_text (al_severity a)));
          ("source", JStr (al_source a))].

(** The POST: it fails, or a status comes back. *)
Definition post (url : string) (payload : JsonValue) : AM (Result string unit) :=
  r ← attempt (F:=unit) (io tt);
  match r with
  | Err _ => _ ← modify (λ tr, tr ++ [Posted url payload false]); mret (Err "Webhook POST failed")
  | Ok _ =>
      status ← rand;
      let ok := (200 <=? status) && (status <? 300) in
      _ ← modify (λ tr, tr ++ [Posted url payload ok]);
      mret (if ok then Ok tt else Err ("Webhook returned non-2xx status: " +:+ pretty status))
  end.

Definition webhook_send (w : Webhook) (a : Alert) : AM (Webhook * Result string unit) :=
  if severity_rank (al_severity a) <? severity_rank (wh_min_severity w) then mret (w, Ok tt)
  else
    b ← is_cooled_down w (al_source a);
    let '(cooled, w) := b in
    if negb cooled then mret (w, Ok tt)
    else r ← post (wh_url w) (build_payload w a); mret (w, r).

(** ** The router *)

Definition channel_send (c : Channel) (a : Alert) : AM (Channel * Result string unit) :=
  match c with
  | LogOnlyAlertChannel => _ ← modify (λ tr, tr ++ [Logged a]); mret (c, Ok tt)
  | WebhookAlertChannel w => r ← webhook_send w a; mret (WebhookAlertChannel r.1, r.2)
  end.

(** Errors are logged and dropped. *)
Fixpoint fire (a : Alert) (cs : list Channel) : AM (list Channel) :=
  match cs with
  | [] => mret []
  | c :: cs => r ← channel_send c a; rest ← fire a cs; mret (r.1 :: rest)
  end.
Definition fire_critical (source message : string) (cs : list Channel) : AM (list Channel) := a ← Alert_new source message Critical; fire a cs.
Definition fire_warning (source message : string) (cs : list Channel) : AM (list Channel) := a ← Alert_new source message Warning; fire a cs.

(** The channels of a configuration, and of the file, absent, unreadable or
    malformed. *)
Definition config_channel (cooldown_seconds : Z) (c : ChannelConfig) : option Channel :=
  if bool_decide (cc_kind c = "webhook") then
    url ← cc_url c; Some (WebhookAlertChannel (Webhook_new url (cc_min_severity c) cooldown_seconds))
  else None.
Definition load_alert_router (file : option bytes) : AM (list Channel) :=
  match file with
  | None => mret [LogOnlyAlertChannel]
  | Some bs =>
      r ← attempt (F:=unit) (io tt);
      mret (LogOnlyAlertChannel ::
            match (if is_ok r && utf8_valid bs then alerts_of bs else None) with
            | Some cfg => omap (config_channel (ac_cooldown_seconds cfg)) (ac_channels cfg)
            | None => []
            end)
  end.

(** ** Which alerts are posted *)

(** The decision at time [t], and the channel after it. *)
Definition decide_post (w : Webhook) (t : Z) (a : Alert) : bool * Webhook :=
  if severity_rank (al_severity a) <? severity_rank (wh_min_severity w) then (false, w)
  else if wh_cooldown w =? 0 then (true, w)
  else
    let fired := mkWebhook (wh_url w) (wh_min_severity w) (wh_cooldown w) (<[al_source a := t]> (wh_last_fired w)) in
    match wh_last_fired w !! al_source a with
    | Some last => if Z.max 0 (t - last) <? wh_cooldown w then (false, w) else (true, fired)
    | None => (true, fired)
    end.

(** A send posts once when the decision says so, and otherwise nothing, whatever
    becomes of the POST. *)
Lemma webhook_send_run w a W tr : let t := default 0 (head (w_clock W)) in
  ∃ r W' d, webhook_send w a (W, tr) =
    (Ok ((decide_post w t a).2, r), (W', if (decide_post w t a).1 then tr ++ [Posted (wh_url w) (build_payload w a) d] else tr)) ∧
    ((decide_post w t a).1 = false → r = Ok tt).
Proof.
  cbv zeta. unfold webhook_send, decide_post. destruct (severity_rank (al_severity a) <? _); [by eexists _, _, false|].
  assert (Hpost : ∀ w' W1, wh_url w' = wh_url w → ∃ r W' d, (r ← post (wh_url w') (build_payload w' a); mret (w', r)) (W1, tr) =
    (Ok (w', r), (W', tr ++ [Posted (wh_url w) (build_payload w a) d]))).
  { intros w' W1 Hu. assert (Hb : build_payload w' a = build_payload w a) by (unfold build_payload; by rewrite Hu). rewrite Hu, Hb.
    unfold post, attempt, io, rand, modify, mret, M_ret, mbind, M_bind. cbn. destruct (default false (head (w_io W1))); by eexists _, _, _. }
  unfold is_cooled_down. destruct (wh_cooldown w =? 0).
  { rewrite (mbind_eq _ _ _ (true, w) (W, tr)) by done. cbn [negb]. destruct (Hpost w W eq_refl) as (r&W'&d&->). by eexists _, _, _. }
  erewrite mbind_eq by (erewrite mbind_eq by (unfold now; done); done). set (t := default 0 (head (w_clock W))).
  set (w' := mkWebhook _ _ _ _). set (W1 := mkWorld _ _ _). destruct (Hpost w' W1 eq_refl) as (r&W'&d&Hp).
  destruct (wh_last_fired w !! al_source a) as [last|]; [destruct (Z.max 0 (t - last) <? wh_cooldown w)|]; cbn [negb fst snd].
  - by eexists _, _, false.
  - rewrite Hp. by eexists _, _, _.
  - rewrite Hp. by eexists _, _, _.
Qed.

(** The alerts of a sequence for which a POST is made, and the channel at the
    end. *)
Fixpoint posts (w : Webhook) (evs : list (Z * Alert)) : list (Z * Alert) :=
  match evs with
  | [] => []
  | x :: evs => let '(b, w') := decide_post w x.1 x.2 in (if b then [x] else []) ++ posts w' evs
  end.
Fixpoint after (w : Webhook) (evs : list (Z * Alert)) : Webhook :=
  match evs with [] => w | x :: evs => after (decide_post w x.1 x.2).2 evs end.

Lemma posts_app w evs1 evs2 : posts w (evs1 ++ evs2) = posts w evs1 ++ posts (after w evs1) evs2.
Proof.
  revert w. induction evs1 as [|x evs1 IH]; intros w; [done|]. cbn [app posts after]. destruct (decide_post w x.1 x.2) as [b w'].
  by rewrite IH, app_assoc.
Qed.

(** The table holds the time of the latest post of a source. *)
Definition posts_known (w : Webhook) (ps : list (Z * Alert)) : Prop :=
  ∀ source, match wh_last_fired w !! source with
            | Some last => (∃ a, (last, a) ∈ ps ∧ al_source a = source) ∧ ∀ x, x ∈ ps → al_source x.2 = source → x.1 ≤ last
            | None => ∀ x, x ∈ ps → al_source x.2 ≠ source
            end.

Lemma decide_post_known w t a ps : wh_cooldown w ≠ 0 → posts_known w ps → Forall (λ x, x.1 ≤ t) ps →
  posts_known (decide_post w t a).2 (ps ++ if (decide_post w t a).1 then [(t, a)] else []) ∧
  wh_cooldown (decide_post w t a).2 = wh_cooldown w ∧ wh_min_severity (decide_post w t a).2 = wh_min_severity w.
Proof.
  intros Hc Hk Ht. unfold decide_post. destruct (severity_rank (al_severity a) <? _); [by rewrite app_nil_r|].
  destruct (Z.eqb_spec (wh_cooldown w) 0); [done|].
  assert (Hfired : posts_known (mkWebhook (wh_url w) (wh_min_severity w) (wh_cooldown w) (<[al_source a:=t]> (wh_last_fired w))) (ps ++ [(t, a)])).
  { intros source. cbn. destruct (decide (source = al_source a)) as [->|Hne].
    - rewrite lookup_insert_eq. split; [exists a; split; [set_solver|done]|]. intros x [Hx|Hx%list_elem_of_singleton]%elem_of_app _; [|by subst x].
      rewrite Forall_forall in Ht. by apply Ht.
    - rewrite lookup_insert_ne by done. specialize (Hk source). destruct (wh_last_fired w !! source) as [last|].
      + destruct Hk as [(b&Hb&Hs) Hle]. split; [exists b; split; [set_solver|done]|].
        intros x [Hx|Hx%list_elem_of_singleton]%elem_of_app Hsx; [by apply Hle|]. subst x. cbn in Hsx. congruence.
      + intros x [Hx|Hx%list_elem_of_singleton]%elem_of_app; [by apply Hk|]. subst x. cbn. congruence. }
  destruct (wh_last_fired w !! al_source a) as [last|]; [destruct (_ <? _)|]; cbn [fst snd]; rewrite ?app_nil_r; by split_and!.
Qed.

Lemma after_known evs : ∀ w ps, wh_cooldown w ≠ 0 → posts_known w ps → StronglySorted Z.le (map fst evs) →
  (∀ x y, x ∈ ps → y ∈ evs → x.1 ≤ y.1) →
  posts_known (after w evs) (ps ++ posts w evs) ∧ wh_cooldown (after w evs) = wh_cooldown w ∧ wh_min_severity (after w evs) = wh_min_severity w.
Proof.
  induction evs as [|[t a] evs IH]; intros w ps Hc Hk Hs Hle; cbn [after posts fst snd]; [by rewrite app_nil_r|].
  cbn [map fst] in Hs. apply StronglySorted_inv in Hs as [Hs Hall].
  destruct (decide_post_known w t a ps Hc Hk) as (Hk'&Hc'&Hm'). { apply Forall_forall. intros x Hx. apply (Hle x (t, a)); set_solver. }
  destruct (decide_post w t a) as [b w'] eqn:Hd. cbn [fst snd] in *. rewrite app_assoc.
  destruct (IH w' (ps ++ if b then [(t, a)] else [])) as (H1'&H2'&H3'); [congruence|done|done| |split_and!; [done|congruence|congruence]].
  intros x y [Hx|Hx]%elem_of_app Hy; [apply Hle; set_solver|]. destruct b; [|set_solver]. apply list_elem_of_singleton in Hx as ->. cbn.
  rewrite Forall_forall in Hall. apply Hall. by apply list_elem_of_fmap_2.
Qed.

(** Exactly the alerts due are posted.  On a webhook with a cooldown, for
    alerts at times that do not decrease, an alert is posted if and only if its
    severity reaches the minimum of the channel and no alert of its source was
    posted less than the cooldown before, delivered or not. *)
Theorem webhook_posts_exact url min_severity secs pre t a : 0 < secs → StronglySorted Z.le (map fst (pre ++ [(t, a)])) →
  let w := Webhook_new url min_severity secs in
  posts w (pre ++ [(t, a)]) = posts w pre ++
    if bool_decide (severity_rank min_severity ≤ severity_rank (al_severity a) ∧
                    Forall (λ x, al_source x.2 = al_source a → secs * 10 ^ 9 ≤ t - x.1) (posts w pre)) then [(t, a)] else [].
Proof.
  intros Hsecs Hs w. rewrite posts_app. f_equal. rewrite map_app in Hs. cbn [map fst] in Hs.
  assert (Hs1 : StronglySorted Z.le (map fst pre)) by (by eapply StronglySorted_app_1_l).
  assert (Hle : ∀ x, x ∈ posts w pre → x.1 ≤ t).
  { assert (Hsub : ∀ v, posts v pre ⊆ pre).
    { clear. induction pre as [|x pre IH]; intros v; [done|]. cbn [posts]. destruct (decide_post v x.1 x.2) as [[] v']; specialize (IH v'); set_solver. }
    intros x Hx%Hsub. eapply StronglySorted_app_1_elem_of; [exact Hs|by apply list_elem_of_fmap_2|set_solver]. }
  destruct (after_known pre w []) as (Hk&Hc&Hm); [cbn; lia|intros source; cbn; rewrite lookup_empty; set_solver|done|set_solver|]. cbn [app] in Hk.
  cbn [posts fst snd]. unfold decide_post. rewrite Hc, Hm. change (wh_cooldown w) with (secs * 10 ^ 9). change (wh_min_severity w) with min_severity.
  destruct (Z.ltb_spec (severity_rank (al_severity a)) (severity_rank min_severity)); [rewrite bool_decide_false by lia; done|].
  destruct (Z.eqb_spec (secs * 10 ^ 9) 0); [lia|]. specialize (Hk (al_source a)).
  destruct (wh_last_fired (after w pre) !! al_source a) as [last|].
  - destruct Hk as [(b&Hb&Hsrc) Hmax]. destruct (Z.ltb_spec (Z.max 0 (t - last)) (secs * 10 ^ 9)) as [Hlt|Hge].
    + rewrite bool_decide_false; [done|]. intros [_ Hall]. rewrite Forall_forall in Hall. specialize (Hall _ Hb Hsrc). cbn in Hall. lia.
    + rewrite bool_decide_true; [done|]. split; [lia|]. apply Forall_forall. intros x Hx Hxs. specialize (Hmax x Hx Hxs). lia.
  - rewrite bool_decide_true; [done|]. split; [lia|]. apply Forall_forall. intros x Hx Hxs. by specialize (Hk x Hx).
Qed.

(** A critical alert after a warning of its source, and one after a POST that
    failed, are not posted within the cooldown. *)
Theorem lost_delivery_suppresses w a t b t' :
  wh_cooldown w ≠ 0 → (decide_post w t a).1 = true → al_source b = al_source a →
  t ≤ t' < t + wh_cooldown w → (decide_post (decide_post w t a).2 t' b).1 = false.
Proof.
  intros Hc Hd Hs Ht.
  assert (Hw : ∃ w', (decide_post w t a).2 = w' ∧ wh_cooldown w' = wh_cooldown w ∧ wh_last_fired w' !! al_source a = Some t).
  { revert Hd. unfold decide_post. destruct (severity_rank _ <? _); [done|]. destruct (Z.eqb_spec (wh_cooldown w) 0); [done|].
    destruct (wh_last_fired w !! al_source a) as [last|]; [destruct (Z.max 0 (t - last) <? wh_cooldown w); [done|]|]; intros _;
      eexists; (split; [reflexivity|]); cbn; rewrite lookup_insert_eq; done. }
  destruct Hw as (w'&->&Hc'&Hl). unfold decide_post. destruct (severity_rank _ <? _); [done|]. rewrite Hc'.
  destruct (Z.eqb_spec (wh_cooldown w) 0); [done|]. rewrite Hs, Hl. destruct (Z.ltb_spec (Z.max 0 (t' - t)) (wh_cooldown w)); [done|lia].
Qed.

(** ** The router reaches every channel *)

(** The log lines of an alert in a trace, and the log channels of a router. *)
Definition log_lines (tr : list AlertEvent) : nat := length (filter (λ e, match e with Logged _ => true | Posted _ _ _ => false end = true) tr).
Definition log_channels (cs : list Channel) : nat := length (filter (λ c, match c with LogOnlyAlertChannel => true | WebhookAlertChannel _ => false end = true) cs).

Lemma log_lines_snoc tr e : log_lines (tr ++ [e]) = (log_lines tr + match e with Logged _ => 1 | Posted _ _ _ => 0 end)%nat.
Proof. unfold log_lines. rewrite filter_app, length_app. by destruct e. Qed.

(** Whatever fails on the way, every log channel gets its line and the router
    keeps its channels. *)
Theorem fire_reaches_logs a cs W tr : ∃ cs' W' tr', fire a cs (W, tr) = (Ok cs', (W', tr')) ∧
  length cs' = length cs ∧ log_channels cs' = log_channels cs ∧ log_lines tr' = (log_lines tr + log_channels cs)%nat.
Proof.
  revert W tr. induction cs as [|c cs IH]; intros W tr; [exists [], W, tr; by rewrite Nat.add_0_r|]. cbn [fire].
  assert (Hc : ∃ c' r W1 tr1, channel_send c a (W, tr) = (Ok (c', r), (W1, tr1)) ∧ log_channels [c'] = log_channels [c] ∧
    log_lines tr1 = (log_lines tr + log_channels [c])%nat).
  { destruct c as [|w]; cbn [channel_send].
    - eexists _, _, _, _. split; [done|]. split; [done|]. by rewrite log_lines_snoc.
    - destruct (webhook_send_run w a W tr) as (r&W1&d&Hr&_). cbv zeta in Hr. rewrite (mbind_eq _ _ _ _ _ Hr). eexists _, _, _, _. split; [done|].
      split; [done|]. change (log_channels [WebhookAlertChannel w]) with 0%nat. destruct (decide_post _ _ _).1; [by rewrite log_lines_snoc|lia]. }
  destruct Hc as (c'&r&W1&tr1&Hc&Hlc&Hll). rewrite (mbind_eq _ _ _ _ _ Hc).
  destruct (IH W1 tr1) as (cs'&W2&tr2&Hf&Hlen&Hch&Hlog). rewrite (mbind_eq _ _ _ _ _ Hf). eexists _, _, _. split; [done|]. cbn [fst length].
  assert (Hcons : ∀ x xs, log_channels (x :: xs) = (log_channels [x] + log_channels xs)%nat) by (intros x xs; unfold log_channels; by destruct x).
  rewrite (Hcons c' cs'), (Hcons c cs), Hlc, Hch, Hlog, Hll. split_and!; [congruence|done|lia].
Qed.
End alerts.
