(* ===== verification/Instances.v ===== *)
(** * Concrete external functions

    An executable instance of everything the model takes as a parameter: a
    serializer in the manner of bincode (self-delimiting fields, one after the
    other), a 32-byte digest, a checksum, an authenticated cipher, a key
    derivation and a signature scheme.  They satisfy the documented laws the
    classes state and are used to evaluate the model on concrete inputs; no
    theorem about the program depends on them. *)

From stdpp Require Import base gmap list strings option fin_maps sorting relations pretty.
From Stdlib Require Import ZArith Lia Strings.Byte Strings.Ascii.
From S2P Require Import Prelude Bytes Crypto Money Entry WalRecord Wal Recovery Tx TxLog Page EntryDb Store StoreFrame StoreBooks StoreInv StoreReverse StoreSafety.

(** ** Stream codecs *)

Record stream_codec (A : Type) := mkSC {
  wr : A → bytes;
  rd : bytes → option (A * bytes);
  rd_wr : ∀ a rest, rd (wr a ++ rest) = Some (a, rest)
}.
Arguments wr {A} _ _.
Arguments rd {A} _ _.
Arguments rd_wr {A} _ _ _.

Definition codec_of {A} (c : stream_codec A) : Codec A.
Proof.
  refine {| enc := λ a, Some (wr c a); dec := λ bs, fst <$> rd c bs |}.
  intros a bs rest [= <-]. by rewrite rd_wr.
Defined.

(** A type through another one. *)
Definition sc_iso {A B} (c : stream_codec B) (f : A → B) (g : B → A) (gf : ∀ a, g (f a) = a) : stream_codec A.
Proof.
  refine {| wr := λ a, wr c (f a); rd := λ bs, '(b, r) ← rd c bs; Some (g b, r) |}.
  intros a rest. rewrite rd_wr. cbn. by rewrite gf.
Defined.

Definition sc_pair {A B} (c : stream_codec A) (d : stream_codec B) : stream_codec (A * B).
Proof.
  refine {| wr := λ p, wr c p.1 ++ wr d p.2; rd := λ bs, '(a, r) ← rd c bs; '(b, r) ← rd d r; Some ((a, b), r) |}.
  intros [a b] rest. cbn. rewrite <- app_assoc, rd_wr. cbn. by rewrite rd_wr.
Defined.

(** One byte per binary digit, closed by a zero byte. *)
Fixpoint pos_digits (p : positive) : bytes :=
  match p with xH => [Byte.x00] | xO p => Byte.x01 :: pos_digits p | xI p => Byte.x02 :: pos_digits p end.
Fixpoint read_pos (bs : bytes) : option (positive * bytes) :=
  match bs with
  | Byte.x00 :: r => Some (xH, r)
  | Byte.x01 :: r => '(p, r) ← read_pos r; Some (xO p, r)
  | Byte.x02 :: r => '(p, r) ← read_pos r; Some (xI p, r)
  | _ => None
  end.
Lemma read_pos_digits p rest : read_pos (pos_digits p ++ rest) = Some (p, rest).
Proof. induction p as [p IH|p IH|]; cbn; [by rewrite IH|by rewrite IH|done]. Qed.

Definition sc_Z : stream_codec Z.
Proof.
  refine {| wr := λ z, match z with Z0 => [Byte.x00] | Zpos p => Byte.x01 :: pos_digits p | Zneg p => Byte.x02 :: pos_digits p end;
    rd := λ bs, match bs with
      | Byte.x00 :: r => Some (0, r)
      | Byte.x01 :: r => '(p, r) ← read_pos r; Some (Zpos p, r)
      | Byte.x02 :: r => '(p, r) ← read_pos r; Some (Zneg p, r)
      | _ => None end |}.
  intros [|p|p] rest; cbn; [done|by rewrite read_pos_digits..].
Defined.

Definition sc_byte : stream_codec byte.
Proof. by refine {| wr := λ b, [b]; rd := λ bs, match bs with b :: r => Some (b, r) | [] => None end |}. Defined.

(** A list is its length and its elements. *)
Fixpoint read_n {A} (c : stream_codec A) (n : nat) (bs : bytes) : option (list A * bytes) :=
  match n with
  | O => Some ([], bs)
  | S n => '(a, r) ← rd c bs; '(l, r) ← read_n c n r; Some (a :: l, r)
  end.
Lemma read_n_wr {A} (c : stream_codec A) l rest :
  read_n c (length l) (concat (map (wr c) l) ++ rest) = Some (l, rest).
Proof. induction l as [|a l IH]; [done|]. cbn. rewrite <- app_assoc, rd_wr. cbn. by rewrite IH. Qed.

Definition sc_list {A} (c : stream_codec A) : stream_codec (list A).
Proof.
  refine {| wr := λ l, wr sc_Z (Z.of_nat (length l)) ++ concat (map (wr c) l);
    rd := λ bs, '(n, r) ← rd sc_Z bs; read_n c (Z.to_nat n) r |}.
  intros l rest. rewrite <- app_assoc, rd_wr. cbn [mbind option_bind]. by rewrite Nat2Z.id, read_n_wr.
Defined.

Definition sc_bytes : stream_codec bytes := sc_list sc_byte.
Definition sc_string : stream_codec string :=
  sc_iso sc_bytes String.list_byte_of_string String.string_of_list_byte String.string_of_list_byte_of_string.

Definition sc_option {A} (c : stream_codec A) : stream_codec (option A).
Proof.
  refine {| wr := λ o, match o with None => [Byte.x00] | Some a => Byte.x01 :: wr c a end;
    rd := λ bs, match bs with Byte.x00 :: r => Some (None, r) | Byte.x01 :: r => '(a, r) ← rd c r; Some (Some a, r) | _ => None end |}.
  intros [a|] rest; cbn; [by rewrite rd_wr|done].
Defined.

(** An enumeration by its position in a list. *)
Definition sc_enum {A} (code : A → Z) (of_code : Z → A) (Hc : ∀ a, of_code (code a) = a) : stream_codec A :=
  sc_iso sc_Z code of_code Hc.

Definition sc_bool : stream_codec bool.
Proof. by refine (sc_enum Z.b2z (λ z, z =? 1) _); intros []. Defined.

Infix "⊗" := sc_pair (at level 40, left associativity).

(** ** The ledger's types *)

Definition nth_or {A} (d : A) (l : list A) (z : Z) : A := default d (l !! Z.to_nat z).

Definition sc_drcr : stream_codec DrCr.
Proof. by refine (sc_enum (λ d, match d with Debit => 0 | Credit => 1 end) (nth_or Debit [Debit; Credit]) _); intros []. Defined.

Definition sc_status : stream_codec EntryStatus.
Proof.
  by refine (sc_enum (λ s, Z_of_byte (status_u8 s))
    (nth_or Posted [Posted; Reversed; Reversal; PendingApproval; Rejected; Pending; Settled; Failed]) _); intros [].
Defined.

Definition sc_line : stream_codec JournalLine.
Proof.
  by refine (sc_iso (sc_Z ⊗ sc_Z ⊗ sc_string ⊗ sc_Z ⊗ sc_drcr ⊗ sc_option sc_string)
    (λ l, (ln_id l, ln_account_id l, ln_currency_code l, amount_i64 (ln_amount l), ln_dr_cr l, ln_memo l))
    (λ '(i, a, c, m, d, o), mkLine i a c (MkAmount m) d o) _); intros [? ? ? [?] ? ?].
Defined.

Definition sc_entry : stream_codec JournalEntry.
Proof.
  by refine (sc_iso (sc_Z ⊗ sc_Z ⊗ sc_status ⊗ sc_string ⊗ sc_list sc_line ⊗ sc_Z ⊗ sc_Z ⊗ sc_option sc_string ⊗
      sc_option sc_string ⊗ sc_option sc_Z ⊗ sc_option sc_Z ⊗ sc_string ⊗ sc_bytes ⊗ sc_bytes ⊗ sc_bytes ⊗
      sc_option sc_string ⊗ sc_option sc_string)
    (λ e, (e_id e, e_sequence e, e_status e, e_description e, e_lines e, e_effective_at e, e_posted_at e, e_external_ref e,
      e_idempotency_key e, e_reverses_entry_id e, e_reversed_by_entry_id e, e_domain e, e_content_hash e, e_prev_hash e,
      e_chain_hash e, e_approved_by e, e_metadata e))
    (λ '(a, b, c, d, e, f, g, h, i, j, k, l, m, n, o, p, q), mkEntry a b c d e f g h i j k l m n o p q) _); intros [].
Defined.

Definition sc_account_type : stream_codec AccountType.
Proof.
  by refine (sc_enum (λ t, match t with Asset => 0 | Liability => 1 | Equity => 2 | Income => 3 | Expense => 4 | Contra => 5 | Suspense => 6 end)
    (nth_or Asset [Asset; Liability; Equity; Income; Expense; Contra; Suspense]) _); intros [].
Defined.

Definition sc_account_status : stream_codec AccountStatus.
Proof.
  by refine (sc_enum (λ t, match t with Money.Active => 0 | Money.Closed => 1 | Money.Frozen => 2 end)
    (nth_or Money.Active [Money.Active; Money.Closed; Money.Frozen]) _); intros [].
Defined.

Definition sc_account : stream_codec Account.
Proof.
  by refine (sc_iso (sc_Z ⊗ sc_string ⊗ sc_string ⊗ sc_account_type ⊗ sc_string ⊗ sc_account_status ⊗ sc_bool ⊗ sc_option sc_Z ⊗
      sc_bool ⊗ sc_option sc_Z ⊗ sc_Z ⊗ sc_string ⊗ sc_bool)
    (λ a, (acc_id a, acc_code a, acc_name a, account_type a, currency_code a, acc_status a, require_non_negative_balance a,
      exposure_limit a, require_four_eyes a, parent_id a, created_at a, acc_domain a, legal_hold a))
    (λ '(a, b, c, d, e, f, g, h, i, j, k, l, m), mkAccount a b c d e f g h i j k l m) _); intros [].
Defined.

#[global] Instance toy_ledger_codecs : LedgerCodecs :=
  {| entry_codec := codec_of sc_entry; account_codec := codec_of sc_account |}.

(** ** The log's types *)

Definition sc_begin : stream_codec BeginPayload.
Proof. by refine (sc_iso (sc_option sc_string) bp_description mkBegin _); intros []. Defined.

Definition sc_mutation : stream_codec MutationKind.
Proof.
  by refine (sc_enum (λ k, match k with Insert => 0 | Update => 1 | Delete => 2 end) (nth_or Insert [Insert; Update; Delete]) _); intros [].
Defined.

Definition sc_data : stream_codec DataPayload.
Proof.
  by refine (sc_iso (sc_Z ⊗ sc_Z ⊗ sc_Z ⊗ sc_mutation ⊗ sc_bytes ⊗ sc_bytes ⊗ sc_option sc_bytes)
    (λ d, (dp_table_id d, dp_page_id d, dp_slot_id d, dp_mutation d, dp_row_data d, dp_row_hash d, dp_prev_hash d))
    (λ '(a, b, c, d, e, f, g), mkData a b c d e f g) _); intros [].
Defined.

Definition sc_commit : stream_codec CommitPayload.
Proof.
  by refine (sc_iso (sc_Z ⊗ sc_bytes ⊗ sc_bytes ⊗ sc_bytes)
    (λ c, (cp_record_count c, cp_tx_hash c, cp_signature c, cp_signer_pubkey c)) (λ '(a, b, c, d), mkCommit a b c d) _); intros [].
Defined.

Definition sc_checkpoint : stream_codec CheckpointPayload.
Proof.
  by refine (sc_iso (sc_Z ⊗ sc_bytes ⊗ sc_bytes ⊗ sc_bytes)
    (λ c, (ck_last_committed_sequence c, ck_page_merkle_root c, ck_root_signature c, ck_signer_pubkey c))
    (λ '(a, b, c, d), mkCheckpoint a b c d) _); intros [].
Defined.

(** *** Fixed-width headers *)

#[global] Instance header_ok_dec h : Decision (header_ok h).
Proof. unfold header_ok, u64_ok, i64_ok, u32_ok. apply _. Defined.

#[global] Instance page_header_ok_dec h : Decision (page_header_ok h).
Proof. unfold page_header_ok, u64_ok, u32_ok, u16_ok, hash_ok. apply _. Defined.

(** Read [n] bytes as an integer and pass the rest on. *)
Definition with_le {B} (n : nat) (bs : bytes) (k : Z → bytes → B) : B := k (le_val (take n bs)) (drop n bs).

Lemma with_le_app {B} n z rest (k : Z → bytes → B) :
  0 ≤ z < 256 ^ Z.of_nat n → with_le n (le_bytes n z ++ rest) k = k z rest.
Proof.
  intros Hz. unfold with_le. rewrite take_app_length', drop_app_length' by (by rewrite le_bytes_length).
  by rewrite le_val_bytes, Z.mod_small.
Qed.

Definition header_of (bs : bytes) : RecordHeader :=
  with_le 4 bs (λ m bs, with_le 1 bs (λ v bs, with_le 1 bs (λ t bs, with_le 8 bs (λ x bs,
  with_le 8 bs (λ s bs, with_le 8 bs (λ ns bs, with_le 4 bs (λ l bs, mkHeader m v t x s (as_i64 ns) l))))))).

Lemma as_i64_mod z : i64_ok z → as_i64 (z mod 2 ^ 64) = z.
Proof.
  unfold i64_ok, as_i64. intros Hz. rewrite Z.mod_mod by lia. destruct (decide (0 ≤ z)) as [Hp|Hn].
  - rewrite Z.mod_small by lia. destruct (Z.ltb_spec z (2 ^ 63)); lia.
  - assert (Hm : z mod 2 ^ 64 = z + 2 ^ 64) by (symmetry; apply (Z.mod_unique_pos z (2 ^ 64) (-1)); lia).
    rewrite Hm. destruct (Z.ltb_spec (z + 2 ^ 64) (2 ^ 63)); lia.
Qed.

Lemma with_le64s {B} z rest (k : Z → bytes → B) : with_le 8 (le64 z ++ rest) k = k (z mod 2 ^ 64) rest.
Proof.
  unfold with_le, le64. rewrite take_app_length', drop_app_length' by (by rewrite le_bytes_length).
  by rewrite le_val_bytes.
Qed.

Lemma header_of_fields h rest : header_ok h → header_of (header_fields h ++ rest) = h.
Proof.
  destruct h as [m v t x s ns l]. unfold header_ok, u64_ok, u32_ok. cbn. intros (Hm & Hv & Ht & Hx & Hs & Hns & Hl).
  unfold header_of, header_fields; cbn [h_magic h_version h_record_type h_tx_id h_sequence h_timestamp_ns h_payload_len].
  rewrite <- !app_assoc. unfold le32, le64 at 1 2. rewrite !with_le_app by (cbn; lia). rewrite with_le64s.
  rewrite with_le_app by (cbn; lia). by rewrite as_i64_mod.
Qed.

Definition header_codec_le : Codec RecordHeader.
Proof.
  refine {| enc := λ h, if decide (header_ok h) then Some (header_fields h) else None;
    dec := λ bs, if (HEADER_SIZE <=? length bs)%nat then Some (header_of bs) else None |}.
  intros h bs rest. case_decide as Hok; [|done]. intros [= <-].
  rewrite (proj2 (Nat.leb_le _ _)) by (rewrite length_app, header_fields_length; lia).
  by rewrite header_of_fields.
Defined.

Definition page_header_of (bs : bytes) : PageHeader :=
  with_le 4 bs (λ m bs, with_le 1 bs (λ v bs, with_le 1 bs (λ f bs, with_le 8 bs (λ p bs,
  with_le 4 bs (λ t bs, with_le 8 bs (λ pp bs, with_le 2 bs (λ n bs, with_le 2 bs (λ fr bs,
  let h := take 32 bs in with_le 4 (drop 32 bs) (λ c bs, mkPageHeader m v f p t pp n fr h c))))))))).

Lemma page_header_of_fields h rest : page_header_ok h → page_header_of (page_header_fields h ++ rest) = h.
Proof.
  destruct h as [m v f p t pp n fr c crc]. unfold page_header_ok, u64_ok, u32_ok, u16_ok, hash_ok. cbn.
  intros (Hm & Hv & Hf & Hp & Ht & Hpp & Hn & Hfr & Hc & Hcrc).
  unfold page_header_of, page_header_fields, page_header_front;
    cbn [ph_magic ph_version ph_flags ph_page_id ph_table_id ph_prev_page_id ph_slot_count ph_free_bytes ph_content_hash ph_crc32].
  rewrite <- !app_assoc. unfold le32, le64, le16. rewrite !with_le_app by (cbn; lia).
  rewrite take_app_length', drop_app_length' by done. by rewrite with_le_app by (cbn; lia).
Qed.

Definition page_header_codec_le : Codec PageHeader.
Proof.
  refine {| enc := λ h, if decide (page_header_ok h) then Some (page_header_fields h) else None;
    dec := λ bs, if (PH_SIZE <=? length bs)%nat then Some (page_header_of bs) else None |}.
  intros h bs rest. case_decide as Hok; [|done]. intros [= <-].
  assert (Hl : length (page_header_fields h) = PH_SIZE).
  { unfold page_header_fields, page_header_front. rewrite !length_app. destruct Hok as (_&_&_&_&_&_&_&_&Hh&_).
    unfold hash_ok in Hh. unfold le32, le64, le16. by rewrite Hh, !le_bytes_length. }
  rewrite (proj2 (Nat.leb_le _ _)) by (rewrite length_app, Hl; lia). by rewrite page_header_of_fields.
Defined.

#[global] Instance toy_page_ext : PageExt.
Proof.
  refine {| page_header_codec := page_header_codec_le |}. intros h Hok. cbn. by rewrite decide_True.
Defined.

(** ** Digests, ciphers, signatures *)

Definition mix (m : bytes) : Z := fold_left (λ acc b, Z.land (acc * 31 + Z_of_byte b + 1) 0xffffffffffff) m 7.
Definition toy_digest (m : bytes) : bytes := le_bytes 32 (mix m).

#[global] Instance toy_blake3 : Blake3.
Proof. refine {| blake3 := toy_digest |}. intros m. apply le_bytes_length. Defined.

Definition toy_tag (k n a m : bytes) : bytes := take 16 (toy_digest (k ++ n ++ a ++ m)).
Definition toy_encrypt (k n a m : bytes) : option bytes := Some (m ++ toy_tag k n a m).
Definition toy_decrypt (k n a c : bytes) : option bytes :=
  let m := take (length c - 16) c in
  if bool_decide (drop (length c - 16) c = toy_tag k n a m) then Some m else None.

Lemma toy_tag_length k n a m : length (toy_tag k n a m) = 16%nat.
Proof. unfold toy_tag, toy_digest. by rewrite length_take, le_bytes_length. Qed.

#[global] Instance toy_wal_ext : WalExt.
Proof.
  refine {| header_codec := header_codec_le; begin_codec := codec_of sc_begin; data_codec := codec_of sc_data;
    commit_codec := codec_of sc_commit; checkpoint_codec := codec_of sc_checkpoint;
    crc32 := λ m, mix m mod 2 ^ 32; hkdf_expand := λ k ctx, Some (toy_digest (k ++ ctx));
    aead_encrypt := toy_encrypt; aead_decrypt := toy_decrypt |}.
  - intros h Hok. cbn. by rewrite decide_True.
  - intros m. unfold u32_ok. apply Z.mod_pos_bound. lia.
  - intros k n a m c [= <-]. unfold toy_decrypt. rewrite length_app, toy_tag_length, Nat.add_sub.
    by rewrite take_app_length, drop_app_length, bool_decide_true.
  - intros k n a m c [= <-]. by rewrite length_app, toy_tag_length.
Defined.

Definition toy_public (sk : Z) : bytes := le_bytes 32 sk.
Definition toy_sign (pk m : bytes) : bytes := toy_digest (pk ++ m) ++ toy_digest (m ++ pk).

#[global] Instance toy_ed25519 : Ed25519.
Proof.
  refine {| SigningKey := Z; ed_sign := λ sk m, toy_sign (toy_public sk) m; ed_public := toy_public;
    ed_key_valid := λ pk, bool_decide (length pk = 32%nat); ed_verify := λ pk m sig, bool_decide (sig = toy_sign pk m) |}.
  - intros sk m. by apply bool_decide_true.
  - intros sk. apply bool_decide_true. apply le_bytes_length.
  - intros sk m. unfold toy_sign, toy_digest. by rewrite length_app, !le_bytes_length.
  - intros sk. apply le_bytes_length.
Defined.

(** ** The store's *)

Definition sc_reversal : stream_codec ReversalEvent.
Proof.
  by refine (sc_iso (sc_Z ⊗ sc_Z ⊗ sc_Z) (λ r, (re_original_entry_id r, re_reversal_entry_id r, re_reversed_at r))
    (λ '(a, b, c), mkReversalEvent a b c) _); intros [].
Defined.
Definition sc_settlement : stream_codec SettlementEvent.
Proof.
  by refine (sc_iso (sc_Z ⊗ sc_status ⊗ sc_Z ⊗ sc_option sc_string) (λ r, (sv_entry_id r, sv_new_status r, sv_settled_at r, sv_notes r))
    (λ '(a, b, c, d), mkSettlementEvent a b c d) _); intros [].
Defined.
Definition sc_reconciliation : stream_codec ReconciliationRecord.
Proof.
  by refine (sc_iso (sc_Z ⊗ sc_Z ⊗ sc_Z ⊗ sc_Z ⊗ sc_Z ⊗ sc_string ⊗ sc_Z ⊗ sc_string)
    (λ r, (rn_id r, rn_run_at r, rn_entries_scanned r, rn_accounts_checked r, rn_discrepancy_count r, rn_discrepancy_json r,
      rn_ledger_sequence_at_run r, rn_chain_tip_at_run r))
    (λ '(a, b, c, d, e, f, g, h), mkReconciliation a b c d e f g h) _); intros [].
Defined.

#[global] Instance toy_ledger_ext : LedgerExt :=
  {| reversal_codec := codec_of sc_reversal; settlement_codec := codec_of sc_settlement;
     reconciliation_codec := codec_of sc_reconciliation; uuid_string := pretty; hex_encode := String.string_of_list_byte;
     discrepancy_json := λ ds, pretty (Z.of_nat (length ds)); hash_order := λ A l, l; hash_order_perm := λ A l, Permutation_refl l |}.

(** ** Sizes *)

Lemma pos_digits_length p : length (pos_digits p) = Pos.size_nat p.
Proof. induction p as [p IH|p IH|]; cbn; by rewrite ?IH. Qed.

Lemma size_nat_le p n : Zpos p < 2 ^ Z.of_nat n → (Pos.size_nat p ≤ n)%nat.
Proof.
  revert n. induction p as [p IH|p IH|]; intros [|n] Hp; cbn [Pos.size_nat]; try (cbn in Hp; lia);
    (rewrite Nat2Z.inj_succ, Z.pow_succ_r in Hp by lia; assert (Zpos p < 2 ^ Z.of_nat n) as ?%IH by lia; lia) || lia.
Qed.

Lemma sc_Z_length z : 0 ≤ z < 2 ^ 64 → (length (wr sc_Z z) ≤ 65)%nat.
Proof.
  destruct z as [|p|p]; cbn [wr sc_Z length]; [cbn; lia| |lia]. intros [_ Hp]. rewrite pos_digits_length.
  pose proof (size_nat_le p 64 Hp). lia.
Qed.

Lemma concat_bytes_length (bs : bytes) : length (concat (map (wr sc_byte) bs)) = length bs.
Proof. induction bs as [|b bs IH]; [done|]. cbn. by f_equal. Qed.

Lemma sc_bytes_length bs : Z.of_nat (length bs) < 2 ^ 64 → (length (wr sc_bytes bs) ≤ 65 + length bs)%nat.
Proof.
  intros Hb. change (wr sc_bytes bs) with (wr sc_Z (Z.of_nat (length bs)) ++ concat (map (wr sc_byte) bs)). rewrite length_app, concat_bytes_length. pose proof (sc_Z_length (Z.of_nat (length bs))). lia.
Qed.

Lemma list_byte_length s : length (String.list_byte_of_string s) = String.length s.
Proof.
  unfold String.list_byte_of_string. rewrite length_map. induction s as [|c s IH]; [done|]. cbn. by f_equal.
Qed.

(** The payloads of the store are far below the limit in this format too. *)
#[global] Instance toy_small_records : SmallRecords.
Proof.
  constructor; unfold fits, MAX_RECORD_PAYLOAD.
  - intros [t|] Ht bs [= <-]; [|cbn; lia]. specialize (Ht t eq_refl).
    change (Z.of_nat (length (Byte.x01 :: wr sc_bytes (String.list_byte_of_string t))) ≤ 64 * 1024 * 1024 - 54).
    pose proof (sc_bytes_length (String.list_byte_of_string t)) as Hl. rewrite list_byte_length in Hl. cbn [length]. lia.
  - intros [t p s k row h prev] (Ht & Hp & Hs & Hrow & Hh & Hprev) bs He.
    change (Some (wr sc_data (mkData t p s k row h prev)) = Some bs) in He. apply (inj Some) in He. subst bs. cbn in Ht, Hp, Hs, Hrow, Hh, Hprev.
    unfold u32_ok, u64_ok, u16_ok, hash_ok, MAX_ROW in *.
    assert (Hpv : (length (wr (sc_option sc_bytes) prev) ≤ 98)%nat).
    { destruct prev as [x|]; [|cbn; lia]. specialize (Hprev x eq_refl). pose proof (sc_bytes_length x).
      change (length (Byte.x01 :: wr sc_bytes x) ≤ 98)%nat. cbn [length]. lia. }
    assert (Hk : (length (wr sc_mutation k) ≤ 4)%nat) by (destruct k; cbn; lia).
    change (wr sc_data (mkData t p s k row h prev)) with
      (((((((wr sc_Z t ++ wr sc_Z p) ++ wr sc_Z s) ++ wr sc_mutation k) ++ wr sc_bytes row) ++ wr sc_bytes h) ++ wr (sc_option sc_bytes) prev)).
    rewrite !length_app. pose proof (sc_Z_length t). pose proof (sc_Z_length p). pose proof (sc_Z_length s).
    pose proof (sc_bytes_length row). pose proof (sc_bytes_length h). lia.
  - intros [n h sg pk] (Hn & Hh & Hs & Hp) bs He.
    change (Some (wr sc_commit (mkCommit n h sg pk)) = Some bs) in He. apply (inj Some) in He. subst bs. cbn in Hn, Hh, Hs, Hp. unfold u32_ok, hash_ok in *.
    change (wr sc_commit (mkCommit n h sg pk)) with (((wr sc_Z n ++ wr sc_bytes h) ++ wr sc_bytes sg) ++ wr sc_bytes pk).
    rewrite !length_app. pose proof (sc_Z_length n). pose proof (sc_bytes_length h). pose proof (sc_bytes_length sg).
    pose proof (sc_bytes_length pk). lia.
  - intros [n h sg pk] (Hn & Hh & Hs & Hp) bs He.
    change (Some (wr sc_checkpoint (mkCheckpoint n h sg pk)) = Some bs) in He. apply (inj Some) in He. subst bs. cbn in Hn, Hh, Hs, Hp. unfold u64_ok, hash_ok in *.
    change (wr sc_checkpoint (mkCheckpoint n h sg pk)) with (((wr sc_Z n ++ wr sc_bytes h) ++ wr sc_bytes sg) ++ wr sc_bytes pk).
    rewrite !length_app. pose proof (sc_Z_length n). pose proof (sc_bytes_length h). pose proof (sc_bytes_length sg).
    pose proof (sc_bytes_length pk). lia.
Defined.

#[global] Instance toy_total_records : TotalRecords.
Proof. constructor; intros p; by eexists. Defined.

(** * A concrete ledger

    A store opened on an empty directory, two accounts, a posted entry, a
    reversal and a legal hold, evaluated with the functions above.  The witnesses
    of the theorems about the store use these states. *)

(** Running one operation without failures. *)
Definition exec {A} (m : LM A) (s : LedgerStore) : LedgerStore := (m (quiet, s)).2.2.
Definition world_after {A} (m : LM A) (s : LedgerStore) : World := (m (quiet, s)).2.1.

Lemma run_exec {A} (m : LM A) s r : (m (quiet, s)).1 = r → m (quiet, s) = (r, (world_after m s, exec m s)).
Proof. unfold world_after, exec. destruct (m (quiet, s)) as [r0 [W0 s0]]. by intros <-. Qed.

Definition cash : Account := Account_new 1 0 "1000" "Cash" Asset "usd" "main".
Definition loan : Account := Account_new 2 0 "2000" "Loan" Liability "usd" "main".
Definition usd_line (id account amount : Z) (d : DrCr) : JournalLine := mkLine id account "USD" (MkAmount amount) d None.

Definition borrow : JournalEntry :=
  mkEntry 10 0 Posted "borrow" [usd_line 1 1 500 Debit; usd_line 2 2 500 Credit] 3 0 None (Some "key-1"%string)
    None None "main" ZERO_HASH ZERO_HASH ZERO_HASH None None.
(** An entry that does not balance. *)
Definition lopsided : JournalEntry :=
  mkEntry 11 0 Posted "lopsided" [usd_line 1 1 500 Debit; usd_line 2 2 400 Credit] 3 0 None None
    None None "main" ZERO_HASH ZERO_HASH ZERO_HASH None None.

(** The store opened on an empty directory, with a signing key. *)
Definition opened : Result LedgerError LedgerStore := open_store false PerRecord (empty_dir (Some 5)) quiet.
Definition s0 : LedgerStore :=
  match opened with Ok s => s | Err _ => initial_store (mkManager (open_with_options ∅ 0 PerRecord None) 0 ∅ ∅ 0 None) (empty_dir None) end.
Definition s1 : LedgerStore := exec (create_account cash) s0.
Definition s2 : LedgerStore := exec (create_account loan) s1.
Definition s3 : LedgerStore := exec (post_entry borrow) s2.
Definition s4 : LedgerStore := exec (reverse_entry 10 "undo" "main") s3.
Definition s_held : LedgerStore := exec (place_legal_hold 1) s3.

Lemma opened_s0 : opened = Ok s0.
Proof. unfold s0. assert (Hok : is_ok opened = true) by (vm_compute; reflexivity). by destruct opened. Qed.

Lemma steps_refl s : steps s s.
Proof. apply rtc_refl. Qed.
Lemma steps_then s s' s'' o : steps s s' → store_step s' o s'' → steps s s''.
Proof. intros Hs Ho. eapply rtc_r; [exact Hs|]. by exists o. Qed.

Lemma create_step s a : ls_accounts s !! acc_id a = None → store_step s (OpCreate a) (exec (create_account a) s).
Proof. intros Hn. exact (step_create s a quiet _ _ _ eq_refl Hn (run_exec (create_account a) s _ eq_refl)). Qed.
Lemma post_step s e : ls_next_sequence s < 2 ^ 63 → e_content_hash e = ZERO_HASH → store_step s (OpPost e) (exec (post_entry e) s).
Proof. intros Hlt Hz. exact (step_post s e quiet _ _ _ eq_refl Hlt Hz (run_exec (post_entry e) s _ eq_refl)). Qed.
Lemma reverse_step s id de dm : ls_next_sequence s < 2 ^ 63 → store_step s (OpReverse id de dm) (exec (reverse_entry id de dm) s).
Proof. intros Hlt. exact (step_reverse s id de dm quiet _ _ _ eq_refl Hlt (run_exec (reverse_entry id de dm) s _ eq_refl)). Qed.
Lemma hold_step s id : store_step s (OpHold id true) (exec (place_legal_hold id) s).
Proof. exact (step_hold s id true quiet _ _ _ eq_refl (run_exec (place_legal_hold id) s _ eq_refl)). Qed.

Lemma reachable_s0 : reachable s0.
Proof. exists PerRecord, (Some 5), quiet, s0. split_and!; [done|apply opened_s0|apply steps_refl]. Qed.

Lemma reachable_then s s' : reachable s → steps s s' → reachable s'.
Proof.
  intros (mode & sk & W & s00 & Hio & Ho & Hst) Hs. exists mode, sk, W, s00. split_and!; [done..|].
  unfold steps, steps_of in *. by etransitivity.
Qed.

Lemma step_1 : store_step s0 (OpCreate cash) s1.
Proof. apply create_step. by vm_compute. Qed.
Lemma step_2 : store_step s1 (OpCreate loan) s2.
Proof. apply create_step. by vm_compute. Qed.
Lemma step_3 : store_step s2 (OpPost borrow) s3.
Proof. apply post_step; by vm_compute. Qed.
Lemma step_4 : store_step s3 (OpReverse 10 "undo" "main") s4.
Proof. apply reverse_step. by vm_compute. Qed.
Lemma step_held_s3 : store_step s3 (OpHold 1 true) s_held.
Proof. apply hold_step. Qed.

Lemma steps_s2 : steps s0 s2.
Proof. eapply steps_then; [eapply steps_then; [apply steps_refl|apply step_1]|apply step_2]. Qed.
Lemma reachable_s2 : reachable s2.
Proof. apply (reachable_then s0); [apply reachable_s0|apply steps_s2]. Qed.
Lemma steps_s2_s3 : steps s2 s3.
Proof. eapply steps_then; [apply steps_refl|apply step_3]. Qed.
Lemma reachable_s3 : reachable s3.
Proof. apply (reachable_then s2); [apply reachable_s2|apply steps_s2_s3]. Qed.
Lemma steps_s3_s4 : steps s3 s4.
Proof. eapply steps_then; [apply steps_refl|apply step_4]. Qed.
Lemma reachable_s4 : reachable s4.
Proof. apply (reachable_then s3); [apply reachable_s3|apply steps_s3_s4]. Qed.
