(* ===== verification/OpsInstances.v ===== *)
(** * Concrete external functions of the operations around the ledger

    Executable instances of the classes of [Jsonl], [AuditTrail], [FourEyes] and
    [SqlExec], then of replication, the users and the server: hexadecimal text, a line format in the place of JSON (a brace
    and the hexadecimal digits of the fields), dates and identifiers in
    decimal.  They show that the laws the classes state can hold and evaluate
    the model on concrete inputs. *)

From stdpp Require Import base gmap list strings option fin_maps pretty.
From Stdlib Require Import ZArith Lia Strings.Byte.
From S2P Require Import Prelude Bytes Jsonl Crypto Money Entry AuditTrail FourEyes SqlGuard WalRecord Wal Recovery Replication Tx Page EntryDb Sql Store SqlExec SqlPlan UserAuth Server Instances.

(** ** Hexadecimal *)

Definition hex_digit (n : Z) : byte := byte_of_Z (if n <? 10 then 48 + n else 87 + n).
Definition digit_of_hex (b : byte) : option Z :=
  let c := Z_of_byte b in
  if (48 <=? c) && (c <=? 57) then Some (c - 48) else if (97 <=? c) && (c <=? 102) then Some (c - 87) else None.

Definition hex_pair (b : byte) : bytes := [hex_digit (Z_of_byte b / 16); hex_digit (Z_of_byte b mod 16)].
Definition to_hex (bs : bytes) : bytes := concat (map hex_pair bs).
Fixpoint of_hex (l : bytes) : option bytes :=
  match l with
  | [] => Some []
  | h :: l :: r => a ← digit_of_hex h; b ← digit_of_hex l; cons (byte_of_Z (16 * a + b)) <$> of_hex r
  | [_] => None
  end.

Lemma hex_pair_digits b :
  digit_of_hex (hex_digit (Z_of_byte b / 16)) = Some (Z_of_byte b / 16) ∧
  digit_of_hex (hex_digit (Z_of_byte b mod 16)) = Some (Z_of_byte b mod 16).
Proof. by destruct b. Qed.

Lemma hex_pair_text b : Forall (λ c, 32 ≤ Z_of_byte c ≤ 127) (hex_pair b).
Proof. by destruct b; repeat constructor. Qed.

Lemma of_to_hex bs : of_hex (to_hex bs) = Some bs.
Proof.
  induction bs as [|b bs IH]; [done|]. unfold to_hex in *. cbn [map concat hex_pair app of_hex].
  destruct (hex_pair_digits b) as [-> ->]. cbn. rewrite IH. cbn.
  by rewrite <- Z.div_mod, byte_of_Z_of_byte by done.
Qed.

Lemma to_hex_digits bs : Forall (λ c, 48 ≤ Z_of_byte c ≤ 102) (to_hex bs).
Proof.
  induction bs as [|b bs IH]; [constructor|]. unfold to_hex in *. cbn [map concat]. apply Forall_app. split; [|done].
  by destruct b; repeat constructor.
Qed.
Lemma of_hex_length l bs : of_hex l = Some bs → length l = (2 * length bs)%nat.
Proof.
  assert (Hn : ∀ n l bs, (length l ≤ n)%nat → of_hex l = Some bs → length l = (2 * length bs)%nat); [|by eapply Hn].
  clear. induction n as [|n IH]; intros [|a [|b r]] bs Hl; cbn in *; try lia; try (by intros [= <-]); try done.
  destruct (digit_of_hex a); [|done]. cbn. destruct (digit_of_hex b); [|done]. cbn. destruct (of_hex r) as [bs'|] eqn:Hr; [|done].
  cbn. intros [= <-]. cbn. apply IH in Hr; [lia|lia].
Qed.

#[global] Instance toy_hex : Hex.
Proof.
  refine {| hex_enc := to_hex; hex_dec := of_hex; hex_roundtrip := of_to_hex |}.
  - intros bs. induction bs as [|b bs IH]; [done|]. unfold to_hex in *. cbn in *. lia.
  - apply to_hex_digits.
  - apply of_hex_length.
Defined.

(** ** Lines of text *)

Lemma ascii_utf8 l : Forall (λ c, 32 ≤ Z_of_byte c ≤ 127) l → is_Some (utf8_decode l).
Proof.
  induction l as [|b l IH]; [by eexists|]. intros [Hb Hl]%Forall_cons. destruct (IH Hl) as [cs Hcs].
  cbn. destruct (Z.leb_spec (Z_of_byte b) 127); [|lia]. rewrite Hcs. by eexists.
Qed.

Lemma to_hex_text bs : Forall (λ c, 32 ≤ Z_of_byte c ≤ 127) (to_hex bs).
Proof. induction bs as [|b bs IH]; [constructor|]. unfold to_hex in *. cbn [map concat]. apply Forall_app. auto using hex_pair_text. Qed.

Definition brace : byte := Byte.x7b.

(** A value [ok] accepts, as a line. *)
Definition line_json {A} (c : stream_codec A) (ok : A → bool) : Json A.
Proof.
  refine {| to_json := λ a, if ok a then Some (brace :: to_hex (wr c a)) else None;
    from_json := λ l, bs ← of_hex (tail l); '(a, r) ← rd c bs; if ok a then Some a else None |}.
  - intros a l. destruct (ok a) eqn:Ha; [|done]. intros [= <-]. cbn [tail]. rewrite of_to_hex. cbn.
    pose proof (rd_wr c a []) as Hr. rewrite app_nil_r in Hr. rewrite Hr. cbn. by rewrite Ha.
  - intros a l. destruct (ok a); [|done]. intros [= <-].
    assert (Hl : Forall (λ c, 32 ≤ Z_of_byte c ≤ 127) (brace :: to_hex (wr c a))) by (constructor; [by vm_compute|apply to_hex_text]).
    split_and!.
    + unfold utf8_valid. by apply bool_decide_true, ascii_utf8.
    + eapply Forall_impl; [exact Hl|]. cbn. lia.
    + unfold blank. cbn. destruct (ascii_utf8 (to_hex (wr c a)) (to_hex_text _)) as [cs ->]. done.
Defined.

(** ** The audit log's types *)

Definition sc_sum {A B} (c : stream_codec A) (d : stream_codec B) : stream_codec (A + B).
Proof.
  refine {| wr := λ s, match s with inl a => Byte.x00 :: wr c a | inr b => Byte.x01 :: wr d b end;
    rd := λ bs, match bs with
      | Byte.x00 :: r => '(a, r) ← rd c r; Some (inl a, r)
      | Byte.x01 :: r => '(b, r) ← rd d r; Some (inr b, r)
      | _ => None end |}.
  intros [a|b] rest; cbn; by rewrite rd_wr.
Defined.

Infix "⊕" := sc_sum (at level 50, left associativity).

Definition sc_kind : stream_codec AuditEventKind.
Proof.
  refine (sc_iso
    (sc_string ⊗ sc_string ⊗ sc_Z ⊗ sc_Z ⊕ sc_Z ⊗ sc_Z ⊗ sc_string ⊗ sc_Z ⊗ sc_string ⊕ sc_Z ⊗ sc_string ⊗ sc_string ⊗ sc_string
     ⊕ sc_Z ⊗ sc_string ⊕ sc_string ⊗ sc_string ⊕ sc_Z ⊗ sc_string ⊗ sc_string ⊕ sc_string ⊗ sc_bool ⊗ sc_string
     ⊕ sc_Z ⊗ sc_Z ⊗ sc_string ⊗ sc_string ⊕ sc_Z ⊗ sc_string ⊕ sc_Z ⊗ sc_string ⊗ sc_string ⊕ sc_string ⊗ sc_Z ⊗ sc_string
     ⊕ sc_list sc_string ⊗ sc_string ⊕ sc_string ⊗ sc_string)
    (λ k, match k with
      | ServerStarted a b => inr (a, b)
      | KeyRotationStarted a b => inl (inr (a, b))
      | BackupCreated a b c => inl (inl (inr (a, b, c)))
      | FourEyesRejected a b c => inl (inl (inl (inr (a, b, c))))
      | FourEyesApproved a b => inl (inl (inl (inl (inr (a, b)))))
      | FourEyesSubmitted a b c d => inl (inl (inl (inl (inl (inr (a, b, c, d))))))
      | AuthEvent a b c => inl (inl (inl (inl (inl (inl (inr (a, b, c)))))))
      | ReplicationEvent a b c => inl (inl (inl (inl (inl (inl (inl (inr (a, b, c))))))))
      | KeyRotated a b => inl (inl (inl (inl (inl (inl (inl (inl (inr (a, b)))))))))
      | AccountClosed a b => inl (inl (inl (inl (inl (inl (inl (inl (inl (inr (a, b))))))))))
      | AccountCreated a b c d => inl (inl (inl (inl (inl (inl (inl (inl (inl (inl (inr (a, b, c, d)))))))))))
      | EntryPosted a b c d e => inl (inl (inl (inl (inl (inl (inl (inl (inl (inl (inl (inr (a, b, c, d, e))))))))))))
      | QueryExecuted a b c d => inl (inl (inl (inl (inl (inl (inl (inl (inl (inl (inl (inl (a, b, c, d))))))))))))
      end)
    (λ s, match s with
      | inr (a, b) => ServerStarted a b
      | inl (inr (a, b)) => KeyRotationStarted a b
      | inl (inl (inr (a, b, c))) => BackupCreated a b c
      | inl (inl (inl (inr (a, b, c)))) => FourEyesRejected a b c
      | inl (inl (inl (inl (inr (a, b))))) => FourEyesApproved a b
      | inl (inl (inl (inl (inl (inr (a, b, c, d)))))) => FourEyesSubmitted a b c d
      | inl (inl (inl (inl (inl (inl (inr (a, b, c))))))) => AuthEvent a b c
      | inl (inl (inl (inl (inl (inl (inl (inr (a, b, c)))))))) => ReplicationEvent a b c
      | inl (inl (inl (inl (inl (inl (inl (inl (inr (a, b))))))))) => KeyRotated a b
      | inl (inl (inl (inl (inl (inl (inl (inl (inl (inr (a, b)))))))))) => AccountClosed a b
      | inl (inl (inl (inl (inl (inl (inl (inl (inl (inl (inr (a, b, c, d))))))))))) => AccountCreated a b c d
      | inl (inl (inl (inl (inl (inl (inl (inl (inl (inl (inl (inr (a, b, c, d, e)))))))))))) => EntryPosted a b c d e
      | inl (inl (inl (inl (inl (inl (inl (inl (inl (inl (inl (inl (a, b, c, d)))))))))))) => QueryExecuted a b c d
      end) _).
  by intros [].
Defined.

Definition sc_event : stream_codec AuditEvent.
Proof.
  by refine (sc_iso (sc_Z ⊗ sc_Z ⊗ sc_kind ⊗ sc_bytes ⊗ sc_bytes ⊗ sc_bytes)
    (λ e, (ae_sequence e, ae_ts e, ae_event e, ae_content_hash e, ae_chain_hash e, ae_prev_hash e))
    (λ '(a, b, c, d, e, f), mkAuditEvent a b c d e f) _); intros [].
Defined.

Definition seq_ok (ev : AuditEvent) : bool := (0 <=? ae_sequence ev) && (ae_sequence ev <? 2 ^ 64).

#[global] Instance toy_audit_ext : AuditExt.
Proof.
  refine {| event_json := line_json sc_event seq_ok; kind_json := line_json sc_kind (λ _, true); kind_json_error := λ _, [] |}.
  intros l ev. cbn. intros (bs&_&Hb)%bind_Some. apply bind_Some in Hb as ([a r]&_&Ha).
  destruct (seq_ok a) eqn:Hok; simplify_eq. unfold seq_ok in Hok. unfold u64_ok. lia.
Defined.

(** ** The queue's *)

Definition sc_approval_status : stream_codec ApprovalStatus.
Proof.
  by refine (sc_enum (λ s, match s with APending => 0 | AApproved => 1 | ARejected => 2 end)
    (nth_or APending [APending; AApproved; ARejected]) _); intros [].
Defined.

Definition sc_approval : stream_codec ApprovalRecord.
Proof.
  by refine (sc_iso (sc_Z ⊗ sc_approval_status ⊗ sc_string ⊗ sc_option sc_string ⊗ sc_option sc_string ⊗ sc_Z ⊗ sc_option sc_Z
      ⊗ sc_bytes ⊗ sc_string ⊗ sc_string)
    (λ r, (ar_id r, ar_status r, ar_submitter_id r, ar_approver_id r, ar_reject_reason r, ar_submitted_at r, ar_decided_at r,
      ar_entry_payload_hex r, ar_description r, ar_domain r))
    (λ '(a, b, c, d, e, f, g, h, i, j), mkApprovalRecord a b c d e f g h i j) _); intros [].
Defined.

#[global] Instance toy_four_eyes_ext : FourEyesExt.
Proof. refine {| approval_json := line_json sc_approval (λ _, true) |}. intros r. by eexists. Defined.

(** ** SQL's *)

#[global] Instance toy_sql_ext : SqlExt :=
  {| to_rfc3339 := pretty; date_text := λ t, pretty (t / 86400000000000); uuid_parse := λ _, None;
     ledger_error_text := λ _, "error"%string; fts_match := λ _ _, true |}.

(** ** Replication, users and the server

    The messages as lines of hexadecimal text, passwords in the clear behind the
    parameters of the hash, requests and statements decoded from their own line
    format. *)

#[global] Instance toy_blake3_keyed : Blake3Keyed.
Proof. refine {| blake3_keyed := λ k m, toy_digest (k ++ m) |}. intros k m. apply le_bytes_length. Defined.

Lemma to_hex_printable bs : Forall printable (to_hex bs).
Proof.
  induction bs as [|b bs IH]; [constructor|]. unfold to_hex in *. cbn [map concat]. apply Forall_app. split; [|done].
  unfold printable. by destruct b; repeat constructor.
Qed.

Lemma line_json_tight {A} (c : stream_codec A) ok a l : @to_json _ (line_json c ok) a = Some l → trim (l ++ [nl]) = l.
Proof. cbn. destruct (ok a); [|done]. intros [= <-]. apply trim_line; [by vm_compute|apply to_hex_printable]. Qed.

(** ** Replication *)

Definition sc_repl : stream_codec ReplicationMessage.
Proof.
  refine (sc_iso (sc_Z ⊗ sc_Z ⊗ sc_bytes ⊗ sc_bytes ⊕ sc_Z ⊗ sc_Z)
    (λ m, match m with
      | MWalRecord r => inl (wm_lsn r, wm_segment r, wm_record_hex r, wm_record_hash_hex r)
      | MHeartbeat a b => inr (a, b) end)
    (λ s, match s with inl (a, b, c, d) => MWalRecord (mkWalRecordMsg a b c d) | inr (a, b) => MHeartbeat a b end) _).
  by intros [[]|].
Defined.
Definition sc_ack : stream_codec AckMessage.
Proof.
  refine (sc_iso (sc_Z ⊕ sc_Z ⊕ sc_option sc_Z ⊗ sc_string)
    (λ m, match m with Ack n => inl (inl n) | HeartbeatAck n => inl (inr n) | AckError n t => inr (n, t) end)
    (λ s, match s with inl (inl n) => Ack n | inl (inr n) => HeartbeatAck n | inr (n, t) => AckError n t end) _).
  by intros [].
Defined.
Definition sc_challenge : stream_codec AuthChallenge.
Proof. by refine (sc_iso sc_bytes ch_nonce mkChallenge _); intros []. Defined.
Definition sc_response : stream_codec AuthResponse.
Proof. by refine (sc_iso sc_bytes rs_mac Replication.mkResponse _); intros []. Defined.

Definition every {A} (_ : A) : bool := true.

#[global] Instance toy_repl_ext : ReplExt.
Proof.
  refine {| repl_json := line_json sc_repl every; ack_json := line_json sc_ack every;
    challenge_json := line_json sc_challenge every; response_json := line_json sc_response every |};
    first [intros m l; apply line_json_tight | intros m; by eexists].
Defined.

(** ** Users *)

Definition sc_role : stream_codec Role.
Proof.
  by refine (sc_enum (λ r, match r with Admin => 0 | Operator => 1 | Auditor => 2 | ReadOnly => 3 end)
    (nth_or Admin [Admin; Operator; Auditor; ReadOnly]) _); intros [].
Defined.
Definition sc_user : stream_codec UserRecord.
Proof.
  by refine (sc_iso (sc_string ⊗ sc_string ⊗ sc_role ⊗ sc_bool ⊗ sc_string ⊗ sc_option sc_string)
    (λ u, (u_username u, u_password_hash u, u_role u, u_enabled u, u_created_at u, u_domain_filter u))
    (λ '(a, b, c, d, e, f), mkUser a b c d e f) _); intros [].
Defined.
Definition sc_users : stream_codec (gmap string UserRecord).
Proof. refine (sc_iso (sc_list (sc_string ⊗ sc_user)) map_to_list list_to_map _). apply list_to_map_to_list. Defined.

Definition phc (p : string) : string := ("$argon2id$m=65536,t=3,p=4$" +:+ p)%string.

#[global] Instance toy_auth_ext : AuthExt.
Proof.
  refine {| argon_hash := λ p _, Ok (phc p); argon_verify := λ p h, bool_decide (h = phc p); alphanumeric := pretty;
    cred_path := "catalog/initial_credentials.txt"%string;
    users_to_json := @to_json _ (line_json sc_users every); users_from_json := @from_json _ (line_json sc_users every) |}.
  - intros p salt h [= <-]. by apply bool_decide_true.
  - intros us bs. apply json_roundtrip.
  - intros us bs. apply json_line.
Defined.

(** ** Requests *)

Definition sc_cmd : stream_codec AdminCommand.
Proof.
  refine (sc_iso (sc_string ⊗ sc_string ⊕ sc_string ⊗ sc_string ⊗ sc_string ⊕ sc_string ⊕ sc_string ⊗ sc_bool ⊕ sc_bool ⊕ sc_string ⊗ sc_string)
    (λ c, match c with
      | CmdSetPassword a b => inl (inl (inl (inl (inl (a, b)))))
      | CmdCreateUser a b c => inl (inl (inl (inl (inr (a, b, c)))))
      | CmdDeleteUser a => inl (inl (inl (inr a)))
      | CmdSetEnabled a b => inl (inl (inr (a, b)))
      | CmdListUsers => inl (inr true)
      | CmdSetRole a b => inr (a, b) end)
    (λ s, match s with
      | inl (inl (inl (inl (inl (a, b))))) => CmdSetPassword a b
      | inl (inl (inl (inl (inr (a, b, c))))) => CmdCreateUser a b c
      | inl (inl (inl (inr a))) => CmdDeleteUser a
      | inl (inl (inr (a, b))) => CmdSetEnabled a b
      | inl (inr _) => CmdListUsers
      | inr (a, b) => CmdSetRole a b end) _).
  by intros [].
Defined.
Definition sc_request : stream_codec Request.
Proof.
  by refine (sc_iso (sc_option sc_string ⊗ sc_option (sc_string ⊗ sc_string) ⊗ sc_option sc_bytes ⊗ sc_bool ⊗ sc_option sc_cmd)
    (λ r, (rq_sql r, rq_auth r, rq_token r, rq_with_proof r, rq_admin r)) (λ '(a, b, c, d, e), mkRequest a b c d e) _); intros [].
Defined.

#[global] Instance toy_request_json : Json Request := line_json sc_request every.

(** Every text is read as one statement that creates an account. *)
Definition text_value (t : string) : Expr := ExprValue (SingleQuotedString t).
Definition insert_cash : Statement :=
  StInsert (mkInsert "accounts" ["code"; "name"; "account_type"; "currency"]
    (Some (mkQuery (SetValues [map text_value ["1000"; "Cash"; "asset"; "USD"]]) None)))%string.

#[global] Instance toy_server_ext : ServerExt :=
  {| request_from_json := λ l, ok_or (from_json l) "malformed"%string;
     parse_sql := λ _, Ok [insert_cash]; expr_display := λ _, ""%string; value_display := λ _, ""%string;
     parse_error_text := λ _, "error"%string; sql_error_text := λ _, "error"%string; server_error_text := λ _, "error"%string |}.
