(* ===== verification/StoreWitness.v ===== *)
(** * The theorems about the store, its packages and imports, at concrete inputs

    Each lemma applies one theorem to states of [Instances], where its
    hypotheses hold by evaluation.  The second part gives an executable instance
    of [PackageExt] and applies the theorems about audit packages to that ledger
    and to a signed package of three entries.  The last part imports rows into
    that ledger: once, twice, and again after an aborted run. *)

From stdpp Require Import base gmap list strings option fin_maps sorting relations pretty countable.
From Stdlib Require Import ZArith Lia Strings.Byte Strings.Ascii.
From S2P Require Import Prelude Bytes Jsonl Crypto Merkle Money Entry WalRecord Wal Recovery Tx Page EntryDb Sql Store SqlGuard SqlExec SqlPlan McpText StoreFrame StoreBooks StoreInv StoreReverse StoreSafety StoreHistory StoreAudit StoreHold StoreSnapshot TxLog StoreReplay StoreReopen StoreLive AuditPackage AuditPackageSafety Import ImportSafety Instances OpsInstances.

Lemma post_entry_error_unchanged_witness :
  (post_entry lopsided (quiet, s2)).1 = Err (UnbalancedEntry 500 400) ∧ same_books s2 (exec (post_entry lopsided) s2).
Proof.
  assert (Hr : (post_entry lopsided (quiet, s2)).1 = Err (UnbalancedEntry 500 400)) by (vm_compute; reflexivity).
  split; [exact Hr|]. exact (post_entry_error_unchanged lopsided quiet s2 _ _ _ (run_exec (post_entry lopsided) s2 _ Hr)).
Defined.

Lemma post_entry_effect_witness :
  (post_entry borrow (quiet, s2)).1 = Ok 1 ∧
  ∃ t bs, let e' := finalize_chain_hash (ls_last_chain_hash s2) (set_posting 1 t borrow) in
    appended_entry s2 s3 e' ∧ enc e' = Some bs ∧ entry_logged e' bs s2 s3 ∧ row_added e' bs s2 s3.
Proof.
  assert (Hr : (post_entry borrow (quiet, s2)).1 = Ok 1) by (vm_compute; reflexivity).
  split; [exact Hr|].
  destruct (post_entry_effect borrow quiet s2 1 _ s3 (run_exec (post_entry borrow) s2 _ Hr)) as [(key & Hk & Hu & _)|(_ & _ & _ & _ & _ & t & bs & Ha & He & Hl & Hrow)].
  - injection Hk as <-. vm_compute in Hu. discriminate Hu.
  - exists t, bs. destruct Hrow as [Hrow|[Hw _]]; [|destruct (Hw eq_refl)].
    exact (conj Ha (conj He (conj Hl Hrow))).
Defined.

Lemma post_entry_non_negative_witness :
  ls_accounts s2 !! 1 = Some cash ∧ require_non_negative_balance cash = true ∧ 0 ≤ balance 1 s3.
Proof.
  assert (Hr : (post_entry borrow (quiet, s2)).1 = Ok 1) by (vm_compute; reflexivity).
  assert (Ha : ls_accounts s2 !! 1 = Some cash) by (vm_compute; reflexivity).
  split; [exact Ha|]. split; [reflexivity|].
  apply (post_entry_non_negative borrow quiet s2 1 _ s3 1 cash (run_exec (post_entry borrow) s2 _ Hr) Ha); [reflexivity..|].
  by vm_compute.
Defined.

Lemma reverse_entry_effect_witness :
  (reverse_entry 10 "undo" "main" (quiet, s3)).1 = Ok 0 ∧
  ∃ o, e_id o = 10 ∧ e_status o = Posted ∧ is_reversed 10 s3 = false ∧ reversed_by 10 s4 = Some 0 ∧
    ∀ id, balance id s4 = balance id s3 - entry_effect (ls_accounts s3) id o.
Proof.
  assert (Hr : (reverse_entry 10 "undo" "main" (quiet, s3)).1 = Ok 0) by (vm_compute; reflexivity).
  split; [exact Hr|]. destruct (reachable_inv s3 reachable_s3) as [es Hi].
  destruct (reverse_entry_effect 10 "undo" "main" quiet s3 es 0 _ s4 Hi
    (run_exec (reverse_entry 10 "undo" "main") s3 _ Hr)) as (o & r & _ & Hid & Hst & _ & Hn & Hy & _ & _ & _ & Hb).
  exists o. exact (conj Hid (conj Hst (conj Hn (conj Hy Hb)))).
Defined.

Lemma reverse_entry_error_unchanged_witness :
  (reverse_entry 10 "again" "main" (quiet, s4)).1 = Err (AlreadyReversed 10 0) ∧
  same_books s4 (exec (reverse_entry 10 "again" "main") s4).
Proof.
  assert (Hr : (reverse_entry 10 "again" "main" (quiet, s4)).1 = Err (AlreadyReversed 10 0)) by (vm_compute; reflexivity).
  split; [exact Hr|]. destruct (reachable_inv s4 reachable_s4) as [es Hi].
  exact (reverse_entry_error_unchanged 10 "again" "main" quiet s4 es _ _ _ Hi (run_exec (reverse_entry 10 "again" "main") s4 _ Hr)).
Defined.

Lemma reachable_chain_verifies_witness : reachable s4 ∧ verify_chain_integrity (quiet, s4) = (Ok tt, (quiet, s4)).
Proof. split; [exact reachable_s4|]. exact (reachable_chain_verifies s4 quiet reachable_s4 eq_refl). Defined.

Lemma verify_chain_integrity_exact_witness :
  ∃ es, db_repr (db_tables (ls_db s4)) es ∧
    ((verify_chain_integrity (quiet, s4)).1 = Ok tt ↔ verify_entries ZERO_HASH es = None).
Proof.
  destruct (reachable_inv s4 reachable_s4) as [es Hi]. exists es. split; [exact (inv_db _ _ Hi)|].
  exact (verify_chain_integrity_exact s4 es quiet eq_refl (inv_db _ _ Hi)).
Defined.

Lemma tampering_detected_witness :
  forge_description 1 "forged" s4 = Some (forged_store 1 "forged" s4) ∧
  ∃ e, get_entry_by_sequence 1 (quiet, s4) = (Ok (Some e), (quiet, s4)) ∧
    (hash_bytes (canonical_bytes (set_description "forged" e)) = hash_bytes (canonical_bytes e) ∨
     verify_chain_integrity (quiet, forged_store 1 "forged" s4) =
       (Err (Serialization ("Hash chain broken at sequence " +:+ pretty (e_sequence e))), (quiet, forged_store 1 "forged" s4))).
Proof.
  assert (Hr : forge_description 1 "forged" s4 = Some (forged_store 1 "forged" s4)) by (apply forged_store_run; vm_compute; reflexivity).
  split; [exact Hr|].
  exact (tampering_detected quiet s4 1 "forged" _ reachable_s4 eq_refl Hr).
Defined.

(** A hold does not stop the bulk import: an entry on the held account that
    [post_entry] refuses is accepted and takes a sequence number. *)
Theorem import_ignores_hold :
  let h := exec (place_legal_hold 1) s2 in
  is_under_legal_hold 1 h = true ∧ (post_entry borrow (quiet, h)).1 = Err (AccountUnderLegalHold 1) ∧
  (import_entry_direct borrow (quiet, h)).1 = Ok 1 ∧ ls_next_sequence (exec (import_entry_direct borrow) h) = 2.
Proof. split_and!; vm_compute; reflexivity. Qed.

Lemma reconcile_exact_witness :
  reachable s3 ∧ ∃ ds, reconcile (quiet, s3) = (Ok ds, (quiet, s3)) ∧
    ∀ d, d ∈ ds ↔ ∃ id a, ls_accounts s3 !! id = Some a ∧ account_type a = Suspense ∧ balance id s3 ≠ 0 ∧
      d = mkDiscrepancy id (acc_code a) (balance id s3) (- balance id s3) (-2 * balance id s3).
Proof. split; [exact reachable_s3|]. exact (reconcile_exact s3 quiet reachable_s3 eq_refl). Defined.

Lemma financial_invariants_exact_witness :
  reachable s3 ∧ (check_financial_invariants s3 = Ok tt ↔ sum_balances excluded s3 (account_list s3) = 0).
Proof. split; [exact reachable_s3|]. exact (proj1 (financial_invariants_exact s3 reachable_s3)). Defined.

(** Whether a store has an entry at a sequence number. *)
Definition has_entry (seq : Z) (s : LedgerStore) : bool :=
  match t_entries (db_tables (ls_db s)) !! as_i64 seq with
  | Some r => match decode_entry (row_data r) with Ok _ => true | Err _ => false end
  | None => false
  end.

Lemma has_entry_read seq s :
  has_entry seq s = true → ∃ e, get_entry_by_sequence seq (quiet, s) = (Ok (Some e), (quiet, s)).
Proof.
  unfold has_entry. rewrite get_entry_by_sequence_quiet by done.
  destruct (t_entries (db_tables (ls_db s)) !! as_i64 seq) as [r|]; [|done].
  destruct (decode_entry (row_data r)) as [e|] eqn:He; [|done]. exists e. cbn. by rewrite He.
Qed.

Lemma history_append_only_witness :
  ∃ e, get_entry_by_sequence 1 (quiet, s3) = (Ok (Some e), (quiet, s3)) ∧
       get_entry_by_sequence 1 (quiet, s4) = (Ok (Some e), (quiet, s4)).
Proof.
  assert (Hs : has_entry 1 s3 = true) by (vm_compute; reflexivity).
  destruct (has_entry_read 1 s3 Hs) as [e Hg]. exists e. split; [exact Hg|].
  exact (history_append_only s3 s4 quiet 1 e reachable_s3 steps_s3_s4 eq_refl Hg).
Defined.

Lemma post_entry_idempotent_witness :
  (post_entry borrow (quiet, s2)).1 = Ok 1 ∧ post_entry borrow (quiet, s4) = (Ok 1, (quiet, s4)).
Proof.
  assert (Hr : (post_entry borrow (quiet, s2)).1 = Ok 1) by (vm_compute; reflexivity).
  split; [exact Hr|].
  assert (Hn : ls_next_sequence s2 < 2 ^ 63) by (by vm_compute).
  exact (post_entry_idempotent borrow "key-1" quiet s2 1 _ s3 s4 borrow quiet reachable_s2 eq_refl Hn eq_refl eq_refl
    (run_exec (post_entry borrow) s2 _ Hr) steps_s3_s4 eq_refl eq_refl eq_refl).
Defined.

Lemma reversed_once_witness :
  is_reversed 10 s4 = true ∧ is_ok (reverse_entry 10 "again" "main" (quiet, s4)).1 = false.
Proof.
  assert (Hr : is_reversed 10 s4 = true) by (vm_compute; reflexivity).
  split; [exact Hr|]. exact (reversed_once s4 s4 10 "again" "main" quiet reachable_s4 Hr (steps_refl s4)).
Defined.

Lemma legal_hold_freezes_witness :
  (place_legal_hold 1 (quiet, s3)).1 = Ok tt ∧
  balance 1 (exec (post_entry borrow) s_held) = balance 1 s3 ∧
  is_under_legal_hold 1 (exec (post_entry borrow) s_held) = true.
Proof.
  assert (Hr : (place_legal_hold 1 (quiet, s3)).1 = Ok tt) by (vm_compute; reflexivity).
  split; [exact Hr|].
  apply (legal_hold_freezes 1 quiet s3 _ s_held _ reachable_s3 eq_refl (run_exec (place_legal_hold 1) s3 _ Hr)).
  eapply rtc_once. exists (OpPost borrow). split; [discriminate|]. apply post_step; by vm_compute.
Defined.

Lemma snapshot_isolation_witness :
  ls_accounts s3 !! 1 = Some cash ∧
  ∃ v, balance_at_snapshot 1 1 (quiet, s3) = (Ok v, (quiet, s3)) ∧
    balance_at_snapshot 1 1 (quiet, s4) = (Ok v, (quiet, s4)) ∧ (1 = current_snapshot s3 → v = balance 1 s3).
Proof.
  assert (Ha : ls_accounts s3 !! 1 = Some cash) by (vm_compute; reflexivity).
  split; [exact Ha|].
  apply (snapshot_isolation s3 s4 quiet 1 cash 1 reachable_s3 steps_s3_s4 eq_refl Ha). by vm_compute.
Defined.

Lemma verify_chain_range_open_end_witness :
  ∃ es, db_repr (db_tables (ls_db s4)) es ∧
    verify_chain_range (Some 1) None (quiet, s4) = (Ok (0%nat, ZERO_HASH), (quiet, s4)).
Proof.
  destruct (reachable_inv s4 reachable_s4) as [es Hi]. exists es. split; [exact (inv_db _ _ Hi)|].
  exact (verify_chain_range_open_end quiet s4 es (Some 1) eq_refl (inv_db _ _ Hi)).
Defined.

Lemma verify_chain_range_ok_witness :
  reachable s4 ∧ ∃ es, ledger_inv s4 es ∧
    let range := filter (λ e, 1 ≤ e_sequence e ∧ e_sequence e ≤ 2) es in
    verify_chain_range (Some 1) (Some 2) (quiet, s4) = (Ok (length range, tip ZERO_HASH range), (quiet, s4)).
Proof.
  split; [exact reachable_s4|]. apply (verify_chain_range_ok quiet s4 1 2 reachable_s4 eq_refl); lia.
Defined.

Lemma finalized_before_posting_witness :
  verify_hashes (final_entry quiet s2 (finalize_hashes ZERO_HASH borrow)) = false ∨
  collision [canonical_bytes borrow] [canonical_bytes (final_entry quiet s2 (finalize_hashes ZERO_HASH borrow))].
Proof.
  apply (finalized_before_posting ZERO_HASH borrow quiet s2).
  - vm_compute. discriminate.
  - vm_compute. split; [discriminate|reflexivity].
  - vm_compute. split; [discriminate|reflexivity].
  - vm_compute. discriminate.
Defined.

(** ** Reopening *)

Lemma small_room s :
  0 ≤ tm_next_tx_id (ls_tx s) < 1000 → 0 ≤ ww_next_segment_index (tm_wal (ls_tx s)) < 1000 → log_room (ls_tx s) 4.
Proof. intros Ht Hw. unfold log_room, room. lia. Qed.

Lemma ok_step_by {A} o (m : LM A) s :
  op_run o = (_ ← m; mret tt) → is_ok (m (quiet, s)).1 = true → log_room (ls_tx s) 4 → op_guard s o → ok_step s (exec m s).
Proof.
  intros Ho Hok Hroom Hg. exists o, quiet, (m (quiet, s)).2.1. split_and!; [done..|]. rewrite Ho. unfold exec, mbind, M_bind.
  by destruct (m (quiet, s)) as [[a|] [W s1]].
Qed.

Lemma scenario_history : rtc ok_step s0 s4.
Proof.
  apply rtc_l with s1; [apply (ok_step_by (OpCreate cash) (create_account cash) s0 eq_refl); [|apply small_room|]; by vm_compute|].
  apply rtc_l with s2; [apply (ok_step_by (OpCreate loan) (create_account loan) s1 eq_refl); [|apply small_room|]; by vm_compute|].
  apply rtc_l with s3; [apply (ok_step_by (OpPost borrow) (post_entry borrow) s2 eq_refl); [|apply small_room|]; by vm_compute|].
  apply rtc_once.
  apply (ok_step_by (OpReverse 10 "undo" "main") (reverse_entry 10 "undo" "main") s3 eq_refl); [|apply small_room|]; by vm_compute.
Qed.

Lemma reopen_restores_witness :
  ∃ s', open_store false GroupCommit (disk_of s4) quiet = Ok s' ∧ restored s4 s' ∧ ls_reversals s4 !! 10 = Some 0.
Proof.
  destruct (reopen_restores PerRecord _ quiet s0 s4 GroupCommit quiet eq_refl opened_s0 scenario_history eq_refl)
    as (s' & Ho & Hr & _).
  exists s'. split; [exact Ho|]. split; [exact Hr|]. vm_compute. reflexivity.
Defined.

(** ** Acceptance *)

Lemma accounts_history : rtc ok_step s0 s2.
Proof.
  apply rtc_l with s1; [apply (ok_step_by (OpCreate cash) (create_account cash) s0 eq_refl); [|apply small_room|]; by vm_compute|].
  apply rtc_once. apply (ok_step_by (OpCreate loan) (create_account loan) s1 eq_refl); [|apply small_room|]; by vm_compute.
Qed.

Lemma post_entry_accepts_witness :
  ∃ es, ledger_inv s2 es ∧
    (is_ok (post_entry borrow (quiet, s2)).1 = true ↔
     (2 ≤ length (e_lines borrow))%nat ∧ balanced (e_lines borrow) ∧ (is_Some (posted_as es borrow) ∨ admitted s2 borrow)).
Proof.
  destruct (history_replayable s0 s2 [] [] accounts_history) as (rs & es & Hr).
  { exact (open_empty_replayable PerRecord _ quiet s0 eq_refl opened_s0). }
  exists es. split; [exact (rp_inv _ _ _ Hr)|].
  apply (post_entry_accepts borrow quiet s2 es rs).
  - reflexivity.
  - exact (rp_inv _ _ _ Hr).
  - exact (rp_logged _ _ _ Hr).
  - vm_compute. split; [reflexivity|split; [discriminate|reflexivity]].
  - vm_compute. reflexivity.
  - eexists. split; [vm_compute; reflexivity|vm_compute; discriminate].
Defined.

(** ** Values as texts

    The tree of a value, as the digits of its number. *)

Fixpoint value_tree (v : JsonValue) : gen_tree (Z + string) :=
  match v with
  | JNull => GenNode 0 []
  | JBool b => GenNode (if b then 1 else 2)%nat []
  | JInt z => GenLeaf (inl z)
  | JStr s => GenLeaf (inr s)
  | JFloat t => GenNode 3 [GenLeaf (inr t)]
  | JArr l => GenNode 4 (map value_tree l)
  | JObj fs => GenNode 5 (map (λ f, GenNode 6 [GenLeaf (inr (fst f)); value_tree (snd f)]) fs)
  end.
Fixpoint tree_value (t : gen_tree (Z + string)) : JsonValue :=
  match t with
  | GenLeaf (inl z) => JInt z
  | GenLeaf (inr s) => JStr s
  | GenNode 1 _ => JBool true
  | GenNode 2 _ => JBool false
  | GenNode 3 [GenLeaf (inr t)] => JFloat t
  | GenNode 4 ts => JArr (map tree_value ts)
  | GenNode 5 ts => JObj (map (λ t, match t with GenNode _ [GenLeaf (inr k); x] => (k, tree_value x) | _ => (EmptyString, JNull) end) ts)
  | _ => JNull
  end.

Lemma tree_value_tree v : tree_value (value_tree v) = v.
Proof.
  revert v. fix IH 1. intros [|[]| | | |l|fs]; try reflexivity; cbn [value_tree tree_value]; f_equal.
  - induction l as [|x l IHl]; [reflexivity|]. cbn [map]. by rewrite IH, IHl.
  - induction fs as [|[k x] fs IHl]; [reflexivity|]. cbn [map fst snd]. by rewrite IH, IHl.
Qed.

Fixpoint digits_text (p : positive) : bytes :=
  match p with xH => [] | xO p => Byte.x30 :: digits_text p | xI p => Byte.x31 :: digits_text p end.
Fixpoint text_digits (l : bytes) : positive :=
  match l with [] => xH | Byte.x30 :: l => xO (text_digits l) | _ :: l => xI (text_digits l) end.
Lemma digits_read p : text_digits (digits_text p) = p.
Proof. induction p; cbn; congruence. Qed.

Definition entry_text (e : JournalEntry) : string := String.string_of_list_byte (wr sc_entry e).

#[global] Instance toy_package_ext : PackageExt.
Proof.
  refine {| value_pretty := λ v, String.string_of_list_byte (digits_text (encode (value_tree v)));
    value_read := λ s, tree_value <$> decode (text_digits (str_bytes s));
    entry_value := λ e, JStr (entry_text e);
    entry_of_value := λ v, match v with JStr s => match rd sc_entry (str_bytes s) with Some (e, _) => Ok e | None => Err "bad entry"%string end | _ => Err "not an entry"%string end;
    key_error_text := λ _, "bad key"%string; utc_now_text := λ t, pretty t |}.
  - intros v. rewrite str_bytes_of. unfold utf8_valid. apply bool_decide_true, ascii_utf8. generalize (encode (value_tree v)).
    intros p. induction p; cbn; constructor; by try vm_compute.
  - intros v _. by rewrite str_bytes_of, digits_read, decode_encode; cbn; rewrite tree_value_tree.
  - done.
  - intros e _. unfold entry_text. rewrite str_bytes_of. pose proof (rd_wr sc_entry e []) as Hr. rewrite app_nil_r in Hr. by rewrite Hr.
Defined.

(** ** A package of three entries *)

Definition numbered (n id : Z) (prev : Hash) : JournalEntry :=
  finalize_hashes prev (mkEntry id n Posted "entry" [usd_line 1 1 500 Debit; usd_line 2 2 500 Credit] 3 0 None None
    None None "main" ZERO_HASH ZERO_HASH ZERO_HASH None None).
Definition n1 : JournalEntry := numbered 1 10 ZERO_HASH.
Definition n2 : JournalEntry := numbered 2 11 (e_chain_hash n1).
Definition n3 : JournalEntry := numbered 3 12 (e_chain_hash n2).
Definition three : list JournalEntry := [n1; n2; n3].

Definition full_opts : GenerateOptions := mkGenerateOptions true (Some "Acme"%string) None None None.
Definition three_payload : bytes := sign_payload (entries_root three) (e_chain_hash n3) 3 "Acme" "" "" "" 1 3.
Definition three_package : JsonValue :=
  JObj [("entries"%string, JArr (map entry_value three));
        ("meta"%string, meta_value "1.0" full_opts "now" 3 1 3 (hash_to_hex (e_chain_hash n3)) (hash_to_hex (entries_root three))
           (hash_to_hex (ed_sign (5 : SigningKey) three_payload)) (hash_to_hex (ed_public (5 : SigningKey))))].
Definition three_report : VerifyReport :=
  match verify_value three_package with
  | Ok r => r
  | Err _ => mkVerifyReport 0 "" "" "" false false false SigAbsent [] "" "" 0 false "" "" "" "" 0 0 ""
  end.

Lemma three_verified : verify_value three_package = Ok three_report.
Proof. unfold three_report. assert (Hok : is_ok (verify_value three_package) = true) by (vm_compute; reflexivity). by destruct (verify_value three_package). Qed.
Lemma three_passed : vr_passed three_report = true.
Proof. vm_compute. reflexivity. Qed.
Lemma three_type : vr_package_type three_report = "full"%string.
Proof. vm_compute. reflexivity. Qed.
Lemma three_read : Forall2 (λ v e, entry_of_value v = Ok e) (map entry_value three) three.
Proof. apply entries_read. repeat constructor. Qed.

Lemma full_package_exact_witness :
  vr_passed three_report = true ∧ vr_sig_status three_report = SigValid ∧
  package_signed (jget "meta" three_package) (package_root three_package) ∧ journal_ok three_package (map entry_value three).
Proof.
  assert (Ht : str_or "commitment" "package_type" (jget "meta" three_package) = "full"%string) by (vm_compute; reflexivity).
  assert (Hs : vr_sig_status three_report = SigValid) by (vm_compute; reflexivity).
  split; [exact three_passed|]. split; [exact Hs|].
  destruct (full_package_exact three_package Ht) as (rep & Hv & Hp & Hsig & _).
  pose proof (Ok_inj _ _ (eq_trans (eq_sym three_verified) Hv)) as Hrep. clear Hv. rewrite <- Hrep in Hp, Hsig. clear Hrep.
  exact (conj (proj2 (proj1 Hsig Hs)) (proj2 (proj1 Hp three_passed) (map entry_value three) eq_refl)).
Defined.

(** The same package without its entries passes as well. *)
Lemma stripped_package_passes :
  (rep ← verify_value (JObj [("meta"%string, jget "meta" three_package)]); Ok (vr_passed rep, vr_package_type rep, vr_content_ok rep)) = Ok (true, "full"%string, true).
Proof. vm_compute. reflexivity. Qed.

Lemma repeated_entry_accepted_witness :
  ∃ rep', verify_value (JObj [("entries"%string, JArr (map entry_value ([n1; n2] ++ [n3; relink n3]))); ("meta"%string, jget "meta" three_package)]) = Ok rep' ∧
    vr_passed rep' = true ∧ vr_content_ok rep' = true ∧ vr_chain_ok rep' = true ∧ vr_merkle_ok rep' = true ∧
    vr_sig_status rep' = vr_sig_status three_report ∧ vr_root_hex rep' = vr_root_hex three_report ∧ vr_tenant rep' = vr_tenant three_report ∧
    vr_entry_count rep' = vr_entry_count three_report + 1.
Proof.
  apply (repeated_entry_accepted three_package (map entry_value three) three_report [n1; n2] n3 three_verified three_passed three_type eq_refl).
  - exact three_read.
  - repeat constructor.
  - reflexivity.
  - discriminate.
Defined.

Definition forged : JournalEntry := numbered 7 99 ZERO_HASH.
Lemma forged_new : forged ∉ three.
Proof.
  intros Hin%(list_elem_of_fmap_2 e_id). replace (e_id <$> three) with [10; 11; 12] in Hin by (vm_compute; reflexivity).
  replace (e_id forged) with 99 in Hin by (vm_compute; reflexivity). set_solver.
Qed.


(** ** Packages of the concrete ledger *)

Lemma reopened_ledger : ∃ s' es, open_store false GroupCommit (disk_of s4) quiet = Ok s' ∧ ledger_inv s4 es ∧ ledger_inv s' es ∧
  Forall (λ e, entry_wf e = true) es ∧ es ≠ [].
Proof.
  destruct (reopen_restores PerRecord _ quiet s0 s4 GroupCommit quiet eq_refl opened_s0 scenario_history eq_refl) as (s'&Ho&_&es&Hi&Hi').
  exists s', es. split; [exact Ho|]. split; [exact Hi|]. split; [exact Hi'|]. pose proof (decode_rows_repr _ _ (rows_repr _ _ (inv_db _ _ Hi))) as Hes.
  assert (Hall : match decode_rows (rows (db_tables (ls_db s4))) with Ok es => forallb entry_wf es && negb (bool_decide (es = [])) | Err _ => false end = true) by (vm_compute; reflexivity).
  rewrite Hes in Hall. apply andb_true_iff in Hall as [Hall Hne]. split; [|by destruct es]. apply Forall_forall. intros e He.
  exact (proj1 (forallb_forall _ _) Hall e He).
Qed.

Lemma package_verifies_witness :
  ∃ s' es g text W', open_store false GroupCommit (disk_of s4) quiet = Ok s' ∧
    generate "1.0" quiet (disk_of s4) full_opts (quiet, None) = (Ok g, (W', Some text)) ∧
    gr_entry_count g = Z.of_nat (length es) ∧ gr_root_hex g = hash_to_hex (entries_root es) ∧
    gr_chain_tip_hex g = hash_to_hex (tip ZERO_HASH es) ∧ gr_signed g = bool_decide (is_Some (tm_signing_key (ls_tx s'))) ∧
    ∃ rep, verify (S:=unit) (Some text) (W', tt) = (Ok rep, (W', tt)) ∧ vr_passed rep = true ∧
      vr_sig_status rep = (if tm_signing_key (ls_tx s') then SigValid else SigAbsent) ∧
      vr_entry_count rep = Z.of_nat (length es) ∧ vr_root_hex rep = gr_root_hex g ∧ vr_tenant rep = opt_text (go_tenant full_opts) ∧
      vr_package_type rep = (if go_include_entries full_opts then "full" else "commitment")%string.
Proof.
  destruct (reopened_ledger) as (s'&es&Ho&_&Hi&Hw&_).
  destruct (package_verifies "1.0" quiet quiet (disk_of s4) s' es full_opts None Ho Hi Hw eq_refl) as (g&text&W'&Hg).
  exists s', es, g, text, W'. by split.
Defined.

Lemma entry_proof_verifies_witness :
  ∃ es e commitment r t p W', ledger_inv s4 es ∧ let package := proof_package "1.0" (hash_to_hex (entries_root es)) "c.json" t e p in
    prove_entry "1.0" quiet (disk_of s4) (Some (str_bytes (value_pretty commitment))) "c.json" (e_sequence e) (quiet, None) =
      (Ok r, (W', Some (str_bytes (value_pretty package)))) ∧
    pr_root_hex r = hash_to_hex (entries_root es) ∧ leaf_hash p = hash_leaf (canonical_bytes e) ∧
    ∃ rep, verify (S:=unit) (Some (str_bytes (value_pretty package))) (W', tt) = (Ok rep, (W', tt)) ∧ vr_passed rep = true ∧
      vr_sig_status rep = SigAbsent ∧ vr_entry_count rep = 1 ∧ vr_root_hex rep = hash_to_hex (entries_root es).
Proof.
  destruct reopened_ledger as (s'&es&Ho&Hi&Hi'&Hw&Hne). destruct es as [|e es]; [exfalso; exact (Hne eq_refl)|].
  set (commitment := JObj [("meta"%string, JObj [("merkle_root"%string, JStr (hash_to_hex (entries_root (e :: es))))])]).
  destruct (entry_proof_verifies "1.0" quiet quiet (disk_of s4) s' (e :: es) e commitment "c.json" None Ho Hi' Hw eq_refl (list_elem_of_here e es) eq_refl eq_refl)
    as (r&t&p&W'&Hr).
  exists (e :: es), e, commitment, r, t, p, W'. split; [exact Hi|exact Hr].
Defined.

(** ** Imports

    A toy CSV: lines and commas. *)

Definition toy_lines (bs : bytes) : list (list string) :=
  map (split_char ","%char) (split_char (Ascii.ascii_of_nat 10) (String.string_of_list_byte bs)).

Definition sc_import_state : stream_codec ImportState.
Proof.
  by refine (sc_iso (sc_string ⊗ sc_Z ⊗ sc_Z ⊗ sc_Z ⊗ sc_Z ⊗ sc_Z ⊗ sc_string)
    (λ s, (is_file s, is_rows_processed s, is_rows_imported s, is_rows_skipped s, is_rows_already_existed s, is_last_row_index s, is_started_at s))
    (λ '(a, b, c, d, e, f, g), mkImportState a b c d e f g) _); intros [].
Defined.

#[global] Instance toy_import_ext : ImportExt.
Proof.
  refine {| csv_headers := λ bs, head (toy_lines bs); csv_records := λ bs, map Ok (tail (toy_lines bs)); mapping_of := λ _, Some ∅;
    state_text := wr sc_import_state; state_of := λ bs, fst <$> rd sc_import_state bs;
    manifest_text := λ m, str_bytes ("imported " +:+ pretty (mf_rows_imported m) +:+ ", existed " +:+ pretty (mf_rows_already_existed m));
    fields_text := λ m, pretty (Z.of_nat (size m)); decimal_cents := λ _, None; rfc3339_time := λ _, None; date_midnight := λ _, None;
    time_text := λ t, pretty t |}.
  intros s. pose proof (rd_wr sc_import_state s []) as Hr. rewrite app_nil_r in Hr. by rewrite Hr.
Defined.

Definition csv_text (rows : list string) : bytes :=
  str_bytes (cat ("description,debit_account,credit_account,amount,currency,ref"%string :: map (λ r, String (Ascii.ascii_of_nat 10) r) rows)).
Definition csv_args (data : bytes) (resume : bool) : ImportArgs :=
  mkImportArgs true (Some data) "rows.csv" (Some "csv"%string) None false [] None "main" "USD" (Some "ref"%string) "abort" 100 resume false None "group_commit".

(** Three rows, two with the same reference; none of the keys is indexed. *)
Definition three_rows : bytes := csv_text ["rent,1000,2000,500,usd,A1"; "fuel,1000,2000,70,usd,A2"; "rent,1000,2000,500,usd,A1"]%string.
Definition import_start : ImportRun := mkRun (s2, account_lookup s2) None None.
Definition import_progress : Progress := mkProgress default_state 0 None None 0.
Definition import_headers : list string := default [] (csv_headers three_rows).
Definition three_args : ImportArgs := csv_args three_rows false.
Definition three_import := import_records three_args ∅ import_headers "hash" 0 0 (csv_records three_rows) import_progress (quiet, import_start).

(** How many rows were imported and how many were there before. *)
Definition row_counts (r : Result ImportError Progress) : option (Z * Z) :=
  p ← res_ok r; Some (is_rows_imported (pg_state p), is_rows_already_existed (pg_state p)).

Lemma triple_eta {A B C} (x : A * (B * C)) : x = (x.1, (x.2.1, x.2.2)).
Proof. by destruct x as [a [b c]]. Qed.

Lemma three_import_eq :
  import_records three_args ∅ import_headers "hash" 0 0 (csv_records three_rows) import_progress (quiet, import_start) = three_import.
Proof. unfold three_import. reflexivity. Qed.

Lemma import_rows_exact_witness :
  row_counts three_import.1 = Some (3, 0) ∧
  ∃ posted es, posted `sublist_of` rows_from three_args ∅ import_headers 0 0 (csv_records three_rows) ∧
    Forall2 (λ x e, books_row (run_lookup three_import.2.2) x.2 (row_key three_args "hash" x) e) posted es ∧
    verify_entries (ls_last_chain_hash (run_store import_start)) es = None ∧
    ls_last_chain_hash (run_store three_import.2.2) = tip (ls_last_chain_hash (run_store import_start)) es ∧
    index_kept (run_store import_start) (run_store three_import.2.2) ∧
    ∀ p', three_import.1 = Ok p' →
      is_rows_imported (pg_state p') = is_rows_imported (pg_state import_progress) + Z.of_nat (length es) ∧
      is_rows_processed (pg_state p') + pg_failed p' = is_rows_processed (pg_state import_progress) + pg_failed import_progress +
        considered 0 0 (csv_records three_rows) ∧
      is_rows_processed (pg_state p') - is_rows_processed (pg_state import_progress) =
        Z.of_nat (length es) + (is_rows_already_existed (pg_state p') - is_rows_already_existed (pg_state import_progress)) ∧
      is_rows_already_existed (pg_state p') ≤ is_rows_already_existed (pg_state import_progress) +
        indexed_rows three_args "hash" (run_store import_start) (rows_from three_args ∅ import_headers 0 0 (csv_records three_rows)).
Proof.
  split; [vm_compute; reflexivity|].
  apply (import_rows_exact three_args ∅ import_headers "hash" 0 (csv_records three_rows) import_progress quiet import_start three_import.1 three_import.2.1 three_import.2.2).
  - vm_compute. reflexivity.
  - vm_compute. reflexivity.
  - rewrite three_import_eq. exact (triple_eta three_import).
Defined.

(** What the next start of the ledger finds: the balance of the first account,
    the number of indexed entries, and the directory it leaves. *)
Definition restart (d : DataDir) : option (Z * Result LedgerError Z * DataDir) :=
  match open_store false GroupCommit d quiet with
  | Ok s => Some (balance 1 s, (entry_count (quiet, s)).1, disk_of s)
  | Err _ => None
  end.
Definition import_dir (data : bytes) (resume : bool) (x : DataDir * option bytes * option bytes) :
    Result ImportError unit * (DataDir * option bytes * option bytes) :=
  let '(r, (_, y)) := cmd_import (csv_args data resume) quiet (quiet, x) in (r, y).

Definition two_rows : bytes := csv_text ["rent,1000,2000,500,usd,A1"; "fuel,1000,2000,70,usd,A2"]%string.
Definition twice : Result ImportError unit * (DataDir * option bytes * option bytes) :=
  import_dir two_rows false (import_dir two_rows false (disk_of s2, None, None)).2.

(** Importing one file twice, with a column of references as keys, posts every
    row twice; the start that follows shows the doubled balance over an index
    that holds each entry once, and the start after that the single balance
    again. *)
Theorem import_twice_doubles :
  twice.1 = Ok tt ∧ (restart twice.2.1.1 ≫= λ x, Some x.1) = Some (1140, Ok 2) ∧
  (restart twice.2.1.1 ≫= λ x, restart x.2 ≫= λ y, Some y.1) = Some (570, Ok 2).
Proof. vm_compute. repeat split; reflexivity. Qed.

(** A run aborted by its third row, then resumed with the row corrected: the two
    rows before it are posted again. *)
Definition bad_rows : bytes := csv_text ["rent,1000,2000,500,usd,A1"; "fuel,1000,2000,70,usd,A2"; "food,1000,2000,x,usd,A3"]%string.
Definition good_rows : bytes := csv_text ["rent,1000,2000,500,usd,A1"; "fuel,1000,2000,70,usd,A2"; "food,1000,2000,9,usd,A3"]%string.
Definition aborted : Result ImportError unit * (DataDir * option bytes * option bytes) := import_dir bad_rows false (disk_of s2, None, None).

Theorem resume_posts_again :
  aborted.1 = Err (ImRow 3 (RwAmount "x")) ∧ aborted.2.1.2 = None ∧
  (restart (import_dir good_rows true aborted.2).2.1.1 ≫= λ x, Some x.1.1) = Some (570 + 579).
Proof. vm_compute. repeat split; reflexivity. Qed.
