(* ===== verification/OpsWitness.v ===== *)
(** * The theorems about the audit log, the queue and SQL, at concrete inputs

    Each lemma applies one theorem to a concrete log, queue or store (those of
    [Instances]), where its hypotheses hold by evaluation. *)

From stdpp Require Import base gmap list strings option fin_maps sorting relations pretty.
From Stdlib Require Import ZArith Lia Strings.Byte.
From S2P Require Import Prelude Bytes Jsonl Crypto Merkle Money Entry AuditTrail FourEyes WalRecord Wal Recovery Tx Page EntryDb Sql Store StoreFrame StoreBooks StoreInv StoreReverse StoreSafety SqlExec SqlSafety SqlPlan SqlFront Instances OpsInstances.

(** ** The audit log *)

Definition after {S E A} (m : M S E A) (s : S) : S := (m (quiet, s)).2.2.

Lemma run_after {S E A} (m : M S E A) s r : (m (quiet, s)).1 = r → m (quiet, s) = (r, ((m (quiet, s)).2.1, after m s)).
Proof. unfold after. destruct (m (quiet, s)) as [r0 [W0 s0]]. by intros <-. Qed.

(** Two calls reserve their numbers; the second writes first. *)
Definition started : AuditEventKind := ServerStarted "127.0.0.1:5433" "1.0".
Definition closed : AuditEventKind := AccountClosed 1 "ops".
Definition log1 : AuditLog := after reserve fresh_log.
Definition log2 : AuditLog := after reserve log1.
Definition log3 : AuditLog := after (write_event 2 started) log2.
Definition log4 : AuditLog := after (write_event 1 closed) log3.
Definition written (m : M AuditLog AuditError AuditEvent) (l : AuditLog) : list AuditEvent :=
  match (m (quiet, l)).1 with Ok ev => [ev] | Err _ => [] end.
Definition events4 : list AuditEvent := written (write_event 2 started) log2 ++ written (write_event 1 closed) log3.

Lemma log4_run : rtc audit_step (mkCfg fresh_log [] []) (mkCfg log4 [] events4).
Proof.
  eapply rtc_l; [eapply (step_reserve quiet _ fresh_log log1 [] [] 1), run_after; by vm_compute|].
  eapply rtc_l; [eapply (step_reserve quiet _ log1 log2 [1] [] 2), run_after; by vm_compute|].
  eapply rtc_l; [exact (step_write quiet _ log2 log3 [2; 1] [1] [] 2 started _ eq_refl (reflexivity _)
    (run_after (write_event 2 started) log2 _ eq_refl))|].
  eapply rtc_once.
  exact (step_write quiet _ log3 log4 [1] [] (written (write_event 2 started) log2) 1 closed _ eq_refl (reflexivity _)
    (run_after (write_event 1 closed) log3 _ eq_refl)).
Qed.

Lemma audit_interleavings_verify_witness :
  map ae_sequence events4 = [2; 1] ∧
  verify_chain (quiet, log4) = (Ok (as_u64 (Z.of_nat (length events4))), (quiet, log4)) ∧ file_of (al_file log4) events4.
Proof. split; [by vm_compute|]. exact (audit_interleavings_verify (mkCfg log4 [] events4) quiet log4_run eq_refl). Defined.

Lemma audit_tamper_evident_witness :
  length events4 = 2%nat ∧
  (map AuditTrail.canonical_bytes events4 = map AuditTrail.canonical_bytes events4
   ∨ collision (audit_inputs events4) (audit_inputs events4)
   ∨ audit_zero_preimage (audit_inputs events4 ++ audit_inputs events4)).
Proof.
  assert (Hv : (verify_chain (quiet, log4)).1 = Ok 2) by (vm_compute; reflexivity).
  assert (Hp : parse_lines (raw_lines (al_file log4)) = Some events4) by (vm_compute; reflexivity).
  split; [by vm_compute|].
  exact (audit_tamper_evident _ _ _ _ _ _ _ _ _ _ _ (run_after verify_chain log4 _ Hv) (run_after verify_chain log4 _ Hv) Hp Hp eq_refl eq_refl).
Defined.

(** The first write reaches the file, then [sync_all] fails. *)
Definition torn_world : World := mkWorld [] [] [false; false; true].
Definition log_torn : AuditLog := (AuditTrail.append started (torn_world, fresh_log)).2.2.

Lemma sync_failure_breaks_chain_witness :
  (AuditTrail.append started (torn_world, fresh_log)).1 = Err AuditIo ∧
  ∃ ev1 ev2 l2, ae_chain_hash ev1 = al_last_chain fresh_log ∨
  verify_chain (quiet, l2) =
    (Err (ChainBroken (ae_sequence ev2) (PrevMismatch (ae_chain_hash ev1) (al_last_chain fresh_log))), (quiet, l2)).
Proof.
  destruct (AuditTrail.append started (torn_world, fresh_log)) as [r1 [W1 l1]] eqn:H1.
  assert (Hr1 : r1 = Err AuditIo) by (change r1 with (r1, (W1, l1)).1; rewrite <- H1; by vm_compute). subst r1.
  assert (HW1 : W1 = quiet) by (change W1 with (Err (A := AuditEvent) AuditIo, (W1, l1)).2.1; rewrite <- H1; by vm_compute). subst W1.
  assert (Hl1 : l1 = log_torn) by (unfold log_torn; by rewrite H1). subst l1.
  split; [done|].
  assert (Hok : is_ok (AuditTrail.append closed (quiet, log_torn)).1 = true) by (vm_compute; reflexivity).
  assert (HW : (AuditTrail.append closed (quiet, log_torn)).2.1 = quiet) by (vm_compute; reflexivity).
  destruct (AuditTrail.append closed (quiet, log_torn)) as [[ev2|] [W2 l2]] eqn:H2; [|done]. cbn in HW. subst W2.
  exists (built (mkWorld [] [] []) fresh_log (al_next_seq fresh_log) started), ev2, l2.
  exact (sync_failure_breaks_chain [] [] fresh_log [] started closed ev2 quiet log_torn quiet l2 fresh_log_repr H1 H2).
Defined.

(** ** The approval queue *)

Definition id7 : World := mkWorld [] [7] [].
Definition payload : bytes := [Byte.x61; Byte.x62].
Definition request : FeOp := Submit payload "wire" "main" "alice".
Definition accept_all : bytes → bool := λ _, true.
Definition q_submitted : FourEyesQueue * list bytes := (FourEyes.exec (post_log accept_all) request (id7, (empty_queue, []))).2.2.
Definition q_approved : FourEyesQueue * list bytes :=
  (FourEyes.exec (post_log accept_all) (Approve 7 "bob") (quiet, q_submitted)).2.2.

Lemma run_eta {S E A} (m : M S E A) W s : m (W, s) = ((m (W, s)).1, ((m (W, s)).2.1, (m (W, s)).2.2)).
Proof. by destruct (m (W, s)) as [? []]. Qed.

Lemma exec_eta {L} (post : bytes → L → Result string unit * L) op W q l :
  FourEyes.exec post op (W, (q, l)) =
    ((FourEyes.exec post op (W, (q, l))).1, ((FourEyes.exec post op (W, (q, l))).2.1,
      ((FourEyes.exec post op (W, (q, l))).2.2.1, (FourEyes.exec post op (W, (q, l))).2.2.2))).
Proof. by destruct (FourEyes.exec post op (W, (q, l))) as [? [? []]]. Qed.

Lemma exec_simulates_witness :
  (FourEyes.exec (post_log accept_all) request (id7, (empty_queue, []))).1 = Ok tt ∧
  ∃ m', spec_exec (post_log accept_all) request 7 (∅, []) = (Ok tt, (m', [])) ∧ represents q_submitted.1 m'.
Proof.
  assert (Hr : (FourEyes.exec (post_log accept_all) request (id7, (empty_queue, []))).1 = Ok tt) by (vm_compute; reflexivity).
  split; [exact Hr|].
  assert (Hm : represents empty_queue ∅).
  { intros id a. rewrite lookup_empty. split; [done|]. intros (r&Hr'&_). by apply elem_of_nil in Hr'. }
  destruct (exec_simulates (post_log accept_all) request id7 empty_queue [] ∅ _ _ _ _ eq_refl empty_queue_ok Hm eq_refl
    (exec_eta _ _ _ _ _)) as (_&_&m'&Hs&Hrep).
  exists m'. split; [|exact Hrep]. rewrite Hr in Hs. exact Hs.
Defined.

Lemma submitted_step : fe_step accept_all (empty_queue, []) (q_submitted.1, q_submitted.2).
Proof. exact (fe_step_op accept_all request id7 _ empty_queue _ [] _ _ eq_refl (not_elem_of_nil _) (exec_eta _ _ _ _ _)). Qed.

Lemma q_submitted_ok : queue_ok q_submitted.1.
Proof. apply (fe_step_segregated _ _ _ _ _ submitted_step); [apply empty_queue_ok|by split]. Qed.

Lemma approved_run : rtc (fe_step accept_all) (empty_queue, []) q_approved.
Proof.
  eapply rtc_l; [exact submitted_step|]. eapply rtc_once. unfold q_approved.
  rewrite (surjective_pairing (FourEyes.exec _ _ (quiet, q_submitted)).2.2), (surjective_pairing q_submitted).
  exact (fe_step_op accept_all (Approve 7 "bob") quiet _ _ _ _ _ _ eq_refl I (exec_eta _ _ _ _ _)).
Qed.

Lemma four_eyes_segregation_witness :
  q_approved.2 = [payload] ∧
  q_approved.2 = map FourEyes.payload_of (approved_of q_approved.1) ∧
  Forall (λ r, ∃ who, ar_approver_id r = Some who ∧ ar_submitter_id r ≠ who) (approved_of q_approved.1) ∧
  NoDup (map ar_id (records_of q_approved.1)).
Proof.
  split; [by vm_compute|]. apply (four_eyes_segregation accept_all). rewrite <- surjective_pairing. exact approved_run.
Defined.

Lemma approve_failure_posts_twice_witness :
  ∃ W1 r2 W3 q3,
    FourEyes.exec (post_log accept_all) (Approve 7 "bob") (mkWorld [] [] [true], (q_submitted.1, [])) =
      (Err FeIo, (W1, (q_submitted.1, [payload]))) ∧
    FourEyes.exec (post_log accept_all) (Approve 7 "bob") (quiet, (q_submitted.1, [payload])) =
      (r2, (W3, (q3, [payload; payload]))) ∧ r2 = Ok tt.
Proof.
  set (r := mkApprovalRecord 7 APending "alice" None None 0 None (to_hex payload) "wire" "main").
  exact (approve_failure_posts_twice accept_all (mkWorld [] [] [true]) q_submitted.1 [] r "bob" quiet q_submitted_ok
    ltac:(vm_compute; reflexivity) ltac:(vm_compute; reflexivity) ltac:(done) eq_refl eq_refl eq_refl).
Defined.

(** ** SQL *)

(** The result of a query on a store, when the model evaluates to one. *)
Definition answer (m : M LedgerStore SqlError QueryResult) (s : LedgerStore) : QueryResult :=
  match (m (quiet, s)).1 with Ok r => r | Err _ => qr_empty "" end.

Lemma run_answer m s : is_ok (m (quiet, s)).1 = true → ∃ W s', m (quiet, s) = (Ok (answer m s), (W, s')).
Proof. unfold answer. destruct (m (quiet, s)) as [[r|] [W s']]; [|done]. intros _. by exists W, s'. Qed.

#[local] Notation proof_scan := (read_execute true (ScanEntries None [])).

Lemma scan_proofs_verify_witness :
  ∃ p lp, qr_proof (answer proof_scan s4) = Some p ∧ qp_leaf_proofs p !! 0%nat = Some lp ∧
    MerkleProof_verify (mkProof (lp_leaf_index lp) (lp_leaf_hash lp) (lp_path lp) (qp_root p)) = Ok tt.
Proof.
  assert (Hlen : length (qr_rows (answer proof_scan s4)) = 2%nat) by (vm_compute; reflexivity).
  destruct (run_answer proof_scan s4) as (W&s'&He); [vm_compute; reflexivity|].
  destruct (scan_proofs_verify _ _ _ _ _ _ He) as (matched&cap&_&_&Hrows&Hp).
  rewrite Hrows, length_map in Hlen. destruct matched as [|e matched]; [discriminate Hlen|].
  destruct Hp as (p&Hp&_&Hl&_); [intros Hnil; discriminate Hnil|]. destruct (Hl 0%nat e eq_refl) as (lp&Hlp&_&Hv). exists p, lp. exact (conj Hp (conj Hlp Hv)).
Defined.

#[local] Notation balance_of_cash := (read_execute false (GetBalance "1000")).

Lemma balance_query_exact_witness :
  ∃ es id a, ledger_inv s3 es ∧ ls_accounts s3 !! id = Some a ∧ acc_code a = "1000"%string ∧
    qr_rows (answer balance_of_cash s3) =
      [mkRow ["account"; "balance"] [VText "1000"; VBigInt (sum_effects (ls_accounts s3) id es)]].
Proof.
  destruct (reachable_inv s3 reachable_s3) as [es Hi].
  destruct (run_answer balance_of_cash s3) as (W&s'&He); [vm_compute; reflexivity|].
  destruct (balance_query_exact _ _ _ _ es _ _ _ Hi He) as (_&_&id&a&Ha&Hc&Hr).
  exists es, id, a. destruct Hc as [Hc|Hc]; [discriminate Hc|]. exact (conj Hi (conj Ha (conj Hc Hr))).
Defined.

Definition transfer : EntrySpec := mkEntrySpec "repay" "2000" "1000" 200 "usd" None None "main".
#[local] Notation insert_transfer := (execute false (PostEntry transfer)).

Lemma insert_posts_transfer_witness :
  qr_entry_sequence (answer insert_transfer s3) = Some 2 ∧
  ∃ s' d c, resolve_account "2000" s3 = Ok d ∧ resolve_account "1000" s3 = Ok c ∧
    ∀ id, balance id s' = balance id s3 + transfer_effect (ls_accounts s3) d c 200 id.
Proof.
  split; [vm_compute; reflexivity|]. destruct (reachable_inv s3 reachable_s3) as [es Hi].
  destruct (run_answer insert_transfer s3) as (W&s'&He); [vm_compute; reflexivity|].
  destruct (insert_posts_transfer false transfer quiet s3 _ W s' (inv_accounts _ _ Hi) eq_refl He)
    as (d&c&Hd&Hc&_&_&_&_&_&_&Hb).
  exists s', d, c. exact (conj Hd (conj Hc Hb)).
Defined.

#[local] Notation count_query alias := (Aggregate (ScanEntries None []) [] [mkAggExpr AggCount "*" alias]).

Lemma count_star_capped_witness :
  ∃ es r, db_repr (db_tables (ls_db s3)) es ∧ read_execute false (count_query "n") (quiet, s3) = (Ok r, (quiet, s3)) ∧
    qr_rows r = [mkRow ["n"] [VBigInt (Z.min 10000 (Z.of_nat (length es)))]].
Proof.
  destruct (reachable_inv s3 reachable_s3) as [es Hi].
  assert (Hb : balance 1 s3 = 500) by (vm_compute; reflexivity).
  assert (Hne : es ≠ []).
  { intros ->. pose proof (inv_balance _ _ Hi 1) as Hs. rewrite Hb in Hs. discriminate Hs. }
  destruct (count_star_capped false quiet s3 es "n" eq_refl (inv_db _ _ Hi) Hne) as (r&He&Hr).
  exists es, r. exact (conj (inv_db _ _ Hi) (conj He Hr)).
Defined.

(** The number of lines of the first entry a scan returns. *)
Definition first_lines (r : Result LedgerError (list JournalEntry)) : nat :=
  match r with Ok (e :: _) => length (e_lines e) | _ => 0 end.

Lemma join_lines_accounts_panics_witness :
  read_execute false (Join (ScanLedgerLines None []) (ScanAccounts None []) Inner "on" []) (quiet, s3) = (Err SqlPanic, (quiet, s3)).
Proof.
  destruct (reachable_inv s3 reachable_s3) as [es Hi].
  assert (Hf : first_lines (entries_scan 1 (quiet, s3)).1 = 2%nat) by (vm_compute; reflexivity).
  rewrite (entries_scan_quiet quiet s3 es 1 eq_refl (inv_db _ _ Hi) ltac:(lia)) in Hf.
  destruct es as [|e es]; [discriminate Hf|]. destruct (e_lines e) as [|l ls] eqn:Hl.
  - exfalso. change (length (e_lines e) = 2%nat) in Hf. rewrite Hl in Hf. discriminate Hf.
  - exact (join_lines_accounts_panics false Inner "on" [] quiet s3 e es l ls eq_refl Hi Hl).
Defined.

Lemma select_never_writes_witness :
  ∃ W' s' r, execute true (ScanEntries (Some (BySequence 1)) []) (quiet, s4) = (r, (W', s')) ∧ s' = s4.
Proof.
  pose (q := mkQuery (SetSelect (mkSelect [Wildcard] [(Table "ledger", [])]
    (Some (BinaryEq (Identifier "sequence") (ExprValue (Number "1")))) (GroupByExprs []))) None).
  assert (Hp : plan (λ _, ""%string) (λ _, ""%string) (StQuery q) = Ok (ScanEntries (Some (BySequence 1)) [])) by (vm_compute; reflexivity).
  destruct (execute true (ScanEntries (Some (BySequence 1)) []) (quiet, s4)) as [r [W' s']] eqn:He.
  exists W', s', r. split; [reflexivity|]. exact (select_never_writes _ _ true q _ quiet s4 r W' s' Hp He).
Defined.

Lemma insert_plan_roundtrip_witness :
  plan (λ _, ""%string) (λ _, ""%string) (insert_of_spec transfer "200") = Ok (PostEntry transfer).
Proof. apply insert_plan_roundtrip. vm_compute. reflexivity. Defined.
