(* ===== verification/CoreWitness.v ===== *)
(** * The theorems about hashes, log, transactions and pages, at concrete inputs *)

From stdpp Require Import base gmap list strings option fin_maps sorting.
From Stdlib Require Import ZArith Lia.
From S2P Require Import Prelude Bytes Crypto Merkle Money Entry WalRecord Wal Recovery WalRotate Tx Page EntryDb Store Instances.

(** ** Checking hypotheses by evaluation *)

Lemma run_eq {S E A} (m : M S E A) σ r : (m σ).1 = r → m σ = (r, ((m σ).2.1, (m σ).2.2)).
Proof. destruct (m σ) as [r0 [W s]]. by intros <-. Qed.

#[global] Instance record_ok_dec r : Decision (record_ok r).
Proof. unfold record_ok. apply _. Defined.

Definition all_types : list RecordType := [RBegin; RData; RCommit; RRollback; RCheckpoint].
Definition typedb (r : WalRecord) : bool := existsb (λ ty, h_record_type (r_header r) =? record_type_u8 ty) all_types.

Lemma typedb_all rs : forallb typedb rs = true → Forall typed rs.
Proof.
  rewrite forallb_forall, Forall_forall. intros Hb r Hr%list_elem_of_In. specialize (Hb r Hr).
  unfold typedb in Hb. apply existsb_exists in Hb as (ty & _ & Ht). exists ty. lia.
Qed.

Lemma record_ok_check r : bool_decide (record_ok r) = true → record_ok r.
Proof. apply bool_decide_eq_true. Qed.

Lemma records_ok_all rs : forallb (λ r, bool_decide (record_ok r)) rs = true → Forall record_ok rs.
Proof.
  rewrite forallb_forall, Forall_forall. intros Hb r Hr%list_elem_of_In. specialize (Hb r Hr).
  by apply bool_decide_eq_true in Hb.
Qed.

(** The records a directory holds, and a log in one plaintext segment. *)
Definition log_of (dir : gmap Z bytes) : list WalRecord := omap res_ok (wal_items dir None 0).

Definition one_segment (w : WalWriter) (rs : list WalRecord) : bool :=
  bool_decide (list_segments (ww_dir w) = [seg_index (ww_active w)]) &&
  bool_decide (ww_dir w !! seg_index (ww_active w) = Some (concat (map encode_record rs))) &&
  forallb (λ r, bool_decide (record_ok r)) rs && (ww_next_segment_index w =? seg_index (ww_active w) + 1) &&
  (0 <=? seg_index (ww_active w)).

Lemma one_segment_inv w rs : one_segment w rs = true → wal_inv w rs.
Proof.
  unfold one_segment. rewrite !andb_true_iff, !bool_decide_eq_true, Z.eqb_eq, Z.leb_le. intros [[[[Hl Hd] Hok] Hn] Hpos].
  apply records_ok_all in Hok. exists [], (map (λ r, (r, encode_record r)) rs). cbn [app]. split_and!; [|..].
  - split_and!; [done| |].
    + apply Forall_singleton. unfold seg_content. cbn. by rewrite map_map.
    + apply Forall_singleton. unfold seg_ok. cbn [snd]. apply Forall_map. eapply Forall_impl; [exact Hok|].
      intros r Hr. split; [done|constructor].
  - cbn. rewrite app_nil_r. unfold seg_records. cbn. rewrite map_map. by rewrite map_id.
  - done.
  - by apply Forall_singleton.
Qed.

(** ** The ledger chain and Merkle trees *)

Definition entry_a : JournalEntry :=
  finalize_chain_hash ZERO_HASH (mkEntry 1 1 Posted "a" [mkLine 1 1 "USD" (MkAmount 5) Debit None; mkLine 2 2 "USD" (MkAmount 5) Credit None]
    3 4 None None None None "main" ZERO_HASH ZERO_HASH ZERO_HASH None None).

Lemma ledger_tamper_evident_witness :
  verify_entries ZERO_HASH [entry_a] = None ∧
  (map hashed_part [entry_a] = map hashed_part [entry_a] ∨ collision (ledger_inputs [entry_a]) (ledger_inputs [entry_a]) ∨
   zero_preimage (ledger_inputs [entry_a] ++ ledger_inputs [entry_a])).
Proof.
  assert (Hw : Forall (λ e, entry_wf e = true) [entry_a]) by (constructor; [vm_compute; reflexivity|constructor]).
  assert (Hv : verify_entries ZERO_HASH [entry_a] = None) by (vm_compute; reflexivity).
  split; [exact Hv|]. exact (ledger_tamper_evident [entry_a] [entry_a] Hw Hw Hv Hv eq_refl).
Defined.

Definition three_items : list bytes := [[Byte.x01]; [Byte.x02]; [Byte.x03]].
Definition proof_1 : MerkleProof := default (mkProof 0 [] [] []) (merkle_proof three_items 1).

Lemma merkle_proof_complete_witness :
  (1 < length three_items)%nat ∧
  ∃ p, merkle_proof three_items 1 = Some p ∧ root p = merkle_root three_items ∧
    leaf_hash p = hash_leaf (three_items !!! 1%nat) ∧ MerkleProof_verify p = Ok tt.
Proof. split; [cbn; lia|]. apply (merkle_proof_complete three_items 1). cbn. lia. Defined.

Lemma merkle_proof_sound_witness :
  MerkleProof_verify proof_1 = Ok tt ∧
  ([Byte.x02] ∈ three_items ∨ collision (proof_inputs [Byte.x02] proof_1) (root_inputs three_items)).
Proof.
  assert (Hv : MerkleProof_verify proof_1 = Ok tt) by (vm_compute; reflexivity).
  split; [exact Hv|]. apply (merkle_proof_sound three_items proof_1 [Byte.x02]).
  - discriminate.
  - vm_compute. repeat constructor.
  - vm_compute. reflexivity.
  - vm_compute. reflexivity.
  - exact Hv.
Defined.

(** ** The log *)

Definition wal0 : WalWriter := open_with_options ∅ 4096 PerRecord None.
Definition begin_bytes : bytes := default [] (enc (mkBegin None)).
Definition first_append : Result WalError WalRecord * (World * WalWriter) := append 1 RBegin begin_bytes (quiet, wal0).
Definition rec1 : WalRecord := default (mkRecord (mkHeader 0 0 0 0 0 0 0) [] 0) (res_ok first_append.1).

Lemma segment_items_roundtrip_witness :
  record_ok rec1 ∧
  (segment_items None 0 (concat [encode_record rec1]) = map Ok [rec1] ∧
   (record_ok rec1 → encode_record rec1 = take 10 (encode_record rec1) ++ drop 10 (encode_record rec1) →
    drop 10 (encode_record rec1) ≠ [] →
    segment_items None 0 (concat [encode_record rec1] ++ take 10 (encode_record rec1)) = map Ok [rec1] ∨
    ∃ e, torn e ∧ segment_items None 0 (concat [encode_record rec1] ++ take 10 (encode_record rec1)) = map Ok [rec1] ++ [Err e])).
Proof.
  assert (Hok : record_ok rec1) by (apply record_ok_check; vm_compute; reflexivity).
  split; [exact Hok|]. apply (segment_items_roundtrip None 0 [rec1] [encode_record rec1] rec1).
  - constructor; [exact Hok|constructor].
  - constructor; [apply stored_plain|constructor].
Defined.

Lemma append_appends_witness :
  first_append.1 = Ok rec1 ∧
  (wal_inv first_append.2.2 ([] ++ [rec1]) ∧ record_ok rec1 ∧ r_payload rec1 = begin_bytes ∧ h_tx_id (r_header rec1) = 1 ∧
   h_record_type (r_header rec1) = record_type_u8 RBegin ∧ h_sequence (r_header rec1) = wadd_u64 (ww_sequence wal0) 1).
Proof.
  assert (Hr : first_append.1 = Ok rec1) by (vm_compute; reflexivity).
  split; [exact Hr|].
  apply (append_appends 1 RBegin begin_bytes quiet wal0 [] rec1 first_append.2.1 first_append.2.2).
  - apply open_empty_wal.
  - unfold u64_ok. lia.
  - vm_compute. split; [discriminate|reflexivity].
  - vm_compute. discriminate.
  - exact (run_eq (append 1 RBegin begin_bytes) (quiet, wal0) _ Hr).
Defined.

(** ** Transactions *)

Definition manager0 : TransactionManager :=
  match open_with_signing_and_mode ∅ (Some 5) PerRecord quiet with
  | Ok m => m | Err _ => mkManager wal0 0 ∅ ∅ 0 None end.
Definition row1 : bytes := [Byte.x07; Byte.x08].
Definition manager1 : TransactionManager := (begin None (quiet, manager0)).2.2.
Definition manager2 : TransactionManager := (add_mutation 1 1 0 0 Insert row1 None (quiet, manager1)).2.2.
Definition manager3 : TransactionManager := (commit 1 (quiet, manager2)).2.2.
Definition tx1 : Transaction := default (Transaction_new 0 0 0 None) (tm_active manager2 !! 1).
Definition dir3 : gmap Z bytes := ww_dir (tm_wal manager3).
Definition log2 : list WalRecord := log_of (ww_dir (tm_wal manager2)).
Definition log3 : list WalRecord := log_of dir3.
Definition begin_rec : WalRecord := default rec1 (log3 !! 0%nat).
Definition data_rec : WalRecord := default rec1 (log3 !! 1%nat).
Definition commit_rec : WalRecord := default rec1 (log3 !! 2%nat).

Lemma manager0_opens : open_with_signing_and_mode ∅ (Some 5) PerRecord quiet = Ok manager0.
Proof.
  unfold manager0. assert (Hok : is_ok (open_with_signing_and_mode ∅ (Some 5) PerRecord quiet) = true) by (vm_compute; reflexivity).
  by destruct (open_with_signing_and_mode _ _ _ _).
Qed.

Lemma manager_invariant_witness :
  open_with_signing_and_mode ∅ (Some 5) PerRecord quiet = Ok manager0 ∧
  tm_inv ((run_ops [OpBegin None; OpAdd 1 1 0 0 Insert row1 None; OpCommit 1] (quiet, manager0)).2.2).
Proof.
  split; [exact manager0_opens|].
  exact (manager_invariant ∅ (Some 5) PerRecord quiet manager0 [OpBegin None; OpAdd 1 1 0 0 Insert row1 None; OpCommit 1] quiet manager0_opens).
Defined.

Lemma recover_computes_committed_witness :
  wal_items dir3 None 0 = map Ok log3 ++ [] ∧
  recover_with_options dir3 None false =
    Ok (mkRecovery (sort_by_seq (committed_spec log3)) (size (open_txs log3)) (Recovery.max_sequence log3) false).
Proof.
  assert (Hi : wal_items dir3 None 0 = map Ok log3 ++ []) by (vm_compute; reflexivity).
  split; [exact Hi|]. apply (recover_computes_committed dir3 None log3 [] false Hi); [|reflexivity].
  apply typedb_all. vm_compute. reflexivity.
Defined.

Lemma recover_streaming_spec_witness :
  ∃ n, recover_streaming TxWal note_commit dir3 None true None 0 (quiet, 0) =
    (forM (handle TxWal note_commit true None) (committed_spec log3) ≫= λ _, mret (mkRecovery [] n (Recovery.max_sequence log3) false)) (quiet, 0).
Proof.
  apply (recover_streaming_spec TxWal note_commit true None dir3 None 0 log3 [] false (quiet, 0)).
  - vm_compute. reflexivity.
  - apply typedb_all. vm_compute. reflexivity.
  - reflexivity.
Defined.

Lemma recover_verified_sound_witness :
  ∃ res ct, recover_verified dir3 None = Ok res ∧ ct ∈ rr_committed res ∧
    recover_with_options dir3 None false = Ok res ∧
    ∃ p dps, decode_commit_payload (ct_commit_record ct) = Ok p ∧
      cp_record_count p = as_u32 (Z.of_nat (length (ct_data_records ct))) ∧
      mapM (λ d, res_ok (decode_data_payload d)) (ct_data_records ct) = Some dps ∧
      cp_tx_hash p = blake3 (concat (map dp_row_hash dps)).
Proof.
  assert (Hc : match recover_verified dir3 None with Ok res => negb (length (rr_committed res) =? 0)%nat | Err _ => false end = true)
    by (vm_compute; reflexivity).
  destruct (recover_verified dir3 None) as [res|] eqn:Hr; [|discriminate].
  destruct (rr_committed res) as [|ct cts] eqn:Hl; [discriminate|].
  assert (Hin : ct ∈ rr_committed res) by (rewrite Hl; left).
  exists res, ct. split; [reflexivity|]. split; [exact Hin|].
  exact (recover_verified_sound dir3 None res ct Hr Hin).
Defined.

Definition fitsb {P} `{Codec P} (p : P) : bool :=
  match enc p with Some bs => Z.of_nat (length bs) <=? MAX_RECORD_PAYLOAD - 54 | None => true end.

Lemma fits_check {P} `{Codec P} (p : P) : fitsb p = true → fits p.
Proof. unfold fitsb, fits. intros Hf bs Hb. rewrite Hb in Hf. lia. Qed.

Lemma fits_all ms : forallb (λ m, fitsb (data_payload m)) ms = true → Forall (fits ∘ data_payload) ms.
Proof.
  rewrite forallb_forall, Forall_forall. intros Hb m Hm%list_elem_of_In. by apply fits_check, Hb.
Qed.

Lemma manager2_inv : tm_inv manager2.
Proof.
  assert (Hi : tm_inv manager0).
  { unfold tm_inv. assert (He : tm_active manager0 = ∅) by (vm_compute; reflexivity). rewrite He. apply map_Forall_empty. }
  assert (Hi1 : tm_inv manager1) by exact (begin_preserves None quiet manager0 Hi).
  exact (add_mutation_preserves 1 1 0 0 Insert row1 None quiet manager1 Hi1).
Qed.


Lemma commit_crash_atomic_witness :
  ∃ res, recover_with_options
      (ww_dir (append_file (take 60 (concat (map encode_record ([data_rec] ++ [commit_rec])))) (tm_wal manager2))) None false = Ok res ∧
    rr_committed res = sort_by_seq (committed_spec log2).
Proof.
  apply (commit_crash_atomic 1 (tm_wal manager2) log2 [data_rec] commit_rec _
    (drop 60 (concat (map encode_record ([data_rec] ++ [commit_rec]))))).
  - apply one_segment_inv. vm_compute. reflexivity.
  - apply typedb_all. vm_compute. reflexivity.
  - apply records_ok_all. vm_compute. reflexivity.
  - constructor; [vm_compute; split; reflexivity|constructor].
  - symmetry. apply take_drop.
  - vm_compute. discriminate.
Defined.

(** The log of an interrupted transaction. *)
Definition crashed_dir : gmap Z bytes := {[0 := concat (map encode_record [begin_rec; data_rec])]}.

Lemma reused_tx_id_merges_witness :
  (∃ m, open_with_signing_and_mode crashed_dir (Some 5) PerRecord quiet = Ok m ∧ tm_next_tx_id m = 1) ∧
  committed_spec ([begin_rec; data_rec] ++ [begin_rec] ++ [data_rec] ++ [commit_rec]) =
    committed_spec [begin_rec; data_rec] ++
      [mkCommitted 1 commit_rec (payloads_of (data_of 1 [begin_rec; data_rec] ++ [data_rec])) (data_of 1 [begin_rec; data_rec] ++ [data_rec])].
Proof.
  apply (reused_tx_id_merges crashed_dir _ PerRecord quiet [begin_rec; data_rec] begin_rec [data_rec] commit_rec).
  - vm_compute. discriminate.
  - vm_compute. reflexivity.
  - apply typedb_all. vm_compute. reflexivity.
  - vm_compute. reflexivity.
  - vm_compute. reflexivity.
  - constructor; [vm_compute; split; reflexivity|constructor].
  - vm_compute. reflexivity.
  - vm_compute. reflexivity.
Defined.

Definition version1 : RowVersion := mkVersion 3 0 1 row1 ZERO_HASH ZERO_HASH.
Definition version2 : RowVersion := mkVersion 7 0 2 [] ZERO_HASH ZERO_HASH.

Lemma snapshot_stable_witness :
  rv_data <$> latest_visible ([mark_deleted 6 version1] ++ [version2]) 5 = rv_data <$> latest_visible [version1] 5.
Proof.
  apply (snapshot_stable 5 [version1] [mark_deleted 6 version1] [version2]).
  - constructor; [|constructor]. right. split; [reflexivity|]. exists 6. split; [lia|reflexivity].
  - constructor; [vm_compute; discriminate|constructor].
Defined.

(** ** Pages *)

Lemma write_slot_spec_witness :
  ∃ p, page_repr p [] ∧
    match write_slot row1 p with
    | Ok (i, p') => pg_sealed p = false ∧ i = 0 ∧ page_repr p' ([] ++ [row1]) ∧ read_slot i p' = Ok row1 ∧
        (∀ j, 0 ≤ j < i → read_slot j p' = read_slot j p)
    | Err e => (pg_sealed p = true ∧ e = PageSealed (ph_page_id (pg_header p))) ∨
        (pg_sealed p = false ∧ ph_free_bytes (pg_header p) < 4 + Z.of_nat (length row1) ∧
         e = PageFull (ph_page_id (pg_header p)) (ph_free_bytes (pg_header p)) (4 + Z.of_nat (length row1)))
    end.
Proof.
  destruct (with_size_repr 3 1 200) as (p & _ & Hp & _); [unfold u64_ok; lia|unfold u32_ok; lia|vm_compute; discriminate|vm_compute; reflexivity|].
  exists p. split; [exact Hp|]. exact (write_slot_spec p [] row1 Hp).
Defined.

Lemma seal_from_bytes_witness :
  ∃ p p', page_repr p [] ∧ seal p = Ok p' ∧ from_bytes (pg_buf p') = Ok p' ∧ pg_sealed p' = true ∧ page_repr p' [] ∧
    ∀ i, 0 ≤ i → read_slot i p' = read_slot i p.
Proof.
  destruct (with_size_repr 3 1 200) as (p & _ & Hp & _); [unfold u64_ok; lia|unfold u32_ok; lia|vm_compute; discriminate|vm_compute; reflexivity|].
  destruct (seal_from_bytes p [] Hp) as [p' Hs]. exists p, p'. split; [exact Hp|exact Hs].
Defined.

(** A sealed page of 200 bytes with one row. *)
Definition sealed_page : Page :=
  match p ← with_size 0 1 200; ip ← write_slot row1 p; seal ip.2 with
  | Ok p => p | Err _ => mkPage [] (PageHeader_new 0 0 0) false 0 end.

Lemma from_bytes_tamper_evident_witness :
  from_bytes (pg_buf sealed_page) = Ok sealed_page ∧
  (page_body sealed_page = page_body sealed_page ∨ collision [page_body sealed_page] [page_body sealed_page]).
Proof.
  assert (Hb : from_bytes (pg_buf sealed_page) = Ok sealed_page) by (vm_compute; reflexivity).
  split; [exact Hb|]. exact (from_bytes_tamper_evident _ _ _ _ Hb Hb eq_refl).
Defined.

Definition store200 : PageStore := PageStore_open ∅ 200.

Lemma write_read_page_witness :
  (write_page sealed_page (quiet, store200)).1 = Ok tt ∧
  (read_page 1 0 (quiet, (write_page sealed_page (quiet, store200)).2.2)).1 = Ok sealed_page.
Proof.
  assert (Hw : (write_page sealed_page (quiet, store200)).1 = Ok tt) by (vm_compute; reflexivity).
  split; [exact Hw|].
  eapply proj1, (write_read_page store200 quiet sealed_page 1 0 tt (write_page sealed_page (quiet, store200)).2.1
    (write_page sealed_page (quiet, store200)).2.2 quiet); [..|exact (run_eq (write_page sealed_page) (quiet, store200) _ Hw)|reflexivity].
  - intros k f Hk. vm_compute in Hk. discriminate Hk.
  - unfold table_ok. lia.
  - vm_compute. split; [reflexivity|split; [discriminate|reflexivity]].
  - split; [vm_compute; reflexivity|]. split; [vm_compute; reflexivity|]. split; [vm_compute; reflexivity|].
    split; vm_compute; reflexivity.
  - vm_compute. reflexivity.
Defined.

(** ** Key rotation *)

Definition old_key : bytes := le_bytes 32 1.
Definition new_key : bytes := le_bytes 32 2.
Definition seal_as (mk : bytes) (idx : Z) (r : WalRecord) : bytes :=
  match derive_segment_key mk idx with
  | Ok sk => match encrypt_record sk (le_bytes 12 7) (encode_record r) idx with Ok c => c | Err _ => [] end
  | Err _ => []
  end.
Definition seg_plain : seg := (0, map (λ r, (r, encode_record r)) log3).
Definition seg_sealed : seg := (1, map (λ r, (r, seal_as old_key 1 r)) log3).
Definition rot_dir : gmap Z bytes := {[0 := seg_content seg_plain; 1 := seg_content seg_sealed]}.

Lemma log3_ok : Forall record_ok log3.
Proof. apply records_ok_all. vm_compute. reflexivity. Qed.

Lemma Forall_leb {A} (f : A → Z) b l : forallb (λ x, f x <=? b) l = true → Forall (λ x, f x ≤ b) l.
Proof. rewrite forallb_forall, Forall_forall. intros Hf x Hx%list_elem_of_In. specialize (Hf x Hx). lia. Qed.

Lemma seal_as_stored mk r :
  Z.of_nat (length (seal_as mk 1 r)) ≤ MAX_RECORD_PAYLOAD + 20 → stored (Some mk) 1 r (seal_as mk 1 r).
Proof. intros Hl. exact (stored_enc (Some mk) 1 r mk _ (le_bytes 12 7) (seal_as mk 1 r) eq_refl eq_refl (le_bytes_length _ _) eq_refl Hl). Qed.

Lemma rot_dir_repr : dir_repr (Some old_key) rot_dir [seg_plain; seg_sealed].
Proof.
  split_and!; [by vm_compute|repeat constructor; by vm_compute|]. constructor; [|constructor; [|constructor]].
  - unfold seg_ok. cbn [seg_plain fst snd]. apply Forall_map. eapply Forall_impl; [exact log3_ok|]. intros r Hr. split; [done|constructor].
  - unfold seg_ok. cbn [seg_sealed fst snd]. apply Forall_map.
    assert (Hlen : Forall (λ r, Z.of_nat (length (seal_as old_key 1 r)) ≤ MAX_RECORD_PAYLOAD + 20) log3)
      by (apply Forall_leb; vm_compute; reflexivity).
    pose proof (proj2 (Forall_and _ _) (conj log3_ok Hlen)) as Hboth. eapply Forall_impl; [exact Hboth|].
    intros r [Hr Hl]. split; [done|]. by apply seal_as_stored.
Qed.

Lemma log3_fits : Forall seal_fits log3.
Proof.
  assert (Hb : forallb (λ r, Z.of_nat (length (r_payload r)) <=? MAX_RECORD_PAYLOAD - 54) log3 = true) by (vm_compute; reflexivity).
  exact (Forall_leb (λ r, Z.of_nat (length (r_payload r))) (MAX_RECORD_PAYLOAD - 54) log3 Hb).
Qed.
Lemma seg_records_map i f l : seg_records (i, map (λ r, (r, f r)) l) = l.
Proof. unfold seg_records. cbn [snd]. rewrite map_map. cbn [fst]. apply map_id. Qed.
Lemma rot_dir_fits : Forall (λ s : seg, Forall seal_fits (seg_records s)) [seg_plain; seg_sealed].
Proof.
  apply Forall_cons_2; [|apply Forall_cons_2; [|apply Forall_nil_2]]; unfold seg_plain, seg_sealed; rewrite seg_records_map; apply log3_fits.
Qed.

Lemma can_seal_toy mk segs : can_seal mk segs.
Proof. split; [apply Forall_forall; by intros i _|]. intros k n a m. by eexists. Qed.

Lemma rotation_preserves_log_witness :
  wal_items rot_dir (Some old_key) 0 = map Ok (log3 ++ log3) ∧
  ∃ res W' s', rotate_wal_key (Some old_key) new_key false (quiet, mkRotDir rot_dir ∅) = (Ok res, (W', s')) ∧
    wal_items (rd_files s') (Some new_key) 0 = wal_items rot_dir (Some old_key) 0 ∧
    ∀ verify, recover_with_options (rd_files s') (Some new_key) verify = recover_with_options rot_dir (Some old_key) verify.
Proof.
  split; [vm_compute; reflexivity|].
  apply (rotation_preserves_log (Some old_key) new_key [seg_plain; seg_sealed] quiet rot_dir ∅);
    [exact rot_dir_repr|by repeat constructor|exact rot_dir_fits|apply can_seal_toy|reflexivity].
Defined.

(** The fourteenth I/O call fails, while the second segment is rewritten. *)
Definition failing : World := mkWorld [] [] (replicate 14 false ++ [true]).
Definition failed_rotation := rotate_wal_key (Some old_key) new_key false (failing, mkRotDir rot_dir ∅).

Lemma rotation_crash_safe_witness :
  failed_rotation.1 = Err WalIo ∧
  ∃ k, list_segments (rd_files failed_rotation.2.2) = list_segments rot_dir ∧
  Forall (λ s, resealed new_key s.1 (seg_records s) (rd_files failed_rotation.2.2)) (take k [seg_plain; seg_sealed]) ∧
  Forall (λ s, rd_files failed_rotation.2.2 !! s.1 = Some (seg_content s)) (drop k [seg_plain; seg_sealed]) ∧
  (∀ res, failed_rotation.1 = Ok res → k = 2%nat ∧ kr_segments_rotated res + kr_segments_encrypted res = Z.of_nat k).
Proof.
  split; [by vm_compute|].
  exact (rotation_crash_safe (Some old_key) new_key false [seg_plain; seg_sealed] failing rot_dir ∅ _ _ _ rot_dir_repr
    (run_eq _ _ _ eq_refl)).
Defined.

(** Only the sealed segment, rotated with the wrong key. *)
Definition sealed_dir : gmap Z bytes := {[1 := seg_content seg_sealed]}.
Definition wrong_rotation := rotate_wal_key (Some new_key) (le_bytes 32 3) false (quiet, mkRotDir sealed_dir ∅).

Lemma rotation_with_wrong_key_witness :
  wrong_rotation.1 = Ok (mkRotation 1 0 0) ∧ rd_files wrong_rotation.2.2 = sealed_dir ∧
  1 + 0 + 0 = Z.of_nat (length (list_segments sealed_dir)).
Proof.
  assert (Hr : wrong_rotation.1 = Ok (mkRotation 1 0 0)) by (vm_compute; reflexivity).
  split; [exact Hr|].
  apply (rotation_with_wrong_key (Some new_key) (le_bytes 32 3) false quiet sealed_dir ∅ (mkRotation 1 0 0) _ _ (run_eq _ _ _ Hr)).
  intros idx content Hc. unfold sealed_dir in Hc. apply lookup_singleton_Some in Hc as [<- <-]. exists []. vm_compute. reflexivity.
Defined.

Lemma rotation_loses_active_witness :
  wal_items (rd_files (rotate_wal_key (Some old_key) new_key true (quiet, mkRotDir rot_dir ∅)).2.2) (Some new_key) 0
    = map Ok (flat_map seg_records [seg_plain]) ++ [Err Decryption] ∧
  wal_items rot_dir (Some old_key) 0 = map Ok (flat_map seg_records [seg_plain] ++ seg_records seg_sealed).
Proof.
  assert (Hr : (rotate_wal_key (Some old_key) new_key true (quiet, mkRotDir rot_dir ∅)).1 = Ok (mkRotation 0 1 1)) by (vm_compute; reflexivity).
  assert (Hbad : segment_items (Some new_key) seg_sealed.1 (seg_content seg_sealed) = [Err Decryption]) by (vm_compute; reflexivity).
  assert (Hf : Forall (λ s : seg, Forall seal_fits (seg_records s)) [seg_plain]).
  { apply Forall_cons_2; [unfold seg_plain; rewrite seg_records_map; exact log3_fits|apply Forall_nil_2]. }
  assert (Hp : Forall (λ s : seg, 0 ≤ s.1) ([seg_plain] ++ [seg_sealed])).
  { apply Forall_cons_2; [by vm_compute|]. apply Forall_cons_2; [by vm_compute|apply Forall_nil_2]. }
  exact (rotation_loses_active (Some old_key) new_key [seg_plain] seg_sealed quiet rot_dir ∅ _ _ _ rot_dir_repr Hp Hf (run_eq _ _ _ Hr) Hbad).
Defined.
