(* ===== verification/ServerWitness.v ===== *)
(** * The theorems about replication, users, the server and the PostgreSQL
    listener, at concrete inputs

    A user store opened on an empty catalog with two users, two replicas of an
    empty log, and a connection on which a user creates an account; a PostgreSQL
    client that negotiates TLS, logs in and creates an account, and one that
    prepares a statement that is never executed. *)

From stdpp Require Import base gmap list strings option fin_maps sorting relations pretty.
From Stdlib Require Import ZArith Lia Strings.Byte.
From S2P Require Import Prelude Bytes Jsonl Crypto Merkle Money Entry AuditTrail SqlGuard WalRecord Wal Recovery Replication ReplSafety Tx Page EntryDb Sql Store StoreFrame SqlExec SqlPlan UserAuth UserSafety Server ServerSafety PgCodec PgWire PgSafety Instances OpsInstances OpsWitness CoreWitness.

#[local] Open Scope Z_scope.

(** ** Users *)

Definition empty_catalog : Catalog := mkCatalog None None None.
Definition no_users : UserStore := mkUserStore empty_catalog ∅ ∅ [] 0 ∅.
Definition users0 : UserStore := match (UserStore_open (quiet, empty_catalog)).1 with Ok s => s | Err _ => no_users end.
Definition users1 : UserStore := after (create_user "bob" "secret" Operator None) users0.
Definition users2 : UserStore := after (user_run (OpAuthenticate "bob" "secret")) users1.
Definition users3 : UserStore := after (user_run (OpAuthenticate "admin" "0")) users2.

Definition no_session_yet : Session := mkSession "" ReadOnly [] 0.
Definition session_of (name pw : string) (s : UserStore) : Session :=
  match (authenticate name pw (quiet, s)).1 with Ok x => x | Err _ => no_session_yet end.
Definition admin_session : Session := session_of "admin" "0" users2.

Lemma users3_reached : user_steps users0 users3.
Proof.
  eapply rtc_l; [exists (OpCreateUser "bob" "secret" Operator None), quiet; reflexivity|].
  eapply rtc_l; [exists (OpAuthenticate "bob" "secret"), quiet; reflexivity|].
  eapply rtc_l; [exists (OpAuthenticate "admin" "0"), quiet; reflexivity|]. reflexivity.
Qed.

Lemma users0_opened : UserStore_open (quiet, empty_catalog) =
  (Ok users0, ((UserStore_open (quiet, empty_catalog)).2.1, (UserStore_open (quiet, empty_catalog)).2.2)).
Proof.
  assert (Hok : is_ok (UserStore_open (quiet, empty_catalog)).1 = true) by (vm_compute; reflexivity).
  unfold users0. destruct (UserStore_open (quiet, empty_catalog)) as [[s|e] [W c]]; [reflexivity|discriminate].
Qed.

Lemma admin_token_valid : (validate_token (sn_token admin_session) (quiet, users3)).1 = Ok admin_session.
Proof. vm_compute. reflexivity. Qed.

Lemma token_rights_current_witness :
  sn_role admin_session = Admin ∧
  sn_token admin_session = sn_token admin_session ∧ clock quiet ≤ sn_expires_at admin_session ∧
  (size (us_sessions users3) ≤ MAX_SESSIONS)%nat ∧
  ∃ u, us_users users3 !! sn_username admin_session = Some u ∧ u_enabled u = true ∧ u_role u = sn_role admin_session.
Proof.
  split; [by vm_compute|].
  exact (token_rights_current _ _ _ _ _ _ _ _ _ _ _ users0_opened users3_reached
    (run_after (validate_token (sn_token admin_session)) users3 _ admin_token_valid)).
Defined.

Definition users4 : UserStore := after (user_run (OpSetEnabled "bob" false)) users3.

Lemma revocation_final_witness :
  (validate_token (sn_token (session_of "bob" "secret" users1)) (quiet, users3)).1 = Ok (session_of "bob" "secret" users1) ∧
  sn_username admin_session ≠ "bob"%string.
Proof.
  split; [vm_compute; reflexivity|].
  assert (Hv : (validate_token (sn_token admin_session) (quiet, users4)).1 = Ok admin_session) by (vm_compute; reflexivity).
  assert (Ho : (user_run (OpSetEnabled "bob" false) (quiet, users3)).1 = Ok tt) by (vm_compute; reflexivity).
  exact (revocation_final "bob" (OpSetEnabled "bob" false) quiet users3 _ _ users4 _ quiet _ _ _ eq_refl
    (run_after (user_run (OpSetEnabled "bob" false)) users3 _ Ho) (rtc_refl _ _)
    (run_after (validate_token (sn_token admin_session)) users4 _ Hv)).
Defined.

(** Failed logins, one after the other. *)
Fixpoint fail_times (n : nat) (s : UserStore) : UserStore :=
  match n with O => s | S n => after (authenticate "bob" "wrong") (fail_times n s) end.

Lemma fail_times_run n : (n ≤ 6)%nat → failed_run "bob" users1 n (fail_times n users1).
Proof.
  induction n as [|n IH]; intros Hn; [constructor|]. specialize (IH ltac:(lia)).
  assert (He : ∃ e, (authenticate "bob" "wrong" (quiet, fail_times n users1)).1 = Err e).
  { do 6 (destruct n as [|n]; [eexists; vm_compute; reflexivity|]). lia. }
  destruct He as [e He]. econstructor; [exact IH|]. apply (run_after (authenticate "bob" "wrong")). exact He.
Qed.

Lemma lockout_enforced_witness :
  ∃ t, fs_locked_at (failure_of "bob" (fail_times 5 users1)) = Some t ∧
  (clock quiet < t + LOCKOUT_DURATION →
   authenticate "bob" "secret" (quiet, fail_times 5 users1) =
   (Err (SrvAuth "account temporarily locked — too many failed attempts"), (tick quiet, fail_times 5 users1))).
Proof.
  assert (Hf : failure_of "bob" users1 = FailureState_new) by (vm_compute; reflexivity).
  exact (lockout_enforced "bob" users1 (fail_times 5 users1) "secret" quiet Hf (fail_times_run 5 ltac:(lia))).
Defined.

Definition much_later : World := mkWorld (replicate 20 (10 * LOCKOUT_DURATION)) [] [].
Fixpoint fail_late (n : nat) (s : UserStore) : UserStore :=
  match n with O => s | S n => (authenticate "bob" "wrong" (much_later, fail_late n s)).2.2 end.
Definition users_locked : UserStore := fail_times 5 users1.

Lemma fail_late_run n : (n ≤ 7)%nat → failed_run "bob" users_locked n (fail_late n users_locked).
Proof.
  induction n as [|n IH]; intros Hn; [constructor|]. specialize (IH ltac:(lia)).
  assert (He : ∃ e, (authenticate "bob" "wrong" (much_later, fail_late n users_locked)).1 = Err e).
  { do 7 (destruct n as [|n]; [eexists; vm_compute; reflexivity|]). lia. }
  destruct He as [e He]. econstructor; [exact IH|]. cbn [fail_late]. rewrite <- He. apply run_eta.
Qed.

Lemma lockout_only_once_witness :
  fs_count (failure_of "bob" (fail_late 7 users_locked)) = 12 ∧
  ∃ x σ, authenticate "bob" "secret" (much_later, fail_late 7 users_locked) = (Ok x, σ).
Proof.
  split; [by vm_compute|].
  assert (Ht : fs_locked_at (failure_of "bob" users_locked) = Some 0) by (vm_compute; reflexivity).
  assert (Hu : us_users users_locked !! "bob"%string = Some (mkUser "bob" (phc "secret") Operator true "0" None)) by (vm_compute; reflexivity).
  assert (Hl : 0 + LOCKOUT_DURATION ≤ clock much_later) by (vm_compute; discriminate).
  exact (lockout_only_once "bob" users_locked 0 7 _ "secret" _ much_later Ht (fail_late_run 7 ltac:(lia)) Hl Hu eq_refl eq_refl).
Defined.

(** ** Replication *)

Definition link0 : Link := mkLink quiet (mkReplica ∅ 0 []) true.
Definition shipper0 : WalShipper Link := mkShipper [link0; link0] 1.
Definition rows : list (bytes * Z) := [(str_bytes "first row", 0); (str_bytes "second row", 0)].

Lemma links_in_sync : Forall in_sync [link0; link0].
Proof. repeat constructor. Qed.

Lemma ship_replicates_witness :
  map (λ l, rp_dir (lk_replica l) !! 0) (sh_replicas (ship_all rows shipper0).2)
    = [Some (str_bytes "first rowsecond row"); Some (str_bytes "first rowsecond row")] ∧
  (ship_all rows shipper0).1 = map (λ i, Ok (sh_next_lsn shipper0 + Z.of_nat i)) (seq 0 (length rows)) ∧
  Forall2 (λ l l', in_sync l' ∧ rp_dir (lk_replica l') = segments_of rows (rp_dir (lk_replica l)))
    (sh_replicas shipper0) (sh_replicas (ship_all rows shipper0).2).
Proof.
  split; [by vm_compute|]. apply (ship_replicates rows shipper0); [apply links_in_sync|by vm_compute..].
Defined.

Lemma heartbeat_shifts_acks_witness :
  let s1 := heartbeat link_send 9 shipper0 in
  let '(r2, s2) := ship link_exchange (str_bytes "a") 0 s1 in
  let '(r3, s3) := ship link_exchange (str_bytes "b") 0 s2 in
  r2 = Ok 1 ∧ r3 = Err (RAckMismatch (1 + 1) 1) ∧
  map (λ l, rp_dir (lk_replica l)) (tail (sh_replicas s3)) =
    map (λ l, segments_of [(str_bytes "a", 0)] (rp_dir (lk_replica l))) [link0].
Proof. apply (heartbeat_shifts_acks 9 (str_bytes "a") 0 (str_bytes "b") 0 link0 [link0] 1); [apply links_in_sync|lia]. Defined.

Lemma shipped_rows_not_recovered_witness :
  Forall (λ l, rp_dir (lk_replica l) = segments_of rows ∅ ∧ replay_wal (lk_replica l) = Ok (mkRecovery [] 0 0 false))
    (sh_replicas (ship_all rows shipper0).2).
Proof.
  apply (shipped_rows_not_recovered rows shipper0); [repeat constructor|by vm_compute..|].
  repeat constructor; by vm_compute.
Defined.

Definition some_secret : bytes := le_bytes 32 12345.

Lemma handshake_exact_witness :
  is_ok (authenticate_replica some_secret (replica_with some_secret) (mkWorld [] [77] [], tt)).1 = true ∧
  (is_ok (authenticate_replica some_secret (replica_with some_secret) (mkWorld [] [77] [], tt)).1 = true ↔
   ∃ challenge line response,
     encode_line (mkChallenge (hex_enc (le_bytes 32 77))) = Some challenge ∧ replica_with some_secret challenge = Some line ∧
     decode_line line = Some response ∧ hex_dec (rs_mac response) = Some (compute_mac some_secret (le_bytes 32 77))) ∧
  (∀ secret', replica_with some_secret = replica_with secret' →
   is_ok (authenticate_replica some_secret (replica_with some_secret) (mkWorld [] [77] [], tt)).1 = true ↔
   compute_mac secret' (le_bytes 32 77) = compute_mac some_secret (le_bytes 32 77)).
Proof. split; [by vm_compute|]. exact (handshake_exact some_secret (replica_with some_secret) (mkWorld [] [77] []) tt eq_refl). Defined.

Definition no_checkpoint : DivergenceCheckpoint := mkDivCheckpoint 0 [] 0 [].
Definition no_report : DivergenceReport := mkDivReport 0 [] [] false [].
Definition checkpoint3 : DivergenceCheckpoint :=
  match build_checkpoint (Some dir3) 5 9 ZERO_HASH with Ok cp => cp | Err _ => no_checkpoint end.
Definition report_on (dir : gmap Z bytes) : DivergenceReport :=
  match verify_checkpoint (Some dir) checkpoint3 ZERO_HASH with Ok r => r | Err _ => no_report end.

Lemma divergence_exact_witness :
  dr_diverged (report_on dir3) = false ∧ dr_diverged (report_on ∅) = true ∧
  (ZERO_HASH ≠ ZERO_HASH ∨ map view_of (until 5 CoreWitness.log3) ≠ map view_of (until 5 [])).
Proof.
  split; [by vm_compute|]. split; [by vm_compute|].
  assert (Hi : wal_items dir3 None 0 = map Ok CoreWitness.log3) by (vm_compute; reflexivity).
  assert (Hb : build_checkpoint (Some dir3) 5 9 ZERO_HASH = Ok checkpoint3) by (vm_compute; reflexivity).
  assert (Hv : verify_checkpoint (Some ∅) checkpoint3 ZERO_HASH = Ok (report_on ∅)) by (vm_compute; reflexivity).
  assert (Ho : Forall record_ok CoreWitness.log3) by (apply records_ok_all; vm_compute; reflexivity).
  exact (divergence_exact dir3 ∅ CoreWitness.log3 [] 5 9 ZERO_HASH ZERO_HASH _ _ Hi eq_refl Ho (Forall_nil_2 _) eq_refl Hb Hv).
Defined.

(** ** The server *)

Definition server0 : Server Link := mkServer s0 users3 None None.
Definition server_config : ServerConfig := mkServerConfig false 0 1000.
Definition bob_session : Session := session_of "bob" "secret" users1.
Definition conn_bob : Conn := mkConn (Some bob_session) 0 [] true.
Definition insert_request : Request := mkRequest (Some "INSERT INTO accounts"%string) None None false None.
Definition insert_line : bytes := default [] (to_json insert_request).
Definition served : (Result Empty_set Conn * (World * Server Link)) :=
  conn_step link_exchange "127.0.0.1:9" server_config (EvRead (Ok (Some insert_line))) conn_bob (quiet, server0).
Definition conn_after : Conn := match served.1 with Ok c => c | Err _ => conn_bob end.

Lemma served_eq : served = (Ok conn_after, (served.2.1, served.2.2)).
Proof.
  assert (Hok : is_ok served.1 = true) by (vm_compute; reflexivity).
  unfold conn_after. destruct served as [[c|[]] [W sv]]. reflexivity.
Qed.

Lemma ledger_changes_authorised_witness :
  sv_ledger served.2.2 ≠ s0 ∧
  ∃ sess, cn_session conn_after = Some sess ∧ may_write (sn_role sess) = true ∧
    (cn_session conn_bob = Some sess ∨ issued users3 sess).
Proof.
  assert (Hne : sv_ledger served.2.2 ≠ s0).
  { intros He%(f_equal (λ s, size (ls_accounts s))). vm_compute in He. discriminate. }
  split; [exact Hne|].
  exact (ledger_changes_authorised link_exchange "127.0.0.1:9" server_config _ conn_bob quiet server0 conn_after _ _ served_eq Hne).
Defined.

(** The user is deleted, the open connection goes on. *)
Definition server1 : Server Link := mkServer s0 (after (delete_user "bob") users3) None None.

Lemma open_connection_not_revalidated_witness :
  us_users (sv_users server1) !! "bob"%string = None ∧
  size (ls_accounts (sv_ledger (handle_request link_exchange "127.0.0.1:9" server_config insert_request conn_bob (quiet, server1)).2.2)) = 1%nat ∧
  handle_request link_exchange "127.0.0.1:9" server_config insert_request conn_bob (quiet, server1)
  = run_frame link_exchange server_config insert_request bob_session conn_bob (quiet, server1).
Proof.
  split; [by vm_compute|]. split; [by vm_compute|].
  exact (open_connection_not_revalidated link_exchange "127.0.0.1:9" server_config insert_request conn_bob bob_session (quiet, server1) eq_refl eq_refl).
Defined.

Lemma line_limit_exact_witness :
  read_line_bounded 3 (str_bytes "abcdef" ++ nl :: str_bytes "rest") = Some (Ok (Some (str_bytes "abcdef")), str_bytes "rest") ∧
  read_line_bounded 3 (str_bytes "abcdef") = Some (Err tt, []).
Proof.
  assert (Hn : nl ∉ str_bytes "abcdef") by (apply (bool_decide_unpack _); vm_compute; exact I).
  destruct (line_limit_exact 3 (str_bytes "abcdef") (str_bytes "rest") Hn) as (H1 & H2 & _).
  split; [apply H1; by vm_compute|apply H2; [by vm_compute|cbn; lia]].
Defined.

(** ** The PostgreSQL protocol *)

Definition greeting : list bytes := [auth_ok; parameter_status (str_bytes "TimeZone") (str_bytes "UTC"); ready_for_query Byte.x49].
Definition row_values_sent : list (option bytes) := [Some (str_bytes "42"); None].

Lemma pg_messages_roundtrip_witness :
  (∃ tps, map (λ tp, frame tp.1 tp.2) tps = greeting ∧ read_messages (length greeting) (concat greeting ++ str_bytes "more") = Ok (tps, str_bytes "more")) ∧
  (Z.of_nat (length row_values_sent) < 2 ^ 16 → Forall value_fits row_values_sent →
   data_row row_values_sent = frame Byte.x44 (row_payload row_values_sent) ∧ read_row (row_payload row_values_sent) = Some row_values_sent) ∧
  (c_text (str_bytes "SELECT 1") → FrontendMessage_parse Byte.x51 (str_bytes "SELECT 1" ++ [NUL]) = Query (str_bytes "SELECT 1")) ∧
  (∃ text, FrontendMessage_parse Byte.x51 [Byte.xff; Byte.x41] = Query text ∧ utf8_valid text = true).
Proof.
  assert (Hl : Forall (λ m, (length m ≤ 5 + MAX_MESSAGE_PAYLOAD)%nat) greeting).
  { assert (Hs : Forall (λ m, (length m ≤ 100)%nat) greeting) by (repeat constructor; vm_compute; lia).
    eapply Forall_impl; [exact Hs|]. intros m Hm. cbv beta in Hm. pose proof message_limit. lia. }
  apply (pg_messages_roundtrip greeting (str_bytes "more") row_values_sent (str_bytes "SELECT 1") [Byte.xff; Byte.x41]); [|exact Hl].
  unfold greeting. repeat apply Forall_cons_2; auto with frames; apply Forall_nil_2.
Defined.


(** * The PostgreSQL listener *)

#[local] Open Scope list_scope.

Definition pg_result : Type := Result Empty_set PgConn * (World * Server Link).
Definition pg_do (ev : PgEvent) (r : pg_result) : pg_result :=
  match r.1 with Ok c => pg_step true 7 ev c (quiet, r.2.2) | Err e => (Err e, r.2) end.

Definition ssl_request : bytes := be_bytes 4 SSL_REQUEST_CODE.
Definition startup_packet : bytes := be_bytes 4 PROTOCOL_VERSION_3 ++ str_bytes "user" ++ [NUL] ++ str_bytes "bob" ++ [NUL; NUL].
Definition pg0 : pg_result := (Ok PgConn_new, (quiet, server0)).
Definition pg1 : pg_result := pg_do (PgStartup ssl_request) pg0.
Definition pg2 : pg_result := pg_do (PgStartup startup_packet) pg1.
Definition pg3 : pg_result := pg_do (PgMessage Byte.x70 (str_bytes "secret" ++ [NUL])) pg2.
Definition insert_message : PgEvent := PgMessage Byte.x51 (str_bytes "INSERT INTO accounts" ++ [NUL]).
Definition pg4 : pg_result := pg_do insert_message pg3.

Definition pg_conn (r : pg_result) : PgConn := match r.1 with Ok c => c | Err _ => PgConn_new end.
Lemma pg_conn_eq (r : pg_result) : r = (Ok (pg_conn r), (r.2.1, r.2.2)).
Proof. destruct r as [[c|[]] [W sv]]. reflexivity. Qed.

Lemma pg_do_step ev r : pg_step true 7 ev (pg_conn r) (quiet, r.2.2) = (Ok (pg_conn (pg_do ev r)), ((pg_do ev r).2.1, (pg_do ev r).2.2)).
Proof. rewrite <- pg_conn_eq. unfold pg_do, pg_conn. destruct r as [[c|[]] σ]. reflexivity. Qed.
Lemma pg_do_reachable ev svs r : pg_reachable (C:=Link) true 7 svs (pg_conn r) → pg_reachable (C:=Link) true 7 (r.2.2 :: svs) (pg_conn (pg_do ev r)).
Proof. intros Hr. eapply pg_next; [exact Hr|apply pg_do_step]. Qed.

Lemma pg_ledger_authorised_witness :
  sv_ledger pg4.2.2 ≠ sv_ledger pg3.2.2 ∧
  ∃ s t, pg_phase (pg_conn pg3) = Ready s t ∧ logged_in [pg2.2.2; pg1.2.2; pg0.2.2] s ∧ may_write (sn_role s) = true.
Proof.
  assert (Hne : sv_ledger pg4.2.2 ≠ sv_ledger pg3.2.2).
  { intros He%(f_equal (λ s, size (ls_accounts s))). vm_compute in He. discriminate. }
  split; [exact Hne|].
  exact (pg_ledger_authorised true 7 insert_message _ (pg_conn pg3) quiet pg3.2.2 _ _ _
    (pg_do_reachable _ _ pg2 (pg_do_reachable _ _ pg1 (pg_do_reachable _ _ pg0 (pg_start _ _)))) (pg_do_step insert_message pg3) Hne).
Defined.

Definition select_version : bytes := str_bytes "select version()".
Definition version_run : Result Empty_set (list bytes * byte) * (World * Server Link) :=
  execute_query true select_version Operator IDLE (quiet, server0).
Definition version_answer : list bytes * byte := match version_run.1 with Ok a => a | Err _ => ([], IDLE) end.
Lemma version_eq : version_run = (Ok (version_answer.1, version_answer.2), version_run.2).
Proof. unfold version_answer. destruct version_run as [[[ms t]|[]] σ]. reflexivity. Qed.

Lemma pg_answer_protocol_witness :
  length version_answer.1 = 4%nat ∧ status_ok version_answer.2 ∧
  ∃ body, version_answer.1 = body ++ [ready_for_query version_answer.2] ∧ Forall not_ready body ∧
  ∃ tps, map (λ tp, frame tp.1 tp.2) tps = version_answer.1 ∧
    read_messages (length version_answer.1) (concat version_answer.1 ++ str_bytes "more") = Ok (tps, str_bytes "more").
Proof.
  split; [by vm_compute|].
  apply (pg_answer_protocol true select_version Operator IDLE (quiet, server0) _ _ _ (str_bytes "more") version_eq); [by left|].
  assert (Hs : Forall (λ m, (length m ≤ 100)%nat) version_answer.1).
  { assert (Hb : forallb (λ m, length m <=? 100)%nat version_answer.1 = true) by (vm_compute; reflexivity).
    apply Forall_forall. intros m Hm. rewrite forallb_forall in Hb. apply Nat.leb_le, Hb. by apply list_elem_of_In. }
  eapply Forall_impl; [exact Hs|]. intros m Hm. cbv beta in Hm. pose proof message_limit. lia.
Defined.

Lemma pg_prepared_not_executed_witness :
  ∃ W', run_messages (C:=Link) true bob_session [Parse [] (str_bytes "INSERT INTO accounts"); Bind [] []; Execute []]
    (mkPgConn (Ready bob_session IDLE) []) (quiet, server0) =
    (Ok (mkPgConn (Ready bob_session IDLE) ([] ++ [parse_complete; bind_complete; empty_query_response; ready_for_query IDLE])), (W', server0)).
Proof.
  assert (Hq : trim (str_bytes "INSERT INTO accounts") ≠ []) by (vm_compute; discriminate).
  exact (pg_prepared_not_executed true bob_session IDLE [] (str_bytes "INSERT INTO accounts") [] [] quiet server0 eq_refl Hq).
Defined.
