(* ===== verification/ExtWitness.v ===== *)
(** * The theorems about licenses, compliance, the key daemon and secrets, at
    concrete inputs

    Executable instances of [HsmExt], [SecretsExt] and [LicenseExt] in the
    manner of [OpsInstances], and a daemon that decrypts what it encrypted; a
    license signed by the vendor's key, a data directory that meets both
    standards, a network that loses an answer, and two starts of a server whose
    key is sealed by the daemon. *)

From stdpp Require Import base gmap list strings option fin_maps pretty relations.
From Stdlib Require Import ZArith Lia Strings.Byte.
From S2P Require Import Prelude Bytes Jsonl Crypto Money Entry AuditTrail SqlGuard WalRecord Wal Tx Page EntryDb Sql Store SqlExec SqlPlan License Compliance Hsm Secrets Instances OpsInstances.

#[local] Open Scope Z_scope.
#[local] Open Scope list_scope.

(** ** Requests and answers of the daemon *)

Definition sc_policy : stream_codec KeyPolicy.
Proof.
  by refine (sc_iso (sc_bool ⊗ sc_bool ⊗ sc_option sc_bool ⊗ sc_option sc_Z ⊗ sc_option sc_string ⊗ sc_option (sc_list sc_string))
    (λ p, (allow_encrypt p, allow_decrypt p, allow_sign p, max_operations p, kp_expires_at p, allowed_callers p))
    (λ '(a, b, c, d, e, f), mkKeyPolicy a b c d e f) _); intros [].
Defined.

(** A tag and the fields any request may have. *)
Definition request_fields (r : HsmRequest) : Z * string * bytes * bytes * option KeyPolicy * string :=
  match r with
  | ReqEncrypt k p c => (0, k, p, [], None, c)
  | ReqDecrypt k p c => (1, k, p, [], None, c)
  | ReqSign k m c => (2, k, m, [], None, c)
  | ReqVerify k m s c => (3, k, m, s, None, c)
  | ReqGenerateKey k p c => (4, k, [], [], p, c)
  | ReqRotateKey k c => (5, k, [], [], None, c)
  | ReqDestroyKey k c => (6, k, [], [], None, c)
  | ReqHealth c => (7, EmptyString, [], [], None, c)
  | ReqBackup c => (8, EmptyString, [], [], None, c)
  end.
Definition request_of_fields (x : Z * string * bytes * bytes * option KeyPolicy * string) : HsmRequest :=
  let '(tag, k, a, b, p, c) := x in
  nth_or (ReqBackup c) [ReqEncrypt k a c; ReqDecrypt k a c; ReqSign k a c; ReqVerify k a b c; ReqGenerateKey k p c; ReqRotateKey k c;
    ReqDestroyKey k c; ReqHealth c; ReqBackup c] tag.
Definition sc_hsm_request : stream_codec HsmRequest.
Proof.
  by refine (sc_iso (sc_Z ⊗ sc_string ⊗ sc_bytes ⊗ sc_bytes ⊗ sc_option sc_policy ⊗ sc_string) request_fields request_of_fields _); intros [].
Defined.
Definition sc_value : stream_codec HsmValue.
Proof.
  by refine (sc_iso (sc_Z ⊗ sc_bytes) (λ v, match v with HvString s => (0, s) | HvBool true => (1, []) | HvBool false => (2, []) | HvOther => (3, []) end)
    (λ '(tag, s), nth_or HvOther [HvString s; HvBool true; HvBool false; HvOther] tag) _); intros [s|[]|].
Defined.
Definition sc_response : stream_codec HsmResponse.
Proof.
  by refine (sc_iso (sc_bool ⊗ sc_option sc_value ⊗ sc_option sc_string) (λ r, (hr_ok r, hr_data r, hr_error r))
    (λ '(a, b, c), mkHsmResponse a b c) _); intros [].
Defined.

(** A message is a request and the stamps of a remote one. *)
Definition message_json : Json (HsmRequest * option (string * string)) := line_json (sc_hsm_request ⊗ sc_option (sc_string ⊗ sc_string)) every.
Definition response_json : Json HsmResponse := line_json sc_response every.
Definition message_line (m : HsmRequest * option (string * string)) : option bytes := @to_json _ message_json m.
Definition parse_message (line : bytes) : option HsmRequest := fst <$> @from_json _ message_json (trim line).
Definition line_of (r : HsmResponse) : bytes := default [] (@to_json _ response_json r).
Definition read_response (l : bytes) : option HsmResponse := @from_json _ response_json l.

Lemma message_line_some m : ∃ l, message_line m = Some l ∧ parse_message (l ++ [nl]) = Some m.1.
Proof.
  destruct (message_line m) as [l|] eqn:Hm; [|done]. exists l. split; [done|]. unfold parse_message. unfold message_line, message_json in *.
  rewrite (line_json_tight _ _ _ _ Hm). by rewrite (@json_roundtrip _ (line_json _ every) _ _ Hm).
Qed.
Lemma line_of_printable r : Forall printable (line_of r).
Proof. unfold line_of. cbn. constructor; [by vm_compute|apply to_hex_printable]. Qed.
Lemma line_of_read r : read_response (trim (line_of r)) = Some r.
Proof. rewrite trim_printable by apply line_of_printable. by apply (@json_roundtrip _ response_json). Qed.

#[global] Instance toy_hsm_ext : HsmExt :=
  {| pem_file := λ _, Ok []; pem_certs := λ _, [Ok [Byte.x01]]; pem_pkcs8 := λ _, []; pem_ec := λ _, []; pem_rsa := λ _, [Ok [Byte.x02]];
     root_add := λ _, None; client_auth := λ _ _, None; valid_server_name := λ _, true;
     request_to_string := λ r, message_line (r, None); request_to_string_stamped := λ r i t, message_line (r, Some (i, t));
     response_from_str := read_response; uuid_v4_text := pretty; rfc3339_text := pretty |}.

(** ** The daemon *)

(** Its ciphertext of a text is the hexadecimal form of the text. *)
Definition toy_handle (r : HsmRequest) (n : Z) : HsmResponse * Z :=
  (match r with
   | ReqEncrypt _ p _ => mkHsmResponse true (Some (HvString (hex_enc p))) None
   | ReqDecrypt _ c _ =>
       match hex_dec c with
       | Some p => mkHsmResponse true (Some (HvString p)) None
       | None => mkHsmResponse false None (Some "bad ciphertext"%string)
       end
   | ReqGenerateKey _ _ _ => if n =? 0 then mkHsmResponse true None None else mkHsmResponse false None (Some "key already exists"%string)
   | _ => mkHsmResponse true None None
   end, n + 1).

Lemma toy_decrypts : daemon_decrypts toy_handle.
Proof. intros key m caller d _. exists (hex_enc m). unfold toy_handle. cbn [fst snd hr_data]. split; [done|]. intros caller'. by rewrite hex_roundtrip. Qed.
Lemma toy_parse_plain r l : request_to_string r = Some l → parse_message (l ++ [nl]) = Some r.
Proof.
  intros Hl. change (message_line (r, None) = Some l) in Hl. destruct (message_line_some (r, None)) as (l' & Hl' & Hp). rewrite Hl in Hl'. injection Hl' as <-. exact Hp.
Qed.
Lemma toy_parse_stamped r i t l : request_to_string_stamped r i t = Some l → parse_message (l ++ [nl]) = Some r.
Proof.
  intros Hl. change (message_line (r, Some (i, t)) = Some l) in Hl. destruct (message_line_some (r, Some (i, t))) as (l' & Hl' & Hp). rewrite Hl in Hl'. injection Hl' as <-. exact Hp.
Qed.
Lemma toy_serialisable req : serialisable req.
Proof. split; [by eexists|]. intros i t. by eexists. Qed.

(** ** Secrets *)

Definition sc_context : stream_codec (gmap string string).
Proof. refine (sc_iso (sc_list (sc_string ⊗ sc_string)) map_to_list list_to_map _). apply list_to_map_to_list. Defined.
Definition sc_remote : stream_codec RemotePyHsmConfig.
Proof.
  by refine (sc_iso (sc_string ⊗ sc_string ⊗ sc_option sc_string ⊗ sc_option sc_string ⊗ sc_Z ⊗ sc_Z)
    (λ c, (rc_endpoint c, rc_ca_cert c, rc_client_cert c, rc_client_key c, rc_timeout_ms c, rc_max_retries c))
    (λ '(a, b, c, d, e, f), mkRemoteConfig a b c d e f) _); intros [].
Defined.
Definition no_remote : RemotePyHsmConfig := mkRemoteConfig EmptyString EmptyString None None 0 0.
Definition config_fields (c : KeySourceConfig) : Z * list string * option string * gmap string string * RemotePyHsmConfig :=
  match c with
  | KsEnv v => (0, [v], None, ∅, no_remote)
  | KsFile p => (1, [p], None, ∅, no_remote)
  | KsVault a m s f n => (2, [a; m; s; f], n, ∅, no_remote)
  | KsAwsKms k r x => (3, [k; r], None, x, no_remote)
  | KsPyHsm s c k => (4, [s; c; k], None, ∅, no_remote)
  | KsRemotePyHsm r c k => (5, [c; k], None, ∅, r)
  end.
Definition config_of_fields (x : Z * list string * option string * gmap string string * RemotePyHsmConfig) : KeySourceConfig :=
  let '(tag, l, o, m, r) := x in
  let s i := nth_or EmptyString l i in
  nth_or (KsEnv EmptyString)
    [KsEnv (s 0); KsFile (s 0); KsVault (s 0) (s 1) (s 2) (s 3) o; KsAwsKms (s 0) (s 1) m; KsPyHsm (s 0) (s 1) (s 2); KsRemotePyHsm r (s 0) (s 1)] tag.
Definition sc_config : stream_codec KeySourceConfig.
Proof.
  by refine (sc_iso (sc_Z ⊗ sc_list sc_string ⊗ sc_option sc_string ⊗ sc_context ⊗ sc_remote) config_fields config_of_fields _); intros [].
Defined.
Definition config_json : Json KeySourceConfig := line_json sc_config every.

#[global] Instance toy_secrets_ext : SecretsExt.
Proof.
  refine {| hmac_sha256 := λ k m, toy_digest (k ++ m); sha256 := toy_digest; b64_enc := to_hex; b64_dec := of_hex; b64_roundtrip := of_to_hex;
    config_to_json := @to_json _ config_json; config_from_json := @from_json _ config_json; ipc_to_string := λ r, message_line (r, None);
    ipc_from_str := λ l, (λ r, mkIpcValue (Some (hr_ok r)) (hr_data r ≫= as_str) (hr_error r)) <$> read_response l;
    kms_generate_body := λ _ _, Some []; kms_decrypt_body := λ _ _, Some []; json_str_at := λ _ _, None;
    date_compact := pretty; datetime_compact := pretty |}.
  intros c bs Hc. split; [by apply (@json_roundtrip _ config_json)|]. by destruct (@json_line _ config_json _ _ Hc).
Defined.

Lemma toy_parse_ipc r : ∃ l, ipc_to_string r = Some l ∧ parse_message (l ++ [nl]) = Some r.
Proof. apply (message_line_some (r, None)). Qed.
Lemma toy_ipc_read r : ipc_from_str (trim (line_of r)) = Some (mkIpcValue (Some (hr_ok r)) (hr_data r ≫= as_str) (hr_error r)).
Proof. unfold ipc_from_str, toy_secrets_ext. by rewrite line_of_read. Qed.

(** ** Licenses *)

(** Strings and arrays of strings only. *)
Definition flat_value (v : JsonValue) : option (bool * list string) :=
  match v with
  | JString s => Some (true, [s])
  | JArray l => pair false <$> mapM (λ v, match v with JString s => Some s | _ => None end) l
  end.
Definition unflat_value (x : bool * list string) : JsonValue :=
  match x with (true, [s]) => JString s | (_, l) => JArray (map JString l) end.
Lemma unflat_flat v x : flat_value v = Some x → unflat_value x = v.
Proof.
  destruct v as [s|l]; cbn; [by intros [= <-]|]. destruct (mapM _ l) as [ss|] eqn:Hm; [|done]. cbn. intros [= <-]. cbn. f_equal.
  revert ss Hm. induction l as [|v l IH]; intros ss Hm; cbn in Hm; [by injection Hm as <-|]. destruct v; [|done]. cbn in Hm.
  destruct (mapM _ l) as [ss'|] eqn:Hl; [|done]. cbn in Hm. injection Hm as <-. cbn. f_equal. by apply IH.
Qed.
Definition object_json : Json (list (string * (bool * list string))) := line_json (sc_list (sc_string ⊗ (sc_bool ⊗ sc_list sc_string))) every.
Definition sc_license : stream_codec LicenseFile.
Proof.
  by refine (sc_iso (sc_string ⊗ sc_string ⊗ sc_string ⊗ sc_string ⊗ sc_string ⊗ sc_list sc_string ⊗ sc_string)
    (λ f, (lf_licensee f, lf_email f, lf_tier f, lf_issued_at f, lf_expires_at f, lf_features f, lf_signature f))
    (λ '(a, b, c, d, e, f, g), mkLicenseFile a b c d e f g) _); intros [].
Defined.
Definition license_json : Json LicenseFile := line_json sc_license every.

Lemma flat_object_roundtrip (o : list (string * JsonValue)) x :
  mapM (λ kv, pair kv.1 <$> flat_value kv.2) o = Some x → map (λ kv, (kv.1, unflat_value kv.2)) x = o.
Proof.
  revert x. induction o as [|[k v] o IH]; intros x; cbn; [by intros [= <-]|]. destruct (flat_value v) as [y|] eqn:Hv; [|done]. cbn.
  destruct (mapM _ o) as [x'|] eqn:Hm; [|done]. cbn. intros [= <-]. cbn. by rewrite (IH x' eq_refl), (unflat_flat _ _ Hv).
Qed.

#[global] Instance toy_license_ext : LicenseExt.
Proof.
  refine {| object_to_vec := λ o, x ← mapM (λ kv, pair kv.1 <$> flat_value kv.2) o; @to_json _ object_json x;
    object_from_slice := λ bs, map (λ kv, (kv.1, unflat_value kv.2)) <$> @from_json _ object_json bs;
    license_from_json := @from_json _ license_json; parse_date := unsigned |}.
  - intros o bs Ho. destruct (mapM _ o) as [x|] eqn:Hm; [|done]. cbn -[to_json] in Ho. rewrite (@json_roundtrip _ object_json _ _ Ho). cbn.
    by rewrite (flat_object_roundtrip _ _ Hm).
  - intros o bs Ho. destruct (mapM _ o) as [x|] eqn:Hm; [|done]. cbn in Ho. by simplify_eq.
Defined.


(** * Witnesses *)

(** ** Licenses *)

Definition unsigned_license : LicenseFile := mkLicenseFile "acme" "ops@acme.com" "Growth" "19000" "20000" ["hsm"] EmptyString.
Definition vendor_key : bytes := default [] (hex_dec (str_bytes VECTORGUARD_LICENSE_PUBKEY_HEX)).
Definition signature_text (f : LicenseFile) : string := String.string_of_list_byte (hex_enc (toy_sign vendor_key (canonical_payload f))).
Definition acme_license : LicenseFile :=
  mkLicenseFile "acme" "ops@acme.com" "Growth" "19000" "20000" ["hsm"] (signature_text unsigned_license).
Definition acme_file : option bytes := @to_json _ license_json acme_license.

(** Noon of the last day. *)
Definition noon : Z := 20000 * NANOS_PER_DAY + 43200 * 1000000000.
Definition loaded (t : Z) : LicenseStore :=
  match (load_or_free (mkWorld [t; t] [] [], acme_file)).1 with Ok s => s | Err _ => mkLicenseStore "" "" Free 0 0 [] false end.
Lemma loaded_eq t : ∃ W', load_or_free (mkWorld [t; t] [] [], acme_file) = (Ok (loaded t), (W', acme_file)).
Proof.
  unfold loaded. destruct (load_or_free_run (mkWorld [t; t] [] []) acme_file) as (s & W' & -> & _). by exists W'.
Qed.
Lemma acme_signed : li_is_signed (loaded noon) = true ∧ is_ok (require_feature FHsm (loaded noon)) = true ∧
  is_ok (require_feature FMultiNode (loaded noon)) = false ∧ li_is_signed (loaded (noon + NANOS_PER_DAY)) = false.
Proof. by vm_compute. Qed.

Definition planned : Watcher := mkWatcher acme_file (loaded noon) (Some (noon + seconds_until_next_midnight noon * 1000000000)).

Lemma license_expires_at_midnight_witness :
  li_is_signed (loaded noon) = true ∧ in_force_ok (noon + 3600 * 1000000000) (wt_license planned).
Proof.
  split; [apply acme_signed|]. destruct (loaded_eq noon) as [W' Hl].
  apply (license_expires_at_midnight noon acme_file (loaded noon) W' (noon + 3600 * 1000000000) planned); [by vm_compute|exact Hl|].
  eapply rtc_l; [by apply Watch_plan|]. eapply rtc_l; [|reflexivity]. eapply Watch_wait; [reflexivity|].
  split; by vm_compute.
Defined.

(** ** Compliance *)

Definition good_dir : DataDir :=
  {[ VERSION_FILE := File (str_bytes "1"); AUDIT_LOG_FILE := File []; HSM_CONFIG := File []; WAL_DIR := Directory ]}.
Definition no_backend (_ : bytes) : option string := None.
Definition error_text (_ : AuditError) : string := "error".

Lemma compliance_exact_witness :
  requirements no_backend PciDss good_dir ∧
  ∃ report W', generate_report error_text no_backend PciDss (mkRange 0 0) (quiet, good_dir) = (Ok report, (W', good_dir)) ∧
    map ev_control_id (cr_evidence report) = control_ids PciDss ∧
    (is_compliant report = true ↔ requirements no_backend PciDss good_dir).
Proof.
  assert (Hlog : ∀ n, good_dir !! AUDIT_LOG_FILE = Some n → n = File []).
  { intros n Hn. assert (Hg : good_dir !! AUDIT_LOG_FILE = Some (File [])) by (vm_compute; reflexivity). congruence. }
  split.
  - split_and!.
    + intros [n Hn]. vm_compute in Hn. discriminate.
    + left. eexists. vm_compute. reflexivity.
    + eexists. vm_compute. reflexivity.
    + intros n Hn. apply Hlog in Hn as ->. exists []. by vm_compute.
  - apply (compliance_exact error_text no_backend PciDss (mkRange 0 0) good_dir quiet); [done|].
    intros n Hn. apply Hlog in Hn as ->. by exists [].
Defined.

(** ** The daemon *)

Definition remote_config : RemotePyHsmConfig := mkRemoteConfig "https://hsm:8443" "ca.pem" (Some "c.pem") (Some "k.pem") 5000 3.
Definition ok_line : bytes := line_of (mkHsmResponse true None None).
Definition flaky : Script := mkScript [STimeout; STimeout; SOk ok_line] [].

Lemma hsm_retries_bounded_witness :
  (send_remote script_net (ReqHealth "vledger") remote_config (quiet, flaky)).1 = Ok (mkHsmResponse true None None) ∧
  ∃ es σ' r σ'', failed_tries script_net (ReqHealth "vledger") remote_config 1 (quiet, flaky) es σ' ∧
  Z.of_nat (length es) < Z.max (rc_max_retries remote_config) 1 ∧
  try_send_remote script_net (ReqHealth "vledger") remote_config (rc_timeout_ms remote_config) σ' = (r, σ'') ∧
  ((send_remote script_net (ReqHealth "vledger") remote_config (quiet, flaky) = (r, σ'') ∧
    match r with Ok _ => True | Err e => is_retryable e = false ∨ Z.of_nat (length es) + 1 = rc_max_retries remote_config end) ∨
   (rc_max_retries remote_config = 0 ∧ ∃ e, r = Err e ∧ is_retryable e = true ∧
    send_remote script_net (ReqHealth "vledger") remote_config (quiet, flaky) = (Err (HRetriesExhausted 0 (hsm_error_text e)), backoff script_net 1 σ''))).
Proof.
  split; [by vm_compute|]. apply (hsm_retries_bounded script_net (ReqHealth "vledger") remote_config (quiet, flaky)). by vm_compute.
Defined.

Definition remote_client : HsmClient := mkHsmClient (Remote remote_config) "vledger".
Lemma remote_usable : usable remote_client.
Proof. eexists _, _, _. split_and!; by vm_compute. Qed.

Lemma hsm_transports_agree_witness :
  let net := ideal_net parse_message toy_handle line_of in
  (hsm_decrypt net remote_client "k" (str_bytes "616263") (quiet, (1, []))).1 = Ok (str_bytes "abc") ∧
  (∀ req, (send net (default_socket "vledger") req (quiet, (0, []))).1 = (send net remote_client req (quiet, (0, []))).1 ∧
    (send net (default_socket "vledger") req (quiet, (0, []))).2.2 = (send net remote_client req (quiet, (0, []))).2.2) ∧
  (daemon_decrypts toy_handle → ∀ ct σ, hsm_encrypt net (default_socket "vledger") "k" (str_bytes "abc") (quiet, (0, [])) = (Ok ct, σ) →
    (hsm_decrypt net remote_client "k" ct (quiet, σ.2)).1 = Ok (str_bytes "abc")).
Proof.
  split; [by vm_compute|].
  exact (hsm_transports_agree parse_message toy_handle line_of toy_parse_plain toy_parse_stamped line_of_read
    (default_socket "vledger") remote_client "k" (str_bytes "abc") quiet quiet 0 [] [] I remote_usable toy_serialisable).
Defined.

(** ** Starts of the server *)

Definition no_env : Env := λ _, None.
Definition local_provider : PyHsmProvider := mkPyHsm default_pyhsm_socket "vledger" default_pyhsm_key_id (Some "keys").
Definition remote_provider : RemotePyHsmProvider := mkRemotePyHsm remote_config "vledger" default_pyhsm_key_id (Some "keys").
Definition dice : World := mkWorld [] [77] [].
Definition host0 : Host (Z * bytes) unit := mkHost ∅ (0, []) tt.
Abbreviation daemon_net := (ideal_net parse_message toy_handle line_of).

Definition first_local : Result SecretsError bytes * (World * Host (Z * bytes) unit) := pyhsm_load daemon_net local_provider (dice, host0).
Definition first_remote : Result SecretsError bytes * (World * Host (Z * bytes) unit) := remote_load daemon_net no_env remote_provider (mkWorld [] (replicate 9 77) [], host0).
Definition local_key : bytes := match first_local.1 with Ok k => k | Err _ => [] end.
Definition remote_key : bytes := match first_remote.1 with Ok k => k | Err _ => [] end.

Lemma first_local_ok : first_local = (Ok local_key, first_local.2).
Proof.
  assert (Hok : is_ok first_local.1 = true) by (vm_compute; reflexivity). unfold local_key. destruct first_local as [[k|e] σ]; [done|discriminate].
Qed.
Lemma first_remote_ok : first_remote = (Ok remote_key, first_remote.2).
Proof.
  assert (Hok : is_ok first_remote.1 = true) by (vm_compute; reflexivity). unfold remote_key. destruct first_remote as [[k|e] σ]; [done|discriminate].
Qed.

Lemma local_key_survives_restart_witness :
  local_key = le_bytes 32 77 ∧
  (pyhsm_load daemon_net local_provider (quiet, mkHost (ho_files first_local.2.2) ((ho_net first_local.2.2).1, []) tt)).1 = Ok local_key.
Proof.
  split; [by vm_compute|].
  exact (local_key_survives_restart parse_message toy_handle line_of toy_parse_ipc toy_ipc_read toy_decrypts
    local_provider dice quiet ∅ 0 [] tt local_key first_local.2 _ _ _ _ eq_refl eq_refl eq_refl first_local_ok eq_refl (λ _ _, eq_refl)).
Defined.

Lemma remote_key_lost_at_restart_witness :
  remote_key = le_bytes 32 77 ∧
  ∃ e, (remote_load daemon_net no_env remote_provider (quiet, mkHost (ho_files first_remote.2.2) ((ho_net first_remote.2.2).1, []) tt)).1 = Err e.
Proof.
  split; [by vm_compute|].
  exact (remote_key_lost_at_restart no_env parse_message toy_handle line_of toy_parse_plain toy_parse_stamped line_of_read toy_serialisable to_hex_printable
    toy_decrypts remote_provider (mkWorld [] (replicate 9 77) []) quiet ∅ 0 [] tt remote_key first_remote.2 _ _ _ _ remote_usable eq_refl eq_refl eq_refl first_remote_ok eq_refl (λ _ _, eq_refl)).
Defined.
