(* ===== verification/BackupWitness.v ===== *)
(** * Backups, derived keys and key rotation on concrete inputs

    Executable instances of [FsExt] and [BackupExt]: a listing by key order, a
    tar format that stores names as their components, serializers.  The
    theorems of [BackupSafety], [BackupRoundtrip], [Keys] and
    [KeyRotate] are applied at a small data directory. *)

From stdpp Require Import base gmap list strings option fin_maps pretty sorting.
From Stdlib Require Import ZArith Lia Strings.Ascii Strings.Byte.
From S2P Require Import Prelude Bytes Jsonl Crypto AuditTrail WalRecord Wal Page Fs Backup BackupSafety BackupRoundtrip Keys Hsm KeyRotate Instances OpsInstances ExtWitness.

#[local] Open Scope Z_scope.
#[local] Open Scope list_scope.

(** ** The file system *)

Definition child_of (d p : Place) : option string :=
  match rev p with
  | c :: r => if bool_decide (rev r = d) then Some c else None
  | [] => None
  end.

Lemma child_of_spec d p c : child_of d p = Some c ↔ p = d ++ [c].
Proof.
  unfold child_of. destruct p as [|x p _] using rev_ind; [split; [done|by destruct d]|].
  rewrite rev_app_distr. cbn. rewrite rev_involutive. case_bool_decide as Hd.
  - subst. split; [by intros [= ->]|by intros [_ ->]%app_inj_tail].
  - split; [done|by intros [-> _]%app_inj_tail].
Qed.

Lemma children_NoDup d (l : list Place) : NoDup l → NoDup (omap (child_of d) l).
Proof.
  induction 1 as [|p l Hp _ IH]; cbn; [constructor|]. destruct (child_of d p) as [c|] eqn:Hc; [|done].
  constructor; [|done]. intros (p' & Hin & Hc')%list_elem_of_omap. apply child_of_spec in Hc, Hc'. congruence.
Qed.

#[global] Instance toy_fs : FsExt.
Proof.
  refine {| read_dir_names := λ fs d, omap (child_of d) (elements (dom fs)) |}.
  - intros fs d. apply children_NoDup, NoDup_elements.
  - intros fs d c. rewrite list_elem_of_omap. setoid_rewrite elem_of_elements. setoid_rewrite elem_of_dom.
    setoid_rewrite child_of_spec. naive_solver.
Defined.

(** ** The archive format *)

Definition normal_name (c : Component) : option string := match c with Normal n => Some n | _ => None end.
Definition toy_tar_name (n : string) : option string :=
  names ← mapM normal_name (components n);
  match names with [] => None | _ => Some (join_slash names) end.

Lemma mapM_normal ps : mapM normal_name (map Normal ps) = Some ps.
Proof. induction ps as [|p ps IH]; [done|]. cbn. by rewrite IH. Qed.

Definition sc_tar : stream_codec (option (string * bytes)) := sc_option (sc_string ⊗ sc_bytes).
Definition toy_entry (n : string) (d : bytes) : bytes := wr sc_tar (Some (default n (toy_tar_name n), d)).
Definition toy_trailer : bytes := wr sc_tar None.

Fixpoint toy_parse (fuel : nat) (bs : bytes) : list (option (string * bytes)) :=
  match fuel with
  | O => [None]
  | S fuel =>
      match rd sc_tar bs with
      | None => [None]
      | Some (None, _) => []
      | Some (Some e, rest) => Some e :: toy_parse fuel rest
      end
  end.

Lemma toy_parse_entries es fuel :
  (length es < fuel)%nat →
  toy_parse fuel (concat (map (λ e, toy_entry e.1 e.2) es) ++ toy_trailer) =
  map (λ e : string * bytes, Some (default e.1 (toy_tar_name e.1), e.2)) es.
Proof.
  revert fuel. induction es as [|[n d] es IH]; intros [|fuel] Hf; cbn [length] in Hf; try lia; cbn [map concat toy_parse].
  - pose proof (rd_wr sc_tar None []) as Hr. rewrite app_nil_r in Hr. cbn [app]. unfold toy_trailer. by rewrite Hr.
  - rewrite <- app_assoc. unfold toy_entry at 1. cbn [fst snd]. rewrite rd_wr. f_equal. apply IH. lia.
Qed.

Lemma toy_entry_length n d : (1 ≤ length (toy_entry n d))%nat.
Proof. unfold toy_entry, sc_tar, sc_option. cbn. lia. Qed.

Lemma toy_entries_length (es : list (string * bytes)) :
  (length es ≤ length (concat (map (λ e, toy_entry e.1 e.2) es)))%nat.
Proof.
  induction es as [|[n d] es IH]; [done|]. cbn [map concat length]. rewrite length_app.
  pose proof (toy_entry_length n d). cbn [fst snd]. lia.
Qed.

Definition sc_files : stream_codec (gmap string bytes).
Proof. refine (sc_iso (sc_list (sc_string ⊗ sc_bytes)) map_to_list list_to_map _). apply list_to_map_to_list. Defined.
Definition sc_manifest : stream_codec BackupManifest.
Proof.
  by refine (sc_iso (sc_string ⊗ sc_Z ⊗ sc_string ⊗ sc_files ⊗ sc_bytes ⊗ sc_bool)
    (λ m, (vledger_version m, created_at_unix m, created_at_rfc m, bm_files m, manifest_hash m, bm_encrypted m))
    (λ '(a, b, c, d, e, f), mkManifest a b c d e f) _); intros [].
Defined.
Definition sc_sidecar : stream_codec BackupKeySidecar.
Proof.
  by refine (sc_iso (sc_bytes ⊗ sc_string) (λ s, (wrapped_key_hex s, kdf_context s)) (λ '(a, b), mkSidecar a b) _); intros [].
Defined.
Definition manifest_json : Json BackupManifest := line_json sc_manifest every.
Definition sidecar_json : Json BackupKeySidecar := line_json sc_sidecar every.

#[global] Instance toy_backup_ext : BackupExt.
Proof.
  refine {| manifest_to_json := @to_json _ manifest_json; manifest_from_json := @from_json _ manifest_json;
    sidecar_to_json := @to_json _ sidecar_json; sidecar_from_json := @from_json _ sidecar_json;
    rfc3339_now := pretty; package_version := "1.0.30"; tar_name := toy_tar_name; tar_entry := toy_entry;
    tar_trailer := toy_trailer; tar_parse := λ bs, toy_parse (S (length bs)) bs |}.
  - intros m j Hj. split; [by apply (@json_roundtrip _ manifest_json)|]. by destruct (@json_line _ manifest_json _ _ Hj).
  - intros m j Hj. split; [by apply (@json_roundtrip _ sidecar_json)|]. by destruct (@json_line _ sidecar_json _ _ Hj).
  - intros ps Hne Hps. unfold toy_tar_name. rewrite components_join by done. rewrite mapM_normal. cbn. by destruct ps.
  - intros es _. apply toy_parse_entries. rewrite length_app. pose proof (toy_entries_length es). lia.
Defined.

(** ** A data directory *)

Definition demo_files : Fs :=
  {[ ["srv"] := NDir; ["srv"; "data"] := NDir; ["srv"; "data"; "wal"] := NDir;
     ["srv"; "data"; "wal"; "1.wal"] := NFile [Byte.x01; Byte.x02]; ["srv"; "data"; "wal"; "old"] := NDir;
     ["srv"; "data"; "wal"; "old"; "0.wal"] := NFile [Byte.x03]; ["srv"; "data"; "keys"] := NDir;
     ["srv"; "data"; "keys"; "db_signing_pubkey.hex"] := NFile [Byte.x04];
     ["srv"; "data"; "keys"; "master_key.hex"] := NFile [Byte.x05] ]}%string.
Definition demo_root : Place := ["srv"; "data"]%string.
Definition demo_master : bytes := replicate 32 Byte.x07.
Definition demo_archive : Path := components "/srv/a.tar".
Definition demo_target : Path := components "/srv/new".

Definition demo_world : World := mkWorld [1700000000000000000; 1700000000000000000] [5; 6; 7; 8; 9] [].

(** ** Checks of a finite file system *)

Lemma map_check (P : Place → Node → bool) (fs : Fs) :
  forallb (λ e, P e.1 e.2) (map_to_list fs) = true → ∀ p n, fs !! p = Some n → P p n = true.
Proof. intros Hall p n Hp. rewrite forallb_forall in Hall. apply (Hall (p, n)). by apply list_elem_of_In, elem_of_map_to_list. Qed.

Definition dir_placeb (fs : Fs) (p : Place) : bool :=
  forallb (λ k, match node_at fs (take k p) with Some NDir => true | _ => false end) (seq 0 (S (length p))).
Lemma dir_placeb_ok fs p : dir_placeb fs p = true → dir_place fs p.
Proof.
  unfold dir_placeb. rewrite forallb_forall. intros Hall q [r ->]. specialize (Hall (length q)).
  rewrite take_app_length in Hall. destruct (node_at fs q) as [[]|]; try done; by (discriminate Hall; apply in_seq; rewrite length_app; lia).
Qed.

Definition shortb (p : Place) : bool := (path_len (place_path p) <=? PATH_MAX)%nat.
Lemma shortb_ok p : shortb p = true → short p.
Proof. apply Nat.leb_le. Qed.

Definition plain_nodeb (root : Place) (fs : Fs) (p : Place) (n : Node) : bool :=
  negb (bool_decide (root `prefix_of` p ∧ root ≠ p)) ||
  (dir_placeb fs (removelast p) && (match n with NLink _ => false | _ => true end) &&
   bool_decide (plain_name (List.last p EmptyString)) && shortb p).
Lemma plain_tree_check root fs :
  dir_placeb fs root && shortb root && forallb (λ e, plain_nodeb root fs e.1 e.2) (map_to_list fs) = true → plain_tree root fs.
Proof.
  rewrite !andb_true_iff. intros [[Hd%dir_placeb_ok Hs%shortb_ok] Hall]. split; [done|done|].
  intros ns c n Hn. pose proof (map_check _ _ Hall _ _ Hn) as Hc. unfold plain_nodeb in Hc.
  rewrite bool_decide_true in Hc.
  2: { split; [by apply prefix_app_r|]. intros He. apply (f_equal length) in He. rewrite !length_app in He. cbn in He. lia. }
  cbn [negb orb] in Hc. rewrite !andb_true_iff in Hc. destruct Hc as [[[Hdn Hl] Hp] Hsn].
  rewrite app_assoc, removelast_last in Hdn. rewrite app_assoc, last_last in Hp.
  split_and!; [by apply dir_placeb_ok|by intros t ->|by apply bool_decide_eq_true in Hp|by apply shortb_ok].
Qed.

(** ** Witnesses: backups *)

Definition demo_create : Result BackupError BackupManifest * (World * Fs) :=
  create_archive [] (place_path demo_root) demo_archive (Some demo_master) (demo_world, demo_files).
Definition no_manifest : BackupManifest := mkManifest EmptyString 0 EmptyString ∅ [] false.
Definition demo_manifest : BackupManifest := res_unwrap_or no_manifest demo_create.1.
Definition demo_backup : Fs := demo_create.2.2.
Definition demo_restore : Result BackupError BackupManifest * (World * Fs) :=
  restore_backup_inner [] demo_archive demo_target false (Some demo_master) (demo_world, demo_backup).

Lemma run_ok {E A S} (d : A) (r : Result E A * S) : is_ok r.1 = true → r = (Ok (res_unwrap_or d r.1), r.2).
Proof. by destruct r as [[a|e] s]. Qed.

Lemma demo_create_ok : demo_create = (Ok demo_manifest, demo_create.2).
Proof. apply run_ok. by vm_compute. Qed.

Lemma backup_only_inside_witness :
  demo_create = (Ok demo_manifest, demo_create.2) ∧
  ∀ rel h, bm_files demo_manifest !! rel = Some h →
    ∃ p bs, demo_root `prefix_of` p ∧ demo_files !! p = Some (NFile bs) ∧ h = file_digest bs.
Proof.
  split; [exact demo_create_ok|]. apply (backup_only_inside [] (place_path demo_root) demo_archive (Some demo_master) demo_world demo_files
    demo_manifest demo_create.2 demo_root ["srv"; "a.tar"]%string).
  - exact demo_create_ok.
  - by vm_compute.
  - by vm_compute.
  - intros [k Hk]. discriminate Hk.
  - apply dir_place_nil.
Defined.

Definition restored_manifest : BackupManifest := res_unwrap_or no_manifest demo_restore.1.
Lemma demo_restore_ok : demo_restore = (Ok restored_manifest, demo_restore.2).
Proof. apply run_ok. by vm_compute. Qed.

Lemma restore_verifies_witness :
  size (bm_files restored_manifest) = 3%nat ∧
  (∃ bs, file_data [] demo_backup demo_archive = Some bs ∧ find_manifest (tar_parse bs) = Ok restored_manifest) ∧
  manifest_verify restored_manifest = true ∧
  ∀ rel h, bm_files restored_manifest !! rel = Some h →
    ∃ bs, file_data [] demo_restore.2.2 (path_join demo_target (components rel)) = Some bs ∧ file_digest bs = h.
Proof.
  split; [by vm_compute|].
  apply (restore_verifies [] demo_archive demo_target false (Some demo_master) demo_world demo_backup restored_manifest demo_restore.2).
  exact demo_restore_ok.
Defined.

Lemma demo_ready : backup_ready demo_files demo_root ["srv"%string] "a.tar".
Proof.
  assert (Hd : dir_place demo_files ["srv"%string]) by (apply dir_placeb_ok; by vm_compute).
  split.
  - apply plain_tree_check. by vm_compute.
  - intros [k Hk]. discriminate Hk.
  - split_and!; [done|apply shortb_ok; by vm_compute|left; by vm_compute].
  - split_and!; [done|apply shortb_ok; by vm_compute|left; by vm_compute].
  - unfold is_dir_or_absent. repeat (apply Forall_cons; split; [first [left; by vm_compute|right; by vm_compute]|]). apply Forall_nil. done.
  - by vm_compute.
Qed.

Lemma demo_libraries : libraries_ok demo_master.
Proof.
  split; [intros ctx; eexists; split; [done|apply le_bytes_length]|intros; by eexists..].
Qed.

Definition target_nodeb (p : Place) (n : Node) : bool :=
  negb (bool_decide (["srv"; "new"]%string `prefix_of` p)) &&
  shortb (["srv"; "new"]%string ++ drop (length demo_root) p).
Lemma demo_target_ready : target_ready demo_files demo_root ["srv"%string] ["srv"%string] "a.tar" "new".
Proof.
  assert (Hall : forallb (λ e, target_nodeb e.1 e.2) (map_to_list demo_files) = true) by (by vm_compute).
  split.
  - apply dir_placeb_ok. by vm_compute.
  - apply shortb_ok. by vm_compute.
  - intros ns. destruct (demo_files !! _) as [n|] eqn:Hn; [|done]. apply (map_check _ _ Hall) in Hn. unfold target_nodeb in Hn.
    rewrite bool_decide_true in Hn; [done|]. by apply prefix_app_r.
  - by split.
  - intros ns bs Hn _. apply (map_check _ _ Hall) in Hn. unfold target_nodeb in Hn. rewrite drop_app_length in Hn.
    apply andb_true_iff in Hn as [_ Hn]. by apply shortb_ok.
Qed.

Lemma backup_restores_witness :
  reaches (m ← create_backup_encrypted [] (place_path demo_root) (place_path ["srv"; "a.tar"]%string) demo_master;
           m' ← restore_backup_encrypted [] (place_path ["srv"; "a.tar"]%string) (place_path ["srv"; "new"]%string) false demo_master;
           mret (m, m')) demo_files
    (λ '(m, m') fs', m' = m ∧
       ∀ ns bs, fs' !! (["srv"; "new"]%string ++ ns) = Some (NFile bs) ↔
         backed_up ns ∧ demo_files !! (demo_root ++ ns) = Some (NFile bs)).
Proof.
  apply (backup_restores [] demo_files demo_root ["srv"%string] ["srv"%string] "a.tar" "new" demo_master).
  - exact demo_ready.
  - exact demo_libraries.
  - exact demo_target_ready.
Defined.

Definition demo_report : Result BackupError VerifyReport * (World * Fs) :=
  verify_backup [] demo_archive (Some demo_master) (demo_world, demo_backup).
Definition no_report : VerifyReport := mkReport [] EmptyString EmptyString false [] false 0 false [] 0.
Definition the_report : VerifyReport := res_unwrap_or no_report demo_report.1.
Lemma demo_report_ok : demo_report = (Ok the_report, demo_report.2).
Proof. apply run_ok. by vm_compute. Qed.

Lemma verify_report_exact_witness :
  report_is_ok the_report = true ∧
  ∃ bs m key, file_data [] demo_backup demo_archive = Some bs ∧ find_manifest (tar_parse bs) = Ok m ∧
    vr_total_files the_report = size (bm_files m) ∧
    (report_is_ok the_report = true ↔ manifest_verify m = true ∧
       (is_Some key ∨ bm_encrypted m = false →
        ∀ name raw, Some (name, raw) ∈ tar_parse bs → name ≠ "MANIFEST.json"%string → entry_matches m key name raw)).
Proof.
  split; [by vm_compute|].
  apply (verify_report_exact [] demo_archive (Some demo_master) demo_world demo_backup the_report demo_report.2).
  exact demo_report_ok.
Defined.

(** The two archives below are read back by the laws of the format. *)
Lemma json_of m : manifest_to_json m = Some (default [] (manifest_to_json m)).
Proof. done. Qed.

(** An archive that holds nothing but the manifest. *)
Definition emptied_json : bytes := default [] (manifest_to_json demo_manifest).
Definition emptied_bytes : bytes := toy_entry "MANIFEST.json" emptied_json ++ toy_trailer.

Lemma emptied_parse : tar_parse emptied_bytes = [Some ("MANIFEST.json"%string, emptied_json)].
Proof.
  pose proof (tar_read [("MANIFEST.json"%string, emptied_json)]) as Hr. cbn [map concat fst snd] in Hr.
  rewrite app_nil_r in Hr. apply Hr. by apply Forall_singleton.
Qed.

Lemma verify_passes_emptied_witness :
  size (bm_files demo_manifest) = 3%nat ∧
  reaches (verify_backup [] (place_path ["srv"; "a.tar"]%string) None) (escape_fs emptied_bytes)
    (λ r _, report_is_ok r = true ∧ vr_total_files r = size (bm_files demo_manifest)).
Proof.
  split; [by vm_compute|].
  apply (verify_passes_emptied [] ["srv"%string] "a.tar" (escape_fs emptied_bytes) emptied_bytes emptied_json demo_manifest).
  - apply dir_placeb_ok. by vm_compute.
  - done.
  - apply shortb_ok. by vm_compute.
  - apply emptied_parse.
  - apply (manifest_json_ok _ _ (json_of demo_manifest)).
  - apply (manifest_json_ok _ _ (json_of demo_manifest)).
  - by vm_compute.
Defined.

(** An archive with an entry that climbs out of the target. *)
Definition evil_manifest : BackupManifest := mkManifest EmptyString 0 EmptyString ∅ (compute_manifest_hash ∅) false.
Definition evil_json : bytes := default [] (manifest_to_json evil_manifest).
Definition evil_bytes : bytes := toy_entry "MANIFEST.json" evil_json ++ wr sc_tar (Some (escape_name, [Byte.x2a])) ++ toy_trailer.

Lemma restore_escapes_witness :
  reaches (restore_backup [] (components "/srv/a.tar") (components "/srv/target") false) (escape_fs evil_bytes)
    (λ _ fs', fs' !! ["srv"; "evil"; "x"]%string = Some (NFile [Byte.x2a]) ∧ node_at fs' ["srv"; "target"]%string = Some NDir).
Proof.
  apply (restore_escapes [] evil_bytes evil_json [Byte.x2a] evil_manifest).
  - by vm_compute.
  - by vm_compute.
  - by vm_compute.
  - by vm_compute.
  - by vm_compute.
  - by vm_compute.
Defined.

(** A backup of the same directory, given as a relative path, does not restore. *)
Definition relative_run : M Fs BackupError BackupManifest :=
  _ ← create_backup_encrypted ["srv"%string] (components "./data") demo_archive demo_master;
  restore_backup_encrypted ["srv"%string] demo_archive demo_target false demo_master.
Example relative_backup_fails : (relative_run (demo_world, demo_files)).1 = Err (BkDecrypt "wal/srv/data/wal/1.wal").
Proof. by vm_compute. Qed.

(** ** Witnesses: keys *)

Lemma kdf_contexts_separate_witness :
  purpose_ok (PRow 1 2) ∧ (str_bytes (purpose_context (PRow 1 2)) = str_bytes (purpose_context (PRow 1 2)) → PRow 1 2 = PRow 1 2).
Proof.
  split; [by split|]. apply (kdf_contexts_separate (PRow 1 2) (PRow 1 2)); [by split|by split].
Defined.

(** ** Witness: key rotation *)

Definition rotate_args : RotateArgs := mkRotateArgs None "ops" None None None None 5000 3.
Definition rotate_env : Env := λ _, None.
Definition rotate_state : Rot (Z * bytes) := mkRot (0, []) (Some []) (Some ["00000001.pages"; "table_7_x"]%string).
Definition rotate_run : Result RotateError (list string) * (World * Rot (Z * bytes)) :=
  rotate_keys (ideal_net parse_message toy_handle line_of) rotate_env rotate_args (demo_world, rotate_state).
Definition rotated_keys : list string := res_unwrap_or [] rotate_run.1.
Lemma rotate_run_ok : rotate_run = (Ok rotated_keys, rotate_run.2).
Proof. apply run_ok. by vm_compute. Qed.

Lemma rotation_audited_witness :
  length rotated_keys = 5%nat ∧
  rotated_keys `sublist_of` collect_key_ids (ro_pages rotate_state) ∧
  ∃ l' evs', ro_file rotate_run.2.2 = Some (al_file l') ∧ log_repr l' ([] ++ evs') ∧
    map ae_event evs' = map (rotation_event "ops") rotated_keys.
Proof.
  split; [by vm_compute|].
  apply (rotation_audited (ideal_net parse_message toy_handle line_of) rotate_env rotate_args demo_world rotate_state rotated_keys
    rotate_run.2 fresh_log []).
  - exact rotate_run_ok.
  - done.
  - done.
  - exact fresh_log_repr.
Defined.
