(* ===== verification/McpWitness.v ===== *)
(** * The theorems about the MCP server, at concrete inputs

    A lexer and a recursive-descent parser for the fragment of [SqlText], with
    the proof that it satisfies [SqlReads], so that what the tools rely on of the
    [sqlparser] crate can be had; the ledger of [Instances] behind the tools, and a
    server for the network tools. *)

From stdpp Require Import base gmap list strings option pretty fin_maps sorting relations.
From Stdlib Require Import ZArith Lia Strings.Byte Strings.Ascii.
From S2P Require Import Prelude Bytes Jsonl Crypto Merkle Money Entry AuditTrail SqlGuard WalRecord Wal Recovery Replication ReplSafety Tx Page EntryDb Sql Store StoreFrame StoreBooks StoreInv StoreSafety StoreAudit SqlExec SqlSafety SqlPlan UserAuth Server ServerSafety SqlText McpText McpTools McpSafety McpNet McpReports McpServer McpServerSafety Instances OpsInstances ServerWitness.

#[local] Open Scope string_scope.
#[local] Open Scope Z_scope.
#[local] Open Scope list_scope.

(** * A parser that reads the statements of the tools *)

#[global] Instance token_eq : EqDecision token.
Proof. solve_decision. Defined.

(** ** The lexer *)

Fixpoint span (f : byte → bool) (bs : bytes) : bytes * bytes :=
  match bs with
  | b :: r => if f b then let '(w, r') := span f r in (b :: w, r') else ([], bs)
  | [] => ([], [])
  end.

(** The inside of a quoted text, up to its closing quote. *)
Fixpoint quoted (bs : bytes) : option (bytes * bytes) :=
  match bs with
  | b :: r =>
      if bool_decide (b = squote) then
        match r with
        | b' :: r' => if bool_decide (b' = squote) then '(w, r'') ← quoted r'; Some (squote :: w, r'') else Some ([], r)
        | [] => Some ([], [])
        end
      else '(w, r') ← quoted r; Some (b :: w, r')
  | [] => None
  end.

Definition symbol (bs : bytes) : option (token * bytes) :=
  let known s r := if one_of SYMBOLS s then Some (TSym s, r) else None in
  match bs with
  | b :: r =>
      if bool_decide (head r = Some Byte.x3d) && (bool_decide (b = Byte.x3e) || bool_decide (b = Byte.x3c))
      then known (String.string_of_list_byte [b; Byte.x3d]) (tail r)
      else known (String.string_of_list_byte [b]) r
  | [] => None
  end.

Definition lex1 (bs : bytes) : option (token * bytes) :=
  match bs with
  | b :: r =>
      if digit_byte b then let '(w, r') := span digit_byte bs in Some (TNum (String.string_of_list_byte w), r')
      else if word_byte b then let '(w, r') := span word_byte bs in Some (TWord (String.string_of_list_byte w), r')
      else if bool_decide (b = squote) then '(w, r') ← quoted r; Some (TStr (String.string_of_list_byte w), r')
      else symbol bs
  | [] => None
  end.

Fixpoint lex (fuel : nat) (bs : bytes) : option (list token) :=
  match fuel, bs with
  | _, [] => Some []
  | O, _ => None
  | S fuel, b :: r =>
      if bool_decide (b = Byte.x20) then lex fuel r
      else '(t, r') ← lex1 bs; ts ← lex fuel r'; Some (t :: ts)
  end.

(** *** It reads the tokens back *)

Lemma span_app f w r : forallb f w = true → match r with b :: _ => f b = false | [] => True end → span f (w ++ r) = (w, r).
Proof.
  intros Hw Hr. induction w as [|b w IH]; cbn [app].
  - destruct r as [|b r]; [done|]. cbn. by rewrite Hr.
  - cbn in Hw. apply andb_true_iff in Hw as [Hb Hw]. cbn. by rewrite Hb, IH.
Qed.

Lemma quoted_escape s rest : head rest ≠ Some squote → quoted (str_bytes (escape s) ++ squote :: rest) = Some (str_bytes s, rest).
Proof.
  intros Hr. induction s as [|a s IH].
  - change (quoted (squote :: rest) = Some ([], rest)). cbn [quoted]. rewrite bool_decide_true by done.
    destruct rest as [|b rest]; [done|]. rewrite bool_decide_false; [done|]. cbn in Hr. congruence.
  - rewrite escape_cons, str_bytes_cons. case_bool_decide as Ha; cbn [app quoted].
    + rewrite !bool_decide_true by done. by rewrite IH, Ha.
    + rewrite bool_decide_false by done. by rewrite IH.
Qed.

Lemma str_of_bytes (s : string) : String.string_of_list_byte (str_bytes s) = s.
Proof. apply String.string_of_list_byte_of_string. Qed.

(** What follows a token in a separated list. *)
Definition follows_ok (t : token) (rest : bytes) : Prop :=
  match t with
  | TWord _ | TNum _ => match rest with b :: _ => word_byte b = false | [] => True end
  | TStr _ => head rest ≠ Some squote
  | TSym s => s ∈ [">"; "<"] → head rest ≠ Some Byte.x3d
  end.

Lemma one_of_true names s : one_of names s = true → s ∈ names.
Proof. unfold one_of. by intros ?%bool_decide_eq_true. Qed.

Lemma lex1_token t rest : token_ok t = true → follows_ok t (str_bytes rest) → lex1 (str_bytes (token_then t rest)) = Some (t, str_bytes rest).
Proof.
  intros Ht Hf. destruct t as [w|n|s|s]; cbn [token_then].
  - rewrite str_bytes_app. rewrite <- (str_of_bytes w) at 2. cbn in Ht. destruct (str_bytes w) as [|b r] eqn:Hw; [done|].
    apply andb_true_iff in Ht as [[Hb Hd]%andb_true_iff Hr]. apply negb_true_iff in Hd. cbn [app lex1]. rewrite Hd, Hb.
    change (b :: r ++ str_bytes rest) with ((b :: r) ++ str_bytes rest). rewrite span_app; [done| |done]. cbn. by rewrite Hb.
  - rewrite str_bytes_app. rewrite <- (str_of_bytes n) at 2. cbn in Ht. destruct (str_bytes n) as [|b r] eqn:Hw; [done|].
    change (forallb digit_byte (b :: r) = true) in Ht. pose proof Ht as Hall. cbn in Ht. apply andb_true_iff in Ht as [Hb _].
    cbn [app lex1]. rewrite Hb. change (b :: r ++ str_bytes rest) with ((b :: r) ++ str_bytes rest). rewrite span_app; [done..|].
    cbn in Hf. destruct (str_bytes rest) as [|b' ?]; [done|]. destruct (digit_byte b') eqn:E; [|done]. apply digit_byte_word in E. congruence.
  - rewrite str_bytes_cons, str_bytes_app, str_bytes_cons. change (Ascii.byte_of_ascii quote_char) with squote.
    cbn [lex1]. change (digit_byte squote) with false. change (word_byte squote) with false. rewrite bool_decide_true by done.
    rewrite quoted_escape by done. cbn. by rewrite str_of_bytes.
  - rewrite str_bytes_app. cbn in Ht. apply one_of_true in Ht. unfold SYMBOLS, OPERATORS in Ht. cbn in Ht.
    repeat (apply elem_of_cons in Ht as [->|Ht]); [..|by apply not_elem_of_nil in Ht].
    all: generalize dependent (str_bytes rest); intros r Hf.
    all: match goal with |- context [str_bytes ?x] => let v := eval vm_compute in (str_bytes x) in change (str_bytes x) with v end; cbn [app].
    all: unfold lex1, symbol; destruct (bool_decide (head r = Some Byte.x3d)) eqn:E; try (vm_compute; reflexivity).
    apply bool_decide_eq_true in E. exfalso. apply Hf; [left|done].
Qed.

Lemma separated_follows sp t ts : separated ((sp, t) :: ts) = true → follows_ok t (text_bytes ts).
Proof.
  intros Hs. destruct t as [w|n|s|s]; [| |by eapply head_after_quote|].
  3: { intros Hin Heq. destruct ts as [|[sp' u] ts]; [done|]. pose proof (separated_head _ _ _ (separated_tail _ _ _ Hs)) as Hu.
       cbn [separated] in Hs. apply andb_true_iff in Hs as [Hok [Ht _]%andb_true_iff]. destruct sp'; [done|]. cbn [orb may_touch] in Ht.
       cbn in Hok. apply elem_of_cons in Hin as [->|Hin]; [by vm_compute in Ht|].
       apply elem_of_cons in Hin as [->|Hin]; [by vm_compute in Hok|by apply not_elem_of_nil in Hin]. }
  all: destruct ts as [|[sp' u] ts]; [done|]; pose proof (separated_head _ _ _ (separated_tail _ _ _ Hs)) as Hu;
    cbn [separated] in Hs; apply andb_true_iff in Hs as [Hok [Ht _]%andb_true_iff]; destruct sp'; [done|]; cbn [orb may_touch] in Ht;
    destruct u as [|?|x|x]; try done; pose proof (text_head _ ts Hu) as Hh; unfold follows_ok;
    destruct (text_bytes _) as [|b ?]; try done.
  all: try (cbn in Hh; by injection Hh as ->).
  all: cbn in Hu; apply one_of_true in Hu; unfold SYMBOLS, OPERATORS in Hu; cbn in Hu;
    repeat (apply elem_of_cons in Hu as [->|Hu]); [..|by apply not_elem_of_nil in Hu]; cbn in Hh; by injection Hh as ->.
Qed.

Lemma token_first t rest : token_ok t = true → ∃ b r, str_bytes (token_then t rest) = b :: r ∧ b ≠ Byte.x20.
Proof.
  intros Ht. destruct t as [w|n|s|s]; cbn [token_then].
  - rewrite str_bytes_app. cbn in Ht. destruct (str_bytes w) as [|b r]; [done|]. eexists _, _. split; [done|]. intros ->. by vm_compute in Ht.
  - rewrite str_bytes_app. cbn in Ht. destruct (str_bytes n) as [|b r]; [done|]. eexists _, _. split; [done|]. intros ->. by vm_compute in Ht.
  - by eexists _, _.
  - rewrite str_bytes_app. cbn in Ht. apply one_of_true in Ht. unfold SYMBOLS, OPERATORS in Ht. cbn in Ht.
    repeat (apply elem_of_cons in Ht as [->|Ht]); [by eexists _, _..|]. by apply not_elem_of_nil in Ht.
Qed.

Lemma token_longer t rest : token_ok t = true → (length (str_bytes rest) < length (str_bytes (token_then t rest)))%nat.
Proof.
  intros Ht. destruct t as [w|n|s|s]; cbn [token_then].
  - rewrite str_bytes_app, length_app. cbn in Ht. destruct (str_bytes w); [done|]. cbn. lia.
  - rewrite str_bytes_app, length_app. cbn in Ht. destruct (str_bytes n); [done|]. cbn. lia.
  - rewrite str_bytes_cons, str_bytes_app, str_bytes_cons. cbn. rewrite length_app. cbn. lia.
  - rewrite str_bytes_app, length_app. cbn in Ht. apply one_of_true in Ht. unfold SYMBOLS, OPERATORS in Ht. cbn in Ht.
    repeat (apply elem_of_cons in Ht as [->|Ht]); [cbn; lia..|]. by apply not_elem_of_nil in Ht.
Qed.

Lemma lex_tokens ts : ∀ fuel, separated ts = true → (length (text_bytes ts) ≤ fuel)%nat → lex fuel (text_bytes ts) = Some (map snd ts).
Proof.
  induction ts as [|[sp t] ts IH]; intros fuel Hs Hf; [by destruct fuel|]. pose proof (separated_tail _ _ _ Hs) as Hts.
  pose proof (separated_head _ _ _ Hs) as Ht. pose proof (separated_follows _ _ _ Hs) as Hfo. pose proof (lex1_token _ (print_tokens ts) Ht Hfo) as Hlex.
  assert (Hgo : ∀ fuel, (length (str_bytes (token_then t (print_tokens ts))) ≤ fuel)%nat →
    lex fuel (str_bytes (token_then t (print_tokens ts))) = Some (t :: map snd ts)).
  { clear Hf fuel. intros fuel Hf. destruct (token_first t (print_tokens ts) Ht) as (b&r&Hb&Hne). rewrite Hb in *.
    destruct fuel as [|fuel]; [cbn in Hf; lia|]. cbn [lex]. rewrite bool_decide_false by done. rewrite Hlex. cbn.
    change (str_bytes (print_tokens ts)) with (text_bytes ts). pose proof (token_longer t (print_tokens ts) Ht) as Hlt.
    rewrite IH; [done|done|]. rewrite Hb in Hlt. cbn in Hlt, Hf. unfold text_bytes. lia. }
  rewrite text_bytes_cons in *. destruct sp; [|by apply Hgo]. cbn [app] in *. destruct fuel as [|fuel]; [cbn in Hf; lia|].
  cbn [lex]. rewrite bool_decide_true by done. apply Hgo. cbn in Hf. lia.
Qed.

(** ** The parser *)

Definition P (A : Type) : Type := list token → option (A * list token).

(** A token that must come next, one that may. *)
Definition eat (t : token) (ts : list token) : option (list token) :=
  match ts with u :: r => if bool_decide (u = t) then Some r else None | [] => None end.

Fixpoint p_sep {A} (sep : token) (p : P A) (fuel : nat) : P (list A) := λ ts,
  match fuel with
  | O => None
  | S fuel =>
      '(a, r) ← p ts;
      match eat sep r with
      | Some r => '(l, r') ← p_sep sep p fuel r; Some (a :: l, r')
      | None => Some ([a], r)
      end
  end.

Definition p_commas {A} (p : P A) : P (list A) := λ ts, p_sep (TSym ",") p (length ts) ts.

Definition p_word : P string := λ ts, match ts with TWord w :: r => Some (w, r) | _ => None end.

Definition p_lit : P Expr := λ ts,
  match ts with
  | TStr s :: r => Some (ExprValue (SingleQuotedString s), r)
  | TNum n :: r => Some (ExprValue (Number n), r)
  | TSym _ :: TNum _ :: r => if bool_decide (head ts = Some (TSym "-")) then Some (OtherExpr "", r) else None
  | _ => None
  end.

Definition p_arg : P FunctionArg := λ ts,
  match ts with
  | TWord w :: r => Some (ArgExpr (Identifier w), r)
  | _ => '(e, r) ← p_lit ts; Some (ArgExpr e, r)
  end.

Definition p_item : P SelectItem := λ ts,
  '(w, r) ← p_word ts;
  match eat (TSym "(") r with
  | None => Some (UnnamedExpr (Identifier w), r)
  | Some r =>
      match eat (TSym ")") r with
      | Some r => Some (UnnamedExpr (ExprFunction (mkFunction w (ArgList []) None)), r)
      | None =>
          '(args, r) ← p_commas p_arg r;
          r ← eat (TSym ")") r;
          Some (UnnamedExpr (ExprFunction (mkFunction w (ArgList args) None)), r)
      end
  end.

Definition p_atom : P Expr := λ ts,
  '(c, r) ← p_word ts;
  match r with
  | TSym op :: r =>
      '(e, r) ← p_lit r;
      if bool_decide (op = "=") then Some (BinaryEq (Identifier c) e, r)
      else if one_of OPERATORS op then Some (OtherExpr "", r) else None
  | TWord l :: TStr p :: TWord e :: TStr _ :: r =>
      if bool_decide (l = "LIKE") && bool_decide (e = "ESCAPE") then Some (Like (Identifier c) (ExprValue (SingleQuotedString p)) false, r) else None
  | _ => None
  end.

Definition p_where : P (option Expr) := λ ts,
  match eat (TWord "WHERE") ts with
  | None => Some (None, ts)
  | Some r => '(cs, r) ← p_sep (TWord "AND") p_atom (length r) r; Some (Some (match cs with [e] => e | _ => OtherExpr "" end), r)
  end.

Definition p_order : P unit := λ ts,
  match eat (TWord "ORDER") ts with
  | None => Some (tt, ts)
  | Some r => r ← eat (TWord "BY") r; '(_, r) ← p_word r; Some (tt, r)
  end.

Definition p_limit : P (option Expr) := λ ts,
  match eat (TWord "LIMIT") ts with
  | None => Some (None, ts)
  | Some (TNum n :: r) => Some (Some (ExprValue (Number n)), r)
  | Some _ => None
  end.

Definition p_select : P Statement := λ ts,
  '(items, r) ← p_commas p_item ts;
  match eat (TWord "FROM") r with
  | None => Some (StQuery (mkQuery (SetSelect (mkSelect items [] None (GroupByExprs []))) None), r)
  | Some r =>
      '(t, r) ← p_word r;
      '(cond, r) ← p_where r;
      '(_, r) ← p_order r;
      '(lim, r) ← p_limit r;
      Some (StQuery (mkQuery (SetSelect (mkSelect items [(Table t, [])] cond (GroupByExprs []))) lim), r)
  end.

Definition p_insert : P Statement := λ ts,
  r ← eat (TWord "INTO") ts;
  '(t, r) ← p_word r;
  r ← eat (TSym "(") r;
  '(columns, r) ← p_commas p_word r;
  r ← eat (TSym ")") r;
  r ← eat (TWord "VALUES") r;
  r ← eat (TSym "(") r;
  '(vs, r) ← p_commas p_lit r;
  r ← eat (TSym ")") r;
  Some (StInsert (mkInsert t columns (Some (mkQuery (SetValues [vs]) None))), r).

Definition p_statement : P Statement := λ ts,
  match eat (TWord "SELECT") ts with
  | Some r => p_select r
  | None => r ← eat (TWord "INSERT") ts; p_insert r
  end.

Definition toy_parse_sql (bs : bytes) : Result bytes (list Statement) :=
  match (ts ← lex (length bs) bs; p_statement ts) with Some (st, []) => Ok [st] | _ => Err (str_bytes "syntax error") end.

(** *** It reads the trees of the fragment *)

Definition no_text (ts : list (bool * token)) : string := "".

Notation toks ts := (map snd (ts : list (bool * token))).

Lemma eat_same t r : eat t (t :: r) = Some r.
Proof. cbn. by rewrite bool_decide_true. Qed.
Lemma eat_other t r : head r ≠ Some t → eat t r = None.
Proof. destruct r as [|u r]; [done|]. cbn. intros Hne. rewrite bool_decide_false; [done|]. congruence. Qed.

(** A name or a value ends before anything but an opening parenthesis. *)
Definition no_open (rest : list token) : Prop := head rest ≠ Some (TSym "(").

Lemma p_sep_commas {A B} (f : bool → A → list (bool * token)) (p : P B) (tree : A → B) sp xs : ∀ first fuel rest,
  xs ≠ [] → (∀ x sp rest, x ∈ xs → no_open rest → p (toks (f sp x) ++ rest) = Some (tree x, rest)) →
  no_open rest → head rest ≠ Some (TSym ",") → (length xs ≤ fuel)%nat →
  p_sep (TSym ",") p fuel (toks (comma_tokens f sp first xs) ++ rest) = Some (map tree xs, rest).
Proof.
  induction xs as [|x xs IH]; intros first fuel rest Hne Hp Ho Hc Hf; [done|]. destruct fuel as [|fuel]; [cbn in Hf; lia|].
  destruct xs as [|y xs].
  - cbn [comma_tokens p_sep]. rewrite Hp by (done || left). cbn [mbind option_bind]. by rewrite eat_other by done.
  - change (comma_tokens f sp first (x :: y :: xs)) with (f first x ++ (false, TSym ",") :: comma_tokens f sp sp (y :: xs)).
    rewrite map_app, <- app_assoc. cbn [p_sep]. rewrite Hp by (done || left). cbn [mbind option_bind]. cbn [map snd app]. rewrite eat_same.
    rewrite IH; [done|done| |done..|cbn in Hf |- *; lia]. intros z sp' rest' Hz. apply Hp. by right.
Qed.

Lemma comma_length {A} (f : bool → A → list (bool * token)) sp first xs : (∀ sp x, f sp x ≠ []) → (length xs ≤ length (toks (comma_tokens f sp first xs)))%nat.
Proof.
  intros Hf. revert first. induction xs as [|x xs IH]; intros first; [done|]. destruct xs as [|y xs].
  - cbn [comma_tokens length]. rewrite length_map. pose proof (Hf first x) as Hx. destruct (f first x); [done|cbn; lia].
  - change (comma_tokens f sp first (x :: y :: xs)) with (f first x ++ (false, TSym ",") :: comma_tokens f sp sp (y :: xs)).
    rewrite map_app, length_app. specialize (IH sp). cbn [map length] in *. lia.
Qed.

Lemma p_commas_reads {A B} (f : bool → A → list (bool * token)) (p : P B) (tree : A → B) sp first xs rest :
  (∀ sp x, f sp x ≠ []) → xs ≠ [] → (∀ x sp rest, x ∈ xs → no_open rest → p (toks (f sp x) ++ rest) = Some (tree x, rest)) →
  no_open rest → head rest ≠ Some (TSym ",") → p_commas p (toks (comma_tokens f sp first xs) ++ rest) = Some (map tree xs, rest).
Proof.
  intros Hf Hne Hp Ho Hc. unfold p_commas. apply p_sep_commas; [done..|]. rewrite length_app.
  pose proof (comma_length f sp first xs Hf). lia.
Qed.

Lemma lit_nonempty sp l : lit_tokens sp l ≠ [].
Proof. destruct l as [s|n]; [done|]. cbn -[Z.ltb]. by destruct (n <? 0). Qed.
Lemma arg_nonempty sp a : arg_tokens sp a ≠ [].
Proof. destruct a; [done|apply lit_nonempty]. Qed.

Lemma p_lit_reads sp l rest : p_lit (toks (lit_tokens sp l) ++ rest) = Some (lit_tree no_text l, rest).
Proof. destruct l as [s|n]; [done|]. cbn -[Z.ltb]. by destruct (n <? 0). Qed.

Lemma p_arg_reads sp a rest : p_arg (toks (arg_tokens sp a) ++ rest) = Some (arg_tree no_text a, rest).
Proof.
  destruct a as [c|l]; [done|]. cbn [arg_tokens arg_tree]. unfold p_arg. rewrite p_lit_reads.
  destruct l as [s|n]; [done|]. unfold arg_tree. cbn -[Z.ltb]. by destruct (n <? 0).
Qed.

(** A list of arguments does not start with a closing parenthesis. *)
Lemma args_open args rest : args ≠ [] → head (toks (comma_tokens arg_tokens true false args) ++ rest) ≠ Some (TSym ")").
Proof.
  destruct args as [|a args]; [done|]. intros _. assert (Ha : ∀ r, head (toks (arg_tokens false a) ++ r) ≠ Some (TSym ")")).
  { intros r. destruct a as [c|[s|n]]; [done..|]. cbn. by destruct (n <? 0). }
  destruct args as [|b args]; [apply Ha|].
  change (comma_tokens arg_tokens true false (a :: b :: args)) with (arg_tokens false a ++ (false, TSym ",") :: comma_tokens arg_tokens true true (b :: args)).
  rewrite map_app, <- app_assoc. apply Ha.
Qed.

Lemma p_item_reads sp i rest : no_open rest → p_item (toks (item_tokens sp i) ++ rest) = Some (item_tree no_text i, rest).
Proof.
  intros Ho. destruct i as [c|f args].
  - unfold p_item. cbn. by rewrite eat_other by done.
  - cbn [item_tokens map snd app]. unfold p_item. cbn [p_word mbind option_bind]. rewrite eat_same.
    rewrite map_app. cbn [map snd app]. rewrite <- app_assoc. cbn [app]. destruct args as [|a args].
    + cbn [comma_tokens map app]. by rewrite eat_same.
    + rewrite eat_other by (by apply args_open). rewrite (p_commas_reads arg_tokens p_arg (arg_tree no_text)); [|apply arg_nonempty|done|intros; apply p_arg_reads|done|done].
      cbn [mbind option_bind]. by rewrite eat_same.
Qed.

(** A condition: the names and operators of the fragment. *)
Definition atom_tree (a : Atom) : Expr :=
  match a with
  | AEq c l => BinaryEq (Identifier c) (lit_tree no_text l)
  | ACmp _ _ _ => OtherExpr ""
  | ALike c p _ => Like (Identifier c) (ExprValue (SingleQuotedString p)) false
  end.

Lemma p_atom_reads a rest : atom_ok a = true → p_atom (toks (atom_tokens a) ++ rest) = Some (atom_tree a, rest).
Proof.
  destruct a as [c l|c op l|c p e]; intros Ha; cbn [atom_tokens map snd app]; unfold p_atom; cbn [p_word mbind option_bind].
  - rewrite p_lit_reads. done.
  - rewrite p_lit_reads. cbn in Ha. apply andb_true_iff in Ha as [_ Hop]. cbn [mbind option_bind].
    rewrite bool_decide_false by (intros ->; by vm_compute in Hop). by rewrite Hop.
  - done.
Qed.

Lemma p_and_reads cs : ∀ fuel rest, cs ≠ [] → forallb atom_ok cs = true → head rest ≠ Some (TWord "AND") → (length cs ≤ fuel)%nat →
  p_sep (TWord "AND") p_atom fuel (toks (and_tokens cs) ++ rest) = Some (map atom_tree cs, rest).
Proof.
  induction cs as [|a cs IH]; intros fuel rest Hne Hok Hr Hf; [done|]. cbn in Hok. apply andb_true_iff in Hok as [Ha Hok].
  destruct fuel as [|fuel]; [cbn in Hf; lia|]. destruct cs as [|b cs].
  - cbn [and_tokens p_sep]. rewrite p_atom_reads by done. cbn [mbind option_bind]. by rewrite eat_other by done.
  - change (and_tokens (a :: b :: cs)) with (atom_tokens a ++ (true, TWord "AND") :: and_tokens (b :: cs)).
    rewrite map_app, <- app_assoc. cbn [p_sep]. rewrite p_atom_reads by done. cbn [mbind option_bind map snd app]. rewrite eat_same.
    rewrite IH; [done..|cbn in Hf |- *; lia].
Qed.

Lemma and_length cs : (length cs ≤ length (toks (and_tokens cs)))%nat.
Proof.
  induction cs as [|a cs IH]; [done|]. assert (Ha : (1 ≤ length (toks (atom_tokens a)))%nat) by (destruct a; cbn; lia).
  destruct cs as [|b cs]; [done|].
  change (and_tokens (a :: b :: cs)) with (atom_tokens a ++ (true, TWord "AND") :: and_tokens (b :: cs)).
  rewrite map_app, length_app. cbn [map length] in *. lia.
Qed.

Lemma p_where_reads cs rest : forallb atom_ok cs = true → head rest ≠ Some (TWord "WHERE") → head rest ≠ Some (TWord "AND") →
  p_where (toks (where_tokens cs) ++ rest) = Some (where_tree no_text cs, rest).
Proof.
  intros Hok Hw Ha. unfold p_where. destruct cs as [|c cs]; [by cbn; rewrite eat_other|].
  change (where_tokens (c :: cs)) with ((true, TWord "WHERE") :: and_tokens (c :: cs)). cbn [map snd app]. rewrite eat_same.
  rewrite p_and_reads; [|done..|rewrite length_app; pose proof (and_length (c :: cs)); lia].
  by destruct c, cs.
Qed.

Lemma p_order_reads o rest : head rest ≠ Some (TWord "ORDER") → p_order (toks (order_tokens o) ++ rest) = Some (tt, rest).
Proof. intros Hr. unfold p_order. destruct o as [c|]; [done|]. cbn. by rewrite eat_other. Qed.

Lemma p_limit_reads o : p_limit (toks (limit_tokens o)) = Some ((λ n, ExprValue (Number (pretty n))) <$> o, []).
Proof. by destruct o. Qed.

Lemma forallb_elem {A} (f : A → bool) xs x : forallb f xs = true → x ∈ xs → f x = true.
Proof. rewrite forallb_forall. intros Hf Hx. apply Hf. by apply list_elem_of_In. Qed.

Lemma item_nonempty sp i : item_tokens sp i ≠ [].
Proof. by destruct i. Qed.
Lemma word_nonempty sp c : word_tokens sp c ≠ [].
Proof. done. Qed.

Lemma nonempty_ne {A} (l : list A) : nonempty l = true → l ≠ [].
Proof. by destruct l. Qed.

Lemma p_select_reads q : select_ok q = true → p_select (tail (toks (select_tokens q))) = Some (statement_tree no_text (TSelect q), []).
Proof.
  intros Hok. unfold select_ok in Hok. apply andb_true_iff in Hok as [[[[[Hne%nonempty_ne _]%andb_true_iff Hf]%andb_true_iff Hw]%andb_true_iff _]%andb_true_iff _].
  unfold select_tokens. cbn [map tail]. rewrite map_app. unfold p_select.
  assert (Hfrom : no_open (toks (from_tokens q)) ∧ head (toks (from_tokens q)) ≠ Some (TSym ",")) by (unfold from_tokens; by destruct (st_from q)).
  rewrite (p_commas_reads item_tokens p_item (item_tree no_text)); [|apply item_nonempty|done|intros; by apply p_item_reads|apply Hfrom..].
  cbn [mbind option_bind]. unfold from_tokens, statement_tree. destruct (st_from q) as [t|]; [|done].
  cbn [map snd]. rewrite eat_same. cbn [p_word mbind option_bind]. rewrite map_app.
  rewrite p_where_reads; [|done|by destruct (st_order q), (st_limit q)..]. cbn [mbind option_bind]. rewrite map_app.
  rewrite p_order_reads by (by destruct (st_limit q)). cbn [mbind option_bind]. rewrite p_limit_reads. cbn [mbind option_bind].
  by destruct (st_limit q).
Qed.

Lemma p_insert_reads i : insert_ok i = true → p_insert (tail (toks (insert_tokens i))) = Some (statement_tree no_text (TInsert i), []).
Proof.
  intros Hok. unfold insert_ok in Hok. apply andb_true_iff in Hok as [[[Ht Hc%nonempty_ne]%andb_true_iff _]%andb_true_iff Hv%nonempty_ne].
  unfold insert_tokens, p_insert. cbn [map snd tail]. rewrite eat_same. cbn [p_word mbind option_bind]. rewrite eat_same, map_app. cbn [mbind option_bind].
  rewrite (p_commas_reads word_tokens p_word id); [|apply word_nonempty|done|done|done..]. cbn [map snd mbind option_bind].
  rewrite !eat_same. cbn [mbind option_bind]. rewrite !eat_same. cbn [mbind option_bind]. rewrite !eat_same, map_app. cbn [mbind option_bind].
  rewrite (p_commas_reads lit_tokens p_lit (lit_tree no_text)); [|apply lit_nonempty|done|intros; apply p_lit_reads|done..].
  cbn [map snd mbind option_bind]. rewrite eat_same. cbn [mbind option_bind statement_tree]. by rewrite map_id.
Qed.

Theorem toy_reads q : statement_ok q = true → toy_parse_sql (str_bytes (statement_text q)) = Ok [statement_tree no_text q].
Proof.
  intros Hok. unfold toy_parse_sql. change (str_bytes (statement_text q)) with (text_bytes (statement_tokens q)).
  rewrite lex_tokens by (done || apply (statement_phrase q Hok)). cbn [mbind option_bind]. destruct q as [q|i]; cbn [statement_tokens].
  - change (toks (select_tokens q)) with (TWord "SELECT" :: tail (toks (select_tokens q))). unfold p_statement. rewrite eat_same.
    by rewrite p_select_reads by done.
  - change (toks (insert_tokens i)) with (TWord "INSERT" :: tail (toks (insert_tokens i))). unfold p_statement. rewrite eat_other by done.
    rewrite eat_same. cbn [mbind option_bind]. by rewrite p_insert_reads by done.
Qed.


(** * Witnesses *)

(** ** External functions *)

#[local] Instance mcp_server_ext : ServerExt :=
  {| request_from_json := λ l, ok_or (from_json l) "malformed";
     parse_sql := toy_parse_sql; expr_display := λ _, ""; value_display := λ _, "";
     parse_error_text := λ _, "error"; sql_error_text := λ _, "error"; server_error_text := λ _, "error" |}.

#[local] Instance mcp_sql_reads : SqlReads := {| other_text := no_text; reads_statement := toy_reads |}.

#[local] Instance mcp_sql_ext : SqlExt :=
  {| to_rfc3339 := pretty; date_text := λ t, pretty (t / 86400000000000); uuid_parse := λ _, None;
     ledger_error_text := λ e, match e with Serialization m => "Serialization error: " +:+ m | _ => "error" end; fts_match := λ _ _, true |}.

(** The client's frames in the line format of the requests. *)
Definition client_request (v : JsonValue) : option Request :=
  match v with
  | JObj [(_, JStr sql); (_, JStr token)] => Some (mkRequest (Some sql) None (Some (str_bytes token)) false None)
  | JObj [(_, JObj [(_, JStr u); (_, JStr p)])] => Some (mkRequest None (Some (u, p)) None false None)
  | _ => None
  end.
Definition toy_json_text (v : JsonValue) : string :=
  match client_request v with Some r => String.string_of_list_byte (default [] (to_json r)) | None => "" end.

Lemma client_reads v r : client_request v = Some r → request_from_json (str_bytes (toy_json_text v)) = Ok r.
Proof.
  intros Hv. unfold toy_json_text. rewrite Hv, str_bytes_of. cbn [request_from_json mcp_server_ext].
  assert (Hj : to_json r = Some (default [] (to_json r))) by done. by rewrite (json_roundtrip r _ Hj).
Qed.

#[local] Instance mcp_net_ext : NetExt.
Proof.
  refine {| json_text := toy_json_text; os_error_text := λ _, "Broken pipe"; ca_certificates := λ _, Ok tt; server_name_ok := λ _, true |};
    intros; by apply client_reads.
Defined.

#[local] Instance mcp_counter_ext : CounterExt.
Proof.
  refine {| month_text := λ t, pretty (t / 1000) |}. apply (line_json (A:=CounterState)); [|exact every].
  by refine (sc_iso (sc_string ⊗ sc_Z) (λ c, (cs_month c, cs_count c)) (λ '(a, b), mkCounterState a b) _); intros [].
Defined.

Lemma digits_quote_free s : forallb digit_byte (str_bytes s) = true → quote_free s.
Proof.
  induction s as [|a s IH]; [done|]. rewrite str_bytes_cons. intros [Ha Hs]%andb_true_iff. unfold quote_free, escape in *. cbn [replace_char].
  rewrite bool_decide_false by (intros ->; by vm_compute in Ha). by rewrite IH.
Qed.
Lemma pretty_quote_free (z : Z) : quote_free (pretty z).
Proof.
  assert (Hpos : ∀ n, 0 ≤ n → quote_free (pretty n)).
  { intros n Hn. apply digits_quote_free. pose proof (pretty_num_ok n Hn) as Hok. cbn in Hok. by destruct (str_bytes (pretty n)). }
  destruct (decide (0 ≤ z)); [by apply Hpos|]. rewrite pretty_neg by lia. apply (quote_free_app "-"); [done|]. apply Hpos. lia.
Qed.

(** ** The tools on the ledger *)

Definition ledger3 : SharedLedger := mkSharedLedger s3 false.
Definition operator : Session := mkSession "bob" Operator [] 0.
Definition arguments (l : list (string * string)) (amount : Z) : JsonValue := JObj (("amount", JInt amount) :: map (λ x, (x.1, JStr x.2)) l).
(** A description with a quote in it. *)
Definition repay : JsonValue :=
  arguments [("description", "Ann's loan'); --"); ("debit_account", "2000"); ("credit_account", "1000"); ("currency", "USD")] 200.

Definition posted := dispatch_tool "0.1.0" "post_entry" operator repay (quiet, ledger3).

Lemma posted_entries : (entry_count (quiet, sh_store posted.2.2)).1 = Ok 2.
Proof. vm_compute. reflexivity. Qed.

Lemma posted_changed : sh_store posted.2.2 ≠ s3.
Proof.
  intros He. assert (H1 : (entry_count (quiet, s3)).1 = Ok 1) by (vm_compute; reflexivity).
  pose proof posted_entries as H2. rewrite He, H1 in H2. discriminate.
Qed.

Lemma mcp_writes_authorised_witness :
  sh_store posted.2.2 ≠ s3 ∧ may_write (sn_role operator) = true ∧ "post_entry" ∈ ["query_ledger"; "post_entry"; "execute_correction"].
Proof.
  split; [exact posted_changed|].
  assert (He : dispatch_tool "0.1.0" "post_entry" operator repay (quiet, ledger3) = (posted.1, (posted.2.1, posted.2.2)))
    by (unfold posted; by destruct (dispatch_tool _ _ _ _ _) as [? []]).
  exact (mcp_writes_authorised "0.1.0" operator "post_entry" repay quiet ledger3 _ _ _ pretty_quote_free He posted_changed).
Defined.

Definition repay_spec : EntrySpec :=
  post_spec "Ann's loan'); --" "2000" "1000" 200 "USD" (given as_str "domain" "main" repay) (given as_str "external_ref" "" repay)
    (given as_str "metadata" "" repay).

Lemma post_entry_tool_exact_witness :
  repay_spec = mkEntrySpec "Ann's loan'); --" "2000" "1000" 200 "USD" None None "main" ∧
  tool_post_entry operator repay (quiet, ledger3) =
    after_post (run_result ledger3 (SqlExec.execute true (PostEntry repay_spec) (quiet, sh_store ledger3))).
Proof.
  split; [reflexivity|].
  assert (Hlen : (length (str_bytes (post_entry_sql "Ann's loan'); --" "2000" "1000" 200 "USD" (given as_str "domain" "main" repay)
    (given as_str "external_ref" "" repay) (given as_str "metadata" "" repay))) ≤ MAX_SQL_BYTES)%nat) by (apply Nat.leb_le; vm_compute; reflexivity).
  exact (post_entry_tool_exact operator repay "Ann's loan'); --" "2000" "1000" 200 "USD" quiet ledger3
    eq_refl eq_refl eq_refl eq_refl eq_refl ltac:(lia) eq_refl eq_refl Hlen).
Defined.

(** ** Reports *)

Definition january : JsonValue := JObj [("from", JStr "2026-01-01"); ("to", JStr "2026-01-31")].

Lemma period_reports_blind_witness :
  (entry_count (quiet, s3)).1 = Ok 1 ∧
  tool_summarize_period operator january (quiet, ledger3) =
  (Ok (ok_text (summary_text "2026-01-01" "2026-01-31" "main" no_figures)), (quiet, ledger3)).
Proof.
  split; [vm_compute; reflexivity|].
  exact (proj1 (period_reports_blind "0.1.0" operator january "2026-01-01" "2026-01-31" eq_refl eq_refl eq_refl eq_refl) quiet ledger3).
Defined.

Definition violations := tool_find_policy_violations operator (JObj [("large_amount_threshold_minor_units", JInt 100)]) (quiet, ledger3).

(** The ledger holds an entry of 500, above the threshold, without a reference. *)
Lemma policy_checks_blind_witness :
  map (λ e, (debit_total e, e_external_ref e)) (default [] (res_ok (entries_in_range 1 10 (quiet, s3)).1)) = [(500, None)] ∧
  ∃ pending failed, violations.1 = Ok (ok_text (violations_text
    [("### ✓ Large Transactions — none found above " +:+ pretty 100 +:+ " minor units" +:+ lf +:+ lf, 0); pending;
     ("### ✓ External References — all posted entries have a reference" +:+ lf +:+ lf, 0); failed])).
Proof.
  split; [vm_compute; reflexivity|].
  assert (Hok : is_ok violations.1 = true) by (vm_compute; reflexivity).
  destruct violations as [[v|e] σ] eqn:Hv; [|discriminate Hok].
  destruct (policy_checks_blind operator (JObj [("large_amount_threshold_minor_units", JInt 100)]) quiet ledger3 v σ Hv) as (p&f&->).
  exists p, f. reflexivity.
Defined.

Definition about_cash : JsonValue := JObj [("account", JStr "1000")].
Definition first_account (code : string) (s : LedgerStore) : Account :=
  default cash (head (List.filter (account_selected (Some (ByAccountCode code))) (all_accounts s))).

Lemma reconcile_compares_zero_witness :
  let a := first_account "1000" (sh_store ledger3) in
  balance (acc_id a) (sh_store ledger3) = 500 ∧
  tool_reconcile_account operator about_cash (quiet, ledger3) =
    (Ok (ok_text (reconcile_text (acct_row (acct_cells (sh_store ledger3) a)) 0 0)), (quiet, ledger3)) ∧
  reconcile_discrepancy (acct_row (acct_cells (sh_store ledger3) a)) 0 0 = balance (acc_id a) (sh_store ledger3).
Proof.
  cbv zeta. assert (Hb : balance (acc_id (first_account "1000" (sh_store ledger3))) (sh_store ledger3) = 500) by (vm_compute; reflexivity). split; [exact Hb|].
  assert (Hlen : (length (str_bytes (ACCOUNT_FIELDS +:+ "code = '" +:+ escape "1000" +:+ "'")) ≤ MAX_SQL_BYTES)%nat) by (apply Nat.leb_le; vm_compute; reflexivity).
  set (found := List.filter (account_selected (Some (ByAccountCode "1000"))) (all_accounts (sh_store ledger3))).
  assert (Hf : found = first_account "1000" (sh_store ledger3) :: tail found).
  { assert (Hl : (0 <? length found)%nat = true) by (vm_compute; reflexivity). unfold first_account. fold found. by destruct found. }
  assert (Hi : i64_ok (balance (acc_id (first_account "1000" (sh_store ledger3))) (sh_store ledger3))) by (rewrite Hb; unfold i64_ok; lia).
  exact (reconcile_compares_zero operator about_cash "1000" (first_account "1000" (sh_store ledger3)) (tail found) quiet ledger3
    eq_refl eq_refl eq_refl pretty_quote_free Hlen Hf Hi).
Defined.

(** ** The chain *)

Definition tampered : SharedLedger := mkSharedLedger (forged_store 1 "forged" s3) false.

Lemma serialization_shown m : ledger_error_text (Serialization m) = "Serialization error: " +:+ m.
Proof. reflexivity. Qed.

Lemma broken_chain_reads_ok_witness :
  (verify_chain_integrity (quiet, sh_store tampered)).1 = Err (Serialization "Hash chain broken at sequence 1") ∧
  ∃ es q, verify_entries ZERO_HASH es ≠ None ∧ run_sql operator VERIFY_ALL (quiet, tampered) = (Ok (Ok q), (quiet, tampered)) ∧
    text_ok (Ok q) = true ∧ response_ok_text (response_value (result_response server_config q)) = true ∧ scalar_ok (Ok q) = false.
Proof.
  assert (Hbad : (verify_chain_integrity (quiet, sh_store tampered)).1 = Err (Serialization "Hash chain broken at sequence 1")) by (vm_compute; reflexivity).
  split; [exact Hbad|].
  assert (Ht : forge_description 1 "forged" s3 = Some (forged_store 1 "forged" s3)) by (apply forged_store_run; vm_compute; reflexivity).
  destruct (reachable_inv s3 reachable_s3) as [es Hi].
  destruct (forge_run _ _ _ _ _ (inv_db _ _ Hi) Ht) as (pre&e&post&Hes&_&Hr).
  destruct (broken_chain_reads_ok server_config operator serialization_shown _ quiet tampered eq_refl eq_refl eq_refl Hr) as (q&Hq&Hok&Hresp&Hiff).
  exists (pre ++ set_description "forged" e :: post), q.
  assert (Hv : verify_entries ZERO_HASH (pre ++ set_description "forged" e :: post) ≠ None).
  { intros Hn. pose proof (verify_chain_integrity_run quiet (sh_store tampered) _ eq_refl Hr) as Hrun. rewrite Hn in Hrun.
    rewrite Hrun in Hbad. cbn [fst chain_error] in Hbad. congruence. }
  split_and!; [exact Hv|exact Hq|exact Hok|exact Hresp|]. destruct (scalar_ok (Ok q)); [|done]. destruct Hv. by apply Hiff.
Defined.

(** ** The counter *)

Definition counter2 : AgentQueryCounter := mkCounter None (mkCounterState "0" 0) 2.
Definition log4 : list (string * bool) := [("0", true); ("0", true); ("0", false); ("0", false)].

Lemma monthly_limit_holds_witness :
  res_ok (consume_log 4 (quiet, counter2)).1 = Some log4 ∧ granted log4 = 2 ∧ granted log4 ≤ qc_limit counter2.
Proof.
  assert (Hlog : (consume_log 4 (quiet, counter2)).1 = Ok log4) by (vm_compute; reflexivity).
  split; [by rewrite Hlog|]. split; [reflexivity|].
  assert (Hrun : consume_log 4 (quiet, counter2) = (Ok log4, (consume_log 4 (quiet, counter2)).2))
    by (rewrite <- Hlog; by destruct (consume_log 4 (quiet, counter2))).
  assert (Hok : counter_ok counter2) by (unfold counter_ok; cbn; lia).
  exact (monthly_limit_holds 4 quiet counter2 log4 _ [] log4 [] "0" Hok Hrun eq_refl ltac:(repeat constructor)).
Defined.

Definition bob_config : NetConfig := mkNetConfig "localhost:5433" "bob" "secret" None.
Definition app_direct : AppState (C:=ReplSafety.Link) :=
  mkAppState (Some ledger3) (Some operator) None counter2 (Some 0) 1800.
Definition hello : JsonRpcRequest := mkRpcRequest (Some (JInt 1)) "initialize" JNull.
Definition soon : World := mkWorld [1000 * NANOS; 1001 * NANOS] [] [].

Lemma only_new_sessions_counted_witness :
  let s' := (handle_message ReplSafety.link_exchange "127.0.0.1:9" server_config bob_config "0.1.0" hello (soon, app_direct)).2.2 in
  app_counter s' = counter2 ∧ app_last_initialize s' = Some (1001 * NANOS).
Proof.
  cbv zeta. assert (Hin : in_session hello soon app_direct) by (right; exists 0; split; [reflexivity|vm_compute; reflexivity]).
  pose proof (only_new_sessions_counted ReplSafety.link_exchange "127.0.0.1:9" server_config bob_config "0.1.0" hello soon app_direct Hin) as Hc.
  destruct (handle_message _ _ _ _ _ _ _) as [r [W' s']]. destruct Hc as [Hcount Hinit]. split; [exact Hcount|]. exact (proj2 (Hinit eq_refl)).
Defined.

(** ** The network *)

Definition fresh_link : McpNet.Link (C:=ReplSafety.Link) := mkLink (mkServer s3 users3 None None) Conn_new 0 "".
Notation net m := (m ReplSafety.link_exchange "127.0.0.1:9" server_config bob_config) (only parsing).
Definition some_numbers : list Z := map (λ n, 2 * Z.of_nat n + 101) (seq 0 200).
Definition opened_link : McpNet.Link := (net (open_connection (C:=ReplSafety.Link)) (mkWorld [] some_numbers [], fresh_link)).2.2.

(** The 23rd call of the operating system fails: reading the answer to the
    statement, after the server has handled it. *)
Definition answer_lost : World := mkWorld [] (drop 50 some_numbers) (replicate 22 false ++ [true]).
Definition one_call := net (net_post_entry (C:=ReplSafety.Link)) repay (answer_lost, opened_link).

(** A call of [post_entry] in network mode may post its entry twice.  When
    the connection is lost after the server executed the statement and before its
    answer is read, the client connects again and sends the same statement, which
    has no idempotency key: the call answers with the second posting only, and the
    ledger, which held one entry, holds three. *)
Theorem lost_answer_posts_twice :
  (entry_count (quiet, sv_ledger (lk_server opened_link))).1 = Ok 1 ∧
  (∃ text, one_call.1 = Ok (ok_text text)) ∧
  (entry_count (quiet, sv_ledger (lk_server one_call.2.2))).1 = Ok 3 ∧
  map debit_total (default [] (res_ok (entries_in_range 2 3 (quiet, sv_ledger (lk_server one_call.2.2))).1)) = [200; 200].
Proof. split; [vm_compute; reflexivity|]. split; [eexists; vm_compute; reflexivity|]. split; vm_compute; reflexivity. Qed.

(** An account name that would be a second statement if it left its literal. *)
Definition hostile : JsonValue :=
  JObj [("account", JStr "x'); INSERT INTO ledger (amount) VALUES (1); --")].

Lemma network_reads_change_nothing_witness :
  (∃ v, (net (dispatch_tool_network (C:=ReplSafety.Link)) "get_balance" hostile (answer_lost, opened_link)).1 = Ok v) ∧
  sv_ledger (lk_server (net (dispatch_tool_network (C:=ReplSafety.Link)) "get_balance" hostile (answer_lost, opened_link)).2.2) =
    sv_ledger (lk_server opened_link).
Proof.
  split; [eexists; vm_compute; reflexivity|].
  apply (network_reads_change_nothing ReplSafety.link_exchange "127.0.0.1:9" server_config bob_config "get_balance" hostile answer_lost opened_link).
  apply (bool_decide_unpack ("get_balance" ∉ NET_WRITERS)). vm_compute. exact I.
Defined.
